(* ===== verification/_CoqProject ===== *)
-Q . S2P
Prelude.v
GoText.v
GoNumber.v
GoFloat.v
PortablePath.v
JobModel.v
Effects.v
Migrate.v
Execution.v
Sql.v
JobStore.v
ExecutionStore.v
LogStore.v
Custody.v
Worker.v
Runner.v
Container.v
Encoding.v
Rendezvous.v
Snapshot.v
Transfer.v
ContentCache.v
Retention.v
Ignore.v
Project.v
Base32.v
Device.v
KeyFiles.v
Mdns.v
Trust.v
TrustStore.v
Pairing.v
Ceremony.v
Wire.v
Frames.v
Remote.v
Endpoint.v
Payload.v
IcePath.v
RendezvousClient.v
ArtifactStore.v
Hosts.v
Workspace.v
StatePaths.v
Restore.v
RemoteWorker.v
Selection.v
LocalWire.v
LocalIpc.v
LocalHandler.v
RemoteConn.v
Orchestrator.v
Daemon.v
Stocking.v
Delivery.v
CliText.v
Machine.v
Setup.v
Options.v
Cli.v
CliDevices.v
Diagnostics.v
