(* ===== verification/Prelude.v ===== *)
(** * ComputeHop: a verification development (root file)

    ComputeHop runs jobs of one device on another.  A worker daemon keeps jobs,
    execution attempts and logs in SQLite, supervises each job from a runner
    process, and receives the project as a snapshot of content-addressed chunks.
    An orchestrator daemon pairs with workers, chooses one for a job, sends the
    snapshot, follows the job and fetches its outputs; paired devices find each
    other on the local network or through a hosted rendezvous service.  This
    library models the parts that carry that logic, as Rocq functions translated
    from the Go sources under src/, and proves what makes them correct.

    ** Files

    - [Prelude]: errors as lists of sentinels, results, machine integers, times,
      the tactics [reflect_bools] and [invert_ok], the hint databases [hop] and
      [hop_rw], generic lemmas on lists.
    - [GoText]: Go strings, UTF-8, hexadecimal and big-endian codecs.  [GoNumber]:
      numbers as text (strconv).  [Encoding]: base64 (RawURLEncoding).  [Base32]: the
      identifiers' encoding.
    - [PortablePath]: internal/portablepath/path.go, with [path.Clean] and [path.Dir].
    - [JobModel]: internal/job (states, transitions, identifiers, specifications,
      jobs, progress).  [Execution]: internal/execution/attempt.go.
    - [Effects]: transactions ([Tx], a database to a result and a database), and the
      monad [M] of code that runs them: a world has a database, a clock, an oracle
      that makes accesses fail, and what other users of the database do between two
      accesses.  [Hosts]: programs over several such worlds ([Run], [zoom]), with
      the calculi [runs] (what a run ends in) and [stays] (what it keeps).
    - [Migrate]: internal/infra/sqlite/migrate.go and database.go, opening a database.
    - [Sql], [JobStore]: internal/infra/sqlite/job_repository.go over the tables of
      the migrations 001, 008 and 011, whose CHECK, UNIQUE and foreign-key
      constraints are part of the statements.  [ExecutionStore]:
      execution_repository.go over 002.  [LogStore]: internal/logging with
      log_repository.go, over a file whose writes may be partial; a power loss may take
      its unsynced tail, the last transactions of the database, and the file itself.
    - [Custody]: the state machine of a job and its attempt under every operation
      of the repositories (the step relation [worker_step]) and its invariant.
    - [Worker]: internal/app/worker/jobs.go (JobService) and dispatcher.go.
      [Runner]: runner.go, driven by lists of the events its select loops receive.
      [Container]: container_executor.go and the set of executors.
    - [Rendezvous]: internal/connectivity/rendezvous/service.go.
    - [Snapshot]: internal/snapshot/model.go, chunker.go and the file building of
      builder.go.  [Ignore]: the rules of ignore.go with [path.Match].  [Project]: the
      walks of ignore.go, builder.go and declared.go over [view]s of the file system.
      [Transfer]: internal/transfer/chunk.go.
    - [ContentCache]: internal/contentcache/cache.go, content_cache_repository.go and
      the chunk store of internal/infra/cas (managed.go, store.go), with its files,
      index and pins as one state that other threads may change between accesses.
      [Retention]: why a chunk that was stored stays while a use has begun.
    - [Device]: internal/device and the nearby devices of
      internal/app/orchestrator/devices.go.  [KeyFiles]: the identity and the local
      token in files (internal/infra/identity, internal/platform/permissions), as
      processes that take file-system steps in any order.  [Mdns]:
      internal/infra/discovery/mdns.  [Trust]: internal/trust and
      internal/session/pairing.go.  [TrustStore]: trust_repository.go and
      placement_repository.go with internal/placement.  [Pairing]:
      internal/app/pairing/service.go; [Ceremony]: two of its services facing each
      other.  [Endpoint]: internal/infra/transport/quic, from the handshake to streams.
    - Hosted connectivity: [Rendezvous] (above); [Payload]: sealed payloads and their
      credentials; [RendezvousClient]: the client of the service; [IcePath]: an ICE
      session; [RemoteConn]: internal/connectivity/remoteconn, which supervises the
      paths to paired devices.
    - [Wire]: internal/protocol/mapper (remote_job.go, chunk.go, snapshot.go).
      [Frames]: the framing of internal/protocol/localipc/frame.go and of
      internal/protocol/remote.  [Remote]: internal/protocol/remote/remote.go, both
      sides of an exchange.
    - [ArtifactStore]: internal/artifact and artifact_repository.go.  [Workspace] and
      [Restore]: internal/infra/cas/workspace.go and artifacts.go over directory
      trees.  [RemoteWorker]: the rest of jobs.go and
      internal/app/worker/remote_handler.go.
    - [Selection] and [Orchestrator]: internal/app/orchestrator/remote_jobs.go.  The
      class [Network] is what it expects of connections to workers.
    - [Stocking]: what the operations of [ContentCache] do to a store with room.
      [Delivery]: an orchestrator and a worker connected ([direct], the checks of
      both ends of [Remote] around the handler of [RemoteWorker]).
    - Local control: [LocalWire]: the mappers of the local protocol; [LocalIpc]:
      internal/protocol/localipc; [LocalHandler]:
      internal/app/orchestrator/local_handler.go; [Daemon]: the handler with the
      services of the other files behind it.
    - The command line (cmd/computehop): [CliText]: tables, dates and literals of Go;
      [Setup]: the setup commands of root.go and their quoting, with shells as the
      specification; [Cli]: the commands on jobs; [CliDevices]: the commands on devices
      and pairings; [Diagnostics]: diagnostics.go.  A daemon is the interface [Caller].
    - The daemon's surroundings: [GoFloat]: floating-point numbers and [ParseFloat];
      [Options]: the options of cmd/computehopd (main.go, bytesize.go), with the
      command lines of runner_launcher.go and of worker packages; [StatePaths]:
      internal/platform/paths; [Machine]: internal/platform/capabilities and resources,
      the executors of computehopd and the native commands of processes/process.go.

    Definitions keep the names of the sources; a method [T.F] is [T_F] or [F], and a
    loop of a function is a [Fixpoint] beside it.

    ** What is proved

    - Custody of jobs ([Custody], [ExecutionStore], [JobStore]): jobs and attempts
      stay in step in every reachable state; a queued job is claimed by at most one
      runner, only its owner moves it on, its completion is final, its audit trail
      is a path of the transition graph; transitions are exclusive; what is stored
      is read back.
    - Services ([Worker], [Runner]): every operation keeps that invariant even when
      any database access fails; cancellation reaches the runner, lost runners are
      recovered, a supervised run always reports a completion the repository takes.
    - Logs ([LogStore]): appending refines a log of bytes under partial writes and
      failures, paging returns it exactly; after a power loss the log is what an earlier
      index said, byte for byte, or, if its file is gone, nothing of it is read.
    - Rendezvous: memory is bounded whatever clients send, a route is private to
      the holders of its token, polling delivers every signal once and in order.
    - Content ([PortablePath], [Snapshot], [Transfer]): validated paths stay below
      their root, valid manifests describe trees that can be written out, the
      canonical encoding is injective, chunking depends on the content alone, built
      files are contents the file had, chunks survive the wire.
    - Project snapshots ([Ignore], [Project]): a snapshot holds exactly the files that
      the ignore rules let through, never metadata of Git or ComputeHop, credentials
      only if a rule of the project asks for them; collected outputs are exactly the
      files that were declared.
    - Chunk store ([ContentCache]): the quota evicts least recently used chunks, only
      as many as needed and never one in use; what is put can be read back and what
      is read is verified; every operation keeps each file a content that its name
      names, the index sound and the reservations bounded; chunks in use stay.
    - Trust ([TrustStore], [Pairing], [Ceremony]): a device is pinned only after both
      sides confirmed the same code, a pin never changes, the tables stay consistent,
      a placement is final; two services that confirm end up trusting each other.
    - Protocol ([Wire], [Frames], [Remote]): what is sent is received as it was, one
      request is handled once whatever the pieces its bytes come in, and a request
      that is not understood never reaches the handler.
    - Outputs and workspaces ([ArtifactStore], [Workspace], [Restore]): a workspace
      appears whole or not at all and holds exactly the manifest's files; results not
      yet fetched survive eviction; restoring never touches a file that was there when
      it looked.
    - Remote jobs ([RemoteWorker], [Orchestrator]): a worker keeps its invariants
      whatever it is asked, answers what was asked for, and hands out only the
      outputs of the job; the orchestrator chooses the best fitting worker, can
      always find a job it submitted, and fetching outputs keeps the user's files,
      whatever the worker answers, as long as nobody else writes to them meanwhile.
    - The two together ([Delivery]): when nothing fails, a submission with a project
      snapshot arrives: the job is queued on the worker in a workspace with the files
      of the project, byte for byte, and the orchestrator knows where it is.
    - Credentials and identity ([KeyFiles], [Endpoint]): processes that create the
      token at once agree on it, the identity survives crashes that leave the state
      directory, both ends of a handshake agree on each other, and streams are served to pinned devices only.
    - Hosted connectivity ([Payload], [RendezvousClient], [IcePath], [RemoteConn]):
      payloads open only with the secret, route and role they were sealed for, two
      devices find each other, a session gives out one path, every paired device is
      supervised by one generation after another, and dials reach the pinned device.
    - Discovery ([Mdns]): an announced device is observed as it announced itself.
    - Databases and executors ([Migrate], [Container]): migrations run once each,
      whatever interrupts them; every container whose ID is known is asked to be removed,
      and one stays only where the engine makes it.
    - Local control ([LocalIpc], [LocalHandler], [Daemon]): only a holder of the token
      is served, answers have the type of their request, secrets of paired devices
      stay inside, and no request breaks an invariant.
    - The command line ([Setup], [Cli], [CliDevices], [Diagnostics]): a shell reads a
      printed command as it was meant, a followed log is written once and in order and
      the following ends, success is reported only after the daemon said so, a command
      left to choose acts only on the only choice, and a diagnostics bundle does not
      depend on what it is to omit.
    - Surroundings ([Options], [StatePaths], [Machine]): the daemon reads the command
      lines that its launcher and a worker package write as they were meant, and the
      sizes it prints; no file of the state directory is at or below another; a worker's
      report of its machine is always accepted.

    ** Integers, time, fuel

    Integers are [Z] with [wrap_int64] and [wrap_uint64] written out where Go wraps;
    times are nanoseconds as unbounded [Z], and [unix_nano] wraps as UnixNano does.
    Recursion that is not structural has fuel: decoding runes and appending to a log
    use the length of the input (each turn takes at least a byte), the parent loop
    of a manifest the length of the path (shown enough by [has_parent_spec]), writing
    and reading a frame the number of bytes left, the preflight of a snapshot the
    number of digests (each turn takes a batch of at least one), the layout of a table
    its lines and columns ([tabulate_lines]), the redaction of a text its bytes, the
    flags of a command line its arguments (each turn takes at least one).  The
    loops of the command line that poll the daemon may run for ever; their fuel is an
    argument, [OutOfFuel] marks the cut, and [log_followed] says how much is enough for
    a job that has ended.

    ** Parameters

    Unicode tables ([UnicodeCase], [UnicodePrint], with [UnicodeCaseLaws] where needed),
    SHA-256, protobuf ([Codec]) and the sizes of its messages, the length of JSON texts,
    zstd ([Zstd], [ZstdLaws]), TLS with X.509 and the keying material it exports, HMAC
    and AES-GCM, PEM and PKCS 8, the ICE agent, HTTP, the Engine API of containers, what
    SQLite makes of the text of a migration, browsing by multicast DNS, processes and
    launchers, what the snapshotter finds in a directory ([Scene]), the network ([Network]), the daemon as the
    command line sees it ([Caller], [LogServer]) and the texts of errors are arguments
    or classes; witnesses instantiate them.

    ** Not modelled

    Generated protobuf code and the TypeScript and Swift applications; local sockets and
    pipes; signals and process trees of the operating system; the mains of the daemons
    beyond the options of computehopd, which connect the modelled parts; the texts of the
    setup guides around the modelled commands, and the archive format of a diagnostics
    bundle.  Deadlines of
    contexts and the texts of error messages are left out throughout. *)

From stdpp Require Export base gmap strings list numbers sorting.

(** ** Errors

    A Go error value is modelled by the list of sentinel errors on its
    wrapping chain, outermost first: [fmt.Errorf("%w: %w", A, B)] is
    [[A; B]], [errors.Join] is concatenation and [errors.Is(err, S)] is
    membership.  The texts of messages are not modelled. *)

Inductive sentinel :=
| DriverError            (* a database, file-system or context failure *)
| ConstraintError        (* an SQLite error whose code satisfies [Code()&0xff == 19] *)
| SqlErrNoRows
| AnonymousError         (* [errors.New] at the point of return *)
| PathErrUnsafe
| JobErrInvalidID | JobErrInvalidState | JobErrInvalidTransition | JobErrInvalidJob
| JobErrInvalidFailure | JobErrTransitionTime | JobErrFailureUnexpected
| JobErrInvalidProgress | JobErrInvalidSpec | JobErrNotFound | JobErrConflict
| ExecErrInvalidAttempt | ExecErrInvalidCompletion | ExecErrNotFound
| ExecErrNotClaimable | ExecErrOwnerMismatch | ExecErrAttemptCompleted
| SqliteErrInvalidListOptions
| LogErrInvalidRecord | LogErrInvalidPage | LogErrNotFound | LogErrConflict | LogErrCorrupt
| WorkerErrJobTerminal | WorkerErrMissingDependency
| OsErrClosed | OsErrNotExist | OsErrExist
| RendezvousErrInvalidConfiguration
| SnapshotErrInvalidDigest | SnapshotErrInvalidManifest | SnapshotErrUnsafePath
| SnapshotErrUnsupportedEntry | SnapshotErrProjectChanged
| TransferErrInvalidChunk | TransferErrUnsupportedEncoding
| IoEOF | IoErrNoProgress
| CacheErrInvalidEntry | CacheErrInvalidQuota | CacheErrQuotaExceeded | CacheErrReservationLimit
| CacheQuotaError (MaximumBytes CurrentBytes PinnedBytes : Z)
| CasErrInvalidStore | CasErrNotFound | CasErrCorrupt
| DeviceErrInvalidID | DeviceErrInvalidIdentity | DeviceErrInvalidAnnouncement
| DeviceErrInvalidObservation | DeviceErrInvalidPresenceID
| DeviceErrMissingDependency | NearbyErrNotFound | NearbyErrAmbiguous
| TrustErrInvalidPairID | TrustErrInvalidPeer | TrustErrInvalidHints | TrustErrNotFound | TrustErrConflict
| TrustErrInvalidPairing | TrustErrPairingNotFound | TrustErrPairingUnavailable
| SessionErrInvalidPeer | SessionErrProtocol | SessionErrInvalidEndpoint | PairingErrMissingDependency
| PlacementErrInvalid | PlacementErrNotFound | PlacementErrConflict
| ArtifactErrInvalidBundle | ArtifactErrNotFound | ArtifactErrConflict | ArtifactErrInvalidDestination
| IpcErrFrameTooLarge | IpcErrEmptyFrame | IoErrShortWrite | IoErrUnexpectedEOF
| ConnErrInvalidCredentialMaterial | ConnErrInvalidEncryptedPayload
| SnapshotErrInvalidRoot | SnapshotErrDeclaredOutputMissing
| RemoteErrInvalidMessage | RemoteErrFrameTooLarge | RemoteErrMismatchedResponse
| RemoteError (Code : Z) (Message : string)   (* the structured error of internal/protocol/remote *)
| IpcErrInvalidClient | IpcErrMismatchedResponse | IpcRemoteError (Code : Z) (Message : string)
| WorkerErrSnapshotsDisabled | WorkerErrSnapshotIncomplete | WorkerErrArtifactsDisabled
| WorkerErrArtifactsNotReady | WorkerErrInvalidStatus | CasErrWorkspaceExists
| OrchErrMissingRemoteDependency | OrchErrWorkerUnavailable | OrchErrWorkerIncompatible
| OrchErrPlacementPersistence | OrchErrSnapshotUnavailable | OrchErrInvalidLocalDevice
| OrchErrMissingController (which : string) | OrchErrInvalidConnectivity | IpcErrInvalidServer
| IceErrInvalidConfiguration | IceErrInvalidDescription | IceErrInvalidSessionState | IceErrNoCandidates | IceErrInvalidPresence
| ClientErrInvalidConfiguration | ClientErrInvalidRequest | ClientErrExpiredAccess | ClientErrInvalidServiceResponse
| ClientRemoteError (StatusCode Code : Z) (Message : string)   (* the RemoteError of internal/connectivity/rendezvous *)
| ConnMgrErrInvalidConfiguration | ConnMgrErrPathUnavailable | ConnMgrErrCredentialWindow
| WorkerErrContainerEngineUnavailable | PermErrInvalidCapabilityToken | PermErrUnsafeDirectory | IdentityErrUnsafeFile | DaemonErrInvalidByteSize
| CliErrDaemonNotRunning | CliErrDaemonProtocolMismatch | CliErrInvalidDaemonResponse
| OutOfFuel              (* not an error of the code: a loop of the model was cut short *).

#[global] Instance sentinel_eq_dec : EqDecision sentinel.
Proof. solve_decision. Defined.

(** The result of a Go function that returns [(A, error)]. *)
Inductive result (A : Type) :=
| Ok (value : A)
| Err (err : list sentinel).
Arguments Ok {_} _.
Arguments Err {_} _.
#[global] Instance result_eq_dec {A} `{EqDecision A} : EqDecision (result A).
Proof. solve_decision. Defined.

#[global] Instance result_ret : MRet result := fun _ a => Ok a.
#[global] Instance result_bind : MBind result := fun _ _ f r =>
  match r with Ok a => f a | Err e => Err e end.

(** [errors.Is]. *)
Definition errors_is (err : list sentinel) (target : sentinel) : bool :=
  bool_decide (target ∈ err).

(** [fmt.Errorf("%w: ...: %w", outer, err)] around the error of a result. *)
Definition wrap_err {A} (outer : sentinel) (r : result A) : result A :=
  match r with Ok a => Ok a | Err e => Err (outer :: e) end.

(** [if condition { return err }]. *)
Definition reject_if (condition : bool) (err : list sentinel) : result unit :=
  if condition then Err err else Ok tt.

(** ** Machine integers *)

Definition wrap_int64 (z : Z) : Z := (z + 2 ^ 63) `mod` 2 ^ 64 - 2 ^ 63.
Definition wrap_uint64 (z : Z) : Z := z `mod` 2 ^ 64.
Definition wrap_uint32 (z : Z) : Z := z `mod` 2 ^ 32.
Definition int64_range (z : Z) : Prop := (- 2 ^ 63 <= z < 2 ^ 63)%Z.

(** ** Time

    A [time.Time] is its instant, in nanoseconds since the Unix epoch; [UTC()]
    changes the location only and is the identity here.  Durations are
    nanoseconds. *)

Definition zero_time : Z := (-62135596800 * 1000000000)%Z.
Definition is_zero_time (t : Z) : bool := (t =? zero_time)%Z.
Definition before (t u : Z) : bool := (t <? u)%Z.
Definition after (t u : Z) : bool := (u <? t)%Z.

(** [t.Sub(u)] saturates at the bounds of a [Duration]. *)
Definition time_sub (t u : Z) : Z := Z.max (- 2 ^ 63) (Z.min (2 ^ 63 - 1) (t - u)).

(** [Time.UnixNano]: seconds times 10^9 plus nanoseconds in [int64] arithmetic. *)
Definition unix_nano (t : Z) : Z := wrap_int64 t.

(** [time.Unix(0, ns).UTC()]. *)
Definition from_unix_nano (ns : Z) : Z := ns.

Definition second : Z := 1000000000%Z.
Definition minute : Z := (60 * second)%Z.

(** ** Automation *)

Create HintDb hop discriminated.
Create Rewrite HintDb hop_rw.

(** Turns a boolean test of the code, assumed true or false, into the
    proposition it decides. *)
Ltac reflect_bools :=
  repeat match goal with
  | H : _ && _ = true |- _ => apply andb_true_iff in H as [? ?]
  | H : _ || _ = false |- _ => apply orb_false_iff in H as [? ?]
  | H : negb _ = true |- _ => apply negb_true_iff in H
  | H : negb _ = false |- _ => apply negb_false_iff in H
  | H : bool_decide _ = true |- _ => apply bool_decide_eq_true_1 in H
  | H : bool_decide _ = false |- _ => apply bool_decide_eq_false_1 in H
  | H : (_ <? _)%Z = true |- _ => apply Z.ltb_lt in H
  | H : (_ <? _)%Z = false |- _ => apply Z.ltb_ge in H
  | H : (_ <=? _)%Z = true |- _ => apply Z.leb_le in H
  | H : (_ <=? _)%Z = false |- _ => apply Z.leb_gt in H
  | H : (_ =? _)%Z = true |- _ => apply Z.eqb_eq in H
  | H : (_ =? _)%Z = false |- _ => apply Z.eqb_neq in H
  end.

(** Inverts a successful run: walks a chain of binds, guards and matches in
    hypothesis [H : ... = Ok _], keeping only the branch that succeeds. *)
Ltac invert_ok H :=
  repeat (
    unfold mbind, mret, result_bind, result_ret, wrap_err, reject_if in H; simpl in H;
    match type of H with
    | Ok _ = Ok _ => injection H as H; try subst
    | Err _ = Ok _ => discriminate H
    | context [match ?x with _ => _ end] =>
        lazymatch x with
        | context [match _ with _ => _ end] => fail
        | _ => let E := fresh "E" in destruct x eqn:E; try discriminate H
        end
    end).

Ltac destruct_unit := repeat match goal with u : unit |- _ => destruct u end.

(** ** Generic lemmas *)

Lemma wrap_int64_range z : int64_range (wrap_int64 z).
Proof.
  unfold int64_range, wrap_int64.
  pose proof (Z.mod_pos_bound (z + 2 ^ 63) (2 ^ 64)). lia.
Qed.

Lemma wrap_int64_id z : int64_range z → wrap_int64 z = z.
Proof. unfold int64_range, wrap_int64. intros ?. rewrite Z.mod_small; lia. Qed.

Lemma wrap_int64_idemp z : wrap_int64 (wrap_int64 z) = wrap_int64 z.
Proof. apply wrap_int64_id, wrap_int64_range. Qed.

Lemma unix_nano_roundtrip t : int64_range t → from_unix_nano (unix_nano t) = t.
Proof. apply wrap_int64_id. Qed.

(** The first [n] elements of a sorted list are below the others. *)
Lemma StronglySorted_take_drop {A} (R : A → A → Prop) l n x y :
  StronglySorted R l → x ∈ take n l → y ∈ drop n l → R x y.
Proof.
  intros Hs. revert n. induction Hs as [|a l Hs IH Hall]; intros [|n]; simpl; try (set_solver).
  rewrite elem_of_cons. intros [->|Hx] Hy; [|by eapply IH].
  rewrite Forall_forall in Hall. apply Hall.
  rewrite <-(take_drop n l). set_solver.
Qed.

Lemma StronglySorted_filter {A} (R : A → A → Prop) (P : A → Prop) `{∀ x, Decision (P x)} l :
  StronglySorted R l → StronglySorted R (filter P l).
Proof.
  induction 1 as [|x l Hs IH Hall]; [constructor|]. rewrite filter_cons. case_decide; [|done].
  constructor; [done|]. apply Forall_forall. intros y [_ Hy]%list_elem_of_filter.
  by eapply Forall_forall in Hall.
Qed.

Lemma length_filter_le {A} (P : A → Prop) `{∀ x, Decision (P x)} l : length (filter P l) ≤ length l.
Proof. induction l as [|x l IH]; [done|]. rewrite filter_cons. case_decide; simpl; lia. Qed.

Lemma filter_full {A} (P : A → Prop) `{∀ x, Decision (P x)} l : length l ≤ length (filter P l) → filter P l = l.
Proof.
  induction l as [|x l IH]; [done|]. rewrite filter_cons. pose proof (length_filter_le P l). case_decide; simpl; intros; [|lia].
  f_equal. apply IH. lia.
Qed.

Lemma StronglySorted_snoc {A} (R : A → A → Prop) l x :
  StronglySorted R l → Forall (λ y, R y x) l → StronglySorted R (l ++ [x]).
Proof.
  induction 1 as [|y l Hs IH Hall]; intros Hx; simpl; [by repeat constructor|].
  apply Forall_cons in Hx as [Hy Hx]. constructor; [by apply IH|]. apply Forall_app. by repeat constructor.
Qed.

Lemma filter_none {A} (P : A → Prop) `{∀ x, Decision (P x)} l : Forall (λ x, ¬ P x) l → filter P l = [].
Proof. induction 1; [done|]. rewrite filter_cons, decide_False; done. Qed.

Lemma filter_all {A} (P : A → Prop) `{∀ x, Decision (P x)} l : Forall P l → filter P l = l.
Proof. induction 1; [done|]. rewrite filter_cons, decide_True by done. by f_equal. Qed.

(** A test on the numbers below [k], decided by evaluating it on all of them. *)
Lemma forallb_below (f : Z → bool) (k : nat) n :
  forallb f (Z.of_nat <$> seq 0 k) = true → (0 ≤ n < Z.of_nat k)%Z → f n = true.
Proof.
  rewrite forallb_forall. intros Hall Hn. apply Hall, list_elem_of_In, list_elem_of_fmap. exists (Z.to_nat n).
  split; [lia|]. apply elem_of_seq. lia.
Qed.

Lemma existsb_none {A} (f : A → bool) l : existsb f l = false ↔ ∀ x, x ∈ l → f x = false.
Proof.
  induction l as [|y l IH]; simpl; [split; [by intros _ x ?%elem_of_nil|done]|]. rewrite orb_false_iff, IH. set_solver.
Qed.

Lemma forallb_fails {A} (f : A → bool) l : forallb f l = false → ∃ x, x ∈ l ∧ f x = false.
Proof.
  induction l as [|y l IH]; simpl; [done|]. intros [E|E]%andb_false_iff; [exists y; set_solver|].
  destruct (IH E) as (x & Hx & Hf). exists x. set_solver.
Qed.

Lemma result_bind_ok {A B} (r : result A) (f : A → result B) b :
  (r ≫= f) = Ok b ↔ ∃ a, r = Ok a ∧ f a = Ok b.
Proof.
  destruct r as [a|e]; split; simpl.
  - intros H. by exists a.
  - intros (a' & [= ->] & H). exact H.
  - discriminate.
  - intros (a' & [=] & _).
Qed.

Lemma reject_if_ok c e u : reject_if c e = Ok u ↔ c = false.
Proof. destruct c, u; simpl; split; congruence. Qed.

Lemma wrap_err_ok {A} s (r : result A) a : wrap_err s r = Ok a ↔ r = Ok a.
Proof. destruct r; simpl; split; congruence. Qed.

#[export] Hint Resolve wrap_int64_range wrap_int64_idemp : hop.
#[export] Hint Rewrite wrap_int64_idemp @wrap_err_ok reject_if_ok : hop_rw.
