(* ===== verification/GoText.v ===== *)
(** * Go strings, bytes and text codecs

    What the sources use of Go's [strings], [unicode/utf8], [unicode] and
    [encoding/hex] packages.  A Go [string] is Stdlib's [string] (a sequence of
    8-bit characters) and a [[]byte] is a [list ascii]; positions and lengths
    count bytes, as in Go.  The Unicode case tables beyond ASCII are data of the
    Go distribution and enter as the class [UnicodeCase]. *)

From S2P Require Import Prelude.
From Stdlib Require Import Ascii.

Abbreviation bytes := (list ascii).
Abbreviation bytes_of := String.list_ascii_of_string.
Abbreviation str_of := String.string_of_list_ascii.

#[global] Instance ascii_inhabited : Inhabited ascii := populate Ascii.zero.

(** The value of a byte, and the conversion [byte(z)]. *)
Definition val (c : ascii) : Z := Z.of_N (N_of_ascii c).
Definition byte_of (z : Z) : ascii := ascii_of_N (Z.to_N (z `mod` 256)).

(** ** Package strings, on bytes *)

(** [strings.IndexByte(s, c) >= 0]. *)
Definition contains_byte (c : ascii) (s : string) : bool := bool_decide (c ∈ bytes_of s).

(** [strings.ContainsAny(s, chars)] for ASCII [chars]. *)
Definition contains_any (s : string) (chars : bytes) : bool :=
  existsb (fun c => bool_decide (c ∈ chars)) (bytes_of s).

(** [strings.HasPrefix] and [strings.HasSuffix]. *)
Fixpoint list_prefix (p l : bytes) : bool :=
  match p, l with
  | [], _ => true
  | a :: p', b :: l' => bool_decide (a = b) && list_prefix p' l'
  | _ :: _, [] => false
  end.
Definition has_prefix (s prefix : string) : bool := list_prefix (bytes_of prefix) (bytes_of s).
Definition has_suffix (s suffix : string) : bool :=
  list_prefix (reverse (bytes_of suffix)) (reverse (bytes_of s)).

(** [strings.Split(s, sep)] for a separator of one byte: always at least one
    segment, the empty string included. *)
Fixpoint split_bytes (sep : ascii) (l : bytes) : list bytes :=
  match l with
  | [] => [[]]
  | c :: l' =>
      if bool_decide (c = sep) then [] :: split_bytes sep l'
      else match split_bytes sep l' with
           | [] => [[c]]
           | seg :: segs => (c :: seg) :: segs
           end
  end.
Definition split (sep : ascii) (s : string) : list string :=
  map str_of (split_bytes sep (bytes_of s)).

(** [strings.Join] with a one-byte separator. *)
Fixpoint join_bytes (sep : ascii) (segs : list bytes) : bytes :=
  match segs with
  | [] => []
  | [seg] => seg
  | seg :: segs' => seg ++ sep :: join_bytes sep segs'
  end.

(** [strings.ReplaceAll(s, string(c), "")]. *)
Definition remove_byte (c : ascii) (l : bytes) : bytes := filter (fun d => d ≠ c) l.

(** Go's [<] and [<=] on strings: bytewise lexicographic. *)
Definition str_ltb (a b : string) : bool := String.ltb a b.
Definition str_leb (a b : string) : bool := String.leb a b.

(** ** Package unicode/utf8 *)

Definition continuation (c : ascii) : bool := (0x80 <=? val c)%Z && (val c <=? 0xBF)%Z.
Definition in_range (lo hi : Z) (c : ascii) : bool := (lo <=? val c)%Z && (val c <=? hi)%Z.
Definition rune_error : Z := 0xFFFD.

(** One decoded position of a string: its rune, the bytes it was read from and
    whether these are a valid encoding (an invalid byte reads as U+FFFD). *)
Record rune_at := RuneAt { rune_value : Z; rune_bytes : bytes; rune_valid : bool }.

Definition two (b0 b1 : ascii) : rune_at :=
  RuneAt ((val b0 - 0xC0) * 64 + (val b1 - 0x80))%Z [b0; b1] true.
Definition three (b0 b1 b2 : ascii) : rune_at :=
  RuneAt ((val b0 - 0xE0) * 4096 + (val b1 - 0x80) * 64 + (val b2 - 0x80))%Z [b0; b1; b2] true.
Definition lead3 (b0 b1 : ascii) : bool :=
  in_range 0xE0 0xEF b0
  && in_range (if (val b0 =? 0xE0)%Z then 0xA0 else 0x80) (if (val b0 =? 0xED)%Z then 0x9F else 0xBF) b1.
Definition lead4 (b0 b1 : ascii) : bool :=
  in_range 0xF0 0xF4 b0
  && in_range (if (val b0 =? 0xF0)%Z then 0x90 else 0x80) (if (val b0 =? 0xF4)%Z then 0x8F else 0xBF) b1.

(** [utf8.DecodeRune] on [b0 :: rest]: the acceptance ranges of the first
    continuation byte exclude overlong forms and surrogates. *)
Definition decode_rune (b0 : ascii) (rest : bytes) : rune_at :=
  if (val b0 <? 0x80)%Z then RuneAt (val b0) [b0] true
  else match rest with
  | b1 :: b2 :: b3 :: _ =>
      if in_range 0xC2 0xDF b0 && continuation b1 then two b0 b1
      else if lead3 b0 b1 && continuation b2 then three b0 b1 b2
      else if lead4 b0 b1 && continuation b2 && continuation b3 then
        RuneAt ((val b0 - 0xF0) * 262144 + (val b1 - 0x80) * 4096
                + (val b2 - 0x80) * 64 + (val b3 - 0x80))%Z [b0; b1; b2; b3] true
      else RuneAt rune_error [b0] false
  | b1 :: b2 :: _ =>
      if in_range 0xC2 0xDF b0 && continuation b1 then two b0 b1
      else if lead3 b0 b1 && continuation b2 then three b0 b1 b2
      else RuneAt rune_error [b0] false
  | b1 :: _ =>
      if in_range 0xC2 0xDF b0 && continuation b1 then two b0 b1
      else RuneAt rune_error [b0] false
  | [] => RuneAt rune_error [b0] false
  end.

(** The runes a [range] loop over the string visits.  Each consumes at least
    one byte, so the length of the string is enough fuel. *)
Fixpoint runes_fuel (fuel : nat) (l : bytes) : list rune_at :=
  match fuel, l with
  | S fuel', b0 :: rest =>
      let r := decode_rune b0 rest in r :: runes_fuel fuel' (drop (length (rune_bytes r)) l)
  | _, _ => []
  end.
Definition runes (l : bytes) : list rune_at := runes_fuel (length l) l.

(** [utf8.ValidString]. *)
Definition utf8_valid (s : string) : bool := forallb rune_valid (runes (bytes_of s)).

(** [utf8.AppendRune]: surrogates and values out of range become U+FFFD. *)
Definition encode_rune (r : Z) : bytes :=
  (let r := if (r <? 0) || (0x10FFFF <? r) || ((0xD800 <=? r) && (r <=? 0xDFFF))
            then rune_error else r in
   if r <? 0x80 then [byte_of r]
   else if r <? 0x800 then [byte_of (0xC0 + r / 64); byte_of (0x80 + r `mod` 64)]
   else if r <? 0x10000 then
     [byte_of (0xE0 + r / 4096); byte_of (0x80 + (r / 64) `mod` 64); byte_of (0x80 + r `mod` 64)]
   else [byte_of (0xF0 + r / 262144); byte_of (0x80 + (r / 4096) `mod` 64);
         byte_of (0x80 + (r / 64) `mod` 64); byte_of (0x80 + r `mod` 64)])%Z.

(** ** Package unicode *)

(** [unicode.IsSpace]: Latin-1 spaces and the White_Space property beyond. *)
Definition is_space (r : Z) : bool :=
  ((9 <=? r) && (r <=? 13) || (r =? 32) || (r =? 0x85) || (r =? 0xA0) || (r =? 0x1680)
   || (0x2000 <=? r) && (r <=? 0x200A) || (r =? 0x2028) || (r =? 0x2029)
   || (r =? 0x202F) || (r =? 0x205F) || (r =? 0x3000))%Z.

(** [unicode.IsControl]: category Cc. *)
Definition is_control (r : Z) : bool := ((0 <=? r) && (r <=? 0x1F) || (0x7F <=? r) && (r <=? 0x9F))%Z.

(** [unicode.ToLower] and [unicode.ToUpper] beyond ASCII. *)
Class UnicodeCase := { unicode_lower : Z → Z; unicode_upper : Z → Z }.

(** Tables without case pairs beyond ASCII, for evaluation on ASCII inputs. *)
Definition ascii_case : UnicodeCase :=
  {| unicode_lower := fun r => r; unicode_upper := fun r => r |}.

(** ** Package strings, on runes *)

Fixpoint drop_spaces (l : list rune_at) : list rune_at :=
  match l with
  | r :: l' => if is_space (rune_value r) then drop_spaces l' else l
  | [] => []
  end.

(** [strings.TrimSpace]. *)
Definition trim_space (s : string) : string :=
  str_of (concat (map rune_bytes
    (reverse (drop_spaces (reverse (drop_spaces (runes (bytes_of s)))))))).

Definition ascii_lower (r : Z) : Z := (if (65 <=? r) && (r <=? 90) then r + 32 else r)%Z.
Definition ascii_upper (r : Z) : Z := (if (97 <=? r) && (r <=? 122) then r - 32 else r)%Z.

(** [strings.ToLower] and [strings.ToUpper]: [strings.Map] re-encodes every
    rune, so a byte that is not UTF-8 becomes the encoding of U+FFFD. *)
Definition to_lower `{UnicodeCase} (s : string) : string :=
  str_of (concat (map (fun r => encode_rune
    (if (rune_value r <? 128)%Z then ascii_lower (rune_value r) else unicode_lower (rune_value r)))
    (runes (bytes_of s)))).
Definition to_upper `{UnicodeCase} (s : string) : string :=
  str_of (concat (map (fun r => encode_rune
    (if (rune_value r <? 128)%Z then ascii_upper (rune_value r) else unicode_upper (rune_value r)))
    (runes (bytes_of s)))).

(** ** Package encoding/hex *)

Definition hex_digit (n : Z) : ascii :=
  byte_of (if (n <? 10)%Z then 48 + n else 87 + n)%Z.
Definition hex_val (c : ascii) : option Z :=
  let v := val c in
  (if (48 <=? v) && (v <=? 57) then Some (v - 48)
   else if (97 <=? v) && (v <=? 102) then Some (v - 87)
   else if (65 <=? v) && (v <=? 70) then Some (v - 55)
   else None)%Z.

(** [hex.EncodeToString] and [hex.DecodeString]. *)
Definition hex_byte (c : ascii) : bytes := [hex_digit (val c / 16); hex_digit (val c `mod` 16)].
Definition hex_encode (l : bytes) : bytes := concat (map hex_byte l).
Fixpoint hex_decode (l : bytes) : option bytes :=
  match l with
  | [] => Some []
  | [_] => None
  | a :: b :: l' =>
      match hex_val a, hex_val b, hex_decode l' with
      | Some hi, Some lo, Some rest => Some (byte_of (hi * 16 + lo)%Z :: rest)
      | _, _, _ => None
      end
  end.

(** [binary.BigEndian]: the [n] low-order bytes of [z], most significant first. *)
Fixpoint big_endian (n : nat) (z : Z) : bytes :=
  match n with
  | 0 => []
  | S n' => big_endian n' (z / 256) ++ [byte_of z]
  end.
Definition from_big_endian (l : bytes) : Z := fold_left (fun acc c => acc * 256 + val c)%Z l 0%Z.

(** ** Lemmas *)

(** Decides a statement about every byte by evaluating it on all 256. *)
Ltac all_bytes :=
  let c := fresh "c" in intros c; destruct c as [[] [] [] [] [] [] [] []]; vm_compute.

Lemma val_range : ∀ c, (0 <= val c < 256)%Z.
Proof. all_bytes; split; congruence. Qed.

Lemma byte_of_val : ∀ c, byte_of (val c) = c.
Proof. all_bytes; reflexivity. Qed.

Lemma val_byte_of z : val (byte_of z) = (z `mod` 256)%Z.
Proof.
  unfold val, byte_of. pose proof (Z.mod_pos_bound z 256 ltac:(lia)).
  rewrite N_ascii_embedding by lia. rewrite Z2N.id; lia.
Qed.

Lemma length_big_endian n z : length (big_endian n z) = n.
Proof. revert z. induction n as [|n IH]; intros z; simpl; [done|]. rewrite length_app, IH. simpl. lia. Qed.

Lemma from_big_endian_encode n z : (0 ≤ z < 256 ^ Z.of_nat n)%Z → from_big_endian (big_endian n z) = z.
Proof.
  revert z. induction n as [|n IH]; intros z Hz; cbn [big_endian]; [change (256 ^ Z.of_nat 0)%Z with 1%Z in *; by replace z with 0%Z by lia|].
  rewrite Nat2Z.inj_succ, Z.pow_succ_r in Hz by lia. unfold from_big_endian in *. rewrite fold_left_app, IH; simpl.
  - rewrite val_byte_of. pose proof (Z.div_mod z 256). lia.
  - split; [apply Z.div_pos; lia|apply Z.div_lt_upper_bound; lia].
Qed.

Lemma str_of_bytes_of s : str_of (bytes_of s) = s.
Proof. apply String.string_of_list_ascii_of_string. Qed.

Lemma bytes_of_str_of l : bytes_of (str_of l) = l.
Proof. apply String.list_ascii_of_string_of_list_ascii. Qed.

Lemma bytes_of_app (a b : string) : bytes_of (a +:+ b) = bytes_of a ++ bytes_of b.
Proof. induction a as [|c a IH]; [done|]. change (c :: bytes_of (a +:+ b) = c :: (bytes_of a ++ bytes_of b)). by rewrite IH. Qed.

Lemma length_bytes_of s : length (bytes_of s) = String.length s.
Proof. induction s; simpl; congruence. Qed.

Lemma length_str_of l : String.length (str_of l) = length l.
Proof. by rewrite <-length_bytes_of, bytes_of_str_of. Qed.

Lemma list_prefix_spec p l : list_prefix p l = true ↔ ∃ k, l = p ++ k.
Proof.
  revert l. induction p as [|a p IH]; intros l; simpl.
  - split; [by exists l|done].
  - destruct l as [|b l]; [by split; [done|intros (?&?)]|].
    rewrite andb_true_iff, bool_decide_eq_true, IH.
    split; [intros [-> (k&->)]; by exists k|intros (k&[= -> ->]); eauto].
Qed.

(** Splitting cuts at every separator: joining gives the string back, and no
    segment contains the separator. *)
Lemma split_bytes_nonempty sep l : split_bytes sep l ≠ [].
Proof.
  destruct l; simpl; [done|]. case_bool_decide; [done|]. by destruct split_bytes.
Qed.

Lemma join_split sep l : join_bytes sep (split_bytes sep l) = l.
Proof.
  induction l as [|c l IH]; simpl; [done|].
  pose proof (split_bytes_nonempty sep l) as Hne.
  case_bool_decide as Hc.
  - subst. simpl. destruct (split_bytes sep l) eqn:E; [done|]. by rewrite <-IH.
  - destruct (split_bytes sep l) as [|seg [|seg' segs]]; simpl in *; congruence.
Qed.

Lemma split_no_sep sep l : Forall (λ seg, sep ∉ seg) (split_bytes sep l).
Proof.
  induction l as [|c l IH]; simpl.
  - constructor; [set_solver|done].
  - case_bool_decide as Hc; [constructor; [set_solver|done]|].
    destruct (split_bytes sep l) as [|seg segs]; [constructor; set_solver|].
    inversion IH; subst. constructor; [set_solver|done].
Qed.

Lemma split_bytes_cons_no_sep sep seg : sep ∉ seg → split_bytes sep seg = [seg].
Proof.
  induction seg as [|c seg IH]; simpl; [done|]. intros Hn.
  rewrite bool_decide_eq_false_2 by set_solver. by rewrite IH by set_solver.
Qed.

Lemma split_bytes_app sep seg l :
  sep ∉ seg → split_bytes sep (seg ++ sep :: l) = seg :: split_bytes sep l.
Proof.
  induction seg as [|c seg IH]; simpl; intros Hn.
  - by rewrite bool_decide_eq_true_2.
  - rewrite bool_decide_eq_false_2 by set_solver. by rewrite IH by set_solver.
Qed.

Lemma split_join sep segs :
  segs ≠ [] → Forall (λ seg, sep ∉ seg) segs → split_bytes sep (join_bytes sep segs) = segs.
Proof.
  induction segs as [|seg segs IH]; [done|]. intros _ Hall.
  apply Forall_cons in Hall as [Hseg Hall]. destruct segs as [|seg' segs].
  - by apply split_bytes_cons_no_sep.
  - change (join_bytes sep (seg :: seg' :: segs))
      with (seg ++ sep :: join_bytes sep (seg' :: segs)).
    rewrite split_bytes_app by done. by rewrite IH.
Qed.

(** *** Order *)

Lemma str_leb_le a b : str_leb a b = true ↔ String.le a b.
Proof. unfold str_leb, String.le. by rewrite Is_true_true. Qed.

Lemma str_leb_trans a b c : str_leb a b = true → str_leb b c = true → str_leb a c = true.
Proof. rewrite !str_leb_le. apply (transitivity (R:=String.le)). Qed.

Lemma str_leb_total a b : str_leb a b = true ∨ str_leb b a = true.
Proof. rewrite !str_leb_le. apply (total String.le). Qed.

Lemma str_leb_antisymm a b : str_leb a b = true → str_leb b a = true → a = b.
Proof. apply String.leb_antisym. Qed.

Lemma str_leb_refl a : str_leb a a = true.
Proof. apply str_leb_le. reflexivity. Qed.

Lemma str_ltb_leb a b : str_ltb a b = negb (str_leb b a).
Proof.
  unfold str_ltb, str_leb, String.ltb, String.leb. rewrite (String.compare_antisym b a).
  by destruct (String.compare a b).
Qed.

Lemma str_ltb_irrefl a : str_ltb a a = false.
Proof. by rewrite str_ltb_leb, str_leb_refl. Qed.

Lemma str_ltb_total a b : str_ltb b a = false → a ≠ b → str_ltb a b = true.
Proof.
  rewrite !str_ltb_leb, negb_false_iff, negb_true_iff. intros Hle Hne.
  destruct (str_leb b a) eqn:E; [|done]. destruct Hne. by apply str_leb_antisymm.
Qed.

(** *** Runes *)

(** A decoded rune covers at least one byte and is read from the front. *)
Lemma decode_rune_bytes b0 rest :
  ∃ k, b0 :: rest = rune_bytes (decode_rune b0 rest) ++ k ∧ rune_bytes (decode_rune b0 rest) ≠ [].
Proof.
  unfold decode_rune. destruct (val b0 <? 0x80)%Z; [by exists rest|].
  destruct rest as [|b1 [|b2 [|b3 rest]]];
    repeat match goal with |- context [if ?c then _ else _] => destruct c end;
    eexists; (split; [reflexivity|done]).
Qed.

(** Decoding a string and concatenating what was read gives the string back. *)
Lemma runes_fuel_concat fuel l :
  length l ≤ fuel → concat (map rune_bytes (runes_fuel fuel l)) = l.
Proof.
  revert l. induction fuel as [|fuel IH]; intros [|b l] Hl; simpl in Hl; try done; [lia|].
  destruct (decode_rune_bytes b l) as (k & Hk & Hne). cbn [runes_fuel map concat].
  rewrite !Hk. rewrite drop_app_length. f_equal. apply IH.
  apply (f_equal length) in Hk. rewrite length_app in Hk. simpl in Hk.
  destruct (rune_bytes (decode_rune b l)); [done|]. simpl in Hk. lia.
Qed.

Lemma runes_concat l : concat (map rune_bytes (runes l)) = l.
Proof. by apply runes_fuel_concat. Qed.

(** A valid rune reads the same whatever follows it. *)
Lemma decode_rune_frame b0 rest t k :
  rune_valid (decode_rune b0 rest) = true → rune_bytes (decode_rune b0 rest) = b0 :: t →
  decode_rune b0 (t ++ k) = decode_rune b0 rest.
Proof.
  unfold decode_rune. destruct (val b0 <? 0x80)%Z; [done|].
  destruct rest as [|b1 [|b2 [|b3 rest]]]; try discriminate;
    repeat match goal with |- context [if ?c then _ else _] => destruct c eqn:? end;
    try discriminate; intros _ [= <-]; simpl; destruct k as [|k0 [|k1 k]]; simpl;
    repeat match goal with H : ?c = _ |- context [if ?c then _ else _] => rewrite H end; reflexivity.
Qed.

Lemma runes_fuel_enough n l : length l ≤ n → runes_fuel n l = runes l.
Proof.
  unfold runes. assert (∀ m k, length l ≤ m → length l ≤ k → runes_fuel m l = runes_fuel k l) as H; [|auto].
  intros m. revert l. induction m as [|m IH]; intros [|b l] [|k] Hm Hk; simpl in *; try done; try lia.
  f_equal. destruct (decode_rune_bytes b l) as (t & Ht & Hne).
  destruct (rune_bytes (decode_rune b l)) as [|c bs]; [done|]. injection Ht as <- ->. simpl.
  rewrite drop_app_length. rewrite !length_app in *. apply IH; lia.
Qed.

(** The runes of a string, one at a time. *)
Lemma runes_cons b l : ∃ t l', l = t ++ l' ∧ rune_bytes (decode_rune b l) = b :: t ∧
  runes (b :: l) = decode_rune b l :: runes l'.
Proof.
  destruct (decode_rune_bytes b l) as (l' & Hl & Hne). destruct (rune_bytes (decode_rune b l)) as [|c t] eqn:E; [done|].
  injection Hl as <- Hl. exists t, l'. split_and!; [done|done|]. unfold runes at 1. cbn [length runes_fuel]. f_equal.
  rewrite E. cbn [length drop]. rewrite Hl, drop_app_length. apply runes_fuel_enough. rewrite length_app. lia.
Qed.

Lemma runes_valid_cons b t k :
  rune_valid (decode_rune b t) = true → rune_bytes (decode_rune b t) = b :: t →
  runes (b :: t ++ k) = decode_rune b t :: runes k.
Proof.
  intros Hv Hb. pose proof (decode_rune_frame b t t k Hv Hb) as E.
  destruct (runes_cons b (t ++ k)) as (t' & l' & Hl & Hb' & ->). rewrite E in Hb' |- *. rewrite Hb in Hb'.
  injection Hb' as <-. apply app_inv_head in Hl as <-. done.
Qed.

(** The bytes of a valid rune after the first are not ASCII. *)
Lemma valid_rune_tail b rest t :
  rune_valid (decode_rune b rest) = true → rune_bytes (decode_rune b rest) = b :: t →
  Forall (λ c, (128 ≤ val c)%Z) t.
Proof.
  unfold decode_rune, lead3, lead4, in_range, continuation. destruct (val b <? 0x80)%Z; [by intros _ [= <-]|].
  destruct rest as [|b1 [|b2 [|b3 rest]]]; try discriminate;
    repeat match goal with |- context [if ?c then _ else _] => destruct c eqn:? end;
    try discriminate; intros _ [= <-]; rewrite ?andb_true_iff, ?Z.leb_le in *;
    repeat match goal with
    | H : context [if ?c then _ else _] |- _ => destruct c
    | |- Forall _ [] => apply Forall_nil_2
    | |- Forall _ _ => apply Forall_cons_2; [lia|]
    end.
Qed.

(** An encoded rune has an ASCII byte only if it is that byte. *)
Lemma encode_rune_ascii r c : c ∈ encode_rune r → (val c < 128)%Z → encode_rune r = [c] ∧ r = val c.
Proof.
  unfold encode_rune. set (e := if _ : bool then rune_error else r).
  assert (0 ≤ e ≤ 0x10FFFF ∧ (e = r ∨ 128 ≤ e))%Z as [He Hr].
  { unfold e, rune_error. destruct (_ || _) eqn:E; [lia|]. reflect_bools. lia. }
  clearbody e. repeat case_match; reflect_bools;
    rewrite ?elem_of_cons, ?elem_of_nil; intros Hin Hc; destruct_or?; try done; subst c;
    rewrite val_byte_of in Hc |- *; rewrite Z.mod_small in * by (try (Z.div_mod_to_equations; lia)).
  all: try (Z.div_mod_to_equations; lia). split; [done|lia].
Qed.

Lemma encode_rune_nonempty r : encode_rune r ≠ [].
Proof. unfold encode_rune. by repeat case_match. Qed.

(** A rune below 128 is a byte of the string. *)
Lemma decode_ascii b rest : (rune_value (decode_rune b rest) < 128)%Z →
  decode_rune b rest = RuneAt (rune_value (decode_rune b rest)) [byte_of (rune_value (decode_rune b rest))] true ∧ rune_value (decode_rune b rest) = val b.
Proof.
  unfold decode_rune, two, three, lead3, lead4, in_range, continuation, rune_error.
  destruct (val b <? 0x80)%Z; [simpl; by rewrite byte_of_val|].
  destruct rest as [|b1 [|b2 [|b3 rest']]];
    repeat match goal with |- context [if ?c then _ else _] => destruct c eqn:? end; simpl; intros; reflect_bools;
    repeat match goal with H : context [if ?c then _ else _] |- _ => destruct c eqn:? end; reflect_bools; lia.
Qed.

(** *** Lower case *)

Definition lower_rune `{UnicodeCase} (r : rune_at) : bytes :=
  encode_rune (if (rune_value r <? 128)%Z then ascii_lower (rune_value r) else unicode_lower (rune_value r)).
Definition lower_bytes `{UnicodeCase} (l : bytes) : bytes := concat (map lower_rune (runes l)).

Lemma to_lower_bytes `{UnicodeCase} s : to_lower s = str_of (lower_bytes (bytes_of s)).
Proof. done. Qed.

(** Documented of [unicode.ToLower]: beyond ASCII it maps letters to letters and
    leaves the rest, so no rune becomes a dot or a slash. *)
Class UnicodeCaseLaws `{UnicodeCase} :=
  unicode_lower_name : ∀ r, (128 ≤ r)%Z → unicode_lower r ≠ 46%Z ∧ unicode_lower r ≠ 47%Z.

#[global] Instance ascii_case_laws : @UnicodeCaseLaws ascii_case.
Proof. intros r Hr. simpl. lia. Qed.

(** Documented of [unicode.ToUpper]: U+FFFD is not a letter and stays. *)
Class UnicodeErrorLaw `{UnicodeCase} := unicode_upper_error : unicode_upper rune_error = rune_error.
#[global] Instance ascii_case_error : @UnicodeErrorLaw ascii_case.
Proof. done. Qed.

Section Lower.
Context `{UnicodeCaseLaws}.

(** Dots and slashes of the result were there before. *)
Lemma lower_rune_mark b rest c :
  c ∈ lower_rune (decode_rune b rest) → c = "."%char ∨ c = "/"%char →
  lower_rune (decode_rune b rest) = [c] ∧ decode_rune b rest = RuneAt (val c) [c] true.
Proof.
  intros Hin Hc. set (r := decode_rune b rest) in *.
  assert (val c < 128)%Z as Hasc by (by destruct Hc as [->| ->]).
  destruct (encode_rune_ascii _ _ Hin Hasc) as [He Hv]. split; [done|].
  assert (rune_value r = val c) as E.
  { destruct (rune_value r <? 128)%Z eqn:Er; reflect_bools.
    - unfold ascii_lower in Hv. destruct (_ && _) eqn:E'; [|done]. reflect_bools.
      destruct Hc as [->| ->]; vm_compute (val _) in Hv; lia.
    - destruct (unicode_lower_name _ Er) as [H1 H2]. destruct Hc as [->| ->]; vm_compute (val _) in Hv; done. }
  unfold r in *. destruct (decode_ascii b rest) as [-> _]; [lia|]. by rewrite E, byte_of_val.
Qed.

Lemma lower_cons b t k :
  rune_valid (decode_rune b t) = true → rune_bytes (decode_rune b t) = b :: t →
  lower_bytes (b :: t ++ k) = lower_rune (decode_rune b t) ++ lower_bytes k.
Proof. intros Hv Hb. unfold lower_bytes. by rewrite runes_valid_cons. Qed.

End Lower.

(** *** Pairs of strings in lexicographic order *)

Definition str2_leb (a b : string * string) : bool :=
  if bool_decide (a.1 = b.1) then str_leb a.2 b.2 else str_leb a.1 b.1.

Lemma str2_leb_total a b : str2_leb a b = true ∨ str2_leb b a = true.
Proof.
  unfold str2_leb. destruct (decide (a.1 = b.1)) as [E|E].
  - rewrite !bool_decide_true by done. apply str_leb_total.
  - rewrite !bool_decide_false by done. apply str_leb_total.
Qed.

Lemma str2_leb_trans a b c : str2_leb a b = true → str2_leb b c = true → str2_leb a c = true.
Proof.
  unfold str2_leb. destruct a as [a1 a2], b as [b1 b2], c as [c1 c2]. simpl.
  destruct (decide (a1 = b1)) as [->|H1]; [rewrite (bool_decide_true (b1 = b1)) by done|rewrite (bool_decide_false (a1 = b1)) by done];
    (destruct (decide (b1 = c1)) as [->|H2]; [rewrite (bool_decide_true (c1 = c1)) by done|rewrite (bool_decide_false (b1 = c1)) by done]);
    intros L1 L2; rewrite ?bool_decide_false by done; try done.
  - by eapply str_leb_trans.
  - rewrite bool_decide_false; [by eapply str_leb_trans|]. intros ->. apply H2. by apply str_leb_antisymm.
Qed.

(** *** ASCII strings *)

Definition is_ascii (l : bytes) : Prop := Forall (λ c, (val c < 128)%Z) l.

Lemma runes_ascii l : is_ascii l → runes l = map (λ c, RuneAt (val c) [c] true) l.
Proof.
  induction 1 as [|c l Hc Hl IH]; [done|]. unfold runes. cbn [length runes_fuel].
  assert (decode_rune c l = RuneAt (val c) [c] true) as -> by (unfold decode_rune; by rewrite (proj2 (Z.ltb_lt _ _))).
  cbn [rune_bytes length drop map]. f_equal. exact IH.
Qed.

Lemma concat_runes_ascii l : concat (map rune_bytes (map (λ c, RuneAt (val c) [c] true) l)) = l.
Proof. induction l as [|c l IH]; [done|]. cbn. by f_equal. Qed.

Lemma drop_spaces_text (sp l : bytes) :
  Forall (λ c, is_space (val c) = true) sp → Forall (λ c, is_space (val c) = false) l →
  drop_spaces (map (λ c, RuneAt (val c) [c] true) (sp ++ l)) = map (λ c, RuneAt (val c) [c] true) l.
Proof.
  intros Hsp Hl. induction Hsp as [|c sp Hc _ IH]; cbn.
  - destruct Hl as [|c l Hc _]; [done|]. cbn. by rewrite Hc.
  - by rewrite Hc.
Qed.

(** ASCII text without spaces keeps its bytes, whatever spaces follow it. *)
Lemma trim_space_text l sp :
  is_ascii (l ++ sp) → Forall (λ c, is_space (val c) = false) l → Forall (λ c, is_space (val c) = true) sp →
  trim_space (str_of (l ++ sp)) = str_of l.
Proof.
  intros Ha Hl Hsp. unfold trim_space. rewrite bytes_of_str_of, runes_ascii by done. f_equal.
  assert (∀ k, reverse (map (λ c, RuneAt (val c) [c] true) k) = map (λ c, RuneAt (val c) [c] true) (reverse k)) as Hr
    by (intros k; change (map ?f ?l) with (f <$> l); by rewrite <-fmap_reverse).
  destruct (decide (l = [])) as [->|Hne].
  - rewrite app_nil_l, <-(app_nil_r sp), (drop_spaces_text sp []) by (done || constructor). done.
  - assert (drop_spaces (map (λ c, RuneAt (val c) [c] true) (l ++ sp)) = map (λ c, RuneAt (val c) [c] true) (l ++ sp)) as ->.
    { destruct Hl as [|c l Hc _]; [done|]. cbn. by rewrite Hc. }
    rewrite Hr, reverse_app, (drop_spaces_text (reverse sp)) by by apply Forall_reverse.
    rewrite Hr, reverse_involutive. apply concat_runes_ascii.
Qed.

Lemma trim_space_id s :
  is_ascii (bytes_of s) → Forall (λ c, is_space (val c) = false) (bytes_of s) → trim_space s = s.
Proof.
  intros Ha Hs. rewrite <-(str_of_bytes_of s) at 1 2. rewrite <-(app_nil_r (bytes_of s)) at 1.
  apply trim_space_text; [by rewrite app_nil_r|done|constructor].
Qed.

(** Every ASCII byte of a string is one of its runes. *)
Lemma rune_of_ascii c l : c ∈ l → (val c < 128)%Z → ∃ r, r ∈ runes l ∧ rune_value r = val c.
Proof.
  intros Hin Hc. induction l as [l IH] using (induction_ltof1 _ (@length _)). unfold ltof in IH.
  destruct l as [|b l]; [by apply elem_of_nil in Hin|]. destruct (runes_cons b l) as (t & l' & -> & Hb & E).
  rewrite E. apply elem_of_cons in Hin as [->|Hin].
  - eexists. split; [apply list_elem_of_here|]. unfold decode_rune. by rewrite (proj2 (Z.ltb_lt _ _)).
  - apply elem_of_app in Hin as [Ht|Hl].
    + exfalso. destruct (rune_valid (decode_rune b (t ++ l'))) eqn:Ev.
      * pose proof (valid_rune_tail b _ t Ev Hb) as Hall. eapply Forall_forall in Hall; [|exact Ht]. lia.
      * assert (rune_bytes (decode_rune b (t ++ l')) = [b]) as Hs.
        { revert Ev. unfold decode_rune, two, three. repeat case_match; done. }
        rewrite Hb in Hs. injection Hs as ->. by apply elem_of_nil in Ht.
    + destruct (IH l') as (r & Hr & Hv); [simpl; rewrite length_app; lia|done|]. exists r. split; [|done]. by apply list_elem_of_further.
Qed.

Lemma ascii_of_rune r l : r ∈ runes l → (rune_value r < 128)%Z → ∃ c, c ∈ l ∧ rune_value r = val c.
Proof.
  intros Hin Hr. induction l as [l IH] using (induction_ltof1 _ (@length _)). unfold ltof in IH.
  destruct l as [|b l]; [by apply elem_of_nil in Hin|]. destruct (runes_cons b l) as (t & l' & -> & Hb & E). rewrite E in Hin.
  apply elem_of_cons in Hin as [->|Hin].
  - exists b. split; [set_solver|]. by apply decode_ascii.
  - destruct (IH l') as (c & Hc & Hv); [simpl; rewrite length_app; lia|done|]. exists c. split; [set_solver|done].
Qed.

Lemma encode_ascii r : (0 ≤ r < 128)%Z → encode_rune r = [byte_of r].
Proof.
  intros Hr. unfold encode_rune.
  rewrite (proj2 (Z.ltb_ge r 0)), (proj2 (Z.ltb_ge 0x10FFFF r)), (proj2 (Z.leb_gt 0xD800 r)) by lia.
  cbn [orb andb]. by rewrite (proj2 (Z.ltb_lt r 0x80)) by lia.
Qed.

Lemma map_ascii (f : Z → Z) l : is_ascii l → (∀ r, (0 ≤ r < 128)%Z → (0 ≤ f r < 128)%Z) →
  ∀ g, concat (map (λ r, encode_rune (if (rune_value r <? 128)%Z then f (rune_value r) else g (rune_value r))) (runes l))
    = map (λ c, byte_of (f (val c))) l.
Proof.
  intros Hl Hf g. rewrite runes_ascii by done. induction Hl as [|c l Hc Hl IH]; [done|]. cbn [map concat rune_value].
  pose proof (val_range c). rewrite (proj2 (Z.ltb_lt _ _)) by done. rewrite encode_ascii by (apply Hf; lia). by rewrite IH.
Qed.

Lemma ascii_lower_range r : (0 ≤ r < 128)%Z → (0 ≤ ascii_lower r < 128)%Z.
Proof. unfold ascii_lower. intros. destruct (_ && _) eqn:E; reflect_bools; lia. Qed.
Lemma ascii_upper_range r : (0 ≤ r < 128)%Z → (0 ≤ ascii_upper r < 128)%Z.
Proof. unfold ascii_upper. intros. destruct (_ && _) eqn:E; reflect_bools; lia. Qed.

Lemma to_lower_ascii `{UnicodeCase} l : is_ascii l → to_lower (str_of l) = str_of (map (λ c, byte_of (ascii_lower (val c))) l).
Proof.
  intros Hl. unfold to_lower. rewrite bytes_of_str_of. f_equal. apply map_ascii; [done|apply ascii_lower_range].
Qed.
Lemma to_upper_ascii `{UnicodeCase} l : is_ascii l → to_upper (str_of l) = str_of (map (λ c, byte_of (ascii_upper (val c))) l).
Proof.
  intros Hl. unfold to_upper. rewrite bytes_of_str_of. f_equal. apply map_ascii; [done|apply ascii_upper_range].
Qed.

(** *** Hexadecimal *)

Lemma hex_val_digit : ∀ c, hex_val (hex_digit (val c / 16)) = Some (val c / 16)%Z ∧
  hex_val (hex_digit (val c `mod` 16)) = Some (val c `mod` 16)%Z.
Proof. all_bytes; done. Qed.

Lemma hex_byte_join : ∀ c, byte_of (val c / 16 * 16 + val c `mod` 16)%Z = c.
Proof. all_bytes; reflexivity. Qed.

Lemma hex_decode_encode l : hex_decode (hex_encode l) = Some l.
Proof.
  induction l as [|c l IH]; [done|]. unfold hex_encode in *. cbn [map concat hex_byte app].
  cbn [hex_decode]. destruct (hex_val_digit c) as [-> ->]. rewrite IH.
  by rewrite hex_byte_join.
Qed.

Lemma length_hex_encode l : length (hex_encode l) = 2 * length l.
Proof. induction l as [|c l IH]; [done|]. unfold hex_encode in *. simpl. lia. Qed.

Lemma hex_decode_length n l d :
  length l ≤ n → hex_decode l = Some d → length l = 2 * length d.
Proof.
  revert l d. induction n as [|n IH]; intros [|a [|b l]] d Hn H; simpl in *;
    try (by simplify_eq); [lia|].
  destruct (hex_val a), (hex_val b), (hex_decode l) as [rest|] eqn:E; simplify_eq.
  simpl. rewrite (IH l rest); [lia|lia|done].
Qed.

(** The dash separates the groups of a UUID and is never a hexadecimal digit. *)
Lemma hex_digits_no_dash l : "-"%char ∉ hex_encode l.
Proof.
  induction l as [|c l IH]; [set_solver|]. unfold hex_encode in *. cbn [map concat].
  rewrite elem_of_app. intros [H|H]; [|done].
  revert H. apply (bool_decide_eq_false_1 _). revert c. all_bytes; reflexivity.
Qed.

Lemma hex_encode_app l k : hex_encode (l ++ k) = hex_encode l ++ hex_encode k.
Proof. unfold hex_encode. by rewrite map_app, concat_app. Qed.

(** An ASCII character that is not a space is not trimmed. *)
Lemma drop_spaces_in r l : r ∈ l → is_space (rune_value r) = false → r ∈ drop_spaces l.
Proof.
  induction l as [|x l IH]; [by intros ?%not_elem_of_nil|]. intros [->|Hin]%elem_of_cons Hr; simpl.
  - rewrite Hr. by left.
  - destruct (is_space (rune_value x)); [by apply IH|by right].
Qed.
Lemma runes_fuel_bytes n l r : r ∈ runes_fuel n l → rune_bytes r ≠ [].
Proof.
  revert l. induction n as [|n IH]; intros [|b l]; cbn [runes_fuel]; try by intros ?%not_elem_of_nil.
  intros [->|Hin]%elem_of_cons; [by destruct (decode_rune_bytes b l) as (k & _ & ?)|by eapply IH].
Qed.

(** Trimming leaves something of a text with a character that is not a space. *)
Lemma trim_not_empty c s : c ∈ bytes_of s → (val c < 128)%Z → is_space (val c) = false → trim_space s ≠ "".
Proof.
  intros Hin Hc Hs. destruct (rune_of_ascii c _ Hin Hc) as (r & Hr & Hv). unfold trim_space. intros E.
  assert (r ∈ reverse (drop_spaces (reverse (drop_spaces (runes (bytes_of s)))))) as Hr'.
  { rewrite elem_of_reverse. apply drop_spaces_in; [|by rewrite Hv]. rewrite elem_of_reverse. apply drop_spaces_in; [done|by rewrite Hv]. }
  apply runes_fuel_bytes in Hr. apply (f_equal bytes_of) in E. rewrite bytes_of_str_of in E. apply Hr.
  apply list_elem_of_split in Hr' as (l1 & l2 & E'). rewrite E' in E. rewrite map_app, concat_app in E. cbn in E.
  by apply app_eq_nil in E as [_ [E _]%app_eq_nil].
Qed.
