(* ===== verification/GoNumber.v ===== *)
(** * Packages strconv and strings: numbers, booleans, cutting

    Decimal texts of integers as [strconv] writes and reads them, and
    [strings.Cut] at a byte. *)

From S2P Require Import Prelude GoText.
From stdpp Require Import pretty.
From Stdlib Require Import Ascii.
Local Open Scope string_scope.
Local Open Scope nat_scope.
Local Open Scope list_scope.

(** [strconv.FormatUint(n, 10)], [strconv.Itoa], [strconv.FormatBool]. *)
Definition FormatUint (n : Z) : string := pretty (Z.to_N n).
Definition Itoa (n : Z) : string := if (n <? 0)%Z then "-" +:+ pretty (Z.to_N (- n)) else pretty (Z.to_N n).
Definition FormatBool (b : bool) : string := if b then "true" else "false".

Definition digit_val (c : ascii) : option Z :=
  if (48 <=? val c)%Z && (val c <=? 57)%Z then Some (val c - 48)%Z else None.

Fixpoint digits_value (acc : Z) (l : bytes) : option Z :=
  match l with
  | [] => Some acc
  | c :: rest => d ← digit_val c; digits_value (acc * 10 + d)%Z rest
  end.

(** The value of a text of decimal digits, of which there is at least one. *)
Definition decimal (l : bytes) : option Z := match l with [] => None | _ => digits_value 0 l end.

(** [strconv.ParseUint(s, 10, bits)]. *)
Definition ParseUint (bits : Z) (s : string) : option Z :=
  v ← decimal (bytes_of s); if (v <? 2 ^ bits)%Z then Some v else None.

(** [strconv.Atoi]: an optional sign, digits, and the range of a 64-bit integer. *)
Definition Atoi (s : string) : option Z :=
  match bytes_of s with
  | [] => None
  | c :: rest =>
      let negative := (val c =? 45)%Z in
      v ← decimal (if negative || (val c =? 43)%Z then rest else c :: rest);
      if negative then (if (v <=? 2 ^ 63)%Z then Some (- v)%Z else None)
      else (if (v <? 2 ^ 63)%Z then Some v else None)
  end.

(** [strconv.ParseBool]. *)
Definition ParseBool (s : string) : option bool :=
  if bool_decide (s ∈ ["1"; "t"; "T"; "TRUE"; "true"; "True"]) then Some true
  else if bool_decide (s ∈ ["0"; "f"; "F"; "FALSE"; "false"; "False"]) then Some false
  else None.

(** [strings.Cut] at a byte: what is before its first occurrence and what is after. *)
Fixpoint cut_bytes (sep : ascii) (l : bytes) : option (bytes * bytes) :=
  match l with
  | [] => None
  | c :: rest => if bool_decide (c = sep) then Some ([], rest)
                 else '(before, after) ← cut_bytes sep rest; Some (c :: before, after)
  end.
Definition Cut (sep : ascii) (s : string) : option (string * string) :=
  '(before, after) ← cut_bytes sep (bytes_of s); Some (str_of before, str_of after).

(** ** Lemmas *)

Lemma digit_char d : (d < 10)%N → digit_val (pretty_N_char d) = Some (Z.of_N d).
Proof.
  intros Hd. assert (d = 0 ∨ d = 1 ∨ d = 2 ∨ d = 3 ∨ d = 4 ∨ d = 5 ∨ d = 6 ∨ d = 7 ∨ d = 8 ∨ d = 9)%N as H by lia.
  naive_solver.
Qed.

Lemma bytes_of_String c s : bytes_of (String c s) = c :: bytes_of s.
Proof. done. Qed.

(** Reading the digits that [pretty] puts before a text. *)
Lemma digits_pretty_go x s : digits_value 0 (bytes_of (pretty_N_go x s)) = digits_value (Z.of_N x) (bytes_of s).
Proof.
  revert s. induction (N.lt_wf_0 x) as [x _ IH]. intros s. destruct (decide (x = 0)%N) as [->|Hx]; [done|].
  rewrite pretty_N_go_step by lia. rewrite IH by (apply N.div_lt; lia). rewrite bytes_of_String. cbn [digits_value].
  rewrite digit_char by (apply N.mod_lt; lia). cbn. f_equal.
  rewrite N2Z.inj_div, N2Z.inj_mod. pose proof (Z.div_mod (Z.of_N x) 10). lia.
Qed.

Lemma pretty_N_nonempty (n : N) : bytes_of (pretty n) ≠ [].
Proof.
  unfold pretty, pretty_N. destruct (decide (n = 0)%N) as [->|Hn]; [done|]. intros E.
  pose proof (digits_pretty_go n "") as H. rewrite E in H. cbn in H. injection H as H. lia.
Qed.

Lemma decimal_pretty (n : N) : decimal (bytes_of (pretty n)) = Some (Z.of_N n).
Proof.
  pose proof (pretty_N_nonempty n) as Hne. assert (digits_value 0 (bytes_of (pretty n)) = Some (Z.of_N n)) as E.
  { unfold pretty, pretty_N. destruct (decide (n = 0)%N) as [->|Hn]; [done|]. by rewrite digits_pretty_go. }
  unfold decimal. by destruct (bytes_of (pretty n)).
Qed.

(** A number is read back as it was written. *)
Lemma ParseUint_FormatUint bits n : (0 ≤ n < 2 ^ bits)%Z → ParseUint bits (FormatUint n) = Some n.
Proof.
  intros Hn. unfold ParseUint, FormatUint. rewrite decimal_pretty. cbn. rewrite Z2N.id by lia.
  by rewrite (proj2 (Z.ltb_lt _ _)) by lia.
Qed.

Lemma ParseBool_FormatBool b : ParseBool (FormatBool b) = Some b.
Proof. by destruct b. Qed.

Lemma FormatUint_nonempty n : FormatUint n ≠ "".
Proof. intros E. apply (pretty_N_nonempty (Z.to_N n)). unfold FormatUint in E. by rewrite E. Qed.

(** The digits of a number: at most [k] of them below [10 ^ k]. *)
Lemma length_pretty_go x s k : (x < 10 ^ N.of_nat k)%N → String.length (pretty_N_go x s) ≤ k + String.length s.
Proof.
  revert x s. induction k as [|k IH]; intros x s Hx.
  { assert (x = 0)%N as -> by (change (10 ^ N.of_nat 0)%N with 1%N in Hx; lia). done. }
  destruct (decide (x = 0)%N) as [->|]; [rewrite pretty_N_go_0; lia|]. rewrite pretty_N_go_step by lia.
  etrans; [apply (IH (x / 10)%N)|cbn; lia]. apply N.Div0.div_lt_upper_bound.
  rewrite Nat2N.inj_succ, N.pow_succ_r' in Hx. lia.
Qed.

Lemma length_FormatUint n k : (0 ≤ n < 10 ^ Z.of_nat k)%Z → 0 < k → String.length (FormatUint n) ≤ k.
Proof.
  intros Hn Hk. unfold FormatUint, pretty, pretty_N. destruct (decide _) as [|Hne]; [cbn; lia|].
  etrans; [apply (length_pretty_go _ _ k)|cbn; lia]. apply N2Z.inj_lt. rewrite N2Z.inj_pow, Z2N.id by lia. cbn. lia.
Qed.

Lemma cut_bytes_at sep l r : sep ∉ l → cut_bytes sep (l ++ sep :: r) = Some (l, r).
Proof.
  induction l as [|c l IH]; intros Hl; cbn; [by rewrite bool_decide_true|].
  rewrite bool_decide_false by set_solver. rewrite IH by set_solver. done.
Qed.

(** Cutting a key and a value at the separator that joined them. *)
Lemma Cut_join sep (key value : string) : sep ∉ bytes_of key →
  Cut sep (key +:+ String sep value) = Some (key, value).
Proof.
  intros Hk. unfold Cut. rewrite bytes_of_app, bytes_of_String, cut_bytes_at by done. cbn.
  by rewrite !str_of_bytes_of.
Qed.
