(* ===== verification/GoFloat.v ===== *)
(** * Floating-point numbers

    What the sources use of [float64]: [strconv.ParseFloat] on decimal literals,
    multiplication, comparison and truncation.  A finite number is [m * 2^e]; rounding
    is to the nearest of 53 bits, ties to even, with the exponents of IEEE 754.
    Hexadecimal literals are left out. *)

From S2P Require Import Prelude GoText GoNumber.
From stdpp Require Import pretty.
From Stdlib Require Import Ascii.
Local Open Scope string_scope.
Local Open Scope nat_scope.
Local Open Scope list_scope.

Inductive float64 := Finite (m e : Z) | Infinite | NotANumber.

(** [num / den], [den] positive, to an integer, ties to even. *)
Definition round_even (num den : Z) : Z :=
  let q := (num / den)%Z in
  let r := (num - q * den)%Z in
  if ((den <? 2 * r) || ((2 * r =? den) && Z.odd q))%Z then (q + 1)%Z else q.

(** [num / den] scaled by [2^(-e)]. *)
Definition scaled (num den e : Z) : Z * Z :=
  if (e <? 0)%Z then ((num * 2 ^ (- e))%Z, den) else (num, (den * 2 ^ e)%Z).

(** The exponent that leaves 53 bits. *)
Definition exponent_of (num den : Z) : Z :=
  let e := (Z.log2 num - Z.log2 den - 52)%Z in
  let '(n, d) := scaled num den e in
  let e := if (n / d <? 2 ^ 52)%Z then (e - 1)%Z else e in
  Z.max e (-1074).

(** The number nearest to the positive [num / den]. *)
Definition round_positive (num den : Z) : float64 :=
  let e := exponent_of num den in
  let '(n, d) := scaled num den e in
  let m := round_even n d in
  if (2 ^ 53 * 2 ^ 971 <=? m * 2 ^ (Z.max e 0))%Z then Infinite else Finite m e.

Definition round64 (num den : Z) : float64 :=
  if (num =? 0)%Z then Finite 0 0
  else if (num <? 0)%Z then match round_positive (- num) den with Finite m e => Finite (- m) e | f => f end
  else round_positive num den.

(** [m * 2^e] as a fraction. *)
Definition fraction (m e : Z) : Z * Z := if (e <? 0)%Z then (m, (2 ^ (- e))%Z) else ((m * 2 ^ e)%Z, 1%Z).

Definition fmul (a b : float64) : float64 :=
  match a, b with
  | Finite m e, Finite m' e' => let '(n, d) := fraction (m * m') (e + e') in round64 n d
  | NotANumber, _ | _, NotANumber => NotANumber
  | Infinite, Finite m _ | Finite m _, Infinite => if (m =? 0)%Z then NotANumber else Infinite
  | Infinite, Infinite => Infinite
  end.

(** Whether a finite number is an integer, and which. *)
Definition integer_of (m e : Z) : option Z :=
  let '(n, d) := fraction m e in if (n `mod` d =? 0)%Z then Some (n / d)%Z else None.

(** ** strconv.ParseFloat *)

(** Digits, with the number of digits that were read. *)
Fixpoint read_digits (acc : Z) (count : nat) (l : bytes) : Z * nat * bytes :=
  match l with
  | c :: rest => match digit_val c with Some d => read_digits (acc * 10 + d)%Z (S count) rest | None => (acc, count, l) end
  | [] => (acc, count, [])
  end.

(** An exponent stops growing at 10000. *)
Fixpoint read_exponent (acc : Z) (count : nat) (l : bytes) : Z * nat * bytes :=
  match l with
  | c :: rest =>
      match digit_val c with
      | Some d => read_exponent (if (acc <? 10000)%Z then (acc * 10 + d)%Z else acc) (S count) rest
      | None => (acc, count, l)
      end
  | [] => (acc, count, [])
  end.

Definition read_sign (l : bytes) : bool * bytes :=
  match l with c :: rest => if bool_decide (c = "+"%char) then (false, rest) else if bool_decide (c = "-"%char) then (true, rest) else (false, l) | [] => (false, l) end.

Definition is_e (c : ascii) : bool := bool_decide (c = "e"%char) || bool_decide (c = "E"%char).

(** The exponent after the digits; [None] if the text is not a literal. *)
Definition read_tail (l : bytes) : option Z :=
  match l with
  | [] => Some 0%Z
  | c :: rest =>
      if is_e c then
        let '(negative, rest) := read_sign rest in
        match read_exponent 0 0 rest with
        | (x, S _, []) => Some (if negative then - x else x)%Z
        | _ => None
        end
      else None
  end.

(** Numbers whose names are not digits are told by [lower]. *)
Definition special_float (l : bytes) : option float64 :=
  let lower := map (λ c, byte_of (ascii_lower (val c))) l in
  if bool_decide (lower = bytes_of "inf") || bool_decide (lower = bytes_of "infinity") then Some Infinite
  else if bool_decide (lower = bytes_of "nan") then Some NotANumber else None.

(** A number that is too large is an error; the infinities and NaN by name are not. *)
Definition ParseFloat (s : string) : result float64 :=
  let '(negative, l) := read_sign (bytes_of s) in
  match special_float l with
  | Some NotANumber => if bool_decide (l = bytes_of s) then Ok NotANumber else Err [AnonymousError]
  | Some f => Ok f
  | None =>
      let '(whole, n1, rest) := read_digits 0 0 l in
      let '(m, n2, rest) := match rest with
        | c :: rest' => if bool_decide (c = "."%char) then read_digits whole 0 rest' else (whole, 0, rest)
        | [] => (whole, 0, rest)
        end in
      match n1 + n2, read_tail rest with
      | S _, Some x =>
          let x := (x - Z.of_nat n2)%Z in
          let m := if negative then (- m)%Z else m in
          match (if (x <? 0)%Z then round64 m (10 ^ (- x)) else round64 (m * 10 ^ x) 1) with
          | Infinite => Err [AnonymousError]
          | f => Ok f
          end
      | _, _ => Err [AnonymousError]
      end
  end.

Example parse_half : ParseFloat "1.5" = Ok (Finite 6755399441055744 (-52)).
Proof. by vm_compute. Qed.
Example parse_exp : ParseFloat "2e3" = ParseFloat "2000".
Proof. by vm_compute. Qed.
Example parse_bad : ParseFloat "1x" = Err [AnonymousError] ∧ ParseFloat "" = Err [AnonymousError] ∧ ParseFloat "1e400" = Err [AnonymousError].
Proof. by vm_compute. Qed.

(** ** Integers below 2^53 are exact *)

(** The number that stands for [v]. *)
Definition exact (v : Z) : float64 := Finite (v * 2 ^ (52 - Z.log2 v)) (Z.log2 v - 52).

Lemma log2_53 v : (0 < v < 2 ^ 53)%Z → (0 ≤ Z.log2 v ≤ 52)%Z ∧ (2 ^ 52 ≤ v * 2 ^ (52 - Z.log2 v) < 2 ^ 53)%Z.
Proof.
  intros Hv. pose proof (Z.log2_nonneg v). pose proof (Z.log2_spec v ltac:(lia)) as [Hl Hu].
  assert (Z.log2 v ≤ 52)%Z by (apply Z.lt_succ_r, Z.log2_lt_pow2; [lia|]; change (Z.succ 52) with 53%Z; lia).
  split; [lia|]. replace (2 ^ 52)%Z with (2 ^ Z.log2 v * 2 ^ (52 - Z.log2 v))%Z by (rewrite <-Z.pow_add_r by lia; f_equal; lia).
  replace (2 ^ 53)%Z with (2 ^ (Z.succ (Z.log2 v)) * 2 ^ (52 - Z.log2 v))%Z by (rewrite <-Z.pow_add_r by lia; f_equal; lia).
  assert (0 < 2 ^ (52 - Z.log2 v))%Z by (apply Z.pow_pos_nonneg; lia). nia.
Qed.

Lemma round_exact v j : (0 < v < 2 ^ 53)%Z → (0 ≤ j)%Z → round64 (v * 2 ^ j) (2 ^ j) = exact v.
Proof.
  intros Hv Hj. destruct (log2_53 v Hv) as [Hl Hm]. assert (0 < 2 ^ j)%Z as Hp by (apply Z.pow_pos_nonneg; lia).
  assert (scaled (v * 2 ^ j) (2 ^ j) (Z.log2 v - 52) = (v * 2 ^ (52 - Z.log2 v) * 2 ^ j, 2 ^ j))%Z as Hs.
  { unfold scaled. destruct (_ <? 0)%Z eqn:E.
    - f_equal. replace (- (Z.log2 v - 52))%Z with (52 - Z.log2 v)%Z by lia. lia.
    - apply Z.ltb_ge in E. replace (Z.log2 v) with 52%Z by lia. cbn -[Z.pow Z.mul]. f_equal; lia. }
  assert (exponent_of (v * 2 ^ j) (2 ^ j) = Z.log2 v - 52)%Z as He.
  { unfold exponent_of. rewrite Z.log2_mul_pow2, Z.log2_pow2 by lia. replace (Z.log2 v + j - j - 52)%Z with (Z.log2 v - 52)%Z by lia.
    replace (j + Z.log2 v - j - 52)%Z with (Z.log2 v - 52)%Z by lia. rewrite Hs, Z.div_mul by lia.
    rewrite (proj2 (Z.ltb_ge _ _)) by lia. lia. }
  unfold round64. rewrite (proj2 (Z.eqb_neq _ _)), (proj2 (Z.ltb_ge _ _)) by nia. unfold round_positive. rewrite He, Hs.
  unfold round_even. rewrite Z.div_mul by lia. rewrite Z.sub_diag. cbn -[Z.pow Z.mul].
  rewrite (proj2 (Z.ltb_ge _ _)), (proj2 (Z.eqb_neq _ _)) by lia. cbn -[Z.pow Z.mul Z.max].
  rewrite Z.max_r by lia. rewrite (proj2 (Z.leb_gt _ _)); [done|]. change (2 ^ 0)%Z with 1%Z.
  assert (1 ≤ 2 ^ 971)%Z by (apply (Z.pow_le_mono_r 2 0); lia). nia.
Qed.

Lemma round_integer v : (0 < v < 2 ^ 53)%Z → round64 v 1 = exact v.
Proof. intros Hv. pose proof (round_exact v 0 Hv ltac:(lia)) as E. change (2 ^ 0)%Z with 1%Z in E. by rewrite Z.mul_1_r in E. Qed.

Lemma fraction_exact v : (0 < v < 2 ^ 53)%Z → fraction (v * 2 ^ (52 - Z.log2 v)) (Z.log2 v - 52) = (v * 2 ^ (52 - Z.log2 v), 2 ^ (52 - Z.log2 v))%Z.
Proof.
  intros Hv. destruct (log2_53 v Hv) as [Hl _]. unfold fraction. destruct (_ <? 0)%Z eqn:E.
  - f_equal. f_equal. lia.
  - apply Z.ltb_ge in E. replace (Z.log2 v) with 52%Z by lia. f_equal; lia.
Qed.

Lemma integer_exact v : (0 < v < 2 ^ 53)%Z → integer_of (v * 2 ^ (52 - Z.log2 v)) (Z.log2 v - 52) = Some v.
Proof.
  intros Hv. destruct (log2_53 v Hv) as [Hl _]. unfold integer_of. rewrite fraction_exact by done.
  assert (0 < 2 ^ (52 - Z.log2 v))%Z by (apply Z.pow_pos_nonneg; lia). rewrite Z.mod_mul, Z.div_mul by lia. done.
Qed.

(** Products that stay below are exact too. *)
Lemma fmul_exact v u : (0 < v)%Z → (0 < u)%Z → (v * u < 2 ^ 53)%Z → fmul (exact v) (exact u) = exact (v * u).
Proof.
  intros Hv Hu Hvu. assert (0 < v < 2 ^ 53)%Z as Hv' by nia. assert (0 < u < 2 ^ 53)%Z as Hu' by nia.
  destruct (log2_53 v Hv') as [Hlv _], (log2_53 u Hu') as [Hlu _]. unfold exact at 1 2. cbn [fmul].
  set (a := (52 - Z.log2 v)%Z). set (b := (52 - Z.log2 u)%Z).
  assert (fraction (v * 2 ^ a * (u * 2 ^ b)) (Z.log2 v - 52 + (Z.log2 u - 52)) = (v * u * 2 ^ (a + b), 2 ^ (a + b)))%Z as ->.
  { unfold fraction. destruct (_ <? 0)%Z eqn:E.
    - replace (- (Z.log2 v - 52 + (Z.log2 u - 52)))%Z with (a + b)%Z by lia. f_equal. rewrite Z.pow_add_r by lia. lia.
    - apply Z.ltb_ge in E. assert (a = 0 ∧ b = 0)%Z as [Ha Hb] by lia. rewrite Ha, Hb.
      replace (Z.log2 v - 52 + (Z.log2 u - 52))%Z with 0%Z by lia. change (2 ^ (0 + 0))%Z with 1%Z. change (2 ^ 0)%Z with 1%Z. f_equal; lia. }
  apply round_exact; lia.
Qed.

(** *** Decimal texts *)

Lemma read_decimal acc count l v : digits_value acc l = Some v → read_digits acc count l = (v, count + length l, []).
Proof.
  revert acc count. induction l as [|c l IH]; intros acc count; cbn [digits_value read_digits length]; [intros [= <-]; by rewrite Nat.add_0_r|].
  destruct (digit_val c); cbn; [|done]. intros H. rewrite (IH _ (S count) H). do 2 f_equal. lia.
Qed.

Lemma digit_first l v : decimal l = Some v → read_sign l = (false, l) ∧ special_float l = None.
Proof.
  unfold decimal. destruct l as [|c l]; [done|]. cbn [digits_value]. destruct (digit_val c) as [d|] eqn:Hd; [|done]. intros _.
  assert (∀ x, digit_val x = None → c ≠ x) as Hne by (intros x Hx ->; by rewrite Hx in Hd).
  split.
  - unfold read_sign. rewrite !bool_decide_false by (by apply Hne). done.
  - unfold special_float. cbn [map]. unfold digit_val in Hd. destruct ((48 <=? val c)%Z && (val c <=? 57)%Z) eqn:E; [|done].
    apply andb_true_iff in E as [E1%Z.leb_le E2%Z.leb_le].
    assert (byte_of (ascii_lower (val c)) = c) as ->.
    { unfold ascii_lower. rewrite (proj2 (Z.leb_gt _ _)) by lia. apply byte_of_val. }
    rewrite !bool_decide_false by (cbn; intros H; injection H as -> _; vm_compute in E2; done). done.
Qed.

(** The digits of a number below 2^53 are read as the number. *)
Lemma ParseFloat_decimal n : (0 < n < 2 ^ 53)%Z → ParseFloat (FormatUint n) = Ok (exact n).
Proof.
  intros Hn. unfold ParseFloat, FormatUint. pose proof (decimal_pretty (Z.to_N n)) as Hd. rewrite Z2N.id in Hd by lia.
  generalize dependent (bytes_of (pretty (Z.to_N n))). intros l Hd. destruct (digit_first _ _ Hd) as [-> ->].
  destruct l as [|c l]; [done|]. unfold decimal in Hd. rewrite (read_decimal 0 0 (c :: l) n Hd). cbn [length Nat.add read_tail].
  change (0 - Z.of_nat 0)%Z with 0%Z. cbv iota. change (0 <? 0)%Z with false. cbv iota.
  change (10 ^ 0)%Z with 1%Z. rewrite Z.mul_1_r, round_integer by done. unfold exact. reflexivity.
Qed.
