(* ===== verification/PortablePath.v ===== *)
(** * Portable relative paths (internal/portablepath/path.go)

    [Validate], [Key] and [windowsReservedName], with the [path.Clean] they call.
    Every output declaration of a job and every file of a snapshot manifest
    passes through [Validate]. *)

From S2P Require Import Prelude GoText.
From Stdlib Require Import Ascii.
Local Open Scope string_scope.
Local Open Scope nat_scope.
Local Open Scope list_scope.

Definition MaximumBytes : Z := 4096.

Definition slash : ascii := "/"%char.
Definition dot : bytes := bytes_of ".".
Definition dotdot : bytes := bytes_of "..".

(** ** [path.Clean] of the standard library, on the segments of a path *)

(** The stack holds the segments kept so far, last first. *)
Definition clean_step (rooted : bool) (stack : list bytes) (seg : bytes) : list bytes :=
  if bool_decide (seg = []) || bool_decide (seg = dot) then stack
  else if bool_decide (seg = dotdot) then
    match stack with
    | [] => if rooted then [] else [dotdot]
    | top :: rest => if bool_decide (top = dotdot) then dotdot :: stack else rest
    end
  else seg :: stack.

Definition path_clean (s : string) : string :=
  if bool_decide (s = "") then "."
  else
    let rooted := has_prefix s "/" in
    let out := join_bytes slash
      (reverse (fold_left (clean_step rooted) (split_bytes slash (bytes_of s)) [])) in
    if rooted then str_of (slash :: out)
    else if bool_decide (out = []) then "." else str_of out.

(** [path.Dir]: what precedes the last slash, cleaned. *)
Fixpoint to_slash (l : bytes) : bytes :=
  match l with
  | [] => []
  | c :: l' => if bool_decide (c = slash) then l else to_slash l'
  end.

Definition path_dir (s : string) : string := path_clean (str_of (reverse (to_slash (reverse (bytes_of s))))).

(** The forbidden characters: backslash, NUL, angle brackets, colon, double
    quote (code 34), bar, question mark and star. *)
Definition unsafe_chars : bytes :=
  ["\"%char; Ascii.zero; "<"%char; ">"%char; ":"%char; ascii_of_nat 34; "|"%char; "?"%char; "*"%char].

Section WithUnicode.
Context `{UnicodeCase}.

Definition windowsReservedName (segment : string) : bool :=
  let base := to_upper (hd "" (split "."%char segment)) in
  if bool_decide (base = "CON") || bool_decide (base = "PRN")
     || bool_decide (base = "AUX") || bool_decide (base = "NUL") then true
  else if bool_decide (String.length base = 4) && (has_prefix base "COM" || has_prefix base "LPT") then
    match bytes_of base !! 3 with
    | Some c => (49 <=? val c)%Z && (val c <=? 57)%Z
    | None => false
    end
  else false.

(** The loop body of [Validate]: does this segment make the path unsafe? *)
Definition unsafe_segment (segment : string) : bool :=
  bool_decide (segment = "") || bool_decide (segment = ".") || bool_decide (segment = "..")
  || has_suffix segment "." || has_suffix segment " " || windowsReservedName segment
  || existsb (fun r => (rune_value r <? 0x20)%Z) (runes (bytes_of segment)).

Definition Validate (value : string) : result unit :=
  if bool_decide (value = "") || (MaximumBytes <? Z.of_nat (String.length value))%Z
     || negb (utf8_valid value) || contains_any value unsafe_chars || has_prefix value "/"
     || negb (bool_decide (path_clean value = value)) || bool_decide (value = ".")
     || bool_decide (value = "..") || has_prefix value "../"
  then Err [PathErrUnsafe]
  else if existsb unsafe_segment (split "/"%char value) then Err [PathErrUnsafe]
  else Ok tt.

Definition Key (value : string) : string := to_lower value.

(** ** Specification *)

(** A name of a device on Windows, in any case and with any extension. *)
Definition device_names : list string :=
  ["CON"; "PRN"; "AUX"; "NUL"; "COM1"; "COM2"; "COM3"; "COM4"; "COM5"; "COM6"; "COM7"; "COM8"; "COM9";
   "LPT1"; "LPT2"; "LPT3"; "LPT4"; "LPT5"; "LPT6"; "LPT7"; "LPT8"; "LPT9"].
Definition device_name (name : string) : Prop :=
  ∃ base extension, (name = base ∨ name = base +:+ "." +:+ extension) ∧ "."%char ∉ bytes_of base ∧ to_upper base ∈ device_names.

(** What macOS, Windows and Linux accept as the name of a file: it is not empty, has no
    control character, does not end in a dot or a space, and names no device. *)
Definition file_name (name : string) : Prop :=
  name ≠ "" ∧ (∀ c, c ∈ bytes_of name → (32 ≤ val c)%Z) ∧ (∀ stem, name ≠ stem +:+ "." ∧ name ≠ stem +:+ " ") ∧ ¬ device_name name.

(** The codes of the double quote, star, slash, colon, less, greater, question mark,
    backslash and bar: no name on Windows has one. *)
Definition forbidden_codes : list Z := [34; 42; 47; 58; 60; 62; 63; 92; 124]%Z.

(** A relative path that means the same everywhere: at most 4096 bytes of UTF-8 that
    are names of files with slashes between them. *)
Definition portable (value : string) : Prop :=
  (Z.of_nat (String.length value) ≤ 4096)%Z ∧ utf8_valid value = true ∧
  ∃ names, names ≠ [] ∧ value = str_of (join_bytes slash (map bytes_of names)) ∧
    Forall (λ name, file_name name ∧ ∀ c, c ∈ bytes_of name → val c ∉ forbidden_codes) names.

(** A segment that the loop of [Validate] lets pass, and a value with such segments. *)
Definition safe_segment (segment : string) : Prop := unsafe_segment segment = false.
Definition accepted (value : string) : Prop :=
  (Z.of_nat (String.length value) ≤ MaximumBytes)%Z ∧ utf8_valid value = true ∧
  contains_any value unsafe_chars = false ∧ Forall safe_segment (split "/"%char value).

(** Resolving a relative path from a directory, one segment at a time: the
    location is the list of names below the root, and [None] is an escape. *)
Fixpoint resolve (location : list string) (segs : list string) : option (list string) :=
  match segs with
  | [] => Some location
  | seg :: segs' =>
      if bool_decide (seg = "") || bool_decide (seg = ".") then resolve location segs'
      else if bool_decide (seg = "..") then
        match reverse location with
        | [] => None
        | _ :: up => resolve (reverse up) segs'
        end
      else resolve (location ++ [seg]) segs'
  end.

End WithUnicode.

(** A segment that is a name, not a step. *)
Definition plain (seg : bytes) : Prop := seg ≠ [] ∧ seg ≠ dot ∧ seg ≠ dotdot.

(** ** Lemmas *)

(** *** Paths made of names *)

Lemma clean_step_plain seg stack : plain seg → clean_step false stack seg = seg :: stack.
Proof. intros (H1 & H2 & H3). unfold clean_step. by rewrite !bool_decide_eq_false_2. Qed.

Lemma clean_plain_segments segs stack :
  Forall plain segs → fold_left (clean_step false) segs stack = reverse segs ++ stack.
Proof.
  intros Hall. revert stack. induction Hall as [|seg segs Hs Hall IH]; intros stack; [done|].
  simpl. rewrite clean_step_plain by done. rewrite IH, reverse_cons, <-(assoc_L (++)). done.
Qed.

Lemma join_snoc segs seg : segs ≠ [] → join_bytes slash (segs ++ [seg]) = join_bytes slash segs ++ slash :: seg.
Proof.
  induction segs as [|a [|b segs] IH]; [done|done|]. intros _.
  change (join_bytes slash ((a :: b :: segs) ++ [seg])) with (a ++ slash :: join_bytes slash ((b :: segs) ++ [seg])).
  rewrite IH by done. change (join_bytes slash (a :: b :: segs)) with (a ++ slash :: join_bytes slash (b :: segs)).
  by rewrite <-app_assoc.
Qed.

Lemma join_plain_head segs : segs ≠ [] → Forall plain segs → Forall (λ seg, slash ∉ seg) segs →
  ∃ c l, join_bytes slash segs = c :: l ∧ c ≠ slash.
Proof.
  destruct segs as [|[|c seg] segs]; [done|by intros _ [(? & _) _]%Forall_cons|].
  intros _ _ [Hn _]%Forall_cons. exists c. destruct segs; simpl; eexists; (split; [reflexivity|set_solver]).
Qed.

Lemma clean_trailing_slash segs :
  segs ≠ [] → Forall plain segs → Forall (λ seg, slash ∉ seg) segs →
  path_clean (str_of (join_bytes slash segs ++ [slash])) = str_of (join_bytes slash segs).
Proof.
  intros Hne Hp Hn. destruct (join_plain_head segs Hne Hp Hn) as (c & l & Hj & Hc).
  unfold path_clean. rewrite bool_decide_eq_false_2 by (rewrite Hj; done).
  assert (has_prefix (str_of (join_bytes slash segs ++ [slash])) "/" = false) as ->.
  { unfold has_prefix. rewrite bytes_of_str_of, Hj. simpl. by rewrite bool_decide_eq_false_2 by (intros E; by apply Hc). }
  assert (join_bytes slash segs ++ [slash] = join_bytes slash (segs ++ [[]])) as -> by (by rewrite join_snoc).
  rewrite bytes_of_str_of, split_join; [|by destruct segs|by rewrite Forall_app, Forall_singleton; split; [|apply not_elem_of_nil]].
  rewrite fold_left_app, (clean_plain_segments segs), app_nil_r by done. simpl.
  change (clean_step false (reverse segs) []) with (reverse segs). rewrite reverse_involutive.
  by rewrite bool_decide_eq_false_2 by (rewrite Hj; done).
Qed.

Lemma to_slash_no p : slash ∉ p → to_slash p = [].
Proof.
  induction p as [|c p IH]; [done|]. intros Hn. simpl. rewrite bool_decide_eq_false_2 by set_solver.
  apply IH. set_solver.
Qed.

Lemma to_slash_app p q : slash ∉ p → to_slash (p ++ slash :: q) = slash :: q.
Proof.
  induction p as [|c p IH]; simpl; [done|]. intros Hn. rewrite bool_decide_eq_false_2 by set_solver.
  apply IH. set_solver.
Qed.

(** The parent of a path made of names drops the last. *)
Lemma path_dir_join segs seg :
  Forall plain (segs ++ [seg]) → Forall (λ s, slash ∉ s) (segs ++ [seg]) →
  path_dir (str_of (join_bytes slash (segs ++ [seg]))) = if decide (segs = []) then "." else str_of (join_bytes slash segs).
Proof.
  intros [Hp _]%Forall_app [Hn [Hseg _]%Forall_cons]%Forall_app. unfold path_dir. rewrite bytes_of_str_of.
  assert (slash ∉ reverse seg) as Hr by (rewrite elem_of_reverse; exact Hseg).
  case_decide as Hd.
  - subst segs. simpl. by rewrite to_slash_no.
  - rewrite join_snoc, reverse_app, reverse_cons, <-app_assoc by done. simpl.
    rewrite to_slash_app, reverse_cons, reverse_involutive by done. by apply clean_trailing_slash.
Qed.

Section Portable.

Context `{UnicodeCase}.

(** *** Validated paths *)

Lemma safe_segment_plain seg :
  safe_segment seg → seg ≠ "" ∧ seg ≠ "." ∧ seg ≠ "..".
Proof. unfold safe_segment, unsafe_segment. intros ?. reflect_bools. done. Qed.

Lemma safe_bytes seg :
  safe_segment (str_of seg) → seg ≠ [] ∧ seg ≠ dot ∧ seg ≠ dotdot.
Proof.
  intros (H1 & H2 & H3)%safe_segment_plain.
  split_and!; intros ->; [by apply H1|by apply H2|by apply H3].
Qed.

Lemma safe_plain seg : safe_segment (str_of seg) → plain seg.
Proof. apply safe_bytes. Qed.

Lemma not_rooted_head value :
  Forall safe_segment (split "/"%char value) → has_prefix value "/" = false.
Proof.
  intros Hall. destruct (has_prefix value "/") eqn:E; [|done]. exfalso.
  apply list_prefix_spec in E as [k E]. unfold split in Hall. rewrite E in Hall.
  apply Forall_cons in Hall as [Hs _]. by apply safe_segment_plain in Hs as [[] _].
Qed.

(** [path.Clean] is the identity on a path made of safe segments. *)
Lemma path_clean_portable value :
  Forall safe_segment (split "/"%char value) → path_clean value = value.
Proof.
  intros Hall. pose proof (not_rooted_head _ Hall) as Hroot.
  unfold path_clean. case_bool_decide as Hempty.
  { subst. unfold split in Hall. apply Forall_cons in Hall as [Hs _].
    by apply safe_segment_plain in Hs as [[] _]. }
  rewrite Hroot. unfold split in Hall. rewrite Forall_map in Hall.
  rewrite clean_plain_segments by (eapply Forall_impl; [exact Hall|apply safe_plain]).
  rewrite app_nil_r, reverse_involutive, join_split.
  rewrite bool_decide_eq_false_2, str_of_bytes_of; [done|].
  intros E. apply Hempty. by rewrite <-(str_of_bytes_of value), E.
Qed.

Lemma split_not_dotdot value :
  Forall safe_segment (split "/"%char value) →
  value ≠ "" ∧ value ≠ "." ∧ value ≠ ".." ∧ has_prefix value "../" = false.
Proof.
  intros Hall.
  assert (∀ s, value = s → Forall safe_segment (split "/"%char s)) as Hs by (by intros s <-).
  split_and!.
  1-3: intros E; apply Hs in E; vm_compute split in E; apply Forall_cons in E as [E _];
       by apply safe_segment_plain in E as (? & ? & ?).
  destruct (has_prefix value "../") eqn:E; [|done]. exfalso.
  apply list_prefix_spec in E as [k E]. unfold split in Hall. rewrite E in Hall.
  change (split_bytes "/" (bytes_of "../" ++ k)) with (dotdot :: split_bytes "/" k) in Hall.
  apply Forall_cons in Hall as [Hd _]. by apply safe_segment_plain in Hd as (_ & _ & []).
Qed.

Lemma validate_accepted value : Validate value = Ok tt ↔ accepted value.
Proof.
  unfold Validate, accepted. split.
  - intros Hv. destruct (_ || has_prefix value "../") eqn:E1; [done|].
    destruct (existsb _ _) eqn:E2; [done|]. reflect_bools.
    split_and!; [lia|done|done|]. apply Forall_forall. intros seg Hseg.
    unfold safe_segment. destruct (unsafe_segment seg) eqn:Es; [|done].
    rewrite <-E2. symmetry. apply existsb_exists. exists seg.
    by rewrite <-list_elem_of_In.
  - intros (Hlen & Hutf & Hchars & Hall).
    destruct (split_not_dotdot _ Hall) as (? & ? & ? & Hpre).
    rewrite (bool_decide_eq_true_2 (path_clean value = value)) by (by apply path_clean_portable).
    rewrite !bool_decide_eq_false_2 by done.
    rewrite (proj2 (Z.ltb_ge _ _) Hlen), Hutf, Hchars, (not_rooted_head _ Hall), Hpre. simpl.
    destruct (existsb _ _) eqn:E; [|done]. apply existsb_exists in E as (seg & Hin & Hs).
    rewrite <-list_elem_of_In in Hin. rewrite Forall_forall in Hall.
    specialize (Hall _ Hin). unfold safe_segment in Hall. congruence.
Qed.

Lemma resolve_safe segs location :
  Forall safe_segment segs → resolve location segs = Some (location ++ segs).
Proof.
  intros Hall. revert location. induction Hall as [|seg segs Hs Hall IH]; intros location; simpl.
  - by rewrite app_nil_r.
  - apply safe_segment_plain in Hs as (? & ? & ?).
    rewrite !bool_decide_eq_false_2 by done. simpl. by rewrite IH, <-(assoc_L (++)).
Qed.

End Portable.

(** *** The specification *)

Lemma has_suffix_spec s x : has_suffix s x = true ↔ ∃ stem, s = stem +:+ x.
Proof.
  unfold has_suffix. rewrite list_prefix_spec. split; intros [k Hk].
  - exists (str_of (reverse k)). apply (f_equal reverse) in Hk. rewrite reverse_app, !reverse_involutive in Hk.
    rewrite <-(str_of_bytes_of s), Hk, <-(str_of_bytes_of (_ +:+ x)), bytes_of_app, bytes_of_str_of. done.
  - exists (reverse (bytes_of k)). by rewrite Hk, bytes_of_app, reverse_app.
Qed.

Section Specified.
Context `{UnicodeCase}.

(** The text before the first dot is the base of a name. *)
Lemma base_dotted base extension : "."%char ∉ bytes_of base → hd "" (split "."%char (base +:+ "." +:+ extension)) = base.
Proof.
  intros Hb. unfold split. rewrite !bytes_of_app. change (bytes_of "." ++ bytes_of extension) with ("."%char :: bytes_of extension).
  rewrite split_bytes_app by done. cbn [map hd]. apply str_of_bytes_of.
Qed.
Lemma base_plain base : "."%char ∉ bytes_of base → hd "" (split "."%char base) = base.
Proof. intros Hb. unfold split. rewrite split_bytes_cons_no_sep by done. apply str_of_bytes_of. Qed.
Lemma base_of name : let base := hd "" (split "."%char name) in
  "."%char ∉ bytes_of base ∧ (name = base ∨ ∃ extension, name = base +:+ "." +:+ extension).
Proof.
  unfold split. pose proof (split_no_sep "."%char (bytes_of name)) as Hs. pose proof (join_split "."%char (bytes_of name)) as Hj.
  destruct (split_bytes "."%char (bytes_of name)) as [|b rest] eqn:E; [by apply split_bytes_nonempty in E|]. cbn [map hd].
  apply Forall_cons in Hs as [Hb _]. rewrite bytes_of_str_of. split; [done|]. rewrite <-(str_of_bytes_of name), <-Hj.
  destruct rest as [|c rest]; [by left|right]. exists (str_of (join_bytes "."%char (c :: rest))).
  rewrite <-(str_of_bytes_of (_ +:+ _)), !bytes_of_app, !bytes_of_str_of. done.
Qed.

(** The tests on the base in upper case. *)
Definition device_base (base : string) : bool :=
  if bool_decide (base = "CON") || bool_decide (base = "PRN") || bool_decide (base = "AUX") || bool_decide (base = "NUL") then true
  else if bool_decide (String.length base = 4) && (has_prefix base "COM" || has_prefix base "LPT") then
    match bytes_of base !! 3 with Some c => (49 <=? val c)%Z && (val c <=? 57)%Z | None => false end
  else false.

Lemma device_base_spec base : device_base base = true ↔ base ∈ device_names.
Proof.
  split.
  - unfold device_base. destruct (_ || _) eqn:E1.
    { intros _. rewrite !orb_true_iff, !bool_decide_eq_true in E1. destruct_or?; subst; apply (bool_decide_unpack _); by vm_compute. }
    destruct (_ && _) eqn:E2; [|done]. clear E1. rewrite andb_true_iff, bool_decide_eq_true, orb_true_iff in E2. destruct E2 as [Hl Hp].
    unfold has_prefix in Hp. rewrite !list_prefix_spec in Hp. rewrite <-length_bytes_of in Hl.
    assert (∀ p k, bytes_of base = bytes_of p ++ k → String.length p = 3 → ∃ c, k = [c] ∧ base = p +:+ str_of [c] ∧ bytes_of base !! 3 = Some c) as Hk.
    { intros p k Hb Hp3. rewrite <-length_bytes_of in Hp3. rewrite Hb, length_app, Hp3 in Hl. destruct k as [|c [|? ?]]; [done| |done].
      exists c. split; [done|]. split; [|by rewrite Hb, lookup_app_r, Hp3 by lia].
      by rewrite <-(str_of_bytes_of base), Hb, <-(str_of_bytes_of (p +:+ _)), bytes_of_app, bytes_of_str_of. }
    assert (∀ c, (49 <=? val c)%Z && (val c <=? 57)%Z = true → str_of [c] ∈ ["1"; "2"; "3"; "4"; "5"; "6"; "7"; "8"; "9"]) as Hc.
    { intros c Hc. apply (bool_decide_eq_true_1 _). revert c Hc. all_bytes; intros Hc; try discriminate Hc; reflexivity. }
    destruct Hp as [[k Hb]|[k Hb]]; apply Hk in Hb as (c & _ & -> & ->); try done; intros Hd%Hc; clear -Hd;
      rewrite !elem_of_cons, elem_of_nil in Hd; destruct_or?; try done; rewrite Hd; apply (bool_decide_unpack _); by vm_compute.
  - unfold device_names. rewrite !elem_of_cons, elem_of_nil. intros Hb. destruct_or?; try done; subst; by vm_compute.
Qed.

Lemma reserved_spec name : windowsReservedName name = true ↔ device_name name.
Proof.
  change (windowsReservedName name) with (device_base (to_upper (hd "" (split "."%char name)))). rewrite device_base_spec.
  destruct (base_of name) as [Hb Hn]. split.
  - intros Hd. exists (hd "" (split "."%char name)). destruct Hn as [Hn|[extension Hn]]; [exists ""|exists extension]; split_and!; auto.
  - intros (base & extension & [->| ->] & Hbase & Hd); [by rewrite base_plain|by rewrite base_dotted].
Qed.

Lemma control_spec l : existsb (λ r, (rune_value r <? 0x20)%Z) (runes l) = false ↔ ∀ c, c ∈ l → (32 ≤ val c)%Z.
Proof.
  rewrite existsb_none. split.
  - intros Hr c Hc. destruct (decide (val c < 32)%Z) as [Hlt|]; [|lia]. destruct (rune_of_ascii c l Hc ltac:(lia)) as (r & Hin & Hv).
    apply Hr, Z.ltb_ge in Hin. lia.
  - intros Hl r Hr. apply Z.ltb_ge. destruct (decide (rune_value r < 128)%Z) as [Hlt|]; [|lia].
    destruct (ascii_of_rune r l Hr Hlt) as (c & Hc & ->). by apply Hl.
Qed.

Lemma segment_spec name : safe_segment name ↔ file_name name.
Proof.
  unfold safe_segment, unsafe_segment, file_name. rewrite !orb_false_iff, !bool_decide_eq_false, control_spec. split.
  - intros ((((((H1 & H2) & H3) & H4) & H5) & H6) & H7). split_and!; [done|done| |].
    + intros stem. split; intros E; [assert (has_suffix name "." = true)|assert (has_suffix name " " = true)]; first [congruence|apply has_suffix_spec; by exists stem].
    + intros Hd%reserved_spec. congruence.
  - intros (H1 & H2 & H3 & H4).
    assert (∀ x, x = "." ∨ x = " " → has_suffix name x = false) as Hx.
    { intros x Hx. destruct (has_suffix name x) eqn:E; [|done]. apply has_suffix_spec in E as [stem E]. specialize (H3 stem). destruct Hx as [->| ->]; naive_solver. }
    split_and!; [done| | |by apply Hx; left|by apply Hx; right| |done].
    + intros ->. by apply (proj1 (H3 "")).
    + intros ->. by apply (proj1 (H3 ".")).
    + destruct (windowsReservedName name) eqn:E; [|done]. by apply reserved_spec in E.
Qed.

(** Outside of segments, the forbidden characters are those of [unsafe_chars]. *)
Lemma char_spec : ∀ c, c ∉ unsafe_chars → c ≠ slash → val c ∉ forbidden_codes.
Proof.
  intros c H1 H2. apply (bool_decide_eq_false_1 _). apply (bool_decide_eq_false_2 _) in H1, H2. revert c H1 H2.
  all_bytes; intros H1 H2; first [reflexivity|discriminate H1|discriminate H2].
Qed.
Lemma code_spec : ∀ c, (32 ≤ val c)%Z → val c ∉ forbidden_codes → c ∉ unsafe_chars ∧ c ≠ slash.
Proof.
  intros c H1 H2. rewrite <-!(bool_decide_eq_false (_ ∈ _)), <-(bool_decide_eq_false (c = slash)). apply (bool_decide_eq_false_2 _) in H2. apply Z.leb_le in H1. revert c H1 H2.
  all_bytes; intros H1 H2; first [discriminate H1|discriminate H2|split; reflexivity].
Qed.

Lemma elem_of_join c segs : c ∈ join_bytes slash segs → c = slash ∨ ∃ seg, seg ∈ segs ∧ c ∈ seg.
Proof.
  induction segs as [|seg [|next segs] IH]; [by intros ?%elem_of_nil|right; exists seg; set_solver|].
  change (join_bytes slash (seg :: next :: segs)) with (seg ++ slash :: join_bytes slash (next :: segs)).
  rewrite elem_of_app, elem_of_cons. intros [?|[?|Hc]]; [right; exists seg; set_solver|by left|].
  destruct (IH Hc) as [?|(s & Hs & ?)]; [by left|right; exists s; set_solver].
Qed.
Lemma join_elem_of c seg segs : seg ∈ segs → c ∈ seg → c ∈ join_bytes slash segs.
Proof.
  induction segs as [|s [|next segs] IH]; [by intros ?%elem_of_nil|intros ->%list_elem_of_singleton; done|].
  change (join_bytes slash (s :: next :: segs)) with (s ++ slash :: join_bytes slash (next :: segs)).
  rewrite elem_of_cons. intros [->|Hs] Hc; [set_solver|]. rewrite elem_of_app, elem_of_cons. right. right. by apply IH.
Qed.

Lemma validate_portable value : Validate value = Ok tt ↔ portable value.
Proof.
  rewrite validate_accepted. unfold accepted, portable, contains_any. rewrite existsb_none. split.
  - intros (Hl & Hu & Hc & Hs). split_and!; [done|done|]. exists (split "/"%char value). unfold split in *.
    assert (map bytes_of (map str_of (split_bytes "/"%char (bytes_of value))) = split_bytes "/"%char (bytes_of value)) as E.
    { rewrite map_map. rewrite (map_ext _ id) by apply bytes_of_str_of. apply map_id. }
    split_and!.
    + intros [=]%map_eq_nil. by eapply split_bytes_nonempty.
    + by rewrite E, join_split, str_of_bytes_of.
    + apply Forall_forall. intros name Hname. split; [apply segment_spec; by eapply Forall_forall in Hs|].
      apply list_elem_of_In, in_map_iff in Hname as (seg & <- & Hseg%list_elem_of_In). rewrite bytes_of_str_of. intros c Hin. apply char_spec.
      * apply (bool_decide_eq_false_1 _), Hc. rewrite <-(join_split "/"%char (bytes_of value)). by eapply join_elem_of.
      * intros ->. by eapply Forall_forall in Hseg; [|apply split_no_sep].
  - intros (Hl & Hu & names & Hne & -> & Hn). rewrite Forall_forall in Hn.
    assert (∀ seg c, seg ∈ map bytes_of names → c ∈ seg → c ∉ unsafe_chars ∧ c ≠ slash) as Hseg.
    { intros seg c (name & <- & Hname%list_elem_of_In)%list_elem_of_In%in_map_iff Hc. destruct (Hn name Hname) as [(_ & Hctl & _) Hf].
      apply code_spec; auto. }
    unfold split. rewrite bytes_of_str_of, split_join; [|by destruct names|].
    2: { apply Forall_forall. intros seg Hs Hc. by destruct (Hseg seg slash Hs Hc). }
    split_and!; [done|done| |].
    + intros c [->|(seg & Hs & Hc)]%elem_of_join; apply bool_decide_eq_false; [apply (bool_decide_unpack _); by vm_compute|by apply (Hseg seg c)].
    + apply Forall_forall. intros name Hname. apply segment_spec. rewrite map_map in Hname.
      rewrite (map_ext _ id) in Hname by apply str_of_bytes_of. rewrite map_id in Hname. by apply Hn.
Qed.
End Specified.

(** *** Lower case *)

Lemma split_prepend p l : slash ∉ p →
  split_bytes slash (p ++ l) = match split_bytes slash l with seg :: segs => (p ++ seg) :: segs | [] => [] end.
Proof.
  induction p as [|c p IH]; intros Hn; simpl.
  - by destruct (split_bytes slash l).
  - rewrite bool_decide_eq_false_2 by set_solver. rewrite IH by set_solver.
    pose proof (split_bytes_nonempty slash l). by destruct (split_bytes slash l).
Qed.

Section Lower.
Context `{UnicodeCaseLaws}.

(** Lowering a path lowers its segments. *)
Lemma lower_split l :
  forallb rune_valid (runes l) = true → split_bytes slash (lower_bytes l) = map lower_bytes (split_bytes slash l).
Proof.
  induction l as [l IH] using (induction_ltof1 _ length). destruct l as [|b l]; [done|].
  destruct (runes_cons b l) as (t & l' & -> & Hb & Hr). rewrite Hr. cbn [forallb]. intros [Hv Hl']%andb_true_iff.
  assert (decode_rune b t = decode_rune b (t ++ l')) as Ed.
  { rewrite <-(decode_rune_frame b (t ++ l') t []) by done. by rewrite app_nil_r. }
  rewrite <-Ed in Hv, Hb. rewrite lower_cons by done.
  assert (split_bytes slash (lower_bytes l') = map lower_bytes (split_bytes slash l')) as IHl.
  { apply IH; [|done]. unfold ltof. simpl. rewrite length_app. lia. }
  destruct (decide (b = slash)) as [->|Hne].
  - assert (t = []) as -> by (by injection Hb as <-).
    change (lower_rune (decode_rune slash [])) with [slash]. simpl. by rewrite IHl.
  - assert (slash ∉ b :: t) as Hn.
    { apply not_elem_of_cons. split; [done|]. intros Hin. pose proof (valid_rune_tail b t t Hv Hb) as Ht.
      eapply Forall_forall in Ht; [|exact Hin]. by vm_compute in Ht. }
    assert (slash ∉ lower_rune (decode_rune b t)) as Hn'.
    { intros Hin. apply lower_rune_mark in Hin as [_ Hd]; [|by right]. rewrite Hd in Hb. by injection Hb. }
    rewrite split_prepend, IHl by done. change (b :: t ++ l') with ((b :: t) ++ l'). rewrite split_prepend by done.
    pose proof (split_bytes_nonempty slash l'). destruct (split_bytes slash l') as [|seg segs]; [done|]. simpl.
    by rewrite (lower_cons b t seg).
Qed.

Lemma lower_dots l : Forall (λ c, c = "."%char) (lower_bytes l) → lower_bytes l = l.
Proof.
  induction l as [l IH] using (induction_ltof1 _ length). destruct l as [|b l]; [done|].
  destruct (runes_cons b l) as (t & l' & -> & Hb & Hr). unfold lower_bytes. rewrite Hr. cbn [map concat].
  fold (lower_bytes l'). intros [Hd Hall]%Forall_app.
  destruct (lower_rune (decode_rune b (t ++ l'))) as [|c cs] eqn:E; [by apply encode_rune_nonempty in E|].
  apply Forall_cons in Hd as [-> _].
  destruct (lower_rune_mark b (t ++ l') "."%char) as [El Er]; [rewrite E; set_solver|by left|].
  rewrite E in El. injection El as ->. rewrite Er in Hb. injection Hb as <- <-. simpl. f_equal. apply IH; [|done].
  unfold ltof. simpl. lia.
Qed.

Lemma lower_plain seg : plain seg → plain (lower_bytes seg).
Proof.
  intros (H1 & H2 & H3). split_and!.
  - destruct seg as [|b l]; [done|]. destruct (runes_cons b l) as (t & l' & _ & _ & Hr). unfold lower_bytes.
    rewrite Hr. simpl. intros [E _]%app_eq_nil. by apply encode_rune_nonempty in E.
  - intros E. apply H2. rewrite <-(lower_dots seg); [done|]. rewrite E. by repeat constructor.
  - intros E. apply H3. rewrite <-(lower_dots seg); [done|]. rewrite E. by repeat constructor.
Qed.

(** The key of a validated path is made of the lowered names of its segments. *)
Lemma key_segments value :
  Validate value = Ok tt →
  let segs := split_bytes slash (bytes_of value) in
  Key value = str_of (join_bytes slash (map lower_bytes segs)) ∧
  Forall plain (map lower_bytes segs) ∧ Forall (λ s, slash ∉ s) (map lower_bytes segs).
Proof.
  intros (_ & Hutf & _ & Hsafe)%validate_accepted segs. unfold Key. rewrite to_lower_bytes.
  rewrite <-(join_split slash (lower_bytes (bytes_of value))).
  pose proof (split_no_sep slash (lower_bytes (bytes_of value))) as Hn.
  rewrite lower_split in * by done. split_and!; [done| |done].
  unfold split in Hsafe. rewrite Forall_map in Hsafe |- *.
  apply (Forall_impl _ _ _ Hsafe). intros seg Hs. by apply lower_plain, safe_plain.
Qed.

End Lower.

(** ** Properties *)

(** C39 [Validate] accepts exactly the portable paths: at most 4096 bytes of valid
    UTF-8 that are one or more names joined by slashes, where a name is not empty, has
    no control character and none of the nine characters that Windows forbids, does not
    end in a dot or a space, and is not a device of Windows (CON, PRN, AUX, NUL, COM1 to
    COM9, LPT1 to LPT9) in any case and with any extension. *)
Theorem validate_accepts_exactly_portable (U : UnicodeCase) (value : string) :
  Validate value = Ok tt ↔ portable value.
Proof. apply validate_portable. Qed.

(** A validated path never escapes the directory it is joined to: resolved
    segment by segment it stays below the root and names exactly its segments. *)
Theorem validate_no_escape (U : UnicodeCase) (value : string) :
  Validate value = Ok tt → resolve [] (split "/"%char value) = Some (split "/"%char value).
Proof. intros (_ & _ & _ & Hall)%validate_accepted. by rewrite resolve_safe. Qed.

Lemma validate_no_escape_witness :
  resolve [] (split "/"%char "dist/out.bin") = Some ["dist"; "out.bin"].
Proof. apply (validate_no_escape ascii_case "dist/out.bin"). vm_compute. reflexivity. Defined.
