(* ===== verification/JobModel.v ===== *)
(** * The job domain model (internal/job)

    The lifecycle state machine (state.go), identifiers (id.go), specifications
    (spec.go), progress (progress.go) and jobs with their transitions (job.go).
    Go string types with a set of constants are inductive types with one
    constructor per constant and one for every other string.  Slices and maps
    are values: [nil] and empty ones are identified, and [Clone] is the identity. *)

From S2P Require Import Prelude GoText PortablePath.
From Stdlib Require Import Ascii.
Local Open Scope string_scope.
Local Open Scope nat_scope.
Local Open Scope list_scope.

(** ** States (state.go) *)

Inductive State :=
| StateCreated | StateValidating | StateQueued | StateSnapshotting | StateTransferring
| StateStarting | StateRunning | StateCollecting | StateRestoring | StateSucceeded
| StateFailed | StateCancelled | StateRejected | StateLost
| StateOther (name : string).

#[global] Instance State_eq_dec : EqDecision State.
Proof. solve_decision. Defined.

(** The conversion [State(value)] of a string, and back. *)
Definition state_of_string (value : string) : State :=
  if bool_decide (value = "created") then StateCreated
  else if bool_decide (value = "validating") then StateValidating
  else if bool_decide (value = "queued") then StateQueued
  else if bool_decide (value = "snapshotting") then StateSnapshotting
  else if bool_decide (value = "transferring") then StateTransferring
  else if bool_decide (value = "starting") then StateStarting
  else if bool_decide (value = "running") then StateRunning
  else if bool_decide (value = "collecting") then StateCollecting
  else if bool_decide (value = "restoring") then StateRestoring
  else if bool_decide (value = "succeeded") then StateSucceeded
  else if bool_decide (value = "failed") then StateFailed
  else if bool_decide (value = "cancelled") then StateCancelled
  else if bool_decide (value = "rejected") then StateRejected
  else if bool_decide (value = "lost") then StateLost
  else StateOther value.

Definition state_string (state : State) : string :=
  match state with
  | StateCreated => "created" | StateValidating => "validating" | StateQueued => "queued"
  | StateSnapshotting => "snapshotting" | StateTransferring => "transferring"
  | StateStarting => "starting" | StateRunning => "running" | StateCollecting => "collecting"
  | StateRestoring => "restoring" | StateSucceeded => "succeeded" | StateFailed => "failed"
  | StateCancelled => "cancelled" | StateRejected => "rejected" | StateLost => "lost"
  | StateOther name => name
  end.

Definition validStates : list State :=
  [StateCreated; StateValidating; StateQueued; StateSnapshotting; StateTransferring;
   StateStarting; StateRunning; StateCollecting; StateRestoring; StateSucceeded;
   StateFailed; StateCancelled; StateRejected; StateLost].

Definition terminalStates : list State :=
  [StateSucceeded; StateFailed; StateCancelled; StateRejected; StateLost].

Definition allowedTransitions (from : State) : list State :=
  match from with
  | StateCreated => [StateValidating; StateCancelled]
  | StateValidating => [StateQueued; StateRejected; StateFailed; StateCancelled]
  | StateQueued => [StateSnapshotting; StateStarting; StateFailed; StateCancelled]
  | StateSnapshotting => [StateTransferring; StateStarting; StateFailed; StateCancelled]
  | StateTransferring => [StateStarting; StateFailed; StateCancelled; StateLost]
  | StateStarting => [StateRunning; StateFailed; StateCancelled; StateLost]
  | StateRunning => [StateCollecting; StateSucceeded; StateFailed; StateCancelled; StateLost]
  | StateCollecting => [StateRestoring; StateSucceeded; StateFailed; StateCancelled; StateLost]
  | StateRestoring => [StateSucceeded; StateFailed; StateCancelled]
  | _ => []
  end.

Definition State_Valid (state : State) : bool := bool_decide (state ∈ validStates).
Definition State_Terminal (state : State) : bool := bool_decide (state ∈ terminalStates).

Definition ParseState (value : string) : result State :=
  let state := state_of_string value in
  if negb (State_Valid state) then Err [JobErrInvalidState] else Ok state.

Definition CanTransition (from to : State) : bool :=
  if negb (State_Valid from) || negb (State_Valid to) then false
  else bool_decide (to ∈ allowedTransitions from).

Definition ValidateTransition (from to : State) : result unit :=
  if negb (State_Valid from) then Err [JobErrInvalidState]
  else if negb (State_Valid to) then Err [JobErrInvalidState]
  else if negb (CanTransition from to) then Err [JobErrInvalidTransition]
  else Ok tt.

(** ** Identifiers (id.go) *)

Definition dash : ascii := "-"%char.

(** [fmt.Sprintf("%08x-%04x-%04x-%04x-%012x", ...)] of a 16-byte array. *)
Definition formatID (value : bytes) : string :=
  str_of (join_bytes dash
    [hex_encode (take 4 value); hex_encode (take 2 (drop 4 value));
     hex_encode (take 2 (drop 6 value)); hex_encode (take 2 (drop 8 value));
     hex_encode (take 6 (drop 10 value))]).

Definition ParseID (value : string) : result string :=
  let l := bytes_of value in
  if negb (bool_decide (length l = 36)) || negb (bool_decide (l !! 8 = Some dash))
     || negb (bool_decide (l !! 13 = Some dash)) || negb (bool_decide (l !! 18 = Some dash))
     || negb (bool_decide (l !! 23 = Some dash))
  then Err [JobErrInvalidID]
  else match hex_decode (remove_byte dash l) with
  | Some decoded =>
      if negb (bool_decide (length decoded = 16)) then Err [JobErrInvalidID]
      else Ok (formatID decoded)
  | None => Err [JobErrInvalidID]
  end.

(** [id.Valid()]. *)
Definition ID_Valid (id : string) : bool :=
  match ParseID id with Ok parsed => bool_decide (parsed = id) | Err _ => false end.

(** [NewID], given the outcome of [rand.Read] on a 16-byte array. *)
Definition NewID (random : option bytes) : result string :=
  match random with
  | None => Err [DriverError]
  | Some value =>
      let value := alter (fun c => byte_of (Z.lor (Z.land (val c) 0x0f) 0x40)) 6 value in
      let value := alter (fun c => byte_of (Z.lor (Z.land (val c) 0x3f) 0x80)) 8 value in
      Ok (formatID value)
  end.

(** ** Specifications (spec.go) *)

Inductive Executor := ExecutorNative | ExecutorContainer | ExecutorOther (name : string).

#[global] Instance Executor_eq_dec : EqDecision Executor.
Proof. solve_decision. Defined.

Definition executor_of_string (value : string) : Executor :=
  if bool_decide (value = "native") then ExecutorNative
  else if bool_decide (value = "container") then ExecutorContainer
  else ExecutorOther value.

Record Spec := MkSpec {
  Executable : string;
  Arguments_ : list string;
  WorkingDirectory : string;
  Environment : gmap string string;
  SpecExecutor : Executor;
  ContainerImage : string;
  Outputs : list string;
  RequiredToolIDs : list string
}.

Definition MaximumOutputs : nat := 64.
Definition MaximumRequiredToolIDs : nat := 128.

Definition containsNUL (value : string) : bool := contains_byte Ascii.zero value.

Definition reservedOutputPath (value : string) : bool :=
  existsb (fun segment => bool_decide (segment = ".git")
      || bool_decide (segment = ".computehop-results")
      || bool_decide (segment = ".computehop-conflicts"))
    (split "/"%char value).

(** [slices.IsSorted] on strings. *)
Fixpoint is_sorted (l : list string) : bool :=
  match l with
  | a :: (b :: _) as l' => negb (str_ltb b a) && is_sorted l'
  | _ => true
  end.

Section WithUnicode.
Context `{UnicodeCase}.

Definition invalidToolID (value : string) : bool :=
  if bool_decide (value = "") || negb (bool_decide (trim_space value = value))
     || negb (bool_decide (to_lower value = value)) then true
  else existsb (fun r => (rune_value r <=? 0x20)%Z || (rune_value r =? 0x7f)%Z || (rune_value r =? 61)%Z)
         (runes (bytes_of value)).

(** The loop over the declared outputs; [keys] is the set built so far. *)
Fixpoint validate_outputs (outputs : list string) (keys : gset string) : result unit :=
  match outputs with
  | [] => Ok tt
  | output :: rest =>
      match PortablePath.Validate output with
      | Err _ => Err [JobErrInvalidSpec]
      | Ok _ =>
          let key := Key output in
          if reservedOutputPath key then Err [JobErrInvalidSpec]
          else if bool_decide (key ∈ keys) then Err [JobErrInvalidSpec]
          else validate_outputs rest ({[key]} ∪ keys)
      end
  end.

(** The loop over the required tools. *)
Fixpoint validate_tools (tools : list string) (previous : string) : result unit :=
  match tools with
  | [] => Ok tt
  | tool :: rest =>
      if invalidToolID tool then Err [JobErrInvalidSpec]
      else if bool_decide (tool = previous) then Err [JobErrInvalidSpec]
      else validate_tools rest tool
  end.

(** The loop over the environment: it fails, on some entry, iff one is bad. *)
Definition bad_environment_entry (entry : string * string) : bool :=
  let '(name, value) := entry in
  bool_decide (name = "") || contains_any name ["="%char; Ascii.zero] || containsNUL value.

Definition Spec_Validate (spec : Spec) : result unit :=
  let e := [JobErrInvalidSpec] in
  _ ← reject_if (bool_decide (trim_space (Executable spec) = "")) e;
  _ ← reject_if (containsNUL (Executable spec)) e;
  _ ← reject_if (containsNUL (WorkingDirectory spec)) e;
  _ ← reject_if (existsb containsNUL (Arguments_ spec)) e;
  _ ← reject_if (existsb bad_environment_entry (map_to_list (Environment spec))) e;
  _ ← reject_if (bool_decide (MaximumOutputs < length (Outputs spec))) e;
  _ ← validate_outputs (Outputs spec) ∅;
  _ ← reject_if (bool_decide (MaximumRequiredToolIDs < length (RequiredToolIDs spec))) e;
  _ ← reject_if (negb (is_sorted (RequiredToolIDs spec))) e;
  _ ← validate_tools (RequiredToolIDs spec) "";
  match SpecExecutor spec with
  | ExecutorNative => reject_if (negb (bool_decide (ContainerImage spec = ""))) e
  | ExecutorContainer =>
      _ ← reject_if (bool_decide (trim_space (ContainerImage spec) = "")) e;
      reject_if (containsNUL (ContainerImage spec)) e
  | ExecutorOther _ => Err e
  end.

(** ** Progress (progress.go) *)

Inductive ProgressPhase :=
| ProgressSnapshot | ProgressUpload | ProgressDownload | ProgressRestore | ProgressCollect
| ProgressPull | ProgressOther (name : string).

Definition phase_of_string (value : string) : ProgressPhase :=
  if bool_decide (value = "snapshot") then ProgressSnapshot
  else if bool_decide (value = "upload") then ProgressUpload
  else if bool_decide (value = "download") then ProgressDownload
  else if bool_decide (value = "restore") then ProgressRestore
  else if bool_decide (value = "collect") then ProgressCollect
  else if bool_decide (value = "pull") then ProgressPull
  else ProgressOther value.

Definition phase_string (phase : ProgressPhase) : string :=
  match phase with
  | ProgressSnapshot => "snapshot" | ProgressUpload => "upload" | ProgressDownload => "download"
  | ProgressRestore => "restore" | ProgressCollect => "collect" | ProgressPull => "pull"
  | ProgressOther name => name
  end.

Definition ProgressPhase_Valid (phase : ProgressPhase) : bool :=
  match phase with ProgressOther _ => false | _ => true end.

Definition ParseProgressPhase (value : string) : result ProgressPhase :=
  let phase := phase_of_string value in
  if negb (ProgressPhase_Valid phase) then Err [JobErrInvalidProgress] else Ok phase.

Record Progress := MkProgress {
  Phase : ProgressPhase;
  CompletedBytes : Z;
  TotalBytes : Z;
  ProgressUpdatedAt : Z
}.

Definition Progress_Validate (progress : Progress) : result unit :=
  let e := [JobErrInvalidProgress] in
  _ ← reject_if (negb (ProgressPhase_Valid (Phase progress))) e;
  _ ← reject_if (TotalBytes progress <=? 0)%Z e;
  _ ← reject_if ((CompletedBytes progress <? 0) || (TotalBytes progress <? CompletedBytes progress))%Z e;
  reject_if (is_zero_time (ProgressUpdatedAt progress)) e.

(** ** Jobs (job.go) *)

Record Failure := MkFailure { Code : string; Message : string; Retryable : bool }.

Definition Failure_Validate (failure : Failure) : result unit :=
  _ ← reject_if (bool_decide (Code failure = "")) [JobErrInvalidFailure];
  reject_if (bool_decide (Message failure = "")) [JobErrInvalidFailure].

Record Job := MkJob {
  ID : string;
  JobSpec : Spec;
  JobState : State;
  CreatedAt : Z;
  UpdatedAt : Z;
  JobFailure : option Failure;
  JobProgress : option Progress
}.

Record Transition := MkTransition {
  JobID : string;
  From : State;
  To : State;
  At : Z;
  TransitionFailure : option Failure
}.

Definition requires_failure (state : State) : bool :=
  match state with StateFailed | StateRejected | StateLost => true | _ => false end.

Definition validateFailureForState (state : State) (failure : option Failure) :
    result (option Failure) :=
  if requires_failure state then
    match failure with
    | None => Err [JobErrInvalidFailure]
    | Some f => _ ← Failure_Validate f; Ok (Some f)
    end
  else match failure with
  | Some _ => Err [JobErrFailureUnexpected]
  | None => Ok None
  end.

Definition Job_Validate (current : Job) : result unit :=
  let e := [JobErrInvalidJob] in
  _ ← reject_if (negb (ID_Valid (ID current))) [JobErrInvalidJob; JobErrInvalidID];
  _ ← wrap_err JobErrInvalidJob (Spec_Validate (JobSpec current));
  _ ← reject_if (negb (State_Valid (JobState current))) [JobErrInvalidJob; JobErrInvalidState];
  _ ← reject_if (is_zero_time (CreatedAt current)) e;
  _ ← reject_if (is_zero_time (UpdatedAt current)) e;
  _ ← reject_if (before (UpdatedAt current) (CreatedAt current)) e;
  _ ← wrap_err JobErrInvalidJob (validateFailureForState (JobState current) (JobFailure current));
  match JobProgress current with
  | Some progress => wrap_err JobErrInvalidJob (Progress_Validate progress)
  | None => Ok tt
  end.

Definition Job_New (id : string) (spec : Spec) (now : Z) : result Job :=
  let created := MkJob id spec StateCreated now now None None in
  _ ← Job_Validate created;
  Ok created.

Definition Job_Apply (current : Job) (to : State) (at_ : Z) (failure : option Failure) :
    result (Job * Transition) :=
  _ ← Job_Validate current;
  _ ← ValidateTransition (JobState current) to;
  _ ← reject_if (is_zero_time at_ || before at_ (UpdatedAt current)) [JobErrTransitionTime];
  storedFailure ← validateFailureForState to failure;
  Ok (MkJob (ID current) (JobSpec current) to (CreatedAt current) at_ storedFailure
        (JobProgress current),
      MkTransition (ID current) (JobState current) to at_ storedFailure).

End WithUnicode.

#[global] Arguments state_of_string : simpl never.
#[global] Arguments executor_of_string : simpl never.
#[global] Arguments phase_of_string : simpl never.
#[global] Arguments State_Valid : simpl never.
#[global] Arguments State_Terminal : simpl never.
#[global] Arguments CanTransition : simpl never.
#[global] Arguments ParseState : simpl never.
#[global] Arguments ParseProgressPhase : simpl never.
#[global] Arguments ParseID : simpl never.
#[global] Arguments ID_Valid : simpl never.
#[global] Arguments Spec_Validate : simpl never.
#[global] Arguments Progress_Validate : simpl never.
#[global] Arguments Failure_Validate : simpl never.
#[global] Arguments validateFailureForState : simpl never.
#[global] Arguments Job_Validate : simpl never.
#[global] Arguments Job_Apply : simpl never.

(** ** Specification of the lifecycle *)

(** How far a state is along the lifecycle of docs/PLAN.md. *)
Definition rank (s : State) : nat :=
  match s with
  | StateCreated => 0 | StateValidating => 1 | StateQueued => 2 | StateSnapshotting => 3
  | StateTransferring => 4 | StateStarting => 5 | StateRunning => 6 | StateCollecting => 7
  | StateRestoring => 8 | _ => 9
  end.

(** The step relation of the lifecycle. *)
Definition state_step (s t : State) : Prop := CanTransition s t = true.

(** A history: every transition starts where the previous one ended. *)
Inductive history : State → list (State * State) → State → Prop :=
| history_nil s : history s [] s
| history_snoc s steps t u : history s steps t → state_step t u → history s (steps ++ [(t, u)]) u.

(** ** Lemmas *)

Lemma can_transition_iff s t : CanTransition s t = true ↔ t ∈ allowedTransitions s.
Proof.
  unfold CanTransition, State_Valid. split.
  - destruct (_ || _); [done|]. apply bool_decide_eq_true_1.
  - intros Ht. destruct s; simpl in Ht; repeat (apply elem_of_cons in Ht as [->|Ht]);
      try reflexivity; by apply elem_of_nil in Ht.
Qed.

Lemma step_rank s t : state_step s t → rank s < rank t.
Proof.
  unfold state_step. rewrite can_transition_iff. intros Ht.
  destruct s; simpl in Ht; repeat (apply elem_of_cons in Ht as [->|Ht]); simpl; try lia;
    by apply elem_of_nil in Ht.
Qed.

Lemma rank_bound s : rank s ≤ 9.
Proof. destruct s; simpl; lia. Qed.

Lemma terminal_no_step s t : State_Terminal s = true → ¬ state_step s t.
Proof.
  intros Hs. unfold state_step. rewrite can_transition_iff.
  unfold State_Terminal in Hs. reflect_bools.
  unfold terminalStates in Hs. repeat (apply elem_of_cons in Hs as [->|Hs]); simpl;
    try apply not_elem_of_nil. by apply elem_of_nil in Hs.
Qed.

Lemma step_valid s t : state_step s t → State_Valid s = true ∧ State_Valid t = true.
Proof.
  unfold state_step, CanTransition. destruct (State_Valid s), (State_Valid t); simpl; done.
Qed.

Lemma validate_transition_ok s t : ValidateTransition s t = Ok tt ↔ state_step s t.
Proof.
  unfold ValidateTransition. split.
  - destruct (State_Valid s), (State_Valid t); simpl; try done.
    unfold state_step. by destruct (CanTransition s t).
  - intros Hstep. destruct (step_valid _ _ Hstep) as [-> ->].
    unfold state_step in Hstep. by rewrite Hstep.
Qed.

Lemma history_rank s steps t : history s steps t → rank s + length steps ≤ rank t.
Proof.
  induction 1 as [|s steps t u Hh IH Hstep]; [simpl; lia|].
  rewrite length_app. simpl. apply step_rank in Hstep. lia.
Qed.

Lemma history_chain s steps t : history s steps t → steps = [] ∧ s = t ∨ ∃ p, last steps = Some (p, t).
Proof.
  destruct 1; [by left|]. right. eexists. apply last_snoc.
Qed.

Lemma parse_state_string s : State_Valid s = true → state_of_string (state_string s) = s.
Proof. destruct s; try done. Qed.

(** *** Identifiers *)

Lemma remove_byte_no sep l : sep ∉ l → remove_byte sep l = l.
Proof.
  induction l as [|c l IH]; [done|]. intros Hn. unfold remove_byte in *.
  rewrite filter_cons_True by set_solver. f_equal. apply IH. set_solver.
Qed.

Lemma remove_byte_app sep l k : remove_byte sep (l ++ k) = remove_byte sep l ++ remove_byte sep k.
Proof. apply filter_app. Qed.

Lemma remove_dashes segs :
  Forall (λ seg, dash ∉ seg) segs → remove_byte dash (join_bytes dash segs) = concat segs.
Proof.
  induction 1 as [|seg segs Hs Hall IH]; [done|]. destruct segs as [|seg' segs].
  - simpl. rewrite app_nil_r. by apply remove_byte_no.
  - change (join_bytes dash (seg :: seg' :: segs))
      with (seg ++ dash :: join_bytes dash (seg' :: segs)).
    rewrite remove_byte_app, (remove_byte_no _ seg) by done. simpl. f_equal.
    etransitivity; [|apply IH]. unfold remove_byte. by rewrite filter_cons_False by tauto.
Qed.

(** Splits a 16-byte value into its bytes. *)
Ltac explode_uuid v Hlen :=
  do 16 (destruct v as [|? v]; [discriminate Hlen|]); destruct v; [|discriminate Hlen].

Lemma format_parts (v : bytes) :
  length v = 16 →
  take 4 v ++ take 2 (drop 4 v) ++ take 2 (drop 6 v) ++ take 2 (drop 8 v) ++ take 6 (drop 10 v) = v.
Proof. intros Hlen. explode_uuid v Hlen. reflexivity. Qed.

Lemma format_undash v :
  length v = 16 → remove_byte dash (bytes_of (formatID v)) = hex_encode v.
Proof.
  intros Hlen. unfold formatID. rewrite bytes_of_str_of, remove_dashes.
  2: { repeat constructor; apply hex_digits_no_dash. }
  cbn [concat]. rewrite app_nil_r, <-!hex_encode_app. by rewrite format_parts.
Qed.

Lemma parse_format v : length v = 16 → ParseID (formatID v) = Ok (formatID v).
Proof.
  intros Hlen. unfold ParseID. rewrite format_undash, hex_decode_encode, Hlen by done.
  assert (∃ l, bytes_of (formatID v) = l ∧ length l = 36 ∧ l !! 8 = Some dash ∧
    l !! 13 = Some dash ∧ l !! 18 = Some dash ∧ l !! 23 = Some dash) as (l & -> & H36 & H8 & H13 & H18 & H23).
  { eexists. split; [unfold formatID; apply bytes_of_str_of|].
    explode_uuid v Hlen. split_and!; reflexivity. }
  rewrite H36, H8, H13, H18, H23. reflexivity.
Qed.

Lemma parse_id_format value id :
  ParseID value = Ok id → ∃ v, length v = 16 ∧ id = formatID v.
Proof.
  unfold ParseID. destruct (_ || _); [done|].
  destruct (hex_decode _) as [decoded|]; [|done].
  case_bool_decide; simpl; intros [= <-]; eauto.
Qed.

Lemma id_valid_iff id : ID_Valid id = true ↔ ∃ v, length v = 16 ∧ id = formatID v.
Proof.
  unfold ID_Valid. split.
  - destruct (ParseID id) as [parsed|] eqn:E; [|done]. intros ?. reflect_bools. subst.
    by apply parse_id_format in E.
  - intros (v & Hlen & ->). rewrite parse_format by done. by rewrite bool_decide_eq_true_2.
Qed.

Lemma format_inj v w : length v = 16 → length w = 16 → formatID v = formatID w → v = w.
Proof.
  intros Hv Hw E. apply (inj Some). rewrite <-(hex_decode_encode v), <-(hex_decode_encode w).
  by rewrite <-!format_undash, E.
Qed.

Lemma new_id_valid random id : length random = 16 → NewID (Some random) = Ok id → ID_Valid id = true.
Proof.
  intros Hlen [= <-]. apply id_valid_iff. eexists. split; [|done]. by rewrite !length_alter.
Qed.

(** *** Specifications and jobs *)

Section Validation.
Context `{UnicodeCase}.

Lemma validate_outputs_ok outputs keys :
  validate_outputs outputs keys = Ok tt ↔
  Forall (λ o, PortablePath.Validate o = Ok tt ∧ reservedOutputPath (Key o) = false ∧ Key o ∉ keys) outputs
  ∧ NoDup (map Key outputs).
Proof.
  revert keys. induction outputs as [|o outputs IH]; intros keys; simpl.
  { split; [repeat constructor|done]. }
  rewrite Forall_cons, NoDup_cons.
  destruct (PortablePath.Validate o) as [[]|e] eqn:Ev; [|naive_solver].
  destruct (reservedOutputPath (Key o)) eqn:Er; [naive_solver|].
  case_bool_decide as Hk; [naive_solver|].
  rewrite IH, !Forall_forall. setoid_rewrite not_elem_of_union.
  setoid_rewrite not_elem_of_singleton. split.
  - intros [Hall Hnd]. split_and!; try done; [naive_solver|].
    intros (o' & Ho' & Hin)%list_elem_of_In%in_map_iff. apply list_elem_of_In in Hin.
    by destruct (Hall _ Hin) as (_ & _ & ? & _).
  - intros [[_ Hall] [Hno Hnd]]. split; [|done]. intros o' Hin.
    destruct (Hall _ Hin) as (? & ? & ?). split_and!; try done. intros E. apply Hno.
    rewrite <-E. by apply list_elem_of_In, in_map, list_elem_of_In.
Qed.

(** The sortedness test and the scan for adjacent duplicates together force
    the tools to be strictly increasing. *)
Lemma validate_tools_strict tools previous :
  is_sorted tools = true → validate_tools tools previous = Ok tt →
  Forall (λ t, invalidToolID t = false) tools ∧
  (∀ i a b, tools !! i = Some a → tools !! S i = Some b → str_ltb a b = true).
Proof.
  revert previous. induction tools as [|t tools IH]; intros previous Hs Hv; [by split|].
  simpl in Hv. destruct (invalidToolID t) eqn:Et; [done|].
  case_bool_decide as Hp; [done|].
  assert (is_sorted tools = true ∧
    ∀ b, tools !! 0 = Some b → str_ltb b t = false) as [Hs' Hhd].
  { destruct tools as [|u tools]; [by split|]. simpl in Hs. reflect_bools. split; [done|].
    intros b [= <-]. done. }
  destruct (IH t Hs' Hv) as [Hall Hlt]. split; [by constructor|].
  intros [|i] a b Ha Hb; simpl in *; [|by eapply Hlt]. simplify_eq.
  apply str_ltb_total; [by apply Hhd|]. intros <-.
  destruct tools as [|u tools]; [done|]. simpl in *. simplify_eq. rewrite Et in Hv.
  by rewrite bool_decide_eq_true_2 in Hv.
Qed.

Lemma spec_validate_inv spec :
  Spec_Validate spec = Ok tt →
  containsNUL (Executable spec) = false ∧
  trim_space (Executable spec) ≠ "" ∧
  Forall (λ a, containsNUL a = false) (Arguments_ spec) ∧
  length (Outputs spec) ≤ MaximumOutputs ∧
  validate_outputs (Outputs spec) ∅ = Ok tt ∧
  length (RequiredToolIDs spec) ≤ MaximumRequiredToolIDs ∧
  is_sorted (RequiredToolIDs spec) = true ∧
  validate_tools (RequiredToolIDs spec) "" = Ok tt ∧
  (SpecExecutor spec = ExecutorNative ∨ SpecExecutor spec = ExecutorContainer).
Proof.
  unfold Spec_Validate. intros Hv. invert_ok Hv; reflect_bools; destruct_unit;
    split_and!; auto; try lia.
  all: apply Forall_forall; intros a Ha; destruct (containsNUL a) eqn:Ea; [|done].
  all: match goal with E : existsb containsNUL _ = false |- _ => rewrite <-E end.
  all: symmetry; apply existsb_exists; exists a; by rewrite <-list_elem_of_In.
Qed.

(** What [Job.Validate] accepts. *)
Lemma job_validate_ok j :
  Job_Validate j = Ok tt ↔
  ID_Valid (ID j) = true ∧ Spec_Validate (JobSpec j) = Ok tt ∧ State_Valid (JobState j) = true ∧
  is_zero_time (CreatedAt j) = false ∧ is_zero_time (UpdatedAt j) = false ∧
  (CreatedAt j ≤ UpdatedAt j)%Z ∧
  validateFailureForState (JobState j) (JobFailure j) = Ok (JobFailure j) ∧
  match JobProgress j with Some p => Progress_Validate p = Ok tt | None => True end.
Proof.
  assert (∀ s f r, validateFailureForState s f = Ok r → r = f) as Hsame.
  { intros s f r Hf. unfold validateFailureForState in Hf. by invert_ok Hf. }
  unfold Job_Validate. split.
  - intros Hv. invert_ok Hv; reflect_bools; destruct_unit; unfold before in *; reflect_bools;
      (match goal with Ef : validateFailureForState _ _ = Ok _ |- _ =>
         pose proof (Hsame _ _ _ Ef); subst end); split_and!; auto.
  - intros (Hid & Hspec & Hst & Hc & Hu & Hle & Hf & Hp).
    rewrite Hid, Hspec, Hst, Hc, Hu, Hf. unfold before.
    rewrite (proj2 (Z.ltb_ge _ _) Hle). simpl.
    destruct (JobProgress j); [by rewrite Hp|done].
Qed.

Lemma failure_for_state_idemp s f g :
  validateFailureForState s f = Ok g → g = f ∧ validateFailureForState s g = Ok g.
Proof. intros Hf. pose proof Hf as Hf'. unfold validateFailureForState in Hf. invert_ok Hf; auto. Qed.

Lemma job_new_valid id spec now j :
  Job_New id spec now = Ok j → Job_Validate j = Ok tt ∧ j = MkJob id spec StateCreated now now None None.
Proof. unfold Job_New. intros Hn. invert_ok Hn; destruct_unit; auto. Qed.

(** The whole effect of an accepted transition. *)
Lemma job_apply_ok j to at_ failure j' tr :
  Job_Apply j to at_ failure = Ok (j', tr) ↔
  Job_Validate j = Ok tt ∧ state_step (JobState j) to ∧ is_zero_time at_ = false ∧
  (UpdatedAt j ≤ at_)%Z ∧ validateFailureForState to failure = Ok failure ∧
  j' = MkJob (ID j) (JobSpec j) to (CreatedAt j) at_ failure (JobProgress j) ∧
  tr = MkTransition (ID j) (JobState j) to at_ failure.
Proof.
  unfold Job_Apply. split.
  - intros Ha. invert_ok Ha; reflect_bools; destruct_unit; unfold before in *; reflect_bools.
    destruct (failure_for_state_idemp _ _ _ E2) as [-> ?].
    split_and!; auto. by apply validate_transition_ok.
  - intros (Hv & Hs & Hz & Hle & Hf & -> & ->).
    apply validate_transition_ok in Hs. rewrite Hv, Hs, Hz, Hf. unfold before.
    by rewrite (proj2 (Z.ltb_ge _ _) Hle).
Qed.

Lemma job_apply_preserves j to at_ failure j' tr :
  Job_Apply j to at_ failure = Ok (j', tr) → Job_Validate j' = Ok tt.
Proof.
  rewrite job_apply_ok. intros (Hv & Hs & Hz & Hle & Hf & -> & ->).
  apply job_validate_ok in Hv as (? & ? & ? & ? & ? & ? & ? & ?).
  apply job_validate_ok. simpl. split_and!; auto; [by apply step_valid in Hs as [_ ?]|lia].
Qed.

End Validation.

(** ** Properties *)

(** A small job for the witnesses. *)
Definition sample_id : string := "7a338fa3-7ba4-4c54-bf59-da1161f6b76f".
Definition sample_spec : Spec :=
  MkSpec "go" ["test"; "./..."] "" {["CI" := "1"]} ExecutorNative "" ["dist"; "logs/out.txt"] ["go"; "node"].
Definition sample_time : Z := (1700000000 * second)%Z.
Definition sample_job : Job := MkJob sample_id sample_spec StateRunning sample_time sample_time None None.

(** C40 The lifecycle always moves forward: a history of [n] accepted transitions
    climbs [n] ranks, so a job changes state at most nine times, and a state is
    final exactly when it is terminal (every other valid state can be cancelled). *)
Theorem lifecycle_terminates :
  (∀ s steps t, history s steps t → rank s + length steps ≤ rank t ∧ length steps ≤ 9) ∧
  (∀ s, State_Valid s = true → (State_Terminal s = true ↔ ∀ t, CanTransition s t = false)) ∧
  (∀ s, State_Valid s = true → State_Terminal s = false → CanTransition s StateCancelled = true).
Proof.
  split_and!.
  - intros s steps t Hh%history_rank. pose proof (rank_bound t). lia.
  - intros s Hs. split.
    + intros Ht t. apply not_true_is_false. by apply terminal_no_step.
    + intros Hno. destruct s; try done; discriminate (Hno StateCancelled).
  - intros s Hs Ht. by destruct s.
Qed.

(** [Apply] accepts exactly the legal transitions: the current job validates,
    the lifecycle allows the step, time does not run backwards, and the failure
    is present iff the target state requires one.  The result differs from the
    job only in state, update time and failure, and the transition records it. *)
Theorem apply_exact (U : UnicodeCase) j to at_ failure j' tr :
  Job_Apply j to at_ failure = Ok (j', tr) ↔
  Job_Validate j = Ok tt ∧ CanTransition (JobState j) to = true ∧ is_zero_time at_ = false ∧
  (UpdatedAt j ≤ at_)%Z ∧
  match failure with
  | Some f => requires_failure to = true ∧ Code f ≠ "" ∧ Message f ≠ ""
  | None => requires_failure to = false
  end ∧
  j' = MkJob (ID j) (JobSpec j) to (CreatedAt j) at_ failure (JobProgress j) ∧
  tr = MkTransition (ID j) (JobState j) to at_ failure.
Proof.
  rewrite job_apply_ok. unfold state_step.
  assert (validateFailureForState to failure = Ok failure ↔
    match failure with
    | Some f => requires_failure to = true ∧ Code f ≠ "" ∧ Message f ≠ ""
    | None => requires_failure to = false
    end) as ->; [|done].
  unfold validateFailureForState, Failure_Validate.
  destruct (requires_failure to), failure as [f|]; simpl; try naive_solver.
  repeat case_bool_decide; simpl; naive_solver.
Qed.

(** [Apply] and [New] preserve validity: a job built by [New] validates, and so
    does every job [Apply] returns. *)
Theorem apply_preserves_valid (U : UnicodeCase) :
  (∀ id spec now j, Job_New id spec now = Ok j → Job_Validate j = Ok tt) ∧
  (∀ j to at_ failure j' tr,
     Job_Apply j to at_ failure = Ok (j', tr) → Job_Validate j' = Ok tt).
Proof.
  split; [by intros id spec now j [? _]%job_new_valid|].
  intros j to at_ failure j' tr. apply job_apply_preserves.
Qed.

(** A terminal job is immutable: whatever the target, the time and the failure,
    [Apply] refuses it, with the illegal-transition error when the job and the
    target are valid. *)
Theorem terminal_immutable (U : UnicodeCase) j to at_ failure :
  State_Terminal (JobState j) = true →
  (∃ e, Job_Apply j to at_ failure = Err e) ∧
  (Job_Validate j = Ok tt → State_Valid to = true →
   Job_Apply j to at_ failure = Err [JobErrInvalidTransition]).
Proof.
  intros Ht. split.
  - destruct (Job_Apply j to at_ failure) as [[j' tr]|e] eqn:Ea; [|eauto].
    apply job_apply_ok in Ea as (_ & Hs & _). by apply terminal_no_step in Hs.
  - intros Hv Hto. unfold Job_Apply. rewrite Hv. simpl.
    apply job_validate_ok in Hv as (_ & _ & Hst & _).
    unfold ValidateTransition. rewrite Hst, Hto. simpl.
    destruct (CanTransition (JobState j) to) eqn:Ec; [|done].
    by apply terminal_no_step in Ec.
Qed.

Lemma terminal_immutable_witness :
  ∃ e, @Job_Apply ascii_case
    (MkJob sample_id sample_spec StateSucceeded sample_time sample_time None None)
    StateRunning sample_time None = Err e.
Proof. apply (terminal_immutable ascii_case). reflexivity. Defined.

(** Job identifiers are canonical UUIDs: an ID is valid iff it is the lower-case
    rendering of 16 bytes, that rendering is injective, parsing canonicalizes
    (its result is valid and parses to itself), and a generated ID is valid. *)
Theorem id_canonical :
  (∀ id, ID_Valid id = true ↔ ∃ v, length v = 16 ∧ id = formatID v) ∧
  (∀ v w, length v = 16 → length w = 16 → formatID v = formatID w → v = w) ∧
  (∀ value id, ParseID value = Ok id → ID_Valid id = true ∧ ParseID id = Ok id) ∧
  (∀ random id, length random = 16 → NewID (Some random) = Ok id → ID_Valid id = true).
Proof.
  split_and!; [apply id_valid_iff|apply format_inj| |apply new_id_valid].
  intros value id (v & Hv & ->)%parse_id_format. split; [apply id_valid_iff; eauto|].
  by apply parse_format.
Qed.

(** A validated specification is safe to execute and to collect from: no NUL
    byte in the command line, at most 64 outputs, all portable relative paths
    outside the reserved directories and pairwise distinct up to case, and at
    most 128 required tools in strictly increasing order. *)
Theorem spec_validate_sound (U : UnicodeCase) spec :
  Spec_Validate spec = Ok tt →
  containsNUL (Executable spec) = false ∧ Forall (λ a, containsNUL a = false) (Arguments_ spec) ∧
  length (Outputs spec) ≤ 64 ∧
  Forall (λ o, portable o ∧ reservedOutputPath (Key o) = false) (Outputs spec) ∧
  NoDup (map Key (Outputs spec)) ∧
  length (RequiredToolIDs spec) ≤ 128 ∧
  (∀ i a b, RequiredToolIDs spec !! i = Some a → RequiredToolIDs spec !! S i = Some b →
     str_ltb a b = true).
Proof.
  intros (Hnul & _ & Hargs & Hlen & [Houts Hnd]%validate_outputs_ok & Htl & Hsort & Htools & _)%spec_validate_inv.
  split_and!; auto.
  - eapply Forall_impl; [exact Houts|]. intros o (Hv & Hr & _). split; [|done].
    by apply validate_portable.
  - by eapply validate_tools_strict.
Qed.

Lemma spec_validate_sound_witness : NoDup (map (@Key ascii_case) (Outputs sample_spec)).
Proof. apply (spec_validate_sound ascii_case sample_spec). vm_compute. reflexivity. Defined.
