(* ===== verification/Effects.v ===== *)
(** * Effects: the shared database, the clock, failures and interference

    Repository methods are state-passing functions on a database value; the
    services that call them also read a clock and run beside other processes.

    [Tx] is the body of one SQL statement or of one transaction.  A transaction
    of the code is rolled back on every error path ([defer Rollback]), and a
    driver failure at any of its statements, at its begin or at its commit has
    the same outcome: an error and the database as it was.  [atomically] models
    that with one failure oracle bit per transaction.

    Between two accesses of a service other processes may write to the database:
    [w_interfere] is what they do before the [n]-th access. *)

From S2P Require Import Prelude.

Definition Tx (DB A : Type) : Type := DB → result (A * DB).

#[global] Instance Tx_ret DB : MRet (Tx DB) := fun _ a d => Ok (a, d).
#[global] Instance Tx_bind DB : MBind (Tx DB) := fun _ _ f t d =>
  match t d with Ok (a, d') => f a d' | Err e => Err e end.

Definition tx_read {DB} : Tx DB DB := fun d => Ok (d, d).
Definition tx_write {DB} (d : DB) : Tx DB unit := fun _ => Ok (tt, d).
Definition tx_lift {DB A} (r : result A) : Tx DB A := fun d =>
  match r with Ok a => Ok (a, d) | Err e => Err e end.

(** Runs [t], which changes nothing when it fails; the caller looks at its error. *)
Definition tx_try {DB A} (t : Tx DB A) : Tx DB (result A) := fun d =>
  match t d with Ok (a, d') => Ok (Ok a, d') | Err e => Ok (Err e, d) end.

(** A statement whose constraints hold only if [ok]: the driver reports a
    violation with primary code 19. *)
Definition constraint {DB} (ok : bool) : Tx DB unit :=
  tx_lift (reject_if (negb ok) [ConstraintError]).

Record World (DB : Type) := MkWorld {
  w_db : DB;
  w_fault : nat → bool;
  w_interfere : nat → DB → DB;
  w_access : nat;          (* database accesses so far *)
  w_clock : nat → Z;
  w_ticks : nat;           (* clock readings so far *)
  w_count : nat → nat      (* bytes the device takes at the [n]-th access *)
}.
Arguments MkWorld {_} _ _ _ _ _ _ _.
Arguments w_db {_} _.
Arguments w_fault {_} _ _.
Arguments w_interfere {_} _ _ _.
Arguments w_access {_} _.
Arguments w_clock {_} _ _.
Arguments w_ticks {_} _.
Arguments w_count {_} _ _.

Definition M (DB A : Type) : Type := World DB → result A * World DB.

#[global] Instance M_ret DB : MRet (M DB) := fun _ a w => (Ok a, w).
#[global] Instance M_bind DB : MBind (M DB) := fun _ _ f m w =>
  match m w with (Ok a, w') => f a w' | (Err e, w') => (Err e, w') end.

Definition fail {DB A} (e : list sentinel) : M DB A := fun w => (Err e, w).
Definition lift {DB A} (r : result A) : M DB A := fun w => (r, w).

(** Runs [m] and hands its error, if any, to the caller. *)
Definition try_ {DB A} (m : M DB A) : M DB (result A) := fun w =>
  let '(r, w') := m w in (Ok r, w').

(** [service.now()]. *)
Definition now {DB} : M DB Z := fun w =>
  (Ok (w_clock w (w_ticks w)),
   MkWorld (w_db w) (w_fault w) (w_interfere w) (w_access w) (w_clock w) (S (w_ticks w))
     (w_count w)).

(** The database as the next access finds it, and the world after an access. *)
Definition next_db {DB} (w : World DB) : DB := w_interfere w (w_access w) (w_db w).
Definition accessed {DB} (w : World DB) (d : DB) : World DB :=
  MkWorld d (w_fault w) (w_interfere w) (S (w_access w)) (w_clock w) (w_ticks w)
    (w_count w).

Definition atomically {DB A} (t : Tx DB A) : M DB A := fun w =>
  let d := next_db w in
  if w_fault w (w_access w) then (Err [DriverError], accessed w d)
  else match t d with
  | Ok (a, d') => (Ok a, accessed w d')
  | Err e => (Err e, accessed w d)
  end.

(** A world without failures or interference, whose device takes up to a whole
    log chunk (16384 bytes) at a time. *)
Definition max_count : nat := Z.to_nat 16384.
#[global] Arguments max_count : simpl never.
Definition quiet {DB} (d : DB) (clock : nat → Z) : World DB :=
  MkWorld d (fun _ => false) (fun _ d => d) 0 clock 0 (fun _ => max_count).

(** ** Lemmas *)

Lemma tx_bind_ok {DB A B} (t : Tx DB A) (f : A → Tx DB B) d b d' :
  (t ≫= f) d = Ok (b, d') ↔ ∃ a d1, t d = Ok (a, d1) ∧ f a d1 = Ok (b, d').
Proof.
  unfold mbind, Tx_bind. destruct (t d) as [[a d1]|e]; split.
  - eauto.
  - intros (a' & d1' & [= -> ->] & ?). done.
  - done.
  - intros (a' & d1' & ? & _). done.
Qed.

Lemma m_bind_ok {DB A B} (m : M DB A) (f : A → M DB B) w b w' :
  (m ≫= f) w = (Ok b, w') ↔ ∃ a w1, m w = (Ok a, w1) ∧ f a w1 = (Ok b, w').
Proof.
  unfold mbind, M_bind. destruct (m w) as [[a|e] w1]; split.
  - eauto.
  - intros (a' & w1' & [= -> ->] & ?). done.
  - done.
  - intros (a' & w1' & ? & _). done.
Qed.

(** Every access either fails and leaves the database as it found it, or
    succeeds with the result of its body. *)
Lemma atomically_cases {DB A} (t : Tx DB A) w r w' :
  atomically t w = (r, w') →
  (∃ e, r = Err e ∧ w' = accessed w (next_db w) ∧ (e = [DriverError] ∨ t (next_db w) = Err e)) ∨
  (∃ a d', r = Ok a ∧ t (next_db w) = Ok (a, d') ∧ w' = accessed w d').
Proof.
  unfold atomically. destruct (w_fault w (w_access w)).
  - intros [= <- <-]. left. eauto 10.
  - destruct (t (next_db w)) as [[a d']|e] eqn:E; intros [= <- <-]; [right|left]; eauto 10.
Qed.

(** Worlds without failures or interference, such as [quiet] ones. *)
Definition calm {DB} (w : World DB) : Prop :=
  (∀ n, w_fault w n = false) ∧ (∀ n d, w_interfere w n d = d).

Lemma quiet_calm {DB} (d : DB) clock : calm (quiet d clock).
Proof. done. Qed.

Lemma calm_accessed {DB} (w : World DB) d : calm w → calm (accessed w d).
Proof. done. Qed.

Lemma calm_atomically {DB A} (t : Tx DB A) w :
  calm w → atomically t w = match t (w_db w) with
    | Ok (a, d') => (Ok a, accessed w d') | Err e => (Err e, accessed w (w_db w)) end.
Proof. intros [Hf Hi]. unfold atomically, next_db. by rewrite Hf, Hi. Qed.

#[export] Hint Resolve quiet_calm calm_accessed : hop.

(** An invariant of the database that the other processes maintain and every
    transaction body preserves holds after any access. *)
Definition preserves {DB A} (I : DB → Prop) (t : Tx DB A) : Prop :=
  ∀ d a d', I d → t d = Ok (a, d') → I d'.

Definition stable {DB} (I : DB → Prop) (w : World DB) : Prop :=
  ∀ n d, I d → I (w_interfere w n d).

Definition keeps {DB A} (I : DB → Prop) (m : M DB A) : Prop :=
  ∀ w r w', stable I w → I (w_db w) → m w = (r, w') →
    I (w_db w') ∧ w_interfere w' = w_interfere w.

Lemma atomically_keeps {DB A} (I : DB → Prop) (t : Tx DB A) :
  preserves I t → keeps I (atomically t).
Proof.
  intros Ht w r w' Hst Hi Hrun.
  apply atomically_cases in Hrun as [(e & _ & -> & _)|(a & d' & _ & Ht' & ->)]; simpl.
  - split; [|done]. by apply Hst.
  - split; [|done]. eapply Ht; [|exact Ht']. by apply Hst.
Qed.

Lemma bind_keeps {DB A B} (I : DB → Prop) (m : M DB A) (f : A → M DB B) :
  keeps I m → (∀ a, keeps I (f a)) → keeps I (m ≫= f).
Proof.
  intros Hm Hf w r w' Hst Hi. unfold mbind, M_bind.
  destruct (m w) as [[a|e] w1] eqn:Em; intros Hrun.
  - destruct (Hm _ _ _ Hst Hi Em) as [Hi1 Hw1].
    destruct (Hf a w1 r w') as [Hi' Hw']; auto; [|by rewrite Hw', Hw1].
    intros n d Hd. rewrite Hw1. by apply Hst.
  - injection Hrun as <- <-. by eapply Hm.
Qed.

Lemma try_keeps {DB A} (I : DB → Prop) (m : M DB A) : keeps I m → keeps I (try_ m).
Proof.
  intros Hm w r w' Hst Hi. unfold try_. destruct (m w) as [r1 w1] eqn:Em.
  intros [= <- <-]. by eapply Hm.
Qed.

Lemma ret_keeps {DB A} (I : DB → Prop) (a : A) : keeps (DB:=DB) I (mret a).
Proof. intros w r w' _ Hi [= <- <-]. done. Qed.

Lemma fail_keeps {DB A} (I : DB → Prop) e : keeps (DB:=DB) (A:=A) I (fail e).
Proof. intros w r w' _ Hi [= <- <-]. done. Qed.

Lemma lift_keeps {DB A} (I : DB → Prop) (x : result A) : keeps (DB:=DB) I (lift x).
Proof. intros w r w' _ Hi [= <- <-]. done. Qed.

Lemma now_keeps {DB} (I : DB → Prop) : keeps (DB:=DB) I now.
Proof. intros w r w' _ Hi [= <- <-]. done. Qed.

(** A guard whose success the rest may rely on. *)
Lemma lift_bind_keeps {DB A B} (I : DB → Prop) (r : result A) (f : A → M DB B) :
  (∀ a, r = Ok a → keeps I (f a)) → keeps I (lift r ≫= f).
Proof.
  intros Hf w r' w' Hst Hi. unfold mbind, M_bind, lift. destruct r as [a|e]; [by apply Hf|].
  by intros [= <- <-].
Qed.

Lemma tx_bind_preserves {DB A B} (I : DB → Prop) (t : Tx DB A) (f : A → Tx DB B) :
  preserves I t → (∀ a, preserves I (f a)) → preserves I (t ≫= f).
Proof. intros Ht Hf d b d' Hi (a & d1 & E1 & E2)%tx_bind_ok. eapply Hf, E2. eapply Ht, E1. done. Qed.

Lemma tx_ret_preserves {DB A} (I : DB → Prop) (a : A) : preserves (DB:=DB) I (mret a).
Proof. intros d b d' Hi [= <- <-]. done. Qed.

Lemma tx_read_preserves {DB} (I : DB → Prop) : preserves (DB:=DB) I tx_read.
Proof. intros d b d' Hi [= <- <-]. done. Qed.

Lemma tx_lift_preserves {DB A} (I : DB → Prop) (r : result A) : preserves (DB:=DB) I (tx_lift r).
Proof. intros d b d' Hi. unfold tx_lift. destruct r; [|done]. by intros [= <- <-]. Qed.

#[export] Hint Resolve atomically_keeps bind_keeps try_keeps ret_keeps fail_keeps lift_keeps
  now_keeps tx_bind_preserves tx_ret_preserves tx_read_preserves tx_lift_preserves : hop.

Lemma tx_read_ok {DB} (d a d' : DB) : tx_read d = Ok (a, d') ↔ a = d ∧ d' = d.
Proof. unfold tx_read. split; [by intros [= <- <-]|by intros [-> ->]]. Qed.

Lemma tx_write_ok {DB} (x d : DB) u d' : tx_write x d = Ok (u, d') ↔ d' = x.
Proof. unfold tx_write. destruct u. split; [by intros [= <-]|by intros ->]. Qed.

Lemma tx_lift_ok {DB A} (r : result A) (d : DB) a d' : tx_lift r d = Ok (a, d') ↔ r = Ok a ∧ d' = d.
Proof. unfold tx_lift. destruct r; split; [by intros [= <- <-]|by intros [[= ->] ->]|done|by intros [? _]]. Qed.

Lemma tx_ret_ok {DB A} (x : A) (d : DB) a d' : (mret x : Tx DB A) d = Ok (a, d') ↔ a = x ∧ d' = d.
Proof. unfold mret, Tx_ret. split; [by intros [= <- <-]|by intros [-> ->]]. Qed.

(** Inverts a successful transaction body in [H : t d = Ok (a, d')]. *)
Ltac invert_tx H :=
  repeat match type of H with
  | mbind _ _ _ = Ok _ =>
      let a := fresh "a" in let d := fresh "d" in let H1 := fresh "Hs" in
      apply tx_bind_ok in H as (a & d & H1 & H); invert_tx H1
  | tx_read _ = Ok _ => apply tx_read_ok in H as [? ?]; subst
  | tx_write _ _ = Ok _ => apply tx_write_ok in H; subst
  | tx_lift _ _ = Ok _ => apply tx_lift_ok in H as [H ?]; subst
  | mret _ _ = Ok _ => apply tx_ret_ok in H as [? ?]; subst
  | constraint _ _ = Ok _ => unfold constraint in H
  | reject_if _ _ = Ok _ => apply reject_if_ok in H
  end; reflect_bools.

(** ** Runs without failures

    [ends_in T m d Q]: from database [d], in a world without failures or interference
    whose clock readings satisfy [T], [m] ends in a result and a database that satisfy
    [Q]. *)

Definition clocked {DB} (T : Z → Prop) (w : World DB) : Prop := ∀ n, T (w_clock w n).

Definition ends_in {DB A} (T : Z → Prop) (m : M DB A) (d : DB) (Q : result A → DB → Prop) : Prop :=
  ∀ w, calm w → clocked T w → w_db w = d → ∃ r w', m w = (r, w') ∧ calm w' ∧ clocked T w' ∧ Q r (w_db w').

Section Ends.
Context {DB : Type} {T : Z → Prop}.

Lemma ends_mono {A} (m : M DB A) d (P Q : result A → DB → Prop) :
  ends_in T m d P → (∀ r d', P r d' → Q r d') → ends_in T m d Q.
Proof. intros Hm HPQ w Hc Ht Hv. destruct (Hm w Hc Ht Hv) as (r & w' & ? & ? & ? & ?). exists r, w'. auto. Qed.

Lemma ends_bind {A B} (m : M DB A) (f : A → M DB B) d Q :
  ends_in T m d (λ r d', match r with Ok a => ends_in T (f a) d' Q | Err e => Q (Err e) d' end) → ends_in T (m ≫= f) d Q.
Proof.
  intros Hm w Hc Ht Hv. destruct (Hm w Hc Ht Hv) as ([a|e] & w1 & E & Hc1 & Ht1 & HQ); unfold mbind, M_bind; rewrite E.
  - by apply HQ.
  - by exists (Err e), w1.
Qed.

Lemma ends_ret {A} (a : A) d (Q : result A → DB → Prop) : Q (Ok a) d → ends_in T (mret a) d Q.
Proof. intros HQ w Hc Ht <-. by exists (Ok a), w. Qed.

Lemma ends_lift {A} (x : result A) d (Q : result A → DB → Prop) : Q x d → ends_in T (lift x) d Q.
Proof. intros HQ w Hc Ht <-. by exists x, w. Qed.

Lemma ends_fail {A} e d (Q : result A → DB → Prop) : Q (Err e) d → ends_in T (fail e) d Q.
Proof. intros HQ w Hc Ht <-. by exists (Err e), w. Qed.

Lemma ends_try {A} (m : M DB A) d (Q : result (result A) → DB → Prop) :
  ends_in T m d (λ r d', Q (Ok r) d') → ends_in T (try_ m) d Q.
Proof.
  intros Hm w Hc Ht Hv. destruct (Hm w Hc Ht Hv) as (r & w' & E & ? & ? & ?). unfold try_. rewrite E.
  by exists (Ok r), w'.
Qed.

Lemma ends_now d (Q : result Z → DB → Prop) : (∀ t, T t → Q (Ok t) d) → ends_in T now d Q.
Proof. intros HQ w Hc Ht <-. eexists _, _. split; [reflexivity|]. split_and!; try done. simpl. apply HQ, Ht. Qed.

Lemma ends_atomically {A} (t : Tx DB A) d (Q : result A → DB → Prop) :
  match t d with Ok (a, d') => Q (Ok a) d' | Err e => Q (Err e) d end → ends_in T (atomically t) d Q.
Proof.
  intros HQ w Hc Ht Hv. rewrite calm_atomically by done. rewrite Hv.
  destruct (t d) as [[a d']|e]; eexists _, _; (split; [reflexivity|done]).
Qed.

End Ends.

(** ** Which errors a computation can return *)

(** [free s r]: the error of [r], if any, does not wrap [s]. *)

Definition free {A} (s : sentinel) (r : result A) : Prop := ∀ e, r = Err e → s ∉ e.
Definition tx_free {DB A} (s : sentinel) (t : Tx DB A) : Prop := ∀ d e, t d = Err e → s ∉ e.

Lemma free_ok {A} s (a : A) : free s (Ok a).
Proof. by intros e [=]. Qed.
Lemma free_err {A} s e : s ∉ e → free (A:=A) s (Err e).
Proof. by intros Hs e' [= <-]. Qed.
Lemma free_bind {A B} s (r : result A) (f : A → result B) : free s r → (∀ a, free s (f a)) → free s (r ≫= f).
Proof. intros Hr Hf. destruct r as [a|e]; [apply Hf|]. intros e' [= <-]. by apply Hr. Qed.
Lemma free_reject s b e : s ∉ e → free s (reject_if b e).
Proof. intros Hs. destruct b; [by apply free_err|apply free_ok]. Qed.
Lemma free_wrap {A} s o (r : result A) : s ≠ o → free s r → free s (wrap_err o r).
Proof. intros Hs Hr. destruct r as [a|e]; [apply free_ok|]. apply free_err. specialize (Hr e eq_refl). set_solver. Qed.
Lemma tx_free_bind {DB A B} s (t : Tx DB A) (f : A → Tx DB B) :
  tx_free s t → (∀ a, tx_free s (f a)) → tx_free s (t ≫= f).
Proof.
  intros Ht Hf d e. unfold mbind, Tx_bind. destruct (t d) as [[a d']|e'] eqn:E; [apply Hf|].
  intros [= <-]. by eapply Ht.
Qed.
Lemma tx_free_lift {DB A} s (r : result A) : free s r → tx_free (DB:=DB) s (tx_lift r).
Proof. intros Hr d e. unfold tx_lift. destruct r; [done|]. intros [= <-]. by apply Hr. Qed.
Lemma tx_free_ok {DB A} s (t : Tx DB A) : (∀ d, ∃ r, t d = Ok r) → tx_free s t.
Proof. intros Ht d e E. destruct (Ht d). congruence. Qed.

Create HintDb hop_free discriminated.

Ltac frees :=
  repeat first
    [ solve [auto 1 with hop_free nocore] | apply free_bind; [|intros ?] | apply free_reject; set_solver | apply free_ok | apply free_err; set_solver
    | apply free_wrap; [done|] | apply tx_free_bind; [|intros ?] | apply tx_free_lift
    | solve [apply tx_free_ok; intros ?; eexists; reflexivity] | assumption
    | match goal with |- context [match ?x with _ => _ end] => destruct x end ].

