(* ===== verification/Migrate.v ===== *)
(** * The database file (internal/infra/sqlite: database.go, migrate.go)

    Opening a database, checking that it belongs to ComputeHop, and applying the
    embedded migrations, each in a transaction that also records it.  What SQLite
    makes of a script is a parameter, as are the files; other daemons may open the
    same database at the same time. *)

From S2P Require Import Prelude GoText GoNumber Effects.
From Stdlib Require Import Ascii.
Local Open Scope string_scope.
Local Open Scope nat_scope.
Local Open Scope list_scope.

Record MigrationRow := MkRow { mr_version : Z; mr_name : string; mr_applied_at_ns : Z }.

(** A database: the table [schema_migrations], if it was created, its application
    identifier, and the rest, on which scripts work. *)
Record Store (S : Type) := MkStore { sc_migrations : option (list MigrationRow); sc_applicationID : Z; sc_content : S }.
Arguments MkStore {S}. Arguments sc_migrations {S}. Arguments sc_applicationID {S}. Arguments sc_content {S}.

(** An entry of the embedded directory, with what reading it returns. *)
Record Entry := MkEntry { en_Name : string; en_IsDir : bool; en_contents : result string }.

Definition migrationVersion (name : string) : result Z :=
  match Cut "_"%char name with
  | None => Err [AnonymousError]
  | Some (prefix, _) =>
      match Atoi prefix with
      | Some version => if (version <=? 0)%Z then Err [AnonymousError] else Ok version
      | None => Err [AnonymousError]
      end
  end.

(** [filepath.Ext(name) == ".sql"]. *)
Definition is_script (entry : Entry) : bool := negb (en_IsDir entry) && has_suffix (en_Name entry) ".sql".

Section Migrations.
Context {S : Type} (execute : string → S → result S).

(** [CREATE TABLE IF NOT EXISTS schema_migrations]. *)
Definition create_table : Tx (Store S) unit := λ d,
  Ok (tt, match sc_migrations d with None => MkStore (Some []) (sc_applicationID d) (sc_content d) | Some _ => d end).

(** Statements fail when there is no such table. *)
Definition read_table : Tx (Store S) (list MigrationRow) := λ d,
  match sc_migrations d with Some rows => Ok (rows, d) | None => Err [DriverError] end.

Definition migrationApplied (version : Z) : M (Store S) bool :=
  atomically (rows ← read_table; mret (existsb (λ r, mr_version r =? version)%Z rows)).

(** The insertion checks the primary key and the unique name. *)
Definition insert_row (row : MigrationRow) : Tx (Store S) unit :=
  rows ← read_table;
  _ ← constraint (negb (existsb (λ r, (mr_version r =? mr_version row)%Z || bool_decide (mr_name r = mr_name row)) rows));
  d ← tx_read;
  tx_write (MkStore (Some (rows ++ [row])) (sc_applicationID d) (sc_content d)).

Definition execute_script (contents : string) : Tx (Store S) unit := λ d,
  match execute contents (sc_content d) with
  | Ok s => Ok (tt, MkStore (sc_migrations d) (sc_applicationID d) s)
  | Err e => Err e
  end.

Definition applyMigration (version : Z) (name contents : string) : M (Store S) unit :=
  at_ ← now;
  atomically (_ ← execute_script contents; insert_row (MkRow version name (unix_nano at_))).

Fixpoint migrate_loop (entries : list Entry) (seenVersions : list Z) : M (Store S) unit :=
  match entries with
  | [] => mret tt
  | entry :: rest =>
      if negb (is_script entry) then migrate_loop rest seenVersions else
      version ← lift (migrationVersion (en_Name entry));
      _ ← lift (reject_if (bool_decide (version ∈ seenVersions)) [AnonymousError]);
      applied ← migrationApplied version;
      if (applied : bool) then migrate_loop rest (version :: seenVersions) else
      contents ← lift (en_contents entry);
      _ ← applyMigration version (en_Name entry) contents;
      migrate_loop rest (version :: seenVersions)
  end.

Definition applyMigrations (entries : result (list Entry)) : M (Store S) unit :=
  _ ← atomically create_table;
  entries ← lift entries;
  migrate_loop entries [].

(** ** Opening *)

Definition applicationID : Z := 0x43484f50.

Definition pragmas : list string :=
  ["PRAGMA foreign_keys = ON"; "PRAGMA busy_timeout = 5000"; "PRAGMA synchronous = NORMAL"; "PRAGMA trusted_schema = OFF"].

(** The pragmas that change the connection only. *)
Fixpoint exec_pragmas (l : list string) : M (Store S) unit :=
  match l with [] => mret tt | _ :: rest => _ ← atomically (mret tt); exec_pragmas rest end.

(** [strings.EqualFold(mode, "wal")]: no other letters fold to these. *)
Definition is_wal (mode : string) : bool :=
  bool_decide (map (λ c, byte_of (ascii_lower (val c))) (bytes_of mode) = bytes_of "wal").

Definition configure (journalMode : string) (expectWAL : bool) : M (Store S) unit :=
  _ ← exec_pragmas pragmas;
  existing ← atomically (d ← tx_read; mret (sc_applicationID d));
  if negb ((existing : Z) =? 0)%Z && negb (existing =? applicationID)%Z then fail [AnonymousError] else
  _ ← (if (existing =? 0)%Z
       then atomically (d ← tx_read; tx_write (MkStore (sc_migrations d) applicationID (sc_content d)))
       else mret tt);
  mode ← atomically (mret journalMode);
  if expectWAL && negb (is_wal mode) then fail [AnonymousError] else mret tt.

(** What the operating system and the driver answer while a database is opened. *)
Record Opening := MkOpening { op_mkdir : result unit; op_open : result unit; op_ping : result unit; op_chmod : result unit; op_journal : string }.

Definition Open (path : string) (o : Opening) (entries : result (list Entry)) : M (Store S) unit :=
  if bool_decide (trim_space path = "") then fail [AnonymousError] else
  let file := negb (bool_decide (path = ":memory:")) in
  _ ← (if file then lift (op_mkdir o) else mret tt);
  _ ← lift (op_open o);
  _ ← lift (op_ping o);
  _ ← configure (op_journal o) file;
  _ ← (if file then lift (op_chmod o) else mret tt);
  applyMigrations entries.

(** ** Specification

    The plan of a directory: its scripts in order, with their versions and contents. *)

Record Script := MkScript { s_version : Z; s_name : string; s_contents : string }.

Fixpoint plan (entries : list Entry) : option (list Script) :=
  match entries with
  | [] => Some []
  | entry :: rest =>
      if negb (is_script entry) then plan rest
      else match migrationVersion (en_Name entry), en_contents entry, plan rest with
      | Ok version, Ok contents, Some scripts => Some (MkScript version (en_Name entry) contents :: scripts)
      | _, _, _ => None
      end
  end.

(** What scripts make of a database, one after the other. *)
Fixpoint run_scripts (scripts : list Script) (s : S) : result S :=
  match scripts with
  | [] => Ok s
  | script :: rest => s' ← execute (s_contents script) s; run_scripts rest s'
  end.

Definition row_of (script : Script) : Z * string := (s_version script, s_name script).
Definition key_of (row : MigrationRow) : Z * string := (mr_version row, mr_name row).

Section Progress.
Context (start : S) (scripts : list Script).

(** The database is where the first [j] scripts bring the empty one, for some [j]
    that is at least [k], and its table says so. *)
Record progress (created : bool) (k : nat) (d : Store S) : Prop := {
  pr_created : created = true → is_Some (sc_migrations d);
  pr_applied : ∃ j, k ≤ j ≤ length scripts
    ∧ map key_of (default [] (sc_migrations d)) = map row_of (take j scripts)
    ∧ run_scripts (take j scripts) start = Ok (sc_content d) }.

(** The other processes do no less: they never undo progress. *)
Definition cooperative (w : World (Store S)) : Prop := ∀ created k, stable (progress created k) w.

(** ** Lemmas *)

Context (Hversions : NoDup (map s_version scripts)) (Hnames : NoDup (map s_name scripts)).

Lemma run_scripts_snoc l script s : run_scripts (l ++ [script]) s = (run_scripts l s ≫= execute (s_contents script)).
Proof.
  revert s. induction l as [|x l IH]; intros s; cbn.
  - by destruct (execute (s_contents script) s).
  - destruct (execute (s_contents x) s); [apply IH|done].
Qed.

Lemma version_taken j k script : scripts !! k = Some script → s_version script ∈ map s_version (take j scripts) → k < j.
Proof.
  intros Hk (i & Hi)%list_elem_of_lookup. change (map ?f ?l) with (f <$> l) in Hi. rewrite list_lookup_fmap in Hi.
  apply fmap_Some in Hi as (x & Hx & E). apply lookup_take_Some in Hx as [Hx Hlt].
  assert (i = k) as ->; [|done].
  eapply (NoDup_lookup (map s_version scripts)); [done|..]; change (map ?f ?l) with (f <$> l); rewrite list_lookup_fmap.
  - by rewrite Hx.
  - rewrite Hk. cbn. by rewrite E.
Qed.

Lemma rows_versions (d : Store S) j : map key_of (default [] (sc_migrations d)) = map row_of (take j scripts) →
  map mr_version (default [] (sc_migrations d)) = map s_version (take j scripts).
Proof. intros E. apply (f_equal (map fst)) in E. by rewrite !map_map in E. Qed.

Lemma existsb_version version (rows : list MigrationRow) :
  existsb (λ r, mr_version r =? version)%Z rows = true ↔ version ∈ map mr_version rows.
Proof.
  rewrite existsb_exists, list_elem_of_In. setoid_rewrite Z.eqb_eq. rewrite in_map_iff. naive_solver.
Qed.

(** A script that is found applied was the next one, or an earlier one. *)
Lemma progress_found c k d script : scripts !! k = Some script → progress c k d →
  s_version script ∈ map mr_version (default [] (sc_migrations d)) → progress c (Datatypes.S k) d.
Proof.
  intros Hk [Hc (j & Hj & Hrows & Hrun)] Hin. split; [done|]. exists j. split_and!; [|lia|done..].
  rewrite (rows_versions d j Hrows) in Hin. pose proof (version_taken j k script Hk Hin). lia.
Qed.

(** The transaction of the next script is the next step. *)
Lemma progress_applied k d d' script at_ : scripts !! k = Some script → progress true k d →
  (execute_script (s_contents script) ≫= λ _, insert_row (MkRow (s_version script) (s_name script) at_)) d = Ok (tt, d') →
  progress true (Datatypes.S k) d'.
Proof.
  intros Hk [Hc (j & Hj & Hrows & Hrun)] Ht.
  apply tx_bind_ok in Ht as ([] & d1 & Hx & Ht). unfold execute_script in Hx. destruct (execute _ _) as [s|] eqn:Ex; [|done].
  injection Hx as <-. unfold insert_row in Ht. apply tx_bind_ok in Ht as (rows & d2 & Hr & Ht).
  unfold read_table in Hr. cbn in Hr. destruct (sc_migrations d) as [rows'|] eqn:Em; [|done]. injection Hr as <- <-.
  invert_tx Ht. cbn in *.
  assert (j = k) as ->.
  { destruct (decide (j = k)) as [|Hne]; [done|exfalso].
    assert (s_version script ∈ map mr_version rows') as Hin.
    { replace rows' with (default [] (sc_migrations d)) by by rewrite Em.
      rewrite (rows_versions d j) by by rewrite Em. apply list_elem_of_lookup. exists k.
      change (map ?f ?l) with (f <$> l). rewrite list_lookup_fmap, lookup_take_lt, Hk by lia. done. }
    apply existsb_version, existsb_exists in Hin as (r & Hr & Ev).
    match goal with Hb : existsb _ _ = false |- _ => rewrite existsb_none in Hb; specialize (Hb r (proj2 (list_elem_of_In _ _) Hr)) end.
    by rewrite Ev in *. }
  split; [by eexists|]. exists (Datatypes.S k). apply lookup_lt_Some in Hk as Hlt. split_and!; [lia|lia|..]; cbn.
  - rewrite (take_S_r _ _ script) by done. rewrite !map_app, Hrows. done.
  - rewrite (take_S_r _ _ script) by done. rewrite run_scripts_snoc, Hrun. cbn. exact Ex.
Qed.

#[local] Abbreviation all := (length scripts).

Lemma plan_next entry entries k : is_script entry = true → plan (entry :: entries) = Some (drop k scripts) →
  ∃ version contents, migrationVersion (en_Name entry) = Ok version ∧ en_contents entry = Ok contents
    ∧ scripts !! k = Some (MkScript version (en_Name entry) contents) ∧ plan entries = Some (drop (Datatypes.S k) scripts).
Proof.
  intros Es Hplan. cbn [plan] in Hplan. rewrite Es in Hplan. cbn [negb] in Hplan.
  destruct (migrationVersion (en_Name entry)) as [version|e]; [|done].
  destruct (en_contents entry) as [contents|e]; [|done]. destruct (plan entries) as [rest|]; [|done].
  injection Hplan as Hp. assert (Hs : scripts !! k = Some (MkScript version (en_Name entry) contents))
    by (rewrite <-(Nat.add_0_r k), <-lookup_drop, <-Hp; done).
  exists version, contents. split_and!; [done..|]. rewrite (drop_S scripts _ k Hs) in Hp. congruence.
Qed.

Lemma seen_next k script seen v : scripts !! k = Some script → (∀ v, v ∈ seen → v ∈ map s_version (take k scripts)) →
  v ∈ s_version script :: seen → v ∈ map s_version (take (Datatypes.S k) scripts).
Proof.
  intros Hs Hseen Hv. rewrite (take_S_r _ _ script) by done. rewrite map_app. apply elem_of_app.
  apply elem_of_cons in Hv as [->|Hv%Hseen]; [right; cbn; by left|by left].
Qed.

(** What is left to do is done when the loop returns. *)
Lemma loop_progress entries seen k w r w' :
  plan entries = Some (drop k scripts) → k ≤ all → (∀ v, v ∈ seen → v ∈ map s_version (take k scripts)) →
  cooperative w → progress true k (w_db w) → migrate_loop entries seen w = (r, w') →
  progress true k (w_db w') ∧ (r = Ok tt → progress true all (w_db w')).
Proof.
  revert k seen w. induction entries as [|entry entries IH]; intros k seen w Hplan Hk Hseen Hw Hd Hrun.
  { cbn in *. injection Hplan as Hp. injection Hrun as <- <-. split; [done|]. intros _.
    assert (k = all) as <-; [|done]. apply (f_equal length) in Hp. rewrite length_drop in Hp. cbn in Hp. lia. }
  cbn [migrate_loop] in *. destruct (is_script entry) eqn:Es; cbn [negb] in *; [|cbn [plan] in Hplan; rewrite Es in Hplan; by eapply IH].
  destruct (plan_next entry entries k Es Hplan) as (version & contents & Ev & Ec & Hs & Hrest). rewrite Ev, Ec in *. clear Hplan.
  set (script := MkScript version (en_Name entry) contents) in *. apply lookup_lt_Some in Hs as Hlt.
  assert (Hnext : ∀ seen' w1, (∀ v, v ∈ seen' → v ∈ version :: seen) → cooperative w1 → progress true (Datatypes.S k) (w_db w1) →
    migrate_loop entries seen' w1 = (r, w') → progress true k (w_db w') ∧ (r = Ok tt → progress true all (w_db w'))).
  { intros seen' w1 Hs' Hw1 Hd1 Hrun1. destruct (IH (Datatypes.S k) seen' w1) as [[Hc (j & Hj & Hx)] Hall]; [done|lia| |done..|].
    - intros v Hv%Hs'. by apply (seen_next k script seen).
    - split; [split; [done|]; exists j; split; [lia|done]|done]. }
  assert (Hfresh : version ∉ seen).
  { intros Hv%Hseen. apply (version_taken k k script Hs) in Hv. lia. }
  unfold mbind at 1 2, M_bind, lift at 1 2, reject_if in Hrun. rewrite bool_decide_false in Hrun by done. cbv beta iota in Hrun.
  unfold mbind at 1, M_bind, migrationApplied in Hrun.
  destruct (atomically _ w) as [r1 w1] eqn:Ea. apply atomically_cases in Ea as [(e & -> & -> & _)|(applied & d1 & -> & Ht & ->)].
  { injection Hrun as <- <-. split; [|done]. by apply Hw. }
  assert (Hd1 : progress true k (next_db w)) by by apply Hw.
  apply tx_bind_ok in Ht as (rows & d2 & Hr & Ht). unfold read_table in Hr.
  destruct (sc_migrations (next_db w)) as [rows'|] eqn:Em; [|done]. injection Hr as -> <-. injection Ht as <- <-.
  destruct (existsb _ rows) eqn:Eb; cbv beta iota in Hrun.
  { apply (Hnext (version :: seen) (accessed w (next_db w))); [done|done| |done]. cbn. apply (progress_found true k _ script); [done..|].
    rewrite Em. by apply existsb_version. }
  unfold mbind, M_bind, lift in Hrun. cbv beta iota in Hrun.
  destruct (applyMigration version (en_Name entry) contents (accessed w (next_db w))) as [r2 w2] eqn:Eap.
  assert (Hap : cooperative w2 ∧ progress true k (w_db w2) ∧ (r2 = Ok tt → progress true (Datatypes.S k) (w_db w2))).
  { unfold applyMigration, mbind at 1, M_bind, now in Eap. cbv beta iota zeta in Eap.
    apply atomically_cases in Eap as [(e & -> & -> & _)|([] & d' & -> & Ht & ->)].
    - split_and!; [done| |done]. cbn. by apply Hw.
    - assert (progress true (Datatypes.S k) d') as HS.
      { eapply (progress_applied k _ d' script); [done| |exact Ht]. by apply Hw. }
      split_and!; [done| |done]. destruct HS as [Hc (j & Hj & Hx)]. split; [done|]. exists j. split; [lia|done]. }
  destruct Hap as (Hw2 & Hd2 & Hok2). destruct r2 as [[]|e]; [|by injection Hrun as <- <-].
  apply (Hnext (version :: seen) w2); [done|done|by apply Hok2|done].
Qed.

Lemma create_table_progress k (d : Store S) : progress false k d → ∃ d', create_table d = Ok (tt, d') ∧ progress true k d'.
Proof.
  intros [_ Hd]. eexists. split; [done|]. destruct (sc_migrations d) as [rows|] eqn:E.
  - split; rewrite E; [by eexists|done].
  - split; [by eexists|exact Hd].
Qed.

Lemma progress_weaken created (d : Store S) k : progress created k d → progress false 0 d.
Proof. intros [_ (j & Hj & Hx)]. split; [done|]. exists j. split; [lia|done]. Qed.

Lemma migrations_progress entries w r w' :
  plan entries = Some scripts → cooperative w → progress false 0 (w_db w) → applyMigrations (Ok entries) w = (r, w') →
  progress false 0 (w_db w') ∧ (r = Ok tt → progress true all (w_db w')).
Proof.
  intros Hplan Hw Hd Hrun. unfold applyMigrations, mbind at 1, M_bind in Hrun.
  assert (Hd1 : progress false 0 (next_db w)) by by apply Hw.
  destruct (atomically create_table w) as [r1 w1] eqn:Ea.
  apply atomically_cases in Ea as [(e & -> & -> & _)|([] & d1 & -> & Ht & ->)]; [by injection Hrun as <- <-|].
  destruct (create_table_progress 0 _ Hd1) as (d2 & E & Hd2). rewrite E in Ht. injection Ht as <-.
  unfold mbind, M_bind, lift in Hrun. cbv beta iota in Hrun.
  destruct (loop_progress entries [] 0 (accessed w d2) r w') as [Hp Hall]; [by rewrite drop_0|lia|by intros v ?%not_elem_of_nil|done..|].
  split; [by eapply progress_weaken|done].
Qed.

Lemma run_scripts_app l1 l2 s : run_scripts (l1 ++ l2) s = (run_scripts l1 s ≫= run_scripts l2).
Proof. revert s. induction l1 as [|x l IH]; intros s; cbn; [done|]. destruct (execute (s_contents x) s); [apply IH|done]. Qed.

(** The next script can run if all of them can. *)
Lemma next_runs k script s final : scripts !! k = Some script → run_scripts (take k scripts) start = Ok s →
  run_scripts scripts start = Ok final → ∃ s', execute (s_contents script) s = Ok s'.
Proof.
  intros Hk Hs Hf. rewrite <-(take_drop k scripts), run_scripts_app, Hs in Hf. cbn in Hf.
  rewrite (drop_S _ script) in Hf by done. cbn in Hf. destruct (execute _ s); [by eexists|done].
Qed.

Lemma name_free k script (rows : list MigrationRow) : scripts !! k = Some script → map key_of rows = map row_of (take k scripts) →
  existsb (λ r, (mr_version r =? s_version script)%Z || bool_decide (mr_name r = s_name script)) rows = false.
Proof.
  intros Hk Hrows. apply existsb_none. intros r Hr.
  assert (key_of r ∈ map row_of (take k scripts)) as Hin by (rewrite <-Hrows; by apply list_elem_of_fmap_2).
  apply list_elem_of_fmap in Hin as (x & Ex & (i & Hi)%list_elem_of_lookup). injection Ex as Ev En.
  apply lookup_take_Some in Hi as [Hi Hlt].
  apply orb_false_iff. split.
  - apply Z.eqb_neq. rewrite Ev. intros E. assert (i = k); [|lia].
    eapply (NoDup_lookup (map s_version scripts)); [done|..]; change (map ?f ?l) with (f <$> l); rewrite list_lookup_fmap, ?Hi, ?Hk; cbn; [done|by rewrite E].
  - apply bool_decide_false. rewrite En. intros E. assert (i = k); [|lia].
    eapply (NoDup_lookup (map s_name scripts)); [done|..]; change (map ?f ?l) with (f <$> l); rewrite list_lookup_fmap, ?Hi, ?Hk; cbn; [done|by rewrite E].
Qed.

Lemma loop_succeeds entries seen k w final :
  plan entries = Some (drop k scripts) → k ≤ all → (∀ v, v ∈ seen → v ∈ map s_version (take k scripts)) →
  calm w → progress true k (w_db w) → run_scripts scripts start = Ok final → ∃ w', migrate_loop entries seen w = (Ok tt, w').
Proof.
  revert k seen w. induction entries as [|entry entries IH]; intros k seen w Hplan Hk Hseen Hw Hd Hfinal; [by eexists|].
  cbn [migrate_loop] in *. destruct (is_script entry) eqn:Es; cbn [negb] in *; [|cbn [plan] in Hplan; rewrite Es in Hplan; by eapply IH].
  destruct (plan_next entry entries k Es Hplan) as (version & contents & Ev & Ec & Hs & Hrest). rewrite Ev, Ec in *. clear Hplan.
  set (script := MkScript version (en_Name entry) contents) in *. apply lookup_lt_Some in Hs as Hlt.
  assert (Hnext : ∀ w1, calm w1 → progress true (Datatypes.S k) (w_db w1) → ∃ w', migrate_loop entries (version :: seen) w1 = (Ok tt, w')).
  { intros w1 Hw1 Hd1. apply (IH (Datatypes.S k)); [done|lia| |done..].
    intros v Hv. by apply (seen_next k script seen). }
  assert (Hfresh : version ∉ seen) by (intros Hv%Hseen; apply (version_taken k k script Hs) in Hv; lia).
  unfold mbind at 1 2, M_bind, lift at 1 2, reject_if. rewrite bool_decide_false by done. cbv beta iota.
  destruct (pr_created _ _ _ Hd eq_refl) as [rows Hrows].
  unfold mbind at 1, M_bind, migrationApplied. rewrite calm_atomically by done.
  unfold mbind at 1, Tx_bind, read_table. rewrite Hrows. cbv beta iota. cbn [mret Tx_ret].
  destruct (existsb _ rows) eqn:Eb; cbv beta iota.
  { apply Hnext; [by apply calm_accessed|]. apply (progress_found true k _ script); [done..|]. cbn. rewrite Hrows. by apply existsb_version. }
  destruct (pr_applied _ _ _ Hd) as (j & Hj & Hkeys & Hrun). rewrite Hrows in Hkeys. cbn in Hkeys.
  assert (j = k) as ->.
  { destruct (decide (j = k)) as [|Hne]; [done|exfalso]. apply not_true_iff_false in Eb. apply Eb, existsb_version.
    pose proof (rows_versions (w_db w) j) as Hv. rewrite Hrows in Hv. cbn in Hv. rewrite (Hv Hkeys). apply list_elem_of_lookup. exists k.
    change (map ?f ?l) with (f <$> l). rewrite list_lookup_fmap, lookup_take_lt, Hs by lia. done. }
  destruct (next_runs k script _ final Hs Hrun Hfinal) as [s' Hs'].
  unfold mbind, M_bind, lift, applyMigration, mbind, M_bind, now. cbv beta iota zeta.
  rewrite calm_atomically by by apply calm_accessed. cbn [w_db accessed].
  match goal with |- context [match ?t ?d with _ => _ end] => destruct (t d) as [[[] d']|e] eqn:Et end.
  - apply Hnext; [by apply calm_accessed|]. cbn. eapply progress_applied; [done|exact Hd|exact Et].
  - exfalso. unfold mbind, Tx_bind, execute_script in Et. change contents with (s_contents script) in Et. rewrite Hs' in Et.
    unfold insert_row, mbind, Tx_bind, read_table in Et. cbn [sc_migrations] in Et. rewrite Hrows in Et. cbv beta iota in Et.
    unfold constraint, tx_lift, reject_if in Et. cbn [mr_version mr_name] in Et.
    change version with (s_version script) in Et. change (en_Name entry) with (s_name script) in Et.
    rewrite (name_free k script rows Hs Hkeys) in Et. done.
Qed.

(** Configuring leaves tables alone. *)
Lemma progress_identified created k (d : Store S) id : progress created k d → progress created k (MkStore (sc_migrations d) id (sc_content d)).
Proof. by intros []. Qed.

Lemma configure_keeps created k journal wal : keeps (progress created k) (configure journal wal).
Proof.
  unfold configure. apply bind_keeps; [cbn; eauto 10 with hop|]. intros _. apply bind_keeps; [eauto with hop|]. intros existing.
  destruct (_ && _); [apply fail_keeps|]. apply bind_keeps.
  - destruct (existing =? 0)%Z; [|apply ret_keeps]. apply atomically_keeps. intros d [] d' Hd Ht. invert_tx Ht.
    by apply progress_identified.
  - intros _. apply bind_keeps; [eauto with hop|]. intros mode. destruct (wal && _); [apply fail_keeps|apply ret_keeps].
Qed.

End Progress.

(** ** Properties *)

(** C18 Opening a database brings its schema up to date exactly once.  Whatever failed in
    earlier openings and whatever other daemons do to the same database meanwhile, as
    long as they only apply the same migrations, the tables are always those that the
    first scripts of the directory make of an empty database and the migrations table
    lists exactly these; and when opening succeeds, all of them. *)
Theorem open_migrates (start : S) (scripts : list Script) (entries : list Entry) path o w r w' :
  NoDup (map s_version scripts) → NoDup (map s_name scripts) → plan entries = Some scripts →
  cooperative start scripts w → progress start scripts false 0 (w_db w) →
  Open path o (Ok entries) w = (r, w') →
  progress start scripts false 0 (w_db w') ∧
  (r = Ok tt → sc_migrations (w_db w') ≠ None ∧
     map key_of (default [] (sc_migrations (w_db w'))) = map row_of scripts ∧ run_scripts scripts start = Ok (sc_content (w_db w'))).
Proof.
  intros Hv Hn Hplan Hw Hd Hrun.
  cut (progress start scripts false 0 (w_db w') ∧ (r = Ok tt → progress start scripts true (length scripts) (w_db w'))).
  { intros [Hp Hall]. split; [done|]. intros Hr. destruct (Hall Hr) as [Hc (j & Hj & Hrows & Hrs)]. specialize (Hc eq_refl).
    rewrite take_ge in * by lia. split_and!; [by destruct Hc as [? ->]|done|done]. }
  revert Hrun. unfold Open. destruct (bool_decide _); [intros [= <- <-]; by split|].
  unfold mbind at 1, M_bind. set (file := negb _).
  assert (Hm : ∀ x : result unit, (if file then lift x else mret tt) w = (if file then x else Ok tt, w)) by by destruct file.
  rewrite Hm. destruct (if file then op_mkdir o else Ok tt) as [[]|e]; [|intros [= <- <-]; by split].
  unfold mbind at 1 2, M_bind, lift at 1 2. destruct (op_open o) as [[]|e]; [|intros [= <- <-]; by split].
  destruct (op_ping o) as [[]|e]; [|intros [= <- <-]; by split].
  unfold mbind at 1, M_bind. destruct (configure (op_journal o) file w) as [rc wc] eqn:Ec.
  assert (Hc : cooperative start scripts wc ∧ progress start scripts false 0 (w_db wc)).
  { destruct (configure_keeps start scripts false 0 _ _ w rc wc (Hw false 0) Hd Ec) as [Hp E]. split; [|done].
    intros created k n d Hx. rewrite E. by apply Hw. }
  destruct Hc as [Hwc Hdc]. destruct rc as [[]|e]; [|intros [= <- <-]; by split].
  unfold mbind at 1, M_bind. assert (Hm' : ∀ x : result unit, (if file then lift x else mret tt) wc = (if file then x else Ok tt, wc)) by by destruct file.
  rewrite Hm'. destruct (if file then op_chmod o else Ok tt) as [[]|e]; [|intros [= <- <-]; by split].
  by apply migrations_progress.
Qed.

(** When nothing fails and nobody else is there, an interrupted migration is finished. *)
Theorem migrations_complete (start final : S) (scripts : list Script) (entries : list Entry) w :
  NoDup (map s_version scripts) → NoDup (map s_name scripts) → plan entries = Some scripts →
  calm w → progress start scripts false 0 (w_db w) → run_scripts scripts start = Ok final →
  ∃ w', applyMigrations (Ok entries) w = (Ok tt, w').
Proof.
  intros Hv Hn Hplan Hw Hd Hf. unfold applyMigrations, mbind at 1, M_bind. rewrite calm_atomically by done.
  destruct (create_table_progress start scripts 0 _ Hd) as (d1 & -> & Hd1). unfold mbind, M_bind, lift. cbv beta iota.
  eapply (loop_succeeds start scripts Hv Hn entries [] 0 (accessed w d1)); [by rewrite drop_0|lia|by intros v ?%not_elem_of_nil|by apply calm_accessed|done..].
Qed.

Lemma foreign_refused journal wal (d : Store S) : sc_applicationID d ≠ 0%Z → sc_applicationID d ≠ applicationID →
  ends_in (λ _, True) (configure journal wal) d (λ r d', (∃ e, r = Err e) ∧ d' = d).
Proof.
  intros H0 H1. unfold configure. apply ends_bind.
  eapply (ends_mono _ _ (λ r d', r = Ok tt ∧ d' = d)).
  { unfold pragmas. cbn [exec_pragmas]. do 4 (apply ends_bind, ends_atomically; cbn). by apply ends_ret. }
  intros r d' [-> ->]. apply ends_bind, ends_atomically.
  unfold mbind at 1, Tx_bind, tx_read, mret, Tx_ret. rewrite (proj2 (Z.eqb_neq _ 0)), (proj2 (Z.eqb_neq _ applicationID)) by done.
  apply ends_fail. by eauto.
Qed.

(** A database of another application is refused as it is. *)
Theorem foreign_untouched path o entries w r w' : calm w →
  sc_applicationID (w_db w) ≠ 0%Z → sc_applicationID (w_db w) ≠ applicationID →
  Open path o entries w = (r, w') → (∃ e, r = Err e) ∧ w_db w' = w_db w.
Proof.
  intros Hw H0 H1. unfold Open. destruct (bool_decide _); [intros [= <- <-]; by eauto|].
  unfold mbind at 1, M_bind. set (file := negb _).
  assert (Hm : ∀ x : result unit, (if file then lift x else mret tt) w = (if file then x else Ok tt, w)) by by destruct file.
  rewrite Hm. destruct (if file then op_mkdir o else Ok tt) as [[]|e]; [|intros [= <- <-]; by eauto].
  unfold mbind at 1 2, M_bind, lift at 1 2. destruct (op_open o) as [[]|e]; [|intros [= <- <-]; by eauto].
  destruct (op_ping o) as [[]|e]; [|intros [= <- <-]; by eauto].
  unfold mbind at 1, M_bind. destruct (configure (op_journal o) file w) as [rc wc] eqn:Ec.
  destruct (foreign_refused (op_journal o) file (w_db w) H0 H1 w Hw (λ _, I) eq_refl) as (rc' & wc' & E & _ & _ & (e & ->) & Hdb).
  rewrite Ec in E. injection E as -> ->. intros [= <- <-]. by eauto.
Qed.

End Migrations.

(** ** The migrations of the repository *)

Definition migration_names : list string :=
  ["001_jobs.sql"; "002_executions_logs.sql"; "003_trust.sql"; "004_remote_job_placements.sql";
   "005_connectivity_secret.sql"; "006_job_outputs_artifacts.sql"; "007_content_cache.sql"; "008_job_progress.sql";
   "009_trusted_device_hints.sql"; "010_trusted_device_tools.sql"; "011_job_required_tools.sql";
   "012_trusted_device_executors.sql"].

Example migration_versions : map migrationVersion migration_names = map (λ n, Ok (Z.of_nat n)) (seq 1 12).
Proof. by vm_compute. Qed.

(** Scripts that append their text to a log, for the witness. *)
Definition log_script (contents : string) (log : list string) : result (list string) := Ok (log ++ [contents]).
Definition log_entries : list Entry := map (λ name, MkEntry name false (Ok name)) migration_names.
Definition log_scripts : list Script := imap (λ i name, MkScript (Z.of_nat (i + 1)) name name) migration_names.
(** An opening that was interrupted after three scripts. *)
Definition interrupted : Store (list string) :=
  MkStore (Some (imap (λ i name, MkRow (Z.of_nat (i + 1)) name 0) (take 3 migration_names))) 0 (take 3 migration_names).
Definition all_well : Opening := MkOpening (Ok tt) (Ok tt) (Ok tt) (Ok tt) "wal".

Lemma open_migrates_witness :
  let w := quiet interrupted (λ _, 0%Z) in
  (Open log_script "computehop.db" all_well (Ok log_entries) w).1 = Ok tt ∧
  sc_content (w_db (Open log_script "computehop.db" all_well (Ok log_entries) w).2) = migration_names.
Proof.
  cbv zeta. destruct (Open log_script "computehop.db" all_well (Ok log_entries) (quiet interrupted (λ _, 0%Z))) as [r w'] eqn:E.
  assert (r = Ok tt) as Hr by (change r with (r, w').1; rewrite <-E; by vm_compute). split; [done|].
  destruct (open_migrates log_script [] log_scripts log_entries "computehop.db" all_well (quiet interrupted (λ _, 0%Z)) r w') as [_ Hall];
    [apply (bool_decide_unpack _); by vm_compute|apply (bool_decide_unpack _); by vm_compute|by vm_compute|by intros created k n d| |exact E|].
  - change (w_db _) with interrupted. split; [done|]. exists 3. split; [cbn; lia|]. split; vm_compute; reflexivity.
  - destruct (Hall Hr) as (_ & _ & Hrun). assert (run_scripts log_script log_scripts [] = Ok migration_names) as Ef by by vm_compute.
    rewrite Ef in Hrun. injection Hrun as Hrun. symmetry. exact Hrun.
Defined.
