(* ===== verification/Execution.v ===== *)
(** * Execution attempts (internal/execution/attempt.go)

    The durable record of a runner's custody of one job, and the structured
    outcome ([Completion]) a runner reports. *)

From S2P Require Import Prelude GoText PortablePath JobModel.
Local Open Scope string_scope.
Local Open Scope nat_scope.
Local Open Scope list_scope.

Inductive Status := StatusStarting | StatusRunning | StatusCompleted | StatusOther (name : string).

#[global] Instance Status_eq_dec : EqDecision Status.
Proof. solve_decision. Defined.

(** [CompletionNone] is the empty string. *)
Inductive CompletionKind :=
| CompletionNone | CompletionSucceeded | CompletionFailed | CompletionCancelled
| CompletionOther (name : string).

#[global] Instance CompletionKind_eq_dec : EqDecision CompletionKind.
Proof. solve_decision. Defined.

Record Attempt := MkAttempt {
  AttemptJobID : string;
  AttemptStatus : Status;
  RunnerPID : Z;
  ProcessPID : Z;
  ClaimedAt : Z;
  StartedAt : option Z;
  HeartbeatAt : Z;
  CancelRequestedAt : option Z;
  FinishedAt : option Z;
  ExitCode : option Z;
  TerminationSignal : string;
  AttemptCompletion : CompletionKind
}.

Definition is_some {A} (o : option A) : bool := match o with Some _ => true | None => false end.

(** [Attempt.Validate]; the error of an invalid ID also wraps [job.ErrInvalidID]. *)
Definition Attempt_Validate (attempt : Attempt) : result unit :=
  let e := [ExecErrInvalidAttempt] in
  _ ← reject_if (negb (ID_Valid (AttemptJobID attempt))) [ExecErrInvalidAttempt; JobErrInvalidID];
  _ ← reject_if (RunnerPID attempt <=? 0)%Z e;
  _ ← reject_if (is_zero_time (ClaimedAt attempt) || is_zero_time (HeartbeatAt attempt)) e;
  _ ← reject_if (before (HeartbeatAt attempt) (ClaimedAt attempt)) e;
  _ ← reject_if (match CancelRequestedAt attempt with
                 | Some at_ => before at_ (ClaimedAt attempt) | None => false end) e;
  match AttemptStatus attempt with
  | StatusStarting =>
      reject_if (negb (ProcessPID attempt =? 0)%Z || is_some (StartedAt attempt)
        || is_some (FinishedAt attempt) || is_some (ExitCode attempt)
        || negb (bool_decide (TerminationSignal attempt = ""))
        || negb (bool_decide (AttemptCompletion attempt = CompletionNone))) e
  | StatusRunning =>
      match StartedAt attempt with
      | None => Err e
      | Some started =>
          _ ← reject_if (ProcessPID attempt <=? 0)%Z e;
          _ ← reject_if (before started (ClaimedAt attempt)) e;
          reject_if (is_some (FinishedAt attempt) || is_some (ExitCode attempt)
            || negb (bool_decide (AttemptCompletion attempt = CompletionNone))) e
      end
  | StatusCompleted =>
      match FinishedAt attempt with
      | None => Err e
      | Some finished =>
          _ ← reject_if (bool_decide (AttemptCompletion attempt = CompletionNone)) e;
          _ ← reject_if (before finished (ClaimedAt attempt)) e;
          _ ← reject_if ((0 <? ProcessPID attempt)%Z && negb (is_some (StartedAt attempt))) e;
          match AttemptCompletion attempt with
          | CompletionSucceeded =>
              reject_if (negb (bool_decide (ExitCode attempt = Some 0%Z))
                || negb (bool_decide (TerminationSignal attempt = ""))) e
          | CompletionFailed | CompletionCancelled => Ok tt
          | _ => Err e
          end
      end
  | StatusOther _ => Err e
  end.

Record Completion := MkCompletion {
  CompletionAt : Z;
  CompletionExitCode : option Z;
  CompletionSignal : string;
  CompletionFailure : option Failure;
  Cancelled : bool
}.

Definition Completion_Validate (completion : Completion) : result unit :=
  let e := [ExecErrInvalidCompletion] in
  _ ← reject_if (is_zero_time (CompletionAt completion)) e;
  match CompletionFailure completion with
  | Some failure =>
      _ ← reject_if (Cancelled completion) e;
      wrap_err ExecErrInvalidCompletion (Failure_Validate failure)
  | None =>
      if Cancelled completion then Ok tt
      else reject_if (negb (bool_decide (CompletionExitCode completion = Some 0%Z))
             || negb (bool_decide (CompletionSignal completion = ""))) e
  end.

Definition Completion_Kind (completion : Completion) : CompletionKind :=
  if Cancelled completion then CompletionCancelled
  else match CompletionFailure completion with
  | Some _ => CompletionFailed
  | None => CompletionSucceeded
  end.

(** ** Lemmas *)

(** A validated completion leads to a job transition whose failure matches the
    target state: [to] is the state [Complete] moves the job to. *)
Definition completion_target (completion : Completion) : State :=
  if Cancelled completion then StateCancelled
  else match CompletionFailure completion with
  | Some _ => StateFailed
  | None => StateSucceeded
  end.

Lemma completion_failure_fits completion :
  Completion_Validate completion = Ok tt →
  validateFailureForState (completion_target completion) (CompletionFailure completion)
  = Ok (CompletionFailure completion).
Proof.
  unfold Completion_Validate, completion_target. intros Hv.
  destruct (CompletionFailure completion) as [f|] eqn:Ef.
  - invert_ok Hv; reflect_bools; destruct_unit. unfold validateFailureForState. simpl.
    by rewrite E1.
  - by destruct (Cancelled completion).
Qed.

(** ** Properties *)

(** The outcome of an attempt is classified exactly once: a validated completion
    is a success iff it was not cancelled and carries no failure, and then its
    exit code is zero with no signal; a failure carries a code and a message;
    cancelled and failed exclude each other. *)
Theorem completion_classified (completion : Completion) :
  Completion_Validate completion = Ok tt →
  match Completion_Kind completion with
  | CompletionSucceeded =>
      CompletionExitCode completion = Some 0%Z ∧ CompletionSignal completion = "" ∧
      CompletionFailure completion = None ∧ Cancelled completion = false
  | CompletionFailed =>
      Cancelled completion = false ∧
      ∃ f, CompletionFailure completion = Some f ∧ Code f ≠ "" ∧ Message f ≠ ""
  | CompletionCancelled => Cancelled completion = true ∧ CompletionFailure completion = None
  | _ => False
  end.
Proof.
  unfold Completion_Validate, Completion_Kind, Failure_Validate. intros Hv.
  invert_ok Hv; reflect_bools; destruct_unit; eauto 10.
Qed.

Lemma completion_classified_witness :
  let c := MkCompletion sample_time (Some 2%Z) "" (Some (MkFailure "process_exit" "exit 2" false)) false in
  Cancelled c = false ∧ ∃ f, CompletionFailure c = Some f ∧ Code f ≠ "" ∧ Message f ≠ "".
Proof.
  exact (completion_classified
    (MkCompletion sample_time (Some 2%Z) "" (Some (MkFailure "process_exit" "exit 2" false)) false)
    eq_refl).
Defined.
