(* ===== verification/Sql.v ===== *)
(** * What the SQLite repositories share

    JSON columns, missing rows, violated constraints and the length of a text.  A
    JSON column holds the decoded document: [encoding/json] writes a string that is
    not UTF-8 with U+FFFD for each bad byte, so encoding is [coerce_utf8] on every
    string. *)

From S2P Require Import Prelude GoText Effects.
From Stdlib Require Import Ascii.
Local Open Scope string_scope.
Local Open Scope nat_scope.
Local Open Scope list_scope.

(** ** encoding/json of string collections *)

(** Each byte that is not UTF-8 becomes U+FFFD. *)
Definition coerce_utf8 (s : string) : string :=
  str_of (concat (map (fun r => if rune_valid r then rune_bytes r else encode_rune rune_error)
    (runes (bytes_of s)))).

Definition json_strings (l : list string) : list string := map coerce_utf8 l.

(** Members in the order of the encoder: sorted by name. *)
Definition name_le (a b : string * string) : Prop := str_leb a.1 b.1 = true.
#[global] Instance name_le_dec : RelDecision name_le.
Proof. intros a b. unfold name_le. apply _. Defined.

Definition json_object (m : gmap string string) : list (string * string) :=
  map (fun '(name, value) => (coerce_utf8 name, coerce_utf8 value))
    (merge_sort name_le (map_to_list m)).

(** The decoder: of members with the same name the last one counts. *)
Definition parse_object (members : list (string * string)) : gmap string string :=
  list_to_map (reverse members).

(** Characters of the text of a JSON array of strings, as SQLite's [length]
    counts them. *)
Definition json_rune_length (r : rune_at) : Z :=
  if negb (rune_valid r) then 6
  else let c := rune_value r in
  (if (c =? 34) || (c =? 92) || (c =? 8) || (c =? 9) || (c =? 10) || (c =? 12) || (c =? 13) then 2
   else if (c <? 32) || (c =? 60) || (c =? 62) || (c =? 38) || (c =? 0x2028) || (c =? 0x2029) then 6
   else 1)%Z.
Definition json_string_length (s : string) : Z :=
  (2 + fold_right Z.add 0 (map json_rune_length (runes (bytes_of s))))%Z.
Definition json_strings_length (l : list string) : Z :=
  (2 + fold_right Z.add 0 (map json_string_length l)
   + Z.of_nat (Nat.pred (length l)))%Z.

(** ** Rows and constraints *)

Definition in_strings (s : string) (l : list string) : bool := bool_decide (s ∈ l).

(** A violated constraint: the driver reports primary code 19. *)
Definition isConstraintError (err : list sentinel) : bool := errors_is err ConstraintError.

(** [if errors.Is(err, sql.ErrNoRows) { return e }]. *)
Definition on_no_rows {DB A} (e : list sentinel) (t : Tx DB A) : Tx DB A := fun d =>
  match t d with
  | Err err => if errors_is err SqlErrNoRows then Err e else Err err
  | Ok r => Ok r
  end.

(** SQLite's [length] of a UTF-8 text: its characters before the first NUL. *)
Definition sql_length (s : string) : Z :=
  Z.of_nat (length (runes (hd [] (split_bytes (byte_of 0) (bytes_of s))))).

(** ** Lemmas *)

Lemma coerce_valid s : utf8_valid s = true → coerce_utf8 s = s.
Proof.
  unfold utf8_valid, coerce_utf8. intros Hv.
  rewrite <-(str_of_bytes_of s) at 2. f_equal.
  rewrite <-(runes_concat (bytes_of s)) at 2. f_equal.
  apply map_ext_in. intros r Hr. rewrite forallb_forall in Hv. by rewrite Hv.
Qed.

Lemma json_strings_valid l : Forall (λ s, utf8_valid s = true) l → json_strings l = l.
Proof. unfold json_strings. induction 1; simpl; [done|]. f_equal; [by apply coerce_valid|done]. Qed.

Lemma json_object_valid m :
  (∀ k v, m !! k = Some v → utf8_valid k = true ∧ utf8_valid v = true) →
  parse_object (json_object m) = m.
Proof.
  intros Hm. unfold parse_object, json_object.
  pose proof (merge_sort_Permutation name_le (map_to_list m)) as Hp.
  set (l := merge_sort name_le (map_to_list m)) in *.
  assert (map (λ '(name, value), (coerce_utf8 name, coerce_utf8 value)) l = l) as ->.
  { rewrite <-(map_id l) at 2. apply map_ext_in. intros [k v] Hin.
    apply list_elem_of_In in Hin. rewrite Hp in Hin. apply elem_of_map_to_list in Hin.
    destruct (Hm _ _ Hin). by rewrite !coerce_valid. }
  etransitivity; [|apply (list_to_map_to_list m)]. apply list_to_map_proper.
  - rewrite reverse_Permutation, Hp. apply NoDup_fst_map_to_list.
  - by rewrite reverse_Permutation, Hp.
Qed.

Lemma on_no_rows_ok {DB A} e (t : Tx DB A) d r : on_no_rows e t d = Ok r ↔ t d = Ok r.
Proof. unfold on_no_rows. destruct (t d); [done|]. by destruct (errors_is _ _). Qed.
