(* ===== verification/JobStore.v ===== *)
(** * The worker database and the job repository

    The tables of internal/infra/sqlite/migrations that hold jobs, transitions,
    progress, executions and log records, with their CHECK, primary-key and
    foreign-key constraints, and the methods of
    internal/infra/sqlite/job_repository.go as transaction bodies on them.
    Rows are keyed by their primary key.  A JSON column holds the decoded
    document: [encoding/json] writes a string that is not UTF-8 with U+FFFD for
    each bad byte, so encoding is [coerce_utf8] on every string. *)

From S2P Require Import Prelude GoText PortablePath JobModel Execution Effects Sql.
From Stdlib Require Import Ascii.
Local Open Scope string_scope.
Local Open Scope nat_scope.
Local Open Scope list_scope.

(** ** Tables *)

Record JobRow := MkJobRow {
  row_executable : string;
  row_arguments : list string;
  row_working_directory : string;
  row_environment : list (string * string);
  row_executor : string;
  row_container_image : string;
  row_outputs : list string;
  row_required_tools : list string;
  row_state : string;
  row_created_ns : Z;
  row_updated_ns : Z;
  row_failure_code : option string;
  row_failure_message : option string;
  row_failure_retryable : option bool
}.

Record TransitionRow := MkTransitionRow {
  tr_job_id : string;
  tr_from : string;
  tr_to : string;
  tr_at_ns : Z;
  tr_failure_code : option string;
  tr_failure_message : option string;
  tr_failure_retryable : option bool
}.

Record ProgressRow := MkProgressRow {
  pr_phase : string; pr_completed : Z; pr_total : Z; pr_updated_ns : Z
}.

Record ExecutionRow := MkExecutionRow {
  ex_status : string;
  ex_runner_pid : Z;
  ex_process_pid : option Z;
  ex_claimed_ns : Z;
  ex_started_ns : option Z;
  ex_heartbeat_ns : Z;
  ex_cancel_ns : option Z;
  ex_finished_ns : option Z;
  ex_exit_code : option Z;
  ex_signal : string;
  ex_completion : string;
  ex_log_bytes : Z;
  ex_next_sequence : Z
}.

Record LogRow := MkLogRow {
  lg_job_id : string; lg_sequence : Z; lg_stream : string;
  lg_offset : Z; lg_length : Z; lg_at_ns : Z
}.

Record Database := MkDatabase {
  jobs : gmap string JobRow;
  job_transitions : list TransitionRow;
  job_progress : gmap string ProgressRow;
  job_executions : gmap string ExecutionRow;
  job_log_records : list LogRow
}.

Definition empty_database : Database := MkDatabase ∅ [] ∅ ∅ [].

Definition set_jobs (f : gmap string JobRow → gmap string JobRow) (d : Database) : Database :=
  MkDatabase (f (jobs d)) (job_transitions d) (job_progress d) (job_executions d) (job_log_records d).
Definition add_transition (row : TransitionRow) (d : Database) : Database :=
  MkDatabase (jobs d) (job_transitions d ++ [row]) (job_progress d) (job_executions d) (job_log_records d).
Definition set_progress (f : gmap string ProgressRow → gmap string ProgressRow) (d : Database) : Database :=
  MkDatabase (jobs d) (job_transitions d) (f (job_progress d)) (job_executions d) (job_log_records d).
Definition set_executions (f : gmap string ExecutionRow → gmap string ExecutionRow) (d : Database) : Database :=
  MkDatabase (jobs d) (job_transitions d) (job_progress d) (f (job_executions d)) (job_log_records d).
Definition add_log_record (row : LogRow) (d : Database) : Database :=
  MkDatabase (jobs d) (job_transitions d) (job_progress d) (job_executions d) (job_log_records d ++ [row]).

(** ** Constraints of the schema *)

(** jobs: 0001. *)
Definition job_row_checks (row : JobRow) : bool :=
  in_strings (row_executor row) ["native"; "container"]
  && in_strings (row_state row) (map state_string validStates)
  && (row_created_ns row <=? row_updated_ns row)%Z
  && (if in_strings (row_state row) ["failed"; "rejected"; "lost"]
      then is_some (row_failure_code row) && is_some (row_failure_message row)
           && is_some (row_failure_retryable row)
      else negb (is_some (row_failure_code row)) && negb (is_some (row_failure_message row))
           && negb (is_some (row_failure_retryable row))).

(** jobs.required_tool_ids_json: 0011. *)
Definition required_tools_check (tools : list string) : bool :=
  (2 <=? json_strings_length tools)%Z && (json_strings_length tools <=? 8192)%Z.

(** job_progress: 0008. *)
Definition progress_row_checks (id : string) (row : ProgressRow) : bool :=
  bool_decide (String.length id = 36)
  && in_strings (pr_phase row) ["snapshot"; "upload"; "download"; "restore"; "collect"]
  && (0 <=? pr_completed row)%Z && (0 <? pr_total row)%Z && (0 <? pr_updated_ns row)%Z
  && (pr_completed row <=? pr_total row)%Z.

Section WithUnicode.
Context `{UnicodeCase}.

(** ** Encoding and decoding of rows *)

Definition encodeFailure (failure : option Failure) : option string * option string * option bool :=
  match failure with
  | None => (None, None, None)
  | Some f => (Some (Code f), Some (Message f), Some (Retryable f))
  end.

Definition decodeFailure (code message : option string) (retryable : option bool) :
    result (option Failure) :=
  match code, message, retryable with
  | None, None, None => Ok None
  | Some c, Some m, Some r => Ok (Some (MkFailure c m r))
  | _, _, _ => Err [AnonymousError]
  end.

Definition decodeProgressValues (phaseValue : string) (completed total updated_ns : Z) :
    result (option Progress) :=
  phase ← ParseProgressPhase phaseValue;
  let progress := MkProgress phase completed total (from_unix_nano updated_ns) in
  _ ← Progress_Validate progress;
  Ok (Some progress).

(** The LEFT JOIN yields all four columns or none. *)
Definition decodeProgress (row : option ProgressRow) : result (option Progress) :=
  match row with
  | None => Ok None
  | Some p => decodeProgressValues (pr_phase p) (pr_completed p) (pr_total p) (pr_updated_ns p)
  end.

Definition executor_string (e : Executor) : string :=
  match e with ExecutorNative => "native" | ExecutorContainer => "container" | ExecutorOther s => s end.

Definition encode_job (value : Job) : JobRow :=
  let spec := JobSpec value in
  let '(code, message, retryable) := encodeFailure (JobFailure value) in
  MkJobRow (Executable spec) (json_strings (Arguments_ spec)) (WorkingDirectory spec)
    (json_object (Environment spec)) (executor_string (SpecExecutor spec)) (ContainerImage spec)
    (json_strings (Outputs spec)) (json_strings (RequiredToolIDs spec)) (state_string (JobState value))
    (unix_nano (CreatedAt value)) (unix_nano (UpdatedAt value)) code message retryable.

Definition scanJob (id : string) (row : JobRow) (progress : option ProgressRow) : result Job :=
  parsedID ← ParseID id;
  parsedState ← ParseState (row_state row);
  failure ← decodeFailure (row_failure_code row) (row_failure_message row) (row_failure_retryable row);
  prog ← decodeProgress progress;
  let value := MkJob parsedID
    (MkSpec (row_executable row) (row_arguments row) (row_working_directory row)
       (parse_object (row_environment row)) (executor_of_string (row_executor row))
       (row_container_image row) (row_outputs row) (row_required_tools row))
    parsedState (from_unix_nano (row_created_ns row)) (from_unix_nano (row_updated_ns row))
    failure prog in
  _ ← Job_Validate value;
  Ok value.

Definition queryJob (id : string) : Tx Database Job :=
  d ← tx_read;
  match jobs d !! id with
  | None => tx_lift (Err [SqlErrNoRows])
  | Some row => tx_lift (scanJob id row (job_progress d !! id))
  end.

(** The row appended to job_transitions. *)
Definition encode_transition (accepted : Transition) : TransitionRow :=
  let '(code, message, retryable) := encodeFailure (TransitionFailure accepted) in
  MkTransitionRow (JobID accepted) (state_string (From accepted)) (state_string (To accepted))
    (unix_nano (At accepted)) code message retryable.

(** ** JobRepository *)

Definition Repo_Create (value : Job) : Tx Database unit :=
  _ ← tx_lift (Job_Validate value);
  _ ← tx_lift (reject_if (negb (bool_decide (JobState value = StateCreated))) [JobErrInvalidJob]);
  d ← tx_read;
  let row := encode_job value in
  if negb (is_some (jobs d !! ID value))
     && job_row_checks row && required_tools_check (RequiredToolIDs (JobSpec value))
  then tx_write (set_jobs <[ID value := row]> d)
  else tx_lift (Err [JobErrConflict]).

Definition Repo_Get (id : string) : Tx Database Job :=
  _ ← tx_lift (reject_if (negb (ID_Valid id)) [JobErrInvalidID]);
  on_no_rows [JobErrNotFound] (queryJob id).

Record ListOptions := MkListOptions { States : list State; Limit : Z }.

Definition defaultListLimit : Z := 100.
Definition maximumListLimit : Z := 500.

Definition effective_limit (options : ListOptions) : Z :=
  if (Limit options =? 0)%Z then defaultListLimit else Limit options.

Definition normalizeListOptions (options : ListOptions) : result Z :=
  let e := [SqliteErrInvalidListOptions] in
  _ ← reject_if (Limit options <? 0)%Z e;
  _ ← reject_if (maximumListLimit <? Limit options)%Z e;
  _ ← reject_if (negb (forallb State_Valid (States options)))
        [SqliteErrInvalidListOptions; JobErrInvalidState];
  Ok (effective_limit options).

(** ORDER BY updated_at_ns DESC, id ASC. *)
Definition newest_first (a b : string * JobRow) : Prop :=
  (row_updated_ns b.2 < row_updated_ns a.2)%Z
  ∨ row_updated_ns a.2 = row_updated_ns b.2 ∧ str_leb a.1 b.1 = true.
#[global] Instance newest_first_dec : RelDecision newest_first.
Proof. intros a b. unfold newest_first. apply _. Defined.

Definition select_jobs (options : ListOptions) (d : Database) : list (string * JobRow) :=
  merge_sort newest_first
    (filter (fun r : string * JobRow =>
        States options = [] ∨ row_state r.2 ∈ map state_string (States options))
      (map_to_list (jobs d))).

Fixpoint scan_all (d : Database) (rows : list (string * JobRow)) : result (list Job) :=
  match rows with
  | [] => Ok []
  | (id, row) :: rest =>
      value ← scanJob id row (job_progress d !! id);
      values ← scan_all d rest;
      Ok (value :: values)
  end.

Definition Repo_List (options : ListOptions) : Tx Database (list Job) :=
  limit ← tx_lift (normalizeListOptions options);
  d ← tx_read;
  tx_lift (scan_all d (take (Z.to_nat limit) (select_jobs options d))).

Definition Repo_SetProgress (id : string) (progress : Progress) : Tx Database unit :=
  _ ← tx_lift (reject_if (negb (ID_Valid id)) [JobErrInvalidID]);
  _ ← tx_lift (Progress_Validate progress);
  let row := MkProgressRow (phase_string (Phase progress)) (CompletedBytes progress)
    (TotalBytes progress) (unix_nano (ProgressUpdatedAt progress)) in
  _ ← constraint (progress_row_checks id row);
  d ← tx_read;
  tx_write (set_progress <[id := row]> d).

Definition Repo_GetProgress (id : string) : Tx Database (option Progress) :=
  _ ← tx_lift (reject_if (negb (ID_Valid id)) [JobErrInvalidID]);
  d ← tx_read;
  tx_lift (decodeProgress (job_progress d !! id)).

Definition Repo_ClearProgress (id : string) : Tx Database unit :=
  _ ← tx_lift (reject_if (negb (ID_Valid id)) [JobErrInvalidID]);
  d ← tx_read;
  tx_write (set_progress (delete id) d).

(** The SET clause of the transition UPDATE. *)
Definition moved_row (row : JobRow) (next : Job) : JobRow :=
  let '(code, message, retryable) := encodeFailure (JobFailure next) in
  MkJobRow (row_executable row) (row_arguments row) (row_working_directory row)
    (row_environment row) (row_executor row) (row_container_image row) (row_outputs row)
    (row_required_tools row) (state_string (JobState next)) (row_created_ns row)
    (unix_nano (UpdatedAt next)) code message retryable.

(** The UPDATE of a transition, with the number of rows it affects: the row
    with this key, state and update time; constraints hold of the new row. *)
Definition update_job_row (id : string) (state : string) (updated_ns : Z) (next : Job) :
    Tx Database nat :=
  d ← tx_read;
  match jobs d !! id with
  | Some row =>
      if bool_decide (row_state row = state) && (row_updated_ns row =? updated_ns)%Z then
        _ ← constraint (job_row_checks (moved_row row next));
        _ ← tx_write (set_jobs <[id := moved_row row next]> d);
        mret 1
      else mret 0
  | None => mret 0
  end.

Definition applyJobTransition (transition : Transition) : Tx Database Job :=
  current ← on_no_rows [JobErrNotFound] (queryJob (JobID transition));
  _ ← tx_lift (reject_if (negb (bool_decide (JobState current = From transition))) [JobErrConflict]);
  applied ← tx_lift (Job_Apply current (To transition) (At transition) (TransitionFailure transition));
  let next := applied.1 in
  let accepted := applied.2 in
  updated ← update_job_row (ID current) (state_string (JobState current))
              (unix_nano (UpdatedAt current)) next;
  _ ← tx_lift (reject_if (negb (bool_decide (updated = 1))) [JobErrConflict]);
  d ← tx_read;
  _ ← tx_write (add_transition (encode_transition accepted) d);
  mret next.

Definition Repo_ApplyTransition (transition : Transition) : Tx Database Job :=
  _ ← tx_lift (reject_if (negb (ID_Valid (JobID transition))) [JobErrInvalidID]);
  _ ← tx_lift (ValidateTransition (From transition) (To transition));
  applyJobTransition transition.

End WithUnicode.

#[global] Arguments decodeFailure : simpl never.
#[global] Arguments decodeProgress : simpl never.
#[global] Arguments scanJob : simpl never.
#[global] Arguments unix_nano : simpl never.

(** ** Specification *)

(** The lifecycle steps recorded for a job, oldest first. *)
Definition steps_of (id : string) (d : Database) : list (State * State) :=
  map (fun r => (state_of_string (tr_from r), state_of_string (tr_to r)))
    (filter (fun r => tr_job_id r = id) (job_transitions d)).

(** The audit-trail invariant: the recorded transitions of a job are a lifecycle
    history from [created] to its current state, and every transition belongs
    to a job. *)
Definition audited (d : Database) : Prop :=
  (∀ id row, jobs d !! id = Some row →
     history StateCreated (steps_of id d) (state_of_string (row_state row))) ∧
  (∀ r, r ∈ job_transitions d → is_Some (jobs d !! tr_job_id r)).

(** The database after an accepted transition of job [id]. *)
Definition moved (d : Database) (id : string) (row : JobRow) (next : Job) (accepted : Transition) : Database :=
  add_transition (encode_transition accepted) (set_jobs <[id := moved_row row next]> d).

(** ** Lemmas *)

(** *** Transactions of the repository *)

Section Lemmas.
Context `{UnicodeCase}.

Lemma queryJob_ok id d j d' :
  queryJob id d = Ok (j, d') ↔
  d' = d ∧ ∃ row, jobs d !! id = Some row ∧ scanJob id row (job_progress d !! id) = Ok j.
Proof.
  unfold queryJob. rewrite tx_bind_ok. setoid_rewrite tx_read_ok. split.
  - intros (a & d1 & [-> ->] & Hq). destruct (jobs d !! id) as [row|]; [|done].
    apply tx_lift_ok in Hq as [? ->]. eauto.
  - intros (-> & row & Hrow & Hscan). exists d, d. split; [done|]. by rewrite Hrow, Hscan.
Qed.

Lemma parse_state_ok s st : ParseState s = Ok st ↔ st = state_of_string s ∧ State_Valid st = true.
Proof.
  unfold ParseState. destruct (State_Valid (state_of_string s)) eqn:E; cbn [negb]; split.
  - intros [= <-]. done.
  - by intros [-> _].
  - done.
  - intros [-> ?]. congruence.
Qed.

Lemma id_valid_parse id : ID_Valid id = true → ParseID id = Ok id.
Proof. rewrite id_valid_iff. intros (v & ? & ->). by apply parse_format. Qed.

Lemma scanJob_inv id row p j :
  ID_Valid id = true → scanJob id row p = Ok j →
  Job_Validate j = Ok tt ∧ ID j = id ∧ JobState j = state_of_string (row_state row) ∧
  CreatedAt j = row_created_ns row ∧ UpdatedAt j = row_updated_ns row.
Proof.
  intros Hid. unfold scanJob. rewrite (id_valid_parse _ Hid). intros Hs.
  invert_ok Hs; destruct_unit; simpl; split_and!; auto.
  all: by apply parse_state_ok in E as [? _].
Qed.

Lemma update_job_row_ok id state ns next d n d' :
  update_job_row id state ns next d = Ok (n, d') → n = 1 →
  ∃ row, jobs d !! id = Some row ∧ row_state row = state ∧ row_updated_ns row = ns ∧
    job_row_checks (moved_row row next) = true ∧
    d' = set_jobs <[id := moved_row row next]> d.
Proof.
  unfold update_job_row. intros Hu ->. invert_tx Hu.
  destruct (jobs d !! id) as [row|] eqn:Erow; [|by invert_tx Hu].
  destruct (bool_decide (row_state row = state) && _) eqn:E; [|by invert_tx Hu].
  reflect_bools. invert_tx Hu. exists row. split_and!; auto.
Qed.

(** The effect of an accepted transition on the database. *)
Lemma applyJobTransition_ok tr d next d' :
  ID_Valid (JobID tr) = true → applyJobTransition tr d = Ok (next, d') →
  ∃ row current accepted,
    jobs d !! JobID tr = Some row ∧
    scanJob (JobID tr) row (job_progress d !! JobID tr) = Ok current ∧
    JobState current = From tr ∧
    Job_Apply current (To tr) (At tr) (TransitionFailure tr) = Ok (next, accepted) ∧
    job_row_checks (moved_row row next) = true ∧
    d' = moved d (JobID tr) row next accepted.
Proof.
  intros Hid. unfold applyJobTransition. intros Ht.
  apply tx_bind_ok in Ht as (current & d1 & Hq & Ht).
  apply on_no_rows_ok, queryJob_ok in Hq as (-> & row & Hrow & Hscan).
  destruct (scanJob_inv _ _ _ _ Hid Hscan) as (_ & HID & Hst & _ & Hup).
  invert_tx Ht. destruct a0 as [next' accepted]. simpl in *.
  destruct (update_job_row_ok _ _ _ _ _ _ _ Hs1 eq_refl) as (row' & Hrow' & _ & _ & Hchk & ->).
  rewrite HID in Hrow' |- *. simplify_eq. exists row, current, accepted. split_and!; auto.
Qed.

Lemma accepted_fields current to at_ failure next accepted :
  Job_Apply current to at_ failure = Ok (next, accepted) →
  state_step (JobState current) to ∧ JobState next = to ∧ UpdatedAt next = at_ ∧
  JobID accepted = ID current ∧ From accepted = JobState current ∧ To accepted = to.
Proof. rewrite job_apply_ok. intros (_ & Hs & _ & _ & _ & -> & ->). done. Qed.

Lemma moved_jobs d id row next acc :
  jobs (moved d id row next acc) = <[id := moved_row row next]> (jobs d).
Proof. done. Qed.

Lemma moved_row_state row next :
  State_Valid (JobState next) = true → state_of_string (row_state (moved_row row next)) = JobState next.
Proof.
  intros Hv. unfold moved_row. destruct (encodeFailure _) as [[? ?] ?]. by apply parse_state_string.
Qed.

Lemma steps_of_moved d id row next acc id' :
  steps_of id' (moved d id row next acc) =
  steps_of id' d ++
  (if bool_decide (tr_job_id (encode_transition acc) = id')
   then [(state_of_string (tr_from (encode_transition acc)), state_of_string (tr_to (encode_transition acc)))]
   else []).
Proof.
  unfold steps_of. simpl. rewrite filter_app, map_app. f_equal.
  rewrite filter_cons, filter_nil. by case_decide; case_bool_decide.
Qed.

Lemma encode_transition_fields acc :
  tr_job_id (encode_transition acc) = JobID acc ∧ tr_from (encode_transition acc) = state_string (From acc) ∧
  tr_to (encode_transition acc) = state_string (To acc).
Proof. unfold encode_transition. by destruct (encodeFailure _) as [[? ?] ?]. Qed.

(** An accepted transition extends the history of its job by exactly one step
    and leaves every other job as it was. *)
Lemma moved_audited d id row current to at_ failure next acc :
  ID_Valid id = true → audited d → jobs d !! id = Some row →
  scanJob id row (job_progress d !! id) = Ok current →
  Job_Apply current to at_ failure = Ok (next, acc) → audited (moved d id row next acc).
Proof.
  intros Hid [Hhist Horph] Hrow Hscan Happly.
  destruct (scanJob_inv _ _ _ _ Hid Hscan) as (_ & HID & Hst & _ & _).
  destruct (accepted_fields _ _ _ _ _ _ Happly) as (Hstep & Hto & _ & Hj & Hfrom & Hto').
  destruct (encode_transition_fields acc) as (Ej & Ef & Et).
  destruct (step_valid _ _ Hstep) as [Hv1 Hv2]. split.
  - intros id' row' Hrow'. rewrite moved_jobs in Hrow'. rewrite steps_of_moved, Ej, Ef, Et, Hj, HID.
    case_bool_decide as Hcase.
    + subst id'. simplify_map_eq. rewrite moved_row_state by congruence.
      rewrite Hfrom, Hto', !parse_state_string by done.
      apply history_snoc; [|done]. rewrite Hst. by apply Hhist.
    + simplify_map_eq. rewrite app_nil_r. by apply Hhist.
  - intros r. rewrite moved_jobs. simpl. rewrite elem_of_app, list_elem_of_singleton.
    intros [Hr| ->].
    + destruct (decide (tr_job_id r = id)) as [-> |]; simplify_map_eq; [by eexists|by apply Horph].
    + rewrite Ej, Hj, HID. simplify_map_eq. by eexists.
Qed.

Lemma applyJobTransition_audited tr d next d' :
  ID_Valid (JobID tr) = true → audited d → applyJobTransition tr d = Ok (next, d') → audited d'.
Proof.
  intros Hid Hd Ht.
  destruct (applyJobTransition_ok _ _ _ _ Hid Ht) as (row & cur & acc & Hrow & Hscan & _ & Happly & _ & ->).
  by eapply moved_audited.
Qed.

Lemma create_ok value d u d' :
  Repo_Create value d = Ok (u, d') ↔
  Job_Validate value = Ok tt ∧ JobState value = StateCreated ∧ jobs d !! ID value = None ∧
  job_row_checks (encode_job value) = true ∧ required_tools_check (RequiredToolIDs (JobSpec value)) = true ∧
  d' = set_jobs <[ID value := encode_job value]> d.
Proof.
  unfold Repo_Create. split.
  - intros Hc. invert_tx Hc. destruct_unit.
    destruct (negb _ && _ && _) eqn:E; invert_tx Hc; [|done]. reflect_bools.
    destruct (jobs d !! ID value) eqn:Ej; [done|]. auto 10.
  - intros (Hv & Hst & Hno & Hchk & Htools & ->). unfold mbind, Tx_bind, tx_lift, tx_read.
    rewrite Hv, (bool_decide_eq_true_2 _ Hst). cbv beta iota zeta delta [reject_if negb].
    rewrite Hno, Hchk, Htools. by destruct u.
Qed.

Lemma create_audited value : preserves audited (Repo_Create value).
Proof.
  intros d u d' [Hhist Horph] (_ & Hst & Hno & _ & _ & ->)%create_ok. split; simpl.
  - intros id row Hrow. change (steps_of id (set_jobs _ d)) with (steps_of id d).
    destruct (decide (ID value = id)) as [<-|]; simplify_map_eq; [|by apply Hhist].
    assert (steps_of (ID value) d = []) as ->.
    { unfold steps_of. destruct (filter _ _) as [|r l] eqn:El; [done|]. exfalso.
      assert (r ∈ r :: l) as Hr by set_solver. rewrite <-El in Hr.
      apply list_elem_of_filter in Hr as [Hr Hin]. apply Horph in Hin as [? Hin]. congruence. }
    unfold encode_job. destruct (encodeFailure _) as [[? ?] ?]. simpl.
    rewrite Hst, parse_state_string by done. constructor.
  - intros r Hr. apply Horph in Hr. rewrite lookup_insert. case_decide; [by eexists|done].
Qed.

Lemma frame_audited d d' :
  jobs d' = jobs d → job_transitions d' = job_transitions d → audited d → audited d'.
Proof.
  intros Hj Ht [Hh Ho]. split.
  - intros id row. rewrite Hj. unfold steps_of. rewrite Ht. apply Hh.
  - intros r. rewrite Ht, Hj. apply Ho.
Qed.

Lemma set_progress_audited id p : preserves audited (Repo_SetProgress id p).
Proof. intros d u d' Hd Hs. unfold Repo_SetProgress in Hs. invert_tx Hs. by eapply frame_audited. Qed.

Lemma clear_progress_audited id : preserves audited (Repo_ClearProgress id).
Proof. intros d u d' Hd Hs. unfold Repo_ClearProgress in Hs. invert_tx Hs. by eapply frame_audited. Qed.

Lemma apply_transition_audited tr : preserves audited (Repo_ApplyTransition tr).
Proof.
  intros d next d' Hd Hs. unfold Repo_ApplyTransition in Hs. invert_tx Hs.
  by eapply applyJobTransition_audited.
Qed.

(** *** Round trips *)

Definition spec_of_row (row : JobRow) : Spec :=
  MkSpec (row_executable row) (row_arguments row) (row_working_directory row)
    (parse_object (row_environment row)) (executor_of_string (row_executor row))
    (row_container_image row) (row_outputs row) (row_required_tools row).

Lemma scanJob_ok id row p j :
  scanJob id row p = Ok j ↔
  ParseID id = Ok (ID j) ∧ JobSpec j = spec_of_row row ∧ ParseState (row_state row) = Ok (JobState j) ∧
  CreatedAt j = row_created_ns row ∧ UpdatedAt j = row_updated_ns row ∧
  decodeFailure (row_failure_code row) (row_failure_message row) (row_failure_retryable row)
    = Ok (JobFailure j) ∧
  decodeProgress p = Ok (JobProgress j) ∧ Job_Validate j = Ok tt.
Proof.
  unfold scanJob. split.
  - intros Hs. invert_ok Hs; destruct_unit; simpl; auto 10.
  - destruct j as [jid spec st cr up fl pg]. simpl.
    intros (-> & -> & -> & -> & -> & -> & -> & Hv). unfold spec_of_row in Hv. simpl.
    unfold from_unix_nano. by rewrite Hv.
Qed.

Lemma decode_encode_failure f code message retryable :
  encodeFailure f = (code, message, retryable) → decodeFailure code message retryable = Ok f.
Proof. destruct f as [[]|]; simpl; by intros [= <- <- <-]. Qed.

(** The row of an accepted transition decodes to the job [Apply] returned. *)
Lemma scan_moved id row p current to at_ failure next acc :
  int64_range at_ → scanJob id row p = Ok current →
  Job_Apply current to at_ failure = Ok (next, acc) → scanJob id (moved_row row next) p = Ok next.
Proof.
  intros Hat Hscan Happly. pose proof (job_apply_preserves _ _ _ _ _ _ Happly) as Hv.
  apply scanJob_ok in Hscan as (Hid & Hspec & Hst & Hc & Hu & Hf & Hp & _).
  apply job_apply_ok in Happly as (_ & Hstep & _ & _ & _ & -> & _).
  apply scanJob_ok. unfold moved_row. simpl. destruct (encodeFailure failure) as [[code msg] ret] eqn:Ef.
  simpl. split_and!; auto.
  - apply parse_state_ok. apply step_valid in Hstep as [_ Hv2].
    split; [by rewrite parse_state_string|done].
  - unfold unix_nano. by rewrite wrap_int64_id.
  - by eapply decode_encode_failure.
Qed.

Lemma get_ok id d j d' :
  Repo_Get id d = Ok (j, d') ↔
  d' = d ∧ ID_Valid id = true ∧
  ∃ row, jobs d !! id = Some row ∧ scanJob id row (job_progress d !! id) = Ok j.
Proof.
  unfold Repo_Get. rewrite tx_bind_ok. split.
  - intros (u & d1 & Hs & Hg). invert_tx Hs. apply on_no_rows_ok, queryJob_ok in Hg as (-> & ?). auto.
  - intros (-> & Hid & Hrow). exists tt, d. rewrite Hid. split; [done|].
    apply on_no_rows_ok, queryJob_ok. auto.
Qed.

(** What SQLite and JSON store without loss: instants of an [int64] number of
    nanoseconds, UTF-8 in JSON columns, a tool list of at most 8192 characters. *)
Definition storable (value : Job) : Prop :=
  let spec := JobSpec value in
  int64_range (CreatedAt value) ∧ int64_range (UpdatedAt value) ∧
  Forall (λ s, utf8_valid s = true) (Arguments_ spec) ∧
  Forall (λ s, utf8_valid s = true) (RequiredToolIDs spec) ∧
  (∀ k v, Environment spec !! k = Some v → utf8_valid k = true ∧ utf8_valid v = true) ∧
  required_tools_check (RequiredToolIDs spec) = true.

Lemma outputs_utf8 spec :
  Spec_Validate spec = Ok tt → Forall (λ s, utf8_valid s = true) (Outputs spec).
Proof.
  intros (_ & _ & _ & _ & [Houts _]%validate_outputs_ok & _)%spec_validate_inv.
  eapply Forall_impl; [exact Houts|]. intros o (Hv & _). by apply validate_portable in Hv as (_ & ? & _).
Qed.

Lemma scan_encode value p prog :
  Job_Validate value = Ok tt → storable value → decodeProgress p = Ok prog →
  scanJob (ID value) (encode_job value) p
  = Ok (MkJob (ID value) (JobSpec value) (JobState value) (CreatedAt value) (UpdatedAt value)
          (JobFailure value) prog).
Proof.
  intros Hv (Hc & Hu & Hargs & Htools & Henv & _) Hp.
  assert (Hval := Hv). apply job_validate_ok in Hv as (Hid & Hspec & Hst & Hcz & Huz & Hle & Hf & _).
  assert (match prog with Some q => Progress_Validate q = Ok tt | None => True end) as Hprog.
  { unfold decodeProgress, decodeProgressValues in Hp. destruct p; invert_ok Hp; destruct_unit; done. }
  pose proof (outputs_utf8 _ Hspec) as Hout.
  assert (Hexec := Hspec). apply spec_validate_inv in Hexec as (_ & _ & _ & _ & _ & _ & _ & _ & Hexec).
  apply scanJob_ok. unfold encode_job. destruct (encodeFailure _) as [[code msg] ret] eqn:Ef. simpl.
  unfold unix_nano. rewrite !wrap_int64_id by done. split_and!; auto.
  - by apply id_valid_parse.
  - unfold spec_of_row. simpl. rewrite !json_strings_valid, json_object_valid by done.
    destruct (JobSpec value) as [x1 x2 x3 x4 ex x6 x7 x8]. simpl in *. by destruct Hexec as [-> | ->].
  - apply parse_state_ok. by rewrite parse_state_string.
  - by eapply decode_encode_failure.
  - apply job_validate_ok. simpl. auto 10.
Qed.

Lemma encode_checks value :
  Job_Validate value = Ok tt → int64_range (CreatedAt value) → int64_range (UpdatedAt value) →
  job_row_checks (encode_job value) = true.
Proof.
  intros (_ & Hspec & Hst & _ & _ & Hle & Hf & _)%job_validate_ok Hc Hu.
  apply spec_validate_inv in Hspec as (_ & _ & _ & _ & _ & _ & _ & _ & Hexec).
  unfold job_row_checks, encode_job, unix_nano. rewrite !wrap_int64_id by done.
  destruct (JobState value) eqn:Es; try discriminate Hst;
    destruct (JobFailure value) as [[]|]; try discriminate Hf; simpl;
    rewrite (proj2 (Z.leb_le _ _) Hle); destruct Hexec as [-> | ->]; reflexivity.
Qed.

(** The CHECK constraints hold of every row [Apply] produces. *)
Lemma moved_checks id row p current to at_ failure next acc :
  scanJob id row p = Ok current → Job_Apply current to at_ failure = Ok (next, acc) → int64_range at_ →
  job_row_checks (moved_row row next) = true.
Proof.
  intros Hscan Happly Hat. pose proof (job_apply_preserves _ _ _ _ _ _ Happly) as Hv.
  apply scanJob_ok in Hscan as (_ & Hspec & _ & Hc & Hu & _ & _ & _).
  apply job_apply_ok in Happly as (_ & _ & _ & Hle & _ & -> & _).
  apply job_validate_ok in Hv as (_ & Hsv & Hst & _ & _ & Hcu & Hf & _). simpl in *.
  apply spec_validate_inv in Hsv as (_ & _ & _ & _ & _ & _ & _ & _ & Hexec). rewrite Hspec in Hexec. simpl in Hexec.
  assert (in_strings (row_executor row) ["native"; "container"] = true) as Hex.
  { unfold executor_of_string in Hexec. unfold in_strings. apply bool_decide_eq_true_2.
    repeat case_bool_decide; [set_solver|set_solver|by destruct Hexec]. }
  unfold job_row_checks, moved_row, unix_nano. simpl.
  destruct to; try discriminate Hst; destruct failure as [[]|]; try discriminate Hf; simpl;
    rewrite Hex, wrap_int64_id, <-Hc, (proj2 (Z.leb_le _ _) Hcu) by done; reflexivity.
Qed.

(** A transition computed from the stored job is applied. *)
Lemma apply_transition_succeeds id d current to at_ failure next acc :
  Repo_Get id d = Ok (current, d) → Job_Apply current to at_ failure = Ok (next, acc) →
  int64_range at_ → int64_range (UpdatedAt current) →
  ∃ d', Repo_ApplyTransition acc d = Ok (next, d') ∧ Repo_Get id d' = Ok (next, d').
Proof.
  intros (_ & Hid & row & Hrow & Hscan)%get_ok Happly Hat Hup.
  pose proof (moved_checks _ _ _ _ _ _ _ _ _ Hscan Happly Hat) as Hchk.
  pose proof (scan_moved _ _ _ _ _ _ _ _ _ Hat Hscan Happly) as Hscan'.
  destruct (scanJob_inv _ _ _ _ Hid Hscan) as (_ & HID & Hst & _ & Hu).
  assert (row_state row = state_string (JobState current)) as Hrs.
  { apply scanJob_ok in Hscan as (_ & _ & Hp & _). apply parse_state_ok in Hp as [Hp Hv].
    rewrite Hp in *. unfold state_of_string in *. repeat (case_bool_decide; [by subst|]). done. }
  pose proof Happly as Ha. apply job_apply_ok in Ha as (_ & Hstep & _ & _ & _ & _ & Hacc).
  exists (moved d id row next acc). split.
  - unfold Repo_ApplyTransition. rewrite Hacc. cbn [JobID From To]. rewrite HID.
    unfold mbind at 1, Tx_bind at 1, tx_lift at 1. rewrite Hid. cbn [negb reject_if].
    unfold mbind at 1, Tx_bind at 1, tx_lift at 1. rewrite (proj2 (validate_transition_ok _ _) Hstep).
    assert (queryJob id d = Ok (current, d)) as Hq by (apply queryJob_ok; eauto).
    unfold applyJobTransition, mbind at 1, Tx_bind at 1, on_no_rows. cbn [JobID From To At TransitionFailure].
    rewrite Hq. rewrite bool_decide_eq_true_2 by done.
    unfold mbind, Tx_bind, tx_lift, reject_if. cbn [negb]. rewrite Happly. cbn [fst snd].
    unfold update_job_row, mbind, Tx_bind, tx_read, constraint, tx_lift, reject_if. rewrite HID, Hrow.
    rewrite bool_decide_eq_true_2, Hu by done. unfold unix_nano. rewrite wrap_int64_id by congruence.
    rewrite Z.eqb_refl, Hchk. cbn. by rewrite Hacc, HID.
  - apply get_ok. split; [done|]. split; [done|]. eexists. split; [rewrite moved_jobs; apply lookup_insert_eq|].
    done.
Qed.

End Lemmas.

#[export] Hint Resolve create_audited set_progress_audited clear_progress_audited
  apply_transition_audited : hop.

(** *** Listing *)

#[global] Instance newest_first_total : Total newest_first.
Proof.
  intros [i r] [k s]. unfold newest_first. simpl.
  destruct (Z.lt_trichotomy (row_updated_ns r) (row_updated_ns s)) as [?|[E|?]]; [tauto| |tauto].
  rewrite E. destruct (str_leb_total i k); auto.
Qed.

#[global] Instance newest_first_trans : Transitive newest_first.
Proof.
  intros [i r] [k s] [l t]. unfold newest_first. simpl.
  intros [?|[? ?]] [?|[? ?]]; [left; lia|left; lia|left; lia|]. right. split; [lia|].
  by eapply str_leb_trans.
Qed.

Lemma scan_all_ok `{UnicodeCase} d rows js :
  scan_all d rows = Ok js ↔
  Forall2 (λ r j, scanJob r.1 r.2 (job_progress d !! r.1) = Ok j) rows js.
Proof.
  revert js. induction rows as [|[id row] rows IH]; intros js; cbn [scan_all].
  - split; [by intros [= <-]|by inversion 1].
  - unfold mbind, result_bind. destruct (scanJob id row _) as [j|e] eqn:Ej.
    + destruct (scan_all d rows) as [js'|e] eqn:Ejs.
      * split; [intros [= <-]; constructor; [done|by apply IH]|].
        inversion 1 as [|? ? ? ? Hhd Htl]; subst. simpl in Hhd. apply IH in Htl. congruence.
      * split; [done|]. inversion 1 as [|? ? ? ? Hhd Htl]; subst. apply IH in Htl. congruence.
    + split; [done|]. inversion 1; subst. simpl in *. congruence.
Qed.

(** ** Properties *)

(** A database with the sample job in state [state]. *)
Definition sample_db (state : State) : Database :=
  set_jobs <[sample_id := encode_job (MkJob sample_id sample_spec state sample_time sample_time None None)]>
    empty_database.

(** Creating a job and reading it back is lossless: for a valid, storable job in
    state [created] whose ID is free, [Create] succeeds and [Get] then returns
    exactly that job. *)
Theorem create_get_roundtrip (U : UnicodeCase) value d :
  Job_Validate value = Ok tt → JobState value = StateCreated → JobProgress value = None →
  storable value → jobs d !! ID value = None → job_progress d !! ID value = None →
  ∃ d', Repo_Create value d = Ok (tt, d') ∧ Repo_Get (ID value) d' = Ok (value, d').
Proof.
  intros Hv Hst Hp Hstore Hno Hnop. eexists. split.
  - apply create_ok. split_and!; auto.
    + destruct Hstore as (? & ? & _). by apply encode_checks.
    + by destruct Hstore as (_ & _ & _ & _ & _ & ?).
  - apply get_ok. split; [done|]. split; [by apply job_validate_ok in Hv as [? _]|].
    eexists. split; [apply lookup_insert_eq|]. simpl. rewrite Hnop.
    rewrite (scan_encode _ _ None) by done. destruct value. simpl in *. by subst.
Qed.

Lemma create_get_roundtrip_witness :
  let v := MkJob sample_id sample_spec StateCreated sample_time sample_time None None in
  ∃ d', @Repo_Create ascii_case v empty_database = Ok (tt, d') ∧ @Repo_Get ascii_case sample_id d' = Ok (v, d').
Proof.
  apply (create_get_roundtrip ascii_case
    (MkJob sample_id sample_spec StateCreated sample_time sample_time None None) empty_database
    eq_refl eq_refl eq_refl); [|reflexivity..].
  split_and!; [split; [discriminate|reflexivity]..|repeat constructor|repeat constructor| |reflexivity].
  intros k v Hk. change (({["CI" := "1"]} : gmap string string) !! k = Some v) in Hk.
  apply lookup_singleton_Some in Hk as [<- <-]. split; reflexivity.
Defined.

(** [ApplyTransition] is an optimistic compare-and-set on the job's state.  It
    succeeds only if the stored job is in the transition's source state and
    [Apply] accepts the step; it then replaces that job's state, time and
    failure, appends one record to the audit trail, and changes nothing else.
    The returned job is the one the next [Get] reads. *)
Theorem apply_transition_effect (U : UnicodeCase) tr d next d' :
  Repo_ApplyTransition tr d = Ok (next, d') →
  ∃ current accepted,
    Repo_Get (JobID tr) d = Ok (current, d) ∧ JobState current = From tr ∧
    Job_Apply current (To tr) (At tr) (TransitionFailure tr) = Ok (next, accepted) ∧
    job_transitions d' = job_transitions d ++ [encode_transition accepted] ∧
    (∀ id, id ≠ JobID tr → jobs d' !! id = jobs d !! id) ∧
    job_progress d' = job_progress d ∧ job_executions d' = job_executions d ∧
    job_log_records d' = job_log_records d ∧
    (int64_range (At tr) → Repo_Get (JobID tr) d' = Ok (next, d')).
Proof.
  unfold Repo_ApplyTransition. intros Ht. invert_tx Ht.
  rename Hs into Hid.
  destruct (applyJobTransition_ok _ _ _ _ Hid Ht)
    as (row & current & acc & Hrow & Hscan & Hfrom & Happly & _ & ->).
  exists current, acc. split_and!; auto.
  - apply get_ok. eauto 10.
  - intros id Hne. rewrite moved_jobs. by apply lookup_insert_ne.
  - intros Hat. apply get_ok. split; [done|]. split; [done|].
    eexists. split; [rewrite moved_jobs; apply lookup_insert_eq|].
    by eapply scan_moved.
Qed.

Lemma apply_transition_effect_witness :
  match @Repo_ApplyTransition ascii_case
      (MkTransition sample_id StateQueued StateCancelled (sample_time + 1) None) (sample_db StateQueued) with
  | Ok (next, d') => @Repo_Get ascii_case sample_id d' = Ok (next, d')
  | Err _ => False
  end.
Proof.
  destruct (Repo_ApplyTransition _ _) as [[next d']|e] eqn:E; [|vm_compute in E; discriminate E].
  destruct (apply_transition_effect ascii_case _ _ _ _ E) as (cur & acc & _ & _ & _ & _ & _ & _ & _ & _ & Hget).
  apply Hget. split; [discriminate|reflexivity].
Defined.

(** A transition fires at most once: after a transition out of state [From],
    every other transition of that job from the same state is refused as a
    conflict, so of two racing writers exactly one wins. *)
Theorem transition_exclusive (U : UnicodeCase) tr tr2 d next d' :
  Repo_ApplyTransition tr d = Ok (next, d') → int64_range (At tr) →
  JobID tr2 = JobID tr → From tr2 = From tr → ValidateTransition (From tr2) (To tr2) = Ok tt →
  Repo_ApplyTransition tr2 d' = Err [JobErrConflict].
Proof.
  unfold Repo_ApplyTransition. intros Ht Hat Hj Hf Hval. invert_tx Ht. rename Hs into Hid.
  destruct (applyJobTransition_ok _ _ _ _ Hid Ht)
    as (row & current & acc & Hrow & Hscan & Hfrom & Happly & _ & ->).
  pose proof (scan_moved _ _ _ _ _ _ _ _ _ Hat Hscan Happly) as Hscan'.
  apply accepted_fields in Happly as (Hstep & Hto & _). apply step_rank in Hstep.
  assert (queryJob (JobID tr) (moved d (JobID tr) row next acc)
    = Ok (next, moved d (JobID tr) row next acc)) as Hq.
  { apply queryJob_ok. split; [done|]. eexists. split; [rewrite moved_jobs; apply lookup_insert_eq|done]. }
  unfold mbind, Tx_bind, tx_lift. rewrite Hval, Hj, Hid. cbv beta iota delta [reject_if negb].
  unfold applyJobTransition, mbind, Tx_bind, on_no_rows. rewrite Hj, Hq.
  rewrite bool_decide_eq_false_2; [done|]. intros E. rewrite Hto, Hf in E.
  rewrite Hfrom, E in Hstep. lia.
Qed.

Lemma transition_exclusive_witness :
  match @Repo_ApplyTransition ascii_case
      (MkTransition sample_id StateQueued StateStarting (sample_time + 1) None) (sample_db StateQueued) with
  | Ok (next, d') => @Repo_ApplyTransition ascii_case
      (MkTransition sample_id StateQueued StateCancelled (sample_time + 2) None) d' = Err [JobErrConflict]
  | Err _ => False
  end.
Proof.
  destruct (Repo_ApplyTransition _ _) as [[next d']|e] eqn:E; [|vm_compute in E; discriminate E].
  apply (transition_exclusive ascii_case _ _ _ _ _ E);
    [split; [discriminate|reflexivity]|reflexivity..].
Defined.

(** The audit trail is faithful: every repository operation keeps the recorded
    transitions of each job a legal lifecycle history from [created] to the
    job's current state, and records no transition of an unknown job. *)
Theorem audit_trail_invariant (U : UnicodeCase) :
  audited empty_database ∧
  (∀ value, preserves audited (Repo_Create value)) ∧
  (∀ tr, preserves audited (Repo_ApplyTransition tr)) ∧
  (∀ id p, preserves audited (Repo_SetProgress id p)) ∧
  (∀ id, preserves audited (Repo_ClearProgress id)).
Proof.
  split_and!; auto with hop. split; simpl; [done|set_solver].
Qed.

(** *** A listed page

    [rows] are the selected rows in order, [js] the jobs scanned from the first
    [limit] of them. *)
Section ListedPage.
Context `{UnicodeCase} (d : Database) (rows : list (string * JobRow)) (limit : nat) (js : list Job)
  (Hsort : StronglySorted newest_first rows)
  (Hscan : Forall2 (λ r j, scanJob r.1 r.2 (job_progress d !! r.1) = Ok j) (take limit rows) js).

Lemma scanned_fields r j :
  scanJob r.1 r.2 (job_progress d !! r.1) = Ok j →
  ParseID r.1 = Ok (ID j) ∧ UpdatedAt j = row_updated_ns r.2 ∧ JobState j = state_of_string (row_state r.2).
Proof. intros (Hid & _ & Hst & _ & Hu & _)%scanJob_ok. by apply parse_state_ok in Hst as [-> _]. Qed.

Lemma page_row k j : js !! k = Some j → ∃ r, rows !! k = Some r ∧ r ∈ take limit rows ∧
  UpdatedAt j = row_updated_ns r.2 ∧ JobState j = state_of_string (row_state r.2).
Proof.
  intros Hk. destruct (Forall2_lookup_r _ _ _ _ _ Hscan Hk) as (r & Hr & Hs). exists r.
  apply scanned_fields in Hs as (_ & ? & ?). split_and!; try done.
  - by apply lookup_take_Some in Hr as [? _].
  - by eapply list_elem_of_lookup_2.
Qed.

Lemma page_ordered i k j1 j2 :
  i < k → js !! i = Some j1 → js !! k = Some j2 → (UpdatedAt j2 ≤ UpdatedAt j1)%Z.
Proof.
  intros Hik (r1 & Hr1 & _ & -> & _)%page_row (r2 & Hr2 & _ & -> & _)%page_row.
  assert (newest_first r1 r2) as [?|[? _]]; [|lia|lia].
  eapply (StronglySorted_take_drop _ _ (S i)); [exact Hsort| |].
  - apply elem_of_take. exists i. auto with lia.
  - apply list_elem_of_lookup. exists (k - S i). rewrite lookup_drop. by replace (S i + (k - S i)) with k by lia.
Qed.

Lemma page_complete id row :
  (id, row) ∈ rows → ID_Valid id = true →
  (∃ j, j ∈ js ∧ ID j = id) ∨ (length js = limit ∧ Forall (λ j, (row_updated_ns row ≤ UpdatedAt j)%Z) js).
Proof.
  intros Hin Hid. pose proof (Forall2_length _ _ _ Hscan) as Hlen. rewrite length_take in Hlen.
  rewrite <-(take_drop limit rows), elem_of_app in Hin. destruct Hin as [Hin|Hin].
  - left. apply list_elem_of_lookup in Hin as [k Hk].
    destruct (Forall2_lookup_l _ _ _ _ _ Hscan Hk) as (j & Hj & Hs). exists j.
    split; [by eapply list_elem_of_lookup_2|]. apply scanned_fields in Hs as (Hpid & _). simpl in Hpid.
    rewrite id_valid_parse in Hpid by done. by injection Hpid.
  - right. assert (limit ≤ length rows) as Hge.
    { destruct (decide (length rows ≤ limit)); [|lia]. rewrite drop_ge in Hin by lia. by apply elem_of_nil in Hin. }
    split; [lia|]. apply Forall_forall. intros j (k & Hk)%list_elem_of_lookup.
    apply page_row in Hk as (r & _ & Hr & -> & _).
    assert (newest_first r (id, row)) as [?|[? _]]; simpl in *; [|lia|lia].
    by eapply StronglySorted_take_drop.
Qed.

End ListedPage.

Lemma select_sorted options d : StronglySorted newest_first (select_jobs options d).
Proof. apply Sorted_StronglySorted; [apply _|]. apply Sorted_merge_sort, _. Qed.

Lemma select_elem options d id row :
  (id, row) ∈ select_jobs options d ↔
  jobs d !! id = Some row ∧ (States options = [] ∨ row_state row ∈ map state_string (States options)).
Proof.
  unfold select_jobs. rewrite merge_sort_Permutation, list_elem_of_filter, elem_of_map_to_list. naive_solver.
Qed.

(** [List] returns the newest matching jobs: at most the effective limit of
    them (never more than 500), in order of decreasing update time, each in one
    of the requested states; and a matching job that is left out is not newer
    than any that is returned. *)
Theorem list_newest_first (U : UnicodeCase) options d js d' :
  Repo_List options d = Ok (js, d') →
  d' = d ∧ (Z.of_nat (length js) ≤ effective_limit options ≤ maximumListLimit)%Z ∧
  (∀ i k j1 j2, i < k → js !! i = Some j1 → js !! k = Some j2 → (UpdatedAt j2 ≤ UpdatedAt j1)%Z) ∧
  (States options ≠ [] → Forall (λ j, JobState j ∈ States options) js) ∧
  (∀ id row, jobs d !! id = Some row → ID_Valid id = true →
     (States options = [] ∨ row_state row ∈ map state_string (States options)) →
     (∃ j, j ∈ js ∧ ID j = id) ∨
     (Z.of_nat (length js) = effective_limit options ∧ Forall (λ j, (row_updated_ns row ≤ UpdatedAt j)%Z) js)).
Proof.
  unfold Repo_List, normalizeListOptions. intros Hl. invert_tx Hl. invert_ok Hs. reflect_bools.
  set (limit := effective_limit options) in *.
  assert (0 < limit ≤ maximumListLimit)%Z as Hlim.
  { unfold limit, effective_limit, defaultListLimit, maximumListLimit in *. destruct (_ =? _)%Z eqn:E'; reflect_bools; lia. }
  pose proof (select_sorted options d) as Hsort.
  apply scan_all_ok in Hl. pose proof (Forall2_length _ _ _ Hl) as Hlen. rewrite length_take in Hlen.
  split; [done|]. split; [lia|]. split_and!; [by eapply page_ordered| |].
  - intros Hne. apply Forall_forall. intros j (k & Hk)%list_elem_of_lookup.
    eapply page_row in Hk as ([id row] & Hr & _ & _ & ->); [|exact Hl].
    apply list_elem_of_lookup_2, select_elem in Hr as [_ [?|Hst]]; [done|].
    apply list_elem_of_In, in_map_iff in Hst as (s & Es & Hs2). simpl. rewrite <-Es.
    match goal with E : forallb State_Valid _ = true |- _ => rewrite forallb_forall in E; specialize (E s Hs2) end.
    rewrite parse_state_string by done. by apply list_elem_of_In.
  - intros id row Hrow Hid Hst. eapply page_complete in Hl as [?|[? ?]]; [by left| |done| |done].
    + right. split; [lia|done].
    + by apply select_elem.
Qed.

Lemma list_newest_first_witness :
  (∃ j, j ∈ [MkJob sample_id sample_spec StateQueued sample_time sample_time None None] ∧ ID j = sample_id) ∨
  (Z.of_nat 1 = 500%Z ∧ Forall (λ j, (sample_time ≤ UpdatedAt j)%Z)
     [MkJob sample_id sample_spec StateQueued sample_time sample_time None None]).
Proof.
  apply (list_newest_first ascii_case (MkListOptions [StateQueued] 500) (sample_db StateQueued)
    [MkJob sample_id sample_spec StateQueued sample_time sample_time None None] (sample_db StateQueued))
    with (row := encode_job (MkJob sample_id sample_spec StateQueued sample_time sample_time None None)).
  all: try (vm_compute; reflexivity). right. vm_compute. left.
Defined.

(** Progress survives storage: valid progress in any phase but [pull], with a
    positive timestamp, is stored and read back unchanged. *)
Theorem progress_roundtrip id p d :
  ID_Valid id = true → Progress_Validate p = Ok tt → Phase p ≠ ProgressPull →
  (0 < ProgressUpdatedAt p < 2 ^ 63)%Z →
  ∃ d', Repo_SetProgress id p d = Ok (tt, d') ∧ Repo_GetProgress id d' = Ok (Some p, d').
Proof.
  intros Hid Hv Hpull Hat. assert (Hvp := Hv). unfold Progress_Validate in Hv.
  invert_ok Hv. reflect_bools.
  assert (String.length id = 36) as Hlen.
  { apply id_valid_parse in Hid. unfold ParseID in Hid. destruct (_ || _) eqn:Eb in Hid; [done|].
    reflect_bools. by rewrite <-length_bytes_of. }
  assert (unix_nano (ProgressUpdatedAt p) = ProgressUpdatedAt p) as Hns.
  { apply wrap_int64_id. unfold int64_range. lia. }
  unfold Repo_SetProgress, Repo_GetProgress, mbind, Tx_bind, constraint, tx_lift, tx_read, tx_write.
  rewrite Hid, Hvp, Hns. unfold progress_row_checks. simpl.
  rewrite (bool_decide_eq_true_2 _ Hlen).
  rewrite !(proj2 (Z.leb_le _ _)), !(proj2 (Z.ltb_lt _ _)) by lia.
  assert (in_strings (phase_string (Phase p)) ["snapshot"; "upload"; "download"; "restore"; "collect"] = true
    ∧ ParseProgressPhase (phase_string (Phase p)) = Ok (Phase p)) as [-> Hph].
  { destruct (Phase p); try done. }
  eexists. split; [reflexivity|]. simpl. rewrite lookup_insert_eq.
  unfold decodeProgress, decodeProgressValues. simpl. rewrite Hph. simpl. unfold from_unix_nano.
  destruct p as [ph c t u]. simpl in *. by rewrite Hvp.
Qed.

Lemma progress_roundtrip_witness :
  ∃ d', @Repo_SetProgress sample_id (MkProgress ProgressUpload 5 10 sample_time) empty_database = Ok (tt, d')
   ∧ @Repo_GetProgress sample_id d' = Ok (Some (MkProgress ProgressUpload 5 10 sample_time), d').
Proof. apply progress_roundtrip; [reflexivity|reflexivity|discriminate|split; reflexivity]. Defined.

(** Image-pull progress cannot be stored: [pull] is a valid phase of the domain
    model, but the phase constraint of the job_progress table (migration 008)
    does not list it, so [SetProgress] always fails on it. *)
Theorem pull_progress_rejected id p d :
  ID_Valid id = true → Progress_Validate p = Ok tt → Phase p = ProgressPull →
  Repo_SetProgress id p d = Err [ConstraintError].
Proof.
  intros Hid Hv Hp. unfold Repo_SetProgress, mbind, Tx_bind, constraint, tx_lift.
  rewrite Hid, Hv, Hp. unfold progress_row_checks. simpl. by destruct (bool_decide _).
Qed.

Lemma pull_progress_rejected_witness :
  @Repo_SetProgress sample_id (MkProgress ProgressPull 1 4 sample_time) empty_database = Err [ConstraintError].
Proof. apply pull_progress_rejected; reflexivity. Defined.
