(* ===== verification/ExecutionStore.v ===== *)
(** * The execution repository (internal/infra/sqlite/execution_repository.go)

    Runner custody of jobs: claiming a queued job, recording its process,
    heartbeats, cancellation requests and completion, as transaction bodies on
    the worker database and as operations of a process that runs beside others.
    Methods that validate the returned attempt after the commit do so here too. *)

From S2P Require Import Prelude GoText PortablePath JobModel Execution Effects JobStore Sql.
Local Open Scope string_scope.
Local Open Scope nat_scope.
Local Open Scope list_scope.

(** ** The job_executions table (migration 002) *)

Definition status_of_string (s : string) : Status :=
  if bool_decide (s = "starting") then StatusStarting
  else if bool_decide (s = "running") then StatusRunning
  else if bool_decide (s = "completed") then StatusCompleted
  else StatusOther s.

Definition completion_of_string (s : string) : CompletionKind :=
  if bool_decide (s = "") then CompletionNone
  else if bool_decide (s = "succeeded") then CompletionSucceeded
  else if bool_decide (s = "failed") then CompletionFailed
  else if bool_decide (s = "cancelled") then CompletionCancelled
  else CompletionOther s.

Definition completion_string (k : CompletionKind) : string :=
  match k with
  | CompletionNone => "" | CompletionSucceeded => "succeeded" | CompletionFailed => "failed"
  | CompletionCancelled => "cancelled" | CompletionOther s => s
  end.

Definition execution_row_checks (row : ExecutionRow) : bool :=
  (0 <? ex_runner_pid row)%Z
  && match ex_process_pid row with Some pid => (0 <? pid)%Z | None => true end
  && in_strings (ex_completion row) [""; "succeeded"; "failed"; "cancelled"]
  && (0 <=? ex_log_bytes row)%Z && (0 <? ex_next_sequence row)%Z
  && (ex_claimed_ns row <=? ex_heartbeat_ns row)%Z
  && match ex_cancel_ns row with Some c => (ex_claimed_ns row <=? c)%Z | None => true end
  && (bool_decide (ex_status row = "starting") && negb (is_some (ex_process_pid row))
        && negb (is_some (ex_started_ns row)) && negb (is_some (ex_finished_ns row))
        && bool_decide (ex_completion row = "")
      || bool_decide (ex_status row = "running") && is_some (ex_process_pid row)
        && is_some (ex_started_ns row) && negb (is_some (ex_finished_ns row))
        && bool_decide (ex_completion row = "")
      || bool_decide (ex_status row = "completed") && is_some (ex_finished_ns row)
        && negb (bool_decide (ex_completion row = ""))).

(** [status IN ('starting', 'running')]. *)
Definition active (row : ExecutionRow) : bool := in_strings (ex_status row) ["starting"; "running"].

(** The columns an INSERT of [Claim] writes; the others take their defaults. *)
Definition claimed_row (runnerPID : Z) (at_ns : Z) : ExecutionRow :=
  MkExecutionRow "starting" runnerPID None at_ns None at_ns None None None "" "" 0 1.

Definition started_row (row : ExecutionRow) (processPID at_ns : Z) : ExecutionRow :=
  MkExecutionRow "running" (ex_runner_pid row) (Some processPID) (ex_claimed_ns row) (Some at_ns)
    at_ns (ex_cancel_ns row) (ex_finished_ns row) (ex_exit_code row) (ex_signal row)
    (ex_completion row) (ex_log_bytes row) (ex_next_sequence row).

Definition beaten_row (row : ExecutionRow) (at_ns : Z) : ExecutionRow :=
  MkExecutionRow (ex_status row) (ex_runner_pid row) (ex_process_pid row) (ex_claimed_ns row)
    (ex_started_ns row) at_ns (ex_cancel_ns row) (ex_finished_ns row) (ex_exit_code row)
    (ex_signal row) (ex_completion row) (ex_log_bytes row) (ex_next_sequence row).

(** [COALESCE(cancel_requested_at_ns, ?)]. *)
Definition cancelling_row (row : ExecutionRow) (at_ns : Z) : ExecutionRow :=
  MkExecutionRow (ex_status row) (ex_runner_pid row) (ex_process_pid row) (ex_claimed_ns row)
    (ex_started_ns row) (ex_heartbeat_ns row)
    (match ex_cancel_ns row with Some c => Some c | None => Some at_ns end)
    (ex_finished_ns row) (ex_exit_code row) (ex_signal row) (ex_completion row)
    (ex_log_bytes row) (ex_next_sequence row).

Definition finished_row (row : ExecutionRow) (completion : Completion) : ExecutionRow :=
  MkExecutionRow "completed" (ex_runner_pid row) (ex_process_pid row) (ex_claimed_ns row)
    (ex_started_ns row) (unix_nano (CompletionAt completion)) (ex_cancel_ns row)
    (Some (unix_nano (CompletionAt completion))) (CompletionExitCode completion)
    (CompletionSignal completion) (completion_string (Completion_Kind completion))
    (ex_log_bytes row) (ex_next_sequence row).

(** An UPDATE of the row of [id] if it satisfies [where_]; the rows affected. *)
Definition update_execution (id : string) (where_ : ExecutionRow → bool)
    (set_ : ExecutionRow → ExecutionRow) : Tx Database nat :=
  d ← tx_read;
  match job_executions d !! id with
  | Some row =>
      if where_ row then
        _ ← constraint (execution_row_checks (set_ row));
        _ ← tx_write (set_executions <[id := set_ row]> d);
        mret 1
      else mret 0
  | None => mret 0
  end.

(** The INSERT of [Claim]: primary key, foreign key and CHECK constraints. *)
Definition insert_execution (id : string) (row : ExecutionRow) : Tx Database unit :=
  d ← tx_read;
  _ ← constraint (negb (is_some (job_executions d !! id)) && is_some (jobs d !! id)
                  && execution_row_checks row);
  tx_write (set_executions <[id := row]> d).

Section WithUnicode.
Context `{UnicodeCase}.

Definition scanAttempt (id : string) (row : ExecutionRow) : result Attempt :=
  parsed ← ParseID id;
  let attempt := MkAttempt parsed (status_of_string (ex_status row)) (ex_runner_pid row)
    (match ex_process_pid row with Some pid => pid | None => 0%Z end)
    (from_unix_nano (ex_claimed_ns row)) (from_unix_nano <$> ex_started_ns row)
    (from_unix_nano (ex_heartbeat_ns row)) (from_unix_nano <$> ex_cancel_ns row)
    (from_unix_nano <$> ex_finished_ns row) (ex_exit_code row) (ex_signal row)
    (completion_of_string (ex_completion row)) in
  _ ← Attempt_Validate attempt;
  Ok attempt.

Definition getAttempt (id : string) : Tx Database Attempt :=
  d ← tx_read;
  match job_executions d !! id with
  | None => tx_lift (Err [SqlErrNoRows])
  | Some row => tx_lift (scanAttempt id row)
  end.

Definition requireActiveOwner (attempt : Attempt) (runnerPID : Z) (status : Status) : result unit :=
  _ ← reject_if (negb (RunnerPID attempt =? runnerPID)%Z) [ExecErrOwnerMismatch];
  _ ← reject_if (bool_decide (AttemptStatus attempt = StatusCompleted)) [ExecErrAttemptCompleted];
  reject_if (negb (bool_decide (AttemptStatus attempt = status))) [ExecErrInvalidAttempt].

Definition requireOneAffected (count : nat) : result unit :=
  reject_if (negb (bool_decide (count = 1))) [JobErrConflict].

(** [if isConstraintError(err) { return e }]. *)
Definition on_constraint {DB A} (e : list sentinel) (t : Tx DB A) : Tx DB A := fun d =>
  match t d with
  | Err err => if isConstraintError err then Err e else Err err
  | Ok r => Ok r
  end.

(** ** Transaction bodies *)

Definition claim_tx (id : string) (runnerPID at_ : Z) : Tx Database Attempt :=
  current ← on_no_rows [JobErrNotFound] (queryJob id);
  _ ← tx_lift (reject_if (negb (bool_decide (JobState current = StateQueued))) [ExecErrNotClaimable]);
  _ ← applyJobTransition (MkTransition id StateQueued StateStarting at_ None);
  _ ← on_constraint [ExecErrNotClaimable] (insert_execution id (claimed_row runnerPID (unix_nano at_)));
  mret (MkAttempt id StatusStarting runnerPID 0 at_ None at_ None None None "" CompletionNone).

Definition mark_running_tx (id : string) (runnerPID processPID at_ : Z) : Tx Database Attempt :=
  attempt ← getAttempt id;
  _ ← tx_lift (requireActiveOwner attempt runnerPID StatusStarting);
  _ ← tx_lift (reject_if (before at_ (ClaimedAt attempt)) [ExecErrInvalidAttempt]);
  count ← update_execution id
    (fun row => bool_decide (ex_status row = "starting") && (ex_runner_pid row =? runnerPID)%Z)
    (fun row => started_row row processPID (unix_nano at_));
  _ ← tx_lift (requireOneAffected count);
  _ ← applyJobTransition (MkTransition id StateStarting StateRunning at_ None);
  mret (MkAttempt (AttemptJobID attempt) StatusRunning (RunnerPID attempt) processPID
    (ClaimedAt attempt) (Some at_) at_ (CancelRequestedAt attempt) (FinishedAt attempt)
    (ExitCode attempt) (TerminationSignal attempt) (AttemptCompletion attempt)).

Definition heartbeat_stmt (id : string) (runnerPID at_ : Z) : Tx Database nat :=
  update_execution id (fun row => (ex_runner_pid row =? runnerPID)%Z && active row)
    (fun row => beaten_row row (unix_nano at_)).

Definition request_cancellation_stmt (id : string) (at_ : Z) : Tx Database nat :=
  update_execution id active (fun row => cancelling_row row (unix_nano at_)).

Definition get_attempt_stmt (id : string) : Tx Database Attempt :=
  _ ← tx_lift (reject_if (negb (ID_Valid id)) [JobErrInvalidID]);
  on_no_rows [ExecErrNotFound] (getAttempt id).

Definition complete_tx (id : string) (runnerPID : Z) (completion : Completion) :
    Tx Database (Job * Attempt) :=
  attempt ← getAttempt id;
  _ ← tx_lift (reject_if (negb (RunnerPID attempt =? runnerPID)%Z) [ExecErrOwnerMismatch]);
  _ ← tx_lift (reject_if (bool_decide (AttemptStatus attempt = StatusCompleted)) [ExecErrAttemptCompleted]);
  _ ← tx_lift (reject_if (before (CompletionAt completion) (HeartbeatAt attempt)) [ExecErrInvalidCompletion]);
  current ← queryJob id;
  _ ← tx_lift (reject_if (bool_decide (AttemptStatus attempt = StatusStarting)
        && bool_decide (Completion_Kind completion = CompletionSucceeded)) [ExecErrInvalidCompletion]);
  _ ← tx_lift (reject_if
        (bool_decide (AttemptStatus attempt = StatusStarting)
           && negb (bool_decide (JobState current = StateStarting))
         || bool_decide (AttemptStatus attempt = StatusRunning)
           && negb (bool_decide (JobState current = StateRunning))
           && negb (bool_decide (JobState current = StateCollecting))) [ExecErrInvalidCompletion]);
  count ← update_execution id (fun row => (ex_runner_pid row =? runnerPID)%Z && active row)
            (fun row => finished_row row completion);
  _ ← tx_lift (requireOneAffected count);
  updatedJob ← applyJobTransition (MkTransition id (JobState current) (completion_target completion)
                 (CompletionAt completion) (CompletionFailure completion));
  mret (updatedJob,
    MkAttempt (AttemptJobID attempt) StatusCompleted (RunnerPID attempt) (ProcessPID attempt)
      (ClaimedAt attempt) (StartedAt attempt) (CompletionAt completion) (CancelRequestedAt attempt)
      (Some (CompletionAt completion)) (CompletionExitCode completion) (CompletionSignal completion)
      (Completion_Kind completion)).

(** ORDER BY claimed_at_ns, job_id. *)
Definition oldest_claim_first (a b : string * ExecutionRow) : Prop :=
  (ex_claimed_ns a.2 < ex_claimed_ns b.2)%Z
  ∨ ex_claimed_ns a.2 = ex_claimed_ns b.2 ∧ str_leb a.1 b.1 = true.
#[global] Instance oldest_claim_first_dec : RelDecision oldest_claim_first.
Proof. intros a b. unfold oldest_claim_first. apply _. Defined.

Fixpoint scan_attempts (rows : list (string * ExecutionRow)) : result (list Attempt) :=
  match rows with
  | [] => Ok []
  | (id, row) :: rest =>
      attempt ← scanAttempt id row;
      attempts ← scan_attempts rest;
      Ok (attempt :: attempts)
  end.

Definition list_active_stmt : Tx Database (list Attempt) :=
  d ← tx_read;
  tx_lift (scan_attempts (merge_sort oldest_claim_first
    (filter (fun r : string * ExecutionRow => active r.2 = true) (map_to_list (job_executions d))))).

(** ** Repository methods *)

Definition Claim (id : string) (runnerPID at_ : Z) : M Database Attempt :=
  _ ← lift (reject_if (negb (ID_Valid id)) [JobErrInvalidID]);
  _ ← lift (reject_if ((runnerPID <=? 0)%Z || is_zero_time at_) [ExecErrInvalidAttempt]);
  attempt ← atomically (claim_tx id runnerPID at_);
  _ ← lift (Attempt_Validate attempt);
  mret attempt.

Definition MarkRunning (id : string) (runnerPID processPID at_ : Z) : M Database Attempt :=
  _ ← lift (reject_if (negb (ID_Valid id)) [JobErrInvalidID]);
  _ ← lift (reject_if ((runnerPID <=? 0)%Z || (processPID <=? 0)%Z || is_zero_time at_) [ExecErrInvalidAttempt]);
  attempt ← atomically (mark_running_tx id runnerPID processPID at_);
  _ ← lift (Attempt_Validate attempt);
  mret attempt.

Definition Exec_Get (id : string) : M Database Attempt := atomically (get_attempt_stmt id).

Definition explainOwnershipFailure (id : string) (runnerPID : Z) : M Database unit :=
  attempt ← Exec_Get id;
  if negb (RunnerPID attempt =? runnerPID)%Z then fail [ExecErrOwnerMismatch]
  else if bool_decide (AttemptStatus attempt = StatusCompleted) then fail [ExecErrAttemptCompleted]
  else fail [ExecErrInvalidAttempt].

Definition Heartbeat (id : string) (runnerPID at_ : Z) : M Database unit :=
  _ ← lift (reject_if (negb (ID_Valid id)) [JobErrInvalidID]);
  _ ← lift (reject_if ((runnerPID <=? 0)%Z || is_zero_time at_) [ExecErrInvalidAttempt]);
  updated ← atomically (heartbeat_stmt id runnerPID at_);
  if bool_decide (updated = 1) then mret tt else explainOwnershipFailure id runnerPID.

Definition RequestCancellation (id : string) (at_ : Z) : M Database unit :=
  _ ← lift (reject_if (negb (ID_Valid id)) [JobErrInvalidID]);
  _ ← lift (reject_if (is_zero_time at_) [ExecErrInvalidAttempt]);
  updated ← atomically (request_cancellation_stmt id at_);
  if bool_decide (updated = 1) then mret tt
  else attempt ← Exec_Get id;
       if bool_decide (AttemptStatus attempt = StatusCompleted) then fail [ExecErrAttemptCompleted]
       else fail [ExecErrInvalidAttempt].

Definition CancellationRequested (id : string) (runnerPID : Z) : M Database bool :=
  attempt ← Exec_Get id;
  if negb (RunnerPID attempt =? runnerPID)%Z then fail [ExecErrOwnerMismatch]
  else if bool_decide (AttemptStatus attempt = StatusCompleted) then fail [ExecErrAttemptCompleted]
  else mret (is_some (CancelRequestedAt attempt)).

Definition Complete (id : string) (runnerPID : Z) (completion : Completion) : M Database (Job * Attempt) :=
  _ ← lift (reject_if (negb (ID_Valid id)) [JobErrInvalidID]);
  _ ← lift (reject_if (runnerPID <=? 0)%Z [ExecErrInvalidAttempt]);
  _ ← lift (Completion_Validate completion);
  outcome ← atomically (complete_tx id runnerPID completion);
  _ ← lift (Attempt_Validate outcome.2);
  mret outcome.

Definition ListActive : M Database (list Attempt) := atomically list_active_stmt.

End WithUnicode.


#[global] Arguments scanAttempt : simpl never.
#[global] Arguments Attempt_Validate : simpl never.

(** ** Lemmas *)

(** The attempt a row stands for. *)
Definition attempt_of_row (id : string) (row : ExecutionRow) : Attempt :=
  MkAttempt id (status_of_string (ex_status row)) (ex_runner_pid row)
    (match ex_process_pid row with Some pid => pid | None => 0%Z end)
    (ex_claimed_ns row) (ex_started_ns row) (ex_heartbeat_ns row) (ex_cancel_ns row)
    (ex_finished_ns row) (ex_exit_code row) (ex_signal row) (completion_of_string (ex_completion row)).

Lemma scanAttempt_ok id row a :
  ID_Valid id = true →
  scanAttempt id row = Ok a ↔ a = attempt_of_row id row ∧ Attempt_Validate a = Ok tt.
Proof.
  intros Hid. unfold scanAttempt. rewrite (id_valid_parse _ Hid).
  assert (∀ o : option Z, from_unix_nano <$> o = o) as Hf by by intros [].
  rewrite !Hf. unfold mbind at 1. unfold result_bind at 1.
  unfold mbind, result_bind, from_unix_nano.
  change (MkAttempt id _ _ _ _ _ _ _ _ _ _ _) with (attempt_of_row id row).
  split.
  - intros Hs. destruct (Attempt_Validate _) as [[]|] eqn:Ev; [|done]. by injection Hs as <-.
  - intros [-> ->]. done.
Qed.

Lemma getAttempt_ok id d a d' :
  ID_Valid id = true →
  getAttempt id d = Ok (a, d') ↔
  d' = d ∧ ∃ row, job_executions d !! id = Some row ∧ a = attempt_of_row id row ∧ Attempt_Validate a = Ok tt.
Proof.
  intros Hid. unfold getAttempt. rewrite tx_bind_ok. setoid_rewrite tx_read_ok. split.
  - intros (a0 & d1 & [-> ->] & Hg). destruct (job_executions d !! id) as [row|]; [|done].
    apply tx_lift_ok in Hg as [Hs ->]. apply scanAttempt_ok in Hs as [-> ?]; eauto.
  - intros (-> & row & Hrow & Ha). exists d, d. split; [done|]. rewrite Hrow.
    apply tx_lift_ok. by rewrite scanAttempt_ok.
Qed.

Lemma update_execution_ok id where_ set_ d n d' :
  update_execution id where_ set_ d = Ok (n, d') ↔
  (∃ row, n = 1 ∧ job_executions d !! id = Some row ∧ where_ row = true ∧
     execution_row_checks (set_ row) = true ∧ d' = set_executions <[id := set_ row]> d) ∨
  (n = 0 ∧ d' = d ∧ ∀ row, job_executions d !! id = Some row → where_ row = false).
Proof.
  unfold update_execution. rewrite tx_bind_ok. setoid_rewrite tx_read_ok. split.
  - intros (a & d1 & [-> ->] & Hu). destruct (job_executions d !! id) as [row|].
    + destruct (where_ row) eqn:Ew; invert_tx Hu.
      * left. eauto 10.
      * right. split_and!; auto. by intros row' [= <-].
    + invert_tx Hu. right. done.
  - intros Hc. exists d, d. split; [done|].
    destruct Hc as [(row & -> & -> & -> & Hchk & ->)|(-> & -> & Hw)].
    + rewrite tx_bind_ok. exists tt, d. unfold constraint. by rewrite Hchk.
    + destruct (job_executions d !! id) as [row|]; [|done]. by rewrite Hw.
Qed.

Lemma insert_execution_ok id row d u d' :
  insert_execution id row d = Ok (u, d') ↔
  job_executions d !! id = None ∧ is_Some (jobs d !! id) ∧ execution_row_checks row = true ∧
  d' = set_executions <[id := row]> d.
Proof.
  unfold insert_execution. split.
  - intros Hi. invert_tx Hi. destruct (job_executions d !! id), (jobs d !! id) eqn:Ej; done.
  - intros (Hno & [j Hj] & Hchk & ->). unfold constraint, mbind, Tx_bind, tx_lift, tx_read.
    rewrite Hno, Hj, Hchk. by destruct u.
Qed.

Lemma on_constraint_ok {DB A} e (t : Tx DB A) d r : on_constraint e t d = Ok r ↔ t d = Ok r.
Proof. unfold on_constraint. destruct (t d); [done|]. by destruct (isConstraintError _). Qed.

Lemma int64_not_zero t : int64_range t → is_zero_time t = false.
Proof. unfold int64_range, is_zero_time, zero_time. intros ?. apply Z.eqb_neq. lia. Qed.

Section Lemmas.
Context `{UnicodeCase}.

(** A transition of job [id] together with a write of its execution row: the
    shape of the database after [Claim], [MarkRunning] and [Complete]. *)
Definition handed (d : Database) (id : string) (from to : State) (at_ : Z) (failure : option Failure)
    (ex : ExecutionRow) (next : Job) (d' : Database) : Prop :=
  ∃ row current accepted,
    jobs d !! id = Some row ∧ scanJob id row (job_progress d !! id) = Ok current ∧
    JobState current = from ∧ Job_Apply current to at_ failure = Ok (next, accepted) ∧
    execution_row_checks ex = true ∧
    d' = set_executions <[id := ex]> (moved d id row next accepted).

Lemma claim_tx_ok id pid at_ d a d' :
  ID_Valid id = true → claim_tx id pid at_ d = Ok (a, d') →
  job_executions d !! id = None ∧
  a = MkAttempt id StatusStarting pid 0 at_ None at_ None None None "" CompletionNone ∧
  ∃ next, handed d id StateQueued StateStarting at_ None (claimed_row pid (unix_nano at_)) next d'.
Proof.
  intros Hid. unfold claim_tx. intros Hc.
  apply tx_bind_ok in Hc as (current & d1 & Hq & Hc).
  apply on_no_rows_ok, queryJob_ok in Hq as (-> & row & Hrow & Hscan).
  invert_tx Hc. apply on_constraint_ok, insert_execution_ok in Hs1 as (Hno & _ & Hchk & ->).
  apply applyJobTransition_ok in Hs0 as (row' & cur' & acc & Hrow' & Hscan' & Hfrom & Happly & _ & ->);
    [|done]. simpl in *. split_and!; [done..|].
  exists a1, row', cur', acc. split_and!; done.
Qed.

Lemma mark_running_tx_ok id pid proc at_ d a d' :
  ID_Valid id = true → mark_running_tx id pid proc at_ d = Ok (a, d') →
  ∃ ex next, job_executions d !! id = Some ex ∧ Attempt_Validate (attempt_of_row id ex) = Ok tt ∧
    ex_status ex = "starting" ∧ ex_runner_pid ex = pid ∧ (ex_claimed_ns ex ≤ at_)%Z ∧
    handed d id StateStarting StateRunning at_ None (started_row ex proc (unix_nano at_)) next d' ∧
    a = MkAttempt id StatusRunning pid proc (ex_claimed_ns ex) (Some at_) at_ (ex_cancel_ns ex)
          (ex_finished_ns ex) (ex_exit_code ex) (ex_signal ex) (completion_of_string (ex_completion ex)).
Proof.
  intros Hid. unfold mark_running_tx. intros Hm.
  apply tx_bind_ok in Hm as (att & d1 & Hg & Hm).
  apply getAttempt_ok in Hg as (-> & ex & Hex & -> & Hval); [|done].
  unfold requireActiveOwner, requireOneAffected in Hm. invert_tx Hm.
  apply result_bind_ok in Hs as (? & Hs & _). apply reject_if_ok in Hs. reflect_bools.
  apply update_execution_ok in Hs1 as [(ex' & _ & Hex' & Hw & Hchk & ->)|(? & _)]; [|done].
  simplify_eq. reflect_bools. simpl in *.
  apply applyJobTransition_ok in Hs3 as (row' & cur' & acc & Hrow' & Hscan' & Hfrom & Happly & _ & ->);
    [|done]. simpl in *.
  eexists _, _. split_and!; [done|done|done|done| |exists row', cur', acc; split_and!; done|].
  - unfold before in *. by reflect_bools.
  - by simplify_eq.
Qed.

Lemma complete_tx_ok id pid completion d j a d' :
  ID_Valid id = true → complete_tx id pid completion d = Ok ((j, a), d') →
  ∃ ex from, job_executions d !! id = Some ex ∧ Attempt_Validate (attempt_of_row id ex) = Ok tt ∧
    active ex = true ∧ ex_runner_pid ex = pid ∧ (ex_heartbeat_ns ex ≤ CompletionAt completion)%Z ∧
    (ex_status ex = "starting" → from = StateStarting ∧ Completion_Kind completion ≠ CompletionSucceeded) ∧
    (ex_status ex = "running" → from = StateRunning ∨ from = StateCollecting) ∧
    handed d id from (completion_target completion) (CompletionAt completion)
      (CompletionFailure completion) (finished_row ex completion) j d' ∧
    a = MkAttempt id StatusCompleted pid
          (match ex_process_pid ex with Some p => p | None => 0%Z end) (ex_claimed_ns ex)
          (ex_started_ns ex) (CompletionAt completion) (ex_cancel_ns ex)
          (Some (CompletionAt completion)) (CompletionExitCode completion)
          (CompletionSignal completion) (Completion_Kind completion).
Proof.
  intros Hid. unfold complete_tx. intros Hm.
  apply tx_bind_ok in Hm as (att & d1 & Hg & Hm).
  apply getAttempt_ok in Hg as (-> & ex & Hex & -> & Hval); [|done].
  unfold requireOneAffected in Hm. invert_tx Hm.
  match goal with Hq : queryJob _ _ = _ |- _ => apply queryJob_ok in Hq as (-> & row & Hrow & Hscan) end.
  match goal with Hu : update_execution _ _ _ _ = _ |- _ =>
    apply update_execution_ok in Hu as [(ex' & _ & Hex' & Hw & Hchk & ->)|(? & _)]; [|done] end.
  match goal with Ht : applyJobTransition _ _ = _ |- _ =>
    apply applyJobTransition_ok in Ht as (row' & cur' & acc & Hrow' & Hscan' & Hfrom & Happly & _ & ->);
    [|done] end.
  simplify_eq. reflect_bools. unfold before in *. simpl in *. reflect_bools.
  exists ex, (JobState a3). split_and!; [done..| | | |done].
  - intros Hst. rewrite Hst in *. simpl in *. by reflect_bools.
  - intros Hst. rewrite Hst in *. simpl in *.
    destruct (decide (JobState a3 = StateRunning)) as [|Hne]; [by left|].
    rewrite (bool_decide_eq_false_2 _ Hne) in *. simpl in *. reflect_bools. by right.
  - exists row', cur', acc. by split_and!.
Qed.

(** What such a step leaves alone, and what it changes. *)
Lemma handed_frame d id from to at_ failure ex next d' :
  handed d id from to at_ failure ex next d' →
  (∀ other, other ≠ id → jobs d' !! other = jobs d !! other ∧
     job_executions d' !! other = job_executions d !! other) ∧
  job_executions d' !! id = Some ex ∧ execution_row_checks ex = true ∧
  job_progress d' = job_progress d ∧ job_log_records d' = job_log_records d.
Proof.
  intros (row & cur & acc & Hrow & Hscan & Hfrom & Happly & Hchk & ->). split_and!; try done.
  - intros other Hne. simpl. rewrite !lookup_insert_ne by done. done.
  - simpl. apply lookup_insert_eq.
Qed.

Lemma handed_audited d id from to at_ failure ex next d' :
  ID_Valid id = true → audited d → handed d id from to at_ failure ex next d' → audited d'.
Proof.
  intros Hid Hd (row & cur & acc & Hrow & Hscan & _ & Happly & _ & ->).
  eapply frame_audited; [| |eapply moved_audited]; done.
Qed.

(** The job after the step, as stored and as [Get] reads it. *)
Lemma handed_job d id from to at_ failure ex next d' :
  ID_Valid id = true → handed d id from to at_ failure ex next d' →
  state_step from to ∧ JobState next = to ∧
  (∃ row, jobs d !! id = Some row ∧ state_of_string (row_state row) = from) ∧
  (∃ row, jobs d' !! id = Some row ∧ row_state row = state_string to) ∧
  (int64_range at_ → Repo_Get id d' = Ok (next, d')).
Proof.
  intros Hid (row & cur & acc & Hrow & Hscan & Hfrom & Happly & _ & ->).
  destruct (scanJob_inv _ _ _ _ Hid Hscan) as (_ & _ & Hst & _).
  assert (Hacc := Happly). apply accepted_fields in Hacc as (Hstep & Hto & _).
  split_and!; [congruence|done| | |].
  - exists row. split; congruence.
  - eexists. split; [apply lookup_insert_eq|]. unfold moved_row.
    destruct (encodeFailure _) as [[? ?] ?]. simpl. by rewrite Hto.
  - intros Hat. apply get_ok. split; [done|]. split; [done|]. eexists.
    split; [apply lookup_insert_eq|]. by eapply scan_moved.
Qed.

(** Reading an attempt after a write of its row. *)
Lemma get_attempt_ok id d a :
  ID_Valid id = true → 
  get_attempt_stmt id d = Ok (a, d) ↔
  ∃ row, job_executions d !! id = Some row ∧ a = attempt_of_row id row ∧ Attempt_Validate a = Ok tt.
Proof.
  intros Hid. unfold get_attempt_stmt. rewrite tx_bind_ok. split.
  - intros (u & d1 & Hu & Hg). invert_tx Hu. apply on_no_rows_ok, getAttempt_ok in Hg as (_ & ?); done.
  - intros Hrow. exists tt, d. rewrite Hid. split; [done|].
    apply on_no_rows_ok, getAttempt_ok; [done|]. split; done.
Qed.

Lemma claimed_attempt id pid at_ :
  ID_Valid id = true → (0 < pid)%Z → int64_range at_ →
  let a := MkAttempt id StatusStarting pid 0 at_ None at_ None None None "" CompletionNone in
  a = attempt_of_row id (claimed_row pid (unix_nano at_)) ∧ Attempt_Validate a = Ok tt.
Proof.
  intros Hid Hpid Hat. unfold attempt_of_row, unix_nano. simpl. rewrite wrap_int64_id by done.
  split; [done|]. unfold Attempt_Validate. simpl. rewrite Hid, int64_not_zero by done.
  rewrite (proj2 (Z.leb_gt _ _)) by done. unfold before. by rewrite Z.ltb_irrefl.
Qed.

(** A valid attempt in custody, with the fields its status fixes. *)
Lemma active_attempt_inv id ex :
  Attempt_Validate (attempt_of_row id ex) = Ok tt → active ex = true →
  ID_Valid id = true ∧ (0 < ex_runner_pid ex)%Z ∧ is_zero_time (ex_claimed_ns ex) = false ∧
  (ex_claimed_ns ex ≤ ex_heartbeat_ns ex)%Z ∧
  (∀ c, ex_cancel_ns ex = Some c → (ex_claimed_ns ex ≤ c)%Z) ∧
  completion_of_string (ex_completion ex) = CompletionNone ∧
  ex_finished_ns ex = None ∧ ex_exit_code ex = None ∧
  (ex_status ex = "starting" → ex_signal ex = "" ∧ ex_started_ns ex = None) ∧
  (ex_started_ns ex = None → match ex_process_pid ex with Some p => p | None => 0%Z end = 0%Z).
Proof.
  unfold active, in_strings. intros Hv Ha. apply bool_decide_eq_true_1 in Ha.
  unfold Attempt_Validate in Hv. unfold before in Hv.
  assert (ex_status ex = "starting" ∨ ex_status ex = "running") as [Hst|Hst] by set_solver;
    unfold attempt_of_row in Hv; rewrite Hst in *; simpl in Hv; invert_ok Hv; reflect_bools; simpl in *;
    destruct (ex_finished_ns ex), (ex_exit_code ex); try done; try destruct (ex_started_ns ex); try done;
    split_and!; try done; try (intros ? [= <-]; lia).
Qed.

Lemma started_attempt id ex proc at_ :
  Attempt_Validate (attempt_of_row id ex) = Ok tt → ex_status ex = "starting" →
  (0 < proc)%Z → int64_range at_ → (ex_claimed_ns ex ≤ at_)%Z →
  let a := MkAttempt id StatusRunning (ex_runner_pid ex) proc (ex_claimed_ns ex) (Some at_) at_
    (ex_cancel_ns ex) (ex_finished_ns ex) (ex_exit_code ex) (ex_signal ex)
    (completion_of_string (ex_completion ex)) in
  a = attempt_of_row id (started_row ex proc (unix_nano at_)) ∧ Attempt_Validate a = Ok tt.
Proof.
  intros Hv Hst Hproc Hat Hle. unfold attempt_of_row, unix_nano. simpl. rewrite wrap_int64_id by done.
  split; [done|].
  destruct (active_attempt_inv id ex Hv) as (Hid & Hpid & Hz & _ & Hcan & Hc & Hf & Hx & _ & _).
  { unfold active. by rewrite Hst. }
  unfold Attempt_Validate, before. simpl. rewrite Hid, Hz, Hf, Hx, Hc, int64_not_zero by done. simpl.
  rewrite !(proj2 (Z.leb_gt _ _)), (proj2 (Z.ltb_ge _ _) Hle) by done. simpl.
  destruct (ex_cancel_ns ex) as [c|]; [|done]. by rewrite (proj2 (Z.ltb_ge _ _)) by auto.
Qed.

Lemma finished_attempt id ex completion :
  Attempt_Validate (attempt_of_row id ex) = Ok tt → active ex = true →
  Completion_Validate completion = Ok tt → int64_range (CompletionAt completion) →
  (ex_heartbeat_ns ex ≤ CompletionAt completion)%Z →
  let a := MkAttempt id StatusCompleted (ex_runner_pid ex)
    (match ex_process_pid ex with Some p => p | None => 0%Z end) (ex_claimed_ns ex)
    (ex_started_ns ex) (CompletionAt completion) (ex_cancel_ns ex)
    (Some (CompletionAt completion)) (CompletionExitCode completion)
    (CompletionSignal completion) (Completion_Kind completion) in
  a = attempt_of_row id (finished_row ex completion) ∧ Attempt_Validate a = Ok tt.
Proof.
  intros Hv Ha Hcv Hat Hle. unfold attempt_of_row, unix_nano. simpl. rewrite wrap_int64_id by done.
  destruct (active_attempt_inv id ex Hv Ha) as (Hid & Hpid & Hz & Hhb & Hcan & _ & _ & _ & _ & Hproc).
  split.
  { f_equal. unfold Completion_Kind. by destruct (Cancelled completion), (CompletionFailure completion). }
  unfold Attempt_Validate, before. simpl. rewrite Hid, Hz, int64_not_zero by done. simpl.
  rewrite (proj2 (Z.leb_gt _ _) Hpid), (proj2 (Z.ltb_ge (CompletionAt completion) (ex_claimed_ns ex))) by lia.
  simpl.
  assert (match ex_cancel_ns ex with Some at_ => (at_ <? ex_claimed_ns ex)%Z | None => false end = false) as ->.
  { destruct (ex_cancel_ns ex) as [c|]; [|done]. apply Z.ltb_ge. auto. }
  assert ((0 <? match ex_process_pid ex with Some p => p | None => 0 end)%Z
    && negb (is_some (ex_started_ns ex)) = false) as ->.
  { destruct (ex_started_ns ex); [by rewrite andb_false_r|]. by rewrite Hproc. }
  unfold Completion_Validate, Completion_Kind in *.
  destruct (Cancelled completion); [done|]. destruct (CompletionFailure completion); [done|].
  by invert_ok Hcv.
Qed.

End Lemmas.

(** ** Properties *)

(** C3 Claiming is exclusive.  [Claim] succeeds only on a queued job that no runner
    has ever claimed; it moves exactly that job to [starting], records the
    runner's custody in the same transaction and touches no other job.  From then
    on every claim of the job, by any runner, is refused. *)
Theorem claim_exclusive (U : UnicodeCase) id pid at_ d a d' :
  ID_Valid id = true → int64_range at_ → claim_tx id pid at_ d = Ok (a, d') →
  (∃ current, Repo_Get id d = Ok (current, d) ∧ JobState current = StateQueued) ∧
  job_executions d !! id = None ∧
  (∃ next, Repo_Get id d' = Ok (next, d') ∧ JobState next = StateStarting) ∧
  job_executions d' !! id = Some (claimed_row pid at_) ∧
  (∀ other, other ≠ id → jobs d' !! other = jobs d !! other ∧
     job_executions d' !! other = job_executions d !! other) ∧
  (∀ pid2 at2, claim_tx id pid2 at2 d' = Err [ExecErrNotClaimable]).
Proof.
  intros Hid Hat Hc. apply claim_tx_ok in Hc as (Hno & -> & next & Hh); [|done].
  pose proof (handed_frame _ _ _ _ _ _ _ _ _ Hh) as (Hoth & Hex & _).
  pose proof (handed_job _ _ _ _ _ _ _ _ _ Hid Hh) as (_ & Hst & _ & _ & Hget). specialize (Hget Hat).
  unfold unix_nano in Hex. rewrite wrap_int64_id in Hex by done.
  split_and!; [|done|by eauto|done|done|].
  - destruct Hh as (row & cur & acc & Hrow & Hscan & Hfrom & _).
    exists cur. split; [|done]. apply get_ok. eauto.
  - intros pid2 at2. apply get_ok in Hget as (_ & _ & row & Hrow & Hscan).
    assert (queryJob id d' = Ok (next, d')) as Hq by (apply queryJob_ok; eauto).
    unfold claim_tx, mbind, Tx_bind, on_no_rows. rewrite Hq. by rewrite Hst.
Qed.

Lemma claim_exclusive_witness :
  match @claim_tx ascii_case sample_id 41 (sample_time + 1) (sample_db StateQueued) with
  | Ok (_, d') => @claim_tx ascii_case sample_id 42 (sample_time + 2) d' = Err [ExecErrNotClaimable]
  | Err _ => False
  end.
Proof.
  destruct (claim_tx _ _ _ _) as [[a d']|e] eqn:E; [|vm_compute in E; discriminate E].
  destruct (claim_exclusive ascii_case sample_id 41 (sample_time + 1) (sample_db StateQueued) a d')
    as (_ & _ & _ & _ & _ & Hrefused); [reflexivity|split; [discriminate|reflexivity]|exact E|].
  apply Hrefused.
Defined.

(** Custody survives the round trip through storage: the attempt that [Claim],
    [MarkRunning] and [Complete] return always passes the validation they apply
    after the commit, and is exactly the attempt the next [Get] reads. *)
Theorem attempt_roundtrip (U : UnicodeCase) id pid d a d' :
  ID_Valid id = true → (0 < pid)%Z →
  (∃ at_, int64_range at_ ∧ claim_tx id pid at_ d = Ok (a, d')) ∨
  (∃ proc at_, (0 < proc)%Z ∧ int64_range at_ ∧ mark_running_tx id pid proc at_ d = Ok (a, d')) ∨
  (∃ completion j, Completion_Validate completion = Ok tt ∧ int64_range (CompletionAt completion) ∧
     complete_tx id pid completion d = Ok ((j, a), d')) →
  Attempt_Validate a = Ok tt ∧ get_attempt_stmt id d' = Ok (a, d').
Proof.
  intros Hid Hpid Hcases.
  assert (∃ ex, job_executions d' !! id = Some ex ∧ a = attempt_of_row id ex ∧ Attempt_Validate a = Ok tt)
    as (ex & Hex & Ha & Hv); [|split; [done|]; apply get_attempt_ok; eauto].
  destruct Hcases as [(at_ & Hat & Hc)|[(proc & at_ & Hproc & Hat & Hm)|(c & j & Hcv & Hat & Hc)]].
  - apply claim_tx_ok in Hc as (_ & -> & next & Hh); [|done]. eexists.
    split; [by apply handed_frame in Hh as (_ & ? & _)|]. by apply claimed_attempt.
  - apply mark_running_tx_ok in Hm as (ex & next & _ & Hv & Hst & <- & Hle & Hh & ->); [|done]. eexists.
    split; [by apply handed_frame in Hh as (_ & ? & _)|]. by apply started_attempt.
  - apply complete_tx_ok in Hc as (ex & from & _ & Hv & Hact & <- & Hle & _ & _ & Hh & ->); [|done]. eexists.
    split; [by apply handed_frame in Hh as (_ & ? & _)|]. by apply finished_attempt.
Qed.

Lemma attempt_roundtrip_witness :
  match @claim_tx ascii_case sample_id 41 (sample_time + 1) (sample_db StateQueued) with
  | Ok (a, d') => get_attempt_stmt sample_id d' = Ok (a, d')
  | Err _ => False
  end.
Proof.
  destruct (claim_tx _ _ _ _) as [[a d']|e] eqn:E; [|vm_compute in E; discriminate E].
  apply (attempt_roundtrip ascii_case sample_id 41 (sample_db StateQueued)); [reflexivity|reflexivity|].
  left. exists (sample_time + 1)%Z. split; [split; [discriminate|reflexivity]|exact E].
Defined.


(** The sample job, claimed by runner 41. *)
Definition sample_claimed : Database :=
  set_executions <[sample_id := claimed_row 41 sample_time]> (sample_db StateStarting).

Definition sample_cancelled : Completion := MkCompletion (sample_time + 2) None "" None true.


(** Only the runner that holds custody can act on an attempt: for any other
    process, recording a child process, heartbeats and completion all fail with
    the owner-mismatch error, and the database is left as it was. *)
Theorem custody_owner_only (U : UnicodeCase) id ex pid d clock :
  job_executions d !! id = Some ex → Attempt_Validate (attempt_of_row id ex) = Ok tt →
  (0 < pid)%Z → pid ≠ ex_runner_pid ex →
  (∀ proc at_, mark_running_tx id pid proc at_ d = Err [ExecErrOwnerMismatch]) ∧
  (∀ c, complete_tx id pid c d = Err [ExecErrOwnerMismatch]) ∧
  (∀ at_, int64_range at_ →
     (Heartbeat id pid at_ (quiet d clock)).1 = Err [ExecErrOwnerMismatch] ∧
     w_db (Heartbeat id pid at_ (quiet d clock)).2 = d).
Proof.
  intros Hex Hv Hpos Hne.
  assert (ID_Valid id = true) as Hid.
  { unfold Attempt_Validate in Hv. simpl in Hv. by destruct (ID_Valid id). }
  assert (getAttempt id d = Ok (attempt_of_row id ex, d)) as Hg.
  { apply getAttempt_ok; [done|]. eauto. }
  assert ((ex_runner_pid ex =? pid)%Z = false) as Hp by (by apply Z.eqb_neq).
  split_and!.
  - intros proc at_. unfold mark_running_tx, mbind, Tx_bind. rewrite Hg. simpl.
    unfold requireActiveOwner. simpl. by rewrite Hp.
  - intros c. unfold complete_tx, mbind, Tx_bind. rewrite Hg. simpl. by rewrite Hp.
  - intros at_ Hat.
    assert (heartbeat_stmt id pid at_ d = Ok (0, d)) as Hb.
    { apply update_execution_ok. right. split_and!; auto. intros row Hrow. simplify_eq. by rewrite Hp. }
    assert (get_attempt_stmt id d = Ok (attempt_of_row id ex, d)) as Hga by (apply get_attempt_ok; eauto).
    unfold Heartbeat, explainOwnershipFailure, Exec_Get, mbind, M_bind, lift, atomically, quiet, next_db,
      accessed. simpl. rewrite Hid, int64_not_zero, (proj2 (Z.leb_gt _ _) Hpos) by done. simpl.
    rewrite Hb. simpl. rewrite Hga. simpl. by rewrite Hp.
Qed.

Lemma custody_owner_only_witness :
  @complete_tx ascii_case sample_id 99 sample_cancelled sample_claimed = Err [ExecErrOwnerMismatch].
Proof.
  apply (custody_owner_only ascii_case sample_id (claimed_row 41 sample_time) 99 sample_claimed
    (λ _, sample_time)); [reflexivity|reflexivity|reflexivity|discriminate].
Defined.

Lemma cancelling_checks ex at_ :
  execution_row_checks ex = true → (ex_claimed_ns ex ≤ at_)%Z →
  execution_row_checks (cancelling_row ex at_) = true.
Proof.
  unfold execution_row_checks. intros Hc Hle. simpl in *.
  destruct (ex_cancel_ns ex); [done|]. by rewrite (proj2 (Z.leb_le _ _) Hle).
Qed.

Lemma cancelling_valid id ex at_ :
  Attempt_Validate (attempt_of_row id ex) = Ok tt → (ex_claimed_ns ex ≤ at_)%Z →
  Attempt_Validate (attempt_of_row id (cancelling_row ex at_)) = Ok tt.
Proof.
  intros Hv Hle. unfold Attempt_Validate, attempt_of_row in *. simpl in *.
  destruct (ex_cancel_ns ex); [done|].
  assert (before at_ (ex_claimed_ns ex) = false) as -> by (by apply Z.ltb_ge). done.
Qed.

(** A calm request on an active attempt records it. *)
Lemma request_calm w id ex at_ :
  calm w → ID_Valid id = true → job_executions (w_db w) !! id = Some ex → active ex = true → int64_range at_ →
  execution_row_checks (cancelling_row ex at_) = true →
  RequestCancellation id at_ w
  = (Ok tt, accessed w (set_executions <[id := cancelling_row ex at_]> (w_db w))).
Proof.
  intros Hw Hid Hex Hact Hat Hchk.
  assert (request_cancellation_stmt id at_ (w_db w)
    = Ok (1, set_executions <[id := cancelling_row ex at_]> (w_db w))) as Hr.
  { apply update_execution_ok. left. exists ex. unfold unix_nano. by rewrite wrap_int64_id. }
  unfold RequestCancellation, mbind, M_bind, lift. rewrite calm_atomically by done.
  by rewrite Hid, int64_not_zero, Hr.
Qed.

(** A cancellation request reaches its runner and is never lost or moved: after
    [RequestCancellation] on an active attempt the owner's [CancellationRequested]
    answers true, and a repeated request succeeds without changing the database,
    so the time of the first request stands. *)
Theorem cancellation_delivered id ex at_ d clock :
  job_executions d !! id = Some ex → Attempt_Validate (attempt_of_row id ex) = Ok tt →
  execution_row_checks ex = true → active ex = true → int64_range at_ → (ex_claimed_ns ex ≤ at_)%Z →
  ∃ w, RequestCancellation id at_ (quiet d clock) = (Ok tt, w) ∧
    job_executions (w_db w) !! id = Some (cancelling_row ex at_) ∧
    (CancellationRequested id (ex_runner_pid ex) (quiet (w_db w) clock)).1 = Ok true ∧
    ∀ at2, int64_range at2 → ∃ w2,
      RequestCancellation id at2 (quiet (w_db w) clock) = (Ok tt, w2) ∧ w_db w2 = w_db w.
Proof.
  intros Hex Hv Hchk Hact Hat Hle.
  destruct (active_attempt_inv _ _ Hv Hact) as (Hid & _ & _ & _ & _ & Hnone & _).
  eexists. split; [by apply (request_calm (quiet d clock) id ex), cancelling_checks|]. simpl. split; [apply lookup_insert_eq|]. split.
  - assert (get_attempt_stmt id (set_executions <[id := cancelling_row ex at_]> d)
      = Ok (attempt_of_row id (cancelling_row ex at_), set_executions <[id := cancelling_row ex at_]> d)) as Hg.
    { apply get_attempt_ok; [done|]. eexists. split; [apply lookup_insert_eq|]. split; [done|].
      by apply cancelling_valid. }
    unfold CancellationRequested, Exec_Get, mbind, M_bind, atomically, quiet, next_db. simpl. rewrite Hg. simpl.
    rewrite Z.eqb_refl. simpl. rewrite bool_decide_eq_false_2; [by destruct (ex_cancel_ns ex)|].
    unfold active, in_strings in Hact. apply bool_decide_eq_true_1 in Hact.
    assert (ex_status ex = "starting" ∨ ex_status ex = "running") as [-> | ->] by set_solver; done.
  - intros at2 Hat2.
    assert (cancelling_row (cancelling_row ex at_) at2 = cancelling_row ex at_) as Hidem.
    { unfold cancelling_row. simpl. by destruct (ex_cancel_ns ex). }
    eexists. split.
    + apply (request_calm _ _ (cancelling_row ex at_)); [done|done|apply lookup_insert_eq|done|done|].
      rewrite Hidem. by apply cancelling_checks.
    + simpl. rewrite Hidem. unfold set_executions. simpl. by rewrite insert_insert_eq.
Qed.

Lemma cancellation_delivered_witness :
  ∃ w, RequestCancellation sample_id (sample_time + 5) (quiet sample_claimed (λ _, sample_time)) = (Ok tt, w) ∧
    (CancellationRequested sample_id 41 (quiet (w_db w) (λ _, sample_time))).1 = Ok true.
Proof.
  destruct (cancellation_delivered sample_id (claimed_row 41 sample_time) (sample_time + 5)
    sample_claimed (λ _, sample_time)) as (w & H1 & _ & H2 & _);
    [reflexivity|reflexivity|reflexivity|reflexivity|split; [discriminate|reflexivity]|discriminate|].
  exists w. split; [exact H1|exact H2].
Defined.
