(* ===== verification/LogStore.v ===== *)
(** * Durable job logs (internal/logging and the log half of the execution
    repository, internal/infra/sqlite/log_repository.go)

    stdout and stderr of a job are appended to one data file; the database
    indexes each chunk with its sequence number, stream, offset and length.  The
    state here is a [Disk]: the worker database and the job's log file.  A file
    has contents and a [synced] prefix, the bytes a crash cannot change.  File
    operations can fail, and a failed write may have transferred some bytes. *)

From S2P Require Import Prelude GoText PortablePath JobModel Execution Effects JobStore ExecutionStore Sql.
From Stdlib Require Import Ascii.
Local Open Scope string_scope.
Local Open Scope nat_scope.
Local Open Scope list_scope.

(** ** Records (log.go) *)

Inductive Stream := StreamStdout | StreamStderr | StreamOther (name : string).

#[global] Instance Stream_eq_dec : EqDecision Stream.
Proof. solve_decision. Defined.

Definition stream_string (stream : Stream) : string :=
  match stream with StreamStdout => "stdout" | StreamStderr => "stderr" | StreamOther s => s end.

Definition stream_of_string (s : string) : Stream :=
  if bool_decide (s = "stdout") then StreamStdout
  else if bool_decide (s = "stderr") then StreamStderr
  else StreamOther s.

Definition known_stream (stream : Stream) : bool :=
  match stream with StreamOther _ => false | _ => true end.

Definition DefaultPageLimit : Z := 32.
Definition MaximumPageLimit : Z := 32.
Definition MaximumChunkBytes : Z := 16384.
Definition MaxInt64 : Z := 2 ^ 63 - 1.

Record Metadata := MkMetadata {
  MetaJobID : string;
  Sequence : Z;
  MetaStream : Stream;
  DataOffset : Z;
  DataLength : Z;
  MetaAt : Z
}.

Definition Metadata_Validate (metadata : Metadata) : result unit :=
  let e := [LogErrInvalidRecord] in
  _ ← reject_if (negb (ID_Valid (MetaJobID metadata)) || (Sequence metadata =? 0)%Z
                 || (MaxInt64 <? Sequence metadata)%Z) e;
  _ ← reject_if (negb (known_stream (MetaStream metadata))) e;
  _ ← reject_if ((DataOffset metadata <? 0)%Z || (DataLength metadata <=? 0)%Z
                 || (MaximumChunkBytes <? DataLength metadata)%Z) e;
  reject_if (is_zero_time (MetaAt metadata)) e.

Record LogRecord := MkLogRecord {
  RecordSequence : Z; RecordStream : Stream; RecordData : bytes; RecordAt : Z
}.

Record Page := MkPage { Records : list LogRecord; HasMore : bool }.

Record Cursor := MkCursor { CursorOffset : Z; NextSequence : Z }.

(** ** The index (log_repository.go) *)

Definition Log_Cursor (id : string) : Tx Database Cursor :=
  _ ← tx_lift (reject_if (negb (ID_Valid id)) [JobErrInvalidID]);
  d ← tx_read;
  match job_executions d !! id with
  | None => tx_lift (Err [LogErrNotFound])
  | Some row => mret (MkCursor (ex_log_bytes row) (ex_next_sequence row))
  end.

Definition advanced_row (row : ExecutionRow) (log_bytes next_sequence : Z) : ExecutionRow :=
  MkExecutionRow (ex_status row) (ex_runner_pid row) (ex_process_pid row) (ex_claimed_ns row)
    (ex_started_ns row) (ex_heartbeat_ns row) (ex_cancel_ns row) (ex_finished_ns row)
    (ex_exit_code row) (ex_signal row) (ex_completion row) log_bytes next_sequence.

(** The INSERT with the constraints of job_log_records (migration 002). *)
Definition insert_log_record (row : LogRow) : Tx Database unit :=
  d ← tx_read;
  _ ← constraint
    (is_some (job_executions d !! lg_job_id row)
     && forallb (fun r => negb (bool_decide (lg_job_id r = lg_job_id row)
          && ((lg_sequence r =? lg_sequence row) || (lg_offset r =? lg_offset row))%Z))
          (job_log_records d)
     && (0 <? lg_sequence row)%Z && in_strings (lg_stream row) ["stdout"; "stderr"]
     && (0 <=? lg_offset row)%Z && (0 <? lg_length row)%Z && (lg_length row <=? 16384)%Z);
  tx_write (add_log_record row d).

(** The transaction of [Commit]; the driver refuses a [uint64] parameter with its
    high bit set. *)
Definition commit_tx (id : string) (expectedOffset : Z) (stream : Stream) (len at_ : Z) :
    Tx Database Metadata :=
  d ← tx_read;
  match job_executions d !! id with
  | None => tx_lift (Err [LogErrNotFound])
  | Some row =>
      let nextSequence := ex_next_sequence row in
      _ ← tx_lift (reject_if (bool_decide (status_of_string (ex_status row) = StatusCompleted))
            [ExecErrAttemptCompleted]);
      _ ← tx_lift (reject_if (negb (ex_log_bytes row =? expectedOffset)%Z) [LogErrConflict]);
      let metadata := MkMetadata id nextSequence stream expectedOffset len at_ in
      _ ← tx_lift (Metadata_Validate metadata);
      _ ← insert_log_record (MkLogRow id nextSequence (stream_string stream) expectedOffset len
            (unix_nano at_));
      _ ← tx_lift (reject_if (MaxInt64 <? wrap_uint64 (nextSequence + 1))%Z [DriverError]);
      updated ← update_execution id
        (fun r => (ex_log_bytes r =? expectedOffset)%Z && (ex_next_sequence r =? nextSequence)%Z)
        (fun r => advanced_row r (wrap_int64 (expectedOffset + len)) (wrap_uint64 (nextSequence + 1)));
      _ ← tx_lift (reject_if (negb (bool_decide (updated = 1))) [LogErrConflict]);
      mret metadata
  end.

Definition Commit (id : string) (expectedOffset : Z) (stream : Stream) (len at_ : Z) :
    Tx Database Metadata :=
  _ ← tx_lift (reject_if (negb (ID_Valid id) || (expectedOffset <? 0)%Z || (len <=? 0)%Z
         || (MaximumChunkBytes <? len)%Z || is_zero_time at_) [LogErrInvalidRecord]);
  _ ← tx_lift (reject_if (negb (known_stream stream)) [LogErrInvalidRecord]);
  commit_tx id expectedOffset stream len at_.

(** ORDER BY sequence. *)
Definition sequence_le (a b : LogRow) : Prop := (lg_sequence a ≤ lg_sequence b)%Z.
#[global] Instance sequence_le_dec : RelDecision sequence_le.
Proof. intros a b. unfold sequence_le. apply _. Defined.

Fixpoint scan_metadata (id : string) (rows : list LogRow) : result (list Metadata) :=
  match rows with
  | [] => Ok []
  | row :: rest =>
      let item := MkMetadata id (lg_sequence row) (stream_of_string (lg_stream row))
        (lg_offset row) (lg_length row) (from_unix_nano (lg_at_ns row)) in
      _ ← Metadata_Validate item;
      items ← scan_metadata id rest;
      Ok (item :: items)
  end.

(** The rows of a job after a sequence, in order. *)
Definition rows_after (id : string) (after_ : Z) (d : Database) : list LogRow :=
  merge_sort sequence_le
    (filter (fun r => lg_job_id r = id ∧ (after_ < lg_sequence r)%Z) (job_log_records d)).

Definition Log_List (id : string) (after_ limit : Z) : Tx Database (list Metadata * bool) :=
  _ ← tx_lift (reject_if (negb (ID_Valid id)) [JobErrInvalidID]);
  _ ← tx_lift (reject_if ((limit <=? 0)%Z || (MaximumPageLimit <? limit)%Z) [LogErrInvalidPage]);
  d ← tx_read;
  _ ← tx_lift (reject_if (negb (is_some (job_executions d !! id))) [LogErrNotFound]);
  _ ← tx_lift (reject_if (MaxInt64 <? after_)%Z [DriverError]);
  metadata ← tx_lift (scan_metadata id (take (Z.to_nat (limit + 1)) (rows_after id after_ d)));
  let hasMore := (limit <? Z.of_nat (length metadata))%Z in
  mret (if hasMore then take (Z.to_nat limit) metadata else metadata, hasMore).

(** ** The data file *)

Record File := MkFile {
  content : bytes;
  synced : nat;       (* this many bytes are on stable storage *)
  private : bool      (* a regular file, not a link, closed to other users *)
}.

Record Disk := MkDisk { disk_db : Database; disk_file : option File }.

(** Bytes [data] at [offset], the gap before them filled with zeros. *)
Definition overwrite (old : bytes) (offset : nat) (data : bytes) : bytes :=
  take offset old ++ replicate (offset - length old) Ascii.zero ++ data
  ++ drop (offset + length data) old.

Definition file_write (f : File) (offset : nat) (data : bytes) : File :=
  MkFile (overwrite (content f) offset data) (Nat.min (synced f) offset) (private f).

Definition file_truncate (f : File) (size : nat) : File :=
  MkFile (take size (content f) ++ replicate (size - length (content f)) Ascii.zero)
    (Nat.min (synced f) size) (private f).

Definition file_sync (f : File) : File := MkFile (content f) (length (content f)) (private f).

(** A statement or transaction on the database. *)
Definition on_db {A} (t : Tx Database A) : M Disk A :=
  atomically (fun k => match t (disk_db k) with
    | Ok (a, d') => Ok (a, MkDisk d' (disk_file k)) | Err e => Err e end).

(** An operation on the open file; on a fault it has no effect. *)
Definition on_file {A} (t : File → A * File) : M Disk A :=
  atomically (fun k => match disk_file k with
    | Some f => let '(a, f') := t f in Ok (a, MkDisk (disk_db k) (Some f'))
    | None => Err [DriverError] end).

(** [file.WriteAt]: the device takes some of the bytes, also when it fails; a
    negative offset is refused and no file extends past the largest [int64]. *)
Definition WriteAt (data : bytes) (offset : Z) : M Disk nat := fun w =>
  let k := next_db w in
  match disk_file k, (offset <? 0)%Z with
  | None, _ | _, true => (Err [DriverError], accessed w k)
  | Some f, false =>
      let n := Z.to_nat (Z.min (Z.of_nat (Nat.min (w_count w (w_access w)) (length data))) (MaxInt64 - offset)) in
      let k' := MkDisk (disk_db k) (Some (file_write f (Z.to_nat offset) (take n data))) in
      if w_fault w (w_access w) then (Err [DriverError], accessed w k') else (Ok n, accessed w k')
  end.

Definition Sync : M Disk unit := on_file (fun f => (tt, file_sync f)).
Definition Truncate (size : Z) : M Disk unit := on_file (fun f => (tt, file_truncate f (Z.to_nat size))).
Definition Stat_Size : M Disk Z := on_file (fun f => (Z.of_nat (length (content f)), f)).

(** Securing the job directory: it can fail and has no effect on the log. *)
Definition EnsurePrivateDirectory : M Disk unit := atomically (fun k => Ok (tt, k)).

(** [os.Lstat] and the checks on its answer. *)
Definition inspect_log_file : M Disk unit :=
  atomically (fun k => match disk_file k with
    | Some f => if negb (private f) then Err [LogErrCorrupt] else Ok (tt, k)
    | None => Ok (tt, k) end).

(** [os.OpenFile] with O_CREATE. *)
Definition OpenFile : M Disk unit :=
  atomically (fun k => Ok (tt, match disk_file k with
    | Some _ => k | None => MkDisk (disk_db k) (Some (MkFile [] 0 true)) end)).

(** [writeAtAll]; every round of the loop transfers at least one byte, so
    [fuel = length contents] rounds are enough. *)
Fixpoint writeAtAll (fuel : nat) (contents : bytes) (offset : Z) : M Disk unit :=
  match contents, fuel with
  | [], _ => mret tt
  | _ :: _, O => fail [DriverError]
  | _ :: _, S fuel =>
      written ← WriteAt contents offset;
      if bool_decide (written = 0) then fail [DriverError]
      else writeAtAll fuel (drop written contents) (wrap_int64 (offset + Z.of_nat written))
  end.

(** ** Store and Writer (store.go) *)

Record Writer := MkWriter { wr_offset : Z; wr_closed : bool }.

Definition OpenWriter (id : string) : M Disk Writer :=
  cursor ← on_db (Log_Cursor id);
  _ ← lift (reject_if (negb (ID_Valid id)) [JobErrInvalidID]);
  _ ← EnsurePrivateDirectory;
  _ ← inspect_log_file;
  _ ← OpenFile;
  size ← Stat_Size;
  _ ← lift (reject_if (size <? CursorOffset cursor)%Z [LogErrCorrupt]);
  _ ← (if (CursorOffset cursor <? size)%Z then
         _ ← Truncate (CursorOffset cursor);
         Sync
       else mret tt);
  mret (MkWriter (CursorOffset cursor) false).

(** The errors of a result, for [errors.Join]. *)
Definition errors_of {A} (r : result A) : list sentinel := match r with Ok _ => [] | Err e => e end.

(** One turn of the loop of [append]: the critical section of the writer's lock. *)
Definition append_chunk (id : string) (writer : Writer) (stream : Stream) (chunk : bytes) :
    M Disk Writer :=
  if wr_closed writer then fail [OsErrClosed] else
  let expectedOffset := wr_offset writer in
  _ ← writeAtAll (length chunk) chunk expectedOffset;
  synced_ ← try_ Sync;
  match synced_ with
  | Err e => _ ← try_ (Truncate expectedOffset); fail e
  | Ok _ =>
      at_ ← now;
      committed ← try_ (on_db (Commit id expectedOffset stream (Z.of_nat (length chunk)) at_));
      match committed with
      | Err e =>
          truncated ← try_ (Truncate expectedOffset);
          resynced ← try_ Sync;
          fail (e ++ errors_of truncated ++ errors_of resynced)
      | Ok metadata =>
          mret (MkWriter (wrap_int64 (DataOffset metadata + DataLength metadata)) (wr_closed writer))
      end
  end.

(** The loop of [append]: the bytes written, the error it stopped with, the writer. *)
Fixpoint append_loop (fuel : nat) (id : string) (writer : Writer) (stream : Stream)
    (contents : bytes) (writtenTotal : nat) : M Disk (nat * option (list sentinel) * Writer) :=
  match contents, fuel with
  | [], _ => mret (writtenTotal, None, writer)
  | _ :: _, O => mret (writtenTotal, Some [], writer)
  | _ :: _, S fuel =>
      let chunk := take (Z.to_nat MaximumChunkBytes) contents in
      turn ← try_ (append_chunk id writer stream chunk);
      match turn with
      | Err e => mret (writtenTotal, Some e, writer)
      | Ok writer' =>
          append_loop fuel id writer' stream (drop (length chunk) contents) (writtenTotal + length chunk)
      end
  end.

Definition append (id : string) (writer : Writer) (stream : Stream) (contents : bytes) :
    M Disk (nat * option (list sentinel) * Writer) :=
  if negb (known_stream stream) then mret (0, Some [LogErrInvalidRecord], writer)
  else append_loop (length contents) id writer stream contents 0.

(** [Writer.Close]: a second close does nothing. *)
Definition Writer_Close (writer : Writer) : M Disk (Writer * list sentinel) :=
  if wr_closed writer then mret (writer, [])
  else synced_ ← try_ Sync; mret (MkWriter (wr_offset writer) true, errors_of synced_).

(** [file.ReadAt] of a whole range: a short read is an error. *)
Definition ReadAt (len offset : Z) : M Disk bytes :=
  atomically (fun k => match disk_file k with
    | Some f =>
        let data := take (Z.to_nat len) (drop (Z.to_nat offset) (content f)) in
        if bool_decide (length data = Z.to_nat len) then Ok (data, k) else Err [DriverError]
    | None => Err [DriverError] end).

Fixpoint read_records (items : list Metadata) : M Disk (list LogRecord) :=
  match items with
  | [] => mret []
  | item :: rest =>
      _ ← lift (Metadata_Validate item);
      data ← try_ (ReadAt (DataLength item) (DataOffset item));
      match data with
      | Err _ => fail [LogErrCorrupt]
      | Ok bs =>
          records ← read_records rest;
          mret (MkLogRecord (Sequence item) (MetaStream item) bs (MetaAt item) :: records)
      end
  end.

Definition Log_Read (id : string) (after_ limit : Z) : M Disk Page :=
  let limit := if (limit =? 0)%Z then DefaultPageLimit else limit in
  _ ← lift (reject_if ((limit <? 0)%Z || (MaximumPageLimit <? limit)%Z) [LogErrInvalidPage]);
  listed ← on_db (Log_List id after_ limit);
  if bool_decide (length listed.1 = 0) then mret (MkPage [] listed.2)
  else
    _ ← lift (reject_if (negb (ID_Valid id)) [JobErrInvalidID]);
    _ ← atomically (fun k => match disk_file k with Some _ => Ok (tt, k) | None => Err [DriverError] end);
    records ← read_records listed.1;
    mret (MkPage records listed.2).

#[global] Arguments Metadata_Validate : simpl never.
#[global] Arguments Commit : simpl never.
#[global] Arguments Log_List : simpl never.
#[global] Arguments overwrite : simpl never.

(** ** Specification

    The abstract log of a job is the list of chunks committed to it, each with
    its stream.  [log_view] is what the log of job [id] depends on. *)

Definition job_rows (id : string) (d : Database) : list LogRow :=
  filter (fun r => lg_job_id r = id) (job_log_records d).

Definition file_of (k : Disk) : File := default (MkFile [] 0 true) (disk_file k).

Definition slice (offset len : Z) (data : bytes) : bytes :=
  take (Z.to_nat len) (drop (Z.to_nat offset) data).

Definition log_of (id : string) (k : Disk) : list (Stream * bytes) :=
  map (fun r => (stream_of_string (lg_stream r), slice (lg_offset r) (lg_length r) (content (file_of k))))
    (job_rows id (disk_db k)).

(** The rows number the chunks from [seq] on and tile the file from [off] on. *)
Fixpoint tiled (seq off : Z) (rows : list LogRow) : Prop :=
  match rows with
  | [] => True
  | r :: rest =>
      lg_sequence r = seq ∧ lg_offset r = off ∧ (0 < lg_length r ≤ MaximumChunkBytes)%Z ∧
      known_stream (stream_of_string (lg_stream r)) = true ∧ int64_range (lg_at_ns r) ∧
      tiled (seq + 1) (off + lg_length r) rest
  end.

Definition total (rows : list LogRow) : Z := fold_right (fun r n => (lg_length r + n)%Z) 0%Z rows.

Definition log_bytes (id : string) (k : Disk) : Z := total (job_rows id (disk_db k)).

(** The integrity invariant of a log: its index tiles the file, the cursor of the
    execution is the end of the index, and every indexed byte is on stable
    storage. *)
Definition log_intact (id : string) (k : Disk) : Prop :=
  ∃ ex, job_executions (disk_db k) !! id = Some ex ∧
    tiled 1 0 (job_rows id (disk_db k)) ∧
    ex_log_bytes ex = log_bytes id k ∧
    ex_next_sequence ex = (1 + Z.of_nat (length (job_rows id (disk_db k))))%Z ∧
    (log_bytes id k ≤ MaxInt64)%Z ∧
    (log_bytes id k ≤ Z.of_nat (synced (file_of k)))%Z ∧
    synced (file_of k) ≤ length (content (file_of k)).

(** What other processes may do while a writer is open: anything but change this
    job's log rows, cursor or file. *)
Definition same_log (id : string) (k k' : Disk) : Prop :=
  job_rows id (disk_db k') = job_rows id (disk_db k) ∧ disk_file k' = disk_file k ∧
  (∀ ex, job_executions (disk_db k) !! id = Some ex → ∃ ex', job_executions (disk_db k') !! id = Some ex' ∧
     ex_log_bytes ex' = ex_log_bytes ex ∧ ex_next_sequence ex' = ex_next_sequence ex).

Definition sole_writer (id : string) (w : World Disk) : Prop := ∀ n k, same_log id k (w_interfere w n k).

(** The life of a job's log: the disk, and the writer that is open, if any.  Each turn of
    the loop of [append] is a step, because it commits once.  The accesses of a step can
    fail in any way, so a step may also be one of which only the beginning happened. *)
Inductive log_step (id : string) : Disk * option Writer → Disk * option Writer → Prop :=
| log_opens w r w' : sole_writer id w → OpenWriter id w = (r, w') →
    log_step id (w_db w, None) (w_db w', match r with Ok writer => Some writer | Err _ => None end)
| log_appends writer stream chunk w r w' : sole_writer id w → append_chunk id writer stream chunk w = (r, w') →
    log_step id (w_db w, Some writer) (w_db w', Some (match r with Ok writer' => writer' | Err _ => writer end))
| log_closes writer w r w' : sole_writer id w → Writer_Close writer w = (r, w') → log_step id (w_db w, Some writer) (w_db w', None)
| log_killed k writer : log_step id (k, Some writer) (k, None)
| log_elsewhere k k' writer : same_log id k k' → log_step id (k, writer) (k', writer).

(** The index of a job in the database [d'] is the one in [d]. *)
Definition same_index (id : string) (d d' : Database) : Prop :=
  job_rows id d' = job_rows id d ∧
  ∀ ex, job_executions d !! id = Some ex → ∃ ex', job_executions d' !! id = Some ex' ∧
    ex_log_bytes ex' = ex_log_bytes ex ∧ ex_next_sequence ex' = ex_next_sequence ex.

(** A power loss at [k2].  The database is in WAL mode with [synchronous = NORMAL]: its last
    transactions may be lost, so that the index is the one of an earlier state [k1].
    Of the file only the synced prefix is certain; and because nobody syncs the directory
    it is in, the file itself may be gone, also after it was synced. *)
Definition power_loss (id : string) (k1 k2 k' : Disk) : Prop :=
  same_index id (disk_db k1) (disk_db k') ∧
  match disk_file k2, disk_file k' with
  | Some f, Some f' =>
      take (synced f) (content f') = take (synced f) (content f) ∧
      synced f ≤ synced f' ≤ length (content f') ∧ private f' = private f
  | None, Some _ => False
  | _, None => True
  end.

(** ** Lemmas *)

(** *** Byte ranges *)

Lemma take_overwrite old off data :
  off ≤ length old → take (off + length data) (overwrite old off data) = take off old ++ data.
Proof.
  intros Hle. unfold overwrite. replace (off - length old) with 0 by lia. simpl.
  rewrite app_assoc, take_app_length'; [done|]. rewrite length_app, length_take. lia.
Qed.

Lemma length_overwrite old off data :
  length (overwrite old off data) = Nat.max (length old) (off + length data).
Proof. unfold overwrite. rewrite !length_app, length_replicate, length_take, length_drop. lia. Qed.

Lemma take_overwrite_below old off data n :
  n ≤ off → n ≤ length old → take n (overwrite old off data) = take n old.
Proof.
  intros Hn Hlen. unfold overwrite. rewrite take_app_le by (rewrite length_take; lia).
  rewrite take_take. f_equal. lia.
Qed.

Lemma slice_prefix off len n c c' :
  (0 ≤ off)%Z → (0 ≤ len)%Z → (off + len ≤ Z.of_nat n)%Z → take n c = take n c' →
  slice off len c = slice off len c'.
Proof.
  intros Ho Hl Hn Hc. unfold slice. rewrite !take_drop_commute.
  replace (Z.to_nat off + Z.to_nat len) with (Nat.min (Z.to_nat off + Z.to_nat len) n) by lia.
  by rewrite <-!take_take, Hc.
Qed.

Lemma slice_app off data c :
  (0 ≤ off)%Z → take (Z.to_nat off + length data) c = take (Z.to_nat off) c ++ data →
  Z.to_nat off ≤ length c → slice off (Z.of_nat (length data)) c = data.
Proof.
  intros Ho Hc Hlen. unfold slice. rewrite take_drop_commute, Nat2Z.id, Hc.
  rewrite drop_app_length'; [done|]. rewrite length_take. lia.
Qed.

(** *** The index *)

Lemma total_nonneg s o rows : tiled s o rows → (0 ≤ total rows)%Z.
Proof.
  revert s o. induction rows as [|r rows IH]; intros s o; simpl; [lia|].
  intros (_ & _ & ? & _ & _ & Ht). apply IH in Ht. lia.
Qed.

Lemma total_app rows rows' : total (rows ++ rows') = (total rows + total rows')%Z.
Proof. induction rows as [|r rows IH]; simpl; [lia|]. rewrite IH. lia. Qed.

Lemma tiled_app s o rows rows' :
  tiled s o (rows ++ rows') ↔
  tiled s o rows ∧ tiled (s + Z.of_nat (length rows)) (o + total rows) rows'.
Proof.
  revert s o. induction rows as [|r rows IH]; intros s o; cbn [app tiled total fold_right length].
  - rewrite !Z.add_0_r. tauto.
  - rewrite IH. replace (s + Z.of_nat (S (length rows)))%Z with (s + 1 + Z.of_nat (length rows))%Z by lia.
    fold (total rows). rewrite Z.add_assoc. tauto.
Qed.

Lemma tiled_within s o rows r :
  tiled s o rows → r ∈ rows → (o ≤ lg_offset r)%Z ∧ (0 < lg_length r)%Z ∧
  (lg_offset r + lg_length r ≤ o + total rows)%Z.
Proof.
  revert s o. induction rows as [|q rows IH]; intros s o; [by intros _ ?%elem_of_nil|].
  cbn [tiled total fold_right]. fold (total rows).
  intros (_ & Ho & Hl & _ & _ & Ht). pose proof (total_nonneg _ _ _ Ht).
  rewrite elem_of_cons. intros [->|Hr]; [lia|]. destruct (IH _ _ Ht Hr). lia.
Qed.

(** *** Steps that touch at most the unindexed tail of the file *)

Definition same_prefix (id : string) (k k' : Disk) : Prop :=
  job_rows id (disk_db k') = job_rows id (disk_db k) ∧
  (∀ ex, job_executions (disk_db k) !! id = Some ex → ∃ ex', job_executions (disk_db k') !! id = Some ex' ∧
     ex_log_bytes ex' = ex_log_bytes ex ∧ ex_next_sequence ex' = ex_next_sequence ex) ∧
  take (Z.to_nat (log_bytes id k)) (content (file_of k'))
    = take (Z.to_nat (log_bytes id k)) (content (file_of k)) ∧
  (log_bytes id k ≤ Z.of_nat (synced (file_of k')))%Z ∧
  synced (file_of k') ≤ length (content (file_of k')).

Lemma same_prefix_bytes id k k' : same_prefix id k k' → log_bytes id k' = log_bytes id k.
Proof. intros [Hr _]. unfold log_bytes. by rewrite Hr. Qed.

Lemma same_prefix_log id k k' :
  log_intact id k → same_prefix id k k' → log_intact id k' ∧ log_of id k' = log_of id k.
Proof.
  intros (ex & Hex & Ht & Hb & Hs & Hmx & _ & _) Hp. pose proof (same_prefix_bytes _ _ _ Hp) as Hbytes.
  destruct Hp as (Hr & Hc & Hcont & Hle & Hsync). destruct (Hc _ Hex) as (ex' & Hex' & Hb' & Hs'). split.
  - exists ex'. rewrite Hr, Hbytes, Hb', Hs', Hb. by split_and!.
  - unfold log_of. rewrite Hr. apply map_ext_in. intros r Hin. f_equal.
    apply list_elem_of_In in Hin. destruct (tiled_within _ _ _ _ Ht Hin) as (? & ? & ?).
    apply (slice_prefix _ _ (Z.to_nat (log_bytes id k))); [lia|lia| |done].
    rewrite Z2Nat.id by (unfold log_bytes; by eapply total_nonneg). unfold log_bytes. lia.
Qed.

Lemma same_prefix_trans id k1 k2 k3 : same_prefix id k1 k2 → same_prefix id k2 k3 → same_prefix id k1 k3.
Proof.
  intros H12 (Hr & Hc & Hcont & Hle & Hsync). pose proof (same_prefix_bytes _ _ _ H12) as Hb.
  destruct H12 as (Hr' & Hc' & Hcont' & _ & _). rewrite Hb in Hcont, Hle. split_and!; auto.
  - congruence.
  - intros ex (ex2 & Hex2 & ? & ?)%Hc'. destruct (Hc _ Hex2) as (ex3 & ? & ? & ?).
    exists ex3. split_and!; congruence.
  - by rewrite Hcont.
Qed.

Lemma same_log_prefix id k k' : log_intact id k → same_log id k k' → same_prefix id k k'.
Proof.
  intros (ex & _ & _ & _ & _ & _ & Hle & Hs) (Hr & Hf & Hc). unfold same_prefix, file_of in *.
  rewrite Hf. auto.
Qed.

Lemma intact_refl id k : log_intact id k → same_prefix id k k.
Proof. intros (ex & _ & _ & _ & _ & _ & Hle & Hs). split_and!; eauto. Qed.

(** A computation that touches at most the unindexed tail. *)
Definition tail_safe {A} (id : string) (from : Z) (m : M Disk A) : Prop :=
  ∀ w r w', sole_writer id w → log_intact id (w_db w) → log_bytes id (w_db w) = from → m w = (r, w') →
    same_prefix id (w_db w) (w_db w') ∧ w_interfere w' = w_interfere w.

Lemma tail_safe_bind {A B} id from (m : M Disk A) (f : A → M Disk B) :
  tail_safe id from m → (∀ a, tail_safe id from (f a)) → tail_safe id from (m ≫= f).
Proof.
  intros Hm Hf w r w' Hw Hi Hb. unfold mbind, M_bind.
  destruct (m w) as [[a|e] w1] eqn:Em; intros Hrun.
  - destruct (Hm _ _ _ Hw Hi Hb Em) as [Hp Hw1].
    destruct (Hf a w1 r w') as [Hp' Hw'].
    + intros n k. rewrite Hw1. apply Hw.
    + by apply (same_prefix_log _ (w_db w)).
    + by rewrite (same_prefix_bytes _ _ _ Hp).
    + done.
    + split; [by eapply same_prefix_trans|congruence].
  - injection Hrun as <- <-. by eapply Hm.
Qed.

Lemma tail_safe_try {A} id from (m : M Disk A) : tail_safe id from m → tail_safe id from (try_ m).
Proof.
  intros Hm w r w' Hw Hi Hb. unfold try_. destruct (m w) as [r1 w1] eqn:Em. intros [= <- <-].
  by eapply Hm.
Qed.

Lemma tail_safe_pure {A} id from (r0 : result A) : tail_safe id from (lift r0).
Proof. intros w r w' Hw Hi Hb [= <- <-]. split; [by apply intact_refl|done]. Qed.

Lemma tail_safe_ret {A} id from (a : A) : tail_safe id from (mret a).
Proof. apply (tail_safe_pure _ _ (Ok a)). Qed.

Lemma tail_safe_fail {A} id from e : tail_safe (A:=A) id from (fail e).
Proof. apply (tail_safe_pure _ _ (Err e)). Qed.

Lemma tail_safe_now id from : tail_safe id from now.
Proof. intros w r w' Hw Hi Hb [= <- <-]. split; [by apply intact_refl|done]. Qed.

(** An access whose body keeps the prefix. *)
Lemma tail_safe_atomically {A} id from (t : Tx Disk A) :
  (∀ k a k', log_intact id k → log_bytes id k = from → t k = Ok (a, k') → same_prefix id k k') →
  tail_safe id from (atomically t).
Proof.
  intros Ht w r w' Hw Hi Hb Hrun.
  assert (same_prefix id (w_db w) (next_db w)) as Hn by (apply same_log_prefix; [done|apply Hw]).
  assert (log_intact id (next_db w)) as Hi' by (by apply (same_prefix_log _ (w_db w))).
  apply atomically_cases in Hrun as [(e & _ & -> & _)|(a & k' & _ & Hk & ->)]; simpl; [done|].
  split; [|done]. eapply same_prefix_trans; [done|]. eapply Ht; [done| |done].
  by rewrite (same_prefix_bytes _ _ _ Hn).
Qed.

Lemma tail_safe_sync id from : tail_safe id from Sync.
Proof.
  apply tail_safe_atomically. intros k a k' Hi Hb Hk.
  destruct Hi as (ex & _ & _ & _ & _ & _ & Hle & Hs). unfold file_of in *.
  destruct (disk_file k) as [f|] eqn:Ef; [|done]. injection Hk as <- <-.
  unfold same_prefix, file_of. simpl in *. rewrite Ef. simpl. split_and!; eauto. lia.
Qed.

Lemma tail_safe_truncate id from : tail_safe id from (Truncate from).
Proof.
  apply tail_safe_atomically. intros k a k' Hi Hb Hk.
  destruct Hi as (ex & _ & Ht & _ & _ & _ & Hle & Hs). unfold file_of in *.
  apply total_nonneg in Ht. change (total _) with (log_bytes id k) in Ht.
  destruct (disk_file k) as [f|] eqn:Ef; [|done]. injection Hk as <- <-.
  unfold same_prefix, file_of. simpl in *. rewrite Ef, Hb in *. simpl. split_and!; eauto.
  - rewrite take_app_le by (rewrite length_take; lia). rewrite take_take. f_equal. lia.
  - lia.
  - rewrite length_app, length_take, length_replicate. lia.
Qed.

#[export] Hint Resolve tail_safe_bind tail_safe_try tail_safe_ret tail_safe_fail tail_safe_pure
  tail_safe_now tail_safe_sync tail_safe_truncate : hop.

(** One write at or after the end of the index. *)
Lemma write_at_cases id data off w r w' :
  sole_writer id w → log_intact id (w_db w) → (log_bytes id (w_db w) ≤ off)%Z →
  WriteAt data off w = (r, w') →
  same_prefix id (w_db w) (w_db w') ∧ w_interfere w' = w_interfere w ∧
  (∀ n, r = Ok n → n ≤ length data ∧ ((off + Z.of_nat n ≤ MaxInt64)%Z ∨ n = 0) ∧
     (Z.to_nat off ≤ length (content (file_of (w_db w))) →
      Z.to_nat off + n ≤ length (content (file_of (w_db w'))) ∧
      take (Z.to_nat off + n) (content (file_of (w_db w')))
      = take (Z.to_nat off) (content (file_of (w_db w))) ++ take n data)).
Proof.
  intros Hw Hi Hle Hrun.
  assert (same_prefix id (w_db w) (next_db w)) as Hn by (apply same_log_prefix; [done|apply Hw]).
  assert (disk_file (next_db w) = disk_file (w_db w)) as Hfile by apply Hw.
  destruct (same_prefix_log _ _ _ Hi Hn) as [Hin _]. destruct Hin as (ex & _ & Ht & _ & _ & _ & Hls & Hs).
  apply total_nonneg in Ht. change (total _) with (log_bytes id (next_db w)) in Ht.
  rewrite <-(same_prefix_bytes _ _ _ Hn) in Hle.
  unfold WriteAt in Hrun. destruct (disk_file (next_db w)) as [f|] eqn:Ef.
  2: { injection Hrun as <- <-. split_and!; [done|done|]. intros n [=]. }
  rewrite (proj2 (Z.ltb_ge off 0)) in Hrun by lia.
  set (n := Z.to_nat (Z.min (Z.of_nat (Nat.min (w_count w (w_access w)) (length data))) (MaxInt64 - off))) in *.
  set (k' := MkDisk (disk_db (next_db w)) (Some (file_write f (Z.to_nat off) (take n data)))) in *.
  assert (w' = accessed w k' ∧ (r = Ok n ∨ r = Err [DriverError])) as [-> Hr].
  { destruct (w_fault w (w_access w)); injection Hrun as <- <-; auto. }
  unfold file_of in Hs, Hls. rewrite Ef in Hs, Hls. simpl in Hs, Hls.
  split; [|split; [done|]].
  - eapply same_prefix_trans; [exact Hn|]. unfold same_prefix, k', file_of. rewrite Ef. simpl.
    split_and!; eauto; [|lia|rewrite length_overwrite; lia].
    apply take_overwrite_below; lia.
  - intros m Hm. assert (m = n) as -> by (destruct Hr; congruence). split; [lia|]. split; [lia|].
    unfold file_of. rewrite <-Hfile. simpl. intros Hlen. rewrite length_overwrite.
    assert (length (take n data) = n) as Hnl by (rewrite length_take; lia).
    split; [rewrite Hnl; lia|]. rewrite <-Hnl at 1. by apply take_overwrite.
Qed.

Lemma writeAtAll_spec id fuel contents off w r w' :
  sole_writer id w → log_intact id (w_db w) → (log_bytes id (w_db w) ≤ off)%Z → (0 ≤ off)%Z →
  writeAtAll fuel contents off w = (r, w') →
  same_prefix id (w_db w) (w_db w') ∧ w_interfere w' = w_interfere w ∧
  (r = Ok tt → Z.to_nat off ≤ length (content (file_of (w_db w))) →
     Z.to_nat off + length contents ≤ length (content (file_of (w_db w'))) ∧
     take (Z.to_nat off + length contents) (content (file_of (w_db w')))
     = take (Z.to_nat off) (content (file_of (w_db w))) ++ contents).
Proof.
  revert contents off w r w'. induction fuel as [|fuel IH]; intros [|c contents] off w r w' Hw Hi Hle Hoff Hrun.
  1,3: injection Hrun as <- <-; split_and!; [by apply intact_refl|done|]; intros _ Hlen;
    simpl; rewrite Nat.add_0_r, app_nil_r; split; done.
  { injection Hrun as <- <-. split_and!; [by apply intact_refl|done|]. intros [=]. }
  cbn [writeAtAll] in Hrun. unfold mbind, M_bind in Hrun.
  destruct (WriteAt (c :: contents) off w) as [[n|e] w1] eqn:Ewr;
    destruct (write_at_cases id _ _ _ _ _ Hw Hi Hle Ewr) as (Hp & Hw1 & Hok).
  2: { injection Hrun as <- <-. split_and!; [done|done|]. intros [=]. }
  destruct (Hok n eq_refl) as (Hn & Hmax & Hdata). case_bool_decide as Hn0.
  { injection Hrun as <- <-. split_and!; [done|done|]. intros [=]. }
  destruct Hmax as [Hmax|?]; [|done].
  rewrite wrap_int64_id in Hrun by (unfold int64_range, MaxInt64 in *; lia).
  destruct (same_prefix_log _ _ _ Hi Hp) as [Hi1 _].
  apply IH in Hrun as (Hp' & Hw' & Hok');
    [|intros m k; rewrite Hw1; apply Hw|done|rewrite (same_prefix_bytes _ _ _ Hp); lia|lia].
  split_and!; [by eapply same_prefix_trans|congruence|]. intros -> Hlen.
  destruct (Hdata Hlen) as [Hlen1 Hd1]. rewrite Z2Nat.inj_add, Nat2Z.id in Hok' by lia.
  destruct (Hok' eq_refl Hlen1) as [Hlen2 Hd2]. rewrite length_drop in Hlen2, Hd2.
  replace (Z.to_nat off + n + (length (c :: contents) - n)) with (Z.to_nat off + length (c :: contents))
    in Hlen2, Hd2 by lia.
  split; [done|]. by rewrite Hd2, Hd1, <-app_assoc, take_drop.
Qed.

Lemma commit_ok id off stream len at_ d m d' :
  (off ≤ MaxInt64)%Z → Commit id off stream len at_ d = Ok (m, d') →
  ∃ ex, job_executions d !! id = Some ex ∧ ID_Valid id = true ∧
    status_of_string (ex_status ex) ≠ StatusCompleted ∧ ex_log_bytes ex = off ∧
    known_stream stream = true ∧ (0 ≤ off)%Z ∧ (0 < len ≤ MaximumChunkBytes)%Z ∧
    (off + len ≤ MaxInt64)%Z ∧ (0 < ex_next_sequence ex < MaxInt64)%Z ∧
    m = MkMetadata id (ex_next_sequence ex) stream off len at_ ∧
    d' = set_executions <[id := advanced_row ex (off + len) (ex_next_sequence ex + 1)]>
           (add_log_record (MkLogRow id (ex_next_sequence ex) (stream_string stream) off len (unix_nano at_)) d).
Proof.
  intros Hmax. unfold Commit, commit_tx. intros Hc. invert_tx Hc.
  destruct (job_executions d !! id) as [ex|] eqn:Hex; [|done]. unfold insert_log_record in Hc.
  invert_tx Hc. cbn [lg_job_id lg_sequence lg_stream lg_offset lg_length] in *.
  match goal with Hu : update_execution _ _ _ _ = _ |- _ =>
    apply update_execution_ok in Hu as [(ex' & _ & Hex' & Hw & Hchk & ->)|(? & _)]; [|done] end.
  match goal with Hv : Metadata_Validate _ = _ |- _ =>
    unfold Metadata_Validate in Hv; invert_ok Hv; clear Hv end.
  simpl in Hex'. simplify_eq. unfold execution_row_checks in Hchk. reflect_bools. simpl in *. exists ex.
  unfold MaximumChunkBytes, MaxInt64 in *.
  assert (wrap_uint64 (ex_next_sequence ex + 1) = ex_next_sequence ex + 1)%Z as Hseq.
  { unfold wrap_uint64. apply Z.mod_small. lia. }
  assert (ex_log_bytes ex + len ≤ 2 ^ 63 - 1)%Z as Hoff.
  { destruct (decide (ex_log_bytes ex + len < 2 ^ 63)%Z); [lia|]. unfold wrap_int64 in *.
    rewrite <-(Z.mod_add _ (-1)) in * by lia. rewrite Z.mod_small in * by lia. lia. }
  rewrite Hseq, wrap_int64_id by (unfold int64_range; lia). rewrite Hseq in *. split_and!; auto; lia.
Qed.

Lemma stream_roundtrip stream : known_stream stream = true → stream_of_string (stream_string stream) = stream.
Proof. by destruct stream. Qed.

(** Indexing a chunk that is on stable storage extends the log by that chunk. *)
Lemma commit_extends id stream chunk at_ m k d' :
  log_intact id k →
  Commit id (log_bytes id k) stream (Z.of_nat (length chunk)) at_ (disk_db k) = Ok (m, d') →
  (log_bytes id k + Z.of_nat (length chunk) ≤ Z.of_nat (synced (file_of k)))%Z →
  slice (log_bytes id k) (Z.of_nat (length chunk)) (content (file_of k)) = chunk →
  let k' := MkDisk d' (disk_file k) in
  log_intact id k' ∧ log_of id k' = log_of id k ++ [(stream, chunk)] ∧
  log_bytes id k' = (log_bytes id k + Z.of_nat (length chunk))%Z ∧
  wrap_int64 (DataOffset m + DataLength m) = log_bytes id k'.
Proof.
  intros (ex & Hex & Ht & Hb & Hseq & Hmax & Hle & Hs) Hc Hsync Hslice.
  apply commit_ok in Hc as (ex' & Hex' & _ & _ & _ & Hstr & Hoff & Hlen & Hmax' & Hseq' & -> & ->); [|done].
  simplify_eq. intros k'.
  set (row := MkLogRow id (ex_next_sequence ex) (stream_string stream) (log_bytes id k)
    (Z.of_nat (length chunk)) (unix_nano at_)) in *.
  assert (job_rows id (disk_db k') = job_rows id (disk_db k) ++ [row]) as Hrows.
  { unfold job_rows, k'. simpl. rewrite filter_app, filter_cons, filter_nil. by rewrite decide_True. }
  assert (log_bytes id k' = log_bytes id k + Z.of_nat (length chunk))%Z as Hb'.
  { unfold log_bytes at 1. rewrite Hrows, total_app. simpl. by rewrite Z.add_0_r. }
  split_and!; [|unfold log_of|done|].
  - exists (advanced_row ex (log_bytes id k + Z.of_nat (length chunk)) (ex_next_sequence ex + 1)).
    rewrite Hrows, Hb', length_app. cbn [length]. split_and!; simpl; [apply lookup_insert_eq| |done|lia|done|done|done].
    apply tiled_app. split; [done|]. simpl. rewrite stream_roundtrip by done.
    split_and!; try done; try lia. apply wrap_int64_range.
  - rewrite Hrows, map_app. f_equal. simpl. rewrite stream_roundtrip by done.
    by rewrite <-Hslice at 2.
  - simpl. rewrite Hb'. apply wrap_int64_id. unfold int64_range, MaxInt64 in *. lia.
Qed.

(** The state a writer of the log relies on: [from] is the end of the index. *)
Definition ready (id : string) (from : Z) (w : World Disk) : Prop :=
  sole_writer id w ∧ log_intact id (w_db w) ∧ log_bytes id (w_db w) = from.

Lemma ready_after id from w w' :
  ready id from w → same_prefix id (w_db w) (w_db w') → w_interfere w' = w_interfere w →
  ready id from w' ∧ log_of id (w_db w') = log_of id (w_db w) ∧ w_interfere w' = w_interfere w.
Proof.
  intros (Hw & Hi & Hb) Hp Hint. destruct (same_prefix_log _ _ _ Hi Hp) as [Hi' Hlog].
  split; [|done]. split; [|split; [done|]].
  - intros n k. rewrite Hint. apply Hw.
  - by rewrite (same_prefix_bytes _ _ _ Hp).
Qed.

Lemma ready_step {A} id from (m : M Disk A) w r w' :
  tail_safe id from m → ready id from w → m w = (r, w') →
  ready id from w' ∧ log_of id (w_db w') = log_of id (w_db w) ∧ w_interfere w' = w_interfere w.
Proof.
  intros Hm Hr Hrun. destruct (Hm w r w') as [Hp Hint]; [apply Hr..|done|]. by apply ready_after.
Qed.

(** A successful sync puts the whole file on stable storage. *)
Lemma sync_ok id from w u w' :
  ready id from w → Sync w = (Ok u, w') →
  content (file_of (w_db w')) = content (file_of (w_db w)) ∧
  synced (file_of (w_db w')) = length (content (file_of (w_db w))).
Proof.
  intros (Hw & _) Hs. apply atomically_cases in Hs as [(e & [=] & _)|(a & k' & _ & Hk & ->)].
  destruct (Hw (w_access w) (w_db w)) as (_ & Hf & _). fold (next_db w) in Hf. unfold file_of. simpl.
  rewrite Hf in Hk. destruct (disk_file (w_db w)) as [f|]; [|done]. injection Hk as <- <-. done.
Qed.

(** Indexing the chunk just written and synced. *)
Lemma commit_step id from stream chunk at_ w r w' :
  ready id from w → (from + Z.of_nat (length chunk) ≤ Z.of_nat (synced (file_of (w_db w))))%Z →
  slice from (Z.of_nat (length chunk)) (content (file_of (w_db w))) = chunk →
  on_db (Commit id from stream (Z.of_nat (length chunk)) at_) w = (r, w') →
  w_interfere w' = w_interfere w ∧
  match r with
  | Ok m => ready id (wrap_int64 (DataOffset m + DataLength m)) w' ∧
      log_of id (w_db w') = log_of id (w_db w) ++ [(stream, chunk)]
  | Err _ => ready id from w' ∧ log_of id (w_db w') = log_of id (w_db w)
  end.
Proof.
  intros Hr Hsync Hslice Hrun. pose proof Hr as (Hw & Hi & Hb).
  pose proof (Hw (w_access w) (w_db w)) as Hsame. fold (next_db w) in Hsame.
  destruct (ready_after id from w (accessed w (next_db w))) as (Hr' & Hlog & _);
    [done|by apply same_log_prefix|done|].
  assert (file_of (next_db w) = file_of (w_db w)) as Hf by (unfold file_of; by destruct Hsame as (_ & -> & _)).
  apply atomically_cases in Hrun as [(e & -> & -> & _)|(m & k' & -> & Hk & ->)]; [done|]. split; [done|].
  destruct (Commit _ _ _ _ _ _) as [[m' d']|e] eqn:Ec; [|done]. injection Hk as <- <-.
  destruct Hr' as (Hw' & Hi' & Hb'). simpl in Hb', Hi'. rewrite <-Hb' in Ec, Hsync, Hslice. rewrite <-Hf in Hsync, Hslice.
  destruct (commit_extends _ _ _ _ _ _ _ Hi' Ec Hsync Hslice) as (Hi2 & Hl2 & _ & Hoff).
  rewrite Hoff. simpl in *. split; [by split_and!|]. by rewrite Hl2, Hlog.
Qed.

(** A computation that repairs the tail and then fails. *)
Definition always_fails {A} (m : M Disk A) : Prop := ∀ w, ∃ e w', m w = (Err e, w').

Lemma fail_always_fails {A} e : always_fails (A:=A) (fail e).
Proof. intros w. by exists e, w. Qed.

Lemma try_always_fails {A B} (m : M Disk A) (f : result A → M Disk B) :
  (∀ a, always_fails (f a)) → always_fails (try_ m ≫= f).
Proof. intros Hf w. unfold mbind, M_bind, try_. destruct (m w) as [r w1]. apply Hf. Qed.

#[local] Hint Resolve fail_always_fails try_always_fails : hop.

Lemma failing_tail {A} id from (m : M Disk A) w r w' :
  tail_safe id from m → always_fails m → ready id from w → m w = (r, w') →
  ∃ e, r = Err e ∧ ready id from w' ∧ log_of id (w_db w') = log_of id (w_db w) ∧ w_interfere w' = w_interfere w.
Proof.
  intros Hm Hfail Hr Hrun. destruct (ready_step _ _ _ _ _ _ Hm Hr Hrun) as (? & ? & ?).
  destruct (Hfail w) as (e & w1 & E). exists e. split_and!; congruence.
Qed.

(** The critical section either extends the log by the whole chunk or leaves it
    alone, whichever of its steps fails. *)
Lemma append_chunk_spec id from writer stream chunk w r w' :
  ready id from w → wr_offset writer = from →
  append_chunk id writer stream chunk w = (r, w') →
  w_interfere w' = w_interfere w ∧
  match r with
  | Ok writer' => ready id (wr_offset writer') w' ∧ wr_closed writer' = wr_closed writer ∧
      log_of id (w_db w') = log_of id (w_db w) ++ [(stream, chunk)]
  | Err _ => ready id from w' ∧ log_of id (w_db w') = log_of id (w_db w)
  end.
Proof.
  intros Hr Hoff. unfold append_chunk. rewrite Hoff. destruct (wr_closed writer) eqn:Hcl; [by intros [= <- <-]|].
  assert (0 ≤ from ≤ Z.of_nat (length (content (file_of (w_db w)))))%Z as Hfrom.
  { destruct Hr as (_ & (ex & _ & Ht & _ & _ & _ & Hle & Hs) & Hb). apply total_nonneg in Ht.
    unfold log_bytes in *. lia. }
  unfold mbind at 1, M_bind at 1. destruct (writeAtAll _ _ _ w) as [[[]|e] w1] eqn:Ew;
    pose proof Hr as (Hsole & Hi & Hb);
    destruct (writeAtAll_spec id _ _ _ _ _ _ Hsole Hi (Z.eq_le_incl _ _ Hb) (proj1 Hfrom) Ew) as (Hp & Hint & Hdata);
    destruct (ready_after id from w w1) as (Hr1 & Hl1 & _); [done..| |done|done|done|].
  2: { by intros [= <- <-]. }
  unfold mbind at 1, M_bind at 1, try_ at 1. destruct (Sync w1) as [rs w2] eqn:Es.
  destruct (ready_step id from Sync w1 rs w2) as (Hr2 & Hl2 & Hint2); [auto with hop|done|done|].
  destruct rs as [u|e].
  2: { intros Hrun. eapply (failing_tail id from) in Hrun as (e' & -> & Hr' & Hl' & Hint'); [|auto with hop..|done].
       by rewrite Hl', Hl2, Hl1, Hint', Hint2, Hint. }
  destruct (Hdata eq_refl) as [Hlen Hbytes]; [lia|].
  destruct (sync_ok _ _ _ _ _ Hr1 Es) as [Hcont Hsynced].
  unfold mbind at 1, M_bind at 1. destruct (now w2) as [rt w3] eqn:Enow.
  pose proof Enow as Enow'. injection Enow' as <- <-. cbn beta iota.
  destruct (ready_step id from now w2 _ _ (tail_safe_now _ _) Hr2 Enow) as (Hr3 & _ & _).
  set (w3 := MkWorld _ _ _ _ _ _ _) in *.
  unfold mbind at 1, M_bind at 1, try_ at 1.
  destruct (on_db _ w3) as [rc w4] eqn:Ec. cbn beta iota.
  apply commit_step in Ec as [Hint4 Hc]; [|done|simpl; lia|].
  2: { simpl. rewrite Hcont. apply slice_app; [lia| |lia]. rewrite Hbytes. f_equal.
       pose proof (f_equal (take (Z.to_nat from)) Hbytes) as Hpre.
       rewrite take_take, take_app_le, take_take in Hpre by (rewrite length_take; lia).
       rewrite !Nat.min_l in Hpre by lia. done. }
  change (w_db w3) with (w_db w2) in Hc. change (w_interfere w3) with (w_interfere w2) in Hint4.
  destruct rc as [m|e].
  - intros [= <- <-]. simpl. destruct Hc as [? ->]. rewrite Hint4, Hl2, Hl1, Hint2, Hint. done.
  - destruct Hc as [Hr4 Hl4]. intros Hrun.
    eapply (failing_tail id from) in Hrun as (e' & -> & Hr' & Hl' & Hint'); [|auto 10 with hop..|done].
    by rewrite Hl', Hl4, Hl2, Hl1, Hint', Hint4, Hint2, Hint.
Qed.

#[global] Arguments MaximumChunkBytes : simpl never.

Lemma max_chunk_pos : 0 < Z.to_nat MaximumChunkBytes.
Proof. apply (Z2Nat.inj_lt 0); done. Qed.

Lemma take_length_take {A} n (l : list A) : take (length (take n l)) l = take n l.
Proof.
  rewrite length_take. destruct (decide (n ≤ length l)); [by rewrite Nat.min_l|].
  by rewrite Nat.min_r, !take_ge by lia.
Qed.

(** The loop commits some of the chunks, in order; the count it reports is the
    number of bytes committed, and without an error it is all of them. *)
Lemma append_loop_spec fuel : ∀ id writer stream contents total0 w r w',
  length contents ≤ fuel → ready id (wr_offset writer) w →
  append_loop fuel id writer stream contents total0 w = (r, w') →
  ∃ n err writer', r = Ok (total0 + n, err, writer') ∧ n ≤ length contents ∧
    w_interfere w' = w_interfere w ∧ ready id (wr_offset writer') w' ∧
    (err = None → n = length contents) ∧
    ∃ cs, concat cs = take n contents ∧ Forall (λ c, 0 < length c ≤ Z.to_nat MaximumChunkBytes) cs ∧
      log_of id (w_db w') = log_of id (w_db w) ++ map (pair stream) cs.
Proof.
  pose proof max_chunk_pos as Hmax.
  induction fuel as [|fuel IH]; intros id writer stream [|c contents] total0 w r w' Hfuel Hr Hrun.
  1,3: injection Hrun as <- <-; exists 0, None, writer; rewrite Nat.add_0_r; split_and!; try done;
    exists []; by rewrite app_nil_r.
  { simpl in Hfuel. lia. }
  cbn [append_loop] in Hrun. unfold mbind, M_bind, try_ in Hrun.
  set (chunk := take (Z.to_nat MaximumChunkBytes) (c :: contents)) in *.
  assert (0 < length chunk ≤ Z.to_nat MaximumChunkBytes) as Hchunk.
  { unfold chunk. rewrite length_take. cbn [length]. lia. }
  assert (length chunk ≤ length (c :: contents)) as Hcl by (unfold chunk; rewrite length_take; lia).
  destruct (append_chunk id writer stream chunk w) as [rc w1] eqn:Ec.
  apply (append_chunk_spec id (wr_offset writer)) in Ec as [Hint Hc]; [|done|done].
  destruct rc as [writer1|e].
  - destruct Hc as (Hr1 & _ & Hl1).
    apply IH in Hrun as (n & err & writer' & -> & Hn & Hint' & Hr' & Hnone & cs & Hcs & Hall & Hl'); [| |done].
    2: { rewrite length_drop. cbn [length] in *. lia. }
    rewrite length_drop in Hn, Hnone. exists (length chunk + n), err, writer'.
    split_and!; [by rewrite Nat.add_assoc|lia|congruence|done|intros E; specialize (Hnone E); lia|].
    exists (chunk :: cs). split_and!; [|by constructor|].
    + cbn [concat]. rewrite Hcs, <-take_take_drop. f_equal. symmetry. apply take_length_take.
    + by rewrite Hl', Hl1, <-app_assoc.
  - injection Hrun as <- <-. destruct Hc as [Hr1 Hl1]. exists 0, (Some e), writer. rewrite Nat.add_0_r.
    split_and!; try done; [lia|]. exists []. by rewrite app_nil_r.
Qed.

(** *** Recovery *)

Lemma tail_safe_query {A} id from (t : Tx Disk A) :
  (∀ k a k', t k = Ok (a, k') → disk_db k' = disk_db k ∧ file_of k' = file_of k) →
  tail_safe id from (atomically t).
Proof.
  intros Ht. apply tail_safe_atomically. intros k a k' Hi _ Hk.
  destruct (Ht _ _ _ Hk) as [Hdb Hf]. apply intact_refl in Hi. unfold same_prefix in *. by rewrite Hdb, Hf.
Qed.

Lemma cursor_ok id d c d' :
  Log_Cursor id d = Ok (c, d') ↔
  d' = d ∧ ID_Valid id = true ∧ ∃ ex, job_executions d !! id = Some ex ∧
    c = MkCursor (ex_log_bytes ex) (ex_next_sequence ex).
Proof.
  unfold Log_Cursor. split.
  - intros Hc. invert_tx Hc. destruct (job_executions d !! id) as [ex|] eqn:Hex; [|done]. invert_tx Hc. eauto.
  - intros (-> & Hid & ex & Hex & ->). unfold mbind, Tx_bind, tx_lift, tx_read. rewrite Hid. simpl. by rewrite Hex.
Qed.

(** The cursor a writer starts from is the end of the index. *)
Lemma cursor_step id from w r w' :
  ready id from w → on_db (Log_Cursor id) w = (r, w') →
  ready id from w' ∧ log_of id (w_db w') = log_of id (w_db w) ∧ w_interfere w' = w_interfere w ∧
  ∀ c, r = Ok c → CursorOffset c = from.
Proof.
  intros Hr Hrun. assert (Hrun' := Hrun).
  apply (ready_step id from) in Hrun' as (Hr' & Hl & Hint); [| |done].
  2: { apply tail_safe_query. intros k a k'. destruct (Log_Cursor id (disk_db k)) as [[c d']|] eqn:Ec; [|done].
       apply cursor_ok in Ec as (-> & _). by intros [= <- <-]. }
  split_and!; auto. intros c ->. apply atomically_cases in Hrun as [(e & [=] & _)|(a & k' & [= <-] & Hk & ->)].
  destruct (Log_Cursor _ _) as [[c' d']|] eqn:Ec; [|done]. injection Hk as -> <-.
  apply cursor_ok in Ec as (-> & _ & ex & Hex & ->). destruct Hr' as (_ & (ex' & Hex' & _ & Hb & _) & <-).
  simpl in *. by simplify_eq.
Qed.

Lemma tail_safe_directory id from : tail_safe id from EnsurePrivateDirectory.
Proof. apply tail_safe_query. intros k a k' [= <- <-]. done. Qed.

Lemma tail_safe_inspect id from : tail_safe id from inspect_log_file.
Proof.
  apply tail_safe_query. intros k a k' Hk.
  destruct (disk_file k) as [f|]; [destruct (private f); [|done]|]; by injection Hk as <- <-.
Qed.

Lemma tail_safe_open id from : tail_safe id from OpenFile.
Proof.
  apply tail_safe_query. intros k a k' [= <- <-]. unfold file_of.
  by destruct (disk_file k) eqn:E; simpl; rewrite ?E.
Qed.

Lemma tail_safe_stat id from : tail_safe id from Stat_Size.
Proof.
  apply tail_safe_query. intros k a k' Hk. unfold file_of.
  destruct (disk_file k) as [f|] eqn:E; [|done]. by injection Hk as <- <-.
Qed.

#[local] Hint Resolve tail_safe_directory tail_safe_inspect tail_safe_open tail_safe_stat : hop.

(** A computation that can return only [x]. *)
Definition only {A} (x : A) (m : M Disk A) : Prop := ∀ w y w', m w = (Ok y, w') → y = x.

Lemma only_ret {A} (x : A) : only x (mret x).
Proof. by intros w y w' [= <- <-]. Qed.

Lemma only_bind {A B} (x : B) (m : M Disk A) (f : A → M Disk B) : (∀ a, only x (f a)) → only x (m ≫= f).
Proof. intros Hf w y w'. unfold mbind, M_bind. destruct (m w) as [[a|e] w1]; [apply Hf|done]. Qed.

(** Opening a writer repairs at most the unindexed tail and starts at the end of
    the index. *)
Lemma open_writer_spec id from w r w' :
  ready id from w → OpenWriter id w = (r, w') →
  ready id from w' ∧ log_of id (w_db w') = log_of id (w_db w) ∧
  ∀ writer, r = Ok writer → writer = MkWriter from false.
Proof.
  intros Hr. unfold OpenWriter. unfold mbind at 1, M_bind at 1.
  destruct (on_db _ w) as [[c|e] w1] eqn:Ec; apply (cursor_step id from) in Ec as (Hr1 & Hl1 & _ & Hc); try done.
  2: { intros [= <- <-]. split_and!; done. }
  rewrite (Hc c eq_refl). intros Hrun.
  assert (∀ size, tail_safe id from (if (from <? size)%Z then _ ← Truncate from; Sync else mret tt)).
  { intros size. destruct (_ <? _)%Z; auto with hop. }
  assert (Hrun' := Hrun). eapply (ready_step id from) in Hrun' as (Hr' & Hl' & _); [|auto 20 with hop|done].
  rewrite Hl', Hl1. split_and!; try done. intros writer ->.
  refine (only_bind _ _ _ _ _ _ _ Hrun). intros _.
  repeat (apply only_bind; intros ?). apply only_ret.
Qed.

(** The invariant of the life of a log: it is intact, and an open writer is at its end. *)
Definition tracked (id : string) (s : Disk * option Writer) : Prop :=
  log_intact id s.1 ∧ ∀ writer, s.2 = Some writer → wr_offset writer = log_bytes id s.1.

Lemma log_step_tracked id s s' : log_step id s s' → tracked id s → tracked id s' ∧ log_of id s.1 `prefix_of` log_of id s'.1.
Proof.
  intros Hstep [Hi Hoff].
  destruct Hstep as [w r w' Hw Hrun|writer stream chunk w r w' Hw Hrun|writer w r w' Hw Hrun|k writer|k k' writer Hsame]; simpl in *.
  - apply (open_writer_spec id (log_bytes id (w_db w))) in Hrun as ((_ & Hi' & Hb) & -> & Hwr); [|by split_and!].
    split; [split; [done|]|done]. destruct r as [writer|e]; [|done]. intros ? [= <-]. simpl. by rewrite (Hwr _ eq_refl), Hb.
  - specialize (Hoff _ eq_refl). apply (append_chunk_spec id (wr_offset writer)) in Hrun as [_ Hr]; [|by split_and!|done].
    destruct r as [writer'|e]; [destruct Hr as ((_ & Hi' & Hb) & _ & ->)|destruct Hr as ((_ & Hi' & Hb) & ->)].
    + split; [split; [done|]|by apply prefix_app_r]. by intros ? [= <-].
    + split; [split; [done|]|done]. by intros ? [= <-].
  - assert (tail_safe id (log_bytes id (w_db w)) (Writer_Close writer)) as Hs.
    { unfold Writer_Close. destruct (wr_closed writer); auto with hop. }
    destruct (ready_step _ _ _ _ _ _ Hs (conj Hw (conj Hi eq_refl)) Hrun) as ((_ & Hi' & _) & -> & _). by split.
  - by split.
  - apply same_log_prefix in Hsame; [|done]. destruct (same_prefix_log _ _ _ Hi Hsame) as [Hi' ->].
    split; [split; [done|]|done]. intros writer' E. cbn [fst]. rewrite (same_prefix_bytes _ _ _ Hsame). by apply Hoff.
Qed.

Lemma log_steps_tracked id s s' : rtc (log_step id) s s' → tracked id s → tracked id s' ∧ log_of id s.1 `prefix_of` log_of id s'.1.
Proof.
  induction 1 as [s|s s1 s' Hstep _ IH]; intros Hs; [done|]. destruct (log_step_tracked _ _ _ Hstep Hs) as [Hs1 H1].
  destruct (IH Hs1) as [Hs' H2]. split; [done|by trans (log_of id s1.1)].
Qed.

(** [append] is such a life. *)
Lemma append_turns id stream contents : ∀ fuel writer total0 w r w', ready id (wr_offset writer) w →
  append_loop fuel id writer stream contents total0 w = (r, w') →
  ∃ n err writer', r = Ok (n, err, writer') ∧ rtc (log_step id) (w_db w, Some writer) (w_db w', Some writer').
Proof.
  intros fuel. revert contents. induction fuel as [|fuel IH]; intros [|c contents] writer total0 w r w' Hr Hrun.
  1-3: injection Hrun as <- <-; by eexists _, _, _.
  cbn [append_loop] in Hrun. unfold mbind, M_bind, try_ in Hrun. destruct (append_chunk id writer stream _ w) as [rc w1] eqn:Ec.
  assert (log_step id (w_db w, Some writer) (w_db w1, Some (match rc with Ok writer' => writer' | Err _ => writer end))) as Hstep
    by (eapply log_appends, Ec; apply Hr).
  apply (append_chunk_spec id (wr_offset writer)) in Ec as [_ Hc]; [|done|done]. destruct rc as [writer1|e].
  - destruct Hc as (Hr1 & _). apply IH in Hrun as (n & err & writer' & -> & Hrest); [|done].
    eexists _, _, _. split; [done|by eapply rtc_l].
  - injection Hrun as <- <-. eexists _, _, _. split; [done|by apply rtc_once].
Qed.

(** The bytes of the log are the beginning of the file. *)
Lemma tiled_concat s o rows c : tiled s o rows → (0 ≤ o)%Z → (o + total rows ≤ Z.of_nat (length c))%Z →
  concat (map (λ r, slice (lg_offset r) (lg_length r) c) rows) = slice o (total rows) c.
Proof.
  revert s o. induction rows as [|r rows IH]; intros s o; cbn [tiled total fold_right map concat]; [done|]. fold (total rows).
  intros (_ & Hro & Hl & _ & _ & Ht) Ho Hlen. pose proof (total_nonneg _ _ _ Ht). rewrite (IH _ _ Ht) by lia. rewrite Hro. unfold slice.
  rewrite !Z2Nat.inj_add by lia. rewrite <-drop_drop, <-take_take_drop. done.
Qed.

Lemma log_concat id k : log_intact id k → concat (map snd (log_of id k)) = take (Z.to_nat (log_bytes id k)) (content (file_of k)).
Proof.
  intros (ex & _ & Ht & _ & _ & _ & Hle & Hs). unfold log_of. rewrite map_map. cbn [snd].
  rewrite (tiled_concat _ _ _ _ Ht); [done|lia|]. unfold log_bytes in *. lia.
Qed.

Lemma log_bytes_nonneg id k : log_intact id k → (0 ≤ log_bytes id k)%Z.
Proof. intros (ex & _ & Ht & _). by eapply total_nonneg. Qed.

(** What an earlier state of the log had indexed is still the beginning of the file. *)
Lemma grown_prefix id k1 k2 : log_intact id k1 → log_intact id k2 → log_of id k1 `prefix_of` log_of id k2 →
  (log_bytes id k1 ≤ log_bytes id k2)%Z ∧
  take (Z.to_nat (log_bytes id k1)) (content (file_of k2)) = take (Z.to_nat (log_bytes id k1)) (content (file_of k1)).
Proof.
  intros H1 H2 [l Hl]. pose proof (log_concat _ _ H1) as C1. pose proof (log_concat _ _ H2) as C2.
  pose proof (log_bytes_nonneg _ _ H1) as P1. pose proof (log_bytes_nonneg _ _ H2) as P2.
  rewrite Hl, map_app, concat_app, C1 in C2.
  destruct H1 as (_ & _ & _ & _ & _ & _ & Hle1 & Hs1), H2 as (_ & _ & _ & _ & _ & _ & Hle2 & Hs2).
  assert (log_bytes id k1 ≤ log_bytes id k2)%Z as Hle.
  { apply (f_equal length) in C2. rewrite length_app, !length_take in C2. lia. }
  split; [done|]. apply (f_equal (take (Z.to_nat (log_bytes id k1)))) in C2.
  rewrite take_app_le, !take_take in C2 by (rewrite length_take; lia).
  by rewrite !Nat.min_l in C2 by lia.
Qed.

Lemma empty_log id k : log_intact id k → log_of id k = [] → log_bytes id k = 0%Z.
Proof.
  intros Hi E. pose proof (log_bytes_nonneg _ _ Hi). pose proof (log_concat _ _ Hi) as C. rewrite E in C.
  destruct Hi as (_ & _ & _ & _ & _ & _ & Hle & Hs). apply (f_equal length) in C. rewrite length_take in C. simpl in C. lia.
Qed.

(** A power loss that leaves the file keeps the log of the index that is left. *)
Lemma power_loss_intact id k1 k2 k' :
  log_intact id k1 → log_intact id k2 → log_of id k1 `prefix_of` log_of id k2 → power_loss id k1 k2 k' →
  is_Some (disk_file k') ∨ log_of id k1 = [] → log_intact id k' ∧ log_of id k' = log_of id k1.
Proof.
  intros H1 H2 Hpre [[Hr Hc] Hf] Hfile. apply same_prefix_log; [done|].
  destruct (grown_prefix _ _ _ H1 H2 Hpre) as [Hle Hcont]. pose proof (log_bytes_nonneg _ _ H1) as P1.
  assert (Hempty := empty_log id k1 H1). clear H1. destruct H2 as (_ & _ & _ & _ & _ & _ & Hle2 & Hs2).
  split; [done|]. split; [done|]. unfold file_of in *.
  destruct (disk_file k') as [f'|]; simpl.
  - destruct (disk_file k2) as [f|]; [|done]. destruct Hf as (Hpf & Hsf & _). simpl in *. rewrite <-Hcont.
    apply (f_equal (take (Z.to_nat (log_bytes id k1)))) in Hpf. rewrite !take_take, Nat.min_l in Hpf by lia. split_and!; [done|lia|lia].
  - destruct Hfile as [[? [=]]|E]. rewrite (Hempty E). split_and!; [done|lia|lia].
Qed.

(** The index has [n] bytes and its file is gone or empty. *)
Definition bereft (id : string) (n : Z) (k : Disk) : Prop :=
  content (file_of k) = [] ∧ ∃ ex, job_executions (disk_db k) !! id = Some ex ∧ ex_log_bytes ex = n.

Lemma same_log_stable id n w : sole_writer id w → stable (bereft id n) w.
Proof.
  intros Hw m k (Hc & ex & Hex & Hn). destruct (Hw m k) as (_ & Hf & Hk). destruct (Hk _ Hex) as (ex' & Hex' & Hb & _).
  unfold bereft, file_of. rewrite Hf. split; [done|]. exists ex'. by rewrite Hb.
Qed.

Lemma bereft_query {A} id n (t : Tx Disk A) :
  (∀ k a k', t k = Ok (a, k') → disk_db k' = disk_db k ∧ file_of k' = file_of k) → keeps (bereft id n) (atomically t).
Proof.
  intros Ht. apply atomically_keeps. intros k a k' Hk E. destruct (Ht _ _ _ E) as [Hd Hf]. unfold bereft in *. by rewrite Hd, Hf.
Qed.

Lemma on_db_query {A} (t : Tx Database A) : (∀ d a d', t d = Ok (a, d') → d' = d) → ∀ k a k',
  match t (disk_db k) with Ok (a0, d') => Ok (a0, MkDisk d' (disk_file k)) | Err e => Err e end = Ok (a, k') →
  disk_db k' = disk_db k ∧ file_of k' = file_of k.
Proof. intros Ht k a k'. destruct (t (disk_db k)) as [[a0 d']|e] eqn:E; [|done]. intros [= <- <-]. by rewrite (Ht _ _ _ E). Qed.

Lemma log_list_query id after_ limit d a d' : Log_List id after_ limit d = Ok (a, d') → d' = d.
Proof. unfold Log_List. intros E. by invert_tx E. Qed.
Lemma log_cursor_query id d a d' : Log_Cursor id d = Ok (a, d') → d' = d.
Proof. by intros [? _]%cursor_ok. Qed.

(** A computation that fails and leaves the index without its file. *)
Definition refuses {A} (id : string) (n : Z) (m : M Disk A) : Prop :=
  ∀ w r w', sole_writer id w → bereft id n (w_db w) → m w = (r, w') → (∃ e, r = Err e) ∧ bereft id n (w_db w').

Lemma refuses_bind {A B} id n (m : M Disk A) (f : A → M Disk B) : keeps (bereft id n) m →
  (∀ w a w', sole_writer id w → bereft id n (w_db w) → m w = (Ok a, w') → refuses id n (f a)) → refuses id n (m ≫= f).
Proof.
  intros Hm Hf w r w' Hw Hb. unfold mbind, M_bind. destruct (m w) as [ra w1] eqn:Em.
  destruct (Hm w ra w1) as [Hb1 Hint]; [by apply same_log_stable|done|done|].
  destruct ra as [a|e]; [|intros [= <- <-]; eauto].
  eapply Hf; [exact Hw|exact Hb|exact Em| |done]. intros m0 k. rewrite Hint. apply Hw.
Qed.

(** On such a disk no writer can be opened ... *)
Lemma open_refused id n : (0 < n)%Z → refuses id n (OpenWriter id).
Proof.
  intros Hn. unfold OpenWriter.
  apply refuses_bind; [by apply bereft_query, on_db_query, log_cursor_query|]. intros w c w' Hw Hb Hc.
  assert (CursorOffset c = n) as ->.
  { apply atomically_cases in Hc as [(e & [=] & _)|(a & k' & [= <-] & Hk & _)].
    destruct (Log_Cursor _ _) as [[c' d']|] eqn:Ec; [|done]. injection Hk as -> _. apply cursor_ok in Ec as (_ & _ & ex & Hex & ->).
    apply (same_log_stable _ _ _ Hw (w_access w)) in Hb as (_ & ex' & Hex' & <-). simpl. unfold next_db in Hex. congruence. }
  apply refuses_bind; [apply lift_keeps|]. intros _ _ _ _ _ _.
  apply refuses_bind; [by apply bereft_query; intros k a k' [= <- <-]|]. intros _ _ _ _ _ _.
  apply refuses_bind; [apply bereft_query; intros k a k' Hk; repeat case_match; by simplify_eq|]. intros _ _ _ _ _ _.
  apply refuses_bind; [apply bereft_query; intros k a k' [= <- <-]; unfold file_of; by destruct (disk_file k) eqn:E; simpl; rewrite ?E|]. intros _ _ _ _ _ _.
  apply refuses_bind; [apply bereft_query; intros k a k' Hk; unfold file_of; destruct (disk_file k) as [f|] eqn:E; by simplify_eq|].
  intros w1 size w2 Hw1 Hb1 Hs. assert (size = 0%Z) as ->.
  { apply atomically_cases in Hs as [(e & [=] & _)|(a & k' & [= <-] & Hk & _)].
    apply (same_log_stable _ _ _ Hw1 (w_access w1)) in Hb1 as [Hc1 _]. unfold next_db, file_of in *.
    destruct (disk_file _) as [f|]; [|done]. simpl in Hc1. rewrite Hc1 in Hk. by injection Hk as <- _. }
  intros w3 r w4 _ Hb3. unfold mbind, M_bind, lift, reject_if. rewrite (proj2 (Z.ltb_lt _ _)) by done. intros [= <- <-]. eauto.
Qed.

(** ... and nothing can be read: no record is ever returned with other bytes. *)
Lemma read_records_refused id n item items : refuses id n (read_records (item :: items)).
Proof.
  cbn [read_records]. apply refuses_bind; [apply lift_keeps|]. intros w0 u w0' _ _ Hv.
  apply refuses_bind; [apply try_keeps, bereft_query; intros k a k' Hk; destruct (disk_file k); [|done]; cbv zeta in Hk; case_bool_decide; [|done]; by injection Hk as _ <-|].
  intros w data w' Hw Hb Hd. assert (∃ e, data = Err e) as [e ->].
  { unfold try_ in Hd. destruct (ReadAt _ _ w) as [[bs|e] w1] eqn:Er; injection Hd as <- <-; [|eauto]. exfalso.
    apply atomically_cases in Er as [(e & [=] & _)|(a & k' & _ & Hk & _)].
    apply (same_log_stable _ _ _ Hw (w_access w)) in Hb as [Hc _]. unfold next_db, file_of in *.
    destruct (disk_file _) as [f|]; [|done]. simpl in Hc. rewrite Hc, drop_nil, take_nil in Hk. simpl in Hk.
    assert (Metadata_Validate item = Ok tt) as Hvalid by (unfold lift in Hv; injection Hv as E _; rewrite E; by destruct u).
    unfold Metadata_Validate in Hvalid. invert_ok Hvalid. reflect_bools. case_bool_decide as E; [|done]. lia. }
  intros w1 r w2 _ Hb1 [= <- <-]. eauto.
Qed.

Lemma read_refused id n after_ limit w page w' :
  sole_writer id w → bereft id n (w_db w) → Log_Read id after_ limit w = (Ok page, w') → Records page = [].
Proof.
  intros Hw Hb. unfold Log_Read. cbv zeta. intros (u & w1 & Hl & Hrun)%m_bind_ok. injection Hl as _ <-.
  apply m_bind_ok in Hrun as (listed & w2 & Hlist & Hrun).
  assert (keeps (bereft id n) (on_db (Log_List id after_ (if (limit =? 0)%Z then DefaultPageLimit else limit)))) as Hk
    by (apply bereft_query, on_db_query, log_list_query).
  destruct (Hk _ _ _ (same_log_stable _ _ _ Hw) Hb Hlist) as [Hb2 Hint].
  destruct listed as [[|item items] more]; [by injection Hrun as <- _|]. cbn [fst snd length] in Hrun.
  assert (refuses id n (_ ← lift (reject_if (negb (ID_Valid id)) [JobErrInvalidID]);
    _ ← atomically (fun k => match disk_file k with Some _ => Ok (tt, k) | None => Err [DriverError] end);
    records ← read_records (item :: items); mret (MkPage records more))) as Hr.
  { apply refuses_bind; [apply lift_keeps|]. intros _ _ _ _ _ _.
    apply refuses_bind; [apply bereft_query; intros k a k' E; repeat case_match; by simplify_eq|]. intros _ _ _ _ _ _.
    intros w3 r w4 Hw3 Hb3. unfold mbind, M_bind. destruct (read_records (item :: items) w3) as [rr w5] eqn:Er.
    destruct (read_records_refused _ _ _ _ _ _ _ Hw3 Hb3 Er) as [[e ->] Hb5]. intros [= <- <-]. eauto. }
  destruct (Hr w2 (Ok page) w') as [[e [=]] _]; [|done|done]. intros m0 k. rewrite Hint. apply Hw.
Qed.

(** A power loss that takes the file away. *)
Lemma power_loss_bereft id k1 k2 k' : log_intact id k1 → power_loss id k1 k2 k' → disk_file k' = None → bereft id (log_bytes id k1) k'.
Proof.
  intros (ex & Hex & _ & Hb & _) [[_ Hc] _] Hf. unfold bereft, file_of. rewrite Hf. split; [done|].
  destruct (Hc _ Hex) as (ex' & Hex' & Hb' & _). exists ex'. by rewrite Hb', Hb.
Qed.

(** A log that is intact is opened when nothing fails. *)
Lemma open_succeeds id w : ID_Valid id = true → log_intact id (w_db w) → private (file_of (w_db w)) = true → calm w →
  ∃ writer w', OpenWriter id w = (Ok writer, w').
Proof.
  intros Hid Hi Hp Hw. pose proof (log_bytes_nonneg _ _ Hi) as Hpos. destruct Hi as (ex & Hex & _ & Hb & _ & _ & Hle & Hs). unfold OpenWriter, mbind, M_bind, on_db.
  rewrite calm_atomically by done. rewrite (proj2 (cursor_ok _ _ _ _)) by eauto. cbn beta iota. rewrite Hid. unfold lift at 1. cbn [negb reject_if].
  unfold EnsurePrivateDirectory, inspect_log_file, OpenFile, Stat_Size, on_file.
  rewrite !calm_atomically by auto with hop. cbn [w_db accessed disk_file disk_db CursorOffset].
  unfold file_of in *. destruct (disk_file (w_db w)) as [f|]; simpl in Hp, Hle, Hs.
  - rewrite Hp. cbn [negb]. rewrite !calm_atomically by auto 10 with hop. cbn [w_db accessed disk_file disk_db content].
    unfold lift, reject_if. rewrite (proj2 (Z.ltb_ge _ _)) by lia. destruct (_ <? _)%Z.
    + unfold Truncate, Sync, on_file. rewrite !calm_atomically by auto 10 with hop. simpl. rewrite !calm_atomically by auto 10 with hop. by eexists _, _.
    + by eexists _, _.
  - rewrite !calm_atomically by auto 10 with hop. cbn [w_db accessed disk_file disk_db content].
    unfold lift, reject_if. rewrite !(proj2 (Z.ltb_ge _ _)) by (simpl; lia). by eexists _, _.
Qed.

(** *** Reading *)

Lemma tiled_filter after_ s o rows :
  tiled s o rows →
  filter (λ r, (after_ < lg_sequence r)%Z) rows = drop (Z.to_nat (after_ - s + 1)) rows.
Proof.
  revert s o. induction rows as [|r rows IH]; intros s o; [by rewrite drop_nil|].
  intros (Hs & _ & _ & _ & _ & Ht). rewrite filter_cons, (IH _ _ Ht), Hs. case_decide as Hc.
  - by replace (Z.to_nat (after_ - s + 1)) with 0 by lia; replace (Z.to_nat (after_ - (s + 1) + 1)) with 0 by lia.
  - by replace (Z.to_nat (after_ - s + 1)) with (S (Z.to_nat (after_ - (s + 1) + 1))) by lia.
Qed.

Lemma tiled_sorted s o rows :
  tiled s o rows → StronglySorted sequence_le rows ∧ (∀ r, r ∈ rows → (s ≤ lg_sequence r)%Z) ∧
  ∀ r1 r2, r1 ∈ rows → r2 ∈ rows → lg_sequence r1 = lg_sequence r2 → r1 = r2.
Proof.
  revert s o. induction rows as [|r rows IH]; intros s o.
  { intros _. split; [constructor|]. set_solver. }
  intros (Hs & _ & _ & _ & _ & Ht). destruct (IH _ _ Ht) as (Hsort & Hge & Huniq). split_and!.
  - constructor; [done|]. apply Forall_forall. intros r' Hr'. specialize (Hge _ Hr'). unfold sequence_le. lia.
  - intros r' [->|Hr']%elem_of_cons; [lia|]. specialize (Hge _ Hr'). lia.
  - intros r1 r2 [->|H1]%elem_of_cons [->|H2]%elem_of_cons; [done| | |by apply Huniq];
      intros E; [specialize (Hge _ H2)|specialize (Hge _ H1)]; lia.
Qed.

#[global] Instance sequence_le_trans : Transitive sequence_le.
Proof. intros a b c. unfold sequence_le. lia. Qed.

#[global] Instance sequence_le_total : Total sequence_le.
Proof. intros a b. unfold sequence_le. lia. Qed.

Lemma rows_after_intact id after_ k :
  log_intact id k → (0 ≤ after_)%Z →
  rows_after id after_ (disk_db k) = drop (Z.to_nat after_) (job_rows id (disk_db k)).
Proof.
  intros (ex & _ & Ht & _) Ha. unfold rows_after.
  assert (filter (λ r, lg_job_id r = id ∧ (after_ < lg_sequence r)%Z) (job_log_records (disk_db k))
    = drop (Z.to_nat after_) (job_rows id (disk_db k))) as ->.
  { pose proof (tiled_filter after_ _ _ _ Ht) as Hf. replace (after_ - 1 + 1)%Z with after_ in Hf by lia.
    rewrite <-Hf. unfold job_rows. rewrite list_filter_filter. apply list_filter_iff. intros r. tauto. }
  rewrite <-(take_drop (Z.to_nat after_) (job_rows _ _)) in Ht. apply tiled_app in Ht as [_ Ht].
  destruct (tiled_sorted _ _ _ Ht) as (Hsort & _ & Huniq).
  apply (Sorted_unique_strong sequence_le).
  - intros x1 x2 H1 H2. rewrite merge_sort_Permutation in H1. unfold sequence_le. intros. apply Huniq; [done..|lia].
  - apply (Sorted_merge_sort _).
  - by apply StronglySorted_Sorted.
  - apply merge_sort_Permutation.
Qed.

Definition metadata_of (id : string) (r : LogRow) : Metadata :=
  MkMetadata id (lg_sequence r) (stream_of_string (lg_stream r)) (lg_offset r) (lg_length r) (lg_at_ns r).

Definition record_of (data : bytes) (r : LogRow) : LogRecord :=
  MkLogRecord (lg_sequence r) (stream_of_string (lg_stream r)) (slice (lg_offset r) (lg_length r) data)
    (lg_at_ns r).

(** A row that [List] accepts and whose bytes are in the file. *)
Definition readable (id : string) (data : bytes) (r : LogRow) : Prop :=
  Metadata_Validate (metadata_of id r) = Ok tt ∧ (0 ≤ lg_offset r)%Z ∧ (0 < lg_length r)%Z ∧
  (lg_offset r + lg_length r ≤ Z.of_nat (length data))%Z.

Lemma tiled_length s o rows : tiled s o rows → (Z.of_nat (length rows) ≤ total rows)%Z.
Proof.
  revert s o. induction rows as [|r rows IH]; intros s o; [done|].
  intros (_ & _ & ? & _ & _ & Ht). specialize (IH _ _ Ht). simpl in *. lia.
Qed.

Lemma tiled_valid id s o rows r :
  ID_Valid id = true → (0 < s)%Z → (0 ≤ o)%Z → (s + Z.of_nat (length rows) ≤ 2 ^ 63)%Z → tiled s o rows → r ∈ rows →
  Metadata_Validate (metadata_of id r) = Ok tt.
Proof.
  intros Hid. revert s o. induction rows as [|q rows IH]; intros s o Hs Ho Hlen; [by intros _ ?%elem_of_nil|].
  intros (Hq & Hqo & Hl & Hk & Hat & Ht) [->|Hr]%elem_of_cons.
  - unfold Metadata_Validate, MaxInt64 in *. simpl in *. rewrite Hid, Hk, Hq, Hqo, int64_not_zero by done.
    rewrite (proj2 (Z.eqb_neq _ _)), !(proj2 (Z.ltb_ge _ _)), (proj2 (Z.leb_gt _ _)) by lia. done.
  - simpl in Hlen. apply (IH (s + 1)%Z (o + lg_length q)%Z); [lia|lia|lia|done|done].
Qed.

Lemma intact_readable id k r :
  ID_Valid id = true → log_intact id k → r ∈ job_rows id (disk_db k) → readable id (content (file_of k)) r.
Proof.
  intros Hid (ex & _ & Ht & _ & _ & Hmax & Hle & Hs) Hr.
  pose proof (tiled_length _ _ _ Ht) as Hlen. destruct (tiled_within _ _ _ _ Ht Hr) as (? & ? & ?).
  unfold log_bytes, MaxInt64 in *. split_and!; [|lia..].
  eapply (tiled_valid id 1 0); eauto; lia.
Qed.

Lemma scan_metadata_ok id data rows :
  Forall (readable id data) rows → scan_metadata id rows = Ok (map (metadata_of id) rows).
Proof.
  induction 1 as [|r rows (Hv & _) _ IH]; [done|]. cbn [scan_metadata map].
  change (MkMetadata id _ _ _ _ _) with (metadata_of id r).
  unfold mbind, result_bind. by rewrite Hv, IH.
Qed.

Lemma read_records_ok id rows w :
  calm w → Forall (readable id (content (file_of (w_db w)))) rows → is_Some (disk_file (w_db w)) →
  ∃ w', read_records (map (metadata_of id) rows) w = (Ok (map (record_of (content (file_of (w_db w)))) rows), w')
    ∧ w_db w' = w_db w.
Proof.
  intros Hw Hall [f Hf]. revert w Hw Hall Hf. induction rows as [|r rows IH]; intros w Hw Hall Hf; [by exists w|].
  apply Forall_cons in Hall as [(Hv & Ho & Hl & Hle) Hall]. cbn [map read_records].
  unfold mbind, M_bind, lift at 1. rewrite Hv. cbn beta iota.
  unfold try_ at 1, ReadAt at 1. rewrite calm_atomically by done. rewrite Hf.
  unfold file_of in *. rewrite Hf in Hle, Hall. simpl in Hle, Hall. cbn [DataLength DataOffset metadata_of].
  rewrite bool_decide_eq_true_2 by (rewrite length_take, length_drop; lia). cbn beta iota.
  destruct (IH (accessed w (w_db w))) as (w' & Hrun & Hdb); [auto with hop|simpl; by rewrite Hf|done|].
  simpl in Hrun, Hdb. rewrite Hf in Hrun |- *. rewrite Hrun. by exists w'.
Qed.

Lemma list_ok id k after_ limit :
  ID_Valid id = true → log_intact id k → (0 ≤ after_ ≤ MaxInt64)%Z → (0 < limit ≤ MaximumPageLimit)%Z →
  let rest := drop (Z.to_nat after_) (job_rows id (disk_db k)) in
  Log_List id after_ limit (disk_db k)
  = Ok ((map (metadata_of id) (take (Z.to_nat limit) rest), bool_decide (limit < Z.of_nat (length rest))%Z), disk_db k).
Proof.
  intros Hid Hi Ha Hl rest.
  assert (Forall (readable id (content (file_of k))) (take (Z.to_nat (limit + 1)) rest)) as Hread.
  { apply Forall_forall. intros r Hr. apply intact_readable; [done..|].
    apply list_elem_of_lookup in Hr as [i Hi']. apply lookup_take_Some in Hi' as [Hi' _].
    unfold rest in Hi'. rewrite lookup_drop in Hi'. by eapply list_elem_of_lookup_2. }
  assert (Hi' := Hi). destruct Hi' as (ex & Hex & _).
  unfold Log_List, mbind, Tx_bind, tx_lift, tx_read, reject_if. rewrite Hid. cbn [negb].
  rewrite (proj2 (Z.leb_gt _ _)), (proj2 (Z.ltb_ge _ _)) by lia. cbn [orb]. rewrite Hex. cbn [is_some negb].
  rewrite (proj2 (Z.ltb_ge _ _)) by lia. rewrite rows_after_intact by (done || lia). fold rest.
  rewrite (scan_metadata_ok _ _ _ Hread). unfold mret, Tx_ret. rewrite length_map, length_take.
  case_bool_decide as Hc.
  - rewrite (proj2 (Z.ltb_lt _ _)) by lia. rewrite firstn_map, take_take. do 5 f_equal. lia.
  - rewrite (proj2 (Z.ltb_ge _ _)) by lia. rewrite !take_ge by lia. done.
Qed.

Lemma intact_file id k : log_intact id k → job_rows id (disk_db k) ≠ [] → is_Some (disk_file k).
Proof.
  intros (ex & _ & Ht & _ & _ & _ & Hle & _) Hne. apply tiled_length in Ht. unfold log_bytes, file_of in *.
  destruct (disk_file k); [by eexists|]. simpl in Hle. destruct (job_rows _ _); [done|]. simpl in *. lia.
Qed.

(** ** Properties *)

(** C2 Appending refines the abstract log.  Whatever write, sync, commit, truncate or
    database step fails on the way, and whatever other processes do to the rest
    of the database, [append] of [contents] leaves an intact log that is the old
    log followed by chunks of [stream] whose bytes are exactly the first [n] of
    [contents], where [n] is the count it returns; without an error [n] is all
    of them. *)
Theorem log_append_refines id writer stream contents w r w' :
  sole_writer id w → log_intact id (w_db w) → wr_offset writer = log_bytes id (w_db w) →
  append id writer stream contents w = (r, w') →
  ∃ n err writer', r = Ok (n, err, writer') ∧ n ≤ length contents ∧
    (err = None → n = length contents) ∧
    log_intact id (w_db w') ∧ wr_offset writer' = log_bytes id (w_db w') ∧
    ∃ cs, concat cs = take n contents ∧ Forall (λ c, 0 < length c ≤ Z.to_nat MaximumChunkBytes) cs ∧
      log_of id (w_db w') = log_of id (w_db w) ++ map (pair stream) cs.
Proof.
  intros Hw Hi Hoff. unfold append. destruct (known_stream stream); simpl; intros Hrun.
  - apply append_loop_spec in Hrun as (n & err & writer' & -> & Hn & _ & (_ & Hi' & Hb) & Hnone & Hcs);
      [|done|by split_and!].
    exists n, err, writer'. by split_and!.
  - injection Hrun as <- <-. exists 0, (Some [LogErrInvalidRecord]), writer. split_and!; try done; [lia|].
    exists []. by rewrite app_nil_r.
Qed.

(** The sample job after its claim, with no log file yet. *)
Definition sample_disk : Disk := MkDisk sample_claimed None.
Definition sample_bytes : bytes := bytes_of "hello".

Lemma sample_intact : log_intact sample_id sample_disk.
Proof. exists (claimed_row 41 sample_time). split_and!; done. Qed.

Lemma log_append_refines_witness :
  let k := MkDisk sample_claimed (Some (MkFile [] 0 true)) in
  let '(r, w') := append sample_id (MkWriter 0 false) StreamStdout sample_bytes (quiet k (λ _, sample_time)) in
  ∃ n err writer', r = Ok (n, err, writer') ∧ n ≤ 5 ∧ log_intact sample_id (w_db w').
Proof.
  intros k. destruct (append sample_id (MkWriter 0 false) StreamStdout sample_bytes
    (quiet k (λ _, sample_time))) as [r w'] eqn:E.
  destruct (log_append_refines sample_id (MkWriter 0 false) StreamStdout sample_bytes
    (quiet k (λ _, sample_time)) r w')
    as (n & err & writer' & Hr & Hn & _ & Hi & _); [| |reflexivity|exact E|].
  - intros n k0. split; [reflexivity|]. split; [reflexivity|]. eauto.
  - exists (claimed_row 41 sample_time). split_and!; done.
  - exists n, err, writer'. split_and!; [exact Hr|exact Hn|exact Hi].
Defined.

(** C31 Logs survive power losses, as far as the file system keeps their file.  From an
    intact log, let a job's log live any life (writers opened, chunks appended, writers
    closed or killed, whatever fails on the way, one writer at a time) and let the power
    fail at [s2], with the index going back to that of an earlier state [s1].  The output
    indexed then is a beginning of the output indexed at the loss.  If the file is still
    there, or nothing was indexed, the log is intact and is exactly that output, bytes
    included; reopening it, under any failures, keeps it, the writer continues at its end,
    and without failures a writer is returned.  If the file is gone with output indexed
    (its directory is never synced), nothing is made up: no writer is returned, and
    before and after that attempt a page that is read has no records. *)
Theorem log_power_loss id s0 s1 s2 k' w r w' :
  log_intact id s0.1 → s0.2 = None → rtc (log_step id) s0 s1 → rtc (log_step id) s1 s2 → power_loss id s1.1 s2.1 k' →
  w_db w = k' → sole_writer id w → OpenWriter id w = (r, w') →
  log_of id s1.1 `prefix_of` log_of id s2.1 ∧
  (is_Some (disk_file k') ∨ log_of id s1.1 = [] →
     log_intact id k' ∧ log_of id k' = log_of id s1.1 ∧ log_intact id (w_db w') ∧ log_of id (w_db w') = log_of id s1.1 ∧
     (∀ writer, r = Ok writer → wr_offset writer = log_bytes id (w_db w') ∧ wr_closed writer = false) ∧
     (ID_Valid id = true → private (file_of k') = true → calm w → ∃ writer, r = Ok writer)) ∧
  (disk_file k' = None → log_of id s1.1 ≠ [] →
     (∃ e, r = Err e) ∧
     ∀ after_ limit w2 page w3, w_db w2 = k' ∨ w_db w2 = w_db w' → sole_writer id w2 →
       Log_Read id after_ limit w2 = (Ok page, w3) → Records page = []).
Proof.
  intros Hi0 Hs0 H01 H12 Hloss Hk Hw Hrun.
  destruct (log_steps_tracked _ _ _ H01) as [T1 _]; [split; [done|by rewrite Hs0]|].
  destruct (log_steps_tracked _ _ _ H12 T1) as [[Hi2 _] Hpre]. destruct T1 as [Hi1 _]. split; [done|]. split.
  - intros Hfile. destruct (power_loss_intact _ _ _ _ Hi1 Hi2 Hpre Hloss Hfile) as [Hi' Hl]. subst k'. pose proof Hrun as Hopen.
    apply (open_writer_spec id (log_bytes id (w_db w))) in Hrun as ((_ & Hi3 & Hb) & Hl3 & Hwr); [|by split_and!].
    split_and!; [done|done|done|congruence| |].
    + intros writer E. rewrite (Hwr _ E). by split.
    + intros Hid Hp Hc. destruct (open_succeeds id w Hid Hi' Hp Hc) as (writer & w4 & E). exists writer. congruence.
  - intros Hgone Hne. assert (0 < log_bytes id s1.1)%Z as Hn.
    { pose proof (log_bytes_nonneg _ _ Hi1). destruct (decide (log_bytes id s1.1 = 0)%Z) as [E|]; [|lia]. exfalso. apply Hne. unfold log_of.
      destruct Hi1 as (ex & _ & Ht & _). apply tiled_length in Ht. unfold log_bytes in E. by destruct (job_rows id (disk_db s1.1)); [|simpl in *; lia]. }
    pose proof (power_loss_bereft _ _ _ _ Hi1 Hloss Hgone) as Hb. pose proof Hb as Hb'. rewrite <-Hk in Hb'.
    destruct (open_refused _ _ Hn _ _ _ Hw Hb' Hrun) as [He Hb3]. split; [done|].
    intros after_ limit w2 page w3 Hw2 Hsole. eapply read_refused; [done|]. destruct Hw2 as [->| ->]; done.
Qed.

(** Two chunks are appended; the power fails, the transaction of the second is lost and
    its bytes are not. *)
Definition sample_clock (n : nat) : Z := sample_time.
Definition sample_opened : Disk := w_db (OpenWriter sample_id (quiet sample_disk sample_clock)).2.
Definition sample_turn (offset : Z) (stream : Stream) (k : Disk) : result Writer * World Disk :=
  append_chunk sample_id (MkWriter offset false) stream sample_bytes (quiet k sample_clock).
Definition sample_first : Disk := w_db (sample_turn 0 StreamStdout sample_opened).2.
Definition sample_second : Disk := w_db (sample_turn 5 StreamStderr sample_first).2.

Lemma quiet_sole id k clock : sole_writer id (quiet k clock).
Proof. intros n k0. split; [done|]. split; [done|]. eauto. Qed.

Lemma sample_turn_step offset stream k writer : (sample_turn offset stream k).1 = Ok writer →
  log_step sample_id (k, Some (MkWriter offset false)) (w_db (sample_turn offset stream k).2, Some writer).
Proof.
  intros E. destruct (sample_turn offset stream k) as [r w'] eqn:Erun. simpl in E. subst r.
  apply (log_appends sample_id (MkWriter offset false) stream sample_bytes (quiet k sample_clock) (Ok writer) w'); [apply quiet_sole|exact Erun].
Qed.

Lemma sample_life : rtc (log_step sample_id) (sample_disk, None) (sample_first, Some (MkWriter 5 false)) ∧
  rtc (log_step sample_id) (sample_first, Some (MkWriter 5 false)) (sample_second, Some (MkWriter 10 false)).
Proof.
  assert (E0 : (OpenWriter sample_id (quiet sample_disk sample_clock)).1 = Ok (MkWriter 0 false)) by (vm_compute; reflexivity).
  assert (E1 : (sample_turn 0 StreamStdout sample_opened).1 = Ok (MkWriter 5 false)) by (vm_compute; reflexivity).
  assert (E2 : (sample_turn 5 StreamStderr sample_first).1 = Ok (MkWriter 10 false)) by (vm_compute; reflexivity).
  split; [|exact (rtc_once _ _ (sample_turn_step _ _ _ _ E2))].
  refine (rtc_l _ _ _ _ _ (rtc_once _ _ (sample_turn_step _ _ _ _ E1))). unfold sample_opened.
  destruct (OpenWriter sample_id (quiet sample_disk sample_clock)) as [r w'] eqn:E. simpl in E0. subst r.
  exact (log_opens sample_id (quiet sample_disk sample_clock) (Ok (MkWriter 0 false)) w' (quiet_sole _ _ _) E).
Qed.

Lemma log_power_loss_witness :
  let k' := MkDisk (disk_db sample_first) (disk_file sample_second) in
  length (content (file_of k')) = 10 ∧
  ∃ writer w', OpenWriter sample_id (quiet k' sample_clock) = (Ok writer, w') ∧ wr_offset writer = 5%Z ∧
    log_of sample_id (w_db w') = [(StreamStdout, sample_bytes)] ∧
    log_of sample_id sample_second = [(StreamStdout, sample_bytes); (StreamStderr, sample_bytes)].
Proof.
  intros k'. split; [vm_compute; reflexivity|]. destruct (OpenWriter sample_id (quiet k' sample_clock)) as [r w'] eqn:E.
  destruct (log_power_loss sample_id (sample_disk, None) (sample_first, Some (MkWriter 5 false)) (sample_second, Some (MkWriter 10 false))
    k' (quiet k' sample_clock) r w') as (_ & Hkept & _);
    [exact sample_intact|reflexivity|exact (proj1 sample_life)|exact (proj2 sample_life)| |reflexivity|apply quiet_sole|exact E|].
  - split; [split; [reflexivity|eauto]|]. vm_compute. repeat split; auto with arith.
  - destruct Hkept as (_ & _ & _ & Hl & Hwr & Hok); [left; vm_compute; eauto|].
    destruct Hok as [writer ->]; [reflexivity|vm_compute; reflexivity|split; reflexivity|].
    exists writer, w'. split; [reflexivity|]. split; [|split; [|vm_compute; reflexivity]].
    + rewrite (proj1 (Hwr writer eq_refl)). clear -E. vm_compute in E. injection E as _ <-. vm_compute. reflexivity.
    + rewrite Hl. vm_compute. reflexivity.
Defined.

(** Reading a page returns the log.  On an intact log [Read] succeeds and returns,
    in order, the chunks after sequence [after], at most the page limit of
    them, with the bytes and streams that were appended; it reports more exactly when chunks are left. *)
Theorem log_read_page id k after_ limit clock :
  ID_Valid id = true → log_intact id k → (0 ≤ after_ ≤ MaxInt64)%Z → (0 ≤ limit ≤ MaximumPageLimit)%Z →
  let n := if (limit =? 0)%Z then DefaultPageLimit else limit in
  ∃ page w', Log_Read id after_ limit (quiet k clock) = (Ok page, w') ∧ w_db w' = k ∧
    map (λ r, (RecordStream r, RecordData r)) (Records page)
      = take (Z.to_nat n) (drop (Z.to_nat after_) (log_of id k)) ∧
    HasMore page = bool_decide (after_ + n < Z.of_nat (length (log_of id k)))%Z.
Proof.
  intros Hid Hi Ha Hl n.
  assert (0 < n ≤ MaximumPageLimit)%Z as Hn.
  { unfold n, DefaultPageLimit, MaximumPageLimit in *. destruct (limit =? 0)%Z eqn:E; reflect_bools; lia. }
  set (rest := drop (Z.to_nat after_) (job_rows id (disk_db k))).
  assert (bool_decide (n < Z.of_nat (length rest))%Z
    = bool_decide (after_ + n < Z.of_nat (length (log_of id k)))%Z) as Hmore.
  { apply bool_decide_ext. unfold rest, log_of. rewrite length_drop, length_map. lia. }
  unfold Log_Read. fold n. unfold mbind, M_bind, lift at 1, reject_if.
  rewrite !(proj2 (Z.ltb_ge _ _)) by lia. cbn [orb]. unfold on_db.
  rewrite calm_atomically by auto with hop. cbn [w_db quiet].
  rewrite (list_ok id k after_ n Hid Hi Ha Hn). fold rest. cbn beta iota. cbn [fst snd].
  rewrite length_map, Hmore. replace (MkDisk (disk_db k) (disk_file k)) with k by (by destruct k).
  assert (map (λ r, (RecordStream r, RecordData r))
      (map (record_of (content (file_of k))) (take (Z.to_nat n) rest))
    = take (Z.to_nat n) (drop (Z.to_nat after_) (log_of id k))) as Hrecords.
  { unfold log_of. rewrite skipn_map, firstn_map, map_map. done. }
  destruct (bool_decide (length (take (Z.to_nat n) rest) = 0)) eqn:Hz; reflect_bools.
  - apply nil_length_inv in Hz. rewrite Hz in Hrecords.
    eexists _, _. split; [reflexivity|]. by split_and!.
  - rewrite Hid. cbn [negb]. unfold lift. cbn beta iota.
    assert (is_Some (disk_file k)) as [f Hf].
    { eapply intact_file; [done|]. unfold rest in Hz. intros E. by rewrite E, drop_nil, take_nil in Hz. }
    rewrite calm_atomically by auto with hop. cbn [w_db accessed]. rewrite Hf. cbn beta iota.
    destruct (read_records_ok id (take (Z.to_nat n) rest) (accessed (accessed (quiet k clock) k) k))
      as (w' & Hrun & Hdb); [auto with hop| |by eexists|].
    { apply Forall_take, Forall_drop, Forall_forall. intros r Hr. by apply intact_readable. }
    cbn [w_db accessed] in Hrun, Hdb. rewrite Hrun. eexists _, _. split; [reflexivity|]. by split_and!.
Qed.

Lemma log_read_page_witness :
  ∃ page w', Log_Read sample_id 0 10 (quiet sample_disk (λ _, sample_time)) = (Ok page, w') ∧
    HasMore page = false.
Proof.
  destruct (log_read_page sample_id sample_disk 0 10 (λ _, sample_time)) as (page & w' & Hrun & _ & _ & Hmore);
    [reflexivity|exact sample_intact|split; discriminate|split; discriminate|].
  exists page, w'. split; [exact Hrun|]. rewrite Hmore. reflexivity.
Defined.
