(* ===== verification/Custody.v ===== *)
(** * Custody: jobs and execution attempts stay in step

    The global invariant of the worker database.  A job in [starting], [running]
    or [collecting] has an active attempt that a runner owns; an attempt's status
    and outcome agree with its job's state.  Every transaction of the job,
    execution and log repositories preserves it, with the transitions that the
    worker's services request; so does every service built from them, whatever
    the other processes that follow the same rules do in between. *)

From S2P Require Import Prelude GoText PortablePath JobModel Execution Effects JobStore ExecutionStore LogStore Sql.
Local Open Scope string_scope.
Local Open Scope nat_scope.
Local Open Scope list_scope.

(** States in which a runner holds the job. *)
Definition held (s : string) : Prop := s ∈ ["starting"; "running"; "collecting"].

(** The attempt agrees with the state of its job. *)
Definition fits (ex : ExecutionRow) (state : string) : Prop :=
  (ex_status ex = "starting" ∧ state = "starting") ∨
  (ex_status ex = "running" ∧ (state = "running" ∨ state = "collecting")) ∨
  (ex_status ex = "completed" ∧ state = ex_completion ex ∧
   state ∈ ["succeeded"; "failed"; "cancelled"]).

Definition custody (d : Database) : Prop :=
  (∀ id ex, job_executions d !! id = Some ex →
     ∃ row, jobs d !! id = Some row ∧ fits ex (row_state row)) ∧
  (∀ id row, jobs d !! id = Some row → held (row_state row) →
     ∃ ex, job_executions d !! id = Some ex ∧ active ex = true).

(** A job that reports success has a completed attempt whose process exited with
    code zero and no signal; the restoring state is not used. *)
Definition honest (d : Database) : Prop :=
  ∀ id row, jobs d !! id = Some row → row_state row ≠ "restoring" ∧
    (row_state row = "succeeded" → ∃ ex, job_executions d !! id = Some ex ∧
       ex_status ex = "completed" ∧ ex_exit_code ex = Some 0%Z ∧ ex_signal ex = "").

(** The invariant of the worker database. *)
Definition worker_inv (d : Database) : Prop := audited d ∧ custody d ∧ honest d.

(** The transitions the services request outside the execution repository: none
    into or out of a held state, except a runner's step to [collecting]. *)
Definition service_transition (tr : Transition) : Prop :=
  (¬ held (state_string (From tr)) ∧ ¬ held (state_string (To tr))) ∨
  (From tr = StateRunning ∧ To tr = StateCollecting).

(** ** Lemmas *)

Lemma state_string_of s : state_string (state_of_string s) = s.
Proof. unfold state_of_string. repeat (case_bool_decide; [by subst|]). done. Qed.

Lemma fits_held ex s : fits ex s → held s → active ex = true.
Proof.
  unfold fits, held, active, in_strings. intros Hf Hh. apply bool_decide_eq_true_2.
  destruct Hf as [[-> _]|[[-> _]|(_ & _ & Hs)]]; [set_solver..|]. exfalso. clear -Hs Hh. set_solver.
Qed.

Lemma fits_active ex s : fits ex s → active ex = true → held s.
Proof.
  unfold fits, held, active, in_strings. intros Hf Ha%bool_decide_eq_true_1.
  destruct Hf as [[_ ->]|[[_ [->| ->]]|(Hc & _)]]; [set_solver..|].
  exfalso. rewrite Hc in Ha. clear -Ha. set_solver.
Qed.

Section WithUnicode.
Context `{UnicodeCase}.

(** A step that moves a job and writes its attempt. *)
Lemma handed_custody d id from to at_ failure ex next d' :
  ID_Valid id = true → custody d → handed d id from to at_ failure ex next d' →
  fits ex (state_string to) → custody d'.
Proof.
  intros Hid [Hex Hheld] Hh Hfit. pose proof (handed_frame _ _ _ _ _ _ _ _ _ Hh) as (Hoth & Hnew & _).
  pose proof (handed_job _ _ _ _ _ _ _ _ _ Hid Hh) as (_ & _ & _ & (row & Hrow & Hst) & _).
  split; intros id2.
  - intros ex2 He2. destruct (decide (id2 = id)) as [->|Hne]; [|].
    + simplify_eq. exists row. by rewrite Hst.
    + destruct (Hoth _ Hne) as [-> E]. rewrite E in He2. by apply Hex.
  - intros row2 Hr2 Hh2. destruct (decide (id2 = id)) as [->|Hne].
    + simplify_eq. exists ex. split; [done|]. rewrite Hst in Hh2. by eapply fits_held.
    + destruct (Hoth _ Hne) as [E ->]. rewrite E in Hr2. by eapply Hheld.
Qed.

(** An update that keeps an attempt's status and outcome. *)
Lemma update_custody id where_ set_ :
  (∀ row, ex_status (set_ row) = ex_status row ∧ ex_completion (set_ row) = ex_completion row) →
  preserves custody (update_execution id where_ set_).
Proof.
  intros Hset d n d' [Hex Hheld] Hu.
  apply update_execution_ok in Hu as [(ex & _ & He & _ & _ & ->)|(_ & -> & _)]; [|by split].
  destruct (Hset ex) as [Hs Hc]. split; simpl; intros id2.
  - intros ex2 He2. destruct (decide (id = id2)) as [<-|]; simplify_map_eq; [|by apply Hex].
    destruct (Hex _ _ He) as (row & Hrow & Hfit). exists row. split; [done|]. unfold fits in *. by rewrite Hs, Hc.
  - intros row Hrow Hh. destruct (Hheld _ _ Hrow Hh) as (ex2 & He2 & Ha).
    destruct (decide (id = id2)) as [<-|]; simplify_map_eq; [|by eauto].
    eexists. split; [done|]. unfold active in *. by rewrite Hs.
Qed.

Lemma frame_custody d d' :
  jobs d' = jobs d → job_executions d' = job_executions d → custody d → custody d'.
Proof. unfold custody. by intros -> ->. Qed.

Lemma create_custody value : preserves custody (Repo_Create value).
Proof.
  intros d u d' [Hex Hheld] (_ & Hst & Hno & _ & _ & ->)%create_ok. split; simpl; intros id.
  - intros ex He. destruct (Hex _ _ He) as (row & Hrow & Hfit). exists row. split; [|done].
    rewrite lookup_insert_ne; [done|]. congruence.
  - intros row Hrow Hh. destruct (decide (ID value = id)) as [<-|]; simplify_map_eq; [|by eapply Hheld].
    exfalso. unfold encode_job in Hh. destruct (encodeFailure _) as [[? ?] ?]. simpl in Hh. rewrite Hst in Hh.
    unfold held in Hh. set_solver.
Qed.

Lemma service_transition_custody tr : service_transition tr → preserves custody (Repo_ApplyTransition tr).
Proof.
  intros Hsvc d next d' [Hex Hheld] Ht. unfold Repo_ApplyTransition in Ht. invert_tx Ht. rename Hs into Hid.
  destruct (applyJobTransition_ok _ _ _ _ Hid Ht) as (row & cur & acc & Hrow & Hscan & Hfrom & Happly & _ & ->).
  destruct (scanJob_inv _ _ _ _ Hid Hscan) as (_ & _ & Hst & _).
  assert (row_state row = state_string (From tr)) as Hrs by (by rewrite <-Hfrom, Hst, state_string_of).
  apply accepted_fields in Happly as (Hstep & Hto & _).
  assert (row_state (moved_row row next) = state_string (To tr)) as Hnew.
  { unfold moved_row. destruct (encodeFailure _) as [[? ?] ?]. simpl. by rewrite Hto. }
  assert (∀ ex, job_executions d !! JobID tr = Some ex → fits ex (state_string (To tr))) as Hfit.
  { intros ex He. destruct (Hex _ _ He) as (row' & Hrow' & Hfit). simplify_eq. rewrite Hrs in Hfit.
    destruct Hsvc as [[Hnf Hnt]|[Ef Et]].
    - exfalso. destruct Hfit as [[_ E]|[[_ [E|E]]|(_ & _ & Hterm)]].
      1-3: apply Hnf; rewrite E; unfold held; set_solver.
      rewrite <-Hfrom in Hterm. apply can_transition_iff in Hstep.
      destruct (JobState cur) eqn:Es; simpl in *; try (clear -Hstep; set_solver); clear -Hterm; set_solver.
    - rewrite Ef in Hfit. rewrite Et. simpl in *. unfold fits in *. clear -Hfit. set_solver. }
  split; simpl; intros id.
  - intros ex He. destruct (decide (JobID tr = id)) as [<-|]; simplify_map_eq; [|by apply Hex].
    eexists. split; [done|]. rewrite Hnew. by apply Hfit.
  - intros row2 Hr2 Hh2. destruct (decide (JobID tr = id)) as [<-|]; simplify_map_eq; [|by eapply Hheld].
    rewrite Hnew in Hh2. destruct Hsvc as [[_ Hnt]|[Ef Et]]; [done|].
    apply (Hheld _ row); [done|]. rewrite Hrs, Ef. unfold held. set_solver.
Qed.

(** *** Honest outcomes *)

Lemma handed_honest d id from to at_ failure ex next d' :
  ID_Valid id = true → honest d → handed d id from to at_ failure ex next d' →
  to ≠ StateRestoring →
  (to = StateSucceeded → ex_status ex = "completed" ∧ ex_exit_code ex = Some 0%Z ∧ ex_signal ex = "") →
  honest d'.
Proof.
  intros Hid Hd Hh Hr Hs. pose proof (handed_frame _ _ _ _ _ _ _ _ _ Hh) as (Hoth & Hnew & _).
  pose proof (handed_job _ _ _ _ _ _ _ _ _ Hid Hh) as (Hstep & _ & _ & (row & Hrow & Hst) & _).
  apply step_valid in Hstep as [_ Hv].
  intros id2 row2 Hr2. destruct (decide (id2 = id)) as [->|Hne].
  - simplify_eq. rewrite Hst. split.
    + intros E. apply Hr. by rewrite <-(parse_state_string to Hv), E.
    + intros E. exists ex. split; [done|]. apply Hs. by rewrite <-(parse_state_string to Hv), E.
  - destruct (Hoth _ Hne) as [E ->]. rewrite E in Hr2. by apply Hd.
Qed.

Lemma update_honest id where_ set_ :
  (∀ row, ex_status (set_ row) = ex_status row ∧ ex_exit_code (set_ row) = ex_exit_code row
     ∧ ex_signal (set_ row) = ex_signal row) →
  preserves honest (update_execution id where_ set_).
Proof.
  intros Hset d n d' Hd Hu.
  apply update_execution_ok in Hu as [(ex & _ & He & _ & _ & ->)|(_ & -> & _)]; [|done].
  destruct (Hset ex) as (Hs & Hx & Hg). intros id2 row Hrow. destruct (Hd _ _ Hrow) as [Hr Hsucc].
  split; [done|]. intros E. destruct (Hsucc E) as (ex2 & He2 & H1 & H2 & H3). simpl.
  destruct (decide (id = id2)) as [<-|]; simplify_map_eq; [|by eauto 10].
  eexists. split; [done|]. by rewrite Hs, Hx, Hg.
Qed.

Lemma frame_honest d d' :
  jobs d' = jobs d → job_executions d' = job_executions d → honest d → honest d'.
Proof. unfold honest. by intros -> ->. Qed.

Lemma moved_honest d id row next acc :
  honest d → JobState next ≠ StateRestoring → JobState next ≠ StateSucceeded →
  State_Valid (JobState next) = true → honest (moved d id row next acc).
Proof.
  intros Hd Hr Hs Hv id2 row2 Hr2. rewrite moved_jobs in Hr2.
  destruct (decide (id = id2)) as [<-|]; simplify_map_eq; [|by apply Hd].
  assert (state_of_string (row_state (moved_row row next)) = JobState next) as Hst by (by apply moved_row_state).
  split; intros E; rewrite E in Hst; [by apply Hr|by destruct Hs].
Qed.

Lemma succeeded_completion c :
  Completion_Validate c = Ok tt → completion_target c = StateSucceeded →
  CompletionExitCode c = Some 0%Z ∧ CompletionSignal c = "".
Proof.
  unfold Completion_Validate, completion_target. intros Hv Ht.
  destruct (Cancelled c); [done|]. destruct (CompletionFailure c); [done|]. invert_ok Hv. by reflect_bools.
Qed.

(** *** Every transaction preserves the invariant *)

Lemma handed_inv d id from to at_ failure ex next d' :
  ID_Valid id = true → worker_inv d → handed d id from to at_ failure ex next d' →
  fits ex (state_string to) → to ≠ StateRestoring →
  (to = StateSucceeded → ex_status ex = "completed" ∧ ex_exit_code ex = Some 0%Z ∧ ex_signal ex = "") →
  worker_inv d'.
Proof.
  intros Hid (Ha & Hc & Hh) Hd Hf Hr Hs. split_and!.
  - by eapply handed_audited.
  - by eapply handed_custody.
  - by eapply handed_honest.
Qed.

Lemma claim_inv id pid at_ : ID_Valid id = true → preserves worker_inv (claim_tx id pid at_).
Proof.
  intros Hid d a d' Hd Ht. apply claim_tx_ok in Ht as (_ & _ & next & Hh); [|done].
  eapply handed_inv; [done..| |done|done]. by left.
Qed.

Lemma mark_running_inv id pid proc at_ :
  ID_Valid id = true → preserves worker_inv (mark_running_tx id pid proc at_).
Proof.
  intros Hid d a d' Hd Ht. apply mark_running_tx_ok in Ht as (ex & next & _ & _ & _ & _ & _ & Hh & _); [|done].
  eapply handed_inv; [done..| |done|done]. right. left. simpl. auto.
Qed.

Lemma completion_string_target c : state_string (completion_target c) = completion_string (Completion_Kind c).
Proof. unfold completion_target, Completion_Kind. destruct (Cancelled c), (CompletionFailure c); done. Qed.

Lemma complete_inv id pid c :
  ID_Valid id = true → Completion_Validate c = Ok tt → preserves worker_inv (complete_tx id pid c).
Proof.
  intros Hid Hv d [j a] d' Hd Ht.
  apply complete_tx_ok in Ht as (ex & from & _ & _ & _ & _ & _ & _ & _ & Hh & _); [|done].
  eapply handed_inv; [done..| | |].
  - right. right. rewrite completion_string_target. simpl. split_and!; [done..|].
    unfold Completion_Kind. destruct (Cancelled c); [|destruct (CompletionFailure c)]; simpl; set_solver.
  - unfold completion_target. destruct (Cancelled c); [done|]. by destruct (CompletionFailure c).
  - intros E. destruct (succeeded_completion _ Hv E). done.
Qed.

(** A query leaves the database alone. *)
Definition query {A} (t : Tx Database A) : Prop := ∀ d a d', t d = Ok (a, d') → d' = d.

Lemma query_inv {A} (t : Tx Database A) : query t → preserves worker_inv t.
Proof. intros Hq d a d' Hd Ht. by rewrite (Hq _ _ _ Ht). Qed.

(** A step that keeps jobs, the audit trail and attempts. *)
Lemma frame_inv d d' :
  jobs d' = jobs d → job_transitions d' = job_transitions d → job_executions d' = job_executions d →
  worker_inv d → worker_inv d'.
Proof.
  intros Hj Ht He (Ha & Hc & Hh). split_and!; [by eapply frame_audited|by eapply frame_custody|by eapply frame_honest].
Qed.

Lemma update_inv id where_ set_ :
  (∀ row, ex_status (set_ row) = ex_status row ∧ ex_completion (set_ row) = ex_completion row
     ∧ ex_exit_code (set_ row) = ex_exit_code row ∧ ex_signal (set_ row) = ex_signal row) →
  preserves worker_inv (update_execution id where_ set_).
Proof.
  intros Hset d n d' (Ha & Hc & Hh) Hu. split_and!.
  - apply update_execution_ok in Hu as [(ex & _ & He & _ & _ & ->)|(_ & -> & _)]; [|done].
    by eapply frame_audited.
  - eapply update_custody; [|done..]. intros row. by destruct (Hset row) as (? & ? & ? & ?).
  - eapply update_honest; [|done..]. intros row. by destruct (Hset row) as (? & ? & ? & ?).
Qed.

Lemma heartbeat_inv id pid at_ : preserves worker_inv (heartbeat_stmt id pid at_).
Proof. by apply update_inv. Qed.

Lemma request_inv id at_ : preserves worker_inv (request_cancellation_stmt id at_).
Proof. by apply update_inv. Qed.

Lemma commit_inv id off stream len at_ : preserves worker_inv (Commit id off stream len at_).
Proof.
  intros d m d' Hd. unfold Commit, commit_tx. intros Ht. invert_tx Ht.
  destruct (job_executions d !! id) as [ex|] eqn:Hex; [|done]. unfold insert_log_record in Ht. invert_tx Ht.
  match goal with Hu : update_execution _ _ _ _ = _ |- _ => eapply (update_inv id) in Hu; [exact Hu|done|] end.
  by eapply frame_inv.
Qed.

Lemma create_inv value : preserves worker_inv (Repo_Create value).
Proof.
  intros d u d' (Ha & Hc & Hh) Ht. split_and!; [by eapply create_audited|by eapply create_custody|].
  apply create_ok in Ht as (_ & Hst & Hno & _ & _ & ->). intros id row Hrow. simpl in *.
  destruct (decide (ID value = id)) as [<-|]; simplify_map_eq; [|by apply Hh].
  unfold encode_job. destruct (encodeFailure _) as [[? ?] ?]. simpl. by rewrite Hst.
Qed.

Lemma service_transition_inv tr : service_transition tr → preserves worker_inv (Repo_ApplyTransition tr).
Proof.
  intros Hsvc d next d' (Ha & Hc & Hh) Ht.
  split_and!; [by eapply apply_transition_audited|by eapply service_transition_custody|].
  unfold Repo_ApplyTransition in Ht. invert_tx Ht. rename Hs into Hid.
  destruct (applyJobTransition_ok _ _ _ _ Hid Ht) as (row & cur & acc & Hrow & Hscan & Hfrom & Happly & _ & ->).
  destruct (scanJob_inv _ _ _ _ Hid Hscan) as (_ & _ & Hst & _).
  assert (From tr ≠ StateRestoring) as Hnr.
  { intros E. destruct (Hh _ _ Hrow) as [Hr _]. apply Hr. by rewrite <-(state_string_of (row_state row)), <-Hst, Hfrom, E. }
  apply accepted_fields in Happly as (Hstep & Hto & _). apply moved_honest; [done|..].
  3: { rewrite Hto. by apply step_valid in Hstep as [_ ?]. }
  all: rewrite Hto; apply can_transition_iff in Hstep; rewrite Hfrom in Hstep; intros E; rewrite E in Hstep;
    destruct Hsvc as [[Hn _]|[_ E2]]; [|congruence];
    destruct (From tr); simpl in *; unfold held in Hn; clear -Hstep Hn Hnr; set_solver.
Qed.

Lemma set_progress_inv id p : preserves worker_inv (Repo_SetProgress id p).
Proof. intros d u d' Hd Hs. unfold Repo_SetProgress in Hs. invert_tx Hs. by eapply frame_inv. Qed.

Lemma clear_progress_inv id : preserves worker_inv (Repo_ClearProgress id).
Proof. intros d u d' Hd Hs. unfold Repo_ClearProgress in Hs. invert_tx Hs. by eapply frame_inv. Qed.

Lemma get_query id : query (Repo_Get id).
Proof. intros d j d' Hg. by apply get_ok in Hg as [-> _]. Qed.

Lemma list_query options : query (Repo_List options).
Proof. intros d j d' Hg. unfold Repo_List in Hg. by invert_tx Hg. Qed.

Lemma get_progress_query id : query (Repo_GetProgress id).
Proof. intros d j d' Hg. unfold Repo_GetProgress in Hg. by invert_tx Hg. Qed.

Lemma get_attempt_query id : query (get_attempt_stmt id).
Proof.
  intros d j d' Hg. unfold get_attempt_stmt, getAttempt in Hg. invert_tx Hg.
  apply on_no_rows_ok in Hg. invert_tx Hg. destruct (job_executions d !! id); by invert_tx Hg.
Qed.

Lemma list_active_query : query list_active_stmt.
Proof. intros d j d' Hg. unfold list_active_stmt in Hg. by invert_tx Hg. Qed.

End WithUnicode.

#[export] Hint Resolve claim_inv mark_running_inv complete_inv heartbeat_inv request_inv commit_inv
  create_inv service_transition_inv set_progress_inv clear_progress_inv query_inv
  get_query list_query get_progress_query get_attempt_query list_active_query : hop.

(** *** The methods of the execution repository, run beside others *)

Section Methods.
Context `{UnicodeCase}.

#[local] Ltac guards := repeat (apply lift_bind_keeps; intros [] ?%reject_if_ok; reflect_bools).

Lemma Claim_keeps id pid at_ : keeps worker_inv (Claim id pid at_).
Proof. unfold Claim. guards. auto with hop. Qed.

Lemma MarkRunning_keeps id pid proc at_ : keeps worker_inv (MarkRunning id pid proc at_).
Proof. unfold MarkRunning. guards. auto with hop. Qed.

Lemma Exec_Get_keeps id : keeps worker_inv (Exec_Get id).
Proof. unfold Exec_Get. auto with hop. Qed.

Lemma Heartbeat_keeps id pid at_ : keeps worker_inv (Heartbeat id pid at_).
Proof.
  unfold Heartbeat. guards. apply bind_keeps; [auto with hop|]. intros n. case_bool_decide; [auto with hop|].
  apply bind_keeps; [apply Exec_Get_keeps|]. intros a. destruct (negb _); [auto with hop|].
  case_bool_decide; auto with hop.
Qed.

Lemma RequestCancellation_keeps id at_ : keeps worker_inv (RequestCancellation id at_).
Proof.
  unfold RequestCancellation. guards. apply bind_keeps; [auto with hop|]. intros n.
  case_bool_decide; [auto with hop|]. apply bind_keeps; [apply Exec_Get_keeps|]. intros a.
  case_bool_decide; auto with hop.
Qed.

Lemma CancellationRequested_keeps id pid : keeps worker_inv (CancellationRequested id pid).
Proof.
  apply bind_keeps; [apply Exec_Get_keeps|]. intros a. destruct (negb _); [auto with hop|].
  case_bool_decide; auto with hop.
Qed.

Lemma Complete_keeps id pid c : keeps worker_inv (Complete id pid c).
Proof.
  unfold Complete. guards. apply lift_bind_keeps. intros [] Hv. auto with hop.
Qed.

Lemma ListActive_keeps : keeps worker_inv ListActive.
Proof. unfold ListActive. auto with hop. Qed.

End Methods.

#[export] Hint Resolve Claim_keeps MarkRunning_keeps Exec_Get_keeps Heartbeat_keeps RequestCancellation_keeps
  CancellationRequested_keeps Complete_keeps ListActive_keeps : hop.

(** ** The worker as a transition system

    One step is one committed transaction of any process: the daemon's services,
    a runner, or the dispatcher. *)

Inductive worker_step `{UnicodeCase} (d d' : Database) : Prop :=
| step_create value u : Repo_Create value d = Ok (u, d') → worker_step d d'
| step_transition tr j : service_transition tr → Repo_ApplyTransition tr d = Ok (j, d') → worker_step d d'
| step_claim id pid at_ a : ID_Valid id = true → claim_tx id pid at_ d = Ok (a, d') → worker_step d d'
| step_running id pid proc at_ a : ID_Valid id = true →
    mark_running_tx id pid proc at_ d = Ok (a, d') → worker_step d d'
| step_heartbeat id pid at_ n : heartbeat_stmt id pid at_ d = Ok (n, d') → worker_step d d'
| step_request id at_ n : request_cancellation_stmt id at_ d = Ok (n, d') → worker_step d d'
| step_complete id pid c r : ID_Valid id = true → Completion_Validate c = Ok tt →
    complete_tx id pid c d = Ok (r, d') → worker_step d d'
| step_log id off stream len at_ m : Commit id off stream len at_ d = Ok (m, d') → worker_step d d'
| step_progress id p u : Repo_SetProgress id p d = Ok (u, d') → worker_step d d'
| step_clear id u : Repo_ClearProgress id d = Ok (u, d') → worker_step d d'.

(** What a later attempt row keeps of an earlier one. *)
Definition status_rank (s : string) : nat :=
  if bool_decide (s = "starting") then 0 else if bool_decide (s = "running") then 1 else 2.

Definition continues (ex ex' : ExecutionRow) : Prop :=
  ex_runner_pid ex' = ex_runner_pid ex ∧ ex_claimed_ns ex' = ex_claimed_ns ex ∧
  status_rank (ex_status ex) ≤ status_rank (ex_status ex') ∧
  (∀ c, ex_cancel_ns ex = Some c → ex_cancel_ns ex' = Some c) ∧
  (ex_status ex = "completed" → ex' = ex).

#[global] Instance continues_preorder : PreOrder continues.
Proof.
  split; [by intros ex|]. intros a b c (H1 & H2 & H3 & H4 & H5) (K1 & K2 & K3 & K4 & K5).
  split_and!; [congruence|congruence|lia|auto|]. intros Hc. rewrite <-(H5 Hc). apply K5. by rewrite (H5 Hc).
Qed.

(** What a later job row keeps of an earlier one. *)
Definition outlives (row row' : JobRow) : Prop :=
  spec_of_row row' = spec_of_row row ∧ row_created_ns row' = row_created_ns row ∧
  rank (state_of_string (row_state row)) ≤ rank (state_of_string (row_state row')) ∧
  (State_Terminal (state_of_string (row_state row)) = true → row' = row).

#[global] Instance outlives_preorder : PreOrder outlives.
Proof.
  split; [by intros row|]. intros a b c (H1 & H2 & H3 & H4) (K1 & K2 & K3 & K4).
  split_and!; [congruence|congruence|lia|]. intros Ht. rewrite <-(H4 Ht). apply K4. by rewrite (H4 Ht).
Qed.

Section Steps.
Context `{UnicodeCase}.

#[local] Ltac keep_row := eexists; split; [by simplify_map_eq|reflexivity].

(** Rows only move forward. *)
Definition forward (d d' : Database) : Prop :=
  (∀ id ex, job_executions d !! id = Some ex → ∃ ex', job_executions d' !! id = Some ex' ∧ continues ex ex') ∧
  (∀ id row, jobs d !! id = Some row → ∃ row', jobs d' !! id = Some row' ∧ outlives row row').

Lemma frame_forward d d' : jobs d' = jobs d → job_executions d' = job_executions d → forward d d'.
Proof. intros Hj He. split; intros id x Hx; rewrite ?Hj, ?He; keep_row. Qed.

Lemma moved_outlives row next id current to at_ failure p acc :
  ID_Valid id = true → scanJob id row p = Ok current → Job_Apply current to at_ failure = Ok (next, acc) →
  outlives row (moved_row row next).
Proof.
  intros Hid Hscan Happly. destruct (scanJob_inv _ _ _ _ Hid Hscan) as (_ & _ & Hst & _).
  apply accepted_fields in Happly as (Hstep & Hto & _). pose proof (step_valid _ _ Hstep) as [_ Hv].
  assert (state_of_string (row_state (moved_row row next)) = to) as Hnew by (rewrite <-Hto; apply moved_row_state; congruence).
  pose proof (step_rank _ _ Hstep) as Hrank.
  unfold outlives. rewrite Hnew, <-Hst. split_and!.
  - unfold moved_row. by destruct (encodeFailure _) as [[? ?] ?].
  - unfold moved_row. by destruct (encodeFailure _) as [[? ?] ?].
  - lia.
  - intros Ht. exfalso. apply can_transition_iff in Hstep.
    destruct (JobState current); try discriminate Ht; by apply elem_of_nil in Hstep.
Qed.

Lemma handed_forward d id from to at_ failure ex next d' :
  ID_Valid id = true → handed d id from to at_ failure ex next d' →
  (∀ old, job_executions d !! id = Some old → continues old ex) → forward d d'.
Proof.
  intros Hid Hh Hold. pose proof (handed_frame _ _ _ _ _ _ _ _ _ Hh) as (Hoth & Hnew & _). split; intros id2.
  - intros ex2 He2. destruct (decide (id2 = id)) as [->|Hne]; [by eauto|].
    destruct (Hoth _ Hne) as [_ ->]. keep_row.
  - intros row2 Hr2. destruct (decide (id2 = id)) as [->|Hne].
    + destruct Hh as (row & cur & acc & Hrow & Hscan & _ & Happly & _ & ->). simplify_eq.
      eexists. split; [apply lookup_insert_eq|]. by eapply moved_outlives.
    + destruct (Hoth _ Hne) as [-> _]. keep_row.
Qed.

Lemma update_forward id where_ set_ d n d' :
  (∀ row, where_ row = true → continues row (set_ row)) →
  update_execution id where_ set_ d = Ok (n, d') → forward d d'.
Proof.
  intros Hset [(ex & _ & He & Hw & _ & ->)|(_ & -> & _)]%update_execution_ok; [|by apply frame_forward].
  split; simpl; intros id2 x Hx; [|by keep_row].
  destruct (decide (id = id2)) as [<-|]; simplify_map_eq; [by eauto|by keep_row].
Qed.

Lemma active_not_completed ex : active ex = true → ex_status ex ≠ "completed".
Proof. unfold active, in_strings. intros Ha%bool_decide_eq_true_1 E. rewrite E in Ha. clear -Ha. set_solver. Qed.

Lemma step_forward d d' : worker_step d d' → forward d d'.
Proof.
  destruct 1 as [value u Ht|tr j Hsvc Ht|id pid at_ a Hid Ht|id pid proc at_ a Hid Ht|id pid at_ n Ht
    |id at_ n Ht|id pid c [j a] Hid Hv Ht|id off stream len at_ m Ht|id p u Ht|id u Ht].
  - apply create_ok in Ht as (_ & _ & Hno & _ & _ & ->). split; simpl; intros id x Hx; [keep_row|].
    rewrite lookup_insert_ne by congruence. keep_row.
  - unfold Repo_ApplyTransition in Ht. invert_tx Ht. rename Hs into Hid.
    destruct (applyJobTransition_ok _ _ _ _ Hid Ht) as (row & cur & acc & Hrow & Hscan & Hfrom & Happly & _ & ->).
    split; simpl; intros id x Hx; [keep_row|].
    destruct (decide (JobID tr = id)) as [<-|]; simplify_map_eq; [|by keep_row].
    eexists. split; [done|]. by eapply moved_outlives.
  - apply claim_tx_ok in Ht as (Hno & _ & next & Hh); [|done]. eapply handed_forward; [done..|]. congruence.
  - apply mark_running_tx_ok in Ht as (ex & next & Hex & _ & Hst & _ & _ & Hh & _); [|done].
    eapply handed_forward; [done..|]. intros old Hold. simplify_eq. unfold continues, status_rank. rewrite Hst.
    split_and!; simpl; try done. lia.
  - eapply update_forward, Ht. intros row [_ Hact]%andb_true_iff. apply active_not_completed in Hact. by split_and!.
  - eapply update_forward, Ht. intros row Hact. apply active_not_completed in Hact. split_and!; simpl; try done.
    by intros c ->.
  - apply complete_tx_ok in Ht as (ex & from & Hex & _ & Hact & _ & _ & _ & _ & Hh & _); [|done].
    apply active_not_completed in Hact. eapply handed_forward; [done..|]. intros old Hold. simplify_eq.
    split_and!; simpl; try done. unfold status_rank. repeat case_bool_decide; (done || lia).
  - unfold Commit, commit_tx in Ht. invert_tx Ht.
    destruct (job_executions d !! id) as [ex|] eqn:Hex; [|done]. unfold insert_log_record in Ht. invert_tx Ht.
    match goal with Hu : update_execution _ _ _ _ = _ |- _ =>
      apply update_execution_ok in Hu as [(ex' & _ & Hex' & _ & _ & ->)|(? & _)]; [|done] end.
    simpl in Hex'. simplify_eq. split; simpl; intros id2 x Hx; [|by keep_row].
    destruct (decide (id = id2)) as [<-|]; simplify_map_eq; [|by keep_row].
    eexists. split; [done|]. split_and!; simpl; auto. intros E. rewrite E in *. done.
  - unfold Repo_SetProgress in Ht. invert_tx Ht. by apply frame_forward.
  - unfold Repo_ClearProgress in Ht. invert_tx Ht. by apply frame_forward.
Qed.

End Steps.

(** ** Properties *)

Section Reachability.
Context (U : UnicodeCase).

Lemma step_inv d d' : worker_step d d' → worker_inv d → worker_inv d'.
Proof.
  destruct 1; intros Hd; match goal with Ht : ?t d = Ok (?a, d') |- _ =>
    assert (preserves worker_inv t) as Hp by auto with hop; exact (Hp d a d' Hd Ht) end.
Qed.

Lemma empty_inv : worker_inv empty_database.
Proof. split_and!; [split; simpl; [done|set_solver]|by split|done]. Qed.

Lemma steps_forward d d' : rtc worker_step d d' → forward d d'.
Proof.
  induction 1 as [d|d d1 d' Hs _ [IHe IHj]]; [by apply frame_forward|].
  apply step_forward in Hs as [He Hj]. split; intros id x Hx.
  - destruct (He _ _ Hx) as (x1 & Hx1 & ?). destruct (IHe _ _ Hx1) as (x2 & Hx2 & ?).
    exists x2. split; [done|by etransitivity].
  - destruct (Hj _ _ Hx) as (x1 & Hx1 & ?). destruct (IHj _ _ Hx1) as (x2 & Hx2 & ?).
    exists x2. split; [done|by etransitivity].
Qed.

End Reachability.

(** The sample job, created, validated and queued, then claimed. *)
Definition sample_created : Job := MkJob sample_id sample_spec StateCreated sample_time sample_time None None.

Definition run {DB A} (t : Tx DB A) (d : DB) : DB := match t d with Ok (_, d') => d' | Err _ => d end.

Definition sample_queued : Database :=
  run (@Repo_ApplyTransition ascii_case (MkTransition sample_id StateValidating StateQueued sample_time None))
    (run (@Repo_ApplyTransition ascii_case (MkTransition sample_id StateCreated StateValidating sample_time None))
      (run (@Repo_Create ascii_case sample_created) empty_database)).

Definition sample_running : Database :=
  run (@mark_running_tx ascii_case sample_id 41 4242 sample_time)
    (run (@claim_tx ascii_case sample_id 41 sample_time) sample_queued).

Definition succeeds {DB A} (t : Tx DB A) (d : DB) : bool := match t d with Ok _ => true | Err _ => false end.

Lemma step_run {A} (t : Tx Database A) d :
  (∀ a d', t d = Ok (a, d') → @worker_step ascii_case d d') → succeeds t d = true →
  @worker_step ascii_case d (run t d).
Proof. unfold run, succeeds. intros Hs Hok. destruct (t d) as [[a d']|e]; [by eapply Hs|done]. Qed.

Lemma sample_queued_reachable : rtc (@worker_step ascii_case) empty_database sample_queued.
Proof.
  unfold sample_queued. eapply rtc_r; [|apply step_run; [|by vm_compute]].
  1: eapply rtc_r; [|apply step_run; [|by vm_compute]].
  1: apply rtc_once, step_run; [|by vm_compute].
  - intros u d'. apply step_create.
  - intros j d'. apply step_transition. left. unfold held. simpl. split; set_solver.
  - intros j d'. apply step_transition. left. unfold held. simpl. split; set_solver.
Qed.

Lemma sample_marked_step :
  @worker_step ascii_case (run (@claim_tx ascii_case sample_id 41 sample_time) sample_queued) sample_running.
Proof. apply step_run; [|by vm_compute]. intros a d'. by apply step_running. Qed.

Lemma sample_running_steps : rtc (@worker_step ascii_case) sample_queued sample_running.
Proof.
  eapply rtc_r; [|apply sample_marked_step]. apply rtc_once, step_run; [|by vm_compute].
  intros a d'. by apply step_claim.
Qed.

(** C1 Jobs and attempts stay in step.  In every database the worker's processes can
    reach, in any interleaving of their transactions: the audit trail of each
    job is a legal lifecycle ending in its state; an attempt's status agrees
    with its job (starting, running or collecting while a runner holds it, and
    the terminal state its completion reported afterwards); a job in a held
    state has an active attempt; and a job reports success only if its process
    exited with code zero and no signal. *)
Theorem reachable_in_step (U : UnicodeCase) d :
  rtc worker_step empty_database d →
  audited d ∧
  (∀ id ex, job_executions d !! id = Some ex → ∃ row, jobs d !! id = Some row ∧ fits ex (row_state row)) ∧
  (∀ id row, jobs d !! id = Some row → held (row_state row) →
     ∃ ex, job_executions d !! id = Some ex ∧ active ex = true) ∧
  (∀ id row, jobs d !! id = Some row → row_state row = "succeeded" →
     ∃ ex, job_executions d !! id = Some ex ∧ ex_status ex = "completed" ∧
       ex_exit_code ex = Some 0%Z ∧ ex_signal ex = "").
Proof.
  intros Hsteps. assert (worker_inv d) as (Ha & [Hf Hh] & Hs).
  { eapply rtc_ind_r with (z := d); [apply empty_inv| |exact Hsteps]. intros y z _ Hyz. by apply (step_inv U). }
  split_and!; auto. intros id row Hrow. by apply (Hs _ _ Hrow).
Qed.

Lemma reachable_in_step_witness :
  audited sample_queued ∧ ∀ id row, jobs sample_queued !! id = Some row → held (row_state row) →
     ∃ ex, job_executions sample_queued !! id = Some ex ∧ active ex = true.
Proof.
  destruct (reachable_in_step ascii_case sample_queued sample_queued_reachable) as (Ha & _ & Hh & _).
  split; [exact Ha|exact Hh].
Defined.

(** An attempt belongs to one runner for ever.  Once a job has an attempt, in
    every later database it still has that attempt, with the same owner and claim
    time; its status only advances from starting to running to completed; a
    cancellation request stays; and a completed attempt never changes again. *)
Theorem attempt_lineage (U : UnicodeCase) d d' id ex :
  rtc worker_step d d' → job_executions d !! id = Some ex →
  ∃ ex', job_executions d' !! id = Some ex' ∧
    ex_runner_pid ex' = ex_runner_pid ex ∧ ex_claimed_ns ex' = ex_claimed_ns ex ∧
    status_rank (ex_status ex) ≤ status_rank (ex_status ex') ∧
    (∀ c, ex_cancel_ns ex = Some c → ex_cancel_ns ex' = Some c) ∧
    (ex_status ex = "completed" → ex' = ex).
Proof. intros Hs Hex. by apply (steps_forward U _ _ Hs). Qed.

Lemma attempt_lineage_witness :
  ∃ ex', job_executions sample_running !! sample_id = Some ex' ∧ ex_runner_pid ex' = 41%Z.
Proof.
  destruct (attempt_lineage ascii_case (run (@claim_tx ascii_case sample_id 41 sample_time) sample_queued)
    sample_running sample_id (claimed_row 41 sample_time)) as (ex' & Hex & Hpid & _).
  - apply rtc_once, sample_marked_step.
  - vm_compute. reflexivity.
  - exists ex'. split; [exact Hex|exact Hpid].
Defined.

(** A job is never rewritten or revived.  Once created it exists in every later
    database with the same specification and creation time, its state only
    advances along the lifecycle, and from the moment it is terminal its row
    never changes. *)
Theorem job_monotone (U : UnicodeCase) d d' id row :
  rtc worker_step d d' → jobs d !! id = Some row →
  ∃ row', jobs d' !! id = Some row' ∧
    spec_of_row row' = spec_of_row row ∧ row_created_ns row' = row_created_ns row ∧
    rank (state_of_string (row_state row)) ≤ rank (state_of_string (row_state row')) ∧
    (State_Terminal (state_of_string (row_state row)) = true → row' = row).
Proof. intros Hs Hrow. by apply (steps_forward U _ _ Hs). Qed.

Lemma job_monotone_witness :
  ∃ row', jobs sample_running !! sample_id = Some row' ∧ row_created_ns row' = sample_time.
Proof.
  destruct (jobs sample_queued !! sample_id) as [row|] eqn:E; [|vm_compute in E; discriminate E].
  destruct (job_monotone ascii_case sample_queued sample_running sample_id row sample_running_steps E)
    as (row' & Hrow & _ & Hc & _).
  exists row'. split; [exact Hrow|]. rewrite Hc. vm_compute in E. injection E as <-. reflexivity.
Defined.
