(* ===== verification/Worker.v ===== *)
(** * Worker services (internal/app/worker)

    The job service (jobs.go), the dispatcher (dispatcher.go) and the runner
    (runner.go) as programs over the repositories, run beside other processes.
    A [select] of the runner is modelled by the sequence of its outcomes; the
    process table, the launcher, the executor and the log files are arguments. *)

From S2P Require Import Prelude GoText PortablePath JobModel Execution Effects JobStore ExecutionStore LogStore Custody Sql.
Local Open Scope string_scope.
Local Open Scope nat_scope.
Local Open Scope list_scope.

(** What the job service asks of the log store. *)
Class LogReader := { log_reader_read : string → Z → Z → M Database Page }.

Section JobService.
Context `{UnicodeCase}.

(** ** JobService (jobs.go) *)

Definition advanceLoaded (current : Job) (to : State) (failure : option Failure) : M Database Job :=
  at_ ← now;
  applied ← lift (Job_Apply current to at_ failure);
  atomically (Repo_ApplyTransition applied.2).

Definition submitWithID (id : string) (spec : Spec) : M Database Job :=
  at_ ← now;
  created ← lift (Job_New id spec at_);
  _ ← atomically (Repo_Create created);
  validating ← advanceLoaded created StateValidating None;
  advanceLoaded validating StateQueued None.

(** [generated] is the outcome of [service.generateID()]. *)
Definition Submit (generated : result string) (spec : Spec) : M Database Job :=
  id ← lift generated;
  submitWithID id spec.

Definition withProgress (value : Job) : M Database Job :=
  current ← atomically (Repo_GetProgress (ID value));
  mret (MkJob (ID value) (JobSpec value) (JobState value) (CreatedAt value) (UpdatedAt value)
          (JobFailure value) current).

Definition Service_Get (id : string) : M Database Job :=
  value ← atomically (Repo_Get id);
  withProgress value.

Fixpoint with_progress_all (values : list Job) : M Database (list Job) :=
  match values with
  | [] => mret []
  | value :: rest =>
      value' ← withProgress value;
      rest' ← with_progress_all rest;
      mret (value' :: rest')
  end.

Definition Service_List (options : ListOptions) : M Database (list Job) :=
  values ← atomically (Repo_List options);
  with_progress_all values.

Record JobLogs := MkJobLogs { LogsJob : Job; LogsExecution : option Attempt; LogsPage : Page }.

Definition ReadLogs `{LogReader} (id : string) (after_ limit : Z) : M Database JobLogs :=
  current ← atomically (Repo_Get id);
  found ← try_ (Exec_Get id);
  match found with
  | Err e =>
      if errors_is e ExecErrNotFound then mret (MkJobLogs current None (MkPage [] false))
      else fail e
  | Ok attempt =>
      page ← log_reader_read id after_ limit;
      mret (MkJobLogs current (Some attempt) page)
  end.

Definition Advance (id : string) (to : State) (failure : option Failure) : M Database Job :=
  current ← atomically (Repo_Get id);
  advanceLoaded current to failure.

Definition in_custody (state : State) : bool :=
  bool_decide (state = StateStarting) || bool_decide (state = StateRunning)
  || bool_decide (state = StateCollecting).

(** The loop of [Cancel], with the attempts that are left. *)
Fixpoint cancel_loop (attempts : nat) (id : string) : M Database Job :=
  match attempts with
  | O => fail [JobErrConflict]
  | S attempts =>
      current ← atomically (Repo_Get id);
      if bool_decide (JobState current = StateCancelled) then mret current
      else if State_Terminal (JobState current) then fail [WorkerErrJobTerminal]
      else if in_custody (JobState current) then
        at_ ← now;
        requested ← try_ (RequestCancellation id at_);
        match requested with
        | Err e => if errors_is e ExecErrAttemptCompleted then atomically (Repo_Get id) else fail e
        | Ok _ => atomically (Repo_Get id)
        end
      else
        cancelled ← try_ (advanceLoaded current StateCancelled None);
        match cancelled with
        | Err e => if errors_is e JobErrConflict then cancel_loop attempts id else fail e
        | Ok value => mret value
        end
  end.

Definition Cancel (id : string) : M Database Job := cancel_loop 2 id.

Definition setProgress (id : string) (phase : ProgressPhase) (completedBytes totalBytes : Z) :
    M Database unit :=
  if (totalBytes <=? 0)%Z then mret tt
  else at_ ← now; atomically (Repo_SetProgress id (MkProgress phase completedBytes totalBytes at_)).

Definition Service_GetProgress (id : string) : M Database (option Progress) :=
  atomically (Repo_GetProgress id).

End JobService.

(** ** Dispatcher (dispatcher.go) *)

(** The in-memory state: when each queued job was last launched; and what the
    dispatcher did to the outside, newest last. *)
Record Dispatcher := MkDispatcher {
  launched : gmap string Z;
  launches : list string;     (* calls of [launcher.Launch] *)
  kills : list Z              (* calls of [killProcessTree] *)
}.

Record DispatcherEnv := MkDispatcherEnv {
  processAlive : Z → bool;
  killProcessTree : Z → bool;   (* whether it succeeds *)
  launcher_Launch : string → bool;
  launchRetry : Z;
  runnerStaleAfter : Z
}.

Definition defaultLaunchRetry : Z := (5 * second)%Z.
Definition defaultRunnerStaleAfter : Z := (10 * second)%Z.

Section Dispatcher.
Context `{UnicodeCase} (env : DispatcherEnv).

Definition lost_failure : Failure :=
  MkFailure "runner_lost" "the process supervising this job exited unexpectedly" true.

Definition lost_completion (now_ : Z) : Completion := MkCompletion now_ None "" (Some lost_failure) false.

(** A runner counts as lost when its process is gone and its heartbeat is stale. *)
Definition runner_lost (now_ : Z) (attempt : Attempt) : bool :=
  negb (processAlive env (RunnerPID attempt)
        || (time_sub now_ (HeartbeatAt attempt) <? runnerStaleAfter env)%Z).

Fixpoint recover_loop (now_ : Z) (attempts : list Attempt) (st : Dispatcher) :
    M Database (result unit * Dispatcher) :=
  match attempts with
  | [] => mret (Ok tt, st)
  | attempt :: rest =>
      if negb (runner_lost now_ attempt) then recover_loop now_ rest st
      else
        let killing := (0 <? ProcessPID attempt)%Z in
        let st := if killing then MkDispatcher (launched st) (launches st) (kills st ++ [ProcessPID attempt])
                  else st in
        if killing && negb (killProcessTree env (ProcessPID attempt)) then mret (Err [DriverError], st)
        else
          completed ← try_ (Complete (AttemptJobID attempt) (RunnerPID attempt) (lost_completion now_));
          match completed with
          | Err e => if errors_is e ExecErrAttemptCompleted then recover_loop now_ rest st
                     else mret (Err e, st)
          | Ok _ => recover_loop now_ rest st
          end
  end.

Definition recoverLostRunners (now_ : Z) (st : Dispatcher) : M Database (result unit * Dispatcher) :=
  attempts ← try_ ListActive;
  match attempts with
  | Err e => mret (Err e, st)
  | Ok attempts => recover_loop now_ attempts st
  end.

(** Whether the dispatcher started a runner for [id] less than the retry interval ago. *)
Definition recently_launched (now_ : Z) (st : Dispatcher) (id : string) : bool :=
  match launched st !! id with
  | Some lastLaunch => (time_sub now_ lastLaunch <? launchRetry env)%Z
  | None => false
  end.

(** The loop over the queued jobs. *)
Fixpoint launch_loop (now_ : Z) (queued : list Job) (st : Dispatcher) : result unit * Dispatcher :=
  match queued with
  | [] => (Ok tt, st)
  | current :: rest =>
      if recently_launched now_ st (ID current) then launch_loop now_ rest st
      else
        let st := MkDispatcher (<[ID current := now_]> (launched st)) (launches st ++ [ID current]) (kills st) in
        if launcher_Launch env (ID current) then launch_loop now_ rest st else (Err [DriverError], st)
  end.

Definition reconcile (st : Dispatcher) : M Database (result unit * Dispatcher) :=
  now_ ← now;
  recovered ← recoverLostRunners now_ st;
  match recovered.1 with
  | Err e => mret (Err e, recovered.2)
  | Ok _ =>
      listed ← try_ (atomically (Repo_List (MkListOptions [StateQueued] 500)));
      match listed with
      | Err e => mret (Err e, recovered.2)
      | Ok queued =>
          let '(r, st) := launch_loop now_ queued recovered.2 in
          match r with
          | Err e => mret (Err e, st)
          | Ok _ =>
              mret (Ok tt, MkDispatcher
                (filter (λ kv, kv.1 ∈ map ID queued) (launched st)) (launches st) (kills st))
          end
      end
  end.

End Dispatcher.

#[global] Arguments Repo_Get : simpl never.
#[global] Arguments Repo_List : simpl never.
#[global] Arguments Repo_ApplyTransition : simpl never.
#[global] Arguments Repo_Create : simpl never.
#[global] Arguments Complete : simpl never.
#[global] Arguments ListActive : simpl never.
#[global] Arguments RequestCancellation : simpl never.

(** ** Lemmas *)

Section Lemmas.
Context `{UnicodeCase}.

Lemma in_custody_held state : in_custody state = false → State_Valid state = true → ¬ held (state_string state).
Proof. unfold held. intros Hc Hv. destruct state; try discriminate; simpl; set_solver. Qed.

(** Transitions of the services stay within [service_transition]. *)
Lemma apply_service current to at_ failure next accepted :
  Job_Apply current to at_ failure = Ok (next, accepted) →
  to ∈ [StateValidating; StateQueued] ∨ to = StateCollecting ∨
  (in_custody (JobState current) = false ∧ in_custody to = false) →
  service_transition accepted.
Proof.
  intros Happly Hto. apply accepted_fields in Happly as (Hstep & _ & _ & _ & Hf & Ht).
  unfold service_transition. rewrite Hf, Ht. destruct (step_valid _ _ Hstep) as [Hv1 Hv2].
  destruct Hto as [Hto|[->|[Hc1 Hc2]]].
  - left. apply can_transition_iff in Hstep.
    assert (JobState current = StateCreated ∨ JobState current = StateValidating) as Hfrom.
    { destruct (JobState current); simpl in Hstep; auto; exfalso; clear -Hstep Hto; set_solver. }
    unfold held. destruct Hfrom as [-> | ->]; simpl;
      (repeat (apply elem_of_cons in Hto as [->|Hto]; [simpl; split; set_solver|])); by apply elem_of_nil in Hto.
  - right. apply can_transition_iff in Hstep.
    destruct (JobState current); simpl in Hstep; try done; exfalso; clear -Hstep; set_solver.
  - left. split; by apply in_custody_held.
Qed.

Lemma advanceLoaded_keeps current to failure :
  to ∈ [StateValidating; StateQueued] ∨ to = StateCollecting ∨
  (in_custody (JobState current) = false ∧ in_custody to = false) →
  keeps worker_inv (advanceLoaded current to failure).
Proof.
  intros Hto. unfold advanceLoaded. apply bind_keeps; [auto with hop|]. intros at_.
  apply lift_bind_keeps. intros [next accepted] Happly. apply atomically_keeps, service_transition_inv.
  by eapply apply_service.
Qed.

Lemma submit_keeps id spec : keeps worker_inv (submitWithID id spec).
Proof.
  unfold submitWithID. apply bind_keeps; [auto with hop|]. intros at_. apply bind_keeps; [auto with hop|].
  intros created. apply bind_keeps; [auto with hop|]. intros _.
  apply bind_keeps; [|intros validating]; apply advanceLoaded_keeps; set_solver.
Qed.

Lemma cancel_keeps n id : keeps worker_inv (cancel_loop n id).
Proof.
  induction n as [|n IH]; cbn [cancel_loop]; [auto with hop|].
  apply bind_keeps; [auto with hop|]. intros current. case_bool_decide; [auto with hop|].
  destruct (State_Terminal _); [auto with hop|]. destruct (in_custody (JobState current)) eqn:Hc.
  - apply bind_keeps; [auto with hop|]. intros at_. apply bind_keeps; [auto with hop|].
    intros [[]|e]; [|destruct (errors_is _ _)]; auto with hop.
  - apply bind_keeps; [|intros [v|e]; [|destruct (errors_is _ _)]; auto with hop].
    apply try_keeps, advanceLoaded_keeps. auto.
Qed.

Lemma with_progress_keeps values : keeps worker_inv (with_progress_all values).
Proof. induction values; cbn [with_progress_all]; unfold withProgress; auto 10 with hop. Qed.

Lemma recover_keeps env now_ attempts st : keeps worker_inv (recover_loop env now_ attempts st).
Proof.
  revert st. induction attempts as [|a attempts IH]; intros st; cbn [recover_loop]; [auto with hop|].
  destruct (negb _); [done|]. destruct (_ && _); [auto with hop|].
  apply bind_keeps; [auto with hop|]. intros [r|e]; [done|]. destruct (errors_is _ _); [done|auto with hop].
Qed.

Lemma reconcile_keeps env st : keeps worker_inv (reconcile env st).
Proof.
  unfold reconcile. apply bind_keeps; [auto with hop|]. intros now_. apply bind_keeps.
  - unfold recoverLostRunners. apply bind_keeps; [auto with hop|]. intros [attempts|e]; [|auto with hop].
    apply recover_keeps.
  - intros [[u|e] st']; simpl; [|auto with hop]. apply bind_keeps; [auto 10 with hop|].
    intros [queued|e]; [|auto with hop]. destruct (launch_loop _ _ _ _) as [[u'|e'] st2]; auto with hop.
Qed.

Lemma set_progress_keeps id phase c t : keeps worker_inv (setProgress id phase c t).
Proof. unfold setProgress. destruct (_ <=? _)%Z; auto 10 with hop. Qed.

(** A calm run of [advanceLoaded] on the stored job applies the transition. *)
Lemma advanceLoaded_calm w id current to failure :
  calm w → Repo_Get id (w_db w) = Ok (current, w_db w) → state_step (JobState current) to →
  validateFailureForState to failure = Ok failure →
  let at_ := w_clock w (w_ticks w) in
  int64_range at_ → (UpdatedAt current ≤ at_)%Z → int64_range (UpdatedAt current) →
  ∃ w' next, advanceLoaded current to failure w = (Ok next, w') ∧ calm w' ∧
    next = MkJob (ID current) (JobSpec current) to (CreatedAt current) at_ failure (JobProgress current) ∧
    Repo_Get id (w_db w') = Ok (next, w_db w') ∧
    w_clock w' = w_clock w ∧ w_ticks w' = S (w_ticks w).
Proof.
  intros Hw Hget Hstep Hf at_ Hat Hle Hup.
  assert (Job_Validate current = Ok tt) as Hv.
  { apply get_ok in Hget as (_ & Hid & row & _ & Hscan). by apply scanJob_inv in Hscan as [? _]. }
  set (next := MkJob (ID current) (JobSpec current) to (CreatedAt current) at_ failure (JobProgress current)).
  assert (Job_Apply current to at_ failure = Ok (next, MkTransition (ID current) (JobState current) to at_ failure)) as Happly.
  { apply job_apply_ok. split_and!; auto. by apply int64_not_zero. }
  destruct (apply_transition_succeeds _ _ _ _ _ _ _ _ Hget Happly Hat Hup) as (d' & Ht & Hget').
  unfold advanceLoaded, now, mbind, M_bind, lift. fold at_. rewrite Happly. cbn [fst snd].
  rewrite calm_atomically by done. cbn [w_db]. rewrite Ht. eexists _, next. by split_and!.
Qed.

End Lemmas.

(** *** Errors of the transactions *)

Section Free.
Context `{UnicodeCase}.
Abbreviation completed := ExecErrAttemptCompleted.

Lemma spec_free spec : free completed (Spec_Validate spec).
Proof.
  assert (∀ outputs keys, free completed (validate_outputs outputs keys)) as Ho.
  { induction outputs as [|o outputs IH]; intros keys; cbn [validate_outputs]; frees. }
  assert (∀ tools p, free completed (validate_tools tools p)) as Ht.
  { induction tools as [|t tools IH]; intros p; cbn [validate_tools]; frees. }
  unfold Spec_Validate. frees; auto.
Qed.
#[local] Hint Resolve spec_free : hop_free.

Lemma failure_free s f : free completed (validateFailureForState s f).
Proof. unfold validateFailureForState, Failure_Validate. frees. Qed.
#[local] Hint Resolve failure_free : hop_free.

Lemma progress_free p : free completed (Progress_Validate p).
Proof. unfold Progress_Validate. frees. Qed.
#[local] Hint Resolve progress_free : hop_free.

Lemma job_free j : free completed (Job_Validate j).
Proof. unfold Job_Validate. frees. Qed.
#[local] Hint Resolve job_free : hop_free.

Lemma apply_free j to at_ f : free completed (Job_Apply j to at_ f).
Proof. unfold Job_Apply, ValidateTransition. frees. Qed.
#[local] Hint Resolve apply_free : hop_free.

Lemma query_free id : tx_free completed (queryJob id).
Proof.
  unfold queryJob, scanJob, ParseID, ParseState, decodeFailure, decodeProgress, decodeProgressValues, ParseProgressPhase.
  frees.
Qed.
#[local] Hint Resolve query_free : hop_free.

Lemma update_free id w f : tx_free completed (update_execution id w f).
Proof. unfold update_execution, constraint. frees. Qed.
#[local] Hint Resolve update_free : hop_free.

Lemma transition_free tr : tx_free completed (applyJobTransition tr).
Proof.
  unfold applyJobTransition, update_job_row, constraint. apply tx_free_bind.
  - intros d e. unfold on_no_rows. destruct (queryJob _ d) eqn:E; [done|]. destruct (errors_is _ _); intros [= <-]; [set_solver|].
    by eapply query_free.
  - intros cur. frees.
Qed.
End Free.

(** *** Recovery of lost runners *)

Section Recovery.
Context `{UnicodeCase}.

Lemma completion_free c : free ExecErrAttemptCompleted (Completion_Validate c).
Proof. unfold Completion_Validate, Failure_Validate. frees. Qed.

Lemma attempt_free a : free ExecErrAttemptCompleted (Attempt_Validate a).
Proof. unfold Attempt_Validate. frees. Qed.

#[local] Hint Resolve completion_free attempt_free transition_free query_free update_free : hop_free.

(** On an active attempt [Complete] does not report that it is completed. *)
Lemma complete_tx_free id ex pid c d e :
  ID_Valid id = true → job_executions d !! id = Some ex → Attempt_Validate (attempt_of_row id ex) = Ok tt →
  active ex = true → complete_tx id pid c d = Err e → ExecErrAttemptCompleted ∉ e.
Proof.
  intros Hid Hex Hv Hact. assert (getAttempt id d = Ok (attempt_of_row id ex, d)) as Hg.
  { apply getAttempt_ok; [done|]. eauto. }
  unfold complete_tx. unfold mbind at 1, Tx_bind at 1. rewrite Hg. unfold mbind at 1, Tx_bind at 1, tx_lift at 1.
  destruct (negb _); [intros [= <-]; set_solver|]. cbn [reject_if].
  unfold mbind at 1, Tx_bind at 1, tx_lift at 1.
  assert (bool_decide (AttemptStatus (attempt_of_row id ex) = StatusCompleted) = false) as ->.
  { apply bool_decide_eq_false_2. simpl. unfold active, in_strings in Hact. apply bool_decide_eq_true_1 in Hact.
    assert (ex_status ex = "starting" ∨ ex_status ex = "running") as [-> | ->] by (clear -Hact; set_solver); done. }
  cbn [reject_if]. match goal with |- ?t d = Err e → _ => assert (tx_free ExecErrAttemptCompleted t) as Hf end.
  { unfold requireOneAffected. frees. }
  apply Hf.
Qed.

(** A calm completion of an active attempt either commits or fails for another
    reason than that the attempt is completed. *)
Lemma Complete_calm id ex pid c w r w' :
  calm w → ID_Valid id = true → job_executions (w_db w) !! id = Some ex →
  Attempt_Validate (attempt_of_row id ex) = Ok tt → active ex = true →
  Complete id pid c w = (r, w') →
  match r with
  | Ok (j, a) => calm w' ∧ complete_tx id pid c (w_db w) = Ok ((j, a), w_db w')
  | Err e => ExecErrAttemptCompleted ∉ e
  end.
Proof.
  intros Hw Hid Hex Hv Hact. unfold Complete, mbind, M_bind, lift. rewrite Hid. cbn [negb reject_if].
  destruct (pid <=? 0)%Z; [intros [= <- <-]; set_solver|]. cbn [reject_if].
  destruct (Completion_Validate c) as [[]|e] eqn:Ec; [|intros [= <- <-]; by eapply completion_free].
  rewrite calm_atomically by done. destruct (complete_tx _ _ _ _) as [[[j a] d']|e] eqn:Et.
  - cbn [snd]. destruct (Attempt_Validate a) as [[]|e] eqn:Ea; intros [= <- <-]; [done|by eapply attempt_free].
  - intros [= <- <-]. by eapply complete_tx_free.
Qed.

(** The loop over the active attempts, given as rows. *)
Lemma recover_loop_calm env now_ rows : ∀ w st st' w',
  calm w → NoDup rows.*1 →
  (∀ id ex, (id, ex) ∈ rows → ID_Valid id = true ∧ active ex = true ∧
     Attempt_Validate (attempt_of_row id ex) = Ok tt ∧ job_executions (w_db w) !! id = Some ex) →
  recover_loop env now_ (map (λ r, attempt_of_row r.1 r.2) rows) st w = (Ok (Ok tt, st'), w') →
  (∀ id ex, (id, ex) ∈ rows →
     if runner_lost env now_ (attempt_of_row id ex) then
       job_executions (w_db w') !! id = Some (finished_row ex (lost_completion now_)) ∧
       (∃ row, jobs (w_db w') !! id = Some row ∧ row_state row = "failed") ∧
       ((0 < ProcessPID (attempt_of_row id ex))%Z → ProcessPID (attempt_of_row id ex) ∈ kills st')
     else job_executions (w_db w') !! id = Some ex ∧ jobs (w_db w') !! id = jobs (w_db w) !! id) ∧
  (∀ id, id ∉ rows.*1 → job_executions (w_db w') !! id = job_executions (w_db w) !! id ∧
     jobs (w_db w') !! id = jobs (w_db w) !! id) ∧
  (∀ p, p ∈ kills st → p ∈ kills st').
Proof.
  induction rows as [|[id ex] rows IH]; intros w st st' w' Hw Hnd Hrows; cbn [map recover_loop].
  { intros [= <- <-]. split_and!; [by intros ? ? ?%elem_of_nil|done|done]. }
  cbn [fst snd]. apply NoDup_cons in Hnd as [Hnotin Hnd]. simpl in Hnotin.
  destruct (Hrows id ex) as (Hid & Hact & Hval & Hex); [set_solver|].
  destruct (runner_lost env now_ (attempt_of_row id ex)) eqn:Hlost; cbn [negb].
  2: { intros Hrun. destruct (IH w st st' w') as (H1 & H2 & H3); [done..| |done|].
       { intros id2 ex2 Hin. apply Hrows. set_solver. }
       destruct (H2 id Hnotin) as [E1 E2]. split_and!; [|set_solver|done].
       intros id2 ex2 [[= -> ->]|Hin]%elem_of_cons; [|by apply H1]. rewrite Hlost, E1, E2. done. }
  set (killing := (0 <? ProcessPID (attempt_of_row id ex))%Z). cbn zeta.
  set (st1 := if killing then _ else st).
  destruct (killing && _); [intros [=]|].
  unfold mbind at 1, M_bind at 1, try_ at 1.
  change (AttemptJobID (attempt_of_row id ex)) with id. change (RunnerPID (attempt_of_row id ex)) with (ex_runner_pid ex).
  destruct (Complete _ _ _ w) as [[[j a]|e] w1] eqn:Ec.
  all: eapply Complete_calm in Ec; [|done..].
  2: { unfold errors_is. rewrite bool_decide_eq_false_2 by done. intros [=]. }
  destruct Ec as [Hw1 Ht]. apply complete_tx_ok in Ht as (ex' & from & Hex' & _ & _ & _ & _ & _ & _ & Hh & _); [|done].
  simplify_eq. pose proof (handed_frame _ _ _ _ _ _ _ _ _ Hh) as (Hoth & Hnew & _).
  apply handed_job in Hh as (_ & _ & _ & (row & Hrow & Hst) & _); [|done].
  intros Hrun. destruct (IH w1 st1 st' w') as (H1 & H2 & H3); [done..| |done|].
  { intros id2 ex2 Hin. destruct (Hrows id2 ex2) as (? & ? & ? & He2); [set_solver|]. split_and!; [done..|].
    assert (id2 ≠ id) as Hne by (intros ->; apply Hnotin; by apply (list_elem_of_fmap_2 fst) in Hin).
    destruct (Hoth _ Hne) as [_ ->]. done. }
  destruct (H2 id Hnotin) as [E1 E2]. split_and!.
  - intros id2 ex2 [[= -> ->]|Hin]%elem_of_cons.
    + rewrite Hlost, E1, E2. split_and!; [done|by eauto|]. intros Hp. apply H3. unfold st1, killing.
      rewrite (proj2 (Z.ltb_lt _ _) Hp). simpl. set_solver.
    + specialize (H1 _ _ Hin). assert (id2 ≠ id) as Hne by (intros ->; apply Hnotin; by apply (list_elem_of_fmap_2 fst) in Hin).
      destruct (Hoth _ Hne) as [<- _]. done.
  - intros id2 Hn. simpl in Hn. apply not_elem_of_cons in Hn as [Hne Hn]. destruct (H2 _ Hn) as [-> ->].
    destruct (Hoth _ Hne) as [-> ->]. done.
  - intros p Hp. apply H3. unfold st1. destruct killing; simpl; set_solver.
Qed.

Lemma scan_attempts_ok rows attempts :
  (∀ id ex, (id, ex) ∈ rows → ID_Valid id = true) → scan_attempts rows = Ok attempts →
  attempts = map (λ r, attempt_of_row r.1 r.2) rows ∧
  ∀ id ex, (id, ex) ∈ rows → Attempt_Validate (attempt_of_row id ex) = Ok tt.
Proof.
  revert attempts. induction rows as [|[id ex] rows IH]; intros attempts Hid; cbn [scan_attempts].
  { intros [= <-]. split; [done|]. by intros ? ? ?%elem_of_nil. }
  intros (a & Ha & (rest & Hrest & [= <-])%result_bind_ok)%result_bind_ok.
  apply scanAttempt_ok in Ha as [-> Hv]; [|apply (Hid id ex); set_solver].
  destruct (IH rest) as [-> Hall]; [intros id2 ex2 Hin; apply (Hid id2 ex2); set_solver|done|]. split; [done|].
  intros id2 ex2 [[= -> ->]|Hin]%elem_of_cons; [done|]. by apply Hall.
Qed.
End Recovery.

(** ** Properties *)

(** Every worker service keeps the worker invariant (audit trail, custody, honest
    outcomes), with failures anywhere, as long as the processes that run beside
    it keep it between its steps: submission, cancellation, progress updates and
    a full dispatcher round. *)
Theorem services_keep_invariant (U : UnicodeCase) :
  (∀ generated spec, keeps worker_inv (Submit generated spec)) ∧
  (∀ id, keeps worker_inv (Cancel id)) ∧
  (∀ id phase c t, keeps worker_inv (setProgress id phase c t)) ∧
  (∀ id, keeps worker_inv (Service_Get id)) ∧
  (∀ options, keeps worker_inv (Service_List options)) ∧
  (∀ env st, keeps worker_inv (reconcile env st)).
Proof.
  split_and!; intros.
  - unfold Submit. apply bind_keeps; [auto with hop|]. intros id. apply submit_keeps.
  - apply cancel_keeps.
  - apply set_progress_keeps.
  - unfold Service_Get, withProgress. auto 10 with hop.
  - unfold Service_List. apply bind_keeps; [auto 10 with hop|]. apply with_progress_keeps.
  - apply reconcile_keeps.
Qed.

(** A submitted job is accepted into the queue.  For a free valid ID, a valid
    storable specification and a clock that does not run backwards, [Submit]
    returns the job in state [queued] with its specification, stamped with the
    first and last clock reading; [Get] then reads exactly that job. *)
Theorem submit_queues (U : UnicodeCase) id spec w :
  calm w → ID_Valid id = true → Spec_Validate spec = Ok tt →
  jobs (w_db w) !! id = None → job_progress (w_db w) !! id = None →
  let t0 := w_clock w (w_ticks w) in
  let t1 := w_clock w (S (w_ticks w)) in
  let t2 := w_clock w (S (S (w_ticks w))) in
  storable (MkJob id spec StateCreated t0 t0 None None) →
  int64_range t1 → int64_range t2 → (t0 ≤ t1 ≤ t2)%Z →
  ∃ w', Submit (Ok id) spec w = (Ok (MkJob id spec StateQueued t0 t2 None None), w') ∧
    Repo_Get id (w_db w') = Ok (MkJob id spec StateQueued t0 t2 None None, w_db w').
Proof.
  intros Hw Hid Hspec Hno Hnop t0 t1 t2 Hstore H1 H2 Hmono.
  set (created := MkJob id spec StateCreated t0 t0 None None) in *.
  assert (int64_range t0) as H0 by apply Hstore.
  assert (Job_New id spec t0 = Ok created) as Hnew.
  { unfold Job_New. fold created. assert (Job_Validate created = Ok tt) as ->; [|done].
    apply job_validate_ok. simpl. rewrite int64_not_zero by done. by split_and!. }
  assert (Job_Validate created = Ok tt) as Hv by (unfold Job_New in Hnew; by invert_ok Hnew; destruct_unit).
  set (d1 := set_jobs <[id := encode_job created]> (w_db w)).
  assert (Repo_Create created (w_db w) = Ok (tt, d1)) as Hc.
  { apply create_ok. destruct Hstore as (? & ? & ? & ? & ? & ?). split_and!; auto. by apply encode_checks. }
  assert (Repo_Get id d1 = Ok (created, d1)) as Hget.
  { apply get_ok. split; [done|]. split; [done|]. exists (encode_job created).
    split; [apply lookup_insert_eq|]. simpl. rewrite Hnop. by rewrite (scan_encode created None None). }
  unfold Submit, submitWithID, mbind, M_bind, lift at 1, now at 1, lift at 1. fold t0. rewrite Hnew.
  rewrite calm_atomically by done. cbn [w_db]. rewrite Hc. set (w2 := accessed _ d1).
  destruct (advanceLoaded_calm w2 id created StateValidating None)
    as (w3 & j & -> & Hw3 & -> & Hget3 & Hclk & Htk); try done; [simpl; lia|].
  set (validating := MkJob _ _ StateValidating _ _ _ _) in *.
  destruct (advanceLoaded_calm w3 id validating StateQueued None)
    as (w4 & j & -> & _ & -> & Hget4 & _); rewrite ?Hclk, ?Htk; try done; [simpl; lia|].
  rewrite Hclk, Htk in Hget4. by exists w4.
Qed.

Lemma submit_queues_witness :
  ∃ w', @Submit ascii_case (Ok sample_id) sample_spec (quiet empty_database (λ _, sample_time))
      = (Ok (MkJob sample_id sample_spec StateQueued sample_time sample_time None None), w') ∧
    @Repo_Get ascii_case sample_id (w_db w')
      = Ok (MkJob sample_id sample_spec StateQueued sample_time sample_time None None, w_db w').
Proof.
  apply (submit_queues ascii_case sample_id sample_spec (quiet empty_database (λ _, sample_time)));
    [split; reflexivity|reflexivity|reflexivity|reflexivity|reflexivity| |split; [discriminate|reflexivity]..|split; reflexivity].
  split_and!; [split; [discriminate|reflexivity]..|repeat constructor|repeat constructor| |reflexivity].
  intros k v Hk. change (({["CI" := "1"]} : gmap string string) !! k = Some v) in Hk.
  apply lookup_singleton_Some in Hk as [<- <-]. split; reflexivity.
Defined.

(** Cancel does the right thing for every state of the job.  A cancelled job is
    returned as it is; any other terminal job is refused; for a job that a
    runner holds, the request is recorded on its attempt and the job itself is
    left for the runner to finish; any other job is cancelled at once, and the
    next [Get] reads it so. *)
Theorem cancel_outcome (U : UnicodeCase) id current w :
  calm w → Repo_Get id (w_db w) = Ok (current, w_db w) →
  let at_ := w_clock w (w_ticks w) in
  int64_range at_ → int64_range (UpdatedAt current) → (UpdatedAt current ≤ at_)%Z →
  (in_custody (JobState current) = true → ∃ ex, job_executions (w_db w) !! id = Some ex ∧
     execution_row_checks ex = true ∧ active ex = true ∧ (ex_claimed_ns ex ≤ at_)%Z) →
  ∃ w',
    if bool_decide (JobState current = StateCancelled) then
      Cancel id w = (Ok current, w') ∧ w_db w' = w_db w
    else if State_Terminal (JobState current) then
      Cancel id w = (Err [WorkerErrJobTerminal], w') ∧ w_db w' = w_db w
    else if in_custody (JobState current) then
      Cancel id w = (Ok current, w') ∧ ∃ ex, job_executions (w_db w) !! id = Some ex ∧
        w_db w' = set_executions <[id := cancelling_row ex at_]> (w_db w)
    else ∃ cancelled, Cancel id w = (Ok cancelled, w') ∧ JobState cancelled = StateCancelled ∧
      JobSpec cancelled = JobSpec current ∧ Repo_Get id (w_db w') = Ok (cancelled, w_db w').
Proof.
  intros Hw Hget at_ Hat Hup Hle Hex.
  set (w1 := accessed w (w_db w)). assert (calm w1) as Hw1 by auto with hop.
  assert (Cancel id w = (if bool_decide (JobState current = StateCancelled) then mret current
      else if State_Terminal (JobState current) then fail [WorkerErrJobTerminal]
      else if in_custody (JobState current) then
        at_ ← now; requested ← try_ (RequestCancellation id at_);
        match requested with
        | Err e => if errors_is e ExecErrAttemptCompleted then atomically (Repo_Get id) else fail e
        | Ok _ => atomically (Repo_Get id)
        end
      else cancelled ← try_ (advanceLoaded current StateCancelled None);
        match cancelled with
        | Err e => if errors_is e JobErrConflict then cancel_loop 1 id else fail e
        | Ok value => mret value
        end) w1) as Hrun.
  { unfold Cancel. cbn [cancel_loop]. unfold mbind at 1, M_bind at 1. by rewrite calm_atomically, Hget. }
  case_bool_decide; [by exists w1|]. destruct (State_Terminal (JobState current)) eqn:Ht; [by exists w1|].
  destruct (in_custody (JobState current)) eqn:Hc.
  - destruct (Hex eq_refl) as (ex & He & Hchk & Hact & Hcl).
    assert (ID_Valid id = true) as Hid by (apply get_ok in Hget as (_ & ? & _); done).
    unfold mbind, M_bind, now, try_ in Hrun. set (w2 := MkWorld _ _ _ _ _ _ _) in Hrun.
    change (w_clock w1 (w_ticks w1)) with at_ in Hrun.
    rewrite (request_calm w2 id ex) in Hrun by (done || by apply cancelling_checks).
    rewrite calm_atomically in Hrun by done. cbn [w_db accessed w2 w1] in Hrun.
    assert (Repo_Get id (set_executions <[id := cancelling_row ex at_]> (w_db w))
      = Ok (current, set_executions <[id := cancelling_row ex at_]> (w_db w))) as Hget'.
    { apply get_ok in Hget as (_ & _ & Hrow). apply get_ok. by split_and!. }
    rewrite Hget' in Hrun. eexists. split; [exact Hrun|]. eauto.
  - destruct (advanceLoaded_calm w1 id current StateCancelled None) as (w2 & j & Hadv & _ & -> & Hget' & _); try done.
    { apply get_ok in Hget as (_ & Hid & row & _ & Hscan).
      apply scanJob_inv in Hscan as [Hval _]; [|done]. apply job_validate_ok in Hval as (_ & _ & Hv & _).
      apply can_transition_iff. destruct (JobState current); try discriminate; simpl; set_solver. }
    unfold mbind, M_bind, try_ in Hrun. rewrite Hadv in Hrun. eexists w2, _. by split_and!.
Qed.

Lemma cancel_outcome_witness :
  ∃ w' cancelled, @Cancel ascii_case sample_id (quiet (sample_db StateQueued) (λ _, sample_time)) = (Ok cancelled, w')
    ∧ JobState cancelled = StateCancelled.
Proof.
  destruct (cancel_outcome ascii_case sample_id
    (MkJob sample_id sample_spec StateQueued sample_time sample_time None None)
    (quiet (sample_db StateQueued) (λ _, sample_time))) as (w' & cancelled & Hrun & Hst & _);
    [split; reflexivity|vm_compute; reflexivity|split; [discriminate|reflexivity]|split; [discriminate|reflexivity]
    |discriminate|discriminate|].
  exists w', cancelled. split; [exact Hrun|exact Hst].
Defined.


Definition sample_env : DispatcherEnv :=
  MkDispatcherEnv (λ _, false) (λ _, true) (λ _, true) defaultLaunchRetry defaultRunnerStaleAfter.


(** Launches are throttled and complete.  A round launches each queued job at most
    once, and only a job that was not launched within the retry interval; it
    remembers the time of each launch; and unless a launch fails, every queued
    job has been launched now or recently. *)
Theorem launch_throttled env now_ queued st r st' :
  NoDup (map ID queued) → launch_loop env now_ queued st = (r, st') →
  ∃ new, launches st' = launches st ++ new ∧ NoDup new ∧ kills st' = kills st ∧
    (∀ id, id ∈ new → id ∈ map ID queued ∧ recently_launched env now_ st id = false ∧
       launched st' !! id = Some now_) ∧
    (∀ id, id ∉ new → launched st' !! id = launched st !! id) ∧
    (r = Ok tt → ∀ j, j ∈ queued → ID j ∈ new ∨ recently_launched env now_ st (ID j) = true).
Proof.
  revert st r st'. induction queued as [|j queued IH]; intros st r st'; cbn [map launch_loop].
  { intros _ [= <- <-]. exists []. rewrite app_nil_r. split_and!; [done|constructor|done| |done|]; set_solver. }
  intros [Hnotin Hnd]%NoDup_cons. destruct (recently_launched env now_ st (ID j)) eqn:Hr.
  { intros Hrun. destruct (IH _ _ _ Hnd Hrun) as (new & H1 & H2 & H3 & H4 & H5 & H6). exists new.
    split_and!; auto; [set_solver|]. intros Hok j' [->|Hj]%elem_of_cons; [by right|by apply H6]. }
  set (st1 := MkDispatcher _ _ _).
  assert (∀ id, id ≠ ID j → launched st1 !! id = launched st !! id) as Hst1
    by (intros id Hne; simpl; by rewrite lookup_insert_ne).
  destruct (launcher_Launch env (ID j)).
  - intros Hrun. destruct (IH _ _ _ Hnd Hrun) as (new & H1 & H2 & H3 & H4 & H5 & H6).
    assert (ID j ∉ new) as Hjn by (intros Hin; by destruct (H4 _ Hin)).
    exists (ID j :: new). split_and!.
    + rewrite H1. simpl. by rewrite <-app_assoc.
    + by constructor.
    + done.
    + intros id [->|Hin]%elem_of_cons.
      * split_and!; [set_solver|done|]. rewrite H5 by done. simpl. by rewrite lookup_insert_eq.
      * destruct (H4 _ Hin) as (Hq & Hrec & Hl). split_and!; [set_solver| |done].
        unfold recently_launched in *. by rewrite Hst1 in Hrec by set_solver.
    + intros id [Hne Hid]%not_elem_of_cons. by rewrite H5, Hst1.
    + intros Hok j' [->|Hj]%elem_of_cons; [left; set_solver|].
      destruct (H6 Hok _ Hj) as [?|Hrec]; [left; set_solver|]. right.
      unfold recently_launched in *. rewrite Hst1 in Hrec; [done|].
      intros E. apply Hnotin. rewrite <-E. by apply list_elem_of_fmap_2.
  - intros [= <- <-]. exists [ID j]. split_and!.
    + done.
    + apply NoDup_singleton.
    + done.
    + intros id ->%list_elem_of_singleton. split_and!; [set_solver|done|]. simpl. by rewrite lookup_insert_eq.
    + intros id Hid. apply Hst1. set_solver.
    + intros [=].
Qed.

Lemma launch_throttled_witness :
  let j := MkJob sample_id sample_spec StateQueued sample_time sample_time None None in
  ∃ new, launches (launch_loop sample_env sample_time [j] (MkDispatcher ∅ [] [])).2 = [] ++ new ∧ NoDup new.
Proof.
  intros j. destruct (launch_loop sample_env sample_time [j] (MkDispatcher ∅ [] [])) as [r st'] eqn:E.
  destruct (launch_throttled sample_env sample_time [j] (MkDispatcher ∅ [] []) r st') as (new & H1 & H2 & _);
    [apply NoDup_singleton|exact E|]. exists new. split; [exact H1|exact H2].
Defined.
