(* ===== verification/Runner.v ===== *)
(** * The runner (internal/app/worker/runner.go)

    A runner claims one job, starts its process, keeps the claim alive with
    heartbeats, watches for cancellation and finally reports one completion.
    Each [select] loop is a function of the sequence of its outcomes (a timer
    tick, the awaited event, the end of the context); a run whose sequence is
    exhausted is still waiting ([None]).  The process, the executor, the log
    writer and the artifact collector are arguments ([RunnerEnv]); of an error
    only its text enters a completion, given by [error_text]. *)

From S2P Require Import Prelude GoText PortablePath JobModel Execution Effects JobStore ExecutionStore LogStore Custody Worker.
From stdpp Require Import pretty.
Local Open Scope string_scope.
Local Open Scope nat_scope.
Local Open Scope list_scope.

(** [processes.Exit]; [WaitErr] is the text of the error of waiting, if any. *)
Record Exit := MkExit { ExitCodeOf : Z; ExitSignal : string; WaitErr : option string }.

Inductive start_result := StartedProcess (pid : Z) | StartFailed (cause : string).
Inductive start_event := StartFinished (r : start_result) | StartTick | StartStopped.
Inductive run_event := ProcessExited (exit : Exit) | RunTick | RunStopped.
Inductive collect_event := Collected (cause : option string) | CollectTick | CollectStopped.

Record RunnerEnv := MkRunnerEnv {
  runnerPID : Z;
  open_writer : result unit;            (* outcome of [logs.OpenWriter] *)
  close_writer : option string;         (* text of the error of closing the writer *)
  start_events : list start_event;
  late_start : start_result;            (* what a cancelled start still delivers *)
  run_events : list run_event;
  stop_exit : Exit;                     (* the exit after [stop] or [Kill] *)
  context_error : string;               (* text of [ctx.Err()] *)
  has_progress : bool;                  (* whether a progress repository is configured *)
  has_artifacts : bool;                 (* whether artifact collection is configured *)
  collect_events : list collect_event;
  error_text : list sentinel → string
}.

Definition failedCompletion (at_ : Z) (code message : string) (cause : option string)
    (exitCode : option Z) (signal : string) : Completion :=
  let message := match cause with Some text => (message +:+ ": " +:+ text)%string | None => message end in
  MkCompletion at_ exitCode signal (Some (MkFailure code message false)) false.

Definition completionForExit (at_ : Z) (exit : Exit) : Completion :=
  if (ExitCodeOf exit =? 0)%Z && bool_decide (ExitSignal exit = "") && negb (is_some (WaitErr exit)) then
    MkCompletion at_ (Some (ExitCodeOf exit)) "" None false
  else
    let message := ("process exited with code " +:+ pretty (ExitCodeOf exit))%string in
    let message := if negb (bool_decide (ExitSignal exit = ""))
                   then ("process terminated by " +:+ ExitSignal exit)%string else message in
    let message := match WaitErr exit with Some text => text | None => message end in
    MkCompletion at_ (Some (ExitCodeOf exit)) (ExitSignal exit) (Some (MkFailure "process_exit" message false)) false.

Definition cancelledCompletion (at_ : Z) (exitCode : option Z) (signal : string) : Completion :=
  MkCompletion at_ exitCode signal None true.

Section Runner.
Context `{UnicodeCase} (env : RunnerEnv).

Abbreviation pid := (runnerPID env).

(** A completion and the error that goes with it (empty for [nil]). *)
Abbreviation Outcome := (Completion * list sentinel)%type.

Definition fail_with (code message : string) (e : list sentinel) : M Database Outcome :=
  at_ ← now;
  mret (failedCompletion at_ code message (Some (error_text env e)) None "", e).

Fixpoint start_loop (id : string) (events : list start_event) : M Database (option (Z + Outcome)) :=
  match events with
  | [] => mret None
  | StartFinished (StartFailed cause) :: _ =>
      at_ ← now;
      mret (Some (inr (failedCompletion at_ "process_start" "start process" (Some cause) None "", [])))
  | StartFinished (StartedProcess process) :: _ => mret (Some (inl process))
  | StartTick :: rest =>
      at_ ← now;
      beat ← try_ (Heartbeat id pid at_);
      match beat with
      | Err e => o ← fail_with "heartbeat" "persist runner heartbeat" e; mret (Some (inr o))
      | Ok _ =>
          requested ← try_ (CancellationRequested id pid);
          match requested with
          | Err e => o ← fail_with "check_cancellation" "poll cancellation request" e; mret (Some (inr o))
          | Ok true =>
              at_ ← now;
              mret (Some (inr (match late_start env with
                | StartedProcess _ =>
                    (cancelledCompletion at_ (Some (ExitCodeOf (stop_exit env))) (ExitSignal (stop_exit env)), [])
                | StartFailed _ => (cancelledCompletion at_ None "", [])
                end)))
          | Ok false => start_loop id rest
          end
      end
  | StartStopped :: _ =>
      at_ ← now;
      mret (Some (inr (match late_start env with
        | StartedProcess _ =>
            (failedCompletion at_ "runner_stopped" "runner was stopped before process start"
               (Some (context_error env)) (Some (ExitCodeOf (stop_exit env))) (ExitSignal (stop_exit env)), [DriverError])
        | StartFailed _ =>
            (failedCompletion at_ "runner_stopped" "runner was stopped before process start"
               (Some (context_error env)) None "", [DriverError])
        end)))
  end.

Definition stopAfterFailure (code message : string) (e : list sentinel) : M Database Outcome :=
  at_ ← now;
  mret (failedCompletion at_ code message (Some (error_text env e)) (Some (ExitCodeOf (stop_exit env)))
          (ExitSignal (stop_exit env)), e).

Fixpoint run_loop (id : string) (events : list run_event) : M Database (option Outcome) :=
  match events with
  | [] => mret None
  | ProcessExited exit :: _ =>
      at_ ← now;
      mret (Some (completionForExit at_ exit, if is_some (WaitErr exit) then [DriverError] else []))
  | RunTick :: rest =>
      at_ ← now;
      beat ← try_ (Heartbeat id pid at_);
      match beat with
      | Err e => o ← stopAfterFailure "heartbeat" "persist runner heartbeat" e; mret (Some o)
      | Ok _ =>
          requested ← try_ (CancellationRequested id pid);
          match requested with
          | Err e => o ← stopAfterFailure "check_cancellation" "poll cancellation request" e; mret (Some o)
          | Ok true =>
              at_ ← now;
              mret (Some (cancelledCompletion at_ (Some (ExitCodeOf (stop_exit env))) (ExitSignal (stop_exit env)),
                          if is_some (WaitErr (stop_exit env)) then [DriverError] else []))
          | Ok false => run_loop id rest
          end
      end
  | RunStopped :: _ =>
      at_ ← now;
      mret (Some (failedCompletion at_ "runner_stopped" "runner was stopped" (Some (context_error env))
                    (Some (ExitCodeOf (stop_exit env))) (ExitSignal (stop_exit env)), [DriverError]))
  end.

Definition runClaimed (current : Job) : M Database (option Outcome) :=
  let id := ID current in
  cancelled ← try_ (CancellationRequested id pid);
  match cancelled with
  | Err e => o ← fail_with "check_cancellation" "check cancellation before start" e; mret (Some o)
  | Ok true => at_ ← now; mret (Some (cancelledCompletion at_ None "", []))
  | Ok false =>
      started ← start_loop id (start_events env);
      match started with
      | None => mret None
      | Some (inr o) => mret (Some o)
      | Some (inl process) =>
          at_ ← now;
          marked ← try_ (MarkRunning id pid process at_);
          match marked with
          | Err e => o ← stopAfterFailure "mark_running" "record running process" e; mret (Some o)
          | Ok _ =>
              _ ← try_ (if has_progress env then atomically (Repo_ClearProgress id) else mret tt);
              run_loop id (run_events env)
          end
      end
  end.

Fixpoint collect_loop (id : string) (events : list collect_event) : M Database (option Outcome) :=
  match events with
  | [] => mret None
  | Collected (Some cause) :: _ =>
      at_ ← now;
      mret (Some (failedCompletion at_ "collect_artifacts" "collect declared outputs" (Some cause) None "", []))
  | Collected None :: _ => at_ ← now; mret (Some (MkCompletion at_ (Some 0%Z) "" None false, []))
  | CollectTick :: rest =>
      at_ ← now;
      beat ← try_ (Heartbeat id pid at_);
      match beat with
      | Err e => o ← fail_with "heartbeat" "persist artifact collection heartbeat" e; mret (Some o)
      | Ok _ =>
          requested ← try_ (CancellationRequested id pid);
          match requested with
          | Err e => o ← fail_with "check_cancellation" "poll artifact cancellation" e; mret (Some o)
          | Ok true => at_ ← now; mret (Some (cancelledCompletion at_ None "", []))
          | Ok false => collect_loop id rest
          end
      end
  | CollectStopped :: _ =>
      at_ ← now;
      mret (Some (failedCompletion at_ "runner_stopped" "runner stopped during artifact collection"
                    (Some (context_error env)) None "", [DriverError]))
  end.

Definition collectDeclaredArtifacts (id : string) : M Database (option Outcome) :=
  if negb (has_artifacts env) then
    at_ ← now;
    mret (Some (failedCompletion at_ "artifacts_unavailable" "collect declared outputs"
                  (Some "artifact collection is not configured") None "", []))
  else
    loaded ← try_ (atomically (Repo_Get id));
    match loaded with
    | Err e => o ← fail_with "load_job" "load job before artifact collection" e; mret (Some o)
    | Ok current =>
        at_ ← now;
        match Job_Apply current StateCollecting at_ None with
        | Err e => o ← fail_with "begin_collection" "begin artifact collection" e; mret (Some o)
        | Ok (_, transition) =>
            collecting ← try_ (atomically (Repo_ApplyTransition transition));
            match collecting with
            | Err e => o ← fail_with "begin_collection" "persist artifact collection state" e; mret (Some o)
            | Ok _ => collect_loop id (collect_events env)
            end
        end
    end.

Definition failClaimed (id : string) (code message : string) (e : list sentinel) : M Database (option (list sentinel)) :=
  at_ ← now;
  completed ← try_ (Complete id pid (failedCompletion at_ code message (Some (error_text env e)) None ""));
  mret (Some (e ++ errors_of completed)).

(** The completion [Run] reports for an outcome, once it has closed the log. *)
Definition final_completion (outcome : Outcome) : M Database Completion :=
  completion ←
    (match close_writer env with
     | Some text =>
         if negb (is_some (CompletionFailure outcome.1)) && negb (Cancelled outcome.1) then
           at_ ← now;
           mret (failedCompletion at_ "close_logs" "close durable job logs" (Some text)
                   (CompletionExitCode outcome.1) (CompletionSignal outcome.1))
         else mret outcome.1
     | None => mret outcome.1
     end);
  if is_zero_time (CompletionAt completion) then
    at_ ← now;
    mret (MkCompletion at_ (CompletionExitCode completion) (CompletionSignal completion)
            (CompletionFailure completion) (Cancelled completion))
  else mret completion.

(** What remains of [Run] once there is an outcome: close the log and report. *)
Definition report (id : string) (outcome : Outcome) : M Database (option (list sentinel)) :=
  completion ← final_completion outcome;
  completed ← try_ (Complete id pid completion);
  mret (Some (outcome.2 ++ (if is_some (close_writer env) then [DriverError] else []) ++ errors_of completed)).

Definition Run (id : string) : M Database (option (list sentinel)) :=
  at_ ← now;
  _ ← Claim id pid at_;
  loaded ← try_ (atomically (Repo_Get id));
  match loaded with
  | Err e => failClaimed id "load_job" "load claimed job" e
  | Ok current =>
      match open_writer env with
      | Err e => failClaimed id "open_logs" "open durable job logs" e
      | Ok _ =>
          ran ← runClaimed current;
          match ran with
          | None => mret None
          | Some outcome =>
              if bool_decide (Completion_Kind outcome.1 = CompletionSucceeded)
                 && negb (bool_decide (Outputs (JobSpec current) = []))
              then
                collected ← collectDeclaredArtifacts (ID current);
                match collected with
                | None => mret None
                | Some outcome' => report id outcome'
                end
              else report id outcome
          end
      end
  end.

End Runner.

(** ** Lemmas *)

Section Keeps.
Context `{UnicodeCase} (env : RunnerEnv).

Lemma fail_with_keeps code message e : keeps worker_inv (fail_with env code message e).
Proof. unfold fail_with. auto with hop. Qed.

Lemma stop_keeps code message e : keeps worker_inv (stopAfterFailure env code message e).
Proof. unfold stopAfterFailure. auto with hop. Qed.

#[local] Hint Resolve fail_with_keeps stop_keeps : hop.

(** The heartbeat and poll shared by the supervision loops. *)
Lemma tick_keeps {A} id (on_beat on_poll : list sentinel → M Database A) (on_cancel continue : M Database A) :
  (∀ e, keeps worker_inv (on_beat e)) → (∀ e, keeps worker_inv (on_poll e)) →
  keeps worker_inv on_cancel → keeps worker_inv continue →
  keeps worker_inv (at_ ← now; beat ← try_ (Heartbeat id (runnerPID env) at_);
    match beat with
    | Err e => on_beat e
    | Ok _ => requested ← try_ (CancellationRequested id (runnerPID env));
        match requested with Err e => on_poll e | Ok true => on_cancel | Ok false => continue end
    end).
Proof.
  intros Hb Hp Hc Hk. apply bind_keeps; [auto with hop|]. intros at_. apply bind_keeps; [auto with hop|].
  intros [[]|e]; [|done]. apply bind_keeps; [auto with hop|]. intros [[]|e]; done.
Qed.

Lemma start_loop_keeps id events : keeps worker_inv (start_loop env id events).
Proof.
  induction events as [|[[process|cause]| |] events IH]; cbn [start_loop]; [auto with hop..| |auto with hop].
  apply tick_keeps; auto 10 with hop.
Qed.

Lemma run_loop_keeps id events : keeps worker_inv (run_loop env id events).
Proof.
  induction events as [|[exit| |] events IH]; cbn [run_loop]; [auto with hop..| |auto with hop].
  apply tick_keeps; auto 10 with hop.
Qed.

Lemma collect_loop_keeps id events : keeps worker_inv (collect_loop env id events).
Proof.
  induction events as [|[[cause|]| |] events IH]; cbn [collect_loop]; [auto with hop..| |auto with hop].
  apply tick_keeps; auto 10 with hop.
Qed.

#[local] Hint Resolve start_loop_keeps run_loop_keeps collect_loop_keeps : hop.

Lemma runClaimed_keeps current : keeps worker_inv (runClaimed env current).
Proof.
  unfold runClaimed. apply bind_keeps; [auto with hop|]. intros [[]|e]; [auto with hop| |auto 10 with hop].
  apply bind_keeps; [auto with hop|]. intros [[process|o]|]; [|auto with hop..].
  apply bind_keeps; [auto with hop|]. intros at_. apply bind_keeps; [auto with hop|].
  intros [a|e]; [|auto 10 with hop]. destruct (has_progress env); auto 10 with hop.
Qed.

Lemma collect_keeps id : keeps worker_inv (collectDeclaredArtifacts env id).
Proof.
  unfold collectDeclaredArtifacts. destruct (negb _); [auto with hop|]. apply bind_keeps; [auto 10 with hop|].
  intros [current|e]; [|auto 10 with hop]. apply bind_keeps; [auto with hop|]. intros at_.
  destruct (Job_Apply current StateCollecting at_ None) as [[next tr]|e] eqn:Ea; [|auto 10 with hop].
  apply bind_keeps; [|intros [j|e]; auto 10 with hop].
  apply try_keeps, atomically_keeps, service_transition_inv. eapply apply_service; [done|]. auto.
Qed.

Lemma report_keeps id outcome : keeps worker_inv (report env id outcome).
Proof.
  unfold report, final_completion. apply bind_keeps; [|auto 10 with hop]. apply bind_keeps.
  - destruct (close_writer env); [destruct (_ && _)|]; auto with hop.
  - intros c. destruct (is_zero_time _); auto with hop.
Qed.

Lemma failClaimed_keeps id code message e : keeps worker_inv (failClaimed env id code message e).
Proof. unfold failClaimed. auto 10 with hop. Qed.

End Keeps.

(** *** Results under a clock that never reads the zero time *)

Definition yields {DB A} (P : A → Prop) (m : M DB A) : Prop :=
  ∀ w r w', (∀ n, is_zero_time (w_clock w n) = false) → m w = (r, w') →
    w_clock w' = w_clock w ∧ ∀ a, r = Ok a → P a.

Lemma yields_bind {DB A B} (P : A → Prop) (Q : B → Prop) (m : M DB A) (f : A → M DB B) :
  yields P m → (∀ a, P a → yields Q (f a)) → yields Q (m ≫= f).
Proof.
  intros Hm Hf w r w' Hc. unfold mbind, M_bind. destruct (m w) as [[a|e] w1] eqn:Em; intros Hrun.
  - destruct (Hm _ _ _ Hc Em) as [E Hp]. destruct (Hf a (Hp a eq_refl) w1 r w') as [E' Hq]; [by rewrite E|done|].
    split; [congruence|done].
  - injection Hrun as <- <-. destruct (Hm _ _ _ Hc Em) as [E _]. split; [done|]. by intros a [=].
Qed.

Lemma yields_ret {DB A} (P : A → Prop) (a : A) : P a → yields (DB:=DB) P (mret a).
Proof. intros Hp w r w' _ [= <- <-]. split; [done|]. by intros ? [= <-]. Qed.

Lemma yields_now {DB} : yields (DB:=DB) (λ t, is_zero_time t = false) now.
Proof. intros w r w' Hc [= <- <-]. split; [done|]. intros ? [= <-]. apply Hc. Qed.

Lemma yields_lift {DB A} (r0 : result A) : yields (DB:=DB) (λ _, True) (lift r0).
Proof. intros w r w' Hc [= <- <-]. done. Qed.

Lemma yields_fail {DB A} (P : A → Prop) e : yields (DB:=DB) P (fail e).
Proof. intros w r w' Hc [= <- <-]. split; [done|]. by intros a [=]. Qed.

Lemma yields_atomically {DB A} (t : Tx DB A) : yields (λ _, True) (atomically t).
Proof.
  intros w r w' Hc Hrun. apply atomically_cases in Hrun as [(e & -> & -> & _)|(a & d' & -> & _ & ->)]; done.
Qed.

Lemma yields_try {DB A} (m : M DB A) : yields (λ _, True) m → yields (λ _, True) (try_ m).
Proof.
  intros Hm w r w' Hc. unfold try_. destruct (m w) as [r1 w1] eqn:E. intros [= <- <-].
  destruct (Hm _ _ _ Hc E). done.
Qed.

Lemma yields_any {DB A} (P : A → Prop) (m : M DB A) : yields P m → yields (λ _, True) m.
Proof. intros Hm w r w' Hc Hrun. by destruct (Hm _ _ _ Hc Hrun). Qed.

(** Repository calls: nothing about the result, the clock is unchanged. *)
Ltac calls := repeat first
  [ apply yields_atomically | apply yields_lift | apply yields_fail | apply yields_ret; done
  | apply yields_try | eapply yields_any, yields_now
  | eapply (yields_bind (λ _, True)); [|intros ? _]
  | match goal with |- context [match ?x with _ => _ end] => destruct x end ].

Section Outcomes.
Context `{UnicodeCase} (env : RunnerEnv).

Definition valid_outcome (o : option (Completion * list sentinel)) : Prop :=
  match o with Some o => Completion_Validate o.1 = Ok tt | None => True end.

Lemma failedCompletion_valid at_ code message cause exitCode signal :
  is_zero_time at_ = false → code ≠ "" → message ≠ "" →
  Completion_Validate (failedCompletion at_ code message cause exitCode signal) = Ok tt.
Proof.
  intros Hat Hc Hm. unfold Completion_Validate, failedCompletion, Failure_Validate. simpl. rewrite Hat. simpl.
  rewrite (bool_decide_eq_false_2 (code = "")) by done. simpl. rewrite bool_decide_eq_false_2; [done|].
  destruct cause; [|done]. by destruct message.
Qed.

Lemma cancelledCompletion_valid at_ exitCode signal :
  is_zero_time at_ = false → Completion_Validate (cancelledCompletion at_ exitCode signal) = Ok tt.
Proof. intros Hat. unfold Completion_Validate, cancelledCompletion. simpl. by rewrite Hat. Qed.

Lemma completionForExit_valid at_ exit :
  is_zero_time at_ = false → WaitErr exit ≠ Some "" → Completion_Validate (completionForExit at_ exit) = Ok tt.
Proof.
  intros Hat Hw. unfold completionForExit. destruct (_ && _ && _) eqn:E.
  - reflect_bools. unfold Completion_Validate. simpl. rewrite Hat. simpl. by rewrite bool_decide_eq_true_2 by congruence.
  - unfold Completion_Validate, Failure_Validate. simpl. rewrite Hat. simpl.
    rewrite bool_decide_eq_false_2; [done|]. destruct (WaitErr exit); [congruence|].
    destruct (negb (bool_decide _)); discriminate.
Qed.

(** The heartbeat and poll shared by the supervision loops. *)
Lemma tick_yields {A} (P : A → Prop) id (on_beat on_poll : list sentinel → M Database A)
    (on_cancel continue : M Database A) :
  (∀ e, yields P (on_beat e)) → (∀ e, yields P (on_poll e)) → yields P on_cancel → yields P continue →
  yields P (at_ ← now; beat ← try_ (Heartbeat id (runnerPID env) at_);
    match beat with
    | Err e => on_beat e
    | Ok _ => requested ← try_ (CancellationRequested id (runnerPID env));
        match requested with Err e => on_poll e | Ok true => on_cancel | Ok false => continue end
    end).
Proof.
  intros Hb Hp Hc Hk. eapply yields_bind; [apply yields_now|]. intros at_ _.
  eapply (yields_bind (λ _, True)).
  { unfold Heartbeat, explainOwnershipFailure, Exec_Get. calls. }
  intros [[]|e] _; [|done]. eapply (yields_bind (λ _, True)).
  { unfold CancellationRequested, Exec_Get. calls. }
  by intros [[]|e] _.
Qed.

(** Reports built from one reading of the clock. *)
Lemma stamped {A} (P : A → Prop) (f : Z → A) :
  (∀ at_, is_zero_time at_ = false → P (f at_)) → yields P (at_ ← now (DB:=Database); mret (f at_)).
Proof. intros Hf. eapply yields_bind; [apply yields_now|]. intros at_ Hat. by apply yields_ret, Hf. Qed.

Lemma reported {A} (P : A → Prop) (o : M Database (Completion * list sentinel)) (f : Completion * list sentinel → A) :
  yields (λ x, Completion_Validate x.1 = Ok tt) o →
  (∀ x, Completion_Validate x.1 = Ok tt → P (f x)) → yields P (x ← o; mret (f x)).
Proof. intros Ho Hf. eapply yields_bind; [exact Ho|]. intros x Hx. by apply yields_ret, Hf. Qed.

Lemma fail_with_valid code message e :
  code ≠ "" → message ≠ "" → yields (λ x, Completion_Validate x.1 = Ok tt) (fail_with env code message e).
Proof. intros Hc Hm. apply stamped. intros at_ Hat. by apply failedCompletion_valid. Qed.

Lemma stopAfterFailure_valid code message e :
  code ≠ "" → message ≠ "" → yields (λ x, Completion_Validate x.1 = Ok tt) (stopAfterFailure env code message e).
Proof. intros Hc Hm. apply stamped. intros at_ Hat. by apply failedCompletion_valid. Qed.

Definition valid_start (o : option (Z + Completion * list sentinel)) : Prop :=
  match o with Some (inr o) => Completion_Validate o.1 = Ok tt | _ => True end.

Lemma start_loop_valid id events : yields valid_start (start_loop env id events).
Proof.
  induction events as [|[[process|cause]| |] events IH]; cbn [start_loop].
  - by apply yields_ret.
  - by apply yields_ret.
  - apply stamped. intros at_ Hat. by apply failedCompletion_valid.
  - apply tick_yields; [(intros e; apply reported; [by apply fail_with_valid|done])..| |done].
    apply stamped. intros at_ Hat. simpl. destruct (late_start env); by apply cancelledCompletion_valid.
  - apply stamped. intros at_ Hat. simpl. destruct (late_start env); by apply failedCompletion_valid.
Qed.

Lemma run_loop_valid id events :
  (∀ exit, ProcessExited exit ∈ events → WaitErr exit ≠ Some "") → yields valid_outcome (run_loop env id events).
Proof.
  induction events as [|[exit| |] events IH]; intros Hex; cbn [run_loop].
  - by apply yields_ret.
  - apply stamped. intros at_ Hat. apply completionForExit_valid; [done|]. apply Hex. set_solver.
  - apply tick_yields; [(intros e; apply reported; [by apply stopAfterFailure_valid|done])..| |].
    + apply stamped. intros at_ Hat. by apply cancelledCompletion_valid.
    + apply IH. intros exit Hin. apply Hex. set_solver.
  - apply stamped. intros at_ Hat. by apply failedCompletion_valid.
Qed.

Lemma collect_loop_valid id events : yields valid_outcome (collect_loop env id events).
Proof.
  induction events as [|[[cause|]| |] events IH]; cbn [collect_loop].
  - by apply yields_ret.
  - apply stamped. intros at_ Hat. by apply failedCompletion_valid.
  - apply stamped. intros at_ Hat. simpl. unfold Completion_Validate. simpl. by rewrite Hat.
  - apply tick_yields; [(intros e; apply reported; [by apply fail_with_valid|done])..| |done].
    apply stamped. intros at_ Hat. by apply cancelledCompletion_valid.
  - apply stamped. intros at_ Hat. by apply failedCompletion_valid.
Qed.

Lemma runClaimed_valid current :
  (∀ exit, ProcessExited exit ∈ run_events env → WaitErr exit ≠ Some "") →
  yields valid_outcome (runClaimed env current).
Proof.
  intros Hex. unfold runClaimed. eapply (yields_bind (λ _, True)).
  { unfold CancellationRequested, Exec_Get. calls. }
  intros [[]|e] _.
  - apply stamped. intros at_ Hat. by apply cancelledCompletion_valid.
  - eapply yields_bind; [apply start_loop_valid|]. intros [[process|o]|] Ho; [|by apply yields_ret..].
    eapply yields_bind; [apply yields_now|]. intros at_ _. eapply (yields_bind (λ _, True)).
    { unfold MarkRunning. calls. }
    intros [a|e] _; [|apply reported; [by apply stopAfterFailure_valid|done]].
    eapply (yields_bind (λ _, True)); [calls|]. intros _ _. by apply run_loop_valid.
  - apply reported; [by apply fail_with_valid|done].
Qed.

Lemma collect_valid id : yields valid_outcome (collectDeclaredArtifacts env id).
Proof.
  unfold collectDeclaredArtifacts. destruct (negb _).
  { apply stamped. intros at_ Hat. by apply failedCompletion_valid. }
  eapply (yields_bind (λ _, True)); [calls|]. intros [current|e] _; [|apply reported; [by apply fail_with_valid|done]].
  eapply yields_bind; [apply yields_now|]. intros at_ _.
  destruct (Job_Apply _ _ _ _) as [[next tr]|e]; [|apply reported; [by apply fail_with_valid|done]].
  eapply (yields_bind (λ _, True)); [calls|]. intros [j|e] _; [|apply reported; [by apply fail_with_valid|done]].
  apply collect_loop_valid.
Qed.

Lemma final_valid outcome :
  Completion_Validate outcome.1 = Ok tt → yields (λ c, Completion_Validate c = Ok tt) (final_completion env outcome).
Proof.
  intros Hv. unfold final_completion. eapply (yields_bind (λ c, Completion_Validate c = Ok tt)).
  - destruct (close_writer env); [|by apply yields_ret]. destruct (_ && _); [|by apply yields_ret].
    apply stamped. intros at_ Hat. by apply failedCompletion_valid.
  - intros c Hc. assert (is_zero_time (CompletionAt c) = false) as ->; [|by apply yields_ret].
    unfold Completion_Validate in Hc. by destruct (is_zero_time (CompletionAt c)).
Qed.

End Outcomes.

(** ** Properties *)

(** The runner always reports a well-formed outcome.  Whatever happens while it
    supervises its process (start failures, exits, signals, lost heartbeats,
    cancellation, shutdown, failed artifact collection, a log that does not
    close), the completion it hands to [Complete] passes validation, provided
    the clock never reads the zero time and errors of waiting have a text. *)
Theorem runner_outcome_valid (U : UnicodeCase) env current id :
  (∀ exit, ProcessExited exit ∈ run_events env → WaitErr exit ≠ Some "") →
  ∀ w, (∀ n, is_zero_time (w_clock w n) = false) →
  (∀ o w', runClaimed env current w = (Ok (Some o), w') → Completion_Validate o.1 = Ok tt) ∧
  (∀ o w', collectDeclaredArtifacts env id w = (Ok (Some o), w') → Completion_Validate o.1 = Ok tt) ∧
  (∀ o c w', Completion_Validate o.1 = Ok tt → final_completion env o w = (Ok c, w') →
     Completion_Validate c = Ok tt).
Proof.
  intros Hex w Hclock. split_and!.
  - intros o w' Hrun. apply (runClaimed_valid env current Hex) in Hrun as [_ Hv]; [|done]. by apply (Hv (Some o)).
  - intros o w' Hrun. apply collect_valid in Hrun as [_ Hv]; [|done]. by apply (Hv (Some o)).
  - intros o c w' Ho Hrun. eapply final_valid in Hrun as [_ Hv]; [|done..]. by apply Hv.
Qed.

Definition sample_runner : RunnerEnv :=
  MkRunnerEnv 41 (Ok tt) None [StartTick; StartFinished (StartedProcess 4242)] (StartFailed "cancelled")
    [RunTick; ProcessExited (MkExit 2 "" None)] (MkExit 0 "" None) "context canceled" true true
    [Collected None] (λ _, "error").

Lemma runner_outcome_valid_witness :
  match @runClaimed ascii_case sample_runner sample_created (quiet sample_running (λ _, sample_time)) with
  | (Ok (Some o), _) => Completion_Validate o.1 = Ok tt
  | _ => False
  end.
Proof.
  destruct (runClaimed _ _ _) as [[[o|]|e] w'] eqn:E.
  2,3: apply (f_equal fst) in E; vm_compute in E; discriminate E.
  destruct (runner_outcome_valid ascii_case sample_runner sample_created sample_id) with
    (w := quiet sample_running (λ _ : nat, sample_time)) as (Hrun & _); [|reflexivity|exact (Hrun o w' E)].
  intros exit Hin. cbn in Hin. apply elem_of_cons in Hin as [[=]|Hin].
  apply list_elem_of_singleton in Hin as [= ->]. discriminate.
Defined.

(** A runner keeps the worker invariant at every step, with failures anywhere and
    other processes running beside it: claiming, marking, heartbeats, collection
    and completion never separate a job from its attempt. *)
Theorem runner_keeps_invariant (U : UnicodeCase) env id : keeps worker_inv (Run env id).
Proof.
  unfold Run. apply bind_keeps; [auto with hop|]. intros at_. apply bind_keeps; [auto with hop|]. intros a.
  apply bind_keeps; [auto 10 with hop|]. intros [current|e]; [|apply failClaimed_keeps].
  destruct (open_writer env); [|apply failClaimed_keeps]. apply bind_keeps; [apply runClaimed_keeps|].
  intros [o|]; [|auto with hop]. destruct (_ && _); [|apply report_keeps].
  apply bind_keeps; [apply collect_keeps|]. intros [o'|]; [apply report_keeps|auto with hop].
Qed.
