(* ===== verification/Container.v ===== *)
(** * Executors (internal/app/worker: executors.go, container_executor.go)

    The starters that turn a job into a process, and the one for containers.  The
    Engine API is the record [Engine]: what it answers to each call, over a state of its
    own; what is asked of it is kept in a log. *)

From S2P Require Import Prelude GoText PortablePath JobModel Effects Sql JobStore Execution ExecutionStore LogStore Custody Worker Runner.
From stdpp Require Import pretty.
Local Open Scope string_scope.
Local Open Scope nat_scope.
Local Open Scope list_scope.

(** ** Executor sets (executors.go) *)

(** An [ExecutorStarter]: the executors it reports, and what [Start] does. *)
Record Starter (A : Type) := MkStarter { st_SupportedExecutors : list string; st_Start : A }.
Arguments MkStarter {A}. Arguments st_SupportedExecutors {A}. Arguments st_Start {A}.

Record ExecutorSet (A : Type) := MkExecutorSet { es_starters : gmap string A; es_supported : list string }.
Arguments MkExecutorSet {A}. Arguments es_starters {A}. Arguments es_supported {A}.

Definition NewNativeExecutorStarter {A} (start : option A) : result (Starter A) :=
  match start with None => Err [WorkerErrMissingDependency] | Some start => Ok (MkStarter ["native"] start) end.

Fixpoint add_executors {A} (start : A) (executors : list string) (set : ExecutorSet A) : result (ExecutorSet A) :=
  match executors with
  | [] => Ok set
  | executor :: rest =>
      _ ← reject_if (negb (bool_decide (executor = "native")) && negb (bool_decide (executor = "container"))) [JobErrInvalidSpec];
      _ ← reject_if (bool_decide (is_Some (es_starters set !! executor))) [JobErrInvalidSpec];
      add_executors start rest (MkExecutorSet (<[executor := start]> (es_starters set)) (es_supported set ++ [executor]))
  end.
Fixpoint add_starters {A} (starters : list (option (Starter A))) (set : ExecutorSet A) : result (ExecutorSet A) :=
  match starters with
  | [] => Ok set
  | None :: _ => Err [WorkerErrMissingDependency]
  | Some starter :: rest => set ← add_executors (st_Start starter) (st_SupportedExecutors starter) set; add_starters rest set
  end.
Definition NewExecutorSet {A} (starters : list (option (Starter A))) : result (ExecutorSet A) :=
  _ ← reject_if (bool_decide (starters = [])) [WorkerErrMissingDependency];
  set ← add_starters starters (MkExecutorSet ∅ []);
  _ ← reject_if (bool_decide (es_supported set = [])) [WorkerErrMissingDependency];
  Ok (MkExecutorSet (es_starters set) (merge_sort String.le (es_supported set))).

Definition executor_name (executor : Executor) : string := match executor with ExecutorNative => "native" | ExecutorContainer => "container" | ExecutorOther name => name end.
Definition ExecutorSet_Start {A} (set : ExecutorSet A) (spec : Spec) : result A :=
  match es_starters set !! executor_name (SpecExecutor spec) with None => Err [JobErrInvalidSpec] | Some start => Ok start end.

(** ** What the Engine API is asked *)

Definition containerWorkspacePath : string := "/workspace".
Definition defaultEngineOperationTimeout : Z := (5 * second)%Z.
Definition defaultImagePullTimeout : Z := (30 * minute)%Z.

Record CreateOptions := MkCreateOptions {
  co_Image : string; co_Cmd : list string; co_Env : list string; co_AttachStdout : bool; co_AttachStderr : bool; co_Labels : list (string * string);
  co_WorkingDir : string; co_Mounts : list (string * string); co_AutoRemove : bool
}.

(** In the order of [sort.Strings]. *)
Definition containerEnvironment (values : gmap string string) : list string :=
  (λ name, name +:+ "=" +:+ default "" (values !! name)) <$> merge_sort String.le ((map_to_list values).*1).

Definition containerCreateOptions (spec : Spec) : CreateOptions :=
  let mounted := negb (bool_decide (WorkingDirectory spec = "")) in
  MkCreateOptions (ContainerImage spec) (Executable spec :: Arguments_ spec) (containerEnvironment (Environment spec)) true true
    [("com.computehop.executor", "container")] (if mounted then containerWorkspacePath else "")
    (if mounted then [(WorkingDirectory spec, containerWorkspacePath)] else []) false.

(** A message of an image pull: the stream fails, the engine reports an error, or
    progress of a layer, or anything else. *)
Inductive PullMessage := StreamFails (e : list sentinel) | PullFails (e : list sentinel) | LayerProgress (id : string) (current total : Z) | OtherMessage.

Record Engine (S : Type) := MkEngine {
  eg_ImageInspect : string → S → result bool * S;         (* [Ok false]: not found *)
  eg_ImagePull : string → S → result (list PullMessage) * S;
  eg_ContainerCreate : CreateOptions → S → result string * S;
  eg_ContainerAttach : string → S → result unit * S;
  eg_ContainerStart : string → S → result unit * S;
  eg_ContainerInspect : string → S → result (option Z) * S;   (* the process of its state, if it has one *)
  eg_ContainerKill : string → string → S → result unit * S;
  eg_ContainerRemove : string → bool → S → result unit * S
}.
Arguments eg_ImageInspect {S}. Arguments eg_ImagePull {S}. Arguments eg_ContainerCreate {S}. Arguments eg_ContainerAttach {S}.
Arguments eg_ContainerStart {S}. Arguments eg_ContainerInspect {S}. Arguments eg_ContainerKill {S}. Arguments eg_ContainerRemove {S}.

(** What the log keeps: every request to make a container, with its answer (an error
    when the request failed or its time ran out, which does not say that no container
    was made), to start one, to kill one, and to remove one (with [Force] or without)
    with its answer. *)
Inductive Asked :=
| AskedCreate (answer : result string)
| AskedStart (id : string)
| AskedKill (id signal : string)
| AskedRemove (id : string) (force : bool) (answer : result unit).
#[global] Instance Asked_eq_dec : EqDecision Asked.
Proof. solve_decision. Defined.

(** ** Progress of a pull *)

Record Layer := MkLayer { la_completed : Z; la_total : Z }.
Definition clamp (completed total : Z) : Z := (let c := if completed <? 0 then 0 else completed in if total <? c then total else c)%Z.

(** The sums are of 64-bit integers. *)
Definition sum64 (values : list Z) : Z := fold_left (λ acc v, wrap_int64 (acc + v)) values 0%Z.

Definition observe (id : string) (completedBytes totalBytes : Z) (layers : gmap string Layer) : option (Z * Z) * gmap string Layer :=
  if (totalBytes <=? 0)%Z then (None, layers)
  else
    let id := if bool_decide (id = "") then "image" else id in
    let layers := <[id := MkLayer (clamp completedBytes totalBytes) totalBytes]> layers in
    let completed := sum64 ((map_to_list layers).*2 ≫= λ l, [la_completed l]) in
    let total := sum64 ((map_to_list layers).*2 ≫= λ l, [la_total l]) in
    (if (0 <? total)%Z then Some (completed, total) else None, layers).

(** [progress_of completed total at]: what [reportPullProgress] stores, if anything. *)
Definition progress_of (has_progress : bool) (jobID : string) (completedBytes totalBytes now_ : Z) : option Progress :=
  if negb has_progress || negb (ID_Valid jobID) || (totalBytes <=? 0)%Z then None
  else Some (MkProgress ProgressPull (clamp completedBytes totalBytes) totalBytes now_).

Section Pull.
Context {P : Type} (SetProgress : string → Progress → P → result unit * P).

Definition reportPullProgress (has_progress : bool) (jobID : string) (completedBytes totalBytes now_ : Z) (p : P) : result unit * P :=
  match progress_of has_progress jobID completedBytes totalBytes now_ with None => (Ok tt, p) | Some progress => SetProgress jobID progress p end.

(** [PullImage] on the messages of the stream. *)
Fixpoint pull_messages (has_progress : bool) (jobID : string) (now_ : Z) (messages : list PullMessage) (layers : gmap string Layer) (p : P) : result unit * P :=
  match messages with
  | [] => (Ok tt, p)
  | StreamFails e :: _ => (Err e, p)
  | PullFails e :: _ => (Err e, p)
  | OtherMessage :: rest => pull_messages has_progress jobID now_ rest layers p
  | LayerProgress id current total :: rest =>
      let '(observed, layers) := observe id current total layers in
      match observed with
      | None => pull_messages has_progress jobID now_ rest layers p
      | Some (completed, total) =>
          match reportPullProgress has_progress jobID completed total now_ p with
          | (Err e, p) => (Err e, p)
          | (Ok _, p) => pull_messages has_progress jobID now_ rest layers p
          end
      end
  end.
End Pull.

(** ** Starting a container *)

Record StartRequest := MkStartRequest { sr_JobID : string; sr_Spec : Spec; sr_Progress : bool; sr_now : Z }.
Record ContainerProcess := MkContainerProcess { cp_id : string; cp_pid : Z }.

(** The engine, the log of what it was asked, and the progress repository. *)
Record EngineWorld (S P : Type) := MkEngineWorld { ew_engine : S; ew_asked : list Asked; ew_progress : P }.
Arguments MkEngineWorld {S P}. Arguments ew_engine {S P}. Arguments ew_asked {S P}. Arguments ew_progress {S P}.

Section Starter.
Context `{UnicodeCase} {S P : Type} (engine : Engine S) (SetProgress : string → Progress → P → result unit * P).
Abbreviation W := (EngineWorld S P).

Definition call {A} (f : S → result A * S) (asked : result A → list Asked) (w : W) : result A * W :=
  let '(r, s) := f (ew_engine w) in (r, MkEngineWorld s (ew_asked w ++ asked r) (ew_progress w)).
Abbreviation unlogged := (λ _, []).

Definition ensureImage (request : StartRequest) (image : string) (w : W) : result unit * W :=
  match call (eg_ImageInspect engine image) unlogged w with
  | (Err e, w) => (Err e, w)
  | (Ok true, w) => (Ok tt, w)
  | (Ok false, w) =>
      match call (eg_ImagePull engine image) unlogged w with
      | (Err e, w) => (Err e, w)
      | (Ok messages, w) =>
          let '(r, p) := pull_messages SetProgress (sr_Progress request) (sr_JobID request) (sr_now request) messages ∅ (ew_progress w) in
          (r, MkEngineWorld (ew_engine w) (ew_asked w) p)
      end
  end.

(** [removeCreatedContainer] and [forceRemoveContainer]; their outcome is ignored. *)
Definition remove_container (id : string) (force : bool) (w : W) : W := (call (eg_ContainerRemove engine id force) (λ answer, [AskedRemove id force answer]) w).2.

Definition containerPID (id : string) (w : W) : result Z * W :=
  match call (eg_ContainerInspect engine id) unlogged w with
  | (Err e, w) => (Err e, w)
  | (Ok (Some pid), w) => (if (pid <=? 0)%Z then Err [DriverError] else Ok pid, w)
  | (Ok None, w) => (Err [DriverError], w)
  end.

Definition Container_Start (request : StartRequest) (w : W) : result ContainerProcess * W :=
  let spec := sr_Spec request in
  match Spec_Validate spec with
  | Err e => (Err e, w)
  | Ok _ =>
      if negb (bool_decide (SpecExecutor spec = ExecutorContainer)) then (Err [JobErrInvalidSpec], w)
      else match ensureImage request (ContainerImage spec) w with
      | (Err e, w) => (Err e, w)
      | (Ok _, w) =>
          match call (eg_ContainerCreate engine (containerCreateOptions spec)) (λ answer, [AskedCreate answer]) w with
          | (Err e, w) => (Err e, w)
          | (Ok id, w) =>
              if bool_decide (id = "") then (Err [JobErrInvalidSpec], w)
              else match call (eg_ContainerAttach engine id) unlogged w with
              | (Err e, w) => (Err e, remove_container id false w)
              | (Ok _, w) =>
                  match call (eg_ContainerStart engine id) (λ _, [AskedStart id]) w with
                  | (Err e, w) => (Err e, remove_container id true w)
                  | (Ok _, w) =>
                      match containerPID id w with
                      | (Err e, w) => (Err e, remove_container id true w)
                      | (Ok pid, w) => (Ok (MkContainerProcess id pid), w)
                      end
                  end
              end
          end
      end
  end.

(** ** The process *)

Definition GracefulStop (process : ContainerProcess) (w : W) : result unit * W :=
  if bool_decide (cp_id process = "") then (Ok tt, w)
  else call (eg_ContainerKill engine (cp_id process) "SIGTERM") (λ _, [AskedKill (cp_id process) "SIGTERM"]) w.
Definition Container_Kill (process : ContainerProcess) (w : W) : result unit * W :=
  if bool_decide (cp_id process = "") then (Ok tt, w)
  else call (eg_ContainerKill engine (cp_id process) "") (λ _, [AskedKill (cp_id process) ""]) w.

(** What arrives on the channels of [ContainerWait]. *)
Inductive WaitOutcome := WaitMissing | WaitResponse (statusCode : Z) (message : string) | WaitError (text : option string).

Definition waitContainer (id : string) (outcome : WaitOutcome) : Exit :=
  match outcome with
  | WaitMissing => MkExit (-1) "" (Some "container wait was not initialized")
  | WaitResponse statusCode message =>
      MkExit statusCode "" (if bool_decide (message = "") then None else Some ("wait for container " +:+ id +:+ ": " +:+ message))
  | WaitError text => MkExit (-1) "" (Some ("wait for container " +:+ id +:+ ": " +:+ default "container wait failed" text))
  end.

Definition or_error (exit : Exit) (error : option string) : Exit :=
  match WaitErr exit, error with None, Some text => MkExit (ExitCodeOf exit) (ExitSignal exit) (Some text) | _, _ => exit end.

(** [Wait] runs once: [done_] is the result of an earlier call.  [output] is the error
    of copying the output, if any. *)
Definition Container_Wait (error_text : list sentinel → string) (process : ContainerProcess) (outcome : WaitOutcome) (output : option string)
    (done_ : option Exit) (w : W) : Exit * W :=
  match done_ with
  | Some exit => (exit, w)
  | None =>
      let exit := or_error (waitContainer (cp_id process) outcome) ((λ text, "copy container output: " +:+ text) <$> output) in
      if bool_decide (cp_id process = "") then (exit, w)
      else match call (eg_ContainerRemove engine (cp_id process) false) (λ answer, [AskedRemove (cp_id process) false answer]) w with
      | (Ok _, w) => (exit, w)
      | (Err e, w) => (or_error exit (Some ("remove container " +:+ cp_id process +:+ ": " +:+ error_text e)), w)
      end
  end.
End Starter.

(** ** Lemmas *)

Lemma add_executors_ok {A} (start : A) executors set set' : add_executors start executors set = Ok set' →
  es_supported set' = es_supported set ++ executors ∧
  (NoDup (es_supported set) → (∀ x, x ∈ es_supported set ↔ is_Some (es_starters set !! x)) →
    NoDup (es_supported set') ∧ ∀ x, x ∈ es_supported set' ↔ is_Some (es_starters set' !! x)) ∧
  (∀ x, es_starters set' !! x = if decide (x ∈ executors) then Some start else es_starters set !! x) ∧
  (∀ x, x ∈ executors → es_starters set !! x = None).
Proof.
  revert set. induction executors as [|executor rest IH]; intros set; cbn [add_executors].
  - intros [= <-]. rewrite app_nil_r. split_and!; try done. by intros x ?%elem_of_nil.
  - intros ([] & _ & E)%result_bind_ok. apply result_bind_ok in E as ([] & Hnew%reject_if_ok & E). apply bool_decide_eq_false_1, eq_None_not_Some in Hnew.
    apply IH in E as (Hs & Hinv & Hst & Hfree). simpl in *. split_and!; [by rewrite Hs, <-app_assoc| | |].
    + intros Hnd Hiff. apply Hinv.
      * apply NoDup_app. split_and!; [done| |apply NoDup_singleton]. intros x Hx ->%list_elem_of_singleton. apply Hiff in Hx as [? Hx]. congruence.
      * intros x. rewrite elem_of_app, list_elem_of_singleton, Hiff. destruct (decide (x = executor)) as [->|Hne];
          [rewrite lookup_insert_eq; naive_solver|rewrite lookup_insert_ne by done; naive_solver].
    + intros x. rewrite Hst. destruct (decide (x ∈ rest)) as [Hr|Hr]; [by rewrite decide_True by set_solver|].
      destruct (decide (x = executor)) as [->|Hne]; [rewrite lookup_insert_eq, decide_True by set_solver; done|].
      rewrite lookup_insert_ne, decide_False by set_solver. done.
    + intros x [->|Hx]%elem_of_cons; [done|]. specialize (Hfree x Hx). destruct (decide (x = executor)) as [->|Hne]; [by rewrite lookup_insert_eq in Hfree|].
      by rewrite lookup_insert_ne in Hfree by done.
Qed.

Lemma add_starters_ok {A} (starters : list (option (Starter A))) set set' : add_starters starters set = Ok set' →
  NoDup (es_supported set) → (∀ x, x ∈ es_supported set ↔ is_Some (es_starters set !! x)) →
  NoDup (es_supported set') ∧ (∀ x, x ∈ es_supported set' ↔ is_Some (es_starters set' !! x)) ∧
  (∀ x start, es_starters set' !! x = Some start ↔ es_starters set !! x = Some start ∨ ∃ starter, Some starter ∈ starters ∧ x ∈ st_SupportedExecutors starter ∧ st_Start starter = start).
Proof.
  revert set. induction starters as [|[starter|] rest IH]; intros set; cbn [add_starters]; [|intros (set1 & Hadd & E)%result_bind_ok Hnd Hiff|done].
  - intros [= <-] Hnd Hiff. split_and!; try done. intros x start. split; [by left|]. intros [|(? & []%elem_of_nil & _)]; done.
  - apply add_executors_ok in Hadd as (Hs & Hinv & Hst & Hfree). destruct (Hinv Hnd Hiff) as [Hnd1 Hiff1].
    destruct (IH set1 E Hnd1 Hiff1) as (Hnd' & Hiff' & Hfrom). split_and!; [done|done|]. intros x start. rewrite Hfrom, Hst.
    destruct (decide (x ∈ st_SupportedExecutors starter)) as [Hx|Hx].
    + rewrite (Hfree x Hx). split; [intros [[= <-]|(s & Hin & Hrest)]; right; [exists starter|exists s]; set_solver|].
      intros [?|(s & [[= ->]|Hin]%elem_of_cons & Hxs & Hstart)]; [done|by rewrite Hstart; left|right; by exists s].
    + split; [intros [?|(s & Hin & Hrest)]; [by left|right; exists s; set_solver]|].
      intros [?|(s & [[= ->]|Hin]%elem_of_cons & Hxs & Hstart)]; [by left|done|right; by exists s].
Qed.

(** A worker starts every job with the one starter that offers the job's executor: a set
    that is built has no executor twice and reports exactly the executors of its
    starters, in order; a job whose executor is among them goes to a starter that
    offers it, and any other job is refused. *)
Theorem executors_routed {A} (starters : list (option (Starter A))) (set : ExecutorSet A) (spec : Spec) :
  NewExecutorSet starters = Ok set →
  NoDup (es_supported set) ∧ Sorted String.le (es_supported set) ∧
  (∀ x, x ∈ es_supported set ↔ ∃ starter, Some starter ∈ starters ∧ x ∈ st_SupportedExecutors starter) ∧
  (∀ start, ExecutorSet_Start set spec = Ok start →
    ∃ starter, Some starter ∈ starters ∧ executor_name (SpecExecutor spec) ∈ st_SupportedExecutors starter ∧ st_Start starter = start) ∧
  (executor_name (SpecExecutor spec) ∈ es_supported set ↔ ∃ start, ExecutorSet_Start set spec = Ok start).
Proof.
  unfold NewExecutorSet. intros ([] & _ & E)%result_bind_ok. apply result_bind_ok in E as (built & Hadd & E). apply result_bind_ok in E as ([] & _ & [= <-]).
  apply add_starters_ok in Hadd as (Hnd & Hiff & Hfrom); [|apply NoDup_nil_2|intros y; simpl; rewrite lookup_empty; split; [by intros ?%elem_of_nil|by intros [? ?]]].
  cbn [es_supported es_starters]. assert (Hfrom' : ∀ x start, es_starters built !! x = Some start ↔ ∃ starter, Some starter ∈ starters ∧ x ∈ st_SupportedExecutors starter ∧ st_Start starter = start)
    by (intros y start; rewrite Hfrom; simpl; rewrite lookup_empty; naive_solver). clear Hfrom. split_and!.
  - by rewrite merge_sort_Permutation.
  - apply (Sorted_merge_sort _).
  - intros x. rewrite merge_sort_Permutation, Hiff. split; [intros [start Hs]; apply Hfrom' in Hs; naive_solver|].
    intros (starter & Hin & Hx). exists (st_Start starter). apply Hfrom'. by exists starter.
  - intros start. unfold ExecutorSet_Start. cbn [es_starters]. destruct (es_starters built !! _) as [s|] eqn:Es; [|done]. intros [= <-]. by apply Hfrom'.
  - rewrite merge_sort_Permutation, Hiff. unfold ExecutorSet_Start. cbn [es_starters]. destruct (es_starters built !! _) as [s|]; naive_solver.
Qed.

(** What the Engine API promises of the containers made through it ([containers]):
    only a request to make one adds one, whose ID is the answer if there is an answer;
    a removal that is answered has removed its container.  A request that fails may
    have made its container, and a removal that fails may leave it. *)
Class EngineLaws {S} (engine : Engine S) (containers : S → gset string) := {
  inspect_image_adds_none image s : containers (eg_ImageInspect engine image s).2 ⊆ containers s;
  pull_adds_none image s : containers (eg_ImagePull engine image s).2 ⊆ containers s;
  attach_adds_none id s : containers (eg_ContainerAttach engine id s).2 ⊆ containers s;
  start_adds_none id s : containers (eg_ContainerStart engine id s).2 ⊆ containers s;
  inspect_adds_none id s : containers (eg_ContainerInspect engine id s).2 ⊆ containers s;
  create_adds_one options s : ∃ id, containers (eg_ContainerCreate engine options s).2 ⊆ {[id]} ∪ containers s ∧
    ∀ answer, answer ≠ "" → (eg_ContainerCreate engine options s).1 = Ok answer → answer = id;
  remove_adds_none id force s : containers (eg_ContainerRemove engine id force s).2 ⊆ containers s;
  remove_removes id force s : (eg_ContainerRemove engine id force s).1 = Ok tt → id ∉ containers (eg_ContainerRemove engine id force s).2
}.

Section Containers.
Context `{UnicodeCase} {S P : Type} (engine : Engine S) (SetProgress : string → Progress → P → result unit * P).
Context (containers : S → gset string) `{!EngineLaws engine containers}.
Abbreviation W := (EngineWorld S P).
Abbreviation held w := (containers (ew_engine w)).

Lemma call_quiet {A} (f : S → result A * S) (w : W) r w' : call f (λ _, []) w = (r, w') → (∀ s, containers (f s).2 ⊆ containers s) →
  ew_asked w' = ew_asked w ∧ held w' ⊆ held w.
Proof. unfold call. intros E Hf. specialize (Hf (ew_engine w)). destruct (f (ew_engine w)) as [a s]. injection E as _ <-. by rewrite app_nil_r. Qed.

Lemma ensureImage_asked request image (w : W) r w' : ensureImage engine SetProgress request image w = (r, w') → ew_asked w' = ew_asked w ∧ held w' ⊆ held w.
Proof.
  unfold ensureImage. destruct (call (eg_ImageInspect engine image) _ w) as [[[|]|e] w1] eqn:E1; apply call_quiet in E1 as [E1 H1];
    try apply inspect_image_adds_none; [by intros [= _ <-]| |by intros [= _ <-]].
  destruct (call (eg_ImagePull engine image) _ w1) as [[messages|e] w2] eqn:E2; apply call_quiet in E2 as [E2 H2]; try apply pull_adds_none.
  - destruct (pull_messages _ _ _ _ _ _) as [r1 p1]. intros [= _ <-]. simpl. split; [congruence|set_solver].
  - intros [= _ <-]. split; [congruence|set_solver].
Qed.

Lemma remove_asked id force (w : W) : ∃ answer,
  ew_asked (remove_container engine id force w) = ew_asked w ++ [AskedRemove id force answer] ∧
  held (remove_container engine id force w) ⊆ held w ∧ (answer = Ok tt → id ∉ held (remove_container engine id force w)).
Proof.
  unfold remove_container, call. pose proof (remove_adds_none id force (ew_engine w)) as Hs. pose proof (remove_removes id force (ew_engine w)) as Hr.
  destruct (eg_ContainerRemove engine id force (ew_engine w)) as [answer s]. by exists answer.
Qed.

Lemma containerPID_ok id (w : W) r w' : containerPID engine id w = (r, w') →
  ew_asked w' = ew_asked w ∧ held w' ⊆ held w ∧ ∀ pid, r = Ok pid → (0 < pid)%Z.
Proof.
  unfold containerPID. destruct (call (eg_ContainerInspect engine id) _ w) as [[[pid|]|e] w1] eqn:E; apply call_quiet in E as [E Hh];
    try apply inspect_adds_none; intros [= <- <-]; split_and!; try done.
  destruct (Z.leb_spec pid 0); [done|]. by intros p [= <-].
Qed.

(** Of the requests [asks], the last leaves the container [id] behind: the request to
    make it failed or was answered with no ID, or the engine refused to remove it. *)
Definition left_by (asks : list Asked) (id : string) : Prop :=
  (∃ e, last asks = Some (AskedCreate (Err e))) ∨ last asks = Some (AskedCreate (Ok "")) ∨ ∃ force e, last asks = Some (AskedRemove id force (Err e)).

(** What a failed [Start] asked for, and the containers it leaves. *)
Definition gave_up (w w1 : W) (asks : list Asked) : Prop :=
  (∀ id, id ≠ "" → AskedCreate (Ok id) ∈ asks → ∃ answer, last asks = Some (AskedRemove id (bool_decide (AskedStart id ∈ asks)) answer)) ∧
  (held w1 ⊆ held w ∨ ∃ id, held w1 ⊆ {[id]} ∪ held w ∧ left_by asks id).

(** What [Start] asks of the engine. *)
Definition start_asks (w w1 : W) (r : result ContainerProcess) (asks : list Asked) : Prop :=
  match r with
  | Ok process => cp_id process ≠ "" ∧ (0 < cp_pid process)%Z ∧ held w1 ⊆ {[cp_id process]} ∪ held w ∧
      asks = [AskedCreate (Ok (cp_id process)); AskedStart (cp_id process)]
  | Err _ => gave_up w w1 asks
  end.

(** Giving up on a container that was made. *)
Lemma gives_up (w w2 : W) id asks force : id ≠ "" → asks = AskedCreate (Ok id) :: (if force : bool then [AskedStart id] else []) →
  ew_asked w2 = ew_asked w ++ asks → held w2 ⊆ {[id]} ∪ held w →
  ∃ asks', ew_asked (remove_container engine id force w2) = ew_asked w ++ asks' ∧ gave_up w (remove_container engine id force w2) asks'.
Proof.
  intros Hid -> Ha Hh. destruct (remove_asked id force w2) as (answer & Hr & Hsub & Hgone).
  eexists. rewrite Hr, Ha, <-app_assoc. split; [reflexivity|]. split.
  - intros i Hi Hin. assert (i = id) as -> by (destruct force; set_solver). exists answer.
    destruct force; [rewrite bool_decide_eq_true_2 by set_solver|rewrite bool_decide_eq_false_2 by set_solver]; done.
  - destruct answer as [[]|e]; [left; specialize (Hgone eq_refl); set_solver|]. right. exists id. split; [set_solver|].
    right. right. exists force, e. by destruct force.
Qed.

Lemma start_asked request (w : W) r w' : Container_Start engine SetProgress request w = (r, w') →
  ∃ asks, ew_asked w' = ew_asked w ++ asks ∧ start_asks w w' r asks.
Proof.
  unfold Container_Start.
  assert (Hnone : ∀ e w1, ew_asked w1 = ew_asked w ∧ held w1 ⊆ held w → (Err e, w1) = (r, w') → ∃ asks, ew_asked w' = ew_asked w ++ asks ∧ start_asks w w' r asks).
  { intros e w1 [E Hh] [= <- <-]. exists []. rewrite app_nil_r. split; [done|]. split; [by intros ? _ ?%elem_of_nil|by left]. }
  destruct (Spec_Validate (sr_Spec request)) as [?|e]; [|by apply Hnone]. destruct (negb _); [by apply Hnone|].
  destruct (ensureImage _ _ _ _ w) as [[?|e] w1] eqn:E1; apply ensureImage_asked in E1; [|by apply Hnone]. destruct E1 as [E1 H1].
  unfold call at 1. destruct (create_adds_one (containerCreateOptions (sr_Spec request)) (ew_engine w1)) as (new & Hnew & Hans).
  destruct (eg_ContainerCreate engine _ _) as [[id|e] s]; simpl in Hnew, Hans.
  2: { intros [= <- <-]. eexists. simpl. rewrite E1. split; [done|]. split; [by intros i _ [= ]%list_elem_of_singleton|]. right. exists new. split; [set_solver|]. left. by exists e. }
  case_bool_decide as Hid.
  { intros [= <- <-]. eexists. simpl. rewrite E1, Hid. split; [done|]. split; [by intros i Hi [= ]%list_elem_of_singleton|]. right. exists new. split; [set_solver|]. right. by left. }
  rewrite <-(Hans id Hid eq_refl) in Hnew. clear Hans new.
  destruct (call (eg_ContainerAttach engine id) _ _) as [[?|e] w2] eqn:E2; apply call_quiet in E2 as [E2 H2]; try apply attach_adds_none; simpl in E2, H2; rewrite E1 in E2.
  2: { intros [= <- <-]. eapply (gives_up w w2 id _ false); [done|done|by rewrite E2|set_solver]. }
  unfold call at 1. pose proof (start_adds_none id (ew_engine w2)) as H3. destruct (eg_ContainerStart engine id _) as [[?|e] s3]; simpl in H3.
  2: { intros [= <- <-]. eapply (gives_up w _ id _ true); [done|done|simpl; by rewrite E2, <-app_assoc|simpl; set_solver]. }
  destruct (containerPID engine id _) as [[pid|e] w4] eqn:E4; apply containerPID_ok in E4 as (E4 & H4 & Hpid); simpl in E4, H4; intros [= <- <-].
  - exists [AskedCreate (Ok id); AskedStart id]. rewrite E4, E2, <-app_assoc. split; [done|]. simpl. split_and!; [done|auto|set_solver|done].
  - eapply (gives_up w _ id _ true); [done|done|by rewrite E4, E2, <-app_assoc|set_solver].
Qed.

(** C37 The executor asks for the removal of every container whose ID it was given, and
    leaves one behind only where the engine makes it.  A start that fails has, if the
    engine answered it with an ID, ended by asking for the removal of that container, by
    force if it had been started; it leaves at most one container, and only if the
    request to make it failed or was answered without an ID (the container may be there,
    and the executor cannot name it) or if the engine refused the removal.  A start that
    succeeds leaves at most the container of its process, and waiting for it, at any
    later time and however the wait or the copying of the output ends, asks for its
    removal without force, once, however often [Wait] is called; afterwards the
    container is gone or the exit reports an error.  The containers are those made
    through this client; only the calls of the executor add to them. *)
Theorem containers_removed (error_text : list sentinel → string) (request : StartRequest) (w w1 : W) (r : result ContainerProcess) :
  Container_Start engine SetProgress request w = (r, w1) →
  ∃ asks, ew_asked w1 = ew_asked w ++ asks ∧
  match r with
  | Err _ => gave_up w w1 asks
  | Ok process => asks = [AskedCreate (Ok (cp_id process)); AskedStart (cp_id process)] ∧ (0 < cp_pid process)%Z ∧
      held w1 ⊆ {[cp_id process]} ∪ held w ∧
      ∀ outcome output (w2 w3 : W) exit again,
        Container_Wait engine error_text process outcome output None w2 = (exit, w3) →
        (∃ answer, ew_asked w3 = ew_asked w2 ++ [AskedRemove (cp_id process) false answer]) ∧
        held w3 ⊆ held w2 ∧ (cp_id process ∉ held w3 ∨ is_Some (WaitErr exit)) ∧
        Container_Wait engine error_text process again None (Some exit) w3 = (exit, w3)
  end.
Proof.
  intros (asks & Hasked & Hstart)%start_asked. exists asks. split; [done|]. destruct r as [process|e]; [|done].
  destruct Hstart as (Hid & Hpid & Hheld & ->). split_and!; [done..|]. intros outcome output w2 w3 exit again. unfold Container_Wait.
  rewrite (bool_decide_eq_false_2 _ Hid). unfold call.
  pose proof (remove_adds_none (cp_id process) false (ew_engine w2)) as Hs. pose proof (remove_removes (cp_id process) false (ew_engine w2)) as Hr.
  destruct (eg_ContainerRemove engine _ _ _) as [[[]|e] s]; intros [= <- <-]; split_and!; try done; try by eexists.
  - left. by apply Hr.
  - right. unfold or_error at 1. by destruct (WaitErr (or_error _ _)) as [text|] eqn:E; [rewrite E|].
Qed.
End Containers.

(** ** Pulling an image *)

Lemma clamp_range completed total : (0 < total)%Z → (0 ≤ clamp completed total ≤ total)%Z.
Proof. unfold clamp. intros Ht. destruct (Z.ltb_spec completed 0); [destruct (Z.ltb_spec total 0)|destruct (Z.ltb_spec total completed)]; lia. Qed.

(** What a pull reports is valid progress, whatever the engine counts and even if the
    sums overflow. *)
Lemma pull_progress_valid has_progress jobID completed total now_ progress :
  is_zero_time now_ = false → progress_of has_progress jobID completed total now_ = Some progress →
  Progress_Validate progress = Ok tt ∧ Phase progress = ProgressPull ∧ ID_Valid jobID = true.
Proof.
  intros Hz. unfold progress_of. destruct (_ || _) eqn:E; [done|]. intros [= <-]. reflect_bools. split_and!; [|done|done].
  pose proof (clamp_range completed total). unfold Progress_Validate. simpl. rewrite Hz, (proj2 (Z.leb_gt _ _)), (proj2 (Z.ltb_ge _ 0)), (proj2 (Z.ltb_ge total _)) by lia.
  done.
Qed.

(** The job repository as the progress repository of a runner. *)
Definition repository_progress (jobID : string) (progress : Progress) (d : Database) : result unit * Database :=
  match Repo_SetProgress jobID progress d with Ok (_, d') => (Ok tt, d') | Err e => (Err e, d) end.

(** Because the database refuses the phase, the first layer that reports its size stops
    the pull: a job whose image is not there yet cannot start. *)
Lemma pull_with_progress_fails jobID now_ others id current total rest d :
  ID_Valid jobID = true → is_zero_time now_ = false → Forall (eq OtherMessage) others → (0 < total < 2 ^ 63)%Z →
  pull_messages repository_progress true jobID now_ (others ++ LayerProgress id current total :: rest) ∅ d = (Err [ConstraintError], d).
Proof.
  intros Hid Hz Hothers Ht. induction Hothers as [|m others <- _ IH]; [|done]. cbn [app pull_messages]. unfold observe.
  rewrite (proj2 (Z.leb_gt _ _)) by lia. rewrite insert_empty, map_to_list_singleton. cbn [fmap list_fmap mbind list_bind app snd la_completed la_total].
  unfold sum64. cbn [fold_left]. rewrite !Z.add_0_l, (wrap_int64_id total) by (unfold int64_range; lia). rewrite (proj2 (Z.ltb_lt _ _)) by lia.
  unfold reportPullProgress. destruct (progress_of _ _ _ _ _) as [progress|] eqn:Ep.
  - apply pull_progress_valid in Ep as (Hv & Hp & _); [|done]. unfold repository_progress, Repo_SetProgress, mbind, Tx_bind, constraint, tx_lift.
    rewrite Hid, Hv, Hp. unfold progress_row_checks. simpl. by destruct (bool_decide _).
  - unfold progress_of in Ep. rewrite Hid, (proj2 (Z.leb_gt _ _)) in Ep by lia. done.
Qed.

(** A container that has ended before [Start] asks for its process identifier has none:
    the start is reported as failed and the container is removed with its exit code. *)
Lemma finished_container_lost `{UnicodeCase} {S P} (engine : Engine S) id (w : EngineWorld S P) s :
  eg_ContainerInspect engine id (ew_engine w) = (Ok (Some 0%Z), s) → ∃ w', containerPID engine id w = (Err [DriverError], w').
Proof. intros E. unfold containerPID, call. rewrite E. by eexists. Qed.

(** ** Witnesses *)

Lemma executors_routed_witness :
  ∃ set, NewExecutorSet [Some (MkStarter ["native"] 1); Some (MkStarter ["container"] 2)] = Ok set ∧ es_supported set = ["container"; "native"] ∧
    NoDup (es_supported set).
Proof.
  destruct (NewExecutorSet [Some (MkStarter ["native"] 1); Some (MkStarter ["container"] 2)]) as [set|e] eqn:E; [|vm_compute in E; discriminate E].
  exists set. split; [reflexivity|]. split; [vm_compute in E; injection E as <-; reflexivity|].
  exact (proj1 (executors_routed _ set sample_spec E)).
Defined.

(** An engine: its containers, and whether they run.  They start only if they are told
    to, and a running one is removed only by force. *)
Definition small_engine (starts : bool) : Engine (gmap string bool) :=
  MkEngine (gmap string bool) (λ _ s, (Ok true, s)) (λ _ s, (Ok [], s)) (λ _ s, (Ok "c1", <["c1" := false]> s)) (λ _ s, (Ok tt, s))
    (λ id s, if starts then (Ok tt, alter (λ _, true) id s) else (Err [DriverError], s)) (λ _ s, (Ok (Some 12%Z), s))
    (λ id _ s, (Ok tt, alter (λ _, false) id s))
    (λ id force s, match s !! id with Some true => if force then (Ok tt, delete id s) else (Err [DriverError], s) | _ => (Ok tt, delete id s) end).
#[local] Instance small_engine_laws starts : EngineLaws (small_engine starts) dom.
Proof.
  assert (Halter : ∀ (f : bool → bool) id (s : gmap string bool), dom (alter f id s) ⊆ dom s) by (intros; by rewrite dom_alter).
  split; simpl; intros; try done.
  - by destruct starts; simpl; [apply Halter|].
  - exists "c1". rewrite dom_insert. split; [done|]. by intros answer _ [= <-].
  - destruct (s !! id) as [[|]|]; [destruct force|..]; simpl; rewrite ?dom_delete; set_solver.
  - destruct (s !! id) as [[|]|]; [destruct force|..]; simpl in *; rewrite ?dom_delete; set_solver.
Qed.
Definition container_request : StartRequest :=
  MkStartRequest sample_id (MkSpec "make" [] "/src" ∅ ExecutorContainer "alpine" [] []) true sample_time.
Abbreviation try_start starts := (Container_Start (H := ascii_case) (small_engine starts) (λ _ _ p, (Ok tt, p)) container_request (MkEngineWorld ∅ [] tt)).

(** A container that does not start is removed, and nothing is left. *)
Lemma containers_removed_witness :
  ∃ e w1, try_start false = (Err e, w1) ∧ last (ew_asked w1) = Some (AskedRemove "c1" true (Ok tt)) ∧ dom (ew_engine w1) = ∅.
Proof.
  destruct (try_start false) as [[process|e] w1] eqn:E; [vm_compute in E; discriminate E|].
  assert (Ha : ew_asked w1 = [AskedCreate (Ok "c1"); AskedStart "c1"; AskedRemove "c1" true (Ok tt)]) by (vm_compute in E; injection E as _ <-; reflexivity).
  exists e, w1. split; [reflexivity|].
  destruct (containers_removed (H := ascii_case) (small_engine false) (λ _ _ p, (Ok tt, p)) dom (λ _, "failed") container_request _ w1 _ E) as (asks & Hasks & Hall & Hleft).
  cbn [ew_asked app] in Hasks. subst asks. split; [by rewrite Ha|]. rewrite Ha in Hleft.
  destruct Hleft as [Hleft|(id & _ & [[e' [=]]|[[=]|(force & e' & [=])]])]. cbn [ew_engine] in Hleft. set_solver.
Defined.

(** A wait that fails while the container runs leaves it there, running: [Wait] asks for
    its removal without force and has killed nothing. *)
Example running_container_left : ∃ process w1, try_start true = (Ok process, w1) ∧
  ∃ exit w2, Container_Wait (small_engine true) (λ _, "conflict") process (WaitError (Some "connection reset")) None None w1 = (exit, w2) ∧
    WaitErr exit = Some "wait for container c1: connection reset" ∧ ew_engine w2 !! "c1" = Some true.
Proof. eexists _, _. split; [vm_compute; reflexivity|]. eexists _, _. split; [vm_compute; reflexivity|]. split; reflexivity. Qed.
