(* ===== verification/Encoding.v ===== *)
(** * encoding/base64: RawURLEncoding

    Three bytes become four characters of the URL-safe alphabet; there is no
    padding.  The decoder skips carriage returns and line feeds, refuses any
    other foreign character and a final group of one character, and ignores
    unused trailing bits. *)

From S2P Require Import Prelude GoText.
From Stdlib Require Import Ascii.
Local Open Scope string_scope.
Local Open Scope nat_scope.
Local Open Scope list_scope.

Definition b64_digit (n : Z) : ascii :=
  (if n <? 26 then byte_of (n + 65) else if n <? 52 then byte_of (n - 26 + 97)
   else if n <? 62 then byte_of (n - 52 + 48) else if n =? 62 then byte_of 45 else byte_of 95)%Z.

Definition b64_val (c : ascii) : option Z :=
  let v := val c in
  (if (65 <=? v) && (v <=? 90) then Some (v - 65)
   else if (97 <=? v) && (v <=? 122) then Some (v - 97 + 26)
   else if (48 <=? v) && (v <=? 57) then Some (v - 48 + 52)
   else if v =? 45 then Some 62 else if v =? 95 then Some 63 else None)%Z.

Fixpoint b64_encode (l : bytes) : bytes :=
  match l with
  | [] => []
  | [a] => [b64_digit (val a / 4); b64_digit (val a `mod` 4 * 16)]
  | [a; b] => [b64_digit (val a / 4); b64_digit (val a `mod` 4 * 16 + val b / 16);
               b64_digit (val b `mod` 16 * 4)]
  | a :: b :: c :: rest =>
      b64_digit (val a / 4) :: b64_digit (val a `mod` 4 * 16 + val b / 16)
      :: b64_digit (val b `mod` 16 * 4 + val c / 64) :: b64_digit (val c `mod` 64) :: b64_encode rest
  end.

Fixpoint b64_quanta (l : bytes) : option bytes :=
  match l with
  | [] => Some []
  | [_] => None
  | [c0; c1] =>
      x ← b64_val c0; y ← b64_val c1; Some [byte_of (x * 4 + y / 16)]
  | [c0; c1; c2] =>
      x ← b64_val c0; y ← b64_val c1; z ← b64_val c2;
      Some [byte_of (x * 4 + y / 16); byte_of (y `mod` 16 * 16 + z / 4)]
  | c0 :: c1 :: c2 :: c3 :: rest =>
      x ← b64_val c0; y ← b64_val c1; z ← b64_val c2; t ← b64_val c3; tail ← b64_quanta rest;
      Some (byte_of (x * 4 + y / 16) :: byte_of (y `mod` 16 * 16 + z / 4)
            :: byte_of (z `mod` 4 * 64 + t) :: tail)
  end.

Definition is_newline (c : ascii) : bool := (val c =? 10)%Z || (val c =? 13)%Z.

(** [base64.RawURLEncoding.EncodeToString] and [DecodeString]. *)
Definition RawURL_EncodeToString (l : bytes) : string := str_of (b64_encode l).
Definition RawURL_DecodeString (s : string) : option bytes :=
  b64_quanta (filter (λ c, is_newline c = false) (bytes_of s)).

(** ** Lemmas *)

Lemma b64_digit_val n : (0 ≤ n < 64)%Z → b64_val (b64_digit n) = Some n ∧ is_newline (b64_digit n) = false.
Proof.
  intros Hn. pose proof (forallb_below
    (λ n, bool_decide (b64_val (b64_digit n) = Some n) && negb (is_newline (b64_digit n))) 64 n eq_refl Hn) as Hb. cbv beta in Hb. by reflect_bools.
Qed.

Lemma list_ind3 {A} (P : list A → Prop) :
  P [] → (∀ a, P [a]) → (∀ a b, P [a; b]) → (∀ a b c l, P l → P (a :: b :: c :: l)) → ∀ l, P l.
Proof.
  intros H0 H1 H2 H3. fix IH 1. intros [|a [|b [|c l]]]; [done|done|done|]. apply H3, IH.
Qed.

Lemma byte_of_eq z c : z = val c → byte_of z = c.
Proof. intros ->. apply byte_of_val. Qed.

(** Reads the digits of an encoding back, one group at a time. *)
#[local] Ltac groups :=
  repeat match goal with |- context [b64_val (b64_digit ?n)] =>
    rewrite (proj1 (b64_digit_val n ltac:(Z.to_euclidean_division_equations; lia))) end.

Lemma b64_quanta_encode l : b64_quanta (b64_encode l) = Some l.
Proof.
  induction l as [|a|a b|a b c l IH] using list_ind3; [done|..]; cbn [b64_encode b64_quanta];
    pose proof (val_range a); try (pose proof (val_range b)); try (pose proof (val_range c));
    groups; cbn [mbind option_bind]; rewrite ?IH; cbn [mbind option_bind];
    repeat f_equal; apply byte_of_eq; Z.to_euclidean_division_equations; lia.
Qed.

Lemma b64_encode_no_newline l : Forall (λ c, is_newline c = false) (b64_encode l).
Proof.
  induction l as [|a|a b|a b c l IH] using list_ind3; cbn [b64_encode];
    try (pose proof (val_range a)); try (pose proof (val_range b)); try (pose proof (val_range c));
    repeat constructor; try done; apply b64_digit_val; Z.to_euclidean_division_equations; lia.
Qed.

(** Decoding inverts encoding. *)
Lemma RawURL_roundtrip l : RawURL_DecodeString (RawURL_EncodeToString l) = Some l.
Proof.
  unfold RawURL_DecodeString, RawURL_EncodeToString. rewrite bytes_of_str_of, filter_all
    by apply b64_encode_no_newline. apply b64_quanta_encode.
Qed.
