(* ===== verification/Rendezvous.v ===== *)
(** * The rendezvous service (internal/connectivity/rendezvous/service.go)

    The hosted service through which two paired devices find each other.  It
    keeps short-lived routes in memory; a route holds the digest of the bearer
    token that opened it, one presence per role and a queue of signals per
    recipient.  Each request is handled under the service's lock, so a handler
    is a function from the table of routes to a response and a new table.
    Decoding of protobuf bodies and SHA-256 are parameters; a request carries
    its media type as [mime.ParseMediaType] reports it.  Texts of error messages
    are not modelled. *)

From S2P Require Import Prelude GoText Encoding.
From Stdlib Require Import Ascii.
Local Open Scope string_scope.
Local Open Scope nat_scope.
Local Open Scope list_scope.

(** ** Configuration *)

Definition ProtocolVersion : Z := 1.
Definition ProtobufMediaType : string := "application/x-protobuf".
Definition defaultPresenceLifetime : Z := (90 * second)%Z.
Definition defaultSignalLifetime : Z := (2 * minute)%Z.
Definition defaultRouteLifetime : Z := (6 * minute)%Z.
Definition defaultMaxRoutes : Z := 10000.
Definition defaultMaxSignalsPerRoute : Z := 64.
Definition defaultMaxPayloadBytes : Z := 32768.
Definition defaultMaxRequestsPerRoute : Z := 240.
Definition maximumPollLimit : Z := 64.
Definition defaultPollLimit : Z := 32.

Record Config := MkConfig {
  PresenceLifetime : Z;
  SignalLifetime : Z;
  RouteLifetime : Z;
  MaxRoutes : Z;
  MaxSignalsPerRoute : Z;
  MaxPayloadBytes : Z;
  MaxRequestsPerRoute : Z
}.

Definition or_default (value default : Z) : Z := if (value =? 0)%Z then default else value.

(** [New]: the configuration a constructed service runs with. *)
Definition Rendezvous_New (config : Config) : result Config :=
  let c := MkConfig (or_default (PresenceLifetime config) defaultPresenceLifetime)
    (or_default (SignalLifetime config) defaultSignalLifetime)
    (or_default (RouteLifetime config) defaultRouteLifetime)
    (or_default (MaxRoutes config) defaultMaxRoutes)
    (or_default (MaxSignalsPerRoute config) defaultMaxSignalsPerRoute)
    (or_default (MaxPayloadBytes config) defaultMaxPayloadBytes)
    (or_default (MaxRequestsPerRoute config) defaultMaxRequestsPerRoute) in
  _ ← reject_if
    ((PresenceLifetime c <=? 0) || (SignalLifetime c <=? 0)
     || (RouteLifetime c <? minute) || (15 * minute <? RouteLifetime c)
     || (RouteLifetime c <? PresenceLifetime c) || (RouteLifetime c <? SignalLifetime c)
     || (MaxRoutes c <? 1) || (1000000 <? MaxRoutes c)
     || (MaxSignalsPerRoute c <? 1) || (1024 <? MaxSignalsPerRoute c)
     || (MaxPayloadBytes c <? 1) || (1048576 <? MaxPayloadBytes c)
     || (MaxRequestsPerRoute c <? 1) || (100000 <? MaxRequestsPerRoute c))%Z
    [RendezvousErrInvalidConfiguration];
  Ok c.

(** ** State *)

Inductive endpointRole := roleOrchestrator | roleWorker.

#[global] Instance endpointRole_eq_dec : EqDecision endpointRole.
Proof. solve_decision. Defined.

#[global] Instance endpointRole_countable : Countable endpointRole.
Proof.
  apply (inj_countable' (λ r, match r with roleOrchestrator => true | roleWorker => false end)
    (λ b, if b : bool then roleOrchestrator else roleWorker)).
  by intros [].
Defined.

Record storedPresence := MkPresence {
  p_role : endpointRole; p_generation : Z; p_payload : bytes; p_expiresAt : Z
}.

Record storedSignal := MkSignal {
  s_sequence : Z; s_sender : endpointRole; s_payload : bytes; s_createdAt : Z; s_expiresAt : Z
}.

Record route := MkRoute {
  authDigest : bytes;
  expiresAt : Z;
  windowStart : Z;
  requestCount : Z;
  nextSequence : Z;
  presences : gmap endpointRole storedPresence;
  signals : gmap endpointRole (list storedSignal)
}.

Abbreviation routes := (gmap string route).

(** ** Requests and responses *)

Record PublishPresenceRequest := MkPublish {
  pub_version : Z; pub_role : Z; pub_generation : Z; pub_payload : bytes
}.
Record SendSignalRequest := MkSend {
  send_version : Z; send_sender : Z; send_recipient : Z; send_payload : bytes
}.
Record PollSignalsRequest := MkPoll {
  poll_version : Z; poll_recipient : Z; poll_after : Z; poll_limit : Z
}.

Inductive ErrorCode := InvalidArgument | Unauthenticated | NotFound | Conflict
  | ResourceExhausted | UnsupportedVersion.

Record serviceError := MkServiceError { status : Z; code : ErrorCode }.

Inductive Response :=
| PresenceResponse (expires_ns : Z) (peer : option storedPresence)
| SignalResponse (sequence expires_ns : Z)
| PollResponse (delivered : list storedSignal) (next : Z) (has_more : bool)
| HealthResponse
| ErrorResponse (e : serviceError)
| MethodNotAllowed.

Definition invalidArgument : serviceError := MkServiceError 400 InvalidArgument.
Definition unauthenticated : serviceError := MkServiceError 401 Unauthenticated.
Definition notFound : serviceError := MkServiceError 404 NotFound.
Definition conflict : serviceError := MkServiceError 409 Conflict.
Definition exhausted : serviceError := MkServiceError 429 ResourceExhausted.
Definition unsupportedVersion : serviceError := MkServiceError 426 UnsupportedVersion.

Definition validateProtocol (version : Z) : option serviceError :=
  if (version =? ProtocolVersion)%Z then None else Some unsupportedVersion.

(** The numbers of the protobuf enumeration. *)
Definition roleFromProto (role : Z) : option endpointRole :=
  if (role =? 1)%Z then Some roleOrchestrator else if (role =? 2)%Z then Some roleWorker else None.

Definition roleToProto (role : endpointRole) : Z :=
  match role with roleOrchestrator => 1 | roleWorker => 2 end%Z.

Definition oppositeRole (role : endpointRole) : endpointRole :=
  match role with roleOrchestrator => roleWorker | roleWorker => roleOrchestrator end.

Definition minTime (first second : Z) : Z := if before first second then first else second.

(** [parsePath]. *)
Definition parsePath (path : string) : option (string * string) :=
  let prefix := "/v1/rendezvous/" in
  if negb (has_prefix path prefix) then None
  else match split "/"%char (str_of (drop (String.length prefix) (bytes_of path))) with
  | [routeID; operation] =>
      if bool_decide (routeID = "") || bool_decide (operation = "") then None
      else Some (routeID, operation)
  | _ => None
  end.

Definition digest_size : nat := 32.

Definition bearerToken (header : string) : option bytes :=
  let prefix := "Bearer " in
  let rest := str_of (drop (String.length prefix) (bytes_of header)) in
  if negb (has_prefix header prefix) || contains_byte " "%char rest then None
  else match RawURL_DecodeString rest with
  | Some token => if bool_decide (length token = digest_size) then Some token else None
  | None => None
  end.

Definition validOpaqueValue (value : string) : bool :=
  match RawURL_DecodeString value with
  | Some decoded => bool_decide (length decoded = digest_size)
      && bool_decide (RawURL_EncodeToString decoded = value)
  | None => false
  end.

(** ** Operations under the lock *)

Section Service.
Context (config : Config).

Definition validPayload (payload : bytes) : bool :=
  bool_decide (0 < length payload) && (Z.of_nat (length payload) <=? MaxPayloadBytes config)%Z.

(** [pruneLocked]: expired routes go; in the others, expired presences and
    signals go, and with its last signal a queue. *)
Definition prune_queue (now_ : Z) (queue : list storedSignal) : option (list storedSignal) :=
  match filter (λ s, after (s_expiresAt s) now_ = true) queue with [] => None | kept => Some kept end.

Definition prune_route (now_ : Z) (value : route) : route :=
  MkRoute (authDigest value) (expiresAt value) (windowStart value) (requestCount value) (nextSequence value)
    (filter (λ kv, after (p_expiresAt kv.2) now_ = true) (presences value))
    (omap (prune_queue now_) (signals value)).

Definition pruneLocked (now_ : Z) (table : routes) : routes :=
  prune_route now_ <$> filter (λ kv, after (expiresAt kv.2) now_ = true) table.

Definition set_route (value : route) (window count : Z) : route :=
  MkRoute (authDigest value) (expiresAt value) window count (nextSequence value) (presences value) (signals value).

(** The rate window of [routeLocked]: a new minute resets the count. *)
Definition admit_request (now_ : Z) (value : route) : route * bool :=
  let value := if negb (before now_ (windowStart value + minute)) then set_route value now_ 0 else value in
  if (MaxRequestsPerRoute config <=? requestCount value)%Z then (value, false)
  else (set_route value (windowStart value) (requestCount value + 1), true).

(** [routeLocked]: the route to use, or an error; and the new table. *)
Definition routeLocked (table : routes) (routeID : string) (digest : bytes) (now_ : Z) (create : bool) :
    (route + serviceError) * routes :=
  let found :=
    match table !! routeID with
    | None =>
        if negb create then inr notFound
        else if (MaxRoutes config <=? Z.of_nat (size table))%Z then inr exhausted
        else inl (MkRoute digest (now_ + RouteLifetime config) now_ 0 0 ∅ ∅)
    | Some value => if negb (bool_decide (authDigest value = digest)) then inr unauthenticated else inl value
    end in
  match found with
  | inr e => (inr e, table)
  | inl value =>
      let '(value, ok) := admit_request now_ value in
      (if ok then inl value else inr exhausted, <[routeID := value]> table)
  end.

Definition set_presence (value : route) (role : endpointRole) (p : storedPresence) : route :=
  MkRoute (authDigest value) (expiresAt value) (windowStart value) (requestCount value) (nextSequence value)
    (<[role := p]> (presences value)) (signals value).

Definition set_queue (value : route) (next : Z) (role : endpointRole) (queue : list storedSignal) : route :=
  MkRoute (authDigest value) (expiresAt value) (windowStart value) (requestCount value) next
    (presences value) (<[role := queue]> (signals value)).

Definition queue_of (value : route) (role : endpointRole) : list storedSignal :=
  default [] (signals value !! role).

(** Whether a role has a presence that has not expired. *)
Definition present (value : route) (role : endpointRole) (now_ : Z) : bool :=
  match presences value !! role with Some p => after (p_expiresAt p) now_ | None => false end.

Definition publishPresence (table : routes) (routeID : string) (digest : bytes) (now_ : Z)
    (request : option PublishPresenceRequest) : Response * routes :=
  match request with
  | None => (ErrorResponse invalidArgument, table)
  | Some request =>
      match validateProtocol (pub_version request), roleFromProto (pub_role request) with
      | Some e, _ => (ErrorResponse e, table)
      | None, None => (ErrorResponse invalidArgument, table)
      | None, Some role =>
          if (pub_generation request =? 0)%Z || negb (validPayload (pub_payload request))
          then (ErrorResponse invalidArgument, table)
          else
            let '(found, table) := routeLocked (pruneLocked now_ table) routeID digest now_ true in
            match found with
            | inr e => (ErrorResponse e, table)
            | inl value =>
                let stale := match presences value !! role with
                  | Some existing => (pub_generation request <? p_generation existing)%Z
                      || (pub_generation request =? p_generation existing)%Z
                         && negb (bool_decide (pub_payload request = p_payload existing))
                  | None => false end in
                if stale then (ErrorResponse conflict, table)
                else
                  let expires := minTime (now_ + PresenceLifetime config) (expiresAt value) in
                  let value := set_presence value role
                    (MkPresence role (pub_generation request) (pub_payload request) expires) in
                  let peer := match presences value !! oppositeRole role with
                    | Some p => if after (p_expiresAt p) now_ then Some p else None
                    | None => None end in
                  (PresenceResponse (unix_nano expires) peer, <[routeID := value]> table)
            end
      end
  end.

Definition sendSignal (table : routes) (routeID : string) (digest : bytes) (now_ : Z)
    (request : option SendSignalRequest) : Response * routes :=
  match request with
  | None => (ErrorResponse invalidArgument, table)
  | Some request =>
      match validateProtocol (send_version request), roleFromProto (send_sender request),
            roleFromProto (send_recipient request) with
      | Some e, _, _ => (ErrorResponse e, table)
      | None, Some sender, Some recipient =>
          if negb (bool_decide (recipient = oppositeRole sender)) || negb (validPayload (send_payload request))
          then (ErrorResponse invalidArgument, table)
          else
            let '(found, table) := routeLocked (pruneLocked now_ table) routeID digest now_ false in
            match found with
            | inr e => (ErrorResponse e, table)
            | inl value =>
                if negb (present value sender now_) then (ErrorResponse conflict, table)
                else
                  let queue := queue_of value recipient in
                  if (MaxSignalsPerRoute config <=? Z.of_nat (length queue))%Z
                  then (ErrorResponse exhausted, table)
                  else
                    let sequence := wrap_uint64 (nextSequence value + 1) in
                    let expires := minTime (now_ + SignalLifetime config) (expiresAt value) in
                    let value := set_queue value sequence recipient
                      (queue ++ [MkSignal sequence sender (send_payload request) now_ expires]) in
                    (SignalResponse sequence (unix_nano expires), <[routeID := value]> table)
            end
      | None, _, _ => (ErrorResponse invalidArgument, table)
      end
  end.

(** The loop that fills the response: at most [limit] signals after [after_]. *)
Fixpoint collect_signals (queue : list storedSignal) (after_ limit : Z) (acc : list storedSignal) (next : Z) :
    list storedSignal * Z * bool :=
  match queue with
  | [] => (acc, next, false)
  | signal :: rest =>
      if (s_sequence signal <=? after_)%Z then collect_signals rest after_ limit acc next
      else if (Z.of_nat (length acc) =? limit)%Z then (acc, next, true)
      else collect_signals rest after_ limit (acc ++ [signal]) (s_sequence signal)
  end.

Definition pollSignals (table : routes) (routeID : string) (digest : bytes) (now_ : Z)
    (request : option PollSignalsRequest) : Response * routes :=
  match request with
  | None => (ErrorResponse invalidArgument, table)
  | Some request =>
      match validateProtocol (poll_version request) with
      | Some e => (ErrorResponse e, table)
      | None =>
          let limit := if (poll_limit request =? 0)%Z then defaultPollLimit else poll_limit request in
          match roleFromProto (poll_recipient request) with
          | None => (ErrorResponse invalidArgument, table)
          | Some recipient =>
              if (maximumPollLimit <? limit)%Z then (ErrorResponse invalidArgument, table)
              else
                let '(found, table) := routeLocked (pruneLocked now_ table) routeID digest now_ false in
                match found with
                | inr e => (ErrorResponse e, table)
                | inl value =>
                    if negb (present value recipient now_) then (ErrorResponse conflict, table)
                    else
                      let queue := queue_of value recipient in
                      let kept := filter (λ s, (poll_after request < s_sequence s)%Z) queue in
                      let '(queue, table) :=
                        if (0 <? poll_after request)%Z
                        then (kept, <[routeID := set_queue value (nextSequence value) recipient kept]> table)
                        else (queue, table) in
                      let '(delivered, next, has_more) :=
                        collect_signals queue (poll_after request) limit [] (poll_after request) in
                      (PollResponse delivered next has_more, table)
                end
          end
      end
  end.

(** ** HTTP *)

Record HTTPRequest := MkHTTPRequest {
  Method : string;
  URLPath : string;
  Authorization : string;
  MediaType : option string;   (* of the Content-Type header *)
  Body : option bytes          (* [None] if reading it fails *)
}.

Definition maxRequestBytes : Z := (MaxPayloadBytes config + 8192)%Z.

Context (sha256 : bytes → bytes)
  (unmarshal_publish : bytes → option PublishPresenceRequest)
  (unmarshal_send : bytes → option SendSignalRequest)
  (unmarshal_poll : bytes → option PollSignalsRequest).

Definition ServeHTTP (table : routes) (now_ : Z) (request : HTTPRequest) : Response * routes :=
  if bool_decide (URLPath request = "/healthz") then
    (if bool_decide (Method request = "GET") then HealthResponse else MethodNotAllowed, table)
  else if negb (bool_decide (Method request = "POST")) then
    (ErrorResponse (MkServiceError 405 InvalidArgument), table)
  else match parsePath (URLPath request) with
  | None => (ErrorResponse invalidArgument, table)
  | Some (routeID, operation) =>
      if negb (validOpaqueValue routeID) then (ErrorResponse invalidArgument, table)
      else match bearerToken (Authorization request) with
      | None => (ErrorResponse unauthenticated, table)
      | Some token =>
          if negb (bool_decide (MediaType request = Some ProtobufMediaType))
          then (ErrorResponse invalidArgument, table)
          else match Body request with
          | None => (ErrorResponse invalidArgument, table)
          | Some body =>
              if (maxRequestBytes <? Z.of_nat (length body))%Z then (ErrorResponse invalidArgument, table)
              else
                let digest := sha256 token in
                if bool_decide (operation = "presence") then
                  publishPresence table routeID digest now_ (unmarshal_publish body)
                else if bool_decide (operation = "signals") then
                  sendSignal table routeID digest now_ (unmarshal_send body)
                else if bool_decide (operation = "poll") then
                  pollSignals table routeID digest now_ (unmarshal_poll body)
                else (ErrorResponse invalidArgument, table)
          end
      end
  end.

End Service.

#[global] Arguments minute : simpl never.
#[global] Arguments second : simpl never.
#[global] Arguments pruneLocked : simpl never.
#[global] Arguments routeLocked : simpl never.
#[global] Arguments admit_request : simpl never.

(** ** Specification *)

(** A configuration [New] accepted. *)
Definition configured (c : Config) : Prop := ∃ given, Rendezvous_New given = Ok c.

(** Queues are in the order of their sequence numbers. *)
Definition earlier (a b : storedSignal) : Prop := (s_sequence a < s_sequence b)%Z.

Definition signal_ok (c : Config) (v : route) (recipient : endpointRole) (s : storedSignal) : Prop :=
  (0 < s_sequence s ≤ nextSequence v)%Z ∧ s_sender s = oppositeRole recipient ∧
  validPayload c (s_payload s) = true ∧ (s_expiresAt s ≤ expiresAt v)%Z.

Definition presence_ok (c : Config) (v : route) (role : endpointRole) (p : storedPresence) : Prop :=
  p_role p = role ∧ validPayload c (p_payload p) = true ∧ (p_expiresAt p ≤ expiresAt v)%Z.

(** Requests the route can have admitted since it was opened: the opening time is
    [expiresAt - RouteLifetime], and each full minute admits at most
    [MaxRequestsPerRoute]. *)
Definition admitted_bound (c : Config) (v : route) : Z :=
  (MaxRequestsPerRoute c * ((windowStart v - (expiresAt v - RouteLifetime c)) / minute) + requestCount v)%Z.

Record route_ok (c : Config) (v : route) : Prop := {
  ok_count : (0 ≤ requestCount v ≤ MaxRequestsPerRoute c)%Z;
  ok_window : (expiresAt v - RouteLifetime c ≤ windowStart v < expiresAt v)%Z;
  ok_sequence : (0 ≤ nextSequence v ≤ admitted_bound c v)%Z;
  ok_presences : map_Forall (presence_ok c v) (presences v);
  ok_signals : map_Forall (λ role queue, Forall (signal_ok c v role) queue ∧
      StronglySorted earlier queue ∧
      (Z.of_nat (length queue) ≤ MaxSignalsPerRoute c)%Z) (signals v)
}.

Definition table_ok (c : Config) (table : routes) : Prop :=
  (Z.of_nat (size table) ≤ MaxRoutes c)%Z ∧ map_Forall (λ _, route_ok c) table.

(** ** Lemmas *)

Lemma configured_bounds c :
  configured c → (0 < PresenceLifetime c ≤ RouteLifetime c)%Z ∧ (0 < SignalLifetime c ≤ RouteLifetime c)%Z ∧
  (minute ≤ RouteLifetime c ≤ 15 * minute)%Z ∧ (1 ≤ MaxRoutes c)%Z ∧ (1 ≤ MaxSignalsPerRoute c ≤ 1024)%Z ∧
  (1 ≤ MaxRequestsPerRoute c ≤ 100000)%Z.
Proof.
  intros [given Hn]. unfold Rendezvous_New in Hn. apply result_bind_ok in Hn as (u & Hr & [= <-]).
  apply reject_if_ok in Hr. reflect_bools. lia.
Qed.

Lemma minute_pos : (0 < minute)%Z.
Proof. done. Qed.

Section Lemmas.
Context (c : Config) (Hc : configured c).

(** Sequence numbers never come near the end of [uint64]. *)
Lemma sequence_bound v : route_ok c v → (0 ≤ nextSequence v ≤ 15 * MaxRequestsPerRoute c)%Z.
Proof.
  intros Hv. destruct (configured_bounds c Hc) as (_ & _ & Hl & _ & _ & Hm).
  destruct Hv as [Hcnt Hw Hs _ _]. unfold admitted_bound in Hs. pose proof minute_pos.
  assert ((windowStart v - (expiresAt v - RouteLifetime c)) / minute < 15)%Z as Hk.
  { apply Z.div_lt_upper_bound; lia. }
  assert (0 ≤ (windowStart v - (expiresAt v - RouteLifetime c)) / minute)%Z by (apply Z.div_pos; lia).
  nia.
Qed.

Lemma sequence_small v : route_ok c v → (0 ≤ nextSequence v < 2 ^ 63)%Z.
Proof.
  intros Hv%sequence_bound. pose proof (configured_bounds c Hc). lia.
Qed.

Lemma prune_queue_some now_ q q' :
  prune_queue now_ q = Some q' → q' = filter (λ s, after (s_expiresAt s) now_ = true) q ∧ q' ≠ [].
Proof. unfold prune_queue. destruct (filter _ q); [done|]. by intros [= <-]. Qed.

(** Dropping presences and signals keeps a route well-formed. *)
Lemma filtered_queue (P : storedSignal → Prop) `{∀ x, Decision (P x)} v role q :
  Forall (signal_ok c v role) q ∧ StronglySorted earlier q ∧
  (Z.of_nat (length q) ≤ MaxSignalsPerRoute c)%Z →
  Forall (signal_ok c v role) (filter P q) ∧
  StronglySorted earlier (filter P q) ∧
  (Z.of_nat (length (filter P q)) ≤ MaxSignalsPerRoute c)%Z.
Proof.
  intros (Hall & Hs & Hl). split_and!.
  - apply Forall_forall. intros s [_ Hin]%list_elem_of_filter. by eapply Forall_forall in Hall.
  - by apply StronglySorted_filter.
  - pose proof (length_filter_le P q). lia.
Qed.

Lemma prune_route_ok now_ v : route_ok c v → route_ok c (prune_route now_ v).
Proof.
  intros [H1 H2 H3 H4 H5]. constructor; try done.
  - intros role p [Hp _]%map_lookup_filter_Some. by apply H4.
  - intros role q Hq. simpl in Hq. rewrite lookup_omap in Hq. apply bind_Some in Hq as (q0 & Hq0 & Hp).
    apply prune_queue_some in Hp as [-> _]. apply (filtered_queue _ v). by apply H5.
Qed.

Lemma prune_lookup now_ table id v :
  pruneLocked now_ table !! id = Some v →
  ∃ v0, table !! id = Some v0 ∧ v = prune_route now_ v0 ∧ (now_ < expiresAt v0)%Z.
Proof.
  unfold pruneLocked. rewrite lookup_fmap. intros (v0 & [Hv He]%map_lookup_filter_Some & ->)%fmap_Some.
  exists v0. unfold after in He. simpl in He. reflect_bools. auto.
Qed.

Lemma prune_table_ok now_ table : table_ok c table → table_ok c (pruneLocked now_ table).
Proof.
  intros [Hs Hall]. split.
  - unfold pruneLocked. rewrite map_size_fmap.
    pose proof (map_size_filter (λ kv : string * route, after (expiresAt kv.2) now_ = true) table). lia.
  - intros id v (v0 & Hv0 & -> & _)%prune_lookup. by apply prune_route_ok, (Hall id).
Qed.

(** Admission counts the request, opening a new window after a minute. *)
Lemma admit_ok now_ v v' ok :
  route_ok c v → (now_ < expiresAt v)%Z → admit_request c now_ v = (v', ok) →
  route_ok c v' ∧ expiresAt v' = expiresAt v ∧ authDigest v' = authDigest v ∧
  presences v' = presences v ∧ signals v' = signals v ∧ nextSequence v' = nextSequence v ∧
  (ok = true → (nextSequence v' + 1 ≤ admitted_bound c v')%Z) ∧
  (ok = false → v' = v ∧ requestCount v = MaxRequestsPerRoute c ∧ (now_ < windowStart v + minute)%Z).
Proof.
  intros Hv Hnow. destruct (configured_bounds c Hc) as (_ & _ & Hl & _ & _ & Hm). pose proof minute_pos.
  destruct Hv as [Hcnt Hw Hs Hp Hq]. unfold admit_request, before.
  destruct (now_ <? windowStart v + minute)%Z eqn:Ew; cbn [negb]; reflect_bools.
  - destruct (MaxRequestsPerRoute c <=? requestCount v)%Z eqn:Ec; intros [= <- <-]; reflect_bools.
    + split_and!; auto; [by constructor|done|]. intros _. split_and!; auto. lia.
    + split_and!; try done; [|unfold admitted_bound in *; simpl; lia]. constructor; try done; simpl; try lia.
      unfold admitted_bound in *. simpl. lia.
  - assert ((windowStart v - (expiresAt v - RouteLifetime c)) / minute + 1
      ≤ (now_ - (expiresAt v - RouteLifetime c)) / minute)%Z as Hdiv.
    { rewrite <-Z.div_add by lia. apply Z.div_le_mono; lia. }
    assert (nextSequence v ≤ MaxRequestsPerRoute c * ((now_ - (expiresAt v - RouteLifetime c)) / minute))%Z as Hb.
    { unfold admitted_bound in Hs. nia. }
    cbn [requestCount set_route]. rewrite (proj2 (Z.leb_gt _ _)) by lia. intros [= <- <-].
    split_and!; try done; [|unfold admitted_bound; simpl; lia].
    constructor; try done; simpl; try lia. unfold admitted_bound. simpl. lia.
Qed.

(** What [routeLocked] hands out: [v] is in the new table at [id], belongs to the
    holder of [digest], is alive and has room for one more sequence number. *)
Record routed (table' : routes) (id : string) (digest : bytes) (now_ : Z) (v : route) : Prop := {
  rt_lookup : table' !! id = Some v;
  rt_ok : route_ok c v;
  rt_digest : authDigest v = digest;
  rt_live : (now_ < expiresAt v)%Z;
  rt_room : (nextSequence v + 1 ≤ admitted_bound c v)%Z
}.

(** Two routes that differ in the rate window only. *)
Definition same_content (v v0 : route) : Prop :=
  presences v = presences v0 ∧ signals v = signals v0 ∧ nextSequence v = nextSequence v0 ∧
  expiresAt v = expiresAt v0.

Lemma admit_routed table id digest now_ v0 found table' :
  table_ok c (<[id := v0]> table) → (now_ < expiresAt v0)%Z → authDigest v0 = digest →
  (requestCount v0 = MaxRequestsPerRoute c → table !! id = Some v0) →
  (let '(value, ok) := admit_request c now_ v0 in
   (if ok then inl value else inr exhausted, <[id := value]> table)) = (found, table') →
  table_ok c table' ∧ (∀ i, i ≠ id → table' !! i = table !! i) ∧
  match found with
  | inl v => routed table' id digest now_ v ∧ same_content v v0
  | inr e => table' = table
  end.
Proof.
  intros [Hsz Hall] Hlive Hd Hfull. destruct (admit_request c now_ v0) as [v' ok] eqn:Ea.
  assert (route_ok c v0) as Hv0 by (apply (Hall id), lookup_insert_eq).
  apply admit_ok in Ea as (Hv' & He & Ha & Hp & Hq & Hn & Hok & Hno); [|done..].
  intros [= <- <-]. split_and!.
  - split; [rewrite map_size_insert; by rewrite map_size_insert in Hsz|].
    intros i v. destruct (decide (i = id)) as [->|Hi].
    + rewrite lookup_insert_eq. by intros [= <-].
    + rewrite lookup_insert_ne by done. intros Hv. apply (Hall i). by rewrite lookup_insert_ne.
  - intros i Hi. by apply lookup_insert_ne.
  - destruct ok.
    + split; [|by split_and!]. constructor; auto; [apply lookup_insert_eq|congruence|lia].
    + destruct (Hno eq_refl) as (-> & Hcount & _). by apply insert_id, Hfull.
Qed.

(** [routeLocked] on a pruned table. *)
Lemma route_locked_ok table id digest now_ create found table' :
  table_ok c table → (∀ i v, table !! i = Some v → (now_ < expiresAt v)%Z) →
  routeLocked c table id digest now_ create = (found, table') →
  table_ok c table' ∧ (∀ i, i ≠ id → table' !! i = table !! i) ∧
  match found with
  | inl v => routed table' id digest now_ v ∧
      match table !! id with
      | Some v0 => authDigest v0 = digest ∧ same_content v v0
      | None => create = true ∧ presences v = ∅ ∧ signals v = ∅ ∧ nextSequence v = 0%Z
      end
  | inr e => table' = table
  end.
Proof.
  intros Hok Hlive Hrun. pose proof Hok as [Hsize Hall]. unfold routeLocked in Hrun.
  destruct (configured_bounds c Hc) as (_ & _ & Hl & _ & _ & Hm). pose proof minute_pos.
  destruct (table !! id) as [v0|] eqn:Hlook.
  - destruct (bool_decide (authDigest v0 = digest)) eqn:Ed; cbn [negb] in Hrun; reflect_bools;
      [|by injection Hrun as <- <-].
    apply (admit_routed _ _ digest) in Hrun as (? & ? & Hf); auto; [|by rewrite insert_id|by eapply Hlive].
    split_and!; auto. destruct found; [|done]. by destruct Hf.
  - destruct create; cbn [negb] in Hrun; [|by injection Hrun as <- <-].
    destruct (MaxRoutes c <=? Z.of_nat (size table))%Z eqn:Es; reflect_bools; [by injection Hrun as <- <-|].
    apply (admit_routed _ _ digest) in Hrun as (? & ? & Hf); simpl; try done; [|split|lia|lia].
    + split_and!; auto. destruct found; [|done]. by destruct Hf as (? & ? & ? & ? & ?).
    + rewrite map_size_insert, Hlook. simpl. lia.
    + apply map_Forall_insert_2; [|done].
      constructor; simpl; try lia; [|apply map_Forall_empty..]. unfold admitted_bound. simpl.
      replace (now_ - (now_ + RouteLifetime c - RouteLifetime c))%Z with 0%Z by lia. rewrite Z.div_0_l; lia.
Qed.

Lemma replace_ok table id v v' :
  table_ok c table → table !! id = Some v → route_ok c v' → table_ok c (<[id := v']> table).
Proof.
  intros [Hs Hall] Hv Hv'. split; [by rewrite map_size_insert, Hv|by apply map_Forall_insert_2].
Qed.

Lemma set_presence_ok v role p :
  route_ok c v → presence_ok c v role p → route_ok c (set_presence v role p).
Proof. intros [H1 H2 H3 H4 H5] Hp. constructor; try done. simpl. by apply map_Forall_insert_2. Qed.

Lemma set_queue_ok v role kept :
  route_ok c v → Forall (signal_ok c v role) kept →
  StronglySorted earlier kept →
  (Z.of_nat (length kept) ≤ MaxSignalsPerRoute c)%Z →
  route_ok c (set_queue v (nextSequence v) role kept).
Proof.
  intros [H1 H2 H3 H4 H5] ? ? ?. constructor; try done. simpl. by apply map_Forall_insert_2.
Qed.

Lemma queue_of_ok v role :
  route_ok c v → Forall (signal_ok c v role) (queue_of v role) ∧
  StronglySorted earlier (queue_of v role) ∧
  (Z.of_nat (length (queue_of v role)) ≤ MaxSignalsPerRoute c)%Z.
Proof.
  intros Hv. destruct (configured_bounds c Hc) as (_ & _ & _ & _ & Hm & _). unfold queue_of.
  destruct (signals v !! role) as [q|] eqn:E; simpl; [by apply (ok_signals c v Hv)|].
  split_and!; [constructor|constructor|lia].
Qed.

(** Appending a signal with the next sequence number. *)
Lemma push_ok v role s :
  route_ok c v → (nextSequence v + 1 ≤ admitted_bound c v)%Z →
  (Z.of_nat (length (queue_of v role)) < MaxSignalsPerRoute c)%Z →
  s_sequence s = (nextSequence v + 1)%Z → s_sender s = oppositeRole role →
  validPayload c (s_payload s) = true → (s_expiresAt s ≤ expiresAt v)%Z →
  route_ok c (set_queue v (nextSequence v + 1) role (queue_of v role ++ [s])).
Proof.
  intros Hv Hroom Hlen Hseq Hsender Hpay Hexp. destruct (queue_of_ok v role Hv) as (Hall & Hs & _).
  pose proof Hv as [H1 H2 H3 H4 H5].
  assert (∀ r q, Forall (signal_ok c v r) q → Forall (signal_ok c (set_queue v (nextSequence v + 1) role (queue_of v role ++ [s])) r) q) as Hgrow.
  { intros r q Hq. apply (Forall_impl _ _ _ Hq). intros x ((? & ?) & ?). split; [simpl; lia|done]. }
  constructor; try done; [unfold admitted_bound in *; simpl; lia|]. simpl.
  apply map_Forall_insert_2; [|intros r q Hq; destruct (H5 r q Hq) as (? & ? & ?); auto].
  split_and!.
  - apply Forall_app. split; [by apply Hgrow|]. repeat constructor; simpl; auto; lia.
  - apply StronglySorted_snoc; [done|]. apply (Forall_impl _ _ _ Hall). intros x ((? & ?) & _). unfold earlier. lia.
  - rewrite length_app. simpl. lia.
Qed.

Lemma minTime_le_r a b : (minTime a b ≤ b)%Z.
Proof. unfold minTime, before. destruct (a <? b)%Z eqn:E; reflect_bools; lia. Qed.

Lemma pruned_live now_ table i v : pruneLocked now_ table !! i = Some v → (now_ < expiresAt v)%Z.
Proof. by intros (v0 & _ & -> & ?)%prune_lookup. Qed.

(** [routeLocked] after pruning keeps the table well-formed and hands out a route
    of it, or an error. *)
Lemma locked_ok table id digest now_ create found table' :
  table_ok c table → routeLocked c (pruneLocked now_ table) id digest now_ create = (found, table') →
  table_ok c table' ∧ match found with inl v => routed table' id digest now_ v | inr _ => True end.
Proof.
  intros Ht Hr. apply route_locked_ok in Hr as (? & _ & Hf);
    [|by apply prune_table_ok|apply pruned_live].
  split; [done|]. destruct found; [|done]. by destruct Hf.
Qed.

Lemma publish_ok table id digest now_ request :
  table_ok c table → table_ok c (publishPresence c table id digest now_ request).2.
Proof.
  intros Ht. unfold publishPresence. destruct request as [r|]; [|done].
  destruct (validateProtocol _); [done|]. destruct (roleFromProto _) as [role|]; [|done].
  destruct (_ || _) eqn:Ev; [done|]. reflect_bools.
  destruct (routeLocked _ _ _ _ _ _) as [[v|e] table'] eqn:Er; apply locked_ok in Er as [Ht' Hr]; [|done..].
  destruct (match presences v !! role with Some _ => _ | None => _ end); [done|]. simpl.
  eapply replace_ok; [done|by apply Hr|]. apply set_presence_ok; [by apply Hr|].
  split_and!; simpl; [done..|apply minTime_le_r].
Qed.

Lemma send_ok table id digest now_ request :
  table_ok c table → table_ok c (sendSignal c table id digest now_ request).2.
Proof.
  intros Ht. unfold sendSignal. destruct request as [r|]; [|done].
  destruct (validateProtocol _); [done|]. destruct (roleFromProto (send_sender r)) as [sender|]; [|done].
  destruct (roleFromProto (send_recipient r)) as [recipient|]; [|done].
  destruct (_ || _) eqn:Ev; [done|]. reflect_bools. subst recipient.
  destruct (routeLocked _ _ _ _ _ _) as [[v|e] table'] eqn:Er; apply locked_ok in Er as [Ht' Hr]; [|done..].
  destruct (negb _); [done|]. destruct (MaxSignalsPerRoute c <=? _)%Z eqn:El; [done|]. reflect_bools. simpl.
  destruct Hr as [Hlook Hv Hd Hlive Hroom]. pose proof (sequence_small v Hv).
  assert (wrap_uint64 (nextSequence v + 1) = nextSequence v + 1)%Z as -> by (apply Z.mod_small; lia).
  eapply replace_ok; [done|done|]. apply push_ok; simpl; auto; [by destruct sender|apply minTime_le_r].
Qed.

Lemma poll_ok table id digest now_ request :
  table_ok c table → table_ok c (pollSignals c table id digest now_ request).2.
Proof.
  intros Ht. unfold pollSignals. destruct request as [r|]; [|done].
  destruct (validateProtocol _); [done|]. destruct (roleFromProto _) as [role|]; [|done].
  destruct (_ <? _)%Z; [done|].
  destruct (routeLocked _ _ _ _ _ _) as [[v|e] table'] eqn:Er; apply locked_ok in Er as [Ht' Hr]; [|done..].
  destruct (negb _); [done|]. destruct Hr as [Hlook Hv _ _ _].
  destruct (0 <? _)%Z; destruct (collect_signals _ _ _ _ _) as [[? ?] ?]; simpl; [|done].
  eapply replace_ok; [done|done|].
  destruct (filtered_queue (λ s, (poll_after r < s_sequence s)%Z) v role (queue_of v role)) as (? & ? & ?);
    [by apply queue_of_ok|]. by apply set_queue_ok.
Qed.

End Lemmas.

(** ** Polling *)

(** The signals for [role] after sequence number [cursor]. *)
Definition pending (v : route) (role : endpointRole) (cursor : Z) : list storedSignal :=
  filter (λ s, (cursor < s_sequence s)%Z) (queue_of v role).

Definition last_sequence (cursor : Z) (l : list storedSignal) : Z :=
  match last l with Some s => s_sequence s | None => cursor end.

Lemma last_sequence_app cursor l s : last_sequence cursor (l ++ [s]) = s_sequence s.
Proof. unfold last_sequence. by rewrite last_snoc. Qed.

(** The loop takes a prefix of what is pending, and reports whether it is proper. *)
Lemma collect_signals_spec queue after_ limit acc :
  let P := filter (λ s, (after_ < s_sequence s)%Z) queue in
  let n := Z.to_nat limit - length acc in
  (Z.of_nat (length acc) ≤ limit)%Z →
  collect_signals queue after_ limit acc (last_sequence after_ acc) =
  (acc ++ take n P, last_sequence after_ (acc ++ take n P), bool_decide (n < length P)).
Proof.
  revert acc. induction queue as [|s rest IH]; intros acc P n Hle; subst P n; simpl.
  { rewrite filter_nil, take_nil. simpl. by rewrite app_nil_r. }
  rewrite filter_cons. destruct (s_sequence s <=? after_)%Z eqn:Es; reflect_bools.
  { rewrite decide_False by lia. by apply IH. }
  rewrite decide_True by done. destruct (Z.of_nat (length acc) =? limit)%Z eqn:El; reflect_bools.
  { replace (Z.to_nat limit - length acc) with 0 by lia. simpl.
    by rewrite app_nil_r. }
  destruct (Z.to_nat limit - length acc) as [|n] eqn:En; [lia|].
  rewrite <-(last_sequence_app after_ acc s), IH by (rewrite length_app; simpl; lia).
  rewrite length_app, <-!app_assoc. simpl.
  replace (Z.to_nat limit - (length acc + 1)) with n by lia.
  do 2 f_equal. apply bool_decide_ext. lia.
Qed.

Lemma sorted_app_le l s :
  StronglySorted earlier (l ++ [s]) →
  Forall (λ x, ¬ (s_sequence s < s_sequence x)%Z) (l ++ [s]).
Proof.
  intros Hs. apply Forall_app. split; [|constructor; [lia|constructor]]. apply Forall_forall. intros x Hx.
  assert (earlier x s); [|unfold earlier in *; lia].
  apply (StronglySorted_app_1_elem_of earlier l [s]); [done|done|]. by apply list_elem_of_singleton.
Qed.

(** In a queue in order, what is pending after a delivered prefix is the rest. *)
Lemma pending_rest cursor l1 l2 :
  StronglySorted earlier (l1 ++ l2) →
  Forall (λ s, (cursor < s_sequence s)%Z) (l1 ++ l2) →
  filter (λ s, (last_sequence cursor l1 < s_sequence s)%Z) (l1 ++ l2) = l2.
Proof.
  intros Hs Hall. rewrite filter_app. destruct l1 as [|s l1 _] using rev_ind.
  { simpl. by apply filter_all. }
  rewrite last_sequence_app. rewrite filter_none; [|by eapply sorted_app_le, StronglySorted_app_1_l].
  apply filter_all, Forall_forall. intros x Hx.
  apply (StronglySorted_app_1_elem_of earlier (l1 ++ [s]) l2); [done| |done]. apply elem_of_app. right. by apply list_elem_of_singleton.
Qed.

Lemma filter_filter_le (a b : Z) (l : list storedSignal) :
  (a ≤ b)%Z → filter (λ s, (b < s_sequence s)%Z) (filter (λ s, (a < s_sequence s)%Z) l)
    = filter (λ s, (b < s_sequence s)%Z) l.
Proof. intros. apply list_filter_filter_l. intros. lia. Qed.

(** The table after a history of requests, from the empty one [New] makes. *)
Definition serve_all (c : Config) (sha256 : bytes → bytes) up us ul (history : list (Z * HTTPRequest)) : routes :=
  foldl (λ table step, (ServeHTTP c sha256 up us ul table step.1 step.2).2) ∅ history.

(** A handler that got past its checks: the route it works on. *)
Lemma locked_existing c table id digest now_ v table' :
  configured c → table_ok c table →
  routeLocked c (pruneLocked now_ table) id digest now_ false = (inl v, table') →
  ∃ v0, table !! id = Some v0 ∧ authDigest v0 = digest ∧ routed c table' id digest now_ v ∧
    same_content v (prune_route now_ v0).
Proof.
  intros Hc Ht Hr. apply route_locked_ok in Hr as (_ & _ & Hf); [|done|by apply prune_table_ok|apply pruned_live].
  destruct Hf as [Hr Hm]. destruct (pruneLocked now_ table !! id) as [v1|] eqn:E; [|naive_solver].
  apply prune_lookup in E as (v0 & Hv0 & -> & _). exists v0. destruct Hm. auto.
Qed.

Lemma queue_same v v0 role : same_content v v0 → queue_of v role = queue_of v0 role.
Proof. intros (_ & E & _). unfold queue_of. by rewrite E. Qed.

Lemma queue_set v n role kept role' :
  queue_of (set_queue v n role kept) role' = if decide (role = role') then kept else queue_of v role'.
Proof.
  unfold queue_of, set_queue. simpl. case_decide; subst; [by rewrite lookup_insert_eq|by rewrite lookup_insert_ne].
Qed.

(** Acknowledged signals do not change the page. *)
Lemma collect_acknowledged queue after_ limit acc next :
  collect_signals (filter (λ s, (after_ < s_sequence s)%Z) queue) after_ limit acc next =
  collect_signals queue after_ limit acc next.
Proof.
  revert acc next. induction queue as [|s rest IH]; intros acc next; [done|]. rewrite filter_cons. simpl.
  destruct (s_sequence s <=? after_)%Z eqn:E; reflect_bools.
  - by rewrite decide_False by lia.
  - rewrite decide_True by done. simpl. rewrite (proj2 (Z.leb_gt _ _)) by done. by rewrite IH.
Qed.

(** The page a poll returns, from the queue the caller's cursor selects. *)
Lemma poll_page v role cursor limit delivered next more :
  StronglySorted earlier (queue_of v role) → (0 ≤ limit)%Z →
  collect_signals (queue_of v role) cursor limit [] cursor = (delivered, next, more) →
  pending v role cursor = delivered ++ pending v role next ∧ (Z.of_nat (length delivered) ≤ limit)%Z ∧
  (more = true ↔ pending v role next ≠ []) ∧ (more = true → Z.of_nat (length delivered) = limit).
Proof.
  intros Hs Hl Hrun. set (P := pending v role cursor).
  pose proof (collect_signals_spec (queue_of v role) cursor limit []) as Hspec. simpl in Hspec.
  unfold last_sequence at 1 in Hspec. simpl in Hspec. rewrite Hrun, Nat.sub_0_r in Hspec.
  injection (Hspec Hl) as -> -> ->. fold (pending v role cursor). fold P.
  assert (pending v role (last_sequence cursor (take (Z.to_nat limit) P)) = drop (Z.to_nat limit) P) as ->.
  { assert (StronglySorted earlier P) as HsP by (by apply StronglySorted_filter).
    assert (Forall (λ s, (cursor < s_sequence s)%Z) P) as HallP.
    { apply Forall_forall. by intros s [? _]%list_elem_of_filter. }
    rewrite <-(take_drop (Z.to_nat limit) P) in HsP, HallP.
    pose proof (pending_rest _ _ _ HsP HallP) as Hrest. rewrite take_drop in Hrest. rewrite <-Hrest.
    symmetry. apply filter_filter_le.
    unfold last_sequence. destruct (last _) as [s|] eqn:E; [|lia].
    apply last_Some in E as [l' E]. rewrite E in HallP. rewrite !Forall_app, Forall_singleton in HallP. lia. }
  rewrite take_drop, length_take. split_and!; [done|lia| |].
  - rewrite bool_decide_eq_true. fold P. pose proof (length_drop P (Z.to_nat limit)) as Hd.
    destruct (drop _ P); simpl in Hd; split; intros; [lia|done|done|lia].
  - rewrite bool_decide_eq_true. fold P. lia.
Qed.

(** The route a successful poll worked on, the page and what it left. *)
Lemma poll_success c table table' id digest now_ r role delivered next more :
  configured c → table_ok c table → (0 ≤ poll_limit r)%Z → roleFromProto (poll_recipient r) = Some role →
  pollSignals c table id digest now_ (Some r) = (PollResponse delivered next more, table') →
  let limit := if (poll_limit r =? 0)%Z then defaultPollLimit else poll_limit r in
  ∃ v0 v v', table !! id = Some v0 ∧ authDigest v0 = digest ∧ same_content v (prune_route now_ v0) ∧
    StronglySorted earlier (queue_of v role) ∧ (0 ≤ limit ≤ maximumPollLimit)%Z ∧
    collect_signals (queue_of v role) (poll_after r) limit [] (poll_after r) = (delivered, next, more) ∧
    table' !! id = Some v' ∧
    v' = if (0 <? poll_after r)%Z then set_queue v (nextSequence v) role (pending v role (poll_after r)) else v.
Proof.
  intros Hc Ht Hl0 Hrole Hrun limit. unfold pollSignals in Hrun. destruct (validateProtocol _); [discriminate|].
  rewrite Hrole in Hrun. fold limit in Hrun. destruct (maximumPollLimit <? limit)%Z eqn:El; [discriminate|].
  destruct (routeLocked _ _ _ _ _ _) as [[v|e] table1] eqn:Er; [|discriminate].
  apply locked_existing in Er as (v0 & Hv0 & Hd & Hrt & Hsame); [|done..].
  destruct (negb _); [discriminate|]. reflect_bools.
  assert (0 ≤ limit)%Z by (unfold limit, defaultPollLimit; destruct (_ =? 0)%Z; lia).
  destruct (queue_of_ok c Hc v role (rt_ok _ _ _ _ _ _ Hrt)) as (_ & Hs & _).
  exists v0, v.
  destruct (collect_signals (queue_of v role) (poll_after r) limit [] (poll_after r)) as [[d n] m] eqn:Ecol.
  destruct (0 <? poll_after r)%Z eqn:Ea.
  - rewrite collect_acknowledged, Ecol in Hrun. injection Hrun as -> -> -> <-.
    eexists. split_and!; auto. apply lookup_insert_eq.
  - rewrite Ecol in Hrun. injection Hrun as -> -> -> <-. exists v. split_and!; auto. apply Hrt.
Qed.

(** Polling is exact.  A successful poll with cursor [poll_after] returns, in
    order, a prefix of the signals pending for the recipient after that cursor,
    at most the requested number; polling on from the returned cursor yields exactly
    the rest, so no signal is skipped or repeated; [HasMore] is set if and only if
    the rest is not empty, and then the page is full; a positive cursor removes
    from the queue exactly the signals it acknowledges, and the queue of the other
    role is as pruning left it. *)
Theorem poll_exact (c : Config) (table table' : routes) (id : string) (digest : bytes) (now_ : Z)
    (r : PollSignalsRequest) (role : endpointRole) (delivered : list storedSignal) (next : Z) (more : bool) :
  configured c → table_ok c table → (0 ≤ poll_limit r)%Z → roleFromProto (poll_recipient r) = Some role →
  pollSignals c table id digest now_ (Some r) = (PollResponse delivered next more, table') →
  let limit := if (poll_limit r =? 0)%Z then defaultPollLimit else poll_limit r in
  ∃ v0 v', table !! id = Some v0 ∧ authDigest v0 = digest ∧ table' !! id = Some v' ∧
    let v := prune_route now_ v0 in
    pending v role (poll_after r) = delivered ++ pending v role next ∧
    (Z.of_nat (length delivered) ≤ limit ≤ maximumPollLimit)%Z ∧
    (more = true ↔ pending v role next ≠ []) ∧ (more = true → Z.of_nat (length delivered) = limit) ∧
    queue_of v' role = (if (0 <? poll_after r)%Z then pending v role (poll_after r) else queue_of v role) ∧
    queue_of v' (oppositeRole role) = queue_of v (oppositeRole role).
Proof.
  intros Hc Ht Hl0 Hrole Hrun limit.
  apply poll_success with (role := role) in Hrun
    as (v0 & v & v' & Hv0 & Hd & Hsame & Hs & Hl & Hcol & Hv' & E); [|done..].
  apply poll_page in Hcol as (P1 & P2 & P3 & P4); [|done|apply Hl].
  exists v0, v'. cbv zeta. unfold pending. rewrite <-!(queue_same v _ _ Hsame).
  split_and!; auto; [apply Hl|..]; rewrite E; destruct (0 <? poll_after r)%Z; rewrite ?queue_set; try done;
    [by rewrite decide_True|by rewrite decide_False by (by destruct role)].
Qed.

(** The route a successful send worked on, and the signal it queued. *)
Lemma send_success c table table' id digest now_ r sequence expires :
  configured c → table_ok c table →
  sendSignal c table id digest now_ (Some r) = (SignalResponse sequence expires, table') →
  ∃ v0 v sender s, table !! id = Some v0 ∧ same_content v (prune_route now_ v0) ∧
    roleFromProto (send_sender r) = Some sender ∧ roleFromProto (send_recipient r) = Some (oppositeRole sender) ∧
    present v sender now_ = true ∧ sequence = (nextSequence v + 1)%Z ∧ expires = unix_nano (s_expiresAt s) ∧
    s = MkSignal sequence sender (send_payload r) now_ (minTime (now_ + SignalLifetime c) (expiresAt v0)) ∧
    table' !! id = Some (set_queue v sequence (oppositeRole sender) (queue_of v (oppositeRole sender) ++ [s])).
Proof.
  intros Hc Ht Hrun. unfold sendSignal in Hrun. destruct (validateProtocol _); [discriminate|].
  destruct (roleFromProto (send_sender r)) as [sender|] eqn:Es; [|discriminate].
  destruct (roleFromProto (send_recipient r)) as [recipient|] eqn:Erec; [|discriminate].
  destruct (_ || _) eqn:Ev; [discriminate|]. reflect_bools. subst recipient.
  destruct (routeLocked _ _ _ _ _ _) as [[v|e] t] eqn:Er; [|discriminate].
  apply locked_existing in Er as (v0 & Hv0 & Hd & Hrt & Hsame); [|done..].
  destruct (present v sender now_) eqn:Ep; [|discriminate]. destruct (_ <=? _)%Z; [discriminate|].
  pose proof (sequence_small c Hc v (rt_ok _ _ _ _ _ _ Hrt)).
  assert (wrap_uint64 (nextSequence v + 1) = nextSequence v + 1)%Z as E by (apply Z.mod_small; lia).
  rewrite E in Hrun. injection Hrun as <- <- <-. pose proof Hsame as (_ & _ & _ & He). simpl in He.
  exists v0, v, sender. rewrite He. eexists. split_and!; try reflexivity; auto. apply lookup_insert_eq.
Qed.

Lemma pruned_queue_elem now_ v role s :
  s ∈ queue_of v role → (now_ < s_expiresAt s)%Z → s ∈ queue_of (prune_route now_ v) role.
Proof.
  unfold queue_of. simpl. rewrite lookup_omap. destruct (signals v !! role) as [q|]; simpl; [|done].
  intros Hin Hl. assert (s ∈ filter (λ s, after (s_expiresAt s) now_ = true) q) as Hin'.
  { apply list_elem_of_filter. split; [by apply Z.ltb_lt|done]. }
  unfold prune_queue. destruct (filter _ q); [by apply elem_of_nil in Hin'|done].
Qed.

(** A signal that was accepted is delivered.  When [sendSignal] answers with a
    sequence number, the sender had a live presence, and any later poll by the
    recipient with a cursor below that number, before the signal expires, returns
    the signal with its payload and sender unless the page was already filled with
    earlier signals, in which case [HasMore] says so and it is still pending after
    the returned cursor. *)
Theorem signal_delivered (c : Config) (table table1 table2 : routes) (id : string) (digest digest' : bytes)
    (now_ later : Z) (r : SendSignalRequest) (q : PollSignalsRequest) (sequence expires : Z)
    (delivered : list storedSignal) (next : Z) (more : bool) :
  configured c → table_ok c table → (0 ≤ poll_limit q)%Z → poll_recipient q = send_recipient r →
  sendSignal c table id digest now_ (Some r) = (SignalResponse sequence expires, table1) →
  pollSignals c table1 id digest' later (Some q) = (PollResponse delivered next more, table2) →
  (poll_after q < sequence)%Z → (later < now_ + SignalLifetime c)%Z →
  (∀ v0, table !! id = Some v0 → later < expiresAt v0)%Z →
  ∃ s, s_sequence s = sequence ∧ s_payload s = send_payload r ∧ roleFromProto (send_sender r) = Some (s_sender s) ∧
    (s ∈ delivered ∨ more = true ∧ (next < sequence)%Z).
Proof.
  intros Hc Ht Hl Hto Hsend Hpoll Hcur Hlive Hroute.
  pose proof (send_ok c Hc table id digest now_ (Some r) Ht) as Ht1. rewrite Hsend in Ht1.
  apply send_success in Hsend as (v0 & v & sender & s & Hv0 & Hsame & Hs & Hr & _ & Hseq & He & Es & Hv1); [|done..].
  rewrite <-Hto in Hr. apply poll_success with (role := oppositeRole sender) in Hpoll
    as (w0 & w & w' & Hw0 & _ & Hsame' & Hsort & Hlim & Hcol & _); [|done..].
  rewrite Hv1 in Hw0. injection Hw0 as <-. apply poll_page in Hcol as (P1 & _ & P3 & _); [|done|apply Hlim].
  assert (s ∈ pending w (oppositeRole sender) (poll_after q)) as Hin.
  { apply list_elem_of_filter. split; [by rewrite Es|]. rewrite (queue_same _ _ _ Hsame').
    apply pruned_queue_elem; [|specialize (Hroute v0 Hv0); rewrite Es; simpl; unfold minTime; destruct (before _ _); lia].
    rewrite queue_set, decide_True by done. apply elem_of_app. right. by apply list_elem_of_singleton. }
  exists s. rewrite Es. split_and!; try done. rewrite <-Es. rewrite P1 in Hin.
  apply elem_of_app in Hin as [Hin|Hin]; [by left|right]. split; [apply P3; by intros E; rewrite E in Hin; apply elem_of_nil in Hin|].
  apply list_elem_of_filter in Hin as [Hlt _]. by rewrite Es in Hlt.
Qed.

(** ** Properties of every request *)

Section Requests.
Context (c : Config) (sha256 : bytes → bytes)
  (up : bytes → option PublishPresenceRequest) (us : bytes → option SendSignalRequest)
  (ul : bytes → option PollSignalsRequest).

(** A property of all handlers holds of [ServeHTTP]; [P] relates the table, the
    route a request names, the digest of its token, the response and the new table. *)
Lemma serve_cases (P : routes → option (string * option bytes) → Response → routes → Prop) table now_ request :
  P table None HealthResponse table → P table None MethodNotAllowed table →
  (∀ id e, P table id (ErrorResponse e) table) →
  (∀ id digest r, let o := publishPresence c table id digest now_ r in P table (Some (id, Some digest)) o.1 o.2) →
  (∀ id digest r, let o := sendSignal c table id digest now_ r in P table (Some (id, Some digest)) o.1 o.2) →
  (∀ id digest r, let o := pollSignals c table id digest now_ r in P table (Some (id, Some digest)) o.1 o.2) →
  let named := match parsePath (URLPath request) with
    | Some (id, _) => Some (id, sha256 <$> bearerToken (Authorization request)) | None => None end in
  let o := ServeHTTP c sha256 up us ul table now_ request in P table named o.1 o.2.
Proof.
  intros H1 H2 H3 H4 H5 H6. cbv zeta. unfold ServeHTTP.
  destruct (bool_decide (URLPath request = _)) eqn:Eh.
  { reflect_bools. rewrite Eh. destruct (bool_decide (Method request = _)); simpl; auto. }
  destruct (negb (bool_decide (Method request = _))); [simpl; auto|].
  destruct (parsePath (URLPath request)) as [[id op]|]; [|simpl; auto].
  destruct (negb (validOpaqueValue id)); [simpl; auto|].
  destruct (bearerToken (Authorization request)) as [token|]; [|simpl; auto].
  destruct (negb (bool_decide (MediaType request = _))); [simpl; auto|].
  destruct (Body request) as [body|]; [|simpl; auto].
  destruct (_ <? _)%Z; [simpl; auto|].
  destruct (bool_decide (op = "presence")); [apply H4|]. destruct (bool_decide (op = "signals")); [apply H5|].
  destruct (bool_decide (op = "poll")); [apply H6|simpl; auto].
Qed.

Lemma serve_table_ok table now_ request :
  configured c → table_ok c table → table_ok c (ServeHTTP c sha256 up us ul table now_ request).2.
Proof.
  intros Hc Ht. apply (serve_cases (λ _ _ _ table', table_ok c table')); try done; intros.
  - by apply publish_ok.
  - by apply send_ok.
  - by apply poll_ok.
Qed.

Lemma serve_all_ok history : configured c → table_ok c (serve_all c sha256 up us ul history).
Proof.
  intros Hc. unfold serve_all. assert (table_ok c ∅) as H.
  { split; [|apply map_Forall_empty]. rewrite map_size_empty. pose proof (configured_bounds c Hc). lia. }
  revert H. generalize (∅ : routes). induction history as [|[t r] history IH]; intros table H; [done|].
  simpl. by apply IH, serve_table_ok.
Qed.

(** C30 The service's memory is bounded whatever anonymous clients send: from the
    empty table, after any history of HTTP requests at any times (the clock may
    even go back), there are at most [MaxRoutes] routes; each holds at most one
    presence per role and, per recipient, at most [MaxSignalsPerRoute] signals in
    strictly increasing sequence order, every payload is within the limit and came
    from the opposite role; nothing outlives its route; and no route ever hands out
    more than [15 * MaxRequestsPerRoute] sequence numbers, so the [uint64] counter
    never wraps. *)
Theorem rendezvous_bounded (history : list (Z * HTTPRequest)) :
  configured c → table_ok c (serve_all c sha256 up us ul history) ∧
  map_Forall (λ _ v, (0 ≤ nextSequence v ≤ 15 * MaxRequestsPerRoute c)%Z) (serve_all c sha256 up us ul history).
Proof.
  intros Hc. pose proof (serve_all_ok history Hc) as Ht. split; [done|]. intros id v Hv.
  pose proof (sequence_bound c Hc v (proj2 Ht id v Hv)). lia.
Qed.

(** What an operation does to a route the caller has no token for: pruning at most. *)
Lemma locked_foreign table id digest now_ create i v :
  pruneLocked now_ table !! i = Some v → authDigest v ≠ digest →
  (routeLocked c (pruneLocked now_ table) id digest now_ create).2 !! i = Some v ∧
  (i = id → (routeLocked c (pruneLocked now_ table) id digest now_ create).1 = inr unauthenticated) ∧
  (∀ v', i ≠ id → (<[id := v']> (routeLocked c (pruneLocked now_ table) id digest now_ create).2) !! i = Some v).
Proof.
  intros Hv Hd. unfold routeLocked. destruct (decide (i = id)) as [->|Hi].
  - rewrite Hv, bool_decide_false by done. simpl. by split_and!.
  - split_and!; [|done|intros v' _; rewrite lookup_insert_ne by done].
    all: destruct (match pruneLocked now_ table !! id with Some _ => _ | None => _ end) as [w|e]; [|done].
    all: destruct (admit_request c now_ w) as [w' []]; simpl; by rewrite lookup_insert_ne.
Qed.

(** How one handler treats a live route [i] its caller has no token for. *)
Definition leaves_foreign (now_ : Z) (i : string) (v : route) (table : routes)
    (named : option (string * option bytes)) (resp : Response) (table' : routes) : Prop :=
  table !! i = Some v → (now_ < expiresAt v)%Z → (∀ id d, named = Some (id, Some d) → authDigest v ≠ d) →
  (table' !! i = Some v ∨ table' !! i = Some (prune_route now_ v)) ∧
  (∀ d, named = Some (i, d) → ∃ e, resp = ErrorResponse e).

Lemma prune_keeps now_ table i v :
  table !! i = Some v → (now_ < expiresAt v)%Z → pruneLocked now_ table !! i = Some (prune_route now_ v).
Proof.
  intros Hv Hl. unfold pruneLocked. rewrite lookup_fmap, (map_lookup_filter_Some_2 _ _ _ v); [done|done|].
  by apply Z.ltb_lt.
Qed.

(** A handler that only changes the route [routeLocked] gave it, if it gave one. *)
Lemma handler_foreign table id digest now_ create i v (k : (route + serviceError) * routes → Response * routes) :
  (∀ e t, ∃ e', k (inr e, t) = (ErrorResponse e', t)) →
  (∀ w t, (k (inl w, t)).2 = t ∨ ∃ w', (k (inl w, t)).2 = <[id := w']> t) →
  let o := k (routeLocked c (pruneLocked now_ table) id digest now_ create) in
  leaves_foreign now_ i v table (Some (id, Some digest)) o.1 o.2.
Proof.
  intros Herr Hok o Hv Hlive Hd. specialize (Hd _ _ eq_refl).
  destruct (locked_foreign table id digest now_ create i (prune_route now_ v)) as (L1 & L2 & L3);
    [by apply prune_keeps|done|].
  subst o. destruct (routeLocked _ _ _ _ _ _) as [[w|e] t]; simpl in *.
  - assert (i ≠ id) as Hi by (intros ->; by specialize (L2 eq_refl)).
    split; [|intros d [= ->]; done]. right. destruct (Hok w t) as [->|[w' ->]]; auto.
  - destruct (Herr e t) as [e' ->]. split; [by right|]. intros _ _. by exists e'.
Qed.

Lemma unlocked_foreign now_ i v table named e : leaves_foreign now_ i v table named (ErrorResponse e) table.
Proof. intros Hv _ _. split; [by left|]. intros _ _. by exists e. Qed.

Lemma publish_foreign now_ i v table id digest r :
  let o := publishPresence c table id digest now_ r in
  leaves_foreign now_ i v table (Some (id, Some digest)) o.1 o.2.
Proof.
  unfold publishPresence. destruct r as [r|]; [|apply unlocked_foreign].
  destruct (validateProtocol _); [apply unlocked_foreign|]. destruct (roleFromProto _); [|apply unlocked_foreign].
  destruct (_ || _); [apply unlocked_foreign|].
  apply (handler_foreign _ _ _ _ _ _ _ (λ '(found, t), match found with inl w => _ | inr e => _ end)).
  - intros e' t. by exists e'.
  - intros w t. destruct (match presences w !! _ with Some _ => _ | None => _ end); simpl; eauto.
Qed.

Lemma send_foreign now_ i v table id digest r :
  let o := sendSignal c table id digest now_ r in
  leaves_foreign now_ i v table (Some (id, Some digest)) o.1 o.2.
Proof.
  unfold sendSignal. destruct r as [r|]; [|apply unlocked_foreign].
  destruct (validateProtocol _); [apply unlocked_foreign|].
  destruct (roleFromProto (send_sender r)); [|apply unlocked_foreign].
  destruct (roleFromProto (send_recipient r)); [|apply unlocked_foreign].
  destruct (_ || _); [apply unlocked_foreign|].
  apply (handler_foreign _ _ _ _ _ _ _ (λ '(found, t), match found with inl w => _ | inr e => _ end)).
  - intros e' t. by exists e'.
  - intros w t. destruct (negb _); [by left|]. destruct (_ <=? _)%Z; simpl; eauto.
Qed.

Lemma poll_foreign now_ i v table id digest r :
  let o := pollSignals c table id digest now_ r in
  leaves_foreign now_ i v table (Some (id, Some digest)) o.1 o.2.
Proof.
  unfold pollSignals. destruct r as [r|]; [|apply unlocked_foreign].
  destruct (validateProtocol _); [apply unlocked_foreign|]. destruct (roleFromProto _); [|apply unlocked_foreign].
  destruct (_ <? _)%Z; [apply unlocked_foreign|].
  apply (handler_foreign _ _ _ _ _ _ _ (λ '(found, t), match found with inl w => _ | inr e => _ end)).
  - intros e' t. by exists e'.
  - intros w t. destruct (negb _); [by left|].
    destruct (0 <? _)%Z; destruct (collect_signals _ _ _ _ _) as [[? ?] ?]; simpl; eauto.
Qed.

(** A route is private to the holders of its token.  Whatever request arrives
    without a bearer token whose digest is the route's, a live route keeps its
    digest, counters, presences and signals: it is unchanged or only pruned of what
    has expired; and a request that names the route is answered with an error, so
    it learns neither presence nor signals. *)
Theorem foreign_route_untouched (table : routes) (now_ : Z) (request : HTTPRequest) (i : string) (v : route) :
  table !! i = Some v → (now_ < expiresAt v)%Z →
  (∀ token, bearerToken (Authorization request) = Some token → authDigest v ≠ sha256 token) →
  let o := ServeHTTP c sha256 up us ul table now_ request in
  (o.2 !! i = Some v ∨ o.2 !! i = Some (prune_route now_ v)) ∧
  (∀ operation, parsePath (URLPath request) = Some (i, operation) → ∃ e, o.1 = ErrorResponse e).
Proof.
  intros Hv Hl Hd o.
  assert (leaves_foreign now_ i v table (match parsePath (URLPath request) with
    | Some (id, _) => Some (id, sha256 <$> bearerToken (Authorization request)) | None => None end) o.1 o.2) as H.
  { apply (serve_cases (leaves_foreign now_ i v)); intros; try apply unlocked_foreign;
      [by intros ? ? ?; split; [left|]..|apply publish_foreign|apply send_foreign|apply poll_foreign]. }
  destruct H as [H1 H2]; [done|done| |].
  - destruct (parsePath _) as [[id op]|]; [|done]. intros id' d [= <- E].
    destruct (bearerToken _); [|done]. injection E as <-. by apply Hd.
  - split; [done|]. intros op E. rewrite E in H2. by eapply H2.
Qed.

End Requests.

(** ** What a live route keeps *)

Definition response_cursor (resp : Response) : option Z :=
  match resp with PollResponse _ next _ => Some next | _ => None end.

(** [v'] continues [v]: same owner and lifetime, sequence numbers go up, a live
    presence is only replaced by a newer generation (or by itself), and a live
    signal only goes when a poll has been answered with a cursor past it. *)
Record continues (now_ : Z) (resp : Response) (v v' : route) : Prop := {
  cont_digest : authDigest v' = authDigest v;
  cont_expires : expiresAt v' = expiresAt v;
  cont_sequence : (nextSequence v ≤ nextSequence v')%Z;
  cont_presence : ∀ role p, presences v !! role = Some p → (now_ < p_expiresAt p)%Z →
    ∃ p', presences v' !! role = Some p' ∧ (p_generation p ≤ p_generation p')%Z ∧
      (p_generation p = p_generation p' → p_payload p = p_payload p');
  cont_signals : ∀ role s, s ∈ queue_of v role → (now_ < s_expiresAt s)%Z →
    s ∈ queue_of v' role ∨ ∃ next, response_cursor resp = Some next ∧ (s_sequence s ≤ next)%Z
}.

Section Continuity.
Context (c : Config) (Hc : configured c).

Lemma continues_refl now_ resp v : continues now_ resp v v.
Proof. constructor; auto; [lia|]. intros role p Hp _. by exists p. Qed.

Lemma continues_pruned now_ resp v w :
  same_content w (prune_route now_ v) → authDigest w = authDigest v → continues now_ resp v w.
Proof.
  intros (Hp & Hs & Hn & He) Hd. constructor; auto; [rewrite Hn; simpl; lia| |].
  - intros role p Hr Hl. exists p. split; [|done]. rewrite Hp. simpl.
    apply map_lookup_filter_Some. split; [done|]. by apply Z.ltb_lt.
  - intros role s Hin Hl. left. rewrite (queue_same w (prune_route now_ v)) by done. by apply pruned_queue_elem.
Qed.

Lemma locked_continues table id digest now_ create found t i v resp :
  table_ok c table → table !! i = Some v → (now_ < expiresAt v)%Z →
  routeLocked c (pruneLocked now_ table) id digest now_ create = (found, t) →
  ∃ w, t !! i = Some w ∧ continues now_ resp v w ∧ (∀ w', found = inl w' → i = id → w' = w).
Proof.
  intros Ht Hv Hl Hrun. pose proof (prune_keeps now_ table i v Hv Hl) as Hpr.
  apply route_locked_ok in Hrun as (_ & Hne & Hf); [|done|by apply prune_table_ok|apply pruned_live].
  assert (continues now_ resp v (prune_route now_ v)) as Hpc by (by apply continues_pruned).
  destruct (decide (i = id)) as [->|Hi]; [|exists (prune_route now_ v); rewrite Hne by done; naive_solver].
  destruct found as [w|e].
  - rewrite Hpr in Hf. destruct Hf as (Hrt & Hd & Hsame). exists w. split_and!; [apply Hrt| |naive_solver].
    apply continues_pruned; [done|]. rewrite (rt_digest _ _ _ _ _ _ Hrt). done.
  - exists (prune_route now_ v). rewrite Hf. naive_solver.
Qed.

Lemma continues_presence now_ resp v w role p :
  continues now_ resp v w →
  (∀ p0, presences w !! role = Some p0 → (p_generation p0 ≤ p_generation p)%Z ∧
    (p_generation p0 = p_generation p → p_payload p0 = p_payload p)) →
  continues now_ resp v (set_presence w role p).
Proof.
  intros [H1 H2 H3 H4 H5] Hnew. constructor; auto. intros role' p0 Hp0 Hl.
  destruct (H4 role' p0 Hp0 Hl) as (p1 & Hp1 & Hg & Hpay). simpl. destruct (decide (role = role')) as [->|Hr].
  - exists p. rewrite lookup_insert_eq. destruct (Hnew p1 Hp1) as [Hg' Hpay']. split_and!; [done|lia|].
    intros E. rewrite Hpay, Hpay' by lia. done.
  - exists p1. by rewrite lookup_insert_ne.
Qed.

(** A queue may grow, or lose what the response's cursor has passed. *)
Lemma continues_queue now_ resp v w n role kept :
  continues now_ resp v w → (nextSequence w ≤ n)%Z →
  (∀ s, s ∈ queue_of w role → s ∈ kept ∨ ∃ next, response_cursor resp = Some next ∧ (s_sequence s ≤ next)%Z) →
  continues now_ resp v (set_queue w n role kept).
Proof.
  intros [H1 H2 H3 H4 H5] Hn Hkept. constructor; auto; [simpl; lia|]. intros role' s Hs Hl.
  rewrite queue_set. destruct (H5 role' s Hs Hl) as [Hin|?]; [|by right].
  case_decide; subst; [by apply Hkept|by left].
Qed.

(** Lifts continuity of the route a handler works on to the whole table. *)
Lemma replace_continues now_ resp v w w' (t : routes) id i :
  t !! i = Some w → (i = id → continues now_ resp v w') → continues now_ resp v w →
  ∃ u, (<[id := w']> t) !! i = Some u ∧ continues now_ resp v u.
Proof.
  intros Hw Hw' Hc'. destruct (decide (i = id)) as [->|Hi].
  - exists w'. rewrite lookup_insert_eq. auto.
  - exists w. by rewrite lookup_insert_ne.
Qed.

(** What a request leaves of the route [i]. *)
Definition keeps_route (now_ : Z) (i : string) (v : route) (o : Response * routes) : Prop :=
  ∃ v', o.2 !! i = Some v' ∧ continues now_ o.1 v v'.

Lemma unchanged_keeps now_ i v resp (table : routes) :
  table !! i = Some v → keeps_route now_ i v (resp, table).
Proof. intros Hv. exists v. split; [done|]. apply continues_refl. Qed.

Lemma publish_continues table id digest now_ r i v :
  table_ok c table → table !! i = Some v → (now_ < expiresAt v)%Z →
  keeps_route now_ i v (publishPresence c table id digest now_ r).
Proof.
  intros Ht Hv Hl. unfold publishPresence. destruct r as [r|]; [|by apply unchanged_keeps].
  destruct (validateProtocol _); [by apply unchanged_keeps|].
  destruct (roleFromProto _) as [role|]; [|by apply unchanged_keeps].
  destruct (_ || _); [by apply unchanged_keeps|].
  destruct (routeLocked _ _ _ _ _ _) as [found t] eqn:Er.
  assert (∀ resp, ∃ w, t !! i = Some w ∧ continues now_ resp v w ∧ (∀ w', found = inl w' → i = id → w' = w))
    as Hw by (intros resp; by eapply locked_continues).
  destruct found as [w|e]; [|destruct (Hw (ErrorResponse e)) as (w & ? & ? & _); by exists w].
  destruct (match presences w !! role with Some _ => _ | None => _ end) eqn:Es;
    [destruct (Hw (ErrorResponse conflict)) as (w' & ? & ? & _); by exists w'|].
  match goal with |- keeps_route _ _ _ (?resp, _) => destruct (Hw resp) as (w' & Hw' & Hcont & Heq) end.
  eapply replace_continues; [done| |done]. intros Hi. rewrite <-(Heq w eq_refl Hi) in Hcont.
  apply continues_presence; [done|]. intros p0 Hp0. rewrite Hp0 in Es. simpl.
  apply orb_false_iff in Es as [Eg Ep]. reflect_bools. split; [done|]. intros E. rewrite <-E, Z.eqb_refl in Ep.
  simpl in Ep. by reflect_bools.
Qed.

Lemma send_continues table id digest now_ r i v :
  table_ok c table → table !! i = Some v → (now_ < expiresAt v)%Z →
  keeps_route now_ i v (sendSignal c table id digest now_ r).
Proof.
  intros Ht Hv Hl. unfold sendSignal. destruct r as [r|]; [|by apply unchanged_keeps].
  destruct (validateProtocol _); [by apply unchanged_keeps|].
  destruct (roleFromProto (send_sender r)) as [sender|]; [|by apply unchanged_keeps].
  destruct (roleFromProto (send_recipient r)) as [recipient|]; [|by apply unchanged_keeps].
  destruct (_ || _); [by apply unchanged_keeps|].
  destruct (routeLocked _ _ _ _ _ _) as [found t] eqn:Er.
  assert (∀ resp, ∃ w, t !! i = Some w ∧ continues now_ resp v w ∧ (∀ w', found = inl w' → i = id → w' = w))
    as Hw by (intros resp; by eapply locked_continues).
  pose proof (locked_ok c Hc _ _ _ _ _ _ _ Ht Er) as [_ Hrt].
  destruct found as [w|e]; [|destruct (Hw (ErrorResponse e)) as (w & ? & ? & _); by exists w].
  destruct (negb _); [destruct (Hw (ErrorResponse conflict)) as (w' & ? & ? & _); by exists w'|].
  destruct (_ <=? _)%Z; [destruct (Hw (ErrorResponse exhausted)) as (w' & ? & ? & _); by exists w'|].
  match goal with |- keeps_route _ _ _ (?resp, _) => destruct (Hw resp) as (w' & Hw' & Hcont & Heq) end.
  eapply replace_continues; [done| |done]. intros Hi. rewrite <-(Heq w eq_refl Hi) in Hcont.
  apply continues_queue; [done| |]; simpl.
  - pose proof (sequence_small c Hc w (rt_ok _ _ _ _ _ _ Hrt)). unfold wrap_uint64. rewrite Z.mod_small; lia.
  - intros s Hs. left. apply elem_of_app. by left.
Qed.

Lemma collect_cursor queue after_ limit acc next d n m :
  (after_ ≤ next)%Z → collect_signals queue after_ limit acc next = (d, n, m) → (after_ ≤ n)%Z.
Proof.
  revert acc next. induction queue as [|s rest IH]; intros acc next Hle; simpl; [by intros [= _ <- _]|].
  destruct (s_sequence s <=? after_)%Z eqn:E; [by apply IH|]. reflect_bools.
  destruct (_ =? _)%Z; [by intros [= _ <- _]|]. apply IH. lia.
Qed.

Lemma poll_continues table id digest now_ r i v :
  table_ok c table → table !! i = Some v → (now_ < expiresAt v)%Z →
  keeps_route now_ i v (pollSignals c table id digest now_ r).
Proof.
  intros Ht Hv Hl. unfold pollSignals. destruct r as [r|]; [|by apply unchanged_keeps].
  destruct (validateProtocol _); [by apply unchanged_keeps|].
  destruct (roleFromProto _) as [role|]; [|by apply unchanged_keeps].
  destruct (_ <? _)%Z; [by apply unchanged_keeps|].
  destruct (routeLocked _ _ _ _ _ _) as [found t] eqn:Er.
  assert (∀ resp, ∃ w, t !! i = Some w ∧ continues now_ resp v w ∧ (∀ w', found = inl w' → i = id → w' = w))
    as Hw by (intros resp; by eapply locked_continues).
  destruct found as [w|e]; [|destruct (Hw (ErrorResponse e)) as (w & ? & ? & _); by exists w].
  destruct (negb _); [destruct (Hw (ErrorResponse conflict)) as (w' & ? & ? & _); by exists w'|].
  destruct (0 <? _)%Z; destruct (collect_signals _ _ _ _ _) as [[d n] m] eqn:Ecol;
    destruct (Hw (PollResponse d n m)) as (w' & Hw' & Hcont & Heq); [|by exists w'].
  apply collect_cursor in Ecol; [|done].
  eapply replace_continues; [done| |done]. intros Hi. rewrite <-(Heq w eq_refl Hi) in Hcont.
  apply continues_queue; [done|done|]. intros s Hs. destruct (decide (poll_after r < s_sequence s)%Z) as [Hlt|Hge].
  - left. by apply list_elem_of_filter.
  - right. exists n. split; [done|]. lia.
Qed.

(** Routes evolve monotonically under every request: while a route is live, any
    HTTP request leaves it in the table with the same owner and expiry and a
    sequence counter that has not gone down; a live presence is kept, or replaced by
    one with a larger generation (the same generation only with the same payload);
    and a signal that has not expired disappears only when a poll was answered with
    a cursor at or past its sequence number. *)
Theorem route_monotone sha256 up us ul (table : routes) (now_ : Z) (request : HTTPRequest) (i : string) (v : route) :
  table_ok c table → table !! i = Some v → (now_ < expiresAt v)%Z →
  let o := ServeHTTP c sha256 up us ul table now_ request in
  ∃ v', o.2 !! i = Some v' ∧ continues now_ o.1 v v'.
Proof.
  intros Ht Hv Hl o.
  apply (serve_cases c sha256 up us ul (λ t _ resp t', keeps_route now_ i v (resp, t'))); intros;
    try by apply unchanged_keeps.
  - rewrite <-surjective_pairing. by apply publish_continues.
  - rewrite <-surjective_pairing. by apply send_continues.
  - rewrite <-surjective_pairing. by apply poll_continues.
Qed.

End Continuity.

(** ** A concrete exchange *)

Definition sample_given : Config := MkConfig 0 0 0 0 0 0 0.
Definition sample_config : Config := MkConfig defaultPresenceLifetime defaultSignalLifetime defaultRouteLifetime
  defaultMaxRoutes defaultMaxSignalsPerRoute defaultMaxPayloadBytes defaultMaxRequestsPerRoute.

Lemma sample_configured : configured sample_config.
Proof. exists sample_given. vm_compute. reflexivity. Qed.

(** The base64 text of 32 zero bytes, as route and as token. *)
Definition sample_opaque : string := "AAAAAAAAAAAAAAAAAAAAAAAAAAAAAAAAAAAAAAAAAAA".

Definition sample_request (operation token : string) : HTTPRequest :=
  MkHTTPRequest "POST" ("/v1/rendezvous/" +:+ sample_opaque +:+ "/" +:+ operation)
    ("Bearer " +:+ token) (Some ProtobufMediaType) (Some []).

Definition sample_publish (role : Z) (_ : bytes) : option PublishPresenceRequest :=
  Some (MkPublish 1 role 7 ["a"%char]).
Definition sample_send : SendSignalRequest := MkSend 1 1 2 ["b"%char].
Definition sample_poll : PollSignalsRequest := MkPoll 1 2 0 0.

Definition sample_serve (role : Z) := ServeHTTP sample_config (λ token, token) (sample_publish role)
  (λ _, Some sample_send) (λ _, Some sample_poll).

(** The orchestrator and then the worker publish their presence. *)
Definition sample_table1 : routes := (sample_serve 1 ∅ 100 (sample_request "presence" sample_opaque)).2.
Definition sample_table2 : routes := (sample_serve 2 sample_table1 200 (sample_request "presence" sample_opaque)).2.
Definition sample_digest : bytes := replicate 32 Ascii.zero.

Lemma sample_table2_ok : table_ok sample_config sample_table2.
Proof.
  apply serve_table_ok; [apply sample_configured|]. apply serve_table_ok; [apply sample_configured|].
  split; [done|apply map_Forall_empty].
Qed.

(** The route that is then in the table. *)
Lemma sample_route : ∃ v, sample_table2 !! sample_opaque = Some v ∧ (1000 < expiresAt v)%Z ∧
  authDigest v = sample_digest.
Proof.
  destruct (sample_table2 !! sample_opaque) as [v|] eqn:E; vm_compute in E; [|discriminate].
  injection E as <-. eexists. split; [reflexivity|]. by vm_compute.
Qed.

Definition sample_history : list (Z * HTTPRequest) := [(100%Z, sample_request "presence" sample_opaque)].

Definition sample_served : routes :=
  serve_all sample_config (λ token, token) (sample_publish 1) (λ _, None) (λ _, None) sample_history.

Lemma rendezvous_bounded_witness : size sample_served = 1 ∧ table_ok sample_config sample_served.
Proof.
  split; [vm_compute; reflexivity|].
  exact (proj1 (rendezvous_bounded sample_config (λ token, token) (sample_publish 1) (λ _, None) (λ _, None)
    sample_history sample_configured)).
Defined.

Lemma foreign_route_untouched_witness :
  ∃ e, (sample_serve 1 sample_table2 300
    (sample_request "signals" "BAAAAAAAAAAAAAAAAAAAAAAAAAAAAAAAAAAAAAAAAAA")).1 = ErrorResponse e.
Proof.
  destruct sample_route as (v & Hv & Hl & Hd).
  assert (300 < expiresAt v)%Z as Hl' by lia.
  apply (proj2 (foreign_route_untouched sample_config (λ token, token) (sample_publish 1) (λ _, Some sample_send)
    (λ _, Some sample_poll) sample_table2 300
    (sample_request "signals" "BAAAAAAAAAAAAAAAAAAAAAAAAAAAAAAAAAAAAAAAAAA") sample_opaque v Hv Hl'
    ltac:(intros token E; rewrite Hd; vm_compute in E; injection E as <-; discriminate)) "signals").
  vm_compute. reflexivity.
Defined.

Lemma route_monotone_witness :
  ∃ v v', sample_table2 !! sample_opaque = Some v ∧
    (sample_serve 1 sample_table2 300 (sample_request "signals" sample_opaque)).2 !! sample_opaque = Some v' ∧
    (nextSequence v ≤ nextSequence v')%Z.
Proof.
  destruct sample_route as (v & Hv & Hl & Hd). exists v.
  destruct (route_monotone sample_config sample_configured (λ token, token) (sample_publish 1)
    (λ _, Some sample_send) (λ _, Some sample_poll) sample_table2 300
    (sample_request "signals" sample_opaque) sample_opaque v sample_table2_ok Hv ltac:(lia)) as (v' & Hv' & Hcont).
  exists v'. split; [done|]. split; [done|]. by apply Hcont.
Defined.

(** The orchestrator signals the worker, which polls. *)
Definition sample_sent := sendSignal sample_config sample_table2 sample_opaque sample_digest 300 (Some sample_send).
Definition sample_polled := pollSignals sample_config sample_sent.2 sample_opaque sample_digest 400 (Some sample_poll).

Lemma sample_sent_response : sample_sent = (SignalResponse 1 120000000300, sample_sent.2).
Proof.
  rewrite (surjective_pairing sample_sent) at 1. apply (f_equal (λ r, (r, sample_sent.2))).
  vm_compute. reflexivity.
Qed.

Definition sample_signal : storedSignal := MkSignal 1 roleOrchestrator ["b"%char] 300 120000000300.

Lemma sample_polled_response : sample_polled = (PollResponse [sample_signal] 1 false, sample_polled.2).
Proof.
  rewrite (surjective_pairing sample_polled) at 1. apply (f_equal (λ r, (r, sample_polled.2))).
  vm_compute. reflexivity.
Qed.

Lemma sample_sent_ok : table_ok sample_config sample_sent.2.
Proof. apply send_ok; [apply sample_configured|apply sample_table2_ok]. Qed.

Lemma poll_exact_witness :
  ∃ v0, sample_sent.2 !! sample_opaque = Some v0 ∧
    pending (prune_route 400 v0) roleWorker 0 = [sample_signal] ++ pending (prune_route 400 v0) roleWorker 1.
Proof.
  destruct (poll_exact sample_config sample_sent.2 sample_polled.2 sample_opaque sample_digest 400 sample_poll
    roleWorker [sample_signal] 1 false sample_configured sample_sent_ok ltac:(discriminate) eq_refl
    sample_polled_response) as (v0 & v' & H1 & _ & H2 & H3 & _).
  exists v0. split; [exact H1|exact H3].
Defined.

Lemma signal_delivered_witness : ∃ s, s_payload s = ["b"%char] ∧ s ∈ [sample_signal].
Proof.
  destruct sample_route as (v & Hv & Hl & _).
  destruct (signal_delivered sample_config sample_table2 sample_sent.2 sample_polled.2 sample_opaque sample_digest
    sample_digest 300 400 sample_send sample_poll 1 120000000300 [sample_signal] 1 false sample_configured
    sample_table2_ok ltac:(discriminate) eq_refl sample_sent_response sample_polled_response eq_refl eq_refl)
    as (s & _ & Hpay & _ & Hin).
  { intros v0 Hv0. rewrite Hv in Hv0. injection Hv0 as <-. lia. }
  exists s. split; [exact Hpay|]. destruct Hin as [Hin|[Hm _]]; [exact Hin|discriminate Hm].
Defined.
