(* ===== verification/Snapshot.v ===== *)
(** * Project snapshots (internal/snapshot: model.go, chunker.go, builder.go)

    Digests, manifests and their canonical encoding, content-defined chunking,
    and the building of one file.  SHA-256 and the chunk store are parameters;
    a reader is the list of results its [Read] calls give, and a file on disk is
    what [Open], [Stat] and [Read] report of it.  Texts of errors are left out. *)

From S2P Require Import Prelude GoText PortablePath.
From Stdlib Require Import Ascii.
Local Open Scope string_scope.
Local Open Scope nat_scope.
Local Open Scope list_scope.

Definition ManifestVersion : Z := 1.
Definition DigestBytes : nat := 32.
Definition DigestHexLength : nat := 64.
Definition MinimumChunkBytes : Z := 65536.
Definition AverageChunkBytes : Z := 262144.
Definition MaximumChunkBytes : Z := 524288.
Definition MaximumFiles : Z := 25000.
Definition MaximumChunks : Z := 250000.
Definition MaximumSnapshotBytes : Z := (100 * 2 ^ 30)%Z.
Definition MaximumManifestBytes : Z := 819200.

Record Chunk := MkChunk { Digest : string; Size : Z }.
Record File := MkFile { Path : string; Mode : Z; FileSize : Z; Chunks : list Chunk }.
Record Manifest := MkManifest { Version : Z; Files : list File; TotalBytes : Z }.

#[global] Instance Chunk_eq_dec : EqDecision Chunk.
Proof. solve_decision. Defined.
#[global] Instance File_eq_dec : EqDecision File.
Proof. solve_decision. Defined.
#[global] Instance Manifest_eq_dec : EqDecision Manifest.
Proof. solve_decision. Defined.

(** ** Digests *)

Definition Sum (sha256 : bytes → bytes) (contents : bytes) : string := str_of (hex_encode (sha256 contents)).

Section WithUnicode.
Context `{UnicodeCase}.

Definition ParseDigest (value : string) : result string :=
  if negb (bool_decide (String.length value = DigestHexLength)) || negb (bool_decide (to_lower value = value))
  then Err [SnapshotErrInvalidDigest]
  else match hex_decode (bytes_of value) with
  | Some decoded => if bool_decide (length decoded = DigestBytes) then Ok value else Err [SnapshotErrInvalidDigest]
  | None => Err [SnapshotErrInvalidDigest]
  end.

Definition Digest_Valid (digest : string) : bool :=
  match ParseDigest digest with Ok _ => true | Err _ => false end.

(** ** Manifest.Validate *)

Definition ValidatePath (value : string) : result unit :=
  match PortablePath.Validate value with Ok _ => Ok tt | Err _ => Err [SnapshotErrUnsafePath] end.

Abbreviation invalid := [SnapshotErrInvalidManifest].

(** The inner loop: the chunks of a file, with the running count and size. *)
Fixpoint validate_chunks (chunks : list Chunk) (chunkCount fileBytes : Z) : result (Z * Z) :=
  match chunks with
  | [] => Ok (chunkCount, fileBytes)
  | chunk :: rest =>
      let chunkCount := (chunkCount + 1)%Z in
      if (MaximumChunks <? chunkCount)%Z || negb (Digest_Valid (Digest chunk)) || (Size chunk =? 0)%Z
         || (MaximumChunkBytes <? Size chunk)%Z
      then Err invalid
      else validate_chunks rest chunkCount (wrap_int64 (fileBytes + Size chunk))
  end.

(** The loop over the parent directories of [parent]: is one of them a file?
    Each turn shortens a relative path, so its length is enough fuel. *)
Fixpoint has_parent (fuel : nat) (paths : gset string) (parent : string) : bool :=
  if bool_decide (parent = ".") then false
  else if bool_decide (parent ∈ paths) then true
  else match fuel with
  | 0 => false
  | S fuel => has_parent fuel paths (path_dir parent)
  end.

(** The variables of the loop over the files. *)
Record validation := MkValidation {
  v_total : Z; v_chunkCount : Z; v_previous : string; v_portablePaths : gset string
}.

Definition validate_file (file : File) (v : validation) : result validation :=
  _ ← wrap_err SnapshotErrInvalidManifest (ValidatePath (Path file));
  _ ← reject_if (negb (bool_decide (v_previous v = "")) && str_leb (Path file) (v_previous v)) invalid;
  let portable := Key (Path file) in
  _ ← reject_if (bool_decide (portable ∈ v_portablePaths v)) invalid;
  _ ← reject_if (has_parent (String.length portable) (v_portablePaths v) (path_dir portable)) invalid;
  _ ← reject_if (negb (Mode file =? 420)%Z && negb (Mode file =? 493)%Z || (FileSize file <? 0)%Z) invalid;
  counted ← validate_chunks (Chunks file) (v_chunkCount v) 0;
  _ ← reject_if (negb (counted.2 =? FileSize file)%Z
        || (FileSize file =? 0)%Z && negb (bool_decide (Chunks file = []))) invalid;
  let total := wrap_int64 (v_total v + FileSize file) in
  _ ← reject_if (MaximumSnapshotBytes <? total)%Z invalid;
  Ok (MkValidation total counted.1 (Path file) ({[portable]} ∪ v_portablePaths v)).

Fixpoint validate_files (files : list File) (v : validation) : result validation :=
  match files with
  | [] => Ok v
  | file :: rest => v ← validate_file file v; validate_files rest v
  end.

Definition Manifest_Validate (manifest : Manifest) : result unit :=
  _ ← reject_if (negb (Version manifest =? ManifestVersion)%Z
        || (MaximumFiles <? Z.of_nat (length (Files manifest)))%Z
        || (TotalBytes manifest <? 0)%Z || (MaximumSnapshotBytes <? TotalBytes manifest)%Z) invalid;
  v ← validate_files (Files manifest) (MkValidation 0 0 "" ∅);
  reject_if (negb (v_total v =? TotalBytes manifest)%Z) invalid.

(** ** Canonical encoding *)

(** Writing to a buffer does not fail.  The encoder runs on validated manifests,
    whose digests decode. *)
Definition write_chunk (chunk : Chunk) : bytes :=
  default [] (hex_decode (bytes_of (Digest chunk))) ++ big_endian 4 (Size chunk).

Definition write_file (file : File) : bytes :=
  big_endian 4 (Z.of_nat (String.length (Path file))) ++ bytes_of (Path file)
  ++ big_endian 4 (Mode file) ++ big_endian 8 (FileSize file)
  ++ big_endian 4 (Z.of_nat (length (Chunks file))) ++ concat (map write_chunk (Chunks file)).

Definition writeCanonical (manifest : Manifest) : bytes :=
  big_endian 4 (Version manifest) ++ big_endian 4 (Z.of_nat (length (Files manifest)))
  ++ concat (map write_file (Files manifest)) ++ big_endian 8 (TotalBytes manifest).

Definition CanonicalBytes (manifest : Manifest) : result bytes :=
  _ ← Manifest_Validate manifest;
  let buffer := writeCanonical manifest in
  _ ← reject_if (MaximumManifestBytes <? Z.of_nat (length buffer))%Z invalid;
  Ok buffer.

Definition Manifest_ID (sha256 : bytes → bytes) (manifest : Manifest) : result string :=
  canonical ← CanonicalBytes manifest; Ok (Sum sha256 canonical).

(** [Digests]: the referenced chunks without duplicates, sorted. *)
Definition Digests (manifest : Manifest) : list string :=
  merge_sort String.le (elements (list_to_set (C := gset string)
    (concat (map (λ file, map Digest (Chunks file)) (Files manifest))))).

End WithUnicode.

(** ** Content-defined chunking *)

Definition golden : Z := 0x9e3779b97f4a7c15.

(** One entry of the gear table: splitmix64 of the running value. *)
Definition gear_mix (value : Z) : Z :=
  let mixed := wrap_uint64 (Z.lxor value (Z.shiftr value 30) * 0xbf58476d1ce4e5b9) in
  let mixed := wrap_uint64 (Z.lxor mixed (Z.shiftr mixed 27) * 0x94d049bb133111eb) in
  Z.lxor mixed (Z.shiftr mixed 31).

Fixpoint gear_entries (n : nat) (value : Z) : list Z :=
  match n with
  | 0 => []
  | S n => let value := wrap_uint64 (value + golden) in gear_mix value :: gear_entries n value
  end.

Definition gearTable : list Z := gear_entries 256 golden.
Definition gear (c : ascii) : Z := default 0%Z (gearTable !! Z.to_nat (val c)).

Definition roll (rolling : Z) (c : ascii) : Z := wrap_uint64 (wrap_uint64 (Z.shiftl rolling 1) + gear c).

(** Whether the chunk read so far ends here. *)
Definition boundary (chunk : bytes) (rolling : Z) : bool :=
  negb ((Z.of_nat (length chunk) <? MinimumChunkBytes)%Z
        || negb (Z.land rolling (AverageChunkBytes - 1) =? 0)%Z
           && (Z.of_nat (length chunk) <? MaximumChunkBytes)%Z).

(** What one turn of the loop of [ChunkReader] gets: [ctx.Err()], then the bytes
    and the error of [Read]. *)
Record read := MkRead { read_ctx : option (list sentinel); read_data : bytes; read_err : option (list sentinel) }.

Section ChunkReader.
Context {St : Type} (consume : St → bytes → St * result unit).

(** The loop over the bytes of one read. *)
Fixpoint feed (data chunk : bytes) (rolling : Z) (st : St) : St * result (bytes * Z) :=
  match data with
  | [] => (st, Ok (chunk, rolling))
  | value :: rest =>
      let chunk := chunk ++ [value] in
      let rolling := roll rolling value in
      if negb (boundary chunk rolling) then feed rest chunk rolling st
      else let '(st, r) := consume st chunk in
        match r with Err e => (st, Err e) | Ok _ => feed rest [] 0 st end
  end.

(** [None] when the reader has not reported its end. *)
Fixpoint chunk_loop (reads : list read) (emptyReads : nat) (chunk : bytes) (rolling : Z) (st : St) :
    St * option (result unit) :=
  match reads with
  | [] => (st, None)
  | r :: rest =>
      match read_ctx r, read_data r, read_err r with
      | Some e, _, _ => (st, Some (Err e))
      | None, [], None =>
          if bool_decide (100 ≤ S emptyReads) then (st, Some (Err [IoErrNoProgress]))
          else chunk_loop rest (S emptyReads) chunk rolling st
      | None, data, readErr =>
          let '(st, fed) := feed data chunk rolling st in
          match fed with
          | Err e => (st, Some (Err e))
          | Ok (chunk, rolling) =>
              match readErr with
              | None => chunk_loop rest 0 chunk rolling st
              | Some e =>
                  if negb (errors_is e IoEOF) then (st, Some (Err e))
                  else match chunk with
                  | [] => (st, Some (Ok tt))
                  | _ => let '(st, r) := consume st chunk in (st, Some r)
                  end
              end
          end
      end
  end.

Definition ChunkReader (reads : list read) (st : St) : St * option (result unit) := chunk_loop reads 0 [] 0 st.

End ChunkReader.

(** ** Building a file *)

Record stat := MkStat { stat_regular : bool; stat_mode : Z; stat_size : Z; stat_mtime : Z }.

(** What one attempt sees of the file. *)
Record FileRun := MkFileRun {
  run_open : result unit; run_before : result stat; run_reads : list read; run_after : result stat
}.

(** [ChunkStore]: the interface the builder writes to. *)
Class ChunkStore (St : Type) := put : St → string → bytes → St * result unit.

Section Build.
Context `{UnicodeCase} `{ChunkStore St} (sha256 : bytes → bytes).

(** The callback: it stores a chunk and appends it to the file. *)
Definition store_chunk (st : St * list Chunk) (contents : bytes) : (St * list Chunk) * result unit :=
  let digest := Sum sha256 contents in
  let '(store, r) := put st.1 digest contents in
  match r with
  | Err e => ((store, st.2), Err e)
  | Ok _ => ((store, st.2 ++ [MkChunk digest (Z.of_nat (length contents) `mod` 2 ^ 32)]), Ok tt)
  end.

Definition sum_sizes (chunks : list Chunk) : Z :=
  fold_left (λ total chunk, wrap_int64 (total + Size chunk)) chunks 0%Z.

Definition buildFile (run : FileRun) (relative : string) (store : St) : St * option (result File) :=
  match ValidatePath relative with
  | Err e => (store, Some (Err e))
  | Ok _ =>
  match run_open run with
  | Err e => (store, Some (Err e))
  | Ok _ =>
  match run_before run with
  | Err _ => (store, Some (Err [SnapshotErrUnsupportedEntry]))
  | Ok before =>
      if negb (stat_regular before) then (store, Some (Err [SnapshotErrUnsupportedEntry]))
      else
        let mode := if negb (Z.land (stat_mode before) 73 =? 0)%Z then 493%Z else 420%Z in
        let '((store, chunks), read) := ChunkReader store_chunk (run_reads run) (store, []) in
        match read with
        | None => (store, None)
        | Some (Err e) => (store, Some (Err e))
        | Some (Ok _) =>
            match run_after run with
            | Err e => (store, Some (Err e))
            | Ok after =>
                if negb (stat_size before =? stat_size after)%Z || negb (stat_mtime before =? stat_mtime after)%Z
                   || negb (sum_sizes chunks =? stat_size before)%Z
                then (store, Some (Err [SnapshotErrProjectChanged]))
                else (store, Some (Ok (MkFile relative mode (stat_size before) chunks)))
            end
        end
  end end end.

(** [buildStableFile]: another attempt only when the file changed meanwhile; each
    attempt comes with the [ctx.Err()] tested after it. *)
Fixpoint stable_loop (attempts : list (FileRun * option (list sentinel))) (relative : string) (store : St)
    (last : result File) : St * option (result File) :=
  match attempts with
  | [] => (store, Some last)
  | (run, ctx) :: rest =>
      let '(store, built) := buildFile run relative store in
      match built with
      | None => (store, None)
      | Some (Ok file) => (store, Some (Ok file))
      | Some (Err e) =>
          if negb (errors_is e SnapshotErrProjectChanged) then (store, Some (Err e))
          else match ctx with
          | Some contextErr => (store, Some (Err contextErr))
          | None => stable_loop rest relative store (Err e)
          end
      end
  end.

Definition maximumStableFileAttempts : nat := 3.

Definition buildStableFile (attempt : nat → FileRun * option (list sentinel)) (relative : string) (store : St) :
    St * option (result File) :=
  stable_loop (map attempt (seq 0 maximumStableFileAttempts)) relative store (Err []).

End Build.

(** ** Specification of chunking *)

(** The complete chunks of [data], the bytes after the last boundary and the hash
    at its end. *)
Fixpoint cut (data chunk : bytes) (rolling : Z) : list bytes * bytes * Z :=
  match data with
  | [] => ([], chunk, rolling)
  | value :: rest =>
      let chunk := chunk ++ [value] in
      let rolling := roll rolling value in
      if boundary chunk rolling then let '(done, tail, hash) := cut rest [] 0 in (chunk :: done, tail, hash)
      else cut rest chunk rolling
  end.

(** The chunks of a content. *)
Definition split_chunks (content : bytes) : list bytes :=
  let '(done, tail, _) := cut content [] 0 in done ++ (if bool_decide (tail = []) then [] else [tail]).

(** Handing chunks to a callback until it fails. *)
Fixpoint consume_all {St} (consume : St → bytes → St * result unit) (chunks : list bytes) (st : St) : St * result unit :=
  match chunks with
  | [] => (st, Ok tt)
  | chunk :: rest =>
      let '(st, r) := consume st chunk in
      match r with Err e => (st, Err e) | Ok _ => consume_all consume rest st end
  end.

(** A reader that delivers [content] and then reports its end, with fewer than a
    hundred empty reads in a row; [n] counts those before it. *)
Inductive delivers : nat → list read → bytes → Prop :=
| delivers_end n r rest e : read_ctx r = None → read_err r = Some e → errors_is e IoEOF = true →
    delivers n (r :: rest) (read_data r)
| delivers_empty n r rest content : read_ctx r = None → read_data r = [] → read_err r = None → S n < 100 →
    delivers (S n) rest content → delivers n (r :: rest) content
| delivers_data n r rest content : read_ctx r = None → read_data r ≠ [] → read_err r = None →
    delivers 0 rest content → delivers n (r :: rest) (read_data r ++ content).

(** ** Lemmas on chunking *)

Lemma cut_app l1 l2 chunk rolling :
  cut (l1 ++ l2) chunk rolling =
  let '(done1, tail1, hash1) := cut l1 chunk rolling in
  let '(done2, tail2, hash2) := cut l2 tail1 hash1 in (done1 ++ done2, tail2, hash2).
Proof.
  revert chunk rolling. induction l1 as [|c l1 IH]; intros chunk rolling; simpl.
  - by destruct (cut l2 chunk rolling) as [[? ?] ?].
  - destruct (boundary _ _); [|apply IH]. rewrite IH. destruct (cut l1 [] 0) as [[done1 tail1] hash1].
    by destruct (cut l2 tail1 hash1) as [[? ?] ?].
Qed.

Section Consume.
Context {St : Type} (consume : St → bytes → St * result unit).

Lemma consume_app l1 l2 st :
  consume_all consume (l1 ++ l2) st =
  let '(st', r) := consume_all consume l1 st in
  match r with Err e => (st', Err e) | Ok _ => consume_all consume l2 st' end.
Proof.
  revert st. induction l1 as [|c l1 IH]; intros st; [done|]. simpl.
  destruct (consume st c) as [st' [u|e]]; [apply IH|done].
Qed.

Lemma feed_cut data chunk rolling st :
  feed consume data chunk rolling st =
  let '(done, tail, hash) := cut data chunk rolling in
  let '(st', r) := consume_all consume done st in
  (st', match r with Ok _ => Ok (tail, hash) | Err e => Err e end).
Proof.
  revert chunk rolling st. induction data as [|c data IH]; intros chunk rolling st; [done|]. simpl.
  destruct (boundary _ _); simpl; [|apply IH].
  destruct (consume st (chunk ++ [c])) as [st' [u|e]] eqn:E.
  - rewrite IH. destruct (cut data [] 0) as [[fin tail] hash]. simpl. by rewrite E.
  - destruct (cut data [] 0) as [[fin tail] hash]. simpl. by rewrite E.
Qed.

(** The loop, started with [chunk] and its hash pending, behaves like the callback
    run over the chunks still to come. *)
Lemma chunk_loop_cut n reads content chunk rolling st :
  delivers n reads content →
  chunk_loop consume reads n chunk rolling st =
  let '(done, tail, _) := cut content chunk rolling in
  let '(st', r) := consume_all consume (done ++ (if bool_decide (tail = []) then [] else [tail])) st in (st', Some r).
Proof.
  intros Hd. revert chunk rolling st. induction Hd as [n r rest e Hc He Hf|n r rest content Hc Hdat He Hn Hd IH|
    n r rest content Hc Hdat He Hd IH]; intros chunk rolling st; cbn [chunk_loop]; rewrite Hc, He.
  - transitivity (let '(st', fed) := feed consume (read_data r) chunk rolling st in
      match fed with
      | Err e => (st', Some (Err e))
      | Ok ([], _) => (st', Some (Ok tt))
      | Ok (chunk, _) => let '(st', r) := consume st' chunk in (st', Some r)
      end).
    { rewrite Hf. by destruct (read_data r). }
    rewrite feed_cut. destruct (cut _ chunk rolling) as [[fin tail] hash]. rewrite consume_app.
    destruct (consume_all consume fin st) as [st' [[]|e']]; [|done].
    destruct tail as [|t tail]; [done|]. rewrite bool_decide_false by done. simpl.
    by destruct (consume st' (t :: tail)) as [st'' [[]|?]].
  - rewrite Hdat, bool_decide_false by lia. apply IH.
  - rewrite cut_app. destruct (read_data r) as [|c data]; [done|]. rewrite feed_cut.
    destruct (cut _ chunk rolling) as [[fin tail] hash].
    destruct (consume_all consume fin st) as [st' [u|e']] eqn:E.
    + rewrite IH. destruct (cut content tail hash) as [[done2 tail2] ?]. rewrite <-app_assoc, (consume_app fin), E. done.
    + destruct (cut content tail hash) as [[done2 tail2] ?]. by rewrite <-app_assoc, (consume_app fin), E.
Qed.

End Consume.

Lemma cut_concat data chunk rolling done tail hash :
  cut data chunk rolling = (done, tail, hash) → concat done ++ tail = chunk ++ data.
Proof.
  revert chunk rolling done. induction data as [|c data IH]; intros chunk rolling done; simpl.
  - intros [= <- <- _]. by rewrite app_nil_r.
  - destruct (boundary _ _).
    + destruct (cut data [] 0) as [[done' tail'] hash'] eqn:E. intros [= <- <- <-]. simpl.
      rewrite <-app_assoc, (IH _ _ _ E). by rewrite <-app_assoc.
    + intros H%IH. by rewrite H, <-app_assoc.
Qed.

Lemma cut_sizes data chunk rolling done tail hash :
  (Z.of_nat (length chunk) < MaximumChunkBytes)%Z → cut data chunk rolling = (done, tail, hash) →
  Forall (λ c, (MinimumChunkBytes ≤ Z.of_nat (length c) ≤ MaximumChunkBytes)%Z) done ∧
  (Z.of_nat (length tail) < MaximumChunkBytes)%Z.
Proof.
  revert chunk rolling done. induction data as [|c data IH]; intros chunk rolling done Hl; cbn [cut].
  { intros [= <- <- _]. by split; [constructor|]. }
  assert (Z.of_nat (length (chunk ++ [c])) = Z.of_nat (length chunk) + 1)%Z as Hs.
  { rewrite length_app. simpl. lia. }
  destruct (boundary _ _) eqn:Eb; unfold boundary in Eb; rewrite Hs in Eb.
  - destruct (cut data [] 0) as [[done' tail'] hash'] eqn:E. intros [= <- <- <-].
    apply IH in E as [Hall Ht]; [|done]. split; [|done]. constructor; [|done]. reflect_bools. lia.
  - apply IH. rewrite Hs. apply negb_false_iff, orb_true_iff in Eb as [Eb|Eb]; reflect_bools; [|done].
    unfold MinimumChunkBytes, MaximumChunkBytes in *. lia.
Qed.

Lemma cut_empty_tail data rolling fin hash :
  cut data [] rolling = (fin, [], hash) → (data = [] ∧ fin = [] ∧ hash = rolling) ∨ hash = 0%Z.
Proof.
  assert (∀ chunk rolling fin, data ≠ [] ∨ chunk = [] → cut data chunk rolling = (fin, [], hash) →
    (data = [] ∧ fin = [] ∧ hash = rolling) ∨ hash = 0%Z) as H; [|apply H; by right].
  induction data as [|c data IH]; intros chunk rolling' fin'; simpl; [intros [?| ->] [= <- <-]; auto|].
  intros _. destruct (boundary _ _).
  - destruct (cut data [] 0) as [[fin2 tail2] hash2] eqn:E. intros [= <- -> <-].
    apply IH in E as [(_ & _ & ->)|?]; auto.
  - intros E. destruct data as [|c' data]; [|apply IH in E as [(? & _)|?]; auto; by left].
    simpl in E. injection E as _ E _. by destruct chunk.
Qed.

(** A boundary resets the chunker: the rest is chunked as if it stood alone. *)
Lemma split_chunks_app l1 l2 fin hash :
  cut l1 [] 0 = (fin, [], hash) → split_chunks (l1 ++ l2) = fin ++ split_chunks l2.
Proof.
  intros H. unfold split_chunks. rewrite cut_app, H.
  assert (hash = 0%Z) as -> by (by apply cut_empty_tail in H as [(_ & _ & ->)|?]).
  destruct (cut l2 [] 0) as [[fin2 tail2] hash2]. by rewrite <-app_assoc.
Qed.

Lemma split_chunks_concat content : concat (split_chunks content) = content.
Proof.
  unfold split_chunks. destruct (cut content [] 0) as [[fin tail] hash] eqn:E. apply cut_concat in E.
  rewrite concat_app. simpl in E. rewrite <-E. f_equal. case_bool_decide; subst; [done|]. simpl. by rewrite app_nil_r.
Qed.

Lemma split_chunks_sizes content :
  Forall (λ c, (0 < Z.of_nat (length c) ≤ MaximumChunkBytes)%Z) (split_chunks content) ∧
  (∀ front last, split_chunks content = front ++ [last] →
     Forall (λ c, (MinimumChunkBytes ≤ Z.of_nat (length c))%Z) front).
Proof.
  unfold split_chunks. destruct (cut content [] 0) as [[fin tail] hash] eqn:E.
  apply cut_sizes in E as [Hall Ht]; [|done]. split.
  - apply Forall_app. split.
    + apply (Forall_impl _ _ _ Hall). unfold MinimumChunkBytes. intros c. lia.
    + case_bool_decide as Hd; [constructor|]. repeat constructor; [|lia]. destruct tail; [done|]. simpl. lia.
  - intros front last Hf. assert (Forall (λ c, (MinimumChunkBytes ≤ Z.of_nat (length c))%Z) fin) as Hmin.
    { apply (Forall_impl _ _ _ Hall). intros c. lia. }
    case_bool_decide as Hd.
    + rewrite app_nil_r in Hf. rewrite Hf in Hmin. by apply Forall_app in Hmin as [? _].
    + apply app_inj_tail in Hf as [<- _]. done.
Qed.

(** C38 Chunking is a function of the content alone.  However the reader splits its
    bytes over [Read] calls, [ChunkReader] hands the callback exactly the chunks of
    [split_chunks], in order, until the callback fails, and then reports success;
    their concatenation is the content; each is between 1 byte and 512 KiB, and at
    least 64 KiB but for the last; and the chunks before a boundary do not depend on
    what follows, nor those after it on what precedes, so equal regions of two files
    share their chunks. *)
Theorem chunk_reader_exact {St : Type} (consume : St → bytes → St * result unit) (reads : list read)
    (content : bytes) (st : St) :
  delivers 0 reads content →
  ChunkReader consume reads st =
    (let '(st', r) := consume_all consume (split_chunks content) st in (st', Some r)) ∧
  concat (split_chunks content) = content ∧
  Forall (λ c, (0 < Z.of_nat (length c) ≤ MaximumChunkBytes)%Z) (split_chunks content) ∧
  (∀ front last, split_chunks content = front ++ [last] →
     Forall (λ c, (MinimumChunkBytes ≤ Z.of_nat (length c))%Z) front) ∧
  (∀ l1 l2 fin hash, content = l1 ++ l2 → cut l1 [] 0 = (fin, [], hash) →
     split_chunks content = fin ++ split_chunks l2).
Proof.
  intros Hd. split_and!.
  - unfold ChunkReader. rewrite (chunk_loop_cut consume 0 reads content) by done.
    unfold split_chunks. by destruct (cut content [] 0) as [[fin tail] hash].
  - apply split_chunks_concat.
  - apply split_chunks_sizes.
  - apply split_chunks_sizes.
  - intros l1 l2 fin hash -> Hcut. by eapply split_chunks_app.
Qed.

Definition sample_reads : list read :=
  [MkRead None (bytes_of "ab") None; MkRead None [] None; MkRead None (bytes_of "c") (Some [IoEOF])].

Lemma sample_delivers : delivers 0 sample_reads (bytes_of "abc").
Proof.
  apply (delivers_data 0 (MkRead None (bytes_of "ab") None) _ (bytes_of "c")); [done..|].
  apply delivers_empty; [done..|lia|]. by eapply (delivers_end 1 (MkRead None (bytes_of "c") (Some [IoEOF]))).
Qed.

Lemma chunk_reader_exact_witness :
  ChunkReader (λ chunks chunk, (chunks ++ [chunk], Ok tt)) sample_reads [] = ([bytes_of "abc"], Some (Ok tt)).
Proof.
  exact (proj1 (chunk_reader_exact (λ chunks chunk, (chunks ++ [chunk], Ok tt)) sample_reads (bytes_of "abc") []
    sample_delivers)).
Defined.

(** ** Digests are canonical *)

Section Canonical.
Context `{UnicodeCase}.

Lemma hex_digit_lower : ∀ c, match hex_val c with
  | Some h => (val c < 128)%Z ∧ (byte_of (ascii_lower (val c)) = c → hex_digit h = c ∧ (0 ≤ h < 16)%Z)
  | None => True end.
Proof. all_bytes; try exact I; (split; [reflexivity|]); intros ?; try discriminate; by split. Qed.

Lemma lower_ascii c l : (val c < 128)%Z → lower_bytes (c :: l) = byte_of (ascii_lower (val c)) :: lower_bytes l.
Proof.
  intros Hc. destruct (runes_cons c l) as (t & l' & -> & Hb & Hr). unfold lower_bytes. rewrite Hr. cbn [map concat].
  pose proof (val_range c). assert (decode_rune c (t ++ l') = RuneAt (val c) [c] true) as E.
  { unfold decode_rune. by rewrite (proj2 (Z.ltb_lt _ _)) by done. }
  rewrite E in *. injection Hb as <-. unfold lower_rune. cbn [rune_value]. rewrite (proj2 (Z.ltb_lt _ _)) by done.
  assert (0 ≤ ascii_lower (val c) < 128)%Z as Ha by (unfold ascii_lower; destruct (_ && _) eqn:Ec; reflect_bools; lia).
  unfold encode_rune. rewrite (proj2 (Z.ltb_ge _ 0)), (proj2 (Z.ltb_ge 0x10FFFF _)), (proj2 (Z.leb_gt 0xD800 _)) by lia.
  simpl. by rewrite (proj2 (Z.ltb_lt _ 0x80)) by lia.
Qed.

Lemma hex_decode_canonical n l d :
  length l ≤ n → lower_bytes l = l → hex_decode l = Some d → hex_encode d = l.
Proof.
  revert l d. induction n as [|n IH]; intros [|a [|b l]] d Hn Hl Hd; simpl in Hn, Hd; try (by simplify_eq); [lia|].
  pose proof (hex_digit_lower a) as Ha. pose proof (hex_digit_lower b) as Hb.
  destruct (hex_val a) as [h|]; [|done]. destruct (hex_val b) as [g|]; [|done].
  destruct (hex_decode l) as [rest|] eqn:E; [|done]. injection Hd as <-.
  rewrite lower_ascii, lower_ascii in Hl by tauto. injection Hl as Ea Eb El.
  destruct (proj2 Ha Ea) as [Ea' Hh], (proj2 Hb Eb) as [Eb' Hg].
  unfold hex_encode. cbn [map concat]. fold (hex_encode rest). rewrite (IH l rest) by (done || lia).
  unfold hex_byte. rewrite val_byte_of, Z.mod_small by lia. rewrite Z.div_add_l, Z.div_small, Z.add_0_r by lia.
  rewrite Z.add_comm, Z.mod_add, Z.mod_small by lia. rewrite Ea', Eb'. done.
Qed.

Lemma digest_canonical value :
  Digest_Valid value = true → ∃ d, hex_decode (bytes_of value) = Some d ∧ length d = DigestBytes ∧
    value = str_of (hex_encode d).
Proof.
  unfold Digest_Valid, ParseDigest. destruct (_ || _) eqn:E; [done|]. reflect_bools.
  destruct (hex_decode (bytes_of value)) as [d|] eqn:Ed; [|done]. case_bool_decide; [|done]. intros _.
  exists d. split_and!; [done|done|]. rewrite (hex_decode_canonical (length (bytes_of value)) (bytes_of value) d); [by rewrite str_of_bytes_of|lia| |done].
  match goal with E : to_lower value = value |- _ => by rewrite <-E at 2; rewrite to_lower_bytes, bytes_of_str_of end.
Qed.

End Canonical.

(** ** What [Validate] promises *)

(** The ranges of Go's types. *)
Definition typed_chunk (chunk : Chunk) : Prop := (0 ≤ Size chunk < 2 ^ 32)%Z.
Definition typed (manifest : Manifest) : Prop :=
  int64_range (TotalBytes manifest) ∧
  Forall (λ file, int64_range (FileSize file) ∧ Forall typed_chunk (Chunks file)) (Files manifest).

Definition sum_z (l : list Z) : Z := foldr Z.add 0%Z l.

Section Sound.
Context `{UnicodeCaseLaws}.

Definition chunk_ok (chunk : Chunk) : Prop :=
  Digest_Valid (Digest chunk) = true ∧ (0 < Size chunk ≤ MaximumChunkBytes)%Z.

Definition file_ok (file : File) : Prop :=
  PortablePath.Validate (Path file) = Ok tt ∧ (Mode file = 420%Z ∨ Mode file = 493%Z) ∧
  Forall chunk_ok (Chunks file) ∧ FileSize file = sum_z (map Size (Chunks file)).

(** An earlier and a later file: their paths are in order, denote different files
    on a file system that ignores case, and the first is not a directory of the
    second. *)
Definition apart (f g : File) : Prop :=
  str_ltb (Path f) (Path g) = true ∧ Key (Path f) ≠ Key (Path g) ∧
  ∀ rest, Path g ≠ (Path f +:+ "/" +:+ rest)%string.

Lemma split_app_slash x y : split_bytes slash (x ++ slash :: y) = split_bytes slash x ++ split_bytes slash y.
Proof.
  induction x as [|c x IH]; simpl; [done|]. rewrite IH.
  pose proof (split_bytes_nonempty slash x). case_bool_decide; [done|]. by destruct (split_bytes slash x).
Qed.

Lemma length_split l : length (split_bytes slash l) ≤ S (length l).
Proof.
  induction l as [|c l IH]; simpl; [lia|]. case_bool_decide; simpl; [lia|].
  destruct (split_bytes slash l); simpl in *; lia.
Qed.

Lemma str_of_inj l k : str_of l = str_of k → l = k.
Proof. intros E. by rewrite <-(bytes_of_str_of l), E, bytes_of_str_of. Qed.

(** A path made of names is not the current directory. *)
Lemma join_not_dot segs : segs ≠ [] → Forall plain segs → str_of (join_bytes slash segs) ≠ ".".
Proof.
  intros Hne Hp E. change "." with (str_of dot) in E. apply str_of_inj in E.
  destruct segs as [|a [|b segs]]; [done| |].
  - simpl in E. by apply Forall_cons in Hp as [(_ & ? & _) _].
  - apply Forall_cons in Hp as [(Ha & _) _]. simpl in E. destruct a as [|c [|? ?]]; [done|..]; done.
Qed.

(** The loop over the parents finds a file exactly if one of the directories on
    the path is one; its fuel suffices. *)
Lemma has_parent_spec fuel paths segs :
  Forall plain segs → Forall (λ s, slash ∉ s) segs → segs ≠ [] → length segs ≤ S fuel →
  has_parent fuel paths (path_dir (str_of (join_bytes slash segs))) = true ↔
  ∃ k, 0 < k < length segs ∧ str_of (join_bytes slash (take k segs)) ∈ paths.
Proof.
  revert segs. induction fuel as [|fuel IH]; intros segs Hp Hn Hne Hl;
    destruct segs as [|seg init _] using rev_ind; [done| |done|].
  all: rewrite length_app in *; simpl in Hl; rewrite path_dir_join by done.
  - destruct init; simpl in Hl; [|lia]. simpl. split; [done|]. intros (k & Hk & _). lia.
  - destruct init as [|i0 init0] eqn:Ei; [|rewrite <-Ei in *].
    { simpl. split; [done|]. intros (k & Hk & _). lia. }
    assert (init ≠ []) as Hi by (by subst). rewrite decide_False by done. cbn [has_parent].
    apply Forall_app in Hp as [Hp _]. apply Forall_app in Hn as [Hn _].
    rewrite bool_decide_eq_false_2 by (by apply join_not_dot). case_bool_decide as Hin.
    + split; [|done]. intros _. exists (length init). rewrite take_app_length. simpl.
      split; [|done]. destruct init; [done|]. simpl. lia.
    + rewrite IH by (done || lia). split; intros (k & Hk & Hk').
      * exists k. rewrite take_app_le by lia. simpl. split; [lia|done].
      * exists k. simpl in Hk. assert (k ≠ length init) as Hne'.
        { intros ->. by rewrite take_app_length in Hk'. }
        rewrite take_app_le in Hk' by lia. split; [lia|done].
Qed.

Lemma directory_detected f g rest paths :
  PortablePath.Validate f = Ok tt → PortablePath.Validate g = Ok tt → g = (f +:+ "/" +:+ rest)%string →
  Key f ∈ paths → has_parent (String.length (Key g)) paths (path_dir (Key g)) = true.
Proof.
  intros Hf Hg E Hin. destruct (key_segments f Hf) as (Ef & _ & _), (key_segments g Hg) as (Eg & Hp & Hn).
  assert (bytes_of g = bytes_of f ++ slash :: bytes_of rest) as Eb.
  { rewrite E. clear. induction f as [|c f IH]; [done|]. by apply (f_equal (cons c)) in IH. }
  assert (length (map lower_bytes (split_bytes slash (bytes_of g))) ≤ S (String.length (Key g))) as Hlen.
  { pose proof (length_split (bytes_of (Key g))) as Hs. rewrite length_bytes_of in Hs.
    rewrite Eg, bytes_of_str_of, split_join in Hs; [by rewrite Eg|by rewrite Eb, split_app_slash; destruct split_bytes eqn:E'; [apply split_bytes_nonempty in E'|]|done]. }
  rewrite Eg at 2. apply has_parent_spec; [done|done| |done|].
  - pose proof (split_bytes_nonempty slash (bytes_of g)). by destruct (split_bytes slash (bytes_of g)).
  - exists (length (split_bytes slash (bytes_of f))). rewrite Eb, split_app_slash, map_app, !length_app, !length_map.
    rewrite <-(length_map lower_bytes (split_bytes slash (bytes_of f))) at 4. rewrite take_app_length, <-Ef. split; [|done].
    pose proof (split_bytes_nonempty slash (bytes_of f)). pose proof (split_bytes_nonempty slash (bytes_of rest)).
    destruct (split_bytes slash (bytes_of f)), (split_bytes slash (bytes_of rest)); simpl; try done. lia.
Qed.

Lemma validate_chunks_ok chunks count total count' total' :
  Forall typed_chunk chunks → (0 ≤ count ≤ MaximumChunks)%Z → (0 ≤ total ≤ count * MaximumChunkBytes)%Z →
  validate_chunks chunks count total = Ok (count', total') →
  Forall chunk_ok chunks ∧ count' = (count + Z.of_nat (length chunks))%Z ∧ (count' ≤ MaximumChunks)%Z ∧
  total' = (total + sum_z (map Size chunks))%Z ∧ (0 ≤ total' ≤ count' * MaximumChunkBytes)%Z.
Proof.
  revert count total. induction chunks as [|c chunks IH]; intros count total Ht Hc Hb; simpl.
  { intros [= <- <-]. split_and!; try lia. constructor. }
  apply Forall_cons in Ht as [Hty Ht]. destruct (_ || _) eqn:E; [done|]. reflect_bools. unfold typed_chunk in Hty.
  assert (0 ≤ total + Size c ≤ (count + 1) * MaximumChunkBytes)%Z as Hb' by nia.
  rewrite wrap_int64_id by (unfold int64_range, MaximumChunks, MaximumChunkBytes in *; lia).
  intros (Q1 & Q2 & Q3 & Q4 & Q5)%IH; [|done|lia|done]. split_and!; try lia.
  constructor; [|done]. split; [done|lia].
Qed.

(** The state of the loop after the files [pre]. *)
Record checked (pre : list File) (v : validation) : Prop := {
  ck_files : Forall file_ok pre;
  ck_apart : StronglySorted apart pre;
  ck_total : v_total v = sum_z (map FileSize pre) ∧ (0 ≤ v_total v ≤ MaximumSnapshotBytes)%Z;
  ck_count : v_chunkCount v = sum_z (map (λ f, Z.of_nat (length (Chunks f))) pre) ∧
    (0 ≤ v_chunkCount v ≤ MaximumChunks)%Z;
  ck_previous : v_previous v = match last pre with Some f => Path f | None => "" end;
  ck_paths : v_portablePaths v = list_to_set (map (λ f, Key (Path f)) pre)
}.

Lemma sum_z_app l k : sum_z (l ++ k) = (sum_z l + sum_z k)%Z.
Proof. induction l as [|x l IH]; [done|]. unfold sum_z in *. simpl. rewrite IH. lia. Qed.

Lemma str_ltb_trans a b c : str_ltb a b = true → str_ltb b c = true → str_ltb a c = true.
Proof.
  rewrite !str_ltb_leb, !negb_true_iff. intros Hab Hbc. destruct (str_leb c a) eqn:E; [|done].
  assert (str_leb a b = true) as Hle by (by destruct (str_leb_total a b) as [?|?]; [|congruence]).
  assert (str_leb c b = true) by (by eapply str_leb_trans). congruence.
Qed.

(** Later files are after every earlier one. *)
Lemma sorted_before pre g :
  StronglySorted apart pre → match last pre with Some f => str_ltb (Path f) g = true | None => True end →
  Forall (λ f, str_ltb (Path f) g = true) pre.
Proof.
  intros Hs. destruct pre as [|l pre _] using rev_ind; [done|]. rewrite last_snoc. intros Hl.
  apply Forall_app. split; [|by repeat constructor]. apply Forall_forall. intros f Hf.
  apply str_ltb_trans with (Path l); [|done].
  apply (StronglySorted_app_1_elem_of apart pre [l] f l Hs Hf). by apply list_elem_of_singleton.
Qed.

Lemma validate_path_nonempty value : PortablePath.Validate value = Ok tt → value ≠ "".
Proof. by intros Hv ->. Qed.

Lemma validate_file_ok pre v file v' :
  int64_range (FileSize file) → Forall typed_chunk (Chunks file) → checked pre v →
  validate_file file v = Ok v' → checked (pre ++ [file]) v'.
Proof.
  intros Hty Htc [Hf Ha [Ht Htb] [Hc Hcb] Hp Hk] Hv. unfold validate_file in Hv.
  apply result_bind_ok in Hv as ([] & Hpath & Hv). apply wrap_err_ok in Hpath. unfold ValidatePath in Hpath.
  destruct (PortablePath.Validate (Path file)) as [[]|] eqn:Epath; [|done]. clear Hpath.
  apply result_bind_ok in Hv as ([] & Hord%reject_if_ok & Hv).
  apply result_bind_ok in Hv as ([] & Hkey%reject_if_ok & Hv).
  apply result_bind_ok in Hv as ([] & Hpar%reject_if_ok & Hv).
  apply result_bind_ok in Hv as ([] & Hmode%reject_if_ok & Hv).
  apply result_bind_ok in Hv as ([count bytes] & Hch & Hv).
  apply result_bind_ok in Hv as ([] & Hsz%reject_if_ok & Hv).
  apply result_bind_ok in Hv as ([] & Htot%reject_if_ok & [= <-]). simpl in *.
  apply validate_chunks_ok in Hch as (Hco & Hcount & Hcle & Hbytes & Hbb); [|done|lia|unfold MaximumChunkBytes; lia].
  apply orb_false_iff in Hmode as [Hmode Hneg]. apply orb_false_iff in Hsz as [Hsz _]. reflect_bools.
  assert (FileSize file = sum_z (map Size (Chunks file))) as Hsize by lia.
  assert (0 ≤ FileSize file ≤ MaximumChunks * MaximumChunkBytes)%Z as Hfb by (unfold MaximumChunkBytes in *; lia).
  assert (wrap_int64 (v_total v + FileSize file) = v_total v + FileSize file)%Z as Ew.
  { apply wrap_int64_id. unfold int64_range, MaximumSnapshotBytes, MaximumChunks, MaximumChunkBytes in *. lia. }
  rewrite Ew in *. rewrite Hk in Hkey, Hpar.
  constructor; simpl; rewrite ?map_app, ?sum_z_app, ?last_snoc; simpl; [..|set_solver].
  - apply Forall_app. split; [done|]. apply Forall_singleton.
    split_and!; auto. apply andb_false_iff in Hmode as [Hm|Hm]; reflect_bools; auto.
  - apply StronglySorted_snoc; [done|].
    assert (Forall (λ f, str_ltb (Path f) (Path file) = true) pre) as Hlt.
    { apply sorted_before; [done|]. rewrite Hp in Hord. destruct (last pre) as [l|] eqn:El; [|done].
      rewrite str_ltb_leb. apply negb_true_iff. destruct (str_leb (Path file) (Path l)); [|done].
      rewrite andb_true_r in Hord. reflect_bools. apply last_Some in El as [pre' ->].
      apply Forall_app in Hf as [_ [[Hl _] _]%Forall_cons]. by apply validate_path_nonempty in Hl. }
    apply Forall_forall. intros f Hin. split_and!.
    + by eapply Forall_forall in Hlt.
    + intros E. apply Hkey. rewrite <-E. apply elem_of_list_to_set, list_elem_of_fmap. eauto.
    + intros rest E. eapply Forall_forall in Hf; [|exact Hin]. destruct Hf as [Hpf _].
      rewrite (directory_detected (Path f) (Path file) rest) in Hpar; [done|done|done|done|].
      apply elem_of_list_to_set, list_elem_of_fmap. eauto.
  - unfold sum_z in *. simpl. lia.
  - unfold sum_z in *. simpl. lia.
  - done.
Qed.

Lemma validate_files_ok files pre v v' :
  Forall (λ file, int64_range (FileSize file) ∧ Forall typed_chunk (Chunks file)) files →
  checked pre v → validate_files files v = Ok v' → checked (pre ++ files) v'.
Proof.
  revert pre v. induction files as [|file files IH]; intros pre v Hty Hck; simpl.
  { intros [= <-]. by rewrite app_nil_r. }
  apply Forall_cons in Hty as [[Hr Hch] Hty]. intros (v1 & Hv1 & Hrest)%result_bind_ok.
  apply (validate_file_ok pre) in Hv1; [|done..]. change (file :: files) with ([file] ++ files).
  rewrite app_assoc. by eapply IH.
Qed.

Lemma manifest_checked m :
  typed m → Manifest_Validate m = Ok tt →
  Version m = ManifestVersion ∧ (Z.of_nat (length (Files m)) ≤ MaximumFiles)%Z ∧
  ∃ v, checked (Files m) v ∧ v_total v = TotalBytes m.
Proof.
  intros [Ht Hty] Hv. unfold Manifest_Validate in Hv.
  apply result_bind_ok in Hv as ([] & Hb%reject_if_ok & Hv). apply result_bind_ok in Hv as (v & Hf & Htot%reject_if_ok).
  reflect_bools. split_and!; auto. exists v. split; [|done].
  apply (validate_files_ok _ []) in Hf; [done|done|]. constructor; simpl; try done; by repeat constructor.
Qed.

Lemma ltb_prefix a b : str_ltb (a +:+ b)%string a = false.
Proof.
  unfold str_ltb, String.ltb. induction a as [|c a IH]; simpl; [by destruct b|].
  unfold Ascii.compare. by rewrite N.compare_refl.
Qed.

Lemma append_longer a rest : a ≠ (a +:+ "/" +:+ rest)%string.
Proof. induction a as [|c a IH]; [done|]. intros [= E]. by apply IH. Qed.

(** No file of an orderly list is a directory on the path of another. *)
Lemma apart_unrelated files : StronglySorted apart files →
  ∀ f g rest, f ∈ files → g ∈ files → Path g ≠ (Path f +:+ "/" +:+ rest)%string.
Proof.
  intros Ha f g rest Hfin Hgin E.
  apply list_elem_of_lookup in Hfin as [i Hi]. apply list_elem_of_lookup in Hgin as [j Hj].
  assert (∀ a b x y, a < b → files !! a = Some x → files !! b = Some y → apart x y) as Hord.
  { intros a b x y Hab Hx Hy. eapply (StronglySorted_take_drop apart files (S a)); [done| |].
    - apply elem_of_take. exists a. auto with lia.
    - apply list_elem_of_lookup. exists (b - S a). rewrite lookup_drop. by replace (S a + (b - S a)) with b by lia. }
  destruct (Nat.lt_trichotomy i j) as [Hij|[->|Hji]].
  - destruct (Hord _ _ _ _ Hij Hi Hj) as (_ & _ & Hno). by eapply Hno.
  - rewrite Hi in Hj. injection Hj as <-. by apply append_longer in E.
  - destruct (Hord _ _ _ _ Hji Hj Hi) as (Hlt & _). rewrite E, ltb_prefix in Hlt. done.
Qed.

End Sound.

(** A manifest that [Validate] accepts describes a tree that can be written out
    anywhere: every path is portable, paths are strictly sorted and no two coincide
    up to case, no file's path is a directory on another file's path; every digest
    is canonical, every chunk holds 1 byte to 512 KiB, each file's size is the sum of
    its chunks', the total is the sum of the files' and at most 100 GiB, and there
    are at most 25000 files and 250000 chunks; none of the sums wraps. *)
Theorem manifest_valid_sound (U : UnicodeCase) (L : UnicodeCaseLaws) (m : Manifest) :
  typed m → Manifest_Validate m = Ok tt →
  Version m = ManifestVersion ∧ (Z.of_nat (length (Files m)) ≤ MaximumFiles)%Z ∧
  Forall file_ok (Files m) ∧
  StronglySorted (λ f g, str_ltb (Path f) (Path g) = true) (Files m) ∧
  NoDup (map (λ f, Key (Path f)) (Files m)) ∧
  (∀ f g rest, f ∈ Files m → g ∈ Files m → Path g ≠ (Path f +:+ "/" +:+ rest)%string) ∧
  TotalBytes m = sum_z (map FileSize (Files m)) ∧ (0 ≤ TotalBytes m ≤ MaximumSnapshotBytes)%Z ∧
  (sum_z (map (λ f, Z.of_nat (length (Chunks f))) (Files m)) ≤ MaximumChunks)%Z.
Proof.
  intros Ht (Hv & Hn & v & [Hf Ha [Hs Hb] [Hc Hcb] _ _] & Htot)%manifest_checked; [|done].
  split_and!; auto; try lia.
  - clear -Ha. induction Ha as [|f fs Ha IH Hall]; constructor; [done|].
    apply (Forall_impl _ _ _ Hall). by intros g (? & _).
  - clear -Ha. induction Ha as [|f fs Ha IH Hall]; simpl; constructor; [|done].
    intros (g & E & Hg)%list_elem_of_fmap. eapply Forall_forall in Hall; [|exact Hg]. by destruct Hall as (_ & ? & _).
  - by apply apart_unrelated.
Qed.

(** ** The canonical encoding identifies the manifest *)

Lemma big_endian_inj n a b :
  (0 ≤ a < 256 ^ Z.of_nat n)%Z → (0 ≤ b < 256 ^ Z.of_nat n)%Z → big_endian n a = big_endian n b → a = b.
Proof.
  revert a b. induction n as [|n IH]; intros a b Ha Hb; cbn [big_endian]; [change (256 ^ Z.of_nat 0)%Z with 1%Z in *; lia|].
  intros [Hd Hm]%app_inj_tail. apply (f_equal val) in Hm. rewrite !val_byte_of in Hm.
  rewrite Nat2Z.inj_succ, Z.pow_succ_r in Ha, Hb by lia. apply IH in Hd.
  - rewrite (Z.div_mod a 256), (Z.div_mod b 256) by lia. lia.
  - split; [apply Z.div_pos; lia|apply Z.div_lt_upper_bound; lia].
  - split; [apply Z.div_pos; lia|apply Z.div_lt_upper_bound; lia].
Qed.

(** Two equal concatenations of a fixed-width number and a rest. *)
Lemma number_app_inj n a b x y :
  (0 ≤ a < 256 ^ Z.of_nat n)%Z → (0 ≤ b < 256 ^ Z.of_nat n)%Z →
  big_endian n a ++ x = big_endian n b ++ y → a = b ∧ x = y.
Proof.
  intros Ha Hb E. apply app_inj_1 in E as [E ->]; [|by rewrite !length_big_endian]. by apply big_endian_inj in E.
Qed.

(** Encodings that can be read off the front of a stream. *)
Definition prefix_code {A} (P : A → Prop) (write : A → bytes) : Prop :=
  ∀ a b x y, P a → P b → write a ++ x = write b ++ y → a = b ∧ x = y.

Lemma prefix_code_list {A} (P : A → Prop) write l k x y :
  prefix_code P write → Forall P l → Forall P k → length l = length k →
  concat (map write l) ++ x = concat (map write k) ++ y → l = k ∧ x = y.
Proof.
  intros Hc Hl. revert k. induction Hl as [|a l Ha Hl IH]; intros [|b k] Hk Hlen E; simplify_eq/=; [done|].
  apply Forall_cons in Hk as [Hb Hk]. rewrite <-!app_assoc in E. apply Hc in E as [-> E]; [|done..].
  apply IH in E as [-> ->]; done.
Qed.

Section Injective.
Context `{UnicodeCaseLaws}.

Lemma write_chunk_code : prefix_code chunk_ok write_chunk.
Proof.
  intros [da sa] [db sb] x y [Hda Hsa] [Hdb Hsb]. unfold write_chunk. cbn [Digest Size] in *.
  apply digest_canonical in Hda as (a & Ea & Hla & ->), Hdb as (b & Eb & Hlb & ->).
  rewrite !bytes_of_str_of, !hex_decode_encode. cbn [default from_option id]. rewrite <-!app_assoc.
  intros [-> E]%app_inj_1; [|congruence]. unfold MaximumChunkBytes in *.
  apply number_app_inj in E as [-> ->]; [done|change (256 ^ Z.of_nat 4)%Z with (2 ^ 32)%Z; lia..].
Qed.

Definition file_bounded (f : File) : Prop :=
  file_ok f ∧ (Z.of_nat (length (Chunks f)) ≤ MaximumChunks)%Z ∧ (0 ≤ FileSize f ≤ MaximumSnapshotBytes)%Z.

Lemma write_file_code : prefix_code file_bounded write_file.
Proof.
  intros [pa ma sa ca] [pb mb sb cb] x y ((Hpa & Hma & Hca & _) & Hla & Hsa) ((Hpb & Hmb & Hcb & _) & Hlb & Hsb).
  unfold write_file. cbn [Path Mode FileSize Chunks] in *. rewrite <-!app_assoc.
  apply validate_portable in Hpa as (Hna & _), Hpb as (Hnb & _).
  unfold MaximumBytes, MaximumChunks, MaximumSnapshotBytes in *.
  intros [Elen E]%number_app_inj; [|change (256 ^ Z.of_nat 4)%Z with (2 ^ 32)%Z; lia..].
  apply app_inj_1 in E as [Ep E]; [|rewrite !length_bytes_of; lia].
  apply (f_equal str_of) in Ep. rewrite !str_of_bytes_of in Ep. subst pb.
  apply number_app_inj in E as [-> E]; [|change (256 ^ Z.of_nat 4)%Z with (2 ^ 32)%Z; lia..].
  apply number_app_inj in E as [-> E]; [|change (256 ^ Z.of_nat 8)%Z with (2 ^ 64)%Z; lia..].
  apply number_app_inj in E as [Hlen E]; [|change (256 ^ Z.of_nat 4)%Z with (2 ^ 32)%Z; lia..].
  apply (prefix_code_list chunk_ok) in E as [-> ->]; [done|apply write_chunk_code|done|done|lia].
Qed.

Lemma sum_z_elem l x : Forall (λ z, (0 ≤ z)%Z) l → x ∈ l → (x ≤ sum_z l)%Z.
Proof.
  unfold sum_z. induction 1 as [|y l Hy Hl IH]; [by intros ?%elem_of_nil|].
  assert (0 ≤ foldr Z.add 0 l)%Z as Hs by (clear -Hl; induction Hl; simpl; lia).
  intros [->|Hin]%elem_of_cons; simpl; [lia|]. specialize (IH Hin). lia.
Qed.

Lemma checked_bounded files v : checked files v → Forall file_bounded files.
Proof.
  intros [Hf _ [Ht Htb] [Hc Hcb] _ _]. apply Forall_forall. intros f Hin.
  assert (∀ g, g ∈ files → (0 ≤ FileSize g)%Z) as Hpos.
  { intros g Hg. eapply Forall_forall in Hf as (_ & _ & Hch & ->); [|exact Hg]. clear -Hch.
    induction Hch as [|c l [_ Hs] Hl IH]; [done|]. unfold sum_z in *. simpl. lia. }
  split_and!; [by eapply Forall_forall in Hf| |by apply Hpos|].
  - etrans; [|apply Hcb]. rewrite Hc. apply sum_z_elem.
    + apply Forall_forall. intros z (g & -> & _)%list_elem_of_fmap. lia.
    + apply list_elem_of_fmap. by exists f.
  - etrans; [|apply Htb]. rewrite Ht. apply sum_z_elem.
    + apply Forall_forall. intros z (g & -> & Hg)%list_elem_of_fmap. by apply Hpos.
    + apply list_elem_of_fmap. by exists f.
Qed.

End Injective.

(** The canonical encoding is injective: two manifests with the same canonical
    bytes are the same manifest, so a manifest's identity (the SHA-256 digest of
    those bytes) is ambiguous only if the hash collides. *)
Theorem canonical_injective (U : UnicodeCase) (L : UnicodeCaseLaws) (m1 m2 : Manifest) (b : bytes) :
  typed m1 → typed m2 → CanonicalBytes m1 = Ok b → CanonicalBytes m2 = Ok b → m1 = m2.
Proof.
  intros T1 T2. unfold CanonicalBytes.
  intros ([] & V1 & (? & _ & B1)%result_bind_ok)%result_bind_ok.
  intros ([] & V2 & (? & _ & B2)%result_bind_ok)%result_bind_ok.
  assert (writeCanonical m1 = writeCanonical m2) as E by congruence. clear B1 B2.
  apply manifest_checked in V1 as (Hv1 & Hn1 & v1 & C1 & E1), V2 as (Hv2 & Hn2 & v2 & C2 & E2); [|done..].
  pose proof (checked_bounded _ _ C1) as B1. pose proof (checked_bounded _ _ C2) as B2.
  destruct C1 as [_ _ [_ Hb1] _ _ _], C2 as [_ _ [_ Hb2] _ _ _]. rewrite E1 in Hb1. rewrite E2 in Hb2.
  destruct m1 as [version1 files1 total1], m2 as [version2 files2 total2].
  cbn [Version Files TotalBytes] in *. subst version1 version2. unfold writeCanonical in E. cbn [Version Files TotalBytes] in E.
  unfold MaximumFiles, MaximumSnapshotBytes in *. apply app_inv_head in E.
  apply number_app_inj in E as [Hlen E]; [|change (256 ^ Z.of_nat 4)%Z with (2 ^ 32)%Z; lia..].
  apply (prefix_code_list file_bounded) in E as [-> E]; [|apply write_file_code|done|done|lia].
  apply big_endian_inj in E as ->; [done|change (256 ^ Z.of_nat 8)%Z with (2 ^ 64)%Z; lia..].
Qed.

(** ** Building a file *)

(** What the builder relies on: a stored chunk can be found from then on.  The content
    store gives this while its caller has begun a use, as the callers of the builder do
    ([begun_laws] of Retention.v). *)
Class ChunkStoreLaws (St : Type) `{ChunkStore St} := {
  holds : St → string → bytes → Prop;
  put_holds : ∀ st digest contents st', put st digest contents = (st', Ok tt) → holds st' digest contents;
  put_keeps : ∀ st digest contents st' r d c, put st digest contents = (st', r) → holds st d c → holds st' d c
}.

(** The chunk that describes [contents]. *)
Definition chunk_of (sha256 : bytes → bytes) (contents : bytes) : Chunk :=
  MkChunk (Sum sha256 contents) (Z.of_nat (length contents)).

Section BuildLemmas.
Context `{UnicodeCase} `{ChunkStoreLaws St} (sha256 : bytes → bytes).

Lemma store_chunks_ok chunks store acc store' acc' :
  Forall (λ c, (0 < Z.of_nat (length c) ≤ MaximumChunkBytes)%Z) chunks →
  consume_all (store_chunk sha256) chunks (store, acc) = ((store', acc'), Ok tt) →
  acc' = acc ++ map (chunk_of sha256) chunks ∧
  (∀ d c, holds store d c → holds store' d c) ∧ Forall (λ c, holds store' (Sum sha256 c) c) chunks.
Proof.
  intros Hall. revert store acc. induction Hall as [|c chunks Hc Hall IH]; intros store acc; simpl.
  { intros [= <- <-]. rewrite app_nil_r. by split_and!. }
  unfold store_chunk at 1. cbn [fst snd]. destruct (put store (Sum sha256 c) c) as [store1 [[]|e]] eqn:Ep; [|done].
  intros (E & Hk & Hh)%IH. rewrite Z.mod_small in E by (unfold MaximumChunkBytes in *; lia).
  split_and!.
  - rewrite E, <-app_assoc. done.
  - intros d c' Hd. apply Hk. by eapply put_keeps.
  - constructor; [|done]. apply Hk. by eapply put_holds.
Qed.

Lemma sum_sizes_exact contents :
  (Z.of_nat (length (concat contents)) < 2 ^ 63)%Z →
  sum_sizes (map (chunk_of sha256) contents) = Z.of_nat (length (concat contents)) ∧
  sum_z (map Size (map (chunk_of sha256) contents)) = Z.of_nat (length (concat contents)).
Proof.
  intros Hlt. split.
  - unfold sum_sizes.
    assert (∀ total, (0 ≤ total)%Z → (total + Z.of_nat (length (concat contents)) < 2 ^ 63)%Z →
      fold_left (λ t c, wrap_int64 (t + Size c)) (map (chunk_of sha256) contents) total
      = (total + Z.of_nat (length (concat contents)))%Z) as Hgen; [|rewrite Hgen; lia].
    clear Hlt. induction contents as [|c contents IH]; intros total Ht Hs; simpl in *; [lia|].
    rewrite length_app in *. rewrite wrap_int64_id by (unfold int64_range; lia). rewrite IH; lia.
  - clear Hlt. induction contents as [|c contents IH]; [done|]. simpl. rewrite length_app. unfold sum_z in *. simpl in *. lia.
Qed.

Lemma lower_hex_digit : ∀ c,
  (val (hex_digit (val c / 16)) < 128)%Z ∧ (val (hex_digit (val c `mod` 16)) < 128)%Z ∧
  byte_of (ascii_lower (val (hex_digit (val c / 16)))) = hex_digit (val c / 16) ∧
  byte_of (ascii_lower (val (hex_digit (val c `mod` 16)))) = hex_digit (val c `mod` 16).
Proof. all_bytes; by split_and!. Qed.

Lemma sum_valid contents : length (sha256 contents) = DigestBytes → Digest_Valid (Sum sha256 contents) = true.
Proof.
  intros Hl. unfold Digest_Valid, ParseDigest, Sum.
  rewrite length_str_of, length_hex_encode, bytes_of_str_of, hex_decode_encode, Hl.
  rewrite (bool_decide_eq_true_2 (to_lower _ = _)); [done|].
  rewrite to_lower_bytes, bytes_of_str_of. f_equal. generalize (sha256 contents). intros d. clear Hl.
  induction d as [|c d IH]; [done|]. destruct (lower_hex_digit c) as (Q1 & Q2 & Q3 & Q4).
  unfold hex_encode. cbn [map concat hex_byte app]. fold (hex_encode d).
  rewrite !lower_ascii by done. by rewrite Q3, Q4, IH.
Qed.

(** [file] describes [content], and [store] holds every chunk it refers to. *)
Definition describes (relative : string) (content : bytes) (file : File) (store : St) : Prop :=
  Path file = relative ∧ (Mode file = 420%Z ∨ Mode file = 493%Z) ∧ FileSize file = Z.of_nat (length content) ∧
  Chunks file = map (chunk_of sha256) (split_chunks content) ∧
  Forall (λ c, holds store (Sum sha256 c) c) (split_chunks content).

Lemma build_file_ok run relative content store store' file :
  delivers 0 (run_reads run) content → (Z.of_nat (length content) < 2 ^ 63)%Z →
  buildFile sha256 run relative store = (store', Some (Ok file)) →
  PortablePath.Validate relative = Ok tt ∧ describes relative content file store'.
Proof.
  intros Hd Hlen Hb. unfold buildFile, ValidatePath in Hb.
  destruct (PortablePath.Validate relative) as [[]|]; [|done]. split; [done|].
  destruct (run_open run); [|done]. destruct (run_before run) as [before|]; [|done].
  destruct (stat_regular before); [|done]. simpl in Hb.
  unfold ChunkReader in Hb. rewrite (chunk_loop_cut _ 0 _ content) in Hb by done.
  assert (∀ fin tail hash, cut content [] 0 = (fin, tail, hash) →
    fin ++ (if bool_decide (tail = []) then [] else [tail]) = split_chunks content) as Hsplit.
  { intros fin tail hash E. unfold split_chunks. by rewrite E. }
  destruct (cut content [] 0) as [[fin tail] hash] eqn:Ec. rewrite (Hsplit _ _ _ eq_refl) in Hb.
  destruct (consume_all _ _ _) as [[store1 chunks] [[]|e]] eqn:Eall; [|done].
  apply store_chunks_ok in Eall as (Echunks & _ & Hholds); [|apply split_chunks_sizes]. simpl in Echunks. subst chunks.
  destruct (run_after run) as [after|]; [|done]. destruct (_ || _) eqn:E; [done|]. injection Hb as <- <-. reflect_bools.
  pose proof (split_chunks_concat content) as Hcat.
  destruct (sum_sizes_exact (split_chunks content)) as [Hsum _]; [by rewrite Hcat|]. rewrite Hcat in Hsum.
  split_and!; try done; simpl; [|lia]. destruct (negb _); auto.
Qed.

Lemma stable_loop_ok attempts contents relative store last store' file :
  Forall2 (λ attempt content, delivers 0 (run_reads attempt.1) content ∧ (Z.of_nat (length content) < 2 ^ 63)%Z)
    attempts contents → (∀ f, last ≠ Ok f) →
  stable_loop sha256 attempts relative store last = (store', Some (Ok file)) →
  PortablePath.Validate relative = Ok tt ∧ ∃ content, content ∈ contents ∧ describes relative content file store'.
Proof.
  intros Hall. revert store last. induction Hall as [|[run ctx] content attempts contents [Hd Hlen] Hall IH];
    intros store last Hlast; simpl; [intros [= _ ->]; by destruct (Hlast file)|].
  destruct (buildFile sha256 run relative store) as [store1 [[f|e]|]] eqn:Eb; [| |done].
  - intros [= <- <-]. eapply build_file_ok in Eb as [? ?]; [|done..]. split; [done|]. exists content. set_solver.
  - destruct (negb _); [done|]. destruct ctx; [done|]. intros (? & c & ? & ?)%IH; [|done]. split; [done|]. exists c. set_solver.
Qed.

End BuildLemmas.

Lemma stable_file_exact (U : UnicodeCase) (L : UnicodeCaseLaws) (St : Type) (S : ChunkStore St)
    (SL : ChunkStoreLaws St) (sha256 : bytes → bytes) (attempt : nat → FileRun * option (list sentinel))
    (content : nat → bytes) (relative : string) (store store' : St) (file : File) :
  (∀ c, length (sha256 c) = DigestBytes) →
  (∀ i, delivers 0 (run_reads (attempt i).1) (content i) ∧ (Z.of_nat (length (content i)) < 2 ^ 63)%Z) →
  buildStableFile sha256 attempt relative store = (store', Some (Ok file)) →
  file_ok file ∧ ∃ i, i < maximumStableFileAttempts ∧ describes sha256 relative (content i) file store'.
Proof.
  intros Hsha Hall Hb. unfold buildStableFile in Hb.
  apply (stable_loop_ok sha256 _ (map content (seq 0 maximumStableFileAttempts))) in Hb as (Hp & c & Hin & Hdesc);
    [|by apply Forall2_fmap, Forall_Forall2_diag, Forall_forall|done].
  apply list_elem_of_fmap in Hin as (i & -> & Hi%elem_of_seq).
  split; [|exists i; split; [lia|done]]. destruct Hdesc as (Hpath & Hmode & Hsize & Hch & _).
  pose proof (split_chunks_concat (content i)) as Hcat.
  split_and!; [by rewrite Hpath|done| |].
  - rewrite Hch. apply Forall_map. apply (Forall_impl _ _ _ (proj1 (split_chunks_sizes (content i)))).
    intros c' Hc'. split; [by apply sum_valid|done].
  - rewrite Hch, Hsize. destruct (sum_sizes_exact sha256 (split_chunks (content i))) as [_ ->]; [|by rewrite Hcat].
    rewrite Hcat. apply Hall.
Qed.

(** A file of a snapshot is exactly a content the file had.  If each of the
    three attempts of [buildStableFile] reads some content, a file it returns has a
    portable path and describes one of these contents: its size is the content's
    length, its chunks are the digests and sizes of the content's chunks in order,
    every one of them is valid and held by the store, and so the file passes the
    checks of [Manifest.Validate]. *)
Theorem build_file_exact (U : UnicodeCase) (L : UnicodeCaseLaws) (St : Type) (S : ChunkStore St)
    (SL : ChunkStoreLaws St) (sha256 : bytes → bytes) (attempt : nat → FileRun * option (list sentinel))
    (content : nat → bytes) (relative : string) (store store' : St) (file : File) :
  (∀ c, length (sha256 c) = DigestBytes) →
  (∀ i, delivers 0 (run_reads (attempt i).1) (content i) ∧ (Z.of_nat (length (content i)) < 2 ^ 63)%Z) →
  buildStableFile sha256 attempt relative store = (store', Some (Ok file)) →
  file_ok file ∧ ∃ i, i < maximumStableFileAttempts ∧ describes sha256 relative (content i) file store'.
Proof. by apply (stable_file_exact U L St S SL). Qed.

(** ** Concrete inputs *)

(** A store that keeps everything, and a constant digest. *)
#[local] Instance list_store : ChunkStore (list (string * bytes)) :=
  λ st digest contents, (st ++ [(digest, contents)], Ok tt).

#[local] Instance list_store_laws : ChunkStoreLaws (list (string * bytes)).
Proof.
  refine {| holds := λ st d c, (d, c) ∈ st |}.
  - intros st d c st' [= <-]. set_solver.
  - intros st d c st' r d' c' [= <- _] Hin. set_solver.
Defined.

Definition sample_sha256 (contents : bytes) : bytes := replicate 32 Ascii.zero.
Definition sample_stat : stat := MkStat true 420 3 7.
Definition sample_attempt (i : nat) : FileRun * option (list sentinel) :=
  (MkFileRun (Ok tt) (Ok sample_stat) sample_reads (Ok sample_stat), None).
Definition sample_file : File :=
  MkFile "src/a.txt" 420 3 [MkChunk (str_of (replicate 64 "0"%char)) 3].

Lemma build_file_exact_witness :
  buildStableFile (H := ascii_case) sample_sha256 sample_attempt "src/a.txt" []
    = ([(str_of (replicate 64 "0"%char), bytes_of "abc")], Some (Ok sample_file)) ∧
  @file_ok ascii_case sample_file.
Proof.
  assert (buildStableFile (H := ascii_case) sample_sha256 sample_attempt "src/a.txt" []
    = ([(str_of (replicate 64 "0"%char), bytes_of "abc")], Some (Ok sample_file))) as E by (vm_compute; reflexivity).
  split; [exact E|].
  refine (proj1 (build_file_exact ascii_case ascii_case_laws _ list_store list_store_laws sample_sha256 sample_attempt
    (λ _, bytes_of "abc") "src/a.txt" [] _ sample_file _ _ E)).
  - intros c. reflexivity.
  - intros i. split; [exact sample_delivers|reflexivity].
Defined.

Definition sample_manifest : Manifest := MkManifest 1 [sample_file] 3.

Lemma sample_typed : typed sample_manifest.
Proof.
  split; [split; [discriminate|reflexivity]|]. repeat constructor; simpl; try discriminate; reflexivity.
Qed.

Lemma manifest_valid_sound_witness : @file_ok ascii_case sample_file ∧ TotalBytes sample_manifest = 3%Z.
Proof.
  destruct (manifest_valid_sound ascii_case ascii_case_laws sample_manifest sample_typed) as (_ & _ & Hf & _ & _ & _ & Ht & _).
  - vm_compute. reflexivity.
  - apply Forall_cons in Hf as [Hf _]. split; [exact Hf|exact Ht].
Defined.

Lemma canonical_injective_witness :
  ∃ b, CanonicalBytes (H := ascii_case) sample_manifest = Ok b ∧ sample_manifest = MkManifest 1 [sample_file] 3.
Proof.
  destruct (CanonicalBytes (H := ascii_case) sample_manifest) as [b|e] eqn:E; [|vm_compute in E; discriminate E].
  exists b. split; [reflexivity|].
  exact (canonical_injective ascii_case ascii_case_laws _ _ b sample_typed sample_typed E E).
Defined.

(** Two files whose paths conflict on a file system that ignores case: the name of
    the second, up to case, is a directory of the first. *)
Definition conflicting_manifest : Manifest := MkManifest 1 [MkFile "B/x" 420 0 []; MkFile "b" 420 0 []] 0.

(** The test of [Manifest.Validate] for a file that is also a parent directory
    misses a conflict that exists only up to case when the file sorts after its
    directory: it looks for the parents of each path among the files before it, and
    upper case sorts before lower case. *)
Theorem case_conflict_accepted :
  Manifest_Validate (H := ascii_case) conflicting_manifest = Ok tt ∧
  (let U := ascii_case in Key "B/x" = Key "b" +:+ "/" +:+ "x")%string.
Proof. split; vm_compute; reflexivity. Qed.
