(* ===== verification/Transfer.v ===== *)
(** * Encoding of chunks on the wire (internal/transfer/chunk.go)

    The zstd library is the class [Zstd]: its encoder, its decoder (configured
    with the memory limit of a chunk) and the error of constructing them, if any. *)

From S2P Require Import Prelude GoText Snapshot.
From Stdlib Require Import Ascii.
Local Open Scope string_scope.
Local Open Scope nat_scope.
Local Open Scope list_scope.

(** [ChunkEncoding] is a [uint8]; these values are known. *)
Definition EncodingIdentity : Z := 1.
Definition EncodingZstd : Z := 2.
Definition MaximumEncodedChunkBytes : Z := (MaximumChunkBytes + 65536)%Z.
Definition minimumCompressionSavings : Z := 64.

Record WireChunk := MkWireChunk { Encoding : Z; Data : bytes; UncompressedSize : Z }.

Definition SupportedChunkEncodings : list Z := [EncodingZstd; EncodingIdentity].

Class Zstd := {
  codec_error : option (list sentinel);
  EncodeAll : bytes → bytes;
  DecodeAll : bytes → option bytes
}.

(** The loop of [acceptedEncodings]. *)
Fixpoint accepted_loop (values : list Z) (identity zstandard : bool) : result (bool * bool) :=
  match values with
  | [] => Ok (identity, zstandard)
  | value :: rest =>
      if (value =? EncodingIdentity)%Z then
        if identity then Err [TransferErrUnsupportedEncoding] else accepted_loop rest true zstandard
      else if (value =? EncodingZstd)%Z then
        if zstandard then Err [TransferErrUnsupportedEncoding] else accepted_loop rest identity true
      else Err [TransferErrUnsupportedEncoding]
  end.

Definition acceptedEncodings (values : list Z) : result (bool * bool) :=
  if bool_decide (length values = 0) || bool_decide (2 < length values) then Err [TransferErrUnsupportedEncoding]
  else accepted_loop values false false.

Section Codec.
Context `{Zstd}.

(** What is left when compression is not used. *)
Definition encode_identity (contents : bytes) (identity : bool) : result WireChunk :=
  if identity then Ok (MkWireChunk EncodingIdentity contents (Z.of_nat (length contents) `mod` 2 ^ 32))
  else Err [TransferErrUnsupportedEncoding].

Definition EncodeChunk (contents : bytes) (accepted : list Z) : result WireChunk :=
  if bool_decide (length contents = 0) || (MaximumChunkBytes <? Z.of_nat (length contents))%Z
  then Err [TransferErrInvalidChunk]
  else
    encodings ← acceptedEncodings accepted;
    let '(identity, zstandard) := encodings in
    if zstandard : bool then
      match codec_error with
      | Some e => Err e
      | None =>
          let compressed := EncodeAll contents in
          if bool_decide (0 < length compressed)
             && (Z.of_nat (length compressed) <=? MaximumEncodedChunkBytes)%Z
             && (negb identity
                 || (Z.of_nat (length compressed) + minimumCompressionSavings <=? Z.of_nat (length contents))%Z)
          then Ok (MkWireChunk EncodingZstd compressed (Z.of_nat (length contents) `mod` 2 ^ 32))
          else encode_identity contents identity
      end
    else encode_identity contents identity.

Definition DecodeChunk (chunk : WireChunk) : result bytes :=
  if (UncompressedSize chunk =? 0)%Z || (MaximumChunkBytes <? UncompressedSize chunk)%Z
     || bool_decide (length (Data chunk) = 0) || (MaximumEncodedChunkBytes <? Z.of_nat (length (Data chunk)))%Z
  then Err [TransferErrInvalidChunk]
  else if (Encoding chunk =? EncodingIdentity)%Z then
    if negb (Z.of_nat (length (Data chunk)) =? UncompressedSize chunk)%Z then Err [TransferErrInvalidChunk]
    else Ok (Data chunk)
  else if (Encoding chunk =? EncodingZstd)%Z then
    match codec_error with
    | Some e => Err e
    | None =>
        match DecodeAll (Data chunk) with
        | Some decoded =>
            if negb (Z.of_nat (length decoded) =? UncompressedSize chunk)%Z then Err [TransferErrInvalidChunk]
            else Ok decoded
        | None => Err [TransferErrInvalidChunk]
        end
    end
  else Err [TransferErrUnsupportedEncoding].

End Codec.

(** Documented of the library: decoding inverts encoding. *)
Class ZstdLaws `{Zstd} := decode_encode : ∀ contents,
  (Z.of_nat (length contents) ≤ MaximumChunkBytes)%Z → DecodeAll (EncodeAll contents) = Some contents.

(** ** Lemmas *)

Lemma accepted_loop_ok values i z i' z' :
  accepted_loop values i z = Ok (i', z') →
  (i' = true ↔ i = true ∨ EncodingIdentity ∈ values) ∧ (z' = true ↔ z = true ∨ EncodingZstd ∈ values).
Proof.
  revert i z. induction values as [|v values IH]; intros i z; simpl.
  { intros [= <- <-]. split; rewrite elem_of_nil; tauto. }
  destruct (v =? EncodingIdentity)%Z eqn:Ei; reflect_bools.
  - destruct i; [done|]. intros [Hi Hz]%IH. subst v. rewrite Hi, Hz, !elem_of_cons. unfold EncodingIdentity, EncodingZstd. naive_solver.
  - destruct (v =? EncodingZstd)%Z eqn:Ez; [|done]. reflect_bools. destruct z; [done|]. intros [Hi Hz]%IH. subst v.
    rewrite Hi, Hz, !elem_of_cons. unfold EncodingIdentity, EncodingZstd. naive_solver.
Qed.

Lemma decode_bounded `{Zstd} chunk decoded :
  DecodeChunk chunk = Ok decoded →
  Z.of_nat (length decoded) = UncompressedSize chunk ∧ (0 < Z.of_nat (length decoded) ≤ MaximumChunkBytes)%Z.
Proof.
  unfold DecodeChunk. destruct (_ || _) eqn:E; [done|]. reflect_bools.
  destruct (Encoding chunk =? EncodingIdentity)%Z.
  - destruct (negb _) eqn:El; [done|]. intros [= <-]. reflect_bools. lia.
  - destruct (Encoding chunk =? EncodingZstd)%Z; [|done]. destruct codec_error; [done|].
    destruct (DecodeAll _) as [d|]; [|done]. destruct (negb _) eqn:El; [done|]. intros [= <-]. reflect_bools. lia.
Qed.

Lemma encode_identity_ok `{Zstd} contents identity (accepted : list Z) chunk :
  length contents ≠ 0 → (Z.of_nat (length contents) ≤ MaximumChunkBytes)%Z →
  (identity = true → EncodingIdentity ∈ accepted) → encode_identity contents identity = Ok chunk →
  Encoding chunk ∈ accepted ∧ (0 < Z.of_nat (length (Data chunk)) ≤ MaximumEncodedChunkBytes)%Z ∧
  DecodeChunk chunk = Ok contents.
Proof.
  intros Hne Hle Hacc. unfold encode_identity. destruct identity; [|done]. intros [= <-]. simpl.
  unfold MaximumEncodedChunkBytes, MaximumChunkBytes in *. split_and!; [auto|lia|lia|].
  unfold DecodeChunk, MaximumEncodedChunkBytes, MaximumChunkBytes. cbn [UncompressedSize Data Encoding].
  rewrite Z.mod_small by lia. rewrite (proj2 (Z.eqb_neq _ 0)), bool_decide_false by lia.
  rewrite !(proj2 (Z.ltb_ge _ _)) by lia. simpl. by rewrite Z.eqb_refl.
Qed.

Lemma encode_sound `{ZstdLaws} contents accepted chunk : EncodeChunk contents accepted = Ok chunk →
  Encoding chunk ∈ accepted ∧ (0 < Z.of_nat (length (Data chunk)) ≤ MaximumEncodedChunkBytes)%Z ∧ DecodeChunk chunk = Ok contents.
Proof.
  unfold EncodeChunk. destruct (_ || _) eqn:E; [done|]. reflect_bools.
  intros ([i z] & Hacc & He)%result_bind_ok. unfold acceptedEncodings in Hacc. destruct (_ || _); [done|].
  apply accepted_loop_ok in Hacc as [Hi Hz].
  assert (i = true → EncodingIdentity ∈ accepted) as Hi' by (intros ?; by destruct (proj1 Hi) as [?|?]).
  destruct z; [|by apply encode_identity_ok with i]. destruct codec_error eqn:Ec; [done|].
  destruct (_ && _) eqn:Ew; [|by apply encode_identity_ok with i]. injection He as <-. reflect_bools. simpl.
  split_and!; [by destruct (proj1 Hz eq_refl)|lia|lia|].
  unfold DecodeChunk. cbn [UncompressedSize Data Encoding]. unfold MaximumChunkBytes in *. rewrite Z.mod_small by lia.
  rewrite (proj2 (Z.eqb_neq _ 0)), bool_decide_false by lia. rewrite !(proj2 (Z.ltb_ge _ _)) by (unfold MaximumChunkBytes; lia).
  simpl. rewrite Ec, decode_encode by (unfold MaximumChunkBytes; lia). by rewrite Z.eqb_refl.
Qed.

Lemma encode_total `{Zstd} contents accepted : codec_error = None →
  accepted ∈ [[EncodingIdentity]; SupportedChunkEncodings; reverse SupportedChunkEncodings] →
  (0 < Z.of_nat (length contents) ≤ MaximumChunkBytes)%Z → ∃ chunk, EncodeChunk contents accepted = Ok chunk.
Proof.
  intros Hc Hin [Hlo Hhi]. unfold EncodeChunk. rewrite bool_decide_false, (proj2 (Z.ltb_ge _ _)) by lia. simpl.
  rewrite Hc. rewrite !elem_of_cons, elem_of_nil in Hin.
  destruct Hin as [->|[->|[->|[]]]]; simpl; eauto; destruct (_ && _); eauto.
Qed.

(** Chunks survive the wire.  Whatever encodings a peer accepts, a chunk that
    [EncodeChunk] produces is in one of them, respects the size limit of the wire
    and decodes to the contents; with identity among two distinct known encodings
    and a working codec, contents of 1 byte to 512 KiB are always encoded. *)
Theorem chunk_transfer_roundtrip (Z0 : Zstd) (ZL : ZstdLaws) (contents : bytes) (accepted : list Z) :
  (∀ chunk, EncodeChunk contents accepted = Ok chunk →
     Encoding chunk ∈ accepted ∧ (0 < Z.of_nat (length (Data chunk)) ≤ MaximumEncodedChunkBytes)%Z ∧
     DecodeChunk chunk = Ok contents) ∧
  (codec_error = None → accepted ∈ [[EncodingIdentity]; SupportedChunkEncodings; reverse SupportedChunkEncodings] →
   (0 < Z.of_nat (length contents) ≤ MaximumChunkBytes)%Z → ∃ chunk, EncodeChunk contents accepted = Ok chunk).
Proof. split; [intros chunk; apply encode_sound|apply encode_total]. Qed.

(** A codec for evaluation: it marks its output. *)
Definition marking_zstd : Zstd :=
  {| codec_error := None; EncodeAll := λ l, Ascii.zero :: l; DecodeAll := λ l, match l with _ :: l => Some l | [] => None end |}.

Lemma marking_laws : @ZstdLaws marking_zstd.
Proof. done. Qed.

Lemma chunk_transfer_roundtrip_witness :
  @DecodeChunk marking_zstd (MkWireChunk EncodingZstd (Ascii.zero :: bytes_of "abc") 3) = Ok (bytes_of "abc").
Proof.
  apply (proj1 (chunk_transfer_roundtrip marking_zstd marking_laws (bytes_of "abc") [EncodingZstd])).
  vm_compute. reflexivity.
Defined.
