(* ===== verification/ContentCache.v ===== *)
(** * The content cache (internal/contentcache/cache.go,
    internal/infra/sqlite/content_cache_repository.go, internal/infra/cas/managed.go
    and store.go)

    A quota-managed store of verified chunks: files named by their digest, an
    index of sizes and access times in SQLite, and pins in memory that keep chunks
    in use.  The state [Vault] has the three; a section under the store's lock is
    one access, between which other threads and processes may act.  A file's
    directory, permissions and temporary files are not modelled. *)

From S2P Require Import Prelude GoText PortablePath Effects Snapshot.
From Stdlib Require Import Ascii.
Local Open Scope string_scope.
Local Open Scope nat_scope.
Local Open Scope list_scope.

(** ** Entries and statistics *)

Definition MinimumMaximumBytes : Z := (2 ^ 20)%Z.
Definition MaximumMaximumBytes : Z := (100 * 2 ^ 40)%Z.

Record Entry := MkEntry { EntryDigest : string; EntrySize : Z; LastAccessed : Z }.
Record Stats := MkStats { Entries : Z; Bytes : Z; ProtectedEntries : Z; ProtectedBytes : Z }.

(** The type [QuotaError] with its fields; [Unwrap] gives [ErrQuotaExceeded]. *)
Definition QuotaError (maximum current pinned : Z) : list sentinel :=
  [CacheQuotaError maximum current pinned; CacheErrQuotaExceeded].

Section Domain.
Context `{UnicodeCase}.

Definition Entry_Validate (entry : Entry) : result unit :=
  reject_if (negb (Digest_Valid (EntryDigest entry)) || (EntrySize entry <=? 0)%Z
    || (MaximumChunkBytes <? EntrySize entry)%Z || is_zero_time (LastAccessed entry)) [CacheErrInvalidEntry].

Definition Stats_Validate (stats : Stats) : result unit :=
  reject_if ((Entries stats <? 0) || (Bytes stats <? 0) || (ProtectedEntries stats <? 0) || (ProtectedBytes stats <? 0)
    || (Entries stats <? ProtectedEntries stats) || (Bytes stats <? ProtectedBytes stats))%Z [CacheErrInvalidEntry].

Definition ValidateMaximumBytes (value : Z) : result unit :=
  reject_if ((value <? MinimumMaximumBytes) || (MaximumMaximumBytes <? value))%Z [CacheErrInvalidQuota].

End Domain.

(** ** The index *)

Record CacheRow := MkCacheRow { cr_size : Z; cr_accessed : Z }.

(** A row of job_artifacts (006, 007). *)
Record ArtifactRow := MkArtifactRow {
  art_manifest_id : string; art_manifest : Manifest; art_total_bytes : Z;
  art_collected_ns : Z; art_retrieved_ns : option Z
}.

(** The tables the repository reads: its own, the references of artifacts to
    chunks as pairs of job and digest, the artifacts of each job and the state of
    each job. *)
Record CacheDB := MkCacheDB {
  cache_entries : gmap string CacheRow;
  artifact_refs : gset (string * string);
  artifact_rows : gmap string ArtifactRow;
  job_states : gmap string string
}.

Definition set_entries (entries : gmap string CacheRow) (d : CacheDB) : CacheDB :=
  MkCacheDB entries (artifact_refs d) (artifact_rows d) (job_states d).

(** The CHECK constraints of content_cache_entries. *)
Definition row_checks (digest : string) (row : CacheRow) : bool :=
  bool_decide (String.length digest = 64) && ((1 <=? cr_size row) && (cr_size row <=? 524288) && (0 <? cr_accessed row))%Z.

Definition active_job (d : CacheDB) : bool :=
  existsb (λ kv, bool_decide (kv.2 ∈ ["starting"; "running"; "collecting"])) (map_to_list (job_states d)).

Definition referenced (d : CacheDB) (digest : string) : bool :=
  existsb (λ r, bool_decide (r.2 = digest) && bool_decide (art_retrieved_ns <$> artifact_rows d !! r.1 = Some None))
    (elements (artifact_refs d)).

Definition protected (d : CacheDB) (digest : string) : bool := active_job d || referenced d digest.

Definition sum_size (rows : list (string * CacheRow)) : Z := foldr (λ kv acc, cr_size kv.2 + acc)%Z 0%Z rows.

(** ORDER BY last_accessed_ns ASC, digest ASC. *)
Definition lru_first (a b : string * CacheRow) : Prop :=
  (cr_accessed a.2 < cr_accessed b.2)%Z ∨ cr_accessed a.2 = cr_accessed b.2 ∧ str_leb a.1 b.1 = true.
#[global] Instance lru_first_dec : RelDecision lru_first.
Proof. intros a b. unfold lru_first. apply _. Defined.

Section Repository.
Context `{UnicodeCase}.

Definition upsert (digest : string) (row : CacheRow) : Tx CacheDB unit :=
  _ ← constraint (row_checks digest row);
  d ← tx_read;
  tx_write (set_entries (<[digest := row]> (cache_entries d)) d).

Definition Cache_Record (entry : Entry) : Tx CacheDB unit :=
  _ ← tx_lift (Entry_Validate entry);
  upsert (EntryDigest entry) (MkCacheRow (EntrySize entry) (unix_nano (LastAccessed entry))).

Definition delete_entry (digest : string) : Tx CacheDB unit :=
  d ← tx_read; tx_write (set_entries (delete digest (cache_entries d)) d).

Definition Cache_Delete (digest : string) : Tx CacheDB unit :=
  _ ← tx_lift (reject_if (negb (Digest_Valid digest)) [SnapshotErrInvalidDigest]);
  delete_entry digest.

(** The checks of [Reconcile] on its argument; [seen] are the keys of byDigest. *)
Fixpoint check_observed (observed : list Entry) (seen : gset string) : result unit :=
  match observed with
  | [] => Ok tt
  | entry :: rest =>
      _ ← Entry_Validate entry;
      _ ← reject_if (bool_decide (EntryDigest entry ∈ seen)) [CacheErrInvalidEntry];
      check_observed rest ({[EntryDigest entry]} ∪ seen)
  end.

(** ON CONFLICT DO UPDATE SET size_bytes: an indexed entry keeps its access time. *)
Fixpoint adopt (observed : list Entry) : Tx CacheDB unit :=
  match observed with
  | [] => mret tt
  | entry :: rest =>
      d ← tx_read;
      let inserted := MkCacheRow (EntrySize entry) (unix_nano (LastAccessed entry)) in
      _ ← constraint (row_checks (EntryDigest entry) inserted);
      _ ← upsert (EntryDigest entry) (MkCacheRow (EntrySize entry)
            (match cache_entries d !! EntryDigest entry with
             | Some row => cr_accessed row | None => cr_accessed inserted end));
      adopt rest
  end.

Definition Cache_Reconcile (observed : list Entry) : Tx CacheDB unit :=
  _ ← tx_lift (check_observed observed ∅);
  d ← tx_read;
  _ ← tx_lift (reject_if (negb (forallb (λ kv, Digest_Valid kv.1) (map_to_list (cache_entries d)))) [CacheErrInvalidEntry]);
  _ ← tx_write (set_entries (filter (λ kv, kv.1 ∈ map EntryDigest observed) (cache_entries d)) d);
  adopt observed.

Definition Cache_Stats : Tx CacheDB Stats :=
  d ← tx_read;
  let rows := map_to_list (cache_entries d) in
  let held := filter (λ kv, protected d kv.1 = true) rows in
  let result := MkStats (Z.of_nat (length rows)) (sum_size rows) (Z.of_nat (length held)) (sum_size held) in
  _ ← tx_lift (Stats_Validate result);
  mret result.

Fixpoint scan_candidates (rows : list (string * CacheRow)) : result (list Entry) :=
  match rows with
  | [] => Ok []
  | (encoded, row) :: rest =>
      digest ← (match ParseDigest encoded with Ok digest => Ok digest | Err _ => Err [CacheErrInvalidEntry] end);
      let entry := MkEntry digest (cr_size row) (from_unix_nano (cr_accessed row)) in
      _ ← Entry_Validate entry;
      entries ← scan_candidates rest;
      Ok (entry :: entries)
  end.

(** [sort.SliceIsSorted]: no element is less than the one before it. *)
Definition entry_less (a b : Entry) : bool :=
  if (LastAccessed a =? LastAccessed b)%Z then str_ltb (EntryDigest a) (EntryDigest b)
  else (LastAccessed a <? LastAccessed b)%Z.
Fixpoint entries_sorted (l : list Entry) : bool :=
  match l with
  | a :: (b :: _) as l' => negb (entry_less b a) && entries_sorted l'
  | _ => true
  end.

Definition candidate_rows (d : CacheDB) : list (string * CacheRow) :=
  merge_sort lru_first (filter (λ kv, protected d kv.1 = false) (map_to_list (cache_entries d))).

Definition EvictionCandidates : Tx CacheDB (list Entry) :=
  d ← tx_read;
  entries ← tx_lift (scan_candidates (candidate_rows d));
  _ ← tx_lift (reject_if (negb (entries_sorted entries)) [CacheErrInvalidEntry]);
  mret entries.

End Repository.

(** ** The store *)

Definition defaultReservationLifetime : Z := (10 * minute)%Z.
Definition maximumReservations : nat := 64.

Record reservation := MkReservation { r_digests : gset string; r_expiresAt : Z }.

Record Pins := MkPins {
  activeUses : Z;
  operationPins : gset string;
  transientPins : gmap string Z;
  reservations : gmap string reservation
}.

Record Vault := MkVault { vault_db : CacheDB; vault_files : gmap string bytes; vault_pins : Pins }.

Definition set_files (files : gmap string bytes) (v : Vault) : Vault := MkVault (vault_db v) files (vault_pins v).
Definition set_pins (pins : Pins) (v : Vault) : Vault := MkVault (vault_db v) (vault_files v) pins.
Definition set_reservations (r : gmap string reservation) (p : Pins) : Pins :=
  MkPins (activeUses p) (operationPins p) (transientPins p) r.

(** A statement or transaction of the index. *)
Definition on_index {A} (t : Tx CacheDB A) : M Vault A :=
  atomically (λ v, match t (vault_db v) with
    | Ok (a, d) => Ok (a, MkVault d (vault_files v) (vault_pins v)) | Err e => Err e end).

(** A section under [accessMu]; the argument of [t] says whether I/O in it fails. *)
Definition locked {A} (t : bool → Vault → result A * Vault) : M Vault A := λ w,
  let '(r, v) := t (w_fault w (w_access w)) (next_db w) in (r, accessed w v).

Definition on_pins (f : Pins → Pins) : M Vault unit := locked (λ _ v, (Ok tt, set_pins (f (vault_pins v)) v)).

(** [ctx.Err()]. *)
Definition check_ctx : M Vault unit := atomically (mret tt).

Definition expireReservationsLocked (now_ : Z) (p : Pins) : Pins :=
  set_reservations (filter (λ kv, after (r_expiresAt kv.2) now_ = true) (reservations p)) p.

Definition pinnedLocked (p : Pins) (digest : string) : bool :=
  (0 <? default 0 (transientPins p !! digest))%Z || bool_decide (digest ∈ operationPins p)
  || existsb (λ kv, bool_decide (digest ∈ r_digests kv.2)) (map_to_list (reservations p)).

Definition add_pin (digest : string) (p : Pins) : Pins :=
  MkPins (activeUses p)
    (if (0 <? activeUses p)%Z then {[digest]} ∪ operationPins p else operationPins p)
    (<[digest := (default 0 (transientPins p !! digest) + 1)%Z]> (transientPins p)) (reservations p).

Definition drop_pin (digest : string) (p : Pins) : Pins :=
  let count := (default 0 (transientPins p !! digest) - 1)%Z in
  MkPins (activeUses p) (operationPins p)
    (if (count =? 0)%Z then delete digest (transientPins p) else <[digest := count]> (transientPins p))
    (reservations p).

(** [release := store.pinAccess(digest); defer release()] around [m]. *)
Definition with_pin {A} (digest : string) (m : M Vault A) : M Vault A :=
  at_ ← now;
  _ ← on_pins (λ p, add_pin digest (expireReservationsLocked at_ p));
  r ← try_ m;
  _ ← on_pins (drop_pin digest);
  lift r.

Section Store.
Context `{UnicodeCase} (sha256 : bytes → bytes) (maximumBytes : Z).

(** The section of [Enforce] for one candidate: whether it is pinned; if not, its
    file is removed. *)
Definition evict (digest : string) (now_ : Z) (fault : bool) (v : Vault) : result bool * Vault :=
  let v := set_pins (expireReservationsLocked now_ (vault_pins v)) v in
  if pinnedLocked (vault_pins v) digest then (Ok true, v)
  else if fault then (Err [DriverError], v)
  else (Ok false, set_files (delete digest (vault_files v)) v).

(** The loop of [Enforce]; its result is the final [pinnedBytes]. *)
Fixpoint evict_loop (candidates : list Entry) (currentBytes pinnedBytes : Z) : M Vault Z :=
  match candidates with
  | [] => mret pinnedBytes
  | candidate :: rest =>
      if (currentBytes <=? maximumBytes)%Z then mret pinnedBytes
      else
        _ ← check_ctx;
        at_ ← now;
        pinned ← locked (evict (EntryDigest candidate) at_);
        if pinned : bool then evict_loop rest currentBytes (wrap_int64 (pinnedBytes + EntrySize candidate))
        else
          _ ← on_index (Cache_Delete (EntryDigest candidate));
          evict_loop rest (wrap_int64 (currentBytes - EntrySize candidate)) pinnedBytes
  end.

Definition Enforce : M Vault unit :=
  _ ← check_ctx;
  stats ← on_index Cache_Stats;
  if (Bytes stats <=? maximumBytes)%Z then mret tt
  else
    candidates ← on_index EvictionCandidates;
    pinnedBytes ← evict_loop candidates (Bytes stats) (ProtectedBytes stats);
    remaining ← on_index Cache_Stats;
    lift (reject_if (maximumBytes <? Bytes remaining)%Z
      (QuotaError maximumBytes (Bytes remaining) (Z.min pinnedBytes (Bytes remaining)))).

(** [BeginUse] and the release function it returns. *)
Definition BeginUse : M Vault unit :=
  at_ ← now;
  on_pins (λ p, let p := expireReservationsLocked at_ p in
    MkPins (activeUses p + 1) (operationPins p) (transientPins p) (reservations p)).

Definition end_use (p : Pins) : Pins :=
  let uses := (activeUses p - 1)%Z in
  MkPins uses (if (uses =? 0)%Z then ∅ else operationPins p) (transientPins p) (reservations p).

Definition EndUse : M Vault unit :=
  last ← locked (λ _ v, let p := end_use (vault_pins v) in (Ok (activeUses p =? 0)%Z, set_pins p v));
  if last : bool then (_ ← try_ Enforce; mret tt) else mret tt.

(** The section of [Reserve] under the lock. *)
Definition reserve (manifestID : string) (unique : gset string) (now_ : Z) (p : Pins) : result unit * Pins :=
  let p := expireReservationsLocked now_ p in
  let current := reservations p !! manifestID in
  if bool_decide (current = None) && bool_decide (maximumReservations ≤ size (reservations p))
  then (Err [CacheErrReservationLimit], p)
  else
    let digests := match current with Some r => r_digests r | None => ∅ end in
    if (MaximumChunks <? Z.of_nat (size (digests ∪ unique)))%Z then (Err [CasErrInvalidStore], p)
    else (Ok tt, set_reservations (<[manifestID :=
           MkReservation (digests ∪ unique) (now_ + defaultReservationLifetime)]> (reservations p)) p).

Definition Reserve (manifestID : string) (digests : list string) : M Vault unit :=
  _ ← lift (reject_if (negb (Digest_Valid manifestID) || bool_decide (digests = [])
        || (MaximumChunks <? Z.of_nat (length digests))%Z) [CasErrInvalidStore]);
  _ ← check_ctx;
  _ ← lift (reject_if (negb (forallb Digest_Valid digests)) [SnapshotErrInvalidDigest]);
  at_ ← now;
  _ ← locked (λ _ v, let '(r, p) := reserve manifestID (list_to_set digests) at_ (vault_pins v) in (r, set_pins p v));
  Enforce.

Definition ReleaseReservation (manifestID : string) : M Vault unit :=
  if negb (Digest_Valid manifestID) then mret tt
  else
    _ ← on_pins (λ p, set_reservations (delete manifestID (reservations p)) p);
    _ ← try_ Enforce;
    mret tt.

(** *** Chunks *)

(** Opening, inspecting and reading the file of a chunk. *)
Definition read_file (digest : string) : M Vault (option bytes) :=
  atomically (λ v, Ok (vault_files v !! digest, v)).

Definition Cas_Read (digest : string) : M Vault bytes :=
  _ ← lift (reject_if (negb (Digest_Valid digest)) [SnapshotErrInvalidDigest]);
  _ ← check_ctx;
  with_pin digest (
    file ← read_file digest;
    match file with
    | None => _ ← on_index (Cache_Delete digest); fail [CasErrNotFound]
    | Some contents =>
        _ ← lift (reject_if (bool_decide (length contents = 0)
              || (MaximumChunkBytes <? Z.of_nat (length contents))%Z
              || negb (bool_decide (Sum sha256 contents = digest))) [CasErrCorrupt]);
        at_ ← now;
        _ ← on_index (Cache_Record (MkEntry digest (Z.of_nat (length contents)) at_));
        mret contents
    end).

Definition Has (digest : string) : M Vault bool :=
  r ← try_ (Cas_Read digest);
  match r with
  | Ok _ => mret true
  | Err e => if errors_is e CasErrNotFound then mret false else fail e
  end.

(** Removing the file of a corrupt chunk; that it is gone already is no error. *)
Definition remove_file (digest : string) : M Vault unit :=
  atomically (λ v, Ok (tt, set_files (delete digest (vault_files v)) v)).

(** Renaming the temporary file, written and synced before, into place. *)
Definition commit_file (digest : string) (contents : bytes) : M Vault unit :=
  atomically (λ v, Ok (tt, set_files (<[digest := contents]> (vault_files v)) v)).

(** [Put] once the chunk is known to be absent or was corrupt. *)
Definition store_new (digest : string) (contents : bytes) : M Vault unit :=
  _ ← check_ctx;      (* creating, writing and syncing the temporary file *)
  renamed ← try_ (commit_file digest contents);
  match renamed with
  | Err e =>
      present ← try_ (Has digest);
      match present with Ok true => mret tt | _ => fail e end
  | Ok _ =>
      at_ ← now;
      _ ← on_index (Cache_Record (MkEntry digest (Z.of_nat (length contents)) at_));
      Enforce
  end.

Definition Cas_Put (digest : string) (contents : bytes) : M Vault unit :=
  _ ← lift (reject_if (negb (Digest_Valid digest) || bool_decide (length contents = 0)
        || (MaximumChunkBytes <? Z.of_nat (length contents))%Z
        || negb (bool_decide (Sum sha256 contents = digest))) [CasErrCorrupt]);
  _ ← check_ctx;
  with_pin digest (
    present ← try_ (Has digest);
    match present with
    | Ok true => mret tt
    | Ok false => store_new digest contents
    | Err e =>
        if negb (errors_is e CasErrCorrupt) then fail e
        else
          _ ← remove_file digest;
          _ ← on_index (Cache_Delete digest);
          store_new digest contents
    end).

(** The loop of [Missing] over the distinct digests in order. *)
Fixpoint missing_loop (ordered : list string) : M Vault (list string) :=
  match ordered with
  | [] => mret []
  | digest :: rest =>
      present ← try_ (Has digest);
      match present with
      | Ok true => missing_loop rest
      | Ok false => absent ← missing_loop rest; mret (digest :: absent)
      | Err e => if errors_is e CasErrCorrupt then (absent ← missing_loop rest; mret (digest :: absent)) else fail e
      end
  end.

Definition Missing (digests : list string) : M Vault (list string) :=
  _ ← lift (reject_if (negb (forallb Digest_Valid digests)) [SnapshotErrInvalidDigest]);
  missing_loop (merge_sort String.le (elements (list_to_set (C := gset string) digests))).

End Store.

(** ** Runs without failures

    [ends m v Q]: from vault [v], in a world without failures or interference whose
    clock is positive, [m] ends in a result and a vault that satisfy [Q]. *)

Definition ticks (t : Z) : Prop := (0 < t < 2 ^ 63)%Z.
Definition ticking {DB} (w : World DB) : Prop := clocked ticks w.
Abbreviation ends m v Q := (ends_in ticks m v Q).

Lemma ends_index {A} (t : Tx CacheDB A) v (Q : result A → Vault → Prop) :
  match t (vault_db v) with
  | Ok (a, d) => Q (Ok a) (MkVault d (vault_files v) (vault_pins v)) | Err e => Q (Err e) v end → ends (on_index t) v Q.
Proof. intros HQ. apply ends_atomically. by destruct (t (vault_db v)) as [[a d]|e]. Qed.

Lemma ends_locked {A} (t : bool → Vault → result A * Vault) v (Q : result A → Vault → Prop) :
  Q (t false v).1 (t false v).2 → ends (locked t) v Q.
Proof.
  intros HQ w [Hf Hi] Ht Hv. unfold locked, next_db. rewrite Hf, Hi, Hv. destruct (t false v) as [r v'].
  eexists _, _. split; [reflexivity|]. done.
Qed.

Lemma ends_ctx v (Q : result unit → Vault → Prop) : Q (Ok tt) v → ends check_ctx v Q.
Proof. intros HQ. by apply (ends_atomically (mret tt)). Qed.

(** ** Sums over the index *)

Definition total (v : Vault) : Z := sum_size (map_to_list (cache_entries (vault_db v))).

#[global] Instance sum_size_proper : Proper ((≡ₚ) ==> (=)) sum_size.
Proof. intros l k Hp. unfold sum_size. induction Hp; simpl; lia. Qed.

Lemma sum_size_filter (P : string * CacheRow → Prop) `{∀ x, Decision (P x)} l :
  Forall (λ kv, (0 < cr_size kv.2)%Z) l → (0 ≤ sum_size (filter P l) ≤ sum_size l)%Z.
Proof.
  induction 1 as [|kv l Hkv Hl IH]; [done|]. rewrite filter_cons. unfold sum_size in *. case_decide; simpl; lia.
Qed.

Lemma sum_size_delete (m : gmap string CacheRow) i row :
  m !! i = Some row → sum_size (map_to_list (delete i m)) = (sum_size (map_to_list m) - cr_size row)%Z.
Proof. intros Hi. rewrite <-(map_to_list_delete m i row Hi). unfold sum_size. simpl. lia. Qed.

Lemma sum_size_nonneg (m : gmap string CacheRow) :
  map_Forall (λ _ row, (0 < cr_size row)%Z) m → (0 ≤ sum_size (map_to_list m))%Z.
Proof.
  intros Hm. assert (Forall (λ kv : string * CacheRow, (0 < cr_size kv.2)%Z) (map_to_list m)) as Hall.
  { apply Forall_forall. intros [i row] Hin%elem_of_map_to_list. by apply (Hm i). }
  induction Hall as [|kv l Hkv Hl IH]; [done|]. unfold sum_size in *. simpl. lia.
Qed.

(** ** Shrinking pins *)

(** [p] after some reservations have expired. *)
Definition shrunk (p p' : Pins) : Prop :=
  activeUses p' = activeUses p ∧ operationPins p' = operationPins p ∧ transientPins p' = transientPins p ∧
  reservations p' ⊆ reservations p.

Lemma shrunk_refl p : shrunk p p.
Proof. done. Qed.
Lemma shrunk_trans p q r : shrunk p q → shrunk q r → shrunk p r.
Proof. intros (? & ? & ? & ?) (? & ? & ? & ?). split_and!; try congruence. by etrans. Qed.
Lemma shrunk_expire t p : shrunk p (expireReservationsLocked t p).
Proof. split_and!; try done. simpl. apply map_filter_subseteq. Qed.

Lemma pinned_shrunk p p' digest : shrunk p p' → pinnedLocked p' digest = true → pinnedLocked p digest = true.
Proof.
  intros (_ & Ho & Ht & Hr). unfold pinnedLocked. rewrite Ho, Ht, !orb_true_iff. intros [?|Hex]; [by left|right].
  apply existsb_exists in Hex as ([id r] & Hin & Hd). apply existsb_exists. exists (id, r). split; [|done].
  apply list_elem_of_In, elem_of_map_to_list in Hin. apply list_elem_of_In, elem_of_map_to_list.
  by eapply lookup_weaken.
Qed.

(** ** Eviction *)

Section Eviction.
Context `{UnicodeCase} (maximumBytes : Z).

(** Rows the repository wrote. *)
Definition index_ok (d : CacheDB) : Prop :=
  map_Forall (λ digest row, Digest_Valid digest = true ∧ row_checks digest row = true) (cache_entries d).

(** The vault after the entries and files of [removed] have gone. *)
Definition without (removed : list Entry) (v : Vault) (p : Pins) : Vault :=
  MkVault (set_entries (foldr (λ e, delete (EntryDigest e)) (cache_entries (vault_db v)) removed) (vault_db v))
    (foldr (λ e, delete (EntryDigest e)) (vault_files v) removed) p.

(** [e] is an entry of the index. *)
Definition indexed (v : Vault) (e : Entry) : Prop :=
  Digest_Valid (EntryDigest e) = true ∧ (0 < EntrySize e)%Z ∧
  ∃ row, cache_entries (vault_db v) !! EntryDigest e = Some row ∧ cr_size row = EntrySize e.

(** What one pass over the candidates [cs] does to [v]. *)
Record evicted (cs : list Entry) (v : Vault) (removed : list Entry) (v' : Vault) : Prop := {
  ev_vault : v' = without removed v (vault_pins v');
  ev_pins : shrunk (vault_pins v) (vault_pins v');
  ev_sub : removed `sublist_of` cs;
  ev_unpinned : Forall (λ e, pinnedLocked (vault_pins v') (EntryDigest e) = false) removed;
  ev_needed : ∀ front last, removed = front ++ [last] → (maximumBytes < total v' + EntrySize last)%Z;
  ev_order : ∃ front back, cs = front ++ back ∧ (∀ e, e ∈ removed → e ∈ front) ∧
    (back = [] ∨ (total v' ≤ maximumBytes)%Z) ∧
    (∀ e, e ∈ front → e ∉ removed → pinnedLocked (vault_pins v) (EntryDigest e) = true)
}.

Lemma foldr_delete_comm {A} (l : list Entry) i (m : gmap string A) :
  foldr (λ e, delete (EntryDigest e)) (delete i m) l = delete i (foldr (λ e, delete (EntryDigest e)) m l).
Proof. induction l as [|e l IH]; simpl; [done|]. by rewrite IH, delete_delete. Qed.

Lemma evicted_stop cs v : cs = [] ∨ (total v ≤ maximumBytes)%Z → evicted cs v [] v.
Proof.
  intros Hstop. constructor; try done.
  - by destruct v as [[]].
  - apply sublist_nil_l.
  - intros [|? front] last; discriminate.
  - exists [], cs. split_and!; try done; intros e; by rewrite ?elem_of_nil.
Qed.

Lemma evicted_pinned c cs v t removed v' :
  c ∉ cs → pinnedLocked (expireReservationsLocked t (vault_pins v)) (EntryDigest c) = true →
  evicted cs (set_pins (expireReservationsLocked t (vault_pins v)) v) removed v' → evicted (c :: cs) v removed v'.
Proof.
  intros Hnot Hp [Hv Hs Hsub Hu Hn (front & back & Hcs & Hin & Hback & Hpin)].
  pose proof (shrunk_expire t (vault_pins v)) as Hsh. constructor; try done.
  - by eapply shrunk_trans.
  - by apply sublist_cons.
  - exists (c :: front), back. split_and!; [by rewrite Hcs|set_solver|done|]. intros e [->|He]%elem_of_cons Hne.
    + by eapply pinned_shrunk.
    + eapply pinned_shrunk; [exact Hsh|]. by apply Hpin.
Qed.

Lemma evicted_removed c cs v t removed v' :
  (maximumBytes < total v)%Z → indexed v c →
  pinnedLocked (expireReservationsLocked t (vault_pins v)) (EntryDigest c) = false →
  evicted cs (without [c] v (expireReservationsLocked t (vault_pins v))) removed v' →
  evicted (c :: cs) v (c :: removed) v'.
Proof.
  intros Hmax (_ & _ & row & Hrow & Hsize) Hp [Hv Hs Hsub Hu Hn (front & back & Hcs & Hin & Hback & Hpin)].
  pose proof (shrunk_expire t (vault_pins v)) as Hsh. constructor.
  - rewrite Hv at 1. unfold without. simpl. by rewrite !foldr_delete_comm.
  - by eapply shrunk_trans.
  - by apply sublist_skip.
  - constructor; [|done]. destruct (pinnedLocked (vault_pins v') _) eqn:E; [|done].
    apply (pinned_shrunk _ _ _ Hs) in E. simpl in E. congruence.
  - intros f last Hf. destruct removed as [|r removed].
    + destruct f as [|? [|]]; simplify_eq/=. rewrite Hv. unfold total. simpl. unfold total in Hmax.
      rewrite (sum_size_delete _ _ row) by done. lia.
    + destruct f as [|? f]; simplify_eq/=. by eapply Hn.
  - exists (c :: front), back. split_and!; [by rewrite Hcs|set_solver|done|].
    intros e [->|He]%elem_of_cons Hne; [set_solver|]. eapply pinned_shrunk; [exact Hsh|]. apply Hpin; [done|set_solver].
Qed.

Definition sum_entries (cs : list Entry) : Z := foldr (λ e acc, EntrySize e + acc)%Z 0%Z cs.

Lemma evict_loop_ends cs v pinned :
  (0 ≤ pinned)%Z → total v = (pinned + sum_entries cs)%Z → NoDup (map EntryDigest cs) → Forall (indexed v) cs → (total v < 2 ^ 63)%Z →
  map_Forall (λ _ row, (0 < cr_size row)%Z) (cache_entries (vault_db v)) →
  ends (evict_loop maximumBytes cs (total v) pinned) v (λ r v',
    (∃ p, r = Ok p ∧ ((maximumBytes < total v')%Z → p = total v')) ∧ ∃ removed, evicted cs v removed v').
Proof.
  revert v pinned. induction cs as [|c cs IH]; intros v pinned Hp0 Hsum Hnd Hix Htot Hrows; cbn [evict_loop].
  { apply ends_ret. split; [exists pinned; split; [done|]; simpl in Hsum; lia|]. exists []. apply evicted_stop. by left. }
  destruct (total v <=? maximumBytes)%Z eqn:Emax; reflect_bools.
  { apply ends_ret. split; [exists pinned; split; [done|lia]|]. exists []. apply evicted_stop. by right. }
  assert (0 ≤ sum_entries cs)%Z as Hrest.
  { apply Forall_cons in Hix as [_ Hix]. clear -Hix. induction Hix as [|e cs (_ & ? & _) _ IH]; simpl; lia. }
  cbn [sum_entries foldr] in Hsum. fold (sum_entries cs) in Hsum.
  apply Forall_cons in Hix as [Hc Hix]. apply NoDup_cons in Hnd as [Hcs Hnd].
  apply ends_bind, ends_ctx, ends_bind, ends_now. intros t _. apply ends_bind, ends_locked.
  unfold evict. cbn [vault_pins set_pins].
  destruct (pinnedLocked (expireReservationsLocked t (vault_pins v)) (EntryDigest c)) eqn:Ep; cbn [fst snd].
  - destruct Hc as (_ & Hsz & _). rewrite wrap_int64_id by (unfold int64_range; lia).
    eapply ends_mono; [apply (IH (set_pins _ v)); try done; cbn [total vault_db set_pins]; [lia|unfold total in *; simpl; lia]|].
    intros r v' [Hr (removed & Hev)]. split; [done|]. exists removed. eapply evicted_pinned; [|done|done].
    intros Hin. apply Hcs, list_elem_of_fmap. eauto.
  - pose proof Hc as (Hval & Hsz & row & Hrow & Hsize).
    apply ends_bind, ends_index. unfold Cache_Delete, delete_entry. unfold mbind, Tx_bind, tx_lift, reject_if, tx_read, tx_write.
    cbn [vault_db set_files set_pins]. rewrite Hval. cbn [negb].
    set (v2 := without [c] v (expireReservationsLocked t (vault_pins v))).
    assert (total v2 = total v - EntrySize c)%Z as Et.
    { unfold total, v2. simpl. rewrite (sum_size_delete _ _ row) by done. lia. }
    assert (0 ≤ total v2)%Z as Hnn by (apply sum_size_nonneg; unfold v2; simpl; by apply map_Forall_delete).
    rewrite wrap_int64_id by (unfold int64_range; lia). rewrite <-Et.
    eapply ends_mono; [apply (IH v2 pinned); [done|lia|done| |lia|]|].
    + apply Forall_forall. intros e He. eapply Forall_forall in Hix as (Hv & Hs & row' & Hr & Hr'); [|exact He].
      split_and!; [done|done|]. exists row'. split; [|done]. unfold v2. simpl. rewrite lookup_delete_ne; [done|].
      intros E. apply Hcs. rewrite E. apply list_elem_of_fmap. eauto.
    + unfold v2. simpl. by apply map_Forall_delete.
    + intros r v' [Hr (removed & Hev)]. split; [done|]. exists (c :: removed). by eapply evicted_removed.
Qed.

Definition to_entry (kv : string * CacheRow) : Entry := MkEntry kv.1 (cr_size kv.2) (cr_accessed kv.2).

Lemma parse_valid digest : Digest_Valid digest = true → ParseDigest digest = Ok digest.
Proof. unfold Digest_Valid, ParseDigest. by repeat case_match. Qed.

Lemma row_checks_range digest row :
  row_checks digest row = true → (0 < cr_size row ≤ MaximumChunkBytes)%Z ∧ (0 < cr_accessed row)%Z.
Proof. unfold row_checks, MaximumChunkBytes. intros. reflect_bools. lia. Qed.

Lemma entry_validate_ok digest size accessed :
  Digest_Valid digest = true → (0 < size ≤ MaximumChunkBytes)%Z → (0 < accessed)%Z →
  Entry_Validate (MkEntry digest size accessed) = Ok tt.
Proof.
  intros Hd Hs Ha. unfold Entry_Validate, is_zero_time. cbn [EntryDigest EntrySize LastAccessed]. rewrite Hd.
  rewrite (proj2 (Z.leb_gt _ _)), (proj2 (Z.ltb_ge _ _)) by lia. simpl.
  rewrite (proj2 (Z.eqb_neq _ _)); [done|]. unfold zero_time. lia.
Qed.

Lemma scan_candidates_ok rows :
  Forall (λ kv, Digest_Valid kv.1 = true ∧ row_checks kv.1 kv.2 = true) rows →
  scan_candidates rows = Ok (map to_entry rows).
Proof.
  induction 1 as [|[k row] rows [Hd Hr] Hall IH]; [done|]. cbn [scan_candidates fst snd] in *.
  rewrite (parse_valid k) by done. apply row_checks_range in Hr as [? ?].
  change (Ok k ≫= ?f) with (f k). cbv beta. unfold from_unix_nano. rewrite entry_validate_ok by done. by rewrite IH.
Qed.

#[local] Instance lru_total : Total lru_first.
Proof.
  intros [k a] [l b]. unfold lru_first. simpl. destruct (str_leb_total k l) as [?|?];
    destruct (Z.lt_trichotomy (cr_accessed a) (cr_accessed b)) as [?|[?|?]]; auto.
Qed.
#[local] Instance lru_trans : Transitive lru_first.
Proof.
  intros [k a] [l b] [m c]. unfold lru_first. simpl. intros [?|[? ?]] [?|[? ?]]; try (left; lia).
  right. split; [lia|]. by eapply str_leb_trans.
Qed.

Lemma candidates_sorted rows : StronglySorted lru_first rows → entries_sorted (map to_entry rows) = true.
Proof.
  induction 1 as [|a rows Hs IH Hall]; [done|]. destruct rows as [|b rows]; [done|].
  change (entries_sorted (map to_entry (a :: b :: rows))) with
    (negb (entry_less (to_entry b) (to_entry a)) && entries_sorted (map to_entry (b :: rows))).
  rewrite IH, andb_true_r. apply Forall_cons in Hall as [Hab _]. unfold entry_less, lru_first in *. simpl.
  destruct (_ =? _)%Z eqn:E; reflect_bools; destruct Hab as [?|[? Hle]]; try lia.
  by rewrite str_ltb_leb, Hle.
Qed.

Lemma candidate_rows_sorted d : StronglySorted lru_first (candidate_rows d).
Proof. apply Sorted_StronglySorted; [apply _|]. apply Sorted_merge_sort, _. Qed.

Lemma candidate_rows_elem d k row :
  (k, row) ∈ candidate_rows d ↔ cache_entries d !! k = Some row ∧ protected d k = false.
Proof. unfold candidate_rows. rewrite merge_sort_Permutation, list_elem_of_filter, elem_of_map_to_list. simpl. tauto. Qed.

Lemma candidates_ok d : index_ok d → EvictionCandidates d = Ok (map to_entry (candidate_rows d), d).
Proof.
  intros Hd. unfold EvictionCandidates. unfold mbind, Tx_bind, tx_read, tx_lift. rewrite scan_candidates_ok.
  - by rewrite candidates_sorted by apply candidate_rows_sorted.
  - apply Forall_forall. intros [k row] [Hin _]%candidate_rows_elem. by apply Hd.
Qed.

Lemma index_positive d : index_ok d → map_Forall (λ _ row, (0 < cr_size row)%Z) (cache_entries d).
Proof. intros Hd k row [_ Hr%row_checks_range]%Hd. lia. Qed.

Lemma sum_to_entry rows : sum_entries (map to_entry rows) = sum_size rows.
Proof. induction rows as [|kv rows IH]; [done|]. unfold sum_entries, sum_size in *. simpl. lia. Qed.

(** The bytes of the index are those protected and those of the candidates. *)
Lemma candidate_bytes v :
  total v = (sum_size (filter (λ kv, protected (vault_db v) kv.1 = true) (map_to_list (cache_entries (vault_db v))))
    + sum_entries (map to_entry (candidate_rows (vault_db v))))%Z.
Proof.
  rewrite sum_to_entry. unfold candidate_rows, total. rewrite merge_sort_Permutation.
  induction (map_to_list (cache_entries (vault_db v))) as [|kv l IH]; [done|]. rewrite !filter_cons.
  unfold sum_size in *. destruct (protected (vault_db v) kv.1); simpl; lia.
Qed.

Lemma stats_ok v :
  index_ok (vault_db v) → ∃ stats, Cache_Stats (vault_db v) = Ok (stats, vault_db v) ∧ Bytes stats = total v ∧
    (0 ≤ ProtectedBytes stats)%Z ∧
    total v = (ProtectedBytes stats + sum_entries (map to_entry (candidate_rows (vault_db v))))%Z.
Proof.
  intros Hd. set (rows := map_to_list (cache_entries (vault_db v))).
  assert (Forall (λ kv : string * CacheRow, (0 < cr_size kv.2)%Z) rows) as Hpos.
  { apply Forall_forall. intros [k row] Hin%elem_of_map_to_list. by apply (index_positive _ Hd k). }
  set (held := filter (λ kv, protected (vault_db v) kv.1 = true) rows).
  pose proof (sum_size_filter (λ kv, protected (vault_db v) kv.1 = true) rows Hpos) as Hsum.
  pose proof (length_filter_le (λ kv, protected (vault_db v) kv.1 = true) rows) as Hlen.
  fold held in Hsum, Hlen.
  exists (MkStats (Z.of_nat (length rows)) (sum_size rows) (Z.of_nat (length held)) (sum_size held)).
  split_and!; [|done|simpl; lia|apply candidate_bytes]. unfold Cache_Stats, mbind, Tx_bind, tx_read, tx_lift. fold rows. fold held.
  unfold Stats_Validate. cbn [Entries Bytes ProtectedEntries ProtectedBytes].
  rewrite !(proj2 (Z.ltb_ge _ _)) by lia. done.
Qed.

Lemma candidates_nodup d : NoDup (map EntryDigest (map to_entry (candidate_rows d))).
Proof.
  rewrite map_map. change (NoDup (map fst (candidate_rows d))). unfold candidate_rows.
  rewrite (fmap_Permutation fst _ _ (merge_sort_Permutation lru_first _)).
  eapply sublist_NoDup; [apply (NoDup_fst_map_to_list (cache_entries d))|].
  apply fmap_sublist, sublist_filter.
Qed.

Lemma foldr_delete_lookup {A} (l : list Entry) (m : gmap string A) k :
  foldr (λ e, delete (EntryDigest e)) m l !! k = if decide (k ∈ map EntryDigest l) then None else m !! k.
Proof.
  induction l as [|e l IH]; cbn [foldr map]; [by rewrite decide_False by apply not_elem_of_nil|].
  destruct (decide (EntryDigest e = k)) as [->|Hne].
  - by rewrite lookup_delete_eq, decide_True by set_solver.
  - rewrite lookup_delete_ne, IH by done. do 2 case_decide; try done; set_solver.
Qed.

Lemma index_ok_without removed v p : index_ok (vault_db v) → index_ok (vault_db (without removed v p)).
Proof.
  intros Hd k row Hk. simpl in Hk. rewrite foldr_delete_lookup in Hk. case_decide; [done|]. by apply Hd.
Qed.

Lemma candidates_indexed v : index_ok (vault_db v) → Forall (indexed v) (map to_entry (candidate_rows (vault_db v))).
Proof.
  intros Hd. apply Forall_forall. intros e ([k row] & -> & [Hk _]%candidate_rows_elem)%list_elem_of_fmap.
  destruct (Hd k row Hk) as [Hv Hr%row_checks_range]. split_and!; [done|simpl; lia|]. by exists row.
Qed.

Definition verdict (v : Vault) : result unit :=
  if (maximumBytes <? total v)%Z then Err (QuotaError maximumBytes (total v) (total v)) else Ok tt.

Lemma enforce_ends v :
  index_ok (vault_db v) → (total v < 2 ^ 63)%Z →
  ends (Enforce maximumBytes) v (λ r v', r = verdict v' ∧
    ∃ removed, evicted (map to_entry (candidate_rows (vault_db v))) v removed v').
Proof.
  intros Hd Ht. destruct (stats_ok v Hd) as (stats & Hs & Hb & Hp & Hsum). unfold Enforce.
  apply ends_bind, ends_ctx, ends_bind, ends_index. rewrite Hs, Hb. destruct v as [d files pins]. cbn [vault_db vault_files vault_pins] in *.
  set (v := MkVault d files pins) in *. destruct (total v <=? maximumBytes)%Z eqn:E; reflect_bools.
  { apply ends_ret. split; [unfold verdict; by rewrite (proj2 (Z.ltb_ge _ _))|]. exists []. apply evicted_stop. by right. }
  apply ends_bind, ends_index. unfold v. cbn [vault_db vault_files vault_pins]. rewrite candidates_ok by done. fold v.
  apply ends_bind. eapply ends_mono; [apply evict_loop_ends|].
  - exact Hp.
  - exact Hsum.
  - apply candidates_nodup.
  - by apply (candidates_indexed v).
  - done.
  - by apply index_positive.
  - intros r v' [(p & -> & Hpin) (removed & Hev)]. apply ends_bind, ends_index.
    assert (index_ok (vault_db v')) as Hd' by (rewrite (ev_vault _ _ _ _ Hev); by apply index_ok_without).
    destruct (stats_ok v' Hd') as (stats' & -> & Hb' & _). apply ends_lift. rewrite Hb'.
    destruct v' as [d' files' pins']. split; [|by exists removed]. unfold verdict, reject_if.
    destruct (_ <? _)%Z eqn:Eq; [|done]. reflect_bools. rewrite Hpin by done. by rewrite Z.min_id.
Qed.

(** Consequences of a pass, key by key. *)
Lemma evicted_lookup cs v removed v' k :
  evicted cs v removed v' →
  cache_entries (vault_db v') !! k = (if decide (k ∈ map EntryDigest removed) then None else cache_entries (vault_db v) !! k) ∧
  vault_files v' !! k = (if decide (k ∈ map EntryDigest removed) then None else vault_files v !! k).
Proof. intros Hev. rewrite (ev_vault _ _ _ _ Hev). simpl. by rewrite !foldr_delete_lookup. Qed.

Lemma removed_unprotected v removed v' e :
  evicted (map to_entry (candidate_rows (vault_db v))) v removed v' → e ∈ removed →
  protected (vault_db v) (EntryDigest e) = false ∧ pinnedLocked (vault_pins v') (EntryDigest e) = false ∧
  ∃ row, cache_entries (vault_db v) !! EntryDigest e = Some row ∧ e = to_entry (EntryDigest e, row).
Proof.
  intros Hev He. assert (e ∈ map to_entry (candidate_rows (vault_db v))) as Hin.
  { eapply sublist_subseteq; [apply (ev_sub _ _ _ _ Hev)|done]. }
  apply list_elem_of_fmap in Hin as ([k row] & -> & [Hk Hp]%candidate_rows_elem). split_and!; [done| |by exists row].
  pose proof (ev_unpinned _ _ _ _ Hev) as Hu. by eapply Forall_forall in Hu.
Qed.

Lemma to_entry_inj a b : to_entry a = to_entry b → a = b.
Proof. destruct a as [k [s t]], b as [k' [s' t']]. by intros [= -> -> ->]. Qed.

(** A pass from [v] to [v'], over all candidates of [v]. *)
Section Pass.
Context (v v' : Vault) (removed : list Entry)
  (Hev : evicted (map to_entry (candidate_rows (vault_db v))) v removed v').

Lemma pass_key k : k ∈ map EntryDigest removed → ∃ row, cache_entries (vault_db v) !! k = Some row ∧
  to_entry (k, row) ∈ removed ∧ protected (vault_db v) k = false ∧ pinnedLocked (vault_pins v') k = false.
Proof.
  intros (e & -> & He)%list_elem_of_fmap. destruct (removed_unprotected _ _ _ e Hev He) as (Hp & Hu & row & Hrow & Ee).
  exists row. by rewrite <-Ee.
Qed.

Lemma pass_kept k row :
  cache_entries (vault_db v') !! k = Some row → cache_entries (vault_db v) !! k = Some row ∧ to_entry (k, row) ∉ removed.
Proof.
  destruct (evicted_lookup _ _ _ _ k Hev) as [-> _]. case_decide as Hin; [done|]. intros Hk. split; [done|].
  intros He. apply Hin, list_elem_of_fmap. by exists (to_entry (k, row)).
Qed.

Lemma pass_quota k row :
  (maximumBytes < total v')%Z → cache_entries (vault_db v') !! k = Some row →
  protected (vault_db v) k = true ∨ pinnedLocked (vault_pins v) k = true.
Proof.
  intros Hmax [Hk Hne]%pass_kept. destruct (protected (vault_db v) k) eqn:Ep; [by left|right].
  destruct (ev_order _ _ _ _ Hev) as (front & back & Hcs & _ & [->|?] & Hpin); [|lia].
  apply (Hpin (to_entry (k, row))); [|done]. rewrite app_nil_r in Hcs. rewrite <-Hcs.
  apply list_elem_of_fmap. exists (k, row). split; [done|]. by apply candidate_rows_elem.
Qed.

Lemma pass_same k :
  protected (vault_db v) k = true ∨ pinnedLocked (vault_pins v') k = true →
  cache_entries (vault_db v') !! k = cache_entries (vault_db v) !! k ∧ vault_files v' !! k = vault_files v !! k.
Proof.
  intros Hp. destruct (evicted_lookup _ _ _ _ k Hev) as [-> ->]. rewrite !decide_False; [done| |].
  all: intros (row & _ & _ & Hp1 & Hp2)%pass_key; destruct Hp; congruence.
Qed.

Lemma pass_lru k row k' row' :
  cache_entries (vault_db v) !! k = Some row → cache_entries (vault_db v') !! k = None →
  cache_entries (vault_db v') !! k' = Some row' → protected (vault_db v) k' = false →
  pinnedLocked (vault_pins v) k' = false → lru_first (k, row) (k', row').
Proof.
  intros Hk Hgone [Hk' Hne]%pass_kept Hprot Hunp.
  assert (k ∈ map EntryDigest removed) as Hin.
  { destruct (evicted_lookup _ _ _ _ k Hev) as [E _]. rewrite E in Hgone. case_decide; [done|congruence]. }
  apply pass_key in Hin as (row0 & Hrow0 & Hrem & _). assert (row0 = row) as -> by congruence.
  destruct (ev_order _ _ _ _ Hev) as (front & back & Hcs & Hfront & _ & Hpin).
  apply map_eq_app in Hcs as (rf & rb & Hrows & <- & <-).
  apply Hfront, list_elem_of_fmap in Hrem as (kv & E & Hrf). apply to_entry_inj in E as <-.
  assert ((k', row') ∈ candidate_rows (vault_db v)) as Hc by (by apply candidate_rows_elem).
  pose proof (candidate_rows_sorted (vault_db v)) as Hs. rewrite Hrows in Hc, Hs.
  apply elem_of_app in Hc as [Hc|Hc]; [|by eapply (StronglySorted_app_1_elem_of lru_first rf rb)].
  specialize (Hpin (to_entry (k', row'))). simpl in Hpin. rewrite Hpin in Hunp; [done| |done].
  apply list_elem_of_fmap. by exists (k', row').
Qed.

Lemma pass_needed :
  v' = MkVault (vault_db v) (vault_files v) (vault_pins v') ∨
  ∃ k row, cache_entries (vault_db v) !! k = Some row ∧ cache_entries (vault_db v') !! k = None ∧
    (maximumBytes < total v' + cr_size row)%Z.
Proof.
  destruct removed as [|e rem _] eqn:Erem using rev_ind.
  - left. rewrite (ev_vault _ _ _ _ Hev) at 1. unfold without. simpl. by destruct v as [[]].
  - right. assert (e ∈ rem ++ [e]) as Hin by set_solver.
    destruct (removed_unprotected _ _ _ e Hev Hin) as (_ & _ & row & Hrow & Ee). exists (EntryDigest e), row.
    split_and!; [done| |].
    + destruct (evicted_lookup _ _ _ _ (EntryDigest e) Hev) as [-> _]. rewrite decide_True; [done|].
      apply list_elem_of_fmap. by exists e.
    + pose proof (ev_needed _ _ _ _ Hev rem e eq_refl) as Hn. rewrite Ee in Hn. done.
Qed.

End Pass.

End Eviction.

(** Enforcing the quota evicts exactly what it must.  Without failures, [Enforce]
    ends with the index within [maximumBytes], or with a quota error that names
    the bytes left, all of them pinned, when every entry left is protected by an
    artifact or a running job or was pinned.  A protected or
    still pinned chunk keeps its entry and its file; an evicted entry loses its file;
    nothing else changes.  Eviction is least recently used first: no evicted entry is
    more recent than an unprotected and unpinned one that stays; and it does not go on
    once the quota is met. *)
Theorem enforce_exact (U : UnicodeCase) (maximumBytes : Z) (w : World Vault) :
  calm w → ticking w → index_ok (vault_db (w_db w)) → (total (w_db w) < 2 ^ 63)%Z →
  ∃ r w', Enforce maximumBytes w = (r, w') ∧
  let v := w_db w in let v' := w_db w' in
  (r = Ok tt ∧ (total v' ≤ maximumBytes)%Z ∨
   r = Err (QuotaError maximumBytes (total v') (total v')) ∧ (maximumBytes < total v')%Z ∧
   ∀ k row, cache_entries (vault_db v') !! k = Some row →
     protected (vault_db v) k = true ∨ pinnedLocked (vault_pins v) k = true) ∧
  (∀ k, protected (vault_db v) k = true ∨ pinnedLocked (vault_pins v') k = true →
     cache_entries (vault_db v') !! k = cache_entries (vault_db v) !! k ∧ vault_files v' !! k = vault_files v !! k) ∧
  (∀ k, cache_entries (vault_db v') !! k = cache_entries (vault_db v) !! k ∧ vault_files v' !! k = vault_files v !! k ∨
     cache_entries (vault_db v') !! k = None ∧ vault_files v' !! k = None) ∧
  (∀ k row k' row', cache_entries (vault_db v) !! k = Some row → cache_entries (vault_db v') !! k = None →
     cache_entries (vault_db v') !! k' = Some row' → protected (vault_db v) k' = false →
     pinnedLocked (vault_pins v) k' = false → lru_first (k, row) (k', row')) ∧
  (w_db w' = MkVault (vault_db v) (vault_files v) (vault_pins v') ∨
   ∃ k row, cache_entries (vault_db v) !! k = Some row ∧ cache_entries (vault_db v') !! k = None ∧
     (maximumBytes < total v' + cr_size row)%Z).
Proof.
  intros Hcalm Htick Hd Ht. destruct (enforce_ends maximumBytes _ Hd Ht w Hcalm Htick eq_refl)
    as (r & w' & Hrun & _ & _ & Hr & removed & Hev). exists r, w'. split; [done|]. cbv zeta. split_and!.
  - unfold verdict in Hr. destruct (_ <? _)%Z eqn:E; reflect_bools; [right|by left]. split_and!; [done|done|].
    intros k row. by apply (pass_quota maximumBytes (w_db w) (w_db w') removed).
  - intros k. by eapply pass_same.
  - intros k. destruct (evicted_lookup _ _ _ _ _ k Hev) as [-> ->]. case_decide; auto.
  - intros k row k' row'. by eapply pass_lru.
  - by eapply pass_needed.
Qed.

(** ** Reading and storing chunks *)

Section Chunks.
Context `{UnicodeCase} (sha256 : bytes → bytes) (maximumBytes : Z).

(** How often the running operations have pinned a chunk. *)
Definition pin_count (v : Vault) (digest : string) : Z := default 0%Z (transientPins (vault_pins v) !! digest).

Lemma ends_pins f v (Q : result unit → Vault → Prop) :
  Q (Ok tt) (set_pins (f (vault_pins v)) v) → ends (on_pins f) v Q.
Proof. intros HQ. by apply ends_locked. Qed.

Lemma ends_with_pin {A} digest (m : M Vault A) v (Q : result A → Vault → Prop) :
  (∀ t, (0 < t < 2 ^ 63)%Z →
     ends m (set_pins (add_pin digest (expireReservationsLocked t (vault_pins v))) v)
       (λ r v', Q r (set_pins (drop_pin digest (vault_pins v')) v'))) → ends (with_pin digest m) v Q.
Proof.
  intros Hm. apply ends_bind, ends_now. intros t Ht. apply ends_bind, ends_pins, ends_bind, ends_try.
  eapply ends_mono; [by apply Hm|]. intros r v' HQ. apply ends_bind, ends_pins. by apply ends_lift.
Qed.

Lemma pin_count_add v digest t :
  pin_count (set_pins (add_pin digest (expireReservationsLocked t (vault_pins v))) v) digest = (pin_count v digest + 1)%Z.
Proof. unfold pin_count. simpl. by rewrite lookup_insert_eq. Qed.

Lemma pin_count_drop v digest :
  pin_count (set_pins (drop_pin digest (vault_pins v)) v) digest = (pin_count v digest - 1)%Z.
Proof.
  unfold pin_count. simpl. destruct (_ =? 0)%Z eqn:E; [|by rewrite lookup_insert_eq]. rewrite lookup_delete_eq.
  reflect_bools. simpl. lia.
Qed.

Lemma digest_length digest : Digest_Valid digest = true → String.length digest = 64.
Proof. unfold Digest_Valid, ParseDigest. destruct (_ || _) eqn:E; [done|]. reflect_bools. done. Qed.

Lemma checks_hold digest size accessed :
  Digest_Valid digest = true → (0 < size ≤ MaximumChunkBytes)%Z → (0 < accessed)%Z →
  row_checks digest (MkCacheRow size accessed) = true.
Proof.
  intros Hd Hs Ha. unfold row_checks, MaximumChunkBytes in *. rewrite bool_decide_true by (by apply digest_length). simpl.
  rewrite !andb_true_iff, !Z.leb_le, Z.ltb_lt. lia.
Qed.

Lemma record_ok digest size t d :
  Digest_Valid digest = true → (0 < size ≤ MaximumChunkBytes)%Z → (0 < t < 2 ^ 63)%Z →
  row_checks digest (MkCacheRow size t) = true ∧
  Cache_Record (MkEntry digest size t) d = Ok (tt, set_entries (<[digest := MkCacheRow size t]> (cache_entries d)) d).
Proof.
  intros Hd Hs Ht. assert (row_checks digest (MkCacheRow size t) = true) as Hr by (apply checks_hold; done || lia).
  split; [done|]. unfold Cache_Record, upsert, constraint, mbind, Tx_bind, tx_lift.
  rewrite entry_validate_ok by (done || lia). cbn [EntryDigest EntrySize LastAccessed].
  unfold unix_nano. rewrite wrap_int64_id by (unfold int64_range; lia). by rewrite Hr.
Qed.

Lemma delete_ok digest d :
  Digest_Valid digest = true → Cache_Delete digest d = Ok (tt, set_entries (delete digest (cache_entries d)) d).
Proof. intros Hd. unfold Cache_Delete, mbind, Tx_bind, tx_lift, reject_if. by rewrite Hd. Qed.

Definition verified (digest : string) (contents : bytes) : bool :=
  negb (bool_decide (length contents = 0) || (MaximumChunkBytes <? Z.of_nat (length contents))%Z
    || negb (bool_decide (Sum sha256 contents = digest))).

(** The index after an operation: well-formed, and at most one chunk larger. *)
Definition index_near (v v' : Vault) : Prop :=
  index_ok (vault_db v') ∧ (total v' ≤ total v + MaximumChunkBytes)%Z.

Lemma index_near_record v digest size t :
  index_ok (vault_db v) → Digest_Valid digest = true → (0 < size ≤ MaximumChunkBytes)%Z → (0 < t < 2 ^ 63)%Z →
  ∀ files pins, index_near v (MkVault (set_entries (<[digest := MkCacheRow size t]> (cache_entries (vault_db v))) (vault_db v)) files pins).
Proof.
  intros Hi Hd Hs Ht files pins. split.
  - apply map_Forall_insert_2; [|done]. split; [done|]. by apply record_ok with (d := vault_db v).
  - unfold total. cbn [vault_db cache_entries set_entries]. set (m := cache_entries (vault_db v)).
    rewrite <-insert_delete_eq, map_to_list_insert by apply lookup_delete_eq. unfold sum_size at 1. cbn [foldr snd cr_size].
    fold (sum_size (map_to_list (delete digest m))). destruct (m !! digest) as [row|] eqn:E.
    + rewrite (sum_size_delete _ _ row) by done. destruct (Hi _ _ E) as [_ Hr%row_checks_range]. lia.
    + rewrite delete_id by done. lia.
Qed.

Lemma index_near_delete v digest files pins :
  index_ok (vault_db v) → index_near v (MkVault (set_entries (delete digest (cache_entries (vault_db v))) (vault_db v)) files pins).
Proof.
  intros Hi. split; [by apply map_Forall_delete|]. unfold total, MaximumChunkBytes. cbn [vault_db cache_entries set_entries].
  destruct (cache_entries (vault_db v) !! digest) as [row|] eqn:E.
  - rewrite (sum_size_delete _ _ row) by done. destruct (Hi _ _ E) as [_ Hr%row_checks_range]. lia.
  - rewrite delete_id by done. lia.
Qed.

Lemma index_near_same v files pins : index_ok (vault_db v) → index_near v (MkVault (vault_db v) files pins).
Proof.
  intros Hi. split; [done|]. change (total (MkVault (vault_db v) files pins)) with (total v). unfold MaximumChunkBytes. lia.
Qed.

Lemma pin_count_restored v digest t d files :
  pin_count (set_pins (drop_pin digest (add_pin digest (expireReservationsLocked t (vault_pins v))))
    (MkVault d files (add_pin digest (expireReservationsLocked t (vault_pins v))))) digest = pin_count v digest.
Proof.
  pose proof (pin_count_drop (MkVault d files (add_pin digest (expireReservationsLocked t (vault_pins v)))) digest) as E.
  cbn [vault_pins] in E. rewrite E. pose proof (pin_count_add v digest t) as E'. unfold pin_count in *. simpl in *. lia.
Qed.

Lemma read_ends v digest :
  index_ok (vault_db v) → Digest_Valid digest = true →
  ends (Cas_Read sha256 digest) v (λ r v', vault_files v' = vault_files v ∧ index_near v v' ∧
    pin_count v' digest = pin_count v digest ∧
    r = match vault_files v !! digest with
        | None => Err [CasErrNotFound]
        | Some contents => if verified digest contents then Ok contents else Err [CasErrCorrupt] end).
Proof.
  intros Hi Hd. unfold Cas_Read. rewrite Hd. apply ends_bind, ends_lift, ends_bind, ends_ctx, ends_with_pin.
  intros t Ht. apply ends_bind, ends_atomically. cbn [vault_files set_pins].
  destruct (vault_files v !! digest) as [contents|].
  - apply ends_bind, ends_lift. unfold verified. destruct (_ || _) eqn:E; cbn [reject_if negb].
    + refine (conj eq_refl (conj _ (conj (pin_count_restored _ _ _ _ _) eq_refl))). exact (index_near_same v _ _ Hi).
    + reflect_bools. apply ends_bind, ends_now. intros t' Ht'. apply ends_bind, ends_index.
      assert (0 < Z.of_nat (length contents) ≤ MaximumChunkBytes)%Z as Hlen by lia.
      destruct (record_ok digest _ t' (vault_db v) Hd Hlen Ht') as [_ Hrec]. cbn [vault_db set_pins]. rewrite Hrec.
      apply ends_ret. refine (conj eq_refl (conj _ (conj (pin_count_restored _ _ _ _ _) eq_refl))).
      exact (index_near_record v digest _ t' Hi Hd Hlen Ht' _ _).
  - apply ends_bind, ends_index. cbn [vault_db set_pins]. rewrite delete_ok by done. apply ends_fail.
    refine (conj eq_refl (conj _ (conj (pin_count_restored _ _ _ _ _) eq_refl))). exact (index_near_delete v digest _ _ Hi).
Qed.

Definition quota_error (r : result unit) : Prop := ∃ e, r = Err e ∧ errors_is e CacheErrQuotaExceeded = true.

(** A pinned chunk survives [Enforce]. *)
Lemma enforce_keeps_pinned v digest :
  index_ok (vault_db v) → (total v < 2 ^ 63)%Z → (0 < pin_count v digest)%Z →
  ends (Enforce maximumBytes) v (λ r v', (r = Ok tt ∨ quota_error r) ∧ index_ok (vault_db v') ∧
    vault_files v' !! digest = vault_files v !! digest).
Proof.
  intros Hi Ht Hpin. eapply ends_mono; [by apply enforce_ends|]. intros r v' (-> & removed & Hev). split_and!.
  - unfold verdict. destruct (_ <? _)%Z; [right|by left]. by eexists.
  - rewrite (ev_vault _ _ _ _ _ Hev). by apply index_ok_without.
  - apply (pass_same maximumBytes v v' removed Hev). right.
    destruct (ev_pins _ _ _ _ _ Hev) as (_ & _ & Htr & _). unfold pinnedLocked. rewrite Htr.
    unfold pin_count in Hpin. by rewrite (proj2 (Z.ltb_lt _ _)) by done.
Qed.

Lemma store_new_ends v digest contents :
  index_ok (vault_db v) → (total v < 2 ^ 62)%Z → (0 < pin_count v digest)%Z → Digest_Valid digest = true →
  (0 < Z.of_nat (length contents) ≤ MaximumChunkBytes)%Z →
  ends (store_new sha256 maximumBytes digest contents) v (λ r v',
    (r = Ok tt ∨ quota_error r) ∧ index_ok (vault_db v') ∧ vault_files v' !! digest = Some contents).
Proof.
  intros Hi Ht Hpin Hd Hlen. unfold store_new. apply ends_bind, ends_ctx, ends_bind, ends_try, ends_atomically.
  cbn beta iota. apply ends_bind, ends_now. intros t Hclock. apply ends_bind, ends_index. cbn [vault_db set_files].
  destruct (record_ok digest _ t (vault_db v) Hd Hlen Hclock) as [_ ->].
  destruct (index_near_record v digest _ t Hi Hd Hlen Hclock (<[digest := contents]> (vault_files v)) (vault_pins v)) as [Hi' Ht'].
  eapply ends_mono; [apply (enforce_keeps_pinned _ digest Hi')|].
  - cbn [vault_files vault_pins set_files]. unfold MaximumChunkBytes in *. lia.
  - exact Hpin.
  - intros r v' (Hr & Hi2 & Hf). split_and!; [done|done|]. rewrite Hf. apply lookup_insert_eq.
Qed.

Lemma has_ends v digest :
  index_ok (vault_db v) → Digest_Valid digest = true →
  ends (Has sha256 digest) v (λ r v', vault_files v' = vault_files v ∧ index_near v v' ∧
    pin_count v' digest = pin_count v digest ∧
    r = match vault_files v !! digest with
        | None => Ok false
        | Some contents => if verified digest contents then Ok true else Err [CasErrCorrupt] end).
Proof.
  intros Hi Hd. apply ends_bind, ends_try. eapply ends_mono; [by apply read_ends|].
  intros r v' (Hf & Hn & Hp & ->). destruct (vault_files v !! digest) as [c|]; [destruct (verified digest c)|].
  - by apply ends_ret.
  - by apply ends_fail.
  - by apply ends_ret.
Qed.

Lemma put_ends v digest contents :
  index_ok (vault_db v) → (total v < 2 ^ 61)%Z → (0 ≤ pin_count v digest)%Z → Digest_Valid digest = true →
  verified digest contents = true →
  ends (Cas_Put sha256 maximumBytes digest contents) v (λ r v',
    (r = Ok tt ∨ quota_error r) ∧ index_ok (vault_db v') ∧
    ∃ c, vault_files v' !! digest = Some c ∧ verified digest c = true ∧
      (vault_files v !! digest = None → c = contents)).
Proof.
  intros Hi Ht Hpin Hd Hver. pose proof Hver as Hv'. unfold verified in Hv'. apply negb_true_iff in Hv'.
  unfold Cas_Put. rewrite Hd. cbn [negb orb]. rewrite Hv'. reflect_bools.
  assert (0 < Z.of_nat (length contents) ≤ MaximumChunkBytes)%Z as Hlen by lia.
  apply ends_bind, ends_lift, ends_bind, ends_ctx, ends_with_pin. intros t Hclock.
  set (v1 := set_pins _ v). assert (pin_count v1 digest = pin_count v digest + 1)%Z as Hp1 by apply pin_count_add.
  apply ends_bind, ends_try. eapply ends_mono; [by apply (has_ends v1)|].
  intros r v2 (Hf & [Hi2 Ht2] & Hp2 & ->). change (total v1) with (total v) in Ht2. change (vault_files v1) with (vault_files v) in *.
  assert (∀ v3, index_ok (vault_db v3) → (total v3 < 2 ^ 62)%Z → (0 < pin_count v3 digest)%Z →
    ends (store_new sha256 maximumBytes digest contents) v3 (λ r v', (r = Ok tt ∨ quota_error r) ∧
      index_ok (vault_db v') ∧ ∃ c, vault_files v' !! digest = Some c ∧ verified digest c = true ∧
      (vault_files v !! digest = None → c = contents))) as Hstore.
  { intros v3 ? ? ?. eapply ends_mono; [by apply store_new_ends|]. intros r v4 (? & ? & ?). split_and!; [done|done|].
    by exists contents. }
  destruct (vault_files v !! digest) as [c|] eqn:Ec; [destruct (verified digest c) eqn:Ev|].
  - apply ends_ret. split_and!; [by left|done|]. exists c. simpl. by rewrite Hf.
  - cbn [errors_is]. apply ends_bind, ends_atomically. cbn beta iota. apply ends_bind, ends_index. cbn [vault_db set_files].
    rewrite delete_ok by done. destruct (index_near_delete v2 digest (delete digest (vault_files v2)) (vault_pins v2) Hi2) as [Hi3 Ht3].
    eapply ends_mono; [apply (Hstore _ Hi3)|intros; assumption].
    + cbn [vault_files vault_pins set_files]. unfold MaximumChunkBytes in *. lia.
    + change (0 < pin_count v2 digest)%Z. lia.
  - eapply ends_mono; [apply Hstore; [done|unfold MaximumChunkBytes in *; lia|lia]|intros; assumption].
Qed.

End Chunks.

(** A stored chunk can be read back, whatever the quota does.  Without failures,
    putting a chunk of 1 byte to 512 KiB under its digest succeeds or reports only
    that the quota is exceeded, and in both cases reading that digest then returns
    verified content with it, the very content if the chunk was absent before: the
    chunk is pinned while the quota is enforced, so it is not evicted. *)
Theorem put_then_read (U : UnicodeCase) (sha256 : bytes → bytes) (maximumBytes : Z) (contents : bytes) (w : World Vault) :
  (∀ c, length (sha256 c) = DigestBytes) → (0 < Z.of_nat (length contents) ≤ MaximumChunkBytes)%Z →
  calm w → ticking w → index_ok (vault_db (w_db w)) → (total (w_db w) < 2 ^ 61)%Z →
  (0 ≤ pin_count (w_db w) (Sum sha256 contents))%Z →
  ∃ r w1 c w2, Cas_Put sha256 maximumBytes (Sum sha256 contents) contents w = (r, w1) ∧
    (r = Ok tt ∨ quota_error r) ∧
    Cas_Read sha256 (Sum sha256 contents) w1 = (Ok c, w2) ∧ Sum sha256 c = Sum sha256 contents ∧
    (vault_files (w_db w) !! Sum sha256 contents = None → c = contents).
Proof.
  intros Hsha Hlen Hcalm Htick Hi Ht Hpin. assert (Digest_Valid (Sum sha256 contents) = true) as Hd by (by apply sum_valid).
  assert (verified sha256 (Sum sha256 contents) contents = true) as Hver.
  { unfold verified. rewrite bool_decide_false, (proj2 (Z.ltb_ge _ _)), bool_decide_true by (done || lia). done. }
  destruct (put_ends sha256 maximumBytes _ _ contents Hi Ht Hpin Hd Hver w Hcalm Htick eq_refl)
    as (r & w1 & Hput & Hc1 & Ht1 & Hr & Hi1 & c & Hc & Hvc & Hsame).
  destruct (read_ends sha256 _ _ Hi1 Hd w1 Hc1 Ht1 eq_refl) as (r2 & w2 & Hread & _ & _ & _ & _ & _ & Hr2).
  rewrite Hc, Hvc in Hr2. subst r2. exists r, w1, c, w2. split_and!; try done.
  unfold verified in Hvc. apply negb_true_iff in Hvc. by reflect_bools.
Qed.

(** ** The invariant of the store *)

Lemma try_ok {DB A} (m : M DB A) w (a : A) w' : try_ m w = (Ok (Ok a), w') → m w = (Ok a, w').
Proof. unfold try_. destruct (m w) as [r w1]. by intros [= -> ->]. Qed.

Section Invariant.
Context `{UnicodeCase} (sha256 : bytes → bytes) (maximumBytes : Z).

Definition pins_ok (p : Pins) : Prop :=
  size (reservations p) ≤ maximumReservations ∧
  map_Forall (λ _ r, (Z.of_nat (size (r_digests r)) ≤ MaximumChunks)%Z) (reservations p).

(** [c] is a content that [digest] names: it has that hash and the length of a chunk. *)
Definition named_by (digest : string) (c : bytes) : Prop :=
  Sum sha256 c = digest ∧ (0 < Z.of_nat (length c) ≤ MaximumChunkBytes)%Z.

(** A well-formed index whose sizes are those of contents that its digests name. *)
Definition index_sound (d : CacheDB) : Prop :=
  index_ok d ∧ map_Forall (λ digest row, ∃ c, named_by digest c ∧ cr_size row = Z.of_nat (length c)) (cache_entries d).

(** The store and its index: every file is a content its name names, the index is sound,
    and there are at most 64 reservations of at most a manifest's chunks.  An entry may
    be without its file and a file without its entry, for a while: a chunk gets its file
    first and its entry then, and loses them in that order. *)
Definition vault_ok (v : Vault) : Prop :=
  index_sound (vault_db v) ∧ map_Forall named_by (vault_files v) ∧ pins_ok (vault_pins v).

(** So an entry has the size of the file of its chunk, unless two contents share the hash. *)
Lemma sizes_agree v digest row c : vault_ok v → cache_entries (vault_db v) !! digest = Some row → vault_files v !! digest = Some c →
  (∀ c', named_by digest c' → c' = c) → cr_size row = Z.of_nat (length c).
Proof. intros ((_ & Hs) & _ & _) Hr _ Huniq. destruct (Hs _ _ Hr) as (c' & Hc & ->). by rewrite (Huniq _ Hc). Qed.

Lemma index_keeps {A} (t : Tx CacheDB A) : preserves index_sound t → keeps vault_ok (on_index t).
Proof.
  intros Ht. apply atomically_keeps. intros v a v' [Hi Hp] E. destruct (t (vault_db v)) as [[a' d]|] eqn:Et; [|done].
  injection E as <- <-. split; [|done]. by eapply Ht.
Qed.

Lemma locked_keeps {A} (t : bool → Vault → result A * Vault) :
  (∀ b v, vault_ok v → vault_ok (t b v).2) → keeps vault_ok (locked t).
Proof.
  intros Ht w r w' Hst Hv. unfold locked. specialize (Ht (w_fault w (w_access w)) (next_db w)).
  destruct (t _ _) as [r' v']. intros [= <- <-]. split; [|done]. by apply Ht, Hst.
Qed.

Lemma pins_keeps f : (∀ p, pins_ok p → pins_ok (f p)) → keeps vault_ok (on_pins f).
Proof. intros Hf. apply locked_keeps. intros _ v (Hi & Hc & Hp). split_and!; [done..|]. by apply Hf. Qed.

Lemma pins_ok_subset p p' : reservations p' ⊆ reservations p → pins_ok p → pins_ok p'.
Proof.
  intros Hsub [Hs Hall]. split.
  - apply map_subseteq_size in Hsub. lia.
  - intros k r Hk. eapply (Hall k), lookup_weaken; done.
Qed.

Lemma expire_ok t p : pins_ok p → pins_ok (expireReservationsLocked t p).
Proof. apply pins_ok_subset. apply map_filter_subseteq. Qed.

Lemma upsert_preserves digest row : Digest_Valid digest = true → preserves index_ok (upsert digest row).
Proof.
  intros Hd d a d' Hi Hrun. unfold upsert in Hrun. invert_tx Hrun. by apply map_Forall_insert_2.
Qed.

Lemma record_preserves digest c at_ : named_by digest c → preserves index_sound (Cache_Record (MkEntry digest (Z.of_nat (length c)) at_)).
Proof.
  intros Hc d a d' [Hi Hs] (u & d1 & [Hval ->]%tx_lift_ok & Hrun)%tx_bind_ok. split.
  - eapply upsert_preserves; [|exact Hi|exact Hrun]. unfold Entry_Validate in Hval. apply reject_if_ok in Hval. by reflect_bools.
  - unfold upsert in Hrun. invert_tx Hrun. apply map_Forall_insert_2; [|done]. by exists c.
Qed.

Lemma delete_preserves digest : preserves index_sound (Cache_Delete digest).
Proof.
  intros d a d' [Hi Hs] Hrun. unfold Cache_Delete, delete_entry in Hrun. invert_tx Hrun. split; by apply map_Forall_delete.
Qed.

Lemma stats_preserves : preserves index_sound Cache_Stats.
Proof. unfold Cache_Stats. auto 10 with hop. Qed.
Lemma candidates_preserves : preserves index_sound EvictionCandidates.
Proof. unfold EvictionCandidates. auto 10 with hop. Qed.

#[local] Hint Resolve index_keeps pins_keeps record_preserves delete_preserves stats_preserves candidates_preserves expire_ok : hop.

Lemma ctx_keeps : keeps vault_ok check_ctx.
Proof. apply atomically_keeps. auto with hop. Qed.
#[local] Hint Resolve ctx_keeps : hop.

Lemma evict_keeps digest t : keeps vault_ok (locked (evict digest t)).
Proof.
  apply locked_keeps. intros b v (Hi & Hc & Hp). unfold evict. apply (expire_ok t) in Hp. repeat case_match; [by split_and!..|].
  split_and!; [done|by apply map_Forall_delete|done].
Qed.
#[local] Hint Resolve evict_keeps : hop.

Lemma evict_loop_keeps cs current pinned : keeps vault_ok (evict_loop maximumBytes cs current pinned).
Proof.
  revert current pinned. induction cs as [|c cs IH]; intros current pinned; simpl; [auto with hop|].
  case_match; [auto with hop|]. do 2 (apply bind_keeps; [auto with hop|intros ?]).
  apply bind_keeps; [auto with hop|]. intros []; auto with hop.
Qed.
#[local] Hint Resolve evict_loop_keeps : hop.

Lemma enforce_keeps : keeps vault_ok (Enforce maximumBytes).
Proof.
  unfold Enforce. do 2 (apply bind_keeps; [auto with hop|intros ?]). case_match; auto 10 with hop.
Qed.
#[local] Hint Resolve enforce_keeps : hop.

Lemma with_pin_keeps {A} digest (m : M Vault A) : keeps vault_ok m → keeps vault_ok (with_pin digest m).
Proof.
  intros Hm. unfold with_pin. apply bind_keeps; [auto with hop|intros t]. apply bind_keeps.
  - apply pins_keeps. intros p Hp. exact (expire_ok t p Hp).
  - intros _. apply bind_keeps; [auto with hop|intros r]. apply bind_keeps; [|auto with hop]. by apply pins_keeps.
Qed.

Lemma commit_keeps digest contents : named_by digest contents → keeps vault_ok (commit_file digest contents).
Proof. intros Hv. apply atomically_keeps. intros v a v' (Hi & Hc & Hp) [= <- <-]. split_and!; [done|by apply map_Forall_insert_2|done]. Qed.
Lemma remove_keeps digest : keeps vault_ok (remove_file digest).
Proof. apply atomically_keeps. intros v a v' (Hi & Hc & Hp) [= <- <-]. split_and!; [done|by apply map_Forall_delete|done]. Qed.
#[local] Hint Resolve commit_keeps remove_keeps : hop.

Lemma read_keeps digest : keeps vault_ok (Cas_Read sha256 digest).
Proof.
  unfold Cas_Read. do 2 (apply bind_keeps; [auto with hop|intros _]). apply with_pin_keeps, bind_keeps.
  - apply atomically_keeps. by intros v a v' Hv [= <- <-].
  - intros [c|]; [|auto 10 with hop]. apply lift_bind_keeps. intros u Hcheck%reject_if_ok. reflect_bools.
    assert (named_by digest c) by (split; [done|lia]). auto 10 with hop.
Qed.
#[local] Hint Resolve read_keeps : hop.

Lemma has_keeps digest : keeps vault_ok (Has sha256 digest).
Proof. unfold Has. apply bind_keeps; [auto with hop|]. intros [c|e]; [auto with hop|]. case_match; auto with hop. Qed.
#[local] Hint Resolve has_keeps : hop.

Lemma store_new_keeps digest contents : named_by digest contents → keeps vault_ok (store_new sha256 maximumBytes digest contents).
Proof.
  intros Hv. unfold store_new. do 2 (apply bind_keeps; [auto with hop|intros ?]).
  destruct a0 as [u|e]; [auto 10 with hop|]. apply bind_keeps; [auto with hop|]. intros [[]|]; auto with hop.
Qed.
#[local] Hint Resolve store_new_keeps : hop.

Lemma put_keeps digest contents : keeps vault_ok (Cas_Put sha256 maximumBytes digest contents).
Proof.
  unfold Cas_Put. apply lift_bind_keeps. intros u Hcheck%reject_if_ok. reflect_bools.
  assert (named_by digest contents) by (split; [done|lia]). apply bind_keeps; [auto with hop|intros _].
  apply with_pin_keeps, bind_keeps; [auto with hop|]. intros [[]|e]; [auto with hop..|]. case_match; auto 10 with hop.
Qed.

Lemma missing_keeps digests : keeps vault_ok (Missing sha256 digests).
Proof.
  unfold Missing. apply bind_keeps; [auto with hop|intros _]. generalize (merge_sort String.le (elements (list_to_set (C := gset string) digests))).
  intros l. induction l as [|k l IH]; simpl; [auto with hop|]. apply bind_keeps; [auto with hop|].
  intros [[]|e]; [auto with hop..|]. case_match; auto with hop.
Qed.

Lemma reserve_ok manifestID unique t p : pins_ok p → pins_ok (reserve manifestID unique t p).2.
Proof.
  intros Hp%(expire_ok t). unfold reserve. generalize dependent (expireReservationsLocked t p).
  intros q [Hs Hall].
  destruct (bool_decide (_ = None) && _) eqn:E; [done|]. destruct (_ <? _)%Z eqn:E2; [done|]. apply Z.ltb_ge in E2. split; simpl.
  - rewrite map_size_insert. destruct (reservations q !! manifestID) eqn:El; [exact Hs|].
    apply andb_false_iff in E as [E|E]; apply bool_decide_eq_false in E; [done|]. simpl. lia.
  - apply map_Forall_insert_2; [|done]. simpl. done.
Qed.

Lemma reserve_keeps manifestID digests : keeps vault_ok (Reserve maximumBytes manifestID digests).
Proof.
  unfold Reserve. do 4 (apply bind_keeps; [auto with hop|intros ?]). apply bind_keeps; [|auto with hop].
  apply locked_keeps. intros _ v (Hi & Hc & Hp). pose proof (reserve_ok manifestID (list_to_set digests) a2 _ Hp) as Hr.
  by destruct (reserve _ _ _ _).
Qed.

Lemma uses_keep : keeps vault_ok BeginUse ∧ keeps vault_ok (EndUse maximumBytes).
Proof.
  split; (apply bind_keeps; [|intros t]).
  - auto with hop.
  - apply pins_keeps. intros p Hp. exact (expire_ok t p Hp).
  - apply locked_keeps. by intros _ v (Hi & Hc & Hp).
  - destruct t; auto with hop.
Qed.

Lemma release_keeps manifestID : keeps vault_ok (ReleaseReservation maximumBytes manifestID).
Proof.
  unfold ReleaseReservation. case_match; [auto with hop|]. apply bind_keeps; [|auto with hop].
  apply pins_keeps. intros p. apply pins_ok_subset. apply delete_subseteq.
Qed.

End Invariant.

(** The store stays sound, whatever fails and whatever other threads do that keeps it so:
    every operation keeps every file a content that its name names (hash and length),
    every index entry with a valid digest, a positive access time and the size of such a
    content, and at most 64 reservations with at most as many chunks each as a manifest
    may have. *)
Theorem store_keeps_invariant (U : UnicodeCase) (sha256 : bytes → bytes) (maximumBytes : Z) :
  let ok := vault_ok sha256 in
  keeps ok (Enforce maximumBytes) ∧ keeps ok BeginUse ∧ keeps ok (EndUse maximumBytes) ∧
  (∀ manifestID digests, keeps ok (Reserve maximumBytes manifestID digests)) ∧
  (∀ manifestID, keeps ok (ReleaseReservation maximumBytes manifestID)) ∧
  (∀ digest, keeps ok (Cas_Read sha256 digest)) ∧
  (∀ digest contents, keeps ok (Cas_Put sha256 maximumBytes digest contents)) ∧
  (∀ digests, keeps ok (Missing sha256 digests)).
Proof.
  intros ok. destruct (uses_keep sha256 maximumBytes) as [Hbegin Hend].
  split_and!; [apply enforce_keeps|exact Hbegin|exact Hend|apply reserve_keeps|apply release_keeps| | |].
  - apply read_keeps.
  - apply put_keeps.
  - apply missing_keeps.
Qed.

(** Content read from the store is verified.  Whatever fails, whatever the files hold
    and whatever other threads do, a chunk that [Read] returns has the digest asked
    for and a length of 1 byte to 512 KiB. *)
Theorem read_verified (U : UnicodeCase) (sha256 : bytes → bytes) (digest : string) (w : World Vault) contents w' :
  Cas_Read sha256 digest w = (Ok contents, w') →
  Sum sha256 contents = digest ∧ (0 < Z.of_nat (length contents) ≤ MaximumChunkBytes)%Z.
Proof.
  intros (u1 & w1 & _ & (u2 & w2 & _ & Hrun)%m_bind_ok)%m_bind_ok.
  apply m_bind_ok in Hrun as (t & w3 & _ & (u3 & w4 & _ & (r & w5 & Hbody & (u4 & w6 & _ & Hr)%m_bind_ok)%m_bind_ok)%m_bind_ok).
  unfold lift in Hr. injection Hr as -> ->. apply try_ok, m_bind_ok in Hbody as (file & w8 & _ & Hread). destruct file as [c|].
  - apply m_bind_ok in Hread as (u5 & w9 & Hcheck & (t' & w10 & _ & (u6 & w11 & _ & Hret)%m_bind_ok)%m_bind_ok).
    injection Hret as -> _. unfold lift in Hcheck. injection Hcheck as Hcheck _. apply reject_if_ok in Hcheck.
    reflect_bools. split; [done|lia].
  - by apply m_bind_ok in Hread as (u5 & w9 & _ & ?).
Qed.

(** ** Reconciling the index with the disk *)

Section Reconcile.
Context `{UnicodeCase}.

(** A file that the scan of the disk can report: a chunk with a modification time
    that the column can hold. *)
Definition observable (e : Entry) : Prop := Entry_Validate e = Ok tt ∧ (0 < LastAccessed e < 2 ^ 63)%Z.

Definition adopted_row (d : CacheDB) (e : Entry) : CacheRow :=
  MkCacheRow (EntrySize e)
    (match cache_entries d !! EntryDigest e with Some row => cr_accessed row | None => LastAccessed e end).

Lemma observable_valid e : observable e →
  Digest_Valid (EntryDigest e) = true ∧ (0 < EntrySize e ≤ MaximumChunkBytes)%Z.
Proof. intros [Hv _]. unfold Entry_Validate in Hv. apply reject_if_ok in Hv. reflect_bools. split; [done|lia]. Qed.

Lemma adopted_checks d e : index_ok d → observable e → row_checks (EntryDigest e) (adopted_row d e) = true.
Proof.
  intros Hd He. destruct (observable_valid e He) as [Hv Hs]. destruct He as [_ Ht]. apply checks_hold; [done|done|].
  destruct (cache_entries d !! EntryDigest e) as [row|] eqn:E; [|lia]. by destruct (Hd _ _ E) as [_ [_ ?]%row_checks_range].
Qed.

Lemma adopt_step d e rest : index_ok d → observable e →
  adopt (e :: rest) d = adopt rest (set_entries (<[EntryDigest e := adopted_row d e]> (cache_entries d)) d).
Proof.
  intros Hd He. pose proof (adopted_checks d e Hd He) as Hc. destruct (observable_valid e He) as [Hv Hs]. destruct He as [_ Ht].
  cbn [adopt]. unfold upsert, constraint, mbind, Tx_bind, tx_lift, tx_read, tx_write. unfold unix_nano.
  rewrite wrap_int64_id by (unfold int64_range; lia). rewrite checks_hold by (done || lia). cbn [negb reject_if cr_accessed].
  unfold adopted_row in Hc. by rewrite Hc.
Qed.

Lemma adopt_ends observed d :
  NoDup (map EntryDigest observed) → Forall observable observed → index_ok d →
  ∃ entries, adopt observed d = Ok (tt, set_entries entries d) ∧ index_ok (set_entries entries d) ∧
    (∀ e, e ∈ observed → entries !! EntryDigest e = Some (adopted_row d e)) ∧
    (∀ k, k ∉ map EntryDigest observed → entries !! k = cache_entries d !! k).
Proof.
  intros Hnd Hall. revert d. induction Hall as [|e rest He Hall IH]; intros d Hd.
  { exists (cache_entries d). destruct d. split_and!; try done. by intros e ?%elem_of_nil. }
  apply NoDup_cons in Hnd as [Hnot Hnd]. rewrite adopt_step by done. set (d1 := set_entries _ d).
  assert (index_ok d1) as Hd1.
  { apply map_Forall_insert_2; [|done]. split; [by apply observable_valid|by apply adopted_checks]. }
  destruct (IH Hnd d1 Hd1) as (entries & Hrun & Hok & Hin & Hout). exists entries. split_and!; [done|done| |].
  - intros e' [->|He']%elem_of_cons.
    + rewrite Hout by done. apply lookup_insert_eq.
    + rewrite (Hin e' He'). unfold adopted_row, d1. simpl. rewrite lookup_insert_ne; [done|].
      intros E. apply Hnot. rewrite E. apply list_elem_of_fmap. eauto.
  - intros k Hk. apply not_elem_of_cons in Hk as [Hne Hk]. rewrite Hout by done. unfold d1. simpl. by apply lookup_insert_ne.
Qed.

Lemma check_observed_ok observed seen :
  NoDup (map EntryDigest observed) → Forall observable observed → (∀ e, e ∈ observed → EntryDigest e ∉ seen) →
  check_observed observed seen = Ok tt.
Proof.
  intros Hnd Hall. revert seen. induction Hall as [|e rest [Hv _] Hall IH]; intros seen Hseen; [done|].
  apply NoDup_cons in Hnd as [Hnot Hnd]. cbn [check_observed]. rewrite Hv. unfold mbind, result_bind, reject_if.
  rewrite bool_decide_false by (apply Hseen; set_solver). apply IH; [done|]. intros e' He'.
  assert (EntryDigest e' ≠ EntryDigest e) by (intros E; apply Hnot; rewrite <-E; apply list_elem_of_fmap; eauto).
  set_solver.
Qed.

End Reconcile.

(** Opening the store makes the index match the disk.  After [Reconcile] with the
    chunks found on disk the index has exactly their digests, each with the size found;
    a chunk indexed before keeps its access time, a new one takes the file's, and
    references, artifacts and jobs are left alone. *)
Theorem reconcile_exact (U : UnicodeCase) (observed : list Entry) (d : CacheDB) :
  index_ok d → NoDup (map EntryDigest observed) → Forall observable observed →
  ∃ entries, Cache_Reconcile observed d = Ok (tt, set_entries entries d) ∧ index_ok (set_entries entries d) ∧
    (∀ e, e ∈ observed → entries !! EntryDigest e = Some (adopted_row d e)) ∧
    (∀ k, k ∉ map EntryDigest observed → entries !! k = None).
Proof.
  intros Hd Hnd Hall. unfold Cache_Reconcile, tx_lift, tx_read, tx_write. unfold mbind, Tx_bind.
  rewrite check_observed_ok by (done || set_solver).
  assert (forallb (λ kv, Digest_Valid kv.1) (map_to_list (cache_entries d)) = true) as ->.
  { apply forallb_forall. intros [k row] Hin. apply list_elem_of_In, elem_of_map_to_list in Hin. by apply (Hd k row). }
  cbn [negb reject_if]. set (kept := filter _ (cache_entries d)). assert (∀ e, e ∈ observed → kept !! EntryDigest e = cache_entries d !! EntryDigest e) as Hkept.
  { intros e He. unfold kept. rewrite map_lookup_filter. destruct (cache_entries d !! EntryDigest e); [|done].
    simpl. rewrite option_guard_True; [done|]. apply list_elem_of_fmap. eauto. }
  destruct (adopt_ends observed (set_entries kept d) Hnd Hall) as (entries & Hrun & Hok & Hin & Hout).
  { intros k row [Hk _]%map_lookup_filter_Some. by apply Hd. }
  exists entries. split_and!; [exact Hrun|done| |].
  - intros e He. rewrite (Hin e He). unfold adopted_row. cbn [cache_entries set_entries]. by rewrite Hkept.
  - intros k Hk. rewrite Hout by done. apply map_lookup_filter_None. right. intros row _. done.
Qed.

(** ** Witnesses *)

Definition sample_digest (c : ascii) : string := str_of (replicate 64 c).
Definition sample_cache : CacheDB :=
  MkCacheDB {[ sample_digest "1" := MkCacheRow 524288 5; sample_digest "2" := MkCacheRow 300000 3 ]} ∅ ∅ ∅.
Definition sample_vault : Vault :=
  MkVault sample_cache {[ sample_digest "2" := bytes_of "abc" ]} (MkPins 0 ∅ ∅ ∅).
Definition sample_store : World Vault := quiet sample_vault (λ _, 9%Z).

Lemma sample_index_ok : @index_ok ascii_case sample_cache.
Proof. apply map_Forall_insert_2; [|apply map_Forall_singleton]; split; vm_compute; reflexivity. Qed.

Lemma sample_ticking : ticking sample_store.
Proof. intros n. unfold ticks. simpl. lia. Qed.

(** The least recently used of two chunks is evicted. *)
Lemma enforce_exact_witness :
  ∃ r w', Enforce (H := ascii_case) 600000 sample_store = (r, w') ∧
    (r = Ok tt ∧ (total (w_db w') ≤ 600000)%Z ∨ r = Err (QuotaError 600000 (total (w_db w')) (total (w_db w')))) ∧
    vault_files (w_db w') !! sample_digest "2" = None.
Proof.
  destruct (enforce_exact ascii_case 600000 sample_store (quiet_calm _ _) sample_ticking sample_index_ok eq_refl)
    as (r & w' & Hrun & Hr & _). exists r, w'. split; [exact Hrun|]. split.
  - destruct Hr as [Hr|(Hr & _)]; [left|right]; exact Hr.
  - apply (f_equal (λ x, vault_files (w_db x.2) !! sample_digest "2")) in Hrun. simpl in Hrun. rewrite <-Hrun.
    vm_compute. reflexivity.
Defined.

Lemma put_then_read_witness :
  ∃ r w1 c w2, Cas_Put (H := ascii_case) sample_sha256 600000 (Sum sample_sha256 (bytes_of "abc")) (bytes_of "abc") sample_store = (r, w1) ∧
    Cas_Read (H := ascii_case) sample_sha256 (Sum sample_sha256 (bytes_of "abc")) w1 = (Ok c, w2) ∧ c = bytes_of "abc".
Proof.
  destruct (put_then_read ascii_case sample_sha256 600000 (bytes_of "abc") sample_store)
    as (r & w1 & c & w2 & Hput & _ & Hread & _ & Hc).
  - intros c. reflexivity.
  - split; vm_compute; [reflexivity|discriminate].
  - apply quiet_calm.
  - exact sample_ticking.
  - exact sample_index_ok.
  - reflexivity.
  - vm_compute. discriminate.
  - exists r, w1, c, w2. split; [exact Hput|]. split; [exact Hread|]. apply Hc. vm_compute. reflexivity.
Defined.

Definition sample_stored : World Vault :=
  quiet (MkVault sample_cache {[ Sum sample_sha256 (bytes_of "abc") := bytes_of "abc" ]} (MkPins 0 ∅ ∅ ∅)) (λ _, 9%Z).

Lemma read_verified_witness :
  (Cas_Read (H := ascii_case) sample_sha256 (Sum sample_sha256 (bytes_of "abc")) sample_stored).1 = Ok (bytes_of "abc") ∧
  (0 < Z.of_nat (length (bytes_of "abc")) ≤ MaximumChunkBytes)%Z.
Proof.
  split; [vm_compute; reflexivity|].
  exact (proj2 (read_verified ascii_case sample_sha256 (Sum sample_sha256 (bytes_of "abc")) sample_stored (bytes_of "abc")
    (Cas_Read (H := ascii_case) sample_sha256 (Sum sample_sha256 (bytes_of "abc")) sample_stored).2
    (surjective_pairing (Cas_Read (H := ascii_case) sample_sha256 (Sum sample_sha256 (bytes_of "abc")) sample_stored)))).
Defined.

(** A chunk found on disk keeps its access time, one that is gone leaves the index. *)
Lemma reconcile_exact_witness :
  ∃ entries, Cache_Reconcile (H := ascii_case) [MkEntry (sample_digest "1") 7 8] sample_cache = Ok (tt, set_entries entries sample_cache) ∧
    entries !! sample_digest "1" = Some (MkCacheRow 7 5) ∧ entries !! sample_digest "2" = None.
Proof.
  destruct (reconcile_exact ascii_case [MkEntry (sample_digest "1") 7 8] sample_cache) as (entries & Hrun & _ & Hin & Hout).
  - exact sample_index_ok.
  - apply NoDup_singleton.
  - apply Forall_singleton. split; [vm_compute; reflexivity|simpl; lia].
  - exists entries. split; [exact Hrun|]. split.
    + refine (eq_trans (Hin (MkEntry (sample_digest "1") 7 8) (list_elem_of_here _ _)) _). vm_compute. reflexivity.
    + apply Hout. intros E. apply list_elem_of_singleton in E. vm_compute in E. discriminate E.
Defined.
