(* ===== verification/Retention.v ===== *)
(** * Chunks in use (internal/infra/cas/managed.go and store.go)

    What the snapshotter relies on ([ChunkStoreLaws]) holds of the content store while
    its caller has begun a use ([BeginUse]): a chunk that was stored stays, intact,
    whatever is evicted meanwhile, because storing pins it for the operation. *)

From S2P Require Import Prelude GoText Effects Snapshot ContentCache.
From Stdlib Require Import Ascii.
Local Open Scope string_scope.
Local Open Scope nat_scope.
Local Open Scope list_scope.

Section Retention.
Context `{UnicodeCase} (sha256 : bytes → bytes) (maximumBytes : Z).

(** A use has begun, and the chunk is pinned for it. *)
Definition in_use (v : Vault) : Prop := (0 < activeUses (vault_pins v))%Z.
Definition pinned_for_use (digest : string) (v : Vault) : Prop := in_use v ∧ digest ∈ operationPins (vault_pins v).

(** ... and its file is there, with a content that the digest names. *)
Definition retained (digest : string) (v : Vault) : Prop :=
  pinned_for_use digest v ∧ ∃ c, vault_files v !! digest = Some c ∧ named_by sha256 digest c.

(** The other threads leave what is in use alone. *)
Definition respectful (w : World Vault) : Prop :=
  stable in_use w ∧ ∀ digest, stable (pinned_for_use digest) w ∧ stable (retained digest) w.

(** ** What keeps chunks *)

Section Kept.
Context (d : string).

(** The three predicates, of which all but the last concern the pins only. *)
Lemma on_index_retains {A} (t : Tx CacheDB A) : keeps (retained d) (on_index t) ∧ keeps (pinned_for_use d) (on_index t) ∧ keeps in_use (on_index t).
Proof. split_and!; apply atomically_keeps; intros v a v' Hv E; destruct (t (vault_db v)) as [[a' d']|]; by simplify_eq. Qed.

Definition only_adds (f : Pins → Pins) : Prop := ∀ p, activeUses (f p) = activeUses p ∧ operationPins p ⊆ operationPins (f p).
Lemma on_pins_retains f : only_adds f → keeps (retained d) (on_pins f) ∧ keeps (pinned_for_use d) (on_pins f) ∧ keeps in_use (on_pins f).
Proof.
  intros Hf. assert (∀ v, in_use v → in_use (set_pins (f (vault_pins v)) v)) as H1
    by (intros v; unfold in_use; simpl; by rewrite (proj1 (Hf _))).
  assert (∀ v, pinned_for_use d v → pinned_for_use d (set_pins (f (vault_pins v)) v)) as H2
    by (intros v [Hu Hp]; split; [by apply H1|simpl; by apply (proj2 (Hf _))]).
  split_and!; intros w r w' Hst Hv; unfold on_pins, locked; intros [= <- <-]; (split; [|done]); simpl.
  - apply (Hst (w_access w)) in Hv as [Hp Hc]. split; [by apply H2|done].
  - by apply H2, Hst.
  - by apply H1, Hst.
Qed.

Lemma expire_adds t : only_adds (expireReservationsLocked t).
Proof. by intros p. Qed.
Lemma add_pin_adds digest t : only_adds (λ p, add_pin digest (expireReservationsLocked t p)).
Proof. intros p. split; [done|]. simpl. case_match; set_solver. Qed.
Lemma drop_pin_adds digest : only_adds (drop_pin digest).
Proof. by intros p. Qed.

Lemma with_pin_each {A} (I : Vault → Prop) digest (m : M Vault A) : (∀ f, only_adds f → keeps I (on_pins f)) → keeps I m → keeps I (with_pin digest m).
Proof.
  intros Hf Hm. unfold with_pin. apply bind_keeps; [auto with hop|intros t]. apply bind_keeps; [apply Hf, add_pin_adds|intros _].
  apply bind_keeps; [auto with hop|intros r]. apply bind_keeps; [apply Hf, drop_pin_adds|auto with hop].
Qed.

(** Nothing that is pinned is evicted. *)
Lemma evict_retains digest t : keeps (retained d) (locked (evict digest t)).
Proof.
  intros w r w' Hst Hv. unfold locked, evict. apply (Hst (w_access w)) in Hv. change (w_interfere w (w_access w) (w_db w)) with (next_db w) in Hv.
  destruct Hv as [[Hu Hp] (c & Hc & Hn)].
  destruct (pinnedLocked _ digest) eqn:E; [intros [= <- <-]; split; [|done]; split; [done|by exists c]|].
  destruct (w_fault w _); intros [= <- <-]; (split; [|done]); (split; [done|]); [by exists c|]. exists c. split; [|done]. simpl.
  rewrite lookup_delete_ne; [done|]. intros ->. unfold pinnedLocked in E. simpl in E. by rewrite (bool_decide_eq_true_2 _ Hp), orb_true_r in E.
Qed.

(** A predicate that the steps of the store keep. *)
Definition kept_by_steps (I : Vault → Prop) : Prop :=
  (∀ A (t : Tx CacheDB A), keeps I (on_index t)) ∧ (∀ f, only_adds f → keeps I (on_pins f)) ∧ ∀ digest t, keeps I (locked (evict digest t)).
Lemma retained_steps : kept_by_steps (retained d).
Proof. split_and!; [intros; apply on_index_retains|intros; by apply on_pins_retains|apply evict_retains]. Qed.

(** Evicting touches no pin of an operation. *)
Lemma evict_pins digest t fault v : activeUses (vault_pins (evict digest t fault v).2) = activeUses (vault_pins v) ∧
  operationPins (vault_pins (evict digest t fault v).2) = operationPins (vault_pins v).
Proof. unfold evict. by repeat case_match. Qed.
Lemma pinned_steps : kept_by_steps (pinned_for_use d).
Proof.
  split_and!; [intros; apply on_index_retains|intros; by apply on_pins_retains|]. intros digest t w r w' Hst Hv. unfold locked.
  pose proof (evict_pins digest t (w_fault w (w_access w)) (next_db w)) as [Hu Hp]. destruct (evict _ _ _ _) as [r0 v0]. intros [= <- <-].
  split; [|done]. apply (Hst (w_access w)) in Hv as [H1 H2]. unfold pinned_for_use, in_use in *. simpl in *. by rewrite Hu, Hp.
Qed.
Lemma use_steps : kept_by_steps in_use.
Proof.
  split_and!; [intros; apply on_index_retains|intros; by apply on_pins_retains|]. intros digest t w r w' Hst Hv. unfold locked.
  pose proof (evict_pins digest t (w_fault w (w_access w)) (next_db w)) as [Hu Hp]. destruct (evict _ _ _ _) as [r0 v0]. intros [= <- <-].
  split; [|done]. apply (Hst (w_access w)) in Hv. unfold in_use in *. simpl in *. by rewrite Hu.
Qed.
End Kept.

Section Steps.
Context (I : Vault → Prop) (HI : kept_by_steps I).

Lemma ctx_each : keeps I check_ctx.
Proof. apply atomically_keeps. auto with hop. Qed.
Lemma evict_loop_each cs current pinned : keeps I (evict_loop maximumBytes cs current pinned).
Proof.
  destruct HI as (Hi & Hp & He). pose proof ctx_each. revert current pinned. induction cs as [|c cs IH]; intros current pinned; simpl; [auto with hop|].
  case_match; [auto with hop|]. do 2 (apply bind_keeps; [auto with hop|intros ?]). apply bind_keeps; [done|]. intros []; auto with hop.
Qed.
Lemma enforce_each : keeps I (Enforce maximumBytes).
Proof.
  destruct HI as (Hi & Hp & He). pose proof ctx_each. pose proof evict_loop_each.
  unfold Enforce. do 2 (apply bind_keeps; [auto with hop|intros ?]). case_match; auto 10 with hop.
Qed.
Lemma read_each digest : keeps I (Cas_Read sha256 digest).
Proof.
  destruct HI as (Hi & Hp & He). pose proof ctx_each. unfold Cas_Read. do 2 (apply bind_keeps; [auto with hop|intros _]).
  apply with_pin_each; [done|]. apply bind_keeps; [apply atomically_keeps; by intros v a v' Hv [= <- <-]|]. intros [c|]; auto 10 with hop.
Qed.
Lemma has_each digest : keeps I (Has sha256 digest).
Proof. pose proof read_each. unfold Has. apply bind_keeps; [auto with hop|]. intros [c|e]; [auto with hop|]. case_match; auto with hop. Qed.

(** Storing a chunk keeps [I] if replacing and removing its file do. *)
Lemma store_new_each digest contents : keeps I (commit_file digest contents) → keeps I (store_new sha256 maximumBytes digest contents).
Proof.
  intros Hc. destruct HI as (Hi & Hp & He). pose proof ctx_each. pose proof has_each. pose proof enforce_each. unfold store_new.
  do 2 (apply bind_keeps; [auto with hop|intros ?]). destruct a0 as [u|e]; [auto 10 with hop|]. apply bind_keeps; [auto with hop|]. intros [[]|]; auto with hop.
Qed.

(** A computation that depends on its first step. *)
Lemma bind_keeps_post {A B} (m : M Vault A) (f : A → M Vault B) : keeps I m →
  (∀ w a w', stable I w → I (w_db w) → m w = (Ok a, w') → keeps I (f a)) → keeps I (m ≫= f).
Proof.
  intros Hm Hf w r w' Hst Hv. unfold mbind, M_bind. destruct (m w) as [[a|e] w1] eqn:E; intros Hrun; [|injection Hrun as <- <-; by eapply Hm].
  destruct (Hm _ _ _ Hst Hv E) as [Hv1 E1]. destruct (Hf _ _ _ Hst Hv E w1 r w') as [Hv' E']; [by intros n v; rewrite E1; apply Hst|done|done|].
  split; [done|congruence].
Qed.

(** The file is removed only if the chunk was found corrupt. *)
Lemma put_each digest contents :
  (named_by sha256 digest contents → keeps I (commit_file digest contents)) →
  keeps I (remove_file digest) ∨ (∀ w e w', stable I w → I (w_db w) → Has sha256 digest w = (Err e, w') → errors_is e CasErrCorrupt = false) →
  keeps I (Cas_Put sha256 maximumBytes digest contents).
Proof.
  intros Hcommit Hremove. destruct HI as (Hi & Hp & He). unfold Cas_Put. apply lift_bind_keeps. intros u Hcheck%reject_if_ok. reflect_bools.
  assert (keeps I (store_new sha256 maximumBytes digest contents)) as Hnew by (apply store_new_each, Hcommit; split; [done|lia]).
  apply bind_keeps; [apply ctx_each|intros _]. apply with_pin_each; [done|].
  apply bind_keeps_post; [apply try_keeps, has_each|]. intros w [[]|e] w' Hst Hv E; [auto with hop|done|].
  destruct Hremove as [Hr|Hclean]; [case_match; auto 10 with hop|].
  unfold try_ in E. destruct (Has sha256 digest w) as [r w1] eqn:Eh. injection E as -> ->. rewrite (Hclean _ _ _ Hst Hv Eh). apply fail_keeps.
Qed.
End Steps.

(** ** A retained chunk is never found corrupt *)

Section Clean.
Context (d : string).

Definition clean {A} (m : M Vault A) : Prop :=
  ∀ w e w', stable (retained d) w → retained d (w_db w) → m w = (Err e, w') → CasErrCorrupt ∉ e.
Lemma clean_bind {A B} (m : M Vault A) (f : A → M Vault B) : keeps (retained d) m → clean m →
  (∀ w a w', stable (retained d) w → retained d (w_db w) → m w = (Ok a, w') → clean (f a)) → clean (m ≫= f).
Proof.
  intros Hk Hm Hf w e w' Hst Hv. unfold mbind, M_bind. destruct (m w) as [[a|e1] w1] eqn:E; [|intros [= -> ->]; by eapply Hm].
  destruct (Hk _ _ _ Hst Hv E) as [Hv1 E1]. eapply (Hf _ _ _ Hst Hv E w1); [by intros n v; rewrite E1; apply Hst|done].
Qed.
Lemma clean_lift {A} (r : result A) : free CasErrCorrupt r → clean (lift r).
Proof. intros Hr w e w' _ _ [= E _]. by apply Hr. Qed.
Lemma clean_tx {A} (t : Tx Vault A) : tx_free CasErrCorrupt t → clean (atomically t).
Proof. intros Ht w e w' _ _ E. apply atomically_cases in E as [(e1 & [= <-] & _ & [->|He])|(a & k & [=] & _)]; [set_solver|by eapply Ht]. Qed.
Lemma clean_index {A} (t : Tx CacheDB A) : tx_free CasErrCorrupt t → clean (on_index t).
Proof. intros Ht. apply clean_tx. intros v e. destruct (t (vault_db v)) as [[a d']|e'] eqn:E; [done|]. intros [= <-]. by eapply Ht. Qed.
Lemma clean_total {A} (m : M Vault A) : (∀ w, ∃ a w', m w = (Ok a, w')) → clean m.
Proof. intros Hm w e w' _ _ E. destruct (Hm w) as (a & w1 & E1). congruence. Qed.

Lemma with_pin_clean {A} digest (m : M Vault A) : keeps (retained d) m → clean m → clean (with_pin digest m).
Proof.
  intros Hk Hm. unfold with_pin. apply clean_bind; [auto with hop|apply clean_total; intros ?; by eexists _, _|intros _ t _ _ _ _].
  apply clean_bind; [apply on_pins_retains, add_pin_adds|apply clean_total; intros ?; by eexists _, _|intros _ _ _ _ _ _].
  apply clean_bind; [auto with hop|apply clean_total; intros w; unfold try_; destruct (m w); by eexists _, _|].
  intros w r w' Hst Hv E. unfold try_ in E. destruct (m w) as [r1 w1] eqn:Em. injection E as -> ->.
  apply clean_bind; [apply on_pins_retains, drop_pin_adds|apply clean_total; intros ?; by eexists _, _|intros _ _ _ _ _ _].
  apply clean_lift. intros e ->. by eapply Hm.
Qed.

Lemma read_clean : clean (Cas_Read sha256 d).
Proof.
  destruct (retained_steps d) as (Hi & Hp & He). unfold Cas_Read. apply clean_bind; [auto with hop|apply clean_lift; frees|intros _ _ _ _ _ _].
  apply clean_bind; [by apply ctx_each|apply clean_tx; frees|intros _ _ _ _ _ _].
  assert (keeps (retained d) (read_file d)) as Hread by (apply atomically_keeps; by intros v a v' Hv [= <- <-]).
  apply with_pin_clean; [apply bind_keeps; [done|]; intros [c|]; auto 10 with hop|].
  apply clean_bind; [done|apply clean_tx; frees|]. intros w file w' Hst Hv E.
  apply (Hst (w_access w)) in Hv as (_ & c & Hc & Hn & Hl). assert (file = Some c) as ->.
  { apply atomically_cases in E as [(e & [=] & _)|(a & k & [= <-] & [= <- <-] & _)]. exact Hc. }
  rewrite bool_decide_eq_false_2 by lia. rewrite (proj2 (Z.ltb_ge _ _)) by lia. rewrite bool_decide_eq_true_2 by done.
  apply clean_bind; [auto with hop|apply clean_lift, free_ok|intros _ _ _ _ _ _].
  apply clean_bind; [auto with hop|apply clean_total; intros ?; by eexists _, _|intros _ t _ _ _ _].
  apply clean_bind; [done|apply clean_index|intros _ _ _ _ _ _; apply clean_total; intros ?; by eexists _, _].
  unfold Cache_Record, Entry_Validate, upsert, constraint. frees.
Qed.

Lemma has_clean w e w' : stable (retained d) w → retained d (w_db w) → Has sha256 d w = (Err e, w') → errors_is e CasErrCorrupt = false.
Proof.
  intros Hst Hv. unfold Has, mbind, M_bind, try_. destruct (Cas_Read sha256 d w) as [[c|e1] w1] eqn:E; [done|].
  destruct (errors_is e1 CasErrNotFound); [done|]. intros [= <- <-]. apply bool_decide_eq_false_2. by eapply read_clean.
Qed.

(** Storing any chunk keeps a retained one. *)
Lemma put_retains digest contents : keeps (retained d) (Cas_Put sha256 maximumBytes digest contents).
Proof.
  apply put_each; [apply retained_steps| |].
  - intros Hn. apply atomically_keeps. intros v a v' [Hp (c & Hc & Hcn)] [= <- <-]. split; [done|]. simpl.
    destruct (decide (digest = d)) as [->|Hne]; [exists contents; by rewrite lookup_insert_eq|exists c; by rewrite lookup_insert_ne].
  - destruct (decide (digest = d)) as [->|Hne]; [right; apply has_clean|left].
    apply atomically_keeps. intros v a v' [Hp (c & Hc & Hcn)] [= <- <-]. split; [done|]. exists c. simpl. by rewrite lookup_delete_ne.
Qed.
End Clean.

Lemma put_in_use digest contents : keeps in_use (Cas_Put sha256 maximumBytes digest contents).
Proof.
  apply put_each; [exact (use_steps digest)|intros _|left]; apply atomically_keeps; by intros v a v' Hv [= <- <-].
Qed.

(** ** A chunk that was stored is retained *)

Lemma respectful_after {A} (I : Vault → Prop) (m : M Vault A) w r w' : respectful w → (∀ w, respectful w → stable I w) → keeps I m →
  I (w_db w) → m w = (r, w') → respectful w' ∧ I (w_db w').
Proof.
  intros Hw Hst Hm Hv E. destruct (Hm _ _ _ (Hst _ Hw) Hv E) as [Hv' E']. split; [|done].
  unfold respectful, stable in *. by rewrite E'.
Qed.

Section Stored.
Context (d : string).

Lemma pinned_stable w : respectful w → stable (pinned_for_use d) w.
Proof. intros [_ Hw]. apply Hw. Qed.
Lemma retained_stable w : respectful w → stable (retained d) w.
Proof. intros [_ Hw]. apply Hw. Qed.

(** [m] leaves the chunk retained if it succeeds with [P]. *)
Definition secures {A} (P : A → Prop) (m : M Vault A) : Prop :=
  ∀ w a w', respectful w → pinned_for_use d (w_db w) → m w = (Ok a, w') → P a → retained d (w_db w').

Lemma secures_after {A B} (P : B → Prop) (m : M Vault A) (f : A → M Vault B) :
  keeps (pinned_for_use d) m → (∀ a, secures P (f a)) → secures P (m ≫= f).
Proof.
  intros Hm Hf w b w' Hw Hp (a & w1 & E & Hrun)%m_bind_ok. destruct (respectful_after _ _ _ _ _ Hw pinned_stable Hm Hp E) as [Hw1 Hp1]. by eapply Hf.
Qed.
Lemma secures_then {A B} (P : A → Prop) (Q : B → Prop) (m : M Vault A) (f : A → M Vault B) : keeps (pinned_for_use d) m →
  secures P m → (∀ a, (∀ w b w', f a w = (Ok b, w') → Q b → P a) ∧ keeps (retained d) (f a)) → secures Q (m ≫= f).
Proof.
  intros Hk Hm Hf w b w' Hw Hp (a & w1 & E & Hrun)%m_bind_ok HQ. destruct (Hf a) as [HP Hfa].
  destruct (respectful_after _ _ _ _ _ Hw pinned_stable Hk Hp E) as [Hw1 _].
  eapply (respectful_after _ _ _ _ _ Hw1 retained_stable Hfa); [|exact Hrun]. exact (Hm _ _ _ Hw Hp E (HP _ _ _ Hrun HQ)).
Qed.
Lemma secures_try {A} (P : A → Prop) (m : M Vault A) : secures P m → secures (λ r, ∃ a, r = Ok a ∧ P a) (try_ m).
Proof.
  intros Hm w r w' Hw Hp. unfold try_. destruct (m w) as [r1 w1] eqn:E. intros [= <- <-] (a & -> & Ha). by eapply Hm.
Qed.

Lemma with_pin_secures {A} digest (P : A → Prop) (m : M Vault A) : keeps (pinned_for_use d) m → secures P m → secures P (with_pin digest m).
Proof.
  intros Hk Hm. destruct (pinned_steps d) as (_ & Hf & _). unfold with_pin. apply secures_after; [auto with hop|intros t].
  apply secures_after; [apply Hf, add_pin_adds|intros _].
  apply (secures_then (λ r, ∃ a, r = Ok a ∧ P a)); [auto with hop|by apply secures_try|]. intros r. split.
  - intros w b w' (u & w1 & _ & [= -> _])%m_bind_ok Hb. eauto.
  - apply bind_keeps; [apply on_pins_retains, drop_pin_adds|auto with hop].
Qed.

Lemma read_secures : secures (λ _, True) (Cas_Read sha256 d).
Proof.
  destruct (pinned_steps d) as (Hi & Hf & He). destruct (retained_steps d) as (Ri & Rf & Re). pose proof (ctx_each (pinned_for_use d)).
  assert (keeps (pinned_for_use d) (read_file d)) as Hread by (apply atomically_keeps; by intros v a v' Hv [= <- <-]).
  unfold Cas_Read. do 2 (apply secures_after; [auto with hop|intros _]). apply with_pin_secures.
  { apply bind_keeps; [done|]. intros [c|]; auto 10 with hop. }
  apply (secures_then (λ file, ∃ c, file = Some c ∧ named_by sha256 d c)); [done| |].
  - intros w file w' Hw Hp E (c & -> & Hn). apply atomically_cases in E as [(e & [=] & _)|(a & k & [= <-] & [= Hc <-] & ->)].
    split; [by apply (pinned_stable _ Hw)|]. by exists c.
  - intros [c|].
    + split; [|auto 10 with hop]. intros w b w' (u & w1 & Hcheck & _)%m_bind_ok _. injection Hcheck as Hcheck _. apply reject_if_ok in Hcheck. reflect_bools.
      exists c. split; [done|]. split; [done|lia].
    + split; [|auto 10 with hop]. by intros w b w' (u & w1 & _ & [=])%m_bind_ok.
Qed.

Lemma has_secures : secures (eq true) (Has sha256 d).
Proof.
  unfold Has. pose proof (read_each (pinned_for_use d) (pinned_steps d) d) as Hk. pose proof (read_each (retained d) (retained_steps d) d) as Hr.
  apply (secures_then (λ r, ∃ a, r = Ok a ∧ True)); [auto with hop|apply secures_try, read_secures|]. intros [c|e]; (split; [|repeat case_match; auto with hop]).
  - intros w b w' _ _. by exists c.
  - intros w b w'. case_match; [intros [= <- _]; done|done].
Qed.

Lemma store_new_secures contents : named_by sha256 d contents → secures (λ _, True) (store_new sha256 maximumBytes d contents).
Proof.
  intros Hn. destruct (pinned_steps d) as (Hi & Hf & He). destruct (retained_steps d) as (Ri & Rf & Re).
  pose proof (ctx_each (pinned_for_use d)). pose proof (has_each (pinned_for_use d) (pinned_steps d) d). pose proof (has_each (retained d) (retained_steps d) d).
  pose proof (enforce_each (retained d) (retained_steps d)).
  assert (keeps (pinned_for_use d) (commit_file d contents)) as Hc by (apply atomically_keeps; by intros v a v' Hv [= <- <-]).
  unfold store_new. apply secures_after; [auto with hop|intros _].
  intros w u w' Hw Hp (renamed & w1 & E & Hrun)%m_bind_ok _. unfold try_ in E. destruct (commit_file d contents w) as [r w2] eqn:Ec. injection E as -> ->.
  destruct (respectful_after _ _ _ _ _ Hw pinned_stable Hc Hp Ec) as [Hw1 Hp1]. destruct renamed as [u1|e].
  - assert (retained d (w_db w1)) as Hr.
    { apply atomically_cases in Ec as [(e & [=] & _)|(a & k & _ & [= _ <-] & ->)]. split; [exact Hp1|]. exists contents. simpl. by rewrite lookup_insert_eq. }
    eapply (respectful_after _ _ _ _ _ Hw1 retained_stable); [|exact Hr|exact Hrun]. auto 10 with hop.
  - apply m_bind_ok in Hrun as (present & w3 & Ep & Hrun). unfold try_ in Ep. destruct (Has sha256 d w1) as [rh w4] eqn:Eh. injection Ep as <- <-.
    destruct rh as [[]|e1]; [|done|done]. injection Hrun as _ <-. by eapply has_secures.
Qed.

(** The part of [Put] under the pin. *)
Definition put_body (contents : bytes) : M Vault unit :=
  present ← try_ (Has sha256 d);
  match present with
  | Ok true => mret tt
  | Ok false => store_new sha256 maximumBytes d contents
  | Err e =>
      if negb (errors_is e CasErrCorrupt) then fail e
      else
        _ ← remove_file d;
        _ ← on_index (Cache_Delete d);
        store_new sha256 maximumBytes d contents
  end.
Lemma put_body_pinned contents : keeps (pinned_for_use d) (put_body contents).
Proof.
  destruct (pinned_steps d) as (Hi & Hf & He). assert (keeps (pinned_for_use d) (remove_file d)) by (apply atomically_keeps; by intros v a v' Hv [= <- <-]).
  assert (keeps (pinned_for_use d) (store_new sha256 maximumBytes d contents))
    by (apply store_new_each; [apply pinned_steps|apply atomically_keeps; by intros v a v' Hv [= <- <-]]).
  apply bind_keeps; [apply try_keeps, has_each, pinned_steps|]. intros [[]|e]; [auto with hop|done|]. case_match; auto 10 with hop.
Qed.
Lemma put_body_secures contents : named_by sha256 d contents → secures (λ _, True) (put_body contents).
Proof.
  intros Hn w u w' Hw Hp (present & w1 & E & Hrun)%m_bind_ok _. unfold try_ in E. destruct (Has sha256 d w) as [r w2] eqn:Eh. injection E as -> ->.
  destruct (respectful_after _ _ _ _ _ Hw pinned_stable (has_each _ (pinned_steps d) d) Hp Eh) as [Hw1 Hp1].
  pose proof (store_new_secures contents Hn) as Hnew. destruct present as [[]|e].
  - injection Hrun as _ <-. exact (has_secures _ _ _ Hw Hp Eh eq_refl).
  - exact (Hnew _ _ _ Hw1 Hp1 Hrun I).
  - destruct (negb _); [done|]. eapply (secures_after (λ _, True)); [| |exact Hw1|exact Hp1|exact Hrun|done].
    + apply atomically_keeps. by intros v a v' Hv [= <- <-].
    + intros ?. apply secures_after; [apply pinned_steps|done].
Qed.

(** A [Put] that succeeds while a use has begun leaves its chunk retained. *)
Lemma put_secures contents w w' : respectful w → in_use (w_db w) → Cas_Put sha256 maximumBytes d contents w = (Ok tt, w') →
  named_by sha256 d contents ∧ retained d (w_db w').
Proof.
  intros Hw Hu (u & w1 & Hcheck & Hrun)%m_bind_ok. injection Hcheck as Hcheck <-. apply reject_if_ok in Hcheck. reflect_bools.
  assert (named_by sha256 d contents) as Hn by (split; [done|lia]). split; [done|].
  apply m_bind_ok in Hrun as (u1 & w2 & E2 & Hrun).
  destruct (respectful_after _ _ _ _ _ Hw (λ w Hw, proj1 Hw) (ctx_each in_use) Hu E2) as [Hw2 Hu2].
  apply m_bind_ok in Hrun as (t & w3 & [= <- <-] & Hrun). apply m_bind_ok in Hrun as (u2 & w4 & E4 & Hrun).
  unfold on_pins, locked in E4. injection E4 as _ <-. pose proof (proj1 Hw2 (w_access w2) _ Hu2) as Hu3.
  apply m_bind_ok in Hrun as (r & w5 & E5 & Hrun). apply m_bind_ok in Hrun as (u3 & w6 & E6 & [= -> ->]).
  set (w3 := MkWorld _ _ _ _ _ _ _) in *. set (w4 := accessed _ _) in *.
  assert (pinned_for_use d (w_db w4)) as Hp4.
  { split; [exact Hu3|]. simpl. unfold in_use in Hu3. rewrite (proj2 (Z.ltb_lt _ _)) by done. set_solver. }
  apply try_ok in E5 as Eb.
  assert (keeps (retained d) (on_pins (drop_pin d))) as Hdrop by (apply on_pins_retains, drop_pin_adds).
  pose proof (put_body_secures contents Hn w4 tt w5 Hw2 Hp4 Eb I) as Hr.
  destruct (respectful_after _ _ w4 _ _ Hw2 pinned_stable (put_body_pinned contents) Hp4 Eb) as [Hw5 _].
  exact (proj2 (respectful_after _ _ _ _ _ Hw5 retained_stable Hdrop Hr E6)).
Qed.
End Stored.

(** ** The store of a snapshotter *)

(** The content store while a use has begun, with threads that leave what is in use alone. *)
Definition Begun : Type := { w : World Vault | respectful w ∧ in_use (w_db w) }.

Lemma begun_put digest contents (w : World Vault) : respectful w ∧ in_use (w_db w) →
  respectful (Cas_Put sha256 maximumBytes digest contents w).2 ∧ in_use (w_db (Cas_Put sha256 maximumBytes digest contents w).2).
Proof.
  intros [Hw Hu]. destruct (Cas_Put sha256 maximumBytes digest contents w) as [r w'] eqn:E.
  exact (respectful_after _ _ _ _ _ Hw (λ w Hw, proj1 Hw) (put_in_use digest contents) Hu E).
Qed.

#[local] Instance begun_store : ChunkStore Begun := λ s digest contents,
  (exist _ (Cas_Put sha256 maximumBytes digest contents (proj1_sig s)).2 (begun_put digest contents _ (proj2_sig s)),
   (Cas_Put sha256 maximumBytes digest contents (proj1_sig s)).1).

(** So the laws the snapshotter relies on are those of the content store: a chunk that
    was stored is found, as a content of its digest, until the use ends. *)
#[local] Instance begun_laws : ChunkStoreLaws Begun.
Proof.
  refine {| holds := λ s digest contents, named_by sha256 digest contents ∧ retained digest (w_db (proj1_sig s)) |}.
  - intros [w [Hw Hu]] digest contents s' E. unfold put, begun_store in E. injection E as <- E. simpl in *.
    destruct (Cas_Put sha256 maximumBytes digest contents w) as [r w'] eqn:Eput. simpl in E. subst r. by apply put_secures in Eput.
  - intros [w [Hw Hu]] digest contents s' r d c E [Hn Hr]. unfold put, begun_store in E. injection E as <- _. split; [done|]. simpl in *.
    destruct (Cas_Put sha256 maximumBytes digest contents w) as [r' w'] eqn:Eput.
    exact (proj2 (respectful_after _ _ _ _ _ Hw (retained_stable d) (put_retains d digest contents) Hr Eput)).
Defined.
End Retention.

(** A store that nobody else uses, after [BeginUse]. *)
Definition begun_sample : Begun sample_sha256.
Proof.
  refine (exist _ (quiet (MkVault (MkCacheDB ∅ ∅ ∅ ∅) ∅ (MkPins 1 ∅ ∅ ∅)) (λ _, 9%Z)) _).
  split; [split; [by intros n v Hv|intros digest; split; by intros n v Hv]|done].
Defined.

(** It stores the chunk of a sample project, pinned. *)
Example begun_stores :
  let '(s, r) := put (ChunkStore := begun_store (H := ascii_case) sample_sha256 600000) begun_sample (sample_digest "0") (bytes_of "abc") in
  r = Ok tt ∧ vault_files (w_db (proj1_sig s)) !! sample_digest "0" = Some (bytes_of "abc") ∧ sample_digest "0" ∈ operationPins (vault_pins (w_db (proj1_sig s))).
Proof. vm_compute. done. Qed.
