(* ===== verification/Ignore.v ===== *)
(** * Ignore rules of project snapshots (internal/snapshot/ignore.go)

    [.gitignore] and [.computehopignore] files as lists of rules, and the decision
    whether a path is left out of a snapshot.  [path.Match] of the standard library is
    [path_Match]; [None] is its error for a malformed pattern. *)

From S2P Require Import Prelude GoText.
From Stdlib Require Import Ascii.
Local Open Scope string_scope.
Local Open Scope nat_scope.
Local Open Scope list_scope.

(** ** Package path: Match *)

Abbreviation slash := ("/"%char).
Abbreviation backslash := ("\"%char).

(** The part of [scanChunk] after the stars: up to the next star outside a class. *)
Fixpoint scan (inrange : bool) (pattern : bytes) : bytes * bytes :=
  match pattern with
  | [] => ([], [])
  | c :: rest =>
      if bool_decide (c = backslash) then
        match rest with
        | [] => ([c], [])
        | d :: rest => let '(chunk, rest) := scan inrange rest in (c :: d :: chunk, rest)
        end
      else if bool_decide (c = "*"%char) && negb inrange then ([], pattern)
      else
        let inrange := if bool_decide (c = "["%char) then true else if bool_decide (c = "]"%char) then false else inrange in
        let '(chunk, rest) := scan inrange rest in (c :: chunk, rest)
  end.

Fixpoint drop_stars (pattern : bytes) : bytes :=
  match pattern with
  | c :: rest => if bool_decide (c = "*"%char) then drop_stars rest else pattern
  | [] => []
  end.

Definition scanChunk (pattern : bytes) : bool * bytes * bytes :=
  let star := match pattern with c :: _ => bool_decide (c = "*"%char) | [] => false end in
  let '(chunk, rest) := scan false (drop_stars pattern) in (star, chunk, rest).

(** A possibly escaped character of a class, which is not the end of the chunk. *)
Definition getEsc (chunk : bytes) : option (Z * bytes) :=
  let decode (chunk : bytes) :=
    match chunk with
    | [] => None
    | b :: rest =>
        let r := decode_rune b rest in
        let n := length (rune_bytes r) in
        let nchunk := drop n chunk in
        if bool_decide (rune_value r = rune_error) && bool_decide (n = 1) || bool_decide (nchunk = []) then None
        else Some (rune_value r, nchunk)
    end in
  match chunk with
  | [] => None
  | c :: rest =>
      if bool_decide (c = "-"%char) || bool_decide (c = "]"%char) then None
      else if bool_decide (c = backslash) then decode rest else decode chunk
  end.

(** The ranges of a class, each of which takes at least a byte. *)
Fixpoint class_ranges (fuel : nat) (r : Z) (chunk : bytes) (first matched : bool) : option (bool * bytes) :=
  match fuel, chunk with
  | S fuel, c :: rest =>
      if bool_decide (c = "]"%char) && negb first then Some (matched, rest)
      else match getEsc chunk with
      | None => None
      | Some (lo, chunk) =>
          let range := match chunk with
            | c :: rest => if bool_decide (c = "-"%char) then getEsc rest else Some (lo, chunk)
            | [] => Some (lo, chunk) end in
          match range with
          | None => None
          | Some (hi, chunk) => class_ranges fuel r chunk false (matched || (lo <=? r)%Z && (r <=? hi)%Z)
          end
      end
  | _, _ => None
  end.

(** The first rune of [s] and what follows it. *)
Definition first_rune (s : bytes) : Z * bytes :=
  match s with
  | [] => (0%Z, [])
  | b :: rest => let r := decode_rune b rest in (rune_value r, drop (length (rune_bytes r)) s)
  end.

(** [None] for a malformed chunk, [Some None] for no match, else what is left of [s].
    After a mismatch the rest of the chunk is still checked. *)
Fixpoint match_chunk (fuel : nat) (chunk s : bytes) (failed : bool) : option (option bytes) :=
  match fuel, chunk with
  | _, [] => Some (if failed then None else Some s)
  | 0, _ => None
  | S fuel, c :: rest =>
      let failed := failed || bool_decide (s = []) in
      let literal (c : ascii) (rest : bytes) :=
        match s with
        | b :: s' => if failed then match_chunk fuel rest s true else match_chunk fuel rest s' (negb (bool_decide (c = b)))
        | [] => match_chunk fuel rest s true
        end in
      if bool_decide (c = "["%char) then
        let '(r, s') := if failed then (0%Z, s) else first_rune s in
        let '(negated, rest) := match rest with
          | d :: rest' => if bool_decide (d = "^"%char) then (true, rest') else (false, rest)
          | [] => (false, rest) end in
        match class_ranges (length rest) r rest true false with
        | None => None
        | Some (matched, rest) => match_chunk fuel rest s' (failed || Bool.eqb matched negated)
        end
      else if bool_decide (c = "?"%char) then
        if failed then match_chunk fuel rest s true
        else match_chunk fuel rest (first_rune s).2 (match s with b :: _ => bool_decide (b = slash) | [] => false end)
      else if bool_decide (c = backslash) then
        match rest with [] => None | d :: rest => literal d rest end
      else literal c rest
  end.
Definition matchChunk (chunk s : bytes) : option (option bytes) := match_chunk (length chunk) chunk s false.

(** The search of a star: skipping one byte more each time, never a slash. *)
Fixpoint star_search (chunk : bytes) (last : bool) (name : bytes) : option (option bytes) :=
  match name with
  | [] => Some None
  | b :: name =>
      if bool_decide (b = slash) then Some None
      else match matchChunk chunk name with
      | None => None
      | Some (Some t) => if last && negb (bool_decide (t = [])) then star_search chunk last name else Some (Some t)
      | Some None => star_search chunk last name
      end
  end.

(** Whether the rest of a pattern is well formed. *)
Fixpoint well_formed (fuel : nat) (pattern : bytes) : bool :=
  match fuel, pattern with
  | _, [] => true
  | 0, _ => true
  | S fuel, _ =>
      let '(_, chunk, rest) := scanChunk pattern in
      match matchChunk chunk [] with None => false | Some _ => well_formed fuel rest end
  end.

Fixpoint match_loop (fuel : nat) (pattern name : bytes) : option bool :=
  match fuel, pattern with
  | _, [] => Some (bool_decide (name = []))
  | 0, _ => None
  | S fuel, _ =>
      let '(star, chunk, rest) := scanChunk pattern in
      if star && bool_decide (chunk = []) then Some (negb (bool_decide (slash ∈ name)))
      else
        let failed := if well_formed (length rest) rest then Some false else None in
        match matchChunk chunk name with
        | None => None
        | Some found =>
            let here := match found with Some t => bool_decide (t = []) || negb (bool_decide (rest = [])) | None => false end in
            match found, here with
            | Some t, true => match_loop fuel rest t
            | _, _ =>
                if star then
                  match star_search chunk (bool_decide (rest = [])) name with
                  | None => None
                  | Some (Some t) => match_loop fuel rest t
                  | Some None => failed
                  end
                else failed
            end
        end
  end.

(** Every turn takes at least a byte of the pattern. *)
Definition path_Match (pattern name : bytes) : option bool := match_loop (length pattern) pattern name.

(** ** Rules *)

Definition maximumIgnoreBytes : Z := Z.shiftl 1 20.
Definition maximumIgnoreFiles : nat := 256.
Definition maximumIgnoreRules : nat := Z.to_nat 8192.

Record ignoreRule := MkIgnoreRule {
  ru_base : string; ru_pattern : bytes; ru_negative : bool; ru_directory : bool; ru_hasSlash : bool
}.
#[global] Instance ignoreRule_eq_dec : EqDecision ignoreRule.
Proof. solve_decision. Defined.

Definition default_directory (pattern : string) : ignoreRule := MkIgnoreRule "" (bytes_of pattern) false true false.
Definition default_file (pattern : string) : ignoreRule := MkIgnoreRule "" (bytes_of pattern) false false false.

Definition defaultIgnoreRules : list ignoreRule :=
  map default_directory [".git"; ".computehop-results"; ".computehop-conflicts"; "node_modules"; ".next"; ".turbo"; ".cache"; "target";
    ".venv"; "venv"; "__pycache__"; ".pytest_cache"; ".mypy_cache"; ".ruff_cache"]
  ++ map default_file [".env"; ".env.*"; ".npmrc"; ".pypirc"; ".netrc"]
  ++ map default_directory [".ssh"; ".aws"; ".azure"; ".gcloud"; ".gnupg"; ".kube"]
  ++ map default_file ["*.pem"; "*.key"; "*.p12"; "*.pfx"].

(** [strings.TrimSuffix] and [strings.TrimPrefix] of one character. *)
Definition trim_last (c : ascii) (l : bytes) : bytes :=
  match reverse l with d :: rest => if bool_decide (d = c) then reverse rest else l | [] => l end.
Definition trim_first (c : ascii) (l : bytes) : bytes :=
  match l with d :: rest => if bool_decide (d = c) then rest else l | [] => l end.

Abbreviation space := (" "%char).
(** The loop of [trimUnescapedTrailingSpaces], on the reversed line. *)
Fixpoint drop_trailing (reversed : bytes) : bytes :=
  match reversed with
  | c :: rest =>
      if bool_decide (c = space) && negb (match rest with d :: _ => bool_decide (d = backslash) | [] => false end)
      then drop_trailing rest else reversed
  | [] => []
  end.
(** [strings.ReplaceAll(value, `\ `, " ")]. *)
Fixpoint unescape_spaces (l : bytes) : bytes :=
  match l with
  | c :: (d :: rest) as tail =>
      if bool_decide (c = backslash) && bool_decide (d = space) then space :: unescape_spaces rest else c :: unescape_spaces tail
  | _ => l
  end.
Definition trimUnescapedTrailingSpaces (value : bytes) : bytes := unescape_spaces (reverse (drop_trailing (reverse value))).

Abbreviation newline := (Ascii.ascii_of_nat 10).
Abbreviation return_ := (Ascii.ascii_of_nat 13).

(** [bufio.ScanLines]: lines end at a newline, and one carriage return before it goes
    too; a last line that is empty is none. *)
Definition scan_lines (contents : bytes) : list bytes :=
  let lines := split_bytes newline contents in
  map (trim_last return_) (match last lines with Some [] => take (pred (length lines)) lines | _ => lines end).

Definition parse_line (base : string) (line : bytes) : option ignoreRule :=
  let line := trimUnescapedTrailingSpaces (trim_last return_ line) in
  let escapedLeadingMarker := match line with c :: d :: _ => bool_decide (c = backslash) && (bool_decide (d = "#"%char) || bool_decide (d = "!"%char)) | _ => false end in
  if bool_decide (line = []) || match line with c :: _ => bool_decide (c = "#"%char) | [] => false end then None
  else
    let line := if escapedLeadingMarker then drop 1 line else line in
    let negative := negb escapedLeadingMarker && match line with c :: _ => bool_decide (c = "!"%char) | [] => false end in
    let line := if negative then drop 1 line else line in
    let directory := match last line with Some c => bool_decide (c = slash) | None => false end in
    let line := trim_first slash (trim_last slash line) in
    if bool_decide (line = []) then None
    else Some (MkIgnoreRule base line negative directory (bool_decide (slash ∈ line))).

(** [contents] is what reading at most one byte over the limit gives. *)
Definition parseIgnoreRules (contents : result bytes) (base : string) : result (list ignoreRule) :=
  contents ← contents;
  _ ← reject_if (maximumIgnoreBytes <? Z.of_nat (length contents))%Z [AnonymousError];
  Ok (omap (parse_line base) (scan_lines contents)).

(** ** Matching *)

Definition matchSegment (pattern value : bytes) : bool := bool_decide (path_Match pattern value = Some true).

(** The closure [match] of [matchGlob] on the segments that are left. *)
Fixpoint match_segments (patternSegments valueSegments : list bytes) : bool :=
  match patternSegments with
  | [] => bool_decide (valueSegments = [])
  | pattern :: patterns =>
      if bool_decide (pattern = bytes_of "**") then
        (fix try (values : list bytes) : bool :=
           match_segments patterns values || match values with [] => false | _ :: values => try values end) valueSegments
      else match valueSegments with
      | [] => false
      | value :: values => matchSegment pattern value && match_segments patterns values
      end
  end.
Definition matchGlob (pattern value : bytes) : bool := match_segments (split_bytes slash pattern) (split_bytes slash value).

Definition relativeToBase (value base : string) : option bytes :=
  if bool_decide (base = "") then Some (bytes_of value)
  else if bool_decide (value = base) then Some []
  else if has_prefix value (base +:+ "/") then Some (drop (String.length base + 1) (bytes_of value))
  else None.

Definition rule_matches (rule : ignoreRule) (relative : string) (directory : bool) : bool :=
  match relativeToBase relative (ru_base rule) with
  | None => false
  | Some candidate =>
      if ru_directory rule && negb directory then false
      else if ru_hasSlash rule then matchGlob (ru_pattern rule) candidate
      else existsb (matchSegment (ru_pattern rule)) (split_bytes slash candidate)
  end.

(** Names that are never transferred. *)
Definition reserved_names : list string := [".git"; ".computehop-results"; ".computehop-conflicts"].

(** The loop over the rules: the last one that matches decides. *)
Fixpoint decide_rules (rules : list ignoreRule) (relative : string) (directory ignored : bool) : bool :=
  match rules with
  | [] => ignored
  | rule :: rest =>
      decide_rules rest relative directory (if rule_matches rule relative directory then negb (ru_negative rule) else ignored)
  end.

Definition ignored (rules : list ignoreRule) (relative : string) (directory : bool) : bool :=
  existsb (λ segment, bool_decide (segment ∈ reserved_names)) (split "/"%char relative) || decide_rules rules relative directory false.

(** ** What the rules mean *)

(** The segments of a path against those of a pattern: [**] stands for any number. *)
Inductive glob : list bytes → list bytes → Prop :=
  | glob_end : glob [] []
  | glob_many skipped patterns values : glob patterns values → glob (bytes_of "**" :: patterns) (skipped ++ values)
  | glob_one pattern value patterns values : pattern ≠ bytes_of "**" → matchSegment pattern value = true → glob patterns values →
      glob (pattern :: patterns) (value :: values).

Lemma match_segments_glob patterns values : match_segments patterns values = true ↔ glob patterns values.
Proof.
  revert values. induction patterns as [|pattern patterns IH]; intros values; cbn [match_segments].
  { rewrite bool_decide_eq_true. split; [intros ->; constructor|by inversion 1]. }
  case_bool_decide as Hp; [subst pattern|].
  - split.
    + intros Ht. induction values as [|v values IHv]; apply orb_true_iff in Ht as [Ht|Ht]; try done.
      * by apply (glob_many []), IH.
      * by apply (glob_many []), IH.
      * apply IHv in Ht. inversion Ht as [|skipped ps vs Hg E|]; [|done]. by apply (glob_many (v :: skipped)).
    + inversion 1 as [|skipped ps vs Hg E|]; [subst|done]. apply IH in Hg. clear -Hg.
      induction skipped as [|s skipped IHs]; cbn; [|apply orb_true_iff; by right].
      destruct vs; by rewrite Hg.
  - destruct values as [|v values]; [split; [done|by inversion 1]|]. rewrite andb_true_iff, IH. split.
    + intros []. by constructor.
    + by inversion 1.
Qed.

(** [path] is [candidate] below the directory [base]. *)
Definition below (base path : string) (candidate : bytes) : Prop :=
  if decide (base = "") then candidate = bytes_of path
  else path = base ∧ candidate = [] ∨ bytes_of path = bytes_of base ++ slash :: candidate.

(** The rule is about the path. *)
Definition selects (rule : ignoreRule) (relative : string) (directory : bool) : Prop :=
  ∃ candidate, below (ru_base rule) relative candidate ∧ (ru_directory rule = true → directory = true) ∧
    if ru_hasSlash rule then glob (split_bytes slash (ru_pattern rule)) (split_bytes slash candidate)
    else ∃ segment, segment ∈ split_bytes slash candidate ∧ matchSegment (ru_pattern rule) segment = true.

Lemma relativeToBase_below base path candidate : relativeToBase path base = Some candidate ↔ below base path candidate.
Proof.
  unfold relativeToBase, below. destruct (decide (base = "")) as [->|Hb]; [cbn; split; [by intros [= <-]|by intros ->]|].
  rewrite bool_decide_eq_false_2 by done. case_bool_decide as Hp.
  - subst path. split; [intros [= <-]; by left|]. intros [[_ ->]|E]; [done|]. exfalso.
    apply (f_equal length) in E. rewrite length_app in E. simpl in E. lia.
  - unfold has_prefix. destruct (list_prefix _ _) eqn:E.
    + apply list_prefix_spec in E as [k Hk]. rewrite bytes_of_app in Hk. cbn in Hk. rewrite <- app_assoc in Hk. cbn in Hk.
      assert (drop (String.length base + 1) (bytes_of path) = k) as ->.
      { rewrite Hk, <- length_bytes_of, <- drop_drop, drop_app_length. done. }
      rewrite Hk. split; [intros [= <-]; by right|]. intros [[-> _]|Ek]; [done|]. f_equal. apply app_inv_head in Ek. congruence.
    + split; [done|]. intros [[-> _]|Ek]; [done|]. exfalso. apply not_true_iff_false in E. apply E, list_prefix_spec.
      exists candidate. rewrite bytes_of_app, Ek, <- app_assoc. done.
Qed.

Lemma rule_selects rule relative directory : rule_matches rule relative directory = true ↔ selects rule relative directory.
Proof.
  unfold rule_matches, selects. destruct (relativeToBase relative (ru_base rule)) as [c|] eqn:E.
  - apply relativeToBase_below in E as Hb. split.
    + destruct (ru_directory rule && negb directory) eqn:Ed; [done|]. intros Hm. exists c. split; [done|]. split.
      { intros Hd. rewrite Hd in Ed. by destruct directory. }
      destruct (ru_hasSlash rule); [by apply match_segments_glob|]. apply existsb_exists in Hm as (s & Hs & Hm). exists s. by rewrite list_elem_of_In.
    + intros (c' & Hb' & Hd & Hm). apply relativeToBase_below in Hb'. rewrite E in Hb'. injection Hb' as <-.
      destruct (ru_directory rule && negb directory) eqn:Ed; [apply andb_true_iff in Ed as [Hr Hn]; rewrite Hd in Hn by done; done|].
      destruct (ru_hasSlash rule); [by apply match_segments_glob|]. destruct Hm as (s & Hs & Hm). apply existsb_exists. exists s. by rewrite <- list_elem_of_In.
  - split; [done|]. intros (c & Hb & _). apply relativeToBase_below in Hb. congruence.
Qed.

#[global] Instance selects_dec rule relative directory : Decision (selects rule relative directory).
Proof. refine (cast_if (decide (rule_matches rule relative directory = true))); by rewrite <- rule_selects. Defined.

(** The last rule that selects the path decides. *)
Lemma decide_rules_last rules relative directory start :
  decide_rules rules relative directory start = true ↔
  (∃ before rule after, rules = before ++ rule :: after ∧ selects rule relative directory ∧ ru_negative rule = false ∧
     Forall (λ r, ¬ selects r relative directory) after) ∨
  start = true ∧ Forall (λ r, ¬ selects r relative directory) rules.
Proof.
  revert start. induction rules as [|r rules IH]; intros start; cbn [decide_rules].
  { split; [by right|]. intros [(b & x & a & E & _)|[? _]]; [by destruct b|done]. }
  rewrite IH. split.
  - intros [(b & x & a & -> & ? & ? & ?)|[Hs Hall]]; [left; by exists (r :: b), x, a|].
    destruct (rule_matches r relative directory) eqn:E.
    + left. exists [], r, rules. split_and!; [done|by apply rule_selects|by apply negb_true_iff|done].
    + right. split; [done|]. constructor; [|done]. by rewrite <- rule_selects, E.
  - intros [(b & x & a & E & Hx & Hn & Ha)|[-> Hall]].
    + destruct b as [|y b]; injection E as -> ->; [|left; by exists b, x, a]. right. apply rule_selects in Hx. by rewrite Hx, Hn.
    + apply Forall_cons in Hall as [Hr Hall]. right. split; [|done]. rewrite <- rule_selects in Hr. by destruct (rule_matches _ _ _).
Qed.

Definition reserved (relative : string) : Prop := ∃ segment, segment ∈ split "/"%char relative ∧ segment ∈ reserved_names.

Lemma ignored_iff rules relative directory :
  ignored rules relative directory = true ↔ reserved relative ∨
  ∃ before rule after, rules = before ++ rule :: after ∧ selects rule relative directory ∧ ru_negative rule = false ∧
    Forall (λ r, ¬ selects r relative directory) after.
Proof.
  unfold ignored. rewrite orb_true_iff, existsb_exists, decide_rules_last. split.
  - intros [(s & Hs & Hr%bool_decide_eq_true)|[Hr|[? _]]]; [left; exists s; by rewrite list_elem_of_In|by right|done].
  - intros [(s & Hs & Hr)|Hr]; [left; exists s; rewrite <- list_elem_of_In; by rewrite bool_decide_eq_true|by right; left].
Qed.

(** What an ignore file means.  A path is left out exactly if one of its names is
    reserved for ComputeHop or Git, whatever the rules say, or the last rule that
    selects it is not a negation.  A rule selects a path below the directory of its
    file: with a slash the whole path, where [**] stands for any number of
    directories, else any name along the path; a rule for directories selects
    directories only. *)
Theorem ignored_exact rules relative directory :
  ignored rules relative directory = true ↔ reserved relative ∨
  ∃ before rule after, rules = before ++ rule :: after ∧ selects rule relative directory ∧ ru_negative rule = false ∧
    Forall (λ r, ¬ selects r relative directory) after.
Proof. apply ignored_iff. Qed.

(** ** Secrets *)

(** Characters that stand for themselves in a pattern. *)
Definition plain (l : bytes) : Prop := Forall (λ c, c ∉ bytes_of "*?[]\") l.
#[global] Instance plain_dec l : Decision (plain l) := _.

Lemma plain_cons c l : plain (c :: l) → c ≠ "*"%char ∧ c ≠ "?"%char ∧ c ≠ "["%char ∧ c ≠ "]"%char ∧ c ≠ backslash ∧ plain l.
Proof. intros [Hc Hl]%Forall_cons. split_and!; [intros ->; apply Hc; vm_compute; set_solver..|done]. Qed.

Lemma scan_plain l rest : plain l → match rest with c :: _ => c = "*"%char | [] => True end → scan false (l ++ rest) = (l, rest).
Proof.
  intros Hl Hr. induction l as [|c l IH]; cbn [app].
  - destruct rest as [|c rest]; [done|]. by subst c.
  - apply plain_cons in Hl as (? & ? & ? & ? & ? & Hl). cbn [scan]. rewrite !bool_decide_eq_false_2 by done. cbn. by rewrite IH.
Qed.

Lemma scan_all l : plain l → scan false l = (l, []).
Proof. intros Hl. rewrite <- (app_nil_r l) at 1. by apply scan_plain. Qed.

Lemma match_plain n l s failed : plain l → length l ≤ n →
  match_chunk n l s failed = Some (if failed then None else if list_prefix l s then Some (drop (length l) s) else None).
Proof.
  revert l s failed. induction n as [|n IH]; intros [|c l] s failed Hl Hn; cbn [length] in Hn; try lia; try (by destruct failed).
  apply plain_cons in Hl as (? & ? & ? & ? & ? & Hl). cbn [match_chunk]. rewrite !(bool_decide_eq_false_2 (c = _)) by done.
  destruct s as [|b s]; [rewrite IH by (done || lia); by destruct failed|].
  rewrite (bool_decide_eq_false_2 (b :: s = [])), orb_false_r by done. destruct failed; rewrite IH by (done || lia); [done|]. cbn [list_prefix].
  case_bool_decide; cbn; done.
Qed.
Lemma matchChunk_plain l s : plain l → matchChunk l s = Some (if list_prefix l s then Some (drop (length l) s) else None).
Proof. intros Hl. unfold matchChunk. by rewrite match_plain. Qed.

Lemma prefix_app l s : list_prefix l (l ++ s) = true.
Proof. apply list_prefix_spec. by exists s. Qed.

(** A plain pattern selects its own name; a star before or after it anything. *)
Lemma literal_matches l : plain l → l ≠ [] → matchSegment l l = true.
Proof.
  intros Hl Hne. unfold matchSegment, path_Match. apply bool_decide_eq_true_2. destruct l as [|c l]; [done|].
  cbn [length match_loop]. unfold scanChunk. pose proof (plain_cons _ _ Hl) as (Hc & _). cbn [drop_stars]. rewrite (bool_decide_eq_false_2 (c = _)) by done.
  rewrite scan_all by done. cbn [andb]. rewrite matchChunk_plain by done.
  pose proof (prefix_app (c :: l) []) as Hp. rewrite app_nil_r in Hp. rewrite Hp, drop_all. by destruct (length l).
Qed.

Lemma prefix_matches l rest : plain l → l ≠ [] → slash ∉ rest → matchSegment (l ++ ["*"%char]) (l ++ rest) = true.
Proof.
  intros Hl Hne Hs. unfold matchSegment, path_Match. apply bool_decide_eq_true_2. rewrite length_app. cbn [length]. rewrite Nat.add_1_r. destruct l as [|c l]; [done|].
  cbn [length match_loop app]. unfold scanChunk at 1. pose proof (plain_cons _ _ Hl) as (Hc & _). cbn [drop_stars]. rewrite (bool_decide_eq_false_2 (c = _)) by done.
  change (c :: l ++ ["*"%char]) with ((c :: l) ++ ["*"%char]). rewrite scan_plain by done. cbn [andb]. rewrite matchChunk_plain by done.
  change (c :: l ++ rest) with ((c :: l) ++ rest). rewrite prefix_app, drop_app_length.
  rewrite (bool_decide_eq_false_2 (["*"%char] = [])), orb_true_r by done. cbn [match_loop length]. unfold scanChunk. cbn [drop_stars scan].
  rewrite bool_decide_eq_true_2 by done. cbn. by rewrite bool_decide_eq_false_2.
Qed.

Lemma star_search_suffix l pre name : plain l → name = pre ++ l → pre ≠ [] → slash ∉ pre → star_search l true name = Some (Some []).
Proof.
  intros Hl -> Hne Hs. induction pre as [|b pre IH]; [done|]. cbn [app star_search]. apply not_elem_of_cons in Hs as [Hb Hs].
  rewrite bool_decide_eq_false_2 by done. rewrite matchChunk_plain by done.
  destruct (decide (pre = [])) as [->|Hp].
  - cbn [app]. pose proof (prefix_app l []) as Hp. rewrite app_nil_r in Hp. by rewrite Hp, drop_all.
  - destruct (list_prefix l (pre ++ l)) eqn:E; [|by apply IH]. destruct (decide (drop (length l) (pre ++ l) = [])) as [Ed|Ed].
    + by rewrite Ed.
    + rewrite bool_decide_eq_false_2 by done. by apply IH.
Qed.

Lemma suffix_matches l pre : plain l → l ≠ [] → slash ∉ pre → matchSegment ("*"%char :: l) (pre ++ l) = true.
Proof.
  intros Hl Hne Hs. unfold matchSegment, path_Match. apply bool_decide_eq_true_2. cbn [length match_loop]. unfold scanChunk.
  assert (drop_stars l = l) as Hd by (destruct l as [|c l]; [done|]; apply plain_cons in Hl as (Hc & _); cbn; by rewrite bool_decide_eq_false_2).
  cbn [drop_stars]. rewrite bool_decide_eq_true_2, Hd by done. rewrite scan_all by done.
  rewrite (bool_decide_eq_false_2 (l = [])) by done. cbn [andb]. rewrite matchChunk_plain by done.
  assert (match_loop (length l) [] [] = Some true) as Hend by (by destruct (length l)).
  destruct (list_prefix l (pre ++ l)) eqn:E.
  - destruct (decide (drop (length l) (pre ++ l) = [])) as [Ed|Ed]; [rewrite Ed; cbn [bool_decide]; by rewrite bool_decide_eq_true_2|].
    rewrite (bool_decide_eq_false_2 _ Ed). cbn [orb negb]. rewrite (bool_decide_eq_true_2 ([] = [])) by done. cbn [negb].
    rewrite (star_search_suffix l pre) by (done || by intros ->; apply Ed; cbn; apply drop_all). done.
  - rewrite (bool_decide_eq_true_2 ([] = [])) by done. rewrite (star_search_suffix l pre); [done..| |done].
    intros ->. pose proof (prefix_app l []) as Hp. rewrite app_nil_r in Hp. cbn in E. congruence.
Qed.

(** The names of common credential files. *)
Definition secret_name (name : bytes) : Prop :=
  name ∈ map bytes_of [".env"; ".npmrc"; ".pypirc"; ".netrc"] ∨ (∃ rest, name = bytes_of ".env." ++ rest) ∨
  ∃ pre suffix, suffix ∈ map bytes_of [".pem"; ".key"; ".p12"; ".pfx"] ∧ name = pre ++ suffix.

Lemma secret_rule name : secret_name name → slash ∉ name →
  ∃ rule, rule ∈ defaultIgnoreRules ∧ ru_base rule = "" ∧ ru_negative rule = false ∧ ru_directory rule = false ∧ ru_hasSlash rule = false ∧
    matchSegment (ru_pattern rule) name = true.
Proof.
  assert (∀ p, p ∈ [".env"; ".env.*"; ".npmrc"; ".pypirc"; ".netrc"; "*.pem"; "*.key"; "*.p12"; "*.pfx"] → default_file p ∈ defaultIgnoreRules) as Hin.
  { intros p Hp. unfold defaultIgnoreRules. rewrite !elem_of_app, !list_elem_of_In, !in_map_iff. setoid_rewrite <- list_elem_of_In.
    rewrite !elem_of_cons, elem_of_nil in Hp. destruct Hp as [->|[->|[->|[->|[->|[->|[->|[->|[->|[]]]]]]]]]].
    1-5: right; left; eexists; split; [done|vm_compute; set_solver]. all: right; right; right; eexists; split; [done|vm_compute; set_solver]. }
  assert (∀ p, p ∈ [".env"; ".env.*"; ".npmrc"; ".pypirc"; ".netrc"; "*.pem"; "*.key"; "*.p12"; "*.pfx"] → matchSegment (bytes_of p) name = true →
    ∃ rule, rule ∈ defaultIgnoreRules ∧ ru_base rule = "" ∧ ru_negative rule = false ∧ ru_directory rule = false ∧ ru_hasSlash rule = false ∧
    matchSegment (ru_pattern rule) name = true) as Hrule by (intros p Hp Hm; exists (default_file p); split_and!; auto).
  intros [Hn|[(rest & ->)|(pre & suffix & Hs & ->)]] Hsl.
  - apply list_elem_of_In, in_map_iff in Hn as (p & <- & Hp%list_elem_of_In). apply (Hrule p).
    + rewrite !elem_of_cons in *. tauto.
    + rewrite !elem_of_cons, elem_of_nil in Hp. destruct Hp as [->|[->|[->|[->|[]]]]]; vm_compute; reflexivity.
  - apply (Hrule ".env.*"); [rewrite !elem_of_cons; auto|]. change (bytes_of ".env.*") with (bytes_of ".env." ++ ["*"%char]).
    apply prefix_matches; [|done|by intros ?; apply Hsl, elem_of_app; right]. by apply (bool_decide_unpack _).
  - apply list_elem_of_In, in_map_iff in Hs as (p & <- & Hp%list_elem_of_In). apply (Hrule (String "*" p)).
    + rewrite !elem_of_cons, elem_of_nil in Hp. destruct Hp as [->|[->|[->|[->|[]]]]]; rewrite !elem_of_cons; tauto.
    + change (bytes_of (String "*" p)) with ("*"%char :: bytes_of p). apply suffix_matches.
      * rewrite !elem_of_cons, elem_of_nil in Hp. destruct Hp as [->|[->|[->|[->|[]]]]]; by apply (bool_decide_unpack _).
      * rewrite !elem_of_cons, elem_of_nil in Hp. by destruct Hp as [->|[->|[->|[->|[]]]]].
      * intros ?. apply Hsl, elem_of_app. by left.
Qed.

Lemma last_selected rules relative directory : (∃ rule, rule ∈ rules ∧ selects rule relative directory) →
  (∀ rule, rule ∈ rules → ru_negative rule = true → ¬ selects rule relative directory) →
  ∃ before rule after, rules = before ++ rule :: after ∧ selects rule relative directory ∧ ru_negative rule = false ∧
    Forall (λ r, ¬ selects r relative directory) after.
Proof.
  intros (rule & Hin & Hsel) Hneg. induction rules as [|r rules IH] using rev_ind; [by apply not_elem_of_nil in Hin|].
  destruct (decide (selects r relative directory)) as [Hr|Hr].
  - exists rules, r, []. split_and!; [done|done| |done]. destruct (ru_negative r) eqn:E; [|done]. destruct (Hneg r); [set_solver|done|done].
  - apply elem_of_app in Hin as [Hin|Hin%list_elem_of_singleton]; [|by subst r].
    destruct (IH Hin) as (b & x & a & -> & Hx & Hn & Ha); [intros r' Hr'; apply Hneg, elem_of_app; by left|].
    exists b, x, (a ++ [r]). split_and!; [by rewrite <- app_assoc|done|done|]. apply Forall_app. by split; [|constructor].
Qed.

(** A path with the name of a credential file anywhere along it is left out, unless a
    negation of the project selects it. *)
Lemma secret_ignored rules relative directory name : name ∈ split_bytes slash (bytes_of relative) → secret_name name →
  (∀ rule, rule ∈ rules → ru_negative rule = true → ¬ selects rule relative directory) →
  ignored (defaultIgnoreRules ++ rules) relative directory = true.
Proof.
  intros Hname Hsec Hneg. unfold ignored. apply orb_true_iff. right.
  assert (slash ∉ name) as Hs by (pose proof (split_no_sep slash (bytes_of relative)) as Hall; rewrite Forall_forall in Hall; by apply Hall).
  destruct (secret_rule name Hsec Hs) as (rule & Hin & Hbase & Hn & Hd & Hhs & Hm).
  assert (selects rule relative directory) as Hsel.
  { exists (bytes_of relative). rewrite Hbase, Hd, Hhs. split_and!; [done|done|]. by exists name. }
  apply decide_rules_last. left. apply last_selected; [exists rule; split; [by apply elem_of_app; left|done]|].
  intros r [Hr|Hr]%elem_of_app; [|by apply Hneg]. assert (Forall (λ r, ru_negative r = false) defaultIgnoreRules) as Hpos by (vm_compute; repeat constructor).
  rewrite Forall_forall in Hpos. by rewrite Hpos.
Qed.
