(* ===== verification/Project.v ===== *)
(** * Project snapshots and declared outputs (internal/snapshot/builder.go, ignore.go, declared.go)

    What a walk over a directory sees is a [view]: files and directories may change
    between two system calls, so the walk that loads the ignore rules and the walk
    that builds the manifest have a view each.  A [view] says what reading a
    directory or an ignore file gave and, for a regular file, what every attempt to
    read it saw ([FileRun] of [Snapshot]). *)

From S2P Require Import Prelude GoText PortablePath Effects Snapshot Ignore.
From Stdlib Require Import Ascii.
Local Open Scope string_scope.
Local Open Scope nat_scope.
Local Open Scope list_scope.

(** An ignore file: [Lstat], [Open], the bytes read and [Close]. *)
Inductive ignore_file :=
| IgnoreAbsent
| IgnoreStatFails (e : list sentinel)
| IgnoreIrregular
| IgnoreOpenFails (e : list sentinel)
| IgnoreRead (contents : result bytes) (closed : result unit).

(** The entry of a directory and what is found below it, in the order of [os.ReadDir]. *)
Inductive view :=
| VDir (gitignore computehopignore : ignore_file) (readErr : option (list sentinel)) (children : list (string * view))
| VReg (attempts : nat → FileRun * option (list sentinel))
| VOther.

Definition is_dir (v : view) : bool := match v with VDir _ _ _ _ => true | _ => false end.

(** ** Package filepath: WalkDir *)

(** What the callback of a walk returns; [Hung] is a read that never ends. *)
Inductive step := Next | SkipDir | Stop (e : list sentinel) | Hung.

(** [filepath.ToSlash] of [filepath.Rel] to the root. *)
Definition child (path name : string) : string := if bool_decide (path = ".") then name else path +:+ "/" +:+ name.

Section Walk.
Context {S : Type} (fn : string → view → option (list sentinel) → S → S * step).

Fixpoint walkDir (path : string) (v : view) (s : S) : S * step :=
  let '(s, r) := fn path v None s in
  match r with
  | Next =>
      match v with
      | VDir _ _ readErr children =>
          let '(s, r) := match readErr with None => (s, Next) | Some e => fn path v (Some e) s end in
          match r with
          | Next =>
              (fix entries (l : list (string * view)) (s : S) : S * step :=
                 match l with
                 | [] => (s, Next)
                 | (name, v) :: rest =>
                     let '(s, r) := walkDir (child path name) v s in
                     match r with Next => entries rest s | SkipDir => (s, Next) | _ => (s, r) end
                 end) children s
          | SkipDir => (s, Next)
          | _ => (s, r)
          end
      | _ => (s, Next)
      end
  | SkipDir => (s, if is_dir v then Next else SkipDir)
  | _ => (s, r)
  end.

(** A root that cannot be read is an error of the callback. *)
Definition WalkDir (root : result view) (s : S) : S * step :=
  match root with
  | Err e => (s, Stop e)
  | Ok v => let '(s, r) := walkDir "." v s in (s, match r with SkipDir => Next | _ => r end)
  end.
End Walk.

(** ** loadIgnoreMatcher *)

(** The rules and the number of ignore files so far. *)
Abbreviation matcher_state := (list ignoreRule * nat)%type.

Definition load_ignore_file (base : string) (file : ignore_file) (st : matcher_state) : result matcher_state :=
  let '(rules, ignoreFiles) := st in
  match file with
  | IgnoreAbsent => Ok st
  | IgnoreStatFails e => Err e
  | IgnoreIrregular => Ok st
  | _ =>
      let ignoreFiles := ignoreFiles + 1 in
      _ ← reject_if (maximumIgnoreFiles <? ignoreFiles) [AnonymousError];
      match file with
      | IgnoreRead contents closed =>
          more ← parseIgnoreRules contents base;
          _ ← closed;
          _ ← reject_if (maximumIgnoreRules + length defaultIgnoreRules <? length rules + length more) [AnonymousError];
          Ok (rules ++ more, ignoreFiles)
      | IgnoreOpenFails e => Err e
      | _ => Ok (rules, ignoreFiles)
      end
  end.

Definition load_entry (path : string) (v : view) (walkErr : option (list sentinel)) (st : matcher_state) : matcher_state * step :=
  match walkErr with
  | Some e => (st, Stop e)
  | None =>
      match v with
      | VDir git hop _ _ =>
          if negb (bool_decide (path = ".")) && ignored st.1 path true then (st, SkipDir)
          else
            let base := if bool_decide (path = ".") then "" else path in
            match (st ← load_ignore_file base git st; load_ignore_file base hop st) with
            | Ok st => (st, Next)
            | Err e => (st, Stop e)
            end
      | _ => (st, Next)
      end
  end.

Definition loadIgnoreMatcher (root : result view) : result (list ignoreRule) :=
  match WalkDir load_entry root (defaultIgnoreRules, 0) with
  | (st, Stop e) => Err e
  | (st, _) => Ok st.1
  end.

(** ** ResolveProject *)

Record SnapshotResult := MkSnapshotResult { sr_Root : string; sr_WorkingSubdirectory : string; sr_Manifest : Manifest }.

Section Resolve.
(** [pathExists] of a name in a directory, given by the names along its path. *)
Context (pathExists : list string → string → bool).

Definition projectMarker (directory : list string) : bool :=
  existsb (pathExists directory) ["computehop.toml"; "Cargo.toml"; "go.mod"; "package.json"].

(** The loop upwards; the names of [current] are reversed. *)
Fixpoint find_root (absolute current : list string) (nearestMarker : option (list string)) : list string :=
  let directory := reverse current in
  if pathExists directory ".git" then directory
  else
    let nearestMarker := match nearestMarker with
      | None => if projectMarker directory then Some directory else None
      | Some _ => nearestMarker end in
    match current with
    | [] => default absolute nearestMarker
    | _ :: parent => find_root absolute parent nearestMarker
    end.

Definition join_names (names : list string) : string := str_of (join_bytes "/"%char (map bytes_of names)).

(** [absolute] is the outcome of [Abs] and [EvalSymlinks], [stat] that of [Stat]:
    whether it is a directory. *)
Definition ResolveProject `{UnicodeCase} (absolute : result (list string)) (stat : result bool) : result (list string * string) :=
  absolute ← absolute;
  _ ← reject_if (match stat with Ok true => false | _ => true end) [SnapshotErrInvalidRoot];
  let root := find_root absolute (reverse absolute) None in
  let relative := drop (length root) absolute in
  if bool_decide (relative = []) then Ok (root, "")
  else
    _ ← ValidatePath (join_names relative);
    Ok (root, join_names relative).
End Resolve.

(** ** Build *)

Definition path_le (a b : File) : Prop := String.le (Path a) (Path b).
#[global] Instance path_le_dec : RelDecision path_le.
Proof. intros a b. unfold path_le. apply _. Defined.

Section Build.
Context `{UnicodeCase} `{ChunkStore St} (sha256 : bytes → bytes).

(** The files and the bytes so far, and the store. *)
Record build_state := MkBuildState { bs_files : list File; bs_total : Z; bs_store : St }.

(** [ctxErr path] is [ctx.Err()] when the walk is at [path]. *)
Definition build_entry (rules : list ignoreRule) (ctxErr : string → option (list sentinel))
    (path : string) (v : view) (walkErr : option (list sentinel)) (st : build_state) : build_state * step :=
  match walkErr, ctxErr path with
  | Some e, _ => (st, Stop e)
  | None, Some e => (st, Stop e)
  | None, None =>
      if bool_decide (path = ".") then (st, Next)
      else if ignored rules path (is_dir v) then (st, if is_dir v then SkipDir else Next)
      else match v with
      | VDir _ _ _ _ => (st, Next)
      | VOther => (st, Stop [SnapshotErrUnsupportedEntry])
      | VReg attempts =>
          let '(store, built) := buildStableFile sha256 attempts path (bs_store st) in
          match built with
          | None => (MkBuildState (bs_files st) (bs_total st) store, Hung)
          | Some (Err e) => (MkBuildState (bs_files st) (bs_total st) store, Stop e)
          | Some (Ok file) =>
              let files := bs_files st ++ [file] in
              let total := wrap_int64 (bs_total st + FileSize file) in
              (MkBuildState files total store,
               if (MaximumFiles <? Z.of_nat (length files))%Z || (MaximumSnapshotBytes <? total)%Z
               then Stop [SnapshotErrInvalidManifest] else Next)
          end
      end
  end.

(** What the snapshotter finds: the resolved project directory and the two walks. *)
Record Scene := MkScene {
  sc_absolute : result (list string); sc_stat : result bool; sc_exists : list string → string → bool;
  sc_rules_view : list string → result view; sc_files_view : list string → result view; sc_ctx : string → option (list sentinel)
}.

(** [None] when a read never ends. *)
Definition Build (scene : Scene) (store : St) : St * option (result SnapshotResult) :=
  match ResolveProject (sc_exists scene) (sc_absolute scene) (sc_stat scene) with
  | Err e => (store, Some (Err e))
  | Ok (root, subdirectory) =>
      match loadIgnoreMatcher (sc_rules_view scene root) with
      | Err e => (store, Some (Err e))
      | Ok rules =>
          let '(st, r) := WalkDir (build_entry rules (sc_ctx scene)) (sc_files_view scene root) (MkBuildState [] 0 store) in
          match r with
          | Hung => (bs_store st, None)
          | Stop e => (bs_store st, Some (Err e))
          | _ =>
              let manifest := MkManifest ManifestVersion (merge_sort path_le (bs_files st)) (bs_total st) in
              (bs_store st, Some (_ ← CanonicalBytes manifest; Ok (MkSnapshotResult ("/" +:+ join_names root) subdirectory manifest)))
          end
      end
  end.

(** ** BuildDeclared *)

(** What [Lstat] of a declared output gives. *)
Inductive declared := DeclaredAbsent | DeclaredFails (e : list sentinel) | DeclaredFound (v : view).

Definition reservedTransferPath (value : string) : bool :=
  existsb (λ segment, bool_decide (segment ∈ reserved_names)) (split "/"%char (PortablePath.Key value)).

Record declared_state := MkDeclaredState { ds_files : gmap string File; ds_portablePaths : gmap string string; ds_store : St }.
Definition with_store (st : declared_state) (store : St) : declared_state := MkDeclaredState (ds_files st) (ds_portablePaths st) store.

Definition addDeclaredPath (relative : string) (attempts : nat → FileRun * option (list sentinel)) (st : declared_state) : declared_state * step :=
  if match ValidatePath relative with Ok _ => false | Err _ => true end || reservedTransferPath relative
  then (st, Stop [SnapshotErrUnsafePath])
  else
    let key := PortablePath.Key relative in
    match ds_portablePaths st !! key with
    | Some existing => (st, if bool_decide (existing = relative) then Next else Stop [SnapshotErrInvalidManifest])
    | None =>
        let '(store, built) := buildStableFile sha256 attempts relative (ds_store st) in
        match built with
        | None => (with_store st store, Hung)
        | Some (Err e) => (with_store st store, Stop e)
        | Some (Ok file) =>
            if (MaximumFiles <=? Z.of_nat (size (ds_files st)))%Z then (with_store st store, Stop [SnapshotErrInvalidManifest])
            else (MkDeclaredState (<[relative := file]> (ds_files st)) (<[key := relative]> (ds_portablePaths st)) store, Next)
        end
    end.

(** The callback of the walk below the declared directory [declaration]; the path of
    the walk is relative to it. *)
Definition declared_entry (ctxErr : string → option (list sentinel)) (declaration path : string) (v : view)
    (walkErr : option (list sentinel)) (st : declared_state) : declared_state * step :=
  let relative := if bool_decide (path = ".") then declaration else declaration +:+ "/" +:+ path in
  match walkErr, ctxErr relative with
  | Some e, _ => (st, Stop e)
  | None, Some e => (st, Stop e)
  | None, None =>
      match v with
      | VDir _ _ _ _ => (st, Next)
      | VOther => (st, if bool_decide (path = ".") then Next else Stop [SnapshotErrUnsupportedEntry])
      | VReg attempts => if bool_decide (path = ".") then (st, Next) else addDeclaredPath relative attempts st
      end
  end.

(** [again declaration] is what the walk finds at the declared directory. *)
Fixpoint declared_loop (lstat : string → declared) (again : string → result view) (ctxErr : string → option (list sentinel))
    (declarations : list string) (st : declared_state) : declared_state * step :=
  match declarations with
  | [] => (st, Next)
  | declaration :: rest =>
      if match ValidatePath declaration with Ok _ => false | Err _ => true end || reservedTransferPath declaration
      then (st, Stop [SnapshotErrUnsafePath])
      else
        let '(st, r) := match lstat declaration with
          | DeclaredAbsent => (st, Stop [SnapshotErrDeclaredOutputMissing])
          | DeclaredFails e => (st, Stop e)
          | DeclaredFound VOther => (st, Stop [SnapshotErrUnsupportedEntry])
          | DeclaredFound (VDir _ _ _ _) => WalkDir (declared_entry ctxErr declaration) (again declaration) st
          | DeclaredFound (VReg attempts) => addDeclaredPath declaration attempts st
          end in
        match r with Next => declared_loop lstat again ctxErr rest st | _ => (st, r) end
  end.

(** The size of a snapshot: [manifest.TotalBytes += file.Size] in any order. *)
Definition total_size (files : list File) : Z := foldl (λ total file, wrap_int64 (total + FileSize file)) 0%Z files.

Definition BuildDeclared (root : result bool) (lstat : string → declared) (again : string → result view)
    (ctxErr : string → option (list sentinel)) (declarations : list string) (store : St) : St * option (result Manifest) :=
  match root with
  | Err e => (store, Some (Err e))
  | Ok false => (store, Some (Err [SnapshotErrInvalidRoot]))
  | Ok true =>
      let '(st, r) := declared_loop lstat again ctxErr declarations (MkDeclaredState ∅ ∅ store) in
      match r with
      | Hung => (ds_store st, None)
      | Stop e => (ds_store st, Some (Err e))
      | _ =>
          let files := merge_sort path_le (map snd (map_to_list (ds_files st))) in
          let manifest := MkManifest ManifestVersion files (total_size files) in
          (ds_store st, Some (_ ← CanonicalBytes manifest; Ok manifest))
      end
  end.

End Build.

(** ** What a walk visits *)

Section ViewInduction.
Context (P : view → Prop).
Hypothesis (Hdir : ∀ git hop e children, Forall (λ c, P c.2) children → P (VDir git hop e children)).
Hypothesis (Hreg : ∀ attempts, P (VReg attempts)) (Hother : P VOther).
Fixpoint view_tree_ind (v : view) : P v :=
  match v with
  | VDir git hop e children =>
      Hdir git hop e children ((fix all (l : list (string * view)) : Forall (λ c, P c.2) l :=
        match l with [] => List.Forall_nil _ | c :: l => @List.Forall_cons _ (λ c, P c.2) c l (view_tree_ind c.2) (all l) end) children)
  | VReg attempts => Hreg attempts
  | VOther => Hother
  end.
End ViewInduction.

(** [finds lets path v p w]: [w] is at [p], below let_in directories from [v] at
    [path], and is let_in itself. *)
Inductive finds (lets : string → view → bool) : string → view → string → view → Prop :=
  | finds_here path v : lets path v = true → finds lets path v path v
  | finds_below path git hop e children name v p w : lets path (VDir git hop e children) = true → (name, v) ∈ children →
      finds lets (child path name) v p w → finds lets path (VDir git hop e children) p w.

(** The entries that are neither the root nor ignored. *)
Definition let_in (rules : list ignoreRule) (path : string) (v : view) : bool :=
  bool_decide (path = ".") || negb (ignored rules path (is_dir v)).

(** The files the walk comes to, in its order. *)
Fixpoint listing (lets : string → view → bool) (path : string) (v : view) : list (string * (nat → FileRun * option (list sentinel))) :=
  if lets path v then
    match v with
    | VDir _ _ _ children =>
        (fix entries (l : list (string * view)) := match l with [] => [] | (name, v) :: rest => listing lets (child path name) v ++ entries rest end) children
    | VReg attempts => if bool_decide (path = ".") then [] else [(path, attempts)]
    | VOther => []
    end
  else [].

Lemma listing_dir lets path git hop e children : listing lets path (VDir git hop e children) =
  if lets path (VDir git hop e children) then concat (map (λ c, listing lets (child path c.1) c.2) children) else [].
Proof.
  cbn [listing]. destruct (lets _ _); [|done]. induction children as [|[name v] children IH]; [done|]. cbn [map concat fst snd]. by rewrite IH.
Qed.

Lemma finds_let_in lets path v p w : finds lets path v p w → lets p w = true.
Proof. by induction 1. Qed.

Lemma finds_all lets path v p w : finds lets path v p w → finds (λ _ _, true) path v p w.
Proof. induction 1; [by apply finds_here|by eapply finds_below]. Qed.

Lemma listing_finds lets path v p attempts : (p, attempts) ∈ listing lets path v ↔ finds lets path v p (VReg attempts) ∧ p ≠ ".".
Proof.
  revert path. induction v as [git hop e children IH|a|] using view_tree_ind; intros path.
  - rewrite listing_dir. destruct (lets path _) eqn:Ha.
    + rewrite list_elem_of_In, in_concat. setoid_rewrite in_map_iff. split.
      * intros (l & ([name v] & <- & Hc%list_elem_of_In) & Hp%list_elem_of_In). rewrite Forall_forall in IH.
        apply (IH _ Hc) in Hp as [Hp Hne]. split; [|done]. by eapply finds_below.
      * intros [Hf Hne]. inversion Hf as [|path' git' hop' e' children' name v p' w Ha' Hc Hv]; subst.
        exists (listing lets (child path name) v). split.
        -- exists (name, v). split; [done|]. by apply list_elem_of_In.
        -- apply list_elem_of_In. rewrite Forall_forall in IH. by apply (IH (name, v) Hc).
    + split; [by intros ?%not_elem_of_nil|]. intros [Hf _]. inversion Hf; congruence.
  - cbn. destruct (lets path (VReg a)) eqn:Ha.
    + case_bool_decide as Hp.
      * split; [by intros ?%not_elem_of_nil|]. intros [Hf Hne]. by inversion Hf; subst.
      * rewrite list_elem_of_singleton. split; [intros [= -> ->]; split; [by apply finds_here|done]|]. intros [Hf _]. by inversion Hf.
    + split; [by intros ?%not_elem_of_nil|]. intros [Hf _]. inversion Hf; congruence.
  - cbn. split; [case_match; by intros ?%not_elem_of_nil|]. intros [Hf _]. inversion Hf.
Qed.

(** ** Building keeps what is stored *)

(** Storing chunks takes the store along [R]: what every [Put] does, building does. *)
Section Reaches.
Context `{UnicodeCase} `{ChunkStore St} (sha256 : bytes → bytes).
Context (R : St → St → Prop) `{!PreOrder R} (Hput : ∀ st digest contents, R st (put st digest contents).1).

Lemma store_chunk_reaches st contents st' r : store_chunk sha256 st contents = (st', r) → R st.1 st'.1.
Proof.
  unfold store_chunk. pose proof (Hput st.1 (Sum sha256 contents) contents) as Hp. destruct (put st.1 _ _) as [s [[]|e]]; by intros [= <- <-].
Qed.
Lemma feed_reaches data chunk rolling st st' r : feed (store_chunk sha256) data chunk rolling st = (st', r) → R st.1 st'.1.
Proof.
  revert chunk rolling st. induction data as [|b data IH]; intros chunk rolling st; cbn [feed]; [by intros [= <- <-]|].
  destruct (negb _); [by apply IH|]. destruct (store_chunk sha256 st (chunk ++ [b])) as [st1 [[]|e]] eqn:E.
  - intros Hf%IH. etrans; [by eapply store_chunk_reaches|done].
  - intros [= <- <-]. by eapply store_chunk_reaches.
Qed.
Lemma chunk_loop_reaches reads n chunk rolling st st' r : chunk_loop (store_chunk sha256) reads n chunk rolling st = (st', r) → R st.1 st'.1.
Proof.
  revert n chunk rolling st. induction reads as [|rd reads IH]; intros n chunk rolling st; cbn [chunk_loop]; [by intros [= <- <-]|].
  destruct (read_ctx rd); [by intros [= <- <-]|].
  assert (∀ st0 st1 fed, R st.1 st0.1 → st1 = st0 → (let '(st, fed0) := (st1, fed) in
    match fed0 with
    | Err e => (st, Some (Err e))
    | Ok (chunk, rolling) =>
        match read_err rd with
        | None => chunk_loop (store_chunk sha256) reads 0 chunk rolling st
        | Some e => if negb (errors_is e IoEOF) then (st, Some (Err e)) else match chunk with [] => (st, Some (Ok tt))
            | _ => let '(st, r) := store_chunk sha256 st chunk in (st, Some r) end
        end
    end) = (st', r) → R st.1 st'.1) as Hrest.
  { intros st0 st1 fed Hg ->. destruct fed as [[chunk' rolling']|e]; [|by intros [= <- <-]].
    destruct (read_err rd) as [e|]; [|intros Hl%IH; by etrans]. destruct (negb _); [by intros [= <- <-]|].
    destruct chunk'; [by intros [= <- <-]|]. destruct (store_chunk sha256 st0 _) as [st2 r2] eqn:E. intros [= <- <-].
    etrans; [done|]. by eapply store_chunk_reaches. }
  destruct (read_data rd) as [|b data]; destruct (read_err rd) as [e|] eqn:Ee.
  - cbn [feed]. intros Hl. by apply (Hrest st st (Ok (chunk, rolling))).
  - case_bool_decide; [by intros [= <- <-]|apply IH].
  - destruct (feed (store_chunk sha256) (b :: data) chunk rolling st) as [st1 fed] eqn:Ef. intros Hl. apply (Hrest st1 st1 fed); [by eapply feed_reaches|done|done].
  - destruct (feed (store_chunk sha256) (b :: data) chunk rolling st) as [st1 fed] eqn:Ef. intros Hl. apply (Hrest st1 st1 fed); [by eapply feed_reaches|done|done].
Qed.
Lemma buildFile_reaches run relative store store' r : buildFile sha256 run relative store = (store', r) → R store store'.
Proof.
  unfold buildFile, ChunkReader. destruct (ValidatePath relative); [|by intros [= <- <-]]. destruct (run_open run); [|by intros [= <- <-]].
  destruct (run_before run) as [before|]; [|by intros [= <- <-]]. destruct (negb _); [by intros [= <- <-]|].
  destruct (chunk_loop _ _ _ _ _ _) as [[s chunks] rd] eqn:E. apply chunk_loop_reaches in E. cbn in E.
  destruct rd as [[[]|e]|]; [destruct (run_after run); [destruct (_ || _)|]|..]; by intros [= <- <-].
Qed.
Lemma stable_loop_reaches attempts relative store last store' r :
  stable_loop sha256 attempts relative store last = (store', r) → R store store'.
Proof.
  revert store last. induction attempts as [|[run ctx] attempts IH]; intros store last; cbn [stable_loop]; [by intros [= <- <-]|].
  destruct (buildFile sha256 run relative store) as [s [[f|e]|]] eqn:E; apply buildFile_reaches in E; try by intros [= <- <-].
  destruct (negb _); [by intros [= <- <-]|]. destruct ctx; [by intros [= <- <-]|]. intros Hl%IH. by etrans.
Qed.

End Reaches.

Section Keeps.
Context `{UnicodeCase} `{ChunkStoreLaws St} (sha256 : bytes → bytes).

(** [s'] holds what [s] does. *)
Definition grows (s s' : St) : Prop := ∀ d c, holds s d c → holds s' d c.
#[local] Instance grows_refl : Reflexive grows.
Proof. by intros s d c. Qed.
#[local] Instance grows_trans : Transitive grows.
Proof. intros a b c Hab Hbc d x Hd. by apply Hbc, Hab. Qed.

Lemma put_grows st digest contents : grows st (put st digest contents).1.
Proof. intros d c Hd. destruct (put st digest contents) as [st' r] eqn:E. by eapply put_keeps. Qed.
#[local] Instance grows_preorder : PreOrder grows.
Proof. split; apply _. Qed.
Lemma stable_loop_grows attempts relative store last store' r :
  stable_loop sha256 attempts relative store last = (store', r) → grows store store'.
Proof. apply stable_loop_reaches; [apply _|apply put_grows]. Qed.

Lemma describes_grows relative content file s s' : grows s s' → describes sha256 relative content file s → describes sha256 relative content file s'.
Proof.
  intros Hg (? & ? & ? & ? & Hall). split_and!; try done. apply (Forall_impl _ _ _ Hall). intros c. apply Hg.
Qed.
End Keeps.

(** ** Snapshots *)

Section Exact.
Context `{UnicodeCaseLaws} `{ChunkStoreLaws St} (sha256 : bytes → bytes) (Hsha : ∀ c, length (sha256 c) = DigestBytes).

(** The bytes that reads deliver. *)
Fixpoint delivered (reads : list read) : bytes :=
  match reads with
  | [] => []
  | r :: rest => read_data r ++ match read_err r with Some _ => [] | None => delivered rest end
  end.
Lemma delivers_delivered n reads c : delivers n reads c → c = delivered reads.
Proof.
  induction 1 as [n r rest e _ Herr _|n r rest c _ Hd Herr _ _ IH|n r rest c _ _ Herr _ IH]; cbn; rewrite Herr.
  - by rewrite app_nil_r.
  - by rewrite Hd.
  - by rewrite IH.
Qed.

(** Every attempt to read the file reads a content. *)
Definition readable (attempts : nat → FileRun * option (list sentinel)) : Prop :=
  ∀ i, ∃ c, delivers 0 (run_reads (attempts i).1) c ∧ (Z.of_nat (length c) < 2 ^ 63)%Z.

(** The file describes a content that was read, and its chunks are stored. *)
Definition recorded (store : St) (p : string) (attempts : nat → FileRun * option (list sentinel)) (f : File) : Prop :=
  file_ok f ∧ ∃ i, i < maximumStableFileAttempts ∧ describes sha256 p (delivered (run_reads (attempts i).1)) f store.

Lemma stable_recorded attempts p store store' f : readable attempts →
  buildStableFile sha256 attempts p store = (store', Some (Ok f)) → recorded store' p attempts f ∧ grows store store'.
Proof.
  intros Hread Hb. split; [|by eapply stable_loop_grows].
  eapply (stable_file_exact _ _ _ _ _ sha256 attempts (λ i, delivered (run_reads (attempts i).1))); [done| |done].
  intros i. destruct (Hread i) as (c & Hc & Hlen). by rewrite <- (delivers_delivered _ _ _ Hc).
Qed.

Lemma recorded_grows s s' p a f : grows s s' → recorded s p a f → recorded s' p a f.
Proof. intros Hg (Hok & i & Hi & Hd). split; [done|]. exists i. split; [done|]. by eapply describes_grows. Qed.

Section Rules.
Context (rules : list ignoreRule) (ctxErr : string → option (list sentinel)).
Abbreviation visit := (build_entry sha256 rules ctxErr).
Abbreviation files_at := (listing (let_in rules)).

(** What a walk from [v] at [path] that ends normally has done. *)
Definition walked (path : string) (v : view) (st st' : build_state (St := St)) : Prop :=
  ∃ files, bs_files st' = bs_files st ++ files ∧ Forall2 (λ pa f, recorded (bs_store st') pa.1 pa.2 f) (files_at path v) files ∧
    ∀ p, finds (let_in rules) path v p VOther → p = ".".
Definition walk_ok (path : string) (v : view) : Prop := ∀ st st' r,
  (∀ p a, (p, a) ∈ files_at path v → readable a) → walkDir visit path v st = (st', r) →
  grows (bs_store st) (bs_store st') ∧ r ≠ SkipDir ∧ (r = Next → walked path v st st').

(** The loop over the entries of a directory. *)
Fixpoint walk_entries (path : string) (children : list (string * view)) (st : build_state (St := St)) : build_state * step :=
  match children with
  | [] => (st, Next)
  | (name, v) :: rest =>
      let '(st, r) := walkDir visit (child path name) v st in
      match r with Next => walk_entries path rest st | SkipDir => (st, Next) | _ => (st, r) end
  end.

Lemma walk_entries_ok path children st st' r : Forall (λ c, ∀ path, walk_ok path c.2) children →
  (∀ p a, (p, a) ∈ concat (map (λ c, files_at (child path c.1) c.2) children) → readable a) →
  walk_entries path children st = (st', r) →
  grows (bs_store st) (bs_store st') ∧ r ≠ SkipDir ∧ (r = Next → ∃ files, bs_files st' = bs_files st ++ files ∧
    Forall2 (λ pa f, recorded (bs_store st') pa.1 pa.2 f) (concat (map (λ c, files_at (child path c.1) c.2) children)) files ∧
    ∀ name v p, (name, v) ∈ children → finds (let_in rules) (child path name) v p VOther → p = ".").
Proof.
  intros Hall. revert st. induction Hall as [|[name v] children Hv Hall IH]; intros st Hread; cbn [walk_entries].
  { intros [= <- <-]. split_and!; [by intros ??|done|]. intros _. exists []. rewrite app_nil_r. split_and!; [done|done|]. by intros ??? ?%not_elem_of_nil. }
  destruct (walkDir visit (child path name) v st) as [st1 r1] eqn:E. cbn in Hread.
  apply Hv in E as (Hg & Hns & Hok); [|intros p a Hin; eapply Hread, elem_of_app; left; exact Hin].
  destruct r1; [|done|by intros [= <- <-]..].
  intros (Hg' & Hns' & Hok')%IH; [|intros p a Hin; eapply Hread, elem_of_app; right; exact Hin].
  split; [intros d c Hd; by apply Hg', Hg|]. split; [done|]. intros ->. destruct (Hok eq_refl) as (fs & Hfs & Hrec & Hno).
  destruct (Hok' eq_refl) as (fs' & Hfs' & Hrec' & Hno'). exists (fs ++ fs'). split_and!.
  - by rewrite Hfs', Hfs, app_assoc.
  - cbn. apply Forall2_app; [|done]. eapply Forall2_impl; [exact Hrec|]. cbn. intros pa f. by apply recorded_grows.
  - intros n w p [[= -> ->]|Hin]%elem_of_cons; [apply Hno|by eapply Hno'].
Qed.

Lemma walk_dir path git hop readErr children st : walkDir visit path (VDir git hop readErr children) st =
  let '(s, r) := visit path (VDir git hop readErr children) None st in
  match r with
  | Next =>
      let '(s, r) := match readErr with None => (s, Next) | Some e => visit path (VDir git hop readErr children) (Some e) s end in
      match r with Next => walk_entries path children s | SkipDir => (s, Next) | _ => (s, r) end
  | SkipDir => (s, Next)
  | _ => (s, r)
  end.
Proof.
  cbn [walkDir is_dir]. destruct (visit path _ None st) as [s []]; try done.
  destruct (match readErr with Some _ => _ | None => _ end) as [s' []]; try done.
  revert s'. induction children as [|[n w] children IH]; intros s'; [done|]. cbn [walk_entries].
  destruct (walkDir visit (child path n) w s') as [s1 []]; done || apply IH.
Qed.

(** A walk that stops without storing anything. *)
Ltac halted := intros [= <- <-]; split_and!; [by intros ??|done|done].

Lemma walk_all_ok v path : walk_ok path v.
Proof.
  revert path. induction v as [git hop readErr children IH|attempts|] using view_tree_ind; intros path st st' r Hread.
  - rewrite walk_dir. unfold build_entry. rewrite listing_dir in Hread. unfold walked. rewrite listing_dir. unfold let_in in *. cbn [is_dir] in *.
    destruct (ctxErr path); [halted|].
    assert (∀ lets, lets path (VDir git hop readErr children) = false → ∀ p, finds lets path (VDir git hop readErr children) p VOther → p = ".") as Hno
      by (intros lets Ha p Hf; inversion Hf; congruence).
    assert (∀ b, b = true → (∀ p a, (p, a) ∈ concat (map (λ c, files_at (child path c.1) c.2) children) → readable a) →
      match (match readErr with None => (st, Next) | Some e => (st, Stop e) end : build_state * step) with
      | (s, Next) => walk_entries path children s | (s, SkipDir) => (s, Next) | (s, r) => (s, r) end = (st', r) →
      grows (bs_store st) (bs_store st') ∧ r ≠ SkipDir ∧ (r = Next → ∃ files, bs_files st' = bs_files st ++ files ∧
        Forall2 (λ pa f, recorded (bs_store st') pa.1 pa.2 f) (if b then concat (map (λ c, files_at (child path c.1) c.2) children) else []) files ∧
        ∀ p, finds (let_in rules) path (VDir git hop readErr children) p VOther → p = ".")) as Hwalk.
    { intros b -> Hr. destruct readErr as [e|]; [halted|]. intros (Hg & Hns & Hok)%walk_entries_ok; [|done|done].
      split_and!; [done|done|]. intros Hn. destruct (Hok Hn) as (files & ? & ? & Hoth). exists files. split_and!; [done|done|].
      intros p Hf. inversion Hf; subst. by eapply Hoth. }
    unfold let_in in Hwalk. destruct (bool_decide (path = ".")) eqn:Hp; cbn [orb] in *.
    + intros Hw. apply (Hwalk true); [done|done|]. destruct readErr; exact Hw.
    + destruct (ignored rules path true) eqn:Hi; cbn [negb] in *.
      * intros [= <- <-]. split_and!; [by intros ??|done|]. intros _. exists []. rewrite app_nil_r. split_and!; [done|done|].
        apply Hno. cbn [is_dir]. by rewrite Hp, Hi.
      * intros Hw. apply (Hwalk true); [done|done|]. destruct readErr; exact Hw.
  - cbn [walkDir is_dir]. unfold build_entry, walked. cbn [listing is_dir] in *. unfold let_in in *. cbn [is_dir] in *.
    assert (∀ lets p, ¬ finds lets path (VReg attempts) p VOther) as Hno by (intros lets p Hf; inversion Hf).
    destruct (ctxErr path); [halted|]. destruct (bool_decide (path = ".")) eqn:Hp; cbn [orb] in *.
    { intros [= <- <-]. split_and!; [by intros ??|done|]. intros _. exists []. rewrite app_nil_r. split_and!; [done|done|]. by intros p ?%Hno. }
    destruct (ignored rules path false); cbn [negb] in *.
    { intros [= <- <-]. split_and!; [by intros ??|done|]. intros _. exists []. rewrite app_nil_r. split_and!; [done|done|]. by intros p ?%Hno. }
    destruct (buildStableFile sha256 attempts path (bs_store st)) as [store built] eqn:Eb.
    pose proof Eb as Hg. unfold buildStableFile in Hg. apply stable_loop_grows in Hg.
    destruct built as [[file|e]|]; [|by intros [= <- <-]; split_and!..].
    destruct (stable_recorded attempts path (bs_store st) store file) as [Hrec _]; [apply (Hread path); by left|done|].
    destruct (_ || _); intros [= <- <-]; [done|]. split_and!; [done|done|]. intros _. exists [file]. split_and!; [done|constructor; [done|constructor]|]. by intros p ?%Hno.
  - cbn [walkDir is_dir]. unfold build_entry, walked. cbn [listing is_dir] in *. unfold let_in in *. cbn [is_dir] in *.
    destruct (ctxErr path); [halted|]. destruct (bool_decide (path = ".")) eqn:Hp; cbn [orb] in *.
    { intros [= <- <-]. split_and!; [by intros ??|done|]. intros _. exists []. rewrite app_nil_r. split_and!; [done|done|].
      intros p Hf. inversion Hf; subst. by apply bool_decide_eq_true in Hp. }
    destruct (ignored rules path false) eqn:Hi; cbn [negb] in *; [|halted].
    intros [= <- <-]. split_and!; [by intros ??|done|]. intros _. exists []. rewrite app_nil_r. split_and!; [done|done|].
    intros p Hf. inversion Hf as [path' v' Ha|]; subst. cbn [is_dir] in Ha. by rewrite Hp, Hi in Ha.
Qed.
End Rules.

Lemma canonical_valid m b : CanonicalBytes m = Ok b → Manifest_Validate m = Ok tt.
Proof. unfold CanonicalBytes. by intros ([] & Hv & _)%result_bind_ok. Qed.

(** What a successful [Build] went through. *)
Lemma build_inv scene store store' result : Build sha256 scene store = (store', Some (Ok result)) →
  ∃ root rules v st, ResolveProject (sc_exists scene) (sc_absolute scene) (sc_stat scene) = Ok (root, sr_WorkingSubdirectory result) ∧
    loadIgnoreMatcher (sc_rules_view scene root) = Ok rules ∧ sc_files_view scene root = Ok v ∧
    (walkDir (build_entry sha256 rules (sc_ctx scene)) "." v (MkBuildState [] 0 store) = (st, Next) ∨
     walkDir (build_entry sha256 rules (sc_ctx scene)) "." v (MkBuildState [] 0 store) = (st, SkipDir)) ∧
    store' = bs_store st ∧ Files (sr_Manifest result) = merge_sort path_le (bs_files st) ∧ Manifest_Validate (sr_Manifest result) = Ok tt.
Proof.
  unfold Build. destruct (ResolveProject _ _ _) as [[root sub]|e] eqn:Er; [|done].
  destruct (loadIgnoreMatcher _) as [rules|e] eqn:El; [|done]. unfold WalkDir.
  destruct (sc_files_view scene root) as [v|e] eqn:Ev; [|done].
  destruct (walkDir _ "." v _) as [st r] eqn:Ew. intros Hb. exists root, rules, v, st.
  destruct r; try done; injection Hb as <- (b & Hc & [= <-])%result_bind_ok; cbn; (split_and!; [done..|auto|done|done|by eapply canonical_valid]).
Qed.

(** The walk of a snapshot from [v] with the rules [rules]. *)
Abbreviation taken rules v := (finds (let_in rules) "." v).

Lemma build_exact scene store store' result :
  (∀ root v p a, sc_files_view scene root = Ok v → (p, a) ∈ listing (λ _ _, true) "." v → readable a) →
  Build sha256 scene store = (store', Some (Ok result)) →
  ∃ root rules v, ResolveProject (sc_exists scene) (sc_absolute scene) (sc_stat scene) = Ok (root, sr_WorkingSubdirectory result) ∧
    loadIgnoreMatcher (sc_rules_view scene root) = Ok rules ∧ sc_files_view scene root = Ok v ∧
    Manifest_Validate (sr_Manifest result) = Ok tt ∧
    (∀ p, p ∈ map Path (Files (sr_Manifest result)) ↔ p ≠ "." ∧ ∃ a, taken rules v p (VReg a)) ∧
    (∀ p, taken rules v p VOther → p = ".") ∧
    (∀ f, f ∈ Files (sr_Manifest result) → ¬ reserved (Path f) ∧ ∃ a, taken rules v (Path f) (VReg a) ∧ recorded store' (Path f) a f).
Proof.
  intros Hread (root & rules & v & st & Hres & Hload & Hview & Hwalk & -> & Hfiles & Hvalid)%build_inv.
  exists root, rules, v. split_and!; [done..|idtac|idtac|idtac].
  all: assert (∀ p a, (p, a) ∈ listing (let_in rules) "." v → readable a) as Hread'
    by (intros p a [Hf%finds_all Hp]%listing_finds; eapply Hread; [done|]; by apply listing_finds).
  all: assert (walkDir (build_entry sha256 rules (sc_ctx scene)) "." v (MkBuildState [] 0 store) = (st, Next)) as Hw
    by (destruct Hwalk as [|Hw]; [done|]; by apply walk_all_ok in Hw as (_ & ? & _)).
  all: apply walk_all_ok in Hw as (_ & _ & Hok); [|done]; destruct (Hok eq_refl) as (files & Hfs & Hrec & Hoth); cbn in Hfs.
  all: assert (∀ f, f ∈ Files (sr_Manifest result) ↔ f ∈ files) as Helem by (intros f; by rewrite Hfiles, Hfs, (merge_sort_Permutation path_le)).
  - intros p. split.
    + intros (f & <- & Hf%list_elem_of_In%Helem)%list_elem_of_In%in_map_iff.
      apply list_elem_of_lookup in Hf as [i Hi]. destruct (Forall2_lookup_r _ _ _ _ _ Hrec Hi) as ([p a] & Hp & (_ & j & _ & (Hpath & _))).
      cbn in Hpath. rewrite Hpath. apply list_elem_of_lookup_2 in Hp. apply listing_finds in Hp as [? ?]. eauto.
    + intros (Hne & a & Hf). assert ((p, a) ∈ listing (let_in rules) "." v) as Hin by (by apply listing_finds).
      apply list_elem_of_lookup in Hin as [i Hi]. destruct (Forall2_lookup_l _ _ _ _ _ Hrec Hi) as (f & Hf' & (_ & j & _ & (Hpath & _))).
      cbn in Hpath. rewrite <- Hpath. apply list_elem_of_In, in_map, list_elem_of_In, Helem. by eapply list_elem_of_lookup_2.
  - done.
  - intros f Hf%Helem. apply list_elem_of_lookup in Hf as [i Hi]. destruct (Forall2_lookup_r _ _ _ _ _ Hrec Hi) as ([p a] & Hp & Hr).
    pose proof Hr as (_ & j & _ & (Hpath & _)). cbn in Hpath, Hr. rewrite Hpath.
    apply list_elem_of_lookup_2 in Hp. apply listing_finds in Hp as [Hp Hne]. split; [|by exists a]. intros Hres'.
    apply finds_let_in in Hp. unfold let_in in Hp.
    rewrite bool_decide_eq_false_2 in Hp by done. cbn in Hp. apply negb_true_iff, not_true_iff_false in Hp. apply Hp, ignored_iff. by left.
Qed.

(** C19 A snapshot is the project, no more and no less.  With the ignore rules of the
    project, the manifest of [Build] lists exactly the regular files below directories
    that are not ignored which are not ignored themselves, and nothing else is there
    that should have been sent.  Every file of it is a content the file had when it
    was read, whose chunks are all in the store; the manifest is valid, and no path of
    Git or ComputeHop metadata is ever in it, whatever the rules say. *)
Theorem snapshot_exact scene store store' result :
  (∀ root v p a, sc_files_view scene root = Ok v → (p, a) ∈ listing (λ _ _, true) "." v → readable a) →
  Build sha256 scene store = (store', Some (Ok result)) →
  ∃ root rules v, ResolveProject (sc_exists scene) (sc_absolute scene) (sc_stat scene) = Ok (root, sr_WorkingSubdirectory result) ∧
    loadIgnoreMatcher (sc_rules_view scene root) = Ok rules ∧ sc_files_view scene root = Ok v ∧
    Manifest_Validate (sr_Manifest result) = Ok tt ∧
    (∀ p, p ∈ map Path (Files (sr_Manifest result)) ↔ p ≠ "." ∧ ∃ a, taken rules v p (VReg a)) ∧
    (∀ p, taken rules v p VOther → p = ".") ∧
    (∀ f, f ∈ Files (sr_Manifest result) → ¬ reserved (Path f) ∧ ∃ a, taken rules v (Path f) (VReg a) ∧ recorded store' (Path f) a f).
Proof. apply build_exact. Qed.

(** The rules of a project begin with the defaults. *)
Lemma load_file_extends base file st st' : load_ignore_file base file st = Ok st' → ∃ more, st'.1 = st.1 ++ more.
Proof.
  destruct st as [rules n]. unfold load_ignore_file. assert (∀ st'', Ok (rules, n) = Ok st'' → ∃ more, st''.1 = rules ++ more) as Hsame
    by (intros st'' [= <-]; exists []; by rewrite app_nil_r).
  destruct file as [|e0| |e0|contents closed]; [by apply Hsame|done|by apply Hsame|by intros (u & _ & ?)%result_bind_ok|].
  intros (u & _ & E)%result_bind_ok.
  apply result_bind_ok in E as (more & _ & E). apply result_bind_ok in E as (u' & _ & E). apply result_bind_ok in E as (u'' & _ & [= <-]). by exists more.
Qed.

Lemma walk_invariant {S} (fn : string → view → option (list sentinel) → S → S * step) (I : S → Prop) v :
  (∀ path v e s, I s → I (fn path v e s).1) → ∀ path s, I s → I (walkDir fn path v s).1.
Proof.
  intros Hfn. induction v as [git hop readErr children IH|a|] using view_tree_ind; intros path s Hs; cbn [walkDir].
  - pose proof (Hfn path (VDir git hop readErr children) None s Hs) as H'. destruct (fn path _ None s) as [s1 []]; try done. cbn in H'.
    pose proof (Hfn path (VDir git hop readErr children)) as H''. destruct (match readErr with Some _ => _ | None => _ end) as [s2 r2] eqn:E.
    assert (I s2) as Hs2 by (destruct readErr as [e|]; [specialize (H'' (Some e) s1 H'); by rewrite E in H''|by injection E as <- <-]).
    destruct r2; try done. clear E H''. revert s2 Hs2. induction IH as [|[n w] children Hw _ IHc]; intros s2 Hs2; [done|].
    specialize (Hw (child path n) s2 Hs2). cbn in Hw. destruct (walkDir fn (child path n) w s2) as [s3 []]; try done. by apply IHc.
  - pose proof (Hfn path (VReg a) None s Hs) as H'. by destruct (fn path _ None s) as [s1 []].
  - pose proof (Hfn path VOther None s Hs) as H'. by destruct (fn path _ None s) as [s1 []].
Qed.

Lemma load_entry_extends path v e st : (∃ more, st.1 = defaultIgnoreRules ++ more) → ∃ more, (load_entry path v e st).1.1 = defaultIgnoreRules ++ more.
Proof.
  intros (more & Hm). unfold load_entry. destruct e; [by exists more|]. destruct v as [git hop readErr children|a|]; [|by exists more..].
  destruct (_ && _); [by exists more|]. destruct (load_ignore_file _ git st) as [st1|] eqn:E1; [|by exists more].
  cbn [mbind result_bind]. destruct (load_ignore_file _ hop st1) as [st2|] eqn:E2; [|by exists more].
  apply load_file_extends in E1 as [m1 E1], E2 as [m2 E2]. cbn. exists (more ++ m1 ++ m2). by rewrite E2, E1, Hm, <- !app_assoc.
Qed.

Lemma load_extends root rules : loadIgnoreMatcher root = Ok rules → ∃ more, rules = defaultIgnoreRules ++ more.
Proof.
  unfold loadIgnoreMatcher, WalkDir. destruct root as [v|e]; [|done].
  pose proof (walk_invariant load_entry _ v load_entry_extends "." (defaultIgnoreRules, 0) (ex_intro _ [] (eq_sym (app_nil_r _)))) as Hw.
  destruct (walkDir load_entry "." v _) as [st []]; cbn in Hw; try done; by intros [= <-].
Qed.

(** C20 Credentials stay at home unless the project says otherwise.  If a snapshot
    contains a file with the name of a common credential file anywhere along its path
    ([.env], [*.pem] and the like), then an ignore file of the project has a negation
    that selects that path. *)
Theorem credentials_stay scene store store' result f name :
  (∀ root v p a, sc_files_view scene root = Ok v → (p, a) ∈ listing (λ _ _, true) "." v → readable a) →
  Build sha256 scene store = (store', Some (Ok result)) → f ∈ Files (sr_Manifest result) →
  name ∈ split_bytes slash (bytes_of (Path f)) → secret_name name →
  ∃ root more rule, loadIgnoreMatcher (sc_rules_view scene root) = Ok (defaultIgnoreRules ++ more) ∧
    rule ∈ more ∧ ru_negative rule = true ∧ selects rule (Path f) false.
Proof.
  intros Hread (root & rules & v & _ & Hload & _ & _ & Hfiles & _)%build_exact Hf Hname Hsec; [|done].
  destruct (load_extends _ _ Hload) as [more ->]. exists root, more.
  assert (ignored (defaultIgnoreRules ++ more) (Path f) false = false) as Hig.
  { destruct (proj1 (Hfiles (Path f))) as (Hne & a & Ha%finds_let_in); [by apply list_elem_of_In, in_map, list_elem_of_In|].
    unfold let_in in Ha. rewrite bool_decide_eq_false_2 in Ha by done. by apply negb_true_iff in Ha. }
  destruct (decide (Exists (λ r, ru_negative r = true ∧ selects r (Path f) false) more)) as [Hex|Hno].
  - apply Exists_exists in Hex as (rule & ? & ? & ?). by exists rule.
  - rewrite (secret_ignored _ _ _ name) in Hig; [done|done|done|]. intros rule Hr Hn Hs. apply Hno, Exists_exists. eauto.
Qed.
(** ** Declared outputs *)

Section Declared.
Context (lstat : string → declared) (again : string → result view) (ctxErr : string → option (list sentinel)).

(** [p] is a regular file that the declaration [d] names, with these attempts to read it. *)
Definition named (d p : string) (attempts : nat → FileRun * option (list sentinel)) : Prop :=
  lstat d = DeclaredFound (VReg attempts) ∧ p = d ∨
  ∃ git hop e children v q, lstat d = DeclaredFound (VDir git hop e children) ∧ again d = Ok v ∧
    finds (λ _ _, true) "." v q (VReg attempts) ∧ q ≠ "." ∧ p = d +:+ "/" +:+ q.

Section Collected.
Context (origin : string → (nat → FileRun * option (list sentinel)) → Prop) (Horigin : ∀ p a, origin p a → readable a).

(** The files collected so far, and the paths taken. *)
Definition collected_ok (st : declared_state (St := St)) : Prop :=
  (∀ p f, ds_files st !! p = Some f → reservedTransferPath p = false ∧ ∃ a, origin p a ∧ recorded (ds_store st) p a f) ∧
  (∀ key p, ds_portablePaths st !! key = Some p → is_Some (ds_files st !! p)).
Definition extends (st st' : declared_state (St := St)) : Prop :=
  (∀ p, is_Some (ds_files st !! p) → is_Some (ds_files st' !! p)) ∧ grows (ds_store st) (ds_store st').
#[local] Instance extends_refl : Reflexive extends.
Proof. intros st. split; [done|by intros ??]. Qed.
#[local] Instance extends_trans : Transitive extends.
Proof. intros a b c [Hf Hg] [Hf' Hg']. split; [auto|]. intros d x Hd. by apply Hg', Hg. Qed.

Lemma collected_grows st store : grows (ds_store st) store → collected_ok st → collected_ok (with_store st store).
Proof.
  intros Hg [Hf Hk]. split; [|done]. intros p f Hp. destruct (Hf p f Hp) as (Hr & a & Ho & Hrec). split; [done|]. exists a. split; [done|].
  by eapply recorded_grows.
Qed.

Lemma add_ok p attempts st st' r : collected_ok st → origin p attempts → addDeclaredPath sha256 p attempts st = (st', r) →
  collected_ok st' ∧ extends st st' ∧ r ≠ SkipDir ∧ (r = Next → is_Some (ds_files st' !! p)).
Proof.
  intros Hst Ho. unfold addDeclaredPath. destruct (match ValidatePath p with Ok _ => false | Err _ => true end || reservedTransferPath p) eqn:Eg.
  { intros [= <- <-]. by split_and!. }
  apply orb_false_iff in Eg as [_ Hres]. destruct (ds_portablePaths st !! PortablePath.Key p) as [existing|] eqn:Ek.
  { intros [= <- <-]. split_and!; [done|done|by case_bool_decide|]. case_bool_decide; [subst existing; intros _; by eapply Hst|done]. }
  destruct (buildStableFile sha256 attempts p (ds_store st)) as [store built] eqn:Eb.
  assert (grows (ds_store st) store) as Hg by (by eapply stable_loop_grows).
  assert (∀ r', (with_store st store, r') = (st', r) → r' ≠ SkipDir → r' ≠ Next →
    collected_ok st' ∧ extends st st' ∧ r ≠ SkipDir ∧ (r = Next → is_Some (ds_files st' !! p))) as Hkept
    by (intros r' [= <- <-] Hn Hn'; split_and!; [by apply collected_grows|done|done|done]).
  destruct built as [[file|e]|]; [|by intros E; eapply Hkept..].
  destruct (MaximumFiles <=? _)%Z; [by intros E; eapply Hkept|]. intros [= <- <-].
  destruct (stable_recorded attempts p (ds_store st) store file) as [Hrec _]; [by eapply Horigin|done|].
  split_and!; [|split; [|done]|done|intros _; cbn; by rewrite lookup_insert_eq].
  - destruct (collected_grows st store Hg Hst) as [Hf Hk]. split; cbn.
    + intros q f [[<- <-]|[_ Hq]]%lookup_insert_Some; [split; [done|by exists attempts]|by apply Hf].
    + intros key q [[_ <-]|[_ Hq]]%lookup_insert_Some; [by rewrite lookup_insert_eq|]. apply Hk in Hq. cbn in Hq.
      destruct (decide (q = p)) as [->|]; [by rewrite lookup_insert_eq|by rewrite lookup_insert_ne].
  - intros q Hq. cbn. destruct (decide (q = p)) as [->|]; [by rewrite lookup_insert_eq|by rewrite lookup_insert_ne].
Qed.

(** The walk below a declared directory. *)
Section Below.
Context (d : string).
Abbreviation under := (listing (λ _ _, true)).
Abbreviation visit := (declared_entry sha256 ctxErr d).
Abbreviation full q := (d +:+ "/" +:+ q).

Definition below_ok (path : string) (v : view) : Prop := ∀ st st' r,
  (∀ q a, (q, a) ∈ under path v → origin (full q) a) → collected_ok st → walkDir visit path v st = (st', r) →
  collected_ok st' ∧ extends st st' ∧ r ≠ SkipDir ∧ (r = Next → ∀ q a, (q, a) ∈ under path v → is_Some (ds_files st' !! full q)).

Lemma below_all_ok v path : below_ok path v.
Proof.
  revert path. induction v as [git hop readErr children IH|attempts|] using view_tree_ind; intros path st st' r Hor Hst; cbn [walkDir is_dir].
  - rewrite listing_dir in *. cbv iota in *. unfold declared_entry at 1 2. destruct (ctxErr _); [intros [= <- <-]; by split_and!|].
    destruct readErr as [e|]; [intros [= <- <-]; by split_and!|].
    revert st Hst Hor. induction IH as [|[n w] children Hw _ IHc]; intros st Hst Hor.
    { intros [= <- <-]. split_and!; [done|done|done|]. intros _ q a. cbn. by intros ?%not_elem_of_nil. }
    destruct (walkDir visit (child path n) w st) as [st1 r1] eqn:E. cbn in Hor.
    apply Hw in E as (Hst1 & He1 & Hns & Hok); [|intros q a Hin; apply Hor, elem_of_app; by left|done].
    destruct r1; [|done|intros [= <- <-]; by split_and!..]. intros (Hst2 & He2 & Hns2 & Hok2)%IHc; [|done|intros q a Hin; apply Hor, elem_of_app; by right].
    split_and!; [done|by etrans|done|]. intros Hr q a [Hin|Hin]%elem_of_app; [apply He2; by eapply Hok|by eapply Hok2].
  - unfold declared_entry. cbn [listing] in *. destruct (ctxErr _); [intros [= <- <-]; by split_and!|].
    case_bool_decide as Hp.
    + intros [= <- <-]. split_and!; [done|done|done|]. by intros _ q a ?%not_elem_of_nil.
    + destruct (addDeclaredPath sha256 (full path) attempts st) as [st1 r1] eqn:Ea.
      apply add_ok in Ea as (Hst1 & He1 & Hns & Hok); [|done|apply Hor; by left].
      assert (r1 ≠ SkipDir ∧ (r1 = Next → ∀ q a, (q, a) ∈ [(path, attempts)] → is_Some (ds_files st1 !! full q))) as [_ Hok'].
      { split; [done|]. intros Hr q a Hin%list_elem_of_singleton. injection Hin as -> ->. by apply Hok. }
      destruct r1; try done; intros [= <- <-]; by split_and!.
  - unfold declared_entry. cbn [listing] in *. destruct (ctxErr _); [intros [= <- <-]; by split_and!|].
    case_bool_decide; intros [= <- <-]; split_and!; try done; by intros _ q a ?%not_elem_of_nil.
Qed.
End Below.

Lemma declared_loop_ok declarations st st' r : (∀ d p a, d ∈ declarations → named d p a → origin p a) → collected_ok st →
  declared_loop sha256 lstat again ctxErr declarations st = (st', r) →
  collected_ok st' ∧ extends st st' ∧ r ≠ SkipDir ∧ (r = Next → ∀ d p a, d ∈ declarations → named d p a → is_Some (ds_files st' !! p)).
Proof.
  revert st. induction declarations as [|d declarations IH]; intros st Hor Hst; cbn [declared_loop].
  { intros [= <- <-]. split_and!; [done|done|done|]. by intros _ d p a ?%not_elem_of_nil. }
  destruct (_ || _); [intros [= <- <-]; by split_and!|].
  destruct (match lstat d with DeclaredAbsent => _ | _ => _ end) as [st1 r1] eqn:E1.
  assert (collected_ok st1 ∧ extends st st1 ∧ r1 ≠ SkipDir ∧ (r1 = Next → ∀ p a, named d p a → is_Some (ds_files st1 !! p))) as (Hst1 & He1 & Hns1 & Hok1).
  { destruct (lstat d) as [|e|[git hop e children|attempts|]] eqn:El; try (injection E1 as <- <-; by split_and!).
    - unfold WalkDir in E1. destruct (again d) as [v|e'] eqn:Ea; [|injection E1 as <- <-; by split_and!].
      destruct (walkDir _ "." v st) as [st2 r2] eqn:Ew. injection E1 as -> <-.
      apply below_all_ok in Ew as (Hs2 & He2 & Hns & Hok); [|intros q a [Hf Hq]%listing_finds|done].
      2: { apply (Hor d); [by left|]. right. exists git, hop, e, children, v, q. by split_and!. }
      split_and!; [done|done|by destruct r2|]. intros Hr p a [[Hl _]|(git' & hop' & e' & ch & v' & q & Hl & Hv & Hf & Hq & ->)]; [congruence|].
      rewrite Ea in Hv. injection Hv as <-. eapply Hok; [by destruct r2|]. by apply listing_finds.
    - apply add_ok in E1 as (Hs2 & He2 & Hns & Hok); [|done|apply (Hor d); [by left|by left]]. split_and!; [done|done|done|].
      intros Hr p a [[Hl ->]|(git' & hop' & e' & ch & v' & q & Hl & _)]; [by apply Hok|congruence]. }
  destruct r1; [|intros [= <- <-]; by split_and!..].
  intros (Hst2 & He2 & Hns2 & Hok2)%IH; [|intros d' p a Hd; apply Hor; by right|done]. split_and!; [done|by etrans|done|].
  intros Hr d' p a [->|Hd]%elem_of_cons Hn; [apply He2; by eapply Hok1|by eapply Hok2].
Qed.
End Collected.

(** A job's outputs are what was declared.  The manifest of [BuildDeclared] lists
    exactly the declared files and the regular files below declared directories, once
    each however the declarations overlap; every one of them is a content the file had
    when it was read, with its chunks in the store; the manifest is valid, and no path
    of Git or ComputeHop metadata is in it, in any mix of cases. *)
Theorem outputs_exact root declarations store store' manifest :
  (∀ d p a, d ∈ declarations → named d p a → readable a) →
  BuildDeclared sha256 root lstat again ctxErr declarations store = (store', Some (Ok manifest)) →
  Manifest_Validate manifest = Ok tt ∧
  (∀ p, p ∈ map Path (Files manifest) ↔ ∃ d a, d ∈ declarations ∧ named d p a) ∧ NoDup (map Path (Files manifest)) ∧
  (∀ f, f ∈ Files manifest → reservedTransferPath (Path f) = false ∧
     ∃ d a, d ∈ declarations ∧ named d (Path f) a ∧ recorded store' (Path f) a f).
Proof.
  intros Hread. unfold BuildDeclared. destruct root as [[]|]; [|done..].
  destruct (declared_loop _ _ _ _ _ _) as [st r] eqn:El. intros Hb.
  apply (declared_loop_ok (λ p a, ∃ d, d ∈ declarations ∧ named d p a)) in El as ([Hf Hk] & _ & Hns & Hok);
    [|intros p a (d & ? & ?); by eapply Hread|intros d p a ? ?; by exists d|by split].
  destruct r; [|done..]. injection Hb as <- (b & Hc & [= <-])%result_bind_ok. apply canonical_valid in Hc.
  assert (∀ f, f ∈ merge_sort path_le (map snd (map_to_list (ds_files st))) ↔ ds_files st !! Path f = Some f) as Helem.
  { intros f. rewrite (merge_sort_Permutation path_le), list_elem_of_In, in_map_iff. setoid_rewrite <- list_elem_of_In. split.
    - intros ([p f'] & Hp & Hin%elem_of_map_to_list). cbn in Hp. subst f'. by destruct (Hf p f Hin) as (_ & a & _ & _ & i & _ & -> & _).
    - intros Hp. exists (Path f, f). split; [done|]. by apply elem_of_map_to_list. }
  split_and!; cbn [Files]; [done| | |].
  - intros p. rewrite list_elem_of_In, in_map_iff. setoid_rewrite <- list_elem_of_In. split.
    + intros (f & <- & Hin%Helem). destruct (Hf _ _ Hin) as (_ & a & (d & ? & ?) & _). by exists d, a.
    + intros (d & a & Hd & Hn). destruct (Hok eq_refl d p a Hd Hn) as [f Hp]. pose proof Hp as (_ & a' & _ & _ & i & _ & Hpath & _)%Hf.
      exists f. split; [done|]. apply Helem. by rewrite Hpath.
  - rewrite (merge_sort_Permutation path_le). rewrite map_map.
    rewrite (map_ext_in _ fst); [apply NoDup_fst_map_to_list|]. intros [p f] Hin%list_elem_of_In%elem_of_map_to_list. cbn.
    by destruct (Hf p f Hin) as (_ & a & _ & _ & i & _ & -> & _).
  - intros f Hin%Helem. destruct (Hf _ _ Hin) as (Hres & a & (d & ? & ?) & Hrec). split; [done|]. by exists d, a.
Qed.
End Declared.
End Exact.

(** What every [Put] does to the store, [Build] does. *)
Lemma build_reaches `{UnicodeCase} `{ChunkStore St} (sha256 : bytes → bytes) (R : St → St → Prop) `{!PreOrder R} scene store :
  (∀ st digest contents, R st (put st digest contents).1) → R store (Build sha256 scene store).1.
Proof.
  intros Hput. unfold Build. destruct (ResolveProject _ _ _) as [[root sub]|e]; [|done]. destruct (loadIgnoreMatcher _) as [rules|e]; [|done].
  unfold WalkDir. destruct (sc_files_view scene root) as [v|e]; [|done].
  assert (∀ path u e st, R store (bs_store st) → R store (bs_store (build_entry sha256 rules (sc_ctx scene) path u e st).1)) as Hentry.
  { intros path u e st Hst. unfold build_entry. destruct e; [done|]. destruct (sc_ctx scene path); [done|]. case_bool_decide; [done|].
    destruct (ignored _ _ _); [done|]. destruct u as [| attempts|]; [done| |done].
    destruct (buildStableFile sha256 attempts path (bs_store st)) as [s built] eqn:E.
    apply (stable_loop_reaches sha256 R Hput) in E. destruct built as [[file|e]|]; simpl; by etrans. }
  pose proof (walk_invariant _ (λ st, R store (bs_store st)) v Hentry "." (MkBuildState [] 0 store) (reflexivity store)) as Hw.
  destruct (walkDir _ "." v _) as [st []]; exact Hw.
Qed.

(** ** Witnesses *)

#[local] Existing Instance list_store.
#[local] Existing Instance list_store_laws.

Abbreviation text := (VReg sample_attempt).
Abbreviation folder := (VDir IgnoreAbsent IgnoreAbsent None).
Definition ignore_text (s : string) : ignore_file := IgnoreRead (Ok (bytes_of s)) (Ok tt).
Definition rules_of (s : string) : list ignoreRule :=
  match parseIgnoreRules (Ok (bytes_of s)) "" with Ok rules => rules | Err _ => [] end.

(** A project at /p with its ignore file. *)
Definition sample_scene (gitignore : string) (children : list (string * view)) : Scene :=
  let root := Ok (VDir (ignore_text gitignore) IgnoreAbsent None children) in
  MkScene (Ok ["p"]) (Ok true) (λ d name, bool_decide (d = ["p"]) && bool_decide (name = ".git")) (λ _, root) (λ _, root) (λ _, None).
Definition sample_children : list (string * view) :=
  [(".env", text); (".git", folder [("config", text)]); ("a.txt", text); ("out", folder [("b.log", text); ("c.txt", text)])].
Abbreviation sample_build gitignore children := (Build (H := ascii_case) sample_sha256 (sample_scene gitignore children) []).

Lemma readable_sample : readable sample_attempt.
Proof. intros i. exists (bytes_of "abc"). split; [exact sample_delivers|reflexivity]. Qed.
Lemma all_readable (l : list (string * (nat → FileRun * option (list sentinel)))) p a : map snd l = replicate (length l) sample_attempt → (p, a) ∈ l → readable a.
Proof.
  intros Hl Hin. assert (a ∈ map snd l) as Ha by (apply list_elem_of_In, in_map_iff; exists (p, a); split; [done|by apply list_elem_of_In]).
  rewrite Hl in Ha. apply elem_of_replicate in Ha as [-> _]. exact readable_sample.
Qed.
Lemma scene_readable gitignore children :
  (let l := listing (λ _ _, true) "." (VDir (ignore_text gitignore) IgnoreAbsent None children) in map snd l = replicate (length l) sample_attempt) →
  ∀ root v p a, sc_files_view (sample_scene gitignore children) root = Ok v → (p, a) ∈ listing (λ _ _, true) "." v → readable a.
Proof. intros Hl root v p a [= <-]. by apply all_readable. Qed.

Definition sample_result (paths : list string) : SnapshotResult :=
  let file p := MkFile p 420 3 [MkChunk (str_of (replicate 64 "0"%char)) 3] in
  MkSnapshotResult "/p" "" (MkManifest 1 (map file paths) (3 * Z.of_nat (length paths))).

Lemma snapshot_exact_witness :
  (sample_build "*.log" sample_children).2 = Some (Ok (sample_result ["a.txt"; "out/c.txt"])) ∧
  ∀ f, f ∈ Files (sr_Manifest (sample_result ["a.txt"; "out/c.txt"])) → ¬ reserved (Path f).
Proof.
  assert ((sample_build "*.log" sample_children).2 = Some (Ok (sample_result ["a.txt"; "out/c.txt"]))) as E by (vm_compute; reflexivity).
  split; [exact E|]. destruct (sample_build "*.log" sample_children) as [store r] eqn:Eb. cbn [snd] in E. subst r.
  destruct (snapshot_exact (H := ascii_case) sample_sha256 (λ c, eq_refl) (sample_scene "*.log" sample_children) [] store _
    (scene_readable "*.log" sample_children ltac:(vm_compute; reflexivity)) Eb) as (root & rules & v & _ & _ & _ & _ & _ & _ & Hfs).
  intros f Hf. exact (proj1 (Hfs f Hf)).
Defined.

Lemma credentials_stay_witness :
  ∃ root more rule, loadIgnoreMatcher (sc_rules_view (sample_scene "!out" [("out", folder [(".env", text)])]) root) = Ok (defaultIgnoreRules ++ more) ∧
    rule ∈ more ∧ ru_negative rule = true ∧ selects rule "out/.env" false.
Proof.
  set (children := [("out", folder [(".env", text)])]).
  assert ((sample_build "!out" children).2 = Some (Ok (sample_result ["out/.env"]))) as E by (vm_compute; reflexivity).
  destruct (sample_build "!out" children) as [store r] eqn:Eb. cbn [snd] in E. subst r.
  exact (credentials_stay (H := ascii_case) sample_sha256 (λ c, eq_refl) (sample_scene "!out" children) [] store _
    (MkFile "out/.env" 420 3 [MkChunk (str_of (replicate 64 "0"%char)) 3]) (bytes_of ".env")
    (scene_readable "!out" children ltac:(vm_compute; reflexivity)) Eb ltac:(left) ltac:(vm_compute; right; left) ltac:(left; left)).
Defined.

Definition sample_lstat (d : string) : declared := if bool_decide (d = "dist") then DeclaredFound (folder [("a.txt", text)]) else DeclaredFound text.
Definition sample_again (d : string) : result view := Ok (folder [("a.txt", text)]).

Lemma outputs_exact_witness :
  (BuildDeclared (H := ascii_case) sample_sha256 (Ok true) sample_lstat sample_again (λ _, None) ["dist"; "dist/a.txt"] []).2
    = Some (Ok (sr_Manifest (sample_result ["dist/a.txt"]))) ∧ NoDup ["dist/a.txt"].
Proof.
  assert ((BuildDeclared (H := ascii_case) sample_sha256 (Ok true) sample_lstat sample_again (λ _, None) ["dist"; "dist/a.txt"] []).2
    = Some (Ok (sr_Manifest (sample_result ["dist/a.txt"])))) as E by (vm_compute; reflexivity).
  split; [exact E|]. destruct (BuildDeclared _ _ _ _ _ _ _) as [store r] eqn:Eb. cbn [snd] in E. subst r.
  assert (∀ d p a, d ∈ ["dist"; "dist/a.txt"] → named sample_lstat sample_again d p a → readable a) as Hr.
  { intros d p a Hd [[Hl _]|(git & hop & e & ch & v & q & _ & Hv & Hf & Hq & _)].
    - unfold sample_lstat in Hl. destruct (bool_decide _); [discriminate|]. injection Hl as <-. exact readable_sample.
    - injection Hv as <-. apply (all_readable (listing (λ _ _, true) "." (folder [("a.txt", text)])) q); [reflexivity|]. apply listing_finds. split; assumption. }
  destruct (outputs_exact (H := ascii_case) sample_sha256 (λ c, eq_refl) sample_lstat sample_again (λ _, None) (Ok true) ["dist"; "dist/a.txt"] [] store _
    Hr Eb) as (_ & _ & Hnd & _). exact Hnd.
Defined.

(** ** Where the rules differ from Git's *)

(** A negation of a directory's name applies to every path below it, so a project
    that ends its ignore file with [!config] sends the credentials in config/. *)
Theorem negated_directory_sends_secrets :
  (sample_build "!config" [("config", folder [(".env", text)])]).2 = Some (Ok (sample_result ["config/.env"])).
Proof. vm_compute. reflexivity. Qed.

(** A pattern that begins with a slash is not anchored: the slash is gone before the
    pattern is searched for one. *)
Theorem leading_slash_not_anchored :
  (sample_build "/foo" [("a", folder [("foo", text); ("bar", text)])]).2 = Some (Ok (sample_result ["a/bar"])).
Proof. vm_compute. reflexivity. Qed.

(** The rules of a directory are applied to the directory itself: a nested ignore file
    with [*] and exceptions hides the exceptions too. *)
Theorem nested_star_hides_exceptions :
  (sample_build "" [("sub", VDir (IgnoreRead (Ok (bytes_of "*" ++ newline :: bytes_of "!keep")) (Ok tt)) IgnoreAbsent None [("keep", text)])]).2
    = Some (Ok (sample_result [])).
Proof. vm_compute. reflexivity. Qed.
