(* ===== verification/Base32.v ===== *)
(** * encoding/base32 without padding, and the Crockford alphabet

    [base32.StdEncoding.WithPadding(base32.NoPadding)]: the bits of the input, most
    significant first, in groups of five.  The decoder skips carriage returns and
    line feeds, refuses foreign characters, ignores unused trailing bits and takes
    no bytes from a final group of 1, 3 or 6 characters.  (It also takes the byte
    0xFF for padding; the callers only decode strings that are UTF-8.)
    [crockford] is the streaming encoder of internal/trust/pairing.go. *)

From S2P Require Import Prelude GoText Encoding.
From Stdlib Require Import Ascii.
Local Open Scope string_scope.
Local Open Scope nat_scope.
Local Open Scope list_scope.

(** ** Bits *)

Definition bits_of (n : nat) (z : Z) : list bool := map (λ i, Z.testbit z (Z.of_nat i)) (reverse (seq 0 n)).
Definition bits_val (bs : list bool) : Z := fold_left (λ acc b, 2 * acc + Z.b2z b)%Z bs 0%Z.
Definition byte_bits (c : ascii) : list bool := bits_of 8 (val c).
Definition bytes_bits (l : bytes) : list bool := concat (map byte_bits l).

(** Groups of five bits; the last one is filled with zeros. *)
Fixpoint quintets (bs : list bool) : list Z :=
  match bs with
  | [] => []
  | b0 :: b1 :: b2 :: b3 :: b4 :: rest => bits_val [b0; b1; b2; b3; b4] :: quintets rest
  | partial => [bits_val (take 5 (partial ++ replicate 4 false))]
  end.

(** Whole bytes; the rest is dropped. *)
Fixpoint octets (bs : list bool) : bytes :=
  match bs with
  | b0 :: b1 :: b2 :: b3 :: b4 :: b5 :: b6 :: b7 :: rest =>
      byte_of (bits_val [b0; b1; b2; b3; b4; b5; b6; b7]) :: octets rest
  | _ => []
  end.

(** ** The standard alphabet *)

Definition b32_digit (n : Z) : ascii := (if n <? 26 then byte_of (n + 65) else byte_of (n - 26 + 50))%Z.
Definition b32_val (c : ascii) : option Z :=
  let v := val c in
  (if (65 <=? v) && (v <=? 90) then Some (v - 65)
   else if (50 <=? v) && (v <=? 55) then Some (v - 50 + 26) else None)%Z.

Definition b32_encode (l : bytes) : bytes := map b32_digit (quintets (bytes_bits l)).

(** Bytes that a final group of [n] characters gives. *)
Definition b32_tail (n : nat) : nat := match n with 2 => 1 | 4 => 2 | 5 => 3 | 7 => 4 | _ => 0 end.

Definition b32_decode (l : bytes) : option bytes :=
  vs ← mapM b32_val l;
  Some (take (length vs / 8 * 5 + b32_tail (length vs mod 8)) (octets (concat (map (bits_of 5) vs)))).

Definition Base32_EncodeToString (l : bytes) : string := str_of (b32_encode l).
Definition Base32_DecodeString (s : string) : option bytes :=
  b32_decode (filter (λ c, is_newline c = false) (bytes_of s)).

(** ** Crockford's alphabet *)

Definition crockford_alphabet : bytes := bytes_of "0123456789ABCDEFGHJKMNPQRSTVWXYZ".
Definition crockford_digit (n : Z) : ascii := crockford_alphabet !!! Z.to_nat n.

(** [for bits >= 5]: what is written, and the bits left. *)
Fixpoint crockford_emit (fuel : nat) (buffer bits : Z) : bytes * Z :=
  match fuel with
  | 0 => ([], bits)
  | S fuel' =>
      if (bits <? 5)%Z then ([], bits)
      else
        let bits := (bits - 5)%Z in
        let '(written, bits') := crockford_emit fuel' buffer bits in
        (crockford_digit (Z.land (Z.shiftr buffer bits) 31) :: written, bits')
  end.

(** Two turns of the inner loop are enough: there are at most 12 bits. *)
Fixpoint crockford_loop (contents : bytes) (buffer bits : Z) : bytes :=
  match contents with
  | value :: rest =>
      let buffer := Z.lor (wrap_uint32 (Z.shiftl buffer 8)) (val value) in
      let '(written, bits) := crockford_emit 2 buffer (bits + 8) in
      written ++ crockford_loop rest buffer bits
  | [] => if (0 <? bits)%Z then [crockford_digit (Z.land (wrap_uint32 (Z.shiftl buffer (5 - bits))) 31)] else []
  end.

Definition crockford (contents : bytes) : string := str_of (crockford_loop contents 0 0).

(** ** Lemmas *)

Lemma bits_val_snoc p b : bits_val (p ++ [b]) = (2 * bits_val p + Z.b2z b)%Z.
Proof. unfold bits_val. by rewrite fold_left_app. Qed.

Lemma bits_val_app p q : bits_val (p ++ q) = (bits_val p * 2 ^ Z.of_nat (length q) + bits_val q)%Z.
Proof.
  induction q as [|b q IH] using rev_ind; [rewrite app_nil_r; change (bits_val []) with 0%Z; simpl; lia|].
  rewrite app_assoc, !bits_val_snoc, IH, length_app. simpl length.
  rewrite Nat2Z.inj_add, Z.pow_add_r by lia. change (2 ^ Z.of_nat 1)%Z with 2%Z. lia.
Qed.

Lemma bits_val_range bs : (0 ≤ bits_val bs < 2 ^ Z.of_nat (length bs))%Z.
Proof.
  induction bs as [|b bs IH] using rev_ind; [by vm_compute|].
  rewrite bits_val_snoc, length_app. simpl length. rewrite Nat2Z.inj_add, Z.pow_add_r by lia.
  change (2 ^ Z.of_nat 1)%Z with 2%Z. destruct b; simpl Z.b2z; lia.
Qed.

Lemma length_bits_of n z : length (bits_of n z) = n.
Proof. unfold bits_of. by rewrite length_map, length_reverse, length_seq. Qed.

Lemma bits_of_S n z : bits_of (S n) z = Z.testbit z (Z.of_nat n) :: bits_of n z.
Proof. unfold bits_of. rewrite seq_S, reverse_app. done. Qed.

(** Only the low [n] bits count. *)
Lemma bits_of_mod n z w : (z `mod` 2 ^ Z.of_nat n = w `mod` 2 ^ Z.of_nat n)%Z → bits_of n z = bits_of n w.
Proof.
  revert z w. induction n as [|n IH]; intros z w E; [done|]. rewrite !bits_of_S. f_equal.
  - by rewrite <-(Z.mod_pow2_bits_low z (Z.of_nat (S n))), E, Z.mod_pow2_bits_low by lia.
  - apply IH. apply (f_equal (λ x, x `mod` 2 ^ Z.of_nat n)%Z) in E. cbv beta in E.
    rewrite Nat2Z.inj_succ, Z.pow_succ_r, !Z.mod_mod_divide in E by (lia || apply Z.divide_factor_r). done.
Qed.

Lemma bits_of_val bs : bits_of (length bs) (bits_val bs) = bs.
Proof.
  induction bs as [|b bs IH]; [done|]. cbn [length]. rewrite bits_of_S. pose proof (bits_val_range bs) as Hr.
  assert (bits_val (b :: bs) = Z.b2z b * 2 ^ Z.of_nat (length bs) + bits_val bs)%Z as E.
  { change (b :: bs) with ([b] ++ bs). by rewrite bits_val_app. }
  f_equal.
  - rewrite E, Z.testbit_eqb, Z.div_add_l, Z.div_small by lia. by destruct b.
  - etrans; [|exact IH]. apply bits_of_mod. by rewrite E, Z.add_comm, Z.mod_add by lia.
Qed.

Lemma bits_val_of n z : bits_val (bits_of n z) = (z `mod` 2 ^ Z.of_nat n)%Z.
Proof.
  induction n as [|n IH]; [by rewrite Z.mod_1_r|]. rewrite bits_of_S. change (?b :: ?l) with ([b] ++ l).
  rewrite bits_val_app, length_bits_of, IH, Nat2Z.inj_succ, Z.pow_succ_r, (Z.mul_comm 2), Z.rem_mul_r by lia.
  rewrite Z.testbit_eqb by lia. change (bits_val [?b]) with (Z.b2z b).
  pose proof (Z.mod_pos_bound (z / 2 ^ Z.of_nat n) 2 ltac:(lia)). destruct (_ =? 1)%Z eqn:E; reflect_bools; simpl; nia.
Qed.

Lemma list_ind5 {A} (P : list A → Prop) :
  (∀ l, length l < 5 → P l) → (∀ a b c d e l, P l → P (a :: b :: c :: d :: e :: l)) → ∀ l, P l.
Proof.
  intros Hs Hl. fix IH 1. intros [|a [|b [|c [|d [|e l]]]]]; try (apply Hs; simpl; lia). apply Hl, IH.
Qed.

(** The groups carry the bits they were made of, and zeros. *)
Lemma quintets_bits bs : ∃ k, k < 5 ∧ concat (map (bits_of 5) (quintets bs)) = bs ++ replicate k false ∧
  length bs + k = 5 * length (quintets bs).
Proof.
  induction bs as [bs Hs|a b c d e l (k & Hk & E & Hlen)] using list_ind5.
  - destruct bs as [|a [|b [|c [|d [|]]]]]; simpl in Hs; try lia; [exists 0|exists 4|exists 3|exists 2|exists 1];
      (split; [lia|split; [|simpl; lia]]); [done|..]; cbn [quintets map concat]; rewrite app_nil_r;
      match goal with |- bits_of 5 (bits_val ?x) = _ => exact (bits_of_val x) end.
  - exists k. split; [done|]. split; [|cbn [quintets length]; lia]. cbn [quintets map concat].
    pose proof (bits_of_val [a; b; c; d; e]) as E5. cbn [length] in E5. by rewrite E5, E.
Qed.

Lemma quintets_range bs : Forall (λ v, (0 ≤ v < 32)%Z) (quintets bs).
Proof.
  induction bs as [bs Hs|a b c d e l IH] using list_ind5.
  - destruct bs as [|a [|b [|c [|d [|]]]]]; simpl in Hs; try lia; cbn [quintets]; [constructor|..];
      (constructor; [|constructor]); apply bits_val_range.
  - cbn [quintets]. constructor; [apply (bits_val_range [a; b; c; d; e])|done].
Qed.

Lemma octets_bytes l t : length t < 8 → octets (bytes_bits l ++ t) = l.
Proof.
  intros Ht. induction l as [|c l IH].
  - destruct t as [|? [|? [|? [|? [|? [|? [|? [|]]]]]]]]; simpl in *; try done; lia.
  - unfold bytes_bits in *. cbn [map concat]. rewrite <-app_assoc.
    pose proof (length_bits_of 8 (val c)) as Hlen. fold (byte_bits c) in Hlen.
    assert (bits_val (byte_bits c) = val c) as Hval.
    { unfold byte_bits. rewrite bits_val_of, Z.mod_small; [done|]. pose proof (val_range c). simpl. lia. }
    destruct (byte_bits c) as [|b0 [|b1 [|b2 [|b3 [|b4 [|b5 [|b6 [|b7 [|]]]]]]]]]; simpl in Hlen; try lia.
    cbn [app octets]. rewrite Hval, byte_of_val. f_equal. exact IH.
Qed.

Lemma length_octets bs : length bs ≤ 8 * length (octets bs) + 7.
Proof.
  induction bs as [bs IH] using (induction_ltof1 _ (@length _)). unfold ltof in IH.
  destruct bs as [|? [|? [|? [|? [|? [|? [|? [|? bs]]]]]]]]; cbn [octets length]; try lia.
  specialize (IH bs ltac:(cbn [length]; lia)). lia.
Qed.

Lemma length_bytes_bits l : length (bytes_bits l) = 8 * length l.
Proof.
  unfold bytes_bits. induction l as [|c l IH]; [done|]. cbn [map concat length]. rewrite length_app, IH.
  unfold byte_bits. rewrite length_bits_of. lia.
Qed.

Lemma b32_digit_val n : (0 ≤ n < 32)%Z → b32_val (b32_digit n) = Some n ∧ is_newline (b32_digit n) = false.
Proof.
  intros Hn. pose proof (forallb_below
    (λ n, bool_decide (b32_val (b32_digit n) = Some n) && negb (is_newline (b32_digit n))) 32 n eq_refl Hn) as Hb. cbv beta in Hb. by reflect_bools.
Qed.

Lemma b32_decode_encode l : b32_decode (b32_encode l) = Some l.
Proof.
  unfold b32_decode, b32_encode. destruct (quintets_bits (bytes_bits l)) as (k & Hk & E & Hlen).
  assert (mapM b32_val (map b32_digit (quintets (bytes_bits l))) = Some (quintets (bytes_bits l))) as ->.
  { apply mapM_Some. pose proof (quintets_range (bytes_bits l)) as Hr. revert Hr. clear.
    induction 1 as [|v vs Hv Hvs IH]; simpl; constructor; [by apply b32_digit_val|done]. }
  cbn [mbind option_bind]. rewrite E, octets_bytes by (rewrite length_replicate; lia). f_equal. apply take_ge.
  rewrite length_bytes_bits in Hlen. set (n := length (quintets (bytes_bits l))) in *.
  pose proof (Nat.div_mod_eq n 8). pose proof (Nat.mod_upper_bound n 8 ltac:(lia)).
  destruct (n mod 8) as [|[|[|[|[|[|[|[|]]]]]]]]; simpl b32_tail; lia.
Qed.

(** Decoding inverts encoding. *)
Lemma Base32_roundtrip l : Base32_DecodeString (Base32_EncodeToString l) = Some l.
Proof.
  unfold Base32_DecodeString, Base32_EncodeToString. rewrite bytes_of_str_of, filter_all; [apply b32_decode_encode|].
  unfold b32_encode. apply Forall_map. eapply Forall_impl; [apply quintets_range|]. intros v Hv. by apply b32_digit_val.
Qed.

Lemma Base32_inj l k : Base32_EncodeToString l = Base32_EncodeToString k → l = k.
Proof. intros E. apply (f_equal Base32_DecodeString) in E. rewrite !Base32_roundtrip in E. by injection E. Qed.

Lemma length_b32_encode l : ∃ k, k < 5 ∧ 8 * length l + k = 5 * length (b32_encode l).
Proof.
  destruct (quintets_bits (bytes_bits l)) as (k & Hk & _ & Hlen). exists k. split; [done|].
  unfold b32_encode. by rewrite length_map, <-Hlen, length_bytes_bits.
Qed.

(** *** The streaming encoder *)

(** [buffer] ends in the bits [p]. *)
Definition holds_bits (buffer : Z) (p : list bool) : Prop := (buffer `mod` 2 ^ Z.of_nat (length p) = bits_val p)%Z.

Lemma holds_bits_drop buffer p q : holds_bits buffer (p ++ q) → holds_bits buffer q.
Proof.
  unfold holds_bits. intros E. apply (f_equal (λ x, x `mod` 2 ^ Z.of_nat (length q))%Z) in E.
  rewrite length_app, Nat2Z.inj_add, Z.pow_add_r, Z.mod_mod_divide in E by (lia || apply Z.divide_factor_r).
  rewrite E, bits_val_app, Z.add_comm, Z.mod_add by lia. apply Z.mod_small, bits_val_range.
Qed.

Lemma holds_bits_top buffer p q : length p = 5 → holds_bits buffer (p ++ q) →
  Z.land (Z.shiftr buffer (Z.of_nat (length q))) 31 = bits_val p.
Proof.
  unfold holds_bits. intros Hp E. rewrite Z.shiftr_div_pow2 by lia. change 31%Z with (Z.ones 5). rewrite Z.land_ones by lia.
  rewrite length_app, Hp, Nat.add_comm, Nat2Z.inj_add, Z.pow_add_r, Z.rem_mul_r, bits_val_app in E by lia.
  change (Z.of_nat 5) with 5%Z in E. pose proof (bits_val_range q).
  pose proof (Z.mod_pos_bound buffer (2 ^ Z.of_nat (length q)) ltac:(lia)). nia.
Qed.

Lemma lor_byte x c : Z.lor (x * 2 ^ 8) (val c) = (x * 2 ^ 8 + val c)%Z.
Proof.
  rewrite <-Z.add_lor_land. enough (Z.land (x * 2 ^ 8) (val c) = 0%Z) as -> by lia. pose proof (val_range c).
  apply Z.bits_inj'. intros i Hi. rewrite Z.land_spec, Z.bits_0. destruct (Z.lt_ge_cases i 8).
  - by rewrite Z.mul_pow2_bits_low.
  - apply andb_false_iff. right. rewrite <-(Z.mod_small (val c) (2 ^ 8)) by lia. apply Z.mod_pow2_bits_high. lia.
Qed.

Lemma holds_bits_push buffer p c :
  length p < 5 → holds_bits buffer p → holds_bits (Z.lor (wrap_uint32 (Z.shiftl buffer 8)) (val c)) (p ++ byte_bits c).
Proof.
  unfold holds_bits, wrap_uint32. intros Hp E. pose proof (val_range c) as Hc.
  rewrite Z.shiftl_mul_pow2 by lia. change (2 ^ 32)%Z with (2 ^ 24 * 2 ^ 8)%Z. rewrite Z.mul_mod_distr_r, lor_byte by lia.
  assert (length (byte_bits c) = 8) as Hl by apply length_bits_of.
  rewrite bits_val_app, length_app, Hl, Nat2Z.inj_add, Z.pow_add_r by lia. change (Z.of_nat 8) with 8%Z.
  unfold byte_bits. rewrite bits_val_of. change (Z.of_nat 8) with 8%Z. rewrite (Z.mod_small (val c)) by lia.
  rewrite (Z.mul_comm (2 ^ Z.of_nat (length p))), Z.rem_mul_r, Z.div_add_l, (Z.div_small (val c)), Z.add_0_r by lia.
  rewrite (Z.add_comm (_ * 2 ^ 8)), Z.mod_add, (Z.mod_small (val c)) by lia.
  rewrite Z.mod_mod_divide, E; [lia|].
  exists (2 ^ (24 - Z.of_nat (length p)))%Z. rewrite <-Z.pow_add_r by lia. f_equal. lia.
Qed.

Lemma holds_bits_last buffer p : length p < 5 → holds_bits buffer p →
  Z.land (wrap_uint32 (Z.shiftl buffer (5 - Z.of_nat (length p)))) 31 = bits_val (p ++ replicate (5 - length p) false).
Proof.
  unfold holds_bits, wrap_uint32. intros Hp E. change 31%Z with (Z.ones 5). rewrite Z.land_ones, Z.shiftl_mul_pow2 by lia.
  rewrite Z.mod_mod_divide by (exists (2 ^ 27)%Z; reflexivity).
  assert (2 ^ 5 = 2 ^ Z.of_nat (length p) * 2 ^ (5 - Z.of_nat (length p)))%Z as -> by (rewrite <-Z.pow_add_r by lia; f_equal; lia).
  rewrite Z.mul_mod_distr_r, E, bits_val_app, length_replicate by lia.
  assert (∀ k, bits_val (replicate k false) = 0%Z) as ->.
  { induction k as [|k IH]; [done|]. rewrite replicate_S_end, bits_val_snoc, IH. done. }
  rewrite Nat2Z.inj_sub by lia. change (Z.of_nat 5) with 5%Z. lia.
Qed.

Lemma crockford_emit_spec fuel buffer q : length q < 5 * S fuel → holds_bits buffer q →
  ∃ w r, crockford_emit fuel buffer (Z.of_nat (length q)) = (w, Z.of_nat (length r)) ∧ length r < 5 ∧ holds_bits buffer r ∧
    ∀ t, map crockford_digit (quintets (q ++ t)) = w ++ map crockford_digit (quintets (r ++ t)).
Proof.
  revert q. induction fuel as [|fuel IH]; intros q Hq Hh; cbn [crockford_emit]; [exists [], q; split_and!; done || lia|].
  destruct (_ <? 5)%Z eqn:E; reflect_bools; [exists [], q; split_and!; done || lia|].
  destruct q as [|a [|b [|c [|d [|e q]]]]]; cbn [length] in E; try lia.
  change (a :: b :: c :: d :: e :: q) with ([a; b; c; d; e] ++ q) in *. rewrite length_app in *. cbn [length] in *.
  replace (Z.of_nat (5 + length q) - 5)%Z with (Z.of_nat (length q)) by lia.
  rewrite (holds_bits_top buffer [a; b; c; d; e] q eq_refl Hh). apply holds_bits_drop in Hh.
  destruct (IH q ltac:(lia) Hh) as (w & r & -> & Hr & Hhr & Ht). exists (crockford_digit (bits_val [a; b; c; d; e]) :: w), r.
  split_and!; [done|done|done|]. intros t. cbn [app quintets map]. by rewrite Ht.
Qed.

(** The streaming encoder writes the groups of five bits of its input. *)
Lemma crockford_loop_spec contents buffer p : length p < 5 → holds_bits buffer p →
  crockford_loop contents buffer (Z.of_nat (length p)) = map crockford_digit (quintets (p ++ bytes_bits contents)).
Proof.
  revert buffer p. induction contents as [|c contents IH]; intros buffer p Hp Hh; cbn [crockford_loop].
  - unfold bytes_bits. cbn [map concat]. rewrite app_nil_r. pose proof (holds_bits_last buffer p Hp Hh) as Hl.
    destruct p as [|a [|b [|d [|e [|]]]]]; cbn [length] in *; try lia; [done|..]; cbn [Z.ltb Z.compare Z.of_nat];
      rewrite Hl; done.
  - pose proof (holds_bits_push buffer p c Hp Hh) as Hpush. assert (length (byte_bits c) = 8) as H8 by apply length_bits_of.
    replace (Z.of_nat (length p) + 8)%Z with (Z.of_nat (length (p ++ byte_bits c))) by (rewrite length_app; lia).
    assert (length (p ++ byte_bits c) < 5 * 3) as Hlen by (rewrite length_app; lia).
    destruct (crockford_emit_spec 2 _ _ Hlen Hpush) as (w & r & -> & Hr & Hhr & Ht).
    rewrite (IH _ r Hr Hhr). unfold bytes_bits. cbn [map concat]. rewrite app_assoc. by rewrite Ht.
Qed.

Lemma crockford_quintets contents : crockford contents = str_of (map crockford_digit (quintets (bytes_bits contents))).
Proof. unfold crockford. f_equal. apply (crockford_loop_spec contents 0 []); [simpl; lia|reflexivity]. Qed.

(** *** Lower-case encodings *)

Definition lower_char (c : ascii) : ascii := byte_of (ascii_lower (val c)).
Definition upper_char (c : ascii) : ascii := byte_of (ascii_upper (val c)).

Lemma b32_lower_digit n : (0 ≤ n < 32)%Z →
  let c := b32_digit n in let d := lower_char c in
  (val c < 128)%Z ∧ (val d < 128)%Z ∧ lower_char d = d ∧ upper_char d = c.
Proof.
  intros Hn. pose proof (forallb_below (λ n, let c := b32_digit n in let d := lower_char c in
    (val c <? 128)%Z && (val d <? 128)%Z && bool_decide (lower_char d = d) && bool_decide (upper_char d = c)) 32 n eq_refl Hn) as Hb.
  cbv beta zeta in *. by reflect_bools.
Qed.

Section LowerEncoding.
Context `{UnicodeCase}.

Definition lower_base32 (l : bytes) : string := str_of (map lower_char (b32_encode l)).

Lemma lower_base32_eq l : to_lower (Base32_EncodeToString l) = lower_base32 l.
Proof.
  apply to_lower_ascii. apply Forall_map. eapply Forall_impl; [apply quintets_range|]. intros v Hv. by apply b32_lower_digit.
Qed.

Lemma lower_base32_ascii l : is_ascii (map lower_char (b32_encode l)).
Proof.
  unfold b32_encode. rewrite map_map. apply Forall_map. eapply Forall_impl; [apply quintets_range|].
  intros v Hv. by apply b32_lower_digit.
Qed.

Lemma lower_base32_lower l : to_lower (lower_base32 l) = lower_base32 l.
Proof.
  unfold lower_base32. rewrite to_lower_ascii by apply lower_base32_ascii. f_equal. unfold b32_encode. rewrite !map_map.
  apply map_ext_Forall. eapply Forall_impl; [apply quintets_range|]. intros v Hv. by apply b32_lower_digit.
Qed.

Lemma lower_base32_upper l : to_upper (lower_base32 l) = Base32_EncodeToString l.
Proof.
  unfold lower_base32. rewrite to_upper_ascii by apply lower_base32_ascii. unfold Base32_EncodeToString. f_equal.
  unfold b32_encode. rewrite !map_map. apply map_ext_Forall. eapply Forall_impl; [apply quintets_range|].
  intros v Hv. by apply b32_lower_digit.
Qed.

Lemma lower_base32_inj l k : lower_base32 l = lower_base32 k → l = k.
Proof. intros E. apply (f_equal to_upper) in E. rewrite !lower_base32_upper in E. by apply Base32_inj. Qed.

Lemma length_lower_base32 l : String.length (lower_base32 l) = length (b32_encode l).
Proof. unfold lower_base32. by rewrite length_str_of, length_map. Qed.

End LowerEncoding.
