(* ===== verification/Device.v ===== *)
(** * Devices and discovery (internal/device, internal/app/orchestrator/devices.go)

    Fingerprints of Ed25519 keys, announcements and observations of the local
    network with their validation, and the service that keeps the view of nearby
    devices.  SHA-256 is a parameter; [netip.Addr] is its value: no address, an
    IPv4 or an IPv6 address with its zone.  The mDNS service that produces the
    observations is not modelled. *)

From S2P Require Import Prelude GoText Encoding Base32.
From Stdlib Require Import Ascii.
Local Open Scope string_scope.
Local Open Scope nat_scope.
Local Open Scope list_scope.

(** ** Identities *)

Definition encodedIDLength : nat := 52.
Definition PublicKeySize : nat := 32.
Definition PrivateKeySize : nat := 64.

Section Identity.
Context `{UnicodeCase} (sha256 : bytes → bytes).

(** The form shared by device, pair and presence identifiers: lower-case base32 of
    [size] bytes in [encoded] characters. *)
Definition canonical_base32 (encoded size : nat) (value : string) : bool :=
  if negb (bool_decide (String.length value = encoded)) || negb (bool_decide (value = to_lower value)) then false
  else match Base32_DecodeString (to_upper value) with
  | Some decoded => bool_decide (length decoded = size)
  | None => false
  end.

Definition Device_ParseID (value : string) : result string :=
  if canonical_base32 encodedIDLength 32 value then Ok value else Err [DeviceErrInvalidID].

Definition DeviceID_Valid (id : string) : bool :=
  match Device_ParseID id with Ok _ => true | Err _ => false end.

Definition DeviceID_Short (id : string) : string :=
  if String.length id <? 8 then id else String.substring 0 8 id.

Definition IDFromPublicKey (publicKey : bytes) : result string :=
  _ ← reject_if (negb (bool_decide (length publicKey = PublicKeySize))) [DeviceErrInvalidIdentity];
  Ok (to_lower (Base32_EncodeToString (sha256 publicKey))).

Record Identity := MkIdentity { identity_id : string; identity_publicKey : bytes; identity_privateKey : bytes }.

(** [ed25519.PrivateKey.Public]: the second half of the private key. *)
Definition Ed25519_Public (privateKey : bytes) : bytes := drop 32 privateKey.

Definition NewIdentity (privateKey : bytes) : result Identity :=
  _ ← reject_if (negb (bool_decide (length privateKey = PrivateKeySize))) [DeviceErrInvalidIdentity];
  let publicKey := Ed25519_Public privateKey in
  _ ← reject_if (negb (bool_decide (length publicKey = PublicKeySize))) [DeviceErrInvalidIdentity];
  id ← IDFromPublicKey publicKey;
  Ok (MkIdentity id publicKey privateKey).

Definition Identity_Validate (identity : Identity) : result unit :=
  reconstructed ← NewIdentity (identity_privateKey identity);
  reject_if (negb (bool_decide (identity_id reconstructed = identity_id identity))
    || negb (DeviceID_Valid (identity_id identity))
    || negb (bool_decide (identity_publicKey identity = identity_publicKey reconstructed))) [DeviceErrInvalidIdentity].

End Identity.

(** ** Announcements *)

Definition DiscoveryProtocolVersion : Z := 1.
Definition encodedPresenceIDLength : nat := 26.
Definition RoleWorker : string := "worker".
Definition RoleOrchestrator : string := "orchestrator".

Section Announcements.
Context `{UnicodeCase}.

Definition ParsePresenceID (value : string) : result string :=
  if canonical_base32 encodedPresenceIDLength 16 value then Ok value else Err [DeviceErrInvalidPresenceID].

Definition PresenceID_Valid (id : string) : bool :=
  match ParsePresenceID id with Ok _ => true | Err _ => false end.

(** [random] is what [io.ReadFull] gives. *)
Definition NewPresenceID (random : result bytes) : result string :=
  contents ← random;
  Ok (to_lower (Base32_EncodeToString contents)).

End Announcements.

Definition known_role (role : string) : bool := bool_decide (role = RoleWorker) || bool_decide (role = RoleOrchestrator).

Definition ValidateName (name : string) : result unit :=
  _ ← reject_if (negb (bool_decide (trim_space name = name)) || bool_decide (name = "")
        || (80 <? String.length name) || negb (utf8_valid name)) [DeviceErrInvalidAnnouncement];
  reject_if (existsb (λ r, is_control (rune_value r)) (runes (bytes_of name))) [DeviceErrInvalidAnnouncement].

(** [validateHint] of the packages device and trust. *)
Definition hint_ok (value : string) : bool :=
  bool_decide (value = "")
  || bool_decide (trim_space value = value) && negb (32 <? String.length value) && utf8_valid value
     && negb (existsb (λ r, is_control (rune_value r) || is_space (rune_value r) || (rune_value r =? 61)%Z)
          (runes (bytes_of value))).

Record Announcement := MkAnnouncement {
  an_PresenceID : string;
  an_Name : string;
  an_Role : string;
  an_ProtocolVersion : Z;
  an_Port : Z;
  an_EndpointReady : bool;
  an_Platform : string;
  an_Architecture : string;
  an_LogicalCPUCount : Z;
  an_TotalMemoryBytes : Z
}.

Definition failed {A} (r : result A) : bool := match r with Ok _ => false | Err _ => true end.

Definition Announcement_Validate `{UnicodeCase} (a : Announcement) : result unit :=
  reject_if (negb (PresenceID_Valid (an_PresenceID a)) || failed (ValidateName (an_Name a))
    || negb (known_role (an_Role a)) || (an_ProtocolVersion a =? 0)%Z || (an_Port a =? 0)%Z
    || negb (hint_ok (an_Platform a)) || negb (hint_ok (an_Architecture a))
    || (4096 <? an_LogicalCPUCount a)%Z) [DeviceErrInvalidAnnouncement].

(** ** Addresses *)

Inductive Addr :=
| AddrZero
| Addr4 (value : Z)
| Addr6 (value : Z) (zone : string).

#[global] Instance Addr_eq_dec : EqDecision Addr.
Proof. solve_decision. Defined.
#[global] Instance Addr_countable : Countable Addr.
Proof.
  refine (inj_countable'
    (λ a, match a with AddrZero => None | Addr4 v => Some (v, None) | Addr6 v z => Some (v, Some z) end)
    (λ o, match o with None => AddrZero | Some (v, None) => Addr4 v | Some (v, Some z) => Addr6 v z end) _).
  by intros [].
Defined.

Definition Addr_IsValid (a : Addr) : bool := match a with AddrZero => false | _ => true end.
Definition Addr_IsUnspecified (a : Addr) : bool := bool_decide (a = Addr4 0 ∨ a = Addr6 0 "").
Definition v4_multicast (v : Z) : bool := (Z.land (Z.shiftr v 24) 0xF0 =? 0xE0)%Z.
Definition Addr_IsMulticast (a : Addr) : bool :=
  match a with
  | AddrZero => false
  | Addr4 v => v4_multicast v
  | Addr6 v _ =>
      if (Z.shiftr v 32 =? 0xFFFF)%Z then v4_multicast (v `mod` 2 ^ 32)   (* IPv4 mapped *)
      else (Z.shiftr v 120 =? 0xFF)%Z
  end.

Definition Addr_rank (a : Addr) : Z * Z * string :=
  match a with AddrZero => (0, 0, "")%Z | Addr4 v => (32, v, "")%Z | Addr6 v z => (128%Z, v, z) end.

(** [Addr.Less]: by bit length, then value, then zone. *)
Definition Addr_Less (a b : Addr) : bool :=
  let '(la, va, za) := Addr_rank a in
  let '(lb, vb, zb) := Addr_rank b in
  if negb (la =? lb)%Z then (la <? lb)%Z
  else if negb (va =? vb)%Z then (va <? vb)%Z
  else str_ltb za zb.

(** ** Observations *)

Record Observation := MkObservation {
  ob_Key : string;
  ob_Announcement : Announcement;
  ob_Instance : string;
  ob_HostName : string;
  ob_Addresses : list Addr;
  ob_SeenAt : Z;
  ob_ExpiresAt : Z
}.

Definition Observation_Validate `{UnicodeCase} (o : Observation) : result unit :=
  _ ← reject_if (bool_decide (ob_Key o = "") || failed (Announcement_Validate (ob_Announcement o))
        || bool_decide (trim_space (ob_Instance o) = "") || bool_decide (trim_space (ob_HostName o) = "")
        || is_zero_time (ob_SeenAt o) || negb (after (ob_ExpiresAt o) (ob_SeenAt o))) [DeviceErrInvalidObservation];
  _ ← reject_if (bool_decide (ob_Addresses o = [])) [DeviceErrInvalidObservation];
  reject_if (existsb (λ a, negb (Addr_IsValid a) || Addr_IsUnspecified a || Addr_IsMulticast a) (ob_Addresses o))
    [DeviceErrInvalidObservation].

Record NearbyDevice := MkNearby { nd_Observation : Observation; nd_FirstSeenAt : Z }.
Definition nd_Announcement (n : NearbyDevice) : Announcement := ob_Announcement (nd_Observation n).

Record DiscoverySnapshot := MkDiscovery {
  sn_Devices : list NearbyDevice;
  sn_Available : bool;
  sn_LastError : string;
  sn_LastStartedAt : option Z
}.

(** ** DeviceService *)

Record DeviceService := MkDeviceService {
  ds_local : Announcement;
  ds_devices : gmap string NearbyDevice;
  ds_available : bool;
  ds_lastError : string;
  ds_lastStartedAt : option Z
}.

Definition set_devices (devices : gmap string NearbyDevice) (s : DeviceService) : DeviceService :=
  MkDeviceService (ds_local s) devices (ds_available s) (ds_lastError s) (ds_lastStartedAt s).

Definition addressMergeWindow : Z := (2 * second)%Z.

Definition addr_le (a b : Addr) : Prop := Addr_Less b a = false.
#[global] Instance addr_le_dec : RelDecision addr_le.
Proof. intros a b. unfold addr_le. apply _. Defined.

Definition mergeAddresses (left right : list Addr) : list Addr :=
  merge_sort addr_le (elements (list_to_set (C := gset Addr) (left ++ right))).

Definition nearby_key (o : Observation) : string := ob_Key o +:+ "|" +:+ an_PresenceID (ob_Announcement o).

Definition with_addresses (addresses : list Addr) (o : Observation) : Observation :=
  MkObservation (ob_Key o) (ob_Announcement o) (ob_Instance o) (ob_HostName o) addresses (ob_SeenAt o) (ob_ExpiresAt o).

Section Service.
Context `{UnicodeCase}.

Definition NewDeviceService (local : Announcement) (retryDelay : Z) : result DeviceService :=
  _ ← Announcement_Validate local;
  _ ← reject_if (retryDelay <? 0)%Z [DeviceErrMissingDependency];
  Ok (MkDeviceService local ∅ false "" None).

Definition observe (o : Observation) (s : DeviceService) : DeviceService :=
  if failed (Observation_Validate o) || bool_decide (an_PresenceID (ob_Announcement o) = an_PresenceID (ds_local s)) then s
  else
    let key := nearby_key o in
    match ds_devices s !! key with
    | Some current =>
        if before (ob_SeenAt o) (ob_SeenAt (nd_Observation current)) then s
        else
          let elapsed := time_sub (ob_SeenAt o) (ob_SeenAt (nd_Observation current)) in
          let existing := if (0 <=? elapsed)%Z && (elapsed <=? addressMergeWindow)%Z
                          then ob_Addresses (nd_Observation current) else [] in
          set_devices (<[key := MkNearby (with_addresses (mergeAddresses existing (ob_Addresses o)) o)
            (nd_FirstSeenAt current)]> (ds_devices s)) s
    | None =>
        set_devices (<[key := MkNearby (with_addresses (mergeAddresses [] (ob_Addresses o)) o) (ob_SeenAt o)]>
          (ds_devices s)) s
    end.

Definition nearby_less (a b : NearbyDevice) : bool :=
  if negb (bool_decide (an_Name (nd_Announcement a) = an_Name (nd_Announcement b)))
  then str_ltb (an_Name (nd_Announcement a)) (an_Name (nd_Announcement b))
  else str_ltb (ob_Key (nd_Observation a)) (ob_Key (nd_Observation b)).
Definition nearby_le (a b : NearbyDevice) : Prop := nearby_less b a = false.
#[global] Instance nearby_le_dec : RelDecision nearby_le.
Proof. intros a b. unfold nearby_le. apply _. Defined.

Definition drop_expired (now_ : Z) (devices : gmap string NearbyDevice) : gmap string NearbyDevice :=
  filter (λ kv, after (ob_ExpiresAt (nd_Observation kv.2)) now_ = true) devices.

(** [cancelled] is [ctx.Err()]. *)
Definition ListNearby (cancelled : option (list sentinel)) (now_ : Z) (s : DeviceService) :
    result DiscoverySnapshot * DeviceService :=
  match cancelled with
  | Some e => (Err e, s)
  | None =>
      let s := set_devices (drop_expired now_ (ds_devices s)) s in
      (Ok (MkDiscovery (merge_sort nearby_le (map snd (map_to_list (ds_devices s))))
         (ds_available s) (ds_lastError s) (ds_lastStartedAt s)), s)
  end.

Definition nearby_matches (selector : string) (n : NearbyDevice) : bool :=
  bool_decide (an_Name (nd_Announcement n) = selector) || bool_decide (an_PresenceID (nd_Announcement n) = selector)
  || has_prefix (an_PresenceID (nd_Announcement n)) selector.

Definition ResolveNearby (cancelled : option (list sentinel)) (now_ : Z) (selector : string) (s : DeviceService) :
    result NearbyDevice * DeviceService :=
  let selector := trim_space selector in
  if bool_decide (selector = "") then (Err [NearbyErrNotFound], s)
  else
    let '(r, s) := ListNearby cancelled now_ s in
    match r with
    | Err e => (Err e, s)
    | Ok snapshot =>
        match filter (λ n, nearby_matches selector n = true) (sn_Devices snapshot) with
        | [] => (Err [NearbyErrNotFound], s)
        | [nearby] => (Ok nearby, s)
        | _ => (Err [NearbyErrAmbiguous], s)
        end
    end.

Definition markReady (now_ : Z) (s : DeviceService) : DeviceService :=
  MkDeviceService (ds_local s) (ds_devices s) true "" (Some now_).

(** [message] is [err.Error()]. *)
Definition markUnavailable (message : string) (s : DeviceService) : bool * DeviceService :=
  (ds_available s || negb (bool_decide (ds_lastError s = message)),
   MkDeviceService (ds_local s) (ds_devices s) false message (ds_lastStartedAt s)).

End Service.

(** ** Lemmas *)

Section Identifiers.
Context `{UnicodeCase} (sha256 : bytes → bytes).

(** The encoding of [size] bytes is canonical. *)
Lemma canonical_encoding l : canonical_base32 (length (b32_encode l)) (length l) (to_lower (Base32_EncodeToString l)) = true.
Proof.
  rewrite lower_base32_eq. unfold canonical_base32. rewrite length_lower_base32, lower_base32_lower, lower_base32_upper.
  rewrite Base32_roundtrip, !bool_decide_true by done. done.
Qed.

Lemma canonical_encoding_size n size l :
  length l = size → 8 * size ≤ 5 * n < 8 * size + 5 → canonical_base32 n size (to_lower (Base32_EncodeToString l)) = true.
Proof.
  intros Hl Hn. destruct (length_b32_encode l) as (k & Hk & E). rewrite Hl in E.
  replace n with (length (b32_encode l)) by lia. rewrite <-Hl. apply canonical_encoding.
Qed.

(** The fingerprint of a key is valid, and keys with one fingerprint have one hash. *)
Lemma fingerprint_valid publicKey id :
  length (sha256 publicKey) = 32 → IDFromPublicKey sha256 publicKey = Ok id → DeviceID_Valid id = true.
Proof.
  intros Hs E. unfold IDFromPublicKey in E. apply result_bind_ok in E as (u & _ & [= <-]).
  unfold DeviceID_Valid, Device_ParseID. rewrite (canonical_encoding_size encodedIDLength 32); [done|done|].
  unfold encodedIDLength. lia.
Qed.

Lemma fingerprint_binds k1 k2 id :
  IDFromPublicKey sha256 k1 = Ok id → IDFromPublicKey sha256 k2 = Ok id → sha256 k1 = sha256 k2.
Proof.
  unfold IDFromPublicKey. intros (u1 & _ & [= E1])%result_bind_ok (u2 & _ & [= E2])%result_bind_ok.
  rewrite <-E2, !lower_base32_eq in E1. by apply lower_base32_inj in E1.
Qed.

End Identifiers.

(** *** The characters of an identifier *)

Definition id_char (c : ascii) : bool := (in_range 97 122 c || in_range 50 55 c)%Z.

(** Bytes that [n] characters decode to. *)
Definition b32_bytes (n : nat) : nat := n / 8 * 5 + b32_tail (n mod 8).

Lemma b32_decode_length l d : b32_decode l = Some d → length d ≤ b32_bytes (length l) ∧ Forall (λ c, is_Some (b32_val c)) l.
Proof.
  unfold b32_decode. destruct (mapM b32_val l) as [vs|] eqn:E; [|done]. intros [= <-]. apply mapM_Some in E.
  split; [rewrite (Forall2_length _ _ _ E), length_take; apply Nat.le_min_l|].
  induction E; constructor; [by eexists|done].
Qed.

Lemma b32_val_ascii : ∀ c, is_Some (b32_val c) ∨ is_newline c = true → (val c < 128)%Z.
Proof. all_bytes; try lia; intros [[? ?]|?]; done. Qed.

Lemma rune_single b rest : rune_bytes (decode_rune b rest) = [b] →
  (val b < 128)%Z ∧ rune_value (decode_rune b rest) = val b ∨ rune_value (decode_rune b rest) = rune_error.
Proof.
  destruct (val b <? 0x80)%Z eqn:E.
  - unfold decode_rune. rewrite E. reflect_bools. by left.
  - unfold decode_rune, two, three. rewrite E. repeat case_match; simpl; intros [=]; by right.
Qed.

(** As many runes as bytes: every rune is a byte. *)
Lemma runes_bytes l : length (runes l) ≤ length l ∧
  (length (runes l) = length l → Forall (λ r, ∃ b rest, r = decode_rune b rest ∧ rune_bytes r = [b]) (runes l) ∧
     map rune_bytes (runes l) = map (λ c, [c]) l).
Proof.
  induction l as [l IH] using (induction_ltof1 _ (@length _)). unfold ltof in IH. destruct l as [|b l]; [done|].
  destruct (runes_cons b l) as (t & l' & -> & Hb & ->). destruct (IH l') as [Hle Heq]; [simpl; rewrite length_app; lia|].
  cbn [length]. rewrite length_app. split; [lia|]. intros E. assert (t = []) as -> by (destruct t; [done|cbn [length] in E; lia]).
  cbn [app length Nat.add] in *. destruct Heq as [H1 H2]; [lia|]. split.
  - constructor; [|done]. by exists b, l'.
  - cbn [map]. by rewrite Hb, H2.
Qed.

Lemma concat_length_le (f : rune_at → bytes) l :
  Forall (λ r, length (f r) = 1) l → length (concat (map f l)) = length l.
Proof. induction 1 as [|r l Hr Hl IH]; simpl; [done|]. rewrite length_app. lia. Qed.

Lemma id_char_upper : ∀ c, (val c < 128)%Z → is_Some (b32_val (upper_char c)) → lower_char c = c → id_char c = true.
Proof. all_bytes; try done; intros _ [? ?]; done. Qed.

Lemma id_char_ok : ∀ c, id_char c = true →
  (val c < 128)%Z ∧ lower_char c = c ∧ is_Some (b32_val (upper_char c)) ∧ is_newline (upper_char c) = false ∧ val c ≠ 0%Z.
Proof. all_bytes; try done; intros _; split_and!; try done; by eexists. Qed.
Lemma length_quintet_bits vs : length (concat (map (bits_of 5) vs)) = 5 * length vs.
Proof. induction vs as [|v vs IH]; [done|]. cbn [map concat length]. rewrite length_app, length_bits_of, IH. lia. Qed.

Lemma b32_bytes_le n : 8 * b32_bytes n ≤ 5 * n.
Proof.
  unfold b32_bytes. pose proof (Nat.div_mod_eq n 8). pose proof (Nat.mod_upper_bound n 8 ltac:(lia)).
  destruct (n mod 8) as [|[|[|[|[|[|[|[|]]]]]]]]; simpl b32_tail; lia.
Qed.

(** Sizes of identifiers: no shorter text decodes to as many bytes. *)
Definition exact_size (n size : nat) : Prop := b32_bytes n = size ∧ ∀ m, m < n → b32_bytes m < size.

Lemma exact_size_check n size :
  bool_decide (b32_bytes n = size) && forallb (λ m, b32_bytes m <? size) (seq 0 n) = true → exact_size n size.
Proof.
  intros Hc. reflect_bools. split; [done|]. intros m Hm. rewrite forallb_forall in H0.
  apply Nat.ltb_lt, H0, list_elem_of_In, elem_of_seq. lia.
Qed.

Section Alphabet.
Context `{UnicodeCase}.

Lemma upper_bytes_runes value (c : ascii) :
  let enc := λ r, encode_rune (if (rune_value r <? 128)%Z then ascii_upper (rune_value r) else unicode_upper (rune_value r)) in
  (∀ d, d ∈ bytes_of (to_upper value) → (val d < 128)%Z) →
  Forall (λ r, length (enc r) = 1) (runes (bytes_of value)).
Proof.
  intros enc Hall. apply Forall_forall. intros r Hr. destruct (enc r) as [|d e] eqn:E; [by apply encode_rune_nonempty in E|].
  assert (d ∈ enc r) as Hd by (rewrite E; apply list_elem_of_here).
  destruct (encode_rune_ascii _ d Hd) as [E' _]; [|change (enc r = [d]) in E'; by rewrite <-E, E'].
  apply Hall. unfold to_upper. rewrite bytes_of_str_of. apply list_elem_of_In, in_concat. exists (enc r).
  split; [by apply in_map, list_elem_of_In|by apply list_elem_of_In].
Qed.

Lemma canonical_length n size value : canonical_base32 n size value = true → String.length value = n.
Proof. unfold canonical_base32. destruct (_ || _) eqn:E; [done|]. by reflect_bools. Qed.

(** An accepted identifier is ASCII. *)
Lemma canonical_ascii `{!UnicodeErrorLaw} n size value :
  exact_size n size → canonical_base32 n size value = true → is_ascii (bytes_of value).
Proof.
  intros [Hn Hmin] Hc. pose proof (canonical_length n size value Hc) as Hv.
  unfold canonical_base32 in Hc. destruct (_ || _) eqn:E0; [done|]. clear E0.
  destruct (Base32_DecodeString (to_upper value)) as [d|] eqn:Ed; [|done]. reflect_bools.
  unfold Base32_DecodeString in Ed. apply b32_decode_length in Ed as [Hlen Hval].
  set (up := bytes_of (to_upper value)) in *. set (kept := filter (λ c, is_newline c = false) up) in *.
  assert (∀ c, c ∈ up → (val c < 128)%Z) as Hasc.
  { intros c Hin. apply b32_val_ascii. destruct (is_newline c) eqn:En; [by right|left].
    eapply Forall_forall in Hval; [exact Hval|]. by apply list_elem_of_filter. }
  pose proof (upper_bytes_runes value "a"%char Hasc) as Hone. cbv zeta in Hone.
  destruct (runes_bytes (bytes_of value)) as [Hle Heq]. rewrite length_bytes_of, Hv in Hle, Heq.
  assert (length up = length (runes (bytes_of value))) as Hup.
  { unfold up, to_upper. rewrite bytes_of_str_of. by apply concat_length_le. }
  assert (n ≤ length kept) as Hkept by (destruct (decide (length kept < n)); [|lia]; specialize (Hmin (length kept) l); lia).
  assert (length kept ≤ length up) by apply length_filter_le.
  destruct Heq as [Hsingle Hbytes]; [lia|].
  assert (Forall (λ r, ∃ c, rune_bytes r = [c] ∧ (val c < 128)%Z) (runes (bytes_of value))) as Hr.
  { apply Forall_forall. intros r Hr. eapply Forall_forall in Hone, Hsingle; [|exact Hr..].
    destruct Hsingle as (b & rest & -> & Hb). exists b. split; [done|].
    destruct (rune_single b rest Hb) as [[? _]|Herr]; [done|].
    rewrite Herr in Hone. change (rune_error <? 128)%Z with false in Hone. by rewrite unicode_upper_error in Hone. }
  rewrite <-(runes_concat (bytes_of value)). apply Forall_concat, Forall_map. eapply Forall_impl; [exact Hr|].
  intros r (c & -> & Hc'). by repeat constructor.
Qed.

Lemma canonical_alphabet `{!UnicodeErrorLaw} n size value : exact_size n size →
  canonical_base32 n size value = true ↔ String.length value = n ∧ Forall (λ c, id_char c = true) (bytes_of value).
Proof.
  intros Hsize. pose proof Hsize as [Hn Hmin]. assert (∃ l, value = str_of l) as [l ->] by (exists (bytes_of value); by rewrite str_of_bytes_of).
  rewrite bytes_of_str_of, length_str_of. split.
  - intros Hc. pose proof (canonical_ascii n size _ Hsize Hc) as Hasc. pose proof (canonical_length n size _ Hc) as Hl.
    rewrite bytes_of_str_of in Hasc. rewrite length_str_of in Hl. split; [done|]. unfold canonical_base32 in Hc.
    rewrite to_lower_ascii, to_upper_ascii in Hc by done. destruct (_ || _) eqn:E0; [done|]. reflect_bools.
    unfold Base32_DecodeString in Hc. rewrite bytes_of_str_of in Hc. destruct (b32_decode _) as [d|] eqn:Ed; [|done].
    reflect_bools. apply b32_decode_length in Ed as [Hlen Hval].
    change (λ c, byte_of (ascii_upper (val c))) with upper_char in *. change (λ c, byte_of (ascii_lower (val c))) with lower_char in *.
    set (up := map upper_char l) in *. assert (length up = n) as Hup by (unfold up; by rewrite length_map).
    assert (filter (λ c, is_newline c = false) up = up) as Hfull.
    { apply filter_full. rewrite Hup. destruct (decide (n ≤ length (filter (λ c, is_newline c = false) up))) as [?|Hlt]; [done|].
      specialize (Hmin (length (filter (λ c, is_newline c = false) up)) ltac:(lia)). lia. }
    rewrite Hfull in Hval.
    apply (f_equal bytes_of) in H2. rewrite !bytes_of_str_of in H2.
    apply Forall_forall. intros c Hin. apply id_char_upper.
    + unfold is_ascii in Hasc. rewrite Forall_forall in Hasc. by apply Hasc.
    + rewrite Forall_forall in Hval. apply Hval, list_elem_of_fmap. by exists c.
    + apply list_elem_of_lookup in Hin as [k Hk]. pose proof Hk as Hk'. rewrite H2, list_lookup_fmap, Hk in Hk'. by injection Hk'.
  - intros [Hl Hall]. assert (is_ascii l) as Hasc by (eapply Forall_impl; [exact Hall|]; intros c Hc; by apply id_char_ok).
    unfold canonical_base32. rewrite length_str_of, to_lower_ascii, to_upper_ascii by done.
    change (λ c, byte_of (ascii_upper (val c))) with upper_char. change (λ c, byte_of (ascii_lower (val c))) with lower_char.
    assert (map lower_char l = l) as ->.
    { rewrite <-(map_id l) at 2. apply map_ext_Forall. eapply Forall_impl; [exact Hall|]. intros c Hc. by apply id_char_ok. }
    rewrite !bool_decide_true by done. cbn [negb orb]. unfold Base32_DecodeString. rewrite bytes_of_str_of, filter_all.
    2: { apply Forall_map. eapply Forall_impl; [exact Hall|]. intros c Hc. by apply id_char_ok. }
    unfold b32_decode. destruct (mapM b32_val (map upper_char l)) as [vs|] eqn:E.
    + cbn [mbind option_bind]. apply bool_decide_true. apply mapM_Some, Forall2_length in E. rewrite length_map, Hl in E.
      rewrite length_take, <-E. fold (b32_bytes n). rewrite Hn. apply Nat.min_l.
      pose proof (length_octets (concat (map (bits_of 5) vs))) as Ho. rewrite length_quintet_bits, <-E in Ho.
      pose proof (b32_bytes_le n). lia.
    + exfalso. apply mapM_None in E. apply Exists_exists in E as (c & Hin & Hc). apply list_elem_of_fmap in Hin as (c' & -> & Hin).
      eapply Forall_forall in Hall; [|exact Hin]. apply id_char_ok in Hall as (_ & _ & [? ?] & _). congruence.
Qed.

End Alphabet.

(** *** The view of nearby devices *)

Definition nearby_rank (n : NearbyDevice) : string * string := (an_Name (nd_Announcement n), ob_Key (nd_Observation n)).

Lemma nearby_le_rank a b : nearby_le a b ↔ str2_leb (nearby_rank a) (nearby_rank b) = true.
Proof.
  unfold nearby_le, nearby_less, str2_leb, nearby_rank. cbn [fst snd].
  destruct (decide (an_Name (nd_Announcement a) = an_Name (nd_Announcement b))) as [E|E].
  - rewrite !bool_decide_true by done. cbn [negb]. by rewrite str_ltb_leb, negb_false_iff.
  - rewrite !bool_decide_false by done. cbn [negb]. by rewrite str_ltb_leb, negb_false_iff.
Qed.

#[global] Instance nearby_total : Total nearby_le.
Proof. intros a b. rewrite !nearby_le_rank. apply str2_leb_total. Qed.
#[global] Instance nearby_trans : Transitive nearby_le.
Proof. intros a b c. rewrite !nearby_le_rank. apply str2_leb_trans. Qed.

Section Nearby.
Context `{UnicodeCase}.

(** What the service keeps under a key. *)
Record nearby_ok (local : Announcement) (key : string) (n : NearbyDevice) : Prop := {
  no_valid : Observation_Validate (nd_Observation n) = Ok tt;
  no_foreign : an_PresenceID (nd_Announcement n) ≠ an_PresenceID local;
  no_key : key = nearby_key (nd_Observation n);
  no_seen : (nd_FirstSeenAt n ≤ ob_SeenAt (nd_Observation n))%Z
}.

Definition service_ok (s : DeviceService) : Prop := map_Forall (nearby_ok (ds_local s)) (ds_devices s).

Lemma merge_elem left right a : a ∈ mergeAddresses left right ↔ a ∈ left ∨ a ∈ right.
Proof. unfold mergeAddresses. rewrite merge_sort_Permutation. set_solver. Qed.

(** Validation looks at the addresses one by one. *)
Lemma validate_addresses o addresses :
  Observation_Validate o = Ok tt → addresses ≠ [] →
  (∀ a, a ∈ addresses → Addr_IsValid a = true ∧ Addr_IsUnspecified a = false ∧ Addr_IsMulticast a = false) →
  Observation_Validate (with_addresses addresses o) = Ok tt.
Proof.
  unfold Observation_Validate. cbn [with_addresses ob_Key ob_Announcement ob_Instance ob_HostName ob_Addresses ob_SeenAt ob_ExpiresAt].
  intros (u1 & -> & _)%result_bind_ok Hne Ha. destruct u1. cbn [mbind result_bind].
  rewrite bool_decide_false by done. cbn [reject_if mbind result_bind]. apply reject_if_ok.
  apply existsb_none. intros a Hin. destruct (Ha a Hin) as (-> & -> & ->). done.
Qed.

Lemma valid_addresses o : Observation_Validate o = Ok tt →
  ob_Addresses o ≠ [] ∧
  ∀ a, a ∈ ob_Addresses o → Addr_IsValid a = true ∧ Addr_IsUnspecified a = false ∧ Addr_IsMulticast a = false.
Proof.
  unfold Observation_Validate. intros (u1 & _ & (u2 & Hne & Hall)%result_bind_ok)%result_bind_ok.
  apply reject_if_ok in Hne, Hall. reflect_bools. split; [done|]. intros a Hin.
  eapply existsb_none in Hall; [|exact Hin]. by reflect_bools.
Qed.

Lemma merged_valid o left :
  Observation_Validate o = Ok tt →
  (∀ a, a ∈ left → Addr_IsValid a = true ∧ Addr_IsUnspecified a = false ∧ Addr_IsMulticast a = false) →
  Observation_Validate (with_addresses (mergeAddresses left (ob_Addresses o)) o) = Ok tt.
Proof.
  intros Ho Hl. destruct (valid_addresses o Ho) as [Hne Ha]. apply validate_addresses; [done| |].
  - destruct (ob_Addresses o) as [|a l]; [done|]. intros E. assert (a ∈ mergeAddresses left (a :: l)) as Hin.
    { apply merge_elem. right. apply list_elem_of_here. }
    rewrite E in Hin. by apply elem_of_nil in Hin.
  - intros a [Hin|Hin]%merge_elem; auto.
Qed.

Lemma observe_ok o s : service_ok s → service_ok (observe o s).
Proof.
  intros Hs. unfold observe. destruct (_ || _) eqn:E; [done|]. reflect_bools.
  assert (Observation_Validate o = Ok tt) as Ho by (destruct (Observation_Validate o) as [[]|]; done).
  destruct (ds_devices s !! nearby_key o) as [current|] eqn:Ec.
  - destruct (before _ _) eqn:Eb; [done|]. unfold before in Eb. reflect_bools. destruct (Hs _ _ Ec) as [Hv Hf Hk Hfirst].
    apply map_Forall_insert_2; [|done]. constructor; cbn [nd_Observation nd_FirstSeenAt].
    + apply merged_valid; [done|]. destruct (_ && _); [by apply valid_addresses|by intros a ?%elem_of_nil].
    + done.
    + done.
    + cbn [with_addresses ob_SeenAt]. lia.
  - apply map_Forall_insert_2; [|done]. constructor; cbn [nd_Observation nd_FirstSeenAt]; try done.
    apply merged_valid; [done|]. by intros a ?%elem_of_nil.
Qed.

Lemma expire_nearby_ok now_ s : service_ok s → service_ok (set_devices (drop_expired now_ (ds_devices s)) s).
Proof. intros Hs key n [Hk _]%map_lookup_filter_Some. by apply Hs. Qed.

(** The states of the service: any order of sightings, listings and status changes. *)
Inductive nearby_reach (local : Announcement) : DeviceService → Prop :=
| reach_new delay s : NewDeviceService local delay = Ok s → nearby_reach local s
| reach_observe s o : nearby_reach local s → nearby_reach local (observe o s)
| reach_list s cancelled now_ : nearby_reach local s → nearby_reach local (ListNearby cancelled now_ s).2
| reach_resolve s cancelled now_ selector :
    nearby_reach local s → nearby_reach local (ResolveNearby cancelled now_ selector s).2
| reach_ready s now_ : nearby_reach local s → nearby_reach local (markReady now_ s)
| reach_unavailable s message : nearby_reach local s → nearby_reach local (markUnavailable message s).2.

Lemma list_nearby_ok cancelled now_ s : service_ok s → service_ok (ListNearby cancelled now_ s).2.
Proof. intros Hs. destruct cancelled; [done|]. by apply expire_nearby_ok. Qed.

Lemma resolve_state cancelled now_ selector s :
  (ResolveNearby cancelled now_ selector s).2 = s ∨ (ResolveNearby cancelled now_ selector s).2 = (ListNearby cancelled now_ s).2.
Proof.
  unfold ResolveNearby. destruct (bool_decide _); [by left|right]. destruct (ListNearby cancelled now_ s) as [[snapshot|e] s'];
    [|done]. simpl. by destruct (filter _ _) as [|? []].
Qed.

Lemma reach_ok local s : nearby_reach local s → service_ok s ∧ ds_local s = local.
Proof.
  assert (∀ c t s, ds_local (ListNearby c t s).2 = ds_local s) as Hloc by (by intros [] t s0).
  induction 1 as [delay s Hn|s o _ [Hs Hl]|s c t _ [Hs Hl]|s c t sel _ [Hs Hl]|s t _ [Hs Hl]|s m _ [Hs Hl]]; try done.
  - unfold NewDeviceService in Hn. apply result_bind_ok in Hn as (u & _ & (u' & _ & [= <-])%result_bind_ok).
    split; [apply map_Forall_empty|done].
  - split; [by apply observe_ok|]. unfold observe. by repeat case_match.
  - split; [by apply list_nearby_ok|]. by rewrite Hloc.
  - destruct (resolve_state c t sel s) as [->| ->]; [done|]. split; [by apply list_nearby_ok|]. by rewrite Hloc.
Qed.

Lemma listed_elem now_ s n :
  n ∈ merge_sort nearby_le (map snd (map_to_list (drop_expired now_ (ds_devices s)))) ↔
  ∃ key, ds_devices s !! key = Some n ∧ after (ob_ExpiresAt (nd_Observation n)) now_ = true.
Proof.
  rewrite merge_sort_Permutation, list_elem_of_fmap. split.
  - intros ([key m] & -> & Hin%elem_of_map_to_list). apply map_lookup_filter_Some in Hin as [? ?]. by exists key.
  - intros (key & Hk & Ha). exists (key, n). split; [done|]. by apply elem_of_map_to_list, map_lookup_filter_Some.
Qed.

(** What [observe] stores. *)
Definition sighting (existing : list Addr) (first : Z) (o : Observation) : NearbyDevice :=
  MkNearby (with_addresses (mergeAddresses existing (ob_Addresses o)) o) first.

Lemma observe_accepted o s :
  Observation_Validate o = Ok tt → an_PresenceID (ob_Announcement o) ≠ an_PresenceID (ds_local s) →
  (∀ n, ds_devices s !! nearby_key o = Some n → (ob_SeenAt (nd_Observation n) ≤ ob_SeenAt o)%Z) →
  ∃ existing first, observe o s = set_devices (<[nearby_key o := sighting existing first o]> (ds_devices s)) s.
Proof.
  intros Ho Hf Hnew. unfold observe. rewrite Ho, bool_decide_false by done. cbn [failed orb].
  destruct (ds_devices s !! nearby_key o) as [current|] eqn:Ec; [|by eexists _, _].
  unfold before. rewrite (proj2 (Z.ltb_ge _ _)) by (by apply Hnew). by eexists _, _.
Qed.

End Nearby.

(** The view of nearby devices is exact.  In every reachable state a listing at time
    [t] is sorted by name and shows exactly the stored sightings that have not expired;
    each of them is valid, is of another device, was first seen no later than last
    seen, and no device and key shows twice.  A valid sighting of another device that
    is not older than the one stored under its key shows until it expires, with all
    addresses it reported. *)
Theorem nearby_view_exact (U : UnicodeCase) (local : Announcement) (s : DeviceService) (t : Z) :
  nearby_reach local s →
  (∃ view s', ListNearby None t s = (Ok view, s') ∧ StronglySorted nearby_le (sn_Devices view) ∧
    NoDup (map (λ n, nearby_key (nd_Observation n)) (sn_Devices view)) ∧
    (∀ n, n ∈ sn_Devices view ↔ ∃ key, ds_devices s !! key = Some n ∧ (t < ob_ExpiresAt (nd_Observation n))%Z) ∧
    (∀ n, n ∈ sn_Devices view → Observation_Validate (nd_Observation n) = Ok tt ∧
       an_PresenceID (nd_Announcement n) ≠ an_PresenceID local ∧ (nd_FirstSeenAt n ≤ ob_SeenAt (nd_Observation n))%Z)) ∧
  (∀ o, Observation_Validate o = Ok tt → an_PresenceID (ob_Announcement o) ≠ an_PresenceID local →
    (∀ n, ds_devices s !! nearby_key o = Some n → (ob_SeenAt (nd_Observation n) ≤ ob_SeenAt o)%Z) →
    (t < ob_ExpiresAt o)%Z →
    ∃ view s' n, ListNearby None t (observe o s) = (Ok view, s') ∧ n ∈ sn_Devices view ∧
      nd_Announcement n = ob_Announcement o ∧ ob_SeenAt (nd_Observation n) = ob_SeenAt o ∧
      ∀ a, a ∈ ob_Addresses o → a ∈ ob_Addresses (nd_Observation n)).
Proof.
  intros Hr. destruct (reach_ok local s Hr) as [Hs Hl]. split.
  - eexists _, _. split; [reflexivity|]. cbn [sn_Devices]. split_and!.
    + apply Sorted_StronglySorted; [apply _|]. apply Sorted_merge_sort, _.
    + rewrite merge_sort_Permutation, map_map.
      erewrite (map_ext_in _ fst); [apply NoDup_fst_map_to_list|]. intros [key n] Hin.
      apply list_elem_of_In, elem_of_map_to_list, map_lookup_filter_Some in Hin as [Hk _].
      by destruct (Hs _ _ Hk) as [_ _ -> _].
    + intros n. etrans; [apply listed_elem|]. unfold after. setoid_rewrite Z.ltb_lt. done.
    + intros n (key & Hk & _)%listed_elem. rewrite <-Hl. by destruct (Hs _ _ Hk).
  - intros o Ho Hf Hnew Ht. destruct (observe_accepted o s) as (existing & first & ->); rewrite ?Hl; try done.
    eexists _, _, (sighting existing first o). split; [reflexivity|]. split_and!; try done.
    + apply (listed_elem t (set_devices _ s)). exists (nearby_key o). cbn [ds_devices set_devices].
      rewrite lookup_insert_eq. split; [done|]. unfold after. by apply Z.ltb_lt.
    + intros a Ha. apply merge_elem. by right.
Qed.

(** Identifiers are what their parsers say.  A device identifier is accepted exactly if
    it has 52 characters, a presence identifier exactly if it has 26, all of them lower-case
    letters or digits from 2 to 7; and the fingerprint of every 32-byte key is accepted,
    with equal fingerprints only for keys of equal SHA-256. *)
Theorem identifiers_exact (U : UnicodeCase) (E : UnicodeErrorLaw) (sha256 : bytes → bytes) (value : string) :
  (∀ c, length (sha256 c) = 32) →
  (DeviceID_Valid value = true ↔ String.length value = 52 ∧ Forall (λ c, id_char c = true) (bytes_of value)) ∧
  (PresenceID_Valid value = true ↔ String.length value = 26 ∧ Forall (λ c, id_char c = true) (bytes_of value)) ∧
  (∀ key, length key = PublicKeySize → ∃ id, IDFromPublicKey sha256 key = Ok id ∧ DeviceID_Valid id = true ∧
     ∀ key', IDFromPublicKey sha256 key' = Ok id → sha256 key' = sha256 key).
Proof.
  intros Hsha. split_and!.
  - rewrite <-(canonical_alphabet 52 32) by (apply exact_size_check; vm_compute; reflexivity).
    unfold DeviceID_Valid, Device_ParseID, encodedIDLength. by destruct (canonical_base32 52 32 value).
  - rewrite <-(canonical_alphabet 26 16) by (apply exact_size_check; vm_compute; reflexivity).
    unfold PresenceID_Valid, ParsePresenceID, encodedPresenceIDLength. by destruct (canonical_base32 26 16 value).
  - intros key Hk. assert (∃ id, IDFromPublicKey sha256 key = Ok id) as [id Hid].
    { unfold IDFromPublicKey. rewrite bool_decide_true by done. by eexists. }
    exists id. split; [done|]. split; [by eapply fingerprint_valid|]. intros key' Hk'. by eapply fingerprint_binds.
Qed.

Lemma identifiers_exact_witness : DeviceID_Valid (H := ascii_case) (str_of (replicate 52 "q"%char)) = true.
Proof.
  refine (proj2 (proj1 (identifiers_exact ascii_case ascii_case_error (λ _, replicate 32 "a"%char)
    (str_of (replicate 52 "q"%char)) (λ c, eq_refl))) (conj eq_refl _)).
  rewrite bytes_of_str_of. apply Forall_replicate. reflexivity.
Defined.

(** The parser does not ask for the encoding of 32 bytes: unused bits of the last
    character are free, so two accepted identifiers stand for the same bytes. *)
Lemma identifier_not_canonical :
  let a := str_of (replicate 52 "a"%char) in let b := str_of (replicate 51 "a"%char ++ ["b"%char]) in
  let U := ascii_case in
  DeviceID_Valid a = true ∧ DeviceID_Valid b = true ∧ a ≠ b ∧
  Base32_DecodeString (to_upper a) = Base32_DecodeString (to_upper b).
Proof.
  cbv zeta. split; [vm_compute; reflexivity|]. split; [vm_compute; reflexivity|]. split; [|vm_compute; reflexivity].
  apply (bool_decide_eq_false_1 (_ = _)). vm_compute. reflexivity.
Qed.

Definition sample_announcement (c : ascii) : Announcement :=
  MkAnnouncement (str_of (replicate 26 c)) "den" RoleWorker 1 4433 true "linux" "amd64" 8 1000.
Definition sample_observation : Observation :=
  MkObservation "den._computehop" (sample_announcement "b") "den" "den.local" [Addr4 3232235777] 100 200.
Definition sample_service : DeviceService := MkDeviceService (sample_announcement "a") ∅ false "" None.

Lemma nearby_view_exact_witness :
  ∃ view s' n, ListNearby None 150 (observe (H := ascii_case) sample_observation sample_service) = (Ok view, s') ∧
    n ∈ sn_Devices view ∧ nd_Announcement n = sample_announcement "b".
Proof.
  assert (NewDeviceService (H := ascii_case) (sample_announcement "a") 0 = Ok sample_service) as Hnew
    by (vm_compute; reflexivity).
  destruct (proj2 (nearby_view_exact ascii_case (sample_announcement "a") sample_service 150
    (@reach_new ascii_case (sample_announcement "a") 0 sample_service Hnew)) sample_observation) as (view & s' & n & E & Hin & Ha & _).
  - vm_compute. reflexivity.
  - vm_compute. discriminate.
  - intros n E. vm_compute in E. discriminate E.
  - vm_compute. reflexivity.
  - exists view, s', n. split; [exact E|]. split; [exact Hin|exact Ha].
Defined.
