(* ===== verification/KeyFiles.v ===== *)
(** * Credential files (internal/platform/permissions, internal/infra/identity/file.go)

    The token of the local socket and the private key of the device are files that
    several processes may create at once.  Each creator writes a temporary file,
    syncs it and links it to its final name.  A program is a tree of file-system
    calls ([prog]); processes run interleaved call by call over one directory whose
    names, inodes and durable entries are explicit, calls may fail, processes may
    be killed and the machine may crash.  [guards] is the rely-guarantee reading of
    a program: what it may assume of the other processes and what it promises. *)

From S2P Require Import Prelude GoText Encoding Base32 Device.
From Stdlib Require Import Ascii.
Local Open Scope string_scope.
Local Open Scope nat_scope.
Local Open Scope list_scope.

(** ** The file system *)

Inductive kind := KRegular | KDirectory | KSymlink | KOther.
#[global] Instance kind_eq_dec : EqDecision kind.
Proof. solve_decision. Defined.

(** An inode: its mode, contents, whether the contents were synced, and the process
    that created it ([None] for a file that was there before). *)
Record inode := MkInode { in_kind : kind; in_perm : Z; in_data : bytes; in_synced : bool; in_owner : option nat }.

(** The directory of the file with its entries, those of its last sync, and the
    inodes.  [fs_dir_durable] tells whether a crash may lose the directory itself. *)
Record fs := MkFs {
  fs_dir : option (kind * Z);
  fs_dir_durable : bool;
  fs_names : gmap string nat;
  fs_durable : gmap string nat;
  fs_inodes : gmap nat inode }.

(** What the system decides at one call: whether it fails, the random part of a
    temporary name, random bytes, and how much of a failing write is written. *)
Record choice := MkChoice { c_fail : bool; c_suffix : string; c_random : bytes; c_written : nat }.

Inductive op : Type → Type :=
| Lstat_dir : op (result (kind * Z))
| MkdirAll (perm : Z) : op (result unit)
| Lstat (name : string) : op (result (kind * Z))
| ReadFile (name : string) : op (result bytes)
| Random (size : nat) : op (result bytes)
| CreateTemp (prefix : string) : op (result (string * nat))
| Chmod (file : nat) (perm : Z) : op (result unit)
| Write (file : nat) (data : bytes) : op (nat * option (list sentinel))
| Sync (file : nat) : op (result unit)
| Close (file : nat) : op (result unit)
| Link (old new : string) : op (result unit)
| Remove (name : string) : op (result unit)
| OpenDir : op (result unit)
| SyncDir : op (result unit)
| CloseDir : op (result unit).

Definition dir_usable (s : fs) : bool :=
  match fs_dir s with Some (KDirectory, _) | Some (KSymlink, _) => true | _ => false end.

(** The inode behind a name of the directory. *)
Definition file_at (s : fs) (name : string) : option inode := i ← fs_names s !! name; fs_inodes s !! i.

Definition set_names (n : gmap string nat) (s : fs) : fs :=
  MkFs (fs_dir s) (fs_dir_durable s) n (fs_durable s) (fs_inodes s).
Definition set_inode (i : nat) (n : inode) (s : fs) : fs :=
  MkFs (fs_dir s) (fs_dir_durable s) (fs_names s) (fs_durable s) (<[i:=n]> (fs_inodes s)).
Definition set_file (i : nat) (f : inode → inode) (s : fs) : fs :=
  match fs_inodes s !! i with Some n => set_inode i (f n) s | None => s end.

Definition fresh_inode (s : fs) : nat := fresh (dom (D:=gset nat) (fs_inodes s)).

(** A missing directory is [ErrNotExist], anything else that is not one an error. *)
Definition no_dir (s : fs) : list sentinel :=
  match fs_dir s with None => [OsErrNotExist] | _ => [DriverError] end.

Definition with_dir {A} (s : fs) (r : result A * fs) : result A * fs :=
  if dir_usable s then r else (Err (no_dir s), s).

(** One call of process [pid]. *)
Definition exec {R} (pid : nat) (o : op R) (c : choice) (s : fs) : R * fs :=
  match o with
  | Lstat_dir =>
      if c_fail c then (Err [DriverError], s)
      else (match fs_dir s with Some info => Ok info | None => Err [OsErrNotExist] end, s)
  | MkdirAll perm =>
      if c_fail c then (Err [DriverError], s) else
      match fs_dir s with
      | None => (Ok tt, MkFs (Some (KDirectory, perm)) (fs_dir_durable s) (fs_names s) (fs_durable s) (fs_inodes s))
      | Some _ => (if dir_usable s then Ok tt else Err [DriverError], s)
      end
  | Lstat name =>
      if c_fail c then (Err [DriverError], s) else
      with_dir s (match file_at s name with Some n => Ok (in_kind n, in_perm n) | None => Err [OsErrNotExist] end, s)
  | ReadFile name =>
      if c_fail c then (Err [DriverError], s) else
      with_dir s (match file_at s name with Some n => Ok (in_data n) | None => Err [OsErrNotExist] end, s)
  | Random size =>
      if c_fail c then (Err [DriverError], s) else (Ok (resize size Ascii.zero (c_random c)), s)
  | CreateTemp prefix =>
      if c_fail c then (Err [DriverError], s) else
      let name := (prefix ++ c_suffix c)%string in
      with_dir s (match fs_names s !! name with
      | Some _ => (Err [OsErrExist], s)
      | None => let i := fresh_inode s in
          (Ok (name, i), set_names (<[name:=i]> (fs_names s)) (set_inode i (MkInode KRegular 384 [] false (Some pid)) s))
      end)
  | Chmod i perm =>
      if c_fail c then (Err [DriverError], s) else
      (Ok tt, set_file i (λ n, MkInode (in_kind n) perm (in_data n) (in_synced n) (in_owner n)) s)
  | Write i data =>
      let accepted := if c_fail c then take (c_written c) data else data in
      ((length accepted, if c_fail c then Some [DriverError] else None),
       set_file i (λ n, MkInode (in_kind n) (in_perm n) (in_data n ++ accepted) false (in_owner n)) s)
  | Sync i =>
      if c_fail c then (Err [DriverError], s) else
      (Ok tt, set_file i (λ n, MkInode (in_kind n) (in_perm n) (in_data n) true (in_owner n)) s)
  | Close _ => (if c_fail c then Err [DriverError] else Ok tt, s)
  | Link old new =>
      if c_fail c then (Err [DriverError], s) else
      with_dir s (match fs_names s !! old, fs_names s !! new with
      | None, _ => (Err [OsErrNotExist], s)
      | Some _, Some _ => (Err [OsErrExist], s)
      | Some i, None => (Ok tt, set_names (<[new:=i]> (fs_names s)) s)
      end)
  | Remove name =>
      if c_fail c then (Err [DriverError], s) else
      with_dir s (match fs_names s !! name with
      | Some _ => (Ok tt, set_names (delete name (fs_names s)) s)
      | None => (Err [OsErrNotExist], s)
      end)
  | OpenDir => (if c_fail c then Err [DriverError] else if dir_usable s then Ok tt else Err (no_dir s), s)
  | SyncDir =>
      if c_fail c then (Err [DriverError], s)
      else (Ok tt, MkFs (fs_dir s) (fs_dir_durable s) (fs_names s) (fs_names s) (fs_inodes s))
  | CloseDir => (if c_fail c then Err [DriverError] else Ok tt, s)
  end.

(** ** Programs *)

Inductive prog (A : Type) : Type :=
| Ret (a : A)
| Call {R : Type} (o : op R) (k : R → prog A).
Arguments Ret {_} _.
Arguments Call {_ _} _ _.

Fixpoint prog_then {A B} (p : prog A) (f : A → prog B) : prog B :=
  match p with Ret a => f a | Call o k => Call o (λ r, prog_then (k r) f) end.

(** Functions that return [(A, error)]: [x ← p; q] returns the error of [p] at once. *)
Definition IO (A : Type) : Type := prog (result A).
#[global] Instance IO_ret : MRet IO := λ A a, Ret (Ok a).
#[global] Instance IO_bind : MBind IO := λ A B f p,
  prog_then p (λ r, match r with Ok a => f a | Err e => Ret (Err e) end).

Definition call {A} (o : op (result A)) : IO A := Call o Ret.
Definition succeed {A} (a : A) : IO A := Ret (Ok a).
Definition fail {A} (e : list sentinel) : IO A := Ret (Err e).
Definition lift {A} (r : result A) : IO A := Ret r.

(** [defer]: [cleanup] runs on every way out of [p]. *)
Definition deferring {A} (p : IO A) (cleanup : prog unit) : IO A :=
  prog_then p (λ r, prog_then cleanup (λ _, Ret r)).

(** [if v, err := p; err == nil { return v } else if !errors.Is(err, target) { return err }]. *)
Definition unless_missing {A} (p q : IO A) : IO A :=
  prog_then p (λ r, match r with
  | Ok a => Ret (Ok a)
  | Err e => if errors_is e OsErrNotExist then q else fail e
  end).

(** ** encoding/base64: RawStdEncoding

    The standard alphabet has '+' and '/' where the URL-safe one has '-' and '_'. *)

Definition std_char (c : ascii) : ascii :=
  (if val c =? 45 then byte_of 43 else if val c =? 95 then byte_of 47 else c)%Z.
Definition url_char (c : ascii) : ascii :=
  (if val c =? 43 then byte_of 45 else if val c =? 47 then byte_of 95
   else if (val c =? 45) || (val c =? 95) then byte_of 61 else c)%Z.

Definition RawStd_EncodeToString (l : bytes) : string := str_of (map std_char (b64_encode l)).
Definition RawStd_DecodeString (s : string) : option bytes :=
  b64_quanta (map url_char (filter (λ c, is_newline c = false) (bytes_of s))).

(** ** Private directories and the token *)

Section Programs.
Context (windows : bool).

(** [info.Mode().Perm()&0o077 != 0], which Windows does not check. *)
Definition exposed (perm : Z) : bool := negb windows && negb (Z.land perm 63 =? 0)%Z.

Definition ValidatePrivateDirectory : IO unit :=
  info ← call Lstat_dir;
  if negb (bool_decide (info.1 = KDirectory)) then fail [PermErrUnsafeDirectory]
  else if exposed info.2 then fail [PermErrUnsafeDirectory]
  else succeed tt.

Definition EnsurePrivateDirectory : IO unit :=
  unless_missing ValidatePrivateDirectory
    (_ ← call (MkdirAll 448); ValidatePrivateDirectory).

Definition capabilityTokenBytes : nat := 32.

Definition decode_token (encoded : bytes) : result bytes :=
  match RawStd_DecodeString (trim_space (str_of encoded)) with
  | Some token => if bool_decide (length token = capabilityTokenBytes) then Ok token else Err [PermErrInvalidCapabilityToken]
  | None => Err [PermErrInvalidCapabilityToken]
  end.

Definition LoadCapabilityToken (path : string) : IO bytes :=
  _ ← ValidatePrivateDirectory;
  info ← call (Lstat path);
  if negb (bool_decide (info.1 = KRegular)) then fail [PermErrInvalidCapabilityToken]
  else if exposed info.2 then fail [PermErrInvalidCapabilityToken]
  else encoded ← call (ReadFile path);
  lift (decode_token encoded).

(** [file.WriteString]: the count is not looked at. *)
Definition write_string (file : nat) (data : bytes) : IO unit :=
  Call (Write file data) (λ r, match r.2 with Some e => fail e | None => succeed tt end).

Definition token_line (token : bytes) : bytes := bytes_of (RawStd_EncodeToString token) ++ [byte_of 10].

(** [if err := os.Link(...); errors.Is(err, os.ErrExist) { return load() }]. *)
Definition link_or_load {A} (old new : string) (load installed : IO A) : IO A :=
  Call (Link old new) (λ r, match r with
  | Err e => if errors_is e OsErrExist then load else fail e
  | Ok _ => installed
  end).

Definition LoadOrCreateCapabilityToken (path : string) : IO bytes :=
  unless_missing (LoadCapabilityToken path)
  (_ ← EnsurePrivateDirectory;
   token ← call (Random capabilityTokenBytes);
   file ← call (CreateTemp ".local-ipc-token-");
   deferring
     (_ ← call (Chmod file.2 384);
      _ ← write_string file.2 (token_line token);
      _ ← call (Sync file.2);
      _ ← call (Close file.2);
      link_or_load file.1 path (LoadCapabilityToken path) (succeed token))
     (Call (Close file.2) (λ _, Call (Remove file.1) (λ _, Ret tt)))).

(** ** The device identity *)

(** What [pem] and [x509] make of the bytes of a key. *)
Inductive private_key := Ed25519Key (key : bytes) | OtherKey.

Class KeyFormat := {
  pem_Decode : bytes → option (string * bytes) * bytes;
  pem_EncodeToMemory : string → bytes → bytes;
  ParsePKCS8PrivateKey : bytes → option private_key;
  MarshalPKCS8PrivateKey : bytes → option bytes;
  NewKeyFromSeed : bytes → bytes }.

Context `{UnicodeCase} (sha256 : bytes → bytes) {F : KeyFormat}.

Definition privateKeyPEMType : string := "COMPUTEHOP DEVICE PRIVATE KEY".

Definition GenerateIdentity : IO Identity :=
  seed ← call (Random 32);
  lift (NewIdentity sha256 (NewKeyFromSeed seed)).

Definition encode (identity : Identity) : result bytes :=
  _ ← Identity_Validate sha256 identity;
  match MarshalPKCS8PrivateKey (identity_privateKey identity) with
  | None => Err [AnonymousError]
  | Some encoded => Ok (pem_EncodeToMemory privateKeyPEMType encoded)
  end.

Definition decode_identity (contents : bytes) : result Identity :=
  match pem_Decode contents with
  | (Some (type, block), trailing) =>
      if negb (bool_decide (type = privateKeyPEMType)) || negb (bool_decide (trim_space (str_of trailing) = ""))
      then Err [DeviceErrInvalidIdentity]
      else match ParsePKCS8PrivateKey block with
      | None => Err [AnonymousError]
      | Some OtherKey => Err [DeviceErrInvalidIdentity]
      | Some (Ed25519Key key) => NewIdentity sha256 key
      end
  | (None, _) => Err [DeviceErrInvalidIdentity]
  end.

Definition Store_load (path : string) : IO Identity :=
  info ← call (Lstat path);
  if negb (bool_decide (info.1 = KRegular)) || exposed info.2 then fail [IdentityErrUnsafeFile]
  else contents ← call (ReadFile path);
  lift (decode_identity contents).

(** The loop of [writeAll]; every turn writes at least a byte, so [length contents]
    turns are enough. *)
Fixpoint writeAll (fuel : nat) (file : nat) (contents : bytes) : IO unit :=
  match contents, fuel with
  | [], _ => succeed tt
  | _, O => fail [IoErrShortWrite]
  | _, S fuel => Call (Write file contents) (λ r, match r with
      | (_, Some e) => fail e
      | (O, None) => fail [IoErrShortWrite]
      | (written, None) => writeAll fuel file (drop written contents)
      end)
  end.

Definition err_of {A} (r : result A) : list sentinel := match r with Ok _ => [] | Err e => e end.

(** [closeWithError]: the error of [p] joined with that of closing the file. *)
Definition closing_on_error (file : nat) (p : IO unit) : IO unit :=
  prog_then p (λ r, match r with
  | Ok _ => succeed tt
  | Err e => Call (Close file) (λ r, fail (e ++ err_of r))
  end).

Definition sync_directory : IO unit :=
  _ ← call OpenDir;
  Call SyncDir (λ s, Call CloseDir (λ c,
    match err_of s ++ err_of c with [] => succeed tt | e => fail e end)).

(** The part of [LoadOrCreate] that [defer os.Remove] covers. *)
Definition fill_and_install (path : string) (generated : Identity) (encoded : bytes) (temporary : string * nat) : IO Identity :=
  _ ← closing_on_error temporary.2 (call (Chmod temporary.2 384));
  _ ← closing_on_error temporary.2 (writeAll (length encoded) temporary.2 encoded);
  _ ← closing_on_error temporary.2 (call (Sync temporary.2));
  _ ← call (Close temporary.2);
  link_or_load temporary.1 path (Store_load path)
    (if windows then succeed generated else _ ← sync_directory; succeed generated).

Definition LoadOrCreate (path : string) : IO Identity :=
  unless_missing (Store_load path)
  (generated ← GenerateIdentity;
   encoded ← lift (encode generated);
   temporary ← call (CreateTemp ".device-identity-");
   deferring (fill_and_install path generated encoded temporary)
     (Call (Remove temporary.1) (λ _, Ret tt))).

End Programs.

(** ** Processes

    A machine runs any number of processes that execute the same program on one
    file.  One step of it is one call of one process. *)

Record machine (A : Type) := MkMachine { m_fs : fs; m_next : nat; m_procs : gmap nat (IO A) }.
Arguments MkMachine {_} _ _ _.
Arguments m_fs {_} _.
Arguments m_next {_} _.
Arguments m_procs {_} _.

(** A crash may lose what was not synced: the directory, entries of the directory
    and the contents of files, which may come back as anything. *)
Record outage := MkOutage { lose_dir : bool; keep_name : string → bool; junk : nat → bytes }.

Definition settle (x : outage) (i : nat) (n : inode) : inode :=
  if in_synced n then n else MkInode (in_kind n) (in_perm n) (junk x i) true (in_owner n).

Definition crash (x : outage) (s : fs) : fs :=
  let inodes := map_imap (λ i n, Some (settle x i n)) (fs_inodes s) in
  if lose_dir x && negb (fs_dir_durable s) then MkFs None false ∅ ∅ inodes
  else let names := filter (λ e, keep_name x e.1 = true) (fs_names s)
                    ∪ filter (λ e, keep_name x e.1 = false) (fs_durable s) in
  MkFs (fs_dir s) (fs_dir_durable s) names names inodes.

Inductive event := EStart | EStep (pid : nat) (c : choice) | EKill (pid : nat) | ECrash (x : outage).

Definition exec_step {A} (pid : nat) (c : choice) (p : IO A) (s : fs) : IO A * fs :=
  match p with
  | Ret a => (Ret a, s)
  | Call o k => let '(r, s') := exec pid o c s in (k r, s')
  end.

Definition machine_step {A} (program : IO A) (m : machine A) (e : event) : machine A :=
  match e with
  | EStart => MkMachine (m_fs m) (S (m_next m)) (<[m_next m:=program]> (m_procs m))
  | EStep pid c =>
      match m_procs m !! pid with
      | None => m
      | Some p => let '(p', s') := exec_step pid c p (m_fs m) in
          MkMachine s' (m_next m) (<[pid:=p']> (m_procs m))
      end
  | EKill pid => MkMachine (m_fs m) (m_next m) (delete pid (m_procs m))
  | ECrash x => MkMachine (crash x (m_fs m)) (m_next m) ∅
  end.

Definition machine_run {A} (program : IO A) (m : machine A) (l : list event) : machine A :=
  foldl (machine_step program) m l.

Definition booted {A} (s : fs) : machine A := MkMachine s 0 ∅.

(** Process [pid] has returned [v]. *)
Definition returned {A} (m : machine A) (pid : nat) (v : A) : Prop := m_procs m !! pid = Some (Ret (Ok v)).

(** ** Rely and guarantee *)

Section Rely.
Context (windows : bool) (path : string) {V : Type} (parse : bytes → result V).

(** A file the loaders accept, and the value they get from it. *)
Definition value_of (n : inode) : option V :=
  if bool_decide (in_kind n = KRegular) && negb (exposed windows (in_perm n))
  then match parse (in_data n) with Ok v => Some v | Err _ => None end else None.
Definition value_at (s : fs) : option V := n ← file_at s path; value_of n.

(** Names and inodes fit together, and a file that one of the programs installed
    is whole on the disk. *)
Record wf (s : fs) : Prop := {
  wf_path : ∀ i, fs_names s !! path = Some i → is_Some (fs_inodes s !! i);
  wf_durable : ∀ i, fs_durable s !! path = Some i → fs_names s !! path = Some i;
  wf_whole : ∀ n, file_at s path = Some n → in_owner n ≠ None → in_synced n = true ∧ is_Some (value_of n) }.

(** What no process ever changes: the file once it has its name, and that its
    entry is durable. *)
Record frozen (s s' : fs) : Prop := {
  fr_path : ∀ i, fs_names s !! path = Some i → fs_names s' !! path = Some i ∧ fs_inodes s' !! i = fs_inodes s !! i;
  fr_durable : ∀ i, fs_durable s !! path = Some i → fs_durable s' !! path = Some i;
  fr_dir : fs_dir_durable s' = fs_dir_durable s;
  fr_owner : ∀ i n, fs_inodes s !! i = Some n → ∃ n', fs_inodes s' !! i = Some n' ∧ in_owner n' = in_owner n }.

(** What a call of [pid] may do: change its own inodes and the names of them. *)
Record step_by (pid : nat) (s s' : fs) : Prop := {
  sb_frozen : frozen s s';
  sb_others : ∀ i n, in_owner n ≠ Some pid → fs_inodes s !! i = Some n ↔ fs_inodes s' !! i = Some n;
  sb_names : ∀ t i n, fs_names s !! t = Some i → fs_inodes s !! i = Some n → in_owner n ≠ Some pid →
    fs_names s' !! t = Some i;
  sb_new : ∀ i, fs_names s' !! path = Some i → fs_names s !! path = Some i ∨
    ∃ n, fs_inodes s' !! i = Some n ∧ in_owner n = Some pid }.

(** What [pid] may expect of the others. *)
Record rely (pid : nat) (s s' : fs) : Prop := {
  re_frozen : frozen s s';
  re_own : ∀ i n, in_owner n = Some pid → fs_inodes s !! i = Some n ↔ fs_inodes s' !! i = Some n;
  re_names : ∀ t i n, fs_names s !! t = Some i → fs_inodes s !! i = Some n → in_owner n = Some pid →
    fs_names s' !! t = Some i;
  re_new : ∀ i, fs_names s' !! path = Some i → fs_names s !! path = Some i ∨
    ∃ n, fs_inodes s' !! i = Some n ∧ in_owner n ≠ Some pid }.

(** From [s] on, [p] keeps to what [pid] may do, whatever the others do and the
    system decides, and when it returns its result satisfies [Q]. *)
Fixpoint guards {A} (pid : nat) (Q : A → fs → Prop) (p : prog A) (s : fs) : Prop :=
  match p with
  | Ret a => Q a s
  | Call o k => ∀ s1 c, rely pid s s1 → wf s1 →
      wf (exec pid o c s1).2 ∧ step_by pid s1 (exec pid o c s1).2 ∧
      guards pid Q (k (exec pid o c s1).1) (exec pid o c s1).2
  end.

Lemma frozen_refl s : frozen s s.
Proof. split; eauto. Qed.

Lemma frozen_trans s1 s2 s3 : frozen s1 s2 → frozen s2 s3 → frozen s1 s3.
Proof.
  intros [P1 D1 d1 O1] [P2 D2 d2 O2]. split; [|by eauto|congruence|].
  - intros i Hi. destruct (P1 i Hi) as [H1 E1]. destruct (P2 i H1) as [? E2]. split; [done|congruence].
  - intros i n Hi. destruct (O1 i n Hi) as (n1 & H1 & E1). destruct (O2 i n1 H1) as (n2 & H2 & E2).
    exists n2. split; [done|congruence].
Qed.

Lemma rely_refl pid s : rely pid s s.
Proof. split; eauto using frozen_refl; tauto. Qed.

Lemma rely_trans pid s1 s2 s3 : rely pid s1 s2 → rely pid s2 s3 → rely pid s1 s3.
Proof.
  intros [F1 O1 N1 W1] [F2 O2 N2 W2]. split; [by eapply frozen_trans|..].
  { intros i n Ho. rewrite O1, O2 by done. tauto. }
  { intros t i n Ht Hi Ho. eapply N2; [by eapply N1|by apply O1|done]. }
  intros i Hi. destruct (W2 i Hi) as [H2|]; [|by eauto]. destruct (W1 i H2) as [|(n & Hn & Ho)]; [by eauto|].
  right. destruct (fr_owner _ _ F2 i n Hn) as (n' & Hn' & E). exists n'. split; [done|congruence].
Qed.

Lemma step_by_refl pid s : step_by pid s s.
Proof. split; eauto using frozen_refl; tauto. Qed.

Lemma step_by_rely pid pid' s s' : pid ≠ pid' → step_by pid s s' → rely pid' s s'.
Proof.
  intros Hne [F O N W]. split; [done|..].
  - intros i n Ho. apply O. congruence.
  - intros t i n Ht Hi Ho. eapply N; [done..|congruence].
  - intros i Hi. destruct (W i Hi) as [|(n & Hn & Ho)]; [by left|right]. exists n. split; [done|congruence].
Qed.

Lemma guards_rely {A} pid (Q : A → fs → Prop) p s s' :
  (∀ a s s', rely pid s s' → Q a s → Q a s') → rely pid s s' → guards pid Q p s → guards pid Q p s'.
Proof.
  intros HQ Hr. destruct p as [a|R o k]; simpl; [by apply HQ|]. intros H s1 c H1. apply H. by eapply rely_trans.
Qed.

Lemma guards_then {A B} pid (M : A → fs → Prop) (Q : B → fs → Prop) p f s :
  guards pid M p s → (∀ a s', M a s' → guards pid Q (f a) s') → guards pid Q (prog_then p f) s.
Proof.
  intros Hp Hf. revert s Hp. induction p as [a|R o k IH]; simpl; intros s Hp; [by apply Hf|].
  intros s1 c H1 W1. destruct (Hp s1 c H1 W1) as (W2 & S2 & H2). split_and!; [done..|by apply IH].
Qed.

Lemma guards_mono {A} pid (Q Q' : A → fs → Prop) p s :
  (∀ a s, Q a s → Q' a s) → guards pid Q p s → guards pid Q' p s.
Proof.
  intros HQ. revert s. induction p as [a|R o k IH]; simpl; intros s Hp; [by apply HQ|].
  intros s1 c H1 W1. destruct (Hp s1 c H1 W1) as (W2 & S2 & H2). split_and!; [done..|by apply IH].
Qed.

(** ** Assertions *)

Class Stable (pid : nat) (P : fs → Prop) : Prop := stable : ∀ s s', rely pid s s' → P s → P s'.

(** [pid] has created no file yet. *)
Definition owns_nothing (pid : nat) (s : fs) : Prop := ∀ i n, fs_inodes s !! i = Some n → in_owner n ≠ Some pid.

(** The temporary file of [pid], which does not have the final name yet. *)
Record mine (pid : nat) (t : string) (i : nat) (n : inode) (s : fs) : Prop := {
  mi_other : t ≠ path;
  mi_name : fs_names s !! t = Some i;
  mi_inode : fs_inodes s !! i = Some n;
  mi_owner : in_owner n = Some pid;
  mi_hidden : fs_names s !! path ≠ Some i;
  mi_only : ∀ j n', fs_inodes s !! j = Some n' → in_owner n' = Some pid → j = i }.

(** The temporary name is still there. *)
Definition temp (pid : nat) (t : string) (s : fs) : Prop :=
  t ≠ path ∧ ∃ i n, fs_names s !! t = Some i ∧ fs_inodes s !! i = Some n ∧ in_owner n = Some pid.

(** If [pid] installed the file, its entry is durable. *)
Definition kept (pid : nat) (s : fs) : Prop :=
  ∀ i n, fs_names s !! path = Some i → fs_inodes s !! i = Some n → in_owner n = Some pid → fs_durable s !! path = Some i.

(** What a returned value says of the file; with [d], that it is durable too. *)
Definition final (d : bool) (pid : nat) (r : result V) (s : fs) : Prop :=
  ∀ v, r = Ok v → value_at s = Some v ∧ (d = true → kept pid s).

Lemma frozen_file s s' n : frozen s s' → file_at s path = Some n → file_at s' path = Some n.
Proof.
  unfold file_at. intros F. destruct (fs_names s !! path) as [i|] eqn:E; [|done]. cbn. intros Hn.
  destruct (fr_path _ _ F i E) as [-> Hi]. cbn. by rewrite Hi.
Qed.

Lemma frozen_value s s' v : frozen s s' → value_at s = Some v → value_at s' = Some v.
Proof.
  unfold value_at, file_at. intros F. destruct (fs_names s !! path) as [i|] eqn:E; [|done]. cbn.
  destruct (fr_path _ _ F i E) as [-> Hi]. cbn. by rewrite Hi.
Qed.

Lemma value_published s v : value_at s = Some v → ∃ i, fs_names s !! path = Some i.
Proof. unfold value_at, file_at. destruct (fs_names s !! path) as [i|]; [by eauto|done]. Qed.

#[global] Instance value_stable pid v : Stable pid (λ s, value_at s = Some v).
Proof. intros s s' R. apply frozen_value, R. Qed.

#[global] Instance owns_nothing_stable pid : Stable pid (owns_nothing pid).
Proof. intros s s' R H i n Hi Ho. apply (H i n); [|done]. by apply (re_own _ _ _ R). Qed.

#[global] Instance mine_stable pid t i n : Stable pid (mine pid t i n).
Proof.
  intros s s' R [T N I O H Y]. split; [done|..].
  - by eapply (re_names _ _ _ R).
  - by apply (re_own _ _ _ R).
  - done.
  - intros Hp. destruct (re_new _ _ _ R i Hp) as [|(n' & Hn' & Ho)]; [done|]. apply (re_own _ _ _ R) in I; [|done].
    congruence.
  - intros j n' Hj Ho. apply (Y j n'); [|done]. by apply (re_own _ _ _ R).
Qed.

#[global] Instance temp_stable pid t : Stable pid (temp pid t).
Proof.
  intros s s' R (T & i & n & N & I & O). split; [done|]. exists i, n.
  split_and!; [by eapply (re_names _ _ _ R)|by apply (re_own _ _ _ R)|done].
Qed.

Lemma kept_frozen pid s s' i : frozen s s' → fs_names s !! path = Some i → kept pid s → kept pid s'.
Proof.
  intros F Hi K j n Hj Hn Ho. destruct (fr_path _ _ F i Hi) as [E E']. simplify_eq.
  apply (fr_durable _ _ F). eapply K; [done| |done]. congruence.
Qed.

Lemma final_frozen d pid r s s' : frozen s s' → final d pid r s → final d pid r s'.
Proof.
  intros F H v Hv. destruct (H v Hv) as [Hval K]. split; [by eapply frozen_value|]. intros Hd.
  destruct (value_published s v Hval) as [i Hi]. eapply kept_frozen; [done..|by apply K].
Qed.

#[global] Instance final_stable d pid r : Stable pid (final d pid r).
Proof. intros s s' R. apply final_frozen, R. Qed.

#[global] Instance and_stable pid (P Q : fs → Prop) : Stable pid P → Stable pid Q → Stable pid (λ s, P s ∧ Q s).
Proof. intros HP HQ s s' R [??]. split; by eapply stable. Qed.

Lemma mine_temp pid t i n s : mine pid t i n s → temp pid t s.
Proof. intros []. split; eauto 10. Qed.

(** ** Calls *)

Definition triple {A} (pid : nat) (P : fs → Prop) (p : prog A) (Q : A → fs → Prop) : Prop :=
  ∀ s, P s → guards pid Q p s.

Lemma triple_call {A R} pid (o : op R) (k : R → prog A) P `{!Stable pid P} M Q :
  (∀ s c, P s → wf s → wf (exec pid o c s).2 ∧ step_by pid s (exec pid o c s).2 ∧ M (exec pid o c s).1 (exec pid o c s).2) →
  (∀ r, triple pid (M r) (k r) Q) → triple pid P (Call o k) Q.
Proof.
  intros Ho Hk s Hs s1 c R1 W1. destruct (Ho s1 c) as (W2 & S2 & M2); [by eapply stable|done|].
  split_and!; [done..|by apply Hk].
Qed.

(** A call that only looks. *)
Lemma triple_look {A R} pid (o : op R) (k : R → prog A) P `{!Stable pid P} M Q :
  (∀ s c, (exec pid o c s).2 = s) → (∀ s c, P s → M (exec pid o c s).1 s) →
  (∀ r, triple pid (M r) (k r) Q) → triple pid P (Call o k) Q.
Proof.
  intros Hs Ho. apply triple_call; [done|]. intros s c HP W. rewrite Hs. auto using step_by_refl.
Qed.

Lemma triple_ret {A} pid (P : fs → Prop) (a : A) Q : (∀ s, P s → Q a s) → triple pid P (Ret a) Q.
Proof. exact id. Qed.

Lemma triple_then {A B} pid P (p : prog A) (f : A → prog B) M Q :
  triple pid P p M → (∀ a, triple pid (M a) (f a) Q) → triple pid P (prog_then p f) Q.
Proof. intros Hp Hf s Hs. eapply guards_then; [by apply Hp|]. intros a s'. apply Hf. Qed.

Lemma triple_pre {A} pid (P P' : fs → Prop) (p : prog A) Q : (∀ s, P s → P' s) → triple pid P' p Q → triple pid P p Q.
Proof. intros HP H s Hs. apply H, HP, Hs. Qed.

Lemma triple_post {A} pid P (p : prog A) (Q Q' : A → fs → Prop) :
  (∀ a s, Q a s → Q' a s) → triple pid P p Q → triple pid P p Q'.
Proof. intros HQ H s Hs. eapply guards_mono; [done|by apply H]. Qed.

(** What a call does to the state of [pid]'s own file, when it does not yet have
    its final name. *)
Lemma mine_update pid t i n n' s : mine pid t i n s → wf s → in_owner n' = Some pid →
  wf (set_inode i n' s) ∧ step_by pid s (set_inode i n' s) ∧ mine pid t i n' (set_inode i n' s).
Proof.
  intros [T N I O H Y] [WP WD WW] Ho'. unfold set_inode. split_and!.
  - split; cbn; [intros j Hj|done|unfold file_at; cbn].
    + apply lookup_insert_is_Some'. right. by apply WP.
    + intros m. destruct (fs_names s !! path) as [j|] eqn:E; [|done]. cbn.
      rewrite lookup_insert_ne by congruence. intros Hm. apply (WW m). unfold file_at. by rewrite E.
  - split; cbn; [split; cbn|..]; try done; try by eauto.
    + intros j Hj. split; [done|]. rewrite lookup_insert_ne; [done|congruence].
    + intros j m Hj. destruct (decide (i = j)) as [<-|Hne].
      * exists n'. rewrite lookup_insert_eq. split; [done|congruence].
      * exists m. by rewrite lookup_insert_ne.
    + intros j m Hm. destruct (decide (i = j)) as [<-|Hne]; [|by rewrite lookup_insert_ne].
      rewrite lookup_insert_eq, I. split; congruence.
  - split; cbn; [done|done|by rewrite lookup_insert_eq|done|done|].
    intros j m. destruct (decide (i = j)) as [<-|Hne]; [done|]. rewrite lookup_insert_ne by done. apply Y.
Qed.

(** The file of [pid] under any of the calls on it. *)
Lemma triple_file {A R} pid t i n (o : op R) (k : R → prog A) M Q :
  (∀ s c, fs_inodes s !! i = Some n → ∃ n', in_owner n' = in_owner n ∧ M (exec pid o c s).1 n' ∧
     ((exec pid o c s).2 = set_inode i n' s ∨ (exec pid o c s).2 = s ∧ n' = n)) →
  (∀ r n', M r n' → triple pid (mine pid t i n') (k r) Q) → triple pid (mine pid t i n) (Call o k) Q.
Proof.
  intros Ho Hk. apply (triple_call pid o k (mine pid t i n) (λ r s, ∃ n', M r n' ∧ mine pid t i n' s)).
  - intros s c Hs W. destruct (Ho s c (mi_inode _ _ _ _ _ Hs)) as (n' & Hn & HM & [->|[-> ->]]).
    + destruct (mine_update pid t i n n' s) as (? & ? & ?); [done..| |by eauto]. rewrite Hn. by apply Hs.
    + split_and!; [done|apply step_by_refl|by eauto].
  - intros r s (n' & HM & Hs). by eapply Hk.
Qed.

Lemma set_file_mine i f n s : fs_inodes s !! i = Some n → set_file i f s = set_inode i (f n) s.
Proof. unfold set_file. by intros ->. Qed.

Definition with_perm (perm : Z) (n : inode) : inode := MkInode (in_kind n) perm (in_data n) (in_synced n) (in_owner n).
Definition with_data (data : bytes) (n : inode) : inode :=
  MkInode (in_kind n) (in_perm n) (in_data n ++ data) false (in_owner n).
Definition with_sync (n : inode) : inode := MkInode (in_kind n) (in_perm n) (in_data n) true (in_owner n).

(** Calls that change the file or fail. *)
Lemma triple_set {A} pid t i n (f : inode → inode) (o : op (result unit)) (k : _ → prog A) Q :
  in_owner (f n) = in_owner n →
  (∀ s c, exec pid o c s = if c_fail c then (Err [DriverError], s) else (Ok tt, set_file i f s)) →
  triple pid (mine pid t i (f n)) (k (Ok tt)) Q → (∀ e, triple pid (mine pid t i n) (k (Err e)) Q) →
  triple pid (mine pid t i n) (Call o k) Q.
Proof.
  intros Hf Ho Hok Herr.
  apply (triple_file _ _ _ _ _ _ (λ r n', (r = Ok tt ∧ n' = f n) ∨ (∃ e, r = Err e ∧ n' = n))).
  - intros s c Hi. rewrite Ho. destruct (c_fail c); cbn; [exists n; by eauto 10|]. exists (f n).
    rewrite (set_file_mine _ _ n) by done. eauto 10.
  - intros r n' [[-> ->]|(e & -> & ->)]; auto.
Qed.

Lemma triple_chmod {A} pid t i n perm (k : _ → prog A) Q :
  triple pid (mine pid t i (with_perm perm n)) (k (Ok tt)) Q →
  (∀ e, triple pid (mine pid t i n) (k (Err e)) Q) → triple pid (mine pid t i n) (Call (Chmod i perm) k) Q.
Proof. by apply triple_set. Qed.

Lemma triple_sync {A} pid t i n (k : _ → prog A) Q :
  triple pid (mine pid t i (with_sync n)) (k (Ok tt)) Q →
  (∀ e, triple pid (mine pid t i n) (k (Err e)) Q) → triple pid (mine pid t i n) (Call (Sync i) k) Q.
Proof. by apply triple_set. Qed.

Lemma triple_write {A} pid t i n data (k : _ → prog A) Q :
  triple pid (mine pid t i (with_data data n)) (k (length data, None)) Q →
  (∀ n' c e, triple pid (mine pid t i n') (k (c, Some e)) Q) → triple pid (mine pid t i n) (Call (Write i data) k) Q.
Proof.
  intros Hok Herr.
  apply (triple_file _ _ _ _ _ _ (λ r n', (r = (length data, None) ∧ n' = with_data data n) ∨ (∃ c e, r = (c, Some e)))).
  - intros s c Hi. cbn. rewrite (set_file_mine _ _ n) by done. eexists. split_and!; [| |by left]; [done|].
    destruct (c_fail c); eauto 10.
  - intros r n' [[-> ->]|(c & e & ->)]; auto.
Qed.

Lemma triple_close {A} pid i (P : fs → Prop) (k : _ → prog A) Q `{!Stable pid P} :
  (∀ r, triple pid P (k r) Q) → triple pid P (Call (Close i) k) Q.
Proof. intros Hk. by apply (triple_look pid _ _ P (λ _, P)). Qed.

Lemma fresh_inode_free s : fs_inodes s !! fresh_inode s = None.
Proof. unfold fresh_inode. rewrite <-(not_elem_of_dom (D:=gset nat)). exact (is_fresh (dom (D:=gset nat) (fs_inodes s))). Qed.

(** Creating the temporary file. *)
Lemma triple_create {A} pid prefix (k : _ → prog A) Q :
  (∀ suffix, (prefix ++ suffix)%string ≠ path) →
  (∀ t i, triple pid (mine pid t i (MkInode KRegular 384 [] false (Some pid))) (k (Ok (t, i))) Q) →
  (∀ e, triple pid (owns_nothing pid) (k (Err e)) Q) →
  triple pid (owns_nothing pid) (Call (CreateTemp prefix) k) Q.
Proof.
  intros Hpre Hok Herr. apply (triple_call pid _ _ (owns_nothing pid)
    (λ r s, match r with Ok (t, i) => mine pid t i (MkInode KRegular 384 [] false (Some pid)) s | Err _ => owns_nothing pid s end)).
  2: { intros [[t i]|e]; auto. }
  intros s c Hs W. cbn. unfold with_dir.
  destruct (c_fail c); [by auto using step_by_refl|]. destruct (dir_usable s); [|by auto using step_by_refl].
  destruct (fs_names s !! _) as [j|] eqn:E; [by auto using step_by_refl|]. cbn.
  set (i := fresh_inode s). set (t := (prefix ++ c_suffix c)%string) in *.
  assert (Hi : fs_inodes s !! i = None) by apply fresh_inode_free.
  assert (Hp : fs_names s !! path ≠ Some i).
  { intros Hp. destruct (wf_path _ W _ Hp) as [n Hn]. congruence. }
  assert (Ht : t ≠ path) by apply Hpre. destruct W as [WP WD WW].
  assert (HF : ∀ j, fs_names s !! path = Some j → i ≠ j) by (intros j Hj ->; congruence).
  unfold set_names, set_inode. split_and!.
  - split; cbn; rewrite ?lookup_insert_ne by done; [intros j Hj; rewrite lookup_insert_ne by auto; by apply WP|done|].
    intros n. unfold file_at. cbn. rewrite lookup_insert_ne by done. destruct (fs_names s !! path) as [j|] eqn:Ej; [|done].
    cbn. rewrite lookup_insert_ne by auto. intros Hn. apply (WW n). unfold file_at. by rewrite Ej.
  - split; [split|..]; cbn.
    + intros j Hj. rewrite !lookup_insert_ne by auto. done.
    + done.
    + done.
    + intros j n Hj. exists n. rewrite lookup_insert_ne by congruence. done.
    + intros j n Hn. destruct (decide (i = j)) as [<-|Hne]; [|by rewrite lookup_insert_ne].
      rewrite Hi, lookup_insert_eq. split; [done|]. intros [= <-]. done.
    + intros t' j n Hj Hn Ho. rewrite lookup_insert_ne by congruence. done.
    + intros j. rewrite lookup_insert_ne by done. by left.
  - split; cbn; rewrite ?lookup_insert_eq; [done..| |].
    + by rewrite lookup_insert_ne.
    + intros j n. destruct (decide (i = j)) as [<-|Hne]; [done|]. rewrite lookup_insert_ne by done.
      intros Hj Ho. by destruct (Hs j n Hj).
Qed.

#[global] Instance file_stable pid n : Stable pid (λ s, file_at s path = Some n).
Proof. intros s s' R. apply frozen_file, R. Qed.

(** Looking at the file and reading it. *)
Lemma triple_lstat {A} pid P (k : _ → prog A) Q `{!Stable pid P} :
  (∀ n, triple pid (λ s, P s ∧ file_at s path = Some n) (k (Ok (in_kind n, in_perm n))) Q) →
  (∀ e, triple pid P (k (Err e)) Q) → triple pid P (Call (Lstat path) k) Q.
Proof.
  intros Hok Herr. apply (triple_look pid _ _ P (λ r s, P s ∧
    ∀ info, r = Ok info → ∃ n, file_at s path = Some n ∧ info = (in_kind n, in_perm n))).
  - intros s c. cbn. unfold with_dir. by repeat case_match.
  - intros s c HP. split; [done|]. cbn. unfold with_dir. intros info. destruct (c_fail c); [done|]. destruct (dir_usable s); [|done].
    destruct (file_at s path) as [n|]; [|done]. intros [= <-]. eauto.
  - intros [info|e] s [HP HI]; [|by apply Herr]. destruct (HI info eq_refl) as (n & Hn & ->). by apply Hok.
Qed.

Lemma triple_readfile {A} pid P n (k : _ → prog A) Q `{!Stable pid P} :
  triple pid (λ s, P s ∧ file_at s path = Some n) (k (Ok (in_data n))) Q →
  (∀ e, triple pid P (k (Err e)) Q) → triple pid (λ s, P s ∧ file_at s path = Some n) (Call (ReadFile path) k) Q.
Proof.
  intros Hok Herr. apply (triple_look pid _ _ (λ s, P s ∧ file_at s path = Some n) (λ r s,
    P s ∧ file_at s path = Some n ∧ ∀ d, r = Ok d → d = in_data n)).
  - intros s c. cbn. unfold with_dir. by repeat case_match.
  - intros s c [HP Hn]. split_and!; [done..|]. cbn. unfold with_dir. rewrite Hn. intros d.
    destruct (c_fail c); [done|]. destruct (dir_usable s); [|done]. by intros [= <-].
  - intros [d|e] s (HP & Hn & HI); [|by apply Herr]. rewrite (HI d eq_refl). by apply Hok.
Qed.

(** Giving the finished file its name. *)
Lemma triple_link {A} pid t i n v (k : _ → prog A) Q :
  in_synced n = true → value_of n = Some v →
  triple pid (λ s, temp pid t s ∧ value_at s = Some v) (k (Ok tt)) Q →
  (∀ e, triple pid (mine pid t i n) (k (Err e)) Q) → triple pid (mine pid t i n) (Call (Link t path) k) Q.
Proof.
  intros Hsync Hv Hok Herr. apply (triple_call pid _ _ (mine pid t i n)
    (λ r s, match r with Ok _ => temp pid t s ∧ value_at s = Some v | Err _ => mine pid t i n s end)).
  2: { intros [[]|e]; auto. }
  intros s c Hs W. cbn. unfold with_dir. destruct (c_fail c); [by auto using step_by_refl|].
  destruct (dir_usable s); [|by auto using step_by_refl]. rewrite (mi_name _ _ _ _ _ Hs).
  destruct (fs_names s !! path) as [j|] eqn:E; [by auto using step_by_refl|]. cbn.
  destruct Hs as [T N I O H Y], W as [WP WD WW]. unfold set_names.
  assert (Hf : file_at (MkFs (fs_dir s) (fs_dir_durable s) (<[path:=i]> (fs_names s)) (fs_durable s) (fs_inodes s)) path = Some n).
  { unfold file_at. cbn. rewrite lookup_insert_eq. done. }
  split_and!.
  - split; cbn.
    + intros j. rewrite lookup_insert_eq. intros [= <-]. by eauto.
    + intros j Hj. apply WD in Hj. congruence.
    + intros m. rewrite Hf. intros [= <-] _. by eauto.
  - split; [split|..]; cbn; try done; try by eauto.
    + intros j. by rewrite E.
    + intros t' j m Hj Hm Ho. destruct (decide (t' = path)) as [->|]; [congruence|]. by rewrite lookup_insert_ne.
    + intros j. rewrite lookup_insert_eq. intros [= <-]. right. eauto.
  - split; [done|]. exists i, n. cbn. by rewrite lookup_insert_ne.
  - unfold value_at. rewrite Hf. done.
Qed.

(** Removing the temporary name again. *)
Lemma triple_remove {A} pid t d r (k : _ → prog A) Q :
  (∀ x, triple pid (final d pid r) (k x) Q) →
  triple pid (λ s, temp pid t s ∧ final d pid r s) (Call (Remove t) k) Q.
Proof.
  intros Hk. apply (triple_call pid _ _ (λ s, temp pid t s ∧ final d pid r s) (λ _, final d pid r)); [|done].
  intros s c [(T & i & n & N & I & O) Hfin] W. cbn. unfold with_dir. destruct (c_fail c); [by auto using step_by_refl|].
  destruct (dir_usable s); [|by auto using step_by_refl]. rewrite N. cbn.
  assert (HF : frozen s (set_names (delete t (fs_names s)) s)).
  { split; cbn; [|done|done|by eauto]. intros j Hj. by rewrite lookup_delete_ne. }
  split_and!; [|split|by eapply final_frozen].
  - destruct W as [WP WD WW]. split; unfold set_names; cbn; rewrite ?lookup_delete_ne by done; [done..|].
    intros m. unfold file_at. cbn. rewrite lookup_delete_ne by done. apply WW.
  - done.
  - done.
  - intros t' j m Hj Hm Ho. cbn. destruct (decide (t = t')) as [<-|]; [|by rewrite lookup_delete_ne].
    rewrite N in Hj. injection Hj as <-. congruence.
  - intros j. cbn. rewrite lookup_delete_ne by done. by left.
Qed.

(** Giving up leaves the temporary name to be removed and returns no value. *)
Lemma triple_abandon d pid t i n e :
  triple pid (mine pid t i n) (Ret (Err e)) (λ r s, temp pid t s ∧ final d pid r s).
Proof. apply triple_ret. intros s Hs. by split; [by eapply mine_temp|]. Qed.

Lemma kept_mine pid t i n s : mine pid t i n s → kept pid s.
Proof. intros [_ _ _ _ H Y] j m Hj Hm Ho. by rewrite (Y j m Hm Ho) in Hj. Qed.

Lemma kept_nothing pid s : owns_nothing pid s → kept pid s.
Proof. intros H j m Hj Hm Ho. by destruct (H j m Hm). Qed.

End Rely.

(** ** The token *)

Lemma std_digit c : b64_val c ≠ None →
  url_char (std_char c) = c ∧ is_newline (std_char c) = false ∧ is_space (val (std_char c)) = false ∧ (val (std_char c) < 128)%Z.
Proof. revert c. all_bytes; vm_compute; intros H; try done; by destruct H. Qed.

Lemma b64_encode_digits l : Forall (λ c, b64_val c ≠ None) (b64_encode l).
Proof.
  assert (∀ n, (0 ≤ n < 64)%Z → b64_val (b64_digit n) ≠ None) as Hd by (intros n Hn; by rewrite (proj1 (b64_digit_val n Hn))).
  induction l as [|a|a b|a b c l IH] using list_ind3; cbn [b64_encode];
    try (pose proof (val_range a)); try (pose proof (val_range b)); try (pose proof (val_range c));
    repeat constructor; try done; apply Hd; Z.to_euclidean_division_equations; lia.
Qed.

(** The line of a token reads back as the token. *)
Lemma token_line_decodes token : length token = capabilityTokenBytes → decode_token (token_line token) = Ok token.
Proof.
  intros Hlen. pose proof (b64_encode_digits token) as Hd. unfold decode_token, token_line, RawStd_EncodeToString.
  assert (Forall (λ c, is_newline c = false ∧ is_space (val c) = false ∧ (val c < 128)%Z) (map std_char (b64_encode token))) as Hc.
  { apply Forall_fmap. eapply Forall_impl; [exact Hd|]. intros c Hc. cbn. by apply std_digit. }
  rewrite bytes_of_str_of, trim_space_text.
  - unfold RawStd_DecodeString. rewrite bytes_of_str_of, filter_all by (eapply Forall_impl; [exact Hc|]; naive_solver).
    rewrite map_map. rewrite (map_ext_Forall _ id), map_id, b64_quanta_encode.
    + by rewrite bool_decide_true.
    + eapply Forall_impl; [exact Hd|]. intros c Hx. by apply std_digit.
  - apply Forall_app. split; [eapply Forall_impl; [exact Hc|]; naive_solver|]. by repeat constructor.
  - eapply Forall_impl; [exact Hc|]; naive_solver.
  - by repeat constructor.
Qed.

Lemma exposed_private windows : exposed windows 384 = false.
Proof. by destruct windows. Qed.

Lemma triple_bind {A B} path windows {V} (parse : bytes → result V) pid P (p : IO A) (f : A → IO B) M Q :
  triple windows path parse pid P p M → (∀ a, triple windows path parse pid (M (Ok a)) (f a) Q) →
  (∀ e s, M (Err e) s → Q (Err e) s) → triple windows path parse pid P (p ≫= f) Q.
Proof. intros Hp Hf He. eapply triple_then; [done|]. intros [a|e]; [apply Hf|]. apply triple_ret, He. Qed.

Section Directory.
Context (windows : bool) (path : string) {V : Type} (parse : bytes → result V).
#[local] Abbreviation tri := (triple windows path parse).
#[local] Abbreviation stays pid := (Stable path pid).

Lemma validate_triple pid P `{!stays pid P} : tri pid P (ValidatePrivateDirectory windows) (λ _, P).
Proof.
  eapply (triple_look _ _ _ pid _ _ P (λ _, P)); [|done|].
  - intros s c. cbn. by repeat case_match.
  - intros [info|e]; cbn; [|by apply triple_ret]. repeat case_match; by apply triple_ret.
Qed.

Lemma mkdir_triple {A} pid perm (k : _ → prog A) Q :
  (∀ r, tri pid (owns_nothing pid) (k r) Q) → tri pid (owns_nothing pid) (Call (MkdirAll perm) k) Q.
Proof.
  intros Hk. apply (triple_call _ _ _ pid _ _ (owns_nothing pid) (λ _, owns_nothing pid)); [|done].
  intros s c Hs W. cbn. destruct (c_fail c); [by auto using step_by_refl|].
  destruct (fs_dir s); cbn; [by auto using step_by_refl|]. split_and!; [|split; [split|..]|done]; cbn; try done; try by eauto.
  by destruct W.
Qed.

Lemma ensure_triple pid :
  tri pid (owns_nothing pid) (EnsurePrivateDirectory windows) (λ _, owns_nothing pid).
Proof.
  eapply triple_then; [by apply (validate_triple pid (owns_nothing pid))|].
  intros [[]|e]; cbn; [by apply triple_ret|]. destruct (errors_is e OsErrNotExist); [|by apply triple_ret].
  apply mkdir_triple. intros [[]|e']; cbn; [|by apply triple_ret]. by apply (validate_triple pid (owns_nothing pid)).
Qed.

End Directory.

Section Token.
Context (windows : bool) (path : string).
Context (Hpath : ∀ suffix, (".local-ipc-token-" ++ suffix)%string ≠ path).

#[local] Abbreviation tri := (triple windows path decode_token).
#[local] Abbreviation value := (value_at windows path decode_token).
#[local] Abbreviation stays pid := (Stable path pid).

Lemma load_token_triple pid P `{!stays pid P} :
  tri pid P (LoadCapabilityToken windows path) (λ r s, P s ∧ ∀ v, r = Ok v → value s = Some v).
Proof.
  eapply triple_bind; [by apply validate_triple| |done]. intros []. cbn. apply triple_lstat; [done| |].
  - intros n. cbn. destruct (bool_decide (in_kind n = KRegular)) eqn:Ek; cbn; [|by apply triple_ret; intros s [??]].
    destruct (exposed windows (in_perm n)) eqn:Ep; cbn; [by apply triple_ret; intros s [??]|].
    apply triple_readfile; [done| |intros e; by apply triple_ret].
    cbn. apply triple_ret. intros s [HP Hn]. split; [done|]. intros v Hv. unfold value_at, value_of. rewrite Hn. cbn.
    by rewrite Ek, Ep, Hv.
  - intros e. by apply triple_ret.
Qed.

(** What every creator of the token does. *)
Lemma token_triple pid :
  tri pid (owns_nothing pid) (LoadOrCreateCapabilityToken windows path) (final windows path decode_token false pid).
Proof.
  eapply triple_then; [by apply (load_token_triple pid (owns_nothing pid))|]. intros [v|e]; cbv beta iota.
  { apply triple_ret. intros s [_ H] v' Hv'. by split; [apply H|]. }
  destruct (errors_is e OsErrNotExist); [|by apply triple_ret].
  eapply triple_pre; [intros s [H _]; exact H|].
  eapply triple_bind; [by apply ensure_triple| |done]. intros [].
  apply (triple_look _ _ _ pid _ _ (owns_nothing pid)
    (λ r s, owns_nothing pid s ∧ ∀ token, r = Ok token → length token = capabilityTokenBytes)).
  { intros s c. cbn. by destruct (c_fail c). }
  { intros s c Hs. split; [done|]. cbn. destruct (c_fail c); [done|]. intros token [= <-]. apply length_resize. }
  intros [token|e']; cbn -[deferring]; [|by apply triple_ret].
  intros s [Hs Hlen]. specialize (Hlen token eq_refl). revert s Hs. apply triple_create; [done| |intros e'; by apply triple_ret].
  intros t i. cbv beta iota. unfold deferring. eapply (triple_then _ _ _ _ _ _ _
    (λ r s, temp path pid t s ∧ final windows path decode_token false pid r s)).
  - cbn -[LoadCapabilityToken token_line]. apply triple_chmod; [|intros e'; apply triple_abandon]. cbn -[LoadCapabilityToken token_line].
    apply triple_write; [|intros n' c e'; apply triple_abandon]. cbn -[LoadCapabilityToken token_line].
    apply triple_sync; [|intros e'; apply triple_abandon]. cbn -[LoadCapabilityToken token_line].
    apply triple_close; [apply _|]. intros [[]|e']; [|apply triple_abandon]. cbn -[LoadCapabilityToken token_line].
    eapply triple_link; [done| | |].
    + unfold value_of. cbn. rewrite exposed_private, token_line_decodes by done. done.
    + apply triple_ret. intros s [Ht Hv]. split; [done|]. intros v [= <-]. done.
    + intros e'. destruct (errors_is e' OsErrExist); [|apply triple_abandon].
      eapply triple_post; [|apply load_token_triple; apply _]. intros r s [Hm Hv].
      split; [by eapply mine_temp|]. intros v Hr. by split; [apply Hv|].
  - intros r. cbn. apply triple_close; [apply _|]. intros _. apply triple_remove. intros _. by apply triple_ret.
Qed.

End Token.

(** ** Soundness: from programs to machines *)

Section Machine.
Context (windows : bool) (path : string) {V : Type} (parse : bytes → result V) (d : bool) (program : IO V).
Context (Hprogram : ∀ pid, triple windows path parse pid (owns_nothing pid) program (final windows path parse d pid)).

Record sound (m : machine V) : Prop := {
  so_wf : wf windows path parse (m_fs m);
  so_owners : ∀ i n pid, fs_inodes (m_fs m) !! i = Some n → in_owner n = Some pid → pid < m_next m;
  so_started : ∀ pid p, m_procs m !! pid = Some p → pid < m_next m;
  so_procs : ∀ pid p, m_procs m !! pid = Some p → guards windows path parse pid (final windows path parse d pid) p (m_fs m) }.

(** An installed file was synced before it got its name, so a crash cannot tear it. *)
Lemma crash_file x s n : wf windows path parse s → file_at (crash x s) path = Some n →
  ∃ n', file_at s path = Some n' ∧ in_owner n' = in_owner n ∧ (in_owner n ≠ None → n = n').
Proof.
  intros [WP WD WW]. unfold file_at, crash. destruct (lose_dir x && _); cbn; [by rewrite lookup_empty|].
  intros (i & Hi & Hn)%bind_Some. rewrite map_lookup_imap in Hn. apply bind_Some in Hn as (n' & Hn' & [= <-]).
  assert (fs_names s !! path = Some i) as Hp.
  { apply lookup_union_Some_raw in Hi as [Hi|[_ Hi]]; apply map_lookup_filter_Some in Hi as [Hi _]; [done|by apply WD]. }
  exists n'. rewrite Hp. cbn. split_and!; [done|unfold settle; by case_match|]. intros Ho. unfold settle.
  destruct (WW n') as [-> _]; [unfold file_at; by rewrite Hp| |done]. unfold settle in Ho. by case_match.
Qed.

Lemma wf_crash x s : wf windows path parse s → wf windows path parse (crash x s).
Proof.
  intros W. split.
  - intros i. unfold crash. destruct (lose_dir x && _); cbn; [by rewrite lookup_empty|]. intros Hi.
    assert (fs_names s !! path = Some i) as Hp.
    { apply lookup_union_Some_raw in Hi as [Hi|[_ Hi]]; apply map_lookup_filter_Some in Hi as [Hi _]; [done|by apply W]. }
    destruct (wf_path _ _ _ _ W i Hp) as [n Hn]. rewrite map_lookup_imap, Hn. by eexists.
  - intros i. unfold crash. by destruct (lose_dir x && _).
  - intros n Hn Ho. destruct (crash_file x s n W Hn) as (n' & Hn' & Eo & E). rewrite (E Ho). apply (wf_whole _ _ _ _ W); [done|].
    by rewrite Eo.
Qed.

Lemma crash_inode x s i n : fs_inodes (crash x s) !! i = Some n → ∃ n', fs_inodes s !! i = Some n' ∧ in_owner n' = in_owner n.
Proof.
  unfold crash. destruct (lose_dir x && _); cbn; rewrite map_lookup_imap; intros (n' & Hn' & [= <-])%bind_Some;
    exists n'; split; try done; unfold settle; by case_match.
Qed.

Lemma sound_step m e : sound m → sound (machine_step program m e).
Proof.
  intros [W O T P]. destruct e as [|pid c|pid|x]; cbn.
  - split; cbn; [done|intros i n pid Hi Ho; specialize (O i n pid Hi Ho); lia|..].
    { intros pid p [[<- _]|[_ Hp%T]]%lookup_insert_Some; lia. }
    intros pid p. destruct (decide (pid = m_next m)) as [->|Hne]; [|rewrite lookup_insert_ne by done; apply P].
    rewrite lookup_insert_eq. intros [= <-]. apply Hprogram. intros i n Hi Ho. specialize (O i n _ Hi Ho). lia.
  - destruct (m_procs m !! pid) as [p|] eqn:Ep; [|done]. pose proof (P pid p Ep) as Hg.
    destruct p as [a|R o k]; cbn.
    { split; cbn; [done..| |]; [by intros pid' p [[<- _]|[_ ?%T]]%lookup_insert_Some; [by eapply T|]|].
      intros pid' p. destruct (decide (pid' = pid)) as [->|Hne].
      - rewrite lookup_insert_eq. intros [= <-]. exact Hg.
      - rewrite lookup_insert_ne by done. apply P. }
    destruct (Hg (m_fs m) c (rely_refl _ _ _) W) as (W' & S' & Hg'). destruct (exec pid o c (m_fs m)) as [r s'] eqn:Ex. cbn in *.
    split; cbn; [done|..].
    + intros i n pid' Hi Ho. destruct (decide (pid' = pid)) as [->|Hne].
      * by eapply T.
      * apply (O i n pid'); [|done]. apply (sb_others _ _ _ _ S'); [congruence|done].
    + by intros pid' p [[<- _]|[_ ?%T]]%lookup_insert_Some; [by eapply T|].
    + intros pid' p. destruct (decide (pid' = pid)) as [->|Hne].
      * rewrite lookup_insert_eq. by intros [= <-].
      * rewrite lookup_insert_ne by done. intros Hp. eapply guards_rely; [..|by apply P]; [by intros a s1 s2; apply final_stable|].
        by eapply step_by_rely.
  - split; cbn; [done..| |]; intros pid' p [_ Hp]%lookup_delete_Some; [by eapply T|by apply P].
  - split; cbn; [by apply wf_crash| |done..]. intros i n pid Hn Ho. apply crash_inode in Hn as (n' & Hn' & E).
    apply (O i n' pid Hn'). congruence.
Qed.

Lemma sound_run m l : sound m → sound (machine_run program m l).
Proof. revert m. induction l as [|e l IH]; intros m Hm; [done|]. by apply IH, sound_step. Qed.

(** A directory that none of the processes has worked in. *)
Record untouched (s : fs) : Prop := {
  un_owners : ∀ i n, fs_inodes s !! i = Some n → in_owner n = None;
  un_path : ∀ i, fs_names s !! path = Some i → is_Some (fs_inodes s !! i);
  un_durable : ∀ i, fs_durable s !! path = Some i → fs_names s !! path = Some i }.

Lemma sound_booted s : untouched s → sound (booted s).
Proof.
  intros [O P D]. split; cbn; [split; [done..|]| |done..].
  - intros n (i & _ & Hn)%bind_Some Ho. by rewrite (O i n Hn) in Ho.
  - intros i n pid Hi. by rewrite (O i n Hi).
Qed.

(** Returned values are the value of the file. *)
Lemma sound_returned m pid v : sound m → returned m pid v → value_at windows path parse (m_fs m) = Some v.
Proof. intros [_ _ _ P] Hr. by destruct (P pid _ Hr v eq_refl). Qed.

(** In a directory that was empty, every file of the name can be loaded. *)
Lemma owned_step m e : sound m → (∀ i n, fs_inodes (m_fs m) !! i = Some n → in_owner n ≠ None) →
  ∀ i n, fs_inodes (m_fs (machine_step program m e)) !! i = Some n → in_owner n ≠ None.
Proof.
  intros [W O T P] H. destruct e as [|pid c|pid|x]; cbn; [done| |done|].
  - destruct (m_procs m !! pid) as [[a|R o k]|] eqn:Ep; [done| |done]. cbn.
    destruct (P pid _ Ep (m_fs m) c (rely_refl _ _ _) W) as (_ & S' & _). destruct (exec pid o c (m_fs m)) as [r s']. cbn in *.
    intros i n Hi Ho. apply (sb_others _ _ _ _ S') in Hi; [by apply (H i n)|congruence].
  - intros i n (n' & Hn' & E)%crash_inode. rewrite <-E. by apply (H i n').
Qed.

Lemma owned_run m l : sound m → (∀ i n, fs_inodes (m_fs m) !! i = Some n → in_owner n ≠ None) →
  ∀ i n, fs_inodes (m_fs (machine_run program m l)) !! i = Some n → in_owner n ≠ None.
Proof.
  revert m. induction l as [|e l IH]; intros m Hm Ho; [done|]. apply IH; [by apply sound_step|by apply owned_step].
Qed.

(** The three promises of a program that keeps to its guarantee: those who return
    agree, on the value of the file; a file made from nothing is never torn. *)
Lemma creators_agree s l : untouched s → let m := machine_run program (booted s) l in
  (∀ p q v w, returned m p v → returned m q w → v = w) ∧
  (∀ p v, returned m p v → value_at windows path parse (m_fs m) = Some v) ∧
  (fs_inodes s = ∅ → ∀ n, file_at (m_fs m) path = Some n → is_Some (value_of windows parse n)).
Proof.
  intros Hs m. assert (sound m) as Hm by by apply sound_run, sound_booted. split_and!.
  - intros p q v w Hp%sound_returned Hq%sound_returned; [congruence|done..].
  - intros p v. by apply sound_returned.
  - intros He n Hn. apply (wf_whole _ _ _ _ (so_wf _ Hm) n Hn). apply bind_Some in Hn as (i & _ & Hn).
    eapply owned_run; [by apply sound_booted| |exact Hn]. cbn. rewrite He. intros j n'. by rewrite lookup_empty.
Qed.

Lemma dir_step m e : sound m → fs_dir_durable (m_fs m) = true → fs_dir_durable (m_fs (machine_step program m e)) = true.
Proof.
  intros [W O T P] Hd. destruct e as [|pid c|pid|x]; cbn; [done| |done|].
  - destruct (m_procs m !! pid) as [[a|R o k]|] eqn:Ep; [done| |done]. cbn.
    destruct (P pid _ Ep (m_fs m) c (rely_refl _ _ _) W) as (_ & S' & _). destruct (exec pid o c (m_fs m)) as [r s']. cbn in *.
    by rewrite (fr_dir _ _ _ (sb_frozen _ _ _ _ S')).
  - unfold crash. by rewrite Hd, andb_false_r.
Qed.
Lemma dir_run m l : sound m → fs_dir_durable (m_fs m) = true → fs_dir_durable (m_fs (machine_run program m l)) = true.
Proof. revert m. induction l as [|e l IH]; intros m Hm Hd; [done|]. apply IH; [by apply sound_step|by apply dir_step]. Qed.

(** A durable file of the name never changes again, not even in a crash, unless the crash
    loses the directory itself. *)
Record permanent (v : V) (s : fs) : Prop := {
  pe_durable : ∃ i n, fs_durable s !! path = Some i ∧ fs_inodes s !! i = Some n ∧ in_owner n ≠ None;
  pe_value : value_at windows path parse s = Some v }.

(** Crashes that lose the directory only if its own entry was never synced. *)
Definition keeps_directory (durable : bool) (e : event) : Prop := ∀ x, e = ECrash x → lose_dir x = true → durable = true.

Lemma permanent_step m e v : sound m → keeps_directory (fs_dir_durable (m_fs m)) e → permanent v (m_fs m) →
  permanent v (m_fs (machine_step program m e)).
Proof.
  intros [W O T P] Hk H. destruct e as [|pid c|pid|x]; cbn; [done| |done|].
  - destruct (m_procs m !! pid) as [[a|R o k]|] eqn:Ep; [done| |done]. cbn.
    destruct (P pid _ Ep (m_fs m) c (rely_refl _ _ _) W) as (_ & S' & _). destruct (exec pid o c (m_fs m)) as [r s']. cbn in *.
    destruct H as [(i & n & Hi & Hn & Ho) Hv], (sb_frozen _ _ _ _ S') as [Fp Fd Fr Fo].
    split; [|by apply (frozen_value _ _ _ (m_fs m))].
    destruct (Fo i n Hn) as (n' & Hn' & E). exists i, n'. split_and!; [by apply Fd|done|congruence].
  - destruct H as [(i & n & Hi & Hn & Ho) Hv]. pose proof (wf_durable _ _ _ _ W i Hi) as Hp.
    assert (lose_dir x && negb (fs_dir_durable (m_fs m)) = false) as Hd.
    { destruct (lose_dir x) eqn:El; [|done]. by rewrite (Hk x eq_refl El). }
    assert (Hf : file_at (m_fs m) path = Some n) by (unfold file_at; by rewrite Hp).
    destruct (wf_whole _ _ _ _ W n Hf Ho) as [Hs _].
    assert (fs_names (crash x (m_fs m)) !! path = Some i ∧ fs_durable (crash x (m_fs m)) !! path = Some i
      ∧ fs_inodes (crash x (m_fs m)) !! i = Some n) as (Hp' & Hd' & Hn').
    { unfold crash. rewrite Hd. cbn. rewrite map_lookup_imap, Hn. cbn. unfold settle. rewrite Hs.
      assert (∀ N D : gmap string nat, N !! path = Some i → D !! path = Some i →
        (filter (λ e, keep_name x e.1 = true) N ∪ filter (λ e, keep_name x e.1 = false) D) !! path = Some i) as HU.
      { intros N D HN HD. destruct (keep_name x path) eqn:E.
        - apply lookup_union_Some_l, map_lookup_filter_Some. done.
        - rewrite lookup_union_r; [by apply map_lookup_filter_Some|]. apply map_lookup_filter_None. right.
          intros j _. cbn. by rewrite E. }
      by rewrite HU. }
    split; [by exists i, n|]. unfold value_at, file_at in *. rewrite Hp', Hp in *. cbn in *. rewrite Hn', Hn in *. done.
Qed.

Lemma permanent_run m l v durable : sound m → (durable = true → fs_dir_durable (m_fs m) = true) → Forall (keeps_directory durable) l →
  permanent v (m_fs m) → permanent v (m_fs (machine_run program m l)).
Proof.
  revert m. induction l as [|e l IH]; intros m Hm Hd Hk H; [done|]. apply Forall_cons in Hk as [He Hk].
  apply IH; [by apply sound_step|intros E; apply dir_step; auto|done|]. apply permanent_step; [done| |done].
  intros x E Hx. by eapply Hd, He.
Qed.

End Machine.

(** ** The identity *)

(** PEM and PKCS #8 read back what they wrote; an Ed25519 key is determined by its seed. *)
Class KeyFormatLaws (F : KeyFormat) : Prop := {
  pem_roundtrip : ∀ type block, pem_Decode (pem_EncodeToMemory type block) = (Some (type, block), []);
  pkcs8_roundtrip : ∀ seed der, length seed = 32 → MarshalPKCS8PrivateKey (NewKeyFromSeed seed) = Some der →
    ParsePKCS8PrivateKey der = Some (Ed25519Key (NewKeyFromSeed seed)) }.

Section Identity.
Context (windows : bool) (path : string) `{UnicodeCase} (sha256 : bytes → bytes) {F : KeyFormat} `{!KeyFormatLaws F}.
Context (Hpath : ∀ suffix, (".device-identity-" ++ suffix)%string ≠ path).

#[local] Abbreviation parse := (decode_identity sha256).
#[local] Abbreviation tri := (triple windows path parse).

(** An encoded identity reads back as the identity. *)
Lemma encode_decodes seed identity encoded : length seed = 32 →
  NewIdentity sha256 (NewKeyFromSeed seed) = Ok identity → encode sha256 identity = Ok encoded →
  decode_identity sha256 encoded = Ok identity.
Proof.
  intros Hseed Hid He. unfold encode in He. apply result_bind_ok in He as (? & _ & He).
  assert (identity_privateKey identity = NewKeyFromSeed seed) as E.
  { unfold NewIdentity in Hid. by invert_ok Hid. }
  rewrite E in He. destruct (MarshalPKCS8PrivateKey _) as [der|] eqn:Em; [|done]. injection He as <-.
  unfold decode_identity. rewrite pem_roundtrip, bool_decide_true by done.
  rewrite (bool_decide_true (trim_space _ = "")) by done. cbn. by rewrite (pkcs8_roundtrip seed der).
Qed.

Lemma load_identity_triple pid P `{!Stable path pid P} :
  tri pid P (Store_load windows sha256 path) (λ r s, P s ∧ ∀ v, r = Ok v → value_at windows path parse s = Some v).
Proof.
  apply triple_lstat; [done| |]; cbn -[decode_identity].
  - intros n. destruct (bool_decide (in_kind n = KRegular)) eqn:Ek; cbn -[decode_identity]; [|by apply triple_ret; intros s [??]].
    destruct (exposed windows (in_perm n)) eqn:Ep; cbn -[decode_identity]; [by apply triple_ret; intros s [??]|].
    apply triple_readfile; [done| |intros e; by apply triple_ret].
    apply triple_ret. intros s [HP Hn]. split; [done|]. intros v Hv. unfold value_at, value_of. rewrite Hn. cbn -[decode_identity].
    by rewrite Ek, Ep, Hv.
  - intros e. by apply triple_ret.
Qed.

(** The whole of [contents] is in the file when [writeAll] succeeds: [length contents]
    turns are enough. *)
Lemma writeAll_triple pid t i n contents :
  tri pid (mine path pid t i n) (writeAll (length contents) i contents)
    (λ r s, ∃ n', mine path pid t i n' s ∧ (r = Ok tt → in_kind n' = in_kind n ∧ in_perm n' = in_perm n
       ∧ in_owner n' = in_owner n ∧ in_data n' = in_data n ++ contents)).
Proof.
  destruct contents as [|b contents]; cbn [length writeAll].
  { apply triple_ret. intros s Hs. exists n. by rewrite app_nil_r. }
  apply triple_write; [|intros n' [|c] e s Hs; cbn; exists n'; by split]. cbv beta iota. cbn [length].
  change (drop _ _) with (drop (length contents) contents). rewrite drop_ge by done.
  destruct (length contents); apply triple_ret; intros s Hs; eexists; by split; [exact Hs|].
Qed.

(** The error path closes the file. *)
Lemma closing_triple pid t i P p M :
  tri pid P p M → (∀ e s, M (Err e) s → ∃ n, mine path pid t i n s) →
  tri pid P (closing_on_error i p) (λ r s, match r with Ok a => M (Ok tt) s | Err _ => ∃ n, mine path pid t i n s end).
Proof.
  intros Hp He. eapply triple_then; [exact Hp|]. intros [[]|e]; [by apply triple_ret|].
  intros s [n Hn]%He. eapply (triple_close _ _ _ pid i (mine path pid t i n)); [apply _| |exact Hn].
  intros r. apply triple_ret. by eauto.
Qed.

#[local] Abbreviation settled pid t := (λ r s, temp path pid t s ∧ final windows path parse (negb windows) pid r s).

Lemma abandon_identity pid t i e s n : mine path pid t i n s → settled pid t (Err e : result Identity) s.
Proof. intros Hn. by split; [by eapply mine_temp|]. Qed.

(** Syncing the directory makes the installed file durable. *)
Lemma sync_directory_triple pid t (identity : Identity) :
  tri pid (λ s, temp path pid t s ∧ value_at windows path parse s = Some identity)
    (if windows then succeed identity else _ ← sync_directory; succeed identity) (settled pid t).
Proof.
  destruct (windows) eqn:Ew; [apply triple_ret; intros s [Ht Hv]; split; [done|]; by intros v [= <-]|].
  set (P := λ s, temp path pid t s ∧ value_at false path parse s = Some identity).
  assert (Stable path pid P) as HP by apply _.
  cbn -[decode_identity]. apply (triple_look _ _ _ pid _ _ P (λ _, P)); [done..|]. intros [[]|e]; cbn -[decode_identity].
  2: { apply triple_ret. intros s [Ht _]. by split. }
  apply (triple_call _ _ _ pid _ _ P (λ r s, P s ∧ (err_of r = [] → kept path pid s))).
  { intros s c Hs W. cbn -[decode_identity]. destruct (c_fail c); cbn -[decode_identity].
    { split; [done|]. split; [apply step_by_refl|by split]. }
    split; [by destruct W|]. split; [split; [split|..]; cbn; try done; try by eauto|split].
    - intros i Hi. by apply (wf_durable _ _ _ _ W).
    - exact Hs.
    - intros _ i n Hi _ _. exact Hi. }
  intros r. intros s [HPs Hk] s1 c R1 W1. cbn -[decode_identity].
  split_and!; [done|apply step_by_refl|].
  assert (P s1 ∧ (err_of r = [] → kept path pid s1)) as [[Ht1 Hv1] Hk1].
  { split; [by eapply stable|]. intros Hr. destruct (value_published _ _ _ _ _ (proj2 HPs)) as [i Hi].
    eapply kept_frozen; [apply R1|done|by apply Hk]. }
  destruct (err_of r ++ _) eqn:Er; cbn; (split; [done|]); [|done]. intros v [= <-]. split; [done|]. intros _. apply Hk1.
  by apply app_eq_nil in Er as [-> _].
Qed.

Lemma install_triple pid t i n identity :
  in_synced n = true → value_of windows parse n = Some identity →
  tri pid (mine path pid t i n) (link_or_load t path (Store_load windows sha256 path)
    (if windows then succeed identity else _ ← sync_directory; succeed identity)) (settled pid t).
Proof.
  intros Hs Hv. eapply triple_link; [done|exact Hv|apply sync_directory_triple|]. intros e. cbv beta iota.
  destruct (errors_is e OsErrExist); [|apply triple_abandon].
  eapply triple_post; [|apply (load_identity_triple pid (mine path pid t i n)); apply _].
  intros r s [Hm Hr]. split; [by eapply mine_temp|]. intros v E. split; [by apply Hr|]. intros _. by eapply kept_mine.
Qed.

Lemma fill_triple pid t i identity encoded : decode_identity sha256 encoded = Ok identity →
  tri pid (mine path pid t i (MkInode KRegular 384 [] false (Some pid)))
    (fill_and_install windows sha256 path identity encoded (t, i)) (settled pid t).
Proof.
  intros Hdec. set (n0 := MkInode KRegular 384 [] false (Some pid)). unfold fill_and_install. cbn [fst snd].
  eapply triple_bind; [apply (closing_triple pid t i _ _ (λ r s, match r with Ok _ => mine path pid t i n0 s | Err _ => ∃ n, mine path pid t i n s end))| |].
  { apply triple_chmod; [by apply triple_ret|]. intros e'. apply triple_ret. by eauto. }
  { done. }
  2: { intros e' s [n Hn]. by eapply abandon_identity. }
  intros []. eapply triple_bind; [apply (closing_triple pid t i _ _ _ (writeAll_triple pid t i n0 encoded))| |].
  { intros e' s (n & Hn & _). by eauto. }
  2: { intros e' s [n Hn]. by eapply abandon_identity. }
  intros [] s (n & Hn & Hw). destruct (Hw eq_refl) as (Hk & Hp & Ho & Hd). revert s Hn. clear Hw.
  match goal with |- ∀ s, _ → guards _ _ _ _ _ ?p s => change (tri pid (mine path pid t i n) p (settled pid t)) end.
  eapply triple_bind; [apply (closing_triple pid t i _ _ (λ r s, match r with Ok _ => mine path pid t i (with_sync n) s | Err _ => ∃ n, mine path pid t i n s end))| |].
  { apply triple_sync; [by apply triple_ret|]. intros e'. apply triple_ret. by eauto. }
  { done. }
  2: { intros e' s' [n' Hn']. by eapply abandon_identity. }
  intros []. apply (triple_close _ _ _ pid i (mine path pid t i (with_sync n))); [apply _|].
  intros [[]|e']; [|apply triple_abandon].
  apply install_triple; [done|]. unfold value_of. cbn -[decode_identity]. rewrite Hk, Hp, Hd. cbn -[decode_identity].
  by rewrite exposed_private, Hdec.
Qed.

Lemma generate_triple pid : tri pid (owns_nothing pid) (GenerateIdentity sha256) (λ r s, owns_nothing pid s ∧
  ∀ identity, r = Ok identity → ∃ seed, length seed = 32 ∧ NewIdentity sha256 (NewKeyFromSeed seed) = Ok identity).
Proof.
  apply (triple_look _ _ _ pid _ _ (owns_nothing pid) (λ r s, owns_nothing pid s ∧ ∀ seed, r = Ok seed → length seed = 32)).
  - intros s c. cbn. by destruct (c_fail c).
  - intros s c Hs. split; [done|]. cbn. destruct (c_fail c); [done|]. intros seed [= <-]. apply length_resize.
  - intros [seed|e']; apply triple_ret; intros s [Hs Hl]; (split; [done|]); [|done]. intros identity E. eauto.
Qed.

(** What every process that loads or creates the identity does. *)
Lemma identity_triple pid :
  tri pid (owns_nothing pid) (LoadOrCreate windows sha256 path) (final windows path parse (negb windows) pid).
Proof.
  eapply triple_then; [apply (load_identity_triple pid (owns_nothing pid))|]. intros [v|e]; cbv beta iota.
  { apply triple_ret. intros s [Ho Hr] v' E. split; [by apply Hr|]. intros _. by apply kept_nothing. }
  destruct (errors_is e OsErrNotExist); [|by apply triple_ret].
  eapply triple_pre; [intros s [Ho _]; exact Ho|].
  eapply triple_bind; [apply generate_triple| |done].
  intros identity s [Hs Hid]. destruct (Hid identity eq_refl) as (seed & Hseed & Hnew).
  destruct (encode sha256 identity) as [encoded|e'] eqn:Ee; [|done].
  pose proof (encode_decodes seed identity encoded Hseed Hnew Ee) as Hdec. revert s Hs.
  apply triple_create; [done| |intros e'; by apply triple_ret]. intros t i. cbv beta iota. unfold deferring.
  eapply (triple_then _ _ _ _ _ _ _ (settled pid t)); [by apply fill_triple|].
  intros r. apply triple_remove. intros _. by apply triple_ret.
Qed.

End Identity.

(** ** Properties *)

(** C22 Processes that load or create the local token at the same time agree: in any
    interleaving of their file-system calls, with any of them failing or processes
    killed at any point and the machine crashing, every process that returned a
    token returned the one in the file, and in a directory that was empty the file is
    never found half-written. *)
Theorem token_agreed (windows : bool) (path : string) (s : fs) (l : list event) :
  (∀ suffix, (".local-ipc-token-" ++ suffix)%string ≠ path) → untouched path s →
  let m := machine_run (LoadOrCreateCapabilityToken windows path) (booted s) l in
  (∀ p q v w, returned m p v → returned m q w → v = w) ∧
  (∀ p v, returned m p v → value_at windows path decode_token (m_fs m) = Some v) ∧
  (fs_inodes s = ∅ → ∀ n, file_at (m_fs m) path = Some n → is_Some (value_of windows decode_token n)).
Proof. intros Hpath Hs. eapply creators_agree; [|done]. intros pid. by apply token_triple. Qed.

(** The start of the daemon: it secures the state directory, which it creates at the first
    start, and then loads or creates the identity. *)
Definition startup_identity `{UnicodeCase} {F : KeyFormat} (windows : bool) (sha256 : bytes → bytes) (path : string) : IO Identity :=
  _ ← EnsurePrivateDirectory windows; LoadOrCreate windows sha256 path.

(** [pid] created the file that has the name. *)
Definition installed_by (path : string) (s : fs) (pid : nat) : Prop :=
  ∃ n, file_at s path = Some n ∧ in_owner n = Some pid.

(** C23 The device keeps its identity: on Unix, once the process that created the
    identity file has returned, no process ever returns another identity, whatever
    calls fail and whatever processes are killed, and whatever crashes happen
    afterwards, as long as no crash loses the state directory itself.  A crash can do that
    only while the entry of that directory in its parent was never synced, which the
    daemon does not do after creating it. *)
Theorem identity_permanent `{UnicodeCase} (sha256 : bytes → bytes) (F : KeyFormat) (L : KeyFormatLaws F)
    (path : string) (s : fs) (l l' : list event) (pid q : nat) (v w : Identity) :
  (∀ suffix, (".device-identity-" ++ suffix)%string ≠ path) → untouched path s → Forall (keeps_directory (fs_dir_durable s)) l' →
  let program := startup_identity false sha256 path in
  let m := machine_run program (booted s) l in
  returned m pid v → installed_by path (m_fs m) pid →
  value_at false path (decode_identity sha256) (m_fs (machine_run program m l')) = Some v ∧
  (returned (machine_run program m l') q w → w = v).
Proof.
  intros Hpath Hs Hd program m Hr (n & Hn & Ho).
  assert (∀ pid, triple false path (decode_identity sha256) pid (owns_nothing pid) program
    (final false path (decode_identity sha256) true pid)) as Hprog.
  { intros p. eapply triple_bind; [apply ensure_triple| |done]. intros []. by apply (identity_triple false). }
  assert (sound false path (decode_identity sha256) true m) as Hm by by apply sound_run, sound_booted.
  assert (permanent false path (decode_identity sha256) v (m_fs m)) as Hp.
  { destruct (so_procs _ _ _ _ _ Hm pid _ Hr v eq_refl) as [Hv Hk]. apply bind_Some in Hn as (i & Hi & Hn).
    split; [exists i, n; split_and!; [by eapply Hk|done|congruence]|done]. }
  assert (permanent false path (decode_identity sha256) v (m_fs (machine_run program m l'))) as [_ Hv].
  { eapply permanent_run; [exact Hprog|done| |exact Hd|done]. intros E. eapply dir_run; [exact Hprog|by apply sound_booted|done]. }
  split; [done|].
  intros Hw. eapply sound_returned in Hw; [|by apply sound_run]. congruence.
Qed.

(** ** Creation succeeds *)

(** A process that runs alone, with the same decisions of the system at every call. *)
Fixpoint run_alone {A} (pid : nat) (c : choice) (p : prog A) (s : fs) : A * fs :=
  match p with
  | Ret a => (a, s)
  | Call o k => run_alone pid c (k (exec pid o c s).1) (exec pid o c s).2
  end.

(** When nothing fails, a process alone in a private directory without the file
    creates it, returns its token and leaves no other name behind. *)
Theorem token_created windows path pid c s perm :
  (∀ suffix, (".local-ipc-token-" ++ suffix)%string ≠ path) → c_fail c = false →
  fs_dir s = Some (KDirectory, perm) → exposed windows perm = false → fs_names s !! path = None →
  fs_names s !! (".local-ipc-token-" ++ c_suffix c)%string = None →
  let token := resize capabilityTokenBytes Ascii.zero (c_random c) in
  let '(r, s') := run_alone pid c (LoadOrCreateCapabilityToken windows path) s in
  r = Ok token ∧ value_at windows path decode_token s' = Some token ∧
  fs_names s' = <[path:=fresh_inode s]> (fs_names s).
Proof.
  intros Hpath Hc Hd Hx Hp Ht token. set (t := (".local-ipc-token-" ++ c_suffix c)%string) in *.
  assert (Ht' : t ≠ path) by apply Hpath.
  assert (Hl : length token = capabilityTokenBytes) by apply length_resize.
  unfold LoadOrCreateCapabilityToken. cbn -[token_line decode_token resize].
  do 18 (unfold with_dir, file_at, dir_usable, set_file, set_inode, set_names, fresh_inode;
    cbn -[token_line decode_token resize]; fold t;
    change (bool_decide (KDirectory = KDirectory)) with true; change (errors_is [OsErrNotExist] OsErrNotExist) with true; change (bool_decide (KRegular = KRegular)) with true;
    rewrite ?Hc, ?Hd, ?Hp, ?Ht, ?Hx, ?lookup_insert_eq, ?(lookup_insert_ne _ t path), ?(lookup_insert_ne _ path t) by done).
  split_and!; [done| |].
  - unfold value_at, file_at, value_of. cbn -[token_line decode_token resize].
    rewrite delete_insert_ne, lookup_insert_eq by done. cbn -[token_line decode_token resize].
    rewrite lookup_insert_eq. cbn -[token_line decode_token resize]. fold token.
    by rewrite exposed_private, token_line_decodes.
  - cbn -[token_line decode_token resize]. rewrite delete_insert_ne, delete_insert_id by done. done.
Qed.

Definition empty_dir : fs := MkFs (Some (KDirectory, 448%Z)) true ∅ ∅ ∅.
Definition decided (suffix : string) (b : Z) : choice := MkChoice false suffix (repeat (byte_of b) 40) 0.

(** Two processes that start in an empty directory, one call after the other: both
    see no file, the second loses the race and loads the token of the first. *)
Definition race {A} (program : IO A) : machine A :=
  machine_run program (booted empty_dir)
    (EStart :: EStart :: concat (repeat [EStep 0 (decided "1" 7); EStep 1 (decided "2" 9)] 20)).

Lemma untouched_empty path : untouched path empty_dir.
Proof. split; cbn; intros *; by rewrite lookup_empty. Qed.

Definition token_returned (p : nat) : option bytes :=
  match m_procs (race (LoadOrCreateCapabilityToken false "local-ipc.token")) !! p with
  | Some (Ret (Ok v)) => Some v
  | _ => None
  end.

Lemma token_agreed_witness :
  token_returned 0 = Some (repeat (byte_of 7) 32) ∧ token_returned 1 = Some (repeat (byte_of 7) 32) ∧
  (∀ p v, returned (race (LoadOrCreateCapabilityToken false "local-ipc.token")) p v →
    value_at false "local-ipc.token" decode_token (m_fs (race (LoadOrCreateCapabilityToken false "local-ipc.token"))) = Some v).
Proof.
  split_and!; [by vm_compute|by vm_compute|].
  apply (token_agreed false "local-ipc.token" empty_dir); [intros suffix; by destruct suffix|apply untouched_empty].
Defined.

(** A key format for the witness: the length of the type in unary, the type, the block. *)
Definition demo_encode (type : string) (block : bytes) : bytes :=
  repeat (byte_of 49) (String.length type) ++ byte_of 48 :: bytes_of type ++ block.
Fixpoint demo_decode (count : nat) (l : bytes) : option (string * bytes) * bytes :=
  match l with
  | [] => (None, [])
  | c :: rest => if (val c =? 49)%Z then demo_decode (S count) rest
                 else (Some (str_of (take count rest), drop count rest), [])
  end.

Lemma demo_decodes k type block : demo_decode k (repeat (byte_of 49) (String.length type) ++ byte_of 48 :: bytes_of type ++ block)
  = (Some (str_of (take (k + String.length type) (bytes_of type ++ block)), drop (k + String.length type) (bytes_of type ++ block)), []).
Proof.
  generalize (String.length type) as n. intros n. revert k. induction n as [|n IH]; intros k; cbn; [by rewrite Nat.add_0_r|].
  rewrite IH. by rewrite <-Nat.add_succ_comm.
Qed.

Definition demo_format : KeyFormat := {|
  pem_Decode := demo_decode 0; pem_EncodeToMemory := demo_encode;
  ParsePKCS8PrivateKey := λ der, Some (Ed25519Key der); MarshalPKCS8PrivateKey := Some;
  NewKeyFromSeed := λ seed, seed ++ seed |}.

Lemma demo_laws : KeyFormatLaws demo_format.
Proof.
  split; [|by intros seed der _ [= <-]]. intros type block. cbn. unfold demo_encode. rewrite demo_decodes. cbn.
  rewrite <-length_bytes_of, take_app_length, drop_app_length, str_of_bytes_of. done.
Qed.

#[local] Abbreviation identity_program :=
  (startup_identity (H := ascii_case) (F := demo_format) false (λ l, l) "device-identity.pem").
Definition creation : list event := EStart :: repeat (EStep 0 (decided "1" 7)) 40.
(** The first start, without a state directory, and a power loss that keeps it or loses it. *)
Definition no_state : fs := MkFs None false ∅ ∅ ∅.
#[local] Abbreviation created := (machine_run identity_program (booted no_state) creation).
Definition outage_events (lost : bool) : list event :=
  ECrash (MkOutage lost (λ _, false) (λ _, [])) :: EStart :: repeat (EStep 1 (decided "2" 9)) 40.
Definition demo_key (b : Z) : bytes := repeat (byte_of b) 64.
Definition identity_returned (m : machine Identity) (p : nat) : option bytes :=
  match m_procs m !! p with Some (Ret (Ok v)) => Some (identity_privateKey v) | _ => None end.

Lemma installed_owner path s pid : (file_at s path ≫= in_owner) = Some pid → installed_by path s pid.
Proof. intros (n & Hn & Ho)%bind_Some. by exists n. Qed.

Lemma untouched_nothing path : untouched path no_state.
Proof. split; cbn; intros *; by rewrite lookup_empty. Qed.
Lemma kept_directory : Forall (keeps_directory false) (outage_events false).
Proof. repeat constructor; intros x E Hx; try done. by injection E as <-. Qed.

Lemma identity_permanent_witness :
  identity_returned created 0 = Some (demo_key 7) ∧
  identity_returned (machine_run identity_program created (outage_events false)) 1 = Some (demo_key 7) ∧
  ∀ v, returned created 0 v → ∀ q w, returned (machine_run identity_program created (outage_events false)) q w → w = v.
Proof.
  split_and!; [by vm_compute|by vm_compute|]. intros v Hv q w.
  assert (installed_by "device-identity.pem" (m_fs created) 0) as Hi by (apply installed_owner; by vm_compute).
  pose proof (identity_permanent (H := ascii_case) (λ l, l) demo_format demo_laws "device-identity.pem" no_state
    creation (outage_events false) 0 q v w (λ suffix, ltac:(by destruct suffix)) (untouched_nothing _) kept_directory Hv Hi) as [_ Hw].
  exact Hw.
Defined.

(** The first start creates the state directory and never syncs its parent: a power loss
    after the identity was returned may take the directory with it, and the next start
    makes another identity. *)
Example directory_lost : identity_returned created 0 = Some (demo_key 7) ∧
  identity_returned (machine_run identity_program created (outage_events true)) 1 = Some (demo_key 9).
Proof. by vm_compute. Qed.
