(* ===== verification/Mdns.v ===== *)
(** * Discovery on the local network (internal/infra/discovery/mdns/service.go)

    A device advertises itself with text records of DNS-SD and reads the records of
    the others.  The records, their parsing and the loop that reports observations
    are modelled; multicast sockets are the [windows] of entries that a browse
    returns.  A [net.IP] is its bytes. *)

From S2P Require Import Prelude GoText GoNumber Encoding Base32 Device.
From Stdlib Require Import Ascii.
Local Open Scope string_scope.
Local Open Scope nat_scope.
Local Open Scope list_scope.

Definition textFormatVersion : string := "1".
Definition minimumTTLSeconds : Z := 10.
Definition maximumTTLSeconds : Z := 45.

Record rawEntry := MkEntry {
  re_Instance : string; re_HostName : string; re_Port : Z; re_Text : list string; re_TTL : Z;
  re_IPv4 : list bytes; re_IPv6 : list bytes }.

(** ** Writing *)

Definition announcementText (local : Announcement) : list string :=
  ["txtvers=" +:+ textFormatVersion; "sid=" +:+ an_PresenceID local; "name=" +:+ an_Name local;
   "role=" +:+ an_Role local; "proto=" +:+ FormatUint (an_ProtocolVersion local);
   "ready=" +:+ FormatBool (an_EndpointReady local)]
  ++ (if bool_decide (an_Platform local = "") then [] else ["platform=" +:+ an_Platform local])
  ++ (if bool_decide (an_Architecture local = "") then [] else ["arch=" +:+ an_Architecture local])
  ++ (if (0 <? an_LogicalCPUCount local)%Z then ["cpu=" +:+ FormatUint (an_LogicalCPUCount local)] else [])
  ++ (if (0 <? an_TotalMemoryBytes local)%Z then ["mem=" +:+ FormatUint (an_TotalMemoryBytes local)] else []).

(** The name of the service instance. *)
Definition instance_name (local : Announcement) : string :=
  an_Name local +:+ " (" +:+ DeviceID_Short (an_PresenceID local) +:+ ")".

(** ** Reading *)

Section Reading.
Context `{UnicodeCase}.

Definition invalid {A} : result A := Err [DeviceErrInvalidObservation].

Fixpoint parse_records (fields : gmap string string) (records : list string) : result (gmap string string) :=
  match records with
  | [] => Ok fields
  | record :: rest =>
      if bool_decide (String.length record = 0) || (255 <? String.length record) then invalid
      else match Cut "="%char record with
      | None => invalid
      | Some (key, value) =>
          if bool_decide (key = "") || bool_decide (value = "") || negb (bool_decide (key = to_lower key)) then invalid
          else if bool_decide (is_Some (fields !! key)) then invalid
          else parse_records (<[key:=value]> fields) rest
      end
  end.

(** [fields[key]]: the empty string for a missing key. *)
Definition field (fields : gmap string string) (key : string) : string := default "" (fields !! key).

Definition required_fields : list string := ["txtvers"; "sid"; "name"; "role"; "proto"; "ready"].

Definition parseText (records : list string) : result (gmap string string) :=
  _ ← reject_if (bool_decide (records = []) || (16 <? length records)) [DeviceErrInvalidObservation];
  fields ← parse_records ∅ records;
  _ ← reject_if (existsb (λ required, bool_decide (field fields required = "")) required_fields) [DeviceErrInvalidObservation];
  Ok fields.

(** [parseOptionalUint32] and [parseOptionalUint64]. *)
Definition parseOptionalUint (bits : Z) (value : string) : option Z :=
  if bool_decide (value = "") then Some 0%Z else ParseUint bits value.

(** [netip.AddrFromSlice] and [Addr.Unmap]. *)
Definition AddrFromSlice (value : bytes) : option Addr :=
  if bool_decide (length value = 4) then Some (Addr4 (from_big_endian value))
  else if bool_decide (length value = 16) then Some (Addr6 (from_big_endian value) "")
  else None.
Definition Unmap (a : Addr) : Addr :=
  match a with
  | Addr6 v _ => if (Z.shiftr v 32 =? 0xFFFF)%Z then Addr4 (v `mod` 2 ^ 32) else a
  | _ => a
  end.

Definition usable (a : Addr) : bool := Addr_IsValid a && negb (Addr_IsUnspecified a) && negb (Addr_IsMulticast a).

(** The address of a record, if it is one that can be dialed. *)
Definition address_of (value : bytes) : option Addr :=
  a ← AddrFromSlice value; if usable (Unmap a) then Some (Unmap a) else None.

Definition normalizedAddresses (values : list bytes) : list Addr :=
  merge_sort addr_le (elements (list_to_set (C := gset Addr) (omap address_of values))).

Definition parseEntry (entry : rawEntry) (now : Z) : result Observation :=
  fields ← parseText (re_Text entry);
  _ ← reject_if (negb (bool_decide (field fields "txtvers" = textFormatVersion))) [DeviceErrInvalidObservation];
  presenceID ← ParsePresenceID (field fields "sid");
  match ParseUint 32 (field fields "proto") with
  | None => invalid
  | Some protocolVersion =>
  match ParseBool (field fields "ready") with
  | None => invalid
  | Some ready =>
  if (re_Port entry <=? 0)%Z || (65535 <? re_Port entry)%Z || (re_TTL entry =? 0)%Z then invalid else
  match parseOptionalUint 32 (field fields "cpu") with
  | None => invalid
  | Some logicalCPUCount =>
  if (4096 <? logicalCPUCount)%Z then invalid else
  match parseOptionalUint 64 (field fields "mem") with
  | None => invalid
  | Some totalMemoryBytes =>
      let announcement := MkAnnouncement presenceID (field fields "name") (field fields "role") protocolVersion
        (re_Port entry) ready (field fields "platform") (field fields "arch") logicalCPUCount totalMemoryBytes in
      let ttl := Z.min (Z.max (re_TTL entry) minimumTTLSeconds) maximumTTLSeconds in
      let observation := MkObservation
        (re_Instance entry +:+ "|" +:+ re_HostName entry +:+ "|" +:+ Itoa (re_Port entry)) announcement
        (re_Instance entry) (re_HostName entry) (normalizedAddresses (re_IPv4 entry ++ re_IPv6 entry))
        now (now + ttl * second)%Z in
      _ ← Observation_Validate observation;
      Ok observation
  end end end end.

(** ** The service *)

(** One window of browsing: the entries that came with the times they were read,
    the error of the browse, and whether the context had ended by then. *)
Record window := MkWindow { wi_entries : list (rawEntry * Z); wi_error : option (list sentinel); wi_cancelled : bool }.

Definition observed (entries : list (rawEntry * Z)) : list Observation :=
  omap (λ e, match parseEntry e.1 e.2 with Ok o => Some o | Err _ => None end) entries.

(** What [Run] returns, and the observations it reported. *)
Fixpoint run_windows (windows : list window) : result unit * list Observation :=
  match windows with
  | [] => (Ok tt, [])
  | w :: rest =>
      let reported := observed (wi_entries w) in
      if wi_cancelled w then (Ok tt, reported)
      else match wi_error w with
      | Some e => (Err e, reported)
      | None => let '(r, more) := run_windows rest in (r, reported ++ more)
      end
  end.

(** [dependencies] tells whether the service was built with all its functions. *)
Definition Service_Run (dependencies : bool) (local : Announcement) (registered : result unit) (windows : list window) : result unit * list Observation :=
  match Announcement_Validate local with
  | Err e => (Err e, [])
  | Ok _ => if negb dependencies then (Err [AnonymousError], []) else
    match registered with
    | Err e => (Err e, [])
    | Ok _ => run_windows windows
    end
  end.

(** ** Lemmas *)

Definition join_field (p : string * string) : string := p.1 +:+ String "=" p.2.

(** The records of an announcement, as keys and values. *)
Definition pairs (a : Announcement) : list (string * string) :=
  [("txtvers", textFormatVersion); ("sid", an_PresenceID a); ("name", an_Name a); ("role", an_Role a);
   ("proto", FormatUint (an_ProtocolVersion a)); ("ready", FormatBool (an_EndpointReady a))]
  ++ (if bool_decide (an_Platform a = "") then [] else [("platform", an_Platform a)])
  ++ (if bool_decide (an_Architecture a = "") then [] else [("arch", an_Architecture a)])
  ++ (if (0 <? an_LogicalCPUCount a)%Z then [("cpu", FormatUint (an_LogicalCPUCount a))] else [])
  ++ (if (0 <? an_TotalMemoryBytes a)%Z then [("mem", FormatUint (an_TotalMemoryBytes a))] else []).

Lemma announcement_pairs a : announcementText a = map join_field (pairs a).
Proof. unfold announcementText, pairs. rewrite !map_app. by do 2 case_bool_decide; repeat case_match. Qed.

(** A field that parsing accepts. *)
Definition good_field (p : string * string) : Prop :=
  p.1 ≠ "" ∧ p.2 ≠ "" ∧ p.1 = to_lower p.1 ∧ "="%char ∉ bytes_of p.1 ∧
  String.length p.1 ≤ 8 ∧ String.length p.2 ≤ 200.

Lemma parse_pairs l fields : Forall good_field l → NoDup (map fst l) → (∀ k, k ∈ map fst l → fields !! k = None) →
  parse_records fields (map join_field l) = Ok (list_to_map l ∪ fields).
Proof.
  intros Hg. revert fields. induction Hg as [|[k v] l (Hk & Hv & Hlow & Heq & Hlk & Hlv) Hg IH]; intros fields Hnd Hf.
  { cbn. by rewrite (left_id ∅ (∪)). }
  unfold join_field in *. cbn [map parse_records fst snd] in *. apply NoDup_cons in Hnd as [Hnot Hnd].
  assert (String.length (k +:+ String "=" v) = String.length k + S (String.length v)) as Elen
    by (rewrite <-!length_bytes_of, bytes_of_app, length_app; done).
  rewrite Elen, bool_decide_false by lia. rewrite (proj2 (Nat.ltb_ge _ _)) by lia. cbn [orb].
  rewrite Cut_join by done. rewrite (bool_decide_false (k = "")), (bool_decide_false (v = "")), (bool_decide_true (k = to_lower k)) by done.
  cbn [orb negb]. rewrite (Hf k) by (cbn; set_solver). rewrite bool_decide_false by (by intros [? [=]]).
  rewrite IH; [|done|].
  - cbn. f_equal. rewrite <-insert_union_r, insert_union_l; [done|]. by apply not_elem_of_list_to_map_1.
  - intros k' Hk'. rewrite lookup_insert_ne by (intros ->; done). apply Hf. cbn. set_solver.
Qed.

Definition announcement_fits (a : Announcement) : Prop :=
  (0 ≤ an_ProtocolVersion a < 2 ^ 32)%Z ∧ (0 ≤ an_Port a < 2 ^ 16)%Z ∧ (0 ≤ an_LogicalCPUCount a < 2 ^ 32)%Z
  ∧ (0 ≤ an_TotalMemoryBytes a < 2 ^ 64)%Z.

Definition keys : list string :=
  ["txtvers"; "sid"; "name"; "role"; "proto"; "ready"; "platform"; "arch"; "cpu"; "mem"].

Lemma good_key k v : k ∈ keys → v ≠ "" → String.length v ≤ 200 → good_field (k, v).
Proof.
  intros Hk Hv Hl. assert (Forall (λ k, k ≠ "" ∧ k = to_lower k ∧ "="%char ∉ bytes_of k ∧ String.length k ≤ 8) keys) as Hall.
  { repeat constructor; try (apply (bool_decide_unpack _); by vm_compute); cbn; lia. }
  rewrite Forall_forall in Hall. destruct (Hall k Hk) as (? & ? & ? & ?). done.
Qed.

(** Every field of a valid announcement is accepted, and no key occurs twice. *)
Lemma pairs_good a : announcement_fits a → Announcement_Validate a = Ok tt →
  Forall good_field (pairs a) ∧ NoDup (map fst (pairs a)).
Proof.
  intros (Hproto & Hport & Hcpu & Hmem) Hv%reject_if_ok. reflect_bools.
  assert (an_PresenceID a ≠ "" ∧ String.length (an_PresenceID a) ≤ 200) as [Hid Hid'].
  { unfold PresenceID_Valid, ParsePresenceID in *. destruct (canonical_base32 _ _ _) eqn:E; [|done].
    apply canonical_length in E. rewrite E. split; [intros E'; by rewrite E' in E|unfold encodedPresenceIDLength; lia]. }
  assert (an_Name a ≠ "" ∧ String.length (an_Name a) ≤ 200) as [Hname Hname'].
  { destruct (ValidateName (an_Name a)) eqn:E; [|done]. unfold ValidateName in E.
    apply result_bind_ok in E as (? & E & _). apply reject_if_ok in E. reflect_bools.
    split; [done|]. match goal with Hx : (80 <? _) = false |- _ => apply Nat.ltb_ge in Hx end. lia. }
  assert (an_Role a ≠ "" ∧ String.length (an_Role a) ≤ 200) as [Hrole Hrole'].
  { unfold known_role in *. destruct (bool_decide (an_Role a = RoleWorker)) eqn:E1; reflect_bools; [by rewrite E1; split; [done|cbn; lia]|].
    destruct (bool_decide (an_Role a = RoleOrchestrator)) eqn:E2; reflect_bools; [by rewrite E2; split; [done|cbn; lia]|done]. }
  assert (∀ v, hint_ok v = true → v ≠ "" → String.length v ≤ 200) as Hhint.
  { intros v Hh Hne. unfold hint_ok in Hh. apply orb_true_iff in Hh as [Hh|Hh]; reflect_bools; [done|].
    match goal with Hx : (32 <? _) = false |- _ => apply Nat.ltb_ge in Hx end. lia. }
  assert (∀ n, (0 ≤ n < 2 ^ 64)%Z → String.length (FormatUint n) ≤ 200) as Hnum.
  { intros n Hn. etrans; [apply (length_FormatUint n 20)|]; lia. }
  pose proof FormatUint_nonempty as Hfn.
  split.
  - unfold pairs. repeat (apply Forall_app; split).
    + assert (String.length (FormatBool (an_EndpointReady a)) ≤ 200 ∧ FormatBool (an_EndpointReady a) ≠ "") as [Hb Hb']
        by (destruct (an_EndpointReady a); split; [cbn; lia|done|cbn; lia|done]).
      repeat (apply Forall_cons; split); [..|constructor]; (apply good_key; [by apply (bool_decide_unpack _)|..]).
      * done.
      * cbn; lia.
      * exact Hid.
      * exact Hid'.
      * exact Hname.
      * exact Hname'.
      * exact Hrole.
      * exact Hrole'.
      * apply Hfn.
      * apply Hnum; lia.
      * exact Hb'.
      * exact Hb.
    + case_bool_decide; [constructor|]. apply Forall_singleton, good_key; [by apply (bool_decide_unpack _)|done|by apply Hhint].
    + case_bool_decide; [constructor|]. apply Forall_singleton, good_key; [by apply (bool_decide_unpack _)|done|by apply Hhint].
    + case_match; [|constructor]. apply Forall_singleton, good_key; [by apply (bool_decide_unpack _)|apply Hfn|apply Hnum; lia].
    + case_match; [|constructor]. apply Forall_singleton, good_key; [by apply (bool_decide_unpack _)|apply Hfn|apply Hnum; lia].
  - unfold pairs. rewrite !map_app. repeat case_bool_decide; repeat case_match; apply (bool_decide_unpack _); by vm_compute.
Qed.

(** The fields of a parsed announcement. *)
Lemma pairs_fields a : let f := field (list_to_map (pairs a)) in
  f "txtvers" = textFormatVersion ∧ f "sid" = an_PresenceID a ∧ f "name" = an_Name a ∧ f "role" = an_Role a ∧
  f "proto" = FormatUint (an_ProtocolVersion a) ∧ f "ready" = FormatBool (an_EndpointReady a) ∧
  f "platform" = an_Platform a ∧ f "arch" = an_Architecture a ∧
  f "cpu" = (if (0 <? an_LogicalCPUCount a)%Z then FormatUint (an_LogicalCPUCount a) else "") ∧
  f "mem" = (if (0 <? an_TotalMemoryBytes a)%Z then FormatUint (an_TotalMemoryBytes a) else "").
Proof.
  intros f. unfold f, field, pairs.
  destruct (bool_decide (an_Platform a = "")) eqn:E1, (bool_decide (an_Architecture a = "")) eqn:E2,
    (0 <? an_LogicalCPUCount a)%Z, (0 <? an_TotalMemoryBytes a)%Z; reflect_bools; rewrite ?E1, ?E2;
    split_and!; reflexivity.
Qed.

Lemma parseText_announcement a : announcement_fits a → Announcement_Validate a = Ok tt →
  parseText (announcementText a) = Ok (list_to_map (pairs a)).
Proof.
  intros Hfits Hv. destruct (pairs_good a Hfits Hv) as [Hg Hnd]. rewrite announcement_pairs. unfold parseText.
  assert (length (map join_field (pairs a)) ≤ 16 ∧ map join_field (pairs a) ≠ []) as [Hlen Hne].
  { split; [|done]. rewrite length_map. unfold pairs. repeat case_bool_decide; repeat case_match; cbn; lia. }
  rewrite bool_decide_false, (proj2 (Nat.ltb_ge _ _)) by done. cbn [orb reject_if mbind result_bind].
  rewrite parse_pairs by (intros; by rewrite ?lookup_empty). cbn [mbind result_bind].
  rewrite (right_id_L ∅ (∪)). destruct (pairs_fields a) as (F1 & F2 & F3 & F4 & F5 & F6 & _).
  rewrite Forall_forall in Hg. unfold required_fields. cbn [existsb]. rewrite F1, F2, F3, F4, F5, F6.
  assert (∀ k v, (k, v) ∈ pairs a → bool_decide (v = "") = false) as Hv'.
  { intros k v Hin. apply bool_decide_false. by destruct (Hg _ Hin) as (_ & ? & _). }
  assert (∀ k v, (k, v) ∈ take 6 (pairs a) → bool_decide (v = "") = false) as Hv6.
  { intros k v Hin. apply (Hv' k v). rewrite <-(take_drop 6 (pairs a)). apply elem_of_app. by left. }
  rewrite (Hv6 "sid" (an_PresenceID a)), (Hv6 "name" (an_Name a)), (Hv6 "role" (an_Role a)),
    (Hv6 "proto" (FormatUint (an_ProtocolVersion a))), (Hv6 "ready" (FormatBool (an_EndpointReady a)));
    [done|cbn; rewrite !elem_of_cons; auto 10..].
Qed.

Lemma optional_number bits n : (0 ≤ n < 2 ^ bits)%Z →
  parseOptionalUint bits (if (0 <? n)%Z then FormatUint n else "") = Some n.
Proof.
  intros Hn. destruct (0 <? n)%Z eqn:E; reflect_bools; unfold parseOptionalUint.
  - rewrite bool_decide_false by apply FormatUint_nonempty. by apply ParseUint_FormatUint.
  - rewrite bool_decide_true by done. f_equal. lia.
Qed.

Lemma normalized_elem values a : a ∈ normalizedAddresses values ↔ ∃ ip, ip ∈ values ∧ address_of ip = Some a.
Proof.
  unfold normalizedAddresses. rewrite merge_sort_Permutation, elem_of_elements, elem_of_list_to_set.
  apply list_elem_of_omap.
Qed.

Lemma normalized_usable values : existsb (λ a, negb (Addr_IsValid a) || Addr_IsUnspecified a || Addr_IsMulticast a) (normalizedAddresses values) = false.
Proof.
  apply existsb_none. intros a (ip & _ & Ha)%normalized_elem. unfold address_of in Ha.
  apply bind_Some in Ha as (b & _ & Hb). destruct (usable (Unmap b)) eqn:E; [|done]. injection Hb as <-.
  unfold usable in E. reflect_bools. by rewrite H0, H1, H2.
Qed.

End Reading.

(** ** Properties *)

(** C11 A device that advertises itself is observed as it is.  If the records of a valid
    announcement arrive with its port, a lifetime and at least one address that can be
    dialed, the reader observes exactly the announcement, with exactly the usable
    addresses, for between ten and forty-five seconds. *)
Theorem announcement_observed (U : UnicodeCase) (a : Announcement) (host : string) (ttl now : Z) (ipv4 ipv6 : list bytes) (ip : bytes) (x : Addr) :
  announcement_fits a → Announcement_Validate a = Ok tt → (0 < ttl)%Z → trim_space host ≠ "" →
  is_zero_time now = false → ip ∈ ipv4 ++ ipv6 → address_of ip = Some x →
  ∃ o, parseEntry (MkEntry (instance_name a) host (an_Port a) (announcementText a) ttl ipv4 ipv6) now = Ok o
    ∧ ob_Announcement o = a ∧ ob_SeenAt o = now
    ∧ (∀ y, y ∈ ob_Addresses o ↔ ∃ ip, ip ∈ ipv4 ++ ipv6 ∧ address_of ip = Some y)
    ∧ (now + 10 * second ≤ ob_ExpiresAt o ≤ now + 45 * second)%Z.
Proof.
  intros Hfits Hv Httl Hhost Hnow Hip Hx. unfold parseEntry. cbn [re_Text re_Port re_TTL re_Instance re_HostName re_IPv4 re_IPv6].
  rewrite (parseText_announcement a Hfits Hv). cbn [mbind result_bind].
  destruct (pairs_fields a) as (-> & -> & -> & -> & -> & -> & -> & -> & -> & ->).
  destruct Hfits as (Hproto & Hport & Hcpu & Hmem). pose proof Hv as Hv'. apply reject_if_ok in Hv'. reflect_bools.
  unfold PresenceID_Valid in *. destruct (ParsePresenceID (an_PresenceID a)) as [id|] eqn:Eid; [|done].
  assert (id = an_PresenceID a) as -> by (unfold ParsePresenceID in Eid; case_match; congruence).
  rewrite bool_decide_true by done. cbn [negb reject_if].
  rewrite ParseUint_FormatUint, ParseBool_FormatBool, !optional_number by done.
  cbn [mbind result_bind].
  rewrite (proj2 (Z.leb_gt _ _)), (proj2 (Z.ltb_ge 65535 _)), (proj2 (Z.eqb_neq ttl 0)), (proj2 (Z.ltb_ge 4096 _)) by lia. cbn [orb].
  assert (Hinst : trim_space (instance_name a) ≠ "").
  { apply (trim_not_empty "("%char); [|done..]. unfold instance_name. rewrite !bytes_of_app, !elem_of_app. right. left. cbn. set_solver. }
  assert (10 * second ≤ Z.min (Z.max ttl minimumTTLSeconds) maximumTTLSeconds * second ≤ 45 * second)%Z as [Hlo Hhi]
    by (unfold minimumTTLSeconds, maximumTTLSeconds, second; lia).
  match goal with |- context [Observation_Validate ?o] => set (obs := o) end.
  assert (Ha : ob_Announcement obs = a) by (unfold obs; by destruct a).
  assert (Hobs : Observation_Validate obs = Ok tt).
  { unfold Observation_Validate. rewrite Ha, Hv.
    rewrite (bool_decide_false (ob_Key obs = "")), (bool_decide_false (trim_space _ = "")), (bool_decide_false (trim_space _ = "")).
    - change (ob_SeenAt obs) with now. rewrite Hnow.
      assert (after (ob_ExpiresAt obs) now = true) as -> by (unfold after, obs; cbn [ob_ExpiresAt]; apply Z.ltb_lt; unfold second in *; lia).
      cbn [failed orb negb reject_if mbind result_bind]. rewrite bool_decide_false; [apply reject_if_ok, normalized_usable|].
      intros E. apply (not_elem_of_nil x). rewrite <-E. apply normalized_elem. eauto.
    - exact Hhost.
    - exact Hinst.
    - unfold obs. cbn [ob_Key]. intros E. apply (f_equal bytes_of) in E. rewrite !bytes_of_app in E.
      apply app_eq_nil in E as [_ [E _]%app_eq_nil]. done. }
  rewrite Hobs. exists obs. split; [done|]. split; [done|]. split; [done|]. split.
  - intros y. apply normalized_elem.
  - unfold obs. cbn [ob_ExpiresAt]. lia.
Qed.

(** Whatever is received, what the service reports is valid, was seen when it was read
    and expires within forty-five seconds. *)
Theorem reports_valid (U : UnicodeCase) entry now o : parseEntry entry now = Ok o →
  Observation_Validate o = Ok tt ∧ ob_SeenAt o = now ∧ (now < ob_ExpiresAt o ≤ now + 45 * second)%Z.
Proof.
  intros Hp. unfold parseEntry in Hp.
  apply result_bind_ok in Hp as (fields & _ & Hp). apply result_bind_ok in Hp as (? & _ & Hp). apply result_bind_ok in Hp as (id & _ & Hp).
  destruct (ParseUint 32 _); [|done]. destruct (ParseBool _); [|done]. destruct (_ || _); [done|].
  destruct (parseOptionalUint 32 _); [|done]. destruct (4096 <? _)%Z; [done|]. destruct (parseOptionalUint 64 _); [|done].
  apply result_bind_ok in Hp as ([] & Hv & Hp). injection Hp as <-. split; [done|]. cbn [ob_SeenAt ob_ExpiresAt].
  unfold minimumTTLSeconds, maximumTTLSeconds, second. lia.
Qed.

(** ** Examples *)

Definition sample_announcement : Announcement :=
  MkAnnouncement (str_of (replicate 26 "a"%char)) "Studio Mac = fast" "worker" 1 47823 true "darwin" "" 10 (2 ^ 34).

Lemma announcement_observed_witness : ∃ o,
  parseEntry (H := ascii_case) (MkEntry (instance_name sample_announcement) "studio.local." 47823
    (announcementText sample_announcement) 120 [map byte_of [192; 168; 1; 7]%Z] []) second = Ok o
  ∧ ob_Announcement o = sample_announcement.
Proof.
  destruct (announcement_observed ascii_case sample_announcement "studio.local." 120 second [map byte_of [192; 168; 1; 7]%Z] []
    (map byte_of [192; 168; 1; 7]%Z) (Addr4 3232235783)) as (o & Ho & Ha & _).
  - unfold announcement_fits. cbn. lia.
  - by vm_compute.
  - lia.
  - by vm_compute.
  - done.
  - by left.
  - by vm_compute.
  - exists o. split; [exact Ho|exact Ha].
Defined.
