(* ===== verification/Trust.v ===== *)
(** * Trusted peers and pairing ceremonies (internal/trust, internal/session/pairing.go)

    Pair identifiers, the pinned peers with their compatibility hints, the view of
    one pairing ceremony, and the material both devices derive from the TLS session.
    SHA-256 is a parameter. *)

From S2P Require Import Prelude GoText Encoding Base32 Device.
From Stdlib Require Import Ascii.
Local Open Scope string_scope.
Local Open Scope nat_scope.
Local Open Scope list_scope.

Definition encodedPairIDLength : nat := 26.
Definition ConnectivitySecretBytes : nat := 32.

Section PairIDs.
Context `{UnicodeCase}.

Definition ParsePairID (value : string) : result string :=
  if canonical_base32 encodedPairIDLength 16 value then Ok value else Err [TrustErrInvalidPairID].

Definition PairID_Valid (id : string) : bool :=
  match ParsePairID id with Ok _ => true | Err _ => false end.

(** [random] is what [io.ReadFull] gives. *)
Definition NewPairID (random : result bytes) : result string :=
  contents ← random;
  Ok (to_lower (Base32_EncodeToString contents)).

End PairIDs.

Definition Secret_Valid (secret : bytes) : bool := bool_decide (length secret = ConnectivitySecretBytes).

(** ** Peers *)

Inductive TrustState := TrustActive | TrustRevoked | TrustOther (value : string).
#[global] Instance TrustState_eq_dec : EqDecision TrustState.
Proof. solve_decision. Defined.

Record Peer := MkPeer {
  PairID : string;
  DeviceID : string;
  PublicKey : bytes;
  ConnectivitySecret : bytes;
  PeerNameOf : string;
  PeerRoleOf : string;
  PeerState : TrustState;
  Platform : string;
  Architecture : string;
  LogicalCPUCount : Z;
  TotalMemoryBytes : Z;
  ToolIDs : list string;
  SupportedExecutors : list string;
  HintsObservedAt : option Z;
  PairedAt : Z;
  PeerUpdatedAt : Z;
  RevokedAt : option Z
}.

Record PeerHints := MkPeerHints {
  hint_Platform : string;
  hint_Architecture : string;
  hint_LogicalCPUCount : Z;
  hint_TotalMemoryBytes : Z;
  hint_ToolIDs : list string;
  hint_SupportedExecutors : list string;
  hint_ObservedAt : Z
}.

(** The loop of [validateToolIDs]. *)
Fixpoint tools_loop (previous : string) (values : list string) : bool :=
  match values with
  | [] => true
  | value :: rest =>
      if negb (hint_ok value) || (64 <? String.length value) || bool_decide (value = "") || str_leb value previous
      then false else tools_loop value rest
  end.
Definition validateToolIDs (values : list string) : bool := negb (128 <? length values) && tools_loop "" values.

Fixpoint executors_loop (previous : string) (values : list string) : bool :=
  match values with
  | [] => true
  | value :: rest =>
      if negb (bool_decide (value = "container")) && negb (bool_decide (value = "native")) then false
      else if str_leb value previous then false else executors_loop value rest
  end.
Definition validateSupportedExecutors (values : list string) : bool := negb (8 <? length values) && executors_loop "" values.

Definition Hints_Validate (hints : PeerHints) : result unit :=
  reject_if (is_zero_time (hint_ObservedAt hints) || negb (hint_ok (hint_Platform hints))
    || negb (hint_ok (hint_Architecture hints)) || (4096 <? hint_LogicalCPUCount hints)%Z
    || negb (validateToolIDs (hint_ToolIDs hints))
    || negb (validateSupportedExecutors (hint_SupportedExecutors hints))) [TrustErrInvalidHints].

Section Peers.
Context `{UnicodeCase} (sha256 : bytes → bytes).

(** [err != nil || id != derivedID] after [IDFromPublicKey]. *)
Definition pins_key (publicKey : bytes) (id : string) : bool :=
  match IDFromPublicKey sha256 publicKey with Ok derivedID => bool_decide (id = derivedID) | Err _ => false end.

Definition Peer_Validate (peer : Peer) : result unit :=
  let e := [TrustErrInvalidPeer] in
  _ ← reject_if (negb (pins_key (PublicKey peer) (DeviceID peer)) || negb (PairID_Valid (PairID peer))
        || failed (ValidateName (PeerNameOf peer))
        || negb (bool_decide (ConnectivitySecret peer = [])) && negb (Secret_Valid (ConnectivitySecret peer))
        || negb (known_role (PeerRoleOf peer))
        || negb (hint_ok (Platform peer)) || negb (hint_ok (Architecture peer))
        || (4096 <? LogicalCPUCount peer)%Z || negb (validateToolIDs (ToolIDs peer))
        || negb (validateSupportedExecutors (SupportedExecutors peer))
        || is_zero_time (PairedAt peer) || before (PeerUpdatedAt peer) (PairedAt peer)) e;
  _ ← (match HintsObservedAt peer with
       | None => reject_if (negb (bool_decide (Platform peer = "")) || negb (bool_decide (Architecture peer = ""))
           || negb (LogicalCPUCount peer =? 0)%Z || negb (TotalMemoryBytes peer =? 0)%Z
           || negb (bool_decide (ToolIDs peer = [])) || negb (bool_decide (SupportedExecutors peer = []))) e
       | Some at_ => reject_if (is_zero_time at_) e
       end);
  match PeerState peer with
  | TrustActive => reject_if (negb (bool_decide (RevokedAt peer = None))) e
  | TrustRevoked =>
      match RevokedAt peer with
      | None => Err e
      | Some at_ => reject_if (before at_ (PairedAt peer) || negb (PeerUpdatedAt peer =? at_)%Z) e
      end
  | TrustOther _ => Err e
  end.

Definition hints_of (n : NearbyDevice) : PeerHints :=
  let a := nd_Announcement n in
  MkPeerHints (an_Platform a) (an_Architecture a) (an_LogicalCPUCount a) (an_TotalMemoryBytes a) [] []
    (ob_SeenAt (nd_Observation n)).

Definition active_worker (peer : Peer) : Prop := PeerState peer = TrustActive ∧ PeerRoleOf peer = RoleWorker.
#[global] Instance active_worker_dec peer : Decision (active_worker peer).
Proof. unfold active_worker. apply _. Defined.
Definition ready_worker (n : NearbyDevice) : Prop :=
  an_Role (nd_Announcement n) = RoleWorker ∧ an_EndpointReady (nd_Announcement n) = true.
#[global] Instance ready_worker_dec n : Decision (ready_worker n).
Proof. unfold ready_worker. apply _. Defined.

(** [peerByName] and [nearbyByName] are the two filters by name. *)
Definition MatchNearbyHints (peers : list Peer) (nearby : list NearbyDevice) : gmap string PeerHints :=
  list_to_map (omap (λ name,
    match filter (λ p, active_worker p ∧ PeerNameOf p = name) peers,
          filter (λ n, ready_worker n ∧ an_Name (nd_Announcement n) = name) nearby with
    | [peer], [n] => Some (DeviceID peer, hints_of n)
    | _, _ => None
    end) (remove_dups (map PeerNameOf (filter active_worker peers)))).

(** ** Sessions *)

Record LocalDevice := MkLocalDevice {
  local_Identity : Identity; local_Name : string; local_Role : string; local_PresenceID : string
}.

Definition LocalDevice_Validate (local : LocalDevice) : result unit :=
  reject_if (failed (Identity_Validate sha256 (local_Identity local)) || failed (ValidateName (local_Name local))
    || negb (known_role (local_Role local)) || negb (PresenceID_Valid (local_PresenceID local))) [SessionErrInvalidPeer].

Record SessionPeer := MkSessionPeer {
  sp_ID : string; sp_PublicKey : bytes; sp_Name : string; sp_Role : string; sp_PresenceID : string
}.

Definition SessionPeer_Validate (peer : SessionPeer) : result unit :=
  reject_if (negb (pins_key (sp_PublicKey peer) (sp_ID peer)) || failed (ValidateName (sp_Name peer))
    || negb (known_role (sp_Role peer)) || negb (PresenceID_Valid (sp_PresenceID peer))) [SessionErrInvalidPeer].

(** ** Pairing ceremonies *)

Definition PairingBindingBytes : nat := 32.
Definition verificationBytes : nat := 10.

Inductive PairingState := PairingWaiting | PairingPaired | PairingRejected | PairingExpired | PairingFailed.
#[global] Instance PairingState_eq_dec : EqDecision PairingState.
Proof. solve_decision. Defined.

Inductive Direction := DirectionOutbound | DirectionInbound.
#[global] Instance Direction_eq_dec : EqDecision Direction.
Proof. solve_decision. Defined.

Record Pairing := MkPairing {
  pg_ID : string;
  pg_PeerID : string;
  pg_PeerPublicKey : bytes;
  pg_PeerName : string;
  pg_PeerRole : string;
  pg_Verification : string;
  pg_Direction : Direction;
  pg_State : PairingState;
  pg_LocalConfirmed : bool;
  pg_RemoteConfirmed : bool;
  pg_StartedAt : Z;
  pg_ExpiresAt : Z;
  pg_Failure : string
}.

(** The test of one group: four bytes, each rune one of the alphabet. *)
Definition code_part (part : bytes) : bool :=
  bool_decide (length part = 4)
  && forallb (λ r, bool_decide (rune_value r ∈ map val crockford_alphabet)) (runes part).

Definition validVerificationCode (code : string) : bool :=
  let parts := split_bytes "-"%char (bytes_of code) in
  bool_decide (length parts = 4) && forallb code_part parts.

Definition Pairing_Validate (p : Pairing) : result unit :=
  let e := [TrustErrInvalidPairing] in
  _ ← reject_if (negb (pins_key (pg_PeerPublicKey p) (pg_PeerID p)) || negb (PairID_Valid (pg_ID p))
        || failed (ValidateName (pg_PeerName p)) || negb (known_role (pg_PeerRole p))
        || is_zero_time (pg_StartedAt p) || negb (after (pg_ExpiresAt p) (pg_StartedAt p))
        || negb (validVerificationCode (pg_Verification p))) e;
  match pg_State p with
  | PairingWaiting | PairingRejected | PairingExpired => reject_if (negb (bool_decide (pg_Failure p = ""))) e
  | PairingPaired =>
      reject_if (negb (pg_LocalConfirmed p) || negb (pg_RemoteConfirmed p) || negb (bool_decide (pg_Failure p = ""))) e
  | PairingFailed => reject_if (bool_decide (trim_space (pg_Failure p) = "")) e
  end.

Definition zero_byte : ascii := byte_of 0.
Definition pairing_label : bytes := bytes_of "ComputeHop pairing v1" ++ [zero_byte].

Definition pairingContext (binding : bytes) (initiatorID responderID : string) : result bytes :=
  _ ← reject_if (negb (bool_decide (length binding = PairingBindingBytes)) || negb (DeviceID_Valid initiatorID)
        || negb (DeviceID_Valid responderID) || bool_decide (initiatorID = responderID)) [TrustErrInvalidPairing];
  Ok (pairing_label ++ binding ++ bytes_of initiatorID ++ [zero_byte] ++ bytes_of responderID).

Definition pair_id_label : bytes := bytes_of "pair-id" ++ [zero_byte].
Definition verify_label : bytes := bytes_of "verify" ++ [zero_byte].
Definition secret_label : bytes := bytes_of "connectivity-secret" ++ [zero_byte].

Definition format_code (encoded : bytes) : string :=
  str_of (join_bytes "-"%char [take 4 encoded; take 4 (drop 4 encoded); take 4 (drop 8 encoded); take 4 (drop 12 encoded)]).

Definition DerivePairing (binding : bytes) (initiatorID responderID : string) : result (string * string) :=
  context ← pairingContext binding initiatorID responderID;
  let idDigest := sha256 (pair_id_label ++ context) in
  let id := to_lower (Base32_EncodeToString (take 16 idDigest)) in
  let codeDigest := sha256 (verify_label ++ context) in
  Ok (id, format_code (bytes_of (crockford (take verificationBytes codeDigest)))).

Definition DeriveConnectivitySecret (binding : bytes) (initiatorID responderID : string) : result bytes :=
  context ← pairingContext binding initiatorID responderID;
  Ok (sha256 (secret_label ++ context)).

End Peers.

(** ** Lemmas *)

Lemma crockford_digit_ok n : (0 ≤ n < 32)%Z →
  (val (crockford_digit n) < 128)%Z ∧ val (crockford_digit n) ∈ map val crockford_alphabet ∧
  crockford_digit n ≠ "-"%char ∧
  list_find (crockford_digit n =.) crockford_alphabet = Some (Z.to_nat n, crockford_digit n).
Proof.
  intros Hn. pose proof (forallb_below (λ n, (val (crockford_digit n) <? 128)%Z
    && bool_decide (val (crockford_digit n) ∈ map val crockford_alphabet) && negb (bool_decide (crockford_digit n = "-"%char))
    && bool_decide (list_find (crockford_digit n =.) crockford_alphabet = Some (Z.to_nat n, crockford_digit n))) 32 n eq_refl Hn) as Hb.
  cbv beta in Hb. by reflect_bools.
Qed.

Lemma crockford_digit_inj n m : (0 ≤ n < 32)%Z → (0 ≤ m < 32)%Z → crockford_digit n = crockford_digit m → n = m.
Proof.
  intros Hn Hm E. destruct (crockford_digit_ok n Hn) as (_ & _ & _ & Fn), (crockford_digit_ok m Hm) as (_ & _ & _ & Fm).
  rewrite E in Fn. rewrite Fn in Fm. injection Fm as Fm. lia.
Qed.

(** Whole groups determine the bytes. *)
Lemma quintets_inj l k : length l = length k → quintets (bytes_bits l) = quintets (bytes_bits k) → l = k.
Proof.
  intros Hlen E. destruct (quintets_bits (bytes_bits l)) as (i & Hi & El & Ll), (quintets_bits (bytes_bits k)) as (j & Hj & Ek & Lk).
  rewrite E in El, Ll. rewrite !length_bytes_bits in *. rewrite Ek in El. assert (i = j) as -> by lia.
  apply app_inv_tail in El. rewrite <-(octets_bytes l []), <-(octets_bytes k []), !app_nil_r by (simpl; lia). by rewrite El.
Qed.

Lemma crockford_inj l k : length l = length k → crockford l = crockford k → l = k.
Proof.
  intros Hlen E. rewrite !crockford_quintets in E. apply (f_equal bytes_of) in E. rewrite !bytes_of_str_of in E.
  apply quintets_inj; [done|]. revert E. pose proof (quintets_range (bytes_bits k)) as Hk. revert Hk.
  pose proof (quintets_range (bytes_bits l)) as Hl. revert Hl. generalize (quintets (bytes_bits l)) (quintets (bytes_bits k)).
  intros x y Hx. revert y. induction Hx as [|a x Ha Hx IH]; intros [|b y] Hy [=]; [done|].
  apply Forall_cons in Hy as [Hb Hy]. f_equal; [by apply crockford_digit_inj|by apply IH].
Qed.

(** The code of ten bytes: sixteen characters of the alphabet. *)
Lemma crockford_ten l : length l = verificationBytes →
  length (bytes_of (crockford l)) = 16 ∧
  Forall (λ c, (val c < 128)%Z ∧ val c ∈ map val crockford_alphabet ∧ c ≠ "-"%char) (bytes_of (crockford l)).
Proof.
  intros Hl. rewrite crockford_quintets, bytes_of_str_of. split.
  - destruct (quintets_bits (bytes_bits l)) as (k & Hk & _ & E). rewrite length_map. rewrite length_bytes_bits, Hl in E.
    unfold verificationBytes in E. lia.
  - apply Forall_map. eapply Forall_impl; [apply quintets_range|]. intros v Hv. by destruct (crockford_digit_ok v Hv) as (? & ? & ? & _).
Qed.

Definition code_groups (encoded : bytes) : list bytes :=
  [take 4 encoded; take 4 (drop 4 encoded); take 4 (drop 8 encoded); take 4 (drop 12 encoded)].

Lemma code_groups_concat encoded : length encoded = 16 → concat (code_groups encoded) = encoded.
Proof.
  intros Hl. do 17 (destruct encoded as [|? encoded]; [simpl in Hl; try discriminate|]); [done|discriminate].
Qed.

Lemma format_code_split encoded :
  Forall (λ c, c ≠ "-"%char) encoded → split_bytes "-"%char (bytes_of (format_code encoded)) = code_groups encoded.
Proof.
  intros He. unfold format_code. rewrite bytes_of_str_of. apply split_join; [done|].
  assert (∀ n m, "-"%char ∉ take n (drop m encoded)) as Hd.
  { intros n m Hin. eapply Forall_forall in He; [by apply He|].
    rewrite <-(take_drop m encoded). apply elem_of_app. right. rewrite <-(take_drop n (drop m encoded)). set_solver. }
  pose proof (Hd 4 0) as H0. rewrite drop_0 in H0. by repeat constructor.
Qed.

Section Derive.
Context `{UnicodeCase} (sha256 : bytes → bytes) (Hsha : ∀ c, length (sha256 c) = 32).

Lemma bytes_of_inj s t : bytes_of s = bytes_of t → s = t.
Proof. intros E. by rewrite <-(str_of_bytes_of s), E, str_of_bytes_of. Qed.

Lemma device_id_length id : DeviceID_Valid id = true → String.length id = encodedIDLength.
Proof. unfold DeviceID_Valid, Device_ParseID. destruct (canonical_base32 _ _ _) eqn:E; [|done]. intros _. by eapply canonical_length. Qed.

Lemma context_fields binding i r context :
  pairingContext binding i r = Ok context →
  length binding = PairingBindingBytes ∧ DeviceID_Valid i = true ∧ DeviceID_Valid r = true ∧ i ≠ r ∧
  context = pairing_label ++ binding ++ bytes_of i ++ [zero_byte] ++ bytes_of r.
Proof.
  unfold pairingContext. intros (u & Hc & [= <-])%result_bind_ok. apply reject_if_ok in Hc. by reflect_bools.
Qed.

(** A context determines the session and the ordered identities. *)
Lemma context_inj b i r b' i' r' context :
  pairingContext b i r = Ok context → pairingContext b' i' r' = Ok context → b = b' ∧ i = i' ∧ r = r'.
Proof.
  intros (Hb & Hi & Hr & _ & ->)%context_fields (Hb' & Hi' & Hr' & _ & E)%context_fields.
  apply app_inv_head in E. apply app_inj_1 in E as [-> E]; [|by rewrite Hb].
  apply app_inj_1 in E as [Ei E]; [|by rewrite !length_bytes_of, !device_id_length].
  apply app_inv_head in E. split_and!; [done|by apply bytes_of_inj..].
Qed.

Lemma derived_code_valid l : length l = verificationBytes → validVerificationCode (format_code (bytes_of (crockford l))) = true.
Proof.
  intros Hl. destruct (crockford_ten l Hl) as [H16 Hall]. unfold validVerificationCode.
  rewrite format_code_split by (eapply Forall_impl; [exact Hall|]; by intros ? (? & ? & ?)).
  rewrite bool_decide_true by done. cbn [andb]. apply forallb_forall. intros part Hin%list_elem_of_In.
  assert (length part = 4 ∧ Forall (λ c, (val c < 128)%Z ∧ val c ∈ map val crockford_alphabet) part) as [H4 Hpart].
  { set (e := bytes_of (crockford l)) in *.
    assert (∀ n m, Forall (λ c, (val c < 128)%Z ∧ val c ∈ map val crockford_alphabet) (take n (drop m e))) as Hsub.
    { intros n m. apply Forall_take, Forall_drop. eapply Forall_impl; [exact Hall|]. by intros ? (? & ? & ?). }
    pose proof (Hsub 4 0) as H0. rewrite drop_0 in H0. unfold code_groups in Hin.
    repeat (apply elem_of_cons in Hin as [->|Hin]; [split; [rewrite length_take, ?length_drop, H16; reflexivity|done]|]).
    by apply elem_of_nil in Hin. }
  unfold code_part. rewrite bool_decide_true by done. cbn [andb].
  rewrite runes_ascii by (eapply Forall_impl; [exact Hpart|]; by intros ? [? ?]). apply forallb_forall.
  intros rn Hrn. apply in_map_iff in Hrn as (c & <- & Hc%list_elem_of_In). eapply Forall_forall in Hpart as [_ Hc']; [|exact Hc].
  by rewrite bool_decide_true.
Qed.

Lemma derive_valid b i r id code :
  DerivePairing sha256 b i r = Ok (id, code) → PairID_Valid id = true ∧ validVerificationCode code = true.
Proof.
  unfold DerivePairing. intros (context & _ & [= <- <-])%result_bind_ok. split.
  - unfold PairID_Valid, ParsePairID. rewrite (canonical_encoding_size encodedPairIDLength 16); [done| |].
    + rewrite length_take, Hsha. done.
    + unfold encodedPairIDLength. lia.
  - apply derived_code_valid. rewrite length_take, Hsha. done.
Qed.

End Derive.

(** What both devices display is bound to the session.  The code a ceremony derives
    passes its own validation, as does the pair identifier.  Two ceremonies that show one
    code have SHA-256 hashes that agree in 10 bytes, and two with one pair identifier in
    16, of inputs that are equal only if the TLS binding and both identities in their
    order are equal. *)
Theorem pairing_code_binds (U : UnicodeCase) (sha256 : bytes → bytes) (b b' : bytes) (i r i' r' id id' code code' : string) :
  (∀ c, length (sha256 c) = 32) →
  DerivePairing sha256 b i r = Ok (id, code) → DerivePairing sha256 b' i' r' = Ok (id', code') →
  (PairID_Valid id = true ∧ validVerificationCode code = true) ∧
  ∃ context context', pairingContext b i r = Ok context ∧ pairingContext b' i' r' = Ok context' ∧
    (context = context' → b = b' ∧ i = i' ∧ r = r') ∧
    (code = code' → take 10 (sha256 (verify_label ++ context)) = take 10 (sha256 (verify_label ++ context'))) ∧
    (id = id' → take 16 (sha256 (pair_id_label ++ context)) = take 16 (sha256 (pair_id_label ++ context'))).
Proof.
  intros Hsha Hd Hd'. split; [by eapply derive_valid|]. unfold DerivePairing in Hd, Hd'.
  apply result_bind_ok in Hd as (context & Hc & [= <- <-]), Hd' as (context' & Hc' & [= <- <-]).
  exists context, context'. split_and!; [done|done| | |].
  - intros <-. by eapply context_inj.
  - intros E. assert (∀ c, length (take verificationBytes (sha256 c)) = verificationBytes) as Hten
      by (intros c; by rewrite length_take, Hsha).
    apply (crockford_inj _ _); [by rewrite !Hten|]. apply (f_equal (λ s, concat (split_bytes "-"%char (bytes_of s)))) in E.
    assert (∀ c, concat (split_bytes "-"%char (bytes_of (format_code (bytes_of (crockford (take verificationBytes (sha256 c)))))))
      = bytes_of (crockford (take verificationBytes (sha256 c)))) as Hback.
    { intros c. destruct (crockford_ten _ (Hten c)) as [H16 Hall].
      rewrite format_code_split by (eapply Forall_impl; [exact Hall|]; by intros ? (? & ? & ?)). by apply code_groups_concat. }
    rewrite !Hback in E. by apply bytes_of_inj.
  - rewrite !lower_base32_eq. apply lower_base32_inj.
Qed.

Lemma pairing_code_binds_witness :
  ∃ id code, DerivePairing (H := ascii_case) (λ _, replicate 32 "a"%char) (replicate 32 "x"%char)
      (str_of (replicate 52 "a"%char)) (str_of (replicate 51 "a"%char ++ ["q"%char])) = Ok (id, code) ∧
    validVerificationCode code = true.
Proof.
  destruct (DerivePairing (H := ascii_case) (λ _, replicate 32 "a"%char) (replicate 32 "x"%char)
      (str_of (replicate 52 "a"%char)) (str_of (replicate 51 "a"%char ++ ["q"%char]))) as [[id code]|e] eqn:E;
    [|vm_compute in E; discriminate E].
  exists id, code. split; [reflexivity|].
  exact (proj2 (proj1 (pairing_code_binds ascii_case (λ _, replicate 32 "a"%char) _ _ _ _ _ _ _ _ _ _ (λ c, eq_refl) E E))).
Defined.
