(* ===== verification/TrustStore.v ===== *)
(** * The trust repository (internal/infra/sqlite/trust_repository.go) and the
    placement repository (internal/placement, placement_repository.go)

    Pinned peers, the audit trail of pairings and revocations, and which worker owns
    a remote job, over the tables of the migrations 003, 004, 005, 009, 010 and 012
    with their constraints. *)

From S2P Require Import Prelude GoText PortablePath JobModel Effects Sql Encoding Base32 Device Trust.
From Stdlib Require Import Ascii.
Local Open Scope string_scope.
Local Open Scope nat_scope.
Local Open Scope list_scope.

(** ** Tables *)

Record DeviceRow := MkDeviceRow {
  td_pair_id : string;
  td_public_key : bytes;
  td_name : string;
  td_role : string;
  td_state : string;
  td_platform : string;
  td_arch : string;
  td_cpus : Z;
  td_memory : Z;
  td_tools : list string;
  td_executors : list string;
  td_hints_ns : option Z;
  td_paired_ns : Z;
  td_updated_ns : Z;
  td_revoked_ns : option Z;
  td_secret : option bytes
}.

Record TrustEvent := MkTrustEvent { te_device : string; te_pair : string; te_event : string; te_at_ns : Z }.
Record PlacementRow := MkPlacementRow { pl_worker : string; pl_placed_ns : Z }.

Record PeerDB := MkPeerDB {
  trusted_devices : gmap string DeviceRow;
  trust_events : list TrustEvent;
  remote_job_placements : gmap string PlacementRow
}.

Definition set_device (id : string) (row : DeviceRow) (d : PeerDB) : PeerDB :=
  MkPeerDB (<[id := row]> (trusted_devices d)) (trust_events d) (remote_job_placements d).
Definition add_event (e : TrustEvent) (d : PeerDB) : PeerDB :=
  MkPeerDB (trusted_devices d) (trust_events d ++ [e]) (remote_job_placements d).

Definition between (lo x hi : Z) : bool := ((lo <=? x) && (x <=? hi))%Z.

(** The CHECK constraints of trusted_devices: the table of 003 and 005, *)
Definition identity_checks (id : string) (row : DeviceRow) : bool :=
  in_strings (td_role row) ["worker"; "orchestrator"] && in_strings (td_state row) ["active"; "revoked"]
  && (sql_length id =? 52)%Z && (sql_length (td_pair_id row) =? 26)%Z && bool_decide (length (td_public_key row) = 32)
  && between 1 (sql_length (td_name row)) 80 && (td_paired_ns row <=? td_updated_ns row)%Z
  && (bool_decide (td_state row = "active" ∧ td_revoked_ns row = None)
      || bool_decide (td_state row = "revoked")
         && match td_revoked_ns row with
            | Some at_ => (at_ =? td_updated_ns row)%Z && (td_paired_ns row <=? at_)%Z | None => false end)
  && match td_secret row with Some secret => bool_decide (length secret = 32) | None => true end.

(** and the columns of 009, 010 and 012. *)
Definition hint_checks (row : DeviceRow) : bool :=
  (sql_length (td_platform row) <=? 32)%Z && negb (contains_byte "="%char (td_platform row))
  && (sql_length (td_arch row) <=? 32)%Z && negb (contains_byte "="%char (td_arch row))
  && between 0 (td_cpus row) 4096 && (0 <=? td_memory row)%Z
  && match td_hints_ns row with Some at_ => (0 <? at_)%Z | None => true end
  && between 2 (json_strings_length (td_tools row)) 8192 && between 2 (json_strings_length (td_executors row)) 512.

Definition device_row_checks (id : string) (row : DeviceRow) : bool := identity_checks id row && hint_checks row.

(** UNIQUE (pair_id) and the unique index on the active orchestrator: no row of
    another device is in the way. *)
Definition active_orchestrator (row : DeviceRow) : bool :=
  bool_decide (td_role row = "orchestrator" ∧ td_state row = "active").
Definition unique_row (id : string) (row : DeviceRow) (d : PeerDB) : bool :=
  forallb (λ kv, bool_decide (kv.1 = id)
    || negb (bool_decide (td_pair_id kv.2 = td_pair_id row))
       && negb (active_orchestrator kv.2 && active_orchestrator row)) (map_to_list (trusted_devices d)).

(** An INSERT or UPDATE of one row. *)
Definition write_device (id : string) (row : DeviceRow) : Tx PeerDB unit :=
  d ← tx_read;
  _ ← constraint (device_row_checks id row && unique_row id row d);
  tx_write (set_device id row d).

(** trust_events: its CHECK holds of both events the code writes. *)
Definition insert_event (e : TrustEvent) : Tx PeerDB unit := d ← tx_read; tx_write (add_event e d).

(** ** TrustRepository *)

Definition trust_state_string (s : TrustState) : string :=
  match s with TrustActive => "active" | TrustRevoked => "revoked" | TrustOther v => v end.
Definition trust_state_of_string (v : string) : TrustState :=
  if bool_decide (v = "active") then TrustActive else if bool_decide (v = "revoked") then TrustRevoked else TrustOther v.

Section Repository.
Context `{UnicodeCase} (sha256 : bytes → bytes).

Definition scanTrustedPeer (id : string) (row : DeviceRow) : result Peer :=
  parsedDeviceID ← Device_ParseID id;
  parsedPairID ← ParsePairID (td_pair_id row);
  let peer := MkPeer parsedPairID parsedDeviceID (td_public_key row) (default [] (td_secret row))
    (td_name row) (td_role row) (trust_state_of_string (td_state row)) (td_platform row) (td_arch row)
    (wrap_uint32 (td_cpus row)) (wrap_uint64 (td_memory row)) (td_tools row) (td_executors row)
    (from_unix_nano <$> td_hints_ns row) (from_unix_nano (td_paired_ns row)) (from_unix_nano (td_updated_ns row))
    (from_unix_nano <$> td_revoked_ns row) in
  _ ← reject_if ((td_cpus row <? 0) || (td_memory row <? 0))%Z [TrustErrInvalidPeer];
  _ ← Peer_Validate sha256 peer;
  Ok peer.

Definition queryTrustedPeer (id : string) : Tx PeerDB Peer :=
  d ← tx_read;
  match trusted_devices d !! id with
  | None => tx_lift (Err [SqlErrNoRows])
  | Some row => tx_lift (scanTrustedPeer id row)
  end.

Definition nullableSecret (secret : bytes) : option bytes := match secret with [] => None | _ => Some secret end.

(** The row that INSERT ... ON CONFLICT DO UPDATE leaves: hints of a revoked row stay. *)
Definition activated_row (peer : Peer) (old : option DeviceRow) : DeviceRow :=
  let row := MkDeviceRow (PairID peer) (PublicKey peer) (PeerNameOf peer) (PeerRoleOf peer) (trust_state_string (PeerState peer)) in
  let paired := unix_nano (PairedAt peer) in
  let updated := unix_nano (PeerUpdatedAt peer) in
  let secret := nullableSecret (ConnectivitySecret peer) in
  match old with
  | None => row "" "" 0%Z 0%Z [] [] None paired updated None secret
  | Some o => row (td_platform o) (td_arch o) (td_cpus o) (td_memory o) (td_tools o) (td_executors o) (td_hints_ns o)
      paired updated None secret
  end.

(** The upsert; an active row of the device would be left alone. *)
Definition upsert_device (peer : Peer) : Tx PeerDB unit :=
  d ← tx_read;
  match trusted_devices d !! DeviceID peer with
  | Some old =>
      if bool_decide (td_state old = "revoked") then write_device (DeviceID peer) (activated_row peer (Some old))
      else mret tt
  | None => write_device (DeviceID peer) (activated_row peer None)
  end.

Definition other_orchestrator (id : string) (d : PeerDB) : bool :=
  existsb (λ kv, active_orchestrator kv.2 && negb (bool_decide (kv.1 = id))) (map_to_list (trusted_devices d)).

(** [Activate] once no active row of the device is known. *)
Definition activate_new (peer : Peer) : Tx PeerDB unit :=
  d ← tx_read;
  _ ← tx_lift (reject_if (bool_decide (PeerRoleOf peer = RoleOrchestrator) && other_orchestrator (DeviceID peer) d)
        [TrustErrConflict]);
  r ← tx_try (upsert_device peer);
  match r with
  | Err e => tx_lift (Err (if isConstraintError e then [TrustErrConflict] else e))
  | Ok _ => insert_event (MkTrustEvent (DeviceID peer) (PairID peer) "paired" (unix_nano (PairedAt peer)))
  end.

Definition Activate (peer : Peer) : Tx PeerDB unit :=
  _ ← tx_lift (Peer_Validate sha256 peer);
  _ ← tx_lift (reject_if (negb (bool_decide (PeerState peer = TrustActive))) [TrustErrInvalidPeer]);
  loaded ← tx_try (queryTrustedPeer (DeviceID peer));
  match loaded with
  | Ok existing =>
      if bool_decide (PeerState existing = TrustActive)
      then if bool_decide (PairID existing = PairID peer) && bool_decide (PublicKey existing = PublicKey peer)
           then mret tt else tx_lift (Err [TrustErrConflict])
      else activate_new peer
  | Err e => if errors_is e SqlErrNoRows then activate_new peer else tx_lift (Err e)
  end.

Definition Trust_Get (id : string) : Tx PeerDB Peer :=
  _ ← tx_lift (reject_if (negb (DeviceID_Valid id)) [DeviceErrInvalidID]);
  on_no_rows [TrustErrNotFound] (queryTrustedPeer id).

(** ORDER BY CASE state WHEN 'active' THEN 0 ELSE 1 END, name, device_id. *)
Definition device_order (a b : string * DeviceRow) : Prop :=
  let active := λ kv : string * DeviceRow, bool_decide (td_state kv.2 = "active") in
  (active a = true ∧ active b = false) ∨
  active a = active b ∧ str2_leb (td_name a.2, a.1) (td_name b.2, b.1) = true.
#[global] Instance device_order_dec : RelDecision device_order.
Proof. intros a b. unfold device_order. apply _. Defined.

Fixpoint scan_devices (rows : list (string * DeviceRow)) : result (list Peer) :=
  match rows with
  | [] => Ok []
  | (id, row) :: rest => peer ← scanTrustedPeer id row; peers ← scan_devices rest; Ok (peer :: peers)
  end.

Definition Trust_List : Tx PeerDB (list Peer) :=
  d ← tx_read;
  tx_lift (scan_devices (merge_sort device_order (map_to_list (trusted_devices d)))).

Definition revoked_row (row : DeviceRow) (at_ns : Z) : DeviceRow :=
  MkDeviceRow (td_pair_id row) (td_public_key row) (td_name row) (td_role row) "revoked" (td_platform row) (td_arch row)
    (td_cpus row) (td_memory row) (td_tools row) (td_executors row) (td_hints_ns row) (td_paired_ns row) at_ns (Some at_ns) None.

(** UPDATE ... WHERE device_id = ? AND state = 'active' AND updated_at_ns = ?; the
    number of rows changed. *)
Definition update_revoked (id : string) (at_ns updated_ns : Z) : Tx PeerDB nat :=
  d ← tx_read;
  match trusted_devices d !! id with
  | Some row =>
      if bool_decide (td_state row = "active") && (td_updated_ns row =? updated_ns)%Z
      then _ ← write_device id (revoked_row row at_ns); mret 1 else mret 0
  | None => mret 0
  end.

Definition revoked_peer (peer : Peer) (at_ : Z) : Peer :=
  MkPeer (PairID peer) (DeviceID peer) (PublicKey peer) [] (PeerNameOf peer) (PeerRoleOf peer) TrustRevoked
    (Platform peer) (Architecture peer) (LogicalCPUCount peer) (TotalMemoryBytes peer) (ToolIDs peer)
    (SupportedExecutors peer) (HintsObservedAt peer) (PairedAt peer) at_ (Some at_).

Definition Revoke (id : string) (at_ : Z) : Tx PeerDB Peer :=
  _ ← tx_lift (reject_if (negb (DeviceID_Valid id) || is_zero_time at_) [TrustErrInvalidPeer]);
  peer ← on_no_rows [TrustErrNotFound] (queryTrustedPeer id);
  if bool_decide (PeerState peer = TrustRevoked) then mret peer
  else
    let at_ := if before at_ (PeerUpdatedAt peer) then PeerUpdatedAt peer else at_ in
    changed ← update_revoked id (unix_nano at_) (unix_nano (PeerUpdatedAt peer));
    _ ← tx_lift (reject_if (negb (bool_decide (changed = 1))) [TrustErrConflict]);
    _ ← insert_event (MkTrustEvent id (PairID peer) "revoked" (unix_nano at_));
    mret (revoked_peer peer at_).

Definition hinted_row (row : DeviceRow) (hints : PeerHints) : DeviceRow :=
  MkDeviceRow (td_pair_id row) (td_public_key row) (td_name row) (td_role row) (td_state row)
    (hint_Platform hints) (hint_Architecture hints) (hint_LogicalCPUCount hints) (wrap_int64 (hint_TotalMemoryBytes hints))
    (json_strings (hint_ToolIDs hints)) (json_strings (hint_SupportedExecutors hints)) (Some (unix_nano (hint_ObservedAt hints)))
    (td_paired_ns row) (td_updated_ns row) (td_revoked_ns row) (td_secret row).

Definition update_hints (id : string) (hints : PeerHints) : Tx PeerDB nat :=
  d ← tx_read;
  match trusted_devices d !! id with
  | Some row =>
      if bool_decide (td_state row = "active") then _ ← write_device id (hinted_row row hints); mret 1 else mret 0
  | None => mret 0
  end.

Definition UpdateHints (id : string) (hints : PeerHints) : Tx PeerDB Peer :=
  _ ← tx_lift (reject_if (negb (DeviceID_Valid id)) [DeviceErrInvalidID]);
  _ ← tx_lift (Hints_Validate hints);
  peer ← on_no_rows [TrustErrNotFound] (queryTrustedPeer id);
  if negb (bool_decide (PeerState peer = TrustActive)) then mret peer
  else if match HintsObservedAt peer with Some seen => before (hint_ObservedAt hints) seen | None => false end then mret peer
  else
    changed ← update_hints id hints;
    _ ← tx_lift (reject_if (negb (bool_decide (changed = 1))) [TrustErrConflict]);
    queryTrustedPeer id.

(** ** Placements *)

Record Placement := MkPlacement { Pl_JobID : string; Pl_WorkerID : string; Pl_PlacedAt : Z }.

Definition Placement_Validate (value : Placement) : result unit :=
  reject_if (negb (ID_Valid (Pl_JobID value)) || negb (DeviceID_Valid (Pl_WorkerID value))
    || is_zero_time (Pl_PlacedAt value)) [PlacementErrInvalid].

(** The constraints of remote_job_placements: primary key, CHECKs and the foreign key. *)
Definition insert_placement (value : Placement) : Tx PeerDB unit :=
  d ← tx_read;
  let row := MkPlacementRow (Pl_WorkerID value) (unix_nano (Pl_PlacedAt value)) in
  _ ← constraint (bool_decide (remote_job_placements d !! Pl_JobID value = None)
        && (sql_length (Pl_JobID value) =? 36)%Z && (sql_length (pl_worker row) =? 52)%Z && (0 <? pl_placed_ns row)%Z
        && negb (bool_decide (trusted_devices d !! pl_worker row = None)));
  tx_write (MkPeerDB (trusted_devices d) (trust_events d) (<[Pl_JobID value := row]> (remote_job_placements d))).

Definition Placement_Get (id : string) : Tx PeerDB Placement :=
  _ ← tx_lift (reject_if (negb (ID_Valid id)) [JobErrInvalidID]);
  d ← tx_read;
  match remote_job_placements d !! id with
  | None => tx_lift (Err [PlacementErrNotFound])
  | Some row =>
      workerID ← tx_lift (Device_ParseID (pl_worker row));
      let value := MkPlacement id workerID (from_unix_nano (pl_placed_ns row)) in
      _ ← tx_lift (Placement_Validate value);
      mret value
  end.

(** The INSERT and the SELECT that follows its failure are two accesses. *)
Definition Placement_Create (value : Placement) : M PeerDB unit :=
  _ ← lift (Placement_Validate value);
  inserted ← try_ (atomically (insert_placement value));
  match inserted with
  | Ok _ => mret tt
  | Err e =>
      if negb (isConstraintError e) then fail e
      else
        loaded ← try_ (atomically (Placement_Get (Pl_JobID value)));
        match loaded with
        | Ok existing => if bool_decide (Pl_WorkerID existing = Pl_WorkerID value) then mret tt else fail [PlacementErrConflict]
        | Err e' => if errors_is e' PlacementErrNotFound then fail [PlacementErrConflict] else fail e'
        end
  end.

End Repository.

(** ** Well-formed peers *)

Section Validity.
Context `{UnicodeCase} (sha256 : bytes → bytes) (Hsha : ∀ c, length (sha256 c) = 32).

Record identity_ok (pair id : string) (key secret : bytes) (name role : string) : Prop := {
  io_key : pins_key sha256 key id = true;
  io_pair : PairID_Valid pair = true;
  io_name : failed (ValidateName name) = false;
  io_secret : secret = [] ∨ Secret_Valid secret = true;
  io_role : known_role role = true
}.

Record hints_ok (platform arch : string) (cpus memory : Z) (tools executors : list string) (seen : option Z) : Prop := {
  ho_platform : hint_ok platform = true;
  ho_arch : hint_ok arch = true;
  ho_cpus : (cpus ≤ 4096)%Z;
  ho_tools : validateToolIDs tools = true;
  ho_executors : validateSupportedExecutors executors = true;
  ho_seen : match seen with
    | Some at_ => is_zero_time at_ = false
    | None => platform = "" ∧ arch = "" ∧ cpus = 0%Z ∧ memory = 0%Z ∧ tools = [] ∧ executors = [] end
}.

Definition times_ok (state : TrustState) (paired updated : Z) (revoked : option Z) : Prop :=
  is_zero_time paired = false ∧ (paired ≤ updated)%Z ∧
  match state with
  | TrustActive => revoked = None
  | TrustRevoked => revoked = Some updated
  | TrustOther _ => False
  end.

Lemma peer_validate_iff p :
  Peer_Validate sha256 p = Ok tt ↔
  identity_ok (PairID p) (DeviceID p) (PublicKey p) (ConnectivitySecret p) (PeerNameOf p) (PeerRoleOf p) ∧
  hints_ok (Platform p) (Architecture p) (LogicalCPUCount p) (TotalMemoryBytes p) (ToolIDs p) (SupportedExecutors p)
    (HintsObservedAt p) ∧
  times_ok (PeerState p) (PairedAt p) (PeerUpdatedAt p) (RevokedAt p).
Proof.
  unfold Peer_Validate, before, times_ok. split.
  - intros (u1 & Hc & (u2 & Hh & Ht)%result_bind_ok)%result_bind_ok. apply reject_if_ok in Hc. reflect_bools.
    split_and!; try done.
    + constructor; try done. destruct (decide (ConnectivitySecret p = [])); [by left|right].
      match goal with E : _ && _ = false |- _ => apply andb_false_iff in E as [E|E]; reflect_bools; done end.
    + constructor; try done. destruct (HintsObservedAt p); apply reject_if_ok in Hh; [done|]. by reflect_bools.
    + destruct (PeerState p); [|destruct (RevokedAt p) as [at_|]; [|done]|done]; apply reject_if_ok in Ht; reflect_bools.
      * done.
      * congruence.
  - intros ([Hk Hp Hn Hs Hr] & [H1 H2 H3 H4 H5 H6] & Hz & Hle & Hst).
    rewrite Hk, Hp, Hn, Hr, H1, H2, H4, H5, Hz, (proj2 (Z.ltb_ge 4096 _)), (proj2 (Z.ltb_ge (PeerUpdatedAt p) _)) by lia.
    assert (negb (bool_decide (ConnectivitySecret p = [])) && negb (Secret_Valid (ConnectivitySecret p)) = false) as ->.
    { destruct Hs as [->| ->]; [done|]. by rewrite andb_false_r. }
    cbn [negb orb reject_if mbind result_bind]. destruct (HintsObservedAt p) as [at_|].
    + rewrite H6. cbn [reject_if mbind result_bind]. destruct (PeerState p); [by rewrite Hst| |done].
      rewrite Hst, Z.eqb_refl, (proj2 (Z.ltb_ge _ _)) by lia. done.
    + destruct H6 as (-> & -> & -> & -> & -> & ->). cbn [reject_if mbind result_bind orb negb bool_decide].
      destruct (PeerState p); [by rewrite Hst| |done]. rewrite Hst, Z.eqb_refl, (proj2 (Z.ltb_ge _ _)) by lia. done.
Qed.

(** The peer that a row stands for. *)
Definition peer_of (id : string) (row : DeviceRow) : Peer :=
  MkPeer (td_pair_id row) id (td_public_key row) (default [] (td_secret row)) (td_name row) (td_role row)
    (trust_state_of_string (td_state row)) (td_platform row) (td_arch row) (td_cpus row) (td_memory row) (td_tools row)
    (td_executors row) (td_hints_ns row) (td_paired_ns row) (td_updated_ns row) (td_revoked_ns row).

Definition row_valid (id : string) (row : DeviceRow) : Prop :=
  device_row_checks id row = true ∧ DeviceID_Valid id = true ∧ (0 ≤ td_memory row < 2 ^ 63)%Z ∧
  Peer_Validate sha256 (peer_of id row) = Ok tt.

Lemma checks_cpus id row : device_row_checks id row = true → (0 ≤ td_cpus row ≤ 4096)%Z ∧ (0 ≤ td_memory row)%Z.
Proof. unfold device_row_checks, hint_checks, between. intros. reflect_bools. lia. Qed.

Lemma scan_valid id row : device_row_checks id row = true → (td_memory row < 2 ^ 63)%Z →
  ∀ peer, scanTrustedPeer sha256 id row = Ok peer ↔ row_valid id row ∧ peer = peer_of id row.
Proof.
  intros Hc Hm peer. destruct (checks_cpus id row Hc) as [Hcpu Hmem]. unfold scanTrustedPeer, row_valid, DeviceID_Valid, Device_ParseID, ParsePairID.
  unfold wrap_uint32, wrap_uint64. rewrite !Z.mod_small by lia.
  assert ((td_cpus row <? 0) || (td_memory row <? 0) = false)%Z as Hneg by (rewrite !(proj2 (Z.ltb_ge _ _)) by lia; done).
  rewrite Hneg. assert (∀ o : option Z, from_unix_nano <$> o = o) as Hid by (by intros []). rewrite !Hid.
  destruct (canonical_base32 encodedIDLength 32 id); [|split; [done|by intros [(_ & ? & _) _]]].
  cbn [mbind result_bind reject_if].
  destruct (canonical_base32 encodedPairIDLength 16 (td_pair_id row)) eqn:Ep; cbn [mbind result_bind].
  - change (MkPeer (td_pair_id row) id _ _ _ _ _ _ _ _ _ _ _ _ _ _ _) with (peer_of id row). split.
    + intros (u & Hv & [= <-])%result_bind_ok. destruct u. split_and!; done || lia.
    + intros [(_ & _ & _ & ->) ->]. done.
  - split; [done|]. intros [(_ & _ & _ & Hv) _]. apply peer_validate_iff in Hv as ([_ Hp] & _).
    unfold PairID_Valid, ParsePairID in Hp. cbn [PairID peer_of] in Hp. by rewrite Ep in Hp.
Qed.

Lemma pins_valid key id : pins_key sha256 key id = true → DeviceID_Valid id = true.
Proof.
  unfold pins_key. destruct (IDFromPublicKey sha256 key) as [derived|] eqn:E; [|done]. intros Hb. reflect_bools. subst.
  by eapply fingerprint_valid.
Qed.

End Validity.

(** ** The invariant of the trust tables *)

Definition trail (id : string) (events : list TrustEvent) : list TrustEvent := filter (λ e, te_device e = id) events.

Definition event_name (active : bool) : string := if active then "paired" else "revoked".
Definition is_active (row : DeviceRow) : bool := bool_decide (td_state row = "active").

(** The trail of a device alternates between pairing and revocation, and its last
    event is the state of its row. *)
Definition audit_ok (id : string) (row : option DeviceRow) (events : list TrustEvent) : Prop :=
  (∀ k e, trail id events !! k = Some e → te_event e = event_name (Nat.even k)) ∧
  match row with
  | None => trail id events = []
  | Some row => ∃ front, trail id events =
      front ++ [MkTrustEvent id (td_pair_id row) (event_name (is_active row))
        (if is_active row then td_paired_ns row else td_updated_ns row)]
  end.

Record peers_ok `{UnicodeCase} (sha256 : bytes → bytes) (d : PeerDB) : Prop := {
  po_rows : map_Forall (row_valid sha256) (trusted_devices d);
  po_pairs : ∀ i j r s, trusted_devices d !! i = Some r → trusted_devices d !! j = Some s →
    td_pair_id r = td_pair_id s → i = j;
  po_orchestrator : ∀ i j r s, trusted_devices d !! i = Some r → trusted_devices d !! j = Some s →
    active_orchestrator r = true → active_orchestrator s = true → i = j;
  po_audit : ∀ id, audit_ok id (trusted_devices d !! id) (trust_events d)
}.

Section Invariant.
Context `{UnicodeCase} (sha256 : bytes → bytes) (Hsha : ∀ c, length (sha256 c) = 32).

Lemma trail_add id e events : trail id (events ++ [e]) = trail id events ++ (if bool_decide (te_device e = id) then [e] else []).
Proof. unfold trail. rewrite filter_app. f_equal. rewrite filter_cons. simpl. case_bool_decide; by case_decide. Qed.

(** Appending the next event of a device keeps the trail. *)
Lemma audit_add id row row' at_ events :
  audit_ok id row events → is_active row' = (match row with Some r => negb (is_active r) | None => true end) →
  at_ = (if is_active row' then td_paired_ns row' else td_updated_ns row') →
  audit_ok id (Some row') (events ++ [MkTrustEvent id (td_pair_id row') (event_name (is_active row')) at_]).
Proof.
  intros [Halt Hlast] Hact ->. unfold audit_ok. rewrite trail_add. cbn [te_device]. rewrite bool_decide_true by done.
  split; [|by eexists]. intros k e. rewrite lookup_snoc_Some. intros [[_ Hk]|[-> <-]]; [by apply Halt|]. cbn [te_event].
  f_equal. rewrite Hact. destruct row as [r|].
  - destruct Hlast as (front & Hl). rewrite Hl in Halt |- *. rewrite length_app, Nat.add_1_r, Nat.even_succ, <-Nat.negb_even.
    f_equal. specialize (Halt (length front)). rewrite list_lookup_middle in Halt by done. specialize (Halt _ eq_refl).
    cbn [te_event] in Halt. by destruct (is_active r), (Nat.even (length front)).
  - by rewrite Hlast.
Qed.

Lemma audit_other id row e events : te_device e ≠ id → audit_ok id row events → audit_ok id row (events ++ [e]).
Proof. intros He. unfold audit_ok. rewrite trail_add, bool_decide_false, app_nil_r by done. done. Qed.

Lemma write_device_ok id row d u d' :
  write_device id row d = Ok (u, d') ↔ device_row_checks id row = true ∧ unique_row id row d = true ∧ d' = set_device id row d.
Proof.
  unfold write_device, constraint, mbind, Tx_bind, tx_read, tx_lift, tx_write. destruct u.
  destruct (device_row_checks id row), (unique_row id row d); simpl; naive_solver.
Qed.

Lemma unique_row_spec id row d k r :
  unique_row id row d = true → trusted_devices d !! k = Some r → k ≠ id →
  td_pair_id r ≠ td_pair_id row ∧ active_orchestrator r && active_orchestrator row = false.
Proof.
  unfold unique_row. rewrite forallb_forall. intros Hall Hk Hne.
  specialize (Hall (k, r)). rewrite <-list_elem_of_In, elem_of_map_to_list in Hall. specialize (Hall Hk). cbn [fst snd] in Hall.
  rewrite bool_decide_false in Hall by done. cbn [orb] in Hall. reflect_bools. done.
Qed.

(** A row the constraints allow, with the event it calls for, keeps the invariant. *)
Lemma peers_ok_write id row d events :
  peers_ok sha256 d → row_valid sha256 id row → unique_row id row d = true →
  (∀ k, k ≠ id → audit_ok k (trusted_devices d !! k) events) → audit_ok id (Some row) events →
  peers_ok sha256 (MkPeerDB (<[id := row]> (trusted_devices d)) events (remote_job_placements d)).
Proof.
  intros [Hr Hp Ho Ha] Hrow Hu Haud Haud'. constructor; cbn [trusted_devices trust_events].
  - by apply map_Forall_insert_2.
  - intros i j r s. rewrite !lookup_insert_Some. intros [[<- <-]|[Hi Hir]] [[<- <-]|[Hj Hjs]] E; try done.
    + destruct (unique_row_spec id row d j s Hu Hjs ltac:(done)) as [Hne _]. congruence.
    + destruct (unique_row_spec id row d i r Hu Hir ltac:(done)) as [Hne _]. congruence.
    + by eapply Hp.
  - intros i j r s. rewrite !lookup_insert_Some. intros [[<- <-]|[Hi Hir]] [[<- <-]|[Hj Hjs]] E1 E2; try done.
    + destruct (unique_row_spec id row d j s Hu Hjs ltac:(done)) as [_ Hne]. by rewrite E1, E2 in Hne.
    + destruct (unique_row_spec id row d i r Hu Hir ltac:(done)) as [_ Hne]. by rewrite E1, E2 in Hne.
    + by eapply Ho.
  - intros k. destruct (decide (k = id)) as [->|Hne]; [by rewrite lookup_insert_eq|]. rewrite lookup_insert_ne by done. by apply Haud.
Qed.

Lemma query_ok id d peer d' :
  peers_ok sha256 d → queryTrustedPeer sha256 id d = Ok (peer, d') ↔
  d' = d ∧ ∃ row, trusted_devices d !! id = Some row ∧ peer = peer_of id row.
Proof.
  intros Hd. unfold queryTrustedPeer, mbind, Tx_bind, tx_read, tx_lift. destruct (trusted_devices d !! id) as [row|] eqn:E.
  - pose proof (po_rows _ _ Hd _ _ E) as Hr. pose proof Hr as (Hc & _ & Hm & _).
    pose proof (scan_valid sha256 id row Hc ltac:(lia)) as Hs. split.
    + destruct (scanTrustedPeer sha256 id row) as [p|]; [|done]. intros [= <- <-]. split; [done|]. exists row.
      split; [done|]. by apply Hs.
    + intros (-> & row' & [= <-] & ->). by rewrite (proj2 (Hs (peer_of id row)) (conj Hr eq_refl)).
  - split; [done|]. by intros (_ & row & ? & _).
Qed.

(** [List] returns the peer of every row. *)
Lemma list_run d : peers_ok sha256 d →
  Trust_List sha256 d = Ok (map (λ kv, peer_of kv.1 kv.2) (merge_sort device_order (map_to_list (trusted_devices d))), d).
Proof.
  intros Hd. unfold Trust_List, mbind, Tx_bind, tx_read, tx_lift.
  assert (Forall (λ kv, row_valid sha256 kv.1 kv.2) (merge_sort device_order (map_to_list (trusted_devices d)))) as Hall.
  { apply Forall_forall. intros [id row]. rewrite (merge_sort_Permutation device_order), elem_of_map_to_list. apply (po_rows _ _ Hd). }
  assert (∀ rows, Forall (λ kv, row_valid sha256 kv.1 kv.2) rows →
    scan_devices sha256 rows = Ok (map (λ kv, peer_of kv.1 kv.2) rows)) as Hscan; [|by rewrite Hscan].
  intros rows. induction 1 as [|[id row] rows Hr Hrows IH]; [done|]. cbn [scan_devices map fst snd] in *.
  pose proof Hr as (Hc & _ & Hm & _). rewrite (proj2 (scan_valid sha256 id row Hc ltac:(lia) (peer_of id row)) (conj Hr eq_refl)).
  cbn [mbind result_bind]. by rewrite IH.
Qed.

Lemma listed_peers d p : p ∈ map (λ kv, peer_of kv.1 kv.2) (merge_sort device_order (map_to_list (trusted_devices d))) ↔
  ∃ id row, trusted_devices d !! id = Some row ∧ p = peer_of id row.
Proof.
  rewrite list_elem_of_fmap. split.
  - intros ([id row] & -> & Hin). rewrite (merge_sort_Permutation device_order), elem_of_map_to_list in Hin. by exists id, row.
  - intros (id & row & Hrow & ->). exists (id, row). split; [done|]. by rewrite (merge_sort_Permutation device_order), elem_of_map_to_list.
Qed.

Lemma row_state id row : row_valid sha256 id row →
  is_active row = true ∧ trust_state_of_string (td_state row) = TrustActive ∨
  is_active row = false ∧ td_state row = "revoked" ∧ trust_state_of_string (td_state row) = TrustRevoked.
Proof.
  intros (_ & _ & _ & (_ & _ & _ & _ & Ht)%peer_validate_iff). cbn [peer_of PeerState] in Ht. unfold is_active, trust_state_of_string in *.
  destruct (bool_decide (td_state row = "active")) eqn:E; [by left|right].
  destruct (bool_decide (td_state row = "revoked")) eqn:E2; reflect_bools; done.
Qed.

Lemma unix_not_zero t : is_zero_time (unix_nano t) = false.
Proof.
  unfold is_zero_time, zero_time, unix_nano. pose proof (wrap_int64_range t) as Hr. unfold int64_range in Hr.
  apply Z.eqb_neq. lia.
Qed.

Lemma checks_times id row : device_row_checks id row = true → (td_paired_ns row ≤ td_updated_ns row)%Z.
Proof. unfold device_row_checks, identity_checks. intros. by reflect_bools. Qed.

Lemma default_nullable secret : default [] (nullableSecret secret) = secret.
Proof. by destruct secret. Qed.

(** The row that [Activate] writes stands for a valid active peer. *)
Lemma activated_valid peer old :
  Peer_Validate sha256 peer = Ok tt → PeerState peer = TrustActive →
  (∀ o, old = Some o → row_valid sha256 (DeviceID peer) o) →
  device_row_checks (DeviceID peer) (activated_row peer old) = true →
  row_valid sha256 (DeviceID peer) (activated_row peer old) ∧ is_active (activated_row peer old) = true.
Proof.
  intros Hv Hact Hold Hc. apply peer_validate_iff in Hv as (Hi & _ & Ht).
  assert (td_state (activated_row peer old) = "active") as Hst by (unfold activated_row; rewrite Hact; by destruct old).
  split; [|unfold is_active; by rewrite bool_decide_true].
  split; [done|]. split; [by eapply pins_valid; [exact Hsha|apply Hi]|]. split.
  { destruct old as [o|]; [|simpl; lia]. destruct (Hold o eq_refl) as (_ & _ & Hm & _). exact Hm. }
  apply peer_validate_iff. cbn [peer_of PairID DeviceID PublicKey ConnectivitySecret PeerNameOf PeerRoleOf Platform Architecture
    LogicalCPUCount TotalMemoryBytes ToolIDs SupportedExecutors HintsObservedAt PeerState PairedAt PeerUpdatedAt RevokedAt].
  split_and!.
  - destruct Hi as [? ? ? ? ?]. destruct old; constructor; cbn; rewrite ?default_nullable; done.
  - destruct old as [o|]; [|by constructor]. destruct (Hold o eq_refl) as (_ & _ & _ & (_ & Hh & _)%peer_validate_iff). exact Hh.
  - unfold times_ok. rewrite Hst. pose proof (checks_times _ _ Hc) as Hle. split_and!; [|done|by destruct old].
    destruct old; apply unix_not_zero.
Qed.

(** *** What successful operations do *)

Lemma upsert_ok peer d u d' :
  (∀ o, trusted_devices d !! DeviceID peer = Some o → td_state o = "revoked") → upsert_device peer d = Ok (u, d') →
  let row := activated_row peer (trusted_devices d !! DeviceID peer) in
  device_row_checks (DeviceID peer) row = true ∧ unique_row (DeviceID peer) row d = true ∧ d' = set_device (DeviceID peer) row d.
Proof.
  intros Hold. unfold upsert_device. intros (d0 & d1 & [-> ->]%tx_read_ok & Hrun)%tx_bind_ok.
  destruct (trusted_devices d !! DeviceID peer) as [o|]; [|by apply write_device_ok in Hrun].
  rewrite bool_decide_true in Hrun by (by apply Hold). by apply write_device_ok in Hrun.
Qed.

Lemma activate_new_ok peer d u d' :
  (∀ o, trusted_devices d !! DeviceID peer = Some o → td_state o = "revoked") → activate_new peer d = Ok (u, d') →
  let row := activated_row peer (trusted_devices d !! DeviceID peer) in
  device_row_checks (DeviceID peer) row = true ∧ unique_row (DeviceID peer) row d = true ∧
  d' = add_event (MkTrustEvent (DeviceID peer) (PairID peer) "paired" (unix_nano (PairedAt peer))) (set_device (DeviceID peer) row d).
Proof.
  intros Hold. unfold activate_new, insert_event. intros (d0 & d1 & [-> ->]%tx_read_ok & Hrun)%tx_bind_ok.
  apply tx_bind_ok in Hrun as (u1 & d1 & [_ ->]%tx_lift_ok & Hrun). apply tx_bind_ok in Hrun as (r & d2 & Htry & Hrun).
  unfold tx_try in Htry. destruct (upsert_device peer d) as [[u2 d3]|e] eqn:Eu.
  - injection Htry as <- <-. invert_tx Hrun. destruct (upsert_ok _ _ _ _ Hold Eu) as (? & ? & ->). done.
  - injection Htry as <- <-. by apply tx_lift_ok in Hrun as [? _].
Qed.

Lemma activate_ok peer d u d' :
  peers_ok sha256 d → Activate sha256 peer d = Ok (u, d') →
  Peer_Validate sha256 peer = Ok tt ∧ PeerState peer = TrustActive ∧
  let row := activated_row peer (trusted_devices d !! DeviceID peer) in
  (d' = d ∧ ∃ old, trusted_devices d !! DeviceID peer = Some old ∧ is_active old = true ∧
     td_pair_id old = PairID peer ∧ td_public_key old = PublicKey peer) ∨
  (∀ o, trusted_devices d !! DeviceID peer = Some o → td_state o = "revoked") ∧
  device_row_checks (DeviceID peer) row = true ∧ unique_row (DeviceID peer) row d = true ∧
  d' = add_event (MkTrustEvent (DeviceID peer) (PairID peer) "paired" (unix_nano (PairedAt peer))) (set_device (DeviceID peer) row d).
Proof.
  intros Hd. unfold Activate. intros (u1 & d1 & [Hv ->]%tx_lift_ok & Hrun)%tx_bind_ok.
  apply tx_bind_ok in Hrun as (u2 & d2 & [Hs ->]%tx_lift_ok & Hrun). apply reject_if_ok in Hs. reflect_bools.
  destruct u1. split; [done|]. split; [done|]. apply tx_bind_ok in Hrun as (loaded & d2 & Htry & Hrun). unfold tx_try in Htry.
  destruct (queryTrustedPeer sha256 (DeviceID peer) d) as [[existing d3]|e] eqn:Eq; injection Htry as <- <-.
  - apply query_ok in Eq as (-> & row & Hrow & ->); [|done]. pose proof (row_state _ _ (po_rows _ _ Hd _ _ Hrow)) as Hst.
    cbn [peer_of PeerState PairID PublicKey] in Hrun. destruct Hst as [[Hact Hst]|(Hact & Hrev & Hst)]; rewrite Hst in Hrun.
    + rewrite bool_decide_true in Hrun by done. left. destruct (_ && _) eqn:E; [|by apply tx_lift_ok in Hrun as [? _]].
      reflect_bools. apply tx_ret_ok in Hrun as [_ ->]. split; [done|]. by exists row.
    + rewrite bool_decide_false in Hrun by done. right. split; [by rewrite Hrow; intros o [= <-]|].
      apply activate_new_ok in Hrun as (? & ? & ->); [done|]. rewrite Hrow. by intros o [= <-].
  - destruct (errors_is e SqlErrNoRows) eqn:Ee; [|by apply tx_lift_ok in Hrun as [? _]].
    assert (trusted_devices d !! DeviceID peer = None) as Hnone.
    { destruct (trusted_devices d !! DeviceID peer) as [row|] eqn:E; [|done].
      rewrite (proj2 (query_ok (DeviceID peer) d (peer_of (DeviceID peer) row) d Hd)) in Eq; [done|]. split; [done|]. by exists row. }
    right. split; [by rewrite Hnone|]. apply activate_new_ok in Hrun as (? & ? & ->); [done|]. by rewrite Hnone.
Qed.

Lemma revoke_ok id at_ d peer d' :
  peers_ok sha256 d → Revoke sha256 id at_ d = Ok (peer, d') →
  ∃ row, trusted_devices d !! id = Some row ∧
  (d' = d ∧ is_active row = false ∧ peer = peer_of id row ∨
   ∃ at', at' = Z.max at_ (td_updated_ns row) ∧ is_active row = true ∧ peer = revoked_peer (peer_of id row) at' ∧
     device_row_checks id (revoked_row row (unix_nano at')) = true ∧ unique_row id (revoked_row row (unix_nano at')) d = true ∧
     d' = add_event (MkTrustEvent id (td_pair_id row) "revoked" (unix_nano at')) (set_device id (revoked_row row (unix_nano at')) d)).
Proof.
  intros Hd. unfold Revoke. intros (u1 & d1 & [_ ->]%tx_lift_ok & Hrun)%tx_bind_ok.
  apply tx_bind_ok in Hrun as (p & d2 & Hq%on_no_rows_ok & Hrun). apply query_ok in Hq as (-> & row & Hrow & ->); [|done].
  exists row. split; [done|]. cbn [peer_of PeerState PeerUpdatedAt PairID] in Hrun.
  destruct (row_state _ _ (po_rows _ _ Hd _ _ Hrow)) as [[Hact Hst]|(Hact & Hrev & Hst)]; rewrite Hst in Hrun.
  - right. rewrite bool_decide_false in Hrun by done. exists (Z.max at_ (td_updated_ns row)).
    assert ((if before at_ (td_updated_ns row) then td_updated_ns row else at_) = Z.max at_ (td_updated_ns row)) as Emax.
    { unfold before. destruct (_ <? _)%Z eqn:E; reflect_bools; lia. }
    cbv zeta in Hrun. rewrite Emax in Hrun. set (at' := Z.max at_ (td_updated_ns row)) in *.
    apply tx_bind_ok in Hrun as (changed & d3 & Hup & Hrun). apply tx_bind_ok in Hrun as (u2 & d4 & [Hc ->]%tx_lift_ok & Hrun).
    apply reject_if_ok in Hc. reflect_bools. subst changed. unfold update_revoked in Hup.
    apply tx_bind_ok in Hup as (d5 & d6 & [-> ->]%tx_read_ok & Hup). rewrite Hrow in Hup.
    destruct (bool_decide (td_state row = "active") && (td_updated_ns row =? unix_nano (td_updated_ns row))%Z) eqn:E; [|by apply tx_ret_ok in Hup as [? _]].
    apply tx_bind_ok in Hup as (u3 & d5 & (Hck & Hu & ->)%write_device_ok & Hup). apply tx_ret_ok in Hup as [_ ->].
    unfold insert_event in Hrun. invert_tx Hrun. by split_and!.
  - left. rewrite bool_decide_true in Hrun by done. by apply tx_ret_ok in Hrun as [-> ->].
Qed.

Lemma hints_ok_step id hints d peer d' :
  peers_ok sha256 d → UpdateHints sha256 id hints d = Ok (peer, d') →
  ∃ row, trusted_devices d !! id = Some row ∧
  (d' = d ∧ peer = peer_of id row ∨
   is_active row = true ∧ Hints_Validate hints = Ok tt ∧ unique_row id (hinted_row row hints) d = true ∧
   row_valid sha256 id (hinted_row row hints) ∧
   peer = peer_of id (hinted_row row hints) ∧ d' = set_device id (hinted_row row hints) d).
Proof.
  intros Hd. unfold UpdateHints. intros (u1 & d1 & [_ ->]%tx_lift_ok & Hrun)%tx_bind_ok.
  apply tx_bind_ok in Hrun as (u2 & d1 & [Hh ->]%tx_lift_ok & Hrun). destruct u2.
  apply tx_bind_ok in Hrun as (p & d2 & Hq%on_no_rows_ok & Hrun). apply query_ok in Hq as (-> & row & Hrow & ->); [|done].
  exists row. split; [done|]. cbn [peer_of PeerState HintsObservedAt] in Hrun.
  destruct (row_state _ _ (po_rows _ _ Hd _ _ Hrow)) as [[Hact Hst]|(Hact & Hrev & Hst)]; rewrite Hst in Hrun;
    [|left; rewrite bool_decide_false in Hrun by done; by apply tx_ret_ok in Hrun as [-> ->]].
  rewrite bool_decide_true in Hrun by done. cbn [negb] in Hrun.
  destruct (match td_hints_ns row with Some _ => _ | None => _ end); [left; by apply tx_ret_ok in Hrun as [-> ->]|right].
  apply tx_bind_ok in Hrun as (changed & d3 & Hup & Hrun). apply tx_bind_ok in Hrun as (u2 & d4 & [Hc ->]%tx_lift_ok & Hrun).
  apply reject_if_ok in Hc. reflect_bools. subst changed. unfold update_hints in Hup.
  apply tx_bind_ok in Hup as (d5 & d6 & [-> ->]%tx_read_ok & Hup). rewrite Hrow in Hup.
  destruct (bool_decide (td_state row = "active")) eqn:Ea; [|by apply tx_ret_ok in Hup as [? _]].
  apply tx_bind_ok in Hup as (u3 & d5 & (Hck & Hu & ->)%write_device_ok & Hup). apply tx_ret_ok in Hup as [_ ->].
  unfold queryTrustedPeer in Hrun. apply tx_bind_ok in Hrun as (d5 & d6 & [-> ->]%tx_read_ok & Hrun).
  cbn [set_device trusted_devices] in Hrun. rewrite lookup_insert_eq in Hrun. apply tx_lift_ok in Hrun as [Hs ->].
  apply scan_valid in Hs as [Hv ->]; [by split_and!|done|].
  unfold hinted_row. cbn [td_memory]. pose proof (wrap_int64_range (hint_TotalMemoryBytes hints)) as Hr. unfold int64_range in Hr. lia.
Qed.

End Invariant.

(** ** The trust tables as a state machine *)

Definition empty_peers : PeerDB := MkPeerDB ∅ [] ∅.

Inductive trust_step `{UnicodeCase} (sha256 : bytes → bytes) : relation PeerDB :=
| step_activate peer d d' : Activate sha256 peer d = Ok (tt, d') → trust_step sha256 d d'
| step_revoke id at_ peer d d' : Revoke sha256 id at_ d = Ok (peer, d') → trust_step sha256 d d'
| step_hints id hints peer d d' : UpdateHints sha256 id hints d = Ok (peer, d') → trust_step sha256 d d'
| step_place value d d' : Placement_Validate value = Ok tt → insert_placement value d = Ok (tt, d') → trust_step sha256 d d'.

(** What a step may do to the row of an active peer: refresh its hints, or revoke it. *)
Definition pin_kept (row row' : DeviceRow) : Prop :=
  td_pair_id row' = td_pair_id row ∧ td_public_key row' = td_public_key row ∧ td_name row' = td_name row ∧
  td_role row' = td_role row ∧ td_paired_ns row' = td_paired_ns row ∧
  (is_active row' = true ∧ td_secret row' = td_secret row ∧ td_updated_ns row' = td_updated_ns row ∨
   is_active row' = false ∧ td_secret row' = None).

Section Steps.
Context `{UnicodeCase} (sha256 : bytes → bytes) (Hsha : ∀ c, length (sha256 c) = 32).

Lemma empty_peers_ok : peers_ok sha256 empty_peers.
Proof. by constructor. Qed.

Lemma revoked_valid id row at_ns :
  row_valid sha256 id row → device_row_checks id (revoked_row row at_ns) = true →
  row_valid sha256 id (revoked_row row at_ns) ∧ is_active (revoked_row row at_ns) = false.
Proof.
  intros (_ & Hid & Hm & Hv) Hc. split; [|done]. split; [done|]. split; [done|]. split; [done|].
  apply peer_validate_iff in Hv as ([Hk Hp Hn _ Hr] & Hh & (Hz & _ & _)). apply peer_validate_iff. split_and!.
  - constructor; try done. by left.
  - done.
  - pose proof (checks_times _ _ Hc) as Hle. split_and!; done.
Qed.

Lemma insert_placement_ok value d u d' :
  insert_placement value d = Ok (u, d') → trusted_devices d' = trusted_devices d ∧ trust_events d' = trust_events d ∧
    remote_job_placements d !! Pl_JobID value = None ∧
    remote_job_placements d' = <[Pl_JobID value := MkPlacementRow (Pl_WorkerID value) (unix_nano (Pl_PlacedAt value))]> (remote_job_placements d).
Proof. unfold insert_placement. intros Hrun. invert_tx Hrun. done. Qed.

Lemma peers_ok_step d d' : peers_ok sha256 d → trust_step sha256 d d' → peers_ok sha256 d'.
Proof.
  intros Hd. destruct 1 as [peer d d' Hrun|id at_ peer d d' Hrun|id hints peer d d' Hrun|value d d' _ Hrun].
  - apply activate_ok in Hrun as (Hv & Hact & [[-> _]|(Hold & Hc & Hu & ->)]); [done| |done].
    destruct (activated_valid sha256 Hsha peer _ Hv Hact (λ o Ho, po_rows _ _ Hd _ _ Ho) Hc) as [Hrow Hactive].
    cbn [add_event set_device trusted_devices trust_events remote_job_placements].
    apply (peers_ok_write sha256 _ _ d); try done.
    + intros k Hk. apply audit_other; [done|]. apply (po_audit _ _ Hd).
    + set (row := activated_row peer _) in *.
      assert (MkTrustEvent (DeviceID peer) (PairID peer) "paired" (unix_nano (PairedAt peer))
        = MkTrustEvent (DeviceID peer) (td_pair_id row) (event_name (is_active row)) (td_paired_ns row)) as ->.
      { rewrite Hactive. unfold row, activated_row. by destruct (trusted_devices d !! DeviceID peer). }
      eapply audit_add; [apply (po_audit _ _ Hd)| |by rewrite Hactive]. rewrite Hactive.
      destruct (trusted_devices d !! DeviceID peer) as [o|] eqn:E; [|done]. unfold is_active. by rewrite (Hold o eq_refl).
  - apply revoke_ok in Hrun as (row & Hrow & [[-> _]|(at' & _ & Hact & _ & Hc & Hu & ->)]); [done| |done].
    destruct (revoked_valid id row _ (po_rows _ _ Hd _ _ Hrow) Hc) as [Hv Hnot].
    cbn [add_event set_device trusted_devices trust_events remote_job_placements]. apply (peers_ok_write sha256 _ _ d); try done.
    + intros k Hk. apply audit_other; [done|]. apply (po_audit _ _ Hd).
    + assert (MkTrustEvent id (td_pair_id row) "revoked" (unix_nano at')
        = MkTrustEvent id (td_pair_id (revoked_row row (unix_nano at'))) (event_name (is_active (revoked_row row (unix_nano at'))))
            (td_updated_ns (revoked_row row (unix_nano at')))) as -> by done.
      eapply audit_add; [apply (po_audit _ _ Hd)| |done]. by rewrite Hrow, Hact.
  - apply hints_ok_step in Hrun as (row & Hrow & [[-> _]|(Hact & _ & Hu & Hv & _ & ->)]); [done| |done].
    apply (peers_ok_write sha256 _ _ d); try done; [intros k _; apply (po_audit _ _ Hd)|].
    pose proof (po_audit _ _ Hd id) as Ha. rewrite Hrow in Ha. exact Ha.
  - apply insert_placement_ok in Hrun as (E1 & E2 & _). destruct Hd as [H1 H2 H3 H4].
    constructor; rewrite ?E1, ?E2; done.
Qed.

Lemma peers_ok_reachable d : rtc (trust_step sha256) empty_peers d → peers_ok sha256 d.
Proof.
  intros Hr. pose proof empty_peers_ok as Hd. induction Hr as [|d1 d2 d3 Hs Hr IH]; [done|]. eauto using peers_ok_step.
Qed.

Lemma pin_kept_step d d' id row :
  peers_ok sha256 d → trust_step sha256 d d' → trusted_devices d !! id = Some row → is_active row = true →
  ∃ row', trusted_devices d' !! id = Some row' ∧ pin_kept row row'.
Proof.
  intros Hd Hs Hrow Hact. assert (pin_kept row row) as Hsame by (split_and!; try done; by left).
  destruct Hs as [peer d d' Hrun|id' at_ peer d d' Hrun|id' hints peer d d' Hrun|value d d' _ Hrun].
  - apply activate_ok in Hrun as (_ & _ & [[-> _]|(Hold & _ & _ & ->)]); [by exists row| |done]. exists row. split; [|done].
    cbn [add_event set_device trusted_devices]. rewrite lookup_insert_ne; [done|]. intros <-. specialize (Hold row Hrow).
    unfold is_active in Hact. by rewrite Hold in Hact.
  - apply revoke_ok in Hrun as (row' & Hrow' & [[-> _]|(at' & _ & _ & _ & _ & _ & ->)]); [by exists row| |done].
    cbn [add_event set_device trusted_devices]. destruct (decide (id' = id)) as [->|Hne].
    + rewrite lookup_insert_eq. eexists. split; [done|]. assert (row' = row) as -> by congruence. split_and!; try done. by right.
    + rewrite lookup_insert_ne by done. by exists row.
  - apply hints_ok_step in Hrun as (row' & Hrow' & [[-> _]|(Hact' & _ & _ & _ & _ & ->)]); [by exists row| |done].
    cbn [set_device trusted_devices]. destruct (decide (id' = id)) as [->|Hne].
    + rewrite lookup_insert_eq. eexists. split; [done|]. assert (row' = row) as -> by congruence. split_and!; try done. by left.
    + rewrite lookup_insert_ne by done. by exists row.
  - apply insert_placement_ok in Hrun as (-> & _). by exists row.
Qed.

End Steps.

(** The trust tables stay consistent.  In every state that activations, revocations,
    hint updates and placements can reach from an empty database, every row is a valid
    peer whose device identifier is the fingerprint of its pinned key; no two devices
    share a pair identifier; at most one orchestrator is active; and the audit trail of
    a device alternates between pairing and revocation and ends with the event that its
    row shows. *)
Theorem trust_tables_consistent (U : UnicodeCase) (sha256 : bytes → bytes) (d : PeerDB) :
  (∀ c, length (sha256 c) = 32) → rtc (trust_step sha256) empty_peers d →
  (∀ id row, trusted_devices d !! id = Some row →
     Peer_Validate sha256 (peer_of id row) = Ok tt ∧ IDFromPublicKey sha256 (td_public_key row) = Ok id ∧
     Trust_Get sha256 id d = Ok (peer_of id row, d)) ∧
  (∀ i j r s, trusted_devices d !! i = Some r → trusted_devices d !! j = Some s →
     td_pair_id r = td_pair_id s ∨ active_orchestrator r && active_orchestrator s = true → i = j) ∧
  (∀ id, audit_ok id (trusted_devices d !! id) (trust_events d)).
Proof.
  intros Hsha Hr. pose proof (peers_ok_reachable sha256 Hsha d Hr) as Hd. split_and!.
  - intros id row Hrow. pose proof (po_rows _ _ Hd _ _ Hrow) as (_ & Hid & _ & Hv). split; [done|]. split.
    + apply peer_validate_iff in Hv as ([Hk] & _). unfold pins_key in Hk. cbn [peer_of PublicKey DeviceID] in Hk.
      destruct (IDFromPublicKey sha256 (td_public_key row)); [|done]. reflect_bools. by rewrite <-Hk.
    + unfold Trust_Get, mbind, Tx_bind, tx_lift. rewrite Hid. cbn [negb reject_if].
      apply on_no_rows_ok, query_ok; [done|]. split; [done|]. by exists row.
  - intros i j r s Hi Hj [E|E]; [by eapply (po_pairs _ _ Hd)|]. reflect_bools. by eapply (po_orchestrator _ _ Hd).
  - apply (po_audit _ _ Hd).
Qed.

(** C13 A pin cannot be replaced.  From any reachable state, a step leaves the pair
    identifier, public key, name, role and pairing time of an active peer as they are; it
    either keeps the peer active with its connectivity secret, or revokes it and erases
    the secret.  So another key can be pinned for a device only after its revocation. *)
Theorem pin_immutable (U : UnicodeCase) (sha256 : bytes → bytes) (d d' : PeerDB) (id : string) (row : DeviceRow) :
  (∀ c, length (sha256 c) = 32) → rtc (trust_step sha256) empty_peers d → trust_step sha256 d d' →
  trusted_devices d !! id = Some row → is_active row = true →
  ∃ row', trusted_devices d' !! id = Some row' ∧ pin_kept row row'.
Proof. intros Hsha Hr. eapply pin_kept_step. by eapply peers_ok_reachable. Qed.

(** ** Activation succeeds *)

Section Activation.
Context `{UnicodeErrorLaw} (sha256 : bytes → bytes) (Hsha : ∀ c, length (sha256 c) = 32).

Lemma sql_length_runes s : byte_of 0 ∉ bytes_of s → sql_length s = Z.of_nat (length (runes (bytes_of s))).
Proof. intros Hn. unfold sql_length. by rewrite split_bytes_cons_no_sep. Qed.

Lemma sql_length_id n size value : exact_size n size → canonical_base32 n size value = true → sql_length value = Z.of_nat n.
Proof.
  intros Hsz Hc. pose proof (canonical_ascii n size value Hsz Hc) as Hasc.
  apply (canonical_alphabet n size value Hsz) in Hc as [Hl Hall]. rewrite sql_length_runes.
  - by rewrite runes_ascii, length_map, length_bytes_of, Hl.
  - intros Hin. eapply Forall_forall in Hall; [|exact Hin]. by vm_compute in Hall.
Qed.

(** A NUL byte is a control character. *)
Lemma runes_no_nul l : existsb (λ r, is_control (rune_value r)) (runes l) = false → byte_of 0 ∉ l.
Proof.
  intros Hc Hin. destruct (rune_of_ascii _ _ Hin eq_refl) as (r & Hr & Hv). eapply existsb_none in Hc; [|exact Hr].
  rewrite Hv in Hc. by vm_compute in Hc.
Qed.

Lemma name_length name : failed (ValidateName name) = false → between 1 (sql_length name) 80 = true.
Proof.
  intros Hf. destruct (ValidateName name) as [u|] eqn:E; [|done]. unfold ValidateName in E.
  apply result_bind_ok in E as (u1 & E1%reject_if_ok & E2%reject_if_ok).
  reflect_bools. apply runes_no_nul in E2. rewrite sql_length_runes by done. destruct (runes_bytes (bytes_of name)) as [Hle _].
  rewrite length_bytes_of in Hle. apply Nat.ltb_ge in H3. unfold between. apply andb_true_iff. rewrite !Z.leb_le. split; [|lia].
  destruct (bytes_of name) as [|b l] eqn:Eb; [by rewrite <-(str_of_bytes_of name), Eb in H4|].
  destruct (runes_cons b l) as (t & l' & _ & _ & ->). simpl. lia.
Qed.

(** A valid peer with instants that 64-bit nanoseconds can hold passes the constraints. *)
Lemma activated_checks peer old :
  Peer_Validate sha256 peer = Ok tt → PeerState peer = TrustActive → int64_range (PairedAt peer) → int64_range (PeerUpdatedAt peer) →
  (∀ o, old = Some o → hint_checks o = true) → device_row_checks (DeviceID peer) (activated_row peer old) = true.
Proof.
  intros Hv Hact Hp Hu Hold. apply peer_validate_iff in Hv as ([Hk Hpair Hname Hsec Hrole] & _ & (_ & Hle & _)).
  pose proof (pins_valid sha256 Hsha _ _ Hk) as Hid. unfold device_row_checks. apply andb_true_iff. split.
  2: { destruct old as [o|]; [exact (Hold o eq_refl)|reflexivity]. }
  assert (length (PublicKey peer) = 32) as Hkey.
  { unfold pins_key, IDFromPublicKey in Hk. destruct (bool_decide (length (PublicKey peer) = PublicKeySize)) eqn:E; by reflect_bools. }
  unfold DeviceID_Valid, Device_ParseID in Hid. destruct (canonical_base32 _ _ _) eqn:Hid'; [|done].
  unfold PairID_Valid, ParsePairID in Hpair. destruct (canonical_base32 encodedPairIDLength _ _) eqn:Hpair'; [|done].
  apply (sql_length_id 52 32) in Hid'; [|apply exact_size_check; vm_compute; reflexivity].
  apply (sql_length_id 26 16) in Hpair'; [|apply exact_size_check; vm_compute; reflexivity].
  assert (in_strings (PeerRoleOf peer) ["worker"; "orchestrator"] = true) as Hr.
  { unfold known_role in Hrole. apply orb_true_iff in Hrole as [E|E]; reflect_bools; by rewrite E. }
  assert (match nullableSecret (ConnectivitySecret peer) with Some secret => bool_decide (length secret = 32) | None => true end = true) as Hs.
  { destruct Hsec as [->|Hs]; [done|]. unfold Secret_Valid in Hs. by destruct (ConnectivitySecret peer). }
  unfold identity_checks, activated_row. rewrite Hact. unfold unix_nano. rewrite !wrap_int64_id by done.
  destruct old as [o|]; cbn [td_role td_state td_pair_id td_public_key td_name td_paired_ns td_updated_ns td_revoked_ns td_secret trust_state_string];
    rewrite Hr, Hid', Hpair', Hkey, (name_length _ Hname), (proj2 (Z.leb_le _ _) Hle), Hs; reflexivity.
Qed.

(** Another device stands in the way of [peer]. *)
Definition blocked (peer : Peer) (d : PeerDB) : Prop :=
  ∃ k row, k ≠ DeviceID peer ∧ trusted_devices d !! k = Some row ∧
    (td_pair_id row = PairID peer ∨ PeerRoleOf peer = RoleOrchestrator ∧ active_orchestrator row = true).

Lemma activated_orchestrator peer old :
  PeerState peer = TrustActive → active_orchestrator (activated_row peer old) = bool_decide (PeerRoleOf peer = RoleOrchestrator).
Proof.
  intros Hact. unfold active_orchestrator, activated_row. rewrite Hact. apply bool_decide_ext.
  destruct old; cbn [td_role td_state trust_state_string]; tauto.
Qed.

Lemma blocked_iff peer old d :
  PeerState peer = TrustActive →
  bool_decide (PeerRoleOf peer = RoleOrchestrator) && other_orchestrator (DeviceID peer) d
    || negb (unique_row (DeviceID peer) (activated_row peer old) d) = true ↔ blocked peer d.
Proof.
  intros Hact. rewrite orb_true_iff, andb_true_iff, negb_true_iff, bool_decide_eq_true. split.
  - intros [[Hr Ho]|Hu].
    + apply existsb_exists in Ho as ([k row] & Hin & Hk). apply list_elem_of_In, elem_of_map_to_list in Hin. reflect_bools.
      exists k, row. split_and!; [done|done|]. by right.
    + apply forallb_fails in Hu as ([k row] & Hin & Hk). apply elem_of_map_to_list in Hin. cbn [fst snd] in Hk. reflect_bools.
      exists k, row. split_and!; [done|done|]. rewrite activated_orchestrator in H2 by done.
      apply andb_false_iff in H2 as [E|E]; reflect_bools; [left|by right]. rewrite E. by destruct old.
  - intros (k & row & Hne & Hk & Hwhy). destruct (unique_row _ _ _) eqn:Hu; [|by right]. left.
    destruct (unique_row_spec _ _ d k row Hu Hk Hne) as [Hp Ho]. rewrite activated_orchestrator in Ho by done.
    destruct Hwhy as [Hpair|[Hr Hact']].
    + exfalso. apply Hp. rewrite Hpair. by destruct old.
    + split; [done|]. apply existsb_exists. exists (k, row). rewrite <-list_elem_of_In, elem_of_map_to_list. cbn [fst snd].
      by rewrite Hact', bool_decide_false.
Qed.

(** [Activate] on a device without an active row. *)
Lemma activate_fresh peer d :
  peers_ok sha256 d → Peer_Validate sha256 peer = Ok tt → PeerState peer = TrustActive →
  int64_range (PairedAt peer) → int64_range (PeerUpdatedAt peer) →
  (∀ o, trusted_devices d !! DeviceID peer = Some o → is_active o = false) →
  let row := activated_row peer (trusted_devices d !! DeviceID peer) in
  Activate sha256 peer d =
    if bool_decide (PeerRoleOf peer = RoleOrchestrator) && other_orchestrator (DeviceID peer) d
       || negb (unique_row (DeviceID peer) row d) then Err [TrustErrConflict]
    else Ok (tt, add_event (MkTrustEvent (DeviceID peer) (PairID peer) "paired" (unix_nano (PairedAt peer)))
      (set_device (DeviceID peer) row d)).
Proof.
  intros Hd Hv Hact Hp Hu Hold row. assert (∀ o, trusted_devices d !! DeviceID peer = Some o → row_valid sha256 (DeviceID peer) o) as Hrows
    by (intros o; apply (po_rows _ _ Hd)).
  assert (device_row_checks (DeviceID peer) row = true) as Hc.
  { apply activated_checks; try done. intros o Ho. destruct (Hrows o Ho) as (Hc & _). unfold device_row_checks in Hc. by reflect_bools. }
  assert (upsert_device peer d = if unique_row (DeviceID peer) row d then Ok (tt, set_device (DeviceID peer) row d) else Err [ConstraintError]) as Hup.
  { unfold upsert_device, mbind, Tx_bind, tx_read. unfold row in *. destruct (trusted_devices d !! DeviceID peer) as [o|] eqn:Eo.
    - destruct (row_state sha256 _ o (Hrows o eq_refl)) as [[Ha _]|(_ & -> & _)]; [by rewrite Hold in Ha|].
      rewrite bool_decide_true by done. unfold write_device, constraint, mbind, Tx_bind, tx_read, tx_lift, tx_write.
      rewrite Hc. by destruct (unique_row _ _ _).
    - unfold write_device, constraint, mbind, Tx_bind, tx_read, tx_lift, tx_write. rewrite Hc. by destruct (unique_row _ _ _). }
  assert (activate_new peer d = if bool_decide (PeerRoleOf peer = RoleOrchestrator) && other_orchestrator (DeviceID peer) d
       || negb (unique_row (DeviceID peer) row d) then Err [TrustErrConflict]
    else Ok (tt, add_event (MkTrustEvent (DeviceID peer) (PairID peer) "paired" (unix_nano (PairedAt peer)))
      (set_device (DeviceID peer) row d))) as Hnew.
  { unfold activate_new, mbind, Tx_bind, tx_read, tx_lift, tx_try. destruct (bool_decide _ && _); [done|].
    cbn [reject_if orb]. rewrite Hup. by destruct (unique_row _ _ _). }
  rewrite <-Hnew. unfold Activate, tx_try. unfold mbind at 1, Tx_bind at 1, tx_lift at 1. rewrite Hv.
  unfold mbind at 1, Tx_bind at 1, tx_lift at 1. rewrite bool_decide_true by done. cbn [negb reject_if].
  unfold mbind at 1, Tx_bind at 1. destruct (trusted_devices d !! DeviceID peer) as [o|] eqn:Eo.
  - rewrite (proj2 (query_ok sha256 (DeviceID peer) d (peer_of (DeviceID peer) o) d Hd)) by eauto.
    cbn [peer_of PeerState]. destruct (row_state sha256 _ o (Hrows o eq_refl)) as [[Ha _]|(_ & _ & ->)]; [by rewrite Hold in Ha|done].
  - unfold queryTrustedPeer, mbind, Tx_bind, tx_read, tx_lift. by rewrite Eo.
Qed.

(** The stored peer [q] is [peer], apart from the hints. *)
Definition same_pin (peer q : Peer) : Prop :=
  PairID q = PairID peer ∧ DeviceID q = DeviceID peer ∧ PublicKey q = PublicKey peer ∧
  ConnectivitySecret q = ConnectivitySecret peer ∧ PeerNameOf q = PeerNameOf peer ∧ PeerRoleOf q = PeerRoleOf peer ∧
  PeerState q = TrustActive ∧ PairedAt q = PairedAt peer ∧ PeerUpdatedAt q = PeerUpdatedAt peer ∧ RevokedAt q = None.

(** Activation of a device that has no active pin, where nothing is in the way. *)
Lemma activate_pins peer d :
  peers_ok sha256 d → Peer_Validate sha256 peer = Ok tt → PeerState peer = TrustActive →
  int64_range (PairedAt peer) → int64_range (PeerUpdatedAt peer) →
  (∀ o, trusted_devices d !! DeviceID peer = Some o → is_active o = false) → ¬ blocked peer d →
  ∃ d' q, Activate sha256 peer d = Ok (tt, d') ∧ Trust_Get sha256 (DeviceID peer) d' = Ok (q, d') ∧ same_pin peer q.
Proof.
  intros Hd Hv Hact Hp Hu Hold Hnb. pose proof (activate_fresh peer d Hd Hv Hact Hp Hu Hold) as Hrun. cbv zeta in Hrun.
  pose proof (blocked_iff peer (trusted_devices d !! DeviceID peer) d Hact) as Hb.
  destruct (_ || _) eqn:Eb in Hrun; [by exfalso; apply Hnb, Hb|]. set (row := activated_row _ _) in *.
  assert (peers_ok sha256 (add_event (MkTrustEvent (DeviceID peer) (PairID peer) "paired" (unix_nano (PairedAt peer)))
    (set_device (DeviceID peer) row d))) as Hd' by (eapply peers_ok_step; [exact Hsha|exact Hd|]; by eapply step_activate).
  eexists _, (peer_of (DeviceID peer) row). split; [exact Hrun|]. split.
  - unfold Trust_Get, mbind, Tx_bind, tx_lift. pose proof Hv as ([Hk] & _)%peer_validate_iff.
    rewrite (pins_valid sha256 Hsha _ _ Hk). cbn [negb reject_if]. apply on_no_rows_ok, query_ok; [done|]. split; [done|].
    exists row. split; [apply lookup_insert_eq|done].
  - unfold same_pin, row, activated_row, unix_nano. rewrite Hact, !wrap_int64_id by done.
    destruct (trusted_devices d !! DeviceID peer); cbn; by rewrite default_nullable.
Qed.

End Activation.

(** Every outcome of an activation.  In a reachable state, activating a valid peer
    whose times fit 64-bit nanoseconds does nothing if the device is active with the same
    pair and key; is refused as a conflict if it is active with another, if another device
    has the pair identifier, or if another orchestrator is active where the peer is one;
    and otherwise succeeds, after which the repository returns the peer as it was given,
    with the hints the device had before. *)
Theorem activate_outcome (U : UnicodeCase) (E : UnicodeErrorLaw) (sha256 : bytes → bytes) (d : PeerDB) (peer : Peer) :
  (∀ c, length (sha256 c) = 32) → rtc (trust_step sha256) empty_peers d →
  Peer_Validate sha256 peer = Ok tt → PeerState peer = TrustActive → int64_range (PairedAt peer) → int64_range (PeerUpdatedAt peer) →
  (∀ row, trusted_devices d !! DeviceID peer = Some row → is_active row = true →
     Activate sha256 peer d = if bool_decide (td_pair_id row = PairID peer) && bool_decide (td_public_key row = PublicKey peer)
       then Ok (tt, d) else Err [TrustErrConflict]) ∧
  ((∀ row, trusted_devices d !! DeviceID peer = Some row → is_active row = false) →
     (blocked peer d → Activate sha256 peer d = Err [TrustErrConflict]) ∧
     (¬ blocked peer d → ∃ d' q, Activate sha256 peer d = Ok (tt, d') ∧
        Trust_Get sha256 (DeviceID peer) d' = Ok (q, d') ∧ same_pin peer q)).
Proof.
  intros Hsha Hr Hv Hact Hp Hu. pose proof (peers_ok_reachable sha256 Hsha d Hr) as Hd. split.
  - intros row Hrow Ha. unfold Activate, tx_try. unfold mbind at 1, Tx_bind at 1, tx_lift at 1. rewrite Hv.
    unfold mbind at 1, Tx_bind at 1, tx_lift at 1. rewrite bool_decide_true by done. cbn [negb reject_if].
    unfold mbind at 1, Tx_bind at 1. rewrite (proj2 (query_ok sha256 (DeviceID peer) d (peer_of (DeviceID peer) row) d Hd)) by eauto.
    cbn [peer_of PeerState PairID PublicKey].
    destruct (row_state sha256 _ row (po_rows _ _ Hd _ _ Hrow)) as [[_ ->]|(Hn & _)]; [|congruence].
    rewrite bool_decide_true by done. by destruct (_ && _).
  - intros Hold. split; [|by apply activate_pins]. intros Hbl. pose proof (activate_fresh sha256 Hsha peer d Hd Hv Hact Hp Hu Hold) as Hrun.
    cbv zeta in Hrun. by rewrite Hrun, (proj2 (blocked_iff peer (trusted_devices d !! DeviceID peer) d Hact)).
Qed.

(** ** Placements stay where they are *)

Section Placements.
Context `{UnicodeErrorLaw} (sha256 : bytes → bytes) (Hsha : ∀ c, length (sha256 c) = 32).

Definition placement_of (id : string) (row : PlacementRow) : Placement := MkPlacement id (pl_worker row) (pl_placed_ns row).

Definition placements_ok (d : PeerDB) : Prop :=
  map_Forall (λ id row, Placement_Validate (placement_of id row) = Ok tt ∧ is_Some (trusted_devices d !! pl_worker row))
    (remote_job_placements d).

Definition devices_kept (d d' : PeerDB) : Prop :=
  ∀ id, is_Some (trusted_devices d !! id) → is_Some (trusted_devices d' !! id).

Lemma devices_kept_write id row d events places : devices_kept d (MkPeerDB (<[id := row]> (trusted_devices d)) events places).
Proof. intros k Hk. cbn [trusted_devices]. rewrite lookup_insert_is_Some'. by right. Qed.

Lemma placements_ok_kept d d' :
  devices_kept d d' → remote_job_placements d' = remote_job_placements d → placements_ok d → placements_ok d'.
Proof. intros Hk E Hok id row. rewrite E. intros [Hv Hs]%Hok. by split; [|apply Hk]. Qed.

(** No operation forgets a device, and only a placement changes the placements. *)
Lemma step_devices_kept d d' :
  peers_ok sha256 d → trust_step sha256 d d' →
  devices_kept d d' ∧ (remote_job_placements d' = remote_job_placements d ∨
    ∃ value, Placement_Validate value = Ok tt ∧ insert_placement value d = Ok (tt, d')).
Proof.
  intros Hd. destruct 1 as [peer d d' Hrun|id at_ peer d d' Hrun|id hints peer d d' Hrun|value d d' Hval Hrun].
  - apply activate_ok in Hrun as (_ & _ & [[-> _]|(_ & _ & _ & ->)]); [split; [by intros ? ?|by left]| |done].
    split; [apply devices_kept_write|by left].
  - apply revoke_ok in Hrun as (row & _ & [[-> _]|(at' & _ & _ & _ & _ & _ & ->)]); [split; [by intros ? ?|by left]| |done].
    split; [apply devices_kept_write|by left].
  - apply hints_ok_step in Hrun as (row & _ & [[-> _]|(_ & _ & _ & _ & _ & ->)]); [split; [by intros ? ?|by left]| |done].
    split; [apply devices_kept_write|by left].
  - split; [|right; by exists value]. apply insert_placement_ok in Hrun as (E & _). intros id. by rewrite E.
Qed.

Lemma placed_ok value d u d' :
  Placement_Validate value = Ok tt → insert_placement value d = Ok (u, d') →
  Placement_Validate (placement_of (Pl_JobID value) (MkPlacementRow (Pl_WorkerID value) (unix_nano (Pl_PlacedAt value)))) = Ok tt ∧
  is_Some (trusted_devices d !! Pl_WorkerID value).
Proof.
  unfold insert_placement. intros Hv Hrun. invert_tx Hrun. cbn [pl_worker pl_placed_ns] in *.
  destruct (trusted_devices _ !! _) as [o|] eqn:E; [|congruence]. split; [|done].
  unfold Placement_Validate in *. apply reject_if_ok in Hv as [[Hj Hw]%orb_false_iff _]%orb_false_iff. apply reject_if_ok.
  cbn [placement_of Pl_JobID Pl_WorkerID Pl_PlacedAt pl_worker pl_placed_ns]. rewrite Hj, Hw. unfold is_zero_time, zero_time. rewrite (proj2 (Z.eqb_neq _ _)) by lia. done.
Qed.

Lemma placements_step d d' :
  peers_ok sha256 d → trust_step sha256 d d' → placements_ok d →
  placements_ok d' ∧ remote_job_placements d ⊆ remote_job_placements d'.
Proof.
  intros Hd Hs Hok. destruct (step_devices_kept d d' Hd Hs) as [Hk [E|(value & Hval & Hrun)]].
  - split; [by eapply placements_ok_kept|by rewrite E].
  - destruct (placed_ok _ _ _ _ Hval Hrun) as [Hp Hw]. apply insert_placement_ok in Hrun as (_ & _ & Hnew & E). split.
    + intros id row. rewrite E, lookup_insert_Some. intros [[<- <-]|[_ [Hv Hin]%Hok]]; [by split; [|apply Hk]|by split; [|apply Hk]].
    + rewrite E. by apply insert_subseteq.
Qed.

Lemma placements_reachable d : rtc (trust_step sha256) empty_peers d → placements_ok d.
Proof.
  intros Hr. assert (placements_ok empty_peers) as Hok by done. pose proof (empty_peers_ok sha256) as Hd.
  revert Hok Hd. induction Hr as [|d1 d2 d3 Hs Hr IH]; [done|]. intros Hok Hd. apply IH; [|by eapply peers_ok_step].
  by eapply placements_step.
Qed.

Lemma placements_kept d d' :
  rtc (trust_step sha256) empty_peers d → rtc (trust_step sha256) d d' → remote_job_placements d ⊆ remote_job_placements d'.
Proof.
  intros Hr Hs. pose proof (placements_reachable d Hr) as Hok. pose proof (peers_ok_reachable sha256 Hsha d Hr) as Hd. clear Hr.
  revert Hok Hd. induction Hs as [|d1 d2 d3 Hstep Hr IH]; [done|]. intros Hok Hd. destruct (placements_step _ _ Hd Hstep Hok) as [Hok2 Hsub].
  transitivity (remote_job_placements d2); [done|]. apply IH; [done|by eapply peers_ok_step].
Qed.

(** The identifiers of a valid placement are plain text of the lengths the schema asks for. *)
Lemma hex_text l : Forall (λ c, (0 < val c < 128)%Z) (hex_encode l).
Proof.
  induction l as [|c l IH]; [constructor|]. unfold hex_encode in *. cbn [map concat hex_byte app].
  assert ((0 < val (hex_digit (val c / 16)) < 128)%Z ∧ (0 < val (hex_digit (val c `mod` 16)) < 128)%Z) as [H1 H2]
    by (revert c; all_bytes; by vm_compute).
  rewrite !Forall_cons. done.
Qed.

Lemma job_id_length id : ID_Valid id = true → sql_length id = 36%Z.
Proof.
  intros (v & Hv & ->)%id_valid_iff.
  assert (Forall (λ c, (0 < val c < 128)%Z) (bytes_of (formatID v))) as Hall.
  { unfold formatID. rewrite bytes_of_str_of. cbn [join_bytes]. 
    repeat (rewrite Forall_app || rewrite Forall_cons). split_and!; try apply hex_text; done. }
  rewrite sql_length_runes; [|intros Hin; eapply Forall_forall in Hall; [|exact Hin]; by destruct Hall].
  rewrite runes_ascii by (eapply Forall_impl; [exact Hall|]; by intros ? [? ?]). rewrite length_map. unfold formatID. rewrite bytes_of_str_of.
  cbn [join_bytes]. repeat (rewrite ?length_app, ?length_hex_encode; cbn [length]). rewrite !length_take, !length_drop, Hv. done.
Qed.

Lemma placement_get_ok id d row :
  placements_ok d → remote_job_placements d !! id = Some row → Placement_Get id d = Ok (placement_of id row, d).
Proof.
  intros Hok Hrow. destruct (Hok _ _ Hrow) as [Hv _]. unfold Placement_Get, mbind, Tx_bind, tx_lift, tx_read.
  pose proof Hv as Hv'. unfold Placement_Validate in Hv'. apply reject_if_ok in Hv' as [[Hj Hw]%orb_false_iff _]%orb_false_iff.
  cbn [placement_of Pl_JobID Pl_WorkerID] in Hj, Hw. rewrite Hj. cbn [reject_if]. rewrite Hrow.
  apply negb_false_iff in Hw. unfold DeviceID_Valid in Hw. destruct (Device_ParseID (pl_worker row)) as [w|] eqn:Ew; [|done].
  assert (w = pl_worker row) as -> by (unfold Device_ParseID in Ew; destruct (canonical_base32 _ _ _); congruence).
  change (MkPlacement id (pl_worker row) (from_unix_nano (pl_placed_ns row))) with (placement_of id row). by rewrite Hv.
Qed.

(** What the second access of [Create] finds. *)
Lemma get_placement_row id d p :
  Placement_Get id d = Ok (p, d) → ∃ row, remote_job_placements d !! id = Some row ∧ Pl_WorkerID p = pl_worker row.
Proof.
  unfold Placement_Get, mbind, Tx_bind, tx_lift, tx_read. destruct (reject_if _ _); [|done].
  destruct (remote_job_placements d !! id) as [row|]; [|done]. unfold Device_ParseID. destruct (canonical_base32 _ _ _); [|done].
  destruct (Placement_Validate _); [|done]. intros [= <-]. by exists row.
Qed.

Lemma get_placement_state id d p d' : Placement_Get id d = Ok (p, d') → d' = d.
Proof.
  unfold Placement_Get. intros Hrun. invert_tx Hrun. destruct (remote_job_placements _ !! _); [|done]. by invert_tx Hrun.
Qed.

Lemma create_places value w w' :
  rtc (trust_step sha256) empty_peers (w_db w) → (∀ n d, rtc (trust_step sha256) d (w_interfere w n d)) →
  Placement_Create value w = (Ok tt, w') →
  ∃ row, remote_job_placements (w_db w') !! Pl_JobID value = Some row ∧ pl_worker row = Pl_WorkerID value ∧
    rtc (trust_step sha256) empty_peers (w_db w').
Proof.
  intros Hr Hint. unfold Placement_Create. intros (u & w0 & Hv & Hrun)%m_bind_ok. unfold lift in Hv. injection Hv as Hv <-.
  apply m_bind_ok in Hrun as (ins & w1 & Hins & Hrun). unfold try_ in Hins.
  destruct (atomically (insert_placement value) w) as [r1 w1'] eqn:Ea. injection Hins as <- <-.
  assert (rtc (trust_step sha256) empty_peers (next_db w)) as Hr1 by (unfold next_db; by etrans; [|apply Hint]).
  apply atomically_cases in Ea as [(e & -> & -> & _)|(a & d' & -> & Ht & ->)].
  - destruct (negb (isConstraintError e)); [done|]. apply m_bind_ok in Hrun as (got & w2 & Hget & Hrun). unfold try_ in Hget.
    destruct (atomically (Placement_Get (Pl_JobID value)) _) as [r2 w2'] eqn:Eg. injection Hget as <- <-.
    apply atomically_cases in Eg as [(e' & -> & -> & _)|(p & d' & -> & Hg & ->)]; [by destruct (errors_is e' _)|].
    case_bool_decide as Hw; [|done]. injection Hrun as <-. cbn [accessed w_db]. pose proof (get_placement_state _ _ _ _ Hg) as ->.
    apply get_placement_row in Hg as (row & Hrow & E). exists row. split; [done|]. split; [congruence|].
    unfold next_db. cbn [accessed w_interfere w_db w_access]. by etrans; [|apply Hint].
  - injection Hrun as <-. cbn [accessed w_db]. destruct a. pose proof Ht as (_ & _ & _ & E)%insert_placement_ok. rewrite E, lookup_insert_eq.
    eexists. split; [done|]. split; [done|]. eapply rtc_r; [exact Hr1|]. destruct u. by eapply step_place.
Qed.

Lemma insert_placement_run value d :
  Placement_Validate value = Ok tt → (0 < Pl_PlacedAt value)%Z → int64_range (Pl_PlacedAt value) →
  is_Some (trusted_devices d !! Pl_WorkerID value) →
  insert_placement value d = match remote_job_placements d !! Pl_JobID value with
    | Some _ => Err [ConstraintError]
    | None => Ok (tt, MkPeerDB (trusted_devices d) (trust_events d)
        (<[Pl_JobID value := MkPlacementRow (Pl_WorkerID value) (Pl_PlacedAt value)]> (remote_job_placements d))) end.
Proof.
  intros Hv Hp Hrange [o Ho]. unfold Placement_Validate in Hv. apply reject_if_ok in Hv as [[Hj Hw]%orb_false_iff _]%orb_false_iff.
  apply negb_false_iff in Hj, Hw. unfold DeviceID_Valid, Device_ParseID in Hw. destruct (canonical_base32 _ _ _) eqn:Hw'; [|done].
  apply (sql_length_id 52 32) in Hw'; [|apply exact_size_check; vm_compute; reflexivity].
  unfold insert_placement, constraint, mbind, Tx_bind, tx_read, tx_lift, tx_write. cbn [pl_worker pl_placed_ns].
  unfold unix_nano. rewrite wrap_int64_id, (job_id_length _ Hj), Hw', Ho by done. rewrite (proj2 (Z.ltb_lt 0 _) Hp), !Z.eqb_refl.
  rewrite (bool_decide_false (Some o = None)) by done. by destruct (remote_job_placements d !! Pl_JobID value).
Qed.

Lemma create_calm value w w' r :
  calm w → placements_ok (w_db w) → Placement_Create value w = (r, w') → Placement_Validate value = Ok tt →
  (0 < Pl_PlacedAt value)%Z → int64_range (Pl_PlacedAt value) → is_Some (trusted_devices (w_db w) !! Pl_WorkerID value) →
  r = match remote_job_placements (w_db w) !! Pl_JobID value with
      | Some row => if bool_decide (pl_worker row = Pl_WorkerID value) then Ok tt else Err [PlacementErrConflict]
      | None => Ok tt end.
Proof.
  intros Hc Hok Hrun Hv Hp Hrange Hdev. revert Hrun. unfold Placement_Create, mbind, M_bind, lift, try_. rewrite Hv.
  rewrite calm_atomically, insert_placement_run by done. destruct (remote_job_placements (w_db w) !! Pl_JobID value) as [row|] eqn:Erow.
  - change (negb (isConstraintError [ConstraintError])) with false. cbn beta iota. rewrite calm_atomically by by apply calm_accessed. cbn [accessed w_db].
    rewrite (placement_get_ok _ _ row Hok Erow). cbn [placement_of Pl_WorkerID]. case_bool_decide; by intros [= <- <-].
  - by intros [= <- <-].
Qed.

End Placements.

(** A remote job belongs to one worker for good.  Whatever the other processes do to
    the tables between its two accesses, when recording a placement succeeds the job is
    placed on that worker, and it stays so in every later state; so recording the job for
    two workers cannot succeed twice.  With no failure or interference, recording a valid
    placement of an unplaced job on a known device succeeds, and is refused as a conflict
    exactly when the job is placed on another worker. *)
Theorem placement_is_final (U : UnicodeCase) (E : UnicodeErrorLaw) (sha256 : bytes → bytes) (value : Placement) (w w' : World PeerDB) (r : result unit) :
  (∀ c, length (sha256 c) = 32) → rtc (trust_step sha256) empty_peers (w_db w) →
  (∀ n d, rtc (trust_step sha256) d (w_interfere w n d)) → Placement_Create value w = (r, w') →
  (r = Ok tt → ∀ d, rtc (trust_step sha256) (w_db w') d →
     ∃ p, Placement_Get (Pl_JobID value) d = Ok (p, d) ∧ Pl_JobID p = Pl_JobID value ∧ Pl_WorkerID p = Pl_WorkerID value) ∧
  (calm w → Placement_Validate value = Ok tt → (0 < Pl_PlacedAt value)%Z → int64_range (Pl_PlacedAt value) →
   is_Some (trusted_devices (w_db w) !! Pl_WorkerID value) →
   r = match remote_job_placements (w_db w) !! Pl_JobID value with
       | Some row => if bool_decide (pl_worker row = Pl_WorkerID value) then Ok tt else Err [PlacementErrConflict]
       | None => Ok tt
       end).
Proof.
  intros Hsha Hr Hint Hrun. split.
  - intros -> d Hd. destruct (create_places sha256 value w w' Hr Hint Hrun) as (row & Hrow & Hw & Hr').
    exists (placement_of (Pl_JobID value) row). split; [|by rewrite <-Hw].
    apply placement_get_ok; [eapply placements_reachable; [done|by etrans]|]. eapply lookup_weaken; [exact Hrow|].
    by eapply placements_kept.
  - intros Hc Hv Hp Hrange Hdev. eapply create_calm; try done. by eapply placements_reachable.
Qed.
(** ** Witnesses *)

Definition sample_sha : bytes → bytes := λ _, replicate 32 "a"%char.
Definition sample_key : bytes := replicate 32 "k"%char.
Definition sample_device : string := Eval vm_compute in
  match IDFromPublicKey (H := ascii_case) sample_sha sample_key with Ok id => id | Err _ => "" end.
Definition sample_peer (role : string) : Peer :=
  MkPeer (str_of (replicate 26 "a"%char)) sample_device sample_key (replicate 32 "s"%char) "laptop" role TrustActive
    "" "" 0 0 [] [] None 5 5 None.

Lemma sample_valid : Peer_Validate (H := ascii_case) sample_sha (sample_peer "worker") = Ok tt.
Proof. vm_compute. reflexivity. Qed.

(** The database after the peer was activated. *)
Lemma sample_activated : ∃ d, Activate (H := ascii_case) sample_sha (sample_peer "worker") empty_peers = Ok (tt, d) ∧
  trusted_devices d !! sample_device = Some (activated_row (sample_peer "worker") None).
Proof. eexists. split; vm_compute; reflexivity. Qed.

Lemma trust_tables_consistent_witness :
  ∃ d, trusted_devices d !! sample_device = Some (activated_row (sample_peer "worker") None) ∧
    Trust_Get (H := ascii_case) sample_sha sample_device d = Ok (peer_of sample_device (activated_row (sample_peer "worker") None), d).
Proof.
  destruct sample_activated as (d & Hrun & Hrow). exists d. split; [exact Hrow|].
  exact (proj2 (proj2 (proj1 (trust_tables_consistent ascii_case sample_sha d (λ c, eq_refl)
    (rtc_once _ _ (@step_activate ascii_case _ _ _ _ Hrun))) _ _ Hrow))).
Defined.

Lemma pin_immutable_witness :
  ∃ d d' row', Revoke (H := ascii_case) sample_sha sample_device 9 d =
      Ok (revoked_peer (sample_peer "worker") 9, d') ∧
    trusted_devices d' !! sample_device = Some row' ∧ pin_kept (activated_row (sample_peer "worker") None) row'.
Proof.
  destruct sample_activated as (d & Hrun & Hrow).
  assert (∃ d', Revoke (H := ascii_case) sample_sha sample_device 9 d = Ok (revoked_peer (sample_peer "worker") 9, d')) as (d' & Hrev).
  { vm_compute in Hrun. injection Hrun as <-. eexists. vm_compute. reflexivity. }
  destruct (pin_immutable ascii_case sample_sha d d' sample_device _ (λ c, eq_refl)
    (rtc_once _ _ (@step_activate ascii_case _ _ _ _ Hrun)) (@step_revoke ascii_case _ _ _ _ _ _ Hrev) Hrow eq_refl)
    as (row' & H1 & H2).
  exists d, d', row'. split; [exact Hrev|]. split; [exact H1|exact H2].
Defined.

Lemma activate_outcome_witness :
  ∃ d' q, Activate (H := ascii_case) sample_sha (sample_peer "worker") empty_peers = Ok (tt, d') ∧
    Trust_Get (H := ascii_case) sample_sha sample_device d' = Ok (q, d') ∧ same_pin (sample_peer "worker") q.
Proof.
  refine (proj2 (proj2 (activate_outcome ascii_case ascii_case_error sample_sha empty_peers (sample_peer "worker")
    (λ c, eq_refl) (rtc_refl _ _) sample_valid eq_refl _ _) _) _).
  - unfold int64_range. simpl. lia.
  - unfold int64_range. simpl. lia.
  - intros row E. vm_compute in E. discriminate E.
  - intros (k & row & _ & E & _). cbn [trusted_devices empty_peers] in E. rewrite lookup_empty in E. discriminate E.
Defined.

Definition sample_placement : Placement := MkPlacement "01234567-89ab-4def-8123-456789abcdef" sample_device 7.

Lemma placement_is_final_witness :
  ∃ d w', Activate (H := ascii_case) sample_sha (sample_peer "worker") empty_peers = Ok (tt, d) ∧
    Placement_Create (H := ascii_case) sample_placement (quiet d (λ _, 0%Z)) = (Ok tt, w').
Proof.
  destruct sample_activated as (d & Hrun & Hrow). exists d.
  destruct (Placement_Create (H := ascii_case) sample_placement (quiet d (λ _, 0%Z))) as [r w'] eqn:Hc. exists w'. split; [exact Hrun|].
  f_equal. refine (eq_trans (proj2 (placement_is_final ascii_case ascii_case_error sample_sha sample_placement (quiet d (λ _, 0%Z)) w' r (λ c, eq_refl)
    (rtc_once _ _ (@step_activate ascii_case _ _ _ _ Hrun)) (λ n d, rtc_refl _ d) Hc) (quiet_calm _ _) _ _ _ _) _).
  - vm_compute. reflexivity.
  - simpl. lia.
  - unfold int64_range. simpl. lia.
  - cbn [w_db quiet sample_placement Pl_WorkerID]. rewrite Hrow. eexists. reflexivity.
  - cbn [w_db quiet]. vm_compute in Hrun. injection Hrun as <-. vm_compute. reflexivity.
Defined.
