(* ===== verification/Pairing.v ===== *)
(** * The pairing service (internal/app/pairing/service.go)

    Two-device verification ceremonies and the durable trust they end in.  The state
    is the service's map of ceremonies beside the trust database; every section under
    the mutex and every transaction is one access of the monad [M], between which
    other goroutines may act.  What a channel receives is a list of events. *)

From S2P Require Import Prelude GoText PortablePath JobModel Effects Sql Encoding Base32 Device Trust TrustStore.
From Stdlib Require Import Ascii.
Local Open Scope string_scope.
Local Open Scope nat_scope.
Local Open Scope list_scope.

Definition second : Z := 1000000000.
Definition minute : Z := 60 * second.
Definition defaultPairingLifetime : Z := 5 * minute.
Definition maximumPendingPairings : nat := 16.

(** ** Channels and state *)

Record PairingDecision := MkDecision { pd_PairingID : string; pd_Confirmed : bool; pd_Committed : bool }.

(** A session.PairingChannel: a number, the authenticated peer and the TLS binding. *)
Record Channel := MkChannel { ch_number : nat; ch_Peer : SessionPeer; ch_Binding : bytes }.

Record Pending := MkPending {
  pe_value : Pairing;
  pe_connectivitySecret : bytes;
  pe_channel : Channel;
  pe_activating : bool;
  pe_localCommitted : bool;
  pe_remoteCommitted : bool
}.

(** Who decided to trust: a user at this device, or the peer. *)
Inductive Side := LocalSide | RemoteSide.
#[global] Instance Side_eq_dec : EqDecision Side.
Proof. solve_decision. Defined.

(** [hb_sent] is what the channels were given to send, [hb_closed] the channels
    closed and [hb_monitors] the monitors started by [Begin].  [hb_confirmed] is a
    history variable: the confirmations that users and peers gave. *)
Record Hub := MkHub {
  hb_pairings : gmap string Pending;
  hb_db : PeerDB;
  hb_sent : list (nat * PairingDecision);
  hb_closed : list nat;
  hb_monitors : list (nat * string);
  hb_confirmed : list (string * Side)
}.

Definition set_pairings (f : gmap string Pending → gmap string Pending) (h : Hub) : Hub :=
  MkHub (f (hb_pairings h)) (hb_db h) (hb_sent h) (hb_closed h) (hb_monitors h) (hb_confirmed h).
Definition set_db (d : PeerDB) (h : Hub) : Hub :=
  MkHub (hb_pairings h) d (hb_sent h) (hb_closed h) (hb_monitors h) (hb_confirmed h).
Definition add_sent (m : nat * PairingDecision) (h : Hub) : Hub :=
  MkHub (hb_pairings h) (hb_db h) (hb_sent h ++ [m]) (hb_closed h) (hb_monitors h) (hb_confirmed h).
Definition add_closed (ns : list nat) (h : Hub) : Hub :=
  MkHub (hb_pairings h) (hb_db h) (hb_sent h) (hb_closed h ++ ns) (hb_monitors h) (hb_confirmed h).
Definition add_monitor (m : nat * string) (h : Hub) : Hub :=
  MkHub (hb_pairings h) (hb_db h) (hb_sent h) (hb_closed h) (hb_monitors h ++ [m]) (hb_confirmed h).
Definition add_confirmed (c : string * Side) (h : Hub) : Hub :=
  MkHub (hb_pairings h) (hb_db h) (hb_sent h) (hb_closed h) (hb_monitors h) (hb_confirmed h ++ [c]).

(** A section under the mutex. *)
Definition section {A} (f : Hub → A * Hub) : M Hub A := λ w,
  let '(a, h) := f (next_db w) in (Ok a, accessed w h).
Definition update (f : Hub → Hub) : M Hub unit := section (λ h, (tt, f h)).

(** A call of the trust repository. *)
Definition on_db {A} (t : Tx PeerDB A) : Tx Hub A := λ h,
  match t (hb_db h) with Ok (a, d) => Ok (a, set_db d h) | Err e => Err e end.
Definition repository {A} (t : Tx PeerDB A) : M Hub A := atomically (on_db t).

(** [channel.Close()] and [channel.SendDecision]; sending may fail. *)
Definition close (ch : Channel) : M Hub unit := update (add_closed [ch_number ch]).
Definition SendDecision (ch : Channel) (d : PairingDecision) : M Hub unit :=
  atomically (λ h, Ok (tt, add_sent (ch_number ch, d) h)).

(** ** Views of a ceremony *)

Definition with_state (st : PairingState) (failure : string) (p : Pairing) : Pairing :=
  MkPairing (pg_ID p) (pg_PeerID p) (pg_PeerPublicKey p) (pg_PeerName p) (pg_PeerRole p) (pg_Verification p) (pg_Direction p)
    st (pg_LocalConfirmed p) (pg_RemoteConfirmed p) (pg_StartedAt p) (pg_ExpiresAt p) failure.
Definition with_confirmed (side : Side) (p : Pairing) : Pairing :=
  MkPairing (pg_ID p) (pg_PeerID p) (pg_PeerPublicKey p) (pg_PeerName p) (pg_PeerRole p) (pg_Verification p) (pg_Direction p)
    (pg_State p) (match side with LocalSide => true | RemoteSide => pg_LocalConfirmed p end)
    (match side with LocalSide => pg_RemoteConfirmed p | RemoteSide => true end) (pg_StartedAt p) (pg_ExpiresAt p) (pg_Failure p).
Definition on_value (f : Pairing → Pairing) (e : Pending) : Pending :=
  MkPending (f (pe_value e)) (pe_connectivitySecret e) (pe_channel e) (pe_activating e) (pe_localCommitted e) (pe_remoteCommitted e).
Definition set_activating (b : bool) (e : Pending) : Pending :=
  MkPending (pe_value e) (pe_connectivitySecret e) (pe_channel e) b (pe_localCommitted e) (pe_remoteCommitted e).
Definition set_localCommitted (e : Pending) : Pending :=
  MkPending (pe_value e) (pe_connectivitySecret e) (pe_channel e) (pe_activating e) true (pe_remoteCommitted e).
Definition set_remoteCommitted (e : Pending) : Pending :=
  MkPending (pe_value e) (pe_connectivitySecret e) (pe_channel e) (pe_activating e) (pe_localCommitted e) true.

Definition waiting (e : Pending) : bool := bool_decide (pg_State (pe_value e) = PairingWaiting).

(** [entry.value.State = st] on a ceremony that still waits. *)
Definition settle (st : PairingState) (failure : string) (e : Pending) : Pending :=
  if waiting e then on_value (with_state st failure) e else e.

(** ** The service *)

Section Service.
Context `{UnicodeCase} (sha256 : bytes → bytes).

(** [unicode.SimpleFold]: the least rune of an orbit; [err.Error()]. *)
Context (unicode_fold : Z → Z) (error_text : list sentinel → string).

(** service.local and service.lifetime. *)
Context (local : LocalDevice) (lifetime : Z).

Definition fold_eq (a b : Z) : bool :=
  (a =? b)%Z || (if (a <? 128)%Z && (b <? 128)%Z then ascii_lower a =? ascii_lower b else unicode_fold a =? unicode_fold b)%Z.
Fixpoint runes_fold_eq (a b : list rune_at) : bool :=
  match a, b with
  | [], [] => true
  | x :: a', y :: b' => fold_eq (rune_value x) (rune_value y) && runes_fold_eq a' b'
  | _, _ => false
  end.
(** [strings.EqualFold]. *)
Definition equal_fold (s t : string) : bool := runes_fold_eq (runes (bytes_of s)) (runes (bytes_of t)).

Definition peer_of_role (role : string) (peer : Peer) : bool := bool_decide (PeerRoleOf peer = role).
Definition active_peer (peer : Peer) : bool := bool_decide (PeerState peer = TrustActive).

(** The loop of [ValidateLocalRole]. *)
Definition role_conflict (localRole : string) (peer : Peer) : bool :=
  active_peer peer
  && (bool_decide (localRole = RoleWorker) && negb (peer_of_role RoleOrchestrator peer)
      || bool_decide (localRole = RoleOrchestrator) && negb (peer_of_role RoleWorker peer)).

Definition ValidateLocalRole (localRole : string) : M Hub unit :=
  _ ← lift (reject_if (negb (known_role localRole)) [PairingErrMissingDependency]);
  peers ← repository (Trust_List sha256);
  lift (reject_if (existsb (role_conflict localRole) peers) [TrustErrConflict]).

(** The lifetime a service runs with; [requested] is Dependencies.Lifetime. *)
Definition NewService (requested : Z) : M Hub Z :=
  _ ← lift (reject_if (failed (LocalDevice_Validate sha256 local)) [PairingErrMissingDependency]);
  let requested := if (requested =? 0)%Z then defaultPairingLifetime else requested in
  _ ← lift (reject_if ((requested <? minute) || (15 * minute <? requested))%Z [PairingErrMissingDependency]);
  _ ← ValidateLocalRole (local_Role local);
  mret requested.

(** One turn of [pruneLocked]: the entry it leaves, if any. *)
Definition prune_entry (now_ : Z) (e : Pending) : option Pending :=
  let e := if waiting e && negb (after (pg_ExpiresAt (pe_value e)) now_)
           then on_value (with_state PairingExpired (pg_Failure (pe_value e))) e else e in
  if negb (waiting e) && after now_ (pg_ExpiresAt (pe_value e) + lifetime) then None else Some e.

(** The channels that [pruneLocked] closes. *)
Definition expired_channels (now_ : Z) (m : gmap string Pending) : list nat :=
  omap (λ kv, if waiting kv.2 && negb (after (pg_ExpiresAt (pe_value kv.2)) now_) then Some (ch_number (pe_channel kv.2)) else None)
    (map_to_list m).

Definition pruneLocked (now_ : Z) (h : Hub) : Hub :=
  add_closed (expired_channels now_ (hb_pairings h)) (set_pairings (omap (prune_entry now_)) h).

Definition waiting_count (m : gmap string Pending) : nat := size (filter (λ kv, waiting kv.2 = true) m).

(** The section that ends [register]. *)
Definition admit_pairing (now_ : Z) (entry : Pending) (h : Hub) : result Pairing * Hub :=
  let h := pruneLocked now_ h in
  let id := pg_ID (pe_value entry) in
  if maximumPendingPairings <=? waiting_count (hb_pairings h) then (Err [TrustErrPairingUnavailable], h)
  else if bool_decide (is_Some (hb_pairings h !! id)) then (Err [TrustErrConflict], h)
  else (Ok (pe_value entry), set_pairings <[id := entry]> h).

Definition role_mismatch (direction : Direction) (peer : SessionPeer) : bool :=
  match direction with
  | DirectionOutbound => negb (bool_decide (local_Role local = RoleOrchestrator)) || negb (bool_decide (sp_Role peer = RoleWorker))
  | DirectionInbound => negb (bool_decide (local_Role local = RoleWorker)) || negb (bool_decide (sp_Role peer = RoleOrchestrator))
  end.

Definition local_id : string := identity_id (local_Identity local).

Definition new_pairing (id verification : string) (peer : SessionPeer) (direction : Direction) (startedAt : Z) : Pairing :=
  MkPairing id (sp_ID peer) (sp_PublicKey peer) (sp_Name peer) (sp_Role peer) verification direction PairingWaiting false false
    startedAt (startedAt + lifetime) "".

Definition check_unpaired (peer : SessionPeer) : M Hub unit :=
  existing ← try_ (repository (Trust_Get sha256 (sp_ID peer)));
  match existing with
  | Ok p => lift (reject_if (active_peer p) [TrustErrConflict])
  | Err e => lift (reject_if (negb (errors_is e TrustErrNotFound)) e)
  end.

Definition check_no_orchestrator : M Hub unit :=
  if bool_decide (local_Role local = RoleWorker) then
    peers ← repository (Trust_List sha256);
    lift (reject_if (existsb (λ p, active_peer p && peer_of_role RoleOrchestrator p) peers) [TrustErrConflict])
  else mret tt.

Definition register (ch : Channel) (direction : Direction) : M Hub Pairing :=
  let peer := ch_Peer ch in
  _ ← lift (SessionPeer_Validate sha256 peer);
  _ ← lift (reject_if (role_mismatch direction peer) [TrustErrInvalidPairing]);
  _ ← check_unpaired peer;
  _ ← check_no_orchestrator;
  let '(initiatorID, responderID) :=
    match direction with DirectionOutbound => (local_id, sp_ID peer) | DirectionInbound => (sp_ID peer, local_id) end in
  derived ← lift (DerivePairing sha256 (ch_Binding ch) initiatorID responderID);
  secret ← lift (DeriveConnectivitySecret sha256 (ch_Binding ch) initiatorID responderID);
  startedAt ← now;
  let value := new_pairing derived.1 derived.2 peer direction startedAt in
  _ ← lift (Pairing_Validate sha256 value);
  now_ ← now;
  admitted ← section (admit_pairing now_ (MkPending value secret ch false false false));
  lift admitted.

(** [service.fail]. *)
Definition fail_pairing (id : string) (e : list sentinel) : M Hub unit :=
  update (set_pairings (alter (settle PairingFailed (error_text e)) id)).

Definition getPairing (id : string) : M Hub Pairing :=
  found ← section (λ h, (hb_pairings h !! id, h));
  match found with Some e => mret (pe_value e) | None => fail [TrustErrPairingNotFound] end.

(** The first section of [maybeActivate]: the entry to activate, if it is ready. *)
Definition ready (e : Pending) : bool :=
  waiting e && negb (pe_activating e) && pg_LocalConfirmed (pe_value e) && pg_RemoteConfirmed (pe_value e).
Definition take_activation (id : string) (h : Hub) : option Pending * Hub :=
  match hb_pairings h !! id with
  | Some e => if ready e then (Some e, set_pairings <[id := set_activating true e]> h) else (None, h)
  | None => (None, h)
  end.

(** The second one, after the transaction returned [r]. *)
Definition finish_activation (r : result unit) (e : Pending) : Pending :=
  if waiting e then
    match r with
    | Err err => on_value (with_state PairingFailed (error_text err)) (set_activating false e)
    | Ok _ => set_localCommitted (on_value (with_state PairingPaired (pg_Failure (pe_value e))) (set_activating false e))
    end
  else e.

Definition trusted_peer (e : Pending) (pairedAt : Z) : Peer :=
  let v := pe_value e in
  MkPeer (pg_ID v) (pg_PeerID v) (pg_PeerPublicKey v) (pe_connectivitySecret e) (pg_PeerName v) (pg_PeerRole v) TrustActive
    "" "" 0 0 [] [] None pairedAt pairedAt None.

Definition both_committed (e : Pending) : bool := pe_localCommitted e && pe_remoteCommitted e.

Definition maybeActivate (id : string) : M Hub unit :=
  taken ← section (take_activation id);
  match taken with
  | None => mret tt
  | Some e =>
      pairedAt ← now;
      r ← try_ (repository (Activate sha256 (trusted_peer e pairedAt)));
      _ ← update (set_pairings (alter (finish_activation r) id));
      match r with
      | Err _ => close (pe_channel e)
      | Ok _ =>
          _ ← try_ (SendDecision (pe_channel e) (MkDecision id true true));
          found ← section (λ h, (hb_pairings h !! id, h));
          match found with
          | Some e' => if both_committed e' then close (pe_channel e) else mret tt
          | None => mret tt
          end
      end
  end.

Definition sendDecision (ch : Channel) (id : string) (confirmed : bool) : M Hub unit :=
  SendDecision ch (MkDecision id confirmed false).

(** *** Monitoring a channel *)

(** What [ReceiveDecision] returns: a decision, or an error, at the deadline or before. *)
Inductive Received := Decision (d : PairingDecision) | ReceiveError (deadline : bool).

Definition closed_early : string := "pairing connection closed before both devices confirmed".

(** The section after a confirmation. *)
Definition remote_confirms (committed : bool) (e : Pending) : Pending :=
  let e := if waiting e then on_value (with_confirmed RemoteSide) e else e in
  if committed then set_remoteCommitted e else e.

(** The history of [remote_confirms]: a confirmation of a waiting ceremony. *)
Definition note_remote (id : string) (h : Hub) : Hub :=
  match hb_pairings h !! id with
  | Some e => if waiting e then add_confirmed (id, RemoteSide) h else h
  | None => h
  end.

Definition monitor_over (e : option Pending) : bool :=
  match e with
  | None => true
  | Some e => bool_decide (pg_State (pe_value e) ∈ [PairingRejected; PairingExpired; PairingFailed]) || both_committed e
  end.

Fixpoint monitor (ch : Channel) (id : string) (events : list Received) : M Hub unit :=
  match events with
  | [] => mret tt
  | ReceiveError deadline :: _ =>
      _ ← update (set_pairings (alter (λ e, if deadline then settle PairingExpired (pg_Failure (pe_value e)) e
            else settle PairingFailed closed_early e) id));
      close ch
  | Decision d :: rest =>
      if negb (bool_decide (pd_PairingID d = id)) then
        _ ← fail_pairing id [SessionErrProtocol]; close ch
      else if negb (pd_Confirmed d) then
        _ ← update (set_pairings (alter (λ e, settle PairingRejected (pg_Failure (pe_value e)) e) id)); close ch
      else
        _ ← update (λ h, set_pairings (alter (remote_confirms (pd_Committed d)) id) (note_remote id h));
        _ ← maybeActivate id;
        found ← section (λ h, (hb_pairings h !! id, h));
        if monitor_over found then close ch else monitor ch id rest
  end.

(** *** Local operations *)

Definition acceptInbound (ch : Channel) (events : list Received) : M Hub unit :=
  _ ← lift (reject_if (negb (bool_decide (local_Role local = RoleWorker))) [TrustErrPairingUnavailable]);
  value ← register ch DirectionInbound;
  monitor ch (pg_ID value) events.

Definition Accept (ch : Channel) (events : list Received) : M Hub unit :=
  r ← try_ (acceptInbound ch events);
  match r with Ok _ => mret tt | Err _ => close ch end.

(** [resolved] is what ResolveNearby returns, [dial] is DialPairing. *)
Definition Begin (resolved : result NearbyDevice) (dial : NearbyDevice → result Channel) : M Hub Pairing :=
  _ ← lift (reject_if (negb (bool_decide (local_Role local = RoleOrchestrator))) [TrustErrPairingUnavailable]);
  target ← lift resolved;
  _ ← lift (reject_if (negb (bool_decide (an_Role (nd_Announcement target) = RoleWorker))) [TrustErrPairingUnavailable]);
  _ ← lift (reject_if (negb (an_EndpointReady (nd_Announcement target))) [TrustErrPairingUnavailable]);
  match dial target with
  | Err _ => fail [TrustErrPairingUnavailable]
  | Ok ch =>
      r ← try_ (register ch DirectionOutbound);
      match r with
      | Err e => _ ← close ch; fail e
      | Ok value => _ ← update (add_monitor (ch_number ch, pg_ID value)); mret value
      end
  end.

(** Newest first, then by identifier. *)
Definition pairing_order (a b : Pairing) : Prop :=
  (pg_StartedAt b < pg_StartedAt a)%Z ∨ pg_StartedAt a = pg_StartedAt b ∧ str_leb (pg_ID a) (pg_ID b) = true.
#[global] Instance pairing_order_dec : RelDecision pairing_order.
Proof. intros a b. unfold pairing_order. apply _. Defined.

Definition list_values (h : Hub) : list Pairing :=
  merge_sort pairing_order (map (λ kv, pe_value kv.2) (map_to_list (hb_pairings h))).

(** [cancelled] is ctx.Err(). *)
Definition ListPairings (cancelled : result unit) : M Hub (list Pairing) :=
  _ ← lift cancelled;
  now_ ← now;
  section (λ h, let h := pruneLocked now_ h in (list_values h, h)).

Definition pairing_matches (selector : string) (kv : string * Pending) : bool :=
  has_prefix (to_upper kv.1) selector || equal_fold (pg_Verification (pe_value kv.2)) selector.

Definition resolvePairingLocked (selector : string) (m : gmap string Pending) : result Pending :=
  let selector := to_upper (trim_space selector) in
  let found := filter (λ kv, pairing_matches selector kv = true) (map_to_list m) in
  if bool_decide (selector = "") then Err [TrustErrPairingNotFound]
  else match found with
  | [] => Err [TrustErrPairingNotFound]
  | [kv] => Ok kv.2
  | _ => Err [TrustErrConflict]
  end.

(** The entry under the identifier is replaced; the history notes a confirmation. *)
Definition decide_locally (selector : string) (confirmed : bool) (now_ : Z) (h : Hub) : result Pending * Hub :=
  let h := pruneLocked now_ h in
  match resolvePairingLocked selector (hb_pairings h) with
  | Err e => (Err e, h)
  | Ok e =>
      if negb (waiting e) || pe_activating e then (Err [TrustErrConflict], h)
      else
        let id := pg_ID (pe_value e) in
        let e' := on_value (if confirmed then with_confirmed LocalSide else with_state PairingRejected (pg_Failure (pe_value e))) e in
        let h := set_pairings <[id := e']> h in
        (Ok e', if confirmed then add_confirmed (id, LocalSide) h else h)
  end.

Definition updateLocalDecision (selector : string) (confirmed : bool) : M Hub Pending :=
  now_ ← now;
  r ← section (decide_locally selector confirmed now_);
  lift r.

Definition Confirm (selector : string) : M Hub Pairing :=
  entry ← updateLocalDecision selector true;
  let id := pg_ID (pe_value entry) in
  sent ← try_ (sendDecision (pe_channel entry) id true);
  match sent with
  | Err e => _ ← fail_pairing id e; fail [TrustErrPairingUnavailable]
  | Ok _ => _ ← maybeActivate id; getPairing id
  end.

Definition Reject (selector : string) : M Hub Pairing :=
  entry ← updateLocalDecision selector false;
  let id := pg_ID (pe_value entry) in
  _ ← try_ (sendDecision (pe_channel entry) id false);
  _ ← close (pe_channel entry);
  getPairing id.

Definition ListTrusted : M Hub (list Peer) := repository (Trust_List sha256).

Fixpoint refresh_loop (matched : list (string * PeerHints)) : M Hub unit :=
  match matched with
  | [] => mret tt
  | (id, hints) :: rest => _ ← repository (UpdateHints sha256 id hints); refresh_loop rest
  end.

Definition RefreshTrustedHints (snapshot : DiscoverySnapshot) : M Hub (list Peer) :=
  peers ← repository (Trust_List sha256);
  _ ← refresh_loop (map_to_list (MatchNearbyHints peers (sn_Devices snapshot)));
  repository (Trust_List sha256).

Definition peer_matches (selector : string) (peer : Peer) : bool :=
  active_peer peer
  && (bool_decide (PeerNameOf peer = selector) || bool_decide (DeviceID peer = selector) || has_prefix (DeviceID peer) selector).

Definition Unpair (selector : string) : M Hub Peer :=
  peers ← repository (Trust_List sha256);
  let selector := trim_space selector in
  match filter (λ p, peer_matches selector p = true) peers with
  | [] => fail [TrustErrNotFound]
  | [peer] => at_ ← now; repository (Revoke sha256 (DeviceID peer) at_)
  | _ => fail [TrustErrConflict]
  end.

End Service.

(** ** The invariant *)

Definition other_role (local : LocalDevice) : string :=
  if bool_decide (local_Role local = RoleWorker) then RoleOrchestrator else RoleWorker.

Section Invariant.
Context `{UnicodeCase} (sha256 : bytes → bytes) (Hsha : ∀ c, length (sha256 c) = 32).
Context (unicode_fold : Z → Z) (error_text : list sentinel → string) (local : LocalDevice) (lifetime : Z).

(** The database when the service started. *)
Context (old : PeerDB).

(** A ceremony with a key that matches its identity and a peer of the other role,
    whose confirmations the history has. *)
Record entry_ok (confirmed : list (string * Side)) (id : string) (e : Pending) : Prop := {
  eo_id : pg_ID (pe_value e) = id;
  eo_role : pg_PeerRole (pe_value e) = other_role local;
  eo_key : pins_key sha256 (pg_PeerPublicKey (pe_value e)) (pg_PeerID (pe_value e)) = true;
  eo_local : pg_LocalConfirmed (pe_value e) = true → (id, LocalSide) ∈ confirmed;
  eo_remote : pg_RemoteConfirmed (pe_value e) = true → (id, RemoteSide) ∈ confirmed;
  eo_paired : pg_State (pe_value e) = PairingPaired → (id, LocalSide) ∈ confirmed ∧ (id, RemoteSide) ∈ confirmed
}.

(** An active pin was there at the start, or both sides confirmed its ceremony. *)
Definition justified (confirmed : list (string * Side)) (id : string) (row : DeviceRow) : Prop :=
  (∃ row0, trusted_devices old !! id = Some row0 ∧ is_active row0 = true ∧ td_pair_id row0 = td_pair_id row) ∨
  (td_pair_id row, LocalSide) ∈ confirmed ∧ (td_pair_id row, RemoteSide) ∈ confirmed.

Definition pin_ok (confirmed : list (string * Side)) (id : string) (row : DeviceRow) : Prop :=
  is_active row = true → td_role row = other_role local ∧ justified confirmed id row.

Record hub_ok (h : Hub) : Prop := {
  hu_peers : peers_ok sha256 (hb_db h);
  hu_pins : map_Forall (pin_ok (hb_confirmed h)) (trusted_devices (hb_db h));
  hu_entries : map_Forall (entry_ok (hb_confirmed h)) (hb_pairings h);
  hu_waiting : waiting_count (hb_pairings h) ≤ maximumPendingPairings
}.

(** The invariant, and that the history has at least [K]. *)
Definition knows (K : list (string * Side)) (h : Hub) : Prop := hub_ok h ∧ K ⊆ hb_confirmed h.

Lemma entry_ok_mono C C' id e : C ⊆ C' → entry_ok C id e → entry_ok C' id e.
Proof. intros Hsub [? ? ? ? ? Hp]. constructor; auto. intros E. destruct (Hp E). auto. Qed.
Lemma entry_ok_app C c id e : entry_ok C id e → entry_ok (C ++ [c]) id e.
Proof. apply entry_ok_mono. by apply list_subseteq_app_l. Qed.
Lemma pin_ok_mono C C' id row : C ⊆ C' → pin_ok C id row → pin_ok C' id row.
Proof. intros Hsub Hp Ha. destruct (Hp Ha) as [Hr [Ho|[? ?]]]; (split; [done|]); [by left|right]. auto. Qed.

Lemma waiting_count_le (m m' : gmap string Pending) :
  (∀ id e', m' !! id = Some e' → waiting e' = true → ∃ e, m !! id = Some e ∧ waiting e = true) →
  waiting_count m' ≤ waiting_count m.
Proof.
  intros Hw. unfold waiting_count. rewrite <-!size_dom. apply subseteq_size. intros id.
  rewrite !elem_of_dom. intros [e' He']. apply map_lookup_filter_Some in He' as [He' Hwt].
  destruct (Hw id e' He' Hwt) as (e & He & Hwe). exists e. by apply map_lookup_filter_Some.
Qed.

(** New ceremonies [m'] that keep to the history [C']. *)
Lemma hub_ok_entries h m' C' sent closed monitors :
  hub_ok h → hb_confirmed h ⊆ C' → map_Forall (entry_ok C') m' → waiting_count m' ≤ maximumPendingPairings →
  hub_ok (MkHub m' (hb_db h) sent closed monitors C').
Proof.
  intros [Hp Hpins He Hw] Hsub Hm' Hw'. constructor; try done. intros id row Hrow. eapply pin_ok_mono; [done|]. by apply Hpins.
Qed.

(** A change of one ceremony that keeps its identity and does not revive it. *)
Definition tame (C : list (string * Side)) (id : string) (f : Pending → Pending) : Prop :=
  ∀ e, entry_ok C id e → entry_ok C id (f e) ∧ (waiting (f e) = true → waiting e = true).

Lemma alter_ok K h f id :
  knows K h → tame (hb_confirmed h) id f → knows K (set_pairings (alter f id) h).
Proof.
  intros [Hok HK] Hf. split; [|done]. apply (hub_ok_entries h); [done|done| |].
  - intros i e. rewrite lookup_alter_Some. intros [(<- & e0 & He0 & ->)|[_ He]].
    + apply Hf. by apply (hu_entries _ Hok).
    + by apply (hu_entries _ Hok).
  - etrans; [|apply (hu_waiting _ Hok)]. apply waiting_count_le. intros i e. rewrite lookup_alter_Some.
    intros [(<- & e0 & He0 & ->)|[_ He]] Hwt; [|by eauto]. exists e0. split; [done|].
    eapply (Hf e0); [by apply (hu_entries _ Hok)|done].
Qed.

Lemma settle_tame C id st failure : st ≠ PairingPaired → st ≠ PairingWaiting → tame C id (settle st failure).
Proof.
  intros Hp Hw e He. unfold settle. destruct (waiting e) eqn:Ew; [|by rewrite Ew].
  split; [|done]. destruct He. by constructor.
Qed.

Lemma prune_entry_cases t e e' : prune_entry lifetime t e = Some e' →
  e' = e ∨ waiting e = true ∧ e' = on_value (with_state PairingExpired (pg_Failure (pe_value e))) e.
Proof.
  unfold prune_entry. destruct (waiting e) eqn:Ew; cbn [andb].
  - destruct (after _ t); cbn [negb andb].
    + rewrite Ew. cbn [negb andb]. intros [= <-]. by left.
    + destruct (_ && _); [done|]. intros [= <-]. by right.
  - destruct (_ && _); [done|]. intros [= <-]. by left.
Qed.

Lemma expired_ok C id e : waiting e = true → entry_ok C id e →
  entry_ok C id (on_value (with_state PairingExpired (pg_Failure (pe_value e))) e).
Proof. intros _ []. by constructor. Qed.

Lemma prune_ok K t h : knows K h → knows K (pruneLocked lifetime t h).
Proof.
  intros [Hok HK]. split; [|done]. unfold pruneLocked, set_pairings, add_closed. cbn [hb_pairings hb_db]. apply (hub_ok_entries h); [done|done| |].
  - intros i e'. rewrite lookup_omap_Some. intros (e & Hp & He). pose proof (hu_entries _ Hok _ _ He) as Heo.
    apply prune_entry_cases in Hp as [->|[Hw ->]]; [done|]. by apply expired_ok.
  - etrans; [|apply (hu_waiting _ Hok)]. apply waiting_count_le. intros i e'. rewrite lookup_omap_Some.
    intros (e & Hp & He) Hwt. apply prune_entry_cases in Hp as [->|[Hw ->]]; [by eauto|]. by eauto.
Qed.

(** Admission: a new ceremony takes a free place. *)
Lemma admission_ok K t e h r h' :
  knows K h → entry_ok (hb_confirmed h) (pg_ID (pe_value e)) e → admit_pairing lifetime t e h = (r, h') → knows K h'.
Proof.
  intros Hk He. apply (prune_ok K t) in Hk. unfold admit_pairing. assert (hb_confirmed (pruneLocked lifetime t h) = hb_confirmed h) as Ec by done.
  set (h1 := pruneLocked lifetime t h) in *. destruct (_ <=? _) eqn:Ew; [by intros [= _ <-]|]. apply Nat.leb_gt in Ew.
  case_bool_decide as Hs; [by intros [= _ <-]|]. intros [= _ <-]. destruct Hk as [Hok HK]. split; [|done].
  unfold set_pairings. apply (hub_ok_entries h1); [done|done| |].
  - apply map_Forall_insert_2; [by rewrite Ec|apply (hu_entries _ Hok)].
  - destruct (waiting e) eqn:Ewt.
    + unfold waiting_count in *. rewrite map_filter_insert_True by done. rewrite map_size_insert. case_match; unfold id; lia.
    + etrans; [apply waiting_count_le|apply Nat.lt_le_incl, Ew]. intros i e'. rewrite lookup_insert_Some.
      intros [[_ <-]|[_ He']] Hwt; [congruence|]. by exists e'.
Qed.

(** The decision of the local user. *)
Lemma decide_ok K selector confirmed t h r h' :
  knows K h → decide_locally unicode_fold lifetime selector confirmed t h = (r, h') → knows K h'.
Proof.
  intros Hk. apply (prune_ok K t) in Hk. unfold decide_locally. set (h1 := pruneLocked lifetime t h) in *.
  destruct (resolvePairingLocked _ _ _) as [e|er] eqn:Er; [|by intros [= _ <-]].
  assert (∃ id, hb_pairings h1 !! id = Some e) as (id & He).
  { unfold resolvePairingLocked in Er. case_bool_decide; [done|].
    destruct (filter _ (map_to_list (hb_pairings h1))) as [|kv [|]] eqn:Ef; [done| |done]. injection Er as <-.
    assert (kv ∈ [kv]) as Hin by set_solver. rewrite <-Ef in Hin. apply list_elem_of_filter in Hin as [_ Hin].
    destruct kv as [k e]. exists k. by apply elem_of_map_to_list in Hin. }
  destruct Hk as [Hok HK]. pose proof (hu_entries _ Hok _ _ He) as Heo. rewrite (eo_id _ _ _ Heo).
  destruct (negb (waiting e) || pe_activating e) eqn:Eg; [by intros [= _ <-]|]. apply orb_false_iff in Eg as [Hw _].
  apply negb_false_iff in Hw. intros [= _ <-]. destruct confirmed.
  - split; [|by apply list_subseteq_app_l]. unfold add_confirmed, set_pairings. cbn [hb_pairings hb_db hb_sent hb_closed hb_monitors hb_confirmed].
    apply (hub_ok_entries h1); [done|by apply list_subseteq_app_l| |].
    + apply map_Forall_insert_2.
      * destruct (entry_ok_app _ (id, LocalSide) _ _ Heo).
        constructor; cbn; try done. set_solver.
      * intros i e' He'. apply entry_ok_app. by apply (hu_entries _ Hok).
    + etrans; [apply waiting_count_le|apply (hu_waiting _ Hok)]. intros i e'. rewrite lookup_insert_Some.
      intros [[<- <-]|[_ He']] Hwt; by eauto.
  - split; [|done]. unfold set_pairings. apply (hub_ok_entries h1); [done|done| |].
    + apply map_Forall_insert_2; [|apply (hu_entries _ Hok)]. destruct Heo. by constructor.
    + etrans; [apply waiting_count_le|apply (hu_waiting _ Hok)]. intros i e'. rewrite lookup_insert_Some.
      intros [[<- <-]|[_ He']] Hwt; by eauto.
Qed.

(** What the monitor does with a confirmation. *)
Lemma remote_ok K committed id h :
  knows K h → knows K (set_pairings (alter (remote_confirms committed) id) (note_remote id h)).
Proof.
  intros [Hok HK].
  assert (knows K (note_remote id h) ∧ (∀ e, hb_pairings h !! id = Some e → waiting e = true → (id, RemoteSide) ∈ hb_confirmed (note_remote id h)))
    as [Hk Hin].
  { unfold note_remote. destruct (hb_pairings h !! id) as [e|] eqn:E; [|by split]. destruct (waiting e) eqn:Ew.
    - split; [|intros; set_solver]. split; [|by apply list_subseteq_app_l].
      apply (hub_ok_entries h); [done|by apply list_subseteq_app_l| |apply (hu_waiting _ Hok)].
      intros i e' He'. apply entry_ok_app. by apply (hu_entries _ Hok).
    - split; [done|]. intros e' [= <-]. congruence. }
  assert (hb_pairings (note_remote id h) = hb_pairings h) as Ep by (unfold note_remote; repeat case_match; done).
  destruct Hk as [Hok' HK']. split; [|done]. unfold set_pairings. apply (hub_ok_entries (note_remote id h)); [done|done| |].
  - intros i e'. rewrite Ep, lookup_alter_Some. intros [(<- & e & He & ->)|[_ He]]; [|apply (hu_entries _ Hok'); by rewrite Ep].
    rewrite <-Ep in He. pose proof (hu_entries _ Hok' _ _ He) as Heo. rewrite Ep in He. unfold remote_confirms.
    destruct (waiting e) eqn:Ew; destruct committed; destruct Heo; constructor; cbn; try done; intros; by eapply Hin.
  - etrans; [apply waiting_count_le|apply (hu_waiting _ Hok')]. intros i e'. rewrite lookup_alter_Some.
    intros [(<- & e & He & ->)|[_ He]] Hwt; [|by eauto]. exists e. split; [done|]. unfold remote_confirms in Hwt.
    destruct (waiting e) eqn:Ew; [done|]. rewrite <-Ew. by destruct committed.
Qed.

(** Taking a ceremony for activation teaches that both sides confirmed. *)
Lemma take_ok K id h taken h' :
  knows K h → take_activation id h = (taken, h') → knows K h' ∧
  ∀ e, taken = Some e → knows ((id, LocalSide) :: (id, RemoteSide) :: K) h' ∧ entry_ok (hb_confirmed h') id e.
Proof.
  intros [Hok HK]. unfold take_activation. destruct (hb_pairings h !! id) as [e|] eqn:E; [|by intros [= <- <-]].
  destruct (ready e) eqn:Er; [|by intros [= <- <-]]. intros [= <- <-]. pose proof (hu_entries _ Hok _ _ E) as Heo.
  assert (hub_ok (set_pairings <[id := set_activating true e]> h)) as Hok'.
  { unfold set_pairings. apply (hub_ok_entries h); [done|done| |].
    - apply map_Forall_insert_2; [|apply (hu_entries _ Hok)]. destruct Heo. by constructor.
    - etrans; [apply waiting_count_le|apply (hu_waiting _ Hok)]. intros i e'. rewrite lookup_insert_Some.
      intros [[<- <-]|[_ He']] Hwt; by eauto. }
  unfold ready in Er. reflect_bools. split; [by split|]. intros e' [= <-]. split; [|done]. split; [done|].
  cbn [set_pairings hb_confirmed]. intros x [->|[->|Hx]%elem_of_cons]%elem_of_cons; [by apply (eo_local _ _ _ Heo)|by apply (eo_remote _ _ _ Heo)|auto].
Qed.

Lemma finish_tame C id r : (id, LocalSide) ∈ C → (id, RemoteSide) ∈ C → tame C id (finish_activation error_text r).
Proof.
  intros Hl Hr e He. unfold finish_activation. destruct (waiting e) eqn:Ew; [|by rewrite Ew].
  split; [|by destruct r]. destruct He, r; by constructor.
Qed.

(** *** Transactions *)

(** Every active pin after [t] was there before. *)
Definition no_new_pins {A} (t : Tx PeerDB A) : Prop :=
  ∀ d a d', peers_ok sha256 d → t d = Ok (a, d') → peers_ok sha256 d' ∧
  ∀ id row', trusted_devices d' !! id = Some row' → is_active row' = true →
    ∃ row, trusted_devices d !! id = Some row ∧ is_active row = true ∧ td_pair_id row = td_pair_id row' ∧ td_role row = td_role row'.

Lemma read_only_pins {A} (t : Tx PeerDB A) : (∀ d a d', t d = Ok (a, d') → d' = d) → no_new_pins t.
Proof. intros Ht d a d' Hd Hrun. apply Ht in Hrun as ->. split; [done|]. intros id row' Hrow Ha. by exists row'. Qed.

Lemma query_state id d p d' : queryTrustedPeer sha256 id d = Ok (p, d') → d' = d.
Proof. unfold queryTrustedPeer. intros Hrun. invert_tx Hrun. destruct (trusted_devices _ !! id); [|done]. by invert_tx Hrun. Qed.

Lemma get_pins id : no_new_pins (Trust_Get sha256 id).
Proof.
  apply read_only_pins. intros d a d'. unfold Trust_Get. intros (u & d1 & [_ ->]%tx_lift_ok & Hq%on_no_rows_ok)%tx_bind_ok.
  by eapply query_state.
Qed.

Lemma list_pins : no_new_pins (Trust_List sha256).
Proof. apply read_only_pins. intros d a d'. unfold Trust_List. intros Hrun. by invert_tx Hrun. Qed.

Lemma revoke_pins id at_ : no_new_pins (Revoke sha256 id at_).
Proof.
  intros d p d' Hd Hrun. split; [by eapply peers_ok_step, step_revoke|].
  apply revoke_ok in Hrun as (row & Hrow & [[-> _]|(at' & _ & _ & _ & _ & _ & ->)]); [by eauto| |done].
  intros i row'. cbn [add_event set_device trusted_devices]. rewrite lookup_insert_Some. intros [[<- <-]|[_ Hi]] Ha; [done|]. by eauto.
Qed.

Lemma hints_pins id hints : no_new_pins (UpdateHints sha256 id hints).
Proof.
  intros d p d' Hd Hrun. split; [by eapply peers_ok_step, step_hints|].
  apply hints_ok_step in Hrun as (row & Hrow & [[-> _]|(Hact & _ & _ & _ & _ & ->)]); [by eauto| |done].
  intros i row'. cbn [set_device trusted_devices]. rewrite lookup_insert_Some. intros [[<- <-]|[_ Hi]] Ha; [|by eauto]. by exists row.
Qed.

(** *** Operations *)

(** [m] keeps the invariant and the history, whatever the other goroutines do that
    keeps them; [safe_at K] starts where the history has [K]. *)
Definition safe_at {A} (K : list (string * Side)) (m : M Hub A) : Prop :=
  ∀ w r w', (∀ K, stable (knows K) w) → knows K (w_db w) → m w = (r, w') →
    knows K (w_db w') ∧ w_interfere w' = w_interfere w.
Definition safe {A} (m : M Hub A) : Prop := ∀ K, safe_at K m.

Lemma keeps_safe_at {A} K (m : M Hub A) : keeps (knows K) m → safe_at K m.
Proof. intros Hm w r w' Hst Hk Hrun. by eapply Hm. Qed.

Lemma safe_at_bind {A B} K (m : M Hub A) (f : A → M Hub B) : safe_at K m → (∀ a, safe_at K (f a)) → safe_at K (m ≫= f).
Proof.
  intros Hm Hf w r w' Hst Hk. unfold mbind, M_bind. destruct (m w) as [[a|e] w1] eqn:Em; intros Hrun.
  - destruct (Hm _ _ _ Hst Hk Em) as [Hk1 Hw1]. destruct (Hf a w1 r w') as [Hk' Hw']; auto; [|by rewrite Hw', Hw1].
    intros K' n d Hd. rewrite Hw1. by apply Hst.
  - injection Hrun as <- <-. by eapply Hm.
Qed.

Lemma safe_at_try {A} K (m : M Hub A) : safe_at K m → safe_at K (try_ m).
Proof. intros Hm w r w' Hst Hk. unfold try_. destruct (m w) as [r1 w1] eqn:Em. intros [= <- <-]. by eapply Hm. Qed.

Lemma safe_keeps {A} (m : M Hub A) : (∀ K, keeps (knows K) m) → safe m.
Proof. intros Hm K. by apply keeps_safe_at. Qed.
Lemma safe_bind {A B} (m : M Hub A) (f : A → M Hub B) : safe m → (∀ a, safe (f a)) → safe (m ≫= f).
Proof. intros Hm Hf K. apply safe_at_bind; [done|]. intros a. apply Hf. Qed.
Lemma safe_try {A} (m : M Hub A) : safe m → safe (try_ m).
Proof. intros Hm K. by apply safe_at_try. Qed.
Lemma safe_ret {A} (a : A) : safe (mret a).
Proof. apply safe_keeps. intros K. apply ret_keeps. Qed.
Lemma safe_lift {A} (r : result A) : safe (lift r).
Proof. apply safe_keeps. intros K. apply lift_keeps. Qed.
Lemma safe_fail {A} e : safe (A := A) (fail e).
Proof. apply safe_keeps. intros K. apply fail_keeps. Qed.
Lemma safe_now : safe now.
Proof. apply safe_keeps. intros K. apply now_keeps. Qed.

Lemma safe_section {A} (f : Hub → A * Hub) : (∀ K h a h', knows K h → f h = (a, h') → knows K h') → safe (section f).
Proof.
  intros Hf K w r w' Hst Hk. unfold section. destruct (f (next_db w)) as [a h'] eqn:Ef. intros [= <- <-]. cbn.
  split; [|done]. eapply Hf; [|exact Ef]. by apply Hst.
Qed.

Lemma safe_update f : (∀ K h, knows K h → knows K (f h)) → safe (update f).
Proof. intros Hf. apply safe_section. intros K h a h' Hk [= _ <-]. by apply Hf. Qed.

Lemma safe_repository {A} (t : Tx PeerDB A) : no_new_pins t → safe (repository t).
Proof.
  intros Ht. apply safe_keeps. intros K. apply atomically_keeps. intros h a h' [Hok HK]. unfold on_db.
  destruct (t (hb_db h)) as [[a' d']|e] eqn:Et; [|done]. intros [= <- <-].
  destruct (Ht _ _ _ (hu_peers _ Hok) Et) as [Hp Hback]. destruct Hok as [_ Hpins He Hw]. split; [|done].
  constructor; try done. intros id row' Hrow' Ha. destruct (Hback id row' Hrow' Ha) as (row & Hrow & Hact & E1 & E2).
  destruct (Hpins id row Hrow Hact) as [Hr Hj]. split; [congruence|]. unfold justified in *. by rewrite <-E1.
Qed.

Lemma safe_send ch d : safe (SendDecision ch d).
Proof. apply safe_keeps. intros K. apply atomically_keeps. intros h a h' [Hok HK] [= _ <-]. split; [|done]. by destruct Hok. Qed.

Lemma safe_close ch : safe (close ch).
Proof. apply safe_update. intros K h [Hok HK]. split; [|done]. by destruct Hok. Qed.

(** The commit of a ceremony both sides confirmed. *)
Lemma activate_knows K id e t C :
  entry_ok C id e → (id, LocalSide) ∈ K → (id, RemoteSide) ∈ K →
  keeps (knows K) (repository (Activate sha256 (trusted_peer e t))).
Proof.
  intros He Hl Hr. apply atomically_keeps. intros h a h' [Hok HK]. unfold on_db.
  destruct (Activate sha256 (trusted_peer e t) (hb_db h)) as [[u d']|er] eqn:Et; [|done]. intros [= <- <-]. split; [|done].
  assert (peers_ok sha256 d') as Hp by (destruct u; eapply peers_ok_step; [done|apply Hok|by eapply step_activate]).
  destruct Hok as [Hpeers Hpins Hent Hw]. constructor; try done.
  apply activate_ok in Et as (_ & _ & [[-> _]|(_ & _ & _ & ->)]); [done| |done].
  cbn [set_db hb_db add_event set_device trusted_devices hb_confirmed]. apply map_Forall_insert_2; [|done]. intros _.
  rewrite <-(eo_role _ _ _ He). destruct (trusted_devices (hb_db h) !! _); (split; [done|right]); cbn; rewrite (eo_id _ _ _ He); auto.
Qed.

Lemma knows_weaken K K' h : K ⊆ K' → knows K' h → knows K h.
Proof. intros Hs [? ?]. split; [done|]. by etrans. Qed.

Lemma safe_finish id r K : (id, LocalSide) ∈ K → (id, RemoteSide) ∈ K →
  keeps (knows K) (update (set_pairings (alter (finish_activation error_text r) id))).
Proof.
  intros Hl Hr w r' w' Hst Hk [= <- <-]. cbn. split; [|done]. pose proof (Hst (w_access w) _ Hk) as Hk'. apply alter_ok; [done|].
  destruct Hk' as [_ Hsub]. apply finish_tame; by apply Hsub.
Qed.

Lemma safe_find id : safe (section (λ h, (hb_pairings h !! id, h))).
Proof. apply safe_section. by intros K h a h' Hk [= _ <-]. Qed.

Lemma safe_maybeActivate id : safe (maybeActivate sha256 error_text id).
Proof.
  intros K w r w' Hst Hk. unfold maybeActivate. unfold mbind at 1, M_bind at 1, section at 1.
  destruct (take_activation id (next_db w)) as [taken h1] eqn:Et.
  destruct (take_ok K id _ _ _ (Hst K (w_access w) _ Hk) Et) as [Hk1 Htaken].
  destruct taken as [e|]; [|by intros [= <- <-]]. destruct (Htaken e eq_refl) as [Hk2 He]. intros Hrun.
  set (K' := (id, LocalSide) :: (id, RemoteSide) :: K) in *.
  assert (knows K' (w_db w') ∧ w_interfere w' = w_interfere w) as [Hk' Hw']; [|split; [|done]; eapply knows_weaken; [|exact Hk']; set_solver].
  refine ((_ : safe_at K' _) (accessed w h1) r w' _ Hk2 Hrun); [|by intros K2 n d; apply Hst].
  apply safe_at_bind; [apply safe_now|intros pairedAt].
  apply safe_at_bind; [apply safe_at_try, keeps_safe_at; eapply activate_knows; [exact He|set_solver..]|intros ra].
  apply safe_at_bind; [apply keeps_safe_at, safe_finish; set_solver|intros _].
  destruct ra as [_|er]; [|apply safe_close]. apply safe_at_bind; [apply safe_at_try, safe_send|intros _].
  apply safe_at_bind; [apply safe_find|intros [e'|]]; [|apply safe_ret]. destruct (both_committed e'); [apply safe_close|apply safe_ret].
Qed.

(** *** Every operation *)

Lemma safe_fail_pairing id e : safe (fail_pairing error_text id e).
Proof. apply safe_update. intros K h Hk. apply alter_ok; [done|]. by apply settle_tame. Qed.

Lemma safe_getPairing id : safe (getPairing id).
Proof. apply safe_bind; [apply safe_find|]. intros [e|]; [apply safe_ret|apply safe_fail]. Qed.

Lemma safe_monitor ch id events : safe (monitor sha256 error_text ch id events).
Proof.
  induction events as [|[d|deadline] events IH]; cbn [monitor]; [apply safe_ret| |].
  - case_bool_decide; cbn [negb]; [|apply safe_bind; [apply safe_fail_pairing|intros _; apply safe_close]].
    destruct (pd_Confirmed d); cbn [negb].
    + apply safe_bind; [apply safe_update; intros K h; apply remote_ok|intros _].
      apply safe_bind; [apply safe_maybeActivate|intros _]. apply safe_bind; [apply safe_find|intros found].
      destruct (monitor_over found); [apply safe_close|done].
    + apply safe_bind; [|intros _; apply safe_close]. apply safe_update. intros K h Hk. apply alter_ok; [done|].
      intros e. by apply settle_tame.
  - apply safe_bind; [|intros _; apply safe_close]. apply safe_update. intros K h Hk. apply alter_ok; [done|].
    intros e. destruct deadline; by apply settle_tame.
Qed.

Lemma safe_decision selector confirmed : safe (updateLocalDecision unicode_fold lifetime selector confirmed).
Proof.
  apply safe_bind; [apply safe_now|intros t]. apply safe_bind; [|intros r; apply safe_lift].
  apply safe_section. intros K h a h'. apply decide_ok.
Qed.

Lemma role_mismatch_other direction peer : role_mismatch local direction peer = false → sp_Role peer = other_role local.
Proof.
  unfold role_mismatch, other_role. destruct direction; intros Hm; reflect_bools.
  - by rewrite H0, bool_decide_false.
  - by rewrite H0, bool_decide_true.
Qed.

(** A guard whose success the rest may rely on. *)
Lemma safe_guard {A B} (r : result A) (f : A → M Hub B) : (∀ a, r = Ok a → safe (f a)) → safe (lift r ≫= f).
Proof.
  intros Hf K w r' w' Hst Hk. unfold mbind, M_bind, lift. destruct r as [a|e]; [by apply Hf|]. by intros [= <- <-].
Qed.

Lemma safe_register ch direction : safe (register sha256 local lifetime ch direction).
Proof.
  unfold register. apply safe_guard. intros u Hv. apply safe_guard. intros u' Hm%reject_if_ok.
  apply safe_bind; [|intros _]. { apply safe_bind; [apply safe_try, safe_repository, get_pins|]. intros [p|e]; apply safe_lift. }
  apply safe_bind; [|intros _].
  { unfold check_no_orchestrator. case_bool_decide; [|apply safe_ret]. apply safe_bind; [apply safe_repository, list_pins|]. intros ps. apply safe_lift. }
  destruct (match direction with DirectionOutbound => _ | DirectionInbound => _ end) as [i r].
  apply safe_bind; [apply safe_lift|intros derived]. apply safe_bind; [apply safe_lift|intros secret].
  apply safe_bind; [apply safe_now|intros startedAt]. apply safe_bind; [apply safe_lift|intros _].
  apply safe_bind; [apply safe_now|intros t]. apply safe_bind; [|intros a; apply safe_lift].
  apply safe_section. intros K h a h' Hk. apply admission_ok; [done|]. constructor; try done; cbn.
  - by eapply role_mismatch_other.
  - unfold SessionPeer_Validate in Hv. apply reject_if_ok in Hv. by reflect_bools.
Qed.

End Invariant.

Create HintDb pairing discriminated.
#[export] Hint Resolve safe_bind safe_try safe_ret safe_lift safe_fail safe_now safe_repository safe_send safe_close safe_find
  safe_maybeActivate safe_fail_pairing safe_getPairing safe_monitor safe_decision safe_register get_pins list_pins revoke_pins hints_pins : pairing.

(** ** A running service *)

Inductive PairingCall :=
| CallBegin (resolved : result NearbyDevice) (dial : NearbyDevice → result Channel)
| CallAccept (ch : Channel) (events : list Received)
| CallMonitor (ch : Channel) (id : string) (events : list Received)
| CallList (cancelled : result unit)
| CallConfirm (selector : string)
| CallReject (selector : string)
| CallListTrusted
| CallRefresh (snapshot : DiscoverySnapshot)
| CallUnpair (selector : string).

Section Calls.
Context `{UnicodeCase} (sha256 : bytes → bytes) (Hsha : ∀ c, length (sha256 c) = 32).
Context (unicode_fold : Z → Z) (error_text : list sentinel → string) (local : LocalDevice) (lifetime : Z).

Definition ignore {A} (m : M Hub A) : M Hub unit := _ ← try_ m; mret tt.

(** One call; the caller gets its result. *)
Definition serve (c : PairingCall) : M Hub unit :=
  match c with
  | CallBegin resolved dial => ignore (Begin sha256 local lifetime resolved dial)
  | CallAccept ch events => Accept sha256 error_text local lifetime ch events
  | CallMonitor ch id events => monitor sha256 error_text ch id events
  | CallList cancelled => ignore (ListPairings lifetime cancelled)
  | CallConfirm selector => ignore (Confirm sha256 unicode_fold error_text lifetime selector)
  | CallReject selector => ignore (Reject unicode_fold lifetime selector)
  | CallListTrusted => ignore (ListTrusted sha256)
  | CallRefresh snapshot => ignore (RefreshTrustedHints sha256 snapshot)
  | CallUnpair selector => ignore (Unpair sha256 selector)
  end.

Fixpoint serve_all (calls : list PairingCall) : M Hub unit :=
  match calls with [] => mret tt | c :: rest => _ ← serve c; serve_all rest end.

Context (old : PeerDB).
Abbreviation safe_call := (safe sha256 local old).

Lemma safe_refresh matched : safe_call (refresh_loop sha256 matched).
Proof. induction matched as [|[id hints] matched IH]; cbn [refresh_loop]; [apply safe_ret|]. auto with pairing. Qed.

Lemma safe_serve c : safe_call (serve c).
Proof.
  destruct c as [resolved dial|ch events|ch id events|cancelled|selector|selector| |snapshot|selector]; cbn [serve];
    try (apply safe_bind; [apply safe_try|intros ?; apply safe_ret]).
  - unfold Begin. do 4 (apply safe_bind; [auto with pairing|intros ?]). destruct (dial _) as [ch|e]; [|auto with pairing].
    apply safe_bind; [auto with pairing|]. intros [value|e]; [|auto with pairing].
    apply safe_bind; [|intros _; apply safe_ret]. apply safe_update. intros K h [Hok HK]. split; [|done]. by destruct Hok.
  - unfold Accept, acceptInbound. apply safe_bind.
    + apply safe_try, safe_bind; [auto with pairing|intros _]. auto with pairing.
    + intros [u|e]; auto with pairing.
  - auto with pairing.
  - unfold ListPairings. apply safe_bind; [auto with pairing|intros _]. apply safe_bind; [auto with pairing|intros t].
    apply safe_section. intros K h a h' Hk [= _ <-]. by apply prune_ok.
  - unfold Confirm. apply safe_bind; [auto with pairing|intros e]. apply safe_bind; [apply safe_try, safe_send|].
    intros [u|er]; auto with pairing.
  - unfold Reject. apply safe_bind; [auto with pairing|intros e]. apply safe_bind; [apply safe_try, safe_send|]. auto with pairing.
  - unfold ListTrusted. auto with pairing.
  - unfold RefreshTrustedHints. apply safe_bind; [auto with pairing|intros ps]. apply safe_bind; [apply safe_refresh|]. auto with pairing.
  - unfold Unpair. apply safe_bind; [auto with pairing|intros ps]. destruct (filter _ ps) as [|p [|]]; auto with pairing.
Qed.

Lemma safe_serve_all calls : safe_call (serve_all calls).
Proof. induction calls as [|c calls IH]; cbn [serve_all]; [apply safe_ret|]. apply safe_bind; [apply safe_serve|auto]. Qed.

(** What [NewService] finds in the database. *)
Lemma validate_role_ok w u w' :
  ValidateLocalRole sha256 (local_Role local) w = (Ok u, w') → peers_ok sha256 (hb_db (next_db w)) →
  w_db w' = next_db w ∧ w_interfere w' = w_interfere w ∧
  map_Forall (λ _ row, is_active row = true → td_role row = other_role local) (trusted_devices (hb_db (w_db w'))).
Proof.
  unfold ValidateLocalRole. intros (u1 & w1 & E1 & Hrun)%m_bind_ok Hp. unfold lift in E1. injection E1 as Hk <-.
  apply reject_if_ok in Hk. apply m_bind_ok in Hrun as (peers & w1 & Hl & Hc).
  apply atomically_cases in Hl as [(e & ? & _)|(a & h & [= <-] & Ht & ->)]; [done|]. unfold on_db in Ht. rewrite list_run in Ht by done.
  injection Ht as <- <-. unfold lift in Hc. injection Hc as Hc <-. apply reject_if_ok in Hc.
  assert (set_db (hb_db (next_db w)) (next_db w) = next_db w) as Es by (by destruct (next_db w)). rewrite Es. cbn [accessed w_db w_interfere].
  split_and!; [done|done|]. intros id row Hrow Hact.
  eapply existsb_none in Hc; [|apply listed_peers; by exists id, row]. unfold role_conflict, active_peer, peer_of_role in Hc.
  cbn [peer_of PeerState PeerRoleOf] in Hc. destruct (row_state sha256 _ _ (po_rows _ _ Hp _ _ Hrow)) as [[_ Hst]|(Hn & _)]; [|congruence].
  rewrite Hst, bool_decide_true in Hc by done. unfold known_role in Hk. unfold other_role. apply negb_false_iff, orb_true_iff in Hk.
  destruct Hk as [E|E]; reflect_bools; rewrite E in *; case_bool_decide; try done; cbn in *.
  - destruct (bool_decide (td_role row = RoleOrchestrator)) eqn:Er; [by reflect_bools|]. by vm_compute in Hc.
  - destruct (bool_decide (td_role row = RoleWorker)) eqn:Er; [by reflect_bools|]. by vm_compute in Hc.
Qed.

(** What [NewService] finds in the database. *)
Lemma new_service_ok requested w d w' :
  NewService sha256 local requested w = (Ok d, w') → peers_ok sha256 (hb_db (next_db w)) →
  w_db w' = next_db w ∧ w_interfere w' = w_interfere w ∧ (minute ≤ d ≤ 15 * minute)%Z ∧
  map_Forall (λ _ row, is_active row = true → td_role row = other_role local) (trusted_devices (hb_db (w_db w'))).
Proof.
  unfold NewService. intros (u1 & w1 & E1 & Hrun)%m_bind_ok Hp. unfold lift in E1. injection E1 as _ <-.
  apply m_bind_ok in Hrun as (u2 & w2 & E2 & Hrun). unfold lift in E2. injection E2 as Hr%reject_if_ok <-.
  apply m_bind_ok in Hrun as (u3 & w3 & Hval & Hret). injection Hret as <- <-. reflect_bools.
  destruct (validate_role_ok _ _ _ Hval Hp) as (-> & -> & Hroles). split_and!; done || lia.
Qed.

End Calls.

(** C7 No trust without both confirmations.  After a service has started, let it serve any
    calls in any order, with any failures of the database and of the channels, while
    its other goroutines do between two accesses anything that keeps the invariant and
    the history of confirmations.  Then every active pin is one that was active at the
    start or belongs to a ceremony that the local user and the peer both confirmed; its
    role is opposite to the local one; and at most 16 ceremonies wait. *)
Theorem trust_needs_both (U : UnicodeCase) (sha256 : bytes → bytes) (unicode_fold : Z → Z) (error_text : list sentinel → string)
    (local : LocalDevice) (requested lifetime : Z) (w w1 w2 : World Hub) (calls : list PairingCall) (r : result unit) :
  (∀ c, length (sha256 c) = 32) →
  rtc (trust_step sha256) empty_peers (hb_db (next_db w)) → hb_pairings (next_db w) = ∅ →
  NewService sha256 local requested w = (Ok lifetime, w1) →
  (∀ n h, hub_ok sha256 local (hb_db (w_db w1)) h →
     hub_ok sha256 local (hb_db (w_db w1)) (w_interfere w n h) ∧ hb_confirmed h ⊆ hb_confirmed (w_interfere w n h)) →
  serve_all sha256 unicode_fold error_text local lifetime calls w1 = (r, w2) →
  hub_ok sha256 local (hb_db (w_db w1)) (w_db w2) ∧
  (∀ id row, trusted_devices (hb_db (w_db w2)) !! id = Some row → is_active row = true →
     td_role row = other_role local ∧
     ((∃ row0, trusted_devices (hb_db (w_db w1)) !! id = Some row0 ∧ is_active row0 = true ∧ td_pair_id row0 = td_pair_id row) ∨
      (td_pair_id row, LocalSide) ∈ hb_confirmed (w_db w2) ∧ (td_pair_id row, RemoteSide) ∈ hb_confirmed (w_db w2))) ∧
  waiting_count (hb_pairings (w_db w2)) ≤ maximumPendingPairings.
Proof.
  intros Hsha Hr Hempty Hnew Henv Hrun. pose proof (peers_ok_reachable sha256 Hsha _ Hr) as Hp.
  destruct (new_service_ok sha256 local requested w lifetime w1 Hnew Hp) as (Hdb & Hint & _ & Hroles).
  assert (hub_ok sha256 local (hb_db (w_db w1)) (w_db w1)) as Hok.
  { constructor; rewrite ?Hdb in *; try done.
    - intros id row Hrow Hact. split; [by eapply Hroles|]. left. by exists row.
    - rewrite Hempty. apply map_Forall_empty.
    - rewrite Hempty. unfold waiting_count. rewrite map_filter_empty, map_size_empty. lia. }
  destruct (safe_serve_all sha256 Hsha unicode_fold error_text local lifetime (hb_db (w_db w1)) calls [] w1 r w2) as [[Hok2 _] _]; [|split; [done|apply list_subseteq_nil]|done|].
  - intros K n h [Hh HK]. rewrite Hint. destruct (Henv n h Hh) as [? ?]. split; [done|]. by etrans.
  - split; [done|]. split; [|apply Hok2]. intros id row Hrow Hact. by apply (hu_pins _ _ _ _ Hok2).
Qed.

(** ** Selecting and refreshing peers *)

(** A selector that is blank after trimming matches every active peer. *)
Lemma blank_selector_matches peer : peer_matches "" peer = active_peer peer.
Proof. unfold peer_matches, has_prefix. by rewrite orb_true_r, andb_true_r. Qed.

(** Hints from the local network never carry tools or executors, so storing them
    erases those that the worker reported itself. *)
Lemma lan_hints_erase_tools peers nearby id hints row :
  MatchNearbyHints peers nearby !! id = Some hints →
  td_tools (hinted_row row hints) = [] ∧ td_executors (hinted_row row hints) = [].
Proof.
  unfold MatchNearbyHints. intros Hm%elem_of_list_to_map_2. apply list_elem_of_omap in Hm as (name & _ & Hm).
  destruct (filter _ peers) as [|p [|]]; try done. destruct (filter _ nearby) as [|n [|]]; try done. by injection Hm as _ <-.
Qed.

(** ** Examples *)

Definition sample_identity (c : ascii) : Identity :=
  match NewIdentity (H := ascii_case) (λ _, replicate 32 c) (replicate 64 c) with Ok i => i | Err _ => MkIdentity "" [] [] end.
Definition sample_local (c : ascii) (role : string) : LocalDevice :=
  MkLocalDevice (sample_identity c) "desk" role (str_of (replicate 26 "a"%char)).
Definition empty_hub : Hub := MkHub ∅ empty_peers [] [] [] [].

Lemma trust_needs_both_witness :
  ∃ r w2, serve_all (H := ascii_case) (λ _, replicate 32 "a"%char) id (λ _, "e") (sample_local "a" RoleWorker) (5 * minute)
      [CallList (Ok tt); CallListTrusted] (accessed (quiet empty_hub (λ _, 5%Z)) empty_hub) = (r, w2) ∧
    waiting_count (hb_pairings (w_db w2)) ≤ maximumPendingPairings.
Proof.
  destruct (serve_all (H := ascii_case) (λ _, replicate 32 "a"%char) id (λ _, "e") (sample_local "a" RoleWorker) (5 * minute)
      [CallList (Ok tt); CallListTrusted] (accessed (quiet empty_hub (λ _, 5%Z)) empty_hub)) as [r w2] eqn:Hrun.
  exists r, w2. split; [reflexivity|].
  refine (proj2 (proj2 (trust_needs_both ascii_case (λ _, replicate 32 "a"%char) id (λ _, "e") (sample_local "a" RoleWorker) 0 (5 * minute)
    (quiet empty_hub (λ _, 5%Z)) (accessed (quiet empty_hub (λ _, 5%Z)) empty_hub) w2 _ r (λ c, eq_refl) (rtc_refl _ _) eq_refl _ _ Hrun))).
  - vm_compute. reflexivity.
  - intros n h Hh. split; [exact Hh|]. simpl. intros x Hx. exact Hx.
Defined.

(** A ceremony that both sides confirmed, whose peer rejects it after all while the
    transaction that activates it is under way. *)
Definition sample_pair_id : string := str_of (replicate 26 "a"%char).
Definition sample_ceremony : Pending :=
  MkPending (MkPairing sample_pair_id sample_device sample_key "laptop" RoleWorker "0000-0000-0000-0000" DirectionOutbound
      PairingWaiting true true 5 100 "") (replicate 32 "s"%char) (MkChannel 0 (MkSessionPeer "" [] "" "" "") []) false false false.
Definition late_rejection (n : nat) (h : Hub) : Hub :=
  if bool_decide (n = 1) then set_pairings (alter (settle PairingRejected "") sample_pair_id) h else h.

(** The pin becomes active although the ceremony ends as rejected. *)
Lemma rejected_yet_trusted :
  let w := MkWorld (MkHub {[ sample_pair_id := sample_ceremony ]} empty_peers [] [] [] []) (λ _, false) late_rejection 0 (λ _, 7%Z) 0 (λ _, 0) in
  let '(r, w') := maybeActivate (H := ascii_case) sample_sha (λ _, "e") sample_pair_id w in
  r = Ok tt ∧ (pg_State ∘ pe_value <$> hb_pairings (w_db w') !! sample_pair_id) = Some PairingRejected ∧
  (is_active <$> trusted_devices (hb_db (w_db w')) !! sample_device) = Some true.
Proof. vm_compute. auto. Qed.
