(* ===== verification/Ceremony.v ===== *)
(** * One pairing, seen from both devices

    Two pairing services joined by a channel: each runs the operations of [Pairing]
    and receives what the other sent.  No step fails and the ceremony does not expire;
    the result is that both databases pin the other device, under one pair identifier
    and with one connectivity secret. *)

From S2P Require Import Prelude GoText PortablePath JobModel Effects Sql Encoding Base32 Device Trust TrustStore Pairing.
From Stdlib Require Import Ascii.
Local Open Scope string_scope.
Local Open Scope nat_scope.
Local Open Scope list_scope.

(** ** Selecting a ceremony by its identifier *)

Lemma list_prefix_refl l : list_prefix l l = true.
Proof. induction l as [|c l IH]; [done|]. cbn. by rewrite bool_decide_true. Qed.

Lemma id_char_text c : id_char c = true → is_space (val c) = false ∧ (val c < 128)%Z.
Proof. revert c. all_bytes; vm_compute; by intros. Qed.

Section Selector.
Context `{UnicodeErrorLaw}.

Lemma pair_id_text id : PairID_Valid id = true → trim_space id = id ∧ to_upper id ≠ "".
Proof.
  unfold PairID_Valid, ParsePairID. destruct (canonical_base32 _ _ _) eqn:Ec; [|done]. intros _.
  apply (canonical_alphabet encodedPairIDLength 16) in Ec as [Hlen Hall]; [|apply exact_size_check; vm_compute; reflexivity].
  assert (is_ascii (bytes_of id)) as Ha by (eapply Forall_impl; [exact Hall|]; intros c Hc; by apply id_char_text).
  split.
  - apply trim_space_id; [done|]. eapply Forall_impl; [exact Hall|]. intros c Hc. by apply id_char_text.
  - rewrite <-(str_of_bytes_of id), to_upper_ascii by done. intros E. apply (f_equal String.length) in E.
    rewrite length_str_of, length_map, length_bytes_of, Hlen in E. done.
Qed.

(** In a map of one ceremony, its identifier selects it. *)
Lemma resolve_single unicode_fold id e : PairID_Valid id = true →
  resolvePairingLocked unicode_fold id {[ id := e ]} = Ok e.
Proof.
  intros Hid. destruct (pair_id_text id Hid) as [Ht Hne]. unfold resolvePairingLocked. rewrite Ht, bool_decide_false by done.
  rewrite map_to_list_singleton, filter_cons_True; [done|]. unfold pairing_matches, has_prefix. cbn [fst]. by rewrite list_prefix_refl.
Qed.

End Selector.

(** ** Runs of the service without failures *)

Section Runs.
Context {T : Z → Prop}.

Lemma ends_section {A} (f : Hub → A * Hub) h (Q : result A → Hub → Prop) :
  Q (Ok (f h).1) (f h).2 → ends_in T (section f) h Q.
Proof.
  intros HQ w [Hf Hi] Ht Hv. unfold section, next_db. rewrite Hi, Hv. destruct (f h) as [a h'].
  eexists _, _. split; [reflexivity|]. done.
Qed.

Lemma ends_update f h (Q : result unit → Hub → Prop) : Q (Ok tt) (f h) → ends_in T (update f) h Q.
Proof. intros HQ. by apply ends_section. Qed.

Lemma ends_repository {A} (t : Tx PeerDB A) h (Q : result A → Hub → Prop) :
  match t (hb_db h) with Ok (a, d) => Q (Ok a) (set_db d h) | Err e => Q (Err e) h end → ends_in T (repository t) h Q.
Proof. intros HQ. apply ends_atomically. unfold on_db. by destruct (t (hb_db h)) as [[a d]|e]. Qed.

End Runs.

Lemma set_db_same h : set_db (hb_db h) h = h.
Proof. by destruct h. Qed.

(** The hub [h] with one ceremony [e], messages sent and confirmations added. *)
Definition single (h : Hub) (id : string) (e : Pending) : Hub := set_pairings (λ _, {[ id := e ]}) h.

Section Device.
Context `{UnicodeErrorLaw} (sha256 : bytes → bytes) (Hsha : ∀ c, length (sha256 c) = 32).
Context (unicode_fold : Z → Z) (error_text : list sentinel → string) (local : LocalDevice) (lifetime t0 : Z).
Context (Hlife : (0 < lifetime)%Z) (Ht0 : (0 < t0)%Z) (Hmax : (t0 + lifetime < 2 ^ 63)%Z).

(** The clock while the ceremony lasts. *)
Definition during (t : Z) : Prop := (t0 ≤ t < t0 + lifetime)%Z.

Lemma prune_single t h id e :
  (t0 ≤ pg_StartedAt (pe_value e))%Z → pg_ExpiresAt (pe_value e) = (pg_StartedAt (pe_value e) + lifetime)%Z → during t →
  hb_pairings h = {[ id := e ]} → pruneLocked lifetime t h = h.
Proof.
  intros Hs He [Hlo Hhi] Hp. unfold pruneLocked, expired_channels. rewrite Hp, map_to_list_singleton. cbn [omap list_omap fst snd].
  unfold after. rewrite He, (proj2 (Z.ltb_lt _ _)) by lia. rewrite andb_false_r.
  destruct h as [m d sent closed monitors confirmed]. cbn in Hp. subst m. unfold set_pairings, add_closed. cbn [hb_pairings hb_db hb_sent hb_closed hb_monitors hb_confirmed].
  rewrite app_nil_r. f_equal. apply map_eq. intros i. rewrite lookup_omap. destruct (decide (i = id)) as [->|Hne].
  - rewrite lookup_singleton_eq. cbn. unfold prune_entry, after. rewrite He, (proj2 (Z.ltb_lt _ _)) by lia.
    rewrite andb_false_r. rewrite (proj2 (Z.ltb_ge _ _)) by lia. by rewrite andb_false_r.
  - by rewrite lookup_singleton_ne.
Qed.

Lemma prune_empty t h : hb_pairings h = ∅ → pruneLocked lifetime t h = h.
Proof.
  intros Hp. unfold pruneLocked, expired_channels. rewrite Hp, map_to_list_empty. destruct h. cbn in *. subst.
  unfold set_pairings, add_closed. cbn. by rewrite app_nil_r, omap_empty.
Qed.

Context (ch : Channel) (direction : Direction) (id code : string) (secret : bytes).
Abbreviation peer := (ch_Peer ch).
Definition ordered : string * string :=
  match direction with DirectionOutbound => (local_id local, sp_ID peer) | DirectionInbound => (sp_ID peer, local_id local) end.
Context (Hpeer : SessionPeer_Validate sha256 peer = Ok tt) (Hrole : role_mismatch local direction peer = false).
Context (Hder : DerivePairing sha256 (ch_Binding ch) ordered.1 ordered.2 = Ok (id, code)).
Context (Hsec : DeriveConnectivitySecret sha256 (ch_Binding ch) ordered.1 ordered.2 = Ok secret).

(** The database has room for the peer: neither device knows the other, the pair
    identifier is new, and a worker has no orchestrator. *)
Record room (d : PeerDB) : Prop := {
  rm_reach : rtc (trust_step sha256) empty_peers d;
  rm_peer : ∀ row, trusted_devices d !! sp_ID peer = Some row → is_active row = false;
  rm_pair : ∀ k row, trusted_devices d !! k = Some row → td_pair_id row ≠ id;
  rm_role : local_Role local = RoleWorker → ∀ k row, trusted_devices d !! k = Some row → active_orchestrator row = false
}.

Lemma room_ok d : room d → peers_ok sha256 d.
Proof. intros [Hr _ _ _]. by eapply peers_ok_reachable. Qed.

Definition value_at (t : Z) : Pairing := new_pairing lifetime id code peer direction t.
Definition entry_at (t : Z) : Pending := MkPending (value_at t) secret ch false false false.

Lemma peer_fields : pins_key sha256 (sp_PublicKey peer) (sp_ID peer) = true ∧ failed (ValidateName (sp_Name peer)) = false ∧
  known_role (sp_Role peer) = true.
Proof. unfold SessionPeer_Validate in Hpeer. apply reject_if_ok in Hpeer. by reflect_bools. Qed.

Lemma id_valid : PairID_Valid id = true ∧ validVerificationCode code = true.
Proof. by eapply derive_valid. Qed.

Lemma value_valid t : during t → Pairing_Validate sha256 (value_at t) = Ok tt.
Proof.
  intros [Hlo Hhi]. destruct peer_fields as (Hk & Hn & Hr), id_valid as [Hi Hc]. unfold Pairing_Validate.
  cbn [value_at new_pairing pg_PeerPublicKey pg_PeerID pg_ID pg_PeerName pg_PeerRole pg_StartedAt pg_ExpiresAt pg_Verification pg_State pg_Failure].
  rewrite Hk, Hi, Hn, Hr, Hc. unfold is_zero_time, zero_time, after. rewrite (proj2 (Z.eqb_neq _ _)), (proj2 (Z.ltb_lt _ _)) by lia. done.
Qed.

Lemma check_unpaired_run h : room (hb_db h) →
  ends_in during (check_unpaired sha256 peer) h (λ r h', r = Ok tt ∧ h' = h).
Proof.
  intros Hroom. pose proof (room_ok _ Hroom) as Hd. destruct Hroom as [_ Hfree _ _]. unfold check_unpaired.
  apply ends_bind, ends_try, ends_repository. destruct peer_fields as (Hk & _).
  unfold Trust_Get, mbind, Tx_bind, tx_lift. rewrite (pins_valid sha256 Hsha _ _ Hk). cbn [negb reject_if]. unfold on_no_rows.
  destruct (trusted_devices (hb_db h) !! sp_ID peer) as [row|] eqn:Erow.
  - rewrite (proj2 (query_ok sha256 (sp_ID peer) (hb_db h) (peer_of (sp_ID peer) row) (hb_db h) Hd)) by eauto.
    rewrite set_db_same. unfold active_peer. cbn [peer_of PeerState].
    destruct (row_state sha256 _ _ (po_rows _ _ Hd _ _ Erow)) as [[Ha _]|(_ & _ & ->)]; [by rewrite (Hfree row eq_refl) in Ha|].
    by apply ends_lift.
  - unfold queryTrustedPeer, mbind, Tx_bind, tx_read, tx_lift. rewrite Erow. by apply ends_lift.
Qed.

Lemma check_no_orchestrator_run h : room (hb_db h) →
  ends_in during (check_no_orchestrator sha256 local) h (λ r h', r = Ok tt ∧ h' = h).
Proof.
  intros Hroom. pose proof (room_ok _ Hroom) as Hd. destruct Hroom as [_ _ _ Horch]. unfold check_no_orchestrator.
  case_bool_decide as Hw; [|by apply ends_ret]. apply ends_bind, ends_repository. rewrite list_run, set_db_same by done.
  apply ends_lift. destruct (existsb _ _) eqn:Ee; [|done]. apply existsb_exists in Ee as (p & Hin%list_elem_of_In & Hp).
  apply listed_peers in Hin as (k & row & Hrow & ->). reflect_bools. unfold active_peer, peer_of_role in *. reflect_bools.
  cbn [peer_of PeerState PeerRoleOf] in *. specialize (Horch Hw k row Hrow). unfold active_orchestrator in Horch.
  destruct (row_state sha256 _ _ (po_rows _ _ Hd _ _ Hrow)) as [[Ha _]|(_ & _ & Hst)]; [|congruence].
  unfold is_active in Ha. reflect_bools. exfalso. apply Horch. by split.
Qed.

Lemma register_run h : room (hb_db h) → hb_pairings h = ∅ →
  ends_in during (register sha256 local lifetime ch direction) h
    (λ r h', ∃ t, during t ∧ r = Ok (value_at t) ∧ h' = single h id (entry_at t)).
Proof.
  intros Hroom Hempty. unfold register.
  apply ends_bind, ends_lift. rewrite Hpeer. apply ends_bind, ends_lift. rewrite Hrole. cbn [reject_if].
  apply ends_bind. eapply ends_mono; [by apply check_unpaired_run|]. intros r h' [-> ->].
  apply ends_bind. eapply ends_mono; [by apply check_no_orchestrator_run|]. intros r h' [-> ->].
  fold ordered. rewrite (surjective_pairing ordered).
  apply ends_bind, ends_lift. rewrite Hder. apply ends_bind, ends_lift. rewrite Hsec.
  apply ends_bind, ends_now. intros t Ht. cbn [fst snd]. fold (value_at t). apply ends_bind, ends_lift.
  rewrite (value_valid t Ht). apply ends_bind, ends_now. intros t' Ht'. apply ends_bind, ends_section.
  unfold admit_pairing. rewrite prune_empty by done. unfold waiting_count. rewrite Hempty, map_filter_empty, map_size_empty.
  cbn [Nat.leb maximumPendingPairings pe_value value_at new_pairing pg_ID]. rewrite lookup_empty, bool_decide_false by (by intros [? ?]).
  apply ends_lift. exists t. split_and!; [done|done|]. unfold single, set_pairings. cbn [fst snd]. rewrite Hempty. done.
Qed.

(** *** Activation *)

(** The ceremony with the flags of its progress. *)
Definition stage (t : Z) (l r : bool) (st : PairingState) (lc rc : bool) : Pending :=
  MkPending (MkPairing id (sp_ID peer) (sp_PublicKey peer) (sp_Name peer) (sp_Role peer) code direction st l r t (t + lifetime) "")
    secret ch false lc rc.

(** The database pins the peer with the pair identifier and secret of the ceremony. *)
Definition pinned (d : PeerDB) : Prop :=
  ∃ q, Trust_Get sha256 (sp_ID peer) d = Ok (q, d) ∧ PairID q = id ∧ PublicKey q = sp_PublicKey peer ∧
    ConnectivitySecret q = secret ∧ PeerRoleOf q = sp_Role peer ∧ PeerNameOf q = sp_Name peer ∧ PeerState q = TrustActive.

Lemma secret_length : length secret = 32.
Proof. unfold DeriveConnectivitySecret in Hsec. apply result_bind_ok in Hsec as (context & _ & [= <-]). apply Hsha. Qed.

Lemma trusted_valid t0' l r st lc rc t : during t → Peer_Validate sha256 (trusted_peer (stage t0' l r st lc rc) t) = Ok tt.
Proof.
  intros [Hlo Hhi]. destruct peer_fields as (Hk & Hn & Hr), id_valid as [Hi _]. apply peer_validate_iff. cbn. split_and!.
  - constructor; try done. right. unfold Secret_Valid. by rewrite secret_length.
  - constructor; done || lia.
  - unfold times_ok, is_zero_time, zero_time. rewrite (proj2 (Z.eqb_neq _ _)) by lia. split_and!; done || lia.
Qed.

Lemma room_activates d t0' l r st lc rc t : room d → during t →
  ∃ d', Activate sha256 (trusted_peer (stage t0' l r st lc rc) t) d = Ok (tt, d') ∧ pinned d'.
Proof.
  intros Hroom Ht. pose proof (room_ok _ Hroom) as Hd. destruct Hroom as [_ Hfree Hpair Horch].
  assert (int64_range t) as Hrange by (destruct Ht; unfold int64_range; lia).
  destruct (activate_pins sha256 Hsha (trusted_peer (stage t0' l r st lc rc) t) d) as (d' & q & Hrun & Hget & Hq); try done.
  - by apply trusted_valid.
  - intros (k & row & Hne & Hrow & [Hp|[Hr Ho]]); [by eapply Hpair|]. cbn in Hr. 
    assert (local_Role local = RoleWorker) as Hw by (unfold role_mismatch in Hrole; destruct direction; reflect_bools; congruence).
    by rewrite (Horch Hw k row Hrow) in Ho.
  - exists d'. split; [done|]. exists q. destruct Hq as (H1 & H2 & H3 & H4 & H5 & H6 & H7 & _). cbn in *. split_and!; done.
Qed.

(** [maybeActivate] on a ceremony both sides confirmed. *)
Lemma activate_run h t rc : hb_pairings h = {[ id := stage t true true PairingWaiting false rc ]} → room (hb_db h) →
  ends_in during (maybeActivate sha256 error_text id) h (λ r h', r = Ok tt ∧ pinned (hb_db h') ∧
    hb_pairings h' = {[ id := stage t true true PairingPaired true rc ]} ∧
    hb_sent h' = hb_sent h ++ [(ch_number ch, MkDecision id true true)]).
Proof.
  intros Hp Hroom. unfold maybeActivate. apply ends_bind, ends_section. unfold take_activation. rewrite Hp, lookup_singleton_eq.
  assert (ready (stage t true true PairingWaiting false rc) = true) as -> by done. cbn [fst snd].
  apply ends_bind, ends_now. intros pairedAt Hat. apply ends_bind, ends_try, ends_repository. cbn [set_pairings hb_db].
  destruct (room_activates (hb_db h) t true true PairingWaiting false rc pairedAt Hroom Hat) as (d' & Hrun & Hpin). rewrite Hrun.
  apply ends_bind, ends_update. apply ends_bind, ends_try, ends_atomically. apply ends_bind, ends_section.
  assert (alter (finish_activation error_text (Ok tt)) id (<[id := set_activating true (stage t true true PairingWaiting false rc)]> (hb_pairings h))
    = {[ id := stage t true true PairingPaired true rc ]}) as Hm by (by rewrite Hp, insert_singleton_eq, alter_singleton_eq).
  cbn [fst snd add_sent set_pairings set_db hb_pairings]. rewrite Hm, lookup_singleton_eq.
  cbn [both_committed stage pe_localCommitted pe_remoteCommitted andb]. destruct rc; [apply ends_update|apply ends_ret]; by split_and!.
Qed.

(** *** The operations of a device *)

Lemma decision_run h t r rc : hb_pairings h = {[ id := stage t false r PairingWaiting false rc ]} → during t →
  ends_in during (updateLocalDecision unicode_fold lifetime id true) h (λ x h',
    x = Ok (stage t true r PairingWaiting false rc) ∧ hb_pairings h' = {[ id := stage t true r PairingWaiting false rc ]} ∧
    hb_db h' = hb_db h ∧ hb_sent h' = hb_sent h).
Proof.
  intros Hp [Hlo Hhi]. unfold updateLocalDecision. apply ends_bind, ends_now. intros t' Ht'. apply ends_bind, ends_section.
  unfold decide_locally. rewrite (prune_single t' h id (stage t false r PairingWaiting false rc) Hlo eq_refl Ht' Hp), Hp, resolve_single by apply id_valid.
  assert (waiting (stage t false r PairingWaiting false rc) = true) as -> by done. cbn [negb orb stage pe_activating fst snd].
  apply ends_lift. split_and!; try done. cbn. by rewrite Hp, insert_singleton_eq.
Qed.

(** [maybeActivate] does nothing before both sides confirmed, and after activation. *)
Lemma idle_run h e : hb_pairings h = {[ id := e ]} → ready e = false →
  ends_in during (maybeActivate sha256 error_text id) h (λ r h', r = Ok tt ∧ h' = h).
Proof.
  intros Hp He. unfold maybeActivate. apply ends_bind, ends_section. unfold take_activation. rewrite Hp, lookup_singleton_eq, He.
  by apply ends_ret.
Qed.

Lemma get_run h e : hb_pairings h = {[ id := e ]} → ends_in during (getPairing id) h (λ r h', r = Ok (pe_value e) ∧ h' = h).
Proof. intros Hp. unfold getPairing. apply ends_bind, ends_section. rewrite Hp, lookup_singleton_eq. by apply ends_ret. Qed.

(** The first device to confirm waits for the other. *)
Lemma confirm_first h t : hb_pairings h = {[ id := stage t false false PairingWaiting false false ]} → during t →
  ends_in during (Confirm sha256 unicode_fold error_text lifetime id) h (λ r h', (∃ v, r = Ok v) ∧ hb_db h' = hb_db h ∧
    hb_pairings h' = {[ id := stage t true false PairingWaiting false false ]} ∧
    hb_sent h' = hb_sent h ++ [(ch_number ch, MkDecision id true false)]).
Proof.
  intros Hp Ht. unfold Confirm. apply ends_bind. eapply ends_mono; [by apply (decision_run h t)|]. intros x h1 (-> & Hp1 & Hd1 & Hs1).
  apply ends_bind, ends_try, ends_atomically. apply ends_bind.
  eapply ends_mono; [by apply (idle_run _ (stage t true false PairingWaiting false false))|]. intros x h2 [-> ->].
  eapply ends_mono; [by apply (get_run _ (stage t true false PairingWaiting false false))|]. intros x h2 [-> ->].
  split_and!; [by eexists|done|done|]. cbn. by rewrite Hs1.
Qed.

(** The second one activates its pin. *)
Lemma confirm_second h t : hb_pairings h = {[ id := stage t false true PairingWaiting false false ]} → during t → room (hb_db h) →
  ends_in during (Confirm sha256 unicode_fold error_text lifetime id) h (λ r h', (∃ v, r = Ok v ∧ pg_State v = PairingPaired) ∧
    pinned (hb_db h') ∧ hb_pairings h' = {[ id := stage t true true PairingPaired true false ]} ∧
    hb_sent h' = hb_sent h ++ [(ch_number ch, MkDecision id true false); (ch_number ch, MkDecision id true true)]).
Proof.
  intros Hp Ht Hroom. unfold Confirm. apply ends_bind. eapply ends_mono; [by apply (decision_run h t)|]. intros x h1 (-> & Hp1 & Hd1 & Hs1).
  apply ends_bind, ends_try, ends_atomically. apply ends_bind.
  eapply ends_mono; [apply (activate_run _ t false); [done|cbn; by rewrite Hd1]|]. intros x h2 (-> & Hpin & Hp2 & Hs2).
  eapply ends_mono; [by apply (get_run _ (stage t true true PairingPaired true false))|]. intros x h3 [-> ->].
  split_and!; [by eexists|done|done|]. rewrite Hs2. cbn. by rewrite Hs1, <-app_assoc.
Qed.

(** *** What a monitor does with the decisions of the peer *)

Lemma remote_step h e c : hb_pairings h = {[ id := e ]} →
  let h1 := set_pairings (alter (remote_confirms c) id) (note_remote id h) in
  hb_pairings h1 = {[ id := remote_confirms c e ]} ∧ hb_db h1 = hb_db h ∧ hb_sent h1 = hb_sent h.
Proof.
  intros Hp. unfold note_remote. rewrite Hp, lookup_singleton_eq. destruct (waiting e); cbn; by rewrite Hp, alter_singleton_eq.
Qed.

Lemma monitor_confirm_first h t rest Q : hb_pairings h = {[ id := stage t false false PairingWaiting false false ]} →
  (∀ h', hb_db h' = hb_db h → hb_sent h' = hb_sent h → hb_pairings h' = {[ id := stage t false true PairingWaiting false false ]} →
     ends_in during (monitor sha256 error_text ch id rest) h' Q) →
  ends_in during (monitor sha256 error_text ch id (Decision (MkDecision id true false) :: rest)) h Q.
Proof.
  intros Hp Hrest. cbn [monitor pd_PairingID pd_Confirmed pd_Committed]. rewrite bool_decide_true by done. cbn [negb].
  apply ends_bind, ends_update. set (h1 := set_pairings _ _).
  assert (hb_pairings h1 = {[ id := stage t false true PairingWaiting false false ]} ∧ hb_db h1 = hb_db h ∧ hb_sent h1 = hb_sent h) as (Hp1 & Hd1 & Hs1)
    by exact (remote_step h _ false Hp).
  apply ends_bind. eapply ends_mono; [by apply (idle_run h1 (stage t false true PairingWaiting false false))|]. intros x h2 [-> ->].
  apply ends_bind, ends_section. cbn [fst snd]. rewrite Hp1, lookup_singleton_eq. by apply Hrest.
Qed.

Lemma monitor_confirm_second h t rest Q : hb_pairings h = {[ id := stage t true false PairingWaiting false false ]} → room (hb_db h) →
  (∀ h', pinned (hb_db h') → hb_sent h' = hb_sent h ++ [(ch_number ch, MkDecision id true true)] →
     hb_pairings h' = {[ id := stage t true true PairingPaired true false ]} →
     ends_in during (monitor sha256 error_text ch id rest) h' Q) →
  ends_in during (monitor sha256 error_text ch id (Decision (MkDecision id true false) :: rest)) h Q.
Proof.
  intros Hp Hroom Hrest. cbn [monitor pd_PairingID pd_Confirmed pd_Committed]. rewrite bool_decide_true by done. cbn [negb].
  apply ends_bind, ends_update. set (h1 := set_pairings _ _).
  assert (hb_pairings h1 = {[ id := stage t true true PairingWaiting false false ]} ∧ hb_db h1 = hb_db h ∧ hb_sent h1 = hb_sent h) as (Hp1 & Hd1 & Hs1)
    by exact (remote_step h _ false Hp).
  apply ends_bind. eapply ends_mono; [apply (activate_run h1 t false); [done|by rewrite Hd1]|]. intros x h2 (-> & Hpin & Hp2 & Hs2).
  apply ends_bind, ends_section. cbn [fst snd]. rewrite Hp2, lookup_singleton_eq. apply Hrest; [done|by rewrite Hs2, Hs1|done].
Qed.

Lemma monitor_committed h t rest : hb_pairings h = {[ id := stage t true true PairingPaired true false ]} →
  ends_in during (monitor sha256 error_text ch id (Decision (MkDecision id true true) :: rest)) h (λ r h', r = Ok tt ∧
    hb_db h' = hb_db h ∧ hb_sent h' = hb_sent h ∧ hb_pairings h' = {[ id := stage t true true PairingPaired true true ]} ∧
    ch_number ch ∈ hb_closed h').
Proof.
  intros Hp. cbn [monitor pd_PairingID pd_Confirmed pd_Committed]. rewrite bool_decide_true by done. cbn [negb].
  apply ends_bind, ends_update. set (h1 := set_pairings _ _).
  assert (hb_pairings h1 = {[ id := stage t true true PairingPaired true true ]} ∧ hb_db h1 = hb_db h ∧ hb_sent h1 = hb_sent h) as (Hp1 & Hd1 & Hs1)
    by exact (remote_step h _ true Hp).
  apply ends_bind. eapply ends_mono; [by apply (idle_run h1 (stage t true true PairingPaired true true))|]. intros x h2 [-> ->].
  apply ends_bind, ends_section. cbn [fst snd]. rewrite Hp1, lookup_singleton_eq. apply ends_update. split_and!; try done.
  cbn. set_solver.
Qed.

(** *** The two courses of a ceremony *)

Definition first_decision : Received := Decision (MkDecision id true false).
Definition commitment : Received := Decision (MkDecision id true true).

(** This user confirms first; then the peer's confirmation and commitment arrive. *)
Definition confirms_first : M Hub unit :=
  value ← register sha256 local lifetime ch direction;
  _ ← Confirm sha256 unicode_fold error_text lifetime (pg_ID value);
  monitor sha256 error_text ch (pg_ID value) [first_decision; commitment].

(** The peer's confirmation arrives first; then this user confirms, and the peer commits. *)
Definition confirms_second : M Hub unit :=
  value ← register sha256 local lifetime ch direction;
  _ ← monitor sha256 error_text ch (pg_ID value) [first_decision];
  _ ← Confirm sha256 unicode_fold error_text lifetime (pg_ID value);
  monitor sha256 error_text ch (pg_ID value) [commitment].

(** Either way the device pins its peer and sends what the other course receives. *)
Definition completes (h : Hub) (r : result unit) (h' : Hub) : Prop :=
  r = Ok tt ∧ pinned (hb_db h') ∧
  hb_sent h' = hb_sent h ++ [(ch_number ch, MkDecision id true false); (ch_number ch, MkDecision id true true)] ∧
  (∃ t, hb_pairings h' = {[ id := stage t true true PairingPaired true true ]}) ∧ ch_number ch ∈ hb_closed h'.

Lemma first_completes h : room (hb_db h) → hb_pairings h = ∅ → ends_in during confirms_first h (completes h).
Proof.
  intros Hroom Hempty. unfold confirms_first. apply ends_bind. eapply ends_mono; [by apply register_run|].
  intros x h1 (t & Ht & -> & ->). cbn [value_at new_pairing pg_ID].
  apply ends_bind. eapply ends_mono; [by apply (confirm_first _ t)|]. intros x h2 ([v ->] & Hd2 & Hp2 & Hs2).
  apply (monitor_confirm_second h2 t); [done|by rewrite Hd2|]. intros h3 Hpin Hs3 Hp3.
  eapply ends_mono; [by apply (monitor_committed h3 t)|]. intros x h4 (-> & Hd4 & Hs4 & Hp4 & Hcl).
  split_and!; [done|by rewrite Hd4| |by exists t|done]. rewrite Hs4, Hs3, Hs2. cbn. by rewrite <-app_assoc.
Qed.

Lemma second_completes h : room (hb_db h) → hb_pairings h = ∅ → ends_in during confirms_second h (completes h).
Proof.
  intros Hroom Hempty. unfold confirms_second. apply ends_bind. eapply ends_mono; [by apply register_run|].
  intros x h1 (t & Ht & -> & ->). cbn [value_at new_pairing pg_ID].
  apply ends_bind. apply (monitor_confirm_first _ t); [done|]. intros h2 Hd2 Hs2 Hp2. apply (ends_ret tt).
  apply ends_bind. eapply ends_mono; [apply (confirm_second h2 t); [done|done|by rewrite Hd2]|].
  intros x h3 ((v & -> & _) & Hpin & Hp3 & Hs3).
  eapply ends_mono; [by apply (monitor_committed h3 t)|]. intros x h4 (-> & Hd4 & Hs4 & Hp4 & Hcl).
  split_and!; [done|by rewrite Hd4| |by exists t|done]. by rewrite Hs4, Hs3, Hs2.
Qed.

End Device.

(** ** Two devices *)

(** What the peer sees of a device in the session. *)
Definition session_view (d : LocalDevice) : SessionPeer :=
  MkSessionPeer (identity_id (local_Identity d)) (identity_publicKey (local_Identity d)) (local_Name d) (local_Role d) (local_PresenceID d).

Lemma view_valid `{UnicodeCase} (sha256 : bytes → bytes) d :
  LocalDevice_Validate sha256 d = Ok tt → SessionPeer_Validate sha256 (session_view d) = Ok tt.
Proof.
  unfold LocalDevice_Validate, SessionPeer_Validate. intros Hv%reject_if_ok. apply reject_if_ok. cbn [session_view sp_PublicKey sp_ID sp_Name sp_Role sp_PresenceID].
  apply orb_false_iff in Hv as [Hv Hp]. apply orb_false_iff in Hv as [Hv Hr]. apply orb_false_iff in Hv as [Hi Hn]. rewrite Hn, Hr, Hp, !orb_false_r.
  destruct (Identity_Validate sha256 (local_Identity d)) as [u|] eqn:Ei; [|done]. clear Hi. unfold Identity_Validate in Ei.
  apply result_bind_ok in Ei as (rebuilt & Hnew & Hc%reject_if_ok). reflect_bools.
  unfold NewIdentity in Hnew. apply result_bind_ok in Hnew as (u1 & _ & Hnew). apply result_bind_ok in Hnew as (u2 & _ & Hnew).
  apply result_bind_ok in Hnew as (derived & Hid & [= <-]). cbn in *. unfold pins_key. rewrite H1, Hid, <-H0, bool_decide_true by done. done.
Qed.

(** C9 A ceremony that both users confirm makes both devices trust each other.  Let a
    valid orchestrator and a valid worker share a session, each with room for the other in
    its database.  Both derive the same pair identifier and code; whichever user confirms
    first, each device, receiving what the other sends, ends with the other's key pinned
    under that identifier, with one and the same connectivity secret, its ceremony paired
    and its channel closed; and each sends its confirmation and then its commitment, which
    is what the other receives. *)
Theorem pairing_completes (U : UnicodeCase) (E : UnicodeErrorLaw) (sha256 : bytes → bytes) (unicode_fold : Z → Z)
    (error_text : list sentinel → string) (a b : LocalDevice) (binding : bytes) (na nb : nat) (lifetime t0 : Z) :
  (∀ c, length (sha256 c) = 32) →
  LocalDevice_Validate sha256 a = Ok tt → LocalDevice_Validate sha256 b = Ok tt →
  local_Role a = RoleOrchestrator → local_Role b = RoleWorker → local_id a ≠ local_id b → length binding = PairingBindingBytes →
  (0 < lifetime)%Z → (0 < t0)%Z → (t0 + lifetime < 2 ^ 63)%Z →
  let cha := MkChannel na (session_view b) binding in let chb := MkChannel nb (session_view a) binding in
  ∃ id code secret, ∀ ha hb,
    room sha256 a cha id (hb_db ha) → room sha256 b chb id (hb_db hb) → hb_pairings ha = ∅ → hb_pairings hb = ∅ →
    let done_a := completes sha256 lifetime cha DirectionOutbound id code secret ha in
    let done_b := completes sha256 lifetime chb DirectionInbound id code secret hb in
    (ends_in (during lifetime t0) (confirms_first sha256 unicode_fold error_text a lifetime cha DirectionOutbound id) ha done_a ∧
     ends_in (during lifetime t0) (confirms_second sha256 unicode_fold error_text b lifetime chb DirectionInbound id) hb done_b) ∧
    (ends_in (during lifetime t0) (confirms_second sha256 unicode_fold error_text a lifetime cha DirectionOutbound id) ha done_a ∧
     ends_in (during lifetime t0) (confirms_first sha256 unicode_fold error_text b lifetime chb DirectionInbound id) hb done_b).
Proof.
  intros Hsha Hva Hvb Hra Hrb Hne Hbind Hlife Ht0 Hmax cha chb.
  pose proof (view_valid sha256 a Hva) as Hsa. pose proof (view_valid sha256 b Hvb) as Hsb.
  assert (∀ d, SessionPeer_Validate sha256 (session_view d) = Ok tt → DeviceID_Valid (local_id d) = true) as Hids.
  { intros d Hd. unfold SessionPeer_Validate in Hd. apply reject_if_ok in Hd. reflect_bools. by eapply pins_valid. }
  assert (∃ context, pairingContext binding (local_id a) (local_id b) = Ok context) as (context & Hctx).
  { unfold pairingContext. rewrite Hbind, (Hids a Hsa), (Hids b Hsb), (bool_decide_false (local_id a = local_id b)) by done. by eexists. }
  destruct (DerivePairing sha256 binding (local_id a) (local_id b)) as [[id code]|] eqn:Hder; [|by unfold DerivePairing in Hder; rewrite Hctx in Hder].
  destruct (DeriveConnectivitySecret sha256 binding (local_id a) (local_id b)) as [secret|] eqn:Hsec;
    [|by unfold DeriveConnectivitySecret in Hsec; rewrite Hctx in Hsec].
  exists id, code, secret. intros ha hb Hrooma Hroomb Hea Heb done_a done_b.
  assert (role_mismatch a DirectionOutbound (session_view b) = false) as Hma by (unfold role_mismatch; cbn; by rewrite Hra, Hrb).
  assert (role_mismatch b DirectionInbound (session_view a) = false) as Hmb by (unfold role_mismatch; cbn; by rewrite Hra, Hrb).
  split; split; (apply first_completes || apply second_completes); done.
Qed.

(** ** An instance *)

Definition first_byte_hash (c : bytes) : bytes := replicate 32 (default "z"%char (head c)).
Definition hashed_identity (c : ascii) : Identity :=
  match NewIdentity (H := ascii_case) first_byte_hash (replicate 64 c) with Ok i => i | Err _ => MkIdentity "" [] [] end.
Definition hashed_local (c : ascii) (role : string) : LocalDevice :=
  MkLocalDevice (hashed_identity c) "desk" role (str_of (replicate 26 "a"%char)).

Lemma empty_room (local : LocalDevice) ch id : room (H := ascii_case) first_byte_hash local ch id empty_peers.
Proof. constructor; [apply rtc_refl|intros row E|intros k row E|intros _ k row E]; cbn in E; by rewrite lookup_empty in E. Qed.

Lemma pairing_completes_witness :
  ∃ id code secret,
    ends_in (during (5 * minute) 5)
      (confirms_first (H := ascii_case) first_byte_hash Datatypes.id (λ _, "e") (hashed_local "a" RoleOrchestrator) (5 * minute)
        (MkChannel 0 (session_view (hashed_local "b" RoleWorker)) (replicate 32 "x"%char)) DirectionOutbound id) empty_hub
      (completes (H := ascii_case) first_byte_hash (5 * minute)
        (MkChannel 0 (session_view (hashed_local "b" RoleWorker)) (replicate 32 "x"%char)) DirectionOutbound id code secret empty_hub).
Proof.
  destruct (pairing_completes ascii_case ascii_case_error first_byte_hash Datatypes.id (λ _, "e") (hashed_local "a" RoleOrchestrator)
    (hashed_local "b" RoleWorker) (replicate 32 "x"%char) 0 1 (5 * minute) 5) as (id & code & secret & Hrun).
  - intros c. apply length_replicate.
  - vm_compute. reflexivity.
  - vm_compute. reflexivity.
  - reflexivity.
  - reflexivity.
  - vm_compute. discriminate.
  - reflexivity.
  - reflexivity.
  - reflexivity.
  - reflexivity.
  - exists id, code, secret.
    exact (proj1 (proj1 (Hrun empty_hub empty_hub (empty_room _ _ _) (empty_room _ _ _) eq_refl eq_refl))).
Defined.
