(* ===== verification/Wire.v ===== *)
(** * The paired-worker wire format (internal/protocol/mapper)

    Conversions between the domain values and the messages of
    api/proto/computehop/v1/remote.proto: remote_job.go, chunk.go and snapshot.go.
    Enumerations are numbers, since a message may carry any; messages that may be
    absent are options.  [proto_size] is [proto.Size]. *)

From S2P Require Import Prelude GoText PortablePath JobModel Effects Sql JobStore LogStore Snapshot Transfer.
From Stdlib Require Import Ascii.
Local Open Scope string_scope.
Local Open Scope nat_scope.
Local Open Scope list_scope.

(** ** Messages *)

Record JobSpecMessage := MkJobSpecMessage {
  sm_executable : string;
  sm_arguments : list string;
  sm_working_directory : string;
  sm_environment : gmap string string;
  sm_executor : Z;
  sm_container_image : string;
  sm_outputs : list string;
  sm_required_tool_ids : list string
}.

Record ProgressMessage := MkProgressMessage {
  pm_phase : Z; pm_completed_bytes : Z; pm_total_bytes : Z; pm_updated_at_unix_nano : Z
}.

Record JobMessage := MkJobMessage {
  jm_id : string;
  jm_spec : option JobSpecMessage;
  jm_state : Z;
  jm_created_at_unix_nano : Z;
  jm_updated_at_unix_nano : Z;
  jm_failure : option Failure;
  jm_progress : option ProgressMessage
}.

Record LogRecordMessage := MkLogRecordMessage {
  lm_sequence : Z; lm_stream : Z; lm_data : bytes; lm_at_unix_nano : Z
}.

Record ChunkMessage := MkChunkMessage { cm_digest : string; cm_size : Z }.
Record FileMessage := MkFileMessage { fm_path : string; fm_mode : Z; fm_size : Z; fm_chunks : list (option ChunkMessage) }.
Record ManifestMessage := MkManifestMessage {
  mm_version : Z; mm_manifest_id : string; mm_files : list (option FileMessage); mm_total_bytes : Z
}.

(** ** Enumerations *)

(** The first element of [l] that [f] accepts. *)
Fixpoint list_find_val {A} (f : A → bool) (l : list A) : option A :=
  match l with [] => None | a :: rest => if f a then Some a else list_find_val f rest end.

(** A Go map literal and the map that inverts it. *)
Definition to_wire {A} `{EqDecision A} (table : list (A * Z)) (a : A) : option Z := snd <$> list_find_val (λ kv, bool_decide (kv.1 = a)) table.
Definition from_wire {A} (table : list (A * Z)) (z : Z) : option A := fst <$> list_find_val (λ kv, (kv.2 =? z)%Z) table.

Definition state_table : list (State * Z) :=
  [(StateCreated, 1); (StateValidating, 2); (StateQueued, 3); (StateSnapshotting, 4); (StateTransferring, 5); (StateStarting, 6);
   (StateRunning, 7); (StateCollecting, 8); (StateRestoring, 9); (StateSucceeded, 10); (StateFailed, 11); (StateCancelled, 12);
   (StateRejected, 13); (StateLost, 14)]%Z.
Definition stateToRemoteProtocol : State → option Z := to_wire state_table.
Definition remoteProtocolToState : Z → option State := from_wire state_table.

#[global] Instance ProgressPhase_eq_dec : EqDecision ProgressPhase.
Proof. solve_decision. Defined.
Definition phase_table : list (ProgressPhase * Z) :=
  [(ProgressSnapshot, 1); (ProgressUpload, 2); (ProgressDownload, 3); (ProgressRestore, 4); (ProgressCollect, 5); (ProgressPull, 6)]%Z.
Definition progressPhaseToRemoteProtocol : ProgressPhase → option Z := to_wire phase_table.
Definition remoteProtocolToProgressPhase : Z → option ProgressPhase := from_wire phase_table.

Definition executor_table : list (Executor * Z) := [(ExecutorNative, 1); (ExecutorContainer, 2)]%Z.
Definition executorToRemoteProto (executor : Executor) : result Z :=
  match to_wire executor_table executor with Some z => Ok z | None => Err [JobErrInvalidSpec] end.
Definition executorFromRemoteProto (z : Z) : result Executor :=
  match from_wire executor_table z with Some e => Ok e | None => Err [JobErrInvalidSpec] end.

Definition stream_table : list (Stream * Z) := [(StreamStdout, 1); (StreamStderr, 2)]%Z.

(** ** Jobs (remote_job.go) *)

Section Mapper.
Context `{UnicodeCase}.

Definition SpecToRemoteProto (spec : Spec) : result JobSpecMessage :=
  _ ← Spec_Validate spec;
  executor ← executorToRemoteProto (SpecExecutor spec);
  Ok (MkJobSpecMessage (Executable spec) (Arguments_ spec) (WorkingDirectory spec) (Environment spec) executor
    (ContainerImage spec) (Outputs spec) (RequiredToolIDs spec)).

Definition SpecFromRemoteProto (message : option JobSpecMessage) : result Spec :=
  match message with
  | None => Err [JobErrInvalidSpec]
  | Some m =>
      executor ← executorFromRemoteProto (sm_executor m);
      let spec := MkSpec (sm_executable m) (sm_arguments m) (sm_working_directory m) (sm_environment m) executor
        (sm_container_image m) (sm_outputs m) (sm_required_tool_ids m) in
      _ ← Spec_Validate spec;
      Ok spec
  end.

Definition ProgressToRemoteProto (progress : Progress) : result ProgressMessage :=
  _ ← Progress_Validate progress;
  match progressPhaseToRemoteProtocol (Phase progress) with
  | None => Err [JobErrInvalidProgress]
  | Some phase => Ok (MkProgressMessage phase (CompletedBytes progress) (JobModel.TotalBytes progress) (unix_nano (ProgressUpdatedAt progress)))
  end.

Definition ProgressFromRemoteProto (message : option ProgressMessage) : result Progress :=
  match message with
  | None => Err [JobErrInvalidProgress]
  | Some m =>
      match remoteProtocolToProgressPhase (pm_phase m) with
      | None => Err [JobErrInvalidProgress]
      | Some phase =>
          let progress := MkProgress phase (pm_completed_bytes m) (pm_total_bytes m) (from_unix_nano (pm_updated_at_unix_nano m)) in
          _ ← Progress_Validate progress;
          Ok progress
      end
  end.

(** A conversion of an optional part. *)
Definition optional {A B} (f : A → result B) (o : option A) : result (option B) :=
  match o with None => Ok None | Some a => b ← f a; Ok (Some b) end.

Definition JobToRemoteProto (value : Job) : result JobMessage :=
  _ ← Job_Validate value;
  spec ← SpecToRemoteProto (JobSpec value);
  match stateToRemoteProtocol (JobState value) with
  | None => Err [JobErrInvalidState]
  | Some state =>
      progress ← optional ProgressToRemoteProto (JobProgress value);
      Ok (MkJobMessage (ID value) (Some spec) state (unix_nano (CreatedAt value)) (unix_nano (UpdatedAt value)) (JobFailure value) progress)
  end.

Definition JobFromRemoteProto (message : option JobMessage) : result Job :=
  match message with
  | None => Err [JobErrInvalidJob]
  | Some m =>
      id ← ParseID (jm_id m);
      spec ← SpecFromRemoteProto (jm_spec m);
      match remoteProtocolToState (jm_state m) with
      | None => Err [JobErrInvalidState]
      | Some state =>
          progress ← optional (λ p, ProgressFromRemoteProto (Some p)) (jm_progress m);
          let value := MkJob id spec state (from_unix_nano (jm_created_at_unix_nano m)) (from_unix_nano (jm_updated_at_unix_nano m))
            (jm_failure m) progress in
          _ ← Job_Validate value;
          Ok value
      end
  end.

Fixpoint map_states {A B} (f : A → option B) (l : list A) : result (list B) :=
  match l with
  | [] => Ok []
  | a :: rest => match f a with None => Err [JobErrInvalidState] | Some b => bs ← map_states f rest; Ok (b :: bs) end
  end.
Definition StatesToRemoteProto : list State → result (list Z) := map_states stateToRemoteProtocol.
Definition StatesFromRemoteProto : list Z → result (list State) := map_states remoteProtocolToState.

Definition LogRecordToRemoteProto (record : LogRecord) : result LogRecordMessage :=
  match to_wire stream_table (RecordStream record) with
  | None => Err [LogErrInvalidRecord]
  | Some stream =>
      _ ← reject_if ((RecordSequence record =? 0)%Z || bool_decide (length (RecordData record) = 0)
            || (LogStore.MaximumChunkBytes <? Z.of_nat (length (RecordData record)))%Z || is_zero_time (RecordAt record)) [LogErrInvalidRecord];
      Ok (MkLogRecordMessage (RecordSequence record) stream (RecordData record) (unix_nano (RecordAt record)))
  end.
Fixpoint LogRecordsToRemoteProto (records : list LogRecord) : result (list LogRecordMessage) :=
  match records with
  | [] => Ok []
  | record :: rest => m ← LogRecordToRemoteProto record; ms ← LogRecordsToRemoteProto rest; Ok (m :: ms)
  end.

(** The loop of [LogRecordsFromRemoteProto]. *)
Fixpoint records_loop (messages : list (option LogRecordMessage)) (previous : Z) : result (list LogRecord) :=
  match messages with
  | [] => Ok []
  | None :: _ => Err [LogErrInvalidRecord]
  | Some m :: rest =>
      _ ← reject_if ((lm_sequence m =? 0)%Z || (lm_sequence m <=? previous)%Z || bool_decide (length (lm_data m) = 0)
            || (LogStore.MaximumChunkBytes <? Z.of_nat (length (lm_data m)))%Z || (lm_at_unix_nano m =? 0)%Z) [LogErrInvalidRecord];
      match from_wire stream_table (lm_stream m) with
      | None => Err [LogErrInvalidRecord]
      | Some stream =>
          records ← records_loop rest (lm_sequence m);
          Ok (MkLogRecord (lm_sequence m) stream (lm_data m) (from_unix_nano (lm_at_unix_nano m)) :: records)
      end
  end.
Definition LogRecordsFromRemoteProto (messages : list (option LogRecordMessage)) : result (list LogRecord) := records_loop messages 0.

(** ** Encodings (chunk.go) *)

Definition encoding_table : list (Z * Z) := [(EncodingIdentity, 1%Z); (EncodingZstd, 2%Z)].
Definition ChunkEncodingToRemoteProto (encoding : Z) : result Z :=
  match to_wire encoding_table encoding with Some z => Ok z | None => Err [TransferErrUnsupportedEncoding] end.
Definition ChunkEncodingFromRemoteProto (encoding : Z) : result Z :=
  match from_wire encoding_table encoding with Some z => Ok z | None => Err [TransferErrUnsupportedEncoding] end.

Fixpoint encodings_loop (convert : Z → result Z) (encodings seen : list Z) : result (list Z) :=
  match encodings with
  | [] => Ok []
  | encoding :: rest =>
      converted ← convert encoding;
      _ ← reject_if (bool_decide (converted ∈ seen)) [TransferErrUnsupportedEncoding];
      others ← encodings_loop convert rest (converted :: seen);
      Ok (converted :: others)
  end.
Definition mapChunkEncodings (convert : Z → result Z) (encodings : list Z) : result (list Z) :=
  _ ← reject_if (bool_decide (length encodings = 0) || bool_decide (2 < length encodings)) [TransferErrUnsupportedEncoding];
  encodings_loop convert encodings [].
Definition ChunkEncodingsToRemoteProto : list Z → result (list Z) := mapChunkEncodings ChunkEncodingToRemoteProto.
Definition ChunkEncodingsFromRemoteProto : list Z → result (list Z) := mapChunkEncodings ChunkEncodingFromRemoteProto.

(** ** Manifests (snapshot.go) *)

Context (sha256 : bytes → bytes) (proto_size : ManifestMessage → Z).

Definition MaximumWireManifestBytes : Z := 900 * 1024.

Definition file_message (file : File) : FileMessage :=
  MkFileMessage (Path file) (Mode file) (FileSize file) (map (λ c, Some (MkChunkMessage (Digest c) (Size c))) (Chunks file)).

Definition ManifestToRemoteProto (manifest : Manifest) : result ManifestMessage :=
  id ← Manifest_ID sha256 manifest;
  let message := MkManifestMessage (Version manifest) id (map (λ f, Some (file_message f)) (Files manifest)) (Snapshot.TotalBytes manifest) in
  _ ← reject_if (MaximumWireManifestBytes <? proto_size message)%Z [SnapshotErrInvalidManifest];
  Ok message.

Fixpoint chunks_from (messages : list (option ChunkMessage)) : result (list Chunk) :=
  match messages with
  | [] => Ok []
  | None :: _ => Err [SnapshotErrInvalidManifest]
  | Some m :: rest =>
      digest ← ParseDigest (cm_digest m);
      chunks ← chunks_from rest;
      Ok (MkChunk digest (cm_size m) :: chunks)
  end.
Fixpoint files_from (messages : list (option FileMessage)) : result (list File) :=
  match messages with
  | [] => Ok []
  | None :: _ => Err [SnapshotErrInvalidManifest]
  | Some m :: rest =>
      chunks ← chunks_from (fm_chunks m);
      files ← files_from rest;
      Ok (MkFile (fm_path m) (fm_mode m) (fm_size m) chunks :: files)
  end.

Definition ManifestFromRemoteProto (message : option ManifestMessage) : result Manifest :=
  match message with
  | None => Err [SnapshotErrInvalidManifest]
  | Some m =>
      _ ← reject_if (MaximumWireManifestBytes <? proto_size m)%Z [SnapshotErrInvalidManifest];
      claimedID ← ParseDigest (mm_manifest_id m);
      files ← files_from (mm_files m);
      let manifest := MkManifest (mm_version m) files (mm_total_bytes m) in
      _ ← CanonicalBytes manifest;
      actualID ← Manifest_ID sha256 manifest;
      _ ← reject_if (negb (bool_decide (actualID = claimedID))) [SnapshotErrInvalidManifest];
      Ok manifest
  end.

End Mapper.

(** ** Lemmas *)

(** A table without repeated numbers is inverted by the inverse map. *)
Lemma wire_inverse {A} `{EqDecision A} (table : list (A * Z)) a z :
  NoDup table.*2 → to_wire table a = Some z → from_wire table z = Some a.
Proof.
  unfold to_wire, from_wire. induction table as [|[b y] table IH]; [done|]. cbn [fmap list_fmap list_find_val fst snd].
  intros [Hy Hnd]%NoDup_cons. case_bool_decide as E.
  - intros [= <-]. subst b. by rewrite Z.eqb_refl.
  - intros Hz. destruct (Z.eqb_spec y z) as [->|]; [|by apply IH]. exfalso. apply Hy.
    clear -Hz. induction table as [|[c x] table IH]; [done|]. cbn [list_find_val fst] in Hz. case_bool_decide.
    + injection Hz as ->. apply list_elem_of_here.
    + apply list_elem_of_further. by apply IH.
Qed.

Ltac nodup := repeat (constructor; [set_solver|]); constructor.

Lemma state_wire s z : stateToRemoteProtocol s = Some z → remoteProtocolToState z = Some s.
Proof. apply wire_inverse. vm_compute. nodup. Qed.
Lemma phase_wire p z : progressPhaseToRemoteProtocol p = Some z → remoteProtocolToProgressPhase z = Some p.
Proof. apply wire_inverse. vm_compute. nodup. Qed.
Lemma stream_wire s z : to_wire stream_table s = Some z → from_wire stream_table z = Some s.
Proof. apply wire_inverse. vm_compute. nodup. Qed.
Lemma executor_wire e z : executorToRemoteProto e = Ok z → executorFromRemoteProto z = Ok e.
Proof.
  unfold executorToRemoteProto, executorFromRemoteProto. destruct (to_wire executor_table e) as [y|] eqn:E; [|done]. intros [= <-].
  apply wire_inverse in E; [by rewrite E|vm_compute; nodup].
Qed.
Lemma encoding_wire e z : ChunkEncodingToRemoteProto e = Ok z → ChunkEncodingFromRemoteProto z = Ok e.
Proof.
  unfold ChunkEncodingToRemoteProto, ChunkEncodingFromRemoteProto. destruct (to_wire encoding_table e) as [y|] eqn:E; [|done]. intros [= <-].
  apply wire_inverse in E; [by rewrite E|vm_compute; nodup].
Qed.

Lemma states_wire l zs : StatesToRemoteProto l = Ok zs → StatesFromRemoteProto zs = Ok l.
Proof.
  unfold StatesToRemoteProto, StatesFromRemoteProto. revert zs. induction l as [|s l IH]; intros zs; cbn [map_states]; [by intros [= <-]|].
  destruct (stateToRemoteProtocol s) as [z|] eqn:E; [|done]. intros (bs & Hb & [= <-])%result_bind_ok.
  cbn [map_states]. rewrite (state_wire _ _ E). by rewrite (IH _ Hb).
Qed.

Section Roundtrips.
Context `{UnicodeCase}.

Lemma spec_wire spec : Spec_Validate spec = Ok tt →
  ∃ m, SpecToRemoteProto spec = Ok m ∧ SpecFromRemoteProto (Some m) = Ok spec.
Proof.
  intros Hv. unfold SpecToRemoteProto. rewrite Hv. cbn [mbind result_bind].
  assert (∃ z, executorToRemoteProto (SpecExecutor spec) = Ok z) as (z & Hz).
  { destruct (SpecExecutor spec) as [| |name] eqn:E; [by eexists|by eexists|]. unfold Spec_Validate in Hv. rewrite E in Hv. by invert_ok Hv. }
  rewrite Hz. cbn [mbind result_bind]. eexists. split; [reflexivity|]. unfold SpecFromRemoteProto. cbn [sm_executor].
  rewrite (executor_wire _ _ Hz). cbn. destruct spec. cbn in *. by rewrite Hv.
Qed.

Lemma progress_wire p : Progress_Validate p = Ok tt → int64_range (ProgressUpdatedAt p) →
  ∃ m, ProgressToRemoteProto p = Ok m ∧ ProgressFromRemoteProto (Some m) = Ok p.
Proof.
  intros Hv Hr. unfold ProgressToRemoteProto. rewrite Hv. cbn [mbind result_bind].
  destruct (progressPhaseToRemoteProtocol (Phase p)) as [z|] eqn:Ez.
  - eexists. split; [reflexivity|]. unfold ProgressFromRemoteProto. cbn [pm_phase pm_completed_bytes pm_total_bytes pm_updated_at_unix_nano]. rewrite (phase_wire _ _ Ez).
    rewrite unix_nano_roundtrip by done. destruct p. cbn in *. by rewrite Hv.
  - exfalso. unfold Progress_Validate in Hv. by destruct (Phase p).
Qed.

Lemma job_from_valid m j : JobFromRemoteProto m = Ok j → Job_Validate j = Ok tt.
Proof.
  destruct m as [m|]; [|done]. unfold JobFromRemoteProto. intros (id & _ & Hj)%result_bind_ok.
  apply result_bind_ok in Hj as (spec & _ & Hj). destruct (remoteProtocolToState (jm_state m)); [|done].
  apply result_bind_ok in Hj as (progress & _ & Hj). by apply result_bind_ok in Hj as ([] & Hv & [= <-]).
Qed.

(** Instants of a job that 64-bit nanoseconds can hold. *)
Definition job_times_fit (j : Job) : Prop :=
  int64_range (CreatedAt j) ∧ int64_range (UpdatedAt j) ∧
  match JobProgress j with Some p => int64_range (ProgressUpdatedAt p) | None => True end.

Lemma job_wire j : Job_Validate j = Ok tt → job_times_fit j →
  ∃ m, JobToRemoteProto j = Ok m ∧ JobFromRemoteProto (Some m) = Ok j.
Proof.
  intros Hv (Hc & Hu & Hp). pose proof Hv as (Hid & Hs & Hst & _ & _ & _ & _ & Hprog)%job_validate_ok.
  destruct (spec_wire (JobSpec j) Hs) as (sm & Hto & Hfrom).
  assert (∃ z, stateToRemoteProtocol (JobState j) = Some z) as (z & Hz) 
    by (destruct (JobState j); [by eexists..|done]).
  assert (∃ pm, optional ProgressToRemoteProto (JobProgress j) = Ok pm ∧
    optional (λ p, ProgressFromRemoteProto (Some p)) pm = Ok (JobProgress j)) as (pm & Hpto & Hpfrom).
  { destruct (JobProgress j) as [p|]; [|by exists None]. destruct (progress_wire p Hprog Hp) as (m & H1 & H2).
    exists (Some m). unfold optional. by rewrite H1, H2. }
  unfold JobToRemoteProto. rewrite Hv. cbn [mbind result_bind]. rewrite Hto. cbn [mbind result_bind]. rewrite Hz, Hpto. cbn [mbind result_bind].
  eexists. split; [reflexivity|]. unfold JobFromRemoteProto. cbn [jm_id jm_spec jm_state jm_progress jm_created_at_unix_nano jm_updated_at_unix_nano jm_failure].
  rewrite (id_valid_parse _ Hid). cbn [mbind result_bind]. rewrite Hfrom. cbn [mbind result_bind]. rewrite (state_wire _ _ Hz), Hpfrom.
  cbn [mbind result_bind]. rewrite !unix_nano_roundtrip by done. destruct j. cbn in *. by rewrite Hv.
Qed.

(** The last log sequence before [records], and increasing ones in them. *)
Fixpoint increasing (previous : Z) (records : list LogRecord) : Prop :=
  match records with
  | [] => True
  | r :: rest => (previous < RecordSequence r)%Z ∧ increasing (RecordSequence r) rest
  end.

Lemma records_wire records previous ms :
  (0 ≤ previous)%Z → increasing previous records → Forall (λ r, int64_range (RecordAt r) ∧ RecordAt r ≠ 0%Z) records →
  LogRecordsToRemoteProto records = Ok ms → records_loop (map Some ms) previous = Ok records.
Proof.
  revert previous ms. induction records as [|r records IH]; intros previous ms Hp Hinc Ht; cbn [LogRecordsToRemoteProto]; [by intros [= <-]|].
  intros (m & Hm & Hms)%result_bind_ok. apply result_bind_ok in Hms as (rest & Hrest & [= <-]).
  destruct Hinc as [Hlt Hinc]. apply Forall_cons in Ht as [[Hr Hz] Ht]. unfold LogRecordToRemoteProto in Hm.
  destruct (to_wire stream_table (RecordStream r)) as [z|] eqn:Ez; [|done]. apply result_bind_ok in Hm as (u & Hc%reject_if_ok & [= <-]).
  apply orb_false_iff in Hc as [Hc _]. apply orb_false_iff in Hc as [Hc Hmax]. apply orb_false_iff in Hc as [_ Hlen].
  cbn [map records_loop lm_sequence lm_data lm_at_unix_nano lm_stream]. rewrite Hlen, Hmax. unfold unix_nano, from_unix_nano. rewrite wrap_int64_id by done.
  rewrite (proj2 (Z.eqb_neq _ _)), (proj2 (Z.leb_gt _ _)), (proj2 (Z.eqb_neq (RecordAt r) 0)) by (done || lia). cbn [orb reject_if mbind result_bind].
  rewrite (stream_wire _ _ Ez), (IH (RecordSequence r) rest) by (done || lia). by destruct r.
Qed.

(** Encodings: a list that can be sent arrives as it is. *)
Lemma encodings_loop_wire l zs seen seen' :
  (∀ e z, e ∈ l → ChunkEncodingToRemoteProto e = Ok z → (e ∈ seen' ↔ z ∈ seen)) →
  encodings_loop ChunkEncodingToRemoteProto l seen = Ok zs → encodings_loop ChunkEncodingFromRemoteProto zs seen' = Ok l.
Proof.
  revert zs seen seen'. induction l as [|e l IH]; intros zs seen seen' Hseen; cbn [encodings_loop]; [by intros [= <-]|].
  intros (z & Hz & Hr)%result_bind_ok. apply result_bind_ok in Hr as (u & Hc%reject_if_ok & Hr).
  apply result_bind_ok in Hr as (zs' & Hzs & [= <-]). cbn [encodings_loop]. rewrite (encoding_wire _ _ Hz). cbn [mbind result_bind].
  assert (e ∉ seen') as Hn by (rewrite (Hseen e z); [by reflect_bools|apply list_elem_of_here|done]).
  rewrite bool_decide_false by done. cbn [reject_if mbind result_bind]. rewrite (IH zs' (z :: seen) (e :: seen')); [done| |done].
  intros e' z' He' Hz'. rewrite !elem_of_cons, (Hseen e' z') by (done || by apply list_elem_of_further).
  assert (e' = e ↔ z' = z) as ->; [|done]. split; [intros ->; congruence|intros ->].
  apply encoding_wire in Hz, Hz'. congruence.
Qed.

Lemma length_encodings_loop f l seen zs : encodings_loop f l seen = Ok zs → length zs = length l.
Proof.
  revert seen zs. induction l as [|e l IH]; intros seen zs; cbn [encodings_loop]; [by intros [= <-]|].
  intros (z & _ & Hr)%result_bind_ok. apply result_bind_ok in Hr as (u & _ & Hr). apply result_bind_ok in Hr as (zs' & Hzs & [= <-]).
  cbn [length]. by rewrite (IH _ _ Hzs).
Qed.

Lemma encodings_wire l zs : ChunkEncodingsToRemoteProto l = Ok zs → ChunkEncodingsFromRemoteProto zs = Ok l.
Proof.
  unfold ChunkEncodingsToRemoteProto, ChunkEncodingsFromRemoteProto, mapChunkEncodings. intros (u & Hc & Hr)%result_bind_ok.
  rewrite (length_encodings_loop _ _ _ _ Hr), Hc. cbn [mbind result_bind]. eapply encodings_loop_wire; [|exact Hr].
  intros e z _ _. set_solver.
Qed.

End Roundtrips.

Section Manifests.
Context `{UnicodeCase} (sha256 : bytes → bytes) (Hsha : ∀ c, length (sha256 c) = DigestBytes) (proto_size : ManifestMessage → Z).

Lemma parse_digest_id value digest : ParseDigest value = Ok digest → digest = value.
Proof. unfold ParseDigest. repeat case_match; congruence. Qed.

Lemma digest_parse digest : Digest_Valid digest = true → ParseDigest digest = Ok digest.
Proof. unfold Digest_Valid. destruct (ParseDigest digest) eqn:E; [|done]. intros _. by rewrite (parse_digest_id _ _ E). Qed.

Lemma chunks_wire chunks n b r : validate_chunks chunks n b = Ok r →
  chunks_from (map (λ c, Some (MkChunkMessage (Digest c) (Size c))) chunks) = Ok chunks.
Proof.
  revert n b. induction chunks as [|c chunks IH]; intros n b; cbn [validate_chunks]; [done|].
  destruct (_ || _) eqn:E; [done|]. intros Hv. reflect_bools. cbn [map chunks_from cm_digest cm_size].
  rewrite digest_parse by done. cbn [mbind result_bind]. rewrite (IH _ _ Hv). by destruct c.
Qed.

Lemma files_wire files v v' : validate_files files v = Ok v' → files_from (map (λ f, Some (file_message f)) files) = Ok files.
Proof.
  revert v. induction files as [|f files IH]; intros v; cbn [validate_files]; [done|].
  intros (v1 & Hf & Hv)%result_bind_ok. unfold validate_file in Hf. cbn [map files_from file_message fm_chunks fm_path fm_mode fm_size].
  do 5 (apply result_bind_ok in Hf as (? & _ & Hf)). apply result_bind_ok in Hf as (counted & Hc & _).
  rewrite (chunks_wire _ _ _ _ Hc). cbn [mbind result_bind]. rewrite (IH _ Hv). by destruct f.
Qed.

Lemma manifest_id_validate m id : Manifest_ID sha256 m = Ok id → Manifest_Validate m = Ok tt ∧ Digest_Valid id = true ∧ ∃ c, CanonicalBytes m = Ok c.
Proof.
  unfold Manifest_ID. intros (c & Hc & [= <-])%result_bind_ok. split_and!; [|by apply sum_valid|by exists c].
  unfold CanonicalBytes in Hc. by apply result_bind_ok in Hc as ([] & Hv & _).
Qed.

Lemma manifest_to_from m msg : ManifestToRemoteProto sha256 proto_size m = Ok msg → ManifestFromRemoteProto sha256 proto_size (Some msg) = Ok m.
Proof.
  unfold ManifestToRemoteProto. intros (id & Hid & Hr)%result_bind_ok. apply result_bind_ok in Hr as (u & Hsz & [= <-]).
  destruct (manifest_id_validate m id Hid) as (Hv & Hd & c & Hc). unfold ManifestFromRemoteProto. rewrite Hsz.
  cbn [mbind result_bind mm_manifest_id mm_files mm_version mm_total_bytes]. rewrite digest_parse by done. cbn [mbind result_bind].
  unfold Manifest_Validate in Hv. apply result_bind_ok in Hv as (u1 & _ & Hv). apply result_bind_ok in Hv as (v & Hf & _).
  rewrite (files_wire _ _ _ Hf). cbn [mbind result_bind]. destruct m as [version files total]. cbn [Version Files Snapshot.TotalBytes].
  rewrite Hc. cbn [mbind result_bind]. rewrite Hid. cbn [mbind result_bind]. by rewrite bool_decide_true.
Qed.

Lemma manifest_from_sound msg m : ManifestFromRemoteProto sha256 proto_size (Some msg) = Ok m →
  Manifest_Validate m = Ok tt ∧ Manifest_ID sha256 m = Ok (mm_manifest_id msg).
Proof.
  unfold ManifestFromRemoteProto. intros (u & _ & Hr)%result_bind_ok. apply result_bind_ok in Hr as (claimed & Hcl & Hr).
  apply result_bind_ok in Hr as (files & _ & Hr). apply result_bind_ok in Hr as (c & Hc & Hr).
  apply result_bind_ok in Hr as (actual & Hid & Hr). apply result_bind_ok in Hr as (u' & He%reject_if_ok & [= <-]). reflect_bools. subst actual.
  rewrite <-(parse_digest_id _ _ Hcl). split; [|done]. by destruct (manifest_id_validate _ _ Hid).
Qed.

End Manifests.

(** Jobs, state filters, encodings and log pages survive the wire.  A valid job whose
    instants fit 64-bit nanoseconds can be sent, and the receiver reads the same job:
    identifier, specification, state, instants, failure and progress.  State filters and
    encoding lists that can be sent are read as they were, and so are log records with
    increasing sequences and instants other than the epoch.  Whatever message arrives,
    what is accepted is a valid job. *)
Theorem job_wire_roundtrip (U : UnicodeCase) (j : Job) (states : list State) (encodings numbers : list Z)
    (records : list LogRecord) (messages : list LogRecordMessage) :
  (Job_Validate j = Ok tt → job_times_fit j → ∃ m, JobToRemoteProto j = Ok m ∧ JobFromRemoteProto (Some m) = Ok j) ∧
  (∀ m, JobFromRemoteProto m = Ok j → Job_Validate j = Ok tt) ∧
  (StatesToRemoteProto states = Ok numbers → StatesFromRemoteProto numbers = Ok states) ∧
  (ChunkEncodingsToRemoteProto encodings = Ok numbers → ChunkEncodingsFromRemoteProto numbers = Ok encodings) ∧
  (increasing 0 records → Forall (λ r, int64_range (RecordAt r) ∧ RecordAt r ≠ 0%Z) records →
     LogRecordsToRemoteProto records = Ok messages → LogRecordsFromRemoteProto (map Some messages) = Ok records).
Proof.
  split_and!; [apply job_wire|intros m; apply job_from_valid|apply states_wire|apply encodings_wire|].
  intros Hinc Ht. by apply records_wire.
Qed.

Lemma manifest_wire (U : UnicodeCase) (sha256 : bytes → bytes) (proto_size : ManifestMessage → Z) (m : Manifest) (msg : ManifestMessage) :
  (∀ c, length (sha256 c) = DigestBytes) →
  (ManifestToRemoteProto sha256 proto_size m = Ok msg → ManifestFromRemoteProto sha256 proto_size (Some msg) = Ok m) ∧
  (ManifestFromRemoteProto sha256 proto_size (Some msg) = Ok m →
     Manifest_Validate m = Ok tt ∧ Manifest_ID sha256 m = Ok (mm_manifest_id msg)).
Proof. intros Hsha. split; [by apply manifest_to_from|by apply manifest_from_sound]. Qed.

(** Manifests survive the wire and cannot be forged.  A manifest that can be sent
    arrives as it is; and an accepted message yields a valid manifest whose identity is
    the one the message claims, so two accepted messages that claim one identity describe
    manifests with one hash. *)
Theorem manifest_wire_exact (U : UnicodeCase) (sha256 : bytes → bytes) (proto_size : ManifestMessage → Z) (m : Manifest) (msg : ManifestMessage) :
  (∀ c, length (sha256 c) = DigestBytes) →
  (ManifestToRemoteProto sha256 proto_size m = Ok msg → ManifestFromRemoteProto sha256 proto_size (Some msg) = Ok m) ∧
  (ManifestFromRemoteProto sha256 proto_size (Some msg) = Ok m →
     Manifest_Validate m = Ok tt ∧ Manifest_ID sha256 m = Ok (mm_manifest_id msg)).
Proof. apply manifest_wire. Qed.

Lemma job_wire_roundtrip_witness :
  ∃ m, JobToRemoteProto (H := ascii_case) sample_job = Ok m ∧ JobFromRemoteProto (H := ascii_case) (Some m) = Ok sample_job.
Proof.
  refine (proj1 (job_wire_roundtrip ascii_case sample_job [] [] [] [] []) _ _).
  - vm_compute. reflexivity.
  - repeat split; vm_compute; discriminate.
Defined.

Lemma manifest_wire_exact_witness :
  ∃ msg, ManifestToRemoteProto (H := ascii_case) sample_sha256 (λ _, 100%Z) sample_manifest = Ok msg ∧
    ManifestFromRemoteProto (H := ascii_case) sample_sha256 (λ _, 100%Z) (Some msg) = Ok sample_manifest.
Proof.
  destruct (ManifestToRemoteProto (H := ascii_case) sample_sha256 (λ _, 100%Z) sample_manifest) as [msg|e] eqn:E;
    [|vm_compute in E; discriminate E].
  exists msg. split; [reflexivity|].
  exact (proj1 (manifest_wire_exact ascii_case sample_sha256 (λ _, 100%Z) sample_manifest msg (λ c, eq_refl)) E).
Defined.
