(* ===== verification/Frames.v ===== *)
(** * Length-prefixed messages (internal/protocol/localipc/frame.go, internal/protocol/remote/remote.go)

    Both control protocols carry one protobuf message per frame: four bytes of
    length, most significant first, and the payload.  A writer may take a message
    in pieces or fail, a reader may hand it out in pieces of any size; protobuf
    encoding is the class [Codec]. *)

From S2P Require Import Prelude GoText.
From Stdlib Require Import Ascii.
Local Open Scope string_scope.
Local Open Scope nat_scope.
Local Open Scope list_scope.

Definition maximumFrameBytes : Z := (2 ^ 20)%Z.

(** [proto.Marshal] and [proto.Unmarshal]. *)
Class Codec (Msg : Type) := { marshal : Msg → result bytes; unmarshal : bytes → result Msg }.

(** ** Writers *)

(** What one call of [Write] does: it takes some bytes, perhaps with an error. *)
Inductive Write_ := Wrote (n : nat) | WriteFails (n : nat) (e : list sentinel).

(** The [k]-th and later calls of a writer; the bytes sent, the outcome and the
    number of calls made.  Every turn takes a byte or stops, so the length of the
    contents is enough fuel. *)
Fixpoint write_loop (fuel : nat) (out : nat → Write_) (k : nat) (contents : bytes) : bytes * result unit * nat :=
  match contents, fuel with
  | [], _ => ([], Ok tt, k)
  | _, 0 => ([], Ok tt, k)
  | _, S fuel =>
      match out k with
      | WriteFails n e => (take n contents, Err e, S k)
      | Wrote 0 => ([], Err [IoErrShortWrite], S k)
      | Wrote n =>
          let '(sent, r, k') := write_loop fuel out (S k) (drop n contents) in (take n contents ++ sent, r, k')
      end
  end.
Definition writeAll (out : nat → Write_) (k : nat) (contents : bytes) : bytes * result unit * nat :=
  write_loop (length contents) out k contents.

(** ** Readers

    [pending] are the bytes the other side sends before the connection ends with
    [closing] (end of file, a deadline, a reset); the [k]-th call of [Read] returns at
    most [pieces k] of them, at least one. *)
Record Reader := MkReader { pending : bytes; closing : list sentinel; pieces : nat → nat; reads : nat }.

Definition Read (m : nat) (r : Reader) : result bytes * Reader :=
  let n := m `min` (1 `max` pieces r (reads r)) in
  match pending r with
  | [] => (Err (closing r), MkReader [] (closing r) (pieces r) (S (reads r)))
  | _ => (Ok (take n (pending r)), MkReader (drop n (pending r)) (closing r) (pieces r) (S (reads r)))
  end.

(** [io.ReadFull]: the buffer still lacks [m] bytes and holds [got]. *)
Fixpoint read_full (fuel : nat) (m : nat) (got : bytes) (r : Reader) : result bytes * Reader :=
  match m, fuel with
  | 0, _ => (Ok got, r)
  | _, 0 => (Ok got, r)
  | _, S fuel =>
      match Read m r with
      | (Ok data, r) => read_full fuel (m - length data) (got ++ data) r
      | (Err e, r) =>
          (Err (if bool_decide (e = [IoEOF]) && negb (bool_decide (got = [])) then [IoErrUnexpectedEOF] else e), r)
      end
  end.
Definition ReadFull (m : nat) (r : Reader) : result bytes * Reader := read_full m m [] r.

(** ** Frames *)

Section Frames.
Context {Msg : Type} `{Codec Msg} (errEmpty errTooLarge : sentinel).

Definition frame (payload : bytes) : bytes := big_endian 4 (Z.of_nat (length payload)) ++ payload.

(** The bytes that reached the connection, and the outcome. *)
Definition writeMessage (out : nat → Write_) (message : Msg) : bytes * result unit :=
  match marshal message with
  | Err e => ([], Err e)
  | Ok payload =>
      if bool_decide (payload = []) then ([], Err [errEmpty])
      else if (maximumFrameBytes <? Z.of_nat (length payload))%Z then ([], Err [errTooLarge])
      else
        let '(sent, r, k) := writeAll out 0 (big_endian 4 (Z.of_nat (length payload))) in
        match r with
        | Err e => (sent, Err e)
        | Ok _ => let '(more, r, _) := writeAll out k payload in (sent ++ more, r)
        end
  end.

Definition readMessage (r : Reader) : result Msg * Reader :=
  let '(lengthBytes, r) := ReadFull 4 r in
  match lengthBytes with
  | Err e => (Err e, r)
  | Ok lengthBytes =>
      let length := from_big_endian lengthBytes in
      if (length =? 0)%Z then (Err [errEmpty], r)
      else if (maximumFrameBytes <? length)%Z then (Err [errTooLarge], r)
      else
        let '(payload, r) := ReadFull (Z.to_nat length) r in
        match payload with
        | Err e => (Err e, r)
        | Ok payload => (unmarshal payload, r)
        end
  end.

End Frames.

(** ** Lemmas *)

Lemma write_loop_prefix fuel out k contents sent r k' :
  length contents ≤ fuel → write_loop fuel out k contents = (sent, r, k') →
  ∃ lost, contents = sent ++ lost ∧ (r = Ok tt → lost = []).
Proof.
  revert k contents sent r k'. induction fuel as [|fuel IH]; intros k [|c contents] sent r k' Hlen; simpl in *;
    [by intros [= <- <- <-]; exists []|lia|by intros [= <- <- <-]; exists []|].
  destruct (out k) as [[|n]|n e].
  - intros [= <- <- <-]. by exists (c :: contents).
  - destruct (write_loop fuel out (S k) (drop (S n) (c :: contents))) as [[sent' r'] k''] eqn:E. intros [= <- <- <-].
    apply IH in E as (lost & E & Hr); [|rewrite length_drop; simpl; lia].
    exists lost. split; [|done]. simpl in *. by rewrite <-app_assoc, <-E, take_drop.
  - intros [= <- <- <-]. exists (drop n (c :: contents)). by rewrite take_drop.
Qed.

(** A writer that takes at least a byte at every call. *)
Definition willing (out : nat → Write_) : Prop := ∀ k, ∃ n, out k = Wrote (S n).

Lemma writeAll_willing out k contents : willing out → ∃ k', writeAll out k contents = (contents, Ok tt, k').
Proof.
  intros Hout. destruct (writeAll out k contents) as [[sent r] k'] eqn:E. exists k'.
  assert (r = Ok tt) as ->.
  { unfold writeAll in E. revert E. generalize (length contents). intros fuel. revert k contents sent.
    induction fuel as [|fuel IH]; intros k [|c contents] sent; simpl; [congruence..|].
    destruct (Hout k) as [n ->]. destruct (write_loop _ _ _ _) as [[sent' r'] k''] eqn:E'. intros [= <- <- <-]. by eapply IH. }
  apply write_loop_prefix in E as (lost & -> & Hlost); [|done]. by rewrite (Hlost eq_refl), app_nil_r.
Qed.

Definition with_pending (p : bytes) (k : nat) (r : Reader) : Reader := MkReader p (closing r) (pieces r) k.

(** What [io.ReadFull] reports when the connection ends before the buffer is full. *)
Definition short_error (got : bytes) (r : Reader) : list sentinel :=
  if bool_decide (closing r = [IoEOF]) && negb (bool_decide (got = [])) then [IoErrUnexpectedEOF] else closing r.

Lemma read_full_spec fuel m got r : m ≤ fuel → ∃ k, read_full fuel m got r =
  if m <=? length (pending r) then (Ok (got ++ take m (pending r)), with_pending (drop m (pending r)) k r)
  else (Err (short_error (got ++ pending r) r), with_pending [] k r).
Proof.
  revert m got r. induction fuel as [|fuel IH]; intros [|m] got [p c ps k] Hm; simpl in *; try lia;
    rewrite ?app_nil_r; eauto.
  unfold Read, with_pending, short_error. simpl. destruct p as [|b p]; simpl; rewrite ?app_nil_r; eauto.
  destruct (1 `max` ps k) as [|j] eqn:Ej; [lia|]. simpl.
  rewrite length_take. destruct (IH (m - (m `min` j) `min` length p) (got ++ b :: take (m `min` j) p) (MkReader (drop (m `min` j) p) c ps (S k))) as [k' ->];
    [lia|]. exists k'. simpl. rewrite length_drop. unfold with_pending, short_error. simpl.
  replace (m - m `min` j `min` length p <=? length p - m `min` j) with (m <=? length p).
  2: { destruct (Nat.leb_spec m (length p)), (Nat.leb_spec (m - m `min` j `min` length p) (length p - m `min` j)); lia. }
  destruct (Nat.leb_spec m (length p)).
  - rewrite (Nat.min_l _ (length p)) by lia. rewrite <-app_assoc. simpl. rewrite drop_drop.
    replace (m `min` j + (m - m `min` j)) with m by lia.
    rewrite <-(take_drop (m `min` j) p) at 4. rewrite take_app, take_take.
    rewrite length_take, (Nat.min_l (m `min` j) (length p)), (Nat.min_r m (m `min` j)) by lia. done.
  - rewrite <-!app_assoc. simpl. by rewrite take_drop.
Qed.

Lemma ReadFull_spec m r : ∃ k, ReadFull m r =
  if m <=? length (pending r) then (Ok (take m (pending r)), with_pending (drop m (pending r)) k r)
  else (Err (short_error (pending r) r), with_pending [] k r).
Proof. apply (read_full_spec m m [] r). lia. Qed.

Lemma ReadFull_app p rest c ps k : ∃ k', ReadFull (length p) (MkReader (p ++ rest) c ps k) = (Ok p, MkReader rest c ps k').
Proof.
  destruct (ReadFull_spec (length p) (MkReader (p ++ rest) c ps k)) as [k' ->]. exists k'. cbn [pending].
  rewrite (proj2 (Nat.leb_le _ _)) by (rewrite length_app; lia). by rewrite take_app_length, drop_app_length.
Qed.

Lemma from_big_endian_snoc l c : from_big_endian (l ++ [c]) = (from_big_endian l * 256 + val c)%Z.
Proof. unfold from_big_endian. by rewrite fold_left_app. Qed.

Lemma from_big_endian_range l : (0 ≤ from_big_endian l < 256 ^ Z.of_nat (length l))%Z.
Proof.
  induction l as [|c l IH] using rev_ind; [done|]. rewrite from_big_endian_snoc, length_app, Nat2Z.inj_add, Z.pow_add_r by lia.
  change (256 ^ Z.of_nat (length [c]))%Z with 256%Z. pose proof (val_range c). lia.
Qed.

Lemma big_endian_from l : big_endian (length l) (from_big_endian l) = l.
Proof.
  induction l as [|c l IH] using rev_ind; [done|]. rewrite from_big_endian_snoc, length_app, Nat.add_1_r. cbn [big_endian].
  pose proof (val_range c). rewrite Z.div_add_l, Z.div_small, Z.add_0_r, IH by lia. f_equal. f_equal.
  rewrite <-(byte_of_val c) at 2. unfold byte_of. by rewrite Z.add_comm, Z.mod_add by lia.
Qed.

Section Theorems.
Context {Msg : Type} `{Codec Msg} (errEmpty errTooLarge : sentinel).
Abbreviation write := (writeMessage errEmpty errTooLarge).
Abbreviation read := (readMessage errEmpty errTooLarge).

(** A message that fits a frame. *)
Definition fits (message : Msg) (payload : bytes) : Prop :=
  marshal message = Ok payload ∧ payload ≠ [] ∧ (Z.of_nat (length payload) ≤ maximumFrameBytes)%Z.

Lemma write_fits out message payload : fits message payload → willing out → write out message = (frame payload, Ok tt).
Proof.
  intros (Hm & Hne & Hlen) Hout. unfold writeMessage, frame. rewrite Hm, bool_decide_eq_false_2, (proj2 (Z.ltb_ge _ _)) by done.
  destruct (writeAll_willing out 0 (big_endian 4 (Z.of_nat (length payload))) Hout) as [k ->].
  by destruct (writeAll_willing out k payload Hout) as [k' ->].
Qed.

Lemma read_frame payload rest c ps k :
  payload ≠ [] → (Z.of_nat (length payload) ≤ maximumFrameBytes)%Z →
  ∃ k', read (MkReader (frame payload ++ rest) c ps k) = (unmarshal payload, MkReader rest c ps k').
Proof.
  intros Hne Hlen. unfold readMessage.
  destruct (ReadFull_spec 4 (MkReader (frame payload ++ rest) c ps k)) as [k1 ->]. cbn [pending]. unfold frame, maximumFrameBytes in *.
  rewrite <-app_assoc, length_app, length_big_endian. cbn [Nat.leb Nat.add].
  rewrite take_app_length', drop_app_length' by (by rewrite length_big_endian).
  rewrite from_big_endian_encode by (simpl; lia). rewrite (proj2 (Z.eqb_neq _ _)), (proj2 (Z.ltb_ge _ _)); [|lia|destruct payload; simpl; [done|lia]].
  rewrite Nat2Z.id. destruct (ReadFull_spec (length payload) (with_pending (payload ++ rest) k1 (MkReader (big_endian 4 (Z.of_nat (length payload)) ++ payload ++ rest) c ps k))) as [k2 ->].
  cbn [pending with_pending]. rewrite (proj2 (Nat.leb_le _ _)) by (rewrite length_app; lia).
  rewrite take_app_length, drop_app_length. by exists k2.
Qed.

(** A message written to a connection whose writer keeps taking bytes, in pieces
    of any size, is the message read at the other end, whatever the pieces in which
    it arrives, and what follows it is left for the next read. *)
Theorem frame_roundtrip out message payload rest c ps k :
  fits message payload → unmarshal payload = Ok message → willing out →
  ∃ sent k', write out message = (sent, Ok tt) ∧
    read (MkReader (sent ++ rest) c ps k) = (Ok message, MkReader rest c ps k').
Proof.
  intros Hf Hu Hout. destruct (read_frame payload rest c ps k) as [k' E]; [apply Hf..|].
  exists (frame payload), k'. by rewrite (write_fits out message payload), E, Hu.
Qed.

(** A message that fits a frame and that protobuf decodes to itself. *)
Definition portable (message : Msg) : Prop := ∃ payload, fits message payload ∧ unmarshal payload = Ok message.

Lemma portable_read message out c ps k :
  portable message → willing out → ∃ sent r, write out message = (sent, Ok tt) ∧ read (MkReader sent c ps k) = (Ok message, r).
Proof.
  intros (payload & Hf & Hu) Hout. destruct (read_frame payload [] c ps k) as [k' E]; [apply Hf..|].
  exists (frame payload), (MkReader [] c ps k'). rewrite (write_fits out message payload) by done. split; [done|].
  rewrite app_nil_r in E. by rewrite E, Hu.
Qed.

(** The ways a read can end. *)
Inductive ReadCase (r : Reader) (k : nat) : result Msg * Reader → Prop :=
| case_short e : (Z.of_nat (length (pending r)) < 4 + maximumFrameBytes)%Z →
    (length (pending r) < 4 ∨ (from_big_endian (take 4 (pending r)) ≤ maximumFrameBytes)%Z) →
    ReadCase r k (Err e, with_pending [] k r)
| case_empty : 4 ≤ length (pending r) → from_big_endian (take 4 (pending r)) = 0%Z →
    ReadCase r k (Err [errEmpty], with_pending (drop 4 (pending r)) k r)
| case_large : 4 ≤ length (pending r) →
    ReadCase r k (Err [errTooLarge], with_pending (drop 4 (pending r)) k r)
| case_frame payload rest : pending r = frame payload ++ rest → payload ≠ [] →
    (Z.of_nat (length payload) ≤ maximumFrameBytes)%Z → ReadCase r k (unmarshal payload, with_pending rest k r).

Lemma read_cases r : ∃ k, ReadCase r k (read r).
Proof.
  unfold readMessage. destruct (ReadFull_spec 4 r) as [k ->]. destruct (Nat.leb_spec 4 (length (pending r))) as [H4|H4].
  2: { exists k. apply case_short; [unfold maximumFrameBytes; lia|by left]. }
  set (size := from_big_endian (take 4 (pending r))).
  destruct (Z.eqb_spec size 0) as [Hz|Hz]; [exists k; by constructor|].
  destruct (Z.ltb_spec maximumFrameBytes size) as [Hl|Hl]; [exists k; by constructor|].
  destruct (ReadFull_spec (Z.to_nat size) (with_pending (drop 4 (pending r)) k r)) as [k2 ->]. cbn [pending with_pending]. exists k2.
  pose proof (from_big_endian_range (take 4 (pending r))) as Hrange. fold size in Hrange.
  pose proof (big_endian_from (take 4 (pending r))) as Hsize. fold size in Hsize. rewrite length_take, Nat.min_l in Hsize by lia.
  destruct (Nat.leb_spec (Z.to_nat size) (length (drop 4 (pending r)))) as [Hp|Hp].
  - apply (case_frame r k2 (take (Z.to_nat size) (drop 4 (pending r)))); [unfold frame|..|];
      rewrite ?length_take, ?Nat.min_l, ?Z2Nat.id, ?Hsize by lia; [by rewrite <-app_assoc, take_drop, take_drop| |lia].
    intros E%(f_equal length). rewrite length_take in E. simpl in E. lia.
  - refine (case_short r k2 _ _ _); [rewrite length_drop in Hp; lia|by right].
Qed.

(** Whatever the other side sends, a read message is the payload of one complete
    frame of at most 2^20 bytes at the front of the stream and nothing beyond it is
    consumed; a frame that announces more is refused after its four length bytes,
    before anything is allocated for it, and no read consumes more than a frame. *)
Theorem frame_read_bounded r result r' :
  read r = (result, r') →
  (∃ consumed, pending r = consumed ++ pending r' ∧ (Z.of_nat (length consumed) ≤ 4 + maximumFrameBytes)%Z) ∧
  (∀ message, result = Ok message → ∃ payload,
    pending r = frame payload ++ pending r' ∧ payload ≠ [] ∧
    (Z.of_nat (length payload) ≤ maximumFrameBytes)%Z ∧ unmarshal payload = Ok message) ∧
  (∀ n rest, (maximumFrameBytes < n < 2 ^ 32)%Z → pending r = big_endian 4 n ++ rest →
    result = Err [errTooLarge] ∧ pending r' = rest).
Proof.
  intros E. destruct (read_cases r) as [k Hc]. rewrite E in Hc.
  assert (Hhuge : ∀ n rest, (maximumFrameBytes < n < 2 ^ 32)%Z → pending r = big_endian 4 n ++ rest →
    4 ≤ length (pending r) ∧ from_big_endian (take 4 (pending r)) = n ∧ drop 4 (pending r) = rest).
  { intros n rest Hn ->. unfold maximumFrameBytes in Hn. rewrite length_app, take_app_length', drop_app_length', length_big_endian by (by rewrite length_big_endian).
    split_and!; [lia|apply from_big_endian_encode; simpl; lia|done]. }
  inversion Hc as [e Hlen Hsmall|H4 Hz|H4|payload rest Hp Hne Hlen]; subst; cbn [pending with_pending].
  - split_and!; [|done|intros n rest Hn Er; destruct (Hhuge n rest Hn Er); lia].
    exists (pending r). rewrite app_nil_r. split; [done|lia].
  - split_and!; [|done|intros n rest Hn Er; destruct (Hhuge n rest Hn Er); unfold maximumFrameBytes in *; lia].
    exists (take 4 (pending r)). rewrite take_drop, length_take. unfold maximumFrameBytes. split; [done|lia].
  - split_and!; [|done|intros n rest Hn Er; by destruct (Hhuge n rest Hn Er) as (_ & _ & ->)].
    exists (take 4 (pending r)). rewrite take_drop, length_take. unfold maximumFrameBytes. split; [done|lia].
  - split_and!; [|by eauto|].
    + exists (frame payload). split; [done|]. unfold frame. rewrite length_app, length_big_endian. lia.
    + intros n rest' Hn Er. destruct (Hhuge n rest' Hn Er) as (_ & En & _). rewrite Hp in En. unfold frame, maximumFrameBytes in *.
      rewrite <-app_assoc, take_app_length' in En by (by rewrite length_big_endian). rewrite from_big_endian_encode in En by (simpl; lia). lia.
Qed.

End Theorems.

(** ** Witnesses *)

Definition text_codec : Codec string := {| marshal s := Ok (bytes_of s); unmarshal b := Ok (str_of b) |}.
Definition trickle : nat → Write_ := λ k, Wrote (S (k mod 3)).

Lemma frame_roundtrip_witness :
  ∃ sent k', writeMessage (H := text_codec) IpcErrEmptyFrame IpcErrFrameTooLarge trickle "ping" = (sent, Ok tt) ∧
    readMessage (H := text_codec) IpcErrEmptyFrame IpcErrFrameTooLarge (MkReader (sent ++ bytes_of "next") [IoEOF] (λ k, k) 0)
      = (Ok "ping", MkReader (bytes_of "next") [IoEOF] (λ k, k) k').
Proof.
  apply (frame_roundtrip (H := text_codec) IpcErrEmptyFrame IpcErrFrameTooLarge trickle "ping" (bytes_of "ping")).
  - split; [reflexivity|]. split; [discriminate|]. vm_compute. discriminate.
  - reflexivity.
  - intros k. exists (k mod 3). reflexivity.
Defined.

Lemma frame_read_bounded_witness :
  ∃ payload, frame (bytes_of "ok") ++ bytes_of "tail" = frame payload ++ bytes_of "tail" ∧ payload ≠ [] ∧
    (Z.of_nat (length payload) ≤ maximumFrameBytes)%Z ∧ unmarshal (Codec := text_codec) payload = Ok "ok".
Proof.
  pose (r := MkReader (frame (bytes_of "ok") ++ bytes_of "tail") [IoEOF] (λ k, k) 0).
  exact (proj1 (proj2 (frame_read_bounded (H := text_codec) IpcErrEmptyFrame IpcErrFrameTooLarge r _ _ eq_refl)) "ok" eq_refl).
Defined.
