(* ===== verification/Remote.v ===== *)
(** * The worker job-control protocol (internal/protocol/remote/remote.go)

    The messages of api/proto/computehop/v1/remote.proto, the client side of one
    exchange ([Call]) and its server side ([Serve]).  A message carries the list of
    its parts that had fields the decoder does not know ([GetUnknown] of the message
    and of the messages inside it).  Requests that a context bounds in time are
    given what [Context.Err] returns when they look. *)

From S2P Require Import Prelude GoText JobModel Snapshot Transfer Wire Frames.
From Stdlib Require Import Ascii.
Local Open Scope string_scope.
Local Open Scope nat_scope.
Local Open Scope list_scope.

(** ** Messages *)

(** The messages inside an envelope; jobs, files, chunks and records by index. *)
Inductive Part :=
| PEnvelope | PError | POperation | PSpec | PSnapshot | PFile (i : nat) | PChunk (i j : nat)
| PJob (i : nat) | PJobSpec (i : nat) | PJobFailure (i : nat) | PRecord (i : nat).
#[global] Instance Part_eq_dec : EqDecision Part.
Proof. solve_decision. Defined.

Record SubmitJobRequest := MkSubmitJob {
  sj_spec : option JobSpecMessage; sj_snapshot : option ManifestMessage;
  sj_working_subdirectory : string; sj_job_id : string
}.
Record GetJobRequest := MkGetJob { gj_job_id : string }.
Record ListJobsRequest := MkListJobs { lj_states : list Z; lj_limit : Z }.
Record CancelJobRequest := MkCancelJob { cj_job_id : string }.
Record ReadJobLogsRequest := MkReadJobLogs { rl_job_id : string; rl_after_sequence : Z; rl_limit : Z }.
Record CheckSnapshotRequest := MkCheckSnapshot { cs_manifest_id : string; cs_chunk_digests : list string }.
Record ChunkTransfer := MkChunkTransfer { ct_digest : string; ct_data : bytes; ct_encoding : Z; ct_uncompressed_size : Z }.
Record GetJobArtifactsRequest := MkGetJobArtifacts { ga_job_id : string }.
Record GetArtifactChunkRequest := MkGetArtifactChunk { gc_job_id : string; gc_digest : string; gc_accepted_encodings : list Z }.
Record AcknowledgeRequest := MkAcknowledge { ak_job_id : string }.

(** [PutChunkRequest] and [GetArtifactChunkResponse] have the same fields,
    [ChunkTransfer]. *)
Inductive RemoteOperation :=
| ROpSubmitJob (r : option SubmitJobRequest)
| ROpGetJob (r : option GetJobRequest)
| ROpListJobs (r : option ListJobsRequest)
| ROpCancelJob (r : option CancelJobRequest)
| ROpReadJobLogs (r : option ReadJobLogsRequest)
| ROpCheckSnapshot (r : option CheckSnapshotRequest)
| ROpPutChunk (r : option ChunkTransfer)
| ROpGetJobArtifacts (r : option GetJobArtifactsRequest)
| ROpGetArtifactChunk (r : option GetArtifactChunkRequest)
| ROpAcknowledge (r : option AcknowledgeRequest)
| ROpGetWorkerStatus (r : option unit).

Record RemoteRequest := MkRemoteRequest {
  rq_protocol_version : Z; rq_request_id : string; rq_operation : option RemoteOperation; rq_unknown : list Part
}.

Record LogsResult := MkLogsResult { lr_job : option JobMessage; lr_records : list (option LogRecordMessage); lr_has_more : bool }.
Record CheckSnapshotResult := MkCheckSnapshotResult { cr_missing_chunk_digests : list string; cr_accepted_chunk_encodings : list Z }.
Record ArtifactsResult := MkArtifactsResult {
  ar_job : option JobMessage; ar_artifacts : option ManifestMessage; ar_collected_at_unix_nano : Z
}.
Record WorkerStatusResult := MkWorkerStatus {
  ws_platform : string; ws_arch : string; ws_logical_cpu_count : Z; ws_total_memory_bytes : Z;
  ws_tool_ids : list string; ws_supported_executors : list Z
}.

(** A response to a submission, a query or a cancellation holds a job. *)
Inductive RemoteResult :=
| RResSubmitJob (r : option (option JobMessage))
| RResGetJob (r : option (option JobMessage))
| RResListJobs (r : option (list (option JobMessage)))
| RResCancelJob (r : option (option JobMessage))
| RResReadJobLogs (r : option LogsResult)
| RResCheckSnapshot (r : option CheckSnapshotResult)
| RResPutChunk (r : option string)
| RResGetJobArtifacts (r : option ArtifactsResult)
| RResGetArtifactChunk (r : option ChunkTransfer)
| RResAcknowledge (r : option string)
| RResGetWorkerStatus (r : option WorkerStatusResult).

Record RemoteErrorMessage := MkRemoteError { re_code : Z; re_message : string }.
Record RemoteResponse := MkRemoteResponse {
  rs_protocol_version : Z; rs_request_id : string; rs_error : option RemoteErrorMessage;
  rs_result : option RemoteResult; rs_unknown : list Part
}.

Definition ProtocolVersion : Z := 6.
Definition CodeUnspecified : Z := 0.
Definition CodeInvalidArgument : Z := 1.
Definition CodeNotFound : Z := 2.
Definition CodeConflict : Z := 3.
Definition CodeJobTerminal : Z := 4.
Definition CodeInternal : Z := 5.
Definition CodeUnauthenticated : Z := 6.
Definition CodeUnsupportedVersion : Z := 7.

(** A response before the server stamps it. *)
Definition result_response (r : RemoteResult) : RemoteResponse := MkRemoteResponse 0 "" None (Some r) [].
Definition remoteFailure (code : Z) (message : string) : RemoteResponse :=
  MkRemoteResponse 0 "" (Some (MkRemoteError code message)) None [].

(** ** Unknown fields *)

Section Unknown.
Context (unknown : list Part).

Definition is_nil {A} (o : option A) : bool := match o with None => true | Some _ => false end.
Definition hasUnknown {A} (part : Part) (message : option A) : bool := is_nil message || bool_decide (part ∈ unknown).

Definition hasUnknownChunks (i : nat) (chunks : list (option ChunkMessage)) : bool :=
  existsb (λ jc, hasUnknown (PChunk i jc.1) jc.2) (zip (seq 0 (length chunks)) chunks).
Definition hasUnknownFiles (files : list (option FileMessage)) : bool :=
  existsb (λ kf, match kf.2 with
    | None => true
    | Some file => hasUnknown (PFile kf.1) kf.2 || hasUnknownChunks kf.1 (fm_chunks file)
    end) (zip (seq 0 (length files)) files).
Definition hasUnknownSnapshot (message : option ManifestMessage) : bool :=
  match message with
  | None => true
  | Some manifest => hasUnknown PSnapshot message || hasUnknownFiles (mm_files manifest)
  end.

Definition hasUnknownJob (i : nat) (message : option JobMessage) : bool :=
  match message with
  | None => true
  | Some j => hasUnknown (PJob i) message || hasUnknown (PJobSpec i) (jm_spec j)
      || negb (is_nil (jm_failure j)) && hasUnknown (PJobFailure i) (jm_failure j)
  end.
Definition hasUnknownJobs (jobs : list (option JobMessage)) : bool :=
  existsb (λ kj, hasUnknownJob kj.1 kj.2) (zip (seq 0 (length jobs)) jobs).
Definition hasUnknownRecords (records : list (option LogRecordMessage)) : bool :=
  existsb (λ kr, hasUnknown (PRecord kr.1) kr.2) (zip (seq 0 (length records)) records).

Definition unknown_operation (operation : option RemoteOperation) : bool :=
  match operation with
  | Some (ROpSubmitJob r) =>
      hasUnknown POperation r || match r with
      | None => true
      | Some submit => hasUnknown PSpec (sj_spec submit)
          || negb (is_nil (sj_snapshot submit)) && hasUnknownSnapshot (sj_snapshot submit)
      end
  | Some (ROpGetJob r) => hasUnknown POperation r
  | Some (ROpListJobs r) => hasUnknown POperation r
  | Some (ROpCancelJob r) => hasUnknown POperation r
  | Some (ROpReadJobLogs r) => hasUnknown POperation r
  | Some (ROpCheckSnapshot r) => hasUnknown POperation r
  | Some (ROpPutChunk r) => hasUnknown POperation r
  | Some (ROpGetJobArtifacts r) => hasUnknown POperation r
  | Some (ROpGetArtifactChunk r) => hasUnknown POperation r
  | Some (ROpAcknowledge r) => hasUnknown POperation r
  | Some (ROpGetWorkerStatus r) => hasUnknown POperation r
  | None => true
  end.

Definition unknown_result (error : option RemoteErrorMessage) (result : option RemoteResult) : bool :=
  match result with
  | Some (RResSubmitJob r) | Some (RResGetJob r) | Some (RResCancelJob r) =>
      hasUnknown POperation r || match r with None => true | Some j => hasUnknownJob 0 j end
  | Some (RResListJobs r) => hasUnknown POperation r || match r with None => true | Some jobs => hasUnknownJobs jobs end
  | Some (RResReadJobLogs r) =>
      hasUnknown POperation r || match r with
      | None => true
      | Some logs => hasUnknownJob 0 (lr_job logs) || hasUnknownRecords (lr_records logs)
      end
  | Some (RResCheckSnapshot r) => hasUnknown POperation r
  | Some (RResPutChunk r) => hasUnknown POperation r
  | Some (RResGetJobArtifacts r) =>
      hasUnknown POperation r || match r with
      | None => true
      | Some a => hasUnknownJob 0 (ar_job a) || hasUnknownSnapshot (ar_artifacts a)
      end
  | Some (RResGetArtifactChunk r) => hasUnknown POperation r
  | Some (RResAcknowledge r) => hasUnknown POperation r
  | Some (RResGetWorkerStatus r) => hasUnknown POperation r
  | None => is_nil error
  end.
End Unknown.

Definition hasUnknownRequestFields (message : RemoteRequest) : bool :=
  bool_decide (PEnvelope ∈ rq_unknown message) || unknown_operation (rq_unknown message) (rq_operation message).

Definition hasUnknownResponseFields (message : RemoteResponse) : bool :=
  bool_decide (PEnvelope ∈ rs_unknown message)
  || negb (is_nil (rs_error message))
     && (hasUnknown (rs_unknown message) PError (rs_error message) || negb (is_nil (rs_result message)))
  || unknown_result (rs_unknown message) (rs_error message) (rs_result message).

(** ** Timeouts *)

Definition defaultCallTimeout : Z := (15 * second)%Z.
Definition preflightCallTimeout : Z := minute.
Definition chunkCallTimeout : Z := (2 * minute)%Z.
Definition snapshotSubmitTimeout : Z := (6 * 60 * minute)%Z.

Definition operationTimeout (request : RemoteRequest) : Z :=
  match rq_operation request with
  | Some (ROpCheckSnapshot _) => preflightCallTimeout
  | Some (ROpPutChunk _) => chunkCallTimeout
  | Some (ROpGetArtifactChunk _) => chunkCallTimeout
  | Some (ROpSubmitJob (Some submit)) =>
      if is_nil (sj_snapshot submit) then defaultCallTimeout else snapshotSubmitTimeout
  | _ => defaultCallTimeout
  end.

(** ** One exchange *)

Section Exchange.
Context `{Codec RemoteRequest} `{Codec RemoteResponse}.
Abbreviation writeRemote := (writeMessage RemoteErrInvalidMessage RemoteErrFrameTooLarge).
Abbreviation readRemote := (readMessage RemoteErrInvalidMessage RemoteErrFrameTooLarge).

(** The random bytes may fail to come. *)
Definition newRequestID (random : result bytes) : result string :=
  value ← random; Ok (str_of (hex_encode value)).

Definition stamp_request (requestID : string) (request : RemoteRequest) : RemoteRequest :=
  MkRemoteRequest ProtocolVersion requestID (rq_operation request) (rq_unknown request).

Definition check_response (requestID : string) (response : RemoteResponse) : result RemoteResponse :=
  _ ← reject_if (negb (rs_protocol_version response =? ProtocolVersion)%Z
        || negb (bool_decide (rs_request_id response = requestID)) || hasUnknownResponseFields response)
        [RemoteErrMismatchedResponse];
  match rs_error response with
  | Some failure =>
      if (re_code failure =? CodeUnspecified)%Z || bool_decide (re_message failure = "") then Err [RemoteErrInvalidMessage]
      else Err [RemoteError (re_code failure) (re_message failure)]
  | None => if is_nil (rs_result response) then Err [RemoteErrInvalidMessage] else Ok response
  end.

(** What the other side makes of the bytes sent: the reader of its answer, and its
    state.  [ctxErr] is [callContext.Err()] after a failed write or read. *)
Definition Call {S} (random : result bytes) (ctxErr : option (list sentinel)) (out : nat → Write_)
    (peer : bytes → S → Reader * S) (request : RemoteRequest) (s : S) : result RemoteResponse * S :=
  if is_nil (rq_operation request) then (Err [RemoteErrInvalidMessage], s)
  else match newRequestID random with
  | Err e => (Err e, s)
  | Ok requestID =>
      let '(sent, written) := writeRemote out (stamp_request requestID request) in
      let '(reader, s) := peer sent s in
      match written with
      | Err e => (Err (default e ctxErr), s)
      | Ok _ =>
          match readRemote reader with
          | (Err e, _) => (Err (default e ctxErr), s)
          | (Ok response, _) => (check_response requestID response, s)
          end
      end
  end.

(** The handler returns a response, perhaps nil, or panics. *)
Inductive Handled := Panicked | Returned (response : option RemoteResponse).

Definition internal_error : RemoteResponse := remoteFailure CodeInternal "internal worker error".

Definition safelyHandle {S} (handler : RemoteRequest → S → Handled * S) (request : RemoteRequest) (s : S) :
    option RemoteResponse * S :=
  match handler request s with
  | (Panicked, s) => (Some internal_error, s)
  | (Returned response, s) => (response, s)
  end.

Definition stamp_response (requestID : string) (response : RemoteResponse) : RemoteResponse :=
  MkRemoteResponse ProtocolVersion requestID (rs_error response) (rs_result response) (rs_unknown response).

Definition version_error : string := "unsupported remote protocol version".

(** The response to a decoded request. *)
Definition respond {S} (handler : RemoteRequest → S → Handled * S) (request : RemoteRequest) (s : S) :
    RemoteResponse * S :=
  let '(response, s) :=
    if negb (rq_protocol_version request =? ProtocolVersion)%Z
    then (remoteFailure CodeUnsupportedVersion version_error, s)
    else if bool_decide (rq_request_id request = "") then (remoteFailure CodeInvalidArgument "request ID is required", s)
    else if is_nil (rq_operation request) || hasUnknownRequestFields request
    then (remoteFailure CodeInvalidArgument "request operation is invalid", s)
    else let '(response, s) := safelyHandle handler request s in (default internal_error response, s) in
  (stamp_response (rq_request_id request) response, s).

(** The bytes the server sends back, none when the request cannot be read. *)
Definition Serve {S} (handler : RemoteRequest → S → Handled * S) (out : nat → Write_) (stream : Reader) (s : S) : bytes * S :=
  match readRemote stream with
  | (Err _, _) => ([], s)
  | (Ok request, _) => let '(response, s) := respond handler request s in ((writeRemote out response).1, s)
  end.

End Exchange.

(** ** Correctness of an exchange *)

Section Theorems.
Context `{Codec RemoteRequest} `{Codec RemoteResponse}.

Definition acceptable (request : RemoteRequest) : Prop :=
  rq_protocol_version request = ProtocolVersion ∧ rq_request_id request ≠ "" ∧
  hasUnknownRequestFields request = false.

(** The worker at the other end of a connection, whatever the pieces it reads and
    its answer comes in. *)
Definition worker_at {S} (handler : RemoteRequest → S → Handled * S) (out : nat → Write_) (c c' : list sentinel)
    (ps ps' : nat → nat) (sent : bytes) (s : S) : Reader * S :=
  let '(reply, s) := Serve handler out (MkReader sent c ps 0) s in (MkReader reply c' ps' 0, s).

Lemma has_operation request : hasUnknownRequestFields request = false → is_nil (rq_operation request) = false.
Proof. unfold hasUnknownRequestFields. destruct (rq_operation request); [done|]. by rewrite orb_true_r. Qed.

Lemma respond_handles {S} (handler : RemoteRequest → S → Handled * S) request s : acceptable request →
  respond handler request s =
  (let '(response, s) := safelyHandle handler request s in (stamp_response (rq_request_id request) (default internal_error response), s)).
Proof.
  intros (Hv & Hid & Hu). unfold respond. rewrite Hv, bool_decide_eq_false_2, Hu, (has_operation _ Hu) by done. simpl.
  by destruct (safelyHandle handler request s).
Qed.

(** One exchange between the two sides of the protocol over a connection that
    delivers: the worker handles the request exactly once, and the caller gets its
    answer, a result as it was returned or the error as a structured error, however
    the bytes are cut up on the way; a panic or a nil answer is an internal error. *)
Theorem exchange_exact {S} (handler : RemoteRequest → S → Handled * S) random id request ctxErr out out' c c' ps ps' s response s' :
  newRequestID random = Ok id → acceptable (stamp_request id request) → portable (stamp_request id request) →
  safelyHandle handler (stamp_request id request) s = (response, s') →
  portable (stamp_response id (default internal_error response)) → willing out → willing out' →
  Call random ctxErr out (worker_at handler out' c c' ps ps') request s
    = (check_response id (stamp_response id (default internal_error response)), s').
Proof.
  intros Hid Hacc Hreq Hhandle Hres Hout Hout'. unfold Call.
  pose proof (has_operation _ (proj2 (proj2 Hacc))) as Hop. cbn [rq_operation stamp_request] in Hop. rewrite Hop, Hid.
  destruct (portable_read RemoteErrInvalidMessage RemoteErrFrameTooLarge _ out c ps 0 Hreq Hout) as (sent & r & -> & Hread).
  unfold worker_at, Serve. rewrite Hread, (respond_handles handler _ s Hacc), Hhandle. cbn [rq_request_id stamp_request].
  destruct (portable_read RemoteErrInvalidMessage RemoteErrFrameTooLarge _ out' c' ps' 0 Hres Hout') as (sent' & r' & -> & Hread'). cbn [fst]. by rewrite Hread'.
Qed.

(** What the caller makes of an answer: results come through, errors keep their
    code and message. *)
Lemma check_result id r : unknown_result [] None (Some r) = false →
  check_response id (stamp_response id (result_response r)) = Ok (stamp_response id (result_response r)).
Proof.
  intros Hu. unfold check_response. cbn. unfold hasUnknownResponseFields. cbn -[unknown_result].
  rewrite (bool_decide_eq_true_2 (id = id)), bool_decide_eq_false_2, Hu by (done || apply not_elem_of_nil). done.
Qed.

Lemma check_failure id code message : code ≠ CodeUnspecified → message ≠ "" →
  check_response id (stamp_response id (remoteFailure code message)) = Err [RemoteError code message].
Proof.
  intros Hc Hm. unfold check_response, hasUnknownResponseFields, hasUnknown. cbn.
  rewrite (bool_decide_eq_true_2 (id = id)), !bool_decide_eq_false_2 by (done || apply not_elem_of_nil). cbn.
  by rewrite (proj2 (Z.eqb_neq _ _)).
Qed.

(** Requests that cannot be read, have another version, no identifier, no
    operation or unknown fields never reach the handler and change nothing; every
    answer carries the version and the identifier of its request, and a refused
    request is told why by an error code. *)
Theorem serve_guarded {S} (handler : RemoteRequest → S → Handled * S) out stream s sent s' :
  Serve handler out stream s = (sent, s') →
  match readMessage RemoteErrInvalidMessage RemoteErrFrameTooLarge stream with
  | (Err _, _) => sent = [] ∧ s' = s
  | (Ok request, _) => ∃ response,
      sent = (writeMessage RemoteErrInvalidMessage RemoteErrFrameTooLarge out response).1 ∧
      rs_protocol_version response = ProtocolVersion ∧ rs_request_id response = rq_request_id request ∧
      (acceptable request ∧ (rs_error response, rs_result response, s') = (let '(r, s1) := safelyHandle handler request s in
         (rs_error (default internal_error r), rs_result (default internal_error r), s1))
       ∨ ¬ acceptable request ∧ s' = s ∧ rs_result response = None ∧ ∃ message,
         rs_error response = Some (MkRemoteError (if (rq_protocol_version request =? ProtocolVersion)%Z
           then CodeInvalidArgument else CodeUnsupportedVersion) message))
  end.
Proof.
  unfold Serve. destruct (readMessage _ _ stream) as [[request|e] r]; [|by intros [= <- <-]].
  assert (acceptable request ∨ ¬ acceptable request) as [Hacc|Hacc] by (unfold acceptable; destruct (decide (rq_protocol_version request
    = ProtocolVersion)), (decide (rq_request_id request = "")), (hasUnknownRequestFields request); naive_solver).
  - rewrite (respond_handles handler _ s Hacc). destruct (safelyHandle handler request s) as [response s1]. intros [= <- <-].
    eexists. split_and!; [done..|]. left. split; [done|]. done.
  - unfold respond. unfold acceptable in Hacc. destruct (Z.eqb_spec (rq_protocol_version request) ProtocolVersion) as [Hv|Hv]; cbn [negb].
    2: { intros [= <- <-]. eexists. split_and!; [done..|]. right. eauto. }
    case_bool_decide as Hid.
    { intros [= <- <-]. eexists. split_and!; [done..|]. right. eauto. }
    destruct (is_nil (rq_operation request) || hasUnknownRequestFields request) eqn:Hu.
    { intros [= <- <-]. eexists. split_and!; [done..|]. right. eauto. }
    apply orb_false_iff in Hu as [_ Hu]. exfalso. eauto.
Qed.

End Theorems.

(** ** Witnesses *)

(** A decoder for one message. *)
Definition fixed_codec {Msg} (message : Msg) : Codec Msg :=
  {| marshal _ := Ok (bytes_of "m"); unmarshal _ := Ok message |}.
Definition counting (request : RemoteRequest) (n : nat) : Handled * nat :=
  (Returned (Some (result_response (RResAcknowledge (Some "done")))), S n).
Definition sample_request (version : Z) : RemoteRequest :=
  MkRemoteRequest version "00" (Some (ROpAcknowledge (Some (MkAcknowledge sample_id)))) [].
Definition sample_response : RemoteResponse := stamp_response "00" (result_response (RResAcknowledge (Some "done"))).

Lemma exchange_exact_witness :
  Call (H := fixed_codec (sample_request 6)) (H0 := fixed_codec sample_response) (Ok [Ascii.zero]) None trickle
    (worker_at (H := fixed_codec (sample_request 6)) (H0 := fixed_codec sample_response) counting trickle [IoEOF] [IoEOF] id S)
    (sample_request 0) 7 = (Ok sample_response, 8).
Proof.
  assert (Hw : willing trickle) by (intros k; exists (k mod 3); reflexivity).
  assert (Hp : ∀ (A : Type) (m : A), portable (H := fixed_codec m) m).
  { intros A m. exists (bytes_of "m"). split; [|reflexivity]. split; [reflexivity|]. split; [discriminate|]. vm_compute. discriminate. }
  refine (exchange_exact (H := fixed_codec (sample_request 6)) (H0 := fixed_codec sample_response) counting (Ok [Ascii.zero]) "00"
    (sample_request 0) None trickle trickle [IoEOF] [IoEOF] id S 7 _ 8 eq_refl _ (Hp _ _) eq_refl (Hp _ _) Hw Hw).
  split; [reflexivity|]. split; [discriminate|reflexivity].
Defined.

Lemma serve_guarded_witness :
  ∃ sent, Serve (H := fixed_codec (sample_request 5)) (H0 := fixed_codec sample_response) counting trickle
    (MkReader (frame (bytes_of "m")) [IoEOF] id 0) 7 = (sent, 7) ∧ ¬ acceptable (sample_request 5).
Proof.
  pose proof (serve_guarded (H := fixed_codec (sample_request 5)) (H0 := fixed_codec sample_response) counting trickle
    (MkReader (frame (bytes_of "m")) [IoEOF] id 0) 7 _ _ eq_refl) as Hs. cbn in Hs.
  destruct Hs as (response & Hsent & _ & _ & [[[Hv _] _]|(Hno & Hs & _)]); [discriminate|].
  eexists. split; [reflexivity|exact Hno].
Defined.
