(* ===== verification/Endpoint.v ===== *)
(** * The device endpoint (internal/infra/transport/quic: pairing.go, control.go, path.go)

    The pairing handshake and the checks that tie a connection to a device identity.
    TLS is a parameter: a connection is what [ConnectionState] reports ([Tls]) and its
    exporter; [parse] is [x509.ParseCertificate] with the outcome of the signature
    check.  A stream is a writer and a reader of [Frames]. *)

From S2P Require Import Prelude GoText Effects Sql Base32 Device Trust TrustStore Pairing Frames Remote.
From Stdlib Require Import Ascii.
Local Open Scope string_scope.
Local Open Scope nat_scope.
Local Open Scope list_scope.

(** ** Constants *)

Definition pairingALPN : string := "computehop-pairing/1".
Definition controlALPN : string := "computehop-control/1".
Definition pairingProtocolVersion : Z := 1.
Definition pairingNonceBytes : nat := 32.
Definition maximumPairingFrame : Z := Z.shiftl 64 10.
Definition maximumEndpointClients : nat := 64.
Definition maximumControlStreams : nat := 16.
Definition pairingHandshakeLimit : Z := (10 * second)%Z.
Definition pairingIdleLimit : Z := (6 * minute)%Z.
Definition controlConnectionIdleLimit : Z := (45 * second)%Z.
Definition pairingExporterLabel : string := "EXPORTER-ComputeHop-Pairing-v1".
Definition VersionTLS13 : Z := 0x0304.

Record QuicConfig := MkQuicConfig {
  qc_HandshakeIdleTimeout : Z; qc_MaxIdleTimeout : Z; qc_KeepAlivePeriod : Z; qc_MaxIncomingStreams : Z; qc_MaxIncomingUniStreams : Z; qc_Allow0RTT : bool
}.
Definition quicConfig : QuicConfig := MkQuicConfig pairingHandshakeLimit pairingIdleLimit (15 * second) 64 (-1) false.
Definition controlQUICConfig : QuicConfig :=
  MkQuicConfig (qc_HandshakeIdleTimeout quicConfig) controlConnectionIdleLimit (qc_KeepAlivePeriod quicConfig) (Z.of_nat maximumControlStreams)
    (qc_MaxIncomingUniStreams quicConfig) (qc_Allow0RTT quicConfig).

(** ** Frames (pairing.proto) *)

Record PairingHello := MkHello {
  he_nonce : bytes; he_device_name : string; he_role : string; he_presence_id : string; he_expected_presence_id : string
}.
Record DecisionMessage := MkDecisionMessage { de_pairing_id : string; de_confirmed : bool; de_committed : bool }.
Inductive PairingPayload :=
| PayloadHello (m : option PairingHello)
| PayloadDecision (m : option DecisionMessage)
| PayloadError (m : option string).
(** The parts that had unknown fields. *)
Record PairingFrame := MkPairingFrame {
  pf_protocol_version : Z; pf_payload : option PairingPayload; pf_unknown : bool; pf_payload_unknown : bool
}.
Definition GetHello (f : PairingFrame) : option PairingHello := match pf_payload f with Some (PayloadHello m) => m | _ => None end.
Definition GetDecision (f : PairingFrame) : option DecisionMessage := match pf_payload f with Some (PayloadDecision m) => m | _ => None end.

Definition hasUnknownPairingFields (message : PairingFrame) : bool :=
  pf_unknown message || match pf_payload message with
  | Some (PayloadHello m) => is_nil m || pf_payload_unknown message
  | Some (PayloadDecision m) => is_nil m || pf_payload_unknown message
  | Some (PayloadError m) => is_nil m || pf_payload_unknown message
  | None => true
  end.

Section Frames.
Context `{Codec PairingFrame}.
Abbreviation protocol := [SessionErrProtocol].

Definition writeFrame (out : nat → Write_) (k : nat) (message : PairingFrame) : bytes * result unit * nat :=
  if negb (pf_protocol_version message =? pairingProtocolVersion)%Z || is_nil (pf_payload message) then ([], Err protocol, k)
  else match marshal message with
  | Err e => ([], Err e, k)
  | Ok payload =>
      if bool_decide (payload = []) || (maximumPairingFrame <? Z.of_nat (length payload))%Z then ([], Err protocol, k)
      else
        let '(sent, r, k) := writeAll out k (big_endian 4 (Z.of_nat (length payload))) in
        match r with
        | Err e => (sent, Err e, k)
        | Ok _ => let '(more, r, k) := writeAll out k payload in (sent ++ more, r, k)
        end
  end.

Definition readFrame (r : Reader) : result PairingFrame * Reader :=
  let '(lengthBytes, r) := ReadFull 4 r in
  match lengthBytes with
  | Err e => (Err e, r)
  | Ok lengthBytes =>
      let length := from_big_endian lengthBytes in
      if (length =? 0)%Z || (maximumPairingFrame <? length)%Z then (Err protocol, r)
      else
        let '(payload, r) := ReadFull (Z.to_nat length) r in
        match payload with
        | Err e => (Err e, r)
        | Ok payload =>
            (match unmarshal payload with
             | Err _ => Err protocol
             | Ok message =>
                 if negb (pf_protocol_version message =? pairingProtocolVersion)%Z || is_nil (pf_payload message) || hasUnknownPairingFields message
                 then Err protocol else Ok message
             end, r)
        end
  end.
End Frames.

(** ** Certificates *)

(** [crt_key] is the key when it is an Ed25519 key; [crt_signed] says that the
    certificate's signature checks with its own key. *)
Record Certificate := MkCertificate {
  crt_key : option bytes; crt_pure_ed25519 : bool; crt_digital_signature : bool; crt_NotBefore : Z; crt_NotAfter : Z; crt_signed : bool
}.
Record Tls := MkTls { tls_Version : Z; tls_NegotiatedProtocol : string; tls_PeerCertificates : list Certificate }.

Section Identities.
Context `{UnicodeCase} (sha256 : bytes → bytes).
Context (parse : bytes → option Certificate) (now_ : Z).
Abbreviation invalid := [SessionErrInvalidPeer].

Definition verifySelfSignedIdentity (rawCertificates : list bytes) : result unit :=
  match rawCertificates with
  | [raw] =>
      _ ← reject_if (maximumPairingFrame <? Z.of_nat (length raw))%Z invalid;
      match parse raw with
      | None => Err invalid
      | Some certificate =>
          match crt_key certificate with
          | None => Err invalid
          | Some publicKey =>
              _ ← reject_if (negb (bool_decide (length publicKey = PublicKeySize)) || negb (crt_pure_ed25519 certificate)
                    || negb (crt_digital_signature certificate) || after (crt_NotBefore certificate) now_
                    || before (crt_NotAfter certificate) now_ || negb (crt_signed certificate)) invalid;
              _ ← IDFromPublicKey sha256 publicKey;
              Ok tt
          end
      end
  | _ => Err invalid
  end.

(** [VerifyPeerCertificate] of [controlClientTLSConfig]. *)
Definition verifyPinned (peer : Peer) (rawCertificates : list bytes) : result unit :=
  _ ← verifySelfSignedIdentity rawCertificates;
  match parse (default [] (head rawCertificates)) with
  | None => Err invalid
  | Some certificate =>
      match crt_key certificate with
      | None => Err invalid
      | Some publicKey =>
          _ ← reject_if (negb (bool_decide (publicKey = PublicKey peer))) invalid;
          match IDFromPublicKey sha256 publicKey with
          | Err _ => Err invalid
          | Ok id => reject_if (negb (bool_decide (id = DeviceID peer))) invalid
          end
      end
  end.

Definition peerFromTLS (state : Tls) (expectedProtocol : string) : result (string * bytes) :=
  _ ← reject_if (negb (tls_Version state =? VersionTLS13)%Z || negb (bool_decide (tls_NegotiatedProtocol state = expectedProtocol))
        || negb (bool_decide (length (tls_PeerCertificates state) = 1))) invalid;
  match head (tls_PeerCertificates state) ≫= crt_key with
  | None => Err invalid
  | Some publicKey => id ← IDFromPublicKey sha256 publicKey; Ok (id, publicKey)
  end.

(** ** The handshake *)

Definition helloFrame (local : LocalDevice) (nonce : bytes) (expected : string) : PairingFrame :=
  MkPairingFrame pairingProtocolVersion
    (Some (PayloadHello (Some (MkHello nonce (local_Name local) (local_Role local) (local_PresenceID local) expected)))) false false.

(** The name, role and presence of the peer, and its nonce. *)
Definition parseHello (hello : PairingHello) (expectedRole expectedPresence : string) : result (string * string * string * bytes) :=
  _ ← reject_if (negb (bool_decide (length (he_nonce hello) = pairingNonceBytes)) || failed (ValidateName (he_device_name hello))
        || negb (bool_decide (he_role hello = expectedRole))) [SessionErrProtocol];
  match ParsePresenceID (he_presence_id hello) with
  | Err _ => Err [SessionErrProtocol]
  | Ok presence =>
      _ ← reject_if (negb (bool_decide (expectedPresence = "")) && negb (bool_decide (presence = expectedPresence))) [SessionErrProtocol];
      Ok (he_device_name hello, expectedRole, presence, he_nonce hello)
  end.

(** [exporter label context n] is [ExportKeyingMaterial]. *)
Definition Exporter : Type := string → bytes → nat → result bytes.
Definition exportBinding (exporter : Exporter) (clientNonce serverNonce : bytes) : result bytes :=
  exporter pairingExporterLabel (clientNonce ++ serverNonce) PairingBindingBytes.

(** The peer that a hello and a certificate make. *)
Definition authenticated (tls : Tls) (hello : string * string * string * bytes) : result SessionPeer :=
  certificatePeer ← peerFromTLS tls pairingALPN;
  let '(name, role, presence, _) := hello in
  let peer := MkSessionPeer certificatePeer.1 certificatePeer.2 name role presence in
  _ ← SessionPeer_Validate sha256 peer;
  Ok peer.

Context `{Codec PairingFrame}.

(** [opened] is the outcome of [OpenStreamSync], [nonce] of [randomNonce], [number]
    names the connection, and [server] is what the other side makes of the bytes. *)
Definition dialPairingOne {S} (local : LocalDevice) (number : nat) (tls : Tls) (exporter : Exporter) (opened : result unit) (nonce : result bytes)
    (out : nat → Write_) (server : bytes → S → Reader * S) (expectedPresence : string) (s : S) : result Channel * S :=
  match opened, nonce with
  | Err e, _ => (Err e, s)
  | Ok _, Err e => (Err e, s)
  | Ok _, Ok clientNonce =>
      let '(sent, written, _) := writeFrame out 0 (helloFrame local clientNonce expectedPresence) in
      let '(reader, s) := server sent s in
      (_ ← written;
       response ← (readFrame reader).1;
       match GetHello response with
       | None => Err [SessionErrProtocol]
       | Some hello =>
           _ ← reject_if (negb (bool_decide (he_expected_presence_id hello = ""))) [SessionErrProtocol];
           parsed ← parseHello hello RoleWorker expectedPresence;
           peer ← authenticated tls parsed;
           binding ← exportBinding exporter clientNonce parsed.2;
           Ok (MkChannel number peer binding)
       end, s)
  end.

(** The bytes sent, and the outcome. *)
Definition acceptPairing (local : LocalDevice) (number : nat) (tls : Tls) (exporter : Exporter) (stream : result Reader) (nonce : result bytes)
    (out : nat → Write_) : bytes * result Channel :=
  match (stream ← stream;
         request ← (readFrame stream).1;
         match GetHello request with
         | None => Err [SessionErrProtocol]
         | Some hello =>
             _ ← reject_if (negb (bool_decide (he_expected_presence_id hello = local_PresenceID local))
                   || negb (bool_decide (local_Role local = RoleWorker))) [SessionErrProtocol];
             parsed ← parseHello hello RoleOrchestrator "";
             peer ← authenticated tls parsed;
             serverNonce ← nonce;
             Ok (parsed, peer, serverNonce)
         end) with
  | Err e => ([], Err e)
  | Ok (parsed, peer, serverNonce) =>
      let '(sent, written, _) := writeFrame out 0 (helloFrame local serverNonce "") in
      (sent, _ ← written; binding ← exportBinding exporter parsed.2 serverNonce; Ok (MkChannel number peer binding))
  end.

(** [DialPairing]: the addresses of the observation in order.  [dial address] is
    [dialPairingOne] at the address and port. *)
Fixpoint dial_addresses {S A} (dial : Addr → S → result A * S) (addresses : list Addr) (failures : list sentinel) (tried : bool) (s : S) :
    result A * S :=
  match addresses with
  | [] => (Err (if tried then failures else [SessionErrInvalidEndpoint]), s)
  | address :: rest =>
      if negb (Addr_IsValid address) then dial_addresses dial rest failures tried s
      else match dial address s with
      | (Ok channel, s) => (Ok channel, s)
      | (Err e, s) => dial_addresses dial rest (failures ++ e) true s
      end
  end.

Definition DialPairing {S} (dial : Addr → S → result Channel * S) (target : NearbyDevice) (s : S) : result Channel * S :=
  if failed (Observation_Validate (nd_Observation target)) || negb (an_EndpointReady (nd_Announcement target))
     || negb (bool_decide (an_Role (nd_Announcement target) = RoleWorker))
  then (Err [SessionErrInvalidEndpoint], s)
  else dial_addresses dial (ob_Addresses (nd_Observation target)) [] false s.

(** ** Decisions *)

Definition decisionFrame (decision : PairingDecision) : PairingFrame :=
  MkPairingFrame pairingProtocolVersion
    (Some (PayloadDecision (Some (MkDecisionMessage (pd_PairingID decision) (pd_Confirmed decision) (pd_Committed decision))))) false false.

Definition channel_SendDecision (out : nat → Write_) (k : nat) (decision : PairingDecision) : bytes * result unit * nat :=
  if negb (PairID_Valid (pd_PairingID decision)) then ([], Err [TrustErrInvalidPairID], k)
  else writeFrame out k (decisionFrame decision).

Definition ReceiveDecision (r : Reader) : result PairingDecision * Reader :=
  let '(frame, r) := readFrame r in
  (frame ← frame;
   match GetDecision frame with
   | None => Err [SessionErrProtocol]
   | Some decision =>
       id ← ParsePairID (de_pairing_id decision);
       _ ← reject_if (de_committed decision && negb (de_confirmed decision)) [SessionErrProtocol];
       Ok (MkDecision id (de_confirmed decision) (de_committed decision))
   end, r).

(** ** Control connections (control.go) *)

Definition dialable (peer : Peer) : bool :=
  negb (failed (Peer_Validate sha256 peer)) && bool_decide (PeerState peer = TrustActive) && bool_decide (PeerRoleOf peer = RoleWorker).

(** [dialRemoteOne]: [dial verify] is [quicgo.DialAddr] with [verify] as the callback of
    its TLS configuration. *)
Definition dialRemoteOne {S C} (peer : Peer) (dial : (list bytes → result unit) → S → result C * S) (s : S) : result C * S :=
  dial (verifyPinned peer) s.

Definition Endpoint_DialRemote {S C} (local : LocalDevice) (dial : Addr → (list bytes → result unit) → S → result C * S) (target : NearbyDevice)
    (peer : Peer) (s : S) : result C * S :=
  if negb (bool_decide (local_Role local = RoleOrchestrator)) || failed (Observation_Validate (nd_Observation target))
     || negb (an_EndpointReady (nd_Announcement target)) || negb (bool_decide (an_Role (nd_Announcement target) = RoleWorker))
     || negb (dialable peer)
  then (Err [SessionErrInvalidEndpoint], s)
  else dial_addresses (λ address, dialRemoteOne peer (dial address)) (ob_Addresses (nd_Observation target)) [] false s.

(** [RemotePath.Dial]: the same connection over a selected path. *)
Definition Path_Dial {S C} (local : LocalDevice) (dial : (list bytes → result unit) → S → result C * S) (peer : Peer) (s : S) : result C * S :=
  if negb (bool_decide (local_Role local = RoleOrchestrator)) || negb (dialable peer)
  then (Err [SessionErrInvalidEndpoint], s)
  else dial (verifyPinned peer) s.

(** [pin] is what [trust.Get] returns for the identity. *)
Definition activeOrchestrator (identity : string * bytes) (pin : result Peer) : bool :=
  if bool_decide (identity.1 = "") || negb (bool_decide (length identity.2 = PublicKeySize)) then false
  else match pin with
  | Err _ => false
  | Ok peer => bool_decide (PeerState peer = TrustActive) && bool_decide (PeerRoleOf peer = RoleOrchestrator)
      && bool_decide (PublicKey peer = identity.2)
  end.

(** What happens on a control connection: a stream arrives while the trust store holds
    [d] ([faulty]: the store cannot be read; [stopping]: [select] took [ctx.Done]), a
    stream has been served, or no more streams come. *)
Inductive ControlEvent :=
| StreamArrives (stream : nat) (d : PeerDB) (faulty stopping : bool)
| StreamServed
| StreamsEnd.

Inductive Closed := ClosedNormal | ClosedUnavailable | ClosedUnauthenticated | ClosedRevoked.

Definition pin_of (identity : string * bytes) (d : PeerDB) (faulty : bool) : result Peer :=
  if faulty then Err [DriverError] else match Trust_Get sha256 identity.1 d with Ok (peer, _) => Ok peer | Err e => Err e end.

(** The loop of [serveRemoteConnection]: the streams handed to [remoteprotocol.Serve],
    in order, and how the connection was closed, if it was. *)
Fixpoint serve_streams (identity : string * bytes) (events : list ControlEvent) (slots : nat) : list nat * option Closed :=
  match events with
  | [] => ([], None)
  | StreamsEnd :: _ => ([], Some ClosedNormal)
  | StreamServed :: rest => serve_streams identity rest (slots - 1)
  | StreamArrives stream d faulty stopping :: rest =>
      if negb (activeOrchestrator identity (pin_of identity d faulty)) then ([], Some ClosedRevoked)
      else if stopping then ([], Some ClosedNormal)
      else if slots <? maximumControlStreams then
        let '(served, closed) := serve_streams identity rest (S slots) in (stream :: served, closed)
      else serve_streams identity rest slots
  end.

(** [d] and [faulty] are the trust store when the connection is accepted. *)
Definition serveRemoteConnection (local : LocalDevice) (tls : Tls) (d : PeerDB) (faulty : bool) (events : list ControlEvent) : list nat * option Closed :=
  if negb (bool_decide (local_Role local = RoleWorker)) then ([], Some ClosedUnavailable)
  else match peerFromTLS tls controlALPN with
  | Err _ => ([], Some ClosedUnauthenticated)
  | Ok identity =>
      if negb (activeOrchestrator identity (pin_of identity d faulty)) then ([], Some ClosedUnauthenticated)
      else serve_streams identity events 0
  end.

End Identities.

(** ** The accept loops *)

(** A connection arrives ([stopping]: [select] took [ctx.Done]), one has been handled,
    or [Accept] fails, with the context or the endpoint closed or not. *)
Inductive AcceptEvent := ConnectionArrives (number : nat) (protocol : string) (stopping : bool) | ConnectionDone | AcceptFails (closed : bool) (e : list sentinel).
Inductive Admission := StartPairing | StartControl | RefuseStopping | RefuseBusy | RefuseProtocol.
Definition started (a : Admission) : bool := match a with StartPairing | StartControl | RefuseProtocol => true | _ => false end.

(** What becomes of each connection, in order, and how the loop returns, if it does;
    [serves] says what a goroutine does with the protocol of its connection.  A
    goroutine that refuses the protocol has taken a slot as well. *)
Fixpoint accept_loop (serves : string → Admission) (events : list AcceptEvent) (slots : nat) : list (nat * Admission) * option (result unit) :=
  match events with
  | [] => ([], None)
  | AcceptFails closed e :: _ => ([], Some (if closed then Ok tt else Err e))
  | ConnectionDone :: rest => accept_loop serves rest (slots - 1)
  | ConnectionArrives number protocol stopping :: rest =>
      let '(admission, slots) := if stopping then (RefuseStopping, slots)
        else if slots <? maximumEndpointClients then (serves protocol, S slots) else (RefuseBusy, slots) in
      let '(others, r) := accept_loop serves rest slots in ((number, admission) :: others, r)
  end.

Definition Endpoint_Run (events : list AcceptEvent) : list (nat * Admission) * option (result unit) :=
  accept_loop (λ protocol, if bool_decide (protocol = pairingALPN) then StartPairing
    else if bool_decide (protocol = controlALPN) then StartControl else RefuseProtocol) events 0.

(** [RemotePath.Serve]; [listened] is the outcome of [transport.Listen]. *)
Definition Path_Serve (local : LocalDevice) (listened : result unit) (events : list AcceptEvent) : list (nat * Admission) * option (result unit) :=
  if negb (bool_decide (local_Role local = RoleWorker)) then ([], Some (Err [SessionErrInvalidEndpoint]))
  else match listened with
  | Err e => ([], Some (Err e))
  | Ok _ => accept_loop (λ _, StartControl) events 0
  end.

(** ** Lemmas *)

Section Exchange.
Context `{Codec PairingFrame}.

(** A frame that the other end reads as it was sent. *)
Definition portable_frame (message : PairingFrame) : Prop :=
  pf_protocol_version message = pairingProtocolVersion ∧ hasUnknownPairingFields message = false ∧
  ∃ payload, marshal message = Ok payload ∧ payload ≠ [] ∧ (Z.of_nat (length payload) ≤ maximumPairingFrame)%Z ∧ unmarshal payload = Ok message.

Lemma known_payload message : hasUnknownPairingFields message = false → is_nil (pf_payload message) = false.
Proof. unfold hasUnknownPairingFields. destruct (pf_payload message); [done|]. by rewrite orb_true_r. Qed.

Lemma pairing_frame_roundtrip out i message rest c ps k : portable_frame message → willing out →
  ∃ sent j k', writeFrame out i message = (sent, Ok tt, j) ∧ readFrame (MkReader (sent ++ rest) c ps k) = (Ok message, MkReader rest c ps k').
Proof.
  intros (Hv & Hu & payload & Hm & Hne & Hlen & Hback) Hout. pose proof (known_payload _ Hu) as Hp.
  destruct (writeAll_willing out i (big_endian 4 (Z.of_nat (length payload))) Hout) as [j1 E1].
  destruct (writeAll_willing out j1 payload Hout) as [j2 E2].
  destruct (ReadFull_app (big_endian 4 (Z.of_nat (length payload))) (payload ++ rest) c ps k) as [k1 R1].
  rewrite length_big_endian in R1. destruct (ReadFull_app payload rest c ps k1) as [k2 R2].
  exists (big_endian 4 (Z.of_nat (length payload)) ++ payload), j2, k2. unfold writeFrame, readFrame.
  rewrite Hv, Hp, Hm, bool_decide_eq_false_2, (proj2 (Z.ltb_ge _ _)), E1, E2 by done. split; [done|].
  rewrite <-app_assoc, R1. change maximumPairingFrame with 65536%Z in *.
  rewrite from_big_endian_encode by (simpl; lia). rewrite (proj2 (Z.eqb_neq _ _)), (proj2 (Z.ltb_ge _ _)); [|lia|destruct payload; simpl; [done|lia]].
  cbn [orb]. by rewrite Nat2Z.id, R2, Hback, Hv, Hp, Hu.
Qed.
End Exchange.

Section Authentication.
Context `{UnicodeCase} (sha256 : bytes → bytes).
Context (parse : bytes → option Certificate) (now_ : Z).

(** What a device is to the device it pairs with. *)
Definition session_peer (local : LocalDevice) : SessionPeer :=
  MkSessionPeer (identity_id (local_Identity local)) (identity_publicKey (local_Identity local)) (local_Name local) (local_Role local)
    (local_PresenceID local).

Lemma local_device_fields local : LocalDevice_Validate sha256 local = Ok tt →
  IDFromPublicKey sha256 (identity_publicKey (local_Identity local)) = Ok (identity_id (local_Identity local)) ∧
  failed (ValidateName (local_Name local)) = false ∧ known_role (local_Role local) = true ∧ ParsePresenceID (local_PresenceID local) = Ok (local_PresenceID local).
Proof.
  unfold LocalDevice_Validate. intros Hv%reject_if_ok. apply orb_false_iff in Hv as [Hv Hp]. apply orb_false_iff in Hv as [Hv Hr].
  apply orb_false_iff in Hv as [Hi Hn]. apply negb_false_iff in Hr, Hp. split_and!; [|done|done|].
  - destruct (Identity_Validate sha256 (local_Identity local)) eqn:Ei; [|done]. unfold Identity_Validate in Ei.
    apply result_bind_ok in Ei as (i & Hnew & Hsame%reject_if_ok). reflect_bools. unfold NewIdentity in Hnew.
    apply result_bind_ok in Hnew as (? & _ & Hnew). apply result_bind_ok in Hnew as (? & _ & Hnew).
    apply result_bind_ok in Hnew as (id & Hid & [= <-]). simpl in *. congruence.
  - unfold PresenceID_Valid, ParsePresenceID in *. by destruct canonical_base32.
Qed.

Lemma session_peer_valid local : LocalDevice_Validate sha256 local = Ok tt → SessionPeer_Validate sha256 (session_peer local) = Ok tt.
Proof.
  intros (Hid & Hn & Hr & Hp)%local_device_fields. unfold SessionPeer_Validate, session_peer, pins_key, PresenceID_Valid. simpl.
  by rewrite Hid, Hn, Hr, Hp, bool_decide_eq_true_2.
Qed.

Lemma own_hello_parses local nonce expected presence :
  LocalDevice_Validate sha256 local = Ok tt → length nonce = pairingNonceBytes → presence = "" ∨ presence = local_PresenceID local →
  parseHello (MkHello nonce (local_Name local) (local_Role local) (local_PresenceID local) expected) (local_Role local) presence
    = Ok (local_Name local, local_Role local, local_PresenceID local, nonce).
Proof.
  intros (_ & Hn & _ & Hp)%local_device_fields Hlen Hpres. unfold parseHello. simpl. rewrite Hlen, Hn, Hp, !(bool_decide_eq_true_2 _ eq_refl). simpl.
  destruct Hpres as [->| ->]; [done|]. by rewrite (bool_decide_eq_true_2 _ eq_refl), andb_false_r.
Qed.

(** The connection shows the certificate of the device. *)
Definition presents (tls : Tls) (local : LocalDevice) : Prop :=
  tls_Version tls = VersionTLS13 ∧ tls_NegotiatedProtocol tls = pairingALPN ∧
  ∃ certificate, tls_PeerCertificates tls = [certificate] ∧ crt_key certificate = Some (identity_publicKey (local_Identity local)).

Lemma presented_authenticated tls local nonce : LocalDevice_Validate sha256 local = Ok tt → presents tls local →
  authenticated sha256 tls (local_Name local, local_Role local, local_PresenceID local, nonce) = Ok (session_peer local).
Proof.
  intros Hv (Htls & Halpn & certificate & Hc & Hk). pose proof (session_peer_valid _ Hv) as Hs. apply local_device_fields in Hv as (Hid & _).
  unfold authenticated, peerFromTLS. rewrite Htls, Halpn, Hc, !bool_decide_eq_true_2 by done. cbn -[IDFromPublicKey SessionPeer_Validate].
  rewrite Hk. cbn -[IDFromPublicKey SessionPeer_Validate]. rewrite Hid. cbn -[SessionPeer_Validate]. unfold session_peer in Hs. by rewrite Hs.
Qed.

Context `{Codec PairingFrame}.

(** The other end of a connection that delivers: what it makes of the dialer's bytes,
    and its outcome as the state. *)
Definition accepting_end (local : LocalDevice) (number : nat) (tls : Tls) (exporter : Exporter) (nonce : result bytes) (out : nat → Write_)
    (c c' : list sentinel) (ps ps' : nat → nat) (sent : bytes) (_ : result Channel) : Reader * result Channel :=
  let '(reply, r) := acceptPairing sha256 local number tls exporter (Ok (MkReader sent c ps 0)) nonce out in
  (MkReader reply c' ps' 0, r).

(** C10 An orchestrator that dials a worker it has discovered, over a connection that
    shows each side the certificate of the other and delivers what is written, in
    pieces of any size, ends the handshake with a channel, and so does the worker.  Each
    names the other by the identity of its certificate, both hold the same binding, and
    so both derive one pair identifier and one verification code. *)
Theorem handshake_agrees (orchestrator worker : LocalDevice) (m n : nat) (tls tls' : Tls) (exporter : Exporter) (nonce nonce' binding : bytes)
    (out out' : nat → Write_) (c c' : list sentinel) (ps ps' : nat → nat) (s : result Channel) :
  LocalDevice_Validate sha256 orchestrator = Ok tt → LocalDevice_Validate sha256 worker = Ok tt →
  local_Role orchestrator = RoleOrchestrator → local_Role worker = RoleWorker →
  presents tls worker → presents tls' orchestrator →
  length nonce = pairingNonceBytes → length nonce' = pairingNonceBytes →
  exporter pairingExporterLabel (nonce ++ nonce') PairingBindingBytes = Ok binding →
  portable_frame (helloFrame orchestrator nonce (local_PresenceID worker)) → portable_frame (helloFrame worker nonce' "") →
  willing out → willing out' →
  ∃ dialed accepted,
    dialPairingOne sha256 orchestrator m tls exporter (Ok tt) (Ok nonce) out
      (accepting_end worker n tls' exporter (Ok nonce') out' c c' ps ps') (local_PresenceID worker) s = (Ok dialed, Ok accepted) ∧
    ch_Peer dialed = session_peer worker ∧ ch_Peer accepted = session_peer orchestrator ∧
    ch_Binding dialed = binding ∧ ch_Binding accepted = binding ∧
    DerivePairing sha256 (ch_Binding dialed) (local_id orchestrator) (sp_ID (ch_Peer dialed)) =
      DerivePairing sha256 (ch_Binding accepted) (sp_ID (ch_Peer accepted)) (local_id worker).
Proof.
  intros Hvo Hvw Hro Hrw Hpw Hpo Hn Hn' Hexp Hfo Hfw Hout Hout'.
  exists (MkChannel m (session_peer worker) binding), (MkChannel n (session_peer orchestrator) binding).
  split; [|by split_and!]. unfold dialPairingOne, accepting_end.
  destruct (pairing_frame_roundtrip out 0 _ [] c ps 0 Hfo Hout) as (sent & j & k & -> & R). rewrite app_nil_r in R.
  destruct (pairing_frame_roundtrip out' 0 _ [] c' ps' 0 Hfw Hout') as (sent' & j' & k' & W' & R'). rewrite app_nil_r in R'.
  unfold acceptPairing. cbn -[readFrame parseHello authenticated writeFrame local_PresenceID]. rewrite R.
  cbn -[readFrame parseHello authenticated writeFrame]. rewrite Hrw, !(bool_decide_eq_true_2 _ eq_refl).
  cbn -[readFrame parseHello authenticated writeFrame RoleWorker RoleOrchestrator].
  rewrite <-Hro, (own_hello_parses orchestrator) by auto. cbn -[readFrame parseHello authenticated writeFrame].
  rewrite presented_authenticated by done. cbn -[readFrame parseHello authenticated writeFrame]. rewrite W', R'.
  cbn -[parseHello authenticated]. unfold exportBinding. rewrite <-Hrw, (own_hello_parses worker) by auto. cbn -[authenticated].
  rewrite presented_authenticated by done. cbn. by rewrite Hexp.
Qed.
End Authentication.

Section Safety.
Context `{UnicodeCase} (sha256 : bytes → bytes).
Context (parse : bytes → option Certificate) (now_ : Z).

(** The key of the one certificate of a TLS 1.3 connection that speaks [protocol]. *)
Definition certified (tls : Tls) (protocol : string) (key : bytes) : Prop :=
  tls_Version tls = VersionTLS13 ∧ tls_NegotiatedProtocol tls = protocol ∧
  ∃ certificate, tls_PeerCertificates tls = [certificate] ∧ crt_key certificate = Some key.

Lemma peerFromTLS_ok tls protocol id key : peerFromTLS sha256 tls protocol = Ok (id, key) →
  certified tls protocol key ∧ IDFromPublicKey sha256 key = Ok id.
Proof.
  unfold peerFromTLS. intros (u & Hc%reject_if_ok & E)%result_bind_ok. reflect_bools.
  destruct (tls_PeerCertificates tls) as [|certificate [|]] eqn:Ec; try done. simpl in E.
  destruct (crt_key certificate) as [k|] eqn:Ek; [|done]. apply result_bind_ok in E as (i & Hid & [= <- <-]).
  split; [|done]. unfold certified. eauto.
Qed.

Lemma parseHello_ok hello role presence name role' presence' nonce : parseHello hello role presence = Ok (name, role', presence', nonce) →
  role' = role ∧ (presence = "" ∨ presence' = presence) ∧ length nonce = pairingNonceBytes.
Proof.
  unfold parseHello. intros (u & Hc%reject_if_ok & E)%result_bind_ok. reflect_bools.
  destruct (ParsePresenceID (he_presence_id hello)) as [p|]; [|done].
  apply result_bind_ok in E as (v & Hp%reject_if_ok & [= <- <- <- <-]). split_and!; [done| |done].
  apply andb_false_iff in Hp as [Hp|Hp]; reflect_bools; auto.
Qed.

Lemma authenticated_ok tls name role presence nonce peer : authenticated sha256 tls (name, role, presence, nonce) = Ok peer →
  certified tls pairingALPN (sp_PublicKey peer) ∧ IDFromPublicKey sha256 (sp_PublicKey peer) = Ok (sp_ID peer) ∧
  sp_Role peer = role ∧ sp_PresenceID peer = presence ∧ SessionPeer_Validate sha256 peer = Ok tt.
Proof.
  unfold authenticated. intros ([id key] & [Hc Hid]%peerFromTLS_ok & E)%result_bind_ok.
  apply result_bind_ok in E as ([] & Hv & [= <-]). by split_and!.
Qed.

Context `{Codec PairingFrame}.

(** What a channel of the endpoint stands for. *)
Definition channel_of (tls : Tls) (role presence : string) (ch : Channel) : Prop :=
  certified tls pairingALPN (sp_PublicKey (ch_Peer ch)) ∧ IDFromPublicKey sha256 (sp_PublicKey (ch_Peer ch)) = Ok (sp_ID (ch_Peer ch)) ∧
  sp_Role (ch_Peer ch) = role ∧ (presence = "" ∨ sp_PresenceID (ch_Peer ch) = presence) ∧ SessionPeer_Validate sha256 (ch_Peer ch) = Ok tt.

(** Whatever bytes the other side sends: a channel that the endpoint opens, dialing
    or accepting, is for the key of the one certificate of its TLS 1.3 connection and
    the identifier derived from that key, never one the hello names; a dialed channel
    is to a worker that announced the expected presence, an accepted one is from an
    orchestrator, at a device that is a worker. *)
Theorem channels_authenticated {S} (local : LocalDevice) (number : nat) (tls : Tls) (exporter : Exporter) (nonce : result bytes)
    (out : nat → Write_) (ch : Channel) :
  (∀ opened (server : bytes → S → Reader * S) presence s s',
    dialPairingOne sha256 local number tls exporter opened nonce out server presence s = (Ok ch, s') →
    channel_of tls RoleWorker presence ch) ∧
  (∀ stream sent, acceptPairing sha256 local number tls exporter stream nonce out = (sent, Ok ch) →
    channel_of tls RoleOrchestrator "" ch ∧ local_Role local = RoleWorker).
Proof.
  split.
  - intros opened server presence s s'. unfold dialPairingOne. destruct opened; [|done]. destruct nonce as [clientNonce|]; [|done].
    destruct (writeFrame _ _ _) as [[sent written] j]. destruct (server sent s) as [reader s1]. intros [= E _].
    apply result_bind_ok in E as (? & _ & E). apply result_bind_ok in E as (response & _ & E).
    destruct (GetHello response) as [hello|]; [|done]. apply result_bind_ok in E as (? & _ & E).
    apply result_bind_ok in E as ([[[name role] p] serverNonce] & (-> & Hp & _)%parseHello_ok & E).
    apply result_bind_ok in E as (peer & (Hc & Hid & Hr & Hpp & Hv)%authenticated_ok & E).
    apply result_bind_ok in E as (binding & _ & [= <-]). unfold channel_of. simpl. rewrite Hpp. by split_and!.
  - intros stream sent. unfold acceptPairing.
    destruct (mbind _ stream) as [[[[[[name role] p] clientNonce] peer] serverNonce]|e] eqn:E; [|done].
    destruct (writeFrame _ _ _) as [[sent' written] j]. intros [= _ Hch].
    apply result_bind_ok in E as (request & _ & E). apply result_bind_ok in E as (frame & _ & E).
    destruct (GetHello frame) as [hello|]; [|done]. apply result_bind_ok in E as (? & Hl%reject_if_ok & E).
    apply result_bind_ok in E as ([[[name' role'] p'] nonce'] & (-> & Hp & _)%parseHello_ok & E).
    apply result_bind_ok in E as (peer' & (Hc & Hid & Hr & Hpp & Hv)%authenticated_ok & E).
    apply result_bind_ok in E as (serverNonce' & _ & [= <- <- <- <- <- <-]).
    apply result_bind_ok in Hch as (? & _ & Hch). apply result_bind_ok in Hch as (binding & _ & [= <-]).
    reflect_bools. split; [|done]. unfold channel_of. simpl. split_and!; auto.
Qed.

(** A decision sent over a channel is the decision received. *)
Lemma decision_roundtrip out i decision rest c ps k : PairID_Valid (pd_PairingID decision) = true →
  (pd_Committed decision = true → pd_Confirmed decision = true) → portable_frame (decisionFrame decision) → willing out →
  ∃ sent j k', channel_SendDecision out i decision = (sent, Ok tt, j) ∧
    ReceiveDecision (MkReader (sent ++ rest) c ps k) = (Ok decision, MkReader rest c ps k').
Proof.
  intros Hid Hc Hp Hout. destruct (pairing_frame_roundtrip out i _ rest c ps k Hp Hout) as (sent & j & k' & W & R).
  exists sent, j, k'. unfold channel_SendDecision, ReceiveDecision. rewrite Hid, W, R. split; [done|].
  destruct decision as [id confirmed committed]. simpl in *. unfold PairID_Valid in Hid. destruct (ParsePairID id) as [id'|] eqn:E; [|done].
  unfold ParsePairID in E. destruct (canonical_base32 _ _ _); [|done]. injection E as <-.
  destruct committed; [rewrite Hc by done|]; done.
Qed.

Lemma dial_addresses_ok {S A} (dial : Addr → S → result A * S) addresses failures tried s channel s' :
  dial_addresses dial addresses failures tried s = (Ok channel, s') →
  ∃ address s1 s2, address ∈ addresses ∧ Addr_IsValid address = true ∧ dial address s1 = (Ok channel, s2).
Proof.
  revert failures tried s. induction addresses as [|address rest IH]; intros failures tried s; simpl; [done|].
  destruct (Addr_IsValid address) eqn:Ev; simpl.
  - destruct (dial address s) as [[ch|e] s1] eqn:Ed.
    + intros [= <- <-]. exists address, s, s1. split_and!; [left|..]; done.
    + intros (a & s2 & s3 & Ha & Hrest)%IH. exists a, s2, s3. split; [by right|done].
  - intros (a & s2 & s3 & Ha & Hrest)%IH. exists a, s2, s3. split; [by right|done].
Qed.

(** The certificates are one valid self-signed certificate of the pinned key. *)
Definition pinned_certificate (peer : Peer) (rawCertificates : list bytes) : Prop :=
  ∃ raw certificate, rawCertificates = [raw] ∧ parse raw = Some certificate ∧ crt_key certificate = Some (PublicKey peer) ∧
    crt_signed certificate = true ∧ (crt_NotBefore certificate ≤ now_ ≤ crt_NotAfter certificate)%Z ∧
    IDFromPublicKey sha256 (PublicKey peer) = Ok (DeviceID peer).

Lemma verifyPinned_ok peer rawCertificates u : verifyPinned sha256 parse now_ peer rawCertificates = Ok u → pinned_certificate peer rawCertificates.
Proof.
  unfold verifyPinned. intros (? & Hself & E)%result_bind_ok. unfold verifySelfSignedIdentity in Hself.
  destruct rawCertificates as [|raw [|]]; [done| |done]. apply result_bind_ok in Hself as (? & _ & Hself). simpl in E.
  destruct (parse raw) as [certificate|] eqn:Hp; [|done]. destruct (crt_key certificate) as [key|] eqn:Hk; [|done].
  apply result_bind_ok in Hself as (? & Hs%reject_if_ok & _). apply result_bind_ok in E as (? & Hkey%reject_if_ok & E).
  reflect_bools. subst key. destruct (IDFromPublicKey sha256 (PublicKey peer)) as [id|] eqn:Hid; [|done]. apply reject_if_ok in E. reflect_bools. subst id.
  exists raw, certificate. unfold after, before in *. reflect_bools. by split_and!.
Qed.

(** The connections that an orchestrator opens for jobs, over the local network or a
    selected path, are for an active pin with the role of a worker, and the other side
    showed one self-signed certificate, valid now, whose key is the pinned key and gives
    the pinned identifier.  [quicgo] opens a connection only when the callback accepts
    the certificates. *)
Theorem dials_pinned {S C} (certificates : C → list bytes) (local : LocalDevice) (peer : Peer) (c : C) (s s' : S) :
  (∀ (dial : Addr → (list bytes → result unit) → S → result C * S) target,
    (∀ address verify s c s', dial address verify s = (Ok c, s') → verify (certificates c) = Ok tt) →
    Endpoint_DialRemote sha256 parse now_ local dial target peer s = (Ok c, s') →
    local_Role local = RoleOrchestrator ∧ dialable sha256 peer = true ∧ pinned_certificate peer (certificates c)) ∧
  (∀ (dial : (list bytes → result unit) → S → result C * S),
    (∀ verify s c s', dial verify s = (Ok c, s') → verify (certificates c) = Ok tt) →
    Path_Dial sha256 parse now_ local dial peer s = (Ok c, s') →
    local_Role local = RoleOrchestrator ∧ dialable sha256 peer = true ∧ pinned_certificate peer (certificates c)).
Proof.
  split.
  - intros dial target Hdial. unfold Endpoint_DialRemote. destruct (_ || _) eqn:Hguard; [done|].
    intros (address & s1 & s2 & _ & _ & Hd%Hdial%verifyPinned_ok)%dial_addresses_ok. reflect_bools. by split_and!.
  - intros dial Hdial. unfold Path_Dial. destruct (_ || _) eqn:Hguard; [done|]. intros Hd%Hdial%verifyPinned_ok. reflect_bools. by split_and!.
Qed.

(** ** Control streams *)

(** The trust store holds the identity as an active orchestrator with this key. *)
Definition pinned_in (identity : string * bytes) (d : PeerDB) : Prop :=
  ∃ peer, Trust_Get sha256 identity.1 d = Ok (peer, d) ∧ PeerState peer = TrustActive ∧ PeerRoleOf peer = RoleOrchestrator ∧ PublicKey peer = identity.2.

Lemma activeOrchestrator_ok identity d faulty : activeOrchestrator identity (pin_of sha256 identity d faulty) = true → pinned_in identity d.
Proof.
  unfold activeOrchestrator, pin_of. destruct (_ || _); [done|]. destruct faulty; [done|].
  destruct (Trust_Get sha256 identity.1 d) as [[peer d']|] eqn:E; [|done]. intros Hp. reflect_bools. exists peer. split_and!; try done.
  assert (d' = d) as ->; [|done]. unfold Trust_Get in E. apply tx_bind_ok in E as (u & d1 & [_ ->]%tx_lift_ok & Hq%on_no_rows_ok).
  by eapply query_state.
Qed.

Definition stream_end (event : ControlEvent) : bool := match event with StreamServed => true | _ => false end.

Lemma served_pinned identity events slots stream : stream ∈ (serve_streams sha256 identity events slots).1 →
  ∃ d faulty, StreamArrives stream d faulty false ∈ events ∧ pinned_in identity d.
Proof.
  revert slots. induction events as [|[k d faulty stopping| |] rest IH]; intros slots; simpl; [by intros ?%elem_of_nil| |intros (d & f & ? & ?)%IH|by intros ?%elem_of_nil].
  - destruct (activeOrchestrator _ _) eqn:Ha; simpl; [|by intros ?%elem_of_nil]. destruct stopping; [by intros ?%elem_of_nil|].
    destruct (slots <? _); simpl.
    + destruct (serve_streams sha256 identity rest (S slots)) as [served closed] eqn:E. simpl. intros [->|Hin]%elem_of_cons.
      * exists d, faulty. split; [left|by eapply activeOrchestrator_ok].
      * destruct (IH (S slots)) as (d1 & f1 & ? & ?); [by rewrite E|]. exists d1, f1. split; [by right|done].
    + intros (d1 & f1 & ? & ?)%IH. exists d1, f1. split; [by right|done].
  - exists d, f. split; [by right|done].
Qed.

Lemma served_until identity stream d faulty stopping post pre slots :
  activeOrchestrator identity (pin_of sha256 identity d faulty) = false →
  (serve_streams sha256 identity (pre ++ StreamArrives stream d faulty stopping :: post) slots).1 = (serve_streams sha256 identity pre slots).1.
Proof.
  intros Hrevoked. revert slots. induction pre as [|[k d1 f1 stop1| |] pre IH]; intros slots; simpl; [by rewrite Hrevoked| |apply IH|done].
  destruct (negb _); [done|]. destruct stop1; [done|]. destruct (slots <? _); [|apply IH].
  specialize (IH (S slots)). destruct (serve_streams sha256 identity (pre ++ _) (S slots)), (serve_streams sha256 identity pre (S slots)).
  simpl in *. by rewrite IH.
Qed.

Lemma served_bounded identity pre slots : slots ≤ maximumControlStreams →
  slots + length (serve_streams sha256 identity pre slots).1 ≤ maximumControlStreams + length (filter (λ e, stream_end e = true) pre).
Proof.
  assert (Hmax : maximumControlStreams = 16) by done. revert slots.
  induction pre as [|[k d f stop| |] pre IH]; intros slots Hs; cbn [serve_streams].
  - simpl. lia.
  - rewrite filter_cons_False by done. destruct (negb _); [simpl; lia|]. destruct stop; [simpl; lia|].
    destruct (Nat.ltb_spec slots maximumControlStreams); [|by apply IH]. specialize (IH (S slots)).
    destruct (serve_streams sha256 identity pre (S slots)). simpl in *. lia.
  - rewrite filter_cons_True by done. simpl length. specialize (IH (slots - 1)). lia.
  - simpl. lia.
Qed.

Lemma accepted_bounded serves (pre : list AcceptEvent) slots : (∀ p, started (serves p) = true) → slots ≤ maximumEndpointClients →
  slots + length (filter (λ na : nat * Admission, started na.2 = true) (accept_loop serves pre slots).1)
    ≤ maximumEndpointClients + length (filter (λ e, e = true) ((λ e, match e with ConnectionDone => true | _ => false end) <$> pre)).
Proof.
  intros Hserves. assert (Hmax : maximumEndpointClients = 64) by done. revert slots.
  induction pre as [|[number protocol [|]| |closed e] pre IH]; intros slots Hs; cbn [accept_loop fmap list_fmap].
  - simpl. lia.
  - rewrite filter_cons_False by done. specialize (IH slots Hs). destruct (accept_loop serves pre slots). simpl in *. by rewrite filter_cons_False by done.
  - rewrite filter_cons_False by done. destruct (Nat.ltb_spec slots maximumEndpointClients) as [Hlt|Hge].
    + specialize (IH (S slots) Hlt). destruct (accept_loop serves pre (S slots)). cbn [fst] in *. rewrite filter_cons_True by apply Hserves.
      cbn [length]. lia.
    + specialize (IH slots Hs). destruct (accept_loop serves pre slots). cbn [fst] in *. by rewrite filter_cons_False by done.
  - rewrite filter_cons_True by done. cbn [length]. specialize (IH (slots - 1)). lia.
  - simpl. lia.
Qed.

(** C27 On a control connection to a worker, whatever arrives: a stream is served only if
    the trust store held, when that stream arrived, the identity of the connection's
    certificate as an active orchestrator with the certificate's key; from the first
    stream that arrives after the pin is revoked, or cannot be read, nothing is served;
    and at any time at most sixteen streams are being served. *)
Theorem control_streams_pinned (local : LocalDevice) (tls : Tls) (d : PeerDB) (faulty : bool) (events : list ControlEvent) :
  let served := λ events, (serveRemoteConnection sha256 local tls d faulty events).1 in
  (∀ stream, stream ∈ served events → local_Role local = RoleWorker ∧ ∃ id key d' faulty',
    certified tls controlALPN key ∧ IDFromPublicKey sha256 key = Ok id ∧ StreamArrives stream d' faulty' false ∈ events ∧ pinned_in (id, key) d') ∧
  (∀ pre stream d' faulty' stopping post id key, events = pre ++ StreamArrives stream d' faulty' stopping :: post →
    certified tls controlALPN key → IDFromPublicKey sha256 key = Ok id → faulty' = true ∨ ¬ pinned_in (id, key) d' → served events = served pre) ∧
  (∀ pre post, events = pre ++ post → length (served pre) ≤ maximumControlStreams + length (filter (λ e, stream_end e = true) pre)).
Proof.
  intros served. unfold served, serveRemoteConnection. clear served.
  destruct (bool_decide (local_Role local = RoleWorker)) eqn:Er; simpl; [|split_and!; [by intros ? ?%elem_of_nil|done|intros; apply Nat.le_0_l]].
  reflect_bools. destruct (peerFromTLS sha256 tls controlALPN) as [[id key]|e] eqn:Et; [|split_and!; [by intros ? ?%elem_of_nil|done|intros; apply Nat.le_0_l]].
  destruct (activeOrchestrator _ _) eqn:Ea; simpl; [|split_and!; [by intros ? ?%elem_of_nil|done|intros; apply Nat.le_0_l]].
  apply peerFromTLS_ok in Et as [Hc Hid]. split_and!.
  - intros stream (d' & f' & Hin & Hp)%served_pinned. split; [done|]. by exists id, key, d', f'.
  - intros pre stream d' f' stopping post id' key' -> (_ & _ & ce & Hce & Hkey) Hid' Hno.
    destruct Hc as (_ & _ & ce' & Hce' & Hkey'). assert (key' = key) as -> by congruence. assert (id' = id) as -> by congruence.
    apply served_until, not_true_is_false. intros Ea'. destruct Hno as [->|Hno].
    + unfold activeOrchestrator, pin_of in Ea'. revert Ea'. by destruct (_ || _).
    + by apply activeOrchestrator_ok in Ea'.
  - intros pre post _. apply (served_bounded (id, key) pre 0), Nat.le_0_l.
Qed.
End Safety.

(** ** Witnesses *)

Definition prefix_sha : bytes → bytes := λ b, take 32 (b ++ replicate 32 "z"%char).
Definition endpoint_local (c : ascii) (role : string) : LocalDevice :=
  MkLocalDevice (match NewIdentity (H := ascii_case) prefix_sha (replicate 64 c) with Ok i => i | Err _ => MkIdentity "" [] [] end) "desk" role
    (str_of (replicate 26 "a"%char)).
Definition desk_orchestrator : LocalDevice := endpoint_local "o" RoleOrchestrator.
Definition desk_worker : LocalDevice := endpoint_local "w" RoleWorker.
Definition sample_certificate (c : ascii) : Certificate := MkCertificate (Some (replicate 32 c)) true true 0 100 true.
Definition sample_tls (c : ascii) (protocol : string) : Tls := MkTls VersionTLS13 protocol [sample_certificate c].
Definition sample_nonce (c : ascii) : bytes := replicate 32 c.
Definition context_exporter : Exporter := λ _ context n, Ok (take n (drop 20 context)).
Definition orchestrator_hello : PairingFrame := helloFrame desk_orchestrator (sample_nonce "1") (local_PresenceID desk_worker).
Definition worker_hello : PairingFrame := helloFrame desk_worker (sample_nonce "2") "".
(** A codec for the two hellos. *)
Definition hello_codec : Codec PairingFrame :=
  {| marshal f := Ok (bytes_of (if bool_decide ((he_expected_presence_id <$> GetHello f) = Some "") then "w" else "o"));
     unmarshal b := Ok (if bool_decide (b = bytes_of "w") then worker_hello else orchestrator_hello) |}.

Lemma handshake_agrees_witness :
  ∃ dialed accepted,
    dialPairingOne (H := ascii_case) (H0 := hello_codec) prefix_sha desk_orchestrator 1 (sample_tls "w" pairingALPN) context_exporter (Ok tt)
      (Ok (sample_nonce "1")) trickle
      (accepting_end (H := ascii_case) (H0 := hello_codec) prefix_sha desk_worker 2 (sample_tls "o" pairingALPN) context_exporter (Ok (sample_nonce "2"))
        trickle [IoEOF] [IoEOF] id S)
      (local_PresenceID desk_worker) (Err []) = (Ok dialed, Ok accepted) ∧
    sp_PublicKey (ch_Peer dialed) = replicate 32 "w"%char ∧ sp_PublicKey (ch_Peer accepted) = replicate 32 "o"%char.
Proof.
  assert (Hw : willing trickle) by (intros k; exists (k mod 3); reflexivity).
  destruct (handshake_agrees (H := ascii_case) (H0 := hello_codec) prefix_sha desk_orchestrator desk_worker 1 2 (sample_tls "w" pairingALPN)
    (sample_tls "o" pairingALPN) context_exporter (sample_nonce "1") (sample_nonce "2") (replicate 12 "1"%char ++ replicate 20 "2"%char) trickle trickle
    [IoEOF] [IoEOF] id S (Err [])) as (dialed & accepted & Hrun & Hd & Ha & _); try reflexivity; try exact Hw.
  - repeat split; try reflexivity. exists (sample_certificate "w"). split; reflexivity.
  - repeat split; try reflexivity. exists (sample_certificate "o"). split; reflexivity.
  - repeat split; try reflexivity. exists (bytes_of "o"). split; [reflexivity|]. split; [discriminate|]. split; [vm_compute; discriminate|reflexivity].
  - repeat split; try reflexivity. exists (bytes_of "w"). split; [reflexivity|]. split; [discriminate|]. split; [vm_compute; discriminate|reflexivity].
  - exists dialed, accepted. rewrite Hd, Ha. split; [exact Hrun|]. split; reflexivity.
Defined.

Lemma channels_authenticated_witness :
  ∃ sent ch, acceptPairing (H := ascii_case) (H0 := hello_codec) prefix_sha desk_worker 2 (sample_tls "o" pairingALPN) context_exporter
      (Ok (MkReader (frame (bytes_of "o")) [IoEOF] id 0)) (Ok (sample_nonce "2")) trickle = (sent, Ok ch) ∧
    channel_of (H := ascii_case) prefix_sha (sample_tls "o" pairingALPN) RoleOrchestrator "" ch.
Proof.
  destruct (acceptPairing (H := ascii_case) (H0 := hello_codec) prefix_sha desk_worker 2 (sample_tls "o" pairingALPN) context_exporter
      (Ok (MkReader (frame (bytes_of "o")) [IoEOF] id 0)) (Ok (sample_nonce "2")) trickle) as [sent [ch|e]] eqn:E; [|vm_compute in E; discriminate E].
  exists sent, ch. split; [reflexivity|].
  exact (proj1 (proj2 (channels_authenticated (H := ascii_case) (H0 := hello_codec) (S := unit) prefix_sha desk_worker 2 (sample_tls "o" pairingALPN)
    context_exporter (Ok (sample_nonce "2")) trickle ch) _ _ E)).
Defined.

Definition pinned_worker : Peer := sample_peer "worker".
Definition pinned_parse (raw : bytes) : option Certificate := Some (sample_certificate "k").
(** A dialer that shows the callback one certificate. *)
Definition dial_with_callback (verify : list bytes → result unit) (s : nat) : result (list bytes) * nat :=
  match verify [bytes_of "der"] with Ok _ => (Ok [bytes_of "der"], S s) | Err e => (Err e, s) end.

Lemma dials_pinned_witness :
  Path_Dial (H := ascii_case) sample_sha pinned_parse 50 desk_orchestrator dial_with_callback pinned_worker 0 = (Ok [bytes_of "der"], 1) ∧
  pinned_certificate (H := ascii_case) sample_sha pinned_parse 50 pinned_worker [bytes_of "der"].
Proof.
  assert (E : Path_Dial (H := ascii_case) sample_sha pinned_parse 50 desk_orchestrator dial_with_callback pinned_worker 0 = (Ok [bytes_of "der"], 1))
    by (vm_compute; reflexivity).
  split; [exact E|].
  refine (proj2 (proj2 (proj2 (dials_pinned (H := ascii_case) sample_sha pinned_parse 50 id desk_orchestrator pinned_worker [bytes_of "der"] 0 1)
    dial_with_callback _ E))).
  intros verify s c s'. unfold dial_with_callback. destruct (verify [bytes_of "der"]) as [[]|e] eqn:Ev; intros Hd; [|discriminate Hd].
  injection Hd as <- <-. exact Ev.
Defined.

(** A store with one active orchestrator, and what it is after a revocation. *)
Definition orchestrator_store : PeerDB :=
  match Activate (H := ascii_case) sample_sha (sample_peer "orchestrator") empty_peers with Ok (_, d) => d | Err _ => empty_peers end.
Definition revoked_store : PeerDB :=
  match Revoke (H := ascii_case) sample_sha sample_device 9 orchestrator_store with Ok (_, d) => d | Err _ => empty_peers end.

Lemma control_streams_pinned_witness :
  (serveRemoteConnection (H := ascii_case) sample_sha desk_worker (sample_tls "k" controlALPN) orchestrator_store false
    [StreamArrives 1 orchestrator_store false false; StreamArrives 2 revoked_store false false; StreamArrives 3 orchestrator_store false false]).1 = [1].
Proof.
  assert (Hstate : match Trust_Get (H := ascii_case) sample_sha sample_device revoked_store with Ok (p, _) => PeerState p | Err _ => TrustRevoked end = TrustRevoked)
    by (vm_compute; reflexivity).
  assert (Hid : IDFromPublicKey (H := ascii_case) sample_sha sample_key = Ok sample_device) by (vm_compute; reflexivity).
  transitivity (serveRemoteConnection (H := ascii_case) sample_sha desk_worker (sample_tls "k" controlALPN) orchestrator_store false
    [StreamArrives 1 orchestrator_store false false]).1; [|vm_compute; reflexivity].
  refine (proj1 (proj2 (control_streams_pinned (H := ascii_case) sample_sha desk_worker (sample_tls "k" controlALPN) orchestrator_store false _))
    [StreamArrives 1 orchestrator_store false false] 2 revoked_store false false [StreamArrives 3 orchestrator_store false false] sample_device sample_key eq_refl
    (conj eq_refl (conj eq_refl (ex_intro _ (sample_certificate "k") (conj eq_refl eq_refl)))) Hid _).
  right. intros (peer & Hget & Hactive & _). cbn [fst] in Hget. rewrite Hget in Hstate. rewrite Hactive in Hstate. discriminate Hstate.
Defined.
