(* ===== verification/Payload.v ===== *)
(** * Pair-scoped credentials and payloads (internal/connectivity: credential.go, payload.go)

    What two paired devices show the hosted service: a route and a token that both
    derive from the secret of the pair and the time, and payloads sealed for the other
    device.  HMAC-SHA-256 and AES-GCM are parameters with the laws that their packages
    document. *)

From S2P Require Import Prelude GoText JobModel Encoding Device Trust Rendezvous.
From Stdlib Require Import Ascii.
Local Open Scope string_scope.
Local Open Scope nat_scope.
Local Open Scope list_scope.

(** ** Credentials *)

Definition CredentialLifetime : Z := (5 * minute)%Z.
Definition lifetime_seconds : Z := (CredentialLifetime / second)%Z.

Record Access := MkAccess { ac_RouteID : string; ac_Token : string; ac_ExpiresAt : Z }.

(** [time.Time.Unix]. *)
Definition unix_seconds (at_ : Z) : Z := (at_ / second)%Z.

Definition route_label : bytes := bytes_of "ComputeHop rendezvous route v1" ++ [Ascii.zero].
Definition auth_label : bytes := bytes_of "ComputeHop rendezvous auth v1" ++ [Ascii.zero].
Definition key_label : bytes := bytes_of "ComputeHop rendezvous payload key v1".
Definition context_label : bytes := bytes_of "ComputeHop rendezvous payload context v1" ++ [Ascii.zero].

(** ** Payloads *)

Definition EncryptedPayloadVersion : ascii := Ascii.one.
Definition MaximumPlaintextBytes : Z := Z.shiftl 24 10.
Definition MaximumCiphertextBytes : Z := Z.shiftl 32 10.
Definition PayloadPresence : Z := 1.
Definition PayloadSignal : Z := 2.

Record PayloadContext := MkPayloadContext { pc_Kind : Z; pc_RouteID : string; pc_Sender : string; pc_Recipient : string; pc_Generation : Z }.

Definition roleByte (role : string) : ascii :=
  if bool_decide (role = RoleOrchestrator) then byte_of 1 else if bool_decide (role = RoleWorker) then byte_of 2 else byte_of 0.

Definition oppositeDeviceRole (role : string) : string :=
  if bool_decide (role = RoleOrchestrator) then RoleWorker else if bool_decide (role = RoleWorker) then RoleOrchestrator else "".

Definition validatePayloadContext (context : PayloadContext) : result unit :=
  let e := [ConnErrInvalidEncryptedPayload] in
  _ ← reject_if (negb (validOpaqueValue (pc_RouteID context))) e;
  _ ← reject_if (negb (known_role (pc_Sender context))) e;
  _ ← reject_if (negb (known_role (pc_Recipient context))) e;
  _ ← reject_if (bool_decide (pc_Sender context = pc_Recipient context)) e;
  if (pc_Kind context =? PayloadPresence)%Z then reject_if (pc_Generation context =? 0)%Z e
  else if (pc_Kind context =? PayloadSignal)%Z then reject_if (negb (pc_Generation context =? 0)%Z) e
  else Err e.

Definition payloadAssociatedData (context : PayloadContext) : bytes :=
  context_label ++ bytes_of (pc_RouteID context)
  ++ [byte_of (pc_Kind context); roleByte (pc_Sender context); roleByte (pc_Recipient context)]
  ++ big_endian 8 (pc_Generation context).

(** AES-GCM: [aead_Seal key nonce plaintext data]. *)
Class Aead := {
  hmac : bytes → bytes → bytes;
  aead_Seal : bytes → bytes → bytes → bytes → bytes;
  aead_Open : bytes → bytes → bytes → bytes → result bytes
}.
Definition NonceSize : nat := 12.
Definition Overhead : nat := 16.

(** What [crypto/hmac] and [crypto/cipher] promise. *)
Class AeadLaws `{Aead} := {
  hmac_size key message : length (hmac key message) = 32;
  seal_size key nonce plaintext data : length (aead_Seal key nonce plaintext data) = length plaintext + Overhead;
  open_seal key nonce plaintext data : aead_Open key nonce (aead_Seal key nonce plaintext data) data = Ok plaintext;
  open_only key nonce ciphertext data plaintext :
    aead_Open key nonce ciphertext data = Ok plaintext → ciphertext = aead_Seal key nonce plaintext data
}.

Section Payloads.
Context `{Aead}.

Definition derive (secret : bytes) (label contents : bytes) : bytes := hmac secret (label ++ contents).

Definition DeriveAccess (secret : bytes) (at_ : Z) : result Access :=
  _ ← reject_if (negb (Secret_Valid secret) || is_zero_time at_ || (unix_seconds at_ <? 0)%Z) [ConnErrInvalidCredentialMaterial];
  let epoch := (unix_seconds at_ / lifetime_seconds)%Z in
  let route := derive secret route_label (big_endian 8 epoch) in
  let token := derive secret auth_label route in
  Ok (MkAccess (RawURL_EncodeToString route) (RawURL_EncodeToString token) ((epoch + 1) * lifetime_seconds * second)).

(** The key of the cipher; [aes.NewCipher] takes keys of three sizes. *)
Definition payloadAEAD (secret : bytes) : result bytes :=
  let key := hmac secret key_label in
  if bool_decide (length key ∈ [16; 24; 32]) then Ok key else Err [ConnErrInvalidEncryptedPayload].

(** [random] is what [io.ReadFull] fills the nonce with. *)
Definition sealPayload (secret : bytes) (context : PayloadContext) (plaintext : bytes) (random : result bytes) : result bytes :=
  let e := [ConnErrInvalidEncryptedPayload] in
  _ ← reject_if (negb (Secret_Valid secret) || failed (validatePayloadContext context) || bool_decide (plaintext = [])
        || (MaximumPlaintextBytes <? Z.of_nat (length plaintext))%Z) e;
  key ← payloadAEAD secret;
  nonce ← (match random with Ok nonce => Ok nonce | Err _ => Err e end);
  let result_ := EncryptedPayloadVersion :: nonce ++ aead_Seal key nonce plaintext (payloadAssociatedData context) in
  _ ← reject_if (MaximumCiphertextBytes <? Z.of_nat (length result_))%Z e;
  Ok result_.

Definition OpenPayload (secret : bytes) (context : PayloadContext) (ciphertext : bytes) : result bytes :=
  let e := [ConnErrInvalidEncryptedPayload] in
  _ ← reject_if (negb (Secret_Valid secret) || failed (validatePayloadContext context) || bool_decide (ciphertext = [])
        || (MaximumCiphertextBytes <? Z.of_nat (length ciphertext))%Z
        || negb (bool_decide (head ciphertext = Some EncryptedPayloadVersion))) e;
  key ← payloadAEAD secret;
  let nonceEnd := 1 + NonceSize in
  _ ← reject_if (length ciphertext <? nonceEnd + Overhead + 1) e;
  match aead_Open key (drop 1 (take nonceEnd ciphertext)) (drop nonceEnd ciphertext) (payloadAssociatedData context) with
  | Err _ => Err e
  | Ok plaintext =>
      _ ← reject_if (bool_decide (plaintext = []) || (MaximumPlaintextBytes <? Z.of_nat (length plaintext))%Z) e;
      Ok plaintext
  end.

Definition presence_context (routeID sender : string) (generation : Z) : PayloadContext :=
  MkPayloadContext PayloadPresence routeID sender (oppositeDeviceRole sender) generation.
Definition payload_SealPresence (secret : bytes) (routeID sender : string) (generation : Z) (plaintext : bytes) (random : result bytes) : result bytes :=
  sealPayload secret (presence_context routeID sender generation) plaintext random.
Definition payload_OpenPresence (secret : bytes) (routeID sender : string) (generation : Z) (ciphertext : bytes) : result bytes :=
  OpenPayload secret (presence_context routeID sender generation) ciphertext.

End Payloads.

(** ** Lemmas *)

Lemma b64_encode_size l : length (b64_encode l) = (4 * length l + 2) / 3.
Proof.
  induction l as [| | |a b c l IH] using list_ind3; [done..|].
  cbn [b64_encode length]. rewrite IH. replace (4 * S (S (S (length l))) + 2) with (4 * length l + 2 + 4 * 3) by lia.
  rewrite Nat.div_add by lia. lia.
Qed.

Lemma opaque_encoding b : length b = 32 → validOpaqueValue (RawURL_EncodeToString b) = true.
Proof. intros Hb. unfold validOpaqueValue. rewrite RawURL_roundtrip, Hb. by rewrite !bool_decide_eq_true_2. Qed.

Lemma b64_digit_not_space n : (0 ≤ n < 64)%Z → b64_digit n ≠ " "%char.
Proof. intros Hn. exact (bool_decide_eq_true_1 _ (forallb_below (λ n, bool_decide (b64_digit n ≠ " "%char)) 64 n eq_refl Hn)). Qed.

Lemma b64_encode_no_space l : " "%char ∉ b64_encode l.
Proof.
  enough (Forall (λ c, c ≠ " "%char) (b64_encode l)) as Hall by (intros Hin; by apply (proj1 (Forall_forall _ _) Hall _ Hin)).
  induction l as [|a|a b|a b c l IH] using list_ind3; cbn [b64_encode];
    try (pose proof (val_range a)); try (pose proof (val_range b)); try (pose proof (val_range c));
    repeat constructor; try done; apply b64_digit_not_space; Z.to_euclidean_division_equations; lia.
Qed.

Lemma bearer_encoding b : length b = 32 → bearerToken ("Bearer " +:+ RawURL_EncodeToString b) = Some b.
Proof.
  intros Hb. unfold bearerToken. rewrite bytes_of_app. change (String.length "Bearer ") with (length (bytes_of "Bearer ")).
  rewrite drop_app_length, str_of_bytes_of, RawURL_roundtrip, Hb, (bool_decide_eq_true_2 _ eq_refl).
  unfold contains_byte, RawURL_EncodeToString. rewrite bytes_of_str_of, (bool_decide_eq_false_2 _ (b64_encode_no_space b)), orb_false_r.
  unfold has_prefix. rewrite bytes_of_app. done.
Qed.

Lemma opaque_size value : validOpaqueValue value = true → length (bytes_of value) = 43.
Proof.
  unfold validOpaqueValue. destruct (RawURL_DecodeString value) as [decoded|]; [|done]. intros Hv. reflect_bools.
  subst value. unfold RawURL_EncodeToString. rewrite bytes_of_str_of, b64_encode_size. by rewrite H.
Qed.

Lemma roleByte_inj r r' : known_role r = true → known_role r' = true → roleByte r = roleByte r' → r = r'.
Proof.
  unfold known_role. intros [->%bool_decide_eq_true_1| ->%bool_decide_eq_true_1]%orb_true_iff [->%bool_decide_eq_true_1| ->%bool_decide_eq_true_1]%orb_true_iff;
    by vm_compute.
Qed.

(** The contexts that [validatePayloadContext] accepts. *)
Lemma context_valid_fields context u : validatePayloadContext context = Ok u →
  validOpaqueValue (pc_RouteID context) = true ∧ known_role (pc_Sender context) = true ∧ known_role (pc_Recipient context) = true ∧
  (pc_Kind context = PayloadPresence ∨ pc_Kind context = PayloadSignal).
Proof.
  unfold validatePayloadContext. intros (? & Hr%reject_if_ok & E)%result_bind_ok. apply result_bind_ok in E as (? & Hs%reject_if_ok & E).
  apply result_bind_ok in E as (? & Hp%reject_if_ok & E). apply result_bind_ok in E as (? & _ & E). reflect_bools. split_and!; [done..|].
  destruct (Z.eqb_spec (pc_Kind context) PayloadPresence); [by left|]. destruct (Z.eqb_spec (pc_Kind context) PayloadSignal); [by right|done].
Qed.

(** A value of the Go type [uint64]. *)
Definition uint64_range (z : Z) : Prop := (0 ≤ z < 2 ^ 64)%Z.

(** The associated data determines the context. *)
Lemma associated_data_inj c c' u u' : validatePayloadContext c = Ok u → validatePayloadContext c' = Ok u' →
  uint64_range (pc_Generation c) → uint64_range (pc_Generation c') → payloadAssociatedData c = payloadAssociatedData c' → c = c'.
Proof.
  intros (Hr & Hs & Hp & Hk)%context_valid_fields (Hr' & Hs' & Hp' & Hk')%context_valid_fields Hg Hg'. destruct c as [k r s p g], c' as [k' r' s' p' g'].
  unfold payloadAssociatedData. cbn [pc_Kind pc_RouteID pc_Sender pc_Recipient pc_Generation] in *. intros E. apply app_inv_head in E.
  apply app_inj_1 in E as [E1 E2]; [|by rewrite (opaque_size r), (opaque_size r')]. apply app_inj_1 in E2 as [E2 E6]; [|done].
  injection E2 as E3 E4 E5.
  apply bytes_of_inj in E1 as ->. apply roleByte_inj in E4 as ->; [|done..]. apply roleByte_inj in E5 as ->; [|done..].
  apply (f_equal from_big_endian) in E6. rewrite !from_big_endian_encode in E6 by (change (256 ^ Z.of_nat 8)%Z with (2 ^ 64)%Z; done).
  subst g'. f_equal. destruct Hk as [-> | ->], Hk' as [-> | ->]; try done.
Qed.

Section Sealing.
Context `{AeadLaws}.

Lemma key_ok secret : payloadAEAD secret = Ok (hmac secret key_label).
Proof. unfold payloadAEAD. rewrite hmac_size. by rewrite bool_decide_eq_true_2 by set_solver. Qed.

Lemma seal_ok secret context plaintext nonce :
  Secret_Valid secret = true → validatePayloadContext context = Ok tt → plaintext ≠ [] → (Z.of_nat (length plaintext) ≤ MaximumPlaintextBytes)%Z →
  length nonce = NonceSize →
  sealPayload secret context plaintext (Ok nonce) =
    Ok (EncryptedPayloadVersion :: nonce ++ aead_Seal (hmac secret key_label) nonce plaintext (payloadAssociatedData context)).
Proof.
  intros Hs Hc Hne Hlen Hn. unfold sealPayload. rewrite Hs, Hc, key_ok, bool_decide_eq_false_2, (proj2 (Z.ltb_ge _ _)) by done. cbn -[Z.ltb].
  rewrite (proj2 (Z.ltb_ge _ _)); [done|]. rewrite length_app, seal_size, Hn. change MaximumPlaintextBytes with 24576%Z in *.
  change MaximumCiphertextBytes with 32768%Z. change NonceSize with 12. change Overhead with 16. lia.
Qed.

(** A payload that is opened is the sealing of what comes out. *)
Lemma open_inv secret context ciphertext plaintext : OpenPayload secret context ciphertext = Ok plaintext →
  validatePayloadContext context = Ok tt ∧ ∃ nonce, length nonce = NonceSize ∧
  ciphertext = EncryptedPayloadVersion :: nonce ++ aead_Seal (hmac secret key_label) nonce plaintext (payloadAssociatedData context).
Proof.
  unfold OpenPayload. intros (? & Hc%reject_if_ok & E)%result_bind_ok. rewrite key_ok in E. cbn [mbind result_bind] in E.
  apply result_bind_ok in E as (? & Hl%reject_if_ok & E). apply Nat.ltb_ge in Hl.
  apply orb_false_iff in Hc as [Hc Hv]. reflect_bools. destruct (validatePayloadContext context) as [[]|]; [|done]. split; [done|].
  destruct ciphertext as [|c rest]; [done|]. injection Hv as ->. change (1 + NonceSize) with 13 in *. cbn [take drop length] in *.
  destruct (aead_Open _ _ _ _) as [p|] eqn:Eo; [|done]. apply result_bind_ok in E as (? & _ & [= <-]).
  rewrite drop_0 in Eo.
  exists (take 12 rest). rewrite <-(open_only _ _ _ _ _ Eo), take_drop. split; [|done]. rewrite length_take. change NonceSize with 12. change Overhead with 16 in *. lia.
Qed.

Lemma open_sealed secret context plaintext nonce :
  Secret_Valid secret = true → validatePayloadContext context = Ok tt → plaintext ≠ [] → (Z.of_nat (length plaintext) ≤ MaximumPlaintextBytes)%Z →
  length nonce = NonceSize →
  OpenPayload secret context (EncryptedPayloadVersion :: nonce ++ aead_Seal (hmac secret key_label) nonce plaintext (payloadAssociatedData context)) = Ok plaintext.
Proof.
  intros Hs Hc Hne Hlen Hn. unfold OpenPayload. rewrite Hs, Hc, key_ok. cbn [head failed negb orb mbind result_bind].
  rewrite (bool_decide_eq_false_2 (_ :: _ = [])), (bool_decide_eq_true_2 _ eq_refl) by done. cbn [length orb negb].
  rewrite length_app, seal_size, Hn. change MaximumPlaintextBytes with 24576%Z in *. change MaximumCiphertextBytes with 32768%Z.
  rewrite (proj2 (Z.ltb_ge _ _)) by (change NonceSize with 12; change Overhead with 16; lia). cbn [orb reject_if mbind result_bind].
  change (1 + NonceSize) with 13 in *. rewrite (proj2 (Nat.ltb_ge _ _)).
  2: { unfold NonceSize, Overhead. destruct plaintext; [done|]. cbn [length]. lia. }
  cbn [reject_if mbind result_bind take drop]. change NonceSize with 12 in Hn. rewrite take_app_length', drop_app_length', open_seal by done.
  by rewrite bool_decide_eq_false_2, (proj2 (Z.ltb_ge _ _)).
Qed.

(** C28 Every payload within the limit can be sealed, takes 29 bytes more than its
    text and is accepted by the service's bound; opened with the secret and the context
    it was sealed for, it gives the text back.  If it opens in any context under the
    same secret, then it opens to the same text and the context is the same in kind,
    route, sender, recipient and generation, or AES-GCM has two inputs of one key and
    nonce with one output. *)
Theorem payload_sealed (secret : bytes) (context : PayloadContext) (plaintext nonce : bytes) :
  Secret_Valid secret = true → validatePayloadContext context = Ok tt → uint64_range (pc_Generation context) →
  plaintext ≠ [] → (Z.of_nat (length plaintext) ≤ MaximumPlaintextBytes)%Z → length nonce = NonceSize →
  ∃ ciphertext, sealPayload secret context plaintext (Ok nonce) = Ok ciphertext ∧ length ciphertext = length plaintext + 29 ∧
    (Z.of_nat (length ciphertext) ≤ MaximumCiphertextBytes)%Z ∧ OpenPayload secret context ciphertext = Ok plaintext ∧
    ∀ context' plaintext', uint64_range (pc_Generation context') → OpenPayload secret context' ciphertext = Ok plaintext' →
      (context' = context ∧ plaintext' = plaintext) ∨
      (plaintext', payloadAssociatedData context') ≠ (plaintext, payloadAssociatedData context) ∧
      aead_Seal (hmac secret key_label) nonce plaintext' (payloadAssociatedData context') =
        aead_Seal (hmac secret key_label) nonce plaintext (payloadAssociatedData context).
Proof.
  intros Hs Hc Hg Hne Hlen Hn. exists (EncryptedPayloadVersion :: nonce ++ aead_Seal (hmac secret key_label) nonce plaintext (payloadAssociatedData context)).
  assert (Hsize : length (EncryptedPayloadVersion :: nonce ++ aead_Seal (hmac secret key_label) nonce plaintext (payloadAssociatedData context)) = length plaintext + 29).
  { simpl. rewrite length_app, seal_size, Hn. change NonceSize with 12. change Overhead with 16. lia. }
  split; [by apply seal_ok|]. split; [done|]. split; [rewrite Hsize; change MaximumPlaintextBytes with 24576%Z in *; change MaximumCiphertextBytes with 32768%Z; lia|].
  split; [by apply open_sealed|]. intros context' plaintext' Hg' (Hc' & nonce' & Hn' & E)%open_inv. injection E as E.
  apply app_inj_1 in E as [<- E]; [|congruence]. destruct (decide (plaintext' = plaintext ∧ payloadAssociatedData context' = payloadAssociatedData context)) as [[-> Ha]|Hd].
  - left. split; [|done]. by eapply associated_data_inj.
  - right. split; [|done]. intros Ep. apply Hd. split; [exact (f_equal fst Ep)|exact (f_equal snd Ep)].
Qed.

(** The values depend on the window of the clock only. *)
Lemma derive_agrees secret at_ at' access access' : DeriveAccess secret at_ = Ok access → DeriveAccess secret at' = Ok access' →
  (at_ / CredentialLifetime = at' / CredentialLifetime)%Z → access' = access.
Proof.
  assert (Hepoch : ∀ t, (unix_seconds t / lifetime_seconds = t / CredentialLifetime)%Z) by (intros t; unfold unix_seconds; by rewrite Z.div_div).
  unfold DeriveAccess. rewrite !Hepoch. intros (? & _ & [= <-])%result_bind_ok (? & _ & [= <-])%result_bind_ok Hw. by rewrite Hw.
Qed.

(** Two paired devices, each with its own clock, derive the same route and token for
    any two times of the same five-minute window of the clock; the values are ones the
    hosted service accepts as a route and as a bearer token, and they expire after the
    time they were derived for and within five minutes of it. *)
Theorem access_agrees (secret : bytes) (at_ at' : Z) :
  Secret_Valid secret = true → (0 ≤ at_)%Z → (0 ≤ at')%Z → (at_ / CredentialLifetime = at' / CredentialLifetime)%Z →
  ∃ access, DeriveAccess secret at_ = Ok access ∧ DeriveAccess secret at' = Ok access ∧
    validOpaqueValue (ac_RouteID access) = true ∧ (∃ token, bearerToken ("Bearer " +:+ ac_Token access) = Some token) ∧
    (at_ < ac_ExpiresAt access ≤ at_ + CredentialLifetime)%Z.
Proof.
  intros Hs Ht Ht' Hw. assert (Hepoch : ∀ t, (unix_seconds t / lifetime_seconds = t / CredentialLifetime)%Z).
  { intros t. unfold unix_seconds. rewrite Z.div_div by done. done. }
  assert (Hok : ∀ t, (0 ≤ t)%Z → DeriveAccess secret t = Ok (
    let route := derive secret route_label (big_endian 8 (t / CredentialLifetime)) in
    MkAccess (RawURL_EncodeToString route) (RawURL_EncodeToString (derive secret auth_label route)) ((t / CredentialLifetime + 1) * lifetime_seconds * second))).
  { intros t Hpos. unfold DeriveAccess. rewrite Hs, Hepoch. unfold is_zero_time. rewrite (proj2 (Z.eqb_neq _ _)) by (unfold zero_time; lia).
    rewrite (proj2 (Z.ltb_ge _ _)); [done|]. unfold unix_seconds. by apply Z.div_pos. }
  eexists. split; [by apply Hok|]. split; [rewrite Hw; by apply Hok|]. cbn [ac_RouteID ac_Token ac_ExpiresAt]. split; [by apply opaque_encoding, hmac_size|].
  split; [eexists; by apply bearer_encoding, hmac_size|].
  rewrite <-Z.mul_assoc. change (lifetime_seconds * second)%Z with CredentialLifetime.
  pose proof (Z.div_mod at_ CredentialLifetime). pose proof (Z.mod_pos_bound at_ CredentialLifetime). assert (0 < CredentialLifetime)%Z by done. lia.
Qed.
End Sealing.

(** ** Witnesses *)

(** A tag from the end of the associated data. *)
Definition toy_tag (data : bytes) : bytes := take Overhead (reverse data ++ replicate Overhead Ascii.zero).
#[local] Instance toy_aead : Aead := {|
  hmac key message := take 32 (reverse message ++ key ++ replicate 32 Ascii.zero);
  aead_Seal _ _ plaintext data := plaintext ++ toy_tag data;
  aead_Open _ _ ciphertext data :=
    let n := length ciphertext - Overhead in
    if bool_decide (drop n ciphertext = toy_tag data) then Ok (take n ciphertext) else Err []
|}.

Lemma toy_tag_size data : length (toy_tag data) = Overhead.
Proof. unfold toy_tag. rewrite length_take, length_app, length_replicate. lia. Qed.

#[local] Instance toy_laws : AeadLaws.
Proof.
  split.
  - intros key message. cbn [hmac toy_aead]. rewrite length_take, !length_app, length_replicate. lia.
  - intros. simpl. by rewrite length_app, toy_tag_size.
  - intros. simpl. rewrite length_app, toy_tag_size, Nat.add_sub, drop_app_length, take_app_length. by rewrite bool_decide_eq_true_2.
  - intros key nonce c data p. simpl. case_bool_decide as E; [|done]. intros [= <-]. by rewrite <-E, take_drop.
Defined.

Definition sample_secret : bytes := replicate 32 "s"%char.
Definition sample_route : string := RawURL_EncodeToString (replicate 32 "r"%char).
Definition sample_context : PayloadContext := presence_context sample_route RoleWorker 7.

Lemma payload_sealed_witness :
  ∃ ciphertext, sealPayload sample_secret sample_context (bytes_of "hello") (Ok (replicate 12 "n"%char)) = Ok ciphertext ∧
    OpenPayload sample_secret sample_context ciphertext = Ok (bytes_of "hello").
Proof.
  destruct (payload_sealed sample_secret sample_context (bytes_of "hello") (replicate 12 "n"%char)) as (c & H1 & _ & _ & H2 & _);
    [reflexivity|vm_compute; reflexivity|unfold uint64_range; simpl; lia|discriminate|vm_compute; discriminate|reflexivity|].
  exists c. split; [exact H1|exact H2].
Defined.

Lemma access_agrees_witness :
  ∃ access, DeriveAccess sample_secret (600 * second) = Ok access ∧ DeriveAccess sample_secret (899 * second) = Ok access.
Proof.
  destruct (access_agrees sample_secret (600 * second) (899 * second)) as (access & H1 & H2 & _);
    [reflexivity|vm_compute; discriminate|vm_compute; discriminate|vm_compute; reflexivity|].
  exists access. split; [exact H1|exact H2].
Defined.
