(* ===== verification/IcePath.v ===== *)
(** * Presence documents and ICE sessions (internal/connectivity/icepath: presence.go, session.go)

    The document in which a device tells a paired device how to reach it, and the
    session that gathers the candidates for it and selects a path.  The ICE agent is
    a parameter: [UnmarshalCandidate] parses a candidate, and what the agent reports
    are arguments and events. *)

From S2P Require Import Prelude GoText JobModel Encoding Device Trust Rendezvous Frames Payload.
From Stdlib Require Import Ascii.
Local Open Scope string_scope.
Local Open Scope nat_scope.
Local Open Scope list_scope.

(** ** Descriptions *)

Definition maximumCandidates : nat := 64.
Definition maximumCandidateLength : nat := 2048.
Definition maximumCandidateBytes : Z := Z.shiftl 20 10.
Definition minimumUfragLength : nat := 4.
Definition maximumUfragLength : nat := 256.
Definition minimumPasswordLength : nat := 22.
Definition maximumPasswordLength : nat := 256.
Definition maximumServers : nat := 8.
Definition maximumServerSecret : nat := 512.

(** An [ice.Candidate]: whether its component is RTP and its network UDP. *)
Record Candidate := MkCandidate { cd_rtp : bool; cd_udp : bool }.
Record Description := MkDescription { ds_Ufrag : string; ds_Password : string; ds_Candidates : list string }.

Section Descriptions.
Context (UnmarshalCandidate : string → option Candidate).

Fixpoint validate_candidates (seen : list string) (totalBytes : Z) (candidates : list string) : result unit :=
  let e := [IceErrInvalidDescription] in
  match candidates with
  | [] => Ok tt
  | encoded :: rest =>
      _ ← reject_if (bool_decide (encoded = "") || (maximumCandidateLength <? String.length encoded)) e;
      let totalBytes := (totalBytes + Z.of_nat (String.length encoded))%Z in
      _ ← reject_if (maximumCandidateBytes <? totalBytes)%Z e;
      _ ← reject_if (bool_decide (encoded ∈ seen)) e;
      match UnmarshalCandidate encoded with
      | None => Err e
      | Some candidate =>
          _ ← reject_if (negb (cd_rtp candidate) || negb (cd_udp candidate)) e;
          validate_candidates (encoded :: seen) totalBytes rest
      end
  end.

Definition Description_Validate (description : Description) : result unit :=
  let ufrag := ds_Ufrag description in
  let password := ds_Password description in
  _ ← reject_if ((String.length ufrag <? minimumUfragLength) || (maximumUfragLength <? String.length ufrag)
        || (String.length password <? minimumPasswordLength) || (maximumPasswordLength <? String.length password)
        || containsNUL ufrag || containsNUL password
        || bool_decide (ds_Candidates description = []) || (maximumCandidates <? length (ds_Candidates description))) [IceErrInvalidDescription];
  validate_candidates [] 0 (ds_Candidates description).

(** ** Presence documents *)

Definition PresenceProtocolVersion : Z := 1.
Definition SessionIDBytes : nat := 16.
Definition MaximumPresenceLifetime : Z := (2 * minute)%Z.
Definition maximumPresenceClockSkew : Z := (30 * second)%Z.

Record Presence := MkPresenceDoc { pr_Generation : Z; pr_SessionID : bytes; pr_CreatedAt : Z; pr_ExpiresAt : Z; pr_Description : Description }.

(** The messages of rendezvous.proto; [ep_unknown]: the message has unknown fields. *)
Record EndpointPresencePayload := MkEndpointPresence {
  ep_protocol_version : Z; ep_generation : Z; ep_session_id : bytes; ep_created_at_unix_nano : Z; ep_expires_at_unix_nano : Z;
  ep_ice : option Description; ep_unknown : bool
}.

Definition validSessionID (sessionID : bytes) : bool :=
  bool_decide (length sessionID = SessionIDBytes) && negb (fold_left (λ combined value, Z.lor combined (val value)) sessionID 0 =? 0)%Z.

Definition validatePresence (presence : Presence) (now_ : Z) : result unit :=
  let e := [IceErrInvalidPresence] in
  _ ← reject_if ((pr_Generation presence =? 0)%Z || is_zero_time (pr_CreatedAt presence) || is_zero_time (pr_ExpiresAt presence)
        || (unix_nano (pr_CreatedAt presence) <=? 0)%Z || negb (after (pr_ExpiresAt presence) (pr_CreatedAt presence))
        || (MaximumPresenceLifetime <? pr_ExpiresAt presence - pr_CreatedAt presence)%Z
        || negb (validSessionID (pr_SessionID presence)) || failed (Description_Validate (pr_Description presence))) e;
  reject_if (negb (is_zero_time now_)
    && (after (pr_CreatedAt presence) (now_ + maximumPresenceClockSkew) || negb (before now_ (pr_ExpiresAt presence)))) e.

(** [random] is what [io.ReadFull] fills the session identifier with. *)
Definition newPresence (description : Description) (generation now_ lifetime : Z) (random : result bytes) : result Presence :=
  let e := [IceErrInvalidPresence] in
  _ ← reject_if ((generation =? 0)%Z || is_zero_time now_ || (unix_nano now_ <=? 0)%Z || (lifetime <=? 0)%Z
        || (MaximumPresenceLifetime <? lifetime)%Z || failed (Description_Validate description)) e;
  sessionID ← (match random with Ok b => Ok b | Err _ => Err e end);
  let presence := MkPresenceDoc generation sessionID now_ (now_ + lifetime) description in
  _ ← reject_if (failed (validatePresence presence zero_time)) e;
  Ok presence.

Definition presenceMessage (presence : Presence) : result EndpointPresencePayload :=
  _ ← reject_if (failed (validatePresence presence zero_time)) [IceErrInvalidPresence];
  Ok (MkEndpointPresence PresenceProtocolVersion (pr_Generation presence) (pr_SessionID presence) (unix_nano (pr_CreatedAt presence))
    (unix_nano (pr_ExpiresAt presence)) (Some (pr_Description presence)) false).

Definition presenceFromMessage (message : EndpointPresencePayload) : result Presence :=
  let e := [IceErrInvalidPresence] in
  _ ← reject_if (negb (ep_protocol_version message =? PresenceProtocolVersion)%Z || (ep_generation message =? 0)%Z
        || negb (validSessionID (ep_session_id message)) || (ep_created_at_unix_nano message <=? 0)%Z || (ep_expires_at_unix_nano message <=? 0)%Z) e;
  match ep_ice message with
  | None => Err e
  | Some ice => Ok (MkPresenceDoc (ep_generation message) (ep_session_id message) (from_unix_nano (ep_created_at_unix_nano message))
      (from_unix_nano (ep_expires_at_unix_nano message)) ice)
  end.

Context `{Aead} `{Codec EndpointPresencePayload}.

Definition SealPresence (secret : bytes) (routeID sender : string) (presence : Presence) (random : result bytes) : result bytes :=
  let e := [IceErrInvalidPresence] in
  message ← presenceMessage presence;
  match marshal message with
  | Err _ => Err e
  | Ok plaintext =>
      _ ← reject_if (bool_decide (plaintext = []) || (MaximumPlaintextBytes <? Z.of_nat (length plaintext))%Z) e;
      match payload_SealPresence secret routeID sender (pr_Generation presence) plaintext random with
      | Err _ => Err e
      | Ok ciphertext => Ok ciphertext
      end
  end.

Definition OpenPresence (secret : bytes) (routeID sender : string) (generation : Z) (ciphertext : bytes) (now_ : Z) : result Presence :=
  let e := [IceErrInvalidPresence] in
  _ ← reject_if ((generation =? 0)%Z || is_zero_time now_ || (unix_nano now_ <=? 0)%Z) e;
  match payload_OpenPresence secret routeID sender generation ciphertext with
  | Err _ => Err e
  | Ok plaintext =>
      match unmarshal plaintext with
      | Err _ => Err e
      | Ok message =>
          _ ← reject_if (ep_unknown message) e;
          match presenceFromMessage message with
          | Err _ => Err e
          | Ok presence =>
              _ ← reject_if (negb (pr_Generation presence =? generation)%Z || failed (validatePresence presence now_)) e;
              Ok presence
          end
      end
  end.

(** ** Sessions *)

Inductive sessionState := stateNew | stateGathering | stateGathered | stateConnecting | stateConnected | stateClosed.
#[global] Instance sessionState_eq_dec : EqDecision sessionState.
Proof. solve_decision. Defined.

(** [se_gatherDone]: the channel is closed. *)
Record Session := MkSession {
  se_state : sessionState; se_candidates : list string; se_gatherErr : option (list sentinel); se_gatherDone : bool; se_agentClosed : bool
}.
Definition with_state (state : sessionState) (s : Session) : Session :=
  MkSession state (se_candidates s) (se_gatherErr s) (se_gatherDone s) (se_agentClosed s).
Definition with_gatherErr (e : list sentinel) (s : Session) : Session :=
  MkSession (se_state s) (se_candidates s) (Some e) (se_gatherDone s) (se_agentClosed s).

Definition Session_Close (s : Session) : Session := MkSession stateClosed (se_candidates s) (se_gatherErr s) true true.

(** The agent calls back with a candidate and its encoding, or [None] at the end. *)
Definition onCandidate (candidate : option (string * Candidate)) (s : Session) : Session :=
  if bool_decide (se_state s = stateClosed) then s
  else match candidate with
  | None => MkSession (se_state s) (se_candidates s) (se_gatherErr s) true (se_agentClosed s)
  | Some (encoded, c) =>
      if maximumCandidates <=? length (se_candidates s) then with_gatherErr [IceErrInvalidDescription] s
      else if bool_decide (encoded = "") || (maximumCandidateLength <? String.length encoded) || negb (cd_rtp c) || negb (cd_udp c)
      then with_gatherErr [IceErrInvalidDescription] s
      else if (maximumCandidateBytes <? Z.of_nat (String.length encoded + list_sum (String.length <$> se_candidates s)))%Z
      then with_gatherErr [IceErrInvalidDescription] s
      else MkSession (se_state s) (se_candidates s ++ [encoded]) (se_gatherErr s) (se_gatherDone s) (se_agentClosed s)
  end.

(** What happens while [Gather] waits; [Woken]: [select] takes the closed channel. *)
Inductive GatherEvent := Found (candidate : option (string * Candidate)) | Cancelled (e : list sentinel) | Woken | ClosedElsewhere.

(** [None]: still waiting. *)
Fixpoint gather_wait (events : list GatherEvent) (s : Session) : option (result unit) * Session :=
  match events with
  | [] => (None, s)
  | Found candidate :: rest => gather_wait rest (onCandidate candidate s)
  | Cancelled e :: _ => (Some (Err e), Session_Close s)
  | Woken :: rest => if se_gatherDone s then (Some (Ok tt), s) else gather_wait rest s
  | ClosedElsewhere :: rest => gather_wait rest (Session_Close s)
  end.

(** [started] is the outcome of [GatherCandidates], [credentials] of
    [GetLocalUserCredentials]; [closed]: [Close] is called before the last lock. *)
Definition Gather (started : result unit) (events : list GatherEvent) (credentials : result (string * string)) (closed : bool) (s : Session) :
    option (result Description) * Session :=
  if negb (bool_decide (se_state s = stateNew)) then (Some (Err [IceErrInvalidSessionState]), s)
  else
    let s := with_state stateGathering s in
    match started with
    | Err e => (Some (Err e), Session_Close s)
    | Ok _ =>
        match gather_wait events s with
        | (None, s) => (None, s)
        | (Some (Err e), s) => (Some (Err e), s)
        | (Some (Ok _), s) =>
            match se_gatherErr s with
            | Some e => (Some (Err e), Session_Close s)
            | None =>
                if bool_decide (se_candidates s = []) then (Some (Err [IceErrNoCandidates]), Session_Close s)
                else match credentials with
                | Err e => (Some (Err e), s)
                | Ok (ufrag, password) =>
                    let description := MkDescription ufrag password (se_candidates s) in
                    let s := if closed then Session_Close s else s in
                    match Description_Validate description with
                    | Err e => (Some (Err e), s)
                    | Ok _ =>
                        if negb (bool_decide (se_state s = stateGathering)) then (Some (Err [IceErrInvalidSessionState]), s)
                        else (Some (Ok description), with_state stateGathered s)
                    end
                end
            end
        end
    end.

(** [added] are the outcomes of [AddRemoteCandidate], in order. *)
Fixpoint add_candidates (candidates : list string) (added : nat → result unit) (k : nat) : result unit :=
  match candidates with
  | [] => Ok tt
  | encoded :: rest =>
      match UnmarshalCandidate encoded with
      | None => Err [IceErrInvalidDescription]
      | Some _ => match added k with Err e => Err e | Ok _ => add_candidates rest added (S k) end
      end
  end.

(** [dialed] and [accepted] are the outcomes of the agent's [Dial] and [Accept]. *)
Definition Connect {C} (localRole : string) (remote : Description) (added : nat → result unit) (dialed accepted : result C) (closed : bool) (s : Session) :
    result C * Session :=
  if failed (Description_Validate remote) then (Err [IceErrInvalidDescription], s)
  else if negb (known_role localRole) then (Err [IceErrInvalidConfiguration], s)
  else if negb (bool_decide (se_state s = stateGathered)) then (Err [IceErrInvalidSessionState], s)
  else
    let s := with_state stateConnecting s in
    match add_candidates (ds_Candidates remote) added 0 with
    | Err e => (Err e, Session_Close s)
    | Ok _ =>
        match (if bool_decide (localRole = RoleOrchestrator) then dialed else accepted) with
        | Err e => (Err e, Session_Close s)
        | Ok connection =>
            let s := if closed then Session_Close s else s in
            if bool_decide (se_state s = stateClosed) then (Err [IceErrInvalidSessionState], s)
            else (Ok connection, with_state stateConnected s)
        end
    end.
End Descriptions.

(** ** Configuration *)

Inductive Scheme := SchemeSTUN | SchemeSTUNS | SchemeTURN | SchemeTURNS | SchemeOther.
Record Server := MkServer { sv_URI : string; sv_Username : string; sv_Password : string }.
Record IceConfig := MkIceConfig { ic_Servers : list Server; ic_EnableIPv6 : bool; ic_RelayOnly : bool }.
Inductive NetworkType := NetworkTypeUDP4 | NetworkTypeUDP6.

(** [ParseURI] is [stun.ParseURI]; the URLs carry the credentials of the server. *)
Fixpoint parseServers_loop (ParseURI : string → result Scheme) (servers : list Server) : result (list Server * bool) :=
  match servers with
  | [] => Ok ([], false)
  | server :: rest =>
      scheme ← ParseURI (sv_URI server);
      turn ← (match scheme with
        | SchemeTURN | SchemeTURNS =>
            _ ← reject_if (bool_decide (sv_Username server = "") || bool_decide (sv_Password server = "")
                  || (maximumServerSecret <? String.length (sv_Username server)) || (maximumServerSecret <? String.length (sv_Password server))
                  || containsNUL (sv_Username server) || containsNUL (sv_Password server)) [IceErrInvalidConfiguration];
            Ok true
        | SchemeSTUN | SchemeSTUNS =>
            _ ← reject_if (negb (bool_decide (sv_Username server = "")) || negb (bool_decide (sv_Password server = ""))) [IceErrInvalidConfiguration];
            Ok false
        | SchemeOther => Err [IceErrInvalidConfiguration]
        end);
      others ← parseServers_loop ParseURI rest;
      Ok (server :: others.1, turn || others.2)
  end.
Definition parseServers (ParseURI : string → result Scheme) (servers : list Server) : result (list Server * bool) :=
  _ ← reject_if (maximumServers <? length servers) [IceErrInvalidConfiguration];
  parseServers_loop ParseURI servers.

(** The options of the agent: servers, networks, and whether only relays are used. *)
Record AgentOptions := MkAgentOptions { ao_urls : list Server; ao_networks : list NetworkType; ao_relay : bool }.

(** [created] is the outcome of making the agent and registering the callback. *)
Definition NewSession (ParseURI : string → result Scheme) (created : AgentOptions → result unit) (config : IceConfig) : result Session :=
  match parseServers ParseURI (ic_Servers config) with
  | Err _ => Err [IceErrInvalidConfiguration]
  | Ok (urls, hasTURN) =>
      _ ← reject_if (ic_RelayOnly config && negb hasTURN) [IceErrInvalidConfiguration];
      let networks := NetworkTypeUDP4 :: (if ic_EnableIPv6 config then [NetworkTypeUDP6] else []) in
      match created (MkAgentOptions urls networks (ic_RelayOnly config)) with
      | Err _ => Err [IceErrInvalidConfiguration]
      | Ok _ => Ok (MkSession stateNew [] None false false)
      end
  end.

(** ** Selected paths *)

Inductive CandidateType := TypeHost | TypeServerReflexive | TypePeerReflexive | TypeRelay.
#[global] Instance CandidateType_eq_dec : EqDecision CandidateType.
Proof. solve_decision. Defined.

(** [Path.Kind]. *)
Definition path_kind (local remote : CandidateType) : string :=
  if bool_decide (local = TypeRelay) || bool_decide (remote = TypeRelay) then "relay"
  else if bool_decide (local = TypeServerReflexive) || bool_decide (remote = TypeServerReflexive)
       || bool_decide (local = TypePeerReflexive) || bool_decide (remote = TypePeerReflexive) then "server-reflexive"
  else "host".

(** [GetSelectedCandidatePair]: an error, no pair, or the types of the pair. *)
Definition SelectedPath (pair : result (option (CandidateType * CandidateType))) : result string :=
  pair ← pair;
  match pair with None => Err [IceErrInvalidSessionState] | Some (local, remote) => Ok (path_kind local remote) end.

(** ** Presence documents: what is opened *)

Section Documents.
Context (UnmarshalCandidate : string → option Candidate).
Context `{AeadLaws} `{Codec EndpointPresencePayload}.

Lemma validatePresence_ok presence now_ u : validatePresence UnmarshalCandidate presence now_ = Ok u →
  pr_Generation presence ≠ 0%Z ∧ (unix_nano (pr_CreatedAt presence) > 0)%Z ∧ (pr_CreatedAt presence < pr_ExpiresAt presence)%Z ∧
  (pr_ExpiresAt presence - pr_CreatedAt presence ≤ MaximumPresenceLifetime)%Z ∧ validSessionID (pr_SessionID presence) = true ∧
  Description_Validate UnmarshalCandidate (pr_Description presence) = Ok tt ∧
  (now_ ≠ zero_time → pr_CreatedAt presence ≤ now_ + maximumPresenceClockSkew ∧ now_ < pr_ExpiresAt presence)%Z.
Proof.
  unfold validatePresence. intros (? & Hp%reject_if_ok & Hn%reject_if_ok)%result_bind_ok.
  apply orb_false_iff in Hp as [Hp Hd]. unfold after, before, is_zero_time in *. reflect_bools.
  destruct (Description_Validate _ _) as [[]|]; [|done]. split_and!; try done; try lia.
Qed.

(** A valid document is valid at the times when it is fresh. *)
Lemma validatePresence_at presence now_ : validatePresence UnmarshalCandidate presence zero_time = Ok tt →
  (pr_CreatedAt presence ≤ now_ + maximumPresenceClockSkew)%Z → (now_ < pr_ExpiresAt presence)%Z →
  validatePresence UnmarshalCandidate presence now_ = Ok tt.
Proof.
  unfold validatePresence. intros (? & -> & _)%result_bind_ok Hc He. cbn [mbind result_bind]. apply reject_if_ok.
  unfold after, before. rewrite (proj2 (Z.ltb_ge _ _)), (proj2 (Z.ltb_lt _ _)) by lia. by rewrite andb_false_r.
Qed.

Lemma presence_message_roundtrip presence message : int64_range (pr_CreatedAt presence) → int64_range (pr_ExpiresAt presence) →
  presenceMessage UnmarshalCandidate presence = Ok message → ep_unknown message = false ∧ presenceFromMessage message = Ok presence.
Proof.
  intros Hc He (? & Hv%reject_if_ok & [= <-])%result_bind_ok. split; [done|].
  destruct (validatePresence _ _ _) as [[]|] eqn:E; [|done]. apply validatePresence_ok in E as (Hg & Hcreated & Hlt & _ & Hs & _).
  unfold presenceFromMessage. cbn [ep_protocol_version ep_generation ep_session_id ep_created_at_unix_nano ep_expires_at_unix_nano ep_ice].
  assert (unix_nano (pr_ExpiresAt presence) > 0)%Z by (unfold unix_nano in *; rewrite wrap_int64_id by done; rewrite wrap_int64_id in Hcreated by done; lia).
  rewrite Hs, (proj2 (Z.eqb_neq (pr_Generation presence) 0)), !(proj2 (Z.leb_gt _ 0)) by (done || lia). cbn [negb orb reject_if mbind result_bind].
  rewrite !unix_nano_roundtrip by done. by destruct presence.
Qed.

(** What a document that is opened promises, whoever sent it. *)
Lemma opened_is_fresh secret routeID sender generation ciphertext now_ presence :
  OpenPresence UnmarshalCandidate secret routeID sender generation ciphertext now_ = Ok presence →
  pr_Generation presence = generation ∧ (pr_CreatedAt presence ≤ now_ + maximumPresenceClockSkew)%Z ∧ (now_ < pr_ExpiresAt presence)%Z ∧
  (pr_ExpiresAt presence - pr_CreatedAt presence ≤ MaximumPresenceLifetime)%Z ∧
  Description_Validate UnmarshalCandidate (pr_Description presence) = Ok tt ∧ generation ≠ 0%Z.
Proof.
  unfold OpenPresence. intros (? & Hg%reject_if_ok & E)%result_bind_ok. unfold is_zero_time in Hg. reflect_bools.
  destruct (payload_OpenPresence _ _ _ _ _) as [plaintext|]; [|done]. destruct (unmarshal plaintext) as [message|]; [|done].
  apply result_bind_ok in E as (? & _ & E). destruct (presenceFromMessage message) as [p|]; [|done].
  apply result_bind_ok in E as (? & Hp%reject_if_ok & [= <-]). apply orb_false_iff in Hp as [Hp Hv]. reflect_bools.
  destruct (validatePresence _ _ _) as [[]|] eqn:Ev; [|done]. apply validatePresence_ok in Ev as (_ & _ & _ & Hl & _ & Hd & Hnow).
  destruct (Hnow ltac:(done)). by split_and!.
Qed.

(** The plaintext of the document decodes to it. *)
Definition portable_presence (presence : Presence) : Prop :=
  ∃ message plaintext, presenceMessage UnmarshalCandidate presence = Ok message ∧ marshal message = Ok plaintext ∧ unmarshal plaintext = Ok message.

Lemma sealed_presence_opens secret routeID sender presence nonce ciphertext now_ :
  portable_presence presence → SealPresence UnmarshalCandidate secret routeID sender presence (Ok nonce) = Ok ciphertext → length nonce = NonceSize →
  int64_range (pr_CreatedAt presence) → int64_range (pr_ExpiresAt presence) → (0 < now_)%Z →
  (pr_CreatedAt presence ≤ now_ + maximumPresenceClockSkew)%Z → (now_ < pr_ExpiresAt presence)%Z →
  OpenPresence UnmarshalCandidate secret routeID sender (pr_Generation presence) ciphertext now_ = Ok presence.
Proof.
  intros (message & plaintext & Hm & Hp & Hu) Hseal Hn Hc He Hpos Hfresh Hlive.
  destruct (presence_message_roundtrip presence message Hc He Hm) as [Hunknown Hback].
  unfold SealPresence in Hseal. rewrite Hm in Hseal. cbn [mbind result_bind] in Hseal. rewrite Hp in Hseal.
  apply result_bind_ok in Hseal as (? & Hlen%reject_if_ok & Hseal). reflect_bools.
  destruct (payload_SealPresence _ _ _ _ _ _) as [c|] eqn:Es; [|done]. injection Hseal as <-.
  unfold payload_SealPresence, sealPayload in Es. apply result_bind_ok in Es as (? & Hg%reject_if_ok & Es).
  apply orb_false_iff in Hg as [Hg _]. apply orb_false_iff in Hg as [Hg _]. apply orb_false_iff in Hg as [Hs Hcx]. apply negb_false_iff in Hs.
  destruct (validatePayloadContext _) as [[]|] eqn:Ecx; [|done]. rewrite key_ok in Es. cbn [mbind result_bind] in Es.
  apply result_bind_ok in Es as (? & _ & [= <-]).
  unfold OpenPresence, payload_OpenPresence. rewrite (open_sealed secret _ plaintext nonce) by done. rewrite Hu, Hunknown, Hback.
  unfold presenceMessage in Hm. apply result_bind_ok in Hm as (? & Hv%reject_if_ok & _).
  destruct (validatePresence _ presence zero_time) as [[]|] eqn:Ev; [|done].
  rewrite (validatePresence_at presence now_) by done. apply validatePresence_ok in Ev as (Hgen & _).
  unfold is_zero_time, unix_nano. rewrite wrap_int64_id by (unfold int64_range in *; lia).
  rewrite (proj2 (Z.eqb_neq (pr_Generation presence) 0)), (proj2 (Z.eqb_neq now_ _)), (proj2 (Z.leb_gt _ _)), Z.eqb_refl by (done || unfold zero_time; lia). done.
Qed.
End Documents.

(** ** Sessions: one description and one path *)

Section Runs.
Context (UnmarshalCandidate : string → option Candidate).

(** The calls on a session: by its owner, or by the agent and other goroutines between them. *)
Inductive SessionCall :=
| CallGather (started : result unit) (events : list GatherEvent) (credentials : result (string * string)) (closed : bool)
| CallConnect (localRole : string) (remote : Description) (added : nat → result unit) (dialed accepted : result nat) (closed : bool)
| CallCandidate (candidate : option (string * Candidate))
| CallClose.

(** What a call gave its caller. *)
Inductive Given := GivenDescription (d : Description) | GivenPath (connection : nat).

Definition session_call (call : SessionCall) (s : Session) : list Given * Session :=
  match call with
  | CallGather started events credentials closed =>
      let '(r, s) := Gather UnmarshalCandidate started events credentials closed s in
      (match r with Some (Ok d) => [GivenDescription d] | _ => [] end, s)
  | CallConnect localRole remote added dialed accepted closed =>
      let '(r, s) := Connect UnmarshalCandidate localRole remote added dialed accepted closed s in
      (match r with Ok c => [GivenPath c] | Err _ => [] end, s)
  | CallCandidate candidate => ([], onCandidate candidate s)
  | CallClose => ([], Session_Close s)
  end.
Fixpoint session_calls (calls : list SessionCall) (s : Session) : list Given * Session :=
  match calls with
  | [] => ([], s)
  | call :: rest =>
      let '(given, s) := session_call call s in
      let '(others, s) := session_calls rest s in (given ++ others, s)
  end.

(** The bounds on what a session stores. *)
Definition session_ok (s : Session) : Prop :=
  length (se_candidates s) ≤ maximumCandidates ∧ (Z.of_nat (list_sum (String.length <$> se_candidates s)) ≤ maximumCandidateBytes)%Z.

Lemma onCandidate_ok candidate s : session_ok s → session_ok (onCandidate candidate s) ∧ se_state (onCandidate candidate s) = se_state s.
Proof.
  intros Hs. unfold onCandidate. case_bool_decide; [done|]. destruct candidate as [[encoded c]|]; [|done].
  destruct (Nat.leb_spec maximumCandidates (length (se_candidates s))); [done|]. destruct (_ || _); [done|].
  destruct (Z.ltb_spec maximumCandidateBytes (Z.of_nat (String.length encoded + list_sum (String.length <$> se_candidates s)))); [done|].
  split; [|done]. unfold session_ok. cbn [se_candidates]. rewrite length_app, fmap_app, list_sum_app. simpl. lia.
Qed.

Lemma gather_wait_ok events s r s' : session_ok s → gather_wait events s = (r, s') →
  session_ok s' ∧ (se_state s' = se_state s ∨ se_state s' = stateClosed).
Proof.
  revert s. induction events as [|[candidate|e| |] rest IH]; intros s Hs; simpl.
  - intros [= <- <-]. by split; [|left].
  - destruct (onCandidate_ok candidate s Hs) as [Ho Est]. intros [Hs' Hst]%IH; [|done]. by rewrite Est in Hst.
  - intros [= <- <-]. by split; [|right].
  - destruct (se_gatherDone s); [intros [= <- <-]; by split; [|left]|by apply IH].
  - intros [Hs' Hst]%IH; [|done]. split; [done|]. right. by destruct Hst.
Qed.

(** What has been given by when. *)
Definition given_ok (state : sessionState) (given : list Given) : Prop :=
  match state with
  | stateNew | stateGathering => given = []
  | stateGathered | stateConnecting => ∃ d, given = [GivenDescription d]
  | stateConnected => ∃ d c, given = [GivenDescription d; GivenPath c]
  | stateClosed => given = [] ∨ (∃ d, given = [GivenDescription d]) ∨ ∃ d c, given = [GivenDescription d; GivenPath c]
  end ∧ Forall (λ g, match g with GivenDescription d => Description_Validate UnmarshalCandidate d = Ok tt | GivenPath _ => True end) given.

Lemma given_closed state given : given_ok state given → given_ok stateClosed given.
Proof. unfold given_ok. intros [Hg Hall]. split; [|done]. destruct state; auto. Qed.

Lemma given_gathering given : given_ok stateNew given → given_ok stateGathering given.
Proof. done. Qed.

Lemma gather_given started events credentials closed s r s' given : session_ok s → given_ok (se_state s) given →
  Gather UnmarshalCandidate started events credentials closed s = (r, s') →
  session_ok s' ∧ given_ok (se_state s') (given ++ match r with Some (Ok d) => [GivenDescription d] | _ => [] end).
Proof.
  intros Hs Hg. unfold Gather. case_bool_decide as Hnew; cbn [negb]; [|intros [= <- <-]; by rewrite app_nil_r].
  rewrite Hnew in Hg. assert (Hgs : session_ok (with_state stateGathering s)) by done.
  destruct started as [?|e]; [|intros [= <- <-]; rewrite app_nil_r; split; [done|by eapply given_closed]].
  destruct (gather_wait events (with_state stateGathering s)) as [[[?|e]|] s1] eqn:Ew; apply gather_wait_ok in Ew as [Hs1 Hst]; try done;
    (assert (Hg1 : given_ok (se_state s1) given) by (destruct Hst as [-> | ->]; [done|by eapply given_closed]));
    [|intros [= <- <-]; by rewrite app_nil_r..].
  destruct (se_gatherErr s1) as [e|]; [intros [= <- <-]; rewrite app_nil_r; split; [done|by eapply given_closed]|].
  case_bool_decide; [intros [= <- <-]; rewrite app_nil_r; split; [done|by eapply given_closed]|].
  destruct credentials as [[ufrag password]|e]; [|intros [= <- <-]; by rewrite app_nil_r].
  assert (Hs2 : session_ok (if closed then Session_Close s1 else s1) ∧ given_ok (se_state (if closed then Session_Close s1 else s1)) given)
    by (destruct closed; split; try done; by eapply given_closed).
  destruct (Description_Validate _ _) as [[]|e] eqn:Ed; [|intros [= <- <-]; by rewrite app_nil_r].
  case_bool_decide as Hg2; cbn [negb]; [|intros [= <- <-]; by rewrite app_nil_r].
  intros [= <- <-]. destruct Hs2 as [Hs2 Hgiven]. rewrite Hg2 in Hgiven. split; [done|]. destruct Hgiven as [-> _].
  split; [by eexists|]. by repeat constructor.
Qed.

Lemma connect_given localRole remote added dialed accepted closed s (r : result nat) s' given : session_ok s → given_ok (se_state s) given →
  Connect UnmarshalCandidate localRole remote added dialed accepted closed s = (r, s') →
  session_ok s' ∧ given_ok (se_state s') (given ++ match r with Ok c => [GivenPath c] | Err _ => [] end).
Proof.
  intros Hs Hg. unfold Connect. destruct (failed _); [intros [= <- <-]; by rewrite app_nil_r|].
  destruct (known_role localRole); cbn [negb]; [|intros [= <- <-]; by rewrite app_nil_r].
  case_bool_decide as Hst; cbn [negb]; [|intros [= <- <-]; by rewrite app_nil_r]. rewrite Hst in Hg.
  destruct (add_candidates _ _ _ _) as [?|e]; [|intros [= <- <-]; rewrite app_nil_r; split; [done|by eapply given_closed]].
  destruct (if bool_decide (localRole = RoleOrchestrator) then dialed else accepted) as [c|e];
    [|intros [= <- <-]; rewrite app_nil_r; split; [done|by eapply given_closed]].
  destruct closed; simpl; intros [= <- <-]; [rewrite app_nil_r; split; [done|by eapply given_closed]|].
  destruct Hg as [[d ->] Hall]. split; [done|]. split; [by exists d, c|]. apply Forall_app. split; [done|by repeat constructor].
Qed.

Lemma call_given call s s' given more : session_ok s → given_ok (se_state s) given → session_call call s = (more, s') →
  session_ok s' ∧ given_ok (se_state s') (given ++ more).
Proof.
  intros Hs Hg. destruct call as [started events credentials closed|localRole remote added dialed accepted closed|candidate|]; simpl.
  - destruct (Gather _ _ _ _ _ s) as [r s1] eqn:E. intros [= <- <-]. by eapply gather_given.
  - destruct (Connect _ _ _ _ _ _ _ s) as [r s1] eqn:E. intros [= <- <-]. by eapply connect_given.
  - intros [= <- <-]. rewrite app_nil_r. destruct (onCandidate_ok candidate s Hs) as [Ho ->]. done.
  - intros [= <- <-]. rewrite app_nil_r. split; [done|]. by eapply given_closed.
Qed.

(** However its owner, the agent and other goroutines use it, an ICE session gives out
    at most one description and then at most one path, in this order; the description
    passes the check that the other side makes of it, and the session never stores more
    than 64 candidates or 20480 bytes of them. *)
Theorem session_single_path (calls : list SessionCall) (given : list Given) (s : Session) :
  session_calls calls (MkSession stateNew [] None false false) = (given, s) →
  (given = [] ∨ (∃ d, given = [GivenDescription d]) ∨ ∃ d c, given = [GivenDescription d; GivenPath c]) ∧
  (∀ d, GivenDescription d ∈ given → Description_Validate UnmarshalCandidate d = Ok tt) ∧
  length (se_candidates s) ≤ 64 ∧ (Z.of_nat (list_sum (String.length <$> se_candidates s)) ≤ 20480)%Z.
Proof.
  intros E. enough (session_ok s ∧ given_ok (se_state s) given) as [[Hlen Hbytes] Hg].
  { pose proof (given_closed _ _ Hg) as [Hshape Hall]. split; [done|]. split; [|done]. intros d Hd. by apply (proj1 (Forall_forall _ _) Hall _ Hd). }
  assert (Hgen : ∀ s0 before_, session_ok s0 → given_ok (se_state s0) before_ → session_calls calls s0 = (given, s) → session_ok s ∧ given_ok (se_state s) (before_ ++ given)).
  2: { refine (Hgen _ [] _ _ E); [|by split]. unfold session_ok. simpl. split; [lia|done]. }
  clear E. revert given. induction calls as [|call rest IH]; intros given s0 before_ Hs Hg; simpl.
  - intros [= <- <-]. by rewrite app_nil_r.
  - destruct (session_call call s0) as [more s1] eqn:Ec. destruct (session_calls rest s1) as [others s2] eqn:Er. intros [= <- <-].
    destruct (call_given _ _ _ _ _ Hs Hg Ec) as [Hs1 Hg1]. rewrite app_assoc. by apply (IH others s1).
Qed.
End Runs.

(** ** Witnesses *)

Definition any_candidate (s : string) : option Candidate := Some (MkCandidate true true).
Definition sample_description : Description := MkDescription "frag" "aaaaaaaaaaaaaaaaaaaaaaaa" ["host"].

Lemma session_single_path_witness :
  (session_calls any_candidate
    [CallGather (Ok tt) [Found (Some ("host", MkCandidate true true)); Found None; Woken] (Ok ("frag", "aaaaaaaaaaaaaaaaaaaaaaaa")) false;
     CallConnect RoleWorker sample_description (λ _, Ok tt) (Ok 1) (Ok 2) false; CallClose] (MkSession stateNew [] None false false)).1
    = [GivenDescription sample_description; GivenPath 2] ∧
  Description_Validate any_candidate sample_description = Ok tt.
Proof.
  destruct (session_calls any_candidate
    [CallGather (Ok tt) [Found (Some ("host", MkCandidate true true)); Found None; Woken] (Ok ("frag", "aaaaaaaaaaaaaaaaaaaaaaaa")) false;
     CallConnect RoleWorker sample_description (λ _, Ok tt) (Ok 1) (Ok 2) false; CallClose] (MkSession stateNew [] None false false)) as [given s] eqn:E.
  assert (Hg : given = [GivenDescription sample_description; GivenPath 2]) by (vm_compute in E; injection E as <- <-; reflexivity).
  split; [exact Hg|]. apply (proj1 (proj2 (session_single_path any_candidate _ _ _ E))). rewrite Hg. left.
Defined.
