(* ===== verification/RendezvousClient.v ===== *)
(** * The rendezvous client (internal/connectivity/rendezvous/client.go) and the service it talks to

    The client posts protobuf messages; [Do] is the HTTP transport, which shows the
    client what [url.Parse] and [mime.ParseMediaType] made of texts.  With the service
    of [Rendezvous] as the transport, two paired devices exchange presence documents. *)

From S2P Require Import Prelude GoText JobModel Encoding Device Trust Rendezvous Frames Endpoint Payload IcePath.
From Stdlib Require Import Ascii.
Local Open Scope string_scope.
Local Open Scope nat_scope.
Local Open Scope list_scope.

(** ** Configuration *)

Definition maximumClientResponseBytes : Z := Z.shiftl 1 20.
Definition defaultClientTimeout : Z := (10 * second)%Z.

(** A parsed URL: the fields the client looks at and its text. *)
Record Url := MkUrl {
  ur_Scheme : string; ur_Host : string; ur_Hostname : string; ur_User : bool; ur_RawQuery : string; ur_Fragment : string; ur_Path : string; ur_String : string
}.
Record Client := MkClient { cl_baseURL : string; cl_timeout : Z }.

Definition trim_slash (s : string) : string :=
  if has_suffix s "/" then str_of (take (String.length s - 1) (bytes_of s)) else s.

(** [parsed]: what [url.Parse] gives; [loopback]: the host is an IP address that
    [IsLoopback]; [given]: the timeout of the HTTP client in the configuration, if any. *)
Definition NewClient (parsed : option Url) (loopback : string → bool) (AllowLoopbackHTTP : bool) (given : option Z) : result Client :=
  match parsed with
  | None => Err [ClientErrInvalidConfiguration]
  | Some u =>
      let loopbackHTTP := bool_decide (ur_Scheme u = "http") && AllowLoopbackHTTP
        && (bool_decide (ur_Hostname u = "localhost") || loopback (ur_Hostname u)) in
      _ ← reject_if (bool_decide (ur_Host u = "") || ur_User u || negb (bool_decide (ur_RawQuery u = "")) || negb (bool_decide (ur_Fragment u = ""))
            || negb (bool_decide (ur_Path u = "")) && negb (bool_decide (ur_Path u = "/"))
            || negb (bool_decide (ur_Scheme u = "https")) && negb loopbackHTTP) [ClientErrInvalidConfiguration];
      let timeout := default defaultClientTimeout given in
      Ok (MkClient (trim_slash (ur_String u)) (if (timeout <=? 0)%Z then defaultClientTimeout else timeout))
  end.

(** ** Messages (rendezvous.proto) *)

Record PresenceMessage := MkPresenceMessage { pm_role : Z; pm_generation : Z; pm_encrypted_payload : bytes; pm_expires_at_unix_nano : Z }.
Record PublishPresenceResponse := MkPublishResponse { pp_expires_at_unix_nano : Z; pp_peer : option PresenceMessage }.
Record SendSignalResponse := MkSendResponse { ss_sequence : Z; ss_expires_at_unix_nano : Z }.
Record SignalMessage := MkSignalMessage {
  sm_sequence : Z; sm_sender : Z; sm_encrypted_payload : bytes; sm_created_at_unix_nano : Z; sm_expires_at_unix_nano : Z
}.
Record PollSignalsResponse := MkPollResponse { ps_signals : list SignalMessage; ps_next_sequence : Z; ps_has_more : bool }.
Record ErrorMessage := MkErrorMessage { er_code : Z; er_message : string }.

(** ** Requests *)

(** [url.PathEscape]. *)
Definition unreserved (c : ascii) : bool :=
  let v := val c in
  ((97 <=? v) && (v <=? 122) || (65 <=? v) && (v <=? 90) || (48 <=? v) && (v <=? 57))%Z
  || bool_decide (c ∈ bytes_of "-_.~$&+=:@").
Definition hex_upper (n : Z) : ascii := (if n <? 10 then byte_of (n + 48) else byte_of (n + 55))%Z.
Definition PathEscape (s : string) : string :=
  str_of (concat ((λ c, if unreserved c then [c] else ["%"%char; hex_upper (val c / 16); hex_upper (val c mod 16)]) <$> bytes_of s)).

(** What came back: the status, the media type and the body. *)
Record HttpReply := MkHttpReply { hr_StatusCode : Z; hr_MediaType : option string; hr_Body : result bytes }.

Definition validEndpointRole (role : Z) : bool := (role =? 1)%Z || (role =? 2)%Z.
Definition validEncodedCredential (value : string) : bool := validOpaqueValue value.

Definition validateAccess (access : Access) (now_ : Z) : result unit :=
  _ ← reject_if (negb (validEncodedCredential (ac_RouteID access)) || negb (validEncodedCredential (ac_Token access)) || is_zero_time (ac_ExpiresAt access))
        [ClientErrInvalidRequest];
  reject_if (negb (before now_ (ac_ExpiresAt access))) [ClientErrExpiredAccess].

Definition too_large (payload : bytes) : bool := bool_decide (payload = []) || (MaximumCiphertextBytes <? Z.of_nat (length payload))%Z.

Section Client.
Context `{Codec PublishPresenceRequest} `{Codec SendSignalRequest} `{Codec PollSignalsRequest}.
Context `{Codec PublishPresenceResponse} `{Codec SendSignalResponse} `{Codec PollSignalsResponse} `{Codec ErrorMessage}.
Context {S : Type} (Do : HTTPRequest → S → result HttpReply * S).

(** The request of [post]; the path is what follows the base URL. *)
Definition post_request (access : Access) (operation : string) (contents : bytes) : HTTPRequest :=
  MkHTTPRequest "POST" ("/v1/rendezvous/" +:+ PathEscape (ac_RouteID access) +:+ "/" +:+ operation) ("Bearer " +:+ ac_Token access)
    (Some ProtobufMediaType) (Some contents).

Definition read_reply {Rsp} `{Codec Rsp} (reply : HttpReply) : result Rsp :=
  let e := [ClientErrInvalidServiceResponse] in
  match hr_Body reply with
  | Err _ => Err e
  | Ok body =>
      _ ← reject_if (maximumClientResponseBytes <? Z.of_nat (length body))%Z e;
      let protobuf := bool_decide (hr_MediaType reply = Some ProtobufMediaType) in
      if negb (hr_StatusCode reply =? 200)%Z then
        match unmarshal (Msg := ErrorMessage) body with
        | Ok remote =>
            if protobuf && negb (er_code remote =? 0)%Z && negb (bool_decide (er_message remote = ""))
            then Err [ClientRemoteError (hr_StatusCode reply) (er_code remote) (er_message remote)] else Err e
        | Err _ => Err e
        end
      else if negb protobuf || bool_decide (body = []) then Err e
      else match unmarshal body with Ok response => Ok response | Err _ => Err e end
  end.

(** [contents] is the outcome of [proto.Marshal]. *)
Definition post {Rsp} `{Codec Rsp} (access : Access) (now_ : Z) (operation : string) (contents : result bytes) (s : S) : result Rsp * S :=
  match validateAccess access now_ with
  | Err e => (Err e, s)
  | Ok _ =>
      match contents with
      | Err _ => (Err [ClientErrInvalidRequest], s)
      | Ok contents =>
          match Do (post_request access operation contents) s with
          | (Err e, s) => (Err e, s)
          | (Ok reply, s) => (read_reply reply, s)
          end
      end
  end.

Definition peer_refused (role now_ : Z) (peer : PresenceMessage) : bool :=
  negb (validEndpointRole (pm_role peer)) || (pm_role peer =? role)%Z || (pm_generation peer =? 0)%Z || too_large (pm_encrypted_payload peer)
  || (pm_expires_at_unix_nano peer <=? unix_nano now_)%Z.

Definition PublishPresence (access : Access) (now_ role generation : Z) (encryptedPayload : bytes) (s : S) : result PublishPresenceResponse * S :=
  if negb (validEndpointRole role) || (generation =? 0)%Z || too_large encryptedPayload then (Err [ClientErrInvalidRequest], s)
  else
    let '(response, s) := post access now_ "presence" (marshal (MkPublish ProtocolVersion role generation encryptedPayload)) s in
    (response ← response;
     _ ← reject_if (pp_expires_at_unix_nano response <=? unix_nano now_)%Z [ClientErrInvalidServiceResponse];
     _ ← reject_if (match pp_peer response with Some peer => peer_refused role now_ peer | None => false end) [ClientErrInvalidServiceResponse];
     Ok response, s).

Definition SendSignal (access : Access) (now_ sender recipient : Z) (encryptedPayload : bytes) (s : S) : result SendSignalResponse * S :=
  if negb (validEndpointRole sender) || negb (validEndpointRole recipient) || (sender =? recipient)%Z || too_large encryptedPayload
  then (Err [ClientErrInvalidRequest], s)
  else
    let '(response, s) := post access now_ "signals" (marshal (MkSend ProtocolVersion sender recipient encryptedPayload)) s in
    (response ← response;
     _ ← reject_if ((ss_sequence response =? 0)%Z || (ss_expires_at_unix_nano response <=? unix_nano now_)%Z) [ClientErrInvalidServiceResponse];
     Ok response, s).

(** The sequence number of the last signal, if every one is acceptable. *)
Fixpoint check_signals (recipient previous : Z) (signals : list SignalMessage) : option Z :=
  match signals with
  | [] => Some previous
  | signal :: rest =>
      if (sm_sequence signal <=? previous)%Z || negb (validEndpointRole (sm_sender signal)) || (sm_sender signal =? recipient)%Z
         || too_large (sm_encrypted_payload signal) || (sm_created_at_unix_nano signal <=? 0)%Z
         || (sm_expires_at_unix_nano signal <=? sm_created_at_unix_nano signal)%Z
      then None else check_signals recipient (sm_sequence signal) rest
  end.

Definition PollSignals (access : Access) (now_ recipient afterSequence limit : Z) (s : S) : result PollSignalsResponse * S :=
  if negb (validEndpointRole recipient) || (maximumPollLimit <? limit)%Z then (Err [ClientErrInvalidRequest], s)
  else
    let '(response, s) := post access now_ "poll" (marshal (MkPoll ProtocolVersion recipient afterSequence limit)) s in
    (response ← response;
     match check_signals recipient afterSequence (ps_signals response) with
     | None => Err [ClientErrInvalidServiceResponse]
     | Some previous =>
         _ ← reject_if (ps_next_sequence response <? previous)%Z [ClientErrInvalidServiceResponse];
         Ok response
     end, s).
End Client.

(** ** The replies of the service (service.go) *)

Section Service.
Context `{Codec PublishPresenceRequest} `{Codec SendSignalRequest} `{Codec PollSignalsRequest}.
Context `{Codec PublishPresenceResponse} `{Codec SendSignalResponse} `{Codec PollSignalsResponse} `{Codec ErrorMessage}.
(** [error_text]: the message of an error. *)
Context (config : Config) (sha256 : bytes → bytes) (error_text : serviceError → string).

Definition error_number (code : ErrorCode) : Z :=
  match code with InvalidArgument => 1 | Unauthenticated => 2 | NotFound => 3 | Conflict => 4 | ResourceExhausted => 5 | UnsupportedVersion => 6 end%Z.
Definition presenceToProto (p : storedPresence) : PresenceMessage :=
  MkPresenceMessage (roleToProto (p_role p)) (p_generation p) (p_payload p) (unix_nano (p_expiresAt p)).
Definition signalToProto (s : storedSignal) : SignalMessage :=
  MkSignalMessage (s_sequence s) (roleToProto (s_sender s)) (s_payload s) (unix_nano (s_createdAt s)) (unix_nano (s_expiresAt s)).

(** [writeProto]; a message that cannot be encoded becomes an internal error. *)
Definition internal_reply : HttpReply :=
  MkHttpReply 500 (Some ProtobufMediaType) (marshal (MkErrorMessage 7 "encode rendezvous response")).
Definition writeProto {M} `{Codec M} (status : Z) (message : M) : HttpReply :=
  match marshal message with Ok contents => MkHttpReply status (Some ProtobufMediaType) (Ok contents) | Err _ => internal_reply end.
Definition writeError (e : serviceError) : HttpReply := writeProto (status e) (MkErrorMessage (error_number (code e)) (error_text e)).

Definition reply_of (response : Response) : HttpReply :=
  match response with
  | PresenceResponse expires peer => writeProto 200 (MkPublishResponse expires (presenceToProto <$> peer))
  | SignalResponse sequence expires => writeProto 200 (MkSendResponse sequence expires)
  | PollResponse delivered next more => writeProto 200 (MkPollResponse (signalToProto <$> delivered) next more)
  | HealthResponse => MkHttpReply 200 (Some "text/plain") (Ok (bytes_of "ok" ++ [byte_of 10]))
  | ErrorResponse e => writeError e
  | MethodNotAllowed => MkHttpReply 405 None (Ok [])
  end.

Definition decode {M} `{Codec M} (body : bytes) : option M := match unmarshal body with Ok m => Some m | Err _ => None end.

(** The service at [now_] as the transport of a client. *)
Definition over_http (now_ : Z) (request : HTTPRequest) (table : routes) : result HttpReply * routes :=
  let '(response, table) := ServeHTTP config sha256 decode decode decode table now_ request in (Ok (reply_of response), table).
End Service.

(** ** Lemmas *)

Lemma opaque_bytes value : validOpaqueValue value = true → ∃ b, length b = 32 ∧ value = RawURL_EncodeToString b.
Proof.
  unfold validOpaqueValue. destruct (RawURL_DecodeString value) as [b|]; [|done]. intros Hv. reflect_bools. by exists b.
Qed.

(** The characters of the encoding need no escape and are no separators. *)
Lemma b64_encode_plain l : Forall (λ c, unreserved c = true ∧ c ≠ "/"%char) (b64_encode l).
Proof.
  assert (Hdigit : ∀ n, (0 ≤ n < 64)%Z → unreserved (b64_digit n) = true ∧ b64_digit n ≠ "/"%char).
  { intros n Hn. pose proof (forallb_below (λ n, unreserved (b64_digit n) && bool_decide (b64_digit n ≠ "/"%char)) 64 n eq_refl Hn) as Hb.
    cbn beta in Hb. by reflect_bools. }
  induction l as [|a|a b|a b c l IH] using list_ind3; cbn [b64_encode];
    try (pose proof (val_range a)); try (pose proof (val_range b)); try (pose proof (val_range c));
    repeat (constructor; [apply Hdigit; Z.to_euclidean_division_equations; lia|]); done.
Qed.

Lemma path_escape_opaque value : validOpaqueValue value = true → PathEscape value = value ∧ "/"%char ∉ bytes_of value.
Proof.
  intros (b & _ & ->)%opaque_bytes. unfold PathEscape, RawURL_EncodeToString. rewrite bytes_of_str_of.
  pose proof (b64_encode_plain b) as Hall. split.
  - f_equal. induction Hall as [|c l [Hc _] _ IH]; [done|]. cbn [fmap list_fmap concat]. rewrite Hc, IH. done.
  - intros Hin. by apply (proj1 (Forall_forall _ _) Hall _ Hin).
Qed.

Lemma parse_posted routeID operation : validOpaqueValue routeID = true → "/"%char ∉ bytes_of operation → operation ≠ "" →
  parsePath ("/v1/rendezvous/" +:+ PathEscape routeID +:+ "/" +:+ operation) = Some (routeID, operation).
Proof.
  intros Hv Hop Hne. destruct (path_escape_opaque routeID Hv) as [-> Hslash]. unfold parsePath.
  change (String.length "/v1/rendezvous/") with (length (bytes_of "/v1/rendezvous/")).
  unfold has_prefix. rewrite bytes_of_app, (proj2 (list_prefix_spec _ _)) by eauto. cbn [negb].
  rewrite drop_app_length, !bytes_of_app. unfold split. rewrite bytes_of_str_of. change (bytes_of "/") with ["/"%char]. cbn [app].
  rewrite split_bytes_app, split_bytes_cons_no_sep by done. cbn [map]. rewrite !str_of_bytes_of.
  rewrite bool_decide_eq_false_2, bool_decide_eq_false_2; [done|done|].
  intros ->. apply opaque_size in Hv. done.
Qed.

Lemma opaque_token value : validOpaqueValue value = true → ∃ token, bearerToken ("Bearer " +:+ value) = Some token.
Proof. intros (b & Hb & ->)%opaque_bytes. exists b. by apply bearer_encoding. Qed.

(** A response of the publishing operation: a presence, or an error that no client takes for one. *)
Lemma publish_cases c table id digest now_ r response table' : publishPresence c table id digest now_ r = (response, table') →
  (∃ expires peer, response = PresenceResponse expires peer) ∨ ∃ e, response = ErrorResponse e ∧ status e ≠ 200%Z.
Proof.
  unfold publishPresence. destruct r as [r|]; [|intros [= <- _]; right; by eexists].
  unfold validateProtocol. destruct (pub_version r =? ProtocolVersion)%Z; [|intros [= <- _]; right; by eexists].
  destruct (roleFromProto (pub_role r)) as [role|]; [|intros [= <- _]; right; by eexists].
  destruct (_ || _); [intros [= <- _]; right; by eexists|].
  destruct (routeLocked _ _ _ _ _ _) as [[v|e] t] eqn:Er.
  - destruct (match presences v !! role with Some _ => _ | None => _ end); intros [= <- _]; [right; by eexists|left; eauto].
  - intros [= <- _]. right. exists e. split; [done|]. unfold routeLocked in Er.
    destruct (pruneLocked now_ table !! id) as [v0|]; [destruct (negb _)|destruct (negb _); [|destruct (_ <=? _)%Z]];
      repeat match type of Er with context [admit_request ?a ?b ?c] => destruct (admit_request a b c) as [? []] end; by simplify_eq.
Qed.

(** A successful publication: what the table holds after it, and whom it reports. *)
Lemma publish_success c table table' id digest now_ r expires peer : configured c → table_ok c table →
  publishPresence c table id digest now_ (Some r) = (PresenceResponse expires peer, table') →
  ∃ role v e, roleFromProto (pub_role r) = Some role ∧ table_ok c table' ∧ table' !! id = Some v ∧ authDigest v = digest ∧
    presences v !! role = Some (MkPresence role (pub_generation r) (pub_payload r) e) ∧
    expires = unix_nano e ∧ (now_ < e ≤ now_ + PresenceLifetime c)%Z ∧ (e ≤ expiresAt v)%Z ∧
    (∀ w q, table !! id = Some w → (now_ < expiresAt w)%Z → presences w !! oppositeRole role = Some q → (now_ < p_expiresAt q)%Z → peer = Some q).
Proof.
  intros Hc Ht Hrun. pose proof (publish_ok c Hc table id digest now_ (Some r) Ht) as Ht'. rewrite Hrun in Ht'.
  unfold publishPresence in Hrun. destruct (validateProtocol _); [done|]. destruct (roleFromProto (pub_role r)) as [role|] eqn:Erole; [|done].
  destruct (_ || _); [done|]. destruct (routeLocked _ _ _ _ _ _) as [[v|e] t] eqn:Er; [|done].
  apply route_locked_ok in Er as (_ & _ & Hrt & Hfrom); [|done|by apply prune_table_ok|apply pruned_live].
  destruct (match presences v !! role with Some _ => _ | None => _ end); [done|].
  cbn [set_presence presences] in Hrun. rewrite lookup_insert_ne in Hrun by (by destruct role). injection Hrun as <- <- <-.
  destruct (configured_bounds c Hc) as (Hp & _). pose proof (rt_live _ _ _ _ _ _ Hrt) as Hlive.
  exists role, (set_presence v role (MkPresence role (pub_generation r) (pub_payload r) (minTime (now_ + PresenceLifetime c) (expiresAt v)))),
    (minTime (now_ + PresenceLifetime c) (expiresAt v)).
  split; [done|]. split; [done|]. split; [apply lookup_insert_eq|]. split; [apply (rt_digest _ _ _ _ _ _ Hrt)|]. split; [apply lookup_insert_eq|]. split; [done|].
  split; [unfold minTime, before; destruct (Z.ltb_spec (now_ + PresenceLifetime c) (expiresAt v)); lia|]. split; [apply minTime_le_r|].
  intros w q Hw Hlw Hq Hlq. assert (Hpruned : pruneLocked now_ table !! id = Some (prune_route now_ w)).
  { unfold pruneLocked. rewrite lookup_fmap, (map_lookup_filter_Some_2 _ _ _ w); [done|done|]. by apply Z.ltb_lt. }
  rewrite Hpruned in Hfrom. destruct Hfrom as (_ & -> & _). simpl. rewrite (map_lookup_filter_Some_2 _ _ _ q); [|done|by apply Z.ltb_lt].
  unfold after. by rewrite (proj2 (Z.ltb_lt _ _)).
Qed.

(** Decoding gives back what was encoded. *)
Class FaithfulCodec (M : Type) `{Codec M} := faithful (m : M) (b : bytes) : marshal m = Ok b → unmarshal b = Ok m.

Lemma decode_marshal {M} `{FaithfulCodec M} (m : M) b : marshal m = Ok b → decode b = Some m.
Proof. intros Hm. unfold decode. by rewrite (faithful m b Hm). Qed.

Section Exchange.
Context `{Codec PublishPresenceRequest} `{Codec SendSignalRequest} `{Codec PollSignalsRequest}.
Context `{Codec PublishPresenceResponse} `{Codec SendSignalResponse} `{Codec PollSignalsResponse} `{Codec ErrorMessage}.
Context (config : Config) (sha256 : bytes → bytes) (error_text : serviceError → string).
Context `{!FaithfulCodec PublishPresenceRequest} `{!FaithfulCodec PublishPresenceResponse}.
Abbreviation serve := (ServeHTTP config sha256 decode decode decode).
Abbreviation transport := (over_http config sha256 error_text).

Lemma access_valid access now_ u : validateAccess access now_ = Ok u →
  validOpaqueValue (ac_RouteID access) = true ∧ validOpaqueValue (ac_Token access) = true ∧ (now_ < ac_ExpiresAt access)%Z.
Proof.
  unfold validateAccess, validEncodedCredential. intros (? & Hv%reject_if_ok & He%reject_if_ok)%result_bind_ok.
  unfold before in He. reflect_bools. by split_and!.
Qed.

(** What the service does with a posted message of one of the three operations. *)
Lemma serve_posted table now_ access operation contents u t : validateAccess access t = Ok u → "/"%char ∉ bytes_of operation → operation ≠ "" →
  ∃ token, bearerToken ("Bearer " +:+ ac_Token access) = Some token ∧
  serve table now_ (post_request access operation contents) =
    if (maxRequestBytes config <? Z.of_nat (length contents))%Z then (ErrorResponse invalidArgument, table)
    else if bool_decide (operation = "presence") then publishPresence config table (ac_RouteID access) (sha256 token) now_ (decode contents)
    else if bool_decide (operation = "signals") then sendSignal config table (ac_RouteID access) (sha256 token) now_ (decode contents)
    else if bool_decide (operation = "poll") then pollSignals config table (ac_RouteID access) (sha256 token) now_ (decode contents)
    else (ErrorResponse invalidArgument, table).
Proof.
  intros (Hr & Ht & _)%access_valid Hslash Hne. destruct (opaque_token _ Ht) as [token Htoken]. exists token. split; [done|].
  unfold ServeHTTP, post_request. cbn [URLPath Method Authorization MediaType Body].
  rewrite (bool_decide_eq_false_2 (_ = "/healthz")), parse_posted by done. cbn [negb bool_decide].
  rewrite Hr, Htoken. by rewrite (bool_decide_eq_true_2 (Some ProtobufMediaType = Some ProtobufMediaType)).
Qed.

Lemma refused_reply {Rsp} `{Codec Rsp} reply (m : Rsp) : hr_StatusCode reply ≠ 200%Z → read_reply reply = Ok m → False.
Proof.
  intros Hst. unfold read_reply. destruct (hr_Body reply) as [body|]; [|done]. intros (? & _ & E)%result_bind_ok.
  rewrite (proj2 (Z.eqb_neq _ _)) in E by done. cbn [negb] in E. destruct (unmarshal body) as [remote|]; [|done]. by destruct (_ && _).
Qed.

Lemma read_written {Rsp} `{FaithfulCodec Rsp} (message m : Rsp) : read_reply (writeProto 200 message) = Ok m → m = message.
Proof.
  unfold writeProto. destruct (marshal message) as [contents|e] eqn:Em; [|by intros []%refused_reply].
  unfold read_reply. cbn [hr_Body hr_StatusCode hr_MediaType]. intros (? & _ & E)%result_bind_ok. cbn [negb Z.eqb Pos.eqb] in E.
  destruct (_ || _); [done|]. rewrite (faithful message contents Em) in E. congruence.
Qed.

Lemma error_reply_refused {Rsp} `{Codec Rsp} e (m : Rsp) : status e ≠ 200%Z → read_reply (reply_of error_text (ErrorResponse e)) = Ok m → False.
Proof. intros Hst. apply refused_reply. simpl. unfold writeError, writeProto. by destruct (marshal _). Qed.

(** A publication that the client reports as successful is one of the service. *)
Lemma published now_ t access role generation payload table response table' :
  PublishPresence (transport now_) access t role generation payload table = (Ok response, table') →
  ∃ token expires peer, bearerToken ("Bearer " +:+ ac_Token access) = Some token ∧
    publishPresence config table (ac_RouteID access) (sha256 token) now_ (Some (MkPublish ProtocolVersion role generation payload))
      = (PresenceResponse expires peer, table') ∧
    response = MkPublishResponse expires (presenceToProto <$> peer).
Proof.
  unfold PublishPresence. destruct (_ || _); [done|]. destruct (post _ _ _ _ _ _) as [r s] eqn:Ep. intros [= Hr <-].
  apply result_bind_ok in Hr as (m & -> & Hr). apply result_bind_ok in Hr as (? & _ & Hr). apply result_bind_ok in Hr as (? & _ & [= ->]).
  unfold post in Ep. destruct (validateAccess access t) as [u|] eqn:Ea; [|done].
  destruct (marshal _) as [contents|] eqn:Em; [|done]. unfold over_http in Ep.
  destruct (serve_posted table now_ access "presence" contents u t Ea) as (token & Htoken & Es); [by intros Hin; vm_compute in Hin; set_unfold; naive_solver|done|].
  rewrite Es, (bool_decide_eq_true_2 _ eq_refl), (decode_marshal _ _ Em) in Ep. exists token.
  destruct (maxRequestBytes config <? _)%Z; [injection Ep as Ep <-; by apply error_reply_refused in Ep|].
  destruct (publishPresence _ _ _ _ _ _) as [rsp table1] eqn:Erun. injection Ep as Ep <-.
  destruct (publish_cases _ _ _ _ _ _ _ _ Erun) as [(expires & peer & ->)|(e & -> & Hst)]; [|by apply error_reply_refused in Ep].
  exists expires, peer. split; [done|]. split; [done|]. simpl in Ep. by apply read_written in Ep.
Qed.

Definition role_name (role : endpointRole) : string := match role with roleOrchestrator => RoleOrchestrator | roleWorker => RoleWorker end.

Context `{AeadLaws} `{Codec EndpointPresencePayload} (UnmarshalCandidate : string → option Candidate).

(** C12 Two devices that share the secret of a pair find each other through the hosted
    service.  When the device of one role has published its sealed presence with the
    route and token of the current window, and the other device publishes after it with
    the values that it derived for itself, before the time at which the service said the
    first presence expires, then the response to the second carries the first presence,
    and opened with the secret it is the document the first device made, while that is
    fresh by the clock of the second. *)
Theorem presence_exchanged (table table1 table2 : routes) (role : endpointRole) (secret nonce sealed payload : bytes) (access access' : Access)
    (presence : Presence) (first second_ : PublishPresenceResponse) (generation t1 t2 s1 s2 : Z) :
  configured config → table_ok config table →
  DeriveAccess secret t1 = Ok access → DeriveAccess secret t2 = Ok access' → (t1 / CredentialLifetime = t2 / CredentialLifetime)%Z →
  portable_presence UnmarshalCandidate presence → int64_range (pr_CreatedAt presence) → int64_range (pr_ExpiresAt presence) → length nonce = NonceSize →
  SealPresence UnmarshalCandidate secret (ac_RouteID access) (role_name role) presence (Ok nonce) = Ok sealed →
  PublishPresence (transport s1) access t1 (roleToProto role) (pr_Generation presence) sealed table = (Ok first, table1) →
  PublishPresence (transport s2) access' t2 (roleToProto (oppositeRole role)) generation payload table1 = (Ok second_, table2) →
  (0 ≤ s1)%Z → (s1 + PresenceLifetime config < 2 ^ 63)%Z → (s2 < pp_expires_at_unix_nano first)%Z →
  (0 < t2)%Z → (pr_CreatedAt presence ≤ t2 + maximumPresenceClockSkew)%Z → (t2 < pr_ExpiresAt presence)%Z →
  ∃ peer, pp_peer second_ = Some peer ∧ pm_role peer = roleToProto role ∧ pm_generation peer = pr_Generation presence ∧
    OpenPresence UnmarshalCandidate secret (ac_RouteID access') (role_name role) (pm_generation peer) (pm_encrypted_payload peer) t2 = Ok presence.
Proof.
  intros Hc Ht Ha Ha' Hw Hport Hcr Hex Hn Hseal Hpub Hpub' Hs1 Hmax Hs2 Hpos Hfresh Hlive.
  assert (access' = access) as -> by (eapply derive_agrees; eauto).
  apply published in Hpub as (token & expires & peer & Htoken & Hrun & ->).
  apply published in Hpub' as (token' & expires' & peer' & Htoken' & Hrun' & ->). rewrite Htoken in Htoken'. injection Htoken' as <-.
  apply publish_success in Hrun as (r & v & e & Hr & Ht1 & Hv & Hd & Hp & -> & He & Hev & _); [|done..].
  apply publish_success in Hrun' as (r' & v' & e' & Hr' & _ & _ & _ & _ & _ & _ & _ & Hpeer); [|done..].
  assert (r = role ∧ r' = oppositeRole role) as [-> ->] by (destruct role; cbn in Hr, Hr'; injection Hr as <-; injection Hr' as <-; done).
  simpl in Hs2. rewrite wrap_int64_id in Hs2 by (unfold int64_range; lia).
  rewrite (Hpeer v (MkPresence role (pr_Generation presence) sealed e)); [|done|lia|by destruct role|done].
  eexists. split; [done|]. split; [done|]. split; [done|]. by apply (sealed_presence_opens UnmarshalCandidate secret _ _ presence nonce).
Qed.
End Exchange.

(** ** What the client refuses *)

(** Credentials leave the device only over HTTPS or, where the configuration allows it,
    to the device itself: a client is made only for an origin without user, query,
    fragment or path, and every message it posts goes to a route that is the canonical
    text of 32 bytes, while the access has not expired. *)
Lemma client_guards (parsed : option Url) (loopback : string → bool) (allow : bool) (given : option Z) (client : Client) :
  NewClient parsed loopback allow given = Ok client →
  ∃ u, parsed = Some u ∧ (0 < cl_timeout client)%Z ∧ ur_Host u ≠ "" ∧ ur_User u = false ∧ ur_RawQuery u = "" ∧ ur_Fragment u = "" ∧
    (ur_Scheme u = "https" ∨ ur_Scheme u = "http" ∧ allow = true ∧ (ur_Hostname u = "localhost" ∨ loopback (ur_Hostname u) = true)) ∧
    ∀ (H : Codec ErrorMessage) (Rsp S : Type) (R : Codec Rsp) (access : Access) (now_ : Z) (operation : string) (contents : result bytes) (s : S),
      (validOpaqueValue (ac_RouteID access) && validOpaqueValue (ac_Token access) && (now_ <? ac_ExpiresAt access)%Z = false →
       ∀ Do, ∃ e, post Do access now_ operation contents s = (Err e, s)).
Proof.
  destruct parsed as [u|]; [|done]. simpl. intros (? & Hg%reject_if_ok & [= <-])%result_bind_ok. exists u.
  apply orb_false_iff in Hg as [Hg Hs]. apply orb_false_iff in Hg as [Hg _]. reflect_bools. split; [done|]. split_and!; try done.
  - simpl. destruct (Z.leb_spec (default defaultClientTimeout given) 0); [done|lia].
  - apply andb_false_iff in Hs as [Hs|Hs]; reflect_bools; [by left|right]. split; [done|]. split; [done|].
    match goal with E : _ || _ = true |- _ => apply orb_true_iff in E as [E%bool_decide_eq_true_1|E] end; auto.
  - intros Hc Rsp S R access now_ operation contents s Hbad Do. unfold post. destruct (validateAccess access now_) as [v|e] eqn:Ea; [|eauto].
    apply access_valid in Ea as (Hr & Htk & Hlt). rewrite Hr, Htk, (proj2 (Z.ltb_lt _ _)) in Hbad by done. done.
Qed.

(** Protobuf encodes the response to a first poll of an empty queue, in which every
    field has its default, as no bytes; the client takes an empty body for an invalid
    response, so such a poll always fails. *)
Lemma first_empty_poll_fails `{Codec PublishPresenceResponse} `{Codec SendSignalResponse} `{Codec PollSignalsResponse} `{Codec ErrorMessage} error_text :
  marshal (MkPollResponse [] 0 false) = Ok [] →
  read_reply (Rsp := PollSignalsResponse) (reply_of error_text (PollResponse [] 0 false)) = Err [ClientErrInvalidServiceResponse].
Proof. intros Hm. unfold reply_of, writeProto. cbn [fmap list_fmap]. rewrite Hm. done. Qed.

(** ** Witnesses *)

#[global] Instance PresenceMessage_eq_dec : EqDecision PresenceMessage.
Proof. solve_decision. Defined.
#[global] Instance PublishPresenceResponse_eq_dec : EqDecision PublishPresenceResponse.
Proof. solve_decision. Defined.
#[global] Instance PublishPresenceRequest_eq_dec : EqDecision PublishPresenceRequest.
Proof. solve_decision. Defined.

(** A codec for the messages of a list. *)
Definition table_codec {M} `{EqDecision M} (l : list M) : Codec M := {|
  marshal m := match list_find (eq m) l with Some (i, _) => Ok [byte_of (Z.of_nat i)] | None => Err [] end;
  unmarshal b := match b with [c] => match l !! Z.to_nat (val c) with Some m => Ok m | None => Err [] end | _ => Err [] end
|}.
Lemma table_codec_faithful {M} `{EqDecision M} (l : list M) : length l < 256 → FaithfulCodec M (H := table_codec l).
Proof.
  intros Hl m b. simpl. destruct (list_find (eq m) l) as [[i m']|] eqn:E; [|done]. intros [= <-].
  apply list_find_Some in E as (Hi & <- & _). rewrite val_byte_of, Z.mod_small, Nat2Z.id, Hi; [done|].
  apply lookup_lt_Some in Hi. lia.
Qed.

Definition demo_config : Config := match Rendezvous_New (MkConfig 0 0 0 0 0 0 0) with Ok c => c | Err _ => MkConfig 0 0 0 0 0 0 0 end.
Definition demo_time : Z := (600 * second)%Z.
Definition demo_access : Access := match DeriveAccess (H := toy_aead) sample_secret demo_time with Ok a => a | Err _ => MkAccess "" "" 0 end.
Definition demo_presence : Presence := MkPresenceDoc 5 (replicate 16 "i"%char) demo_time (demo_time + minute) sample_description.
Definition demo_message : EndpointPresencePayload :=
  MkEndpointPresence 1 5 (replicate 16 "i"%char) demo_time (demo_time + minute) (Some sample_description) false.
Definition demo_document_codec : Codec EndpointPresencePayload := {| marshal _ := Ok (bytes_of "d"); unmarshal _ := Ok demo_message |}.
Definition demo_sealed : bytes :=
  match SealPresence (H := toy_aead) (H0 := demo_document_codec) any_candidate sample_secret (ac_RouteID demo_access) RoleOrchestrator demo_presence
    (Ok (replicate 12 "n"%char)) with Ok c => c | Err _ => [] end.
Definition demo_expires : Z := (demo_time + 90 * second)%Z.
Definition demo_requests : Codec PublishPresenceRequest :=
  table_codec [MkPublish 1 1 5 demo_sealed; MkPublish 1 2 9 (bytes_of "w")].
Definition demo_second : PublishPresenceResponse := MkPublishResponse demo_expires (Some (MkPresenceMessage 1 5 demo_sealed demo_expires)).
Definition demo_responses : Codec PublishPresenceResponse := table_codec [MkPublishResponse demo_expires None; demo_second].
Definition no_codec {M} : Codec M := {| marshal _ := Err []; unmarshal _ := Err [] |}.
Definition demo_transport (now_ : Z) : HTTPRequest → routes → result HttpReply * routes :=
  over_http (H := demo_requests) (H0 := no_codec) (H1 := no_codec) (H2 := demo_responses) (H3 := no_codec) (H4 := no_codec) (H5 := no_codec)
    demo_config prefix_sha (λ _, "refused") now_.
Definition demo_publish (role generation : Z) (payload : bytes) (table : routes) : result PublishPresenceResponse * routes :=
  PublishPresence (H := demo_requests) (H2 := demo_responses) (H5 := no_codec) (demo_transport demo_time) demo_access demo_time role generation payload table.

Lemma demo_requests_faithful : FaithfulCodec PublishPresenceRequest (H := demo_requests).
Proof. apply table_codec_faithful. simpl. lia. Qed.
Lemma demo_responses_faithful : FaithfulCodec PublishPresenceResponse (H := demo_responses).
Proof. apply table_codec_faithful. simpl. lia. Qed.

Lemma presence_exchanged_witness :
  ∃ table1 table2, demo_publish 1 5 demo_sealed ∅ = (Ok (MkPublishResponse demo_expires None), table1) ∧
    demo_publish 2 9 (bytes_of "w") table1 = (Ok demo_second, table2) ∧
    OpenPresence (H := toy_aead) (H0 := demo_document_codec) any_candidate sample_secret (ac_RouteID demo_access) RoleOrchestrator 5 demo_sealed demo_time = Ok demo_presence.
Proof.
  destruct (demo_publish 1 5 demo_sealed ∅) as [r1 table1] eqn:E1.
  assert (Hr1 : r1 = Ok (MkPublishResponse demo_expires None)) by (change r1 with (r1, table1).1; rewrite <-E1; vm_compute; reflexivity). subst r1.
  destruct (demo_publish 2 9 (bytes_of "w") table1) as [r2 table2] eqn:E2.
  assert (Hr2 : r2 = Ok demo_second).
  { change r2 with (r2, table2).1. rewrite <-E2. change table1 with (Ok (MkPublishResponse demo_expires None), table1).2. rewrite <-E1. vm_compute. reflexivity. } subst r2.
  exists table1, table2. split; [reflexivity|]. split; [exact E2|].
  assert (Hc : configured demo_config) by (exists (MkConfig 0 0 0 0 0 0 0); vm_compute; reflexivity).
  destruct (presence_exchanged (H := demo_requests) (H0 := no_codec) (H1 := no_codec) (H2 := demo_responses) (H3 := no_codec) (H4 := no_codec) (H5 := no_codec)
    demo_config prefix_sha (λ _, "refused") (FaithfulCodec0 := demo_requests_faithful) (FaithfulCodec1 := demo_responses_faithful)
    (H6 := toy_aead) (H7 := toy_laws) (H8 := demo_document_codec) any_candidate
    ∅ table1 table2 roleOrchestrator sample_secret (replicate 12 "n"%char) demo_sealed (bytes_of "w") demo_access demo_access demo_presence
    (MkPublishResponse demo_expires None) demo_second 9 demo_time demo_time demo_time demo_time) as (peer & Hp & _ & Hg & Ho);
    [exact Hc|apply (serve_all_ok demo_config prefix_sha (λ _, None) (λ _, None) (λ _, None) [] Hc)
    |vm_compute; reflexivity|vm_compute; reflexivity|reflexivity
    |exists demo_message, (bytes_of "d"); split; [vm_compute; reflexivity|split; reflexivity]
    |vm_compute; split; [discriminate|reflexivity]|vm_compute; split; [discriminate|reflexivity]|reflexivity|vm_compute; reflexivity|exact E1|exact E2
    |vm_compute; discriminate|vm_compute; reflexivity|vm_compute; reflexivity|vm_compute; reflexivity|vm_compute; discriminate|vm_compute; reflexivity|].
  injection Hp as <-. exact Ho.
Defined.
