(* ===== verification/ArtifactStore.v ===== *)
(** * Collected outputs (internal/artifact, internal/infra/sqlite/artifact_repository.go)

    Bundles of a job's declared outputs, their rows in job_artifacts and the
    references by which they protect chunks of the content cache.  The column
    manifest_json holds the decoded document, as every JSON column here, and
    [json_length] is the length of its text; the CHECK on that length is implied by
    the limit the repository enforces itself. *)

From S2P Require Import Prelude GoText PortablePath JobModel Effects Sql Snapshot ContentCache.
From Stdlib Require Import Ascii.
Local Open Scope string_scope.
Local Open Scope nat_scope.
Local Open Scope list_scope.

Definition MaximumStoredManifestBytes : Z := (2 * 2 ^ 20)%Z.

Record Bundle := MkBundle { BundleJobID : string; BundleManifest : Manifest; CollectedAt : Z }.
Record RestoreResult := MkRestoreResult { Destination : string; Restored : list string; Conflicts : list string }.

(** [filepath.IsAbs] where paths are separated by slashes. *)
Definition filepath_IsAbs (p : string) : bool := has_prefix p "/".

Section Artifacts.
Context `{UnicodeCase} (sha256 : bytes → bytes) (json_length : Manifest → Z).

Definition Bundle_Validate (bundle : Bundle) : result unit :=
  _ ← reject_if (negb (ID_Valid (BundleJobID bundle)) || is_zero_time (CollectedAt bundle)) [ArtifactErrInvalidBundle];
  match CanonicalBytes (BundleManifest bundle) with Ok _ => Ok tt | Err _ => Err [ArtifactErrInvalidBundle] end.

(** Portable paths, strictly increasing. *)
Fixpoint paths_loop (previous : string) (values : list string) : bool :=
  match values with
  | [] => true
  | value :: rest =>
      match ValidatePath value with
      | Err _ => false
      | Ok _ => negb (negb (bool_decide (previous = "")) && str_leb value previous) && paths_loop value rest
      end
  end.

Definition RestoreResult_Validate (result : RestoreResult) : Prelude.result unit :=
  _ ← reject_if (negb (filepath_IsAbs (Destination result))) [ArtifactErrInvalidDestination];
  reject_if (negb (paths_loop "" (Restored result)) || negb (paths_loop "" (Conflicts result))) [ArtifactErrInvalidBundle].

Definition NormalizeResult (result : RestoreResult) : RestoreResult :=
  MkRestoreResult (Destination result) (merge_sort String.le (Restored result)) (merge_sort String.le (Conflicts result)).

(** ** The repository *)

Definition set_artifacts (refs : gset (string * string)) (rows : gmap string ArtifactRow) (d : CacheDB) : CacheDB :=
  MkCacheDB (cache_entries d) refs rows (job_states d).

(** [json.Marshal] of a manifest, as the document that decoding it gives. *)
Definition json_manifest (m : Manifest) : Manifest :=
  MkManifest (Version m) (map (λ f, MkFile (coerce_utf8 (Path f)) (Mode f) (FileSize f)
    (map (λ c, MkChunk (coerce_utf8 (Digest c)) (Size c)) (Chunks f))) (Files m)) (TotalBytes m).

Definition insert_artifact (id : string) (row : ArtifactRow) : Tx CacheDB unit :=
  d ← tx_read;
  _ ← constraint (bool_decide (is_Some (job_states d !! id)) && bool_decide (artifact_rows d !! id = None)
        && (sql_length (art_manifest_id row) =? 64)%Z && (0 <=? art_total_bytes row)%Z && (0 <? art_collected_ns row)%Z);
  tx_write (set_artifacts (artifact_refs d) (<[id := row]> (artifact_rows d)) d).

Fixpoint insert_refs (id : string) (digests : list string) : Tx CacheDB unit :=
  match digests with
  | [] => mret tt
  | digest :: rest =>
      d ← tx_read;
      _ ← constraint (bool_decide ((id, digest) ∉ artifact_refs d) && bool_decide (is_Some (artifact_rows d !! id))
            && (sql_length digest =? 64)%Z);
      _ ← tx_write (set_artifacts ({[(id, digest)]} ∪ artifact_refs d) (artifact_rows d) d);
      insert_refs id rest
  end.

(** The transaction of [Save]; the outcome of its first statement is the caller's to
    judge. *)
Definition save_transaction (bundle : Bundle) (manifestID : string) : Tx CacheDB (result unit) :=
  inserted ← tx_try (insert_artifact (BundleJobID bundle)
    (MkArtifactRow manifestID (json_manifest (BundleManifest bundle)) (TotalBytes (BundleManifest bundle))
       (unix_nano (CollectedAt bundle)) None));
  match inserted with
  | Err e => mret (Err e)
  | Ok _ => _ ← insert_refs (BundleJobID bundle) (Digests (BundleManifest bundle)); mret (Ok tt)
  end.

Definition scan_artifact (id : string) (row : ArtifactRow) : result Bundle :=
  _ ← reject_if (MaximumStoredManifestBytes <? json_length (art_manifest row))%Z [ArtifactErrInvalidBundle];
  match ParseDigest (art_manifest_id row), Manifest_ID sha256 (art_manifest row) with
  | Ok claimedID, Ok actualID =>
      _ ← reject_if (negb (bool_decide (actualID = claimedID)) || negb (TotalBytes (art_manifest row) =? art_total_bytes row)%Z)
            [ArtifactErrInvalidBundle];
      let bundle := MkBundle id (art_manifest row) (from_unix_nano (art_collected_ns row)) in
      _ ← Bundle_Validate bundle;
      Ok bundle
  | _, _ => Err [ArtifactErrInvalidBundle]
  end.

Definition Artifact_Get (id : string) : Tx CacheDB Bundle :=
  _ ← tx_lift (reject_if (negb (ID_Valid id)) [JobErrInvalidID]);
  d ← tx_read;
  match artifact_rows d !! id with
  | None => tx_lift (Err [ArtifactErrNotFound])
  | Some row => tx_lift (scan_artifact id row)
  end.

(** [on] runs a transaction of the database. *)
Definition Save {DB} (on : ∀ A, Tx CacheDB A → M DB A) (bundle : Bundle) : M DB unit :=
  _ ← lift (Bundle_Validate bundle);
  manifestID ← lift (Manifest_ID sha256 (BundleManifest bundle));
  _ ← lift (reject_if (MaximumStoredManifestBytes <? json_length (json_manifest (BundleManifest bundle)))%Z
        [ArtifactErrInvalidBundle]);
  inserted ← on _ (save_transaction bundle manifestID);
  match inserted with
  | Ok _ => mret tt
  | Err e =>
      if negb (isConstraintError e) then fail e
      else
        existing ← try_ (on _ (Artifact_Get (BundleJobID bundle)));
        match existing with
        | Err e' => fail (ArtifactErrConflict :: e')
        | Ok existing =>
            match Manifest_ID sha256 (BundleManifest existing) with
            | Ok existingID => if bool_decide (existingID = manifestID) then mret tt else fail [ArtifactErrConflict]
            | Err _ => fail [ArtifactErrConflict]
            end
        end
  end.

Definition mark_row (at_ns : Z) (row : ArtifactRow) : ArtifactRow :=
  if (art_collected_ns row <=? at_ns)%Z
  then MkArtifactRow (art_manifest_id row) (art_manifest row) (art_total_bytes row) (art_collected_ns row)
         (Some (default at_ns (art_retrieved_ns row)))
  else row.

Definition MarkRetrieved (id : string) (at_ : Z) : Tx CacheDB unit :=
  _ ← tx_lift (reject_if (negb (ID_Valid id) || is_zero_time at_) [ArtifactErrInvalidBundle]);
  d ← tx_read;
  tx_write (set_artifacts (artifact_refs d) (alter (mark_row (unix_nano at_)) id (artifact_rows d)) d).

End Artifacts.

(** ** Lemmas *)

Lemma hex_encode_ascii l : is_ascii (hex_encode l).
Proof.
  unfold hex_encode, is_ascii. induction l as [|c l IH]; simpl; [constructor|]. apply Forall_cons. split; [|apply Forall_cons; split; [|done]].
  all: revert c; all_bytes; reflexivity.
Qed.

Lemma ascii_utf8 l : is_ascii l → utf8_valid (str_of l) = true.
Proof. intros Ha. unfold utf8_valid. rewrite bytes_of_str_of, runes_ascii by done. clear Ha. by induction l. Qed.

Section Lemmas.
Context `{UnicodeCaseLaws} (sha256 : bytes → bytes) (Hsha : ∀ c, length (sha256 c) = DigestBytes) (json_length : Manifest → Z).
Abbreviation scan := (scan_artifact sha256 json_length).
Abbreviation stored_limit m := (json_length m ≤ MaximumStoredManifestBytes)%Z.

Lemma digest_coerce digest : Digest_Valid digest = true → coerce_utf8 digest = digest.
Proof. intros (d & _ & _ & ->)%digest_canonical. apply coerce_valid, ascii_utf8, hex_encode_ascii. Qed.

Lemma digest_sql_length digest : Digest_Valid digest = true → sql_length digest = 64%Z.
Proof.
  intros (d & _ & Hl & ->)%digest_canonical. unfold sql_length. rewrite bytes_of_str_of.
  assert (Hz : byte_of 0 ∉ hex_encode d).
  { unfold hex_encode. clear Hl. induction d as [|c d IH]; simpl; [apply not_elem_of_nil|]. rewrite !not_elem_of_cons. split_and!; [..|done].
    all: revert c; all_bytes; discriminate. }
  rewrite (split_bytes_cons_no_sep _ _ Hz). simpl. rewrite runes_ascii, length_map, length_hex_encode, Hl by apply hex_encode_ascii. done.
Qed.

Lemma manifest_json m : typed m → Manifest_Validate m = Ok tt → json_manifest m = m.
Proof.
  intros Ht (_ & _ & v & [Hf _ _ _ _ _] & _)%manifest_checked; [|done]. destruct m as [ver files total]. unfold json_manifest. simpl in *. f_equal.
  clear -Hf H0. induction Hf as [|f files (Hp & _ & Hc & _) Hf IH]; simpl; [done|]. f_equal; [|done]. destruct f as [p mode sz chunks]. simpl in *.
  assert (utf8_valid p = true) as Hu.
  { unfold PortablePath.Validate in Hp. destruct (_ || _) eqn:E in Hp; [done|]. reflect_bools. done. }
  f_equal; [by apply coerce_valid|]. clear -Hc H0.
  induction Hc as [|c chunks [Hd _] Hc IH]; simpl; [done|]. f_equal; [|done]. destruct c as [dg sz]. simpl in *. by rewrite digest_coerce.
Qed.

Lemma digests_elem m digest :
  digest ∈ Digests m ↔ ∃ f c, f ∈ Files m ∧ c ∈ Chunks f ∧ Digest c = digest.
Proof.
  unfold Digests. rewrite merge_sort_Permutation, elem_of_elements, elem_of_list_to_set, list_elem_of_In, in_concat. split.
  - intros (l & (f & <- & Hf)%in_map_iff & (c & <- & Hc)%in_map_iff). exists f, c. by rewrite !list_elem_of_In.
  - intros (f & c & Hf & Hc & <-). rewrite !list_elem_of_In in *. exists (map Digest (Chunks f)). split; apply in_map_iff; eauto.
Qed.

Lemma digests_nodup m : NoDup (Digests m).
Proof. unfold Digests. rewrite merge_sort_Permutation. apply NoDup_elements. Qed.

Lemma digests_valid m digest : typed m → Manifest_Validate m = Ok tt → digest ∈ Digests m → Digest_Valid digest = true.
Proof.
  intros Ht (_ & _ & v & [Hf _ _ _ _ _] & _)%manifest_checked; [|done]. intros (f & c & Hin & Hc & <-)%digests_elem.
  rewrite Forall_forall in Hf. destruct (Hf f Hin) as (_ & _ & Hcs & _). rewrite Forall_forall in Hcs. by apply (Hcs c Hc).
Qed.

End Lemmas.

(** ** The invariant of the tables *)

Section Store.
Context `{UnicodeCaseLaws} (sha256 : bytes → bytes) (Hsha : ∀ c, length (sha256 c) = DigestBytes) (json_length : Manifest → Z).
Abbreviation scan := (scan_artifact sha256 json_length).

(** Every stored bundle can be read, and the references are those of the stored
    manifests. *)
Definition artifacts_ok (d : CacheDB) : Prop :=
  (∀ id row, artifact_rows d !! id = Some row → ∃ b, scan id row = Ok b) ∧
  (∀ id digest, (id, digest) ∈ artifact_refs d ↔ ∃ row, artifact_rows d !! id = Some row ∧ digest ∈ Digests (art_manifest row)).

(** A bundle [Save] lets through to the database, with the identifier of its
    manifest. *)
Record savable (b : Bundle) (manifestID : string) : Prop := {
  sv_typed : typed (BundleManifest b);
  sv_valid : Bundle_Validate b = Ok tt;
  sv_id : Manifest_ID sha256 (BundleManifest b) = Ok manifestID;
  sv_length : (json_length (json_manifest (BundleManifest b)) ≤ MaximumStoredManifestBytes)%Z
}.

Definition row_of (b : Bundle) (manifestID : string) : ArtifactRow :=
  MkArtifactRow manifestID (BundleManifest b) (TotalBytes (BundleManifest b)) (unix_nano (CollectedAt b)) None.

Lemma savable_manifest b manifestID : savable b manifestID →
  Manifest_Validate (BundleManifest b) = Ok tt ∧ json_manifest (BundleManifest b) = BundleManifest b ∧ Digest_Valid manifestID = true.
Proof.
  intros [Ht Hv Hid _]. assert (Manifest_Validate (BundleManifest b) = Ok tt) as Hm.
  { unfold Manifest_ID, CanonicalBytes in Hid. apply result_bind_ok in Hid as (c & Hc & _). by apply result_bind_ok in Hc as ([] & ? & _). }
  split_and!; [done|by apply manifest_json|]. unfold Manifest_ID in Hid. apply result_bind_ok in Hid as (c & _ & [= <-]). by apply sum_valid.
Qed.

Lemma scan_row b manifestID : savable b manifestID → (0 < CollectedAt b < 2 ^ 63)%Z →
  scan (BundleJobID b) (row_of b manifestID) = Ok b.
Proof.
  intros Hs Ht. destruct (savable_manifest _ _ Hs) as (Hm & Hj & Hd). destruct Hs as [_ Hv Hid Hl]. rewrite Hj in Hl.
  unfold scan_artifact, row_of. cbn [art_manifest art_manifest_id art_total_bytes art_collected_ns].
  rewrite (proj2 (Z.ltb_ge _ _)) by done. cbn [reject_if mbind result_bind].
  unfold Digest_Valid in Hd. destruct (ParseDigest manifestID) as [v|] eqn:E; [|done].
  assert (v = manifestID) as ->.
  { unfold ParseDigest in E. destruct (_ || _); [done|]. destruct (hex_decode _); [|done]. by case_bool_decide; simplify_eq. }
  rewrite Hid, bool_decide_eq_true_2, Z.eqb_refl by done. cbn [negb orb reject_if mbind result_bind].
  unfold from_unix_nano, unix_nano. rewrite wrap_int64_id by (unfold int64_range; lia).
  destruct b as [id m at_]. cbn [BundleJobID BundleManifest CollectedAt] in *. by rewrite Hv.
Qed.

Lemma insert_refs_ok id digests d :
  NoDup digests → (∀ x, x ∈ digests → Digest_Valid x = true ∧ (id, x) ∉ artifact_refs d) → is_Some (artifact_rows d !! id) →
  insert_refs id digests d = Ok (tt, set_artifacts (list_to_set (pair id <$> digests) ∪ artifact_refs d) (artifact_rows d) d).
Proof.
  intros Hn. revert d. induction Hn as [|x digests Hx Hn IH]; intros d Hd Hrow; cbn [insert_refs fmap list_fmap list_to_set].
  { unfold mret, Tx_ret, set_artifacts. rewrite (left_id_L ∅ union). by destruct d. }
  unfold mbind, Tx_bind, tx_read, constraint, tx_lift, tx_write. destruct (Hd x) as [Hv Hnew]; [set_solver|].
  rewrite !bool_decide_eq_true_2, (digest_sql_length x Hv) by done. cbn [andb Z.eqb Pos.eqb negb reject_if].
  rewrite IH; [|intros y Hy; destruct (Hd y) as [? ?]; [set_solver|]; split; [done|]; cbn; set_solver|done].
  unfold set_artifacts. cbn [cache_entries artifact_refs artifact_rows job_states]. do 3 f_equal. set_solver.
Qed.

(** The transaction of [Save] stores a bundle, or finds that its job has one. *)
Lemma save_transaction_cases b manifestID d : artifacts_ok d → savable b manifestID →
  save_transaction b manifestID d =
  if bool_decide (is_Some (job_states d !! BundleJobID b)) && bool_decide (artifact_rows d !! BundleJobID b = None)
     && (0 <? unix_nano (CollectedAt b))%Z
  then Ok (Ok tt, set_artifacts (list_to_set (pair (BundleJobID b) <$> Digests (BundleManifest b)) ∪ artifact_refs d)
    (<[BundleJobID b := row_of b manifestID]> (artifact_rows d)) d)
  else Ok (Err [ConstraintError], d).
Proof.
  intros [_ Hrefs] Hs. destruct (savable_manifest _ _ Hs) as (Hm & Hj & Hid). pose proof (sv_typed _ _ Hs) as Ht.
  unfold save_transaction, mbind, Tx_bind, tx_try, insert_artifact, mbind, Tx_bind, tx_read, constraint, tx_lift.
  cbn [art_manifest_id art_total_bytes art_collected_ns]. rewrite Hj, (digest_sql_length manifestID Hid).
  destruct (manifest_checked (BundleManifest b) Ht Hm) as (_ & _ & v & Hck & Htot).
  assert (0 ≤ TotalBytes (BundleManifest b))%Z as Hpos by (destruct (ck_total _ _ Hck); lia).
  rewrite (proj2 (Z.leb_le 0 _) Hpos), !andb_true_r.
  destruct (bool_decide (is_Some _)), (bool_decide (artifact_rows d !! BundleJobID b = None)) eqn:Enone, (0 <? _)%Z; try done.
  cbn [andb negb reject_if tx_write]. reflect_bools. unfold tx_write. rewrite insert_refs_ok; [done|apply digests_nodup| |].
  - intros x Hx. split; [by eapply digests_valid|]. cbn. rewrite Hrefs. intros (row & Hrow & _). congruence.
  - cbn. by rewrite lookup_insert_eq.
Qed.

(** What the daemon and the runner do to the tables: save bundles, mark them
    retrieved, and write to the other tables. *)
Inductive artifact_step : relation CacheDB :=
| step_save b manifestID d r d' : savable b manifestID → (0 < CollectedAt b < 2 ^ 63)%Z →
    save_transaction b manifestID d = Ok (r, d') → artifact_step d d'
| step_mark id at_ d d' : MarkRetrieved id at_ d = Ok (tt, d') → artifact_step d d'
| step_others entries jobs d : artifact_step d (MkCacheDB entries (artifact_refs d) (artifact_rows d) jobs).

(** The same bundle; it may have become retrieved, not before it was collected. *)
Definition row_kept (row row' : ArtifactRow) : Prop :=
  row' = row ∨ art_retrieved_ns row = None ∧ ∃ t, (art_collected_ns row ≤ t)%Z ∧
    row' = MkArtifactRow (art_manifest_id row) (art_manifest row) (art_total_bytes row) (art_collected_ns row) (Some t).
Definition rows_kept (d d' : CacheDB) : Prop :=
  ∀ id row, artifact_rows d !! id = Some row → ∃ row', artifact_rows d' !! id = Some row' ∧ row_kept row row'.

Lemma mark_kept at_ns row : row_kept row (mark_row at_ns row).
Proof.
  unfold mark_row, row_kept. destruct (Z.leb_spec (art_collected_ns row) at_ns); [|by left].
  destruct row as [mid m t c [r|]]; simpl in *; [by left|]. right. split; [done|]. by exists at_ns.
Qed.

Lemma mark_scan id at_ns row : scan id (mark_row at_ns row) = scan id row ∧ art_manifest (mark_row at_ns row) = art_manifest row.
Proof. unfold mark_row. by destruct (_ <=? _)%Z. Qed.

Lemma rows_kept_refl d : rows_kept d d.
Proof. intros id row Hrow. exists row. by split; [|left]. Qed.

Lemma row_kept_trans a b c : row_kept a b → row_kept b c → row_kept a c.
Proof. intros [->|(Ha & t & Ht & ->)] [->|(Hb & u & Hu & ->)]; unfold row_kept; eauto. Qed.

Lemma save_step b manifestID d r d' : artifacts_ok d → savable b manifestID → (0 < CollectedAt b < 2 ^ 63)%Z →
  save_transaction b manifestID d = Ok (r, d') → artifacts_ok d' ∧ rows_kept d d'.
Proof.
  intros Hd Hs Ht. rewrite (save_transaction_cases b manifestID d Hd Hs). destruct (_ && _) eqn:E.
  2: { intros [= <- <-]. split; [done|apply rows_kept_refl]. }
  intros [= <- <-]. reflect_bools. destruct Hd as [Hrows Hrefs]. split; [split|]; cbn [artifact_rows artifact_refs set_artifacts].
  - intros id row. rewrite lookup_insert_Some. intros [[<- <-]|[_ Hrow]]; [|by eapply Hrows]. exists b. by apply scan_row.
  - intros id digest. rewrite elem_of_union, elem_of_list_to_set, list_elem_of_fmap, Hrefs. split.
    + intros [(x & [= -> ->] & Hx)|(row & Hrow & Hx)].
      * exists (row_of b manifestID). by rewrite lookup_insert_eq.
      * exists row. rewrite lookup_insert_ne by congruence. done.
    + intros (row & Hrow & Hx). apply lookup_insert_Some in Hrow as [[<- <-]|[Hne Hrow]]; [left; by exists digest|right; by exists row].
  - intros id row Hrow. exists row. cbn. rewrite lookup_insert_ne by congruence. by split; [|left].
Qed.

Lemma mark_step id at_ d d' : artifacts_ok d → MarkRetrieved id at_ d = Ok (tt, d') → artifacts_ok d' ∧ rows_kept d d'.
Proof.
  intros [Hrows Hrefs]. unfold MarkRetrieved. intros (u & d1 & Hg & Hrun)%tx_bind_ok. unfold tx_lift in Hg.
  destruct (reject_if _ _); [|done]. injection Hg as <- <-. injection Hrun as <-.
  assert (Hlook : ∀ x row, alter (mark_row (unix_nano at_)) id (artifact_rows d) !! x = Some row →
    ∃ row0, artifact_rows d !! x = Some row0 ∧ (row = row0 ∨ row = mark_row (unix_nano at_) row0)).
  { intros x row Hrow. destruct (decide (x = id)) as [->|Hne].
    - rewrite lookup_alter_eq in Hrow. destruct (artifact_rows d !! id) as [row0|]; [|done]. injection Hrow as <-. eauto.
    - rewrite lookup_alter_ne in Hrow by done. eauto. }
  split; [split|]; cbn [artifact_rows artifact_refs set_artifacts].
  - intros x row (row0 & H0' & [->| ->])%Hlook; rewrite ?(proj1 (mark_scan _ _ _)); by eapply Hrows.
  - intros x digest. rewrite Hrefs. split.
    + intros (row & Hrow & Hx). destruct (decide (x = id)) as [->|Hne].
      * exists (mark_row (unix_nano at_) row). rewrite lookup_alter_eq, Hrow, (proj2 (mark_scan id _ _)). done.
      * exists row. by rewrite lookup_alter_ne.
    + intros (row & (row0 & Hrow & [->| ->])%Hlook & Hx); rewrite ?(proj2 (mark_scan x _ _)) in Hx; by exists row0.
  - intros x row Hrow. cbn. destruct (decide (x = id)) as [->|Hne].
    + rewrite lookup_alter_eq, Hrow. eexists. split; [done|apply mark_kept].
    + rewrite lookup_alter_ne by done. exists row. by split; [|left].
Qed.

(** Whatever the daemon and the runner do, every stored bundle can be read back
    and the protected chunks are exactly those of the stored manifests; a bundle once
    stored is never lost or changed, but that it is marked retrieved once, not before
    it was collected. *)
Theorem artifact_store_sound d d' : artifacts_ok d → rtc artifact_step d d' → artifacts_ok d' ∧ rows_kept d d'.
Proof.
  intros Hd Hsteps. induction Hsteps as [d|d d1 d' Hstep Hsteps IH]; [split; [done|apply rows_kept_refl]|].
  assert (artifacts_ok d1 ∧ rows_kept d d1) as [Hd1 Hk].
  { destruct Hstep as [b manifestID d r d1 Hs Ht Hrun|id at_ d d1 Hrun|entries jobs d];
      [by eapply save_step|by eapply mark_step|exact (conj Hd (rows_kept_refl d))]. }
  destruct (IH Hd1) as [Hd' Hk']. split; [done|]. intros id row Hrow. destruct (Hk id row Hrow) as (row1 & Hrow1 & Hr1).
  destruct (Hk' id row1 Hrow1) as (row2 & Hrow2 & Hr2). exists row2. split; [done|by eapply row_kept_trans].
Qed.

Lemma scan_id id row b : scan id row = Ok b → BundleManifest b = art_manifest row ∧ BundleJobID b = id ∧
  Manifest_ID sha256 (art_manifest row) = Ok (art_manifest_id row).
Proof.
  unfold scan_artifact. intros ([] & _ & Hs)%result_bind_ok.
  destruct (ParseDigest (art_manifest_id row)) as [claimed|] eqn:Ep; [|done].
  destruct (Manifest_ID sha256 (art_manifest row)) as [actual|] eqn:Em; [|done].
  apply result_bind_ok in Hs as ([] & Hc%reject_if_ok & Hs). apply result_bind_ok in Hs as ([] & _ & [= <-]). reflect_bools. subst actual.
  split_and!; [done|done|]. f_equal. unfold ParseDigest in Ep. destruct (_ || _); [done|]. destruct (hex_decode _); [|done]. by case_bool_decide; simplify_eq.
Qed.

(** Saving a bundle without failures stores it, and it is read back as it was
    collected with its chunks protected; saving the same manifest again, at any later
    time, succeeds and changes nothing; another manifest for the same job is a
    conflict and changes nothing. *)
Theorem save_outcome b manifestID w :
  artifacts_ok (w_db w) → calm w → savable b manifestID → (0 < CollectedAt b < 2 ^ 63)%Z →
  is_Some (job_states (w_db w) !! BundleJobID b) →
  ∃ r w', Save sha256 json_length (@atomically CacheDB) b w = (r, w') ∧
  match artifact_rows (w_db w) !! BundleJobID b with
  | None => r = Ok tt ∧ Artifact_Get sha256 json_length (BundleJobID b) (w_db w') = Ok (b, w_db w') ∧
      ∀ digest, digest ∈ Digests (BundleManifest b) → (BundleJobID b, digest) ∈ artifact_refs (w_db w')
  | Some row => w_db w' = w_db w ∧
      r = if bool_decide (art_manifest_id row = manifestID) then Ok tt else Err [ArtifactErrConflict]
  end.
Proof.
  intros Hd Hcalm Hs Ht Hjob. assert (Hid : ID_Valid (BundleJobID b) = true).
  { pose proof (sv_valid _ _ Hs) as Hv. unfold Bundle_Validate in Hv. apply result_bind_ok in Hv as ([] & Hv%reject_if_ok & _). by reflect_bools. }
  unfold Save, mbind, M_bind, lift. rewrite (sv_valid _ _ Hs), (sv_id _ _ Hs).
  rewrite (proj2 (Z.ltb_ge _ _)) by apply (sv_length _ _ Hs). cbn [reject_if].
  rewrite calm_atomically, (save_transaction_cases b manifestID _ Hd Hs) by done.
  rewrite (bool_decide_eq_true_2 (is_Some _)) by done. unfold unix_nano at 1. rewrite wrap_int64_id, (proj2 (Z.ltb_lt _ _)) by (unfold int64_range; lia).
  cbn [andb]. rewrite andb_true_r. destruct (artifact_rows (w_db w) !! BundleJobID b) as [row|] eqn:Erow.
  - rewrite bool_decide_eq_false_2 by done. cbn beta iota. unfold isConstraintError, errors_is. rewrite bool_decide_eq_true_2 by set_solver. cbn [negb].
    unfold try_. rewrite calm_atomically by (by apply calm_accessed). cbn [w_db accessed].
    unfold Artifact_Get at 1, mbind, Tx_bind, tx_lift, tx_read. rewrite Hid. cbn [negb reject_if]. rewrite Erow.
    destruct Hd as [Hrows _]. destruct (Hrows _ _ Erow) as [b' Hb']. rewrite Hb'. destruct (scan_id _ _ _ Hb') as (-> & _ & ->).
    case_bool_decide; eexists _, _; (split; [reflexivity|]); done.
  - rewrite bool_decide_eq_true_2 by done. cbn beta iota. eexists _, _. split; [reflexivity|]. cbn [w_db accessed]. split_and!; [done| |].
    + unfold Artifact_Get, mbind, Tx_bind, tx_lift, tx_read. rewrite Hid. cbn [negb reject_if set_artifacts artifact_rows].
      by rewrite lookup_insert_eq, scan_row.
    + intros digest Hx. cbn. apply elem_of_union_l, elem_of_list_to_set, list_elem_of_fmap. by exists digest.
Qed.

Lemma unretrieved_protected d id row digest :
  artifacts_ok d → artifact_rows d !! id = Some row → art_retrieved_ns row = None → digest ∈ Digests (art_manifest row) →
  protected d digest = true.
Proof.
  intros [_ Hrefs] Hrow Hr Hx. unfold protected, referenced. apply orb_true_iff. right. apply existsb_exists. exists (id, digest).
  split; [apply list_elem_of_In, elem_of_elements, Hrefs; eauto|]. cbn. rewrite Hrow. cbn. rewrite Hr. by rewrite !bool_decide_eq_true_2.
Qed.

(** Results wait for their owner: as long as a bundle is not marked retrieved,
    enforcing the cache quota, however small, removes none of its chunks. *)
Theorem results_survive maximumBytes w id row digest :
  artifacts_ok (vault_db (w_db w)) → calm w → ticking w → index_ok (vault_db (w_db w)) → (total (w_db w) < 2 ^ 63)%Z →
  artifact_rows (vault_db (w_db w)) !! id = Some row → art_retrieved_ns row = None → digest ∈ Digests (art_manifest row) →
  ∃ r w', Enforce maximumBytes w = (r, w') ∧
    cache_entries (vault_db (w_db w')) !! digest = cache_entries (vault_db (w_db w)) !! digest ∧
    vault_files (w_db w') !! digest = vault_files (w_db w) !! digest.
Proof.
  intros Hd Hcalm Htick Hi Ht Hrow Hr Hx.
  destruct (enforce_ends maximumBytes _ Hi Ht w Hcalm Htick eq_refl) as (r & w' & Hrun & _ & _ & _ & removed & Hev).
  exists r, w'. split; [done|]. eapply pass_same; [exact Hev|]. left. by eapply unretrieved_protected.
Qed.

End Store.

(** ** Witnesses *)

Definition sample_bundle : Bundle := MkBundle sample_id sample_manifest 5.
Definition sample_tables : CacheDB := MkCacheDB ∅ ∅ ∅ {[ sample_id := "collecting" ]}.
Abbreviation short := (λ _ : Manifest, 100%Z).

Lemma sample_tables_ok : artifacts_ok (H := ascii_case) sample_sha256 short sample_tables.
Proof. split; [intros id row; cbn; by rewrite lookup_empty|]. intros id digest. cbn. split; [set_solver|]. intros (row & E & _). by rewrite lookup_empty in E. Qed.

Lemma sample_savable : ∃ manifestID, savable (H := ascii_case) sample_sha256 short sample_bundle manifestID.
Proof.
  destruct (Manifest_ID (H := ascii_case) sample_sha256 sample_manifest) as [i|e] eqn:E; [|vm_compute in E; discriminate E].
  exists i. split; [exact sample_typed|vm_compute; reflexivity|exact E|vm_compute; discriminate].
Qed.

Lemma save_outcome_witness :
  ∃ w', Save (H := ascii_case) sample_sha256 short (@atomically CacheDB) sample_bundle (quiet sample_tables (λ _, 9%Z)) = (Ok tt, w') ∧
    Artifact_Get (H := ascii_case) sample_sha256 short sample_id (w_db w') = Ok (sample_bundle, w_db w').
Proof.
  destruct sample_savable as [i Hi].
  destruct (save_outcome (H := ascii_case) (H0 := ascii_case_laws) sample_sha256 (λ _, eq_refl) short sample_bundle i
    (quiet sample_tables (λ _, 9%Z)) sample_tables_ok (quiet_calm _ _) Hi) as (r & w' & Hrun & Hr).
  - vm_compute. split; reflexivity.
  - exists "collecting". reflexivity.
  - cbn in Hr. destruct Hr as (-> & Hget & _). exists w'. split; [exact Hrun|exact Hget].
Defined.

Lemma artifact_store_sound_witness :
  ∃ d', rtc (artifact_step (H := ascii_case) sample_sha256 short) sample_tables d' ∧
    artifacts_ok (H := ascii_case) sample_sha256 short d' ∧ is_Some (artifact_rows d' !! sample_id).
Proof.
  destruct sample_savable as [i Hi].
  destruct (save_transaction sample_bundle i sample_tables) as [[r d1]|e] eqn:E.
  2: { rewrite (save_transaction_cases (H := ascii_case) (H0 := ascii_case_laws) sample_sha256 (λ _, eq_refl) short _ _ _ sample_tables_ok Hi) in E.
       destruct (_ && _) in E; discriminate E. }
  assert (Hstep : rtc (artifact_step (H := ascii_case) sample_sha256 short) sample_tables d1).
  { apply rtc_once, (step_save (H := ascii_case) sample_sha256 short sample_bundle i _ r); [exact Hi|vm_compute; split; reflexivity|exact E]. }
  exists d1. split; [exact Hstep|].
  destruct (artifact_store_sound (H := ascii_case) (H0 := ascii_case_laws) sample_sha256 (λ _, eq_refl) short _ _ sample_tables_ok Hstep) as [Hok _].
  split; [exact Hok|]. rewrite (save_transaction_cases (H := ascii_case) (H0 := ascii_case_laws) sample_sha256 (λ _, eq_refl) short _ _ _ sample_tables_ok Hi) in E.
  cbn in E. injection E as _ <-. exists (row_of sample_bundle i). reflexivity.
Defined.

Lemma results_survive_witness :
  ∃ v : Vault, protected (vault_db v) (sample_digest "0") = true ∧
  ∃ r w', Enforce (H := ascii_case) 0 (quiet v (λ _, 9%Z)) = (r, w') ∧ vault_files (w_db w') !! sample_digest "0" = Some (bytes_of "abc").
Proof.
  destruct sample_savable as [i Hi].
  pose (d1 := set_artifacts {[(sample_id, sample_digest "0")]} {[ sample_id := row_of sample_bundle i ]}
    (set_entries {[ sample_digest "0" := MkCacheRow 3 4 ]} sample_tables)).
  assert (Hok : artifacts_ok (H := ascii_case) sample_sha256 short d1).
  { assert (Hrefs : ∀ x, x ∈ Digests sample_manifest ↔ x = sample_digest "0").
    { intros x. change (Digests sample_manifest) with (Digests (MkManifest 1 [sample_file] 3)). rewrite digests_elem. split.
      - intros (f & c & Hf%list_elem_of_singleton & Hc & <-). subst f. vm_compute in Hc. apply list_elem_of_singleton in Hc. subst c. reflexivity.
      - intros ->. exists sample_file, (MkChunk (sample_digest "0") 3). split; [apply list_elem_of_singleton; reflexivity|].
        split; [vm_compute; apply list_elem_of_singleton; reflexivity|reflexivity]. }
    split.
    - intros id row E. cbn in E. apply lookup_singleton_Some in E as [<- <-]. exists sample_bundle.
      apply (scan_row (H := ascii_case) (H0 := ascii_case_laws) sample_sha256 (λ _, eq_refl) short sample_bundle i Hi). vm_compute. split; reflexivity.
    - intros id digest. cbn [artifact_refs d1 set_artifacts artifact_rows]. rewrite elem_of_singleton. split.
      + intros [= -> ->]. exists (row_of sample_bundle i). split; [apply lookup_singleton_eq|apply Hrefs; reflexivity].
      + intros (row & E & Hx). apply lookup_singleton_Some in E as [<- <-]. apply Hrefs in Hx as ->. reflexivity. }
  pose (v := MkVault d1 {[ sample_digest "0" := bytes_of "abc" ]} (MkPins 0 ∅ ∅ ∅)). exists v.
  assert (Hin : sample_digest "0" ∈ Digests sample_manifest).
  { apply digests_elem. exists sample_file, (MkChunk (sample_digest "0") 3). split; [apply list_elem_of_singleton; reflexivity|].
    split; [vm_compute; apply list_elem_of_singleton; reflexivity|reflexivity]. }
  split; [apply (unretrieved_protected (H := ascii_case) sample_sha256 short d1 sample_id (row_of sample_bundle i) _ Hok eq_refl eq_refl Hin)|].
  destruct (results_survive (H := ascii_case) sample_sha256 short 0 (quiet v (λ _, 9%Z)) sample_id (row_of sample_bundle i) (sample_digest "0")
    Hok (quiet_calm _ _)) as (r & w' & Hrun & _ & Hf); [split; reflexivity| |reflexivity..|exact Hin|].
  - intros k row E. change (({[ sample_digest "0" := MkCacheRow 3 4 ]} : gmap string CacheRow) !! k = Some row) in E.
    apply lookup_singleton_Some in E as [<- <-]. split; vm_compute; reflexivity.
  - exists r, w'. split; [exact Hrun|]. rewrite Hf. reflexivity.
Defined.
