(* ===== verification/Hosts.v ===== *)
(** * Programs over several stores

    A service of a daemon works on several stores, each with its own failures and its
    own other users (a [World] of [Effects]).  [Run S] is a program over a state [S]
    that holds them, and [zoom] runs a program of one store inside it. *)

From S2P Require Import Prelude Effects.

Definition Run (S A : Type) : Type := S → result A * S.

#[global] Instance Run_ret S : MRet (Run S) := λ _ a s, (Ok a, s).
#[global] Instance Run_bind S : MBind (Run S) := λ _ _ f m s,
  match m s with (Ok a, s') => f a s' | (Err e, s') => (Err e, s') end.

Definition run_fail {S A} (e : list sentinel) : Run S A := λ s, (Err e, s).
Definition run_lift {S A} (r : result A) : Run S A := λ s, (r, s).
(** Runs [m] and hands its outcome to the caller. *)
Definition attempt {S A} (m : Run S A) : Run S (result A) := λ s, let '(r, s') := m s in (Ok r, s').
(** [defer cleanup()] around [m]. *)
Definition finally {S A} (cleanup : Run S unit) (m : Run S A) : Run S A :=
  r ← attempt m; _ ← attempt cleanup; run_lift r.
Definition zoom {S W A} (get : S → W) (put : W → S → S) (m : W → result A * W) : Run S A :=
  λ s, let '(r, w) := m (get s) in (r, put w s).

(** [for _, x := range xs]. *)
Fixpoint each {S A} (f : A → Run S unit) (l : list A) : Run S unit :=
  match l with [] => mret tt | x :: rest => _ ← f x; each f rest end.

(** ** What a run does *)

(** [runs m s Q]: [m] from [s] ends in a result and a state that satisfy [Q]. *)
Definition runs {S A} (m : Run S A) (s : S) (Q : result A → S → Prop) : Prop := Q (m s).1 (m s).2.

Section Runs.
Context {S : Type}.

Lemma runs_eq {A} (m : Run S A) s r s' (Q : result A → S → Prop) : m s = (r, s') → Q r s' → runs m s Q.
Proof. unfold runs. by intros ->. Qed.

Lemma runs_elim {A} (m : Run S A) s r s' (Q : result A → S → Prop) : runs m s Q → m s = (r, s') → Q r s'.
Proof. unfold runs. by intros HQ E; rewrite E in HQ. Qed.

Lemma runs_mono {A} (m : Run S A) s (P Q : result A → S → Prop) : runs m s P → (∀ r s', P r s' → Q r s') → runs m s Q.
Proof. unfold runs. auto. Qed.

Lemma runs_bind {A B} (m : Run S A) (f : A → Run S B) s Q :
  runs m s (λ r s', match r with Ok a => runs (f a) s' Q | Err e => Q (Err e) s' end) → runs (m ≫= f) s Q.
Proof. unfold runs, mbind, Run_bind. by destruct (m s) as [[a|e] s']. Qed.

Lemma runs_ret {A} (a : A) s (Q : result A → S → Prop) : Q (Ok a) s → runs (mret a) s Q.
Proof. done. Qed.

Lemma runs_lift {A} (r : result A) s (Q : result A → S → Prop) : Q r s → runs (run_lift r) s Q.
Proof. done. Qed.

Lemma runs_fail {A} e s (Q : result A → S → Prop) : Q (Err e) s → runs (run_fail e) s Q.
Proof. done. Qed.

Lemma runs_attempt {A} (m : Run S A) s (Q : result (result A) → S → Prop) :
  runs m s (λ r s', Q (Ok r) s') → runs (attempt m) s Q.
Proof. unfold runs, attempt. by destruct (m s). Qed.

Lemma runs_finally {A} (cleanup : Run S unit) (m : Run S A) s Q :
  runs m s (λ r s', runs cleanup s' (λ _ s'', Q r s'')) → runs (finally cleanup m) s Q.
Proof.
  intros Hm. unfold finally. apply runs_bind, runs_attempt. eapply runs_mono; [exact Hm|]. cbn. intros r s' Hc.
  apply runs_bind, runs_attempt. eapply runs_mono; [exact Hc|]. done.
Qed.

Lemma runs_zoom {W A} (get : S → W) (put : W → S → S) (m : W → result A * W) s (Q : result A → S → Prop) :
  runs (S := W) m (get s) (λ r w, Q r (put w s)) → runs (zoom get put m) s Q.
Proof. unfold runs, zoom. by destruct (m (get s)). Qed.

End Runs.

(** A guard that fails ends the run where it stands. *)
Ltac run_guard :=
  apply runs_bind, runs_lift; cbv beta;
  match goal with |- match ?r with Ok _ => _ | Err _ => _ end => destruct r as [[]|?]; [|done] end.

(** A run in a world without failures or interference. *)
Lemma runs_ends {DB A} T (m : M DB A) (w : World DB) Q :
  ends_in T m (w_db w) Q → calm w → clocked T w →
  runs (S := World DB) m w (λ r w', calm w' ∧ clocked T w' ∧ Q r (w_db w')).
Proof. intros Hm Hc Ht. destruct (Hm w Hc Ht eq_refl) as (r & w' & E & H). by eapply runs_eq. Qed.

(** ** What a run keeps *)

(** [stays I m]: [I] holds after [m], on every path, if it held before. *)
Definition stays {S A} (I : S → Prop) (m : Run S A) : Prop := ∀ s, I s → I (m s).2.

Section Stays.
Context {S : Type} (I : S → Prop).

Lemma stays_bind {A B} (m : Run S A) (f : A → Run S B) : stays I m → (∀ a, stays I (f a)) → stays I (m ≫= f).
Proof. intros Hm Hf s Hs. specialize (Hm s Hs). unfold mbind, Run_bind. destruct (m s) as [[a|e] s']; [by apply Hf|done]. Qed.
Lemma stays_ret {A} (a : A) : stays I (mret a).
Proof. by intros s Hs. Qed.
Lemma stays_lift {A} (r : result A) : stays I (run_lift r).
Proof. by intros s Hs. Qed.
Lemma stays_fail {A} e : stays I (run_fail (A := A) e).
Proof. by intros s Hs. Qed.
Lemma stays_attempt {A} (m : Run S A) : stays I m → stays I (attempt m).
Proof. intros Hm s Hs. specialize (Hm s Hs). unfold attempt. by destruct (m s). Qed.
Lemma stays_finally {A} (cleanup : Run S unit) (m : Run S A) : stays I cleanup → stays I m → stays I (finally cleanup m).
Proof. intros Hc Hm. apply stays_bind; [by apply stays_attempt|intros r]. apply stays_bind; [by apply stays_attempt|intros _]. apply stays_lift. Qed.
Lemma stays_zoom {W A} (J : W → Prop) (get : S → W) (put : W → S → S) (m : W → result A * W) :
  (∀ s, I s → J (get s)) → (∀ s w, I s → J w → I (put w s)) → stays (S := W) J m → stays I (zoom get put m).
Proof. intros Hget Hput Hm s Hs. specialize (Hm (get s) (Hget s Hs)). unfold zoom. destruct (m (get s)). by apply Hput. Qed.

Lemma runs_stays {A} (m : Run S A) s (Q : result A → S → Prop) : runs m s Q → stays I m → I s → runs m s (λ r s', Q r s' ∧ I s').
Proof. intros HQ Hm Hs. split; [exact HQ|by apply Hm]. Qed.

Lemma runs_after {A B} (m : Run S A) (f : A → Run S B) s Q : stays I m → I s →
  (∀ e s', I s' → Q (Err e) s') → (∀ a s', m s = (Ok a, s') → I s' → runs (f a) s' Q) → runs (m ≫= f) s Q.
Proof.
  intros Hm Hs Herr Hf. specialize (Hm s Hs). apply runs_bind. unfold runs. destruct (m s) as [[a|e] s']; [by apply Hf|by apply Herr].
Qed.

End Stays.

(** A world whose other users keep [I] too. *)
Definition world_ok {DB} (I : DB → Prop) (w : World DB) : Prop := stable I w ∧ I (w_db w).

Lemma stays_world {DB A} (I : DB → Prop) (m : M DB A) : keeps I m → stays (S := World DB) (world_ok I) m.
Proof.
  intros Hm w [Hst Hi]. destruct (m w) as [r w'] eqn:E. destruct (Hm w r w' Hst Hi E) as [Hi' Hw]. split; [|done].
  intros n d. cbn. rewrite Hw. apply Hst.
Qed.

Create HintDb hop_stays discriminated.
#[export] Hint Resolve stays_ret stays_lift stays_fail : hop_stays.

(** Follows the structure of a program. *)
Ltac stays :=
  repeat first
    [ solve [auto 2 with hop_stays nocore] | assumption | apply stays_bind; [|intros ?] | apply stays_attempt | apply stays_finally
    | match goal with |- context [match ?x with _ => _ end] => destruct x end ].
