(* ===== verification/Workspace.v ===== *)
(** * Job workspaces and restored outputs (internal/infra/cas/workspace.go, artifacts.go)

    Directory trees are maps from the names along a path to files, directories and
    symbolic links.  A workspace or a restore is first written to a fresh private
    directory, which is a value here, and then renamed into place; every call into
    the operating system may fail.  [Host] is what a daemon works on: its jobs, the
    content store, the workspaces by job, and the directory results are restored to. *)

From S2P Require Import Prelude GoText PortablePath JobModel Effects Sql JobStore Snapshot ContentCache ArtifactStore Hosts.
From Stdlib Require Import Ascii.
Local Open Scope string_scope.
Local Open Scope nat_scope.
Local Open Scope list_scope.

(** A symbolic link leads nowhere, to something that is no regular file, or to a file. *)
Inductive Node := Dir | Reg (mode : Z) (data : bytes) | Link (to : option (option bytes)).
Definition Path_countable : Countable (list string) := _.
#[global] Existing Instance Path_countable.
Abbreviation Tree := (@gmap (list string) _ Path_countable Node).
#[global] Instance Node_eq_dec : EqDecision Node.
Proof. solve_decision. Defined.

Definition segments (path : string) : list string := split "/"%char path.
(** [filepath.Dir] of a relative path, as names. *)
Definition dir_of (segs : list string) : list string := take (pred (length segs)) segs.

Record Host := MkHost {
  h_jobs : World Database; h_content : World Vault; h_spaces : World (gmap string Tree); h_home : World Tree
}.
Definition on_jobs {A} (m : M Database A) : Run Host A :=
  zoom h_jobs (λ w h, MkHost w (h_content h) (h_spaces h) (h_home h)) m.
Definition on_content {A} (m : M Vault A) : Run Host A :=
  zoom h_content (λ w h, MkHost (h_jobs h) w (h_spaces h) (h_home h)) m.
Definition on_spaces {A} (m : M (gmap string Tree) A) : Run Host A :=
  zoom h_spaces (λ w h, MkHost (h_jobs h) (h_content h) w (h_home h)) m.
Definition on_home {A} (m : M Tree A) : Run Host A :=
  zoom h_home (λ w h, MkHost (h_jobs h) (h_content h) (h_spaces h) w) m.

(** [os.MkdirAll] of [base] and [rest], where [base] is there. *)
Fixpoint mkdir_all (base rest : list string) (t : Tree) : result Tree :=
  match rest with
  | [] => Ok t
  | name :: rest =>
      let here := base ++ [name] in
      match t !! here with
      | Some Dir => mkdir_all here rest t
      | Some _ => Err [DriverError]
      | None => mkdir_all here rest (<[here := Dir]> t)
      end
  end.

(** [filepath.Join]. *)
Definition filepath_Join (a b : string) : string := path_clean (a +:+ "/" +:+ b).

Section Store.
Context `{UnicodeCase} (sha256 : bytes → bytes) (maximumBytes : Z) (stateDir : string).

(** A call into the operating system that concerns private files only. *)
Definition private_io : Run Host unit := on_spaces (atomically (mret tt)).

Fixpoint copy_chunks (chunks : list Chunk) (written : bytes) : Run Host bytes :=
  match chunks with
  | [] => mret written
  | chunk :: rest =>
      contents ← on_content (Cas_Read sha256 (Digest chunk));
      _ ← run_lift (reject_if (negb (Z.of_nat (length contents) =? Size chunk)%Z) [CasErrCorrupt]);
      _ ← private_io;
      copy_chunks rest (written ++ contents)
  end.

(** The file at [segs] of the tree [t]; its directory is there. *)
Definition materializeFile (segs : list string) (file : File) (t : Tree) : Run Host Tree :=
  _ ← private_io;
  _ ← run_lift (reject_if (bool_decide (is_Some (t !! segs))) [DriverError]);
  written ← attempt (copy_chunks (Chunks file) []);
  closed ← attempt private_io;
  match written, closed with
  | Ok data, Ok _ =>
      _ ← private_io;
      stat ← attempt private_io;
      match stat with
      | Err _ => run_fail [CasErrCorrupt]
      | Ok _ =>
          _ ← run_lift (reject_if (negb (Z.of_nat (length data) =? FileSize file)%Z) [CasErrCorrupt]);
          mret (<[segs := Reg (Mode file) data]> t)
      end
  | Err e, Ok _ => run_fail e
  | Ok _, Err e => run_fail e
  | Err e, Err e' => run_fail (e ++ e')
  end.

Fixpoint materialize_files (files : list File) (t : Tree) : Run Host Tree :=
  match files with
  | [] => mret t
  | file :: rest =>
      _ ← private_io;
      let segs := segments (Path file) in
      _ ← private_io;
      t ← run_lift (mkdir_all [] (dir_of segs) t);
      t ← materializeFile segs file t;
      materialize_files rest t
  end.

Definition JobWorkspacePath (id : string) : result string :=
  _ ← reject_if (negb (ID_Valid id)) [JobErrInvalidID];
  _ ← reject_if (bool_decide (trim_space stateDir = "")) [AnonymousError];
  Ok (filepath_Join (filepath_Join (filepath_Join stateDir "jobs") id) "workspace").

(** [os.Rename] onto a directory: it replaces an empty one only. *)
Definition rename_workspace (id : string) (t : Tree) : Tx (gmap string Tree) unit :=
  spaces ← tx_read;
  match spaces !! id with
  | None => tx_write (<[id := t]> spaces)
  | Some old => if bool_decide (old = ∅) then tx_write (<[id := t]> spaces) else tx_lift (Err [DriverError])
  end.

Definition Materialize (id : string) (manifest : Manifest) (workingSubdirectory : string) : Run Host string :=
  _ ← run_lift (reject_if (negb (ID_Valid id)) [CasErrInvalidStore]);
  _ ← run_lift (Manifest_Validate manifest);
  _ ← run_lift (if bool_decide (workingSubdirectory = "") then Ok tt else ValidatePath workingSubdirectory);
  target ← run_lift (JobWorkspacePath id);
  existing ← on_spaces (atomically (spaces ← tx_read; mret (spaces !! id)));
  _ ← run_lift (reject_if (bool_decide (is_Some existing)) [CasErrWorkspaceExists]);
  _ ← private_io;
  _ ← private_io;
  _ ← private_io;
  t ← materialize_files (Files manifest) ∅;
  t ← (if bool_decide (workingSubdirectory = "") then mret t
       else _ ← private_io; run_lift (mkdir_all [] (segments workingSubdirectory) t));
  _ ← on_spaces (atomically (rename_workspace id t));
  if bool_decide (workingSubdirectory = "") then mret target else mret (filepath_Join target workingSubdirectory).

Definition RemoveWorkspace (id : string) : Run Host unit :=
  _ ← run_lift (reject_if (negb (ID_Valid id)) [CasErrInvalidStore]);
  _ ← run_lift (JobWorkspacePath id);
  on_spaces (atomically (λ spaces, Ok (tt, delete id spaces))).

End Store.

(** ** All or nothing *)

(** A store nobody else writes to; its accesses may still fail. *)
Definition still {DB} (w : World DB) : Prop := ∀ n d, w_interfere w n d = d.

Lemma runs_still {DB A} (t : Tx DB A) w (Q : result A → World DB → Prop) : still w →
  (∀ w', still w' → w_db w' = w_db w → (∀ e, e = [DriverError] ∨ t (w_db w) = Err e → Q (Err e) w')) →
  (∀ a w', still w' → t (w_db w) = Ok (a, w_db w') → Q (Ok a) w') → runs (S := World DB) (atomically t) w Q.
Proof.
  intros Hs Herr Hok. unfold runs, atomically, next_db. cbv zeta. rewrite !Hs. destruct (w_fault w (w_access w)); cbn; [by eapply Herr; auto|].
  destruct (t (w_db w)) as [[a d']|e] eqn:E; cbn; [by apply Hok|by eapply Herr; auto].
Qed.

Section Safety.
Context `{UnicodeCase} (sha256 : bytes → bytes) (stateDir : string).
Abbreviation copy := (copy_chunks sha256).

(** The workspaces are [D]. *)
Definition steady (D : gmap string Tree) (h : Host) : Prop := still (h_spaces h) ∧ w_db (h_spaces h) = D.

Lemma private_io_runs D h (Q : result unit → Host → Prop) :
  steady D h → (∀ r h', steady D h' → Q r h') → runs private_io h Q.
Proof.
  intros [Hs HD] HQ. apply runs_zoom, runs_still; [done|..].
  - intros w' Hs' Hw' e _. apply HQ. split; [done|]. cbn. congruence.
  - intros a w' Hs' [= <- Hw']. apply HQ. split; [done|]. cbn. congruence.
Qed.

Lemma content_runs {A} D (m : M Vault A) h (Q : result A → Host → Prop) :
  steady D h → (∀ r h', steady D h' → (∀ a, r = Ok a → ∃ w w', m w = (Ok a, w')) → Q r h') → runs (on_content m) h Q.
Proof.
  intros HD HQ. apply runs_zoom. unfold runs. destruct (m (h_content h)) as [r w] eqn:E. cbn. apply HQ; [exact HD|]. intros a ->. eauto.
Qed.

(** The bytes of a file are chunks with the digests and sizes of its description. *)
Definition made_of (file : File) (data : bytes) : Prop :=
  ∃ parts, Forall2 (λ c part, Sum sha256 part = Digest c ∧ Z.of_nat (length part) = Size c) (Chunks file) parts ∧ data = concat parts.

Lemma copy_runs D chunks written h : steady D h →
  runs (copy chunks written) h (λ r h', steady D h' ∧ ∀ data, r = Ok data → ∃ parts,
    Forall2 (λ c part, Sum sha256 part = Digest c ∧ Z.of_nat (length part) = Size c) chunks parts ∧ data = written ++ concat parts).
Proof.
  revert written h. induction chunks as [|c chunks IH]; intros written h HD; cbn [copy_chunks].
  { apply runs_ret. split; [done|]. intros data [= <-]. exists []. split; [done|]. by rewrite app_nil_r. }
  apply runs_bind. eapply content_runs; [exact HD|]. intros [part|e] h1 HD1 Hread; [|done].
  destruct (Hread part eq_refl) as (w & w' & Hr). apply read_verified in Hr as [Hsum _].
  apply runs_bind, runs_lift. destruct (Z.eqb_spec (Z.of_nat (length part)) (Size c)) as [Hlen|]; cbn [negb reject_if]; [|done].
  apply runs_bind. eapply private_io_runs; [exact HD1|]. intros [[]|e] h2 HD2; [|done].
  eapply runs_mono; [by apply IH|]. cbn. intros r h3 [HD3 Hr]. split; [done|]. intros data E.
  destruct (Hr data E) as (parts & Hp & ->). exists (part :: parts). split; [by constructor|]. cbn. by rewrite app_assoc.
Qed.

Lemma materializeFile_runs D segs file t h : steady D h →
  runs (materializeFile sha256 segs file t) h (λ r h', steady D h' ∧ ∀ t', r = Ok t' →
    t !! segs = None ∧ ∃ data, made_of file data ∧ t' = <[segs := Reg (Mode file) data]> t).
Proof.
  intros HD. unfold materializeFile. apply runs_bind. eapply private_io_runs; [exact HD|]. intros [[]|e] h1 HD1; [|done].
  apply runs_bind, runs_lift. case_bool_decide as Hex; cbn [reject_if]; [done|].
  apply runs_bind, runs_attempt. eapply runs_mono; [by eapply copy_runs|]. cbn. intros written h2 [HD2 Hw].
  apply runs_bind, runs_attempt. eapply private_io_runs; [exact HD2|]. intros closed h3 HD3.
  destruct written as [data|e], closed as [[]|e']; try done.
  apply runs_bind. eapply private_io_runs; [exact HD3|]. intros [[]|e] h4 HD4; [|done].
  apply runs_bind, runs_attempt. eapply private_io_runs; [exact HD4|]. intros [[]|e] h5 HD5; [|done].
  apply runs_bind, runs_lift. destruct (_ =? _)%Z; cbn [negb reject_if]; [|done].
  apply runs_ret. split; [done|]. intros t' [= <-]. split; [by apply eq_None_not_Some|].
  destruct (Hw data eq_refl) as (parts & Hp & ->). exists (concat parts). split; [|done]. by exists parts.
Qed.

(** The tree holds the files, and no file besides. *)
Definition holds_files (files : list File) (t : Tree) : Prop :=
  (∀ f, f ∈ files → ∃ data, made_of f data ∧ t !! segments (Path f) = Some (Reg (Mode f) data)) ∧
  (∀ p node, t !! p = Some node → node = Dir ∨ ∃ f, f ∈ files ∧ p = segments (Path f)).

Lemma mkdir_all_keeps base rest t t' : mkdir_all base rest t = Ok t' →
  ∀ p, t' !! p = t !! p ∨ t !! p = None ∧ t' !! p = Some Dir.
Proof.
  revert base t. induction rest as [|name rest IH]; intros base t; cbn [mkdir_all]; [intros [= <-]; by left|].
  destruct (t !! (base ++ [name])) as [[| |]|] eqn:E; try done; intros Hm p; destruct (IH _ _ Hm p) as [Hp|[Hp Hp']]; auto.
  - destruct (decide (p = base ++ [name])) as [->|Hne]; [|rewrite lookup_insert_ne in Hp by done; by left].
    rewrite lookup_insert_eq in Hp. by right.
  - right. split; [|done]. destruct (decide (p = base ++ [name])) as [->|Hne]; [done|]. by rewrite lookup_insert_ne in Hp by done.
Qed.

Lemma mkdir_all_holds files base rest t t' : mkdir_all base rest t = Ok t' → holds_files files t → holds_files files t'.
Proof.
  intros Hm [Hf Ho]. pose proof (mkdir_all_keeps _ _ _ _ Hm) as Hk. split.
  - intros f Hin. destruct (Hf f Hin) as (data & Hd & Hl). exists data. split; [done|]. destruct (Hk (segments (Path f))); naive_solver congruence.
  - intros p node Hp. destruct (Hk p) as [E|[_ E]]; rewrite E in Hp; [by apply Ho|]. injection Hp as <-. by left.
Qed.

Lemma insert_holds files file t data : holds_files files t → t !! segments (Path file) = None → made_of file data →
  holds_files (files ++ [file]) (<[segments (Path file) := Reg (Mode file) data]> t).
Proof.
  intros [Hf Ho] Hnew Hd. split.
  - intros f [Hin|Hin%list_elem_of_singleton]%elem_of_app; [|subst f; exists data; by rewrite lookup_insert_eq].
    destruct (Hf f Hin) as (data' & Hd' & Hl). exists data'. rewrite lookup_insert_ne by congruence. done.
  - intros p node Hp. apply lookup_insert_Some in Hp as [[<- <-]|[_ Hp]]; [right; exists file; split; [set_solver|done]|].
    destruct (Ho p node Hp) as [?|(f & Hin & ->)]; [by left|]. right. exists f. split; [set_solver|done].
Qed.

Lemma materialize_files_runs D before files t h : steady D h → holds_files before t →
  runs (materialize_files sha256 files t) h (λ r h', steady D h' ∧ ∀ t', r = Ok t' → holds_files (before ++ files) t').
Proof.
  revert before t h. induction files as [|file files IH]; intros before t h HD Ht; cbn [materialize_files].
  { apply runs_ret. split; [done|]. intros t' [= <-]. by rewrite app_nil_r. }
  apply runs_bind. eapply private_io_runs; [exact HD|]. intros [[]|e] h1 HD1; [|done].
  apply runs_bind. eapply private_io_runs; [exact HD1|]. intros [[]|e] h2 HD2; [|done].
  apply runs_bind, runs_lift. destruct (mkdir_all [] _ t) as [t1|e] eqn:Hm; [|done].
  pose proof (mkdir_all_holds _ _ _ _ _ Hm Ht) as Ht1.
  apply runs_bind. eapply runs_mono; [by eapply materializeFile_runs|]. cbn. intros [t2|e] h3 [HD3 Hr]; [|done].
  destruct (Hr t2 eq_refl) as (Hnew & data & Hd & ->). rewrite (cons_middle file before files), app_assoc.
  apply IH; [done|]. by apply insert_holds.
Qed.

Lemma materialize_runs id manifest sub h : still (h_spaces h) →
  runs (Materialize sha256 stateDir id manifest sub) h (λ r h', match r with
  | Err _ => w_db (h_spaces h') = w_db (h_spaces h)
  | Ok dir => w_db (h_spaces h) !! id = None ∧ ∃ t target, JobWorkspacePath stateDir id = Ok target ∧
      dir = (if bool_decide (sub = "") then target else filepath_Join target sub) ∧
      w_db (h_spaces h') = <[id := t]> (w_db (h_spaces h)) ∧ holds_files (Files manifest) t
  end).
Proof.
  intros Hs. set (D := w_db (h_spaces h)). assert (HD : steady D h) by done. unfold Materialize.
  do 3 run_guard. apply runs_bind, runs_lift.
  destruct (JobWorkspacePath stateDir id) as [target|e]; [|done].
  apply runs_bind, runs_zoom, runs_still; [done|by intros w' _ Hw' e _|]. intros existing w1 Hs1 [= <- Hw1].
  apply runs_bind, runs_lift. case_bool_decide as Hex; cbn [reject_if]; [by cbn|]. apply eq_None_not_Some in Hex.
  assert (HD1 : steady D (MkHost (h_jobs h) (h_content h) w1 (h_home h))) by (split; [done|symmetry; exact Hw1]).
  apply runs_bind; eapply private_io_runs; [exact HD1|]; clear HD1; intros [[]|e] h1a HD1; [|apply HD1].
  apply runs_bind; eapply private_io_runs; [exact HD1|]; clear HD1; intros [[]|e] h1b HD1; [|apply HD1].
  apply runs_bind; eapply private_io_runs; [exact HD1|]; clear HD1; intros [[]|e] h1 HD1; [|apply HD1].
  apply runs_bind. eapply runs_mono; [apply (materialize_files_runs D [] (Files manifest) ∅)|]; [exact HD1|split; set_solver|].
  cbn. intros [t|e] h2 [HD2 Ht]; [|apply HD2]. specialize (Ht t eq_refl).
  apply runs_bind. apply (runs_mono _ _ (λ r h', steady D h' ∧ ∀ t', r = Ok t' → holds_files (Files manifest) t')).
  { case_bool_decide; [apply runs_ret; split; [done|]; by intros t' [= <-]|].
    apply runs_bind. eapply private_io_runs; [exact HD2|]. intros [[]|e] h3 HD3; [|done].
    apply runs_lift. split; [done|]. intros t' Hm. by eapply mkdir_all_holds. }
  intros [t'|e] h3 [[Hs3 HD3] Ht']; [|done]. specialize (Ht' t' eq_refl).
  apply runs_bind, runs_zoom, runs_still; [done|intros w' _ Hw' e _; by cbn; rewrite Hw'|]. intros [] w4 Hs4 Hren.
  unfold rename_workspace, mbind, Tx_bind, tx_read in Hren. change (D !! id = None) in Hex. rewrite HD3, Hex in Hren. injection Hren as Hren.
  case_bool_decide; apply runs_ret; (split; [done|]); exists t', target; by cbn.
Qed.

(** A job's workspace appears whole or not at all: whatever fails on the way, an
    error leaves the workspaces as they were; success puts in place, where there was
    none, a tree that holds exactly the files of the manifest, with their modes and
    with bytes whose digests are the manifest's, and returns its directory. *)
Theorem materialize_all_or_nothing id manifest sub h : still (h_spaces h) →
  runs (Materialize sha256 stateDir id manifest sub) h (λ r h', match r with
  | Err _ => w_db (h_spaces h') = w_db (h_spaces h)
  | Ok dir => w_db (h_spaces h) !! id = None ∧ ∃ t target, JobWorkspacePath stateDir id = Ok target ∧
      dir = (if bool_decide (sub = "") then target else filepath_Join target sub) ∧
      w_db (h_spaces h') = <[id := t]> (w_db (h_spaces h)) ∧ holds_files (Files manifest) t
  end).
Proof. apply materialize_runs. Qed.

End Safety.

(** ** Paths as names *)

Lemma join_app_slash a b : a ≠ [] → b ≠ [] →
  join_bytes slash (a ++ b) = join_bytes slash a ++ slash :: join_bytes slash b.
Proof.
  intros Ha Hb. induction a as [|x [|y a] IH]; [done|by destruct b|].
  change (join_bytes slash ((x :: y :: a) ++ b)) with (x ++ slash :: join_bytes slash ((y :: a) ++ b)).
  rewrite IH by done. apply (app_assoc x (slash :: join_bytes slash (y :: a))).
Qed.

Lemma segments_join p : str_of (join_bytes slash (map bytes_of (segments p))) = p.
Proof.
  unfold segments, split. rewrite map_map. rewrite (map_ext _ id), map_id by (intros; apply bytes_of_str_of).
  change "/"%char with slash. by rewrite join_split, str_of_bytes_of.
Qed.

Lemma segments_inj p q : segments p = segments q → p = q.
Proof. intros E. by rewrite <-(segments_join p), <-(segments_join q), E. Qed.

Lemma segments_nonempty p : segments p ≠ [].
Proof. unfold segments, split. pose proof (split_bytes_nonempty "/"%char (bytes_of p)). by destruct (split_bytes _ _). Qed.

(** A path below another. *)
Lemma segments_below p q rest : segments q = segments p ++ rest → rest ≠ [] →
  ∃ tail, q = (p +:+ "/" +:+ tail)%string.
Proof.
  intros E Hne. exists (str_of (join_bytes slash (map bytes_of rest))).
  rewrite <-(segments_join q), E, map_app, join_app_slash.
  - rewrite <-(segments_join p) at 2. generalize (join_bytes slash (map bytes_of (segments p))), (join_bytes slash (map bytes_of rest)).
    intros a b. induction a as [|c a IH]; cbn; [done|]. by rewrite IH.
  - pose proof (segments_nonempty p). by destruct (segments p).
  - by destruct rest.
Qed.

(** ** Completion *)

Section Liveness.
Context `{UnicodeCaseLaws} (sha256 : bytes → bytes) (stateDir : string).

(** A host without failures whose workspaces are [D] and whose chunks are [F]. *)
Record prepared (D : gmap string Tree) (F : gmap string bytes) (h : Host) : Prop := {
  pr_spaces : calm (h_spaces h); pr_trees : w_db (h_spaces h) = D;
  pr_content : calm (h_content h); pr_clock : ticking (h_content h);
  pr_index : index_ok (vault_db (w_db (h_content h))); pr_files : vault_files (w_db (h_content h)) = F
}.

Definition chunk_data (F : gmap string bytes) (c : Chunk) : bytes := default [] (F !! Digest c).
Definition file_data (F : gmap string bytes) (f : File) : bytes := concat (map (chunk_data F) (Chunks f)).

(** The chunk is in the store, intact and of the size the manifest states. *)
Definition stocked (F : gmap string bytes) (c : Chunk) : Prop :=
  ∃ data, F !! Digest c = Some data ∧ verified sha256 (Digest c) data = true ∧ Z.of_nat (length data) = Size c.

Lemma private_io_ok D F h (Q : result unit → Host → Prop) :
  prepared D F h → (∀ h', prepared D F h' → Q (Ok tt) h') → runs private_io h Q.
Proof.
  intros [Hs HD Hc Ht Hi Hf] HQ. apply runs_zoom. unfold runs. rewrite calm_atomically by done. cbn. apply HQ. by split.
Qed.

Lemma read_ok D F c data h (Q : result bytes → Host → Prop) :
  prepared D F h → Digest_Valid (Digest c) = true → F !! Digest c = Some data → verified sha256 (Digest c) data = true →
  (∀ h', prepared D F h' → Q (Ok data) h') → runs (on_content (Cas_Read sha256 (Digest c))) h Q.
Proof.
  intros [Hs HD Hc Ht Hi Hf] Hd Hdata Hv HQ. apply runs_zoom.
  eapply runs_mono; [apply (runs_ends ticks); [by apply read_ends|done..]|]. cbn.
  intros r w (Hc' & Ht' & Hf' & [Hi' _] & _ & ->). rewrite Hf, Hdata, Hv. apply HQ. split; [done..|]. cbn. congruence.
Qed.

Lemma copy_ok D F chunks written h (Q : result bytes → Host → Prop) : prepared D F h →
  Forall chunk_ok chunks → Forall (stocked F) chunks →
  (∀ h', prepared D F h' → Q (Ok (written ++ concat (map (chunk_data F) chunks))) h') → runs (copy_chunks sha256 chunks written) h Q.
Proof.
  intros Hp Hck Hst. revert written h Hp. induction Hck as [|c chunks [Hd _] Hck IH]; intros written h Hp HQ; cbn [copy_chunks map concat] in *.
  { apply runs_ret. rewrite app_nil_r in HQ. by apply HQ. }
  apply Forall_cons in Hst as [(data & Hdata & Hv & Hlen) Hst]. unfold chunk_data at 1 in HQ. rewrite Hdata in HQ.
  apply runs_bind. eapply read_ok; [done..|]. intros h1 Hp1. apply runs_bind, runs_lift. rewrite (proj2 (Z.eqb_eq _ _) Hlen). cbn [negb reject_if].
  apply runs_bind. eapply private_io_ok; [done|]. intros h2 Hp2. eapply IH; [done..|]. cbn in HQ. by setoid_rewrite <-app_assoc.
Qed.

Lemma stocked_length F chunks : Forall (stocked F) chunks → Z.of_nat (length (concat (map (chunk_data F) chunks))) = sum_z (map Size chunks).
Proof.
  induction 1 as [|c chunks (data & Hdata & _ & Hlen) _ IH]; cbn; [done|]. rewrite length_app, Nat2Z.inj_add. unfold chunk_data at 1.
  rewrite Hdata. cbn. unfold sum_z in *. cbn. lia.
Qed.

Lemma materializeFile_ok (D : gmap string Tree) (F : gmap string bytes) (file : File) (t : Tree) (h : Host) (Q : result Tree → Host → Prop) : prepared D F h →
  file_ok file → Forall (stocked F) (Chunks file) → t !! segments (Path file) = None →
  (∀ h', prepared D F h' → Q (Ok (<[segments (Path file) := Reg (Mode file) (file_data F file)]> t)) h') →
  runs (materializeFile sha256 (segments (Path file)) file t) h Q.
Proof.
  intros Hp (_ & _ & Hck & Hsize) Hst Hnew HQ. unfold materializeFile.
  apply runs_bind. eapply private_io_ok; [done|]. intros h1 Hp1. apply runs_bind, runs_lift.
  rewrite bool_decide_eq_false_2 by (rewrite Hnew; by intros []). cbn [reject_if].
  apply runs_bind, runs_attempt. eapply copy_ok; [done..|]. intros h2 Hp2. apply runs_bind, runs_attempt.
  eapply private_io_ok; [done|]. intros h3 Hp3. cbn [app]. apply runs_bind. eapply private_io_ok; [done|]. intros h4 Hp4.
  apply runs_bind, runs_attempt. eapply private_io_ok; [done|]. intros h5 Hp5. apply runs_bind, runs_lift.
  rewrite stocked_length, <-Hsize, Z.eqb_refl by done. cbn [negb reject_if]. apply runs_ret. by apply HQ.
Qed.

(** Where the nodes of the tree are: files of the list, and directories above them
    or among [extra]. *)
Definition shaped (files : list File) (t : Tree) : Prop :=
  ∀ p node, t !! p = Some node → (∃ f, f ∈ files ∧ p = segments (Path f)) ∨
    node = Dir ∧ ∃ f rest, f ∈ files ∧ rest ≠ [] ∧ segments (Path f) = p ++ rest.

Lemma mkdir_all_ok (base rest : list string) (t : Tree) :
  (∀ q, q `prefix_of` rest → q ≠ [] → t !! (base ++ q) = None ∨ t !! (base ++ q) = Some Dir) →
  ∃ t', mkdir_all base rest t = Ok t' ∧
    ∀ p, t' !! p = t !! p ∨ t' !! p = Some Dir ∧ ∃ q, q ≠ [] ∧ q `prefix_of` rest ∧ p = base ++ q.
Proof.
  revert base t. induction rest as [|name rest IH]; intros base t Hq; cbn [mkdir_all]; [exists t; by split; [|left]|].
  assert (Hsub : ∀ t1 : Tree, (t1 !! (base ++ [name]) = Some Dir) → (∀ p, t1 !! p = t !! p ∨ p = base ++ [name]) →
    ∃ t', mkdir_all (base ++ [name]) rest t1 = Ok t' ∧
      ∀ p, t' !! p = t !! p ∨ t' !! p = Some Dir ∧ ∃ q, q ≠ [] ∧ q `prefix_of` name :: rest ∧ p = base ++ q).
  { intros t1 Hhere Hother. destruct (IH (base ++ [name]) t1) as (t' & Hm & Ht').
    - intros q Hpre Hne. rewrite <-app_assoc. destruct (Hother (base ++ [name] ++ q)) as [->|E].
      + apply (Hq (name :: q)); [by apply prefix_cons|done].
      + apply app_inv_head in E. by destruct q.
    - exists t'. split; [done|]. intros p. destruct (Ht' p) as [E|(E & q & Hne & Hpre & ->)].
      + rewrite E. destruct (Hother p) as [E'| ->]; [by left|]. right. split; [done|]. exists [name]. split_and!; [done| |done].
        apply prefix_cons, prefix_nil.
      + right. split; [done|]. exists (name :: q). split_and!; [done|by apply prefix_cons|]. by rewrite <-app_assoc. }
  destruct (Hq [name]) as [E|E]; [apply prefix_cons, prefix_nil|done|..]; rewrite E.
  - apply Hsub; [by rewrite lookup_insert_eq|]. intros p. destruct (decide (p = base ++ [name])); [by right|]. left. by rewrite lookup_insert_ne.
  - apply Hsub; [done|by left].
Qed.

Lemma dir_prefix (segs q : list string) : q `prefix_of` dir_of segs → segs ≠ [] → ∃ rest, rest ≠ [] ∧ segs = q ++ rest.
Proof.
  intros [k Hk] Hne. unfold dir_of in Hk. exists (k ++ drop (pred (length segs)) segs). split.
  - intros [_ E]%app_nil. apply (f_equal length) in E. rewrite length_drop in E. destruct segs; cbn in *; [done|lia].
  - by rewrite app_assoc, <-Hk, take_drop.
Qed.

(** A file whose path neither is another's nor lies above or below one. *)
Definition unrelated (files : list File) (file : File) : Prop :=
  ∀ f, f ∈ files → Path f ≠ Path file ∧ (∀ tail, Path file ≠ (Path f +:+ "/" +:+ tail)%string) ∧
    (∀ tail, Path f ≠ (Path file +:+ "/" +:+ tail)%string).

Lemma place_file (files : list File) (file : File) (t : Tree) : shaped files t → unrelated files file →
  ∃ t', mkdir_all [] (dir_of (segments (Path file))) t = Ok t' ∧ t' !! segments (Path file) = None ∧
    ∀ data, shaped (files ++ [file]) (<[segments (Path file) := Reg (Mode file) data]> t').
Proof.
  intros Ht Hun. destruct (mkdir_all_ok [] (dir_of (segments (Path file))) t) as (t' & Hm & Ht').
  { intros q Hpre Hne. destruct (t !! q) as [node|] eqn:E; [|by left; cbn; rewrite E]. right. cbn. rewrite E. f_equal.
    destruct (Ht q node E) as [(f & Hf & ->)|[-> _]]; [|done]. exfalso.
    destruct (dir_prefix _ _ Hpre (segments_nonempty _)) as (rest & Hr & Es). destruct (segments_below _ _ _ Es Hr) as [tail Ep].
    destruct (Hun f Hf) as (_ & Hbelow & _). by eapply Hbelow. }
  exists t'. split; [done|]. split.
  - destruct (t' !! segments (Path file)) as [node|] eqn:E; [|done]. exfalso. destruct (Ht' (segments (Path file))) as [E'|(_ & q & _ & Hpre & Eq)].
    + rewrite E in E'. destruct (Ht _ _ (eq_sym E')) as [(f & Hf & Es)|[_ (f & rest & Hf & Hr & Es)]]; destruct (Hun f Hf) as (Hne & _ & Habove).
      * apply segments_inj in Es. congruence.
      * destruct (segments_below _ _ _ Es Hr) as [tail Ep]. by eapply Habove.
    + cbn in Eq. subst q. destruct (dir_prefix _ _ Hpre (segments_nonempty _)) as (rest & Hr & Es).
      apply (f_equal length) in Es. rewrite length_app in Es. destruct rest; [done|cbn in Es; lia].
  - intros data p node Hp. apply lookup_insert_Some in Hp as [[<- <-]|[_ Hp]]; [left; exists file; split; [set_solver|done]|].
    destruct (Ht' p) as [E'|(E' & q & Hne & Hpre & ->)]; rewrite E' in Hp.
    + destruct (Ht p node Hp) as [(f & Hf & ->)|(-> & f & rest & Hf & Hr & Es)]; [left; exists f; set_solver|].
      right. split; [done|]. exists f, rest. set_solver.
    + injection Hp as <-. right. split; [done|]. destruct (dir_prefix _ _ Hpre (segments_nonempty _)) as (rest & Hr & Es).
      exists file, rest. set_solver.
Qed.

Lemma materialize_files_ok (D : gmap string Tree) (F : gmap string bytes) (before files : list File) (t : Tree) (h : Host)
    (Q : result Tree → Host → Prop) :
  prepared D F h → Forall file_ok files → Forall (λ f, Forall (stocked F) (Chunks f)) files →
  (∀ i f, files !! i = Some f → unrelated (before ++ take i files) f) → shaped before t →
  (∀ f, f ∈ before → t !! segments (Path f) = Some (Reg (Mode f) (file_data F f))) →
  (∀ t' h', prepared D F h' → shaped (before ++ files) t' →
     (∀ f, f ∈ before ++ files → t' !! segments (Path f) = Some (Reg (Mode f) (file_data F f))) → Q (Ok t') h') →
  runs (materialize_files sha256 files t) h Q.
Proof.
  intros Hp Hck. revert before t h Hp. induction Hck as [|file files Hok Hck IH]; intros before t h Hp Hst Hun Ht Hf HQ; cbn [materialize_files].
  { apply runs_ret. rewrite app_nil_r in HQ. by apply HQ. }
  apply Forall_cons in Hst as [Hsf Hst]. apply runs_bind. eapply private_io_ok; [done|]. intros h1 Hp1.
  apply runs_bind. eapply private_io_ok; [done|]. intros h2 Hp2. apply runs_bind, runs_lift.
  assert (Hun0 : unrelated before file) by (pose proof (Hun 0 file eq_refl) as Hx; cbn in Hx; by rewrite app_nil_r in Hx).
  destruct (place_file before file t Ht Hun0) as (t1 & Hm & Hnew & Hsh). rewrite Hm.
  apply runs_bind. eapply materializeFile_ok; [done..|]. intros h3 Hp3.
  apply (IH (before ++ [file]) _ _ Hp3 Hst); [|apply Hsh| |].
  - intros i f Hi. rewrite <-app_assoc. exact (Hun (S i) f Hi).
  - intros f [Hin|Hin%list_elem_of_singleton]%elem_of_app; [|subst f; by rewrite lookup_insert_eq].
    specialize (Hf f Hin). destruct (mkdir_all_keeps _ _ _ _ Hm (segments (Path f))) as [E|[E _]]; [|congruence].
    rewrite lookup_insert_ne by congruence. congruence.
  - intros t' h'. rewrite <-app_assoc. apply HQ.
Qed.

Lemma sorted_unrelated files i f : StronglySorted apart files → files !! i = Some f → unrelated (take i files) f.
Proof.
  intros Hs Hi g Hg. pose proof (apart_unrelated files Hs) as Hno.
  assert (g ∈ files) as Hgin by (apply elem_of_take in Hg as (j & Hj & _); by eapply list_elem_of_lookup_2).
  assert (f ∈ files) as Hfin by (by eapply list_elem_of_lookup_2).
  split_and!; [|intros tail; by apply Hno..].
  assert (apart g f) as (Hlt & _).
  { eapply (StronglySorted_take_drop apart files i); [done..|]. apply list_elem_of_lookup. exists 0. by rewrite lookup_drop, Nat.add_0_r. }
  intros E. rewrite E, str_ltb_irrefl in Hlt. done.
Qed.

(** The working directory is none of the files and below none. *)
Definition usable_directory (files : list File) (sub : string) : Prop :=
  sub = "" ∨ ValidatePath sub = Ok tt ∧ ∀ f, f ∈ files → ¬ segments (Path f) `prefix_of` segments sub.

Lemma subdirectory_ok (files : list File) (sub : string) (t : Tree) : shaped files t → (∀ f, f ∈ files → ¬ segments (Path f) `prefix_of` segments sub) →
  ∃ t', mkdir_all [] (segments sub) t = Ok t' ∧ ∀ f node, f ∈ files → t !! segments (Path f) = Some node → t' !! segments (Path f) = Some node.
Proof.
  intros Ht Hsub. destruct (mkdir_all_ok [] (segments sub) t) as (t' & Hm & Ht').
  { intros q Hpre _. destruct (t !! q) as [node|] eqn:E; [|by left; cbn; rewrite E]. right. cbn. rewrite E. f_equal.
    destruct (Ht q node E) as [(f & Hf & ->)|[-> _]]; [|done]. by destruct (Hsub f Hf). }
  exists t'. split; [done|]. intros f node Hf Hn. destruct (Ht' (segments (Path f))) as [->|(_ & q & _ & Hpre & Eq)]; [done|].
  cbn in Eq. subst q. by destruct (Hsub f Hf).
Qed.

Lemma materialize_ok id manifest sub D F h :
  prepared D F h → ID_Valid id = true → trim_space stateDir ≠ "" → typed manifest → Manifest_Validate manifest = Ok tt →
  usable_directory (Files manifest) sub → D !! id = None →
  Forall (λ f, Forall (stocked F) (Chunks f)) (Files manifest) →
  ∃ target t h', Materialize sha256 stateDir id manifest sub h = (Ok target, h') ∧ prepared (<[id := t]> D) F h' ∧
    ∀ f, f ∈ Files manifest → t !! segments (Path f) = Some (Reg (Mode f) (file_data F f)).
Proof.
  intros Hp Hid Hdir Hty Hv Hsub Hnone Hst.
  destruct (manifest_checked manifest Hty Hv) as (_ & _ & v & [Hok Hap _ _ _ _] & _).
  enough (runs (Materialize sha256 stateDir id manifest sub) h (λ r h', ∃ target t, r = Ok target ∧ prepared (<[id := t]> D) F h' ∧
    ∀ f, f ∈ Files manifest → t !! segments (Path f) = Some (Reg (Mode f) (file_data F f)))) as Hrun.
  { unfold runs in Hrun. destruct (Materialize sha256 stateDir id manifest sub h) as [r h']. destruct Hrun as (target & t & Hr & Hrest).
    cbn in Hr. subst r. by exists target, t, h'. }
  unfold Materialize. apply runs_bind, runs_lift. rewrite Hid. cbn [negb reject_if]. apply runs_bind, runs_lift. rewrite Hv.
  apply runs_bind, runs_lift.
  assert ((if bool_decide (sub = "") then Ok tt else ValidatePath sub) = Ok tt) as -> by (case_bool_decide; [done|]; by destruct Hsub as [|[? _]]).
  apply runs_bind, runs_lift. unfold JobWorkspacePath. rewrite Hid, bool_decide_eq_false_2 by done. cbn [negb reject_if mbind result_bind].
  apply runs_bind, runs_zoom. unfold runs at 1. rewrite calm_atomically by apply Hp. cbn.
  apply runs_bind, runs_lift. rewrite (pr_trees _ _ _ Hp), Hnone, bool_decide_eq_false_2 by (by intros []). cbn [reject_if].
  set (h0 := MkHost _ _ _ _). assert (Hp0 : prepared D F h0) by (destruct Hp; by split).
  apply runs_bind. eapply private_io_ok; [exact Hp0|]. intros h1 Hp1.
  apply runs_bind. eapply private_io_ok; [exact Hp1|]. intros h2 Hp2.
  apply runs_bind. eapply private_io_ok; [exact Hp2|]. intros h3 Hp3.
  apply runs_bind. eapply (materialize_files_ok D F [] (Files manifest) ∅ h3); [done..| | |set_solver|].
  { intros i f Hi. by apply sorted_unrelated. } { intros p node E. by rewrite lookup_empty in E. }
  cbn [app]. intros t h4 Hp4 Hsh Hf. apply runs_bind.
  apply (runs_mono _ _ (λ r h', ∃ t', r = Ok t' ∧ prepared D F h' ∧
    ∀ f, f ∈ Files manifest → t' !! segments (Path f) = Some (Reg (Mode f) (file_data F f)))).
  { case_bool_decide as Hs; [apply runs_ret; by exists t|]. destruct Hsub as [|[_ Hsub]]; [done|].
    apply runs_bind. eapply private_io_ok; [done|]. intros h5 Hp5. apply runs_lift.
    destruct (subdirectory_ok _ sub t Hsh Hsub) as (t' & -> & Ht'). exists t'. split_and!; [done..|]. intros f Hin. by apply Ht'; [|apply Hf]. }
  intros r h5 (t' & -> & Hp5 & Hf'). apply runs_bind, runs_zoom. unfold runs at 1. rewrite calm_atomically by apply Hp5.
  unfold rename_workspace, mbind, Tx_bind, tx_read. rewrite (pr_trees _ _ _ Hp5), Hnone. cbn.
  assert (Hp6 : prepared (<[id := t']> D) F (MkHost (h_jobs h5) (h_content h5) (accessed (h_spaces h5) (<[id := t']> D)) (h_home h5)))
    by (destruct Hp5; by split).
  case_bool_decide; apply runs_ret; by eexists _, t'.
Qed.

(** A complete snapshot is always written out: on a host without failures that
    holds every chunk of a valid manifest, for a job without a workspace, the
    workspace is created, and every file of the manifest is in it with its mode and
    the bytes of its chunks in order. *)
Theorem materialize_completes id manifest sub D F h :
  prepared D F h → ID_Valid id = true → trim_space stateDir ≠ "" → typed manifest → Manifest_Validate manifest = Ok tt →
  usable_directory (Files manifest) sub → D !! id = None →
  Forall (λ f, Forall (stocked F) (Chunks f)) (Files manifest) →
  ∃ target t h', Materialize sha256 stateDir id manifest sub h = (Ok target, h') ∧ prepared (<[id := t]> D) F h' ∧
    ∀ f, f ∈ Files manifest → t !! segments (Path f) = Some (Reg (Mode f) (file_data F f)).
Proof. apply materialize_ok. Qed.

End Liveness.

(** ** Witnesses *)

Definition sample_vault_ready : Vault :=
  MkVault (MkCacheDB ∅ ∅ ∅ ∅) {[ sample_digest "0" := bytes_of "abc" ]} (MkPins 0 ∅ ∅ ∅).
Definition sample_host (T : Tree) : Host :=
  MkHost (quiet empty_database (λ _, 9%Z)) (quiet sample_vault_ready (λ _, 9%Z)) (quiet ∅ (λ _, 9%Z)) (quiet T (λ _, 9%Z)).

Lemma sample_prepared T : prepared (H := ascii_case) ∅ {[ sample_digest "0" := bytes_of "abc" ]} (sample_host T).
Proof. by split. Qed.

Lemma materialize_completes_witness :
  ∃ target t h', Materialize (H := ascii_case) sample_sha256 "/var/state" sample_id sample_manifest "" (sample_host ∅) = (Ok target, h') ∧
    w_db (h_spaces h') = {[ sample_id := t ]} ∧ t !! segments (Path sample_file) = Some (Reg 420 (bytes_of "abc")).
Proof.
  destruct (materialize_completes (H := ascii_case) (H0 := ascii_case_laws) sample_sha256 "/var/state" sample_id sample_manifest "" ∅
    {[ sample_digest "0" := bytes_of "abc" ]} (sample_host ∅)) as (target & t & h' & Hrun & Hp & Hf).
  - apply sample_prepared.
  - vm_compute. reflexivity.
  - vm_compute. discriminate.
  - exact sample_typed.
  - vm_compute. reflexivity.
  - left. reflexivity.
  - reflexivity.
  - repeat constructor. exists (bytes_of "abc"). repeat split; vm_compute; reflexivity.
  - exists target, t, h'. split; [exact Hrun|]. split; [exact (pr_trees _ _ _ Hp)|].
    rewrite (Hf sample_file) by (apply list_elem_of_singleton; reflexivity). reflexivity.
Defined.

Lemma materialize_all_or_nothing_witness :
  let '(r, h') := Materialize (H := ascii_case) sample_sha256 "/var/state" sample_id sample_manifest "src" (sample_host ∅) in
  ∃ t, r = Ok "/var/state/jobs/7a338fa3-7ba4-4c54-bf59-da1161f6b76f/workspace/src" ∧ w_db (h_spaces h') = {[ sample_id := t ]} ∧
    holds_files sample_sha256 [sample_file] t.
Proof.
  pose proof (materialize_all_or_nothing (H := ascii_case) sample_sha256 "/var/state" sample_id sample_manifest "src" (sample_host ∅) (λ _ _, eq_refl)) as Hrun.
  unfold runs in Hrun.
  assert (E : (Materialize (H := ascii_case) sample_sha256 "/var/state" sample_id sample_manifest "src" (sample_host ∅)).1
    = Ok "/var/state/jobs/7a338fa3-7ba4-4c54-bf59-da1161f6b76f/workspace/src") by (vm_compute; reflexivity).
  destruct (Materialize (H := ascii_case) sample_sha256 "/var/state" sample_id sample_manifest "src" (sample_host ∅)) as [r h']. cbn [fst snd] in *. subst r.
  destruct Hrun as (_ & t & target & _ & _ & Ht & Hf). exists t. split; [reflexivity|]. split; [exact Ht|exact Hf].
Defined.
