(* ===== verification/StatePaths.v ===== *)
(** * The state directory (internal/platform/paths/state.go)

    Where the durable state is kept, for the file paths of Unix systems.  The workspaces of
    jobs are in [Workspace]. *)

From S2P Require Import Prelude GoText PortablePath JobModel JobStore Snapshot ArtifactStore Workspace.
From Stdlib Require Import Ascii.
Local Open Scope string_scope.
Local Open Scope nat_scope.
Local Open Scope list_scope.

Definition stateFilePath (stateDir filename : string) : result string :=
  _ ← reject_if (bool_decide (trim_space stateDir = "")) [AnonymousError]; Ok (filepath_Join stateDir filename).

Definition DatabasePath (stateDir : string) : result string := stateFilePath stateDir "computehop.db".
Definition LocalSocketPath (stateDir : string) : result string := stateFilePath stateDir "computehop.sock".
Definition CapabilityTokenPath (stateDir : string) : result string := stateFilePath stateDir "local-ipc.token".
Definition DeviceIdentityPath (stateDir : string) : result string := stateFilePath stateDir "device-identity.pem".
Definition ContentStoreDir (stateDir : string) : result string := stateFilePath stateDir "content".

Definition JobDataDir (stateDir id : string) : result string :=
  if negb (ID_Valid id) then Err [JobErrInvalidID]
  else jobsDirectory ← stateFilePath stateDir "jobs"; Ok (filepath_Join jobsDirectory id).
Definition JobLogPath (stateDir id : string) : result string :=
  directory ← JobDataDir stateDir id; Ok (filepath_Join directory "output.log").

(** [filepath.Join] of a base directory and names below it. *)
Definition join_names (base : string) (names : list string) : string := fold_left filepath_Join names base.

Definition resolveStateDir (goos : string) (lookupEnv : string → option string) (userConfigDir userCacheDir userHomeDir : result string) : result string :=
  if bool_decide (goos = "linux") then
    let stateHome := default "" (lookupEnv "XDG_STATE_HOME") in
    if negb (bool_decide (stateHome = "")) && filepath_IsAbs stateHome then Ok (filepath_Join stateHome "computehop")
    else home ← userHomeDir; Ok (join_names home [".local"; "state"; "computehop"])
  else if bool_decide (goos = "windows") then base ← userCacheDir; Ok (filepath_Join base "ComputeHop")
  else base ← userConfigDir; Ok (filepath_Join base "ComputeHop").

Example relative_state_home :
  resolveStateDir "linux" (λ _, Some "state") (Ok "/c") (Ok "/k") (Ok "/home/me/") = Ok "/home/me/.local/state/computehop".
Proof. by vm_compute. Qed.

(** ** Locations *)

(** Where a path leads: whether it starts at the root, and its names, last first. *)
Definition location (s : string) : bool * list bytes :=
  let rooted := has_prefix s "/" in (rooted, fold_left (clean_step rooted) (split_bytes slash (bytes_of s)) []).

(** A path at or below another. *)
Definition within (p q : string) : Prop := (location p).1 = (location q).1 ∧ ∃ l, (location p).2 = l ++ (location q).2.

(** Names on top of steps to the parent, of which a path from the root has none. *)
Definition canonical (rooted : bool) (stack : list bytes) : Prop :=
  ∃ names n, stack = names ++ replicate n dotdot ∧ Forall plain names ∧ Forall (λ seg, slash ∉ seg) names ∧ (rooted = true → n = 0).

Lemma canonical_step rooted stack seg : slash ∉ seg → canonical rooted stack → canonical rooted (clean_step rooted stack seg).
Proof.
  intros Hseg (names & n & -> & Hp & Hs & Hn). unfold clean_step. destruct (_ || _) eqn:E; [by exists names, n|]. reflect_bools.
  case_bool_decide as Hd; [|exists (seg :: names), n; split_and!; [done|constructor; [|done]|by constructor|done]; unfold plain; naive_solver].
  destruct names as [|top names]; cbn [app].
  - destruct n as [|n]; cbn [replicate]; [destruct rooted; [by exists [], 0|by exists [], 1]|]. rewrite bool_decide_true by done. exists [], (S (S n)).
    split_and!; try done. by intros ?%Hn.
  - apply Forall_cons in Hp as [(_ & _ & Ht) Hp]. apply Forall_cons in Hs as [_ Hs]. rewrite bool_decide_false by done. by exists names, n.
Qed.

Lemma canonical_fold rooted segs stack : Forall (λ seg, slash ∉ seg) segs → canonical rooted stack → canonical rooted (fold_left (clean_step rooted) segs stack).
Proof. intros Hs. revert stack. induction Hs; intros stack Hc; [done|]. cbn [fold_left]. by apply IHHs, canonical_step. Qed.

Lemma location_canonical s : canonical (location s).1 (location s).2.
Proof. apply canonical_fold; [apply split_no_sep|]. by exists [], 0. Qed.

Lemma push_plain rooted seg stack : plain seg → clean_step rooted stack seg = seg :: stack.
Proof. intros (H1 & H2 & H3). unfold clean_step. by rewrite !bool_decide_false. Qed.

(** Reading the names of a canonical stack gives it back. *)
Lemma canonical_again rooted stack : canonical rooted stack → fold_left (clean_step rooted) (reverse stack) [] = stack.
Proof.
  intros (names & n & -> & Hp & _ & Hn). induction Hp as [|name names Hname _ IH]; cbn [app].
  - clear -Hn. rewrite reverse_replicate. destruct rooted; [by rewrite Hn|]. assert (∀ k, fold_left (clean_step false) (replicate n dotdot) (replicate k dotdot) = replicate (n + k) dotdot) as H.
    { induction n as [|n IH]; intros k; [done|]. cbn [replicate fold_left]. replace (clean_step false (replicate k dotdot) dotdot) with (replicate (S k) dotdot) by (by destruct k).
      rewrite IH by done. f_equal. lia. }
    etrans; [exact (H 0)|]. f_equal. lia.
  - rewrite reverse_cons, fold_left_app, IH. cbn [fold_left]. by apply push_plain.
Qed.

Lemma canonical_segments rooted stack : canonical rooted stack → Forall (λ seg, seg ≠ [] ∧ slash ∉ seg) (reverse stack).
Proof.
  intros (names & n & -> & Hp & Hs & _). apply Forall_forall. intros x. rewrite elem_of_reverse, elem_of_app. intros [Hx|Hx].
  - by split; [apply (proj1 (Forall_forall _ _) Hp x Hx)|apply (proj1 (Forall_forall _ _) Hs x Hx)].
  - apply elem_of_replicate in Hx as [-> _]. split; [done|]. apply (bool_decide_unpack _). by vm_compute.
Qed.

(** [path.Clean] leads to the same place. *)
Lemma location_clean s : s ≠ "" → location (path_clean s) = location s.
Proof.
  intros Hs. pose proof (location_canonical s) as Hc. unfold path_clean. rewrite bool_decide_false by done.
  change (fold_left (clean_step (has_prefix s "/")) (split_bytes slash (bytes_of s)) []) with (location s).2.
  change (has_prefix s "/") with (location s).1. destruct (location s) as [rooted stack]. cbn [fst snd] in *.
  pose proof (canonical_segments _ _ Hc) as Hseg. pose proof (canonical_again _ _ Hc) as Hagain. set (segs := reverse stack) in *.
  assert (Forall (λ seg, slash ∉ seg) segs) as Hsl by (eapply Forall_impl; [exact Hseg|by intros ? [_ ?]]).
  destruct rooted; [|case_bool_decide as Hout].
  - unfold location. unfold has_prefix. rewrite bytes_of_str_of. cbn [bytes_of list_prefix]. rewrite bool_decide_true by done. cbn [andb]. f_equal.
    cbn [split_bytes]. rewrite bool_decide_true by done. destruct (decide (segs = [])) as [E|E]; [by rewrite E in Hagain |- *; rewrite <-Hagain|].
    rewrite split_join by done. exact Hagain.
  - destruct segs as [|seg segs]; [rewrite <-Hagain; reflexivity|]. apply Forall_cons in Hseg as [[Hne _] _]. destruct seg, segs; done.
  - destruct (decide (segs = [])) as [->|E]; [done|]. unfold location. rewrite bytes_of_str_of, split_join by done.
    assert (has_prefix (str_of (join_bytes slash segs)) "/" = false) as ->; [|by rewrite Hagain].
    unfold has_prefix. rewrite bytes_of_str_of. destruct segs as [|[|c seg] segs]; [done|by apply Forall_cons in Hseg as [[? _] _]|].
    apply Forall_cons in Hsl as [Hc' _]. replace (join_bytes slash ((c :: seg) :: segs)) with (c :: tail (join_bytes slash ((c :: seg) :: segs))) by (by destruct segs).
    cbn [bytes_of list_prefix]. rewrite bool_decide_false; [done|]. intros <-. apply Hc'. set_solver.
Qed.

(** A name below a directory. *)
Lemma location_join d name : d ≠ "" → plain (bytes_of name) → slash ∉ bytes_of name →
  location (filepath_Join d name) = ((location d).1, bytes_of name :: (location d).2).
Proof.
  intros Hd Hp Hs. unfold filepath_Join. rewrite location_clean by (by destruct d).
  assert (has_prefix (d +:+ "/" +:+ name) "/" = has_prefix d "/") as E.
  { unfold has_prefix. destruct d as [|c d]; [done|]. reflexivity. }
  unfold location. rewrite E, !bytes_of_app. change (bytes_of "/" ++ bytes_of name) with (slash :: bytes_of name).
  rewrite split_app_slash, fold_left_app. cbn [fst snd]. f_equal.
  rewrite split_bytes_cons_no_sep by done. cbn [fold_left]. by apply push_plain.
Qed.

Lemma join_not_empty a b : filepath_Join a b ≠ "".
Proof.
  unfold filepath_Join, path_clean. case_bool_decide; [done|]. destruct (has_prefix _ _); [done|]. case_bool_decide as E; [done|].
  by destruct (join_bytes _ _).
Qed.

Lemma hex_no_slash l : slash ∉ hex_encode l.
Proof.
  induction l as [|c l IH]; [set_solver|]. unfold hex_encode in *. cbn [map concat]. rewrite elem_of_app. intros [H|H]; [|done].
  revert H. apply (bool_decide_eq_false_1 _). revert c. all_bytes; reflexivity.
Qed.

Lemma id_name id : ID_Valid id = true → plain (bytes_of id) ∧ slash ∉ bytes_of id.
Proof.
  intros Hid. split.
  - pose proof (id_valid_parse id Hid) as Hp. unfold ParseID in Hp. destruct (_ || _) eqn:E in Hp; [done|]. reflect_bools. clear -H.
    split_and!; intros E; by rewrite E in H.
  - apply id_valid_iff in Hid as (v & _ & ->). unfold formatID. rewrite bytes_of_str_of. cbn [join_bytes].
    rewrite !elem_of_app, !elem_of_cons. pose proof (λ l, hex_no_slash l) as Hh. intros Hin. repeat (rewrite ?elem_of_app, ?elem_of_cons in Hin).
    unfold dash, slash in *. naive_solver.
Qed.

(** ** The files of the state directory *)

(** What is kept there. *)
Inductive StatePath := StateDatabase | StateSocket | StateToken | StateIdentity | StateContent | StateLog (id : string) | StateWorkspace (id : string).

Definition state_path (stateDir : string) (p : StatePath) : result string :=
  match p with
  | StateDatabase => DatabasePath stateDir | StateSocket => LocalSocketPath stateDir | StateToken => CapabilityTokenPath stateDir
  | StateIdentity => DeviceIdentityPath stateDir | StateContent => ContentStoreDir stateDir
  | StateLog id => JobLogPath stateDir id | StateWorkspace id => JobWorkspacePath stateDir id
  end.

(** The names below the state directory, last first. *)
Definition state_names (p : StatePath) : list bytes :=
  match p with
  | StateDatabase => [bytes_of "computehop.db"] | StateSocket => [bytes_of "computehop.sock"] | StateToken => [bytes_of "local-ipc.token"]
  | StateIdentity => [bytes_of "device-identity.pem"] | StateContent => [bytes_of "content"]
  | StateLog id => [bytes_of "output.log"; bytes_of id; bytes_of "jobs"] | StateWorkspace id => [bytes_of "workspace"; bytes_of id; bytes_of "jobs"]
  end.

(** The name is a constant. *)
Ltac known_name := first [done|apply (bool_decide_unpack _); by vm_compute].

Lemma state_file stateDir name path : stateFilePath stateDir name = Ok path → plain (bytes_of name) → slash ∉ bytes_of name →
  path ≠ "" ∧ location path = ((location stateDir).1, bytes_of name :: (location stateDir).2).
Proof.
  unfold stateFilePath. intros ([] & Hb%reject_if_ok & [= <-])%result_bind_ok Hp Hs. split; [apply join_not_empty|]. apply location_join; [|done..].
  intros ->. by vm_compute in Hb.
Qed.

Lemma job_dir stateDir id path : JobDataDir stateDir id = Ok path →
  path ≠ "" ∧ location path = ((location stateDir).1, bytes_of id :: bytes_of "jobs" :: (location stateDir).2).
Proof.
  unfold JobDataDir. destruct (ID_Valid id) eqn:Hid; [|done]. cbn [negb]. intros (jobs & Hj & [= <-])%result_bind_ok.
  apply state_file in Hj as [Hne Hl]; [|known_name..]. destruct (id_name id Hid) as [Hp Hs]. split; [apply join_not_empty|].
  by rewrite location_join, Hl.
Qed.

Lemma state_location stateDir p path : state_path stateDir p = Ok path →
  location path = ((location stateDir).1, state_names p ++ (location stateDir).2).
Proof.
  intros Hp.
  assert (∀ id name, name ∈ ["output.log"; "workspace"] → JobDataDir stateDir id ≫= (λ d, Ok (filepath_Join d name)) = Ok path →
    location path = ((location stateDir).1, bytes_of name :: bytes_of id :: bytes_of "jobs" :: (location stateDir).2)) as Hjob.
  { intros id name Hname (d & [Hne Hl]%job_dir & [= <-])%result_bind_ok.
    assert (plain (bytes_of name) ∧ slash ∉ bytes_of name) as [H1 H2] by (rewrite !elem_of_cons, elem_of_nil in Hname; destruct_or?; try done; subst; split; known_name).
    by rewrite location_join, Hl. }
  destruct p; try (eapply state_file; [exact Hp|known_name..]).
  - apply Hjob; [set_solver|exact Hp].
  - apply Hjob; [set_solver|]. cbn [state_path] in Hp. unfold JobWorkspacePath in Hp. unfold JobDataDir, stateFilePath.
    destruct (ID_Valid id); [|done]. cbn [negb reject_if mbind result_bind] in *. by destruct (reject_if _ _).
Qed.

Lemma names_apart p q l : state_names p = l ++ state_names q → p = q.
Proof.
  intros Hl. assert (length l < 3) as Hn by (apply (f_equal length) in Hl; rewrite length_app in Hl; destruct p, q; simpl in Hl; lia).
  destruct p, q, l as [|? [|? [|? l]]]; simpl in Hn; try lia; cbn [state_names app] in Hl; try (discriminate Hl); try reflexivity;
    injection Hl as E; apply (f_equal str_of) in E; rewrite !str_of_bytes_of in E; by subst.
Qed.

(** C24 Nothing in the state directory is where something else is. The database, the
    socket, the token, the identity, the content store and each job's log and workspace
    are apart, however the state directory is written: no path is at or below another, so
    that materializing or removing the workspace of a job reaches neither the state of the
    daemon nor another job. *)
Theorem state_apart stateDir p q path path' :
  state_path stateDir p = Ok path → state_path stateDir q = Ok path' → p ≠ q → ¬ within path path'.
Proof.
  intros Hp%state_location Hq%state_location Hne [_ [l Hl]]. rewrite Hp, Hq in Hl. cbn [fst snd] in Hl. rewrite app_assoc in Hl.
  apply app_inv_tail in Hl. by apply names_apart in Hl.
Qed.

Lemma state_apart_witness : ¬ within "/var/hop/jobs/7a338fa3-7ba4-4c54-bf59-da1161f6b76f/workspace" "/var/hop/computehop.db".
Proof. eapply (state_apart "/var/./lib/../hop/" (StateWorkspace "7a338fa3-7ba4-4c54-bf59-da1161f6b76f") StateDatabase); by vm_compute. Defined.
