(* ===== verification/Restore.v ===== *)
(** * Collecting and restoring outputs (internal/infra/cas/artifacts.go)

    [ArtifactManager] over the content store and the directory results go to.  Every
    look at that directory and every change of it is an access of its own, between
    which its other users may write to it. *)

From stdpp Require Import pretty.
From S2P Require Import Prelude GoText PortablePath JobModel Effects Sql JobStore Snapshot ContentCache ArtifactStore Hosts Workspace.
From Stdlib Require Import Ascii.
Local Open Scope string_scope.
Local Open Scope nat_scope.
Local Open Scope list_scope.

(** ** The destination directory *)

Definition Lstat (p : list string) : Tx Tree (option Node) := t ← tx_read; mret (t !! p).

(** The directory above is there; the destination itself is below one that was
    created before. *)
Definition parent_there (p : list string) (t : Tree) : bool :=
  bool_decide (p = []) || bool_decide (t !! dir_of p = Some Dir).

(** [os.Mkdir]; that something is there already is no error to the callers. *)
Definition Mkdir (p : list string) : Tx Tree unit :=
  t ← tx_read;
  _ ← tx_lift (reject_if (negb (parent_there p t)) [DriverError]);
  match t !! p with
  | Some _ => mret tt
  | None => tx_write (<[p := Dir]> t)
  end.

(** [os.Rename] of a regular file: it takes the place of anything but a directory. *)
Definition Rename (node : Node) (p : list string) : Tx Tree unit :=
  t ← tx_read;
  _ ← tx_lift (reject_if (negb (parent_there p t) || bool_decide (t !! p = Some Dir)) [DriverError]);
  tx_write (<[p := node]> t).

(** The bytes [filesEqual] compares with, [None] when the path leads to no regular
    file; symbolic links are followed. *)
Definition read_target (p : list string) : Tx Tree (option bytes) :=
  t ← tx_read;
  match t !! p with
  | Some (Reg _ data) => mret (Some data)
  | Some (Link (Some (Some data))) => mret (Some data)
  | Some Dir | Some (Link (Some None)) => mret None
  | Some (Link None) | None => tx_lift (Err [DriverError])
  end.

Definition home {A} (t : Tx Tree A) : Run Host A := on_home (atomically t).

Definition ensureRestoreRoot : Run Host unit :=
  first ← attempt (home (Lstat []));
  info ← (match first with
          | Ok None => _ ← home (Mkdir []); attempt (home (Lstat []))
          | _ => mret first
          end);
  match info with
  | Ok (Some Dir) => mret tt
  | _ => run_fail [ArtifactErrInvalidDestination]
  end.

(** The loop of [ensureRestoreDirectory] below [current]. *)
Fixpoint ensure_loop (current rest : list string) : Run Host bool :=
  match rest with
  | [] => mret true
  | segment :: rest =>
      let current := current ++ [segment] in
      first ← home (Lstat current);
      info ← (match first with
              | None => _ ← home (Mkdir current); home (Lstat current)
              | Some _ => mret first
              end);
      match info with
      | None => run_fail [DriverError]
      | Some (Link _) => run_fail [ArtifactErrInvalidDestination]
      | Some (Reg _ _) => mret false
      | Some Dir => ensure_loop current rest
      end
  end.

Definition ensureRestoreDirectory (relative : list string) : Run Host bool :=
  match relative with
  | [] => _ ← ensureRestoreRoot; mret true
  | _ => ensure_loop [] relative
  end.

(** [filesEqual] of a staged file with these bytes and the file at [p]. *)
Definition filesEqual (data : bytes) (p : list string) : Run Host bool :=
  _ ← private_io;
  contents ← home (read_target p);
  match contents with
  | None => mret false
  | Some other => mret (bool_decide (data = other))
  end.

Definition placeWithoutOverwrite (mode : Z) (data : bytes) (p : list string) : Run Host bool :=
  info ← home (Lstat p);
  match info with
  | None =>
      renamed ← attempt (home (Rename (Reg mode data) p));
      match renamed with
      | Ok _ => mret true
      | Err e =>
          there ← attempt (home (Lstat p));
          match there with Ok (Some _) => mret false | _ => run_fail e end
      end
  | Some (Reg _ _) =>
      equal ← filesEqual data p;
      if equal : bool then (_ ← private_io; mret true) else mret false
  | Some _ => mret false
  end.

(** [attempt], the [n]-th from the end, of the loop of [placeConflict]. *)
Definition conflict_path (id : string) (attempt : nat) (original : string) : string :=
  ".computehop-conflicts/" +:+ id +:+ (if attempt <=? 1 then "" else "-" +:+ pretty (N.of_nat attempt)) +:+ "/" +:+ original.

Fixpoint conflict_loop (n : nat) (id original : string) (mode : Z) (data : bytes) : Run Host string :=
  match n with
  | 0 => run_fail [ArtifactErrConflict]
  | S n' =>
      let relative := conflict_path id (101 - n) original in
      let p := segments relative in
      ready ← ensureRestoreDirectory (dir_of p);
      if negb ready then conflict_loop n' id original mode data
      else
        info ← home (Lstat p);
        match info with
        | None =>
            renamed ← attempt (home (Rename (Reg mode data) p));
            match renamed with
            | Ok _ => mret relative
            | Err _ => conflict_loop n' id original mode data
            end
        | Some _ =>
            equal ← filesEqual data p;
            if equal : bool then (_ ← private_io; mret relative) else conflict_loop n' id original mode data
        end
  end.
Definition placeConflict (id original : string) (mode : Z) (data : bytes) : Run Host string :=
  conflict_loop 100 id original mode data.

(** The second loop of [Restore]: [staging] holds the written files. *)
Fixpoint place_files (id : string) (staging : Tree) (files : list File) (restored conflicts : list string) :
    Run Host (list string * list string) :=
  match files with
  | [] => mret (restored, conflicts)
  | file :: rest =>
      let p := segments (Path file) in
      match staging !! p with
      | Some (Reg mode data) =>
          parentReady ← ensureRestoreDirectory (dir_of p);
          placed ← (if parentReady : bool then placeWithoutOverwrite mode data p else mret false);
          if placed : bool then place_files id staging rest (restored ++ [Path file]) conflicts
          else
            conflict ← placeConflict id (Path file) mode data;
            place_files id staging rest restored (conflicts ++ [conflict])
      | _ => run_fail [DriverError]
      end
  end.

(** ** The manager *)

Section Manager.
Context `{UnicodeCase} (sha256 : bytes → bytes) (maximumBytes : Z) (json_length : Manifest → Z).

Definition Manager_Get (id : string) : Run Host Bundle := on_content (on_index (Artifact_Get sha256 json_length id)).

Definition Manager_MarkRetrieved (id : string) : Run Host unit :=
  _ ← run_lift (reject_if (negb (ID_Valid id)) [ArtifactErrInvalidBundle]);
  at_ ← on_content now;
  on_content (on_index (MarkRetrieved id at_)).

Definition ReadJobChunk (id digest : string) : Run Host bytes :=
  _ ← run_lift (reject_if (negb (Digest_Valid digest)) [CasErrInvalidStore]);
  bundle ← Manager_Get id;
  _ ← run_lift (reject_if (negb (bool_decide (digest ∈ Digests (BundleManifest bundle)))) [ArtifactErrNotFound]);
  on_content (Cas_Read sha256 digest).

(** [snapshot.BuildDeclared] is a parameter of [Collect]. *)
Definition Collect (build : string → list string → Run Host Manifest) (value : Job) : Run Host Bundle :=
  _ ← run_lift (reject_if (match Job_Validate value with Ok _ => false | Err _ => true end
        || bool_decide (Outputs (JobSpec value) = [])) [ArtifactErrInvalidBundle]);
  _ ← on_content BeginUse;
  finally (on_content (EndUse maximumBytes)) (
    manifest ← build (WorkingDirectory (JobSpec value)) (Outputs (JobSpec value));
    at_ ← on_content now;
    let bundle := MkBundle (ID value) manifest at_ in
    _ ← on_content (Save sha256 json_length (λ A, on_index (A := A)) bundle);
    mret bundle).

Definition Restore (bundle : Bundle) (destination : string) : Run Host RestoreResult :=
  _ ← run_lift (reject_if (match Bundle_Validate bundle with Ok _ => false | Err _ => true end
        || negb (filepath_IsAbs destination)) [ArtifactErrInvalidDestination]);
  _ ← on_content BeginUse;
  finally (on_content (EndUse maximumBytes)) (
    let destination := path_clean destination in
    _ ← run_lift (reject_if (bool_decide (destination = "/")) [ArtifactErrInvalidDestination]);
    missing ← on_content (Missing sha256 (Digests (BundleManifest bundle)));
    _ ← run_lift (reject_if (negb (bool_decide (missing = []))) [CasErrNotFound]);
    _ ← private_io;
    _ ← private_io;
    staging ← materialize_files sha256 (Files (BundleManifest bundle)) ∅;
    rooted ← attempt ensureRestoreRoot;
    _ ← run_lift (match rooted with Ok _ => Ok tt | Err _ => Err [ArtifactErrInvalidDestination] end);
    placed ← place_files (BundleJobID bundle) staging (Files (BundleManifest bundle)) [] [];
    let result := NormalizeResult (MkRestoreResult destination placed.1 placed.2) in
    _ ← run_lift (RestoreResult_Validate result);
    at_ ← on_content now;
    _ ← on_content (on_index (MarkRetrieved (BundleJobID bundle) at_));
    mret result).

End Manager.

(** ** Nothing is overwritten *)

(** Programs that leave the destination alone. *)
Definition untouched {A} (m : Run Host A) : Prop := ∀ h, h_home (m h).2 = h_home h.

Lemma untouched_bind {A B} (m : Run Host A) (f : A → Run Host B) : untouched m → (∀ a, untouched (f a)) → untouched (m ≫= f).
Proof.
  intros Hm Hf h. unfold mbind, Run_bind. specialize (Hm h). destruct (m h) as [[a|e] h1]; cbn in *; [by rewrite Hf|done].
Qed.
Lemma untouched_lift {A} (r : result A) : untouched (run_lift r).
Proof. done. Qed.
Lemma untouched_ret {A} (a : A) : untouched (mret a).
Proof. done. Qed.
Lemma untouched_fail {A} e : untouched (A := A) (run_fail e).
Proof. done. Qed.
Lemma untouched_attempt {A} (m : Run Host A) : untouched m → untouched (attempt m).
Proof. intros Hm h. specialize (Hm h). unfold attempt. by destruct (m h). Qed.
Lemma untouched_content {A} (m : M Vault A) : untouched (on_content m).
Proof. intros h. unfold on_content, zoom. by destruct (m (h_content h)). Qed.
Lemma untouched_spaces {A} (m : M (gmap string Tree) A) : untouched (on_spaces m).
Proof. intros h. unfold on_spaces, zoom. by destruct (m (h_spaces h)). Qed.
Lemma untouched_io : untouched private_io.
Proof. apply untouched_spaces. Qed.

#[local] Hint Resolve untouched_lift untouched_ret untouched_fail untouched_content untouched_spaces untouched_io untouched_attempt : hop.
Ltac untouch := repeat first
  [ solve [auto with hop nocore] | apply untouched_bind; [|intros ?] | apply untouched_attempt
  | match goal with
    | |- untouched (match ?x with _ => _ end) => destruct x
    | |- untouched (match ?x with _ => _ end _) => destruct x
    end ].

Section Untouched.
Context `{UnicodeCase} (sha256 : bytes → bytes).

Lemma untouched_copy chunks written : untouched (copy_chunks sha256 chunks written).
Proof. revert written. induction chunks as [|c chunks IH]; intros written; cbn [copy_chunks]; untouch. Qed.

Lemma untouched_materialize files (t : Tree) : untouched (materialize_files sha256 files t).
Proof.
  revert t. induction files as [|f files IH]; intros t; cbn [materialize_files]; untouch.
  unfold materializeFile. untouch; apply untouched_copy.
Qed.
End Untouched.

(** The destination is [T], and only this run writes to it. *)
Definition exact_home (T : Tree) (h : Host) : Prop := still (h_home h) ∧ w_db (h_home h) = T.

Lemma home_runs {A} (T : Tree) (t : Tx Tree A) (h : Host) (Q : result A → Host → Prop) : exact_home T h →
  (∀ e h', exact_home T h' → Q (Err e) h') → (∀ a T' h', t T = Ok (a, T') → exact_home T' h' → Q (Ok a) h') → runs (home t) h Q.
Proof.
  intros [Hs HT] Herr Hok. apply runs_zoom, runs_still; [done|..].
  - intros w' Hs' Hw' e _. apply Herr. split; [done|]. cbn. congruence.
  - intros a w' Hs' Ht. apply (Hok a (w_db w')); [by rewrite <-HT|done].
Qed.

Lemma untouched_runs {A} (m : Run Host A) (T : Tree) (h : Host) (Q : result A → Host → Prop) : untouched m → exact_home T h →
  (∀ r h', exact_home T h' → Q r h') → runs m h Q.
Proof. intros Hm [Hs HT] HQ. apply HQ. specialize (Hm h). unfold exact_home. by rewrite Hm. Qed.

(** A run that only adds to the destination, and what it ensures when it succeeds. *)
Definition adds {A} (T : Tree) (m : Run Host A) (Q : A → Tree → Prop) : Prop :=
  ∀ h, exact_home T h → runs m h (λ r h', ∃ T', exact_home T' h' ∧ T ⊆ T' ∧ ∀ a, r = Ok a → Q a T').

Lemma adds_bind {A B} T (m : Run Host A) (f : A → Run Host B) P Q :
  adds T m P → (∀ a T', T ⊆ T' → P a T' → adds T' (f a) Q) → adds T (m ≫= f) Q.
Proof.
  intros Hm Hf h HT. apply runs_bind. eapply runs_mono; [by apply Hm|]. cbn. intros [a|e] h1 (T1 & HT1 & Hsub & HP).
  - eapply runs_mono; [eapply (Hf a T1); eauto|]. cbn. intros r h2 (T2 & HT2 & Hsub2 & HQ). exists T2. split_and!; [done|by etransitivity|done].
  - by exists T1.
Qed.
Lemma adds_ret {A} T (a : A) (Q : A → Tree → Prop) : Q a T → adds T (mret a) Q.
Proof. intros HQ h HT. apply runs_ret. exists T. split_and!; [done..|]. by intros a' [= <-]. Qed.
Lemma adds_fail {A} T e (Q : A → Tree → Prop) : adds T (run_fail e) Q.
Proof. intros h HT. apply runs_fail. by exists T. Qed.
Lemma adds_mono {A} T (m : Run Host A) (P Q : A → Tree → Prop) : adds T m P → (∀ a T', T ⊆ T' → P a T' → Q a T') → adds T m Q.
Proof. intros Hm HPQ h HT. eapply runs_mono; [by apply Hm|]. cbn. intros r h' (T' & HT' & Hsub & HP). exists T'. split_and!; eauto. Qed.
Lemma adds_attempt {A} T (m : Run Host A) (Q : result A → Tree → Prop) :
  adds T m (λ a T', Q (Ok a) T') → (∀ e T', T ⊆ T' → Q (Err e) T') → adds T (attempt m) Q.
Proof.
  intros Hm He h HT. apply runs_attempt. eapply runs_mono; [by apply Hm|]. cbn. intros [a|e] h' (T' & HT' & Hsub & HP); exists T';
    split_and!; try done; intros r [= <-]; auto.
Qed.
Lemma adds_home {A} T (t : Tx Tree A) (Q : A → Tree → Prop) :
  (∀ a T', t T = Ok (a, T') → T ⊆ T' ∧ Q a T') → adds T (home t) Q.
Proof.
  intros Ht h HT. eapply home_runs; [done| |].
  - intros e h' HT'. by exists T.
  - intros a T' h' E HT'. destruct (Ht a T' E) as [Hsub HQ]. exists T'. split_and!; [done..|]. by intros a' [= <-].
Qed.
Lemma adds_untouched {A} T (m : Run Host A) (Q : A → Tree → Prop) : untouched m → (∀ a, Q a T) → adds T m Q.
Proof. intros Hm HQ h HT. eapply untouched_runs; [done..|]. intros r h' HT'. exists T. split_and!; [done..|]. intros a _. apply HQ. Qed.

(** The path leads to a file with these bytes. *)
Definition leads_to (T : Tree) (p : list string) (data : bytes) : Prop := read_target p T = Ok (Some data, T).

Lemma leads_mono T T' p data : T ⊆ T' → leads_to T p data → leads_to T' p data.
Proof.
  unfold leads_to, read_target, mbind, Tx_bind, tx_read. intros Hsub. destruct (T !! p) as [node|] eqn:E; [|done].
  rewrite (lookup_weaken _ _ _ _ E Hsub). by destruct node as [|mode d|[[d|]|]]; intros [= <-].
Qed.
Lemma leads_reg T p mode data : T !! p = Some (Reg mode data) → leads_to T p data.
Proof. unfold leads_to, read_target, mbind, Tx_bind, tx_read. by intros ->. Qed.

Lemma adds_lstat T p (Q : option Node → Tree → Prop) : Q (T !! p) T → adds T (home (Lstat p)) Q.
Proof. intros HQ. apply adds_home. by intros a T' [= <- <-]. Qed.
Lemma adds_mkdir T p : adds T (home (Mkdir p)) (λ _ _, True).
Proof.
  apply adds_home. intros a T' E. split; [|done]. unfold Mkdir in E. invert_tx E. destruct (T !! p) eqn:Ep; invert_tx E; [done|].
  by apply insert_subseteq.
Qed.
Lemma adds_rename T p node : T !! p = None → adds T (home (Rename node p)) (λ _ T', T' !! p = Some node).
Proof.
  intros Hp. apply adds_home. intros a T' E. unfold Rename in E. invert_tx E. split; [by apply insert_subseteq|apply lookup_insert_eq].
Qed.

Lemma adds_root T : adds T ensureRestoreRoot (λ _ _, True).
Proof.
  unfold ensureRestoreRoot. apply (adds_bind _ _ _ (λ _ _, True)); [apply adds_attempt; [by apply adds_lstat|done]|]. intros first T1 _ _.
  eapply (adds_bind _ _ _ (λ _ _, True)).
  - destruct first as [[node|]|e]; try by apply adds_ret.
    eapply adds_bind; [apply adds_mkdir|]. intros _ T2 _ _. apply adds_attempt; [by apply adds_lstat|done].
  - intros info T2 _ _. destruct info as [[[| |]|]|e]; (apply adds_fail || by apply adds_ret).
Qed.

Lemma adds_ensure_loop T current rest : adds T (ensure_loop current rest) (λ _ _, True).
Proof.
  revert T current. induction rest as [|segment rest IH]; intros T current; cbn [ensure_loop]; [by apply adds_ret|].
  apply (adds_bind _ _ _ (λ _ _, True)); [by apply adds_lstat|]. intros first T1 _ _.
  eapply (adds_bind _ _ _ (λ _ _, True)).
  - destruct first as [node|]; [by apply adds_ret|]. eapply adds_bind; [apply adds_mkdir|]. intros _ T2 _ _. by apply adds_lstat.
  - intros info T2 _ _. destruct info as [[| |]|]; (apply adds_fail || by apply adds_ret || apply IH).
Qed.

Lemma adds_directory T relative : adds T (ensureRestoreDirectory relative) (λ _ _, True).
Proof.
  unfold ensureRestoreDirectory. destruct relative; [|apply adds_ensure_loop].
  eapply adds_bind; [apply adds_root|]. intros _ T1 _ _. by apply adds_ret.
Qed.

Lemma adds_equal T data p : adds T (filesEqual data p) (λ b T', b = true → leads_to T' p data).
Proof.
  unfold filesEqual. apply (adds_bind _ _ _ (λ _ _, True)); [by apply adds_untouched; [apply untouched_io|]|]. intros _ T1 _ _.
  apply (adds_bind _ _ _ (λ c T', read_target p T' = Ok (c, T'))).
  - apply adds_home. intros c T2 E. unfold read_target in *. invert_tx E. unfold mbind, Tx_bind, tx_read.
    destruct (T1 !! p) as [[|mode d|[[d|]|]]|] eqn:Ep; invert_tx E; try done; by rewrite Ep.
  - intros [other|] T2 _ Hread; apply adds_ret; [|done]. intros E%bool_decide_eq_true_1. by subst.
Qed.

Lemma adds_place T mode data p : adds T (placeWithoutOverwrite mode data p) (λ placed T', placed = true → leads_to T' p data).
Proof.
  unfold placeWithoutOverwrite. apply (adds_bind _ _ _ (λ info T', info = T' !! p)); [by apply adds_lstat|].
  intros info T1 _ Hinfo. destruct info as [[|m d|to]|]; try by apply adds_ret.
  - eapply adds_bind; [apply adds_equal|]. intros [|] T2 _ Heq; [|by apply adds_ret].
    apply adds_untouched; [|intros b _; by apply Heq]. untouch.
  - apply (adds_bind _ _ _ (λ r T', r = Ok tt → T' !! p = Some (Reg mode data))).
    + apply adds_attempt; [|done]. eapply adds_mono; [by apply adds_rename|]. intros a T2 _ HT2. done.
    + intros [[]|e] T2 _ Hr; [apply adds_ret; intros _; by eapply leads_reg, Hr|].
      eapply (adds_bind _ _ _ (λ _ _, True)); [apply adds_attempt; [by apply adds_lstat|done]|].
      intros there T3 _ _. destruct there as [[node|]|]; (apply adds_fail || by apply adds_ret).
Qed.

Lemma adds_conflict n T id original mode data :
  adds T (conflict_loop n id original mode data) (λ relative T', (∃ k, relative = conflict_path id k original) ∧ leads_to T' (segments relative) data).
Proof.
  revert T. induction n as [|n IH]; intros T; [apply adds_fail|]. cbn [conflict_loop].
  set (relative := conflict_path id (101 - S n) original).
  eapply adds_bind; [apply adds_directory|]. intros [|] T1 _ _; cbn [negb]; [|apply IH].
  apply (adds_bind _ _ _ (λ info T', info = T' !! segments relative)); [by apply adds_lstat|]. intros [node|] T2 _ Hinfo.
  - eapply adds_bind; [apply adds_equal|]. intros [|] T3 _ Heq; [|apply IH].
    eapply (adds_bind _ _ _ (λ _ _, True)); [by apply adds_untouched; [apply untouched_io|]|]. intros _ T4 Hsub _. apply adds_ret.
    split; [by eexists|]. eapply leads_mono; [exact Hsub|by apply Heq].
  - apply (adds_bind _ _ _ (λ r T', r = Ok tt → T' !! segments relative = Some (Reg mode data))).
    + apply adds_attempt; [|done]. eapply adds_mono; [by apply adds_rename|]. done.
    + intros [[]|e] T3 _ Hr; [|apply IH]. apply adds_ret. split; [by eexists|]. by eapply leads_reg, Hr.
Qed.

(** Where a restored file can be found: at its own path, or, where that was taken,
    at the path reported as a conflict. *)
Definition delivered (id : string) (T : Tree) (restored conflicts : list string) (file : File) (data : bytes) : Prop :=
  Path file ∈ restored ∧ leads_to T (segments (Path file)) data ∨
  ∃ k, conflict_path id k (Path file) ∈ conflicts ∧ leads_to T (segments (conflict_path id k (Path file))) data.

Lemma delivered_mono id T T' restored restored' conflicts conflicts' file data :
  T ⊆ T' → restored ⊆ restored' → conflicts ⊆ conflicts' →
  delivered id T restored conflicts file data → delivered id T' restored' conflicts' file data.
Proof.
  intros HT Hr Hc [[Hin Hl]|(k & Hin & Hl)]; [left|right; exists k]; (split; [set_solver|by eapply leads_mono]).
Qed.

Lemma adds_files id staging files T restored conflicts :
  adds T (place_files id staging files restored conflicts) (λ lists T', restored ⊆ lists.1 ∧ conflicts ⊆ lists.2 ∧
    ∀ f, f ∈ files → ∃ mode data, staging !! segments (Path f) = Some (Reg mode data) ∧ delivered id T' lists.1 lists.2 f data).
Proof.
  revert T restored conflicts. induction files as [|file files IH]; intros T restored conflicts; cbn [place_files].
  { apply adds_ret. split_and!; [done..|set_solver]. }
  destruct (staging !! segments (Path file)) as [[|mode data|to]|] eqn:Est; try apply adds_fail.
  eapply adds_bind; [apply adds_directory|]. intros ready T1 _ _.
  apply (adds_bind _ _ _ (λ placed T', placed = true → leads_to T' (segments (Path file)) data)).
  { destruct ready; [apply adds_place|by apply adds_ret]. }
  intros [|] T2 _ Hplaced.
  - eapply adds_mono; [apply IH|]. cbn. intros lists T3 Hsub (Hr & Hc & Hf). split_and!; [set_solver|done|].
    intros f [->|Hin]%elem_of_cons; [|by apply Hf]. exists mode, data. split; [done|]. left. split; [set_solver|].
    eapply leads_mono; [exact Hsub|by apply Hplaced].
  - eapply adds_bind; [apply adds_conflict|]. intros relative T3 _ [[k ->] Hl].
    eapply adds_mono; [apply IH|]. cbn. intros lists T4 Hsub (Hr & Hc & Hf). split_and!; [done|set_solver|].
    intros f [->|Hin]%elem_of_cons; [|by apply Hf]. exists mode, data. split; [done|]. right. exists k. split; [set_solver|].
    by eapply leads_mono.
Qed.

Section Theorems.
Context `{UnicodeCase} (sha256 : bytes → bytes) (maximumBytes : Z) (json_length : Manifest → Z).

Lemma content_home {A} (m : M Vault A) T (h : Host) (Q : result A → Host → Prop) : exact_home T h → still (h_spaces h) →
  (∀ r h', exact_home T h' → still (h_spaces h') → Q r h') → runs (on_content m) h Q.
Proof. intros [Hs HT] Hsp HQ. apply runs_zoom. unfold runs. destruct (m (h_content h)). by apply HQ. Qed.

Lemma staging_runs files T h (Q : result Tree → Host → Prop) : exact_home T h → still (h_spaces h) →
  (∀ r h', exact_home T h' → (∀ t, r = Ok t → holds_files sha256 files t) → Q r h') → runs (materialize_files sha256 files ∅) h Q.
Proof.
  intros HT Hs HQ. pose proof (untouched_materialize sha256 files ∅ h) as Hhome.
  pose proof (materialize_files_runs sha256 (w_db (h_spaces h)) [] files ∅ h (conj Hs eq_refl)) as Hrun.
  unfold runs in *. apply HQ; [unfold exact_home in *; by rewrite Hhome|]. apply Hrun. split; set_solver.
Qed.

(** Every file of the bundle is where the result says, with verified bytes. *)
Definition restored_all (bundle : Bundle) (destination : string) (T : Tree) (result : RestoreResult) : Prop :=
  Destination result = path_clean destination ∧
  ∀ f, f ∈ Files (BundleManifest bundle) → ∃ data, made_of sha256 f data ∧
    delivered (BundleJobID bundle) T (Restored result) (Conflicts result) f data.

Lemma restored_normal bundle destination files staging T T' restored conflicts :
  Files (BundleManifest bundle) = files → holds_files sha256 files staging → T ⊆ T' →
  (∀ f, f ∈ files → ∃ mode data, staging !! segments (Path f) = Some (Reg mode data) ∧
     delivered (BundleJobID bundle) T restored conflicts f data) →
  restored_all bundle destination T' (NormalizeResult (MkRestoreResult (path_clean destination) restored conflicts)).
Proof.
  intros <- [Hst _] Hsub Hf. split; [done|]. intros f Hin. destruct (Hf f Hin) as (mode & data & Hs & Hd).
  destruct (Hst f Hin) as (data' & Hm & Hs'). assert (data' = data) as -> by congruence. exists data. split; [done|].
  eapply delivered_mono; [exact Hsub|..|exact Hd]; cbn; intros x; by rewrite merge_sort_Permutation.
Qed.

(** The part of a restore that works on the destination. *)
Lemma adds_placing bundle destination staging T :
  holds_files sha256 (Files (BundleManifest bundle)) staging →
  adds T (rooted ← attempt ensureRestoreRoot;
    _ ← run_lift (match rooted with Ok _ => Ok tt | Err _ => Err [ArtifactErrInvalidDestination] end);
    placed ← place_files (BundleJobID bundle) staging (Files (BundleManifest bundle)) [] [];
    let result := NormalizeResult (MkRestoreResult (path_clean destination) placed.1 placed.2) in
    _ ← run_lift (RestoreResult_Validate result);
    at_ ← on_content now;
    _ ← on_content (on_index (MarkRetrieved (BundleJobID bundle) at_));
    mret result) (λ result T', restored_all bundle destination T' result).
Proof.
  intros Hst. assert (Hskip : ∀ A T (m : Run Host A), untouched m → adds T m (λ _ _, True)) by (intros; by apply adds_untouched).
  eapply (adds_bind _ _ _ (λ _ _, True)); [apply adds_attempt; [apply adds_root|done]|]. intros rooted T1 _ _.
  eapply adds_bind; [apply Hskip; untouch|]. intros _ T2 _ _.
  eapply adds_bind; [apply adds_files|]. intros [restored conflicts] T3 _ (_ & _ & Hf). cbv zeta.
  eapply adds_bind; [apply Hskip; untouch|]. intros _ T4 H4 _. eapply adds_bind; [apply Hskip; untouch|]. intros at_ T5 H5 _.
  eapply adds_bind; [apply Hskip; untouch|]. intros _ T6 H6 _. apply adds_ret.
  eapply restored_normal; [done|exact Hst| |exact Hf]. by do 2 (etransitivity; [eassumption|]).
Qed.

Lemma restore_runs bundle destination h : still (h_home h) → still (h_spaces h) →
  runs (Restore sha256 maximumBytes bundle destination) h (λ r h',
    w_db (h_home h) ⊆ w_db (h_home h') ∧
    ∀ result, r = Ok result → restored_all bundle destination (w_db (h_home h')) result).
Proof.
  intros Hh Hs. set (T := w_db (h_home h)). assert (HT : exact_home T h) by done. unfold Restore.
  run_guard. apply runs_bind. eapply content_home; [done..|]. intros [[]|e] h1 HT1 Hs1; [|by destruct HT1 as [_ ->]].
  apply runs_finally.
  apply (runs_mono _ _ (λ r h', ∃ T', exact_home T' h' ∧ T ⊆ T' ∧ ∀ result, r = Ok result → restored_all bundle destination T' result)).
  2: { intros r h2 (T' & [Hs2 HT2] & Hsub & HQ). unfold runs. rewrite (untouched_content (EndUse maximumBytes) h2), HT2. by split. }
  cbv zeta. apply runs_bind, runs_lift. destruct (reject_if _ _) as [[]|e]; [|by exists T].
  apply runs_bind. eapply content_home; [done..|]. intros [missing|e] h2 HT2 Hs2; [|by exists T].
  apply runs_bind, runs_lift. destruct (reject_if _ _) as [[]|e]; [|by exists T].
  assert (Hio : ∀ h' (Q : result () → Host → Prop), exact_home T h' → still (h_spaces h') →
    (∀ r h'', exact_home T h'' → still (h_spaces h'') → Q r h'') → runs private_io h' Q).
  { intros h' Q HT' Hs' HQ. apply runs_zoom, runs_still; [done|..]; intros; apply HQ; done. }
  apply runs_bind, Hio; [done..|]. intros [[]|e] h3 HT3 Hs3; [|by exists T].
  apply runs_bind, Hio; [done..|]. intros [[]|e] h4 HT4 Hs4; [|by exists T].
  apply runs_bind. eapply staging_runs; [done..|]. intros [staging|e] h5 HT5 Hst; [|by exists T].
  apply (adds_placing bundle destination staging T); [by apply Hst|done].
Qed.

(** Restoring outputs never overwrites: while nobody else writes to the
    destination, and whatever fails on the way, everything that was there stays as it
    was.  When the restore succeeds every file of the bundle is there, with bytes
    whose digests are the manifest's, under its own path or, where that was taken,
    under the path reported as a conflict. *)
Theorem restore_preserves bundle destination h : still (h_home h) → still (h_spaces h) →
  runs (Restore sha256 maximumBytes bundle destination) h (λ r h',
    w_db (h_home h) ⊆ w_db (h_home h') ∧
    ∀ result, r = Ok result → restored_all bundle destination (w_db (h_home h')) result).
Proof. apply restore_runs. Qed.

End Theorems.

(** ** Witnesses *)

Definition sample_home : Tree := {[ [] := Dir; segments (Path sample_file) := Reg 420 (bytes_of "old") ]}.
Lemma restore_preserves_witness :
  let '(r, h') := Restore (H := ascii_case) sample_sha256 (2 ^ 30) sample_bundle "/home/me/out" (sample_host sample_home) in
  ∃ result, r = Ok result ∧ Restored result = [] ∧
    w_db (h_home h') !! segments (Path sample_file) = Some (Reg 420 (bytes_of "old")) ∧
    ∃ k data, conflict_path sample_id k (Path sample_file) ∈ Conflicts result ∧
      leads_to (w_db (h_home h')) (segments (conflict_path sample_id k (Path sample_file))) data.
Proof.
  pose proof (restore_preserves (H := ascii_case) sample_sha256 (2 ^ 30) sample_bundle "/home/me/out" (sample_host sample_home) (λ _ _, eq_refl) (λ _ _, eq_refl)) as Hrun.
  unfold runs in Hrun.
  assert (E : (Restore (H := ascii_case) sample_sha256 (2 ^ 30) sample_bundle "/home/me/out" (sample_host sample_home)).1
    = Ok (MkRestoreResult "/home/me/out" [] [conflict_path sample_id 1 (Path sample_file)])) by (vm_compute; reflexivity).
  destruct (Restore (H := ascii_case) sample_sha256 (2 ^ 30) sample_bundle "/home/me/out" (sample_host sample_home)) as [r h']. cbn [fst snd] in *. subst r.
  destruct Hrun as [Hsub Hall]. destruct (Hall _ eq_refl) as [_ Hf].
  eexists. split; [reflexivity|]. split; [reflexivity|]. split.
  - apply (lookup_weaken _ _ _ _ (eq_refl : sample_home !! segments (Path sample_file) = Some (Reg 420 (bytes_of "old"))) Hsub).
  - destruct (Hf sample_file) as (data & _ & [[Hin _]|(k & Hin & Hl)]); [apply list_elem_of_singleton; reflexivity| |exists k, data; split; [exact Hin|exact Hl]].
    destruct (not_elem_of_nil _ Hin).
Defined.

(** Between the look at the target and the rename somebody else may create it: the
    file they wrote is lost, and the restore reports no conflict. *)
Definition intruder (n : nat) (T : Tree) : Tree := if n =? 1 then <[["a"] := Reg 420 (bytes_of "theirs")]> T else T.

Lemma restore_race :
  let T : Tree := {[ [] := Dir ]} in
  let h := MkHost (quiet empty_database (λ _, 9%Z)) (h_content (sample_host T)) (h_spaces (sample_host T))
    (MkWorld T (λ _, false) intruder 0 (λ _, 9%Z) 0 (λ _, max_count)) in
  let '(r, h') := placeWithoutOverwrite 420 (bytes_of "mine") ["a"] h in
  r = Ok true ∧ intruder 1 T !! ["a"] = Some (Reg 420 (bytes_of "theirs")) ∧ w_db (h_home h') !! ["a"] = Some (Reg 420 (bytes_of "mine")).
Proof. vm_compute. done. Qed.
