(* ===== verification/RemoteWorker.v ===== *)
(** * Serving a paired orchestrator (internal/app/worker/jobs.go, remote_handler.go)

    The operations of [JobService] that use the content store, the workspaces and
    the artifacts, and [RemoteHandler], which maps the requests of [Remote] to them.
    The optional interfaces the handler asks its job service for are those [JobService]
    has, so those checks succeed; a service without snapshots or artifacts is one
    whose [snapshots] or [artifacts] is nil.  [generated] stands for the random
    identifier of a submission, [error_text] for [err.Error()].  [log_files] is the log
    reader of [LogStore] over the log files of the jobs. *)

From S2P Require Import Prelude GoText PortablePath JobModel Effects Execution Sql JobStore ExecutionStore LogStore Custody Worker Snapshot Transfer ContentCache Device Trust Wire Frames Remote ArtifactStore Hosts Workspace Restore.
From Stdlib Require Import Ascii.
Local Open Scope string_scope.
Local Open Scope nat_scope.
Local Open Scope list_scope.

(** ** The log reader *)

Definition on_disk (file : option LogStore.File) (w : World Database) : World Disk :=
  MkWorld (MkDisk (w_db w) file) (w_fault w) (λ n k, MkDisk (w_interfere w n (disk_db k)) (disk_file k))
    (w_access w) (w_clock w) (w_ticks w) (w_count w).
Definition log_files (files : string → option LogStore.File) : LogReader := {|
  log_reader_read id after_ limit w :=
    let '(r, w') := Log_Read id after_ limit (on_disk (files id) w) in
    (r, MkWorld (disk_db (w_db w')) (w_fault w) (w_interfere w) (w_access w') (w_clock w) (w_ticks w') (w_count w)) |}.

Section Service.
Context `{UnicodeCase} `{LogReader} (sha256 : bytes → bytes) (maximumBytes : Z) (json_length : Manifest → Z) (stateDir : string).
Context (snapshots artifacts : bool).

(** ** JobService *)

Record JobArtifacts := MkJobArtifacts { ja_Job : Job; ja_Bundle : Bundle }.

Definition ReadArtifacts (id : string) : Run Host JobArtifacts :=
  _ ← run_lift (reject_if (negb artifacts) [WorkerErrArtifactsDisabled]);
  current ← on_jobs (atomically (Repo_Get id));
  _ ← run_lift (reject_if (negb (bool_decide (JobState current = StateSucceeded))
        || bool_decide (Outputs (JobSpec current) = [])) [WorkerErrArtifactsNotReady]);
  bundle ← Manager_Get sha256 json_length id;
  _ ← run_lift (reject_if (negb (bool_decide (BundleJobID bundle = id))) [ArtifactErrInvalidBundle]);
  mret (MkJobArtifacts current bundle).

Definition ReadArtifactChunk (id digest : string) : Run Host bytes :=
  _ ← ReadArtifacts id;
  ReadJobChunk sha256 json_length id digest.

Definition MarkArtifactsRetrieved (id : string) : Run Host unit :=
  _ ← ReadArtifacts id;
  Manager_MarkRetrieved id.

Definition RestoreArtifacts (id destination : string) : Run Host RestoreResult :=
  result ← ReadArtifacts id;
  let restoreBytes := Z.max (TotalBytes (BundleManifest (ja_Bundle result))) 1 in
  _ ← on_jobs (setProgress id ProgressRestore 0 restoreBytes);
  restored ← Restore sha256 maximumBytes (ja_Bundle result) destination;
  _ ← on_jobs (setProgress id ProgressRestore restoreBytes restoreBytes);
  _ ← on_jobs (atomically (Repo_ClearProgress id));
  mret restored.

Definition MissingChunks (digests : list string) : Run Host (list string) :=
  _ ← run_lift (reject_if (negb snapshots) [WorkerErrSnapshotsDisabled]);
  on_content (Missing sha256 digests).

Definition PutChunk (digest : string) (contents : bytes) : Run Host unit :=
  _ ← run_lift (reject_if (negb snapshots) [WorkerErrSnapshotsDisabled]);
  _ ← run_lift (reject_if (negb (Digest_Valid digest) || bool_decide (contents = [])
        || (Snapshot.MaximumChunkBytes <? Z.of_nat (length contents))%Z || negb (bool_decide (Sum sha256 contents = digest)))
        [SnapshotErrInvalidDigest]);
  on_content (Cas_Put sha256 maximumBytes digest contents).

Definition ReserveSnapshot (manifestID : string) (digests : list string) : Run Host unit :=
  _ ← run_lift (reject_if (negb snapshots) [WorkerErrSnapshotsDisabled]);
  on_content (Reserve maximumBytes manifestID digests).

Definition ReleaseSnapshot (manifestID : string) : Run Host unit :=
  if snapshots then on_content (ReleaseReservation maximumBytes manifestID) else mret tt.

(** [prepared := spec.Clone(); prepared.WorkingDirectory = workingDirectory]. *)
Definition with_directory (spec : Spec) (directory : string) : Spec :=
  MkSpec (Executable spec) (Arguments_ spec) directory (Environment spec) (SpecExecutor spec) (ContainerImage spec)
    (Outputs spec) (RequiredToolIDs spec).

Definition SubmitSnapshotWithID (id : string) (spec : Spec) (manifest : Manifest) (workingSubdirectory : string) : Run Host Job :=
  _ ← run_lift (reject_if (negb snapshots) [WorkerErrSnapshotsDisabled]);
  _ ← run_lift (reject_if (negb (ID_Valid id)) [JobErrInvalidID]);
  _ ← run_lift (Spec_Validate spec);
  _ ← run_lift (Manifest_Validate manifest);
  _ ← run_lift (if bool_decide (workingSubdirectory = "") then Ok tt else ValidatePath workingSubdirectory);
  _ ← on_content BeginUse;
  finally (on_content (EndUse maximumBytes)) (
    missing ← on_content (Missing sha256 (Digests manifest));
    _ ← run_lift (reject_if (negb (bool_decide (missing = []))) [WorkerErrSnapshotIncomplete]);
    workingDirectory ← Materialize sha256 stateDir id manifest workingSubdirectory;
    submitted ← attempt (on_jobs (submitWithID id (with_directory spec workingDirectory)));
    match submitted with
    | Ok value => mret value
    | Err e =>
        removed ← attempt (RemoveWorkspace stateDir id);
        run_fail (e ++ match removed with Ok _ => [] | Err e' => e' end)
    end).

Definition SubmitSnapshot (generated : result string) (spec : Spec) (manifest : Manifest) (workingSubdirectory : string) : Run Host Job :=
  id ← run_lift generated;
  SubmitSnapshotWithID id spec manifest workingSubdirectory.

(** ** Status *)

Record Status := MkStatus {
  StatusPlatform : string; StatusArchitecture : string; StatusLogicalCPUCount : Z; StatusTotalMemoryBytes : Z;
  StatusToolIDs : list string; StatusSupportedExecutors : list Executor
}.

Definition validateStatusHint (value : string) : bool := hint_ok value.

Fixpoint status_tools_loop (previous : string) (values : list string) : bool :=
  match values with
  | [] => true
  | value :: rest =>
      if bool_decide (value = "") || bool_decide (value = previous) || negb (validateStatusHint value) then false
      else status_tools_loop value rest
  end.
Definition validateStatusToolIDs (values : list string) : bool :=
  negb (128 <? length values) && is_sorted values && status_tools_loop "" values.

Fixpoint status_executors_loop (previous : string) (values : list Executor) : bool :=
  match values with
  | [] => true
  | ExecutorOther _ :: _ => false
  | value :: rest =>
      if str_leb (executor_string value) previous then false else status_executors_loop (executor_string value) rest
  end.
Definition validateStatusExecutors (values : list Executor) : bool := negb (8 <? length values) && status_executors_loop "" values.

Definition Status_Validate (status : Status) : result unit :=
  _ ← reject_if (bool_decide (StatusPlatform status = "") && bool_decide (StatusArchitecture status = "")
        && (StatusLogicalCPUCount status =? 0)%Z && (StatusTotalMemoryBytes status =? 0)%Z) [WorkerErrInvalidStatus];
  reject_if (negb (validateStatusHint (StatusPlatform status)) || negb (validateStatusHint (StatusArchitecture status))
    || (4096 <? StatusLogicalCPUCount status)%Z || negb (validateStatusToolIDs (StatusToolIDs status))
    || negb (validateStatusExecutors (StatusSupportedExecutors status))) [WorkerErrInvalidStatus].

Definition supportedExecutorsToRemoteProto (values : list Executor) : list Z :=
  omap (λ value, match value with ExecutorNative => Some 1%Z | ExecutorContainer => Some 2%Z | ExecutorOther _ => None end) values.

(** ** RemoteHandler *)

Context (status : Status) (error_text : list sentinel → string) (proto_size : ManifestMessage → Z) `{Zstd}.
Context (generated : result string).

Definition maximumRemoteListLimit : Z := 500.
Definition maximumPreflightDigests : nat := Z.to_nat 8192.

Definition is_any (err : list sentinel) (targets : list sentinel) : bool := existsb (errors_is err) targets.

Definition invalid_errors : list sentinel :=
  [JobErrInvalidID; JobErrInvalidSpec; JobErrInvalidJob; JobErrInvalidState; JobErrInvalidTransition; JobErrInvalidProgress;
   LogErrInvalidPage; LogErrInvalidRecord; SnapshotErrInvalidDigest; SnapshotErrInvalidManifest; SnapshotErrUnsafePath;
   TransferErrInvalidChunk; TransferErrUnsupportedEncoding].
Definition missing_errors : list sentinel := [JobErrNotFound; LogErrNotFound; ExecErrNotFound; ArtifactErrNotFound].
Definition conflict_errors : list sentinel := [JobErrConflict; ExecErrNotClaimable; ExecErrOwnerMismatch; ExecErrAttemptCompleted].
Definition state_errors : list sentinel :=
  [WorkerErrSnapshotsDisabled; WorkerErrSnapshotIncomplete; CacheErrQuotaExceeded; CacheErrReservationLimit;
   WorkerErrArtifactsDisabled; WorkerErrArtifactsNotReady].

Definition remoteErrorResponse (err : list sentinel) : RemoteResponse :=
  if is_any err invalid_errors then remoteFailure CodeInvalidArgument (error_text err)
  else if is_any err missing_errors then remoteFailure CodeNotFound (error_text err)
  else if is_any err conflict_errors then remoteFailure CodeConflict (error_text err)
  else if errors_is err WorkerErrJobTerminal then remoteFailure CodeJobTerminal (error_text err)
  else if is_any err state_errors then remoteFailure CodeConflict (error_text err)
  else remoteFailure CodeInternal "internal worker error".

Definition invalid_argument (message : string) : Run Host RemoteResponse := mret (remoteFailure CodeInvalidArgument message).
Definition reply (r : RemoteResult) : Run Host RemoteResponse := mret (result_response r).

Definition getWorkerStatus (request : option unit) : Run Host RemoteResponse :=
  match request with
  | None => invalid_argument "worker status request is required"
  | Some _ =>
      match Status_Validate status with
      | Err _ => mret (remoteFailure CodeConflict "worker status is unavailable")
      | Ok _ => reply (RResGetWorkerStatus (Some (MkWorkerStatus (StatusPlatform status) (StatusArchitecture status)
          (StatusLogicalCPUCount status) (StatusTotalMemoryBytes status) (StatusToolIDs status)
          (supportedExecutorsToRemoteProto (StatusSupportedExecutors status)))))
      end
  end.

Definition acknowledgeJobArtifacts (request : option AcknowledgeRequest) : Run Host RemoteResponse :=
  match request with
  | None => invalid_argument "artifact acknowledgment is required"
  | Some request =>
      id ← run_lift (ParseID (ak_job_id request));
      _ ← MarkArtifactsRetrieved id;
      reply (RResAcknowledge (Some id))
  end.

Definition getJobArtifacts (request : option GetJobArtifactsRequest) : Run Host RemoteResponse :=
  match request with
  | None => invalid_argument "artifact request is required"
  | Some request =>
      id ← run_lift (ParseID (ga_job_id request));
      result ← ReadArtifacts id;
      jobMessage ← run_lift (JobToRemoteProto (ja_Job result));
      manifest ← run_lift (ManifestToRemoteProto sha256 proto_size (BundleManifest (ja_Bundle result)));
      reply (RResGetJobArtifacts (Some (MkArtifactsResult (Some jobMessage) (Some manifest)
        (unix_nano (CollectedAt (ja_Bundle result))))))
  end.

Definition getArtifactChunk (request : option GetArtifactChunkRequest) : Run Host RemoteResponse :=
  match request with
  | None => invalid_argument "artifact chunk request is required"
  | Some request =>
      id ← run_lift (ParseID (gc_job_id request));
      digest ← run_lift (ParseDigest (gc_digest request));
      accepted ← run_lift (ChunkEncodingsFromRemoteProto (gc_accepted_encodings request));
      contents ← ReadArtifactChunk id digest;
      _ ← run_lift (reject_if (bool_decide (contents = []) || (Snapshot.MaximumChunkBytes <? Z.of_nat (length contents))%Z
            || negb (bool_decide (Sum sha256 contents = digest))) [SnapshotErrInvalidDigest]);
      encoded ← run_lift (EncodeChunk contents accepted);
      encoding ← run_lift (ChunkEncodingToRemoteProto (Encoding encoded));
      reply (RResGetArtifactChunk (Some (MkChunkTransfer digest (Data encoded) encoding (UncompressedSize encoded))))
  end.

Definition submit_job (requestedID : option string) (spec : Spec) (request : SubmitJobRequest) : Run Host Job :=
  match sj_snapshot request with
  | None =>
      match requestedID with
      | Some id => on_jobs (submitWithID id spec)
      | None => on_jobs (Submit generated spec)
      end
  | Some message =>
      manifest ← run_lift (ManifestFromRemoteProto sha256 proto_size (Some message));
      manifestID ← run_lift (Manifest_ID sha256 manifest);
      finally (ReleaseSnapshot manifestID) (
        match requestedID with
        | Some id => SubmitSnapshotWithID id spec manifest (sj_working_subdirectory request)
        | None => SubmitSnapshot generated spec manifest (sj_working_subdirectory request)
        end)
  end.

Definition handle_submit (request : option SubmitJobRequest) : Run Host RemoteResponse :=
  match request with
  | None => invalid_argument "submit request is required"
  | Some request =>
      spec ← run_lift (SpecFromRemoteProto (sj_spec request));
      requestedID ← run_lift (if bool_decide (trim_space (sj_job_id request) = "") then Ok None
                              else (id ← ParseID (sj_job_id request); Ok (Some id)));
      if is_nil (sj_snapshot request) && negb (bool_decide (sj_working_subdirectory request = ""))
      then invalid_argument "working subdirectory requires a project snapshot"
      else
        value ← submit_job requestedID spec request;
        message ← run_lift (JobToRemoteProto value);
        reply (RResSubmitJob (Some (Some message)))
  end.

Fixpoint parse_digests (values : list string) : result (list string) :=
  match values with
  | [] => Ok []
  | value :: rest => digest ← ParseDigest value; digests ← parse_digests rest; Ok (digest :: digests)
  end.

Definition checkSnapshot (request : option CheckSnapshotRequest) : Run Host RemoteResponse :=
  match request with
  | None => invalid_argument "snapshot preflight requires chunks"
  | Some request =>
      if bool_decide (cs_chunk_digests request = []) || (maximumPreflightDigests <? length (cs_chunk_digests request))
      then invalid_argument "snapshot preflight requires chunks"
      else
        manifestID ← run_lift (ParseDigest (cs_manifest_id request));
        digests ← run_lift (parse_digests (cs_chunk_digests request));
        _ ← ReserveSnapshot manifestID digests;
        missing ← MissingChunks digests;
        accepted ← run_lift (ChunkEncodingsToRemoteProto SupportedChunkEncodings);
        reply (RResCheckSnapshot (Some (MkCheckSnapshotResult missing accepted)))
  end.

Definition putChunk (request : option ChunkTransfer) : Run Host RemoteResponse :=
  match request with
  | None => invalid_argument "encoded snapshot chunk is required"
  | Some request =>
      if bool_decide (ct_data request = []) || (MaximumEncodedChunkBytes <? Z.of_nat (length (ct_data request)))%Z
      then invalid_argument "encoded snapshot chunk is required"
      else
        digest ← run_lift (ParseDigest (ct_digest request));
        encoding ← run_lift (ChunkEncodingFromRemoteProto (ct_encoding request));
        contents ← run_lift (DecodeChunk (MkWireChunk encoding (ct_data request) (ct_uncompressed_size request)));
        _ ← run_lift (reject_if (negb (bool_decide (Sum sha256 contents = digest))) [SnapshotErrInvalidDigest]);
        _ ← PutChunk digest contents;
        reply (RResPutChunk (Some digest))
  end.

Definition handle_get (request : option GetJobRequest) : Run Host RemoteResponse :=
  match request with
  | None => invalid_argument "get request is required"
  | Some request =>
      id ← run_lift (ParseID (gj_job_id request));
      value ← on_jobs (Service_Get id);
      message ← run_lift (JobToRemoteProto value);
      reply (RResGetJob (Some (Some message)))
  end.

Fixpoint job_messages (values : list Job) : result (list (option JobMessage)) :=
  match values with
  | [] => Ok []
  | value :: rest => message ← JobToRemoteProto value; messages ← job_messages rest; Ok (Some message :: messages)
  end.

Definition handle_list (request : option ListJobsRequest) : Run Host RemoteResponse :=
  match request with
  | None => invalid_argument "job list limit exceeded"
  | Some request =>
      if (maximumRemoteListLimit <? lj_limit request)%Z then invalid_argument "job list limit exceeded"
      else
        states ← run_lift (StatesFromRemoteProto (lj_states request));
        values ← on_jobs (Service_List (MkListOptions states (lj_limit request)));
        messages ← run_lift (job_messages values);
        reply (RResListJobs (Some messages))
  end.

Definition handle_cancel (request : option CancelJobRequest) : Run Host RemoteResponse :=
  match request with
  | None => invalid_argument "cancel request is required"
  | Some request =>
      id ← run_lift (ParseID (cj_job_id request));
      value ← on_jobs (Cancel id);
      message ← run_lift (JobToRemoteProto value);
      reply (RResCancelJob (Some (Some message)))
  end.

Definition handle_logs (request : option ReadJobLogsRequest) : Run Host RemoteResponse :=
  match request with
  | None => invalid_argument "job log limit exceeded"
  | Some request =>
      if (MaximumPageLimit <? rl_limit request)%Z then invalid_argument "job log limit exceeded"
      else
        id ← run_lift (ParseID (rl_job_id request));
        result ← on_jobs (ReadLogs id (rl_after_sequence request) (rl_limit request));
        jobMessage ← run_lift (JobToRemoteProto (LogsJob result));
        records ← run_lift (LogRecordsToRemoteProto (Records (LogsPage result)));
        reply (RResReadJobLogs (Some (MkLogsResult (Some jobMessage) (map Some records) (HasMore (LogsPage result)))))
  end.

Definition dispatch (operation : option RemoteOperation) : Run Host RemoteResponse :=
  match operation with
  | Some (ROpSubmitJob r) => handle_submit r
  | Some (ROpGetJob r) => handle_get r
  | Some (ROpListJobs r) => handle_list r
  | Some (ROpCancelJob r) => handle_cancel r
  | Some (ROpReadJobLogs r) => handle_logs r
  | Some (ROpCheckSnapshot r) => checkSnapshot r
  | Some (ROpPutChunk r) => putChunk r
  | Some (ROpGetJobArtifacts r) => getJobArtifacts r
  | Some (ROpGetArtifactChunk r) => getArtifactChunk r
  | Some (ROpAcknowledge r) => acknowledgeJobArtifacts r
  | Some (ROpGetWorkerStatus r) => getWorkerStatus r
  | None => invalid_argument "unsupported remote operation"
  end.

(** The response to a request and the state it leaves; an error of an operation is
    the response [remoteErrorResponse] makes of it. *)
Definition Handle (request : RemoteRequest) (h : Host) : RemoteResponse * Host :=
  let '(r, h') := dispatch (rq_operation request) h in
  (match r with Ok response => response | Err e => remoteErrorResponse e end, h').

End Service.

(** ** What serving keeps *)

(** The job tables and the content store of a daemon, with whatever else uses them. *)
Definition host_ok `{UnicodeCase} (sha256 : bytes → bytes) (h : Host) : Prop :=
  world_ok worker_inv (h_jobs h) ∧ world_ok (vault_ok sha256) (h_content h).

Section Keeps.
Context `{UnicodeCase} (sha256 : bytes → bytes) (maximumBytes : Z) (json_length : Manifest → Z) (stateDir : string).

Lemma jobs_stay {A} (m : M Database A) : keeps worker_inv m → stays (host_ok sha256) (on_jobs m).
Proof. intros Hm. apply stays_zoom with (J := world_ok worker_inv); [by intros h [??]|by intros h w [??]|by apply stays_world]. Qed.
Lemma content_stay {A} (m : M Vault A) : keeps (vault_ok sha256) m → stays (host_ok sha256) (on_content m).
Proof. intros Hm. apply stays_zoom with (J := world_ok (vault_ok sha256)); [by intros h [??]|by intros h w [??]|by apply stays_world]. Qed.
Lemma spaces_stay {A} (m : M (gmap string Tree) A) : stays (host_ok sha256) (on_spaces m).
Proof. by apply stays_zoom with (J := λ _, True); [|intros h w [??]|]. Qed.
Lemma home_stay {A} (m : M Tree A) : stays (host_ok sha256) (on_home m).
Proof. by apply stays_zoom with (J := λ _, True); [|intros h w [??]|]. Qed.

Lemma io_stay : stays (host_ok sha256) private_io.
Proof. apply spaces_stay. Qed.
Lemma tx_stay {A} (t : Tx Database A) : preserves worker_inv t → stays (host_ok sha256) (on_jobs (atomically t)).
Proof. intros Ht. by apply jobs_stay, atomically_keeps. Qed.
Lemma index_stay {A} (t : Tx CacheDB A) : preserves (index_sound sha256) t → stays (host_ok sha256) (on_content (on_index t)).
Proof. intros Ht. by apply content_stay, index_keeps. Qed.
#[local] Hint Resolve spaces_stay home_stay io_stay : hop_stays.

Lemma get_stay id : stays (host_ok sha256) (Manager_Get sha256 json_length id).
Proof.
  apply index_stay. intros d a d' Hd Hrun. unfold Artifact_Get in Hrun. invert_tx Hrun.
  destruct (artifact_rows _ !! id); [|done]. by apply tx_lift_ok in Hrun as [_ ->].
Qed.
Lemma mark_stay id : stays (host_ok sha256) (Manager_MarkRetrieved id).
Proof.
  unfold Manager_MarkRetrieved. apply stays_bind; [stays|intros _]. apply stays_bind; [apply content_stay; auto with hop|intros at_].
  apply index_stay. intros d a d' Hd Hrun. unfold MarkRetrieved in Hrun. by invert_tx Hrun.
Qed.
#[local] Hint Resolve get_stay mark_stay : hop_stays.

Lemma read_stay digest : stays (host_ok sha256) (on_content (Cas_Read sha256 digest)).
Proof. apply content_stay, read_keeps. Qed.
Lemma missing_stay digests : stays (host_ok sha256) (on_content (Missing sha256 digests)).
Proof. apply content_stay, missing_keeps. Qed.
Lemma put_stay digest contents : stays (host_ok sha256) (on_content (Cas_Put sha256 maximumBytes digest contents)).
Proof. apply content_stay, put_keeps. Qed.
Lemma begin_stay : stays (host_ok sha256) (on_content BeginUse).
Proof. apply content_stay, (uses_keep sha256 maximumBytes). Qed.
Lemma end_stay : stays (host_ok sha256) (on_content (EndUse maximumBytes)).
Proof. apply content_stay, uses_keep. Qed.
Lemma reserve_stay manifestID digests : stays (host_ok sha256) (on_content (Reserve maximumBytes manifestID digests)).
Proof. apply content_stay, reserve_keeps. Qed.
Lemma release_stay manifestID : stays (host_ok sha256) (on_content (ReleaseReservation maximumBytes manifestID)).
Proof. apply content_stay, release_keeps. Qed.
Lemma clock_stay : stays (host_ok sha256) (on_content now).
Proof. apply content_stay, now_keeps. Qed.
Lemma get_job_stay id : stays (host_ok sha256) (on_jobs (atomically (Repo_Get id))).
Proof. apply tx_stay, query_inv, get_query. Qed.
#[local] Hint Resolve read_stay missing_stay put_stay begin_stay end_stay reserve_stay release_stay clock_stay get_job_stay : hop_stays.

Lemma copy_stay chunks written : stays (host_ok sha256) (copy_chunks sha256 chunks written).
Proof. revert written. induction chunks as [|c chunks IH]; intros written; simpl; stays. Qed.
#[local] Hint Resolve copy_stay : hop_stays.
Lemma files_stay files (t : Tree) : stays (host_ok sha256) (materialize_files sha256 files t).
Proof. revert t. induction files as [|f files IH]; intros t; simpl; stays. Qed.
#[local] Hint Resolve files_stay : hop_stays.
Lemma materialize_stay id manifest sub : stays (host_ok sha256) (Materialize sha256 stateDir id manifest sub).
Proof. unfold Materialize. stays. Qed.
Lemma remove_stay id : stays (host_ok sha256) (RemoveWorkspace stateDir id).
Proof. unfold RemoveWorkspace. stays. Qed.
#[local] Hint Resolve materialize_stay remove_stay : hop_stays.

Lemma submit_stay id spec : stays (host_ok sha256) (on_jobs (submitWithID id spec)).
Proof. apply jobs_stay, submit_keeps. Qed.
#[local] Hint Resolve submit_stay : hop_stays.

Lemma submit_snapshot_stay snapshots id spec manifest sub :
  stays (host_ok sha256) (SubmitSnapshotWithID sha256 maximumBytes stateDir snapshots id spec manifest sub).
Proof. unfold SubmitSnapshotWithID. stays. Qed.
#[local] Hint Resolve submit_snapshot_stay : hop_stays.
Lemma artifacts_stay artifacts id : stays (host_ok sha256) (ReadArtifacts sha256 json_length artifacts id).
Proof. unfold ReadArtifacts. stays. Qed.
#[local] Hint Resolve artifacts_stay : hop_stays.

Context (files : string → option LogStore.File) `{Zstd}.

Lemma read_records_keep items : keeps (λ k, worker_inv (disk_db k)) (read_records items).
Proof.
  induction items as [|item items IH]; simpl; [auto with hop|]. apply bind_keeps; [auto with hop|intros _]. apply bind_keeps.
  - apply try_keeps, atomically_keeps. intros k a k' Hk E. destruct (disk_file k); [|done]. cbv zeta in E. case_bool_decide; [|done]. by injection E as <- <-.
  - intros [bs|e]; [|auto with hop]. apply bind_keeps; [done|auto with hop].
Qed.

Lemma log_read_keeps id after_ limit : keeps (λ k, worker_inv (disk_db k)) (Log_Read id after_ limit).
Proof.
  unfold Log_Read. apply bind_keeps; [auto with hop|intros _]. apply bind_keeps.
  - apply atomically_keeps. intros k a k' Hk E. destruct (Log_List _ _ _ (disk_db k)) as [[p d]|] eqn:El; [|done]. injection E as <- <-.
    unfold Log_List in El. by invert_tx El.
  - intros listed. case_match; [auto with hop|]. apply bind_keeps; [auto with hop|intros _]. apply bind_keeps.
    + apply atomically_keeps. intros k a k' Hk E. destruct (disk_file k); [|done]. by injection E as <- <-.
    + intros _. apply bind_keeps; [apply read_records_keep|auto with hop].
Qed.

Lemma log_files_keep id after_ limit : keeps worker_inv (log_reader_read (LogReader := log_files files) id after_ limit).
Proof.
  intros w r w' Hst Hi. cbn [log_reader_read log_files]. destruct (Log_Read _ _ _ _) as [r1 w1] eqn:E. intros [= <- <-]. split; [|done].
  eapply log_read_keeps in E as [HI _]; [exact HI| |exact Hi]. intros n k. apply Hst.
Qed.
Context (snapshots artifacts : bool) (status : Status) (error_text : list sentinel → string) (proto_size : ManifestMessage → Z) (generated : result string).

Lemma logs_stay id after_ limit : stays (host_ok sha256) (on_jobs (@ReadLogs _ (log_files files) id after_ limit)).
Proof.
  apply jobs_stay. unfold ReadLogs. apply bind_keeps; [apply atomically_keeps, query_inv, get_query|intros j].
  apply bind_keeps; [apply try_keeps, Exec_Get_keeps|intros [attempt|e]]; [|case_match; auto with hop].
  apply bind_keeps; [apply log_files_keep|auto with hop].
Qed.

Lemma service_stay :
  (∀ id, stays (host_ok sha256) (on_jobs (Service_Get id))) ∧ (∀ options, stays (host_ok sha256) (on_jobs (Service_List options))) ∧
  (∀ id, stays (host_ok sha256) (on_jobs (Cancel id))) ∧ (∀ spec, stays (host_ok sha256) (on_jobs (Submit generated spec))).
Proof.
  split_and!.
  - intros id. apply jobs_stay, bind_keeps; [apply atomically_keeps, query_inv, get_query|intros j].
    unfold withProgress. apply bind_keeps; [apply atomically_keeps, query_inv, get_progress_query|auto with hop].
  - intros options. apply jobs_stay, bind_keeps; [apply atomically_keeps, query_inv, list_query|apply with_progress_keeps].
  - intros id. apply jobs_stay, cancel_keeps.
  - intros spec. apply jobs_stay. unfold Submit. apply bind_keeps; [auto with hop|intros id]. apply submit_keeps.
Qed.

(** C16 A worker serves any request of a paired orchestrator, well-formed or not, without
    breaking its job tables or its content store ([host_ok]).  Of the store this says that
    every file is a content that its name names (it has that hash, and 1 byte to 512 KiB),
    that every index entry is well-formed and has the size of a content its digest names,
    and that the reservations are within their limits; an entry may be without its file
    and a file without its entry.  Whatever fails meanwhile and whatever the dispatcher,
    the runners and other connections do that keeps the invariants, every request leaves
    them in place. *)
Theorem handler_keeps_invariants request h : host_ok sha256 h →
  host_ok sha256 (@Handle _ (log_files files) sha256 maximumBytes json_length stateDir snapshots artifacts status error_text proto_size _ generated request h).2.
Proof.
  intros Hh. unfold Handle.
  assert (stays (host_ok sha256) (@dispatch _ (log_files files) sha256 maximumBytes json_length stateDir snapshots artifacts status proto_size _ generated (rq_operation request))) as Hd.
  2: { specialize (Hd h Hh). by destruct (dispatch _ _ _ _ _ _ _ _ _ _ h). }
  destruct service_stay as (Hget & Hlist & Hcancel & Hsubmit). unfold dispatch.
  destruct (rq_operation request) as [[]|];
    unfold handle_submit, submit_job, handle_get, handle_list, handle_cancel, handle_logs, checkSnapshot, putChunk, getJobArtifacts,
      getArtifactChunk, acknowledgeJobArtifacts, getWorkerStatus, ReadArtifactChunk, MarkArtifactsRetrieved, ReadJobChunk, SubmitSnapshot,
      ReserveSnapshot, ReleaseSnapshot, MissingChunks, PutChunk, invalid_argument, reply; stays; auto using logs_stay.
Qed.
End Keeps.

(** ** Submitting with a snapshot *)

(** Workspaces nobody else writes to, with the failures [f], while the jobs are [w]. *)
Definition own_spaces (f : nat → bool) (w : World Database) (h : Host) : Prop :=
  still (h_spaces h) ∧ w_fault (h_spaces h) = f ∧ h_jobs h = w.

Section Submission.
Context `{UnicodeCase} (sha256 : bytes → bytes) (maximumBytes : Z) (stateDir : string) (f : nat → bool) (jobs : World Database).

Lemma own_other {A W} (get : Host → W) (put : W → Host → Host) (m : W → result A * W) :
  (∀ h w, h_spaces (put w h) = h_spaces h ∧ h_jobs (put w h) = h_jobs h) → stays (own_spaces f jobs) (zoom get put m).
Proof. intros Hput. apply stays_zoom with (J := λ _, True); [done| |by intros ??]. intros h w Hh _. unfold own_spaces. destruct (Hput h w) as [-> ->]. done. Qed.
Lemma own_content {A} (m : M Vault A) : stays (own_spaces f jobs) (on_content m).
Proof. by apply own_other. Qed.
Lemma own_atomically {A} (t : Tx (gmap string Tree) A) : stays (own_spaces f jobs) (on_spaces (atomically t)).
Proof.
  apply stays_zoom with (J := λ w, still w ∧ w_fault w = f); [by intros h (?&?&?)|by intros h w (?&?&?) []|]. intros w [Hs Hf]. unfold atomically, accessed.
  repeat case_match; done.
Qed.
Lemma own_io : stays (own_spaces f jobs) private_io.
Proof. apply own_atomically. Qed.
#[local] Hint Resolve own_content own_atomically own_io : hop_stays.
Lemma own_copy chunks written : stays (own_spaces f jobs) (copy_chunks sha256 chunks written).
Proof. revert written. induction chunks as [|c chunks IH]; intros written; simpl; stays. Qed.
#[local] Hint Resolve own_copy : hop_stays.
Lemma own_files files (t : Tree) : stays (own_spaces f jobs) (materialize_files sha256 files t).
Proof. revert t. induction files as [|file files IH]; intros t; simpl; stays. Qed.
#[local] Hint Resolve own_files : hop_stays.
Lemma own_materialize id manifest sub : stays (own_spaces f jobs) (Materialize sha256 stateDir id manifest sub).
Proof. unfold Materialize. stays. Qed.

Lemma content_spaces {A} (m : M Vault A) h (Q : result A → Host → Prop) :
  (∀ r w, Q r (MkHost (h_jobs h) w (h_spaces h) (h_home h))) → runs (on_content m) h Q.
Proof. intros HQ. apply runs_zoom. apply HQ. Qed.

Lemma remove_runs id target h : still (h_spaces h) → w_fault (h_spaces h) = f → ID_Valid id = true → JobWorkspacePath stateDir id = Ok target →
  runs (RemoveWorkspace stateDir id) h (λ r h',
    (w_db (h_spaces h') = delete id (w_db (h_spaces h)) ∨
     w_db (h_spaces h') = w_db (h_spaces h) ∧ ∃ n, f n = true)).
Proof.
  intros Hs Hf Hid Hpath. unfold RemoveWorkspace. apply runs_bind, runs_lift. rewrite Hid. cbn [negb reject_if].
  apply runs_bind, runs_lift. rewrite Hpath. apply runs_zoom. unfold runs, atomically, next_db. rewrite Hs.
  destruct (w_fault (h_spaces h) (w_access (h_spaces h))) eqn:E; cbn; rewrite ?Hs. 2: by left. right. split; [done|]. exists (w_access (h_spaces h)). by rewrite <- Hf.
Qed.

(** C6 A submission with a snapshot is all or nothing on the worker's disk, whatever
    fails on the way.  If it is accepted, the job was created to run in a new
    workspace that holds exactly the files of the manifest, by the job service and in
    the state it was in.  If it is refused, no
    workspace has appeared or changed, unless removing the new one failed too. *)
Theorem snapshot_submission id spec manifest sub h : own_spaces f jobs h →
  runs (SubmitSnapshotWithID sha256 maximumBytes stateDir true id spec manifest sub) h (λ r h',
    match r with
    | Ok value => w_db (h_spaces h) !! id = None ∧ ∃ t target, JobWorkspacePath stateDir id = Ok target ∧
        w_db (h_spaces h') = <[id := t]> (w_db (h_spaces h)) ∧ holds_files sha256 (Files manifest) t ∧
        submitWithID id (with_directory spec (if bool_decide (sub = "") then target else filepath_Join target sub)) jobs = (Ok value, h_jobs h')
    | Err _ => w_db (h_spaces h') = w_db (h_spaces h) ∨
        w_db (h_spaces h) !! id = None ∧ delete id (w_db (h_spaces h')) = w_db (h_spaces h) ∧ ∃ n, f n = true
    end).
Proof.
  intros Hown. unfold SubmitSnapshotWithID. cbn [negb reject_if]. apply runs_bind, runs_lift.
  apply runs_bind, runs_lift. destruct (ID_Valid id) eqn:Hid; cbn [negb reject_if]; [|by left].
  apply runs_bind, runs_lift. destruct (Spec_Validate spec); [|by left].
  apply runs_bind, runs_lift. destruct (Manifest_Validate manifest); [|by left].
  apply runs_bind, runs_lift. destruct (if bool_decide (sub = "") then _ else _); [|by left].
  apply runs_bind, content_spaces. intros [[]|e] w0; [|by left].
  set (h0 := MkHost _ _ _ _). assert (own_spaces f jobs h0) as Hown0 by exact Hown. change (h_spaces h) with (h_spaces h0). clearbody h0. clear Hown h.
  apply runs_finally. apply runs_bind, content_spaces. intros [missing|e] w1; [|apply content_spaces; intros ? w; by left].
  set (h1 := MkHost _ _ _ _). assert (own_spaces f jobs h1) as Hown1 by exact Hown0. change (h_spaces h0) with (h_spaces h1). clearbody h1. clear Hown0 h0.
  apply runs_bind, runs_lift. case_bool_decide; cbn [negb reject_if]; [|apply content_spaces; intros ? w; by left].
  apply runs_bind. eapply runs_mono; [apply runs_stays; [apply materialize_runs, Hown1|apply own_materialize|exact Hown1]|].
  cbn. intros [dir|e] h2 [Hm Hown2]; [|apply content_spaces; intros ? w; left; exact Hm].
  destruct Hm as (Hnew & t & target & Hpath & -> & HD & Hholds).
  set (dir := if bool_decide (sub = "") then target else _). apply runs_bind, runs_attempt, runs_zoom.
  destruct (submitWithID id (with_directory spec dir) (h_jobs h2)) as [[accepted|e] wj] eqn:Hsub; (eapply runs_eq; [exact Hsub|]); cbv beta iota.
  - apply runs_ret, content_spaces. intros _ w. split; [done|]. exists t, target. split_and!; try done. rewrite <- (proj2 (proj2 Hown2)). exact Hsub.
  - apply runs_bind, runs_attempt. eapply runs_mono; [apply (remove_runs id target); [apply Hown2..|done|done]|]. cbv beta. intros r h3 Hr.
    apply runs_fail, content_spaces. intros _ w. cbn in Hr |- *. rewrite HD in Hr. destruct Hr as [->|[-> Hf]]; [left; by rewrite delete_insert_id|right].
    split; [done|]. split; [by rewrite delete_insert_id|done].
Qed.
End Submission.

(** ** Serving outputs *)

Lemma run_bind_ok {S A B} (m : Run S A) (f : A → Run S B) s b s' :
  (m ≫= f) s = (Ok b, s') ↔ ∃ a s1, m s = (Ok a, s1) ∧ f a s1 = (Ok b, s').
Proof.
  unfold mbind, Run_bind. destruct (m s) as [[a|e] s1]; split.
  - eauto.
  - intros (a' & s2 & [= -> ->] & ?). done.
  - done.
  - intros (a' & s2 & ? & _). done.
Qed.

Lemma run_lift_ok {S A} (r : result A) (s : S) a s' : run_lift r s = (Ok a, s') ↔ r = Ok a ∧ s' = s.
Proof. unfold run_lift. split; [by intros [= -> ->]|by intros [-> ->]]. Qed.

Lemma jobs_ok {A} (m : M Database A) h a h' : on_jobs m h = (Ok a, h') → ∃ w, m (h_jobs h) = (Ok a, w) ∧ h' = MkHost w (h_content h) (h_spaces h) (h_home h).
Proof. unfold on_jobs, zoom. destruct (m (h_jobs h)) as [r w]. intros [= -> <-]. eauto. Qed.
Lemma content_ok {A} (m : M Vault A) h a h' : on_content m h = (Ok a, h') → ∃ w, m (h_content h) = (Ok a, w) ∧ h' = MkHost (h_jobs h) w (h_spaces h) (h_home h).
Proof. unfold on_content, zoom. destruct (m (h_content h)) as [r w]. intros [= -> <-]. eauto. Qed.

Section Outputs.
Context `{UnicodeCase} (sha256 : bytes → bytes) (json_length : Manifest → Z) (artifacts : bool) `{ZL : ZstdLaws}.

(** The outputs of a job: the job has succeeded and declared outputs, and these are
    the ones collected for it. *)
Definition collected (h : Host) (id : string) (current : Job) (bundle : Bundle) : Prop :=
  (∃ d', Repo_Get id (w_db (h_jobs h)) = Ok (current, d')) ∧ JobState current = StateSucceeded ∧ Outputs (JobSpec current) ≠ [] ∧
  ∃ d', Artifact_Get sha256 json_length id (vault_db (w_db (h_content h))) = Ok (bundle, d').

Lemma atomically_found {DB A} (t : Tx DB A) w a w' : still w → atomically t w = (Ok a, w') → ∃ d', t (w_db w) = Ok (a, d') ∧ w_db w' = d' ∧ still w'.
Proof. intros Hs [(e & [=] & _)|(a' & d' & [= ->] & E & ->)]%atomically_cases. unfold next_db in E. rewrite Hs in E. eauto. Qed.

Lemma artifact_found id w bundle w' : still w → on_index (Artifact_Get sha256 json_length id) w = (Ok bundle, w') →
  (∃ d', Artifact_Get sha256 json_length id (vault_db (w_db w)) = Ok (bundle, d')) ∧ w_db w' = w_db w ∧ still w'.
Proof.
  intros Hs (v' & E & Hw & Hs')%atomically_found; [|done]. destruct (Artifact_Get _ _ _ _) as [[b d]|] eqn:Et; [|done]. injection E as -> <-.
  split_and!; [by eauto| |done]. rewrite Hw. unfold Artifact_Get in Et. invert_tx Et.
  destruct (artifact_rows _ !! id); [|done]. apply tx_lift_ok in Et as [_ ->]. by destruct (w_db w).
Qed.

Lemma read_artifacts_collected id h result h' : still (h_jobs h) → still (h_content h) →
  ReadArtifacts sha256 json_length artifacts id h = (Ok result, h') →
  collected h id (ja_Job result) (ja_Bundle result) ∧ w_db (h_content h') = w_db (h_content h) ∧ still (h_content h').
Proof.
  intros Hj Hc (u & h1 & [_ ->]%run_lift_ok & (current & h2 & Hget & Hrun)%run_bind_ok)%run_bind_ok.
  apply run_bind_ok in Hrun as ([] & h3 & [Hstate ->]%run_lift_ok & (bundle & h4 & Hb & Hrun)%run_bind_ok).
  apply run_bind_ok in Hrun as ([] & h5 & [_ ->]%run_lift_ok & Hret). injection Hret as <- <-.
  apply reject_if_ok in Hstate. reflect_bools. apply jobs_ok in Hget as (w & (d & Hget & _)%atomically_found & ->); [|done].
  apply content_ok in Hb as (wc & (Hb & Hw & Hs)%artifact_found & ->); [|done]. split; [|done]. split_and!; by eauto.
Qed.

(** C35 A worker hands out the chunks of a job's outputs only: a chunk it sends
    belongs to the outputs collected for that job, which has succeeded, and what the
    receiver decodes is content with the digest asked for. *)
Theorem artifact_chunk_guarded request h response h' chunk : still (h_jobs h) → still (h_content h) →
  getArtifactChunk sha256 json_length artifacts (Some request) h = (Ok response, h') →
  rs_result response = Some (RResGetArtifactChunk (Some chunk)) →
  ∃ id current bundle contents encoding, ParseID (gc_job_id request) = Ok id ∧ collected h id current bundle ∧
    ct_digest chunk ∈ Digests (BundleManifest bundle) ∧ ParseDigest (gc_digest request) = Ok (ct_digest chunk) ∧
    ChunkEncodingFromRemoteProto (ct_encoding chunk) = Ok encoding ∧
    DecodeChunk (MkWireChunk encoding (ct_data chunk) (ct_uncompressed_size chunk)) = Ok contents ∧
    Sum sha256 contents = ct_digest chunk.
Proof.
  intros Hj Hc Hrun Hres. cbn [getArtifactChunk] in Hrun.
  apply run_bind_ok in Hrun as (id & h1 & [Hid ->]%run_lift_ok & (digest & h2 & [Hdigest ->]%run_lift_ok & Hrun)%run_bind_ok).
  apply run_bind_ok in Hrun as (accepted & h3 & [_ ->]%run_lift_ok & (contents & h4 & Hread & Hrun)%run_bind_ok).
  apply run_bind_ok in Hrun as ([] & h5 & [Hsum ->]%run_lift_ok & (encoded & h6 & [Henc ->]%run_lift_ok & Hrun)%run_bind_ok).
  apply run_bind_ok in Hrun as (encoding & h7 & [Hwire ->]%run_lift_ok & Hret). injection Hret as <- <-. injection Hres as <-.
  apply reject_if_ok in Hsum. reflect_bools. apply encode_sound in Henc as (_ & _ & Hdec).
  apply run_bind_ok in Hread as (result & h8 & (Hart & Hw & Hs)%read_artifacts_collected & Hread); [|done..].
  apply run_bind_ok in Hread as ([] & h9 & [_ ->]%run_lift_ok & (bundle & h10 & Hb & Hread)%run_bind_ok).
  apply run_bind_ok in Hread as ([] & h11 & [Hin ->]%run_lift_ok & _). apply reject_if_ok in Hin. reflect_bools.
  apply content_ok in Hb as (wb & ([d Hb] & _)%artifact_found & _); [|done]. rewrite Hw in Hb. destruct Hart as (Hjob & Hstate & Hout & d2 & Hb2).
  exists id, (ja_Job result), bundle, contents, (Encoding encoded).
  split_and!; [done|split_and!; by eauto|done|done|by apply encoding_wire|by destruct encoded|done].
Qed.
End Outputs.

(** ** Answers *)

(** The answer an operation is given. *)
Definition answers (operation : option RemoteOperation) (r : RemoteResult) : bool :=
  match operation, r with
  | Some (ROpSubmitJob _), RResSubmitJob _ | Some (ROpGetJob _), RResGetJob _ | Some (ROpListJobs _), RResListJobs _
  | Some (ROpCancelJob _), RResCancelJob _ | Some (ROpReadJobLogs _), RResReadJobLogs _ | Some (ROpCheckSnapshot _), RResCheckSnapshot _
  | Some (ROpPutChunk _), RResPutChunk _ | Some (ROpGetJobArtifacts _), RResGetJobArtifacts _
  | Some (ROpGetArtifactChunk _), RResGetArtifactChunk _ | Some (ROpAcknowledge _), RResAcknowledge _
  | Some (ROpGetWorkerStatus _), RResGetWorkerStatus _ => true
  | _, _ => false
  end.

(** The code of an error, and the text that goes with it. *)
Definition error_code (err : list sentinel) : Z :=
  if is_any err invalid_errors then CodeInvalidArgument
  else if is_any err missing_errors then CodeNotFound
  else if is_any err conflict_errors then CodeConflict
  else if errors_is err WorkerErrJobTerminal then CodeJobTerminal
  else if is_any err state_errors then CodeConflict
  else CodeInternal.

Section Answers.
Context (operation : option RemoteOperation).

Definition fine (response : RemoteResponse) : Prop :=
  (∃ r, response = result_response r ∧ unknown_result [] None (Some r) = false ∧ answers operation r = true) ∨
  ∃ code message, response = remoteFailure code message ∧ code ∈ [CodeInvalidArgument; CodeConflict] ∧ message ≠ "".
Definition answered (m : Run Host RemoteResponse) : Prop := ∀ h response h', m h = (Ok response, h') → fine response.

Lemma answered_bind {A} (m : Run Host A) f : (∀ a, answered (f a)) → answered (m ≫= f).
Proof. intros Hf h response h' (a & h1 & _ & E)%run_bind_ok. by eapply Hf. Qed.
Lemma answered_lift {A} (r : result A) f : (∀ a, r = Ok a → answered (f a)) → answered (run_lift r ≫= f).
Proof. intros Hf h response h' (a & h1 & [Ha ->]%run_lift_ok & E)%run_bind_ok. by eapply Hf. Qed.
Lemma answered_reply r : unknown_result [] None (Some r) = false → answers operation r = true → answered (reply r).
Proof. intros Hu Ha h response h' [= <- <-]. left. eauto. Qed.
Lemma answered_failure code message : code ∈ [CodeInvalidArgument; CodeConflict] → message ≠ "" → answered (mret (remoteFailure code message)).
Proof. intros Hc Hm h response h' [= <- <-]. right. eauto. Qed.
End Answers.

Section Conformance.
Context `{UnicodeCase} `{LogReader} `{Zstd} (sha256 : bytes → bytes) (maximumBytes : Z) (json_length : Manifest → Z) (stateDir : string).
Context (snapshots artifacts : bool) (status : Status) (error_text : list sentinel → string) (proto_size : ManifestMessage → Z) (generated : result string).

Lemma existsb_zip_false {A} (f : nat * A → bool) l n : (∀ i x, x ∈ l → f (i, x) = false) → existsb f (zip (seq n (length l)) l) = false.
Proof.
  revert n. induction l as [|x l IH]; intros n Hf; [done|]. simpl. rewrite Hf by (by left). apply IH. intros i y Hy. apply Hf. by right.
Qed.
Lemma job_known j m i : JobToRemoteProto j = Ok m → hasUnknownJob [] i (Some m) = false.
Proof.
  unfold JobToRemoteProto. intros (u & _ & (spec & _ & E)%result_bind_ok)%result_bind_ok. destruct (stateToRemoteProtocol _); [|done].
  apply result_bind_ok in E as (p & _ & [= <-]). unfold hasUnknownJob, hasUnknown. cbn. rewrite !bool_decide_eq_false_2 by apply not_elem_of_nil.
  by destruct (JobFailure j).
Qed.
Lemma manifest_known manifest m : ManifestToRemoteProto sha256 proto_size manifest = Ok m → hasUnknownSnapshot [] (Some m) = false.
Proof.
  unfold ManifestToRemoteProto. intros (id & _ & (u & _ & [= <-])%result_bind_ok)%result_bind_ok. cbn.
  unfold hasUnknown. rewrite bool_decide_eq_false_2 by apply not_elem_of_nil. cbn. apply existsb_zip_false.
  intros i x (f & <- & _)%list_elem_of_In%in_map_iff. cbn. rewrite bool_decide_eq_false_2 by apply not_elem_of_nil. cbn.
  apply existsb_zip_false. intros k y (c & <- & _)%list_elem_of_In%in_map_iff. cbn. by rewrite bool_decide_eq_false_2 by apply not_elem_of_nil.
Qed.
Lemma records_known records : hasUnknownRecords [] (map Some records) = false.
Proof.
  apply existsb_zip_false. intros i x (r & <- & _)%list_elem_of_In%in_map_iff. cbn. by rewrite bool_decide_eq_false_2 by apply not_elem_of_nil.
Qed.
Lemma jobs_known values ms : job_messages values = Ok ms → hasUnknownJobs [] ms = false.
Proof.
  intros E. apply existsb_zip_false. intros i x. revert ms E. induction values as [|j values IH]; intros ms; simpl.
  { intros [= <-] ?%not_elem_of_nil. done. }
  intros (m & Hm & (rest & Hrest & [= <-])%result_bind_ok)%result_bind_ok [->|Hin]%elem_of_cons; [by eapply job_known|by eapply IH].
Qed.

Lemma dispatch_answered op : answered op (dispatch sha256 maximumBytes json_length stateDir snapshots artifacts status proto_size generated op).
Proof.
  assert (∀ message, message ≠ "" → answered op (invalid_argument message)) as Hbad by (intros; apply answered_failure; set_solver).
  destruct op as [[[r|]|[r|]|[r|]|[r|]|[r|]|[r|]|[r|]|[r|]|[r|]|[r|]|[r|]]|]; try by apply Hbad.
  - cbn. apply answered_lift. intros spec _. apply answered_lift. intros id _. case_match; [by apply Hbad|].
    apply answered_bind. intros value. apply answered_lift. intros m Hm. apply answered_reply; [|done]. exact (job_known _ _ 0 Hm).
  - cbn. apply answered_lift. intros id _. apply answered_bind. intros value. apply answered_lift. intros m Hm.
    apply answered_reply; [|done]. exact (job_known _ _ 0 Hm).
  - cbn. case_match; [by apply Hbad|]. apply answered_lift. intros states _. apply answered_bind. intros values. apply answered_lift.
    intros ms Hms. apply answered_reply; [|done]. exact (jobs_known _ _ Hms).
  - cbn. apply answered_lift. intros id _. apply answered_bind. intros value. apply answered_lift. intros m Hm.
    apply answered_reply; [|done]. exact (job_known _ _ 0 Hm).
  - cbn. case_match; [by apply Hbad|]. apply answered_lift. intros id _. apply answered_bind. intros logs. apply answered_lift. intros m Hm.
    apply answered_lift. intros records _. apply answered_reply; [|done]. cbn [unknown_result lr_job lr_records].
    by rewrite (job_known _ _ 0 Hm), records_known.
  - cbn. case_match; [by apply Hbad|]. apply answered_lift. intros id _. apply answered_lift. intros digests _.
    do 2 (apply answered_bind; intros ?). apply answered_lift. intros accepted _. by apply answered_reply.
  - cbn. case_match; [by apply Hbad|]. do 4 (apply answered_lift; intros ? _). apply answered_bind. intros _. by apply answered_reply.
  - cbn. apply answered_lift. intros id _. apply answered_bind. intros result. apply answered_lift. intros m Hm. apply answered_lift. intros manifest Hman.
    apply answered_reply; [|done]. cbn [unknown_result ar_job ar_artifacts]. by rewrite (job_known _ _ 0 Hm), (manifest_known _ _ Hman).
  - cbn. do 3 (apply answered_lift; intros ? _). apply answered_bind. intros contents. do 3 (apply answered_lift; intros ? _). by apply answered_reply.
  - cbn. apply answered_lift. intros id _. apply answered_bind. intros _. by apply answered_reply.
  - cbn. destruct (Status_Validate status); [by apply answered_reply|]. apply answered_failure; [set_solver|done].
Qed.

(** Whatever a paired orchestrator asks, it can make sense of the answer: either
    the result of the operation it asked for, without parts it does not know, or an
    error.  An error of the job service arrives with the code of its kind and its
    text; the text of an internal error stays on the worker. *)
Theorem answers_accepted request id h : (∀ e, error_text e ≠ "") →
  let answer := (Handle sha256 maximumBytes json_length stateDir snapshots artifacts status error_text proto_size generated request h).1 in
  match (dispatch sha256 maximumBytes json_length stateDir snapshots artifacts status proto_size generated (rq_operation request) h).1 with
  | Ok _ => (∃ r, rs_result answer = Some r ∧ answers (rq_operation request) r = true ∧
               check_response id (stamp_response id answer) = Ok (stamp_response id answer)) ∨
            (∃ code message, check_response id (stamp_response id answer) = Err [RemoteError code message] ∧
               code ∈ [CodeInvalidArgument; CodeConflict])
  | Err e => check_response id (stamp_response id answer) = Err [RemoteError (error_code e)
               (if bool_decide (error_code e = CodeInternal) then "internal worker error" else error_text e)]
  end.
Proof.
  intros Htext answer. subst answer. unfold Handle. destruct (dispatch _ _ _ _ _ _ _ _ _ _ h) as [[response|e] h'] eqn:E; cbn [fst].
  - destruct (dispatch_answered _ _ _ _ E) as [(r & -> & Hu & Ha)|(code & message & -> & Hc & Hm)].
    + left. exists r. split_and!; [done|done|]. by apply check_result.
    + right. exists code, message. split; [|done]. apply check_failure; [|done]. intros ->. set_solver.
  - unfold error_code, remoteErrorResponse. repeat case_match; by apply check_failure || (exfalso; reflect_bools).
Qed.
End Conformance.

(** ** Witnesses *)

Lemma first_is {A B} (p : A * B) a : p.1 = a → p = (a, p.2).
Proof. by destruct p; cbn; intros ->. Defined.

Definition no_logs (id : string) : option LogStore.File := None.
Definition sample_message (e : list sentinel) : string := "failed".
Definition idle_status : Status := MkStatus "linux" "amd64" 8 0 ["go"] [ExecutorContainer; ExecutorNative].

Lemma sample_host_ok : host_ok (H := ascii_case) sample_sha256 (sample_host ∅).
Proof.
  split; (split; [intros n d Hd; exact Hd|]); cbn.
  - apply empty_inv.
  - split; [split; intros digest row; cbn; rewrite lookup_empty; discriminate|]. split; [|split; [vm_compute; lia|apply map_Forall_empty]].
    apply map_Forall_singleton. split; [vm_compute; reflexivity|split; [reflexivity|discriminate]].
Qed.

(** A request to store a chunk. *)
Abbreviation put_request data := (MkRemoteRequest 6 "r" (Some (ROpPutChunk (Some (MkChunkTransfer (sample_digest "0") (bytes_of data) 0 3)))) []).

Lemma handler_keeps_invariants_witness :
  host_ok (H := ascii_case) sample_sha256 (@Handle ascii_case (log_files no_logs) sample_sha256 (2 ^ 30) short "/var/state" true true idle_status
    sample_message (λ _, 100%Z) marking_zstd (Ok sample_id) (put_request "abc") (sample_host ∅)).2.
Proof. apply (handler_keeps_invariants (H := ascii_case)), sample_host_ok. Defined.

Lemma snapshot_submission_witness :
  let '(r, h') := SubmitSnapshotWithID (H := ascii_case) sample_sha256 (2 ^ 30) "/var/state" true sample_id sample_spec sample_manifest "" (sample_host ∅) in
  ∃ value t, r = Ok value ∧ JobState value = StateQueued ∧ w_db (h_spaces h') = {[ sample_id := t ]} ∧ holds_files sample_sha256 [sample_file] t.
Proof.
  pose proof (snapshot_submission (H := ascii_case) sample_sha256 (2 ^ 30) "/var/state" (λ _, false) (h_jobs (sample_host ∅)) sample_id sample_spec
    sample_manifest "" (sample_host ∅) (conj (λ _ _, eq_refl) (conj eq_refl eq_refl))) as Hs. unfold runs in Hs.
  assert (∃ value, (SubmitSnapshotWithID (H := ascii_case) sample_sha256 (2 ^ 30) "/var/state" true sample_id sample_spec sample_manifest ""
    (sample_host ∅)).1 = Ok value ∧ JobState value = StateQueued) as (value & E & Hq) by (eexists; split; vm_compute; reflexivity).
  destruct (SubmitSnapshotWithID _ _ _ _ _ _ _ _ _) as [r h']. cbn [fst snd] in Hs, E. subst r.
  destruct Hs as (_ & t & target & _ & HD & Hh & _). exists value, t. split_and!; [reflexivity|exact Hq|exact HD|exact Hh].
Defined.

Definition served_host : Host :=
  MkHost (quiet (sample_db StateSucceeded) (λ _, sample_time))
    (quiet (MkVault (MkCacheDB ∅ ∅ {[ sample_id := MkArtifactRow (sample_digest "0") sample_manifest 3 5 None ]} ∅)
       {[ sample_digest "0" := bytes_of "abc" ]} (MkPins 0 ∅ ∅ ∅)) (λ _, sample_time)) (quiet ∅ (λ _, 9%Z)) (quiet ∅ (λ _, 9%Z)).
Definition served_chunk : ChunkTransfer := MkChunkTransfer (sample_digest "0") (bytes_of "abc") 1 3.

Lemma artifact_chunk_guarded_witness :
  ∃ current bundle, collected (H := ascii_case) sample_sha256 short served_host sample_id current bundle ∧
    ct_digest served_chunk ∈ Digests (BundleManifest bundle).
Proof.
  set (request := MkGetArtifactChunk sample_id (sample_digest "0") [1%Z]).
  assert ((getArtifactChunk (H := ascii_case) sample_sha256 short true (H1 := marking_zstd) (Some request) served_host).1
    = Ok (result_response (RResGetArtifactChunk (Some served_chunk)))) as E%first_is by (vm_compute; reflexivity).
  destruct (artifact_chunk_guarded (H := ascii_case) sample_sha256 short true (ZL := marking_laws) request served_host _ _ served_chunk
    (λ _ _, eq_refl) (λ _ _, eq_refl) E eq_refl) as (id & current & bundle & contents & encoding & Hid & Hc & Hin & _).
  assert (id = sample_id) as -> by (vm_compute in Hid; injection Hid as <-; reflexivity). exists current, bundle. exact (conj Hc Hin).
Defined.

Lemma answers_accepted_witness :
  check_response "r" (stamp_response "r" (@Handle ascii_case (log_files no_logs) sample_sha256 (2 ^ 30) short "/var/state" true true idle_status
    sample_message (λ _, 100%Z) marking_zstd (Ok sample_id) (MkRemoteRequest 6 "r" (Some (ROpCancelJob (Some (MkCancelJob sample_id)))) []) (sample_host ∅)).1)
  = Err [RemoteError CodeNotFound "failed"].
Proof.
  pose proof (@answers_accepted ascii_case (log_files no_logs) marking_zstd sample_sha256 (2 ^ 30) short "/var/state" true true idle_status
    sample_message (λ _, 100%Z) (Ok sample_id) (MkRemoteRequest 6 "r" (Some (ROpCancelJob (Some (MkCancelJob sample_id)))) []) "r" (sample_host ∅)) as Ha.
  cbn zeta in Ha. destruct (dispatch _ _ _ _ _ _ _ _ _ _ _) as [r h'] eqn:E in Ha.
  assert (r = Err [JobErrNotFound]) as -> by (apply (f_equal fst) in E; cbn [fst] in E; rewrite <- E; vm_compute; reflexivity).
  exact (Ha ltac:(discriminate)).
Defined.
