(* ===== verification/Selection.v ===== *)
(** * Choosing a worker (internal/app/orchestrator/remote_jobs.go)

    What a job needs of a worker and how workers are ranked: the pure part of the
    selection. *)

From S2P Require Import Prelude GoText JobModel JobStore Device Trust Remote.
From Stdlib Require Import Ascii.
Local Open Scope string_scope.
Local Open Scope nat_scope.
Local Open Scope list_scope.

(** ** Tools *)

(** [slices.Sort] and [slices.Compact]. *)
Fixpoint compact (l : list string) : list string :=
  match l with
  | [] => []
  | x :: rest => match compact rest with
                 | y :: tail => if bool_decide (x = y) then y :: tail else x :: y :: tail
                 | [] => [x]
                 end
  end.
Definition sort_compact (l : list string) : list string := compact (merge_sort String.le l).

(** [value[strings.LastIndex(value, "/")+1:]]. *)
Definition after_last_slash (l : bytes) : bytes := default l (last (split_bytes "/"%char l)).

(** [strings.TrimSuffix]. *)
Definition trim_suffix (s suffix : string) : string :=
  if has_suffix s suffix then str_of (take (String.length s - String.length suffix) (bytes_of s)) else s.

Section Tools.
Context `{UnicodeCase}.

Definition requiredToolID (executable : string) : string :=
  let value := trim_space executable in
  if bool_decide (value = "") || has_prefix value "./" || has_prefix value "../" then ""
  else
    let value := map (λ c, if bool_decide (c = "\"%char) then "/"%char else c) (bytes_of value) in
    let value := to_lower (trim_space (str_of (after_last_slash value))) in
    fold_left trim_suffix [".exe"; ".cmd"; ".bat"] value.

Definition requiredToolIDs (spec : Spec) : list string :=
  let executable := requiredToolID (Executable spec) in
  sort_compact (RequiredToolIDs spec ++ (if bool_decide (executable = "") then [] else [executable])).

End Tools.

Definition toolIDSetContains (values : list string) (required : string) : bool := bool_decide (required ∈ values).
Definition missingToolIDs (values required : list string) : list string :=
  filter (λ tool, toolIDSetContains values tool = false) required.

(** ** Compatibility *)

Definition incompatible : list sentinel := [OrchErrWorkerIncompatible].

Definition executorSetContains (values : list string) (required : Executor) : bool :=
  bool_decide (executor_string required ∈ values).

Definition workerExecutorCompatibility (supported : list string) (required : Executor) : result unit :=
  match required with
  | ExecutorNative =>
      if bool_decide (supported = []) then Ok tt else reject_if (negb (executorSetContains supported required)) incompatible
  | ExecutorContainer =>
      if bool_decide (supported = []) then Err incompatible
      else reject_if (negb (executorSetContains supported required)) incompatible
  | ExecutorOther _ => Err incompatible
  end.

Definition preflightWorkerTools `{UnicodeCase} (peer : Peer) (spec : Spec) (hints : option PeerHints) : result unit :=
  let required := requiredToolIDs spec in
  if bool_decide (required = []) then Ok tt
  else
    let check (reported : list string) := reject_if (negb (bool_decide (missingToolIDs reported required = []))) incompatible in
    match hints with
    | Some hints =>
        if negb (bool_decide (hint_ToolIDs hints = [])) then check (hint_ToolIDs hints)
        else if bool_decide (ToolIDs peer = []) then Ok tt else check (ToolIDs peer)
    | None => if bool_decide (ToolIDs peer = []) then Ok tt else check (ToolIDs peer)
    end.

(** ** Ranking *)

Definition resourceScore (logicalCPUCount totalMemoryBytes : Z) : Z :=
  wrap_uint64 (wrap_uint64 (logicalCPUCount * 1000) + totalMemoryBytes / 2 ^ 30).

Definition isAutomaticWorkerSelector `{UnicodeCase} (selector : string) : bool :=
  let value := to_lower (trim_space selector) in bool_decide (value = "auto") || bool_decide (value = "best").

(** The order of [sort.Slice] over candidates: a higher score first, then the lower
    identifier. *)
Definition ranked_before (a b : Peer * Z) : Prop := (b.2 < a.2)%Z ∨ b.2 = a.2 ∧ str_leb (DeviceID a.1) (DeviceID b.1) = true.
#[global] Instance ranked_before_dec : RelDecision ranked_before.
Proof. intros a b. unfold ranked_before. apply _. Defined.

Definition best (candidates : list (Peer * Z)) : option Peer := fst <$> head (merge_sort ranked_before candidates).

Definition supportedExecutorsFromRemoteProto (values : list Z) : list string :=
  sort_compact (omap (λ value, if (value =? 1)%Z then Some "native" else if (value =? 2)%Z then Some "container" else None) values).

(** The active workers a selector names. *)
Definition selects (selector : string) (peer : Peer) : Prop :=
  active_worker peer ∧ (PeerNameOf peer = selector ∨ DeviceID peer = selector ∨ has_prefix (DeviceID peer) selector = true).
#[global] Instance selects_dec selector peer : Decision (selects selector peer).
Proof. unfold selects. apply _. Defined.

(** The [switch len(matches)] of the resolvers. *)
Definition only_match (matches : list Peer) : result Peer :=
  match matches with
  | [] => Err [TrustErrNotFound]
  | [peer] => Ok peer
  | _ => Err [TrustErrConflict]
  end.

(** The order of LAN candidates: the latest seen first. *)
Definition seen_later (a b : NearbyDevice) : Prop := (ob_SeenAt (nd_Observation b) ≤ ob_SeenAt (nd_Observation a))%Z.
#[global] Instance seen_later_dec : RelDecision seen_later.
Proof. intros a b. unfold seen_later. apply _. Defined.

Definition lan_candidates (peer : Peer) (devices : list NearbyDevice) : list NearbyDevice :=
  merge_sort seen_later (filter (λ n, an_Name (nd_Announcement n) = PeerNameOf peer ∧ ready_worker n) devices).

(** ** Lemmas *)

#[global] Instance ranked_before_total : Total ranked_before.
Proof. intros [p a] [q b]. unfold ranked_before. simpl. destruct (str_leb_total (DeviceID p) (DeviceID q)); destruct (Z.lt_trichotomy a b) as [|[]]; auto. Qed.
#[global] Instance ranked_before_trans : Transitive ranked_before.
Proof.
  intros [p a] [q b] [r c]. unfold ranked_before. simpl. intros [?|[? H1]] [?|[? H2]]; [left; lia..|].
  right. split; [lia|]. by eapply str_leb_trans.
Qed.
#[global] Instance ranked_before_refl : Reflexive ranked_before.
Proof. intros [p a]. right. split; [done|]. apply str_leb_refl. Qed.

(** The choice is a candidate no other one ranks above. *)
Lemma best_some candidates peer : best candidates = Some peer →
  ∃ score, (peer, score) ∈ candidates ∧ ∀ c, c ∈ candidates → ranked_before (peer, score) c.
Proof.
  unfold best. intros (p & Hhead & ->)%fmap_Some. exists p.2.
  assert (Sorted ranked_before (merge_sort ranked_before candidates)) as Hs by (apply Sorted_merge_sort; apply _).
  apply Sorted_StronglySorted in Hs; [|apply _].
  assert (∀ c, c ∈ candidates ↔ c ∈ merge_sort ranked_before candidates) as Hin by (intros c; by rewrite (merge_sort_Permutation ranked_before candidates)).
  destruct (merge_sort ranked_before candidates) as [|x l]; [done|]. simplify_eq/=. inversion_clear Hs as [|? ? _ Hall].
  destruct p as [p s]. split; [apply Hin; by left|]. intros c Hc. apply Hin, elem_of_cons in Hc as [->|Hc]; [reflexivity|].
  by eapply Forall_forall in Hall.
Qed.

Lemma best_none candidates : best candidates = None ↔ candidates = [].
Proof.
  unfold best. rewrite fmap_None. pose proof (merge_sort_Permutation ranked_before candidates) as Hp. split.
  - destruct (merge_sort ranked_before candidates) eqn:E; [|done]. intros _. by apply Permutation_nil.
  - by intros ->.
Qed.

(** The score of a 32-bit processor count and a 64-bit memory size is their exact
    weighted sum: the unsigned arithmetic never wraps. *)
Lemma resource_score_exact cpu memory : (0 ≤ cpu < 2 ^ 32)%Z → (0 ≤ memory < 2 ^ 64)%Z →
  resourceScore cpu memory = (cpu * 1000 + memory / 2 ^ 30)%Z ∧ (resourceScore cpu memory < 2 ^ 64)%Z.
Proof.
  intros Hc Hm. unfold resourceScore, wrap_uint64.
  assert (0 ≤ memory / 2 ^ 30 < 2 ^ 34)%Z by (split; [apply Z.div_pos; lia|apply Z.div_lt_upper_bound; lia]).
  rewrite (Z.mod_small (cpu * 1000)) by lia. rewrite Z.mod_small by lia. lia.
Qed.

(** A failed check of a worker is an incompatibility. *)
Lemma executor_check supported required : workerExecutorCompatibility supported required = Ok tt ∨
  workerExecutorCompatibility supported required = Err incompatible.
Proof. unfold workerExecutorCompatibility, reject_if. destruct required; repeat case_match; auto. Qed.
Lemma tools_check `{UnicodeCase} peer spec hints : preflightWorkerTools peer spec hints = Ok tt ∨ preflightWorkerTools peer spec hints = Err incompatible.
Proof. unfold preflightWorkerTools, reject_if. repeat case_match; auto. Qed.
