(* ===== verification/LocalWire.v ===== *)
(** * The local control messages (internal/protocol/mapper: job.go, log.go, device.go, trust.go)

    Conversions between the domain values and the messages that the daemon exchanges
    with its command line and application (api/proto/computehop/local/v1/local.proto).
    The job messages have the fields of the paired-worker protocol, so they share the
    records of [Wire]; enumerations are numbers. *)

From S2P Require Import Prelude GoText JobModel Effects Sql JobStore LogStore Base32 Device Trust TrustStore Wire Selection.
From stdpp Require Import pretty.
From Stdlib Require Import Ascii.
Local Open Scope string_scope.
Local Open Scope nat_scope.
Local Open Scope list_scope.

(** ** Messages *)

Record PairingMessage := MkPairingMessage {
  pgm_id : string; pgm_peer_device_id : string; pgm_peer_public_key : bytes; pgm_peer_name : string; pgm_peer_role : Z;
  pgm_verification_code : string; pgm_direction : Z; pgm_state : Z; pgm_local_confirmed : bool; pgm_remote_confirmed : bool;
  pgm_started_at_unix_nano : Z; pgm_expires_at_unix_nano : Z; pgm_failure : string
}.

Record TrustedMessage := MkTrustedMessage {
  tm_pair_id : string; tm_device_id : string; tm_public_key : bytes; tm_name : string; tm_role : Z; tm_trust_state : Z;
  tm_paired_at_unix_nano : Z; tm_updated_at_unix_nano : Z; tm_revoked_at_unix_nano : Z;
  tm_connectivity_state : Z; tm_connectivity_path : string; tm_connectivity_error : string; tm_connectivity_updated_at_unix_nano : Z;
  tm_platform : string; tm_arch : string; tm_logical_cpu_count : Z; tm_total_memory_bytes : Z; tm_hints_observed_at_unix_nano : Z;
  tm_tool_ids : list string; tm_supported_executors : list Z
}.

Record NearbyMessage := MkNearbyMessage {
  nm_presence_id : string; nm_name : string; nm_role : Z; nm_protocol_version : Z; nm_instance : string; nm_host_name : string;
  nm_addresses : list string; nm_port : Z; nm_endpoint_ready : bool; nm_first_seen_at_unix_nano : Z; nm_last_seen_at_unix_nano : Z;
  nm_expires_at_unix_nano : Z; nm_trust_state : Z; nm_platform : string; nm_arch : string; nm_logical_cpu_count : Z;
  nm_total_memory_bytes : Z
}.

Record DevicesMessage := MkDevicesMessage {
  dm_devices : list NearbyMessage; dm_discovery_state : Z; dm_discovery_error : string;
  dm_discovery_started_at_unix_nano : Z; dm_trusted_devices : list TrustedMessage
}.

(** ** Enumerations *)

Definition local_state_table : list (State * Z) :=
  [(StateCreated, 1); (StateValidating, 2); (StateQueued, 3); (StateSnapshotting, 4); (StateTransferring, 5); (StateStarting, 6);
   (StateRunning, 7); (StateCollecting, 8); (StateRestoring, 9); (StateSucceeded, 10); (StateFailed, 11); (StateCancelled, 12);
   (StateRejected, 13); (StateLost, 14)]%Z.
Definition stateToProtocol : State → option Z := to_wire local_state_table.
Definition protocolToState : Z → option State := from_wire local_state_table.

Definition local_phase_table : list (ProgressPhase * Z) :=
  [(ProgressSnapshot, 1); (ProgressUpload, 2); (ProgressDownload, 3); (ProgressRestore, 4); (ProgressCollect, 5); (ProgressPull, 6)]%Z.
Definition progressPhaseToProtocol : ProgressPhase → option Z := to_wire local_phase_table.
Definition protocolToProgressPhase : Z → option ProgressPhase := from_wire local_phase_table.

Definition executorToProto (executor : Executor) : result Z :=
  match executor with
  | ExecutorNative => Ok 1%Z
  | ExecutorContainer => Ok 2%Z
  | ExecutorOther _ => Err [JobErrInvalidSpec]
  end.
Definition executorFromProto (executor : Z) : result Executor :=
  if (executor =? 1)%Z then Ok ExecutorNative
  else if (executor =? 2)%Z then Ok ExecutorContainer
  else Err [JobErrInvalidSpec].

Definition roleToProto (role : string) : result Z :=
  if bool_decide (role = RoleWorker) then Ok 1%Z
  else if bool_decide (role = RoleOrchestrator) then Ok 2%Z
  else Err [TrustErrInvalidPeer].
Definition roleFromProto (role : Z) : result string :=
  if (role =? 1)%Z then Ok RoleWorker
  else if (role =? 2)%Z then Ok RoleOrchestrator
  else Err [TrustErrInvalidPeer].

Definition direction_table : list (Direction * Z) := [(DirectionOutbound, 1); (DirectionInbound, 2)]%Z.
Definition pairing_state_table : list (PairingState * Z) :=
  [(PairingWaiting, 1); (PairingPaired, 2); (PairingRejected, 3); (PairingExpired, 4); (PairingFailed, 5)]%Z.

(** ** Jobs (job.go) *)

Section Mapper.
Context `{UnicodeCase} (sha256 : bytes → bytes).

Definition SpecToProto (spec : Spec) : result JobSpecMessage :=
  _ ← Spec_Validate spec;
  executor ← executorToProto (SpecExecutor spec);
  Ok (MkJobSpecMessage (Executable spec) (Arguments_ spec) (WorkingDirectory spec) (Environment spec) executor
    (ContainerImage spec) (Outputs spec) (RequiredToolIDs spec)).

Definition SpecFromProto (message : option JobSpecMessage) : result Spec :=
  match message with
  | None => Err [JobErrInvalidSpec]
  | Some m =>
      executor ← executorFromProto (sm_executor m);
      let spec := MkSpec (sm_executable m) (sm_arguments m) (sm_working_directory m) (sm_environment m) executor
        (sm_container_image m) (sm_outputs m) (sm_required_tool_ids m) in
      _ ← Spec_Validate spec;
      Ok spec
  end.

Definition ProgressToProto (progress : Progress) : result ProgressMessage :=
  _ ← Progress_Validate progress;
  match progressPhaseToProtocol (Phase progress) with
  | None => Err [JobErrInvalidProgress]
  | Some phase => Ok (MkProgressMessage phase (CompletedBytes progress) (JobModel.TotalBytes progress) (unix_nano (ProgressUpdatedAt progress)))
  end.

Definition ProgressFromProto (message : option ProgressMessage) : result Progress :=
  match message with
  | None => Err [JobErrInvalidProgress]
  | Some m =>
      match protocolToProgressPhase (pm_phase m) with
      | None => Err [JobErrInvalidProgress]
      | Some phase =>
          let progress := MkProgress phase (pm_completed_bytes m) (pm_total_bytes m) (from_unix_nano (pm_updated_at_unix_nano m)) in
          _ ← Progress_Validate progress;
          Ok progress
      end
  end.

Definition JobToProto (value : Job) : result JobMessage :=
  _ ← Job_Validate value;
  spec ← SpecToProto (JobSpec value);
  match stateToProtocol (JobState value) with
  | None => Err [JobErrInvalidState]
  | Some state =>
      progress ← optional ProgressToProto (JobProgress value);
      Ok (MkJobMessage (ID value) (Some spec) state (unix_nano (CreatedAt value)) (unix_nano (UpdatedAt value)) (JobFailure value) progress)
  end.

Definition JobFromProto (message : option JobMessage) : result Job :=
  match message with
  | None => Err [JobErrInvalidJob]
  | Some m =>
      id ← ParseID (jm_id m);
      spec ← SpecFromProto (jm_spec m);
      match protocolToState (jm_state m) with
      | None => Err [JobErrInvalidState]
      | Some state =>
          progress ← optional (λ p, ProgressFromProto (Some p)) (jm_progress m);
          let value := MkJob id spec state (from_unix_nano (jm_created_at_unix_nano m)) (from_unix_nano (jm_updated_at_unix_nano m))
            (jm_failure m) progress in
          _ ← Job_Validate value;
          Ok value
      end
  end.

Definition StatesFromProto : list Z → result (list State) := map_states protocolToState.

(** ** Logs (log.go) *)

Definition log_record_message (record : LogRecord) : result LogRecordMessage :=
  stream ← (match RecordStream record with
            | StreamStdout => Ok 1%Z
            | StreamStderr => Ok 2%Z
            | _ => Err [LogErrInvalidRecord]
            end);
  _ ← reject_if ((RecordSequence record =? 0)%Z || bool_decide (length (RecordData record) = 0) || is_zero_time (RecordAt record))
        [LogErrInvalidRecord];
  Ok (MkLogRecordMessage (RecordSequence record) stream (RecordData record) (unix_nano (RecordAt record))).
Fixpoint LogRecordsToProto (records : list LogRecord) : result (list LogRecordMessage) :=
  match records with
  | [] => Ok []
  | record :: rest => m ← log_record_message record; ms ← LogRecordsToProto rest; Ok (m :: ms)
  end.

(** ** Addresses: [netip.Addr.String] *)

Definition dotted (v : Z) : string :=
  let part k := pretty (Z.to_N (Z.shiftr v k `mod` 256)) in
  part 24%Z +:+ "." +:+ part 16%Z +:+ "." +:+ part 8%Z +:+ "." +:+ part 0%Z.

Definition hex_digit (d : Z) : ascii := nth (Z.to_nat d) (bytes_of "0123456789abcdef") "0"%char.
(** Without leading zeros. *)
Definition hex_group (g : Z) : string :=
  let shown k := (Z.shiftl 1 (4 * k) <=? g)%Z || (k =? 0)%Z in
  str_of (map (λ k, hex_digit (Z.shiftr g (4 * k) `mod` 16)) (filter (λ k, shown k = true) [3; 2; 1; 0]%Z)).
Definition groups (v : Z) : list Z := map (λ k, Z.shiftr v (16 * k) `mod` 65536)%Z [7; 6; 5; 4; 3; 2; 1; 0]%Z.

Fixpoint zero_run (gs : list Z) : nat := match gs with g :: rest => if (g =? 0)%Z then S (zero_run rest) else 0 | [] => 0 end.
(** The first of the longest runs of at least two zero groups: its start and length. *)
Fixpoint longest_zeros (i : nat) (gs : list Z) (best : nat * nat) : nat * nat :=
  match gs with
  | [] => best
  | _ :: rest =>
      let l := zero_run gs in
      longest_zeros (S i) rest (if (2 <=? l) && (best.2 <? l) then (i, l) else best)
  end.
Definition colons (gs : list Z) : string := str_of (join_bytes ":"%char (map (λ g, bytes_of (hex_group g)) gs)).
Definition string6 (v : Z) : string :=
  let gs := groups v in
  let '(start, length) := longest_zeros 0 gs (0, 0) in
  if bool_decide (length = 0) then colons gs else colons (take start gs) +:+ "::" +:+ colons (drop (start + length) gs).

Definition Addr_String (a : Addr) : string :=
  match a with
  | AddrZero => "invalid IP"
  | Addr4 v => dotted v
  | Addr6 v zone =>
      let zone := if bool_decide (zone = "") then "" else "%" +:+ zone in
      if (Z.shiftr v 32 =? 0xFFFF)%Z then "::ffff:" +:+ dotted (v `mod` 2 ^ 32) +:+ zone else string6 v +:+ zone
  end.

(** ** Devices (device.go) *)

Definition nearby_message (nearby : NearbyDevice) : result NearbyMessage :=
  let o := nd_Observation nearby in
  let a := nd_Announcement nearby in
  _ ← reject_if (failed (Observation_Validate o) || is_zero_time (nd_FirstSeenAt nearby)) [DeviceErrInvalidObservation];
  role ← (match roleToProto (an_Role a) with Ok role => Ok role | Err _ => Err [DeviceErrInvalidAnnouncement] end);
  Ok (MkNearbyMessage (an_PresenceID a) (an_Name a) role (an_ProtocolVersion a) (ob_Instance o) (ob_HostName o)
    (map Addr_String (ob_Addresses o)) (an_Port a) (an_EndpointReady a) (unix_nano (nd_FirstSeenAt nearby)) (unix_nano (ob_SeenAt o))
    (unix_nano (ob_ExpiresAt o)) 1 (an_Platform a) (an_Architecture a) (an_LogicalCPUCount a) (an_TotalMemoryBytes a)).
Fixpoint nearby_messages (devices : list NearbyDevice) : result (list NearbyMessage) :=
  match devices with
  | [] => Ok []
  | nearby :: rest => m ← nearby_message nearby; ms ← nearby_messages rest; Ok (m :: ms)
  end.
Definition DiscoverySnapshotToProto (snapshot : DiscoverySnapshot) : result DevicesMessage :=
  let state := if sn_Available snapshot then 2%Z else if bool_decide (sn_LastError snapshot = "") then 1%Z else 3%Z in
  devices ← nearby_messages (sn_Devices snapshot);
  Ok (MkDevicesMessage devices state (sn_LastError snapshot) (default 0%Z (unix_nano <$> sn_LastStartedAt snapshot)) []).

(** ** Pairings and trusted devices (trust.go) *)

Definition PairingToProto (value : Pairing) : result PairingMessage :=
  _ ← Pairing_Validate sha256 value;
  role ← roleToProto (pg_PeerRole value);
  match to_wire direction_table (pg_Direction value), to_wire pairing_state_table (pg_State value) with
  | Some direction, Some state =>
      Ok (MkPairingMessage (pg_ID value) (pg_PeerID value) (pg_PeerPublicKey value) (pg_PeerName value) role (pg_Verification value)
        direction state (pg_LocalConfirmed value) (pg_RemoteConfirmed value) (unix_nano (pg_StartedAt value))
        (unix_nano (pg_ExpiresAt value)) (pg_Failure value))
  | _, _ => Err [TrustErrInvalidPairing]
  end.

(** A direction or state that is not known is empty in the code, which [Validate]
    refuses with the error below. *)
Definition PairingFromProto (message : option PairingMessage) : result Pairing :=
  match message with
  | None => Err [TrustErrInvalidPairing]
  | Some m =>
      id ← ParsePairID (pgm_id m);
      peerID ← Device_ParseID (pgm_peer_device_id m);
      role ← roleFromProto (pgm_peer_role m);
      match from_wire direction_table (pgm_direction m), from_wire pairing_state_table (pgm_state m) with
      | Some direction, Some state =>
          let value := MkPairing id peerID (pgm_peer_public_key m) (pgm_peer_name m) role (pgm_verification_code m) direction state
            (pgm_local_confirmed m) (pgm_remote_confirmed m) (from_unix_nano (pgm_started_at_unix_nano m))
            (from_unix_nano (pgm_expires_at_unix_nano m)) (pgm_failure m) in
          _ ← Pairing_Validate sha256 value;
          Ok value
      | _, _ => Err [TrustErrInvalidPairing]
      end
  end.

Definition supportedExecutorsToProto (values : list string) : list Z :=
  omap (λ value, match executorToProto (executor_of_string value) with Ok z => Some z | Err _ => None end) values.
Definition supportedExecutorsFromProto (values : list Z) : list string :=
  sort_compact (omap (λ value, match executorFromProto value with Ok e => Some (executor_string e) | Err _ => None end) values).

Definition TrustedPeerToProto (peer : Peer) : result TrustedMessage :=
  _ ← Peer_Validate sha256 peer;
  role ← roleToProto (PeerRoleOf peer);
  state ← (match PeerState peer with TrustActive => Ok 2%Z | TrustRevoked => Ok 3%Z | TrustOther _ => Err [TrustErrInvalidPeer] end);
  Ok (MkTrustedMessage (PairID peer) (DeviceID peer) (PublicKey peer) (PeerNameOf peer) role state (unix_nano (PairedAt peer))
    (unix_nano (PeerUpdatedAt peer)) (default 0%Z (unix_nano <$> RevokedAt peer)) 0 "" "" 0 (Platform peer) (Architecture peer)
    (LogicalCPUCount peer) (TotalMemoryBytes peer) (default 0%Z (unix_nano <$> HintsObservedAt peer)) (ToolIDs peer)
    (supportedExecutorsToProto (SupportedExecutors peer))).

(** [nil] for the number zero. *)
Definition optional_time (ns : Z) : option Z := if (ns =? 0)%Z then None else Some (from_unix_nano ns).

Definition TrustedPeerFromProto (message : option TrustedMessage) : result Peer :=
  match message with
  | None => Err [TrustErrInvalidPeer]
  | Some m =>
      pairID ← ParsePairID (tm_pair_id m);
      deviceID ← Device_ParseID (tm_device_id m);
      role ← roleFromProto (tm_role m);
      let state := if (tm_trust_state m =? 2)%Z then TrustActive else if (tm_trust_state m =? 3)%Z then TrustRevoked else TrustOther "" in
      let peer := MkPeer pairID deviceID (tm_public_key m) [] (tm_name m) role state (tm_platform m) (tm_arch m) (tm_logical_cpu_count m)
        (tm_total_memory_bytes m) (tm_tool_ids m) (supportedExecutorsFromProto (tm_supported_executors m))
        (optional_time (tm_hints_observed_at_unix_nano m)) (from_unix_nano (tm_paired_at_unix_nano m))
        (from_unix_nano (tm_updated_at_unix_nano m)) (optional_time (tm_revoked_at_unix_nano m)) in
      _ ← Peer_Validate sha256 peer;
      Ok peer
  end.

End Mapper.

(** ** Round trips *)

Lemma executor_same e : executorToProto e = executorToRemoteProto e.
Proof. by destruct e. Qed.
Lemma executor_from_same z : executorFromProto z = executorFromRemoteProto z.
Proof.
  unfold executorFromProto, executorFromRemoteProto, from_wire. cbn [list_find_val executor_table snd]. rewrite !(Z.eqb_sym z).
  destruct (1 =? z)%Z; [done|]. by destruct (2 =? z)%Z.
Qed.

Lemma direction_wire d z : to_wire direction_table d = Some z → from_wire direction_table z = Some d.
Proof. apply wire_inverse. vm_compute. nodup. Qed.
Lemma pairing_state_wire st z : to_wire pairing_state_table st = Some z → from_wire pairing_state_table z = Some st.
Proof. apply wire_inverse. vm_compute. nodup. Qed.
Lemma role_wire role z : roleToProto role = Ok z → roleFromProto z = Ok role.
Proof. unfold roleToProto. repeat case_bool_decide; intros [= <-]; by subst. Qed.
Lemma known_role_wire role : known_role role = true → ∃ z, roleToProto role = Ok z.
Proof.
  unfold known_role, roleToProto. intros [Hr|Hr]%orb_prop; apply bool_decide_eq_true_1 in Hr; subst; by eexists.
Qed.

(** A list of executors that a peer may have. *)
Lemma executors_cases l : validateSupportedExecutors l = true →
  l ∈ [[]; ["container"]; ["native"]; ["container"; "native"]].
Proof.
  unfold validateSupportedExecutors. intros [_ Hl]%andb_prop.
  assert (∀ prev l, executors_loop prev l = true → ∀ x, x ∈ l → x = "container" ∨ x = "native") as Hin.
  { clear. intros prev l. revert prev. induction l as [|x l IH]; intros prev; [by intros _ ? ?%elem_of_nil|]. cbn [executors_loop].
    destruct (negb _ && _) eqn:E; [done|]. destruct (str_leb x prev); [done|]. intros Hl y [->|Hy]%elem_of_cons; [|by eapply IH].
    apply andb_false_iff in E as [E|E]; apply negb_false_iff, bool_decide_eq_true_1 in E; auto. }
  specialize (Hin _ _ Hl). rewrite !elem_of_cons. destruct l as [|a l]; [auto|].
  destruct (Hin a) as [-> | ->]; [apply list_elem_of_here|..].
  all: destruct l as [|b l]; [auto|].
  all: destruct (Hin b) as [-> | ->]; [apply list_elem_of_further, list_elem_of_here|..]; try by vm_compute in Hl.
  destruct l as [|c l]; [auto|]. exfalso.
  destruct (Hin c) as [-> | ->]; [do 2 apply list_elem_of_further; apply list_elem_of_here|..]; by vm_compute in Hl.
Qed.
Lemma executors_wire l : validateSupportedExecutors l = true → supportedExecutorsFromProto (supportedExecutorsToProto l) = l.
Proof.
  intros H%executors_cases. repeat (apply elem_of_cons in H as [->|H]; [by vm_compute|]). by apply elem_of_nil in H.
Qed.

Section Roundtrips.
Context `{UnicodeCase} (sha256 : bytes → bytes).

Lemma spec_same spec : SpecToProto spec = SpecToRemoteProto spec.
Proof. unfold SpecToProto, SpecToRemoteProto. by rewrite executor_same. Qed.
Lemma spec_from_same m : SpecFromProto m = SpecFromRemoteProto m.
Proof. destruct m as [m|]; [|done]. unfold SpecFromProto, SpecFromRemoteProto. by rewrite executor_from_same. Qed.
Lemma job_same j : JobToProto j = JobToRemoteProto j.
Proof. unfold JobToProto, JobToRemoteProto. by rewrite spec_same. Qed.
Lemma job_from_same m : JobFromProto m = JobFromRemoteProto m.
Proof. destruct m as [m|]; [|done]. unfold JobFromProto, JobFromRemoteProto. by rewrite spec_from_same. Qed.

Lemma local_job_wire j : Job_Validate j = Ok tt → job_times_fit j → ∃ m, JobToProto j = Ok m ∧ JobFromProto (Some m) = Ok j.
Proof. rewrite job_same. setoid_rewrite job_from_same. apply job_wire. Qed.

Context (Hsha : ∀ c, length (sha256 c) = 32).

Lemma canonical_device id : DeviceID_Valid id = true → Device_ParseID id = Ok id.
Proof. unfold DeviceID_Valid, Device_ParseID. by destruct (canonical_base32 _ _ _). Qed.
Lemma canonical_pair id : PairID_Valid id = true → ParsePairID id = Ok id.
Proof. unfold PairID_Valid, ParsePairID. by destruct (canonical_base32 _ _ _). Qed.

Lemma pairing_wire p : Pairing_Validate sha256 p = Ok tt → int64_range (pg_StartedAt p) → int64_range (pg_ExpiresAt p) →
  ∃ m, PairingToProto sha256 p = Ok m ∧ PairingFromProto sha256 (Some m) = Ok p.
Proof.
  intros Hv Hs He. unfold PairingToProto. rewrite Hv. cbn [mbind result_bind].
  pose proof Hv as (u & Hc%reject_if_ok & _)%result_bind_ok. reflect_bools.
  match goal with H : known_role _ = true |- _ => destruct (known_role_wire _ H) as [z Hz] end. rewrite Hz. cbn [mbind result_bind].
  assert (∃ d, to_wire direction_table (pg_Direction p) = Some d) as [d Hd] by (destruct (pg_Direction p); by eexists).
  assert (∃ t, to_wire pairing_state_table (pg_State p) = Some t) as [t Ht] by (destruct (pg_State p); by eexists).
  rewrite Hd, Ht. eexists. split; [reflexivity|]. unfold PairingFromProto. cbn -[Pairing_Validate from_wire unix_nano from_unix_nano].
  rewrite canonical_pair by done. cbn [mbind result_bind]. rewrite canonical_device by (by eapply pins_valid). cbn [mbind result_bind].
  rewrite (role_wire _ _ Hz), (direction_wire _ _ Hd), (pairing_state_wire _ _ Ht). cbn [mbind result_bind].
  rewrite !unix_nano_roundtrip by done. destruct p. cbn -[Pairing_Validate] in *. by rewrite Hv.
Qed.

(** What the other programs of the user learn of a peer. *)
Definition without_secret (p : Peer) : Peer :=
  MkPeer (PairID p) (DeviceID p) (PublicKey p) [] (PeerNameOf p) (PeerRoleOf p) (PeerState p) (Platform p) (Architecture p)
    (LogicalCPUCount p) (TotalMemoryBytes p) (ToolIDs p) (SupportedExecutors p) (HintsObservedAt p) (PairedAt p) (PeerUpdatedAt p) (RevokedAt p).

(** An optional instant that the number zero does not stand for. *)
Definition stamp_fits (t : option Z) : Prop := match t with Some t => int64_range t ∧ t ≠ 0%Z | None => True end.
Definition peer_times_fit (p : Peer) : Prop :=
  int64_range (PairedAt p) ∧ int64_range (PeerUpdatedAt p) ∧ stamp_fits (RevokedAt p) ∧ stamp_fits (HintsObservedAt p).

Lemma stamp_wire t : stamp_fits t → optional_time (default 0%Z (unix_nano <$> t)) = t.
Proof.
  destruct t as [t|]; [|done]. intros [Hr Hz]. unfold optional_time, unix_nano, from_unix_nano. cbn. rewrite wrap_int64_id by done.
  by rewrite (proj2 (Z.eqb_neq t 0)).
Qed.

Lemma without_secret_valid p : Peer_Validate sha256 p = Ok tt → Peer_Validate sha256 (without_secret p) = Ok tt.
Proof.
  intros ([H1 H2 H3 H4 H5] & Hh & Ht)%peer_validate_iff. apply peer_validate_iff. split_and!; [|done..].
  constructor; [done..|by left|done].
Qed.

Lemma peer_wire p : Peer_Validate sha256 p = Ok tt → peer_times_fit p →
  ∃ m, TrustedPeerToProto sha256 p = Ok m ∧ TrustedPeerFromProto sha256 (Some m) = Ok (without_secret p).
Proof.
  intros Hv (Hp & Hu & Hr & Ho). pose proof Hv as ([Hk Hpair _ _ Hrole] & [_ _ _ _ Hex _] & _ & _ & Hst)%peer_validate_iff.
  unfold TrustedPeerToProto. rewrite Hv. cbn [mbind result_bind]. destruct (known_role_wire _ Hrole) as [z Hz]. rewrite Hz. cbn [mbind result_bind].
  apply without_secret_valid in Hv. unfold without_secret in *. destruct (PeerState p) eqn:Es; [| |done].
  all: cbn [mbind result_bind]; eexists; split; [reflexivity|].
  all: unfold TrustedPeerFromProto; cbn -[Peer_Validate supportedExecutorsToProto supportedExecutorsFromProto optional_time unix_nano from_unix_nano].
  all: rewrite canonical_pair by done; cbn [mbind result_bind]; rewrite canonical_device by (by eapply pins_valid); cbn [mbind result_bind].
  all: rewrite (role_wire _ _ Hz), executors_wire, !stamp_wire, !unix_nano_roundtrip by done; cbn -[Peer_Validate]; by rewrite Hv.
Qed.

(** The message of a peer is that of the peer without its secret. *)
Lemma trusted_message_secret p m : TrustedPeerToProto sha256 p = Ok m → TrustedPeerToProto sha256 (without_secret p) = Ok m.
Proof.
  unfold TrustedPeerToProto. intros ([] & Hv & Hm)%result_bind_ok. rewrite (without_secret_valid _ Hv). exact Hm.
Qed.

End Roundtrips.
