(* ===== verification/LocalIpc.v ===== *)
(** * The local control protocol (internal/protocol/localipc: client.go, server.go)

    The messages of api/proto/computehop/local/v1/local.proto, one request of the
    command line ([Local_Call]) and the daemon's side of a connection
    ([serveConnection]), over the frames of [Frames]; and the accept loop of the
    daemon as a machine that bounds its clients. *)

From S2P Require Import Prelude GoText JobModel Snapshot Wire LocalWire Frames Remote.
From stdpp Require Import pretty.
From Stdlib Require Import Ascii.
Local Open Scope string_scope.
Local Open Scope nat_scope.
Local Open Scope list_scope.

(** ** Messages *)

Record LSubmitJob := MkLSubmitJob { lsj_spec : option JobSpecMessage; lsj_device_selector : string; lsj_job_id : string }.
(** [GetJobRequest], [CancelJobRequest] and [GetJobProgressRequest]. *)
Record LJobRef := MkLJobRef { ljr_job_id : string; ljr_device_selector : string }.
Record LListJobs := MkLListJobs { llj_states : list Z; llj_limit : Z; llj_device_selector : string }.
Record LReadLogs := MkLReadLogs { lrl_job_id : string; lrl_after_sequence : Z; lrl_limit : Z; lrl_device_selector : string }.
Record LFetch := MkLFetch { lfa_job_id : string; lfa_device_selector : string; lfa_destination : string }.

Inductive LocalOperation :=
| LOpPing (r : option unit)
| LOpSubmitJob (r : option LSubmitJob)
| LOpGetJob (r : option LJobRef)
| LOpListJobs (r : option LListJobs)
| LOpCancelJob (r : option LJobRef)
| LOpReadJobLogs (r : option LReadLogs)
| LOpListDevices (r : option unit)
| LOpBeginPairing (r : option string)
| LOpListPairings (r : option unit)
| LOpConfirmPairing (r : option string)
| LOpRejectPairing (r : option string)
| LOpListTrustedDevices (r : option unit)
| LOpUnpairDevice (r : option string)
| LOpFetchArtifacts (r : option LFetch)
| LOpGetJobProgress (r : option LJobRef).

Record LocalRequest := MkLocalRequest {
  lq_protocol_version : Z; lq_request_id : string; lq_capability_token : bytes; lq_operation : option LocalOperation
}.

Record PingMessage := MkPingMessage {
  pi_daemon_version : string; pi_device_id : string; pi_device_name : string; pi_role : Z; pi_platform : string; pi_arch : string;
  pi_logical_cpu_count : Z; pi_total_memory_bytes : Z; pi_tool_ids : list string; pi_supported_executors : list Z
}.
Record LLogs := MkLLogs { llr_job : JobMessage; llr_records : list LogRecordMessage; llr_has_more : bool }.
Record LFetched := MkLFetched { lff_destination : string; lff_restored_file_count : Z; lff_conflict_file_count : Z }.

Inductive LocalResult :=
| LResPing (r : PingMessage)
| LResSubmitJob (r : JobMessage)
| LResGetJob (r : JobMessage)
| LResListJobs (r : list JobMessage)
| LResCancelJob (r : JobMessage)
| LResReadJobLogs (r : LLogs)
| LResListDevices (r : DevicesMessage)
| LResBeginPairing (r : PairingMessage)
| LResListPairings (r : list PairingMessage)
| LResConfirmPairing (r : PairingMessage)
| LResRejectPairing (r : PairingMessage)
| LResListTrustedDevices (r : list TrustedMessage)
| LResUnpairDevice (r : TrustedMessage)
| LResFetchArtifacts (r : LFetched)
| LResGetJobProgress (r : option ProgressMessage).

Record LocalError := MkLocalError { le_code : Z; le_message : string }.
Record LocalResponse := MkLocalResponse {
  lp_protocol_version : Z; lp_request_id : string; lp_error : option LocalError; lp_result : option LocalResult
}.

Definition LocalProtocolVersion : Z := 6.
Definition LCodeInvalidArgument : Z := 1.
Definition LCodeNotFound : Z := 2.
Definition LCodeConflict : Z := 3.
Definition LCodeJobTerminal : Z := 4.
Definition LCodeInternal : Z := 5.
Definition LCodeUnauthenticated : Z := 6.
Definition LCodeUnsupportedVersion : Z := 7.
Definition LCodePairingUnavailable : Z := 8.
Definition LCodeDeviceUnavailable : Z := 9.

(** A response before the server stamps it. *)
Definition local_result (r : LocalResult) : LocalResponse := MkLocalResponse 0 "" None (Some r).
Definition failureResponse (code : Z) (message : string) : LocalResponse := MkLocalResponse 0 "" (Some (MkLocalError code message)) None.

(** ** Deadlines *)

Definition defaultRequestTimeout : Z := (15 * second)%Z.
Definition submitRequestTimeout : Z := (6 * 60 * minute)%Z.
Definition connectionTimeout : Z := (30 * second)%Z.
Definition submitConnectionTimeout : Z := (6 * 60 * minute)%Z.

Definition isLongOperation (request : LocalRequest) : bool :=
  match lq_operation request with
  | Some (LOpSubmitJob (Some _)) | Some (LOpFetchArtifacts (Some _)) => true
  | _ => false
  end.
(** The time a call may take when its context has no deadline. *)
Definition call_timeout (timeout : Z) (request : LocalRequest) : Z :=
  if isLongOperation request && (timeout =? defaultRequestTimeout)%Z then submitRequestTimeout else timeout.
Definition request_timeout (request : LocalRequest) : Z := if isLongOperation request then submitConnectionTimeout else connectionTimeout.

(** ** Client *)

Section Exchange.
Context `{Codec LocalRequest} `{Codec LocalResponse}.
Abbreviation writeLocal := (writeMessage IpcErrEmptyFrame IpcErrFrameTooLarge).
Abbreviation readLocal := (readMessage IpcErrEmptyFrame IpcErrFrameTooLarge).

Record Client := MkClient { cl_socketPath : string; cl_token : bytes; cl_timeout : Z }.
Definition NewClient (socketPath : string) (token : bytes) : result Client :=
  _ ← reject_if (bool_decide (socketPath = "")) [IpcErrInvalidClient];
  _ ← reject_if (bool_decide (length token = 0)) [IpcErrInvalidClient];
  Ok (MkClient socketPath token defaultRequestTimeout).

Definition stamp_local_request (token : bytes) (requestID : string) (request : LocalRequest) : LocalRequest :=
  MkLocalRequest LocalProtocolVersion requestID token (lq_operation request).

Definition check_local (requestID : string) (response : LocalResponse) : result LocalResponse :=
  _ ← reject_if (negb (lp_protocol_version response =? LocalProtocolVersion)%Z
        || negb (bool_decide (lp_request_id response = requestID))) [IpcErrMismatchedResponse];
  match lp_error response with
  | Some failure => Err [IpcRemoteError (le_code failure) (le_message failure)]
  | None => Ok response
  end.

(** [dialed] is the outcome of [dial], [ctxErr] is [callContext.Err()] after a failed
    write or read, and [peer] what the other side makes of the bytes sent. *)
Definition Local_Call {S} (client : Client) (random : result bytes) (dialed : result unit) (ctxErr : option (list sentinel))
    (out : nat → Write_) (peer : bytes → S → Reader * S) (request : LocalRequest) (s : S) : result LocalResponse * S :=
  if is_nil (lq_operation request) then (Err [IpcErrInvalidClient], s)
  else match newRequestID random, dialed with
  | Err e, _ => (Err e, s)
  | Ok _, Err e => (Err e, s)
  | Ok requestID, Ok _ =>
      let '(sent, written) := writeLocal out (stamp_local_request (cl_token client) requestID request) in
      let '(reader, s) := peer sent s in
      match written with
      | Err e => (Err (default e ctxErr), s)
      | Ok _ =>
          match readLocal reader with
          | (Err e, _) => (Err (default e ctxErr), s)
          | (Ok response, _) => (check_local requestID response, s)
          end
      end
  end.

(** ** Server *)

Definition tokensEqual (received expected : bytes) : bool :=
  bool_decide (length received = length expected) && bool_decide (received = expected).

(** The handler returns a response, perhaps nil, or panics. *)
Inductive LHandled := LPanicked | LReturned (response : option LocalResponse).
Definition local_internal_error : LocalResponse := failureResponse LCodeInternal "internal daemon error".
Definition handle_safely {S} (handler : LocalRequest → S → LHandled * S) (request : LocalRequest) (s : S) : option LocalResponse * S :=
  match handler request s with
  | (LPanicked, s) => (Some local_internal_error, s)
  | (LReturned response, s) => (response, s)
  end.

Definition stamp_local_response (requestID : string) (response : LocalResponse) : LocalResponse :=
  MkLocalResponse LocalProtocolVersion requestID (lp_error response) (lp_result response).

Definition local_respond {S} (token : bytes) (handler : LocalRequest → S → LHandled * S) (request : LocalRequest) (s : S) : LocalResponse * S :=
  let '(response, s) :=
    if negb (tokensEqual (lq_capability_token request) token) then (failureResponse LCodeUnauthenticated "local authentication failed", s)
    else if negb (lq_protocol_version request =? LocalProtocolVersion)%Z
    then (failureResponse LCodeUnsupportedVersion ("unsupported local protocol version " +:+ pretty (Z.to_N (lq_protocol_version request))), s)
    else if bool_decide (lq_request_id request = "") then (failureResponse LCodeInvalidArgument "request ID is required", s)
    else if is_nil (lq_operation request) then (failureResponse LCodeInvalidArgument "request operation is required", s)
    else let '(response, s) := handle_safely handler request s in (default local_internal_error response, s) in
  (stamp_local_response (lq_request_id request) response, s).

Definition serveConnection {S} (token : bytes) (handler : LocalRequest → S → LHandled * S) (out : nat → Write_) (connection : Reader) (s : S) :
    bytes * S :=
  match readLocal connection with
  | (Err _, _) => ([], s)
  | (Ok request, _) => let '(response, s) := local_respond token handler request s in ((writeLocal out response).1, s)
  end.

(** ** Correctness of an exchange *)

Definition authorised (token : bytes) (request : LocalRequest) : Prop :=
  lq_capability_token request = token ∧ lq_protocol_version request = LocalProtocolVersion ∧
  lq_request_id request ≠ "" ∧ is_Some (lq_operation request).
#[global] Instance authorised_dec token request : Decision (authorised token request).
Proof. unfold authorised. apply _. Defined.

Lemma tokensEqual_iff a b : tokensEqual a b = true ↔ a = b.
Proof.
  unfold tokensEqual. rewrite andb_true_iff, !bool_decide_eq_true. split; [by intros [_ ?]|by intros ->].
Qed.

Lemma respond_authorised {S} token (handler : LocalRequest → S → LHandled * S) request s : authorised token request →
  local_respond token handler request s =
  (let '(response, s) := handle_safely handler request s in (stamp_local_response (lq_request_id request) (default local_internal_error response), s)).
Proof.
  intros (Ht & Hv & Hid & [op Hop]). unfold local_respond. rewrite (proj2 (tokensEqual_iff _ _) Ht), Hv, bool_decide_eq_false_2, Hop by done.
  cbn. by destruct (handle_safely handler request s).
Qed.

Lemma respond_refused {S} token (handler : LocalRequest → S → LHandled * S) request s : ¬ authorised token request →
  ∃ code message, local_respond token handler request s = (stamp_local_response (lq_request_id request) (failureResponse code message), s) ∧
    (lq_capability_token request ≠ token ↔ code = LCodeUnauthenticated).
Proof.
  intros Hn. unfold local_respond. destruct (tokensEqual (lq_capability_token request) token) eqn:Et; cbn [negb].
  2: { eexists _, _. split; [done|]. split; [done|]. intros _ E. by rewrite (proj2 (tokensEqual_iff _ _) E) in Et. }
  apply tokensEqual_iff in Et.
  destruct (Z.eqb_spec (lq_protocol_version request) LocalProtocolVersion) as [Hv|Hv]; cbn [negb]; [|by eexists _, _].
  case_bool_decide as Hid; [by eexists _, _|].
  destruct (lq_operation request) eqn:Ho; cbn [is_nil]; [|by eexists _, _].
  exfalso. apply Hn. split_and!; [done..|by rewrite Ho].
Qed.

(** C21 Only a program that holds the capability token of the user controls the
    daemon.  A connection whose bytes are not a request with the token, the version,
    an identifier and an operation changes nothing, whatever the handler would do: it
    gets no answer, or an error that says unauthenticated exactly if the token is
    wrong.  Every other request is handled once, and every answer carries the version
    and the identifier of its request. *)
Theorem local_guarded {S} token (handler : LocalRequest → S → LHandled * S) out connection s sent s' :
  serveConnection token handler out connection s = (sent, s') →
  match readLocal connection with
  | (Err _, _) => sent = [] ∧ s' = s
  | (Ok request, _) => ∃ response, sent = (writeLocal out (stamp_local_response (lq_request_id request) response)).1 ∧
      (if bool_decide (authorised token request)
       then ∃ answer, handle_safely handler request s = (answer, s') ∧ response = default local_internal_error answer
       else s' = s ∧ lp_result response = None ∧ ∃ code message, lp_error response = Some (MkLocalError code message) ∧
         (lq_capability_token request ≠ token ↔ code = LCodeUnauthenticated))
  end.
Proof.
  unfold serveConnection. destruct (readLocal connection) as [[request|e] r]; [|by intros [= <- <-]]. case_bool_decide as Ha.
  - rewrite respond_authorised by done. destruct (handle_safely handler request s) as [answer s1]. intros [= <- <-]. by eauto.
  - destruct (respond_refused token handler request s Ha) as (code & message & -> & Hcode). intros [= <- <-].
    eexists (failureResponse code message). split; [done|]. by eauto 10.
Qed.

(** The daemon at the other end of a connection, whatever the pieces its request and
    its answer come in. *)
Definition daemon_at {S} (token : bytes) (handler : LocalRequest → S → LHandled * S) (out : nat → Write_) (c c' : list sentinel)
    (ps ps' : nat → nat) (sent : bytes) (s : S) : Reader * S :=
  let '(reply, s) := serveConnection token handler out (MkReader sent c ps 0) s in (MkReader reply c' ps' 0, s).

Lemma local_exchange {S} (handler : LocalRequest → S → LHandled * S) client random id request ctxErr out out' c c' ps ps' s response s' :
  newRequestID random = Ok id → id ≠ "" → is_Some (lq_operation request) →
  portable (stamp_local_request (cl_token client) id request) →
  handle_safely handler (stamp_local_request (cl_token client) id request) s = (response, s') →
  portable (stamp_local_response id (default local_internal_error response)) → willing out → willing out' →
  Local_Call client random (Ok tt) ctxErr out (daemon_at (cl_token client) handler out' c c' ps ps') request s
    = (check_local id (stamp_local_response id (default local_internal_error response)), s').
Proof.
  intros Hid Hne [op Hop] Hreq Hhandle Hres Hout Hout'. unfold Local_Call. rewrite Hop, Hid. cbn [is_nil].
  destruct (portable_read IpcErrEmptyFrame IpcErrFrameTooLarge _ out c ps 0 Hreq Hout) as (sent & r & -> & Hread).
  unfold daemon_at, serveConnection. rewrite Hread, respond_authorised, Hhandle by (split_and!; [done..|by exists op]). cbn [lq_request_id stamp_local_request].
  destruct (portable_read IpcErrEmptyFrame IpcErrFrameTooLarge _ out' c' ps' 0 Hres Hout') as (sent' & r' & -> & Hread'). cbn [fst]. by rewrite Hread'.
Qed.

Lemma check_local_answer id response :
  check_local id (stamp_local_response id response) =
  match lp_error response with
  | Some failure => Err [IpcRemoteError (le_code failure) (le_message failure)]
  | None => Ok (stamp_local_response id response)
  end.
Proof. unfold check_local. cbn. by rewrite bool_decide_eq_true_2. Qed.

End Exchange.

(** ** The accept loop *)

Definition maximumConcurrentClients : nat := 64.

(** Connections are numbers.  [sv_waiting] is the connection that [Serve] has accepted
    and holds while it waits for a slot of the semaphore; [sv_finishing] are those whose
    request is over and whose slot is free, but which are still tracked; [sv_closed] are
    the connections that were closed, [sv_wait] is the counter of the wait group. *)
Record Server := MkServer {
  sv_connections : gset nat; sv_finishing : gset nat; sv_slots : nat; sv_wait : nat; sv_waiting : option nat; sv_closed : gset nat;
  sv_cancelled : bool; sv_listening : bool; sv_returned : bool
}.
Definition new_server : Server := MkServer ∅ ∅ 0 0 None ∅ false true false.

Definition closeConnections (s : Server) : Server :=
  MkServer (sv_connections s) (sv_finishing s) (sv_slots s) (sv_wait s) (sv_waiting s) (sv_connections s ∪ sv_closed s)
    (sv_cancelled s) (sv_listening s) (sv_returned s).
Definition stop_listening (s : Server) : Server :=
  MkServer (sv_connections s) (sv_finishing s) (sv_slots s) (sv_wait s) (sv_waiting s) (sv_closed s) (sv_cancelled s) false (sv_returned s).

(** The loop of [Serve], the goroutines that serve connections, and cancellation. *)
Inductive serve_step : Server → Server → Prop :=
| accepts s c : sv_listening s = true → sv_waiting s = None → sv_returned s = false → c ∉ sv_connections s → c ∉ sv_closed s →
    serve_step s (MkServer (sv_connections s) (sv_finishing s) (sv_slots s) (sv_wait s) (Some c) (sv_closed s) (sv_cancelled s) true false)
| takes_slot s c : sv_waiting s = Some c → sv_slots s < maximumConcurrentClients →
    serve_step s (MkServer ({[c]} ∪ sv_connections s) (sv_finishing s) (S (sv_slots s)) (S (sv_wait s)) None (sv_closed s) (sv_cancelled s)
      (sv_listening s) (sv_returned s))
| gives_up s c : sv_waiting s = Some c → sv_cancelled s = true →
    serve_step s (MkServer (sv_connections s) (sv_finishing s) (sv_slots s) (sv_wait s) None ({[c]} ∪ sv_closed s) true (sv_listening s) (sv_returned s))
| releases s c : c ∈ sv_connections s → c ∉ sv_finishing s →
    serve_step s (MkServer (sv_connections s) ({[c]} ∪ sv_finishing s) (sv_slots s - 1) (sv_wait s) (sv_waiting s) (sv_closed s)
      (sv_cancelled s) (sv_listening s) (sv_returned s))
| untracks s c : c ∈ sv_finishing s →
    serve_step s (MkServer (sv_connections s ∖ {[c]}) (sv_finishing s ∖ {[c]}) (sv_slots s) (sv_wait s - 1) (sv_waiting s) ({[c]} ∪ sv_closed s)
      (sv_cancelled s) (sv_listening s) (sv_returned s))
| cancels s : serve_step s (MkServer (sv_connections s) (sv_finishing s) (sv_slots s) (sv_wait s) (sv_waiting s) (sv_connections s ∪ sv_closed s)
    true false (sv_returned s))
| closes s : serve_step s (stop_listening (closeConnections s))
| fails s : sv_waiting s = None → serve_step s (stop_listening (closeConnections s))
| returns s : sv_listening s = false → sv_waiting s = None → sv_wait s = 0 →
    serve_step s (MkServer (sv_connections s) (sv_finishing s) (sv_slots s) 0 None (sv_closed s) (sv_cancelled s) false true).

Record server_ok (s : Server) : Prop := {
  so_slots : size (sv_connections s ∖ sv_finishing s) = sv_slots s;
  so_bound : sv_slots s ≤ maximumConcurrentClients;
  so_wait : size (sv_connections s) = sv_wait s;
  so_finishing : sv_finishing s ⊆ sv_connections s;
  so_fresh : ∀ c, sv_waiting s = Some c → c ∉ sv_connections s;
  so_returned : sv_returned s = true → sv_connections s = ∅ ∧ sv_waiting s = None
}.

Lemma serve_step_ok s s' : serve_step s s' → server_ok s → server_ok s'.
Proof.
  intros Hs [Hslots Hle Hwait Hfin Hw Hr]. destruct Hs; constructor; cbn in *; try done.
  - intros c' [= <-]. done.
  - assert (({[c]} ∪ sv_connections s) ∖ sv_finishing s = {[c]} ∪ sv_connections s ∖ sv_finishing s) as -> by (specialize (Hw c); set_solver).
    rewrite size_union, size_singleton by (specialize (Hw c); set_solver). lia.
  - rewrite size_union, size_singleton by (specialize (Hw c); set_solver). lia.
  - set_solver.
  - intros Hret. by destruct (Hr Hret) as [_ ?]; simplify_eq.
  - intros Hret. by destruct (Hr Hret) as [_ ?]; simplify_eq.
  - assert (sv_connections s ∖ ({[c]} ∪ sv_finishing s) = (sv_connections s ∖ sv_finishing s) ∖ {[c]}) as -> by set_solver.
    rewrite size_difference, size_singleton by set_solver. lia.
  - lia.
  - set_solver.
  - assert ((sv_connections s ∖ {[c]}) ∖ (sv_finishing s ∖ {[c]}) = sv_connections s ∖ sv_finishing s) as -> by set_solver. done.
  - rewrite size_difference, size_singleton by set_solver. lia.
  - set_solver.
  - intros c' Hc'. specialize (Hw c' Hc'). set_solver.
  - intros Hret. destruct (Hr Hret) as [Hz Hn]. split; [set_solver|done].
  - lia.
  - intros _. split; [|done]. apply leibniz_equiv, size_empty_iff. lia.
Qed.

(** The daemon handles at most 64 requests at a time, as many as slots of the
    semaphore are taken, and [Serve] returns only when no connection is left. *)
Theorem clients_bounded s : rtc serve_step new_server s →
  size (sv_connections s ∖ sv_finishing s) ≤ maximumConcurrentClients ∧ (sv_returned s = true → sv_connections s = ∅).
Proof.
  intros Hs. assert (server_ok s) as [Hslots Hle _ _ _ Hr].
  { assert (server_ok new_server) as H0 by (constructor; cbn; try done; unfold maximumConcurrentClients; lia).
    revert H0. induction Hs as [|s1 s2 s3 H12 _ IH]; [done|]. intros H1. by eapply IH, serve_step_ok. }
  split; [lia|]. intros Hret. apply Hr, Hret.
Qed.

(** ** Witnesses *)

Definition sample_ping (token : string) : LocalRequest := MkLocalRequest 6 "00" (bytes_of token) (Some (LOpPing (Some tt))).
Definition counting_local (request : LocalRequest) (n : nat) : LHandled * nat := (LReturned None, S n).

Lemma local_guarded_witness :
  ∃ sent, serveConnection (H := fixed_codec (sample_ping "wrong")) (H0 := fixed_codec local_internal_error) (bytes_of "right") counting_local trickle
    (MkReader (frame (bytes_of "m")) [IoEOF] id 0) 7 = (sent, 7).
Proof.
  pose proof (local_guarded (H := fixed_codec (sample_ping "wrong")) (H0 := fixed_codec local_internal_error) (bytes_of "right") counting_local trickle
    (MkReader (frame (bytes_of "m")) [IoEOF] id 0) 7 _ _ eq_refl) as Hs. cbn in Hs.
  destruct Hs as (response & Hsent & Hs & _). eexists. reflexivity.
Defined.
