(* ===== verification/LocalHandler.v ===== *)
(** * The local request handler (internal/app/orchestrator/local_handler.go)

    [LocalHandler.Handle] maps the requests of the command line to the services of the
    daemon.  The handler works against the interfaces of the source, the classes
    below; an optional interface ([handler.jobs.(JobIDController)]) is an operation
    that may be absent.  [error_text] is [err.Error()]. *)

From S2P Require Import Prelude GoText JobModel Effects Sql JobStore LogStore Execution ExecutionStore Worker Snapshot ContentCache Device Trust TrustStore Wire LocalWire Frames Remote LocalIpc ArtifactStore Hosts RemoteWorker.
From Stdlib Require Import Ascii.
Local Open Scope string_scope.
Local Open Scope nat_scope.
Local Open Scope list_scope.

(** ** Interfaces *)

Class JobController (S : Type) := {
  jobs_Submit : Spec → Run S Job;
  jobs_Get : string → Run S Job;
  jobs_List : ListOptions → Run S (list Job);
  jobs_Cancel : string → Run S Job;
  jobs_ReadLogs : string → Z → Z → Run S JobLogs;
  jobs_SubmitWithID : option (string → Spec → Run S Job);
  jobs_GetProgress : option (string → Run S (option Progress));
  jobs_RestoreArtifacts : option (string → string → Run S RestoreResult)
}.

Class PairedJobController (S : Type) := {
  paired_Submit : string → Spec → Run S Job;
  paired_Get : string → string → Run S Job;
  paired_List : string → ListOptions → Run S (list Job);
  paired_Cancel : string → string → Run S Job;
  paired_ReadLogs : string → string → Z → Z → Run S JobLogs;
  paired_SubmitWithID : option (string → string → Spec → Run S Job);
  paired_GetProgress : option (string → string → Run S (option Progress));
  paired_FetchArtifacts : option (string → string → string → Run S RestoreResult)
}.

Class DeviceController (S : Type) := { devices_ListNearby : Run S DiscoverySnapshot }.

Class PairingController (S : Type) := {
  pairings_Begin : string → Run S Pairing;
  pairings_List : Run S (list Pairing);
  pairings_Confirm : string → Run S Pairing;
  pairings_Reject : string → Run S Pairing;
  pairings_ListTrusted : Run S (list Peer);
  pairings_Unpair : string → Run S Peer;
  pairings_Refresh : option (DiscoverySnapshot → Run S (list Peer))
}.

(** [remoteconn.State] and its statuses. *)
Inductive ConnStatus := StatusConnecting | StatusConnected | StatusUnavailable | StatusNone.
Record ConnState := MkConnState {
  cs_DeviceID : string; cs_Name : string; cs_Status : ConnStatus; cs_PathKind : string; cs_LastError : string; cs_UpdatedAt : Z
}.
(** Absent when no rendezvous service is configured. *)
Class ConnectivityController (S : Type) := { connectivity_States : option (S → list ConnState) }.

(** ** The device *)

Record LocalDeviceInfo := MkLocalDeviceInfo {
  li_DeviceID : string; li_Name : string; li_Role : string; li_Platform : string; li_Architecture : string;
  li_LogicalCPUCount : Z; li_TotalMemoryBytes : Z; li_ToolIDs : list string; li_SupportedExecutors : list string
}.

Definition Local_Validate `{UnicodeCase} (info : LocalDeviceInfo) : result unit :=
  reject_if (negb (DeviceID_Valid (li_DeviceID info)) || failed (ValidateName (li_Name info))
    || (negb (bool_decide (li_Role info = RoleWorker)) && negb (bool_decide (li_Role info = RoleOrchestrator)))
    || (4096 <? li_LogicalCPUCount info)%Z) [OrchErrInvalidLocalDevice].

Definition localDeviceRoleToProto (role : string) : Z :=
  if bool_decide (role = RoleWorker) then 1%Z else if bool_decide (role = RoleOrchestrator) then 2%Z else 0%Z.
Definition supportedExecutorsToLocalProto (values : list string) : list Z :=
  omap (λ value, match executor_of_string value with ExecutorNative => Some 1%Z | ExecutorContainer => Some 2%Z | ExecutorOther _ => None end) values.

(** What the handler keeps: the interfaces are classes; whether each is there and how
    many connectivity controllers are given are arguments. *)
Record LocalState := MkLocalState { lh_connectivity : bool; lh_local : LocalDeviceInfo; lh_version : string }.
Definition no_device : LocalDeviceInfo := MkLocalDeviceInfo "" "" "" "" "" 0 0 [] [].

Definition NewLocalHandler (jobs remote devices pairings : bool) (version : string) (connectivity : nat) : result LocalState :=
  _ ← reject_if (negb jobs) [OrchErrMissingController "job"];
  _ ← reject_if (negb remote) [OrchErrMissingController "remote"];
  _ ← reject_if (negb devices) [OrchErrMissingController "device"];
  _ ← reject_if (negb pairings) [OrchErrMissingController "pairing"];
  _ ← reject_if (1 <? connectivity) [OrchErrInvalidConnectivity];
  Ok (MkLocalState (connectivity =? 1) no_device version).

Definition SetLocalDevice `{UnicodeCase} (local : LocalDeviceInfo) (handler : LocalState) : result LocalState :=
  _ ← Local_Validate local;
  Ok (MkLocalState (lh_connectivity handler) local (lh_version handler)).

Definition NewLocalHandlerWithLocalDevice `{UnicodeCase} (jobs remote devices pairings : bool) (local : LocalDeviceInfo) (version : string)
    (connectivity : nat) : result LocalState :=
  handler ← NewLocalHandler jobs remote devices pairings version connectivity;
  SetLocalDevice local handler.

(** ** Errors *)

Section Errors.
Context (error_text : list sentinel → string).

(** [errors.As] with a [*remoteprotocol.Error]. *)
Fixpoint as_remote_error (err : list sentinel) : option (Z * string) :=
  match err with
  | [] => None
  | RemoteError code message :: _ => Some (code, message)
  | _ :: rest => as_remote_error rest
  end.

Definition remote_code (code : Z) : Z :=
  if (code =? CodeInvalidArgument)%Z then LCodeInvalidArgument
  else if (code =? CodeNotFound)%Z then LCodeNotFound
  else if (code =? CodeConflict)%Z then LCodeConflict
  else if (code =? CodeJobTerminal)%Z then LCodeJobTerminal
  else if (code =? CodeUnauthenticated)%Z then LCodeUnauthenticated
  else if (code =? CodeUnsupportedVersion)%Z then LCodeUnsupportedVersion
  else LCodeInternal.

Definition local_invalid_errors : list sentinel :=
  [JobErrInvalidID; JobErrInvalidSpec; JobErrInvalidJob; JobErrInvalidState; JobErrInvalidTransition; JobErrInvalidProgress;
   LogErrInvalidPage; LogErrInvalidRecord; TrustErrInvalidPairID; TrustErrInvalidPairing; TrustErrInvalidPeer; DeviceErrInvalidID;
   ArtifactErrInvalidBundle; ArtifactErrInvalidDestination].
Definition local_missing_errors : list sentinel :=
  [JobErrNotFound; LogErrNotFound; TrustErrNotFound; TrustErrPairingNotFound; NearbyErrNotFound; ArtifactErrNotFound].
Definition local_conflict_errors : list sentinel :=
  [JobErrConflict; TrustErrConflict; ArtifactErrConflict; NearbyErrAmbiguous; CacheErrQuotaExceeded; CacheErrReservationLimit;
   OrchErrWorkerIncompatible].

Definition errorResponse (err : list sentinel) : LocalResponse :=
  match as_remote_error err with
  | Some (code, message) => failureResponse (remote_code code) message
  | None =>
      if is_any err local_invalid_errors then failureResponse LCodeInvalidArgument (error_text err)
      else if is_any err local_missing_errors then failureResponse LCodeNotFound (error_text err)
      else if is_any err local_conflict_errors then failureResponse LCodeConflict (error_text err)
      else if errors_is err WorkerErrJobTerminal then failureResponse LCodeJobTerminal (error_text err)
      else if is_any err [WorkerErrArtifactsDisabled; WorkerErrArtifactsNotReady] then failureResponse LCodeConflict (error_text err)
      else if errors_is err TrustErrPairingUnavailable then failureResponse LCodePairingUnavailable (error_text err)
      else if errors_is err OrchErrWorkerUnavailable then failureResponse LCodeDeviceUnavailable (error_text err)
      else if errors_is err OrchErrPlacementPersistence then failureResponse LCodeInternal (error_text err)
      else failureResponse LCodeInternal "internal daemon error"
  end.
End Errors.

(** ** Replies *)

(** A handler either answers, or fails with an error for [errorResponse]
    or with the response of [failureResponse] itself. *)
Inductive failure := Errored (e : list sentinel) | Refused (code : Z) (message : string).
Definition Reply (S A : Type) : Type := S → (A + failure) * S.
#[global] Instance Reply_ret {S} : MRet (Reply S) := λ A a s, (inl a, s).
#[global] Instance Reply_bind {S} : MBind (Reply S) := λ A B f m s,
  match m s with (inl a, s') => f a s' | (inr e, s') => (inr e, s') end.

Section Replies.
Context {S : Type}.
(** [if err != nil { return errorResponse(err) }] after a call. *)
Definition call {A} (m : Run S A) : Reply S A := λ s, match m s with (Ok a, s') => (inl a, s') | (Err e, s') => (inr (Errored e), s') end.
Definition check {A} (r : result A) : Reply S A := λ s, match r with Ok a => (inl a, s) | Err e => (inr (Errored e), s) end.
Definition refuse {A} (code : Z) (message : string) : Reply S A := λ s, (inr (Refused code message), s).
(** A message that must be there. *)
Definition required {A} (request : option A) (message : string) : Reply S A :=
  match request with None => refuse LCodeInvalidArgument message | Some r => mret r end.
(** A selector that must not be empty. *)
Definition selector (request : option string) (message : string) : Reply S string :=
  value ← required request message;
  if bool_decide (value = "") then refuse LCodeInvalidArgument message else mret value.
(** An operation on a job, here or at the worker that has it. *)
Definition routed {A} (remoteOperation : bool) (remote local : Run S A) : Reply S A := call (if remoteOperation then remote else local).
End Replies.

(** ** LocalHandler *)

Section Handler.
Context {S : Type} `{JobController S} `{PairedJobController S} `{DeviceController S} `{PairingController S} `{ConnectivityController S}.
Context `{UnicodeCase} (sha256 : bytes → bytes) (error_text : list sentinel → string).
(** [handler.local] and [handler.version]; the zero value has an empty name. *)
Context (local : LocalDeviceInfo) (version : string).

Definition maximumLocalListLimit : Z := 500.

Definition shouldRouteRemotely (selector id : string) : Reply S bool := λ s,
  if negb (bool_decide (selector = "")) then (inl true, s)
  else match jobs_Get id s with
  | (Ok _, s') => (inl false, s')
  | (Err e, s') => if errors_is e JobErrNotFound then (inl true, s') else (inr (Errored e), s')
  end.

Definition ping : PingMessage :=
  if bool_decide (li_Name local = "") then MkPingMessage version "" "" 0 "" "" 0 0 [] []
  else MkPingMessage version (li_DeviceID local) (li_Name local) (localDeviceRoleToProto (li_Role local)) (li_Platform local)
    (li_Architecture local) (li_LogicalCPUCount local) (li_TotalMemoryBytes local) (li_ToolIDs local)
    (supportedExecutorsToLocalProto (li_SupportedExecutors local)).

Definition local_submit (request : option LSubmitJob) : Reply S LocalResult :=
  request ← required request "submit request is required";
  spec ← check (SpecFromProto (lsj_spec request));
  requestedID ← (if bool_decide (lsj_job_id request = "") then mret "" else check (ParseID (lsj_job_id request)));
  value ← (if bool_decide (lsj_device_selector request = "") then
      if ID_Valid requestedID then
        match jobs_SubmitWithID with
        | None => refuse LCodeUnsupportedVersion "local daemon does not support client-provided job IDs"
        | Some submit => call (submit requestedID spec)
        end
      else call (jobs_Submit spec)
    else
      if ID_Valid requestedID then
        match paired_SubmitWithID with
        | None => refuse LCodeUnsupportedVersion "remote job controller does not support client-provided job IDs"
        | Some submit => call (submit (lsj_device_selector request) requestedID spec)
        end
      else call (paired_Submit (lsj_device_selector request) spec));
  message ← check (JobToProto value);
  mret (LResSubmitJob message).

Definition local_get (request : option LJobRef) : Reply S LocalResult :=
  request ← required request "get request is required";
  id ← check (ParseID (ljr_job_id request));
  remoteOperation ← shouldRouteRemotely (ljr_device_selector request) id;
  value ← routed remoteOperation (paired_Get (ljr_device_selector request) id) (jobs_Get id);
  message ← check (JobToProto value);
  mret (LResGetJob message).

Definition local_cancel (request : option LJobRef) : Reply S LocalResult :=
  request ← required request "cancel request is required";
  id ← check (ParseID (ljr_job_id request));
  remoteOperation ← shouldRouteRemotely (ljr_device_selector request) id;
  value ← routed remoteOperation (paired_Cancel (ljr_device_selector request) id) (jobs_Cancel id);
  message ← check (JobToProto value);
  mret (LResCancelJob message).

Definition local_getJobProgress (request : option LJobRef) : Reply S LocalResult :=
  request ← required request "progress request is required";
  id ← check (ParseID (ljr_job_id request));
  progress ← (if bool_decide (ljr_device_selector request = "")
    then match jobs_GetProgress with Some get => call (get id) | None => mret None end
    else match paired_GetProgress with Some get => call (get (ljr_device_selector request) id) | None => mret None end);
  message ← check (optional ProgressToProto progress);
  mret (LResGetJobProgress message).

Fixpoint jobs_to_proto (values : list Job) : result (list JobMessage) :=
  match values with
  | [] => Ok []
  | value :: rest => m ← JobToProto value; ms ← jobs_to_proto rest; Ok (m :: ms)
  end.

Definition local_list (request : option LListJobs) : Reply S LocalResult :=
  request ← required request "list request is required";
  _ ← (if (maximumLocalListLimit <? llj_limit request)%Z then refuse LCodeInvalidArgument "job list limit cannot exceed 500" else mret tt);
  states ← check (StatesFromProto (llj_states request));
  let options := MkListOptions states (llj_limit request) in
  values ← (if bool_decide (llj_device_selector request = "") then call (jobs_List options)
            else call (paired_List (llj_device_selector request) options));
  messages ← check (jobs_to_proto values);
  mret (LResListJobs messages).

Definition local_readLogs (request : option LReadLogs) : Reply S LocalResult :=
  request ← required request "log request is required";
  _ ← (if (MaximumPageLimit <? lrl_limit request)%Z then refuse LCodeInvalidArgument "job log limit cannot exceed 32" else mret tt);
  id ← check (ParseID (lrl_job_id request));
  remoteOperation ← shouldRouteRemotely (lrl_device_selector request) id;
  result ← routed remoteOperation (paired_ReadLogs (lrl_device_selector request) id (lrl_after_sequence request) (lrl_limit request))
    (jobs_ReadLogs id (lrl_after_sequence request) (lrl_limit request));
  job ← check (JobToProto (LogsJob result));
  records ← check (LogRecordsToProto (Records (LogsPage result)));
  mret (LResReadJobLogs (MkLLogs job records (HasMore (LogsPage result)))).

Definition wrap_count (l : list string) : Z := (Z.of_nat (length l) `mod` 2 ^ 32)%Z.

Definition local_fetchArtifacts (request : option LFetch) : Reply S LocalResult :=
  request ← required request "artifact destination is required";
  _ ← (if bool_decide (lfa_destination request = "") then refuse LCodeInvalidArgument "artifact destination is required" else mret tt);
  id ← check (ParseID (lfa_job_id request));
  remoteOperation ← shouldRouteRemotely (lfa_device_selector request) id;
  result ← (if remoteOperation : bool then
      match paired_FetchArtifacts with
      | None => check (Err [WorkerErrArtifactsDisabled])
      | Some fetch => call (fetch (lfa_device_selector request) id (lfa_destination request))
      end
    else
      match jobs_RestoreArtifacts with
      | None => check (Err [WorkerErrArtifactsDisabled])
      | Some restore => call (restore id (lfa_destination request))
      end);
  let result := NormalizeResult result in
  _ ← check (RestoreResult_Validate result);
  mret (LResFetchArtifacts (MkLFetched (Destination result) (wrap_count (Restored result)) (wrap_count (Conflicts result)))).

(** *** Devices and pairings *)

(** [states[state.DeviceID] = state] in order: the last one stays. *)
Definition state_of (states : list ConnState) (id : string) : ConnState :=
  default (MkConnState "" "" StatusNone "" "" zero_time) (list_find_val (λ st, bool_decide (cs_DeviceID st = id)) (reverse states)).

Definition with_connectivity (m : TrustedMessage) (state : Z) (path err : string) (updated : Z) : TrustedMessage :=
  MkTrustedMessage (tm_pair_id m) (tm_device_id m) (tm_public_key m) (tm_name m) (tm_role m) (tm_trust_state m)
    (tm_paired_at_unix_nano m) (tm_updated_at_unix_nano m) (tm_revoked_at_unix_nano m) state path err updated
    (tm_platform m) (tm_arch m) (tm_logical_cpu_count m) (tm_total_memory_bytes m) (tm_hints_observed_at_unix_nano m)
    (tm_tool_ids m) (tm_supported_executors m).

Definition applyConnectivityState (message : TrustedMessage) (peer : Peer) (state : ConnState) (enabled : bool) : TrustedMessage :=
  if negb enabled || negb (bool_decide (PeerState peer = TrustActive)) then
    with_connectivity message 1 (tm_connectivity_path message) (tm_connectivity_error message) (tm_connectivity_updated_at_unix_nano message)
  else if negb (Secret_Valid (ConnectivitySecret peer)) then
    with_connectivity message 4 (tm_connectivity_path message) "re-pair this device to enable remote connectivity"
      (tm_connectivity_updated_at_unix_nano message)
  else
    with_connectivity message (match cs_Status state with StatusConnected => 3%Z | StatusUnavailable => 4%Z | _ => 2%Z end)
      (cs_PathKind state) (cs_LastError state)
      (if is_zero_time (cs_UpdatedAt state) then tm_connectivity_updated_at_unix_nano message else unix_nano (cs_UpdatedAt state)).

Fixpoint peers_to_proto (states : list ConnState) (enabled : bool) (values : list Peer) : result (list TrustedMessage) :=
  match values with
  | [] => Ok []
  | value :: rest =>
      m ← TrustedPeerToProto sha256 value;
      ms ← peers_to_proto states enabled rest;
      Ok (applyConnectivityState m value (state_of states (DeviceID value)) enabled :: ms)
  end.
Definition trustedPeersToProto (values : list Peer) : Reply S (list TrustedMessage) :=
  match connectivity_States with
  | None => check (peers_to_proto [] false values)
  | Some states => λ s, check (peers_to_proto (states s) true values) s
  end.

Definition listTrustedWithHints (snapshot : DiscoverySnapshot) : Reply S (list Peer) :=
  match pairings_Refresh with Some refresh => call (refresh snapshot) | None => call pairings_ListTrusted end.

Definition local_listDevices (request : option unit) : Reply S LocalResult :=
  _ ← required request "device list request is required";
  snapshot ← call devices_ListNearby;
  message ← check (DiscoverySnapshotToProto snapshot);
  trusted ← listTrustedWithHints snapshot;
  messages ← trustedPeersToProto trusted;
  mret (LResListDevices (MkDevicesMessage (dm_devices message) (dm_discovery_state message) (dm_discovery_error message)
    (dm_discovery_started_at_unix_nano message) messages)).

Definition local_beginPairing (request : option string) : Reply S LocalResult :=
  chosen ← selector request "device selector is required";
  value ← call (pairings_Begin chosen);
  message ← check (PairingToProto sha256 value);
  mret (LResBeginPairing message).

Fixpoint pairings_to_proto (values : list Pairing) : result (list PairingMessage) :=
  match values with
  | [] => Ok []
  | value :: rest => m ← PairingToProto sha256 value; ms ← pairings_to_proto rest; Ok (m :: ms)
  end.
Definition local_listPairings (request : option unit) : Reply S LocalResult :=
  _ ← required request "pairing list request is required";
  values ← call pairings_List;
  messages ← check (pairings_to_proto values);
  mret (LResListPairings messages).

Definition local_confirmPairing (request : option string) : Reply S LocalResult :=
  chosen ← selector request "pairing selector is required";
  value ← call (pairings_Confirm chosen);
  message ← check (PairingToProto sha256 value);
  mret (LResConfirmPairing message).

Definition local_rejectPairing (request : option string) : Reply S LocalResult :=
  chosen ← selector request "pairing selector is required";
  value ← call (pairings_Reject chosen);
  message ← check (PairingToProto sha256 value);
  mret (LResRejectPairing message).

Definition local_listTrustedDevices (request : option unit) : Reply S LocalResult :=
  _ ← required request "trusted-device list request is required";
  values ← call pairings_ListTrusted;
  messages ← trustedPeersToProto values;
  mret (LResListTrustedDevices messages).

Definition local_unpairDevice (request : option string) : Reply S LocalResult :=
  chosen ← selector request "device selector is required";
  peer ← call (pairings_Unpair chosen);
  message ← check (TrustedPeerToProto sha256 peer);
  mret (LResUnpairDevice message).

(** *** Handle *)

Definition dispatch (operation : option LocalOperation) : Reply S LocalResult :=
  match operation with
  | Some (LOpPing _) => mret (LResPing ping)
  | Some (LOpSubmitJob r) => local_submit r
  | Some (LOpGetJob r) => local_get r
  | Some (LOpListJobs r) => local_list r
  | Some (LOpCancelJob r) => local_cancel r
  | Some (LOpReadJobLogs r) => local_readLogs r
  | Some (LOpListDevices r) => local_listDevices r
  | Some (LOpBeginPairing r) => local_beginPairing r
  | Some (LOpListPairings r) => local_listPairings r
  | Some (LOpConfirmPairing r) => local_confirmPairing r
  | Some (LOpRejectPairing r) => local_rejectPairing r
  | Some (LOpListTrustedDevices r) => local_listTrustedDevices r
  | Some (LOpUnpairDevice r) => local_unpairDevice r
  | Some (LOpFetchArtifacts r) => local_fetchArtifacts r
  | Some (LOpGetJobProgress r) => local_getJobProgress r
  | None => refuse LCodeInvalidArgument "unsupported local operation"
  end.

Definition to_response (r : LocalResult + failure) : LocalResponse :=
  match r with
  | inl result => local_result result
  | inr (Errored e) => errorResponse error_text e
  | inr (Refused code message) => failureResponse code message
  end.

Definition Local_Handle (request : LocalRequest) (s : S) : LocalResponse * S :=
  let '(r, s') := dispatch (lq_operation request) s in (to_response r, s').

End Handler.

(** ** What an answer is *)

Section Typed.
Context {S : Type} `{JobController S} `{PairedJobController S} `{DeviceController S} `{PairingController S} `{ConnectivityController S}.
Context `{UnicodeCase} (sha256 : bytes → bytes) (error_text : list sentinel → string) (local : LocalDeviceInfo) (version : string).

(** Messages that stand for values of the domain. *)
Definition job_message (m : JobMessage) : Prop := ∃ j, Job_Validate j = Ok tt ∧ JobToProto j = Ok m.
Definition progress_message (m : ProgressMessage) : Prop := ∃ p, Progress_Validate p = Ok tt ∧ ProgressToProto p = Ok m.
Definition pairing_message (m : PairingMessage) : Prop := ∃ p, Pairing_Validate sha256 p = Ok tt ∧ PairingToProto sha256 p = Ok m.
(** A trusted device with the state of its connection. *)
Definition trusted_message (m : TrustedMessage) : Prop :=
  ∃ p t, Peer_Validate sha256 p = Ok tt ∧ TrustedPeerToProto sha256 p = Ok t ∧
    m = with_connectivity t (tm_connectivity_state m) (tm_connectivity_path m) (tm_connectivity_error m) (tm_connectivity_updated_at_unix_nano m).

(** The result that an operation has, with well-formed contents. *)
Definition answers (operation : option LocalOperation) (r : LocalResult) : Prop :=
  match operation, r with
  | Some (LOpPing _), LResPing m => m = ping local version
  | Some (LOpSubmitJob _), LResSubmitJob m => job_message m
  | Some (LOpGetJob (Some q)), LResGetJob m => job_message m
  | Some (LOpListJobs (Some q)), LResListJobs ms => (llj_limit q ≤ maximumLocalListLimit)%Z ∧ Forall job_message ms
  | Some (LOpCancelJob (Some q)), LResCancelJob m => job_message m
  | Some (LOpReadJobLogs (Some q)), LResReadJobLogs l =>
      (lrl_limit q ≤ MaximumPageLimit)%Z ∧ job_message (llr_job l) ∧ Forall (λ m, lm_sequence m ≠ 0%Z ∧ lm_data m ≠ [] ∧ lm_stream m ∈ [1; 2]%Z) (llr_records l)
  | Some (LOpListDevices _), LResListDevices m => Forall trusted_message (dm_trusted_devices m) ∧ Forall (λ n, nm_trust_state n = 1%Z) (dm_devices m)
  | Some (LOpBeginPairing _), LResBeginPairing m => pairing_message m
  | Some (LOpListPairings _), LResListPairings ms => Forall pairing_message ms
  | Some (LOpConfirmPairing _), LResConfirmPairing m => pairing_message m
  | Some (LOpRejectPairing _), LResRejectPairing m => pairing_message m
  | Some (LOpListTrustedDevices _), LResListTrustedDevices ms => Forall trusted_message ms
  | Some (LOpUnpairDevice _), LResUnpairDevice m => trusted_message m
  | Some (LOpFetchArtifacts _), LResFetchArtifacts f => filepath_IsAbs (lff_destination f) = true
  | Some (LOpGetJobProgress _), LResGetJobProgress o => match o with Some m => progress_message m | None => True end
  | _, _ => False
  end.

(** [replies m Q]: what [m] answers, if it does, satisfies [Q]. *)
Definition replies {A} (m : Reply S A) (Q : A → Prop) : Prop := ∀ s, match (m s).1 with inl a => Q a | inr _ => True end.

Lemma replies_bind {A B} (m : Reply S A) (f : A → Reply S B) P Q : replies m P → (∀ a, P a → replies (f a) Q) → replies (m ≫= f) Q.
Proof.
  intros Hm Hf s. specialize (Hm s). unfold mbind, Reply_bind. destruct (m s) as [[a|e] s']; cbn in *; [by apply Hf|done].
Qed.
Lemma replies_any {A} (m : Reply S A) : replies m (λ _, True).
Proof. intros s. by destruct (m s) as [[]]. Qed.
Lemma replies_ret {A} (a : A) (Q : A → Prop) : Q a → replies (mret a) Q.
Proof. by intros Ha s. Qed.
Lemma replies_check {A} (r : result A) (Q : A → Prop) : (∀ a, r = Ok a → Q a) → replies (check r) Q.
Proof. intros Hr s. unfold check. destruct r; cbn; [by apply Hr|done]. Qed.
Lemma replies_required {A} (r : option A) message : replies (required r message) (λ a, r = Some a).
Proof. intros s. by destruct r. Qed.

Lemma replies_after {A B} (m : Reply S A) (f : A → Reply S B) Q : (∀ a, replies (f a) Q) → replies (m ≫= f) Q.
Proof. intros Hf. eapply replies_bind; [apply replies_any|]. auto. Qed.
(** The conversion of a value and the result that holds it. *)
Lemma replies_value {A M} (convert : A → result M) (C : M → LocalResult) (m : Reply S A) (P : M → Prop) (Q : LocalResult → Prop) :
  (∀ a msg, convert a = Ok msg → P msg) → (∀ msg, P msg → Q (C msg)) → replies (v ← m; msg ← check (convert v); mret (C msg)) Q.
Proof.
  intros Hc HQ. apply replies_after. intros a. eapply replies_bind; [apply replies_check, Hc|]. intros msg Hm. by apply replies_ret, HQ.
Qed.

Lemma to_job v m : JobToProto v = Ok m → job_message m.
Proof. intros Hm. exists v. split; [|done]. by apply result_bind_ok in Hm as ([] & ? & _). Qed.
Lemma to_pairing v m : PairingToProto sha256 v = Ok m → pairing_message m.
Proof. intros Hm. exists v. split; [|done]. by apply result_bind_ok in Hm as ([] & ? & _). Qed.
Lemma to_progress o m : optional ProgressToProto o = Ok m → match m with Some p => progress_message p | None => True end.
Proof.
  destruct o as [p|]; [|by intros [= <-]]. intros (q & Hq & [= <-])%result_bind_ok. exists p. split; [|done].
  by apply result_bind_ok in Hq as ([] & ? & _).
Qed.
Lemma to_jobs values ms : jobs_to_proto values = Ok ms → Forall job_message ms.
Proof.
  revert ms. induction values as [|v values IH]; intros ms; cbn [jobs_to_proto]; [intros [= <-]; constructor|].
  intros (m & Hm & (ms' & Hms & [= <-])%result_bind_ok)%result_bind_ok. constructor; [by eapply to_job|by apply IH].
Qed.
Lemma to_pairings values ms : pairings_to_proto sha256 values = Ok ms → Forall pairing_message ms.
Proof.
  revert ms. induction values as [|v values IH]; intros ms; cbn [pairings_to_proto]; [intros [= <-]; constructor|].
  intros (m & Hm & (ms' & Hms & [= <-])%result_bind_ok)%result_bind_ok. constructor; [by eapply to_pairing|by apply IH].
Qed.
Lemma to_trusted v m : TrustedPeerToProto sha256 v = Ok m → ∀ st enabled, trusted_message (applyConnectivityState m v st enabled).
Proof.
  intros Hm st enabled. exists v, m. split_and!; [by apply result_bind_ok in Hm as ([] & ? & _)|done|].
  unfold applyConnectivityState. destruct (_ || _); [done|]. by destruct (negb _).
Qed.
Lemma to_peers states enabled values ms : peers_to_proto sha256 states enabled values = Ok ms → Forall trusted_message ms.
Proof.
  revert ms. induction values as [|v values IH]; intros ms; cbn [peers_to_proto]; [intros [= <-]; constructor|].
  intros (m & Hm & (ms' & Hms & [= <-])%result_bind_ok)%result_bind_ok. constructor; [by apply to_trusted|by apply IH].
Qed.
Lemma replies_peers values : replies (trustedPeersToProto sha256 values) (Forall trusted_message).
Proof.
  unfold trustedPeersToProto. destruct connectivity_States as [states|]; intros s.
  - apply (replies_check _ _ (to_peers (states s) true values)).
  - apply (replies_check _ _ (to_peers [] false values)).
Qed.
Lemma to_records records ms : LogRecordsToProto records = Ok ms →
  Forall (λ m, lm_sequence m ≠ 0%Z ∧ lm_data m ≠ [] ∧ lm_stream m ∈ [1; 2]%Z) ms.
Proof.
  revert ms. induction records as [|r records IH]; intros ms; cbn [LogRecordsToProto]; [intros [= <-]; constructor|].
  intros (m & Hm & (ms' & Hms & [= <-])%result_bind_ok)%result_bind_ok. constructor; [|by apply IH].
  apply result_bind_ok in Hm as (stream & Hs & ([] & Hc%reject_if_ok & [= <-])%result_bind_ok). reflect_bools. cbn. split_and!; [done| |].
  - by destruct (RecordData r).
  - destruct (RecordStream r); [injection Hs as <-; set_solver..|done].
Qed.
Lemma to_nearby values ms : nearby_messages values = Ok ms → Forall (λ n, nm_trust_state n = 1%Z) ms.
Proof.
  revert ms. induction values as [|v values IH]; intros ms; cbn [nearby_messages]; [intros [= <-]; constructor|].
  intros (m & Hm & (ms' & Hms & [= <-])%result_bind_ok)%result_bind_ok. constructor; [|by apply IH].
  apply result_bind_ok in Hm as ([] & _ & Hm). by apply result_bind_ok in Hm as (role & _ & [= <-]).
Qed.

(** A limit that is not exceeded. *)
Lemma replies_limit (maximum limit : Z) code message :
  replies (if (maximum <? limit)%Z then refuse code message else mret tt) (λ _, (limit ≤ maximum)%Z).
Proof. intros s. destruct (Z.ltb_spec maximum limit); cbn; [done|lia]. Qed.

Lemma dispatch_typed operation : replies (dispatch sha256 local version operation) (answers operation).
Proof.
  destruct operation as [[r|r|r|r|r|r|r|r|r|r|r|r|r|r|r]|]; [..|by intros s]; cbn [dispatch].
  - by apply replies_ret.
  - do 3 (apply replies_after; intros ?). apply (replies_value _ _ _ _ _ to_job). done.
  - eapply replies_bind; [apply replies_required|intros q ->]. do 2 (apply replies_after; intros ?). apply (replies_value _ _ _ _ _ to_job). done.
  - eapply replies_bind; [apply replies_required|intros q ->]. eapply replies_bind; [apply replies_limit|cbn beta; intros _ Hl].
    apply replies_after; intros ?. apply (replies_value _ _ _ _ _ to_jobs). done.
  - eapply replies_bind; [apply replies_required|intros q ->]. do 2 (apply replies_after; intros ?). apply (replies_value _ _ _ _ _ to_job). done.
  - eapply replies_bind; [apply replies_required|intros q ->]. eapply replies_bind; [apply replies_limit|cbn beta; intros _ Hl].
    do 3 (apply replies_after; intros ?). eapply replies_bind; [apply replies_check, to_job|intros j Hj].
    eapply replies_bind; [apply replies_check, to_records|intros rs Hr]. by apply replies_ret.
  - do 2 (apply replies_after; intros ?). eapply replies_bind; [apply (replies_check _ (λ m, Forall (λ n, nm_trust_state n = 1%Z) (dm_devices m)))|].
    { intros m (ds & Hd & [= <-])%result_bind_ok. by eapply to_nearby. }
    intros m Hm. apply replies_after; intros trusted. eapply replies_bind; [apply replies_peers|intros ms Hms]. by apply replies_ret.
  - apply replies_after; intros ?. apply (replies_value _ _ _ _ _ to_pairing). done.
  - apply replies_after; intros ?. apply (replies_value _ _ _ _ _ to_pairings). done.
  - apply replies_after; intros ?. apply (replies_value _ _ _ _ _ to_pairing). done.
  - apply replies_after; intros ?. apply (replies_value _ _ _ _ _ to_pairing). done.
  - do 2 (apply replies_after; intros ?). eapply replies_bind; [apply replies_peers|intros ms Hms]. by apply replies_ret.
  - apply replies_after; intros ?. apply (replies_value _ _ _ trusted_message); [|done].
    intros p m Hm. exists p, m. split_and!; [by apply result_bind_ok in Hm as ([] & ? & _)|done|by destruct m].
  - do 5 (apply replies_after; intros ?). eapply replies_bind.
    { apply (replies_check _ (λ _, filepath_IsAbs (Destination (NormalizeResult a3)) = true)).
      intros [] (u & Hc%reject_if_ok & _)%result_bind_ok. by apply negb_false_iff in Hc. }
    intros u Hd. by apply replies_ret.
  - do 2 (apply replies_after; intros ?). apply (replies_value _ _ _ _ _ to_progress). done.
Qed.

(** Every refusal has a code. *)
Definition coded {A} (m : Reply S A) : Prop := ∀ s, match (m s).1 with inr (Refused code _) => (1 ≤ code ≤ 9)%Z | _ => True end.
Lemma coded_bind {A B} (m : Reply S A) (f : A → Reply S B) : coded m → (∀ a, coded (f a)) → coded (m ≫= f).
Proof. intros Hm Hf s. specialize (Hm s). unfold mbind, Reply_bind. destruct (m s) as [[a|e] s']; cbn in *; [by apply Hf|done]. Qed.
Lemma coded_ret {A} (a : A) : coded (mret a).
Proof. done. Qed.
Lemma coded_call {A} (m : Run S A) : coded (call m).
Proof. intros s. unfold call. by destruct (m s) as [[]]. Qed.
Lemma coded_check {A} (r : result A) : coded (check r).
Proof. intros s. by destruct r. Qed.
Lemma coded_refuse {A} code message : (1 ≤ code ≤ 9)%Z → coded (refuse (A := A) code message).
Proof. by intros Hc s. Qed.
Lemma coded_routes chosen id : coded (shouldRouteRemotely chosen id).
Proof. intros s. unfold shouldRouteRemotely. destruct (negb _); [done|]. destruct (jobs_Get id s) as [[]]; [done|]. by destruct (errors_is _ _). Qed.
Lemma coded_peers values : coded (trustedPeersToProto sha256 values).
Proof. unfold trustedPeersToProto. destruct connectivity_States; intros s; apply coded_check. Qed.

Lemma dispatch_coded operation : coded (dispatch sha256 local version operation).
Proof.
  destruct operation as [[r|r|r|r|r|r|r|r|r|r|r|r|r|r|r]|]; cbn [dispatch];
  repeat first [ apply coded_ret | apply coded_call | apply coded_check | apply coded_routes | apply coded_peers | apply coded_refuse; done
    | apply coded_bind; [|intros ?] | match goal with |- coded (match ?x with _ => _ end) => destruct x end
    | progress unfold required, selector, routed, listTrustedWithHints ].
Qed.

Lemma error_response_coded e : lp_result (errorResponse error_text e) = None ∧
  ∃ code message, lp_error (errorResponse error_text e) = Some (MkLocalError code message) ∧ (1 ≤ code ≤ 9)%Z.
Proof.
  unfold errorResponse, remote_code. repeat case_match; (split; [done|]); eexists _, _; (split; [done|]); done.
Qed.

(** C29 An answer of the daemon has the type its request asks for.  It is either an
    error with one of the nine codes and no result, or the result of the requested
    operation and no error: jobs, pairings, trusted devices and progress in it stand
    for valid values of the domain, log records are numbered and not empty, nearby
    devices are marked as not trusted, and limits were kept. *)
Theorem local_answer_typed request s :
  let response := (Local_Handle sha256 error_text local version request s).1 in
  (lp_error response = None ∧ ∃ r, lp_result response = Some r ∧ answers (lq_operation request) r) ∨
  (lp_result response = None ∧ ∃ code message, lp_error response = Some (MkLocalError code message) ∧ (1 ≤ code ≤ 9)%Z).
Proof.
  unfold Local_Handle. pose proof (dispatch_typed (lq_operation request) s) as Ht.
  destruct (dispatch sha256 local version (lq_operation request) s) as [[r|[e|code message]] s'] eqn:E; cbn in *.
  - left. eauto.
  - right. apply error_response_coded.
  - right. split; [done|]. eexists _, _. split; [done|]. pose proof (dispatch_coded (lq_operation request) s) as Hc. by rewrite E in Hc.
Qed.
End Typed.

(** ** Secrets *)

(** The same peer, perhaps with another secret. *)
Record alike (p q : Peer) : Prop := {
  al_public : without_secret p = without_secret q;
  al_valid : Secret_Valid (ConnectivitySecret p) = Secret_Valid (ConnectivitySecret q);
  al_empty : ConnectivitySecret p = [] ↔ ConnectivitySecret q = []
}.

(** Two runs that return values related by [R] and are otherwise the same. *)
Definition matches {S A} (R : A → A → Prop) (m n : Run S A) : Prop := ∀ s,
  (m s).2 = (n s).2 ∧ match (m s).1, (n s).1 with Ok a, Ok b => R a b | Err e, Err e' => e = e' | _, _ => False end.

(** Two pairing services that differ in the secrets of their peers. *)
Record masked {S} (P Q : PairingController S) : Prop := {
  mk_begin : ∀ x s, @pairings_Begin S P x s = @pairings_Begin S Q x s;
  mk_list : ∀ s, @pairings_List S P s = @pairings_List S Q s;
  mk_confirm : ∀ x s, @pairings_Confirm S P x s = @pairings_Confirm S Q x s;
  mk_reject : ∀ x s, @pairings_Reject S P x s = @pairings_Reject S Q x s;
  mk_trusted : matches (Forall2 alike) (@pairings_ListTrusted S P) (@pairings_ListTrusted S Q);
  mk_unpair : ∀ x, matches alike (@pairings_Unpair S P x) (@pairings_Unpair S Q x);
  mk_refresh : match @pairings_Refresh S P, @pairings_Refresh S Q with
    | Some f, Some g => ∀ snapshot, matches (Forall2 alike) (f snapshot) (g snapshot)
    | None, None => True
    | _, _ => False
    end
}.

Section Secrets.
Context {S : Type} `{JobController S} `{PairedJobController S} `{DeviceController S} `{ConnectivityController S}.
Context `{UnicodeCase} (sha256 : bytes → bytes) (error_text : list sentinel → string) (local : LocalDeviceInfo) (version : string).

Lemma alike_fields p q : alike p q → DeviceID p = DeviceID q ∧ PeerState p = PeerState q.
Proof. intros [Hp _ _]. split; [exact (f_equal DeviceID Hp)|exact (f_equal PeerState Hp)]. Qed.

Lemma alike_message p q : alike p q → TrustedPeerToProto sha256 p = TrustedPeerToProto sha256 q.
Proof.
  destruct p, q. intros [Hp Hv He]. cbn in *. injection Hp as -> -> -> -> -> -> -> -> -> -> -> -> -> -> -> ->.
  unfold TrustedPeerToProto, Peer_Validate. cbn -[Secret_Valid]. rewrite Hv. by rewrite (bool_decide_ext _ _ He).
Qed.

Lemma alike_messages states enabled l k : Forall2 alike l k → peers_to_proto sha256 states enabled l = peers_to_proto sha256 states enabled k.
Proof.
  induction 1 as [|p q l k Hpq _ IH]; [done|]. cbn [peers_to_proto]. rewrite (alike_message p q Hpq), IH.
  destruct (alike_fields p q Hpq) as [-> Hst]. unfold applyConnectivityState. by rewrite Hst, (al_valid p q Hpq).
Qed.
Lemma alike_replies l k s : Forall2 alike l k → trustedPeersToProto sha256 l s = trustedPeersToProto sha256 k s.
Proof. intros Hlk. unfold trustedPeersToProto. destruct connectivity_States; cbn beta; by rewrite (alike_messages _ _ _ _ Hlk). Qed.

Lemma matches_call {A B} R (m n : Run S A) (f : A → Reply S B) s :
  matches R m n → (∀ a b s', R a b → f a s' = f b s') → (call m ≫= f) s = (call n ≫= f) s.
Proof.
  intros Hmn Hf. destruct (Hmn s) as [Hs Hr]. unfold mbind, Reply_bind, call. destruct (m s) as [[a|e] s1], (n s) as [[b|e'] s2]; cbn in *; subst; try done.
  by apply Hf.
Qed.

Lemma same_call {A B} (m n : Run S A) (f : A → Reply S B) s : m s = n s → (call m ≫= f) s = (call n ≫= f) s.
Proof. intros E. unfold mbind, Reply_bind, call. by rewrite E. Qed.

(** Replies that begin the same. *)
Lemma same_bind {A B} (m : Reply S A) (f g : A → Reply S B) s : (∀ a s', f a s' = g a s') → (m ≫= f) s = (m ≫= g) s.
Proof. intros Hfg. unfold mbind, Reply_bind. by destruct (m s) as [[]]. Qed.

End Secrets.

(** ** Witnesses *)

Section Sample.
Context (peers : list Peer).
Definition unavailable {A} : Run unit A := run_fail [DriverError].
#[local] Instance sample_jobs : JobController unit := {|
  jobs_Submit _ := unavailable; jobs_Get _ := unavailable; jobs_List _ := unavailable; jobs_Cancel _ := unavailable;
  jobs_ReadLogs _ _ _ := unavailable; jobs_SubmitWithID := None; jobs_GetProgress := None; jobs_RestoreArtifacts := None |}.
#[local] Instance sample_paired : PairedJobController unit := {|
  paired_Submit _ _ := unavailable; paired_Get _ _ := unavailable; paired_List _ _ := unavailable; paired_Cancel _ _ := unavailable;
  paired_ReadLogs _ _ _ _ := unavailable; paired_SubmitWithID := None; paired_GetProgress := None; paired_FetchArtifacts := None |}.
#[local] Instance sample_devices : DeviceController unit := {| devices_ListNearby := unavailable |}.
#[local] Instance sample_connectivity : ConnectivityController unit := {| connectivity_States := Some (λ _, []) |}.
Definition sample_pairings : PairingController unit := {|
  pairings_Begin _ := unavailable; pairings_List := unavailable; pairings_Confirm _ := unavailable; pairings_Reject _ := unavailable;
  pairings_ListTrusted := mret peers; pairings_Unpair _ := unavailable; pairings_Refresh := None |}.
Definition ask_trusted : LocalResponse * unit :=
  Local_Handle (H2 := sample_pairings) (H4 := ascii_case) sample_sha (λ _, "e") no_device "1"
    (MkLocalRequest 6 "00" [] (Some (LOpListTrustedDevices (Some tt)))) tt.
End Sample.

Definition keyed (secret : ascii) : Peer :=
  let p := sample_peer "worker" in
  MkPeer (PairID p) (DeviceID p) (PublicKey p) (replicate 32 secret) (PeerNameOf p) (PeerRoleOf p) (PeerState p) (Platform p) (Architecture p)
    (LogicalCPUCount p) (TotalMemoryBytes p) (ToolIDs p) (SupportedExecutors p) (HintsObservedAt p) (PairedAt p) (PeerUpdatedAt p) (RevokedAt p).

