(* ===== verification/RemoteConn.v ===== *)
(** * Remote connections (internal/connectivity/remoteconn/manager.go)

    The manager that keeps a path to every paired device it may reach through the
    hosted service.  Its maps are the state [Manager]; what the ICE session, the
    service, the clock and other goroutines do are arguments of the operations. *)

From S2P Require Import Prelude GoText JobModel Effects Encoding Device Trust TrustStore Rendezvous Frames Endpoint LocalHandler Payload IcePath RendezvousClient.
From Stdlib Require Import Ascii.
Local Open Scope string_scope.
Local Open Scope nat_scope.
Local Open Scope list_scope.

(** ** Configuration *)

Definition millisecond : Z := (second / 1000)%Z.
Definition defaultTrustRefreshInterval : Z := (3 * second)%Z.
Definition defaultPublishInterval : Z := (3 * second)%Z.
Definition defaultRetryDelay : Z := (5 * second)%Z.
Definition defaultGatherTimeout : Z := (12 * second)%Z.
Definition defaultExchangeTimeout : Z := (30 * second)%Z.
Definition defaultConnectTimeout : Z := (20 * second)%Z.
Definition presence_lifetime : Z := minute.   (* the package's defaultPresenceLifetime *)
Definition minimumCredentialWindow : Z := (10 * second)%Z.

Record Timing := MkTiming {
  ti_TrustRefreshInterval : Z; ti_PublishInterval : Z; ti_RetryDelay : Z; ti_GatherTimeout : Z; ti_ExchangeTimeout : Z; ti_ConnectTimeout : Z
}.
Definition applyDurationDefault (value fallback : Z) : Z := if (value =? 0)%Z then fallback else value.
Definition outside (low value high : Z) : bool := (value <? low)%Z || (high <? value)%Z.

(** [probe] is the outcome of making a session with the ICE settings. *)
Definition NewManager (LocalRole : string) (probe : result unit) (t : Timing) : result Timing :=
  _ ← reject_if (negb (bool_decide (LocalRole = RoleOrchestrator)) && negb (bool_decide (LocalRole = RoleWorker))) [ConnMgrErrInvalidConfiguration];
  _ ← (match probe with Ok _ => Ok tt | Err _ => Err [ConnMgrErrInvalidConfiguration] end);
  let t := MkTiming (applyDurationDefault (ti_TrustRefreshInterval t) defaultTrustRefreshInterval)
    (applyDurationDefault (ti_PublishInterval t) defaultPublishInterval) (applyDurationDefault (ti_RetryDelay t) defaultRetryDelay)
    (applyDurationDefault (ti_GatherTimeout t) defaultGatherTimeout) (applyDurationDefault (ti_ExchangeTimeout t) defaultExchangeTimeout)
    (applyDurationDefault (ti_ConnectTimeout t) defaultConnectTimeout) in
  _ ← reject_if (outside (100 * millisecond) (ti_TrustRefreshInterval t) minute || outside (100 * millisecond) (ti_PublishInterval t) minute
        || outside (100 * millisecond) (ti_RetryDelay t) (5 * minute) || outside second (ti_GatherTimeout t) (2 * minute)
        || outside second (ti_ExchangeTimeout t) (5 * minute) || outside second (ti_ConnectTimeout t) (2 * minute)) [ConnMgrErrInvalidConfiguration];
  Ok t.

(** ** State *)

(** A path is a number; [mg_failed]: the paths whose failure channel is closed;
    [mg_changed] counts the notifications. *)
Record Manager := MkManager { mg_paths : gmap string nat; mg_states : gmap string ConnState; mg_failed : gset nat; mg_changed : nat }.
Definition no_manager : Manager := MkManager ∅ ∅ ∅ 0.

Definition fail (path : nat) (m : Manager) : Manager := MkManager (mg_paths m) (mg_states m) ({[path]} ∪ mg_failed m) (mg_changed m).
Definition notifyLocked (m : Manager) : Manager := MkManager (mg_paths m) (mg_states m) (mg_failed m) (S (mg_changed m)).
Definition with_paths (paths : gmap string nat) (m : Manager) : Manager := MkManager paths (mg_states m) (mg_failed m) (mg_changed m).
Definition with_states (states : gmap string ConnState) (m : Manager) : Manager := MkManager (mg_paths m) states (mg_failed m) (mg_changed m).

Definition installPath (peer : Peer) (path : nat) (kind : string) (now_ : Z) (m : Manager) : Manager :=
  let m := match mg_paths m !! DeviceID peer with
    | Some existing => if bool_decide (existing = path) then m else fail existing m
    | None => m end in
  let m := with_paths (<[DeviceID peer := path]> (mg_paths m)) m in
  notifyLocked (with_states (<[DeviceID peer := MkConnState (DeviceID peer) (PeerNameOf peer) StatusConnected kind "" now_]> (mg_states m)) m).

Definition removePath (id : string) (expected : nat) (m : Manager) : Manager :=
  if bool_decide (mg_paths m !! id = Some expected) then notifyLocked (with_paths (delete id (mg_paths m)) m) else m.

Definition setState (peer : Peer) (status : ConnStatus) (kind lastError : string) (now_ : Z) (m : Manager) : Manager :=
  notifyLocked (with_states (<[DeviceID peer := MkConnState (DeviceID peer) (PeerNameOf peer) status kind lastError now_]> (mg_states m)) m).

Definition removePeer (id : string) (m : Manager) : Manager :=
  let m := match mg_paths m !! id with Some path => with_paths (delete id (mg_paths m)) (fail path m) | None => m end in
  notifyLocked (with_states (delete id (mg_states m)) m).

(** [States]: by name, then by identifier. *)
Definition state_order (a b : ConnState) : Prop := str2_leb (cs_Name a, cs_DeviceID a) (cs_Name b, cs_DeviceID b) = true.
#[global] Instance state_order_dec : RelDecision state_order.
Proof. intros a b. unfold state_order. apply _. Defined.
Definition States (m : Manager) : list ConnState := merge_sort state_order ((map_to_list (mg_states m)).*2).

(** ** Roles and pairs *)

Definition conn_endpointRole (role : string) : Z := if bool_decide (role = RoleOrchestrator) then 1 else 2.
Definition conn_oppositeRole (role : string) : string := if bool_decide (role = RoleOrchestrator) then RoleWorker else RoleOrchestrator.

Definition samePair (left right : Peer) : bool :=
  bool_decide (PairID left = PairID right) && bool_decide (PeerNameOf left = PeerNameOf right) && bool_decide (PeerState left = PeerState right)
  && bool_decide (PeerRoleOf left = PeerRoleOf right) && bool_decide (PublicKey left = PublicKey right)
  && bool_decide (ConnectivitySecret left = ConnectivitySecret right).

Section Manager.
Context `{UnicodeCase} (sha256 : bytes → bytes).

Definition compatible (localRole : string) (peer : Peer) : bool :=
  if failed (Peer_Validate sha256 peer) || negb (bool_decide (PeerState peer = TrustActive)) || negb (Secret_Valid (ConnectivitySecret peer)) then false
  else bool_decide (localRole = RoleOrchestrator) && bool_decide (PeerRoleOf peer = RoleWorker)
    || bool_decide (localRole = RoleWorker) && bool_decide (PeerRoleOf peer = RoleOrchestrator).

(** ** Reconciliation (the closure of [Run]) *)

(** The records to supervise, by device; a later record replaces an earlier one. *)
Definition wanted_of (localRole : string) (peers : list Peer) : gmap string Peer :=
  fold_left (λ wanted peer, if compatible localRole peer then <[DeviceID peer := peer]> wanted else wanted) peers ∅.

Definition keeps (wanted : gmap string Peer) (id : string) (current : Peer) : bool :=
  match wanted !! id with Some peer => samePair current peer | None => false end.

(** The records under supervision, the manager, and the devices for which a
    supervisor starts. *)
Definition reconcile (localRole : string) (listed : result (list Peer)) (running : gmap string Peer) (m : Manager) :
    gmap string Peer * Manager * list string :=
  match listed with
  | Err _ => (running, m, [])
  | Ok peers =>
      let wanted := wanted_of localRole peers in
      let kept := filter (λ kv, keeps wanted kv.1 kv.2 = true) running in
      let gone := (map_to_list (filter (λ kv, keeps wanted kv.1 kv.2 = false) running)).*1 in
      let started := filter (λ kv, kept !! kv.1 = None) wanted in
      (kept ∪ started, foldr removePeer m gone, (map_to_list started).*1)
  end.

(** ** One attempt *)

Context `{Aead} `{Codec EndpointPresencePayload} (UnmarshalCandidate : string → option Candidate).

Record Attempt := MkAttempt { at_access : Access; at_presence : Presence; at_ciphertext : bytes }.

(** [connectOnce] up to the publication.  [session] and [gathered] are the outcomes of
    making a session and of gathering; [sessionID] and [nonce] are random bytes.  The
    generation to remember, and the outcome. *)
Definition prepare (localRole : string) (peer : Peer) (session : result unit) (gathered : result Description) (now_ : Z) (sessionID nonce : result bytes)
    (lastGeneration : Z) : Z * result Attempt :=
  match session, gathered with
  | Err e, _ => (lastGeneration, Err e)
  | Ok _, Err e => (lastGeneration, Err e)
  | Ok _, Ok description =>
      match DeriveAccess (ConnectivitySecret peer) now_ with
      | Err e => (lastGeneration, Err e)
      | Ok access =>
          let remaining := (ac_ExpiresAt access - now_)%Z in
          if (remaining <? minimumCredentialWindow)%Z then (lastGeneration, Err [ConnMgrErrCredentialWindow])
          else
            let generation := wrap_uint64 (unix_nano now_) in
            let generation := if (generation <=? lastGeneration)%Z then wrap_uint64 (lastGeneration + 1) else generation in
            let lifetime := (presence_lifetime `min` remaining)%Z in
            (generation,
              presence ← newPresence UnmarshalCandidate description generation now_ lifetime sessionID;
              ciphertext ← SealPresence UnmarshalCandidate (ConnectivitySecret peer) (ac_RouteID access) localRole presence nonce;
              Ok (MkAttempt access presence ciphertext))
      end
  end.

(** One turn of [exchangePresence]: the outcome of the publication, the clock, and the
    error of the context if the wait ended with it. *)
Record Turn := MkTurn { tu_response : result PublishPresenceResponse; tu_now : Z; tu_stopped : option (list sentinel) }.

(** [None]: the exchange is still waiting. *)
Fixpoint exchangePresence (localRole : string) (peer : Peer) (access : Access) (turns : list Turn) : option (result Presence) :=
  match turns with
  | [] => None
  | turn :: rest =>
      match tu_response turn with
      | Err e => Some (Err e)
      | Ok response =>
          let opened := match pp_peer response with
            | Some remote => OpenPresence UnmarshalCandidate (ConnectivitySecret peer) (ac_RouteID access) (conn_oppositeRole localRole)
                (pm_generation remote) (pm_encrypted_payload remote) (tu_now turn)
            | None => Err [] end in
          match opened with
          | Ok presence => Some (Ok presence)
          | Err _ => match tu_stopped turn with Some e => Some (Err e) | None => exchangePresence localRole peer access rest end
          end
      end
  end.

(** How an established path ends: the context, the failure channel, or [Serve]. *)
Inductive Ending := ContextEnds | PathFails | ServeReturns (r : result unit).

(** What happens around one attempt.  [en_connected]: the outcome of [Connect];
    [en_path]: of the path factory; [en_others]: what other goroutines do to the
    manager while the path is there. *)
Record Surroundings := MkSurroundings {
  en_session : result unit; en_gathered : result Description; en_now : Z; en_sessionID : result bytes; en_nonce : result bytes; en_turns : list Turn;
  en_connected : Description → result unit; en_selected : result string; en_path : result nat; en_readyAt : Z; en_others : Manager → Manager; en_ending : Ending
}.

Definition connectOnce (localRole : string) (peer : Peer) (en : Surroundings) (lastGeneration : Z) (m : Manager) : Z * option (result unit) * Manager :=
  let '(generation, prepared) := prepare localRole peer (en_session en) (en_gathered en) (en_now en) (en_sessionID en) (en_nonce en) lastGeneration in
  match prepared with
  | Err e => (generation, Some (Err e), m)
  | Ok attempt =>
      match exchangePresence localRole peer (at_access attempt) (en_turns en) with
      | None => (generation, None, m)
      | Some (Err e) => (generation, Some (Err e), m)
      | Some (Ok remote) =>
          match (_ ← en_connected en (pr_Description remote); kind ← en_selected en; path ← en_path en; Ok (kind, path)) with
          | Err e => (generation, Some (Err e), m)
          | Ok (kind, path) =>
              if bool_decide (localRole = RoleWorker) then
                let m := en_others en (setState peer StatusConnected kind "" (en_readyAt en) m) in
                (generation, match en_ending en with ServeReturns r => Some r | _ => None end, m)
              else
                let m := en_others en (installPath peer path kind (en_readyAt en) m) in
                match en_ending en with
                | ContextEnds => (generation, Some (Ok tt), removePath (DeviceID peer) path m)
                | PathFails => (generation, Some (Err [ConnMgrErrPathUnavailable]), removePath (DeviceID peer) path m)
                | ServeReturns _ => (generation, None, m)
                end
          end
      end
  end.

(** One turn of the loop of [runPeer]: its attempt, the clock before and after it,
    whether the context has ended after it, the text of an error, and whether the wait
    before the next turn ran to its end. *)
Record Round := MkRound { ro_surroundings : Surroundings; ro_startsAt : Z; ro_endsAt : Z; ro_cancelled : bool; ro_text : list sentinel → string; ro_waited : bool }.

(** The generations of the attempts, in order. *)
Fixpoint runPeer (localRole : string) (peer : Peer) (rounds : list Round) (generation : Z) (m : Manager) : list Z * Manager :=
  match rounds with
  | [] => ([], m)
  | round :: rest =>
      let m := setState peer StatusConnecting "" "" (ro_startsAt round) m in
      let en := ro_surroundings round in
      let '(connected, outcome, m) := connectOnce localRole peer en generation m in
      let used := match (prepare localRole peer (en_session en) (en_gathered en) (en_now en) (en_sessionID en) (en_nonce en) generation).2 with
        | Ok _ => [connected] | Err _ => [] end in
      let generation := if (generation <? connected)%Z then connected else generation in
      match outcome with
      | None => (used, m)
      | Some r =>
          if ro_cancelled round then (used, m)
          else
            let m := match r with Err e => setState peer StatusUnavailable "" (ro_text round e) (ro_endsAt round) m | Ok _ => m end in
            if negb (ro_waited round) then (used, m)
            else let '(others, m) := runPeer localRole peer rest generation m in (used ++ others, m)
      end
  end.

(** ** Dialing *)

(** [DialRemotePeer]: the manager at each turn of the loop; after the last the context
    ends.  The connection, the paths that were made to fail, and the state of the network. *)
Fixpoint dial_loop {N C} (dial : nat → Peer → N → result C * N) (peer : Peer) (turns : list Manager) (n : N) : result C * list nat * N :=
  match turns with
  | [] => (Err [ConnMgrErrPathUnavailable], [], n)
  | m :: rest =>
      match mg_paths m !! DeviceID peer with
      | None => dial_loop dial peer rest n
      | Some path =>
          match dial path peer n with
          | (Ok caller, n) => (Ok caller, [], n)
          | (Err _, n) => let '(r, failures, n) := dial_loop dial peer rest n in (r, path :: failures, n)
          end
      end
  end.

Definition DialRemotePeer {N C} (localRole : string) (dial : nat → Peer → N → result C * N) (peer : Peer) (turns : list Manager) (n : N) :
    result C * list nat * N :=
  if negb (bool_decide (localRole = RoleOrchestrator)) || negb (compatible localRole peer) then (Err [ConnMgrErrPathUnavailable], [], n)
  else dial_loop dial peer turns n.

(** [trackedCaller.Call]: an error that the worker did not report itself fails the path. *)
Definition tracked_Call {A} (path : nat) (outcome : result A) (m : Manager) : result A * Manager :=
  match outcome with
  | Ok response => (Ok response, m)
  | Err e => (Err e, if existsb (λ s, match s with RemoteError _ _ => true | _ => false end) e then m else fail path m)
  end.
End Manager.

(** ** Lemmas *)

Section Reconciling.
Context `{UnicodeCase} (sha256 : bytes → bytes).

Lemma wanted_compatible localRole peers id peer : wanted_of sha256 localRole peers !! id = Some peer →
  peer ∈ peers ∧ DeviceID peer = id ∧ compatible sha256 localRole peer = true.
Proof.
  unfold wanted_of. induction peers as [|p peers IH] using rev_ind; [done|]. rewrite fold_left_app. cbn [fold_left].
  destruct (compatible sha256 localRole p) eqn:Ec; [destruct (decide (DeviceID p = id)) as [<-|Hne]|].
  - rewrite lookup_insert_eq. intros [= <-]. split; [|done]. apply elem_of_app. right. by left.
  - rewrite lookup_insert_ne by done. intros (Hin & Hrest)%IH. split; [apply elem_of_app; by left|done].
  - intros (Hin & Hrest)%IH. split; [apply elem_of_app; by left|done].
Qed.

Lemma wanted_missing localRole peers id : wanted_of sha256 localRole peers !! id = None →
  ∀ peer, peer ∈ peers → DeviceID peer = id → compatible sha256 localRole peer = false.
Proof.
  unfold wanted_of. induction peers as [|p peers IH] using rev_ind; [by intros _ peer ?%elem_of_nil|]. rewrite fold_left_app. cbn [fold_left].
  destruct (compatible sha256 localRole p) eqn:Ec; [destruct (decide (DeviceID p = id)) as [<-|Hne]|].
  - by rewrite lookup_insert_eq.
  - rewrite lookup_insert_ne by done. intros Hn peer [Hin|[->|[]%elem_of_nil]%elem_of_cons]%elem_of_app Hid; [by eapply IH|done].
  - intros Hn peer [Hin|[->|[]%elem_of_nil]%elem_of_cons]%elem_of_app Hid; [by eapply IH|done].
Qed.

Lemma removePeer_spec id m : mg_paths (removePeer id m) = delete id (mg_paths m) ∧ mg_states (removePeer id m) = delete id (mg_states m) ∧
  mg_failed m ⊆ mg_failed (removePeer id m) ∧ ∀ path, mg_paths m !! id = Some path → path ∈ mg_failed (removePeer id m).
Proof.
  unfold removePeer. destruct (mg_paths m !! id) as [path|] eqn:E; simpl.
  - split_and!; [done|done|set_solver|]. intros p [= <-]. set_solver.
  - rewrite delete_id by done. by split_and!.
Qed.

Lemma removePeers_spec gone m i : NoDup gone →
  (i ∈ gone → mg_paths (foldr removePeer m gone) !! i = None ∧ mg_states (foldr removePeer m gone) !! i = None ∧
     ∀ path, mg_paths m !! i = Some path → path ∈ mg_failed (foldr removePeer m gone)) ∧
  (i ∉ gone → mg_paths (foldr removePeer m gone) !! i = mg_paths m !! i ∧ mg_states (foldr removePeer m gone) !! i = mg_states m !! i) ∧
  mg_failed m ⊆ mg_failed (foldr removePeer m gone).
Proof.
  induction gone as [|id gone IH]; intros Hnd; [by split_and!; [intros []%elem_of_nil| |]|]. apply NoDup_cons in Hnd as [Hid Hnd].
  destruct (IH Hnd) as (Hin & Hout & Hsub). cbn [foldr].
  destruct (removePeer_spec id (foldr removePeer m gone)) as (-> & -> & Hf & Hp). split_and!.
  - intros [->|Hi]%elem_of_cons.
    + rewrite !lookup_delete_eq. split_and!; [done..|]. intros path Hpath. apply Hp. by rewrite (proj1 (Hout Hid)).
    + destruct (Hin Hi) as (H1 & H2 & H3). assert (id ≠ i) by (by intros ->). rewrite !lookup_delete_ne by done. split_and!; [done..|]. intros path ?%H3. set_solver.
  - intros [Hne Hi]%not_elem_of_cons. rewrite !lookup_delete_ne by done. by apply Hout.
  - set_solver.
Qed.

Lemma gone_spec (wanted running : gmap string Peer) id :
  id ∈ (map_to_list (filter (λ kv, keeps wanted kv.1 kv.2 = false) running)).*1 ↔ ∃ current, running !! id = Some current ∧ keeps wanted id current = false.
Proof.
  rewrite list_elem_of_fmap. split.
  - intros ([i current] & -> & Hin%elem_of_map_to_list). apply map_lookup_filter_Some in Hin as [Hr Hk]. by exists current.
  - intros (current & Hr & Hk). exists (id, current). split; [done|]. apply elem_of_map_to_list, map_lookup_filter_Some. done.
Qed.

(** After the manager has read the trust store, it supervises exactly the devices that
    have a compatible active record; a supervisor starts for the devices whose record is
    new or has changed in its pair, name, role, key or secret, and only for them.  A
    device that was supervised and is not any more, or whose record changed, loses its
    path and its state at once, and whoever waits on the path is told; the paths and the
    states of the others stay. *)
Theorem supervision_exact (localRole : string) (peers : list Peer) (running running' : gmap string Peer) (m m' : Manager) (started : list string) :
  reconcile sha256 localRole (Ok peers) running m = (running', m', started) →
  (∀ id peer, running' !! id = Some peer → compatible sha256 localRole peer = true ∧ peer ∈ peers ∧ DeviceID peer = id ∨
     running !! id = Some peer ∧ ∃ record, record ∈ peers ∧ DeviceID record = id ∧ compatible sha256 localRole record = true ∧ samePair peer record = true) ∧
  (∀ peer, peer ∈ peers → compatible sha256 localRole peer = true → is_Some (running' !! DeviceID peer)) ∧
  (∀ id, id ∈ started ↔ is_Some (running' !! id) ∧ ∀ current, running !! id = Some current → ∃ record, running' !! id = Some record ∧ samePair current record = false) ∧
  (∀ id current, running !! id = Some current → running' !! id = None ∨ id ∈ started →
     mg_paths m' !! id = None ∧ mg_states m' !! id = None ∧ ∀ path, mg_paths m !! id = Some path → path ∈ mg_failed m') ∧
  (∀ id, (∀ current, running !! id = Some current → running' !! id = Some current ∧ id ∉ started) →
     mg_paths m' !! id = mg_paths m !! id ∧ mg_states m' !! id = mg_states m !! id).
Proof.
  unfold reconcile. set (wanted := wanted_of sha256 localRole peers).
  set (kept := filter (λ kv, keeps wanted kv.1 kv.2 = true) running). set (fresh := filter (λ kv, kept !! kv.1 = None) wanted).
  set (gone := (map_to_list (filter (λ kv, keeps wanted kv.1 kv.2 = false) running)).*1). intros [= <- <- <-].
  assert (Hkept : ∀ id p, kept !! id = Some p ↔ running !! id = Some p ∧ keeps wanted id p = true) by (intros; apply map_lookup_filter_Some).
  assert (Hfresh : ∀ id p, fresh !! id = Some p ↔ wanted !! id = Some p ∧ kept !! id = None) by (intros; apply map_lookup_filter_Some).
  assert (Hstarted : ∀ id, id ∈ (map_to_list fresh).*1 ↔ is_Some (fresh !! id)).
  { intros id. rewrite list_elem_of_fmap. split; [intros ([i p] & -> & Hin%elem_of_map_to_list); by exists p|].
    intros [p Hp]. exists (id, p). split; [done|by apply elem_of_map_to_list]. }
  assert (Hunion : ∀ id p, (kept ∪ fresh) !! id = Some p ↔ kept !! id = Some p ∨ fresh !! id = Some p).
  { intros id p. rewrite lookup_union_Some_raw, Hfresh. naive_solver. }
  assert (Hnd : NoDup gone) by apply NoDup_fst_map_to_list.
  assert (Hnot : ∀ id current, running !! id = Some current → (kept ∪ fresh) !! id = None ∨ id ∈ (map_to_list fresh).*1 → id ∈ gone).
  { intros id current Hr Hor. apply gone_spec. exists current. split; [done|]. destruct (keeps wanted id current) eqn:Ek; [|done].
    assert (Hk : kept !! id = Some current) by (by apply Hkept). destruct Hor as [Hn|[p Hp]%Hstarted]; [|by apply Hfresh in Hp as [_ Hp]; rewrite Hk in Hp].
    assert ((kept ∪ fresh) !! id = Some current) by (apply Hunion; by left). congruence. }
  split_and!.
  - intros id peer [[Hr Hk]%Hkept|[Hw _]%Hfresh]%Hunion; [right|left; by apply wanted_compatible in Hw as (? & ? & ?)].
    split; [done|]. unfold keeps in Hk. destruct (wanted !! id) as [record|] eqn:Hw; [|done]. apply wanted_compatible in Hw as (? & ? & ?). by exists record.
  - intros peer Hin Hc. destruct (wanted !! DeviceID peer) as [w|] eqn:Hw; [|by rewrite (wanted_missing _ _ _ Hw peer) in Hc].
    destruct (kept !! DeviceID peer) as [p|] eqn:Hk; [exists p; apply Hunion; by left|]. exists w. apply Hunion. right. by apply Hfresh.
  - intros id. rewrite Hstarted. split.
    + intros [p Hp]. split; [exists p; apply Hunion; by right|]. intros current Hr. exists p. split; [apply Hunion; by right|].
      apply Hfresh in Hp as [Hw Hn]. destruct (samePair current p) eqn:Es; [|done].
      assert (kept !! id = Some current) by (apply Hkept; unfold keeps; by rewrite Hw). congruence.
    + intros [[p [Hk|Hf]%Hunion] Hcurrent]; [|by exists p]. pose proof Hk as [Hr Hkeeps]%Hkept. destruct (Hcurrent p Hr) as (record & [Hk'|[_ Hn]%Hfresh]%Hunion & Hs); [|congruence].
      assert (record = p) as -> by congruence. unfold samePair in Hs. by rewrite !bool_decide_eq_true_2 in Hs.
  - intros id current Hr Hor. by apply (removePeers_spec gone m id Hnd), (Hnot id current).
  - intros id Hstay. apply (removePeers_spec gone m id Hnd). intros (current & Hr & Hk)%gone_spec. destruct (Hstay current Hr) as [Hrun Hns].
    apply Hunion in Hrun as [[_ ?]%Hkept|Hf]; [congruence|]. apply Hns, Hstarted. by exists current.
Qed.
End Reconciling.

Section Attempts.
Context `{UnicodeCase} (sha256 : bytes → bytes).
Context `{Aead} `{Codec EndpointPresencePayload} (UnmarshalCandidate : string → option Candidate).

(** What an attempt publishes: a document of a new generation that lives no longer than
    the credentials it is published with, sealed under them. *)
Lemma prepare_ok localRole peer session gathered now_ sessionID nonce last generation attempt :
  prepare UnmarshalCandidate localRole peer session gathered now_ sessionID nonce last = (generation, Ok attempt) →
  DeriveAccess (ConnectivitySecret peer) now_ = Ok (at_access attempt) ∧
  (now_ + minimumCredentialWindow ≤ ac_ExpiresAt (at_access attempt))%Z ∧
  pr_Generation (at_presence attempt) = generation ∧ pr_CreatedAt (at_presence attempt) = now_ ∧
  (pr_ExpiresAt (at_presence attempt) ≤ ac_ExpiresAt (at_access attempt))%Z ∧
  SealPresence UnmarshalCandidate (ConnectivitySecret peer) (ac_RouteID (at_access attempt)) localRole (at_presence attempt) nonce = Ok (at_ciphertext attempt).
Proof.
  unfold prepare. destruct session; [|done]. destruct gathered as [description|]; [|done].
  destruct (DeriveAccess _ _) as [access|]; [|done]. destruct (Z.ltb_spec (ac_ExpiresAt access - now_) minimumCredentialWindow); [done|].
  intros [= <- E]. apply result_bind_ok in E as (presence & Hp & E). apply result_bind_ok in E as (ciphertext & Hc & [= <-]). simpl.
  unfold newPresence in Hp. apply result_bind_ok in Hp as (? & _ & Hp). apply result_bind_ok in Hp as (sid & _ & Hp).
  apply result_bind_ok in Hp as (? & _ & [= <-]). simpl in *. split_and!; try done; lia.
Qed.

(** The generation of an attempt is above the last one and at most the clock or the next number. *)
Lemma prepare_generation localRole peer session gathered now_ sessionID nonce last generation r :
  (0 ≤ last < 2 ^ 64 - 1)%Z → (0 < now_ < 2 ^ 63)%Z →
  prepare UnmarshalCandidate localRole peer session gathered now_ sessionID nonce last = (generation, r) →
  (last ≤ generation ≤ last + 1 ∨ last ≤ generation ≤ now_)%Z ∧ (∀ attempt, r = Ok attempt → last < generation)%Z.
Proof.
  intros Hlast Hnow. unfold prepare. destruct session; [|intros [= <- <-]; split; [lia|done]].
  destruct gathered as [description|]; [|intros [= <- <-]; split; [lia|done]].
  destruct (DeriveAccess _ _) as [access|]; [|intros [= <- <-]; split; [lia|done]].
  destruct (_ <? _)%Z; [intros [= <- <-]; split; [lia|done]|]. intros [= <- _].
  unfold unix_nano, wrap_uint64. rewrite wrap_int64_id by (unfold int64_range; lia). rewrite (Z.mod_small now_) by lia.
  destruct (Z.leb_spec now_ last); [rewrite Z.mod_small by lia|]; split; lia.
Qed.

Definition round_time (round : Round) : Prop := (0 < en_now (ro_surroundings round) < 2 ^ 63)%Z.

Lemma connect_generation localRole peer en last m generation r m' :
  connectOnce UnmarshalCandidate localRole peer en last m = (generation, r, m') →
  (prepare UnmarshalCandidate localRole peer (en_session en) (en_gathered en) (en_now en) (en_sessionID en) (en_nonce en) last).1 = generation.
Proof.
  unfold connectOnce. destruct (prepare _ _ _ _ _ _ _ _ _) as [g [attempt|e]]; [|by intros [= <- _ _]].
  destruct (exchangePresence _ _ _ _ _) as [[remote|e]|]; try (by intros [= <- _ _]).
  destruct (mbind _ _) as [[kind path]|e]; [|by intros [= <- _ _]].
  case_bool_decide; [by intros [= <- _ _]|]. destruct (en_ending en); by intros [= <- _ _].
Qed.

Lemma run_generations localRole peer rounds last m used m' :
  Forall round_time rounds → (0 ≤ last)%Z → (last + Z.of_nat (length rounds) < 2 ^ 64 - 1)%Z → (2 ^ 63 + Z.of_nat (length rounds) < 2 ^ 64 - 1)%Z →
  runPeer UnmarshalCandidate localRole peer rounds last m = (used, m') → StronglySorted Z.lt used ∧ Forall (Z.lt last) used.
Proof.
  revert last m used m'. induction rounds as [|round rounds IH]; intros last m used m' Hall Hlast Hmax Hroom; cbn [runPeer].
  - intros [= <- _]. split; constructor.
  - apply Forall_cons in Hall as [Hnow Hall]. set (en := ro_surroundings round) in *. unfold round_time in Hnow. fold en in Hnow.
    destruct (connectOnce _ _ _ _ _ _) as [[connected outcome] m1] eqn:Ec. apply connect_generation in Ec.
    destruct (prepare _ _ _ _ _ _ _ _ _) as [g r] eqn:Ep. simpl in Ec. subst g.
    apply prepare_generation in Ep as [Hrange Hgt]; [|simpl in Hmax; lia|done]. cbn [snd].
    set (next := if (last <? connected)%Z then connected else last).
    assert (Hnext : (last ≤ next ∧ connected ≤ next ∧ next + Z.of_nat (length rounds) < 2 ^ 64 - 1)%Z).
    { unfold next. simpl in Hmax, Hroom. destruct (Z.ltb_spec last connected); lia. }
    set (one := match r with Ok _ => [connected] | Err _ => [] end).
    assert (Hone : StronglySorted Z.lt one ∧ Forall (Z.lt last) one ∧ Forall (λ g, g ≤ next)%Z one).
    { unfold one. destruct r as [attempt|]; [|by repeat constructor]. specialize (Hgt attempt eq_refl).
      split_and!; repeat constructor; lia. }
    assert (Hmore : ∀ m others m2, runPeer UnmarshalCandidate localRole peer rounds next m = (others, m2) →
      StronglySorted Z.lt (one ++ others) ∧ Forall (Z.lt last) (one ++ others)).
    { intros m2 others m3 Hrun. apply IH in Hrun as [Hs Hf]; [|done|simpl in Hroom; lia..]. destruct Hone as (_ & Habove & Hle).
      split; [|apply Forall_app; split; [done|]; eapply Forall_impl; [exact Hf|]; simpl; lia].
      unfold one in *. destruct r as [attempt|]; [|done]. simpl. constructor; [done|]. eapply Forall_impl; [exact Hf|].
      apply Forall_cons in Hle as [Hle _]. simpl. lia. }
    destruct outcome as [o|]; [|intros [= <- _]; split; apply Hone].
    destruct (ro_cancelled round); [intros [= <- _]; split; apply Hone|].
    destruct (negb (ro_waited round)); [intros [= <- _]; split; apply Hone|].
    destruct (runPeer UnmarshalCandidate localRole peer rounds next _) as [others m3] eqn:Er. intros [= <- _]. by eapply Hmore.
Qed.

(** The supervisor of a device never publishes a generation twice or goes back, even
    when the clock does: over any rounds of attempts, successful or not, the generations
    it publishes strictly increase, so the service never refuses one of them as older
    than the one before. *)
Theorem generations_increase (localRole : string) (peer : Peer) (rounds : list Round) (m m' : Manager) (used : list Z) :
  Forall round_time rounds → (Z.of_nat (length rounds) < 2 ^ 62)%Z →
  runPeer UnmarshalCandidate localRole peer rounds 0 m = (used, m') → StronglySorted Z.lt used ∧ Forall (Z.lt 0) used.
Proof. intros Hall Hlen. apply run_generations; [done|lia..]. Qed.

(** The document that the exchange returns was opened from a response. *)
Lemma exchanged_opened localRole peer access turns presence :
  exchangePresence UnmarshalCandidate localRole peer access turns = Some (Ok presence) →
  ∃ turn response remote, turn ∈ turns ∧ tu_response turn = Ok response ∧ pp_peer response = Some remote ∧
    OpenPresence UnmarshalCandidate (ConnectivitySecret peer) (ac_RouteID access) (conn_oppositeRole localRole) (pm_generation remote) (pm_encrypted_payload remote)
      (tu_now turn) = Ok presence.
Proof.
  induction turns as [|turn rest IH]; [done|]. cbn [exchangePresence]. destruct (tu_response turn) as [response|] eqn:Er; [|done].
  destruct (pp_peer response) as [remote|] eqn:Ep.
  - destruct (OpenPresence _ _ _ _ _ _ _) as [opened|] eqn:Eo.
    + intros [= <-]. exists turn, response, remote. split; [left|]. done.
    + destruct (tu_stopped turn); [done|]. intros (t & rs & rm & Hin & Hrest)%IH. exists t, rs, rm. split; [by right|done].
  - destruct (tu_stopped turn); [done|]. intros (t & rs & rm & Hin & Hrest)%IH. exists t, rs, rm. split; [by right|done].
Qed.
End Attempts.

Section Dialing.
Context `{UnicodeCase} (sha256 : bytes → bytes) (parse : bytes → option Certificate) (now_ : Z).

Lemma dial_loop_ok {N C} (dial : nat → Peer → N → result C * N) peer turns n caller failures n' :
  dial_loop dial peer turns n = (Ok caller, failures, n') →
  ∃ m path n1 n2, m ∈ turns ∧ mg_paths m !! DeviceID peer = Some path ∧ dial path peer n1 = (Ok caller, n2).
Proof.
  revert n failures. induction turns as [|m turns IH]; intros n failures; cbn [dial_loop]; [done|].
  destruct (mg_paths m !! DeviceID peer) as [path|] eqn:Ep.
  - destruct (dial path peer n) as [[c|e] n1] eqn:Ed.
    + intros [= <- <- <-]. exists m, path, n, n1. split; [left|]. done.
    + destruct (dial_loop dial peer turns n1) as [[r fs] n2] eqn:El. intros [= -> <- <-].
      apply IH in El as (m1 & p1 & a & b & Hin & Hrest). exists m1, p1, a, b. split; [by right|done].
  - intros (m1 & p1 & a & b & Hin & Hrest)%IH. exists m1, p1, a, b. split; [by right|done].
Qed.

(** A connection to a paired device over the hosted service's paths is to that device:
    [DialRemotePeer] returns one only on an orchestrator, for an active worker record
    with a valid secret, over a path that the manager held for this device, and with the
    certificate of the pinned key at the other end, whoever the path leads to. *)
Theorem remote_dial_pinned {N C} (local : LocalDevice) (quicDial : nat → (list bytes → result unit) → N → result C * N) (certificates : C → list bytes)
    (peer : Peer) (turns : list Manager) (n n' : N) (caller : C) (failures : list nat) :
  (∀ path verify n c n', quicDial path verify n = (Ok c, n') → verify (certificates c) = Ok tt) →
  DialRemotePeer sha256 (local_Role local) (λ path peer, Path_Dial sha256 parse now_ local (quicDial path) peer) peer turns n = (Ok caller, failures, n') →
  local_Role local = RoleOrchestrator ∧ compatible sha256 (local_Role local) peer = true ∧ PeerState peer = TrustActive ∧ PeerRoleOf peer = RoleWorker ∧
  (∃ m path, m ∈ turns ∧ mg_paths m !! DeviceID peer = Some path) ∧ pinned_certificate sha256 parse now_ peer (certificates caller).
Proof.
  intros Hdial. unfold DialRemotePeer. destruct (_ || _) eqn:Hg; [done|]. intros (m & path & n1 & n2 & Hin & Hpath & Hd)%dial_loop_ok.
  unfold Path_Dial in Hd. destruct (_ || _) eqn:Hg2 in Hd; [done|]. apply Hdial, verifyPinned_ok in Hd. reflect_bools.
  unfold dialable in *. reflect_bools. split_and!; try done. by exists m, path.
Qed.
End Dialing.

(** A supervisor that is told to stop just after its path was selected still installs
    the path; the path is removed, but the state stays although nobody supervises the
    device, and reading the trust store again does not remove it. *)
Lemma stale_state_remains `{UnicodeCase} sha256 (peer : Peer) (path : nat) (kind : string) (at_ : Z) (m : Manager) (peers : list Peer) localRole :
  let m1 := removePath (DeviceID peer) path (installPath peer path kind at_ (removePeer (DeviceID peer) m)) in
  mg_paths m1 !! DeviceID peer = None ∧ (cs_Status <$> mg_states m1 !! DeviceID peer) = Some StatusConnected ∧
  mg_states (reconcile sha256 localRole (Ok peers) ∅ m1).1.2 = mg_states m1.
Proof.
  destruct (removePeer_spec (DeviceID peer) m) as (Hp & _). cbn zeta. unfold removePath, installPath. rewrite Hp, lookup_delete_eq. simpl.
  rewrite lookup_insert_eq, bool_decide_eq_true_2 by done. simpl. rewrite lookup_delete_eq, lookup_insert_eq. by split_and!.
Qed.

(** ** Witnesses *)

Definition demo_peer : Peer := sample_peer "worker".

(** The device is revoked while a path to it is installed. *)
Lemma supervision_exact_witness :
  let m := installPath demo_peer 7 "host" 5 no_manager in
  let '(running, m', started) := reconcile (H := ascii_case) sample_sha RoleOrchestrator (Ok []) {[sample_device := demo_peer]} m in
  running !! sample_device = None ∧ started = [] ∧ mg_paths m' !! sample_device = None ∧ 7 ∈ mg_failed m'.
Proof.
  cbn zeta. destruct (reconcile (H := ascii_case) sample_sha RoleOrchestrator (Ok []) {[sample_device := demo_peer]} (installPath demo_peer 7 "host" 5 no_manager))
    as [[running m'] started] eqn:E.
  assert (Hr : running !! sample_device = None) by (change running with (running, m', started).1.1; rewrite <-E; vm_compute; reflexivity).
  assert (Hs : started = []) by (change started with (running, m', started).2; rewrite <-E; vm_compute; reflexivity).
  destruct (proj1 (proj2 (proj2 (proj2 (supervision_exact (H := ascii_case) sample_sha RoleOrchestrator [] _ _ _ _ _ E)))) sample_device demo_peer) as (H1 & _ & H2);
    [vm_compute; reflexivity|left; exact Hr|].
  split; [exact Hr|]. split; [exact Hs|]. split; [exact H1|]. apply H2. vm_compute. reflexivity.
Defined.

Definition demo_surroundings (now_ : Z) : Surroundings :=
  MkSurroundings (Ok tt) (Ok sample_description) now_ (Ok (replicate 16 "i"%char)) (Ok (replicate 12 "n"%char))
    [MkTurn (Err [DriverError]) 0 None] (λ _, Ok tt) (Ok "host") (Ok 1) 0 id ContextEnds.
Definition demo_round (now_ : Z) : Round := MkRound (demo_surroundings now_) 1 2 false (λ _, "failed") true.

(** Two attempts, and the clock goes back between them. *)
Lemma generations_increase_witness :
  let '(used, _) := runPeer (H0 := toy_aead) (H1 := demo_document_codec) any_candidate RoleWorker demo_peer [demo_round (600 * second); demo_round (550 * second)] 0 no_manager in
  used = [600 * second; 600 * second + 1]%Z ∧ StronglySorted Z.lt used.
Proof.
  destruct (runPeer (H0 := toy_aead) (H1 := demo_document_codec) any_candidate RoleWorker demo_peer [demo_round (600 * second); demo_round (550 * second)] 0 no_manager)
    as [used m] eqn:E.
  split; [change used with (used, m).1; rewrite <-E; vm_compute; reflexivity|].
  refine (proj1 (generations_increase (H0 := toy_aead) (H1 := demo_document_codec) any_candidate RoleWorker demo_peer _ _ _ _ _ _ E));
    [repeat constructor; vm_compute; reflexivity|vm_compute; reflexivity].
Defined.

Lemma remote_dial_pinned_witness :
  let m := installPath demo_peer 7 "host" 5 no_manager in
  DialRemotePeer (H := ascii_case) sample_sha RoleOrchestrator
    (λ path peer, Path_Dial (H := ascii_case) sample_sha pinned_parse 50 desk_orchestrator (λ verify, dial_with_callback verify) peer) demo_peer [no_manager; m] 0
    = (Ok [bytes_of "der"], [], 1) ∧
  pinned_certificate (H := ascii_case) sample_sha pinned_parse 50 demo_peer [bytes_of "der"].
Proof.
  cbn zeta. match goal with |- ?P ∧ _ => assert (E : P) by (vm_compute; reflexivity) end. split; [exact E|].
  refine (proj2 (proj2 (proj2 (proj2 (proj2 (remote_dial_pinned (H := ascii_case) sample_sha pinned_parse 50 desk_orchestrator (λ _, dial_with_callback) id
    demo_peer _ 0 1 [bytes_of "der"] [] _ E)))))).
  intros path verify s c s'. unfold dial_with_callback. destruct (verify [bytes_of "der"]) as [[]|e] eqn:Ev; intros Hd; [|discriminate Hd].
  injection Hd as <- <-. exact Ev.
Defined.
