(* ===== verification/Orchestrator.v ===== *)
(** * Remote jobs (internal/app/orchestrator/remote_jobs.go)

    [RemoteJobService]: choosing a paired worker, opening a connection, sending
    snapshots, submitting and following jobs, and fetching their outputs.  [Office]
    is what the service works on: the daemon's own stores, the trusted peers and
    placements, the devices seen on the LAN, and the network.  [Network] is the
    interface of the dialers ([RemoteDialer], [PairedRemoteDialer]) and of the open
    connections ([remoteprotocol.Caller]).  [has_remote], [has_snapshots],
    [has_progress] and [has_artifacts] say which optional dependencies are there;
    [build] is the project snapshotter, which [project_build] of Daemon.v gives. *)

From S2P Require Import Prelude GoText JobModel Effects Sql JobStore LogStore Execution ExecutionStore Custody Worker Snapshot Transfer ContentCache Device Trust TrustStore Wire Frames Remote ArtifactStore Hosts Workspace Restore RemoteWorker Selection Project.
From Stdlib Require Import Ascii.
Local Open Scope string_scope.
Local Open Scope nat_scope.
Local Open Scope list_scope.

(** [N] is the state of the world beyond the dialers, [C] a connection. *)
Class Network (N C : Type) := {
  DialRemote : NearbyDevice → Peer → Run N C;
  DialRemotePeer : Peer → Run N C;
  Caller_Call : C → RemoteRequest → Run N RemoteResponse;
  Caller_Close : C → Run N unit
}.

Record Office (N : Type) := MkOffice {
  of_host : Host; of_peers : World PeerDB; of_nearby : World DeviceService; of_net : N
}.
Arguments MkOffice {_} _ _ _ _.
Arguments of_host {_} _.
Arguments of_peers {_} _.
Arguments of_nearby {_} _.
Arguments of_net {_} _.

Section Lenses.
Context {N : Type}.
Definition in_host {A} (m : Run Host A) : Run (Office N) A :=
  zoom of_host (λ w o, MkOffice w (of_peers o) (of_nearby o) (of_net o)) m.
Definition in_peers {A} (m : M PeerDB A) : Run (Office N) A :=
  zoom of_peers (λ w o, MkOffice (of_host o) w (of_nearby o) (of_net o)) m.
Definition in_nearby {A} (m : M DeviceService A) : Run (Office N) A :=
  zoom of_nearby (λ w o, MkOffice (of_host o) (of_peers o) w (of_net o)) m.
Definition in_net {A} (m : Run N A) : Run (Office N) A :=
  zoom of_net (λ w o, MkOffice (of_host o) (of_peers o) (of_nearby o) w) m.
Definition in_jobs {A} (m : M Database A) : Run (Office N) A := in_host (on_jobs m).
Definition in_content {A} (m : M Vault A) : Run (Office N) A := in_host (on_content m).
End Lenses.

Definition request_for (operation : RemoteOperation) : RemoteRequest := MkRemoteRequest 0 "" (Some operation) [].

(** The getters of a response. *)
Definition GetSubmitJob (r : RemoteResponse) := match rs_result r with Some (RResSubmitJob x) => x | _ => None end.
Definition GetGetJob (r : RemoteResponse) := match rs_result r with Some (RResGetJob x) => x | _ => None end.
Definition GetListJobs (r : RemoteResponse) := match rs_result r with Some (RResListJobs x) => x | _ => None end.
Definition GetCancelJob (r : RemoteResponse) := match rs_result r with Some (RResCancelJob x) => x | _ => None end.
Definition GetReadJobLogs (r : RemoteResponse) := match rs_result r with Some (RResReadJobLogs x) => x | _ => None end.
Definition GetCheckSnapshot (r : RemoteResponse) := match rs_result r with Some (RResCheckSnapshot x) => x | _ => None end.
Definition GetPutChunk (r : RemoteResponse) := match rs_result r with Some (RResPutChunk x) => x | _ => None end.
Definition GetGetJobArtifacts (r : RemoteResponse) := match rs_result r with Some (RResGetJobArtifacts x) => x | _ => None end.
Definition GetGetArtifactChunk (r : RemoteResponse) := match rs_result r with Some (RResGetArtifactChunk x) => x | _ => None end.
Definition GetAcknowledge (r : RemoteResponse) := match rs_result r with Some (RResAcknowledge x) => x | _ => None end.
Definition GetGetWorkerStatus (r : RemoteResponse) := match rs_result r with Some (RResGetWorkerStatus x) => x | _ => None end.

Definition snapshotPreflightBatch : nat := Z.to_nat 4096.

(** ** Sizes *)

Fixpoint unique_bytes (wanted : string → bool) (chunks : list Chunk) (seen : gset string) (total : Z) : Z :=
  match chunks with
  | [] => total
  | chunk :: rest =>
      if negb (wanted (Digest chunk)) || bool_decide (Digest chunk ∈ seen) then unique_bytes wanted rest seen total
      else unique_bytes wanted rest ({[Digest chunk]} ∪ seen) (wrap_int64 (total + Size chunk))
  end.
Definition manifest_chunks (manifest : Manifest) : list Chunk := concat (map Chunks (Files manifest)).
Definition manifestUniqueBytes (manifest : Manifest) : Z := unique_bytes (λ _, true) (manifest_chunks manifest) ∅ 0.
Definition digestBytes (manifest : Manifest) (digests : list string) : Z :=
  unique_bytes (λ d, bool_decide (d ∈ digests)) (manifest_chunks manifest) ∅ 0.

Section Service.
Context `{UnicodeCase} `{Zstd} {N C : Type} `{Network N C}.
Context (sha256 : bytes → bytes) (maximumBytes : Z) (proto_size : ManifestMessage → Z).
Context (has_remote has_snapshots has_progress has_artifacts : bool).
Context (build : string → Run Host SnapshotResult) (generated : result string).
Abbreviation Do := (Run (Office N)).
Abbreviation malformed := [RemoteErrInvalidMessage].

(** ** Connections *)

(** [service.nearby.ListNearby(ctx)]: a failure is a context that is done. *)
Definition nearby_at (at_ : Z) : M DeviceService DiscoverySnapshot := λ w,
  let '(r, s) := ListNearby (if w_fault w (w_access w) then Some [DriverError] else None) at_ (next_db w) in (r, accessed w s).
Definition list_nearby : M DeviceService DiscoverySnapshot := at_ ← now; nearby_at at_.

Definition nearbyCandidates (peer : Peer) : Do (list NearbyDevice) :=
  snapshot ← in_nearby list_nearby;
  mret (lan_candidates peer (sn_Devices snapshot)).

(** The loop of [open] over the LAN candidates, with the failures so far. *)
Fixpoint dial_loop (peer : Peer) (candidates : list NearbyDevice) (failures : list sentinel) : Do (option C * list sentinel) :=
  match candidates with
  | [] => mret (None, failures)
  | candidate :: rest =>
      dialed ← attempt (in_net (DialRemote candidate peer));
      match dialed with
      | Ok caller => mret (Some caller, failures)
      | Err e => dial_loop peer rest (failures ++ e)
      end
  end.

Definition workerUnreachableError (failures : list sentinel) : list sentinel := OrchErrWorkerUnavailable :: failures.

Definition open (peer : Peer) : Do C :=
  candidates ← attempt (nearbyCandidates peer);
  let '(candidates, failures) := match candidates with Ok cs => (cs, []) | Err e => ([], e) end in
  dialed ← dial_loop peer candidates failures;
  match dialed with
  | (Some caller, _) => mret caller
  | (None, failures) =>
      if has_remote then
        dialed ← attempt (in_net (DialRemotePeer peer));
        match dialed with
        | Ok caller => mret caller
        | Err e => run_fail (workerUnreachableError (failures ++ e))
        end
      else run_fail (workerUnreachableError failures)
  end.

Definition call (peer : Peer) (operation : RemoteOperation) : Do RemoteResponse :=
  caller ← open peer;
  response ← attempt (in_net (Caller_Call caller (request_for operation)));
  closed ← attempt (in_net (Caller_Close caller));
  match response, closed with
  | Ok response, Ok _ => mret response
  | Ok _, Err e => run_fail e
  | Err e, Ok _ => run_fail e
  | Err e, Err e' => run_fail (e ++ e')
  end.

(** ** Workers *)

Definition updateHintsFromWorkerStatus (peer : Peer) (status : option WorkerStatusResult) : Do (option PeerHints) :=
  match status with
  | None => mret None
  | Some status =>
      at_ ← in_peers now;
      let hints := MkPeerHints (ws_platform status) (ws_arch status) (ws_logical_cpu_count status) (ws_total_memory_bytes status)
        (ws_tool_ids status) (supportedExecutorsFromRemoteProto (ws_supported_executors status)) at_ in
      match Hints_Validate hints with
      | Err _ => mret None
      | Ok _ => _ ← attempt (in_peers (atomically (UpdateHints sha256 (DeviceID peer) hints))); mret (Some hints)
      end
  end.

Definition authenticatedWorkerHints (peer : Peer) : Do (option PeerHints) :=
  if negb (bool_decide (active_worker peer)) then mret None
  else
    response ← attempt (call peer (ROpGetWorkerStatus (Some tt)));
    match response with
    | Err _ => mret None
    | Ok response => updateHintsFromWorkerStatus peer (GetGetWorkerStatus response)
    end.

Definition raise (scores : gmap string Z) (id : string) (score : Z) : gmap string Z :=
  if (default 0 (scores !! id) <? score)%Z then <[id := score]> scores else scores.

Fixpoint nearby_scores (matched : list (string * PeerHints)) (scores : gmap string Z) : Do (gmap string Z) :=
  match matched with
  | [] => mret scores
  | (id, hints) :: rest =>
      _ ← attempt (in_peers (atomically (UpdateHints sha256 id hints)));
      nearby_scores rest (raise scores id (resourceScore (hint_LogicalCPUCount hints) (hint_TotalMemoryBytes hints)))
  end.

Fixpoint status_scores (peers : list Peer) (scores : gmap string Z) : Do (gmap string Z) :=
  match peers with
  | [] => mret scores
  | peer :: rest =>
      hints ← authenticatedWorkerHints peer;
      status_scores rest (match hints with
        | Some hints => raise scores (DeviceID peer) (resourceScore (hint_LogicalCPUCount hints) (hint_TotalMemoryBytes hints))
        | None => scores end)
  end.

Definition stored_scores (peers : list Peer) : gmap string Z :=
  foldl (λ scores peer, if bool_decide (active_worker peer)
    then <[DeviceID peer := resourceScore (LogicalCPUCount peer) (TotalMemoryBytes peer)]> scores else scores) ∅ peers.

Definition workerResourceScores (peers : list Peer) : Do (gmap string Z) :=
  let scores := stored_scores peers in
  snapshot ← attempt (in_nearby list_nearby);
  scores ← (match snapshot with
            | Ok snapshot => nearby_scores (map_to_list (MatchNearbyHints peers (sn_Devices snapshot))) scores
            | Err _ => mret scores
            end);
  status_scores peers scores.

Definition preflightWorkerCompatibility (peer : Peer) (spec : Spec) : Do unit :=
  hints ← authenticatedWorkerHints peer;
  let supported := match hints with Some hints => hint_SupportedExecutors hints | None => SupportedExecutors peer end in
  _ ← run_lift (workerExecutorCompatibility supported (SpecExecutor spec));
  run_lift (preflightWorkerTools peer spec hints).

Definition score_of (scores : gmap string Z) (peer : Peer) : Z := default 0%Z (scores !! DeviceID peer).

Definition resolveAutomaticWorker (peers : list Peer) : Do Peer :=
  scores ← workerResourceScores peers;
  match best (map (λ peer, (peer, score_of scores peer)) (filter active_worker peers)) with
  | None => run_fail [OrchErrWorkerUnavailable]
  | Some peer => mret peer
  end.

(** The loop over the peers: the candidates and the number of incompatible ones. *)
Fixpoint compatible_loop (scores : gmap string Z) (spec : Spec) (peers : list Peer) : Do (list (Peer * Z) * nat) :=
  match peers with
  | [] => mret ([], 0)
  | peer :: rest =>
      if negb (bool_decide (active_worker peer)) then compatible_loop scores spec rest
      else
        preflight ← attempt (preflightWorkerCompatibility peer spec);
        match preflight with
        | Err e =>
            if errors_is e OrchErrWorkerIncompatible then
              found ← compatible_loop scores spec rest; mret (found.1, S found.2)
            else run_fail e
        | Ok _ => found ← compatible_loop scores spec rest; mret ((peer, score_of scores peer) :: found.1, found.2)
        end
  end.

Definition resolveAutomaticWorkerForSpec (peers : list Peer) (spec : Spec) : Do Peer :=
  scores ← workerResourceScores peers;
  found ← compatible_loop scores spec peers;
  match best found.1 with
  | Some peer => mret peer
  | None =>
      if (0 <? found.2) && (bool_decide (SpecExecutor spec = ExecutorContainer) || negb (bool_decide (requiredToolIDs spec = [])))
      then run_fail [OrchErrWorkerIncompatible]
      else run_fail [OrchErrWorkerUnavailable]
  end.

Definition resolveSubmitWorker (selector : string) (spec : Spec) : Do Peer :=
  let selector := trim_space selector in
  _ ← run_lift (reject_if (bool_decide (selector = "")) [TrustErrNotFound]);
  peers ← in_peers (atomically (Trust_List sha256));
  if isAutomaticWorkerSelector selector then resolveAutomaticWorkerForSpec peers spec
  else
    peer ← run_lift (only_match (filter (selects selector) peers));
    _ ← preflightWorkerCompatibility peer spec;
    mret peer.

Definition resolveTrustedWorker (selector : string) : Do Peer :=
  let selector := trim_space selector in
  _ ← run_lift (reject_if (bool_decide (selector = "")) [TrustErrNotFound]);
  peers ← in_peers (atomically (Trust_List sha256));
  if isAutomaticWorkerSelector selector then resolveAutomaticWorker peers
  else run_lift (only_match (filter (selects selector) peers)).

Definition resolveJobWorker (selector id : string) : Do Peer :=
  if negb (bool_decide (trim_space selector = "")) then resolveTrustedWorker selector
  else
    remembered ← attempt (in_peers (atomically (Placement_Get id)));
    match remembered with
    | Err e => run_fail (if errors_is e PlacementErrNotFound then [JobErrNotFound] else e)
    | Ok remembered =>
        peer ← attempt (in_peers (atomically (Trust_Get sha256 (Pl_WorkerID remembered))));
        match peer with
        | Err e => run_fail (if errors_is e TrustErrNotFound then [OrchErrWorkerUnavailable] else e)
        | Ok peer => if bool_decide (active_worker peer) then mret peer else run_fail [OrchErrWorkerUnavailable]
        end
    end.

(** ** Progress *)

Definition setLocalProgress (id : string) (phase : ProgressPhase) (completedBytes totalBytes : Z) : Do unit :=
  if negb has_progress || (totalBytes <=? 0)%Z then mret tt
  else at_ ← in_jobs now; in_jobs (atomically (Repo_SetProgress id (MkProgress phase completedBytes totalBytes at_))).

Definition clearProgress (id : string) : Do unit :=
  if negb has_progress || negb (ID_Valid id) then mret tt else in_jobs (atomically (Repo_ClearProgress id)).

Definition withLocalProgress (value : Job) : Do Job :=
  if negb has_progress then mret value
  else
    progress ← in_jobs (atomically (Repo_GetProgress (ID value)));
    mret (match progress with
      | Some _ => MkJob (ID value) (JobSpec value) (JobState value) (CreatedAt value) (UpdatedAt value) (JobFailure value) progress
      | None => value end).

Definition GetProgress (id : string) : Do (option Progress) :=
  if negb has_progress then mret None else in_jobs (atomically (Repo_GetProgress id)).

(** ** Submission *)

Definition acceptSubmitted (peer : Peer) (response : RemoteResponse) : Do Job :=
  match GetSubmitJob response with
  | None => run_fail malformed
  | Some message =>
      value ← run_lift (JobFromRemoteProto message);
      created ← attempt (in_peers (Placement_Create (MkPlacement (ID value) (DeviceID peer) (CreatedAt value))));
      match created with
      | Ok _ => mret value
      | Err _ => run_fail [OrchErrPlacementPersistence]
      end
  end.

(** The digests of one batch the worker lacks: it may name only those asked for. *)
Fixpoint missing_of (allowed values : list string) : result (list string) :=
  match values with
  | [] => Ok []
  | value :: rest =>
      match ParseDigest value with
      | Err _ => Err malformed
      | Ok digest => if bool_decide (digest ∈ allowed) then (others ← missing_of allowed rest; Ok (digest :: others)) else Err malformed
      end
  end.

(** The loop of [preflightSnapshot], a batch at a time; every batch takes at least one
    digest, so the number of digests is enough fuel. *)
Fixpoint preflight_loop (fuel : nat) (caller : C) (manifestID : string) (digests : list string) (missing : gset string)
    (accepted : option (list Z)) : Do (gset string * list Z) :=
  match digests, fuel with
  | [], _ => mret (missing, default [] accepted)
  | _, 0 => mret (missing, default [] accepted)
  | _, S fuel =>
      let batch := take snapshotPreflightBatch digests in
      response ← in_net (Caller_Call caller (request_for (ROpCheckSnapshot (Some (MkCheckSnapshot manifestID batch)))));
      match GetCheckSnapshot response with
      | None => run_fail malformed
      | Some preflight =>
          match ChunkEncodingsFromRemoteProto (cr_accepted_chunk_encodings preflight) with
          | Err _ => run_fail malformed
          | Ok batchAccepted =>
              _ ← run_lift (reject_if (match accepted with Some a => negb (bool_decide (a = batchAccepted)) | None => false end) malformed);
              found ← run_lift (missing_of batch (cr_missing_chunk_digests preflight));
              preflight_loop fuel caller manifestID (drop snapshotPreflightBatch digests) (list_to_set found ∪ missing) (Some batchAccepted)
          end
      end
  end.

Definition preflightSnapshot (caller : C) (manifestID : string) (digests : list string) : Do (list string * list Z) :=
  found ← preflight_loop (length digests) caller manifestID digests ∅ None;
  mret (filter (λ digest, digest ∈ found.1) digests, found.2).

(** The upload loop of [submitSnapshot]. *)
Fixpoint upload_loop (caller : C) (id : string) (manifest : Manifest) (accepted : list Z) (uploadBytes completed : Z) (missing : list string) : Do unit :=
  match missing with
  | [] => mret tt
  | digest :: rest =>
      contents ← in_content (Cas_Read sha256 digest);
      encoded ← run_lift (EncodeChunk contents accepted);
      encoding ← run_lift (ChunkEncodingToRemoteProto (Encoding encoded));
      response ← in_net (Caller_Call caller (request_for (ROpPutChunk (Some
        (MkChunkTransfer digest (Data encoded) encoding (UncompressedSize encoded))))));
      _ ← run_lift (reject_if (negb (bool_decide (GetPutChunk response = Some digest))) malformed);
      if (0 <? uploadBytes)%Z then
        let completed := wrap_int64 (completed + digestBytes manifest [digest]) in
        _ ← setLocalProgress id ProgressUpload completed uploadBytes;
        upload_loop caller id manifest accepted uploadBytes completed rest
      else upload_loop caller id manifest accepted uploadBytes completed rest
  end.

Definition without_directory (spec : Spec) : Spec :=
  MkSpec (Executable spec) (Arguments_ spec) "" (Environment spec) (SpecExecutor spec) (ContainerImage spec)
    (Outputs spec) (RequiredToolIDs spec).

(** [submitSnapshot] on an open connection. *)
Definition send_snapshot (peer : Peer) (caller : C) (submissionID : string) (spec : Spec) (project : SnapshotResult)
    (manifestMessage : ManifestMessage) (manifestID : string) : Do Job :=
  found ← preflightSnapshot caller manifestID (Digests (sr_Manifest project));
  let uploadBytes := digestBytes (sr_Manifest project) found.1 in
  _ ← (if (0 <? uploadBytes)%Z then setLocalProgress submissionID ProgressUpload 0 uploadBytes else mret tt);
  _ ← upload_loop caller submissionID (sr_Manifest project) found.2 uploadBytes 0 found.1;
  specMessage ← run_lift (SpecToRemoteProto (without_directory spec));
  response ← in_net (Caller_Call caller (request_for (ROpSubmitJob (Some
    (MkSubmitJob (Some specMessage) (Some manifestMessage) (sr_WorkingSubdirectory project) submissionID)))));
  acceptSubmitted peer response.

Definition submitSnapshot (peer : Peer) (requestedID : string) (spec : Spec) : Do Job :=
  _ ← run_lift (reject_if (bool_decide (trim_space (WorkingDirectory spec) = "")) [OrchErrSnapshotUnavailable]);
  submissionID ← run_lift (if ID_Valid requestedID then Ok requestedID else generated);
  finally (clearProgress submissionID) (
    _ ← in_content BeginUse;
    finally (in_content (EndUse maximumBytes)) (
      project ← in_host (build (WorkingDirectory spec));
      let snapshotBytes := Z.max (TotalBytes (sr_Manifest project)) 1 in
      _ ← setLocalProgress submissionID ProgressSnapshot snapshotBytes snapshotBytes;
      manifestMessage ← run_lift (ManifestToRemoteProto sha256 proto_size (sr_Manifest project));
      manifestID ← run_lift (Manifest_ID sha256 (sr_Manifest project));
      caller ← open peer;
      finally (in_net (Caller_Close caller)) (
        send_snapshot peer caller submissionID spec project manifestMessage manifestID))).

Definition submit (selector requestedID : string) (spec : Spec) : Do Job :=
  peer ← resolveSubmitWorker selector spec;
  if has_snapshots && negb (bool_decide (trim_space (WorkingDirectory spec) = "")) then submitSnapshot peer requestedID spec
  else
    message ← run_lift (SpecToRemoteProto spec);
    response ← call peer (ROpSubmitJob (Some (MkSubmitJob (Some message) None "" requestedID)));
    acceptSubmitted peer response.

Definition Remote_Submit (selector : string) (spec : Spec) : Do Job := submit selector "" spec.
Definition Remote_SubmitWithID (selector id : string) (spec : Spec) : Do Job :=
  _ ← run_lift (reject_if (negb (ID_Valid id)) [JobErrInvalidID]);
  submit selector id spec.

(** ** Following jobs *)

Definition job_answer (message : option (option JobMessage)) : Do Job :=
  match message with
  | None => run_fail malformed
  | Some message => value ← run_lift (JobFromRemoteProto message); withLocalProgress value
  end.

Definition Remote_Get (selector id : string) : Do Job :=
  peer ← resolveJobWorker selector id;
  response ← call peer (ROpGetJob (Some (MkGetJob id)));
  job_answer (GetGetJob response).

Definition Remote_Cancel (selector id : string) : Do Job :=
  peer ← resolveJobWorker selector id;
  response ← call peer (ROpCancelJob (Some (MkCancelJob id)));
  job_answer (GetCancelJob response).

Fixpoint jobs_answer (messages : list (option JobMessage)) : Do (list Job) :=
  match messages with
  | [] => mret []
  | message :: rest => value ← job_answer (Some message); values ← jobs_answer rest; mret (value :: values)
  end.

Definition Remote_List (selector : string) (options : ListOptions) : Do (list Job) :=
  states ← run_lift (StatesToRemoteProto (States options));
  peer ← resolveTrustedWorker selector;
  response ← call peer (ROpListJobs (Some (MkListJobs states (wrap_uint32 (Limit options)))));
  match GetListJobs response with
  | None => run_fail malformed
  | Some messages => jobs_answer messages
  end.

Definition Remote_ReadLogs (selector id : string) (after_ limit : Z) : Do JobLogs :=
  _ ← run_lift (reject_if ((limit <? 0)%Z || (MaximumPageLimit <? limit)%Z) [LogErrInvalidPage]);
  peer ← resolveJobWorker selector id;
  response ← call peer (ROpReadJobLogs (Some (MkReadJobLogs id after_ (wrap_uint32 limit))));
  match GetReadJobLogs response with
  | None => run_fail malformed
  | Some result =>
      value ← job_answer (Some (lr_job result));
      records ← run_lift (LogRecordsFromRemoteProto (lr_records result));
      _ ← run_lift (reject_if (match records with [] => false | r :: _ => (RecordSequence r <=? after_)%Z end) [LogErrInvalidRecord]);
      mret (MkJobLogs value None (MkPage records (lr_has_more result)))
  end.

(** ** Outputs *)

(** The download loop of [FetchArtifacts]. *)
Fixpoint download_loop (caller : C) (id : string) (manifest : Manifest) (acceptedEncodings : list Z) (completed total : Z) (missing : list string) : Do unit :=
  match missing with
  | [] => mret tt
  | digest :: rest =>
      response ← in_net (Caller_Call caller (request_for (ROpGetArtifactChunk (Some (MkGetArtifactChunk id digest acceptedEncodings)))));
      match GetGetArtifactChunk response with
      | None => run_fail malformed
      | Some chunk =>
          _ ← run_lift (reject_if (negb (bool_decide (ct_digest chunk = digest))) malformed);
          match ChunkEncodingFromRemoteProto (ct_encoding chunk) with
          | Err _ => run_fail malformed
          | Ok encoding =>
              match DecodeChunk (MkWireChunk encoding (ct_data chunk) (ct_uncompressed_size chunk)) with
              | Err _ => run_fail malformed
              | Ok contents =>
                  _ ← run_lift (reject_if (negb (bool_decide (Sum sha256 contents = digest))) malformed);
                  _ ← in_content (Cas_Put sha256 maximumBytes digest contents);
                  let completed := wrap_int64 (completed + digestBytes manifest [digest]) in
                  _ ← setLocalProgress id ProgressDownload completed total;
                  download_loop caller id manifest acceptedEncodings completed total rest
              end
          end
      end
  end.

(** The bundle a worker answers with. *)
Definition artifacts_answer (id : string) (answer : option ArtifactsResult) : result Bundle :=
  match answer with
  | None => Err malformed
  | Some answer =>
      if is_nil (ar_artifacts answer) || (ar_collected_at_unix_nano answer <=? 0)%Z then Err malformed
      else match JobFromRemoteProto (ar_job answer) with
      | Err _ => Err malformed
      | Ok current =>
          _ ← reject_if (negb (bool_decide (ID current = id)) || negb (bool_decide (JobState current = StateSucceeded))) malformed;
          manifest ← ManifestFromRemoteProto sha256 proto_size (ar_artifacts answer);
          let bundle := MkBundle id manifest (from_unix_nano (ar_collected_at_unix_nano answer)) in
          _ ← Bundle_Validate bundle;
          Ok bundle
      end
  end.

(** [FetchArtifacts] on an open connection. *)
Definition fetch (caller : C) (id destination : string) : Do RestoreResult :=
  response ← in_net (Caller_Call caller (request_for (ROpGetJobArtifacts (Some (MkGetJobArtifacts id)))));
  bundle ← run_lift (artifacts_answer id (GetGetJobArtifacts response));
  let manifest := BundleManifest bundle in
  missing ← in_content (Missing sha256 (Digests manifest));
  let totalBytes := manifestUniqueBytes manifest in
  let completedBytes := wrap_int64 (totalBytes - digestBytes manifest missing) in
  _ ← setLocalProgress id ProgressDownload completedBytes totalBytes;
  acceptedEncodings ← run_lift (ChunkEncodingsToRemoteProto SupportedChunkEncodings);
  _ ← download_loop caller id manifest acceptedEncodings completedBytes totalBytes missing;
  let restoreBytes := Z.max (TotalBytes manifest) 1 in
  _ ← setLocalProgress id ProgressRestore 0 restoreBytes;
  restored ← in_host (Restore sha256 maximumBytes bundle destination);
  _ ← setLocalProgress id ProgressRestore restoreBytes restoreBytes;
  response ← in_net (Caller_Call caller (request_for (ROpAcknowledge (Some (MkAcknowledge id)))));
  _ ← run_lift (reject_if (negb (bool_decide (default "" (GetAcknowledge response) = id))) malformed);
  _ ← (if has_progress then in_jobs (atomically (Repo_ClearProgress id)) else mret tt);
  mret restored.

Definition FetchArtifacts (selector id destination : string) : Do RestoreResult :=
  _ ← run_lift (reject_if (negb has_artifacts) [WorkerErrArtifactsDisabled]);
  _ ← in_content BeginUse;
  finally (in_content (EndUse maximumBytes)) (
    peer ← resolveJobWorker selector id;
    caller ← open peer;
    finally (in_net (Caller_Close caller)) (fetch caller id destination)).

End Service.

(** ** Choosing a worker *)

Section Choice.
Context `{UnicodeCase} `{Zstd} {N C : Type} `{Network N C} (sha256 : bytes → bytes) (has_remote : bool).
Abbreviation Do := (Run (Office N)).
Abbreviation hints_of_worker := (authenticatedWorkerHints sha256 has_remote).

(** A peer and what its worker reported meet the needs of a job. *)
Definition fits (spec : Spec) (r : Peer * option PeerHints) : Prop :=
  failed (workerExecutorCompatibility (match r.2 with Some hints => hint_SupportedExecutors hints | None => SupportedExecutors r.1 end)
    (SpecExecutor spec)) = false ∧ failed (preflightWorkerTools r.1 spec r.2) = false.
#[global] Instance fits_dec spec r : Decision (fits spec r).
Proof. unfold fits. apply _. Defined.

(** Runs that always return, with what they return. *)
Definition returns {A} (m : Do A) (o : Office N) (Q : A → Office N → Prop) : Prop := ∃ a o', m o = (Ok a, o') ∧ Q a o'.

Lemma returns_bind {A B} (m : Do A) (f : A → Do B) o P Q : returns m o P → (∀ a o', P a o' → returns (f a) o' Q) → returns (m ≫= f) o Q.
Proof. intros (a & o' & E & HP) Hf. destruct (Hf a o' HP) as (b & o2 & E2 & HQ). exists b, o2. unfold mbind, Run_bind. by rewrite E. Qed.
Lemma returns_attempt {A} (m : Do A) o : returns (attempt m) o (λ _ _, True).
Proof. unfold returns, attempt. destruct (m o) as [r o']. eauto. Qed.
Lemma returns_ret {A} (a : A) o (Q : A → Office N → Prop) : Q a o → returns (mret a) o Q.
Proof. exists a, o. done. Qed.
Lemma returns_any {A B} (m : Do A) (f : result A → Do B) o Q : (∀ r o', returns (f r) o' Q) → returns (attempt m ≫= f) o Q.
Proof. intros Hf. eapply returns_bind; [apply returns_attempt|]. intros r o' _. apply Hf. Qed.
Lemma returns_now o : returns (in_peers (N := N) now) o (λ _ _, True).
Proof. eexists _, _. done. Qed.

Lemma hints_return peer o : returns (hints_of_worker peer) o (λ _ _, True).
Proof.
  unfold authenticatedWorkerHints. case_match; [by apply returns_ret|]. apply returns_any. intros [response|e] o'; [|by apply returns_ret].
  unfold updateHintsFromWorkerStatus. destruct (GetGetWorkerStatus response) as [status|]; [|by apply returns_ret].
  eapply returns_bind; [apply returns_now|]. intros at_ o2 _. cbv zeta. destruct (Hints_Validate _); [|by apply returns_ret].
  apply returns_any. intros r o3. by apply returns_ret.
Qed.

(** What the workers report when they are asked in turn. *)
Fixpoint asked (peers : list Peer) (o : Office N) (reports : list (Peer * option PeerHints)) (o' : Office N) : Prop :=
  match peers, reports with
  | [], [] => o' = o
  | peer :: peers, (p, hints) :: reports => p = peer ∧ ∃ o1, hints_of_worker peer o = (Ok hints, o1) ∧ asked peers o1 reports o'
  | _, _ => False
  end.

Lemma preflight_result peer spec o : ∃ hints o', hints_of_worker peer o = (Ok hints, o') ∧
  preflightWorkerCompatibility sha256 has_remote peer spec o = (if decide (fits spec (peer, hints)) then Ok tt else Err incompatible, o').
Proof.
  destruct (hints_return peer o) as (hints & o' & E & _). exists hints, o'. split; [done|]. unfold preflightWorkerCompatibility, mbind at 1, Run_bind. rewrite E.
  unfold mbind, Run_bind, run_lift.
  destruct (executor_check (match hints with Some hints => hint_SupportedExecutors hints | None => SupportedExecutors peer end) (SpecExecutor spec))
    as [He|He]; [destruct (tools_check peer spec hints) as [Ht|Ht]|];
    case_decide as Hf; unfold fits in Hf; cbn [fst snd] in Hf; rewrite He in Hf |- *; rewrite ?Ht in Hf |- *; try done; by destruct Hf.
Qed.

Lemma compatible_return scores spec peers o : returns (compatible_loop sha256 has_remote scores spec peers) o (λ found o',
  ∃ reports, asked (filter active_worker peers) o reports o' ∧ reports.*1 = filter active_worker peers ∧
    found = (map (λ r, (r.1, score_of scores r.1)) (filter (fits spec) reports), length reports - length (filter (fits spec) reports))).
Proof.
  revert o. induction peers as [|peer peers IH]; intros o; [apply returns_ret; by exists []|]. simpl. rewrite filter_cons.
  case_bool_decide as Ha; cbn [negb]; rewrite ?decide_True, ?decide_False by done; [|apply IH].
  destruct (preflight_result peer spec o) as (hints & o' & Eh & E).
  eapply returns_bind; [eexists _, _; split; [unfold attempt; rewrite E; reflexivity|]; instantiate (1 := λ r o2, o2 = o' ∧ r = _); done|].
  intros r o2 [-> ->]. case_decide as Hf.
  - eapply returns_bind; [apply IH|]. intros found o3 (reports & Ha' & Hr & ->). apply returns_ret. exists ((peer, hints) :: reports). split; [split; [done|]; eauto|].
    rewrite (filter_cons (fits spec)), decide_True by done. rewrite fmap_cons, Hr. done.
  - change (errors_is incompatible OrchErrWorkerIncompatible) with true. cbv iota.
    eapply returns_bind; [apply IH|]. intros found o3 (reports & Ha' & Hr & ->). apply returns_ret. exists ((peer, hints) :: reports). split; [split; [done|]; eauto|].
    rewrite (filter_cons (fits spec)), decide_False by done. rewrite fmap_cons, Hr. split; [done|]. cbn [fst snd length]. f_equal.
    pose proof (length_filter (fits spec) reports). lia.
Qed.

(** Scores only grow while they are collected. *)
Definition at_least (scores scores' : gmap string Z) : Prop := ∀ id, (default 0 (scores !! id) ≤ default 0 (scores' !! id))%Z.

Lemma raise_at_least scores id score : at_least scores (raise scores id score).
Proof.
  intros k. unfold raise. destruct (Z.ltb_spec (default 0%Z (scores !! id)) score); [|done].
  destruct (decide (k = id)) as [->|]; [rewrite lookup_insert_eq; simpl; lia|by rewrite lookup_insert_ne].
Qed.
#[local] Instance at_least_trans : Transitive at_least.
Proof. intros a b c Hab Hbc k. specialize (Hab k). specialize (Hbc k). lia. Qed.
#[local] Instance at_least_refl : Reflexive at_least.
Proof. by intros a k. Qed.

Lemma nearby_scores_return matched scores o : returns (nearby_scores sha256 matched scores) o (λ scores' _, at_least scores scores').
Proof.
  revert scores o. induction matched as [|[id hints] matched IH]; intros scores o; [by apply returns_ret|]. simpl.
  apply returns_any. intros r o'. destruct (IH (raise scores id (resourceScore (hint_LogicalCPUCount hints) (hint_TotalMemoryBytes hints))) o')
    as (a & o2 & E & Ha). exists a, o2. split; [done|]. etrans; [apply raise_at_least|done].
Qed.

Lemma status_scores_return peers scores o : returns (status_scores sha256 has_remote peers scores) o (λ scores' _, at_least scores scores').
Proof.
  revert scores o. induction peers as [|peer peers IH]; intros scores o; [by apply returns_ret|]. simpl.
  eapply returns_bind; [apply hints_return|]. intros hints o' _. destruct hints as [hints|]; [|apply IH].
  destruct (IH (raise scores (DeviceID peer) (resourceScore (hint_LogicalCPUCount hints) (hint_TotalMemoryBytes hints))) o')
    as (a & o2 & E & Ha). exists a, o2. split; [done|]. etrans; [apply raise_at_least|done].
Qed.

Lemma stored_scores_other peers (scores : gmap string Z) id : id ∉ map DeviceID peers →
  foldl (λ scores peer, if bool_decide (active_worker peer)
    then <[DeviceID peer := resourceScore (LogicalCPUCount peer) (TotalMemoryBytes peer)]> scores else scores) scores peers !! id = scores !! id.
Proof.
  revert scores. induction peers as [|p peers IH]; intros scores Hn; [done|]. apply not_elem_of_cons in Hn as [Hne Hn]. simpl.
  rewrite IH by done. case_bool_decide; [by rewrite lookup_insert_ne|done].
Qed.

Lemma stored_scores_own peers peer : NoDup (map DeviceID peers) → peer ∈ peers → active_worker peer →
  score_of (stored_scores peers) peer = resourceScore (LogicalCPUCount peer) (TotalMemoryBytes peer).
Proof.
  unfold score_of, stored_scores. generalize (∅ : gmap string Z). induction peers as [|p peers IH]; [by intros ? ? ?%not_elem_of_nil|].
  intros scores [Hn Hnd]%NoDup_cons [->|Hin]%elem_of_cons Ha; simpl.
  - rewrite stored_scores_other, bool_decide_eq_true_2, lookup_insert_eq by done. done.
  - by apply IH.
Qed.

Lemma scores_return peers o : returns (workerResourceScores sha256 has_remote peers) o (λ scores _, at_least (stored_scores peers) scores).
Proof.
  unfold workerResourceScores. apply returns_any. intros snapshot o'.
  eapply returns_bind with (P := λ scores _, at_least (stored_scores peers) scores);
    [destruct snapshot; [apply nearby_scores_return|by apply returns_ret]|].
  intros scores o2 Hs. destruct (status_scores_return peers scores o2) as (a & o3 & E & Ha). exists a, o3. split; [done|]. by etrans.
Qed.

(** C34 The worker of [--on auto]: it answers with the paired active worker that,
    with what the workers reported of themselves, fits the job and has the highest
    score among those that fit, the lowest identifier among equals; no score is
    below the stored resources of its peer.  Only when none fits is the submission
    refused, as incompatible if there were workers and the job needs a container or
    tools. *)
Theorem automatic_choice peers spec o : NoDup (map DeviceID peers) →
  ∃ r o' scores o1 reports, resolveAutomaticWorkerForSpec sha256 has_remote peers spec o = (r, o') ∧
    workerResourceScores sha256 has_remote peers o = (Ok scores, o1) ∧ asked (filter active_worker peers) o1 reports o' ∧ reports.*1 = filter active_worker peers ∧
    (∀ peer, peer ∈ reports.*1 → (resourceScore (LogicalCPUCount peer) (TotalMemoryBytes peer) ≤ score_of scores peer)%Z) ∧
    match r with
    | Ok peer => (∃ hints, (peer, hints) ∈ reports ∧ fits spec (peer, hints)) ∧ ∀ q hints, (q, hints) ∈ reports → fits spec (q, hints) →
        (score_of scores q < score_of scores peer)%Z ∨
        score_of scores q = score_of scores peer ∧ str_leb (DeviceID peer) (DeviceID q) = true
    | Err e => (∀ q hints, (q, hints) ∈ reports → ¬ fits spec (q, hints)) ∧
        e = [if bool_decide (reports = []) || negb (bool_decide (SpecExecutor spec = ExecutorContainer))
               && bool_decide (requiredToolIDs spec = []) then OrchErrWorkerUnavailable else OrchErrWorkerIncompatible]
    end.
Proof.
  intros Hnd. destruct (scores_return peers o) as (scores & o1 & Es & Hs). destruct (compatible_return scores spec peers o1) as (found & o2 & Ec & reports & Hask & Hr & ->).
  unfold resolveAutomaticWorkerForSpec, mbind, Run_bind. rewrite Es, Ec. cbn [fst snd].
  assert (∀ peer, peer ∈ reports.*1 → (resourceScore (LogicalCPUCount peer) (TotalMemoryBytes peer) ≤ score_of scores peer)%Z) as Hscore.
  { intros peer Hin. rewrite Hr in Hin. apply list_elem_of_filter in Hin as [Ha Hin]. rewrite <- (stored_scores_own peers peer) by done. apply Hs. }
  destruct (best _) as [peer|] eqn:Hb.
  - apply best_some in Hb as (score & Hin & Hmax).
    apply list_elem_of_In, in_map_iff in Hin as ([p hints] & [= -> <-] & [Hf Hin]%list_elem_of_In%list_elem_of_filter).
    exists (Ok peer), o2, scores, o1, reports. split_and!; [done..|by eauto|].
    intros q qh Hq Hqf.
    apply (Hmax (q, score_of scores q)), list_elem_of_In, in_map_iff. exists (q, qh). split; [done|]. by apply list_elem_of_In, list_elem_of_filter.
  - apply best_none, map_eq_nil in Hb. rewrite Hb. cbn [length]. rewrite Nat.sub_0_r.
    eexists (Err [_]), o2, scores, o1, reports. split_and!; [|done..| |done].
    + destruct reports as [|rep reports]; [done|]. rewrite (bool_decide_eq_false_2 (_ :: _ = [])) by done. cbn [length Nat.ltb Nat.leb andb orb].
      by destruct (bool_decide (SpecExecutor spec = ExecutorContainer)), (bool_decide (requiredToolIDs spec = [])).
    + intros q hints Hq Hf. apply (not_elem_of_nil (q, hints)). rewrite <- Hb. by apply list_elem_of_filter.
Qed.


End Choice.

(** ** Placements *)

Section Placing.
Context `{UnicodeCase} `{Zstd} {N C : Type} `{Network N C} (sha256 : bytes → bytes) (Hsha : ∀ c, length (sha256 c) = 32).
Context (maximumBytes : Z) (proto_size : ManifestMessage → Z) (has_remote has_snapshots has_progress : bool).
Context (build : string → Run Host SnapshotResult) (generated : result string).
Abbreviation Do := (Run (Office N)).

(** A trust store that only its own operations change. *)
Definition live (w : World PeerDB) : Prop :=
  rtc (trust_step sha256) empty_peers (w_db w) ∧ ∀ n d, rtc (trust_step sha256) d (w_interfere w n d).
Abbreviation peers_live := (λ o : Office N, live (of_peers o)).

Section Kept.
(** Anything said of the trust store, for the programs that leave it alone. *)
Context (I : World PeerDB → Prop).
Abbreviation of_live := (λ o : Office N, I (of_peers o)).
Lemma host_live {A} (m : Run Host A) : stays of_live (in_host m).
Proof. by apply stays_zoom with (J := λ _, True); [|intros o w|]. Qed.
Lemma nearby_live {A} (m : M DeviceService A) : stays of_live (in_nearby m).
Proof. by apply stays_zoom with (J := λ _, True); [|intros o w|]. Qed.
Lemma net_live {A} (m : Run N A) : stays of_live (in_net m).
Proof. by apply stays_zoom with (J := λ _, True); [|intros o w|]. Qed.
Lemma jobs_live {A} (m : M Database A) : stays of_live (in_jobs m).
Proof. apply host_live. Qed.
Lemma content_live {A} (m : M Vault A) : stays of_live (in_content m).
Proof. apply host_live. Qed.
End Kept.
#[local] Hint Resolve host_live nearby_live net_live jobs_live content_live : hop_stays.

Section Connections.
Context (I : World PeerDB → Prop).
Abbreviation of_live := (λ o : Office N, I (of_peers o)).
Lemma dial_live peer candidates failures : stays of_live (dial_loop peer candidates failures).
Proof. revert failures. induction candidates as [|c candidates IH]; intros failures; simpl; stays. Qed.
#[local] Hint Resolve dial_live : hop_stays.
Lemma open_live peer : stays of_live (open has_remote peer).
Proof. unfold open, nearbyCandidates. stays. Qed.
#[local] Hint Resolve open_live : hop_stays.
Lemma call_live peer operation : stays of_live (call has_remote peer operation).
Proof. unfold call. stays. Qed.
Lemma progress_live id phase c t : stays of_live (setLocalProgress has_progress id phase c t).
Proof. unfold setLocalProgress. stays. Qed.
Lemma clear_live id : stays of_live (clearProgress has_progress id).
Proof. unfold clearProgress. stays. Qed.
#[local] Hint Resolve progress_live : hop_stays.
Lemma preflight_live fuel caller manifestID digests missing accepted : stays of_live (preflight_loop fuel caller manifestID digests missing accepted).
Proof. revert digests missing accepted. induction fuel as [|fuel IH]; intros [|d digests] missing accepted; cbn [preflight_loop]; stays. Qed.
#[local] Hint Resolve preflight_live : hop_stays.
Lemma upload_live caller id manifest accepted bytes completed missing :
  stays of_live (upload_loop sha256 has_progress caller id manifest accepted bytes completed missing).
Proof. revert completed. induction missing as [|d missing IH]; intros completed; simpl; stays. Qed.
End Connections.
#[local] Hint Resolve dial_live open_live call_live progress_live clear_live preflight_live upload_live : hop_stays.

Lemma peers_stay {A} (t : Tx PeerDB A) : (∀ d a d', t d = Ok (a, d') → rtc (trust_step sha256) d d') → stays peers_live (in_peers (N := N) (atomically t)).
Proof.
  intros Ht. apply stays_zoom with (J := live); [done|done|]. intros w [Hr Hi]. unfold atomically, next_db. assert (rtc (trust_step sha256) empty_peers (w_interfere w (w_access w) (w_db w))) as Hr'
    by (etrans; [exact Hr|apply Hi]).
  destruct (w_fault _ _); [done|]. destruct (t _) as [[a d']|] eqn:E; [|done]. split; [|done]. etrans; [exact Hr'|by eapply Ht].
Qed.
Lemma list_live : stays peers_live (in_peers (N := N) (atomically (Trust_List sha256))).
Proof. apply peers_stay. intros d a d' E. unfold Trust_List in E. by invert_tx E. Qed.
Lemma hints_live id hints : stays peers_live (in_peers (N := N) (atomically (UpdateHints sha256 id hints))).
Proof. apply peers_stay. intros d a d' E. eapply rtc_once, step_hints, E. Qed.
Lemma clock_live : stays peers_live (in_peers (N := N) now).
Proof. by intros o [Hr Hi]. Qed.
#[local] Hint Resolve list_live hints_live clock_live : hop_stays.

Lemma worker_hints_live peer : stays peers_live (authenticatedWorkerHints sha256 has_remote peer).
Proof. unfold authenticatedWorkerHints, updateHintsFromWorkerStatus. stays. Qed.
#[local] Hint Resolve worker_hints_live : hop_stays.
Lemma compatibility_live peer spec : stays peers_live (preflightWorkerCompatibility sha256 has_remote peer spec).
Proof. unfold preflightWorkerCompatibility. stays. Qed.
Lemma nearby_scores_live matched scores : stays peers_live (nearby_scores sha256 matched scores).
Proof. revert scores. induction matched as [|[id hints] matched IH]; intros scores; simpl; stays. Qed.
Lemma status_scores_live peers scores : stays peers_live (status_scores sha256 has_remote peers scores).
Proof. revert scores. induction peers as [|p peers IH]; intros scores; simpl; stays. Qed.
#[local] Hint Resolve compatibility_live nearby_scores_live status_scores_live : hop_stays.
Lemma scores_live peers : stays peers_live (workerResourceScores sha256 has_remote peers).
Proof. unfold workerResourceScores. stays. Qed.
Lemma compatible_live scores spec peers : stays peers_live (compatible_loop sha256 has_remote scores spec peers).
Proof. induction peers as [|p peers IH]; simpl; stays. Qed.
#[local] Hint Resolve scores_live compatible_live : hop_stays.
Lemma resolve_live selector spec : stays peers_live (resolveSubmitWorker sha256 has_remote selector spec).
Proof. unfold resolveSubmitWorker, resolveAutomaticWorkerForSpec. stays. Qed.

Lemma only_match_in (l : list Peer) peer : only_match l = Ok peer → l = [peer].
Proof. destruct l as [|p [|q l]]; cbn; [done|by intros [= ->]|done]. Qed.

Lemma resolve_active selector spec o peer o' : resolveSubmitWorker sha256 has_remote selector spec o = (Ok peer, o') → active_worker peer.
Proof.
  intros (u & o1 & _ & (peers & o2 & _ & Hrun)%run_bind_ok)%run_bind_ok. destruct (isAutomaticWorkerSelector _).
  - apply run_bind_ok in Hrun as (scores & o3 & _ & (found & o4 & Hf & Hrun)%run_bind_ok).
    destruct (compatible_return sha256 has_remote scores spec peers o3) as (found' & o5 & E & reports & _ & Hr & ->).
    rewrite E in Hf. injection Hf as <- <-. cbn [fst snd] in Hrun. destruct (best _) as [p|] eqn:Hb; [|by case_match].
    injection Hrun as -> _. apply best_some in Hb as (score & Hin & _).
    apply list_elem_of_In, in_map_iff in Hin as ([q hints] & [= -> <-] & [_ Hin]%list_elem_of_In%list_elem_of_filter).
    assert (peer ∈ reports.*1) as Hp by (apply list_elem_of_fmap; by exists (peer, hints)). rewrite Hr in Hp. by apply list_elem_of_filter in Hp as [? _].
  - apply run_bind_ok in Hrun as (p & o3 & [Hm%only_match_in _]%run_lift_ok & (v & o4 & _ & [= -> _])%run_bind_ok).
    assert (peer ∈ filter (selects (trim_space selector)) peers) as Hp by (rewrite Hm; by left). by apply list_elem_of_filter in Hp as [[? _] _].
Qed.

(** The job is placed at the peer. *)
Definition placed (peer : Peer) (value : Job) (w : World PeerDB) : Prop :=
  live w ∧ ∃ row, remote_job_placements (w_db w) !! ID value = Some row ∧ pl_worker row = DeviceID peer.
Abbreviation places peer := (λ (r : result Job) (o : Office N), match r with Ok value => placed peer value (of_peers o) | Err _ => True end).

Lemma create_same value w r w' : Placement_Create value w = (r, w') → w_interfere w' = w_interfere w.
Proof.
  intros E. assert (keeps (λ _, True) (Placement_Create value)) as Hk; [|by eapply Hk]. unfold Placement_Create.
  apply bind_keeps; [auto with hop|intros _]. apply bind_keeps; [by apply try_keeps, atomically_keeps|intros [u|e]; [auto with hop|]].
  case_match; [auto with hop|]. apply bind_keeps; [by apply try_keeps, atomically_keeps|intros [p|e']; case_match; auto with hop].
Qed.

Lemma accept_places peer response o : peers_live o → runs (acceptSubmitted peer response) o (places peer).
Proof.
  intros Hl. unfold acceptSubmitted. destruct (GetSubmitJob response) as [message|]; [|by apply runs_fail].
  apply runs_bind, runs_lift. destruct (JobFromRemoteProto message) as [value|]; [|done]. apply runs_bind, runs_attempt, runs_zoom.
  unfold runs at 1. destruct (Placement_Create _ (of_peers o)) as [[[]|e] w] eqn:E; cbn [fst snd]; [|by apply runs_fail].
  apply runs_ret. destruct Hl as [Hr Hi]. pose proof (create_same _ _ _ _ E) as Hw.
  eapply create_places in E as (row & Hrow & Hworker & Hr'); [|done..]. split; [split; [done|cbn; by rewrite Hw]|]. by exists row.
Qed.

(** What is said of the trust store at the end survives a cleanup elsewhere. *)
Lemma finally_places peer (cleanup : Do unit) (m : Do Job) o : (∀ I, stays (λ o, I (of_peers o)) cleanup) →
  runs m o (places peer) → runs (finally cleanup m) o (places peer).
Proof.
  intros Hc Hm. apply runs_finally. eapply runs_mono; [exact Hm|]. cbv beta. intros r o' Hr.
  exact (Hc (λ w, match r with Ok value => placed peer value w | Err _ => True end) o' Hr).
Qed.

Lemma send_places peer caller id spec project message manifestID o : peers_live o →
  runs (send_snapshot sha256 has_progress peer caller id spec project message manifestID) o (places peer).
Proof.
  intros Hl. unfold send_snapshot, preflightSnapshot.
  eapply (runs_after peers_live); [stays|done|done|]. intros found o1 _ Hl1. cbv zeta.
  eapply (runs_after peers_live); [stays|done|done|]. intros u o2 _ Hl2.
  eapply (runs_after peers_live); [stays|done|done|]. intros u' o3 _ Hl3.
  eapply (runs_after peers_live); [stays|done|done|]. intros specMessage o4 _ Hl4.
  eapply (runs_after peers_live); [stays|done|done|]. intros response o5 _ Hl5. by apply accept_places.
Qed.

Lemma snapshot_places peer requestedID spec o : peers_live o →
  runs (submitSnapshot sha256 maximumBytes proto_size has_remote has_progress build generated peer requestedID spec) o (places peer).
Proof.
  intros Hl. unfold submitSnapshot.
  eapply (runs_after peers_live); [stays|done|done|]. intros u o1 _ Hl1.
  eapply (runs_after peers_live); [stays|done|done|]. intros id o2 _ Hl2.
  apply finally_places; [intros I; stays|]. eapply (runs_after peers_live); [stays|done|done|]. intros u' o3 _ Hl3.
  apply finally_places; [intros I; stays|].
  eapply (runs_after peers_live); [stays|done|done|]. intros project o4 _ Hl4. cbv zeta.
  eapply (runs_after peers_live); [stays|done|done|]. intros u2 o5 _ Hl5.
  eapply (runs_after peers_live); [stays|done|done|]. intros message o6 _ Hl6.
  eapply (runs_after peers_live); [stays|done|done|]. intros manifestID o7 _ Hl7.
  eapply (runs_after peers_live); [stays|done|done|]. intros caller o8 _ Hl8.
  apply finally_places; [intros I; stays|]. by apply send_places.
Qed.

End Placing.

(** ** Fetching outputs *)

Section Fetching.
Context `{UnicodeCase} `{Zstd} {N C : Type} `{Network N C} (sha256 : bytes → bytes).
Context (maximumBytes : Z) (proto_size : ManifestMessage → Z) (has_remote has_progress : bool).
Abbreviation Do := (Run (Office N)).

(** The user's files, which nobody else writes to meanwhile. *)
Definition home_is (T : Tree) (o : Office N) : Prop :=
  still (h_home (of_host o)) ∧ still (h_spaces (of_host o)) ∧ w_db (h_home (of_host o)) = T.

(** Restoring keeps it so. *)
Definition quiet_host (h : Host) : Prop := still (h_home h) ∧ still (h_spaces h).
Lemma still_atomically {DB A} (t : Tx DB A) : stays (S := World DB) still (atomically t).
Proof. intros w Hw. unfold atomically. repeat case_match; done. Qed.
Lemma quiet_content {A} (m : M Vault A) : stays quiet_host (on_content m).
Proof. by apply stays_zoom with (J := λ _, True); [|intros h w [??]|]. Qed.
Lemma quiet_home {A} (t : Tx Tree A) : stays quiet_host (home t).
Proof. by apply stays_zoom with (J := still); [intros h []|intros h w [??]|apply still_atomically]. Qed.
Lemma quiet_io : stays quiet_host private_io.
Proof. by apply stays_zoom with (J := still); [intros h []|intros h w [??]|apply still_atomically]. Qed.
#[local] Hint Resolve quiet_content quiet_home quiet_io : hop_stays.
Lemma quiet_copy chunks written : stays quiet_host (copy_chunks sha256 chunks written).
Proof. revert written. induction chunks as [|c chunks IH]; intros written; simpl; stays. Qed.
#[local] Hint Resolve quiet_copy : hop_stays.
Lemma quiet_files files (t : Tree) : stays quiet_host (materialize_files sha256 files t).
Proof. revert t. induction files as [|f files IH]; intros t; simpl; stays. Qed.
Lemma quiet_ensure current rest : stays quiet_host (ensure_loop current rest).
Proof. revert current. induction rest as [|n rest IH]; intros current; simpl; stays. Qed.
#[local] Hint Resolve quiet_files quiet_ensure : hop_stays.
Lemma quiet_place mode data p : stays quiet_host (placeWithoutOverwrite mode data p).
Proof. unfold placeWithoutOverwrite, filesEqual. stays. Qed.
#[local] Hint Resolve quiet_place : hop_stays.
Lemma quiet_conflict n id original mode data : stays quiet_host (conflict_loop n id original mode data).
Proof. revert n. induction n as [|n IH]; simpl; unfold ensureRestoreDirectory; stays. Qed.
#[local] Hint Resolve quiet_conflict : hop_stays.
Lemma quiet_place_files id staging files restored conflicts : stays quiet_host (place_files id staging files restored conflicts).
Proof.
  revert restored conflicts. induction files as [|f files IH]; intros restored conflicts; simpl; unfold ensureRestoreDirectory, placeConflict; stays.
Qed.
#[local] Hint Resolve quiet_place_files : hop_stays.
Lemma quiet_restore bundle destination : stays quiet_host (Restore sha256 maximumBytes bundle destination).
Proof. unfold Restore, ensureRestoreRoot. stays. Qed.

Section Kept.
Context (T : Tree).
Lemma peers_home {A} (m : M PeerDB A) : stays (home_is T) (in_peers m).
Proof. by apply stays_zoom with (J := λ _, True); [|intros o w|]. Qed.
Lemma nearby_home {A} (m : M DeviceService A) : stays (home_is T) (in_nearby m).
Proof. by apply stays_zoom with (J := λ _, True); [|intros o w|]. Qed.
Lemma net_home {A} (m : Run N A) : stays (home_is T) (in_net m).
Proof. by apply stays_zoom with (J := λ _, True); [|intros o w|]. Qed.
Lemma jobs_home {A} (m : M Database A) : stays (home_is T) (in_jobs m).
Proof. intros o Ho. unfold in_jobs, in_host, on_jobs, zoom. by destruct (m _). Qed.
Lemma cache_home {A} (m : M Vault A) : stays (home_is T) (in_content m).
Proof. intros o Ho. unfold in_content, in_host, on_content, zoom. by destruct (m _). Qed.
#[local] Hint Resolve peers_home nearby_home net_home jobs_home cache_home : hop_stays.
Lemma progress_home id phase c t : stays (home_is T) (setLocalProgress (N := N) has_progress id phase c t).
Proof. unfold setLocalProgress. stays. Qed.
Lemma dial_home peer candidates failures : stays (home_is T) (dial_loop peer candidates failures).
Proof. revert failures. induction candidates as [|c candidates IH]; intros failures; simpl; stays. Qed.
#[local] Hint Resolve progress_home dial_home : hop_stays.
Lemma open_home peer : stays (home_is T) (open has_remote peer).
Proof. unfold open, nearbyCandidates. stays. Qed.
#[local] Hint Resolve open_home : hop_stays.
Lemma call_home peer operation : stays (home_is T) (call has_remote peer operation).
Proof. unfold call. stays. Qed.
#[local] Hint Resolve call_home : hop_stays.
Lemma hints_home peer : stays (home_is T) (authenticatedWorkerHints sha256 has_remote peer).
Proof. unfold authenticatedWorkerHints, updateHintsFromWorkerStatus. stays. Qed.
#[local] Hint Resolve hints_home : hop_stays.
Lemma nearby_scores_home matched scores : stays (home_is T) (nearby_scores sha256 matched scores).
Proof. revert scores. induction matched as [|[id hints] matched IH]; intros scores; simpl; stays. Qed.
Lemma status_scores_home peers scores : stays (home_is T) (status_scores sha256 has_remote peers scores).
Proof. revert scores. induction peers as [|p peers IH]; intros scores; simpl; stays. Qed.
#[local] Hint Resolve nearby_scores_home status_scores_home : hop_stays.
Lemma resolve_home selector id : stays (home_is T) (resolveJobWorker sha256 has_remote selector id).
Proof. unfold resolveJobWorker, resolveTrustedWorker, resolveAutomaticWorker, workerResourceScores. stays. Qed.
Lemma download_home caller id manifest encodings completed total missing :
  stays (home_is T) (download_loop sha256 maximumBytes has_progress caller id manifest encodings completed total missing).
Proof. revert completed. induction missing as [|d missing IH]; intros completed; simpl; stays. Qed.
End Kept.
#[local] Hint Resolve peers_home nearby_home net_home jobs_home cache_home progress_home open_home resolve_home download_home : hop_stays.

(** What fetching does to the user's files [T]. *)
Definition fetched (T : Tree) (id destination : string) (r : result RestoreResult) (o : Office N) : Prop :=
  ∃ T', home_is T' o ∧ T ⊆ T' ∧ ∀ result, r = Ok result → ∃ caller n n' response bundle,
    Caller_Call caller (request_for (ROpGetJobArtifacts (Some (MkGetJobArtifacts id)))) n = (Ok response, n') ∧
    artifacts_answer sha256 proto_size id (GetGetJobArtifacts response) = Ok bundle ∧
    restored_all sha256 bundle destination T' result.
Lemma fetched_same T id destination e o : home_is T o → fetched T id destination (Err e) o.
Proof. intros Ho. exists T. split_and!; [done|done|]. by intros result [=]. Qed.

(** A cleanup that leaves the files alone. *)
Lemma finally_fetched T id destination (cleanup : Do unit) (m : Do RestoreResult) o : (∀ T', stays (home_is T') cleanup) →
  runs m o (fetched T id destination) → runs (finally cleanup m) o (fetched T id destination).
Proof.
  intros Hc Hm. apply runs_finally. eapply runs_mono; [exact Hm|]. cbv beta. intros r o' (T' & Ho & Hsub & Hr).
  exists T'. split; [by apply Hc|done].
Qed.

Lemma restore_office bundle destination T o : home_is T o →
  runs (in_host (Restore sha256 maximumBytes bundle destination)) o (λ r o', ∃ T', home_is T' o' ∧ T ⊆ T' ∧
    ∀ result, r = Ok result → restored_all sha256 bundle destination T' result).
Proof.
  intros (Hh & Hs & HT). apply runs_zoom. eapply runs_mono.
  { apply runs_stays with (I := quiet_host); [by apply restore_runs|apply quiet_restore|done]. }
  cbv beta. intros r h [[Hsub Hr] [Hh' Hs']]. exists (w_db (h_home h)). rewrite HT in Hsub. done.
Qed.

(** A step after which the outcome is settled unless it fails. *)
Lemma settled {A} T id destination result (m : Do A) (f : A → Do RestoreResult) o : (∀ T', stays (home_is T') m) →
  fetched T id destination (Ok result) o →
  (∀ a o', fetched T id destination (Ok result) o' → runs (f a) o' (fetched T id destination)) →
  runs (m ≫= f) o (fetched T id destination).
Proof.
  intros Hm (T' & Ho & Hsub & Hr) Hf.
  eapply (runs_after (λ o, fetched T id destination (Ok result) o)).
  - intros o1 (T1 & Ho1 & Hsub1 & Hr1). exists T1. split; [by apply Hm|done].
  - by exists T'.
  - intros e o1 (T1 & Ho1 & Hsub1 & _). exists T1. split_and!; [done|done|by intros ? [=]].
  - intros a o1 _ Ho1. by apply Hf.
Qed.

Lemma fetch_fetched caller T id destination o : home_is T o →
  runs (fetch sha256 maximumBytes proto_size has_progress caller id destination) o (fetched T id destination).
Proof.
  intros Ho. unfold fetch. pose proof (fetched_same T id destination) as Hsame.
  eapply (runs_after (home_is T)); [stays|done|done|]. intros response o1 Hcall Ho1.
  eapply (runs_after (home_is T)); [stays|done|done|]. intros bundle o2 [Hans ->]%run_lift_ok _. cbv zeta.
  eapply (runs_after (home_is T)); [stays|done|done|]. intros missing o3 _ Ho3.
  eapply (runs_after (home_is T)); [stays|done|done|]. intros u o4 _ Ho4.
  eapply (runs_after (home_is T)); [stays|done|done|]. intros encodings o5 _ Ho5.
  eapply (runs_after (home_is T)); [stays|done|done|]. intros u2 o6 _ Ho6.
  eapply (runs_after (home_is T)); [stays|done|done|]. intros u3 o7 _ Ho7.
  apply runs_bind. eapply runs_mono; [by apply restore_office|]. cbv beta. intros r o8 (T' & Ho8 & Hsub & Hr).
  destruct r as [restored|e]; [|exists T'; split_and!; [done|done|by intros ? [=]]].
  assert (fetched T id destination (Ok restored) o8) as Hf.
  { unfold in_net, zoom in Hcall. destruct (Caller_Call caller _ (of_net o)) as [rc n] eqn:Ec. injection Hcall as -> _.
    exists T'. split_and!; [done|done|]. intros result [= <-]. exists caller, (of_net o), n, response, bundle. auto. }
  apply settled with restored; [intros; stays|done|]. intros u4 o9 Hf9.
  apply settled with restored; [intros; stays|done|]. intros response2 o10 Hf10.
  apply settled with restored; [intros; stays|done|]. intros u5 o11 Hf11.
  apply settled with restored; [intros; stays|done|]. intros u6 o12 Hf12. by apply runs_ret.
Qed.

(** C14 As long as nobody else writes to the user's files meanwhile ([home_is]: they are
    [T], and only the fetch changes them and the staging directories), fetching a job's
    outputs keeps every file that was there, with its bytes, whatever the worker answers
    and whatever fails.  If it succeeds, the worker answered with a well-formed bundle of
    that job and every file of it is in place or, beside a different file of the same
    name, under the conflict directory, with the digests the bundle gives.  The condition
    is needed: a file that another program creates between the look at a destination and
    the rename onto it is replaced ([restore_race] of Restore.v). *)
Theorem fetch_preserves has_artifacts selector id destination T o : home_is T o →
  runs (FetchArtifacts sha256 maximumBytes proto_size has_remote has_progress has_artifacts selector id destination) o (fetched T id destination).
Proof.
  intros Ho. unfold FetchArtifacts. pose proof (fetched_same T id destination) as Hsame.
  eapply (runs_after (home_is T)); [stays|done|done|]. intros u o1 _ Ho1.
  eapply (runs_after (home_is T)); [stays|done|done|]. intros u2 o2 _ Ho2.
  apply finally_fetched; [intros; stays|].
  eapply (runs_after (home_is T)); [stays|done|done|]. intros peer o3 _ Ho3.
  eapply (runs_after (home_is T)); [stays|done|done|]. intros caller o4 _ Ho4.
  apply finally_fetched; [intros; stays|]. by apply fetch_fetched.
Qed.
End Fetching.

(** ** Witnesses *)

(** A worker that gives these answers in turn. *)
#[local] Instance scripted : Network (list RemoteResponse) unit := {|
  DialRemote _ _ := mret tt; DialRemotePeer _ := mret tt;
  Caller_Call _ _ script := match script with r :: rest => (Ok r, rest) | [] => (Err [RemoteErrInvalidMessage], []) end;
  Caller_Close _ := mret tt |}.

Definition paired_peers : PeerDB := match Activate (H := ascii_case) sample_sha (sample_peer "worker") empty_peers with Ok (_, d) => d | Err _ => empty_peers end.
Definition sample_office (T : Tree) (script : list RemoteResponse) : Office (list RemoteResponse) :=
  MkOffice (sample_host T) (quiet paired_peers (λ _, sample_time))
    (quiet (MkDeviceService (MkAnnouncement "" "" "" 0 0 false "" "" 0 0) ∅ true "" None) (λ _, sample_time)) script.
Definition answer_job (state : State) : option JobMessage :=
  match JobToRemoteProto (H := ascii_case) (MkJob sample_id sample_spec state sample_time sample_time None None) with Ok m => Some m | Err _ => None end.

Lemma paired_live : live (H := ascii_case) sample_sha (of_peers (sample_office ∅ [])).
Proof.
  split; [|intros n d; reflexivity]. assert (Activate (H := ascii_case) sample_sha (sample_peer "worker") empty_peers = Ok (tt, paired_peers)) as E by (vm_compute; reflexivity).
  eapply rtc_once, step_activate, E.
Qed.

Definition submit_script : list RemoteResponse :=
  [remoteFailure CodeConflict "busy"; result_response (RResSubmitJob (Some (answer_job StateQueued)))].
Abbreviation sample_submit := (submit (H := ascii_case) (H0 := marking_zstd) sample_sha (2 ^ 30) (λ _, 100%Z) true false false (λ _, run_fail [])
  (Ok sample_id) "laptop" "" sample_spec (sample_office ∅ submit_script)).


Lemma automatic_choice_witness :
  ∃ scores o1 (reports : list (Peer * option PeerHints)), workerResourceScores (H := ascii_case) sample_sha true [sample_peer "worker"] (sample_office ∅ []) = (Ok scores, o1) ∧
    reports.*1 = [sample_peer "worker"] ∧
    (resolveAutomaticWorkerForSpec (H := ascii_case) sample_sha true [sample_peer "worker"] sample_spec (sample_office ∅ [])).1 = Ok (sample_peer "worker").
Proof.
  destruct (automatic_choice (H := ascii_case) sample_sha true [sample_peer "worker"] sample_spec (sample_office ∅ []) (NoDup_singleton _))
    as (r & o' & scores & o1 & reports & E & Hs & _ & Hr & _ & _).
  exists scores, o1, reports. split; [exact Hs|]. split; [rewrite Hr; vm_compute; reflexivity|vm_compute; reflexivity].
Defined.

Definition fetched_manifest : Manifest :=
  MkManifest 1 [MkFile "out.txt" 420 3 [MkChunk (Sum sample_sha (bytes_of "abc")) 3]] 3.
Definition fetch_script : list RemoteResponse :=
  [result_response (RResGetJobArtifacts (Some (MkArtifactsResult (answer_job StateSucceeded)
     (match ManifestToRemoteProto (H := ascii_case) sample_sha (λ _, 100%Z) fetched_manifest with Ok m => Some m | Err _ => None end) sample_time)));
   result_response (RResGetArtifactChunk (Some (MkChunkTransfer (Sum sample_sha (bytes_of "abc")) (bytes_of "abc") 1 3)));
   result_response (RResAcknowledge (Some sample_id))].
Abbreviation sample_fetch := (FetchArtifacts (H := ascii_case) (H0 := marking_zstd) sample_sha (2 ^ 30) (λ _, 100%Z) true false true "laptop" sample_id
  "/home/me/out" (sample_office sample_home fetch_script)).

Lemma fetch_preserves_witness :
  sample_fetch.1 = Ok (MkRestoreResult "/home/me/out" ["out.txt"] []) ∧ ∃ T', w_db (h_home (of_host sample_fetch.2)) = T' ∧ sample_home ⊆ T'.
Proof.
  pose proof (fetch_preserves (H := ascii_case) (H0 := marking_zstd) sample_sha (2 ^ 30) (λ _, 100%Z) true false true "laptop" sample_id "/home/me/out"
    sample_home (sample_office sample_home fetch_script) (conj (λ _ _, eq_refl) (conj (λ _ _, eq_refl) eq_refl))) as Hrun. unfold runs in Hrun.
  split; [vm_compute; reflexivity|]. destruct Hrun as (T' & (_ & _ & HT) & Hsub & _). exists T'. split; [exact HT|exact Hsub].
Defined.
