(* ===== verification/Daemon.v ===== *)
(** * The daemon (cmd/computehopd/main.go: its services behind the local handler)

    The services of the other files as the controllers of [LocalHandler]: the job
    service of [Worker] and [RemoteWorker], the remote jobs of [Orchestrator], the
    nearby devices and the pairing service.  The pairing service and the remote jobs
    use the same trust tables; each sees what the other does as a change between two
    of its accesses. *)

From S2P Require Import Prelude GoText JobModel Effects Sql JobStore LogStore Execution ExecutionStore Custody Worker Snapshot Transfer ContentCache Device Trust TrustStore Pairing Wire LocalWire Frames Remote LocalIpc ArtifactStore Hosts Workspace Restore RemoteWorker LocalHandler Selection Project Orchestrator.
From Stdlib Require Import Ascii.
Local Open Scope string_scope.
Local Open Scope nat_scope.
Local Open Scope list_scope.

Record Daemon (N : Type) := MkDaemon { da_office : Office N; da_hub : World Hub; da_states : list ConnState }.
Arguments MkDaemon {_} _ _ _.
Arguments da_office {_} _.
Arguments da_hub {_} _.
Arguments da_states {_} _.

(** ** The snapshotter *)

Section Builder.
Context `{UnicodeCase} (sha256 : bytes → bytes) (maximumBytes : Z).

(** The content store as the store of the builder. *)
Definition cas_chunks : ChunkStore (World Vault) := λ w digest contents,
  let '(r, w') := Cas_Put sha256 maximumBytes digest contents w in (w', r).

(** [snapshot.NewBuilder(contentStore)] and its [Build]: [scene directory] is what it
    finds in the directory.  A read that never ends counts as a failure here. *)
Definition project_build (scene : string → Scene) (directory : string) : Run Host SnapshotResult :=
  on_content (λ w, let '(w', r) := Build (H0 := cas_chunks) sha256 (scene directory) w in (default (Err [OutOfFuel]) r, w')).
End Builder.

(** ** The services *)

Section Daemon.
Context {N C : Type} `{Network N C} `{UnicodeCase} `{Zstd}.
Context (sha256 : bytes → bytes) (maximumBytes : Z) (json_length : Manifest → Z) (proto_size : ManifestMessage → Z).
Context (files : string → option LogStore.File) (artifacts : bool).
Context (has_remote has_snapshots has_progress has_artifacts : bool) (scene : string → Scene) (generated : result string).
Context (unicode_fold : Z → Z) (error_text : list sentinel → string) (local : LocalDevice) (lifetime : Z) (dial : NearbyDevice → result Channel).

Definition in_office {A} (m : Run (Office N) A) : Run (Daemon N) A := zoom da_office (λ o d, MkDaemon o (da_hub d) (da_states d)) m.
Definition in_hub {A} (m : M Hub A) : Run (Daemon N) A := zoom da_hub (λ w d, MkDaemon (da_office d) w (da_states d)) m.
Definition own_jobs {A} (m : M Database A) : Run (Daemon N) A := in_office (in_jobs m).

Definition daemon_jobs : JobController (Daemon N) := {|
  jobs_Submit spec := own_jobs (Submit generated spec);
  jobs_Get id := own_jobs (Service_Get id);
  jobs_List options := own_jobs (Service_List options);
  jobs_Cancel id := own_jobs (Cancel id);
  jobs_ReadLogs id after_ limit := own_jobs (@ReadLogs _ (log_files files) id after_ limit);
  jobs_SubmitWithID := Some (λ id spec, own_jobs (submitWithID id spec));
  jobs_GetProgress := Some (λ id, own_jobs (Service_GetProgress id));
  jobs_RestoreArtifacts := Some (λ id destination, in_office (in_host (RestoreArtifacts sha256 maximumBytes json_length artifacts id destination)))
|}.

Definition daemon_remote : PairedJobController (Daemon N) := {|
  paired_Submit selector spec :=
    in_office (Remote_Submit sha256 maximumBytes proto_size has_remote has_snapshots has_progress (project_build sha256 maximumBytes scene) generated selector spec);
  paired_Get selector id := in_office (Remote_Get sha256 has_remote has_progress selector id);
  paired_List selector options := in_office (Remote_List sha256 has_remote has_progress selector options);
  paired_Cancel selector id := in_office (Remote_Cancel sha256 has_remote has_progress selector id);
  paired_ReadLogs selector id after_ limit := in_office (Remote_ReadLogs sha256 has_remote has_progress selector id after_ limit);
  paired_SubmitWithID := Some (λ selector id spec,
    in_office (Remote_SubmitWithID sha256 maximumBytes proto_size has_remote has_snapshots has_progress (project_build sha256 maximumBytes scene) generated selector id spec));
  paired_GetProgress := Some (λ _ id, in_office (GetProgress has_progress id));
  paired_FetchArtifacts := Some (λ selector id destination,
    in_office (FetchArtifacts sha256 maximumBytes proto_size has_remote has_progress has_artifacts selector id destination))
|}.

Definition daemon_devices : DeviceController (Daemon N) := {| devices_ListNearby := in_office (in_nearby list_nearby) |}.

(** [service.nearby.ResolveNearby(ctx, selector)]. *)
Definition resolve_at (selector : string) (at_ : Z) : M DeviceService NearbyDevice := λ w,
  let '(r, s) := ResolveNearby (if w_fault w (w_access w) then Some [DriverError] else None) at_ selector (next_db w) in (r, accessed w s).
Definition resolve_nearby (selector : string) : M DeviceService NearbyDevice := at_ ← now; resolve_at selector at_.

(** A device that is not an orchestrator does not look for the worker. *)
Definition begin_pairing (selector : string) : Run (Daemon N) Pairing :=
  if negb (bool_decide (local_Role local = RoleOrchestrator)) then in_hub (Begin sha256 local lifetime (Err []) dial)
  else
    resolved ← attempt (in_office (in_nearby (resolve_nearby selector)));
    in_hub (Begin sha256 local lifetime resolved dial).

Definition daemon_pairings : PairingController (Daemon N) := {|
  pairings_Begin := begin_pairing;
  pairings_List := in_hub (ListPairings lifetime (Ok tt));
  pairings_Confirm selector := in_hub (Confirm sha256 unicode_fold error_text lifetime selector);
  pairings_Reject selector := in_hub (Reject unicode_fold lifetime selector);
  pairings_ListTrusted := in_hub (ListTrusted sha256);
  pairings_Unpair selector := in_hub (Unpair sha256 selector);
  pairings_Refresh := Some (λ snapshot, in_hub (RefreshTrustedHints sha256 snapshot))
|}.

Definition daemon_connectivity : ConnectivityController (Daemon N) := {|
  connectivity_States := if has_remote then Some da_states else None |}.
End Daemon.

(** ** What serving keeps *)

Section Leaves.
Context {S : Type} (I : S → Prop).
Definition leaves {A} (m : Reply S A) : Prop := ∀ s, I s → I (m s).2.
Lemma leaves_bind {A B} (m : Reply S A) (f : A → Reply S B) : leaves m → (∀ a, leaves (f a)) → leaves (m ≫= f).
Proof. intros Hm Hf s Hs. specialize (Hm s Hs). unfold mbind, Reply_bind. destruct (m s) as [[a|e] s']; [by apply Hf|done]. Qed.
Lemma leaves_ret {A} (a : A) : leaves (mret a).
Proof. by intros s. Qed.
Lemma leaves_call {A} (m : Run S A) : stays I m → leaves (LocalHandler.call m).
Proof. intros Hm s Hs. specialize (Hm s Hs). unfold LocalHandler.call. by destruct (m s) as [[]]. Qed.
Lemma leaves_check {A} (r : result A) : leaves (check r).
Proof. intros s Hs. by destruct r. Qed.
Lemma leaves_refuse {A} code message : leaves (refuse (A := A) code message).
Proof. by intros s. Qed.
End Leaves.

(** A server whose controllers keep [I] keeps it. *)
Section Serving.
Context {S : Type} (I : S → Prop) `{JobController S} `{PairedJobController S} `{DeviceController S} `{PairingController S} `{ConnectivityController S}.
Context `{UnicodeCase} (sha256 : bytes → bytes) (error_text : list sentinel → string) (info : LocalDeviceInfo) (version : string).

Definition optionally {A} (P : A → Prop) (o : option A) : Prop := match o with Some a => P a | None => True end.

Record controllers_stay : Prop := {
  st_submit : ∀ spec, stays I (jobs_Submit spec); st_get : ∀ id, stays I (jobs_Get id); st_list : ∀ options, stays I (jobs_List options);
  st_cancel : ∀ id, stays I (jobs_Cancel id); st_logs : ∀ id a l, stays I (jobs_ReadLogs id a l);
  st_submit_id : optionally (λ f, ∀ id spec, stays I (f id spec)) jobs_SubmitWithID;
  st_progress : optionally (λ f, ∀ id, stays I (f id)) jobs_GetProgress;
  st_restore : optionally (λ f, ∀ id d, stays I (f id d)) jobs_RestoreArtifacts;
  st_psubmit : ∀ w spec, stays I (paired_Submit w spec); st_pget : ∀ w id, stays I (paired_Get w id);
  st_plist : ∀ w options, stays I (paired_List w options); st_pcancel : ∀ w id, stays I (paired_Cancel w id);
  st_plogs : ∀ w id a l, stays I (paired_ReadLogs w id a l);
  st_psubmit_id : optionally (λ f, ∀ w id spec, stays I (f w id spec)) paired_SubmitWithID;
  st_pprogress : optionally (λ f, ∀ w id, stays I (f w id)) paired_GetProgress;
  st_fetch : optionally (λ f, ∀ w id d, stays I (f w id d)) paired_FetchArtifacts;
  st_nearby : stays I devices_ListNearby;
  st_begin : ∀ w, stays I (pairings_Begin w); st_pairings : stays I pairings_List; st_confirm : ∀ w, stays I (pairings_Confirm w);
  st_reject : ∀ w, stays I (pairings_Reject w); st_trusted : stays I pairings_ListTrusted; st_unpair : ∀ w, stays I (pairings_Unpair w);
  st_refresh : optionally (λ f, ∀ snapshot, stays I (f snapshot)) pairings_Refresh
}.

Lemma handle_leaves request s : controllers_stay → I s → I (Local_Handle sha256 error_text info version request s).2.
Proof.
  intros [] Hs. unfold Local_Handle.
  assert (leaves I (dispatch sha256 info version (lq_operation request))) as Hd.
  { assert (∀ w id, leaves I (shouldRouteRemotely w id)) as Hroute.
    { intros w id s1 Hs1. unfold shouldRouteRemotely. destruct (negb _); [done|]. specialize (st_get0 id s1 Hs1).
      destruct (jobs_Get id s1) as [[]]; [done|]. by destruct (errors_is _ _). }
    assert (∀ values, leaves I (trustedPeersToProto sha256 values)) as Hpeers.
    { intros values. unfold trustedPeersToProto. destruct connectivity_States; [intros s1; apply leaves_check|apply leaves_check]. }
    unfold optionally in *.
    destruct (lq_operation request) as [[r|r|r|r|r|r|r|r|r|r|r|r|r|r|r]|]; cbn [dispatch];
    repeat first [ apply leaves_ret | apply leaves_check | apply leaves_refuse | apply Hroute | apply Hpeers | apply leaves_call; by auto
      | apply leaves_bind; [|intros ?] | match goal with |- leaves _ (match ?x with _ => _ end) => destruct x end
      | match goal with |- leaves _ (LocalHandler.call (if ?x then _ else _)) => destruct x end
      | progress unfold required, selector, routed, listTrustedWithHints ]. }
  specialize (Hd s Hs). by destruct (dispatch _ _ _ _ s).
Qed.
End Serving.

(** ** The invariants of the daemon *)

Section Invariants.
Context {N C : Type} `{Network N C} `{UnicodeCase} `{Zstd}.
Context (sha256 : bytes → bytes) (Hsha : ∀ c, length (sha256 c) = 32).
Context (maximumBytes : Z) (json_length : Manifest → Z) (proto_size : ManifestMessage → Z).
Context (files : string → option LogStore.File) (artifacts : bool).
Context (has_remote has_snapshots has_progress has_artifacts : bool) (scene : string → Scene) (generated : result string).
Context (unicode_fold : Z → Z) (error_text : list sentinel → string) (local : LocalDevice) (lifetime : Z) (dial : NearbyDevice → result Channel).
Context (old : PeerDB).
Abbreviation live := (live sha256).

(** Building a snapshot keeps what storing a chunk keeps. *)
Lemma cas_build_keeps (I : Vault → Prop) s w r w' :
  (∀ digest contents, keeps I (Cas_Put sha256 maximumBytes digest contents)) → stable I w → I (w_db w) →
  Build (H0 := cas_chunks sha256 maximumBytes) sha256 s w = (w', r) → I (w_db w') ∧ w_interfere w' = w_interfere w.
Proof.
  intros Hput. set (R := λ w w' : World Vault, stable I w → I (w_db w) → I (w_db w') ∧ w_interfere w' = w_interfere w).
  assert (PreOrder R) as HR.
  { split; [by intros w0|]. intros w1 w2 w3 H12 H23 Hst Hi. destruct (H12 Hst Hi) as [Hi2 E2]. destruct H23 as [Hi3 E3]; [|done|by rewrite E3].
    intros n v. rewrite E2. apply Hst. }
  pose proof (build_reaches (H0 := cas_chunks sha256 maximumBytes) sha256 R s w) as Hb. intros Hst Hi E. rewrite E in Hb. apply Hb; [|done|done].
  intros w0 digest contents Hst0 Hi0. unfold put, cas_chunks. destruct (Cas_Put _ _ _ _ w0) as [r0 w1] eqn:E0. by eapply Hput.
Qed.

Lemma build_stay directory : stays (host_ok sha256) (project_build sha256 maximumBytes scene directory).
Proof.
  apply content_stay. intros w r w' Hst Hi. destruct (Build _ _ w) as [w1 r1] eqn:E. intros [= <- <-].
  eapply cas_build_keeps; [apply put_keeps|exact Hst|exact Hi|exact E].
Qed.

(** The daemon's own tables and chunks, and the trust tables the remote jobs use. *)
Definition office_ok (o : Office N) : Prop := host_ok sha256 (of_host o) ∧ live (of_peers o).

(** *** Restoring *)

Lemma begin_use_stay : stays (host_ok sha256) (on_content BeginUse).
Proof. apply (begin_stay sha256 maximumBytes). Qed.
#[local] Hint Resolve begin_use_stay spaces_stay home_stay io_stay get_stay mark_stay read_stay missing_stay put_stay begin_stay end_stay clock_stay
  get_job_stay copy_stay files_stay : hop_stays.
Lemma home_tx_stay {A} (t : Tx Tree A) : stays (host_ok sha256) (home t).
Proof. apply home_stay. Qed.
#[local] Hint Resolve home_tx_stay : hop_stays.
Lemma ensure_stay current rest : stays (host_ok sha256) (ensure_loop current rest).
Proof. revert current. induction rest as [|n rest IH]; intros current; simpl; stays. Qed.
#[local] Hint Resolve ensure_stay : hop_stays.
Lemma place_stay mode data p : stays (host_ok sha256) (placeWithoutOverwrite mode data p).
Proof. unfold placeWithoutOverwrite, filesEqual. stays. Qed.
#[local] Hint Resolve place_stay : hop_stays.
Lemma conflict_stay n id original mode data : stays (host_ok sha256) (conflict_loop n id original mode data).
Proof. revert n. induction n as [|n IH]; simpl; unfold ensureRestoreDirectory, filesEqual; stays. Qed.
#[local] Hint Resolve conflict_stay : hop_stays.
Lemma place_files_stay id staging fs restored conflicts : stays (host_ok sha256) (place_files id staging fs restored conflicts).
Proof. revert restored conflicts. induction fs as [|f fs IH]; intros restored conflicts; simpl; unfold ensureRestoreDirectory, placeConflict; stays. Qed.
#[local] Hint Resolve place_files_stay : hop_stays.
Lemma mark_retrieved_stay id at_ : stays (host_ok sha256) (on_content (on_index (MarkRetrieved id at_))).
Proof. apply index_stay. intros d a d' Hd Hrun. unfold MarkRetrieved in Hrun. by invert_tx Hrun. Qed.
#[local] Hint Resolve mark_retrieved_stay : hop_stays.
Lemma restore_stay bundle destination : stays (host_ok sha256) (Restore sha256 maximumBytes bundle destination).
Proof. unfold Restore, ensureRestoreRoot. stays. Qed.

Lemma progress_stay id phase c t : stays (host_ok sha256) (on_jobs (setProgress id phase c t)).
Proof. apply jobs_stay, set_progress_keeps. Qed.
Lemma set_stay id p : stays (host_ok sha256) (on_jobs (atomically (Repo_SetProgress id p))).
Proof. apply tx_stay, set_progress_inv. Qed.
Lemma clear_stay id : stays (host_ok sha256) (on_jobs (atomically (Repo_ClearProgress id))).
Proof. apply tx_stay, clear_progress_inv. Qed.
Lemma read_progress_stay id : stays (host_ok sha256) (on_jobs (atomically (Repo_GetProgress id))).
Proof. apply tx_stay, query_inv, get_progress_query. Qed.
Lemma jobs_clock_stay : stays (host_ok sha256) (on_jobs now).
Proof. apply jobs_stay, now_keeps. Qed.
#[local] Hint Resolve artifacts_stay restore_stay progress_stay set_stay clear_stay read_progress_stay jobs_clock_stay : hop_stays.
Lemma restore_artifacts_stay id destination : stays (host_ok sha256) (RestoreArtifacts sha256 maximumBytes json_length artifacts id destination).
Proof. unfold RestoreArtifacts. stays. Qed.

(** *** The office *)

Abbreviation kept := (stays office_ok).
Lemma host_kept {A} (m : Run Host A) : stays (host_ok sha256) m → kept (in_host m).
Proof. intros Hm. apply stays_zoom with (J := host_ok sha256); [by intros o [??]|by intros o w [??]|done]. Qed.
Lemma jobs_kept {A} (m : M Database A) : stays (host_ok sha256) (on_jobs m) → kept (in_jobs m).
Proof. apply host_kept. Qed.
Lemma content_kept {A} (m : M Vault A) : stays (host_ok sha256) (on_content m) → kept (in_content m).
Proof. apply host_kept. Qed.
Lemma nearby_kept {A} (m : M DeviceService A) : kept (in_nearby m).
Proof. by apply stays_zoom with (J := λ _, True); [|intros o w|]. Qed.
Lemma net_kept {A} (m : Run N A) : kept (in_net m).
Proof. by apply stays_zoom with (J := λ _, True); [|intros o w|]. Qed.

Lemma live_keeps {A} (m : M PeerDB A) : keeps (rtc (trust_step sha256) empty_peers) m → kept (in_peers m).
Proof.
  intros Hm. apply stays_zoom with (J := live); [by intros o [??]|by intros o w [??]|]. intros w [Hr Hi]. destruct (m w) as [r w'] eqn:E.
  destruct (Hm w r w') as [Hr' Hw]; [|done..|]; [intros n d Hd; by etrans|]. split; [done|]. intros n d. cbn. rewrite Hw. apply Hi.
Qed.
Lemma peers_kept {A} (t : Tx PeerDB A) : (∀ d a d', t d = Ok (a, d') → rtc (trust_step sha256) d d') → kept (in_peers (atomically t)).
Proof. intros Ht. apply live_keeps, atomically_keeps. intros d a d' Hd E. etrans; [exact Hd|by eapply Ht]. Qed.
Lemma peers_list_kept : kept (in_peers (atomically (Trust_List sha256))).
Proof. apply peers_kept. intros d a d' E. unfold Trust_List in E. by invert_tx E. Qed.
Lemma peers_hints_kept id hints : kept (in_peers (atomically (UpdateHints sha256 id hints))).
Proof. apply peers_kept. intros d a d' E. eapply rtc_once, step_hints, E. Qed.
Lemma peers_clock_kept : kept (in_peers now).
Proof. by intros o [? [??]]. Qed.
Lemma peers_get_kept id : kept (in_peers (atomically (Trust_Get sha256 id))).
Proof.
  apply peers_kept. intros d a d'. unfold Trust_Get. intros (u & d1 & [_ ->]%tx_lift_ok & Hq%on_no_rows_ok)%tx_bind_ok.
  by rewrite (query_state _ _ _ _ _ Hq).
Qed.
Lemma placement_get_kept id : kept (in_peers (atomically (Placement_Get id))).
Proof. apply peers_kept. intros d a d' E. unfold Placement_Get in E. invert_tx E. case_match; [by invert_tx E|done]. Qed.
Lemma placement_create_kept value : kept (in_peers (Placement_Create value)).
Proof.
  apply live_keeps. unfold Placement_Create. destruct (Placement_Validate value) as [[]|e] eqn:Ev; [|intros w r w' _ ? [= <- <-]; done].
  apply bind_keeps; [auto with hop|intros _]. apply bind_keeps.
  - apply try_keeps, atomically_keeps. intros d [] d' Hd E. etrans; [exact Hd|]. by eapply rtc_once, step_place.
  - intros [u|e]; [auto with hop|]. case_match; [auto with hop|]. apply bind_keeps; [|intros [p|e']; case_match; auto with hop].
    apply try_keeps, atomically_keeps. intros d a d' Hd E. unfold Placement_Get in E. invert_tx E. case_match; [by invert_tx E|done].
Qed.
Lemma finally_kept {A} (cleanup : Run (Office N) unit) (m : Run (Office N) A) : kept cleanup → kept m → kept (finally cleanup m).
Proof. apply stays_finally. Qed.
#[local] Hint Resolve nearby_kept net_kept peers_list_kept peers_hints_kept peers_clock_kept peers_get_kept placement_get_kept
  placement_create_kept : hop_stays.
#[local] Hint Extern 2 (stays office_ok (in_host _)) => apply host_kept : hop_stays.
#[local] Hint Extern 2 (stays office_ok (in_jobs _)) => apply jobs_kept : hop_stays.
#[local] Hint Extern 2 (stays office_ok (in_content _)) => apply content_kept : hop_stays.
#[local] Hint Resolve reserve_stay release_stay : hop_stays.

Lemma dial_kept peer candidates failures : kept (dial_loop peer candidates failures).
Proof. revert failures. induction candidates as [|c candidates IH]; intros failures; simpl; stays. Qed.
#[local] Hint Resolve dial_kept : hop_stays.
Lemma open_kept peer : kept (open has_remote peer).
Proof. unfold open, nearbyCandidates. stays. Qed.
#[local] Hint Resolve open_kept : hop_stays.
Lemma call_kept peer operation : kept (Orchestrator.call has_remote peer operation).
Proof. unfold Orchestrator.call. stays. Qed.
Lemma set_local_kept id phase c t : kept (setLocalProgress has_progress id phase c t).
Proof. unfold setLocalProgress. stays. Qed.
Lemma clear_kept id : kept (clearProgress has_progress id).
Proof. unfold clearProgress. stays. Qed.
#[local] Hint Resolve call_kept set_local_kept clear_kept : hop_stays.
Lemma worker_hints_kept peer : kept (authenticatedWorkerHints sha256 has_remote peer).
Proof. unfold authenticatedWorkerHints, updateHintsFromWorkerStatus. stays. Qed.
#[local] Hint Resolve worker_hints_kept : hop_stays.
Lemma compatibility_kept peer spec : kept (preflightWorkerCompatibility sha256 has_remote peer spec).
Proof. unfold preflightWorkerCompatibility. stays. Qed.
Lemma nearby_scores_kept matched scores : kept (nearby_scores sha256 matched scores).
Proof. revert scores. induction matched as [|[id hints] matched IH]; intros scores; simpl; stays. Qed.
Lemma status_scores_kept peers scores : kept (status_scores sha256 has_remote peers scores).
Proof. revert scores. induction peers as [|p peers IH]; intros scores; simpl; stays. Qed.
#[local] Hint Resolve compatibility_kept nearby_scores_kept status_scores_kept : hop_stays.
Lemma compatible_kept scores spec peers : kept (compatible_loop sha256 has_remote scores spec peers).
Proof. induction peers as [|p peers IH]; simpl; stays. Qed.
#[local] Hint Resolve compatible_kept : hop_stays.
Lemma resolve_kept selector spec : kept (resolveSubmitWorker sha256 has_remote selector spec).
Proof. unfold resolveSubmitWorker, resolveAutomaticWorkerForSpec, workerResourceScores. stays. Qed.
Lemma resolve_trusted_kept selector : kept (resolveTrustedWorker sha256 has_remote selector).
Proof. unfold resolveTrustedWorker, resolveAutomaticWorker, workerResourceScores. stays. Qed.
#[local] Hint Resolve resolve_kept resolve_trusted_kept : hop_stays.
Lemma resolve_job_kept selector id : kept (resolveJobWorker sha256 has_remote selector id).
Proof. unfold resolveJobWorker. stays. Qed.
#[local] Hint Resolve resolve_job_kept : hop_stays.
Lemma accept_kept peer response : kept (acceptSubmitted peer response).
Proof. unfold acceptSubmitted. stays. Qed.
Lemma preflight_kept fuel caller manifestID digests missing accepted : kept (preflight_loop fuel caller manifestID digests missing accepted).
Proof. revert digests missing accepted. induction fuel as [|fuel IH]; intros [|d digests] missing accepted; cbn [preflight_loop]; stays. Qed.
Lemma upload_kept caller id manifest accepted bytes completed missing : kept (upload_loop sha256 has_progress caller id manifest accepted bytes completed missing).
Proof. revert completed. induction missing as [|d missing IH]; intros completed; simpl; stays. Qed.
#[local] Hint Resolve accept_kept preflight_kept upload_kept : hop_stays.
#[local] Hint Resolve build_stay : hop_stays.
Lemma submit_kept selector requestedID spec :
  kept (submit sha256 maximumBytes proto_size has_remote has_snapshots has_progress (project_build sha256 maximumBytes scene) generated selector requestedID spec).
Proof. unfold submit, submitSnapshot, send_snapshot, preflightSnapshot. stays. Qed.
Lemma answer_kept message : kept (job_answer has_progress message).
Proof. unfold job_answer, withLocalProgress. stays. Qed.
#[local] Hint Resolve submit_kept answer_kept : hop_stays.
Lemma answers_kept messages : kept (jobs_answer has_progress messages).
Proof. induction messages as [|m messages IH]; cbn [jobs_answer]; stays. Qed.
Lemma download_kept caller id manifest encodings completed total missing :
  kept (download_loop sha256 maximumBytes has_progress caller id manifest encodings completed total missing).
Proof. revert completed. induction missing as [|d missing IH]; intros completed; simpl; stays. Qed.
#[local] Hint Resolve answers_kept download_kept : hop_stays.

(** *** The daemon *)

(** The pairing service, with what its goroutines and the remote jobs do meanwhile. *)
Definition hub_kept (w : World Hub) : Prop := (∀ K, stable (knows sha256 local old K) w) ∧ hub_ok sha256 local old (w_db w).
Definition daemon_ok (d : Daemon N) : Prop := office_ok (da_office d) ∧ hub_kept (da_hub d).

Lemma office_stay {A} (m : Run (Office N) A) : kept m → stays daemon_ok (in_office m).
Proof. intros Hm. apply stays_zoom with (J := office_ok); [by intros d [??]|by intros d o [??]|done]. Qed.
Lemma hub_stay {A} (m : M Hub A) : safe sha256 local old m → stays daemon_ok (in_hub m).
Proof.
  intros Hm. apply stays_zoom with (J := hub_kept); [by intros d [??]|by intros d w [??]|]. intros w [Hst Hok].
  destruct (m w) as [r w'] eqn:E. destruct (Hm [] w r w' Hst) as [[Hok' _] Hw]; [split; [done|apply list_subseteq_nil]|done|].
  split; [|done]. intros K n h. cbn. rewrite Hw. apply Hst.
Qed.

#[local] Instance jobs_of : JobController (Daemon N) := daemon_jobs sha256 maximumBytes json_length files artifacts generated.
#[local] Instance remote_of : PairedJobController (Daemon N) :=
  daemon_remote sha256 maximumBytes proto_size has_remote has_snapshots has_progress has_artifacts scene generated.
#[local] Instance devices_of : DeviceController (Daemon N) := daemon_devices.
#[local] Instance pairings_of : PairingController (Daemon N) := daemon_pairings sha256 unicode_fold error_text local lifetime dial.
#[local] Instance connectivity_of : ConnectivityController (Daemon N) := daemon_connectivity has_remote.

(** A call of the pairing service is one of those it serves. *)
Lemma safe_of_ignored {A} (m : M Hub A) : safe sha256 local old (ignore m) → safe sha256 local old m.
Proof.
  intros Hm K w r w' Hst Hk E. apply (Hm K w (Ok tt) w' Hst Hk). unfold ignore, mbind, M_bind, try_. by rewrite E.
Qed.
Lemma served_stay {A} (m : M Hub A) c : serve sha256 unicode_fold error_text local lifetime c = ignore m → stays daemon_ok (in_hub m).
Proof. intros E. apply hub_stay, safe_of_ignored. rewrite <-E. by apply safe_serve. Qed.

Lemma controllers_ok : controllers_stay daemon_ok.
Proof.
  destruct (service_stay sha256 generated) as (Hget & Hlist & Hcancel & Hsubmit).
  constructor; unfold optionally; cbn [jobs_of daemon_jobs jobs_Submit jobs_Get jobs_List jobs_Cancel jobs_ReadLogs jobs_SubmitWithID jobs_GetProgress
    jobs_RestoreArtifacts remote_of daemon_remote paired_Submit paired_Get paired_List paired_Cancel paired_ReadLogs paired_SubmitWithID
    paired_GetProgress paired_FetchArtifacts devices_of daemon_devices devices_ListNearby pairings_of daemon_pairings pairings_Begin pairings_List
    pairings_Confirm pairings_Reject pairings_ListTrusted pairings_Unpair pairings_Refresh]; intros; unfold own_jobs; try apply office_stay.
  - apply jobs_kept, Hsubmit.
  - apply jobs_kept, Hget.
  - apply jobs_kept, Hlist.
  - apply jobs_kept, Hcancel.
  - apply jobs_kept, logs_stay.
  - apply jobs_kept, submit_stay.
  - apply jobs_kept. unfold Service_GetProgress. stays.
  - apply host_kept, restore_artifacts_stay.
  - unfold Remote_Submit. stays.
  - unfold Remote_Get. stays.
  - unfold Remote_List. stays.
  - unfold Remote_Cancel. stays.
  - unfold Remote_ReadLogs. stays.
  - unfold Remote_SubmitWithID. stays.
  - unfold GetProgress. stays.
  - unfold FetchArtifacts, fetch. stays.
  - apply nearby_kept.
  - unfold begin_pairing. destruct (negb _); [by apply (served_stay _ (CallBegin (Err []) dial))|].
    apply stays_bind; [apply stays_attempt, office_stay, nearby_kept|intros resolved]. by apply (served_stay _ (CallBegin resolved dial)).
  - by apply (served_stay _ (CallList (Ok tt))).
  - by apply (served_stay _ (CallConfirm w)).
  - by apply (served_stay _ (CallReject w)).
  - by apply (served_stay _ CallListTrusted).
  - by apply (served_stay _ (CallUnpair w)).
  - by apply (served_stay _ (CallRefresh snapshot)).
Qed.

(** C17 No request of a local program breaks the daemon.  Whatever is asked, and
    whatever fails or happens meanwhile that keeps the invariants, after
    [LocalHandler.Handle] the job tables are in step; every file of the content store is
    a content that its name names (hash and length), and every index entry is well-formed
    and has the size of a content its digest names (an entry may be without its file and
    a file without its entry); the trust tables are a state that pairing, revoking and
    placing lead to; and every active pin is justified by confirmations of both sides.
    The daemon snapshots projects into this store, whatever the snapshotter finds in a
    directory; the digest has 32 bytes. *)
Theorem daemon_keeps_invariants info version request d : daemon_ok d →
  daemon_ok (Local_Handle sha256 error_text info version request d).2.
Proof. apply handle_leaves, controllers_ok. Qed.

(** *** Jobs of this device *)

(** Everything but the daemon's own tables, chunks and files. *)
Definition beyond (d : Daemon N) : N * World PeerDB * World DeviceService * World Hub * list ConnState :=
  (of_net (da_office d), of_peers (da_office d), of_nearby (da_office d), da_hub d, da_states d).

(** The job an operation is about, when it names no device. *)
Definition about (operation : LocalOperation) : option string :=
  match operation with
  | LOpGetJob (Some q) | LOpCancelJob (Some q) => if bool_decide (ljr_device_selector q = "") then Some (ljr_job_id q) else None
  | LOpReadJobLogs (Some q) => if bool_decide (lrl_device_selector q = "") then Some (lrl_job_id q) else None
  | LOpFetchArtifacts (Some q) => if bool_decide (lfa_device_selector q = "") then Some (lfa_job_id q) else None
  | _ => None
  end.

Lemma host_beyond {A} b (m : Run Host A) : stays (λ d, beyond d = b) (in_office (in_host m)).
Proof. intros [o w l] <-. unfold in_office, in_host, zoom. cbn. by destruct (m (of_host o)). Qed.
Lemma jobs_beyond {A} b (m : M Database A) : stays (λ d, beyond d = b) (own_jobs m).
Proof. apply host_beyond. Qed.

(** A step of a reply that gives a known value. *)
Lemma leaves_known {A B} (I : Daemon N → Prop) (m : Reply (Daemon N) A) (f : A → Reply (Daemon N) B) d a d1 :
  m d = (inl a, d1) → I d1 → leaves I (f a) → I ((m ≫= f) d).2.
Proof. intros E Hd Hf. unfold mbind, Reply_bind. rewrite E. by apply Hf. Qed.

Lemma routes_here id d j d1 : own_jobs (Service_Get id) d = (Ok j, d1) → shouldRouteRemotely "" id d = (inl false, d1) ∧ beyond d1 = beyond d.
Proof.
  intros E. split.
  - unfold shouldRouteRemotely. cbn [jobs_of daemon_jobs jobs_Get]. by rewrite bool_decide_eq_true_2, E.
  - pose proof (jobs_beyond (beyond d) (Service_Get id) d eq_refl) as Hb. by rewrite E in Hb.
Qed.

(** The steps of a handler before it looks for the job. *)
Lemma after_parse {A} value id (m : Reply (Daemon N) A) (f : string → Reply (Daemon N) A) d : ParseID value = Ok id →
  m d = (check (ParseID value) ≫= f) d → beyond (f id d).2 = beyond d → beyond (m d).2 = beyond d.
Proof. intros Hp -> Hf. unfold mbind, Reply_bind, check. by rewrite Hp. Qed.
Lemma after_guard {A} (b : bool) code message (m f : Reply (Daemon N) A) d :
  m d = ((if b then refuse code message else mret tt) ≫= λ _ : unit, f) d → beyond (f d).2 = beyond d → beyond (m d).2 = beyond d.
Proof. intros -> Hf. unfold mbind, Reply_bind. by destruct b. Qed.

(** Operations on a job of this device stay on this device.  A request to read,
    cancel, follow or fetch a job that names no device and whose job is in the
    daemon's own tables never reaches the network, the trust tables or the pairing
    service: they are as before, whatever the answer is. *)
Theorem own_job_is_local info version request d operation value id j d1 :
  lq_operation request = Some operation → about operation = Some value → ParseID value = Ok id →
  own_jobs (Service_Get id) d = (Ok j, d1) →
  beyond (Local_Handle sha256 error_text info version request d).2 = beyond d.
Proof.
  intros Hop Hab Hid (Hroute & Hb)%routes_here. unfold Local_Handle. rewrite Hop.
  enough (beyond (dispatch sha256 info version (Some operation) d).2 = beyond d) as He by (by destruct (dispatch _ _ _ _ d)).
  assert (∀ A (m : M Database A), leaves (λ d', beyond d' = beyond d) (LocalHandler.call (own_jobs m))) as Hown
    by (intros; apply leaves_call, jobs_beyond).
  unfold about in Hab. destruct operation as [r|r|[q|]|r|[q|]|[q|]|r|r|r|r|r|r|r|[q|]|r]; try done; case_bool_decide as Hsel; try done;
    injection Hab as <-; cbn [dispatch].
  - apply (after_parse _ _ _ _ _ Hid eq_refl). eapply (leaves_known (λ d', beyond d' = beyond d)); [rewrite Hsel; exact Hroute|done|].
    repeat (apply leaves_bind; [apply Hown || apply leaves_check|intros ?]). apply leaves_ret.
  - apply (after_parse _ _ _ _ _ Hid eq_refl). eapply (leaves_known (λ d', beyond d' = beyond d)); [rewrite Hsel; exact Hroute|done|].
    repeat (apply leaves_bind; [apply Hown || apply leaves_check|intros ?]). apply leaves_ret.
  - eapply after_guard; [reflexivity|].
    apply (after_parse _ _ _ _ _ Hid eq_refl). eapply (leaves_known (λ d', beyond d' = beyond d)); [rewrite Hsel; exact Hroute|done|].
    repeat (apply leaves_bind; [apply Hown || apply leaves_check|intros ?]). apply leaves_ret.
  - eapply after_guard; [reflexivity|].
    apply (after_parse _ _ _ _ _ Hid eq_refl). eapply (leaves_known (λ d', beyond d' = beyond d)); [rewrite Hsel; exact Hroute|done|].
    apply leaves_bind; [apply leaves_call, host_beyond|intros ?]. apply leaves_bind; [apply leaves_check|intros ?]. apply leaves_ret.
Qed.
End Invariants.

(** ** Witnesses *)

Definition idle_hub : World Hub := quiet empty_hub (λ _, sample_time).
Definition sample_daemon (h : Host) : Daemon (list RemoteResponse) :=
  let o := sample_office ∅ [] in MkDaemon (MkOffice h (of_peers o) (of_nearby o) (of_net o)) idle_hub [].
(** An empty directory. *)
Definition bare_scene (directory : string) : Scene :=
  MkScene (Ok []) (Ok true) (λ _ _, false) (λ _, Ok (VDir IgnoreAbsent IgnoreAbsent None [])) (λ _, Ok (VDir IgnoreAbsent IgnoreAbsent None [])) (λ _, None).
Definition this_device : LocalDevice := sample_local "a" RoleOrchestrator.
Definition this_info : LocalDeviceInfo := MkLocalDeviceInfo "" "desk" RoleOrchestrator "linux" "amd64" 4 1024 [] [].
Abbreviation desk_handle request d :=
  (Local_Handle (H := jobs_of (H0 := ascii_case) sample_sha (2 ^ 30) (λ _, 2%Z) (λ _, None) false (Ok sample_id))
    (H0 := remote_of (H := scripted) (H0 := ascii_case) (H1 := marking_zstd) sample_sha (2 ^ 30) (λ _, 2%Z) false false false false bare_scene (Ok sample_id))
    (H1 := devices_of) (H2 := pairings_of (H0 := ascii_case) sample_sha id (λ _, "e") this_device minute (λ _, Err []))
    (H3 := connectivity_of false) (H4 := ascii_case) sample_sha (λ _, "e") this_info "1" request d).

Lemma idle_hub_kept : hub_kept (H0 := ascii_case) sample_sha this_device empty_peers idle_hub.
Proof.
  split; [by intros K n h|]. constructor; [apply empty_peers_ok|apply map_Forall_empty|apply map_Forall_empty|].
  vm_compute. lia.
Qed.

(** A host with one chunk. *)
Definition desk_host : Host :=
  let h := sample_host ∅ in
  MkHost (h_jobs h) (quiet (MkVault (MkCacheDB {[ Sum sample_sha (bytes_of "abc") := MkCacheRow 3 5 ]} ∅ ∅ ∅)
    {[ Sum sample_sha (bytes_of "abc") := bytes_of "abc" ]} (MkPins 0 ∅ ∅ ∅)) (λ _, 9%Z)) (h_spaces h) (h_home h).
Lemma desk_host_ok : host_ok (H := ascii_case) sample_sha desk_host.
Proof.
  assert (named_by sample_sha (Sum sample_sha (bytes_of "abc")) (bytes_of "abc")) as Hn by (split; [reflexivity|split; [reflexivity|discriminate]]).
  split; (split; [intros n d Hd; exact Hd|]); [apply empty_inv|].
  refine (conj (conj _ _) (conj _ (conj _ (map_Forall_empty _)))); [| | |vm_compute; lia]; apply (proj2 (map_Forall_singleton _ _ _)).
  - split; vm_compute; reflexivity.
  - by exists (bytes_of "abc").
  - exact Hn.
Qed.
Lemma daemon_keeps_invariants_witness :
  daemon_ok (H0 := ascii_case) sample_sha this_device empty_peers
    (desk_handle (MkLocalRequest 6 "00" [] (Some (LOpConfirmPairing (Some "AB12")))) (sample_daemon desk_host)).2.
Proof.
  refine (daemon_keeps_invariants (H := scripted) (H0 := ascii_case) (H1 := marking_zstd) sample_sha (λ c, eq_refl) (2 ^ 30) (λ _, 2%Z) (λ _, 2%Z)
    (λ _, None) false false false false false bare_scene (Ok sample_id) id (λ _, "e") this_device minute (λ _, Err [])
    empty_peers this_info "1" _ _ _).
  split; [split; [apply desk_host_ok|apply paired_live]|apply idle_hub_kept].
Defined.

Definition busy_host : Host :=
  let h := sample_host ∅ in
  MkHost (submitWithID (H := ascii_case) sample_id sample_spec (h_jobs h)).2 (h_content h) (h_spaces h) (h_home h).

Lemma own_job_is_local_witness :
  beyond (desk_handle (MkLocalRequest 6 "00" [] (Some (LOpCancelJob (Some (MkLJobRef sample_id ""))))) (sample_daemon busy_host)).2
    = beyond (sample_daemon busy_host).
Proof.
  destruct (own_jobs (N := list RemoteResponse) (Service_Get (H := ascii_case) sample_id) (sample_daemon busy_host)) as [r d1] eqn:E.
  assert (∃ j, r = Ok j) as [j ->].
  { replace r with (own_jobs (N := list RemoteResponse) (Service_Get (H := ascii_case) sample_id) (sample_daemon busy_host)).1 by (by rewrite E).
    eexists. vm_compute. reflexivity. }
  exact (own_job_is_local (H := scripted) (H0 := ascii_case) (H1 := marking_zstd) sample_sha (2 ^ 30) (λ _, 2%Z) (λ _, 2%Z)
    (λ _, None) false false false false false bare_scene (Ok sample_id) id (λ _, "e") this_device minute (λ _, Err [])
    this_info "1" (MkLocalRequest 6 "00" [] (Some (LOpCancelJob (Some (MkLJobRef sample_id ""))))) (sample_daemon busy_host)
    (LOpCancelJob (Some (MkLJobRef sample_id ""))) sample_id sample_id j d1 eq_refl eq_refl ltac:(vm_compute; reflexivity) E).
Defined.
