(* ===== verification/Stocking.v ===== *)
(** * A chunk store with room

    What the operations of [ContentCache] do to a store whose files fit its quota and
    whose index describes its files: nothing is evicted, a chunk put is added and
    nothing else changes.  [roomy] is that state, with a free reservation for the
    snapshot [manifestID] of the chunks [Ds]. *)

From S2P Require Import Prelude GoText Effects Snapshot ContentCache.
From Stdlib Require Import Ascii.
Local Open Scope string_scope.
Local Open Scope nat_scope.
Local Open Scope list_scope.

(** The bytes of the files. *)
Definition weight (F : gmap string bytes) : Z := sum_z (map (λ kv, Z.of_nat (length kv.2)) (map_to_list F)).

Lemma sum_perm (l k : list Z) : l ≡ₚ k → sum_z l = sum_z k.
Proof. unfold sum_z. induction 1; simpl; lia. Qed.

Lemma weight_insert F k data : F !! k = None → weight (<[k := data]> F) = (Z.of_nat (length data) + weight F)%Z.
Proof. intros Hk. unfold weight. etrans; [by apply sum_perm, Permutation_map, map_to_list_insert|done]. Qed.

Lemma weight_nonneg F : (0 ≤ weight F)%Z.
Proof.
  induction F as [|k data F Hk IH] using map_ind; [done|]. rewrite weight_insert by done. lia.
Qed.

(** The index speaks of the files only, and gives their sizes. *)
Definition described (F : gmap string bytes) (entries : gmap string CacheRow) : Prop :=
  ∀ k row, entries !! k = Some row → ∃ data, F !! k = Some data ∧ cr_size row = Z.of_nat (length data).

Lemma described_total F entries : described F entries → (sum_size (map_to_list entries) ≤ weight F)%Z.
Proof.
  revert F. induction entries as [|k row entries Hk IH] using map_ind; intros F Hd; [apply weight_nonneg|].
  destruct (Hd k row) as (data & Hf & Hs); [apply lookup_insert_eq|].
  assert (described (delete k F) entries) as Hd'.
  { intros k' row' Hk'. assert (k' ≠ k) by congruence. destruct (Hd k' row') as (data' & Hf' & Hs'); [by rewrite lookup_insert_ne|].
    exists data'. by rewrite lookup_delete_ne. }
  specialize (IH _ Hd'). rewrite <- (insert_delete_id F k data Hf), weight_insert by apply lookup_delete_eq.
  unfold sum_size in *. rewrite map_to_list_insert by done. simpl. lia.
Qed.

Section Roomy.
Context `{UnicodeCase} (sha256 : bytes → bytes) (maximumBytes : Z) (manifestID : string) (Ds : gset string).

Record roomy (F : gmap string bytes) (v : Vault) : Prop := {
  ro_index : index_ok (vault_db v);
  ro_files : vault_files v = F;
  ro_described : described F (cache_entries (vault_db v));
  ro_slot : size (delete manifestID (reservations (vault_pins v))) < maximumReservations;
  ro_own : ∀ r, reservations (vault_pins v) !! manifestID = Some r → r_digests r ⊆ Ds
}.

Lemma roomy_fewer F v d p : roomy F v → index_ok d → described F (cache_entries d) → reservations p ⊆ reservations (vault_pins v) →
  roomy F (MkVault d F p).
Proof.
  intros [_ _ _ Hslot Hown] Hi Hd Hp. split; cbn; [done|done|done| |].
  - eapply Nat.le_lt_trans; [|exact Hslot]. apply map_subseteq_size. by apply delete_mono.
  - intros r Hr. apply Hown. by eapply lookup_weaken.
Qed.

Lemma described_record F entries k data t : described F entries → F !! k = Some data →
  described F (<[k := MkCacheRow (Z.of_nat (length data)) t]> entries).
Proof. intros Hd Hk k' row [[<- <-]|[_ Hk']]%lookup_insert_Some; [by exists data|by apply Hd]. Qed.
Lemma described_delete F entries k : described F entries → described F (delete k entries).
Proof. intros Hd k' row [_ Hk']%lookup_delete_Some. by apply Hd. Qed.

Lemma expire_subseteq t p : reservations (expireReservationsLocked t p) ⊆ reservations p.
Proof. apply map_filter_subseteq. Qed.

Lemma roomy_read F v digest : roomy F v → Digest_Valid digest = true →
  ends (Cas_Read sha256 digest) v (λ r v', roomy F v' ∧
    r = match F !! digest with
        | None => Err [CasErrNotFound]
        | Some data => if verified sha256 digest data then Ok data else Err [CasErrCorrupt] end).
Proof.
  intros Hv Hd. pose proof Hv as [Hi Hf Hdesc _ _]. unfold Cas_Read. rewrite Hd. apply ends_bind, ends_lift, ends_bind, ends_ctx, ends_with_pin.
  intros t Ht. apply ends_bind, ends_atomically. cbn [vault_files set_pins]. rewrite Hf.
  pose proof (roomy_fewer F v) as Hkeep. destruct (F !! digest) as [data|] eqn:Edata.
  - apply ends_bind, ends_lift. unfold verified. destruct (_ || _) eqn:E; cbn [reject_if negb].
    + split; [|done]. unfold set_pins. cbn. rewrite Hf. apply Hkeep; try done. apply expire_subseteq.
    + reflect_bools. apply ends_bind, ends_now. intros t' Ht'. apply ends_bind, ends_index.
      assert (0 < Z.of_nat (length data) ≤ MaximumChunkBytes)%Z as Hlen by lia.
      destruct (record_ok digest _ t' (vault_db v) Hd Hlen Ht') as [_ Hrec]. cbn [vault_db set_pins]. rewrite Hrec.
      apply ends_ret. split; [|done]. unfold set_pins. cbn. rewrite Hf. apply Hkeep; [done| |by apply described_record|apply expire_subseteq].
      exact (proj1 (index_near_record v digest _ t' Hi Hd Hlen Ht' F (vault_pins v))).
  - apply ends_bind, ends_index. cbn [vault_db set_pins]. rewrite delete_ok by done. apply ends_fail. split; [|done].
    unfold set_pins. cbn. rewrite Hf. apply Hkeep; [done| |by apply described_delete|apply expire_subseteq].
    exact (proj1 (index_near_delete v digest F (vault_pins v) Hi)).
Qed.

Lemma roomy_has F v digest : roomy F v → Digest_Valid digest = true → (∀ data, F !! digest = Some data → verified sha256 digest data = true) →
  ends (Has sha256 digest) v (λ r v', roomy F v' ∧ r = Ok (bool_decide (is_Some (F !! digest)))).
Proof.
  intros Hv Hd Hver. apply ends_bind, ends_try. eapply ends_mono; [by apply roomy_read|].
  intros r v' (Hv' & ->). destruct (F !! digest) as [c|]; [rewrite (Hver c eq_refl)|].
  - apply ends_ret. split; [done|]. by rewrite bool_decide_eq_true_2 by eauto.
  - apply ends_ret. split; [done|]. by rewrite bool_decide_eq_false_2 by (intros []%is_Some_None).
Qed.

(** Nothing is evicted. *)
Lemma roomy_enforce F v : roomy F v → (weight F ≤ maximumBytes)%Z →
  ends (Enforce maximumBytes) v (λ r v', r = Ok tt ∧ v' = v).
Proof.
  intros [Hi Hf Hdesc _ _] Hw. unfold Enforce. apply ends_bind, ends_ctx, ends_bind, ends_index.
  destruct (stats_ok v Hi) as (stats & -> & Hb & _). cbn [vault_db]. rewrite Hb.
  pose proof (described_total _ _ Hdesc) as Ht. rewrite (proj2 (Z.leb_le _ _)) by (unfold total; lia). apply ends_ret. by destruct v.
Qed.

Lemma roomy_put F v digest data : roomy F v → Digest_Valid digest = true → verified sha256 digest data = true → F !! digest = None →
  (weight F + Z.of_nat (length data) ≤ maximumBytes)%Z →
  ends (Cas_Put sha256 maximumBytes digest data) v (λ r v', roomy (<[digest := data]> F) v' ∧ r = Ok tt).
Proof.
  intros Hv Hd Hver Hnone Hw. pose proof Hver as Hv'. unfold verified in Hv'. apply negb_true_iff in Hv'.
  unfold Cas_Put. rewrite Hd. cbn [negb orb]. rewrite Hv'. reflect_bools.
  assert (0 < Z.of_nat (length data) ≤ MaximumChunkBytes)%Z as Hlen by lia.
  apply ends_bind, ends_lift, ends_bind, ends_ctx, ends_with_pin. intros t Hclock.
  set (v1 := set_pins _ v). assert (roomy F v1) as Hv1.
  { destruct Hv as [Hi Hf Hdesc Hslot Hown]. unfold v1, set_pins. rewrite Hf. apply (roomy_fewer F v); try done. apply expire_subseteq. }
  clearbody v1. apply ends_bind, ends_try. eapply ends_mono; [apply (roomy_has F v1 digest Hv1 Hd); congruence|].
  intros r v2 (Hv2 & ->). rewrite bool_decide_eq_false_2 by (rewrite Hnone; by intros []%is_Some_None).
  unfold store_new. apply ends_bind, ends_ctx, ends_bind, ends_try, ends_atomically. cbn beta iota.
  apply ends_bind, ends_now. intros t' Hclock'. apply ends_bind, ends_index. cbn [vault_db set_files].
  destruct (record_ok digest _ t' (vault_db v2) Hd Hlen Hclock') as [_ ->].
  destruct Hv2 as [Hi2 Hf2 Hdesc2 Hslot2 Hown2]. cbn [vault_files vault_pins set_files]. rewrite Hf2.
  set (v3 := MkVault _ _ _). assert (roomy (<[digest := data]> F) v3) as Hv3.
  { split; cbn; [|done| |done|done].
    - exact (proj1 (index_near_record v2 digest _ t' Hi2 Hd Hlen Hclock' F (vault_pins v2))).
    - apply described_record; [|apply lookup_insert_eq]. intros k row Hk. destruct (Hdesc2 k row Hk) as (c & Hc & Hs). exists c.
      rewrite lookup_insert_ne by congruence. done. }
  eapply ends_mono; [apply (roomy_enforce _ v3 Hv3)|]; [rewrite weight_insert by done; lia|].
  intros r v4 [-> ->]. split; [|done]. destruct Hv3 as [? ? ? ? ?]. by split.
Qed.

(** The chunks of [digests] that are there are intact. *)
Definition intact (F : gmap string bytes) (digests : list string) : Prop :=
  Forall (λ d, Digest_Valid d = true ∧ ∀ data, F !! d = Some data → verified sha256 d data = true) digests.

Lemma roomy_missing_loop F ordered v : roomy F v → intact F ordered →
  ends (missing_loop sha256 ordered) v (λ r v', roomy F v' ∧ r = Ok (filter (λ d, F !! d = None) ordered)).
Proof.
  intros Hv Hin. revert v Hv. induction Hin as [|d ordered [Hd Hver] _ IH]; intros v Hv; simpl; [by apply ends_ret|].
  apply ends_bind, ends_try. eapply ends_mono; [by apply roomy_has|]. intros r v' [Hv' ->]. rewrite filter_cons.
  case_bool_decide as Hs.
  - rewrite decide_False by (by apply not_eq_None_Some). by apply IH.
  - apply eq_None_not_Some in Hs. rewrite decide_True by done. apply ends_bind. eapply ends_mono; [by apply IH|].
    intros r v2 [Hv2 ->]. by apply ends_ret.
Qed.

(** The distinct digests in the order of [Missing]. *)
Definition in_order (digests : list string) : list string := merge_sort String.le (elements (list_to_set (C := gset string) digests)).
Lemma in_order_elem digests d : d ∈ in_order digests ↔ d ∈ digests.
Proof. unfold in_order. rewrite (merge_sort_Permutation String.le). rewrite elem_of_elements. set_solver. Qed.

Lemma roomy_missing F digests v : roomy F v → intact F digests →
  ends (Missing sha256 digests) v (λ r v', roomy F v' ∧ r = Ok (filter (λ d, F !! d = None) (in_order digests))).
Proof.
  intros Hv Hin. unfold intact in Hin. unfold Missing. rewrite (proj2 (forallb_forall Digest_Valid digests)).
  - apply ends_bind, ends_lift. apply roomy_missing_loop; [done|]. apply Forall_forall. intros d Hd.
    rewrite Forall_forall in Hin. apply Hin. by apply in_order_elem.
  - intros d Hd%list_elem_of_In. rewrite Forall_forall in Hin. by apply Hin.
Qed.

Lemma roomy_reserve F digests v : roomy F v → Digest_Valid manifestID = true → Forall (λ d, Digest_Valid d = true) digests → digests ≠ [] →
  list_to_set digests ⊆ Ds → (Z.of_nat (length digests) ≤ MaximumChunks)%Z → (Z.of_nat (size Ds) ≤ MaximumChunks)%Z → (weight F ≤ maximumBytes)%Z →
  ends (Reserve maximumBytes manifestID digests) v (λ r v', roomy F v' ∧ r = Ok tt).
Proof.
  intros Hv Hid Hd Hne HDs Hlen Hsize Hw. unfold Reserve. rewrite Hid, bool_decide_eq_false_2 by done. cbn [negb orb].
  rewrite (proj2 (Z.ltb_ge _ _)) by lia. apply ends_bind, ends_lift, ends_bind, ends_ctx, ends_bind, ends_lift.
  rewrite (proj2 (forallb_forall Digest_Valid digests)) by (intros d Hin%list_elem_of_In; rewrite Forall_forall in Hd; by apply Hd).
  cbn [negb reject_if]. apply ends_bind, ends_now. intros t Ht. apply ends_bind, ends_locked. cbv beta.
  pose proof Hv as [Hi Hf Hdesc Hslot Hown]. unfold reserve.
  set (p := expireReservationsLocked t (vault_pins v)). assert (reservations p ⊆ reservations (vault_pins v)) as Hsub by apply expire_subseteq.
  destruct (roomy_fewer F v (vault_db v) p Hv Hi Hdesc Hsub) as [_ _ _ Hslot' Hown']. cbn [vault_pins] in Hslot', Hown'.
  assert (bool_decide (reservations p !! manifestID = None) && bool_decide (maximumReservations ≤ size (reservations p)) = false) as ->.
  { destruct (reservations p !! manifestID) as [r|] eqn:E; [done|]. rewrite delete_id in Hslot' by done.
    rewrite (bool_decide_eq_false_2 (_ ≤ _)) by lia. by rewrite andb_false_r. }
  set (own := match reservations p !! manifestID with Some r => r_digests r | None => ∅ end).
  assert (own ⊆ Ds) as Hown_sub by (unfold own; destruct (reservations p !! manifestID) as [r|] eqn:E; [by apply Hown'|set_solver]).
  assert (size (own ∪ list_to_set digests) ≤ size Ds) as Hsz by (apply subseteq_size; set_solver).
  rewrite (proj2 (Z.ltb_ge _ _)) by lia. cbn [fst snd].
  set (v1 := set_pins _ v). assert (roomy F v1) as Hv1.
  { split; cbn; [done|done|done|by rewrite delete_insert_eq|]. intros r. rewrite lookup_insert_eq. intros [= <-]. cbn. set_solver. }
  eapply ends_mono; [by apply (roomy_enforce F v1)|]. by intros r v' [-> ->].
Qed.

Lemma roomy_begin F v : roomy F v → ends BeginUse v (λ r v', roomy F v' ∧ r = Ok tt).
Proof.
  intros Hv. apply ends_bind, ends_now. intros t Ht. apply ends_pins. split; [|done]. destruct Hv as [Hi Hf Hdesc Hslot Hown].
  unfold set_pins. rewrite Hf. apply (roomy_fewer F v); try done. apply expire_subseteq.
Qed.

End Roomy.
