(* ===== verification/Delivery.v ===== *)
(** * From the orchestrator to the worker

    [RemoteJobService] of [Orchestrator] and [RemoteHandler] of [RemoteWorker] put
    together: a connection that delivers each request to the handler and its answer
    back ([exchange_exact] of [Remote] is what the two ends of a stream do), and a
    submission with a project snapshot that goes all the way, from the chunks of the
    project in one store to the files of a workspace on the other device. *)

From S2P Require Import Prelude GoText PortablePath JobModel Effects Sql JobStore Custody LogStore Worker Snapshot Transfer ContentCache Device Trust TrustStore Wire Frames Remote ArtifactStore Hosts Workspace Restore RemoteWorker Selection Project Orchestrator Stocking.
From Stdlib Require Import Ascii.
Local Open Scope string_scope.
Local Open Scope nat_scope.
Local Open Scope list_scope.

Lemma id_not_blank id : ID_Valid id = true → ParseID id = Ok id ∧ trim_space id ≠ "".
Proof.
  intros Hid. pose proof Hid as Hp%id_valid_parse. split; [done|]. apply (trim_not_empty dash); [|done|done].
  unfold ParseID in Hp. destruct (_ || _) eqn:E in Hp; [done|]. reflect_bools. by eapply list_elem_of_lookup_2.
Qed.

(** ** Sizes *)

(** The bytes of the distinct chunks that [f] selects. *)
Fixpoint distinct_bytes (f : string → bool) (chunks : list Chunk) : Z :=
  match chunks with
  | [] => 0
  | c :: rest =>
      if f (Digest c) then Size c + distinct_bytes (λ d, f d && negb (bool_decide (d = Digest c))) rest
      else distinct_bytes f rest
  end.

Lemma distinct_ext f g chunks : (∀ d, f d = g d) → distinct_bytes f chunks = distinct_bytes g chunks.
Proof.
  revert f g. induction chunks as [|c chunks IH]; intros f g Hfg; [done|]. simpl. rewrite Hfg. destruct (g (Digest c)); [f_equal|by apply IH].
  apply IH. intros d. by rewrite Hfg.
Qed.

Lemma distinct_bound f chunks : Forall (λ c, (0 ≤ Size c)%Z) chunks → (0 ≤ distinct_bytes f chunks ≤ sum_z (map Size chunks))%Z.
Proof.
  intros Hs. revert f. induction Hs as [|c chunks Hc Hs IH]; intros f; [done|]. simpl. unfold sum_z in *. simpl.
  destruct (f (Digest c)); [pose proof (IH (λ d, f d && negb (bool_decide (d = Digest c))))|pose proof (IH f)]; lia.
Qed.

Lemma distinct_none chunks f : (∀ d, f d = false) → distinct_bytes f chunks = 0%Z.
Proof. intros Hf. induction chunks as [|c chunks IH]; [done|]. simpl. by rewrite Hf. Qed.

(** [unique_bytes] counts them, as long as the sum fits an int64. *)
Lemma unique_distinct wanted chunks seen total : Forall (λ c, (0 ≤ Size c)%Z) chunks → (0 ≤ total)%Z →
  (total + sum_z (map Size chunks) < 2 ^ 63)%Z →
  unique_bytes wanted chunks seen total = (total + distinct_bytes (λ d, wanted d && negb (bool_decide (d ∈ seen))) chunks)%Z.
Proof.
  intros Hs. revert seen total. induction Hs as [|c chunks Hc Hs IH]; intros seen total Ht Hsum; simpl; [lia|].
  unfold sum_z in *. simpl in Hsum. replace (wanted (Digest c) && negb (bool_decide (Digest c ∈ seen))) with (negb (negb (wanted (Digest c)) || bool_decide (Digest c ∈ seen)))
    by (by rewrite negb_orb, negb_involutive). destruct (negb (wanted (Digest c)) || bool_decide (Digest c ∈ seen)) eqn:E; simpl.
  - apply IH; lia.
  - pose proof (distinct_bound (λ _, false) chunks Hs) as Hpos. unfold sum_z in Hpos.
    rewrite wrap_int64_id by (unfold int64_range; lia). rewrite IH by lia. rewrite <- Z.add_assoc. do 2 f_equal. apply distinct_ext.
    intros d. rewrite <- andb_assoc. f_equal. rewrite <- negb_orb. f_equal.
    destruct (decide (d = Digest c)) as [->|Hne].
    { rewrite (bool_decide_eq_true_2 (_ = _)), orb_true_r, bool_decide_eq_true_2 by set_solver. done. }
    rewrite (bool_decide_eq_false_2 (d = Digest c)), orb_false_r by done. apply bool_decide_ext. set_solver.
Qed.

Lemma distinct_split f g chunks : (∀ d, f d && g d = false) →
  distinct_bytes (λ d, f d || g d) chunks = (distinct_bytes f chunks + distinct_bytes g chunks)%Z.
Proof.
  revert f g. induction chunks as [|c chunks IH]; intros f g Hfg; [done|]. simpl. pose proof (Hfg (Digest c)) as Hc.
  destruct (f (Digest c)) eqn:Ef, (g (Digest c)) eqn:Eg; try done; simpl.
  - rewrite <- Z.add_assoc. f_equal. rewrite <- IH by (intros d; specialize (Hfg d); by destruct (f d), (g d), (bool_decide (d = Digest c))).
    apply distinct_ext. intros d. case_bool_decide as Hd; [subst d; rewrite Ef, Eg; done|]. by rewrite !andb_true_r.
  - rewrite Z.add_assoc, (Z.add_comm (distinct_bytes f _)), <- Z.add_assoc. f_equal.
    rewrite <- IH by (intros d; specialize (Hfg d); by destruct (f d), (g d), (bool_decide (d = Digest c))).
    apply distinct_ext. intros d. case_bool_decide as Hd; [subst d; rewrite Ef, Eg; done|]. by rewrite !andb_true_r.
  - by apply IH.
Qed.

Section Costs.
Context `{UnicodeCaseLaws} (sha256 : bytes → bytes) (F : gmap string bytes).

(** The bytes of the chunks named. *)
Definition cost (digests : list string) : Z := sum_z (map (λ d, Z.of_nat (length (default [] (F !! d)))) digests).

Lemma cost_nonneg l : (0 ≤ cost l)%Z.
Proof. unfold cost, sum_z. induction l as [|d l IH]; simpl; lia. Qed.

Lemma distinct_one d chunks : Forall (stocked sha256 F) chunks → d ∈ map Digest chunks →
  distinct_bytes (λ x, bool_decide (x = d)) chunks = Z.of_nat (length (default [] (F !! d))).
Proof.
  induction 1 as [|c chunks (data & Hd & _ & Hs) _ IH]; [by intros ?%not_elem_of_nil|]. simpl. intros Hin. case_bool_decide as Heq.
  - subst d. rewrite Hd. simpl. rewrite distinct_none; [lia|]. intros x. by case_bool_decide.
  - apply IH. set_solver.
Qed.

Lemma distinct_cost l chunks : Forall (stocked sha256 F) chunks → NoDup l → l ⊆ map Digest chunks →
  distinct_bytes (λ x, bool_decide (x ∈ l)) chunks = cost l.
Proof.
  intros Hst Hnd. induction Hnd as [|d l Hd Hnd IH]; intros Hsub.
  - apply distinct_none. intros d. apply bool_decide_eq_false_2, not_elem_of_nil.
  - rewrite (distinct_ext _ (λ x, bool_decide (x = d) || bool_decide (x ∈ l))).
    2: { intros x. rewrite <- bool_decide_or. apply bool_decide_ext. set_solver. }
    rewrite distinct_split, distinct_one, IH; [done|set_solver|done|set_solver|].
    intros x. rewrite <- bool_decide_and. apply bool_decide_eq_false_2. by intros [-> ?].
Qed.

Lemma sum_concat l : sum_z (map Size (concat l)) = sum_z (map (λ cs, sum_z (map Size cs)) l).
Proof. induction l as [|cs l IH]; [done|]. simpl. rewrite map_app, sum_z_app, IH. done. Qed.

Lemma manifest_chunk manifest c : c ∈ manifest_chunks manifest ↔ ∃ f, f ∈ Files manifest ∧ c ∈ Chunks f.
Proof.
  unfold manifest_chunks. rewrite list_elem_of_In, in_concat. setoid_rewrite in_map_iff. setoid_rewrite list_elem_of_In. naive_solver.
Qed.

(** The chunks of a valid manifest. *)
Lemma chunks_sum manifest : typed manifest → Manifest_Validate manifest = Ok tt →
  sum_z (map Size (manifest_chunks manifest)) = TotalBytes manifest ∧ (0 ≤ TotalBytes manifest < 2 ^ 63)%Z ∧
  Forall (λ c, (0 ≤ Size c)%Z) (manifest_chunks manifest).
Proof.
  intros Hty Hv. destruct (manifest_checked manifest Hty Hv) as (_ & _ & v & [Hok _ [Htot Hmax] _ _ _] & Hv').
  split_and!; [|rewrite <- Hv'; lia|rewrite <- Hv'; unfold MaximumSnapshotBytes in Hmax; lia|].
  - unfold manifest_chunks. rewrite sum_concat, <- Hv', Htot. f_equal. rewrite map_map. apply map_ext_in. intros f Hf%list_elem_of_In.
    rewrite Forall_forall in Hok. by destruct (Hok f Hf) as (_ & _ & _ & ->).
  - apply Forall_forall. intros c (f & Hf & Hc)%manifest_chunk. rewrite Forall_forall in Hok. destruct (Hok f Hf) as (_ & _ & Hcs & _).
    rewrite Forall_forall in Hcs. destruct (Hcs c Hc). lia.
Qed.

Lemma digest_bytes manifest l : typed manifest → Manifest_Validate manifest = Ok tt →
  Forall (λ f, Forall (stocked sha256 F) (Chunks f)) (Files manifest) → NoDup l → l ⊆ Digests manifest →
  digestBytes manifest l = cost l ∧ (cost l ≤ TotalBytes manifest < 2 ^ 63)%Z.
Proof.
  intros Hty Hv Hst Hnd Hsub. destruct (chunks_sum manifest Hty Hv) as (Hsum & Hb & Hpos).
  assert (distinct_bytes (λ x, bool_decide (x ∈ l)) (manifest_chunks manifest) = cost l) as Hcost.
  { apply distinct_cost; [|done|].
    - apply Forall_forall. intros c (f & Hf & Hc)%manifest_chunk. rewrite Forall_forall in Hst. specialize (Hst f Hf). rewrite Forall_forall in Hst. by apply Hst.
    - intros d Hd. apply Hsub, digests_elem in Hd as (f & c & Hf & Hc & <-). apply list_elem_of_In, in_map, list_elem_of_In, manifest_chunk. eauto. }
  split; [|rewrite <- Hcost, <- Hsum; split; [by apply distinct_bound|lia]].
  unfold digestBytes. rewrite unique_distinct by (done || lia). rewrite Z.add_0_l, <- Hcost. apply distinct_ext.
  intros d. by rewrite (bool_decide_eq_false_2 (d ∈ ∅)), andb_true_r by set_solver.
Qed.
End Costs.

(** ** The worker *)

Section Delivery.
Context `{UnicodeCaseLaws} `{!UnicodeErrorLaw} `{LogReader} `{ZL : ZstdLaws} (sha256 : bytes → bytes) (Hsha : ∀ c, length (sha256 c) = DigestBytes).
Context (maximumBytes : Z) (json_length : Manifest → Z) (stateDir : string).
Context (status : Status) (error_text : list sentinel → string) (proto_size : ManifestMessage → Z) (generated : result string).
Context (manifestID : string) (Ds : gset string).
Abbreviation serve := (dispatch sha256 maximumBytes json_length stateDir true true status proto_size generated).

(** A worker without failures: its workspaces are [D], its chunks [F], its jobs [w]. *)
Record ready (D : gmap string Tree) (F : gmap string bytes) (w : World Database) (h : Host) : Prop := {
  re_spaces : calm (h_spaces h); re_trees : w_db (h_spaces h) = D;
  re_content : calm (h_content h); re_clock : ticking (h_content h);
  re_roomy : roomy manifestID Ds F (w_db (h_content h)); re_jobs : h_jobs h = w
}.

Lemma ready_prepared D F w h : ready D F w h → prepared D F h.
Proof. intros [Hs HD Hc Ht Hr _]. split; try done; [apply Hr|by apply (ro_files _ _ _ _ Hr)]. Qed.

Lemma ready_content {A} (m : M Vault A) D F F' w h r : ready D F w h →
  ends m (w_db (h_content h)) (λ r' v', roomy manifestID Ds F' v' ∧ r' = r) → runs (on_content m) h (λ r' h', ready D F' w h' ∧ r' = r).
Proof.
  intros [Hs HD Hc Ht Hr Hj] Hm. apply runs_zoom. eapply runs_mono; [by apply (runs_ends _ _ _ _ Hm)|].
  cbv beta. intros r' wc (Hc' & Ht' & Hr' & ->). split; [|done]. by split.
Qed.

(** Runs with a known outcome, one after the other. *)
Lemma runs_then {S A B} (m : Run S A) (f : A → Run S B) s a (P : S → Prop) (Q : result B → S → Prop) :
  runs m s (λ r s', P s' ∧ r = Ok a) → (∀ s', P s' → runs (f a) s' Q) → runs (m ≫= f) s Q.
Proof. intros Hm Hf. apply runs_bind. eapply runs_mono; [exact Hm|]. cbv beta. intros r s' [HP ->]. by apply Hf. Qed.

Lemma runs_ok_lift {S A B} (r : result A) (f : A → Run S B) s a Q : r = Ok a → runs (f a) s Q → runs (run_lift r ≫= f) s Q.
Proof. intros -> Hf. by apply runs_bind, runs_lift. Qed.

Definition accepted_wire : list Z := Eval vm_compute in match ChunkEncodingsToRemoteProto SupportedChunkEncodings with Ok l => l | Err _ => [] end.

Lemma parse_digests_valid digests : Forall (λ d, Digest_Valid d = true) digests → parse_digests digests = Ok digests.
Proof. induction 1 as [|d digests Hd _ IH]; [done|]. simpl. by rewrite parse_valid, IH. Qed.

Lemma intact_valid F digests : intact sha256 F digests → Forall (λ d, Digest_Valid d = true) digests.
Proof. intros Hi. apply (Forall_impl _ _ _ Hi). by intros d []. Qed.

(** A batch of the preflight: the answer names the chunks the worker lacks. *)
Lemma check_ready D F w h batch : ready D F w h → Digest_Valid manifestID = true → intact sha256 F batch → batch ≠ [] →
  length batch ≤ maximumPreflightDigests → list_to_set batch ⊆ Ds → (Z.of_nat (size Ds) ≤ MaximumChunks)%Z → (weight F ≤ maximumBytes)%Z →
  runs (serve (Some (ROpCheckSnapshot (Some (MkCheckSnapshot manifestID batch))))) h (λ r h', ready D F w h' ∧
    r = Ok (result_response (RResCheckSnapshot (Some (MkCheckSnapshotResult (filter (λ d, F !! d = None) (in_order batch)) accepted_wire))))).
Proof.
  intros Hh Hid Hin Hne Hlen HDs Hsize Hw. cbn [dispatch checkSnapshot cs_chunk_digests cs_manifest_id].
  rewrite bool_decide_eq_false_2 by done. rewrite (proj2 (Nat.ltb_ge _ _)) by done. cbn [orb].
  eapply runs_ok_lift; [by apply parse_valid|]. eapply runs_ok_lift; [by eapply parse_digests_valid, intact_valid|].
  unfold ReserveSnapshot, MissingChunks. cbn [negb reject_if].
  apply (runs_then _ _ _ tt (ready D F w)).
  { apply runs_bind, runs_lift. apply (ready_content _ _ _ _ _ _ _ Hh).
    assert (Z.of_nat (length batch) ≤ MaximumChunks)%Z by (assert (Z.of_nat maximumPreflightDigests = 8192%Z) by reflexivity; unfold MaximumChunks; lia).
    apply roomy_reserve; try done; [apply Hh|by eapply intact_valid]. }
  intros h1 Hh1. eapply (runs_then _ _ _ _ (ready D F w)).
  { apply runs_bind, runs_lift. apply (ready_content _ _ _ _ _ _ _ Hh1). apply roomy_missing; [apply Hh1|done]. }
  intros h2 Hh2. eapply runs_ok_lift; [reflexivity|]. by apply runs_ret.
Qed.

(** A chunk sent as [EncodeChunk] encoded it is stored. *)
Lemma put_ready D F w h digest data encoded encoding : ready D F w h → verified sha256 digest data = true → Digest_Valid digest = true →
  F !! digest = None → EncodeChunk data SupportedChunkEncodings = Ok encoded → ChunkEncodingToRemoteProto (Encoding encoded) = Ok encoding →
  (weight F + Z.of_nat (length data) ≤ maximumBytes)%Z →
  runs (serve (Some (ROpPutChunk (Some (MkChunkTransfer digest (Data encoded) encoding (UncompressedSize encoded)))))) h
    (λ r h', ready D (<[digest := data]> F) w h' ∧ r = Ok (result_response (RResPutChunk (Some digest)))).
Proof.
  intros Hh Hver Hd Hnone Henc Hwire Hw. cbn [dispatch putChunk ct_data ct_digest ct_encoding ct_uncompressed_size].
  pose proof Hver as Hv. unfold verified in Hv. apply negb_true_iff in Hv. reflect_bools.
  destruct (encode_sound _ _ _ Henc) as (_ & Hlen & Hdec).
  rewrite bool_decide_eq_false_2 by (intros E; rewrite E in Hlen; cbn in Hlen; lia).
  rewrite (proj2 (Z.ltb_ge _ _)) by lia. cbn [orb].
  eapply runs_ok_lift; [by apply parse_valid|]. eapply runs_ok_lift; [by apply encoding_wire|].
  eapply runs_ok_lift; [destruct encoded; exact Hdec|]. eapply runs_ok_lift; [by rewrite bool_decide_eq_true_2|].
  unfold PutChunk. cbn [negb reject_if].
  apply (runs_then _ _ _ tt (ready D (<[digest := data]> F) w)); [|intros h1 Hh1; by apply runs_ret].
  apply runs_bind, runs_lift. eapply runs_ok_lift.
  { rewrite Hd. rewrite (bool_decide_eq_false_2 (data = [])) by (by intros ->). rewrite (proj2 (Z.ltb_ge _ _)) by lia.
    by rewrite bool_decide_eq_true_2. }
  apply (ready_content _ _ _ _ _ _ _ Hh). apply roomy_put; try done. apply Hh.
Qed.

(** The workspace of the job is in place. *)
Definition written (D : gmap string Tree) (F : gmap string bytes) (manifest : Manifest) (id : string) (h : Host) : Prop :=
  ∃ t, w_db (h_spaces h) = <[id := t]> D ∧ holds_files sha256 (Files manifest) t ∧
    ∀ f, f ∈ Files manifest → t !! segments (Path f) = Some (Reg (Mode f) (file_data F f)).

(** What is left when the worker has accepted the job: the job is queued, and its
    workspace holds the files of the manifest, made of the chunks [F]. *)
Definition arrived (D : gmap string Tree) (F : gmap string bytes) (manifest : Manifest) (value : Job) (h : Host) : Prop :=
  Repo_Get (ID value) (w_db (h_jobs h)) = Ok (value, w_db (h_jobs h)) ∧ written D F manifest (ID value) h.

Lemma arrived_content {A} D F manifest value (m : M Vault A) : stays (arrived D F manifest value) (on_content m).
Proof. intros h Hh. unfold on_content, zoom. by destruct (m (h_content h)). Qed.

(** The directory the job runs in. *)
Definition job_directory (id sub : string) : result string :=
  target ← JobWorkspacePath stateDir id; Ok (if bool_decide (sub = "") then target else filepath_Join target sub).

(** A job service that can take the job [id] with this specification now. *)
Record vacant (w : World Database) (id : string) (spec : Spec) : Prop := {
  va_calm : calm w; va_spec : Spec_Validate spec = Ok tt; va_id : ID_Valid id = true;
  va_job : jobs (w_db w) !! id = None; va_progress : job_progress (w_db w) !! id = None;
  va_storable : let t0 := w_clock w (w_ticks w) in storable (MkJob id spec StateCreated t0 t0 None None);
  va_clock : let t n := w_clock w (n + w_ticks w) in (t 0%nat ≤ t 1%nat ≤ t 2%nat)%Z ∧ int64_range (t 1%nat) ∧ int64_range (t 2%nat)
}.
Definition queued_job (w : World Database) (id : string) (spec : Spec) : Job :=
  MkJob id spec StateQueued (w_clock w (w_ticks w)) (w_clock w (2 + w_ticks w)) None None.

Lemma vacant_submit w id spec : vacant w id spec →
  ∃ w', submitWithID id spec w = (Ok (queued_job w id spec), w') ∧
    Repo_Get id (w_db w') = Ok (queued_job w id spec, w_db w').
Proof. intros [Hc Hs Hid Hj Hp Hst (Hm & Ht1 & Ht2)]. exact (submit_queues _ id spec w Hc Hid Hs Hj Hp Hst Ht1 Ht2 Hm). Qed.

Lemma queued_wire w id spec : vacant w id spec →
  ∃ m, JobToRemoteProto (queued_job w id spec) = Ok m ∧ JobFromRemoteProto (Some m) = Ok (queued_job w id spec).
Proof.
  intros Hv. destruct (vacant_submit _ _ _ Hv) as (w' & _ & (_ & _ & row & _ & (_ & _ & _ & _ & _ & _ & _ & Hj)%scanJob_ok)%get_ok).
  apply job_wire; [done|]. destruct Hv as [_ _ _ _ _ (Ht0 & _) (_ & _ & Ht2)]. by split_and!.
Qed.

Lemma materialize_ready D F w h manifest sub id target : ready D F w h → JobWorkspacePath stateDir id = Ok target →
  typed manifest → Manifest_Validate manifest = Ok tt →
  usable_directory (Files manifest) sub → D !! id = None → Forall (λ f, Forall (stocked sha256 F) (Chunks f)) (Files manifest) →
  runs (Materialize sha256 stateDir id manifest sub) h (λ r h', (h_jobs h' = w ∧ written D F manifest id h') ∧
    r = Ok (if bool_decide (sub = "") then target else filepath_Join target sub)).
Proof.
  intros Hh Htarget Hty Hmv Hsub HD Hst. pose proof Htarget as Hpath. unfold JobWorkspacePath in Hpath.
  apply result_bind_ok in Hpath as ([] & Hid%reject_if_ok & Hpath). apply result_bind_ok in Hpath as ([] & Hdir%reject_if_ok & _). reflect_bools.
  destruct (materialize_ok sha256 stateDir id manifest sub D F h (ready_prepared _ _ _ _ Hh) Hid Hdir Hty Hmv Hsub HD Hst)
    as (dir & t & h' & E & Hp & Hfiles).
  pose proof (materialize_runs sha256 stateDir id manifest sub h (proj2 (re_spaces _ _ _ _ Hh))) as Hm.
  pose proof (own_materialize sha256 stateDir (w_fault (h_spaces h)) w id manifest sub h) as Hown.
  eapply runs_elim in Hm; [|exact E]. cbv beta iota in Hm. destruct Hm as (_ & t' & target' & Ht' & -> & HDt & Hholds).
  rewrite Htarget in Ht'. injection Ht' as <-. rewrite E in Hown. destruct Hown as (_ & _ & Hj); [split_and!; [exact (proj2 (re_spaces _ _ _ _ Hh))|done|apply Hh]|].
  eapply runs_eq; [exact E|]. cbv beta. split; [|done]. split; [done|]. exists t. pose proof (pr_trees _ _ _ Hp) as Ht.
  rewrite HDt, (re_trees _ _ _ _ Hh) in Ht. assert (t' = t) as -> by (apply (f_equal (lookup id)) in Ht; rewrite !lookup_insert_eq in Ht; congruence). split_and!; [apply Hp|done|done].
Qed.

Lemma snapshot_ready D F w h spec manifest sub id dir : ready D F w h → Spec_Validate spec = Ok tt →
  job_directory id sub = Ok dir → vacant w id (with_directory spec dir) → typed manifest → Manifest_Validate manifest = Ok tt →
  usable_directory (Files manifest) sub → D !! id = None → Forall (λ f, Forall (stocked sha256 F) (Chunks f)) (Files manifest) →
  let value := queued_job w id (with_directory spec dir) in
  runs (SubmitSnapshotWithID sha256 maximumBytes stateDir true id spec manifest sub) h (λ r h', arrived D F manifest value h' ∧ r = Ok value).
Proof.
  intros Hh Hspec Hdir Hvac Hty Hmv Hsub HD Hst value. pose proof (va_id _ _ _ Hvac) as Hid.
  unfold job_directory in Hdir. apply result_bind_ok in Hdir as (target & Htarget & [= <-]). set (dir := if bool_decide _ then _ else _) in *.
  unfold SubmitSnapshotWithID. eapply runs_ok_lift; [done|]. rewrite Hid. eapply runs_ok_lift; [done|]. eapply runs_ok_lift; [exact Hspec|].
  eapply runs_ok_lift; [exact Hmv|].
  eapply runs_ok_lift; [instantiate (1 := tt); case_bool_decide; [done|]; by destruct Hsub as [|[? _]]|].
  apply (runs_then _ _ _ tt (ready D F w)); [apply (ready_content _ _ _ _ _ _ _ Hh), roomy_begin, Hh|]. clear Hh h. intros h Hh.
  apply runs_finally. eapply (runs_mono _ _ (λ r h', arrived D F manifest value h' ∧ r = Ok value)).
  2: { intros r h' [Hh' ->]. unfold runs. split; [|done]. by apply arrived_content. }
  apply (runs_then _ _ _ [] (ready D F w)).
  { apply (ready_content _ _ _ _ _ _ _ Hh). eapply ends_mono; [apply roomy_missing; [apply Hh|]|].
    - apply Forall_forall. intros d Hd. split; [by eapply ArtifactStore.digests_valid|]. intros data Hdata.
      apply digests_elem in Hd as (f & c & Hf & Hc & <-). rewrite Forall_forall in Hst. specialize (Hst f Hf). rewrite Forall_forall in Hst.
      destruct (Hst c Hc) as (data' & Hdata' & Hver & _). congruence.
    - cbv beta. intros r v [Hv ->]. split; [done|]. f_equal. apply elem_of_nil_inv. intros d [Hnone Hd]%list_elem_of_filter.
      apply in_order_elem, digests_elem in Hd as (f & c & Hf & Hc & <-). rewrite Forall_forall in Hst. specialize (Hst f Hf). rewrite Forall_forall in Hst.
      destruct (Hst c Hc) as (data' & Hdata' & _). congruence. }
  clear Hh h. intros h Hh. eapply runs_ok_lift; [done|].
  apply (runs_then _ _ _ dir (λ h, h_jobs h = w ∧ written D F manifest id h)); [by apply materialize_ready|]. clear Hh h. intros h [Hj Hw].
  destruct (vacant_submit _ _ _ Hvac) as (w' & Hsubmit & Hget). fold value in Hsubmit, Hget.
  apply (runs_then _ _ _ (Ok value) (arrived D F manifest value)); [|intros h' Hh'; by apply runs_ret].
  apply runs_attempt, runs_zoom. rewrite <- Hj in Hsubmit. eapply runs_eq; [exact Hsubmit|]. cbv beta. by split.
Qed.

(** The worker takes a job whose snapshot it holds. *)
Lemma submit_ready D F w h spec manifest sub id dir sm mm : ready D F w h → Spec_Validate spec = Ok tt →
  job_directory id sub = Ok dir → vacant w id (with_directory spec dir) → typed manifest →
  usable_directory (Files manifest) sub → D !! id = None → Forall (λ f, Forall (stocked sha256 F) (Chunks f)) (Files manifest) →
  SpecToRemoteProto spec = Ok sm → ManifestToRemoteProto sha256 proto_size manifest = Ok mm →
  let value := queued_job w id (with_directory spec dir) in
  runs (serve (Some (ROpSubmitJob (Some (MkSubmitJob (Some sm) (Some mm) sub id))))) h (λ r h', arrived D F manifest value h' ∧
    ∃ m, r = Ok (result_response (RResSubmitJob (Some (Some m)))) ∧ JobToRemoteProto value = Ok m ∧ JobFromRemoteProto (Some m) = Ok value).
Proof.
  intros Hh Hspec Hdir Hvac Hty Hsub HD Hst Hsm Hmm value.
  destruct (spec_wire spec Hspec) as (sm' & Hsm' & Hfrom). rewrite Hsm in Hsm'. injection Hsm' as <-.
  destruct (manifest_wire _ sha256 proto_size manifest mm Hsha) as [Hman Hid]. specialize (Hman Hmm). destruct (Hid Hman) as [Hmv Hmid].
  destruct (id_not_blank id (va_id _ _ _ Hvac)) as [Hparse Hblank]. destruct (queued_wire _ _ _ Hvac) as (m & Hto & Hback). fold value in Hto, Hback.
  cbn [dispatch handle_submit sj_spec sj_job_id sj_snapshot sj_working_subdirectory].
  eapply runs_ok_lift; [exact Hfrom|]. eapply runs_ok_lift; [by rewrite bool_decide_eq_false_2, Hparse|]. cbn [is_nil andb].
  apply (runs_then _ _ _ value (arrived D F manifest value)).
  2: { intros h' Hh'. eapply runs_ok_lift; [exact Hto|]. apply runs_ret. eauto. }
  cbn [submit_job sj_snapshot sj_working_subdirectory]. eapply runs_ok_lift; [exact Hman|]. eapply runs_ok_lift; [exact Hmid|].
  apply runs_finally. eapply runs_mono; [by apply (snapshot_ready D F w)|]. cbv beta. intros r h' [Hh' ->].
  unfold runs. split; [|done]. by apply arrived_content.
Qed.

(** ** The connection *)

Context (rid : string) (Hrid : rid ≠ "").

Definition worker_handles (request : RemoteRequest) (h : Host) : Handled * Host :=
  let '(response, h) := Handle sha256 maximumBytes json_length stateDir true true status error_text proto_size generated request h in
  (Returned (Some response), h).

(** A connection that delivers: the checks of both ends around the handler. *)
Definition direct : Network Host unit := {|
  DialRemote _ _ := mret tt; DialRemotePeer _ := mret tt; Caller_Close _ := mret tt;
  Caller_Call _ request h :=
    let '(response, h) := respond worker_handles (stamp_request rid request) h in (check_response rid response, h) |}.

Lemma direct_call op h (P : Host → Prop) (Q : RemoteResult → Prop) :
  runs (serve (Some op)) h (λ r h', P h' ∧ ∃ res, r = Ok (result_response res) ∧ Q res ∧ unknown_result [] None (Some res) = false) →
  unknown_operation [] (Some op) = false →
  runs (Caller_Call (Network := direct) tt (request_for op)) h (λ r h', P h' ∧
    ∃ res, r = Ok (stamp_response rid (result_response res)) ∧ Q res).
Proof.
  intros Hrun Hop. unfold runs in *. cbn [Caller_Call direct]. rewrite respond_handles.
  2: { split_and!; [done|done|]. cbn. unfold hasUnknownRequestFields. cbn -[unknown_operation]. rewrite Hop.
       by rewrite bool_decide_eq_false_2 by apply not_elem_of_nil. }
  unfold safelyHandle, worker_handles, Handle. cbn [rq_operation stamp_request request_for].
  destruct (dispatch _ _ _ _ _ _ _ _ _ _ h) as [r h']. cbn [fst snd] in *. destruct Hrun as (HP & res & -> & HQ & Hu).
  cbn [rq_request_id from_option id]. rewrite check_result by done. cbn. split; [done|]. eauto.
Qed.

(** ** The orchestrator *)

#[local] Existing Instance direct.
Context (pw : World PeerDB).

(** A daemon without failures whose chunks are [Fo]. *)
Record idle (Fo : gmap string bytes) (h : Host) : Prop := {
  id_content : calm (h_content h) ∧ ticking (h_content h);
  id_index : index_ok (vault_db (w_db (h_content h))); id_files : vault_files (w_db (h_content h)) = Fo;
  id_jobs : calm (h_jobs h) ∧ ticking (h_jobs h)
}.

(** The orchestrator at work, with a worker of which [P] holds. *)
Record desk (Fo : gmap string bytes) (P : Host → Prop) (o : Office Host) : Prop := {
  de_host : idle Fo (of_host o); de_peers : of_peers o = pw; de_net : P (of_net o)
}.

Lemma desk_net {A} (m : Run Host A) Fo P P' (R : result A → Prop) o : desk Fo P o →
  (∀ h, P h → runs m h (λ r h', P' h' ∧ R r)) → runs (in_net m) o (λ r o', desk Fo P' o' ∧ R r).
Proof. intros [Hh Hp Hn] Hm. apply runs_zoom. eapply runs_mono; [by apply Hm|]. cbv beta. intros r h [Hh' HR]. split; [by split|done]. Qed.

Lemma desk_call op Fo P P' (Q : RemoteResult → Prop) o : desk Fo P o →
  (∀ h, P h → runs (serve (Some op)) h (λ r h', P' h' ∧ ∃ res, r = Ok (result_response res) ∧ Q res ∧ unknown_result [] None (Some res) = false)) →
  unknown_operation [] (Some op) = false →
  runs (in_net (Caller_Call tt (request_for op))) o (λ r o', desk Fo P' o' ∧ ∃ res, r = Ok (stamp_response rid (result_response res)) ∧ Q res).
Proof. intros Ho Hs Hop. apply (desk_net _ Fo P P' (λ r, ∃ res, r = Ok (stamp_response rid (result_response res)) ∧ Q res) _ Ho). intros h Hh. by apply direct_call, Hop; apply Hs. Qed.

Lemma plain_operation : hasUnknown [] POperation (Some tt) = false.
Proof. unfold hasUnknown. by rewrite bool_decide_eq_false_2 by apply not_elem_of_nil. Qed.

Lemma desk_host {A} (m : Run Host A) Fo Fo' P (R : result A → Prop) o : desk Fo P o →
  (∀ h, idle Fo h → runs m h (λ r h', idle Fo' h' ∧ R r)) → runs (in_host m) o (λ r o', desk Fo' P o' ∧ R r).
Proof. intros [Hh Hp Hn] Hm. apply runs_zoom. eapply runs_mono; [by apply Hm|]. cbv beta. intros r h [Hh' HR]. split; [by split|done]. Qed.

Lemma desk_progress has_progress Fo P o id phase c t : desk Fo P o → ID_Valid id = true → (0 ≤ c ≤ t)%Z →
  ProgressPhase_Valid phase = true → phase ≠ ProgressPull →
  runs (setLocalProgress (N := Host) has_progress id phase c t) o (λ r o', desk Fo P o' ∧ r = Ok tt).
Proof.
  intros Ho Hid Hc Hphase Hpull. unfold setLocalProgress. destruct (negb has_progress || (t <=? 0)%Z) eqn:E; [by apply runs_ret|]. reflect_bools.
  apply runs_bind. eapply runs_mono; [apply (desk_host _ Fo Fo P (λ r, ∃ at_, r = Ok at_ ∧ ticks at_) _ Ho)|].
  { intros h [? ? ? [Hj Ht]]. apply runs_zoom. unfold runs. split; [by split|]. eexists. split; [done|]. apply Ht. }
  cbv beta. intros r o' (Ho' & at_ & -> & Hat). apply (desk_host _ Fo Fo P _ _ Ho').
  intros h [? ? ? [Hj Ht]]. apply runs_zoom. unfold runs. rewrite calm_atomically by done.
  destruct (progress_roundtrip id (MkProgress phase c t at_) (w_db (h_jobs h))) as (d' & -> & _); try done; cbn.
  unfold Progress_Validate. cbn. rewrite Hphase, (proj2 (Z.leb_gt t 0)), (proj2 (Z.ltb_ge c 0)), (proj2 (Z.ltb_ge t c)) by lia. cbn.
  unfold is_zero_time, zero_time. rewrite (proj2 (Z.eqb_neq _ _)); [done|]. unfold ticks in Hat. lia.
Qed.

Lemma desk_read Fo P o digest data : desk Fo P o → Digest_Valid digest = true → Fo !! digest = Some data → verified sha256 digest data = true →
  runs (in_content (Cas_Read sha256 digest)) o (λ r o', desk Fo P o' ∧ r = Ok data).
Proof.
  intros Ho Hd Hdata Hver. apply (desk_host _ Fo Fo P _ _ Ho). intros h [[Hc Ht] Hi Hf Hj]. apply runs_zoom.
  eapply runs_mono; [apply (runs_ends ticks); [by apply read_ends|done..]|]. cbv beta. intros r w (Hc' & Ht' & Hf' & [Hi' _] & _ & ->).
  rewrite Hf, Hdata, Hver. split; [|done]. split; cbn; [done|done|by rewrite Hf'|done].
Qed.

Lemma desk_begin Fo P o : desk Fo P o → runs (in_content BeginUse) o (λ r o', desk Fo P o' ∧ r = Ok tt).
Proof.
  intros Ho. apply (desk_host _ Fo Fo P _ _ Ho). intros h [[Hc Ht] Hi Hf Hj]. apply runs_zoom.
  eapply runs_mono; [apply (runs_ends ticks _ _ (λ r v, (index_ok (vault_db v) ∧ vault_files v = Fo) ∧ r = Ok tt)); [|done..]|].
  { apply ends_bind, ends_now. intros t Ht'. by apply ends_pins. }
  cbv beta. intros r w (Hc' & Ht' & [Hi' Hf'] & ->). split; [|done]. split; cbn; [done|done|by rewrite Hf'|done].
Qed.

(** A worker can always be reached: on the LAN or beyond it. *)
Lemma desk_open Fo P o peer : desk Fo P o → runs (open (N := Host) (C := unit) true peer) o (λ r o', desk Fo P o' ∧ r = Ok tt).
Proof.
  intros Ho. unfold open, nearbyCandidates. apply runs_bind, runs_attempt.
  apply (runs_mono _ _ (λ _ o', desk Fo P o')); [|].
  { apply runs_bind, runs_zoom. unfold runs at 1. destruct (list_nearby _) as [[s|e] w]; [apply runs_ret|]; by destruct Ho. }
  clear o Ho. intros candidates o Ho.
  assert (∀ cs fs, runs (dial_loop (N := Host) (C := unit) peer cs fs) o (λ r o', desk Fo P o' ∧
    ∃ dialed, r = Ok dialed)) as Hdial.
  { intros [|c cs] fs; [by apply runs_ret; eauto|]. apply runs_bind, runs_attempt, runs_zoom. unfold runs. cbn. split; [by destruct Ho|eauto]. }
  destruct (match candidates with Ok _ => _ | Err _ => _ end) as [cs fs]. apply runs_bind. eapply runs_mono; [apply Hdial|].
  cbv beta. intros r o' (Ho' & [[u|] failures] & ->); [apply runs_ret; by destruct u|].
  apply runs_bind, runs_attempt, runs_zoom. unfold runs. cbn. by destruct Ho'.
Qed.

Lemma missing_of_ok allowed values : Forall (λ d, Digest_Valid d = true ∧ d ∈ allowed) values → missing_of allowed values = Ok values.
Proof. induction 1 as [|d values [Hd Hin] _ IH]; [done|]. simpl. by rewrite parse_valid, bool_decide_eq_true_2, IH by done. Qed.

(** What the worker must have room for, and how its chunks are named. *)
Record snapshot_fits (F : gmap string bytes) (digests : list string) : Prop := {
  sf_id : Digest_Valid manifestID = true; sf_intact : intact sha256 F digests; sf_names : list_to_set digests ⊆ Ds;
  sf_count : (Z.of_nat (size Ds) ≤ MaximumChunks)%Z; sf_room : (weight F ≤ maximumBytes)%Z
}.

Lemma fits_sub F digests digests' : snapshot_fits F digests → digests' ⊆ digests → snapshot_fits F digests'.
Proof.
  intros [? Hin Hn ? ?] Hsub. split; try done; [|set_solver]. apply Forall_forall. intros d Hd. unfold intact in Hin. rewrite Forall_forall in Hin.
  by apply Hin, Hsub.
Qed.

Abbreviation lacks F := (λ d : string, (F : gmap string bytes) !! d = None).

Lemma batch_missing (F : gmap string bytes) digests n : list_to_set (filter (lacks F) (drop n digests)) ∪ list_to_set (filter (lacks F) (in_order (take n digests)))
  = (list_to_set (filter (lacks F) digests) : gset string).
Proof.
  apply set_eq. intros d. rewrite elem_of_union, !elem_of_list_to_set, !list_elem_of_filter, in_order_elem.
  rewrite <- (take_drop n digests) at 3. rewrite elem_of_app. tauto.
Qed.

Lemma preflight_desk Fo D F w fuel digests missing accepted o : desk Fo (ready D F w) o → length digests ≤ fuel → snapshot_fits F digests →
  (∀ a, accepted = Some a → a = SupportedChunkEncodings) →
  runs (preflight_loop fuel tt manifestID digests missing accepted) o (λ r o', desk Fo (ready D F w) o' ∧
    r = Ok (list_to_set (filter (lacks F) digests) ∪ missing, if decide (digests = []) then default [] accepted else SupportedChunkEncodings)).
Proof.
  revert digests missing accepted o. induction fuel as [|fuel IH]; intros digests missing accepted o Ho Hlen Hfit Hacc.
  { destruct digests; [|simpl in Hlen; lia]. apply runs_ret. split; [done|]. by rewrite filter_nil, list_to_set_nil, union_empty_l_L. }
  destruct digests as [|d digests]. { apply runs_ret. split; [done|]. by rewrite filter_nil, list_to_set_nil, union_empty_l_L. }
  cbn [preflight_loop]. set (all := d :: digests) in *. set (batch := take snapshotPreflightBatch all).
  assert (∃ k, snapshotPreflightBatch = S k) as [k Hk] by (exists (Z.to_nat 4095); unfold snapshotPreflightBatch; lia).
  assert (batch ≠ []) as Hne by (unfold batch, all; by rewrite Hk). assert (batch ⊆ all) as Hsub by apply subseteq_take.
  assert (length batch ≤ maximumPreflightDigests) as Hbatch
    by (unfold batch; rewrite length_take; unfold snapshotPreflightBatch, maximumPreflightDigests; lia).
  pose proof (fits_sub _ _ _ Hfit Hsub) as [Hid Hin Hn Hcount Hroom].
  apply runs_bind. eapply runs_mono; [apply (desk_call _ _ _ (ready D F w)
    (λ res, res = RResCheckSnapshot (Some (MkCheckSnapshotResult (filter (lacks F) (in_order batch)) accepted_wire))) _ Ho)|].
  { intros h Hh. eapply runs_mono; [by apply check_ready|]. cbv beta. intros r h' [Hh' ->]. split; [done|]. eexists. split_and!; done. }
  { apply plain_operation. }
  cbv beta. intros r o1 (Ho1 & res & -> & ->). cbn [GetCheckSnapshot rs_result stamp_response result_response cr_accepted_chunk_encodings cr_missing_chunk_digests].
  change (ChunkEncodingsFromRemoteProto accepted_wire) with (Ok SupportedChunkEncodings : result _). cbv iota.
  eapply runs_ok_lift. { instantiate (1 := tt). destruct accepted as [a|]; [|done]. by rewrite bool_decide_eq_true_2 by (by apply Hacc). }
  eapply runs_ok_lift.
  { apply missing_of_ok, Forall_forall. intros x [_ Hx]%list_elem_of_filter. rewrite in_order_elem in Hx. split; [|done].
    unfold intact in Hin. rewrite Forall_forall in Hin. by apply Hin. }
  eapply runs_mono; [apply IH; [done| |by eapply fits_sub, subseteq_drop|by intros a [= <-]]|].
  { rewrite length_drop, Hk. unfold all in *. simpl in *. lia. }
  cbv beta. intros r o2 [Ho2 ->]. split; [done|]. f_equal. f_equal; [|by destruct (decide _)].
  by rewrite assoc_L, batch_missing by apply _.
Qed.

Lemma filter_mem {A} (P Q : A → Prop) `{∀ x, Decision (P x)} `{∀ x, Decision (Q x)} (l : list A) : (∀ x, x ∈ l → P x ↔ Q x) → filter P l = filter Q l.
Proof.
  induction l as [|x l IH]; intros Hpq; [done|]. rewrite !filter_cons, IH by (intros y Hy; apply Hpq; by right).
  pose proof (Hpq x ltac:(by left)). repeat case_decide; naive_solver.
Qed.

Lemma preflight_done Fo D F w digests o : desk Fo (ready D F w) o → snapshot_fits F digests →
  runs (preflightSnapshot tt manifestID digests) o (λ r o', desk Fo (ready D F w) o' ∧
    r = Ok (filter (lacks F) digests, if decide (digests = []) then [] else SupportedChunkEncodings)).
Proof.
  intros Ho Hfit. unfold preflightSnapshot. eapply runs_then; [by apply (preflight_desk Fo D F w)|].
  intros o' Ho'. apply runs_ret. split; [done|]. cbn [fst snd]. f_equal. f_equal. apply filter_mem. intros d Hd.
  rewrite elem_of_union, elem_of_list_to_set, list_elem_of_filter. set_solver.
Qed.

(** The chunks of a worker that has been sent [digests] from [Fo]. *)
Fixpoint restock (Fo F : gmap string bytes) (digests : list string) : gmap string bytes :=
  match digests with [] => F | d :: rest => restock Fo (<[d := default [] (Fo !! d)]> F) rest end.

(** The orchestrator has these chunks, intact, and the worker lacks them. *)
Definition sendable (Fo F : gmap string bytes) (digests : list string) : Prop :=
  Forall (λ d, Digest_Valid d = true ∧ F !! d = None ∧ ∃ data, Fo !! d = Some data ∧ verified sha256 d data = true) digests.

Lemma sendable_insert Fo F d data digests : d ∉ digests → sendable Fo F digests → sendable Fo (<[d := data]> F) digests.
Proof.
  intros Hd Hs. unfold sendable in *. rewrite Forall_forall in *. intros x Hx. destruct (Hs x Hx) as (? & ? & ?).
  rewrite lookup_insert_ne by (by intros ->). done.
Qed.

Lemma upload_desk has_progress Fo D F w id manifest uploadBytes completed digests o : codec_error = None →
  desk Fo (ready D F w) o → ID_Valid id = true → NoDup digests → sendable Fo F digests → (weight F + cost Fo digests ≤ maximumBytes)%Z →
  (∀ d, d ∈ digests → digestBytes manifest [d] = cost Fo [d]) → (0 ≤ completed)%Z → (completed + cost Fo digests = uploadBytes)%Z → (uploadBytes < 2 ^ 63)%Z →
  runs (upload_loop sha256 has_progress tt id manifest SupportedChunkEncodings uploadBytes completed digests) o
    (λ r o', desk Fo (ready D (restock Fo F digests) w) o' ∧ r = Ok tt).
Proof.
  intros Hcodec Ho Hid Hnd. revert F completed o Ho. induction Hnd as [|d digests Hd Hnd IH]; intros F completed o Ho Hsend Hroom Hsize Hpos Hsum Hmax.
  { by apply runs_ret. }
  cbn [upload_loop restock]. apply Forall_cons in Hsend as [(Hvalid & Hlacks & data & Hdata & Hver) Hsend].
  assert (cost Fo (d :: digests) = Z.of_nat (length data) + cost Fo digests)%Z as Hcost by (unfold cost, sum_z; simpl; by rewrite Hdata).
  assert (cost Fo [d] = Z.of_nat (length data))%Z as Hone by (unfold cost, sum_z; simpl; rewrite Hdata; simpl; lia).
  pose proof (cost_nonneg Fo digests) as Hcn. pose proof Hver as Hlen. unfold verified in Hlen. apply negb_true_iff in Hlen. reflect_bools.
  eapply runs_then; [by apply desk_read|]. clear Ho o. intros o Ho.
  destruct (encode_total data SupportedChunkEncodings Hcodec) as [encoded Henc]; [set_solver|lia|].
  eapply runs_ok_lift; [exact Henc|].
  destruct (ChunkEncodingToRemoteProto (Encoding encoded)) as [encoding|e] eqn:Hwire; [|exfalso].
  2: { apply encode_sound in Henc as (Hin & _). unfold SupportedChunkEncodings in Hin.
       apply elem_of_cons in Hin as [E|Hin]; [rewrite E in Hwire; discriminate Hwire|].
       apply list_elem_of_singleton in Hin. rewrite Hin in Hwire. discriminate Hwire. }
  eapply runs_ok_lift; [done|].
  apply runs_bind. eapply runs_mono; [apply (desk_call _ _ _ (ready D (<[d := data]> F) w) (λ res, res = RResPutChunk (Some d)) _ Ho)|].
  { intros h Hh. eapply runs_mono; [apply put_ready; try done; lia|]. cbv beta. intros r h' [Hh' ->]. split; [done|]. eexists. split_and!; done. }
  { apply plain_operation. }
  clear Ho o. cbv beta. intros r o (Ho & res & -> & ->). eapply runs_ok_lift; [by rewrite bool_decide_eq_true_2|].
  rewrite Hdata. cbn [from_option].
  assert (weight (<[d := data]> F) + cost Fo digests ≤ maximumBytes)%Z as Hroom' by (rewrite weight_insert by done; lia).
  assert (sendable Fo (<[d := data]> F) digests) as Hsend' by (by apply sendable_insert).
  rewrite (proj2 (Z.ltb_lt 0 uploadBytes)) by lia. rewrite Hsize, Hone by (by left).
  rewrite wrap_int64_id by (unfold int64_range; lia).
  eapply runs_then; [apply desk_progress; try done; lia|]. clear Ho o. intros o Ho.
  apply IH; try done; [intros x Hx; apply Hsize; by right|lia..].
Qed.

Lemma restock_lookup Fo F digests d : NoDup digests → sendable Fo F digests →
  restock Fo F digests !! d = if decide (d ∈ digests) then Fo !! d else F !! d.
Proof.
  intros Hnd. revert F. induction Hnd as [|x digests Hx Hnd IH]; intros F Hs; [done|]. cbn [restock].
  apply Forall_cons in Hs as [(_ & _ & data & Hdata & _) Hs]. rewrite IH by (by apply sendable_insert).
  destruct (decide (d ∈ digests)) as [Hd|Hd]; [by rewrite decide_True by (by right)|].
  destruct (decide (d = x)) as [->|Hne].
  - rewrite decide_True by (by left). by rewrite lookup_insert_eq, Hdata.
  - rewrite decide_False by (by intros [?|?]%elem_of_cons). by rewrite lookup_insert_ne.
Qed.

(** The two sides agree on the content of the chunks both have. *)
Definition agree (Fo F : gmap string bytes) (digests : list string) : Prop := ∀ d data, d ∈ digests → F !! d = Some data → Fo !! d = Some data.

(** After the upload the worker has the chunks of the project as the orchestrator does. *)
Lemma restock_agrees Fo F manifest d : sendable Fo F (filter (lacks F) (Digests manifest)) → agree Fo F (Digests manifest) → d ∈ Digests manifest →
  restock Fo F (filter (lacks F) (Digests manifest)) !! d = Fo !! d.
Proof.
  intros Hs Ha Hd. rewrite restock_lookup by (done || apply NoDup_filter, digests_nodup). case_decide as Hin; [done|].
  destruct (F !! d) as [data|] eqn:E; [by rewrite (Ha d data)|]. destruct Hin. by apply list_elem_of_filter.
Qed.

(** The worker is a paired device, and the job has no placement yet. *)
Record known (peer : Peer) (id : string) : Prop := {
  kn_calm : calm pw; kn_live : live sha256 pw; kn_device : DeviceID_Valid (DeviceID peer) = true;
  kn_paired : is_Some (trusted_devices (w_db pw) !! DeviceID peer); kn_free : remote_job_placements (w_db pw) !! id = None
}.

Lemma accept_desk Fo P o peer id value m response : desk Fo P o → known peer id → ID value = id → ID_Valid id = true → ticks (CreatedAt value) →
  GetSubmitJob response = Some (Some m) → JobFromRemoteProto (Some m) = Ok value →
  runs (acceptSubmitted peer response) o (λ r o', r = Ok value ∧ P (of_net o') ∧ placed sha256 peer value (of_peers o')).
Proof.
  intros [Hh Hp Hn] Hk <- Hid Ht Hres Hm.
  assert (acceptSubmitted peer response o = (Ok value, (acceptSubmitted peer response o).2) ∧ of_net (acceptSubmitted peer response o).2 = of_net o) as [E En].
  { unfold acceptSubmitted. rewrite Hres. unfold mbind, Run_bind, run_lift, attempt, in_peers, zoom. rewrite Hm, Hp.
    destruct (Placement_Create _ pw) as [r w'] eqn:Ec. eapply create_calm in Ec; [|exact (kn_calm _ _ Hk)|exact (placements_reachable sha256 Hsha _ (proj1 (kn_live _ _ Hk)))| | | |exact (kn_paired _ _ Hk)].
    - cbn [Pl_JobID] in Ec. rewrite (kn_free _ _ Hk) in Ec. subst r. done.
    - unfold Placement_Validate. cbn. rewrite Hid, (kn_device _ _ Hk). cbn. unfold is_zero_time, zero_time.
      rewrite (proj2 (Z.eqb_neq _ _)); [done|]. unfold ticks in Ht. lia.
    - apply Ht.
    - unfold int64_range. unfold ticks in Ht. cbn. lia. }
  pose proof (accept_places sha256 peer response o) as Hpl. unfold runs in *. rewrite E in Hpl. cbn [fst snd] in Hpl.
  rewrite Hp in Hpl. specialize (Hpl (kn_live _ _ Hk)). rewrite E. cbn [fst snd]. rewrite En. done.
Qed.

(** A project snapshot whose chunks the orchestrator has. *)
Record snapshotted (Fo : gmap string bytes) (manifest : Manifest) (mm : ManifestMessage) : Prop := {
  sn_typed : typed manifest; sn_stocked : Forall (λ f, Forall (stocked sha256 Fo) (Chunks f)) (Files manifest);
  sn_message : ManifestToRemoteProto sha256 proto_size manifest = Ok mm; sn_id : manifestID = mm_manifest_id mm;
  sn_digests : Ds = list_to_set (Digests manifest)
}.

Lemma snapshotted_valid Fo manifest mm : snapshotted Fo manifest mm →
  Manifest_Validate manifest = Ok tt ∧ Manifest_ID sha256 manifest = Ok manifestID ∧ Digest_Valid manifestID = true.
Proof.
  intros [_ _ Hm -> _]. destruct (manifest_wire _ sha256 proto_size manifest mm Hsha) as [Hto Hfrom].
  destruct (Hfrom (Hto Hm)) as [Hv Hid]. split_and!; [done..|]. unfold Manifest_ID in Hid. apply result_bind_ok in Hid as (c & _ & [= <-]).
  by apply sum_valid.
Qed.

(** The worker has room for the project beside the chunks [F] it has. *)
Record room (Fo F : gmap string bytes) (manifest : Manifest) : Prop := {
  rm_agree : agree Fo F (Digests manifest); rm_bytes : (weight F + TotalBytes manifest ≤ maximumBytes)%Z
}.

Lemma digests_count manifest : typed manifest → Manifest_Validate manifest = Ok tt →
  (Z.of_nat (size (list_to_set (C := gset string) (Digests manifest))) ≤ MaximumChunks)%Z.
Proof.
  intros Hty Hv. destruct (manifest_checked manifest Hty Hv) as (_ & _ & v & [_ _ _ [Hcount Hmax] _ _] & _).
  rewrite size_list_to_set by apply digests_nodup.
  assert (length (Digests manifest) ≤ length (concat (map (λ file, map Digest (Chunks file)) (Files manifest)))) as Hlen.
  { apply submseteq_length, NoDup_submseteq; [apply digests_nodup|]. intros d (f & c & Hf & Hc & <-)%digests_elem.
    apply list_elem_of_In, in_concat. exists (map Digest (Chunks f)). split; [apply in_map_iff; exists f; split; [done|by apply list_elem_of_In]|].
    by apply in_map, list_elem_of_In. }
  etrans; [apply Nat2Z.inj_le, Hlen|]. etrans; [|apply Hmax]. rewrite Hcount. clear. unfold sum_z.
  induction (Files manifest) as [|f files IH]; [done|]. simpl. rewrite length_app, length_map. lia.
Qed.

Lemma snapshot_chunk Fo manifest mm d : snapshotted Fo manifest mm → d ∈ Digests manifest →
  Digest_Valid d = true ∧ ∃ data, Fo !! d = Some data ∧ verified sha256 d data = true.
Proof.
  intros Hs Hd. destruct (snapshotted_valid _ _ _ Hs) as (Hv & _). split; [by eapply digests_valid, Hd; [apply Hs|]|].
  apply digests_elem in Hd as (f & c & Hf & Hc & <-). pose proof (sn_stocked _ _ _ Hs) as Hst. rewrite Forall_forall in Hst. specialize (Hst f Hf).
  rewrite Forall_forall in Hst. destruct (Hst c Hc) as (data & Hdata & Hver & _). eauto.
Qed.

Lemma snapshot_sendable Fo F manifest mm : snapshotted Fo manifest mm → room Fo F manifest →
  snapshot_fits F (Digests manifest) ∧ sendable Fo F (filter (lacks F) (Digests manifest)) ∧
  (weight F + cost Fo (filter (lacks F) (Digests manifest)) ≤ maximumBytes)%Z ∧
  (∀ l, NoDup l → l ⊆ Digests manifest → digestBytes manifest l = cost Fo l ∧ (cost Fo l < 2 ^ 63)%Z).
Proof.
  intros Hs [Ha Hroom]. destruct (snapshotted_valid _ _ _ Hs) as (Hv & _ & Hid). pose proof (sn_typed _ _ _ Hs) as Hty.
  assert (∀ l, NoDup l → l ⊆ Digests manifest → digestBytes manifest l = cost Fo l ∧ (cost Fo l ≤ TotalBytes manifest < 2 ^ 63)%Z) as Hcost
    by (intros l Hnd Hsub; eapply digest_bytes; [done|done|apply Hs|done|done]).
  destruct (Hcost (filter (lacks F) (Digests manifest))) as [_ Hc]; [apply NoDup_filter, digests_nodup|by intros d [_ ?]%list_elem_of_filter|].
  pose proof (cost_nonneg Fo (filter (lacks F) (Digests manifest))). split_and!.
  - split; [done| |by rewrite (sn_digests _ _ _ Hs)|rewrite (sn_digests _ _ _ Hs); by apply digests_count|lia].
    apply Forall_forall. intros d Hd. destruct (snapshot_chunk _ _ _ _ Hs Hd) as (Hdv & data & Hdata & Hver). split; [done|].
    intros data' Hdata'. apply Ha in Hdata'; [|done]. congruence.
  - apply Forall_forall. intros d [Hl Hd]%list_elem_of_filter. by destruct (snapshot_chunk _ _ _ _ Hs Hd).
  - lia.
  - intros l Hnd Hsub. destruct (Hcost l Hnd Hsub). split; [done|lia].
Qed.

(** The whole exchange on an open connection. *)
Lemma send_desk has_progress Fo D F w o peer id spec project mm dir : codec_error = None →
  desk Fo (ready D F w) o → snapshotted Fo (sr_Manifest project) mm → room Fo F (sr_Manifest project) → known peer id →
  Spec_Validate (without_directory spec) = Ok tt → usable_directory (Files (sr_Manifest project)) (sr_WorkingSubdirectory project) →
  D !! id = None → job_directory id (sr_WorkingSubdirectory project) = Ok dir → vacant w id (with_directory spec dir) → ticks (w_clock w (w_ticks w)) →
  let value := queued_job w id (with_directory spec dir) in
  runs (send_snapshot sha256 has_progress peer tt id spec project mm manifestID) o (λ r o', r = Ok value ∧
    arrived D Fo (sr_Manifest project) value (of_net o') ∧ placed sha256 peer value (of_peers o')).
Proof.
  intros Hcodec Ho Hs Hroom Hk Hspec Hsub HD Hdir Hvac Ht value. set (manifest := sr_Manifest project) in *.
  destruct (snapshot_sendable _ _ _ _ Hs Hroom) as (Hfit & Hsend & Hbytes & Hcost). destruct (snapshotted_valid _ _ _ Hs) as (Hv & _).
  set (lacking := filter (lacks F) (Digests manifest)) in *.
  assert (NoDup lacking) as Hnd by apply NoDup_filter, digests_nodup.
  assert (lacking ⊆ Digests manifest) as Hincl by (by intros d [_ ?]%list_elem_of_filter).
  destruct (Hcost lacking Hnd Hincl) as [Hupload Hmax]. pose proof (cost_nonneg Fo lacking) as Hpos.
  pose proof (va_id _ _ _ Hvac) as Hid. unfold send_snapshot. fold manifest.
  eapply runs_then; [by apply preflight_done|]. clear Ho o. intros o Ho. cbn [fst snd]. fold lacking. rewrite Hupload.
  eapply (runs_then _ _ _ tt (desk Fo (ready D F w))).
  { destruct (0 <? cost Fo lacking)%Z; [|by apply runs_ret]. apply desk_progress; done || lia. }
  clear Ho o. intros o Ho. eapply (runs_then _ _ _ tt (desk Fo (ready D (restock Fo F lacking) w))).
  { destruct (decide (Digests manifest = [])) as [E|E].
    - assert (lacking = []) as -> by (unfold lacking; by rewrite E). by apply runs_ret.
    - apply upload_desk; try done. intros d Hd. apply Hcost; [apply NoDup_singleton|]. intros x ->%list_elem_of_singleton. by apply Hincl. }
  clear Ho o. intros o Ho. destruct (spec_wire _ Hspec) as (sm & Hsm & _). eapply runs_ok_lift; [exact Hsm|].
  assert (∀ d, d ∈ Digests manifest → restock Fo F lacking !! d = Fo !! d) as Hsame by (intros d Hd; by apply restock_agrees; [|apply Hroom|]).
  apply runs_bind. eapply runs_mono; [apply (desk_call _ _ _ (arrived D (restock Fo F lacking) manifest value)
    (λ res, ∃ m, res = RResSubmitJob (Some (Some m)) ∧ JobFromRemoteProto (Some m) = Ok value) _ Ho)|].
  { intros h Hh. eapply runs_mono; [apply (submit_ready D (restock Fo F lacking) w h (without_directory spec) manifest _ id dir sm mm); try done|].
    - apply Hs.
    - apply Forall_forall. intros f Hf. apply Forall_forall. intros c Hc. pose proof (sn_stocked _ _ _ Hs) as Hst.
      rewrite Forall_forall in Hst. specialize (Hst f Hf). rewrite Forall_forall in Hst. specialize (Hst c Hc).
      unfold stocked. rewrite Hsame; [done|]. apply digests_elem. eauto.
    - apply Hs.
    - cbv beta. intros r h' (Hh' & m & -> & Hto & Hback). split; [done|]. eexists. split_and!; [done|by eauto|]. exact (job_known _ _ 0 Hto). }
  { cbn [unknown_operation sj_spec sj_snapshot is_nil negb andb]. rewrite (manifest_known _ _ _ _ (sn_message _ _ _ Hs)). unfold hasUnknown. by rewrite !bool_decide_eq_false_2 by apply not_elem_of_nil. }
  clear Ho o. cbv beta. intros r o (Ho & res & -> & m & -> & Hm).
  eapply runs_mono; [apply (accept_desk _ _ _ peer id value m _ Ho Hk); done|]. cbv beta. intros r o' (-> & Harr & Hpl). split_and!; [done| |done].
  destruct Harr as [Hget (t & HDt & Hholds & Hfiles)]. split; [done|]. exists t. split_and!; [done..|].
  intros f Hf. rewrite Hfiles by done. do 2 f_equal. unfold file_data. f_equal. apply map_ext_in. intros c Hc%list_elem_of_In.
  unfold chunk_data. rewrite Hsame; [done|]. apply digests_elem. eauto.
Qed.

(** C5 A project reaches the worker.  When neither device fails, the connection
    delivers, the worker is paired and has room, and the snapshotter has stored the
    chunks of the project, then submitting with the snapshot succeeds: the
    job is queued there, in a new workspace that holds exactly the files of the
    project, each with its mode and its bytes, and the orchestrator has recorded where
    the job went. *)
Theorem submission_delivered has_progress build generatedID quota Fi Fo D F w o peer requestedID id spec project mm dir :
  codec_error = None → desk Fi (ready D F w) o →
  (∀ h, idle Fi h → runs (build (WorkingDirectory spec)) h (λ r h', idle Fo h' ∧ r = Ok project)) →
  snapshotted Fo (sr_Manifest project) mm → room Fo F (sr_Manifest project) → known peer id →
  (if ID_Valid requestedID then Ok requestedID else generatedID) = Ok id →
  trim_space (WorkingDirectory spec) ≠ "" → Spec_Validate (without_directory spec) = Ok tt →
  usable_directory (Files (sr_Manifest project)) (sr_WorkingSubdirectory project) → D !! id = None →
  job_directory id (sr_WorkingSubdirectory project) = Ok dir → vacant w id (with_directory spec dir) → ticks (w_clock w (w_ticks w)) →
  let value := queued_job w id (with_directory spec dir) in
  runs (submitSnapshot sha256 quota proto_size true has_progress build generatedID peer requestedID spec) o (λ r o', r = Ok value ∧
    arrived D Fo (sr_Manifest project) value (of_net o') ∧ placed sha256 peer value (of_peers o')).
Proof.
  intros Hcodec Ho Hbuild Hs Hroom Hk Hgen Hdirectory Hspec Hsub HD Hdir Hvac Ht value.
  destruct (snapshotted_valid _ _ _ Hs) as (Hv & Hmid & _). destruct (chunks_sum _ (sn_typed _ _ _ Hs) Hv) as (_ & Htotal & _).
  assert (∀ r (o' : Office Host) (cleanup : Run (Office Host) unit), (∀ o, of_net (cleanup o).2 = of_net o ∧ of_peers (cleanup o).2 = of_peers o) →
    (r = Ok value ∧ arrived D Fo (sr_Manifest project) value (of_net o') ∧ placed sha256 peer value (of_peers o')) →
    runs cleanup o' (λ _ o'', r = Ok value ∧ arrived D Fo (sr_Manifest project) value (of_net o'') ∧ placed sha256 peer value (of_peers o''))) as Hclean.
  { intros r o' cleanup Hc Hr. unfold runs. by destruct (Hc o') as [-> ->]. }
  unfold submitSnapshot. eapply runs_ok_lift; [by rewrite bool_decide_eq_false_2|]. eapply runs_ok_lift; [exact Hgen|].
  apply runs_finally. eapply runs_mono; [|intros r o' Hr; apply Hclean; [|exact Hr]].
  2: { intros o1. unfold clearProgress. destruct (_ || _); [done|]. unfold in_jobs, in_host, zoom. by destruct (on_jobs _ _). }
  eapply runs_then; [by apply desk_begin|]. clear Ho o. intros o Ho.
  apply runs_finally. eapply runs_mono; [|intros r o' Hr; apply Hclean; [|exact Hr]].
  2: { intros o1. unfold in_content, in_host, zoom. by destruct (on_content _ _). }
  eapply runs_then; [by apply (desk_host _ Fi Fo)|]. clear Ho o. intros o Ho. cbv zeta.
  eapply runs_then; [apply desk_progress; [done|apply Hvac|lia|done|done]|]. clear Ho o. intros o Ho.
  eapply runs_ok_lift; [apply Hs|]. eapply runs_ok_lift; [exact Hmid|].
  eapply runs_then; [by apply desk_open|]. clear Ho o. intros o Ho.
  apply runs_finally. eapply runs_mono; [|intros r o' Hr; apply Hclean; [|exact Hr]]; [|by intros o1].
  by apply (send_desk has_progress Fo D F w).
Qed.
End Delivery.

(** ** Witnesses *)

Definition abc_digest : string := Eval vm_compute in Sum sample_sha (bytes_of "abc").
Definition abc_chunks : gmap string bytes := {[ abc_digest := bytes_of "abc" ]}.
Definition sent_project : SnapshotResult := MkSnapshotResult "/home/me/project" "" fetched_manifest.
Definition sent_message : ManifestMessage := Eval vm_compute in
  match ManifestToRemoteProto (H := ascii_case) sample_sha (λ _, 100%Z) fetched_manifest with Ok m => m | Err _ => MkManifestMessage 0 "" [] 0 end.
Definition sent_spec : Spec := with_directory sample_spec "/home/me/project".
Definition daemon (files : gmap string bytes) : Host :=
  MkHost (quiet empty_database (λ _, sample_time)) (quiet (MkVault (MkCacheDB ∅ ∅ ∅ ∅) files (MkPins 0 ∅ ∅ ∅)) (λ _, sample_time))
    (quiet ∅ (λ _, sample_time)) (quiet ∅ (λ _, sample_time)).
Definition two_devices : Office Host :=
  MkOffice (daemon abc_chunks) (quiet paired_peers (λ _, sample_time)) (of_nearby (sample_office ∅ [])) (daemon ∅).
Definition sample_direct : Network Host unit :=
  @direct ascii_case (log_files no_logs) marking_zstd sample_sha (2 ^ 30) short "/var/state" idle_status sample_message (λ _, 100%Z) (Err []) "r".
Abbreviation sample_delivery := (@submitSnapshot ascii_case marking_zstd Host unit sample_direct sample_sha (2 ^ 30) (λ _, 100%Z) true true
  (λ _, mret sent_project) (Err []) (sample_peer "worker") sample_id sent_spec two_devices).

Lemma sample_ticks : ticks sample_time.
Proof. split; reflexivity. Qed.
Lemma daemon_ready : ready (H := ascii_case) abc_digest {[abc_digest]} ∅ ∅ (quiet empty_database (λ _, sample_time)) (daemon ∅).
Proof.
  split; [done|done|done|intros n; apply sample_ticks| |done].
  split; [apply map_Forall_empty|done|by intros k row Hk|vm_compute; lia|by intros r Hr].
Qed.
Lemma daemon_idle : idle (H := ascii_case) abc_chunks (daemon abc_chunks).
Proof. split; [split; [done|intros n; apply sample_ticks]|apply map_Forall_empty|done|split; [done|intros n; apply sample_ticks]]. Qed.
Lemma sent_snapshotted : snapshotted (H := ascii_case) sample_sha (λ _, 100%Z) abc_digest {[abc_digest]} abc_chunks fetched_manifest sent_message.
Proof.
  split.
  - split; [split; vm_compute; congruence|]. repeat constructor; vm_compute; congruence.
  - repeat constructor. exists (bytes_of "abc"). split_and!; vm_compute; reflexivity.
  - vm_compute. reflexivity.
  - vm_compute. reflexivity.
  - vm_compute. reflexivity.
Qed.

Lemma submission_delivered_witness :
  ∃ value t, sample_delivery.1 = Ok value ∧ JobState value = StateQueued ∧ w_db (h_spaces (of_net sample_delivery.2)) = {[ sample_id := t ]} ∧
    t !! ["out.txt"] = Some (Reg 420 (bytes_of "abc")).
Proof.
  pose proof (@submission_delivered ascii_case ascii_case_laws ascii_case_error (log_files no_logs) marking_zstd marking_laws sample_sha (λ _, eq_refl)
    (2 ^ 30) short "/var/state" idle_status sample_message (λ _, 100%Z) (Err []) abc_digest {[abc_digest]} "r" ltac:(discriminate)
    (quiet paired_peers (λ _, sample_time)) true (λ _, mret sent_project) (Err []) (2 ^ 30)
    abc_chunks abc_chunks ∅ ∅ (quiet empty_database (λ _, sample_time)) two_devices (sample_peer "worker") sample_id sample_id sent_spec sent_project
    sent_message "/var/state/jobs/7a338fa3-7ba4-4c54-bf59-da1161f6b76f/workspace" eq_refl) as Hs.
  destruct Hs as (Hr & (_ & t & HD & _ & Hf) & _).
  - split; [exact daemon_idle|reflexivity|exact daemon_ready].
  - intros h Hh. exact (conj Hh eq_refl).
  - exact sent_snapshotted.
  - split; [intros d data _ Hd; rewrite lookup_empty in Hd; discriminate|vm_compute; discriminate].
  - split; [done|exact paired_live|vm_compute; reflexivity|vm_compute; eexists; reflexivity|vm_compute; reflexivity].
  - vm_compute. reflexivity.
  - vm_compute. discriminate.
  - vm_compute. reflexivity.
  - left. reflexivity.
  - reflexivity.
  - vm_compute. reflexivity.
  - split; [done|vm_compute; reflexivity|reflexivity|reflexivity|reflexivity| |split_and!; done].
    split_and!; [done|done|repeat constructor|repeat constructor| |reflexivity].
    intros k v Hk. change (({["CI" := "1"]} : gmap string string) !! k = Some v) in Hk.
    apply lookup_singleton_Some in Hk as [<- <-]. split; reflexivity.
  - exact sample_ticks.
  - eexists _, t. split; [exact Hr|]. split; [reflexivity|]. split; [exact HD|].
    etransitivity; [exact (Hf (MkFile "out.txt" 420 3 [MkChunk abc_digest 3]) (list_elem_of_here _ _))|vm_compute; reflexivity].
Defined.
