(* ===== verification/CliText.v ===== *)
(** * The command line: texts

    What the command line uses of Go's [text/tabwriter], [time], [net] and [strconv]
    to print: columns aligned with two blanks, times in RFC 3339, addresses, and Go
    string literals.  Which runes beyond ASCII are printable is data of the Go
    distribution and enters as [UnicodePrint]. *)

From S2P Require Import Prelude GoText GoNumber.
From stdpp Require Import pretty.
From Stdlib Require Import Ascii.
Local Open Scope string_scope.
Local Open Scope nat_scope.
Local Open Scope list_scope.

Definition newline : ascii := byte_of 10.
Definition tab : ascii := byte_of 9.

(** [strings.Contains]. *)
Fixpoint contains_bytes (sub l : bytes) : bool :=
  list_prefix sub l || match l with [] => false | _ :: rest => contains_bytes sub rest end.
Definition Contains (s sub : string) : bool := contains_bytes (bytes_of sub) (bytes_of s).

(** [strings.Join]. *)
Fixpoint Strings_Join (l : list string) (sep : string) : string :=
  match l with [] => "" | [x] => x | x :: rest => x +:+ sep +:+ Strings_Join rest sep end.

Definition line (s : string) : string := s +:+ String newline "".
Definition columns (cells : list string) : string := line (Strings_Join cells (String tab "")).

(** ** text/tabwriter *)

(** [tabwriter.NewWriter(w, 0, 4, 2, ' ', 0)]: a cell ends at a tab, and consecutive
    lines that have a cell in a column align it to the widest of them and two blanks.
    Cells are measured in runes. *)
Definition cell_width (cell : bytes) : nat := length (runes cell).
Definition has_cell (column : nat) (cells : list bytes) : bool := column <? length cells - 1.

(** A line, with the widths of the columns it belongs to. *)
Fixpoint pad_cells (widths : list nat) (cells : list bytes) : bytes :=
  match cells, widths with
  | [], _ => []
  | cell :: rest, w :: widths => cell ++ repeat " "%char (w - cell_width cell) ++ pad_cells widths rest
  | cell :: rest, [] => cell ++ pad_cells [] rest
  end.

(** The first lines that have a cell in the column, and the others. *)
Fixpoint column_block (column : nat) (lines : list (list bytes)) : list (list bytes) * list (list bytes) :=
  match lines with
  | cells :: rest => if has_cell column cells then let '(a, b) := column_block column rest in (cells :: a, b) else ([], lines)
  | [] => ([], [])
  end.

Definition block_width (column : nat) (lines : list (list bytes)) : nat :=
  foldr (λ cells w, match cells !! column with Some cell => (cell_width cell + 2) `max` w | None => w end) 0 lines.

(** A call goes one column deeper or consumes a line. *)
Fixpoint format_lines (fuel : nat) (widths : list nat) (lines : list (list bytes)) : list bytes :=
  match fuel, lines with
  | S fuel, cells :: rest =>
      if has_cell (length widths) cells then
        let '(these, others) := column_block (length widths) lines in
        format_lines fuel (widths ++ [block_width (length widths) these]) these ++ format_lines fuel widths others
      else pad_cells widths cells :: format_lines fuel widths rest
  | _, _ => []
  end.

Definition Tabulate (text : string) : string :=
  let lines := map (split_bytes tab) (split_bytes newline (bytes_of text)) in
  let fuel := S (length lines + foldr (λ cells n, length cells `max` n) 0 lines) in
  str_of (join_bytes newline (format_lines fuel [] lines)).

(** ** time.RFC3339, in UTC *)

(** The proleptic Gregorian date of a day since 1970. *)
Definition civil (days : Z) : Z * Z * Z :=
  let z := (days + 719468)%Z in
  let era := (z / 146097)%Z in
  let doe := (z - era * 146097)%Z in
  let yoe := ((doe - doe / 1460 + doe / 36524 - doe / 146096) / 365)%Z in
  let doy := (doe - (365 * yoe + yoe / 4 - yoe / 100))%Z in
  let mp := ((5 * doy + 2) / 153)%Z in
  let d := (doy - (153 * mp + 2) / 5 + 1)%Z in
  let m := if (mp <? 10)%Z then (mp + 3)%Z else (mp - 9)%Z in
  ((yoe + era * 400 + (if (m <=? 2)%Z then 1 else 0))%Z, m, d).

(** A number of at least [width] digits. *)
Definition digits (width : nat) (n : Z) : string :=
  let s := Itoa n in str_of (repeat "0"%char (width - String.length s)) +:+ s.

Definition FormatRFC3339 (t : Z) : string :=
  let secs := (t / second)%Z in
  let '(y, m, d) := civil (secs / 86400) in
  let rest := (secs `mod` 86400)%Z in
  digits 4 y +:+ "-" +:+ digits 2 m +:+ "-" +:+ digits 2 d +:+ "T" +:+ digits 2 (rest / 3600) +:+ ":"
  +:+ digits 2 (rest `mod` 3600 / 60) +:+ ":" +:+ digits 2 (rest `mod` 60) +:+ "Z".

(** ** net.JoinHostPort *)

Definition JoinHostPort (host port : string) : string :=
  if contains_byte ":"%char host then "[" +:+ host +:+ "]:" +:+ port else host +:+ ":" +:+ port.

(** ** strconv.Quote *)

Class UnicodePrint := unicode_print : Z → bool.   (* [strconv.IsPrint], beyond ASCII *)

Section Quote.
Context `{UnicodePrint}.

Definition is_print (r : Z) : bool := if (r <? 128)%Z then (32 <=? r)%Z && (r <? 127)%Z else unicode_print r.

Definition hex_number (width : nat) (n : Z) : bytes := drop (16 - 2 * (width `div` 2)) (hex_encode (big_endian 8 n)).

Definition escape_rune (r : rune_at) : bytes :=
  let v := rune_value r in
  let backslash := byte_of 92 in
  let letter (c : ascii) := [backslash; c] in
  if negb (rune_valid r) then backslash :: "x"%char :: hex_encode (rune_bytes r)
  else if (v =? 34)%Z || (v =? 92)%Z then backslash :: rune_bytes r
  else if is_print v then rune_bytes r
  else if (v =? 7)%Z then letter "a"%char else if (v =? 8)%Z then letter "b"%char
  else if (v =? 12)%Z then letter "f"%char else if (v =? 10)%Z then letter "n"%char
  else if (v =? 13)%Z then letter "r"%char else if (v =? 9)%Z then letter "t"%char
  else if (v =? 11)%Z then letter "v"%char
  else if (v <? 32)%Z || (v =? 127)%Z then backslash :: "x"%char :: hex_number 2 v
  else if (v <? 0x10000)%Z then backslash :: "u"%char :: hex_number 4 v
  else backslash :: "U"%char :: hex_number 8 v.

Definition Quote (s : string) : string :=
  str_of (ascii_of_nat 34 :: concat (map escape_rune (runes (bytes_of s))) ++ [ascii_of_nat 34]).
End Quote.

Example date_1 : FormatRFC3339 (1700000000 * second)%Z = "2023-11-14T22:13:20Z".
Proof. by vm_compute. Qed.
Example date_2 : FormatRFC3339 (951782399 * second)%Z = "2000-02-28T23:59:59Z".
Proof. by vm_compute. Qed.
Example table_1 : Tabulate (columns ["ID"; "STATE"; "X"] +:+ columns ["1234"; "on"; "y"]) =
  line "ID    STATE  X" +:+ line "1234  on     y".
Proof. by vm_compute. Qed.

(** ** Every line is laid out *)

Abbreviation most_cells := (foldr (λ (cells : list bytes) n, length cells `max` n) 0).

Lemma block_split column lines : (column_block column lines).1 ++ (column_block column lines).2 = lines.
Proof.
  induction lines as [|cells rest IH]; [done|]. cbn [column_block]. destruct (has_cell column cells); [|done].
  destruct (column_block column rest) as [a b]. cbn in *. by rewrite IH.
Qed.

Lemma most_cells_app a b : most_cells (a ++ b) = most_cells a `max` most_cells b.
Proof. induction a as [|cells a IH]; [done|]. cbn [foldr app]. rewrite IH. lia. Qed.

Lemma format_lines_length fuel widths lines :
  length lines + (most_cells lines - length widths) < fuel → length (format_lines fuel widths lines) = length lines.
Proof.
  revert widths lines. induction fuel as [|fuel IH]; intros widths lines Hf; [lia|].
  destruct lines as [|cells rest]; [done|]. cbn [format_lines]. destruct (has_cell (length widths) cells) eqn:Hc.
  - pose proof (block_split (length widths) (cells :: rest)) as Hs. pose proof (most_cells_app (column_block (length widths) (cells :: rest)).1
      (column_block (length widths) (cells :: rest)).2) as Hm. rewrite Hs in Hm. apply (f_equal length) in Hs. rewrite length_app in Hs.
    assert (0 < length (column_block (length widths) (cells :: rest)).1) as Hpos.
    { cbn [column_block]. rewrite Hc. destruct (column_block (length widths) rest). cbn. lia. }
    apply Nat.ltb_lt in Hc. assert (length cells ≤ most_cells (cells :: rest)) by (cbn; lia).
    destruct (column_block (length widths) (cells :: rest)) as [these others]. cbn [fst snd] in *.
    rewrite length_app, !IH; rewrite ?length_app; cbn [length] in *; lia.
  - cbn [length foldr] in *. rewrite IH; lia.
Qed.

(** The fuel of [Tabulate] is enough: a table has a line for each line of the text. *)
Lemma tabulate_lines text :
  let lines := map (split_bytes tab) (split_bytes newline (bytes_of text)) in
  length (format_lines (S (length lines + most_cells lines)) [] lines) = length (split_bytes newline (bytes_of text)).
Proof. cbv zeta. rewrite format_lines_length; [by rewrite length_map|cbn; lia]. Qed.
