(* ===== verification/Machine.v ===== *)
(** * What the machine offers (internal/platform: capabilities, resources, processes/process.go; cmd/computehopd/main.go)

    Tools, processors, memory and executors of a worker, from what the operating system
    answers, and the report of them; the command of a native job with its environment. *)

From S2P Require Import Prelude GoText GoNumber PortablePath JobModel Effects JobStore Device Trust Remote Hosts Workspace Selection Container RemoteWorker CliText Delivery.
From Stdlib Require Import Ascii.
Local Open Scope string_scope.
Local Open Scope nat_scope.
Local Open Scope list_scope.

(** ** Tools *)

Definition toolCatalog : list (string * string) :=
  [("blender", "Blender"); ("bun", "Bun"); ("cargo", "Cargo"); ("cmake", "CMake"); ("docker", "Docker"); ("docker-compose", "Docker Compose");
   ("echo", "Echo"); ("ffmpeg", "FFmpeg"); ("git", "Git"); ("go", "Go"); ("hostname", "Hostname"); ("make", "Make"); ("mypy", "mypy");
   ("ninja", "Ninja"); ("node", "Node.js"); ("npm", "npm"); ("ollama", "Ollama"); ("pnpm", "pnpm"); ("podman", "Podman"); ("poetry", "Poetry");
   ("printf", "printf"); ("pytest", "pytest"); ("python", "Python"); ("python3", "Python 3"); ("ruff", "Ruff"); ("sh", "Shell"); ("sleep", "Sleep");
   ("swift", "Swift"); ("uv", "uv"); ("xcodebuild", "Xcode"); ("yarn", "Yarn")].

Definition CommonToolIDs : list string := toolCatalog.*1.

(** What the operating system says of a file. *)
Record FileInfo := MkInfo { fi_IsDir : bool; fi_Mode : Z }.

(** The machine: [runtime.GOOS] and [GOARCH], [exec.LookPath], [os.Stat], an environment
    variable, the paths of its file system, [runtime.NumCPU], [sysctl] of the memory size
    and [sysinfo] with the unit. *)
Record Machine := MkMachine {
  mc_GOOS : string; mc_GOARCH : string; mc_LookPath : string → bool; mc_Stat : string → option FileInfo; mc_ProgramFiles : string;
  mc_Join : string → string → string; mc_Clean : string → string;
  mc_NumCPU : Z; mc_memsize : option Z; mc_sysinfo : option (Z * Z) }.

Section Tools.
Context (m : Machine).
Definition windows : bool := bool_decide (mc_GOOS m = "windows").

(** [filepath.Ext] of a name without separators is empty. *)
Definition no_extension (name : string) : bool := negb (bool_decide ("."%char ∈ bytes_of name)).

Definition executableMode (mode : Z) : bool := windows || negb (Z.land mode 0x49 =? 0)%Z.

Definition executableInDirectory (directory name : string) : bool :=
  if bool_decide (trim_space directory = "") then false
  else existsb (λ candidate,
    match mc_Stat m (mc_Join m directory candidate) with Some info => negb (fi_IsDir info) && executableMode (fi_Mode info) | None => false end)
    (name :: (if windows && no_extension name then [name +:+ ".exe"; name +:+ ".bat"; name +:+ ".cmd"] else [])).

Fixpoint unique_loop (seen : list string) (values : list string) : list string :=
  match values with
  | [] => []
  | value :: rest =>
      let clean := mc_Clean m (trim_space value) in
      if bool_decide (clean = ".") || bool_decide (clean ∈ seen) then unique_loop seen rest else clean :: unique_loop (clean :: seen) rest
  end.
Definition uniqueDirectories (values : list string) : list string := unique_loop [] values.

Definition extraSearchDirectories : list string :=
  let join := fold_left (mc_Join m) in
  uniqueDirectories (["/opt/homebrew/bin"; "/usr/local/bin"; "/opt/local/bin"; "/usr/bin"; "/bin"]
    ++ (if windows && negb (bool_decide (mc_ProgramFiles m = "")) then
          [join ["Docker"; "Docker"; "resources"; "bin"] (mc_ProgramFiles m); join ["Git"; "cmd"] (mc_ProgramFiles m); join ["nodejs"] (mc_ProgramFiles m)]
        else [])).

Definition executableVisible (name : string) : bool :=
  mc_LookPath m name || existsb (λ directory, executableInDirectory directory name) extraSearchDirectories.

Definition detectedToolIDs : list string := merge_sort String.le (filter (λ id, executableVisible id = true) CommonToolIDs).

(** ** Resources *)

Definition totalMemoryBytes : Z :=
  if bool_decide (mc_GOOS m = "darwin") then default 0%Z (mc_memsize m)
  else if bool_decide (mc_GOOS m = "linux") then
    match mc_sysinfo m with None => 0%Z | Some (totalram, unit) => wrap_uint64 (totalram * (if (unit =? 0)%Z then 1 else unit)) end
  else 0%Z.

(** The number of processors and the memory. *)
Definition Static : Z * Z :=
  let count := if (mc_NumCPU m <? 0)%Z then 0%Z else mc_NumCPU m in
  let count := if (4096 <? count)%Z then 4096%Z else count in
  (count, totalMemoryBytes).
End Tools.

(** ** Names of tools *)

Section Labels.
Context `{UnicodeCase}.

Definition ToolLabel (id : string) : string :=
  let normalized := to_lower (trim_space id) in
  match list_find (λ d : string * string, d.1 = normalized) toolCatalog with
  | Some (_, d) => d.2
  | None => if bool_decide (normalized = "") then "unknown tool" else normalized
  end.

Definition ToolListLabel (ids : list string) : string :=
  let labels := omap (λ id, let normalized := trim_space id in if bool_decide (normalized = "") then None else Some (ToolLabel normalized)) ids in
  match reverse labels with
  | [] => "the needed tools"
  | [label] => label
  | [second; first] => first +:+ " and " +:+ second
  | last :: others => Strings_Join (reverse others) ", " +:+ ", and " +:+ last
  end.
Definition toolList (values : list string) : string := if bool_decide (values = []) then "the needed tools" else ToolListLabel values.
End Labels.

Example tool_names : ToolListLabel (H := ascii_case) ["go"; " "; "node"; "tsc"] = "Go, Node.js, and tsc" ∧ ToolListLabel (H := ascii_case) ["uv"; "go"] = "uv and Go".
Proof. by vm_compute. Qed.

(** ** Executors *)

(** [err != nil && !errors.Is(err, ErrContainerEngineUnavailable)] ends the daemon; without
    an engine there are native jobs only. *)
Definition defaultExecutorStarter {A} (native : A) (container : result (Starter A)) (includeContainers : bool) : result (ExecutorSet A) :=
  nativeStarter ← NewNativeExecutorStarter (Some native);
  if negb includeContainers then NewExecutorSet [Some nativeStarter]
  else match container with
  | Err err => if errors_is err WorkerErrContainerEngineUnavailable then NewExecutorSet [Some nativeStarter] else Err err
  | Ok containerStarter => NewExecutorSet [Some nativeStarter; Some containerStarter]
  end.

(** [NewContainerExecutorStarterFromEnv]: the client is made from the environment, then
    the engine is asked whether it is there. *)
Definition NewContainerExecutorStarterFromEnv {A} (client : result A) (ping : result unit) : result (Starter A) :=
  match client with
  | Err _ => Err [WorkerErrContainerEngineUnavailable]
  | Ok start => match ping with Err _ => Err [WorkerErrContainerEngineUnavailable] | Ok _ => Ok (MkStarter ["container"] start) end
  end.

(** The status a daemon reports, of [runWithDependencies]. *)
Definition executor_value (name : string) : Executor :=
  if bool_decide (name = "native") then ExecutorNative else if bool_decide (name = "container") then ExecutorContainer else ExecutorOther name.
Definition daemon_status {A} (m : Machine) (executors : ExecutorSet A) : Status :=
  MkStatus (mc_GOOS m) (mc_GOARCH m) (Static m).1 (Static m).2 (detectedToolIDs m) (executor_value <$> es_supported executors).

(** ** Native commands (process.go) *)

Fixpoint merge_environ (entries : list string) (merged : gmap string string) : gmap string string :=
  match entries with
  | [] => merged
  | entry :: rest =>
      merge_environ rest (match cut_bytes "="%char (bytes_of entry) with Some (name, value) => <[str_of name := str_of value]> merged | None => merged end)
  end.

(** The daemon's environment with the job's values over it, by name. *)
Definition environment (environ : list string) (values : gmap string string) : list string :=
  let merged := values ∪ merge_environ environ ∅ in
  (λ name, name +:+ "=" +:+ default "" (merged !! name)) <$> merge_sort String.le ((map_to_list merged).*1).

Record Command := MkCommand { cmd_Path : string; cmd_Args : list string; cmd_Dir : string; cmd_Env : list string }.

(** What becomes of the root process. *)
Inductive Started := Runs (c : Command) | Refused (e : list sentinel) | KilledAndReaped (c : Command) (e : list sentinel).

Section Native.
Context `{UnicodeCase}.

Definition native_Start (environ : list string) (start control : Command → result unit) (spec : Spec) : Started :=
  match Spec_Validate spec with
  | Err e => Refused e
  | Ok _ =>
      if negb (bool_decide (SpecExecutor spec = ExecutorNative)) then Refused [JobErrInvalidSpec]
      else
        let command := MkCommand (Executable spec) (Arguments_ spec) (WorkingDirectory spec) (environment environ (Environment spec)) in
        match start command with
        | Err e => Refused e
        | Ok _ => match control command with Err e => KilledAndReaped command e | Ok _ => Runs command end
        end
  end.
End Native.

(** ** Reports are accepted *)

(** Ascending names that are hints. *)
Definition tool_name (value : string) : bool := hint_ok value && negb (64 <? String.length value) && negb (bool_decide (value = "")).

Lemma filtered_loop (f : string → bool) l previous : StronglySorted (λ a b, str_leb b a = false) (previous :: l) → Forall (λ v, tool_name v = true) l →
  tools_loop previous (filter (λ v, f v = true) l) = true.
Proof.
  revert previous. induction l as [|v l IH]; intros previous Hs Hn; [done|]. apply StronglySorted_inv in Hs as [Hs [Hv Hp]%Forall_cons].
  apply Forall_cons in Hn as [Hname Hn]. unfold tool_name in Hname. apply andb_true_iff in Hname as [[H1 H2]%andb_true_iff H3]. rewrite filter_cons. destruct (decide (f v = true)).
  - cbn [tools_loop]. rewrite H1, Hv, (proj1 (negb_true_iff _) H2), (proj1 (negb_true_iff _) H3). by apply IH.
  - apply IH; [|done]. apply StronglySorted_inv in Hs as [Hs _]. by constructor.
Qed.

Lemma loop_sorted l previous : tools_loop previous l = true →
  StronglySorted String.le l ∧ Forall (String.le previous) l ∧ is_sorted l = true ∧ status_tools_loop previous l = true.
Proof.
  revert previous. induction l as [|v l IH]; intros previous Hl; [by repeat constructor|]. cbn [tools_loop] in Hl.
  destruct (_ || _) eqn:E in Hl; [done|]. rewrite !orb_false_iff, negb_false_iff in E. destruct E as [[[H1 H2] H3] H4].
  destruct (IH v Hl) as (Hs & Hf & Hi & Hst). assert (String.le previous v) as Hle by (apply str_leb_le; destruct (str_leb_total v previous); congruence).
  split_and!.
  - by constructor.
  - constructor; [done|]. eapply Forall_impl; [exact Hf|]. intros x. by transitivity v.
  - destruct l as [|w l]; [done|]. change (is_sorted (v :: w :: l)) with (negb (str_ltb w v) && is_sorted (w :: l)). rewrite Hi, andb_true_r, str_ltb_leb, negb_involutive. apply str_leb_le. by apply Forall_cons in Hf as [? _].
  - cbn [status_tools_loop]. unfold validateStatusHint. rewrite H1, H3, bool_decide_false, Hst; [done|]. intros ->. by rewrite str_leb_refl in H4.
Qed.

Lemma tools_detected m : validateToolIDs (detectedToolIDs m) = true ∧ validateStatusToolIDs (detectedToolIDs m) = true ∧
  ∀ tool, tool ∈ detectedToolIDs m ↔ tool ∈ CommonToolIDs ∧ executableVisible m tool = true.
Proof.
  assert (tools_loop "" (filter (λ id, executableVisible m id = true) CommonToolIDs) = true) as Hl.
  { apply filtered_loop; [|by repeat constructor]. unfold CommonToolIDs. cbn [toolCatalog fmap list_fmap fst]. repeat constructor. }
  destruct (loop_sorted _ _ Hl) as (Hs & _ & Hi & Hst). unfold detectedToolIDs.
  assert (merge_sort String.le (filter (λ id, executableVisible m id = true) CommonToolIDs) = filter (λ id, executableVisible m id = true) CommonToolIDs) as ->.
  { apply (Sorted_unique String.le); [apply (Sorted_merge_sort _)|by apply StronglySorted_Sorted|apply merge_sort_Permutation]. }
  assert (length (filter (λ id, executableVisible m id = true) CommonToolIDs) ≤ 31) as Hn by (apply (length_filter _ CommonToolIDs)).
  unfold validateToolIDs, validateStatusToolIDs. rewrite Hl, Hi, Hst, (proj2 (Nat.ltb_ge _ _)) by lia. split_and!; [done..|]. intros tool. rewrite list_elem_of_filter. naive_solver.
Qed.

(** [runtime.GOOS] and [runtime.GOARCH] are short names in lower case. *)
Definition platform_name (value : string) : Prop := hint_ok value = true ∧ value ≠ "".

(** What the orchestrator makes of a status. *)
Definition reported_hints (status : WorkerStatusResult) (at_ : Z) : PeerHints :=
  MkPeerHints (ws_platform status) (ws_arch status) (ws_logical_cpu_count status) (ws_total_memory_bytes status)
    (ws_tool_ids status) (supportedExecutorsFromRemoteProto (ws_supported_executors status)) at_.

(** Containers are offered when the engine answers. *)
Definition engine_ready {A} (client : result A) (ping : result unit) : bool := negb (failed client) && negb (failed ping).

Lemma executors_chosen {A} (native : A) client ping :
  ∃ set, defaultExecutorStarter native (NewContainerExecutorStarterFromEnv client ping) true = Ok set ∧
    es_supported set = if engine_ready client ping then ["container"; "native"] else ["native"].
Proof. destruct client as [start|], ping as [[]|]; by eexists. Qed.

Lemma static_bounded m : (0 ≤ (Static m).1 ≤ 4096)%Z.
Proof. unfold Static. cbn [fst]. destruct (mc_NumCPU m <? 0)%Z eqn:E; [by cbn|]. destruct (4096 <? mc_NumCPU m)%Z eqn:E2; lia. Qed.

(** A worker's report of itself is always accepted. Whatever machine it runs on, with
    any tools, any number of processors and with or without a container engine, the daemon
    finds its executors, its remote handler answers a request for its status, and what the
    orchestrator makes of the answer is valid: it names exactly the known tools that are
    visible, at most 4096 processors, native jobs, and containers if and only if the engine
    answered. *)
Theorem worker_reports {A} (m : Machine) (native : A) client ping at_ (h : Host) :
  platform_name (mc_GOOS m) → platform_name (mc_GOARCH m) → is_zero_time at_ = false →
  ∃ set reported, defaultExecutorStarter native (NewContainerExecutorStarterFromEnv client ping) true = Ok set ∧
    getWorkerStatus (daemon_status m set) (Some tt) h = (Ok (result_response (RResGetWorkerStatus (Some reported))), h) ∧
    let hints := reported_hints reported at_ in
    Hints_Validate hints = Ok tt ∧ hint_Platform hints = mc_GOOS m ∧ hint_Architecture hints = mc_GOARCH m ∧
    (∀ tool, tool ∈ hint_ToolIDs hints ↔ tool ∈ CommonToolIDs ∧ executableVisible m tool = true) ∧
    (0 ≤ hint_LogicalCPUCount hints ≤ 4096)%Z ∧
    hint_SupportedExecutors hints = (if engine_ready client ping then ["container"; "native"] else ["native"]).
Proof.
  intros [Ho Hon] [Ha Han] Hat. destruct (executors_chosen native client ping) as (set & Hset & Hsup).
  destruct (tools_detected m) as (Ht & Hst & Htools). pose proof (static_bounded m) as Hcpu.
  assert (Status_Validate (daemon_status m set) = Ok tt) as Hv.
  { unfold Status_Validate, validateStatusHint.
    cbn [daemon_status StatusPlatform StatusArchitecture StatusLogicalCPUCount StatusTotalMemoryBytes StatusToolIDs StatusSupportedExecutors].
    rewrite bool_decide_false by done. cbn [andb reject_if mbind result_bind]. rewrite Ho, Ha, Hst, (proj2 (Z.ltb_ge _ _)) by lia.
    rewrite Hsup. destruct (engine_ready client ping); by vm_compute. }
  eexists set, _. split; [done|]. split; [unfold getWorkerStatus; rewrite Hv; reflexivity|].
  cbv zeta. cbn [reported_hints hint_Platform hint_Architecture hint_ToolIDs hint_LogicalCPUCount hint_SupportedExecutors ws_platform ws_arch ws_tool_ids
    ws_logical_cpu_count ws_supported_executors daemon_status StatusPlatform StatusArchitecture StatusLogicalCPUCount StatusToolIDs StatusSupportedExecutors].
  assert (supportedExecutorsFromRemoteProto (supportedExecutorsToRemoteProto (executor_value <$> es_supported set)) =
    if engine_ready client ping then ["container"; "native"] else ["native"]) as Hex by (rewrite Hsup; destruct (engine_ready client ping); by vm_compute).
  split_and!; [|done..|exact Htools|lia|lia|exact Hex]. unfold Hints_Validate, reported_hints.
  cbn [hint_ObservedAt hint_Platform hint_Architecture hint_ToolIDs hint_LogicalCPUCount hint_SupportedExecutors
    ws_platform ws_arch ws_tool_ids ws_logical_cpu_count ws_supported_executors].
  rewrite Hat, Ho, Ha, Ht, Hex, (proj2 (Z.ltb_ge _ _)) by lia. destruct (engine_ready client ping); by vm_compute.
Qed.

(** A machine with Go and Git, five thousand processors and no engine. *)
Definition demo_machine : Machine :=
  MkMachine "linux" "amd64" (λ name, bool_decide (name = "git")) (λ path, if bool_decide (path = "/usr/local/bin/go") then Some (MkInfo false 0x1ed) else None)
    "" (λ a b, a +:+ "/" +:+ b) (λ a, a) 5000 None (Some (1024, 0)%Z).

Lemma worker_reports_witness : detectedToolIDs demo_machine = ["git"; "go"] ∧
  ∃ set reported, defaultExecutorStarter 0 (NewContainerExecutorStarterFromEnv (Err [DriverError]) (Ok tt)) true = Ok set ∧
    getWorkerStatus (daemon_status demo_machine set) (Some tt) (daemon ∅)
      = (Ok (result_response (RResGetWorkerStatus (Some reported))), daemon ∅) ∧
    hint_SupportedExecutors (reported_hints reported sample_time) = ["native"].
Proof.
  split; [by vm_compute|].
  destruct (worker_reports demo_machine 0 (Err [DriverError]) (Ok tt) sample_time (daemon ∅)) as (set & reported & Hset & Hget & H);
    [by split; vm_compute..|by vm_compute|]. exists set, reported. split; [exact Hset|]. split; [exact Hget|apply H].
Defined.

(** ** The environment of a job *)

Lemma environment_entries environ values entry :
  entry ∈ environment environ values ↔ ∃ name value, entry = (name +:+ "=" +:+ value)%string ∧ (values ∪ merge_environ environ ∅) !! name = Some value.
Proof.
  unfold environment. rewrite list_elem_of_fmap. set (merged := values ∪ _). split.
  - intros (name & -> & Hin). rewrite merge_sort_Permutation, list_elem_of_fmap in Hin. destruct Hin as ([k v] & -> & Hkv%elem_of_map_to_list). cbn [fst].
    exists k, v. by rewrite Hkv.
  - intros (name & value & -> & Hv). exists name. split; [by rewrite Hv|]. rewrite merge_sort_Permutation, list_elem_of_fmap. exists (name, value).
    by rewrite elem_of_map_to_list.
Qed.

(** The job's own variables are there as it set them. *)
Lemma environment_job environ values name value : values !! name = Some value → (name +:+ "=" +:+ value)%string ∈ environment environ values.
Proof. intros Hv. apply environment_entries. exists name, value. split; [done|]. by apply lookup_union_Some_l. Qed.
