(* ===== verification/Setup.v ===== *)
(** * The command line: setup (cmd/computehop/root.go)

    The options of the setup commands, their validation, and the shell commands that
    are printed for the user to run.  [sh_words] is how a POSIX shell reads a simple
    command (Shell Command Language, sections 2.2 and 2.3), [ps_string] how
    PowerShell reads a verbatim string: they are the specification of the quoting.
    The parser of byte sizes works on floating-point numbers and is a parameter. *)

From S2P Require Import Prelude GoText Device.
From Stdlib Require Import Ascii.
Local Open Scope string_scope.
Local Open Scope nat_scope.
Local Open Scope list_scope.

(** ** Quoting *)

Definition sq : ascii := "'"%char.
Definition dq : ascii := ascii_of_nat 34.

(** The characters that make [shellArg] quote: blank, tab, newline, quotes, backslash
    and the rest of the list. *)
Definition shell_special : bytes :=
  [" "%char; byte_of 9; byte_of 10; sq; dq; byte_of 92] ++ bytes_of "$`!*?[]{}()<>|&;".

(** [strings.ReplaceAll] of a single quote. *)
Definition replace_quote (by_ : bytes) (l : bytes) : bytes := concat (map (λ c, if bool_decide (c = sq) then by_ else [c]) l).

Definition shellArg (value : string) : string :=
  if bool_decide (value = "") then str_of [sq; sq]
  else if negb (contains_any value shell_special) then value
  else str_of (sq :: replace_quote [sq; dq; sq; dq; sq] (bytes_of value) ++ [sq]).

Definition powershellArg (value : string) : string :=
  str_of (sq :: replace_quote [sq; sq] (bytes_of value) ++ [sq]).

Definition join_blank (l : list string) : string := str_of (join_bytes " "%char (map bytes_of l)).

Definition shellArgs (values : list string) : string := join_blank (map shellArg values).

Definition powershellOptionArgs (values : list string) : string :=
  join_blank (map (λ value, if has_prefix value "-" && negb (bool_decide (value = "-")) then value else powershellArg value) values).

Definition appendCommandArgs (command encodedArgs : string) : string :=
  if bool_decide (trim_space encodedArgs = "") then command else command +:+ " " +:+ encodedArgs.

(** ** Options *)

Record Hosted := MkHosted {
  ho_lanOnly : bool; ho_connectivityDomain : string; ho_turnDomain : string; ho_turnServer : string;
  ho_turnUsername : string; ho_turnPassword : string }.

Definition blank (s : string) : bool := bool_decide (s = "").

Definition validateSetupConnectivity (o : Hosted) : result unit :=
  let connectivityDomain := trim_space (ho_connectivityDomain o) in
  let turnDomain := trim_space (ho_turnDomain o) in
  let turnServer := trim_space (ho_turnServer o) in
  let turnUsername := trim_space (ho_turnUsername o) in
  let turnPassword := trim_space (ho_turnPassword o) in
  let turn := negb (blank turnDomain) || negb (blank turnServer) || negb (blank turnUsername) || negb (blank turnPassword) in
  _ ← reject_if (ho_lanOnly o && (negb (blank connectivityDomain) || turn)) [AnonymousError];
  _ ← reject_if (blank connectivityDomain && turn) [AnonymousError];
  _ ← reject_if (negb (blank connectivityDomain) && blank turnDomain && blank turnServer) [AnonymousError];
  _ ← reject_if (negb (blank turnServer) && negb (has_prefix turnServer "turn:") && negb (has_prefix turnServer "turns:")) [AnonymousError];
  _ ← reject_if (negb (blank turnServer) && (blank turnUsername || blank turnPassword)) [AnonymousError];
  reject_if (blank turnServer && (negb (blank turnUsername) || negb (blank turnPassword))) [AnonymousError].

Record macSetupOptions := MkMac {
  ma_role : string; ma_deviceName : string; ma_cacheSize : string; ma_hosted : Hosted;
  ma_customizeBase : list string; ma_includeRoleInCustomize : bool }.

Definition validate_mac (validateSetupCacheSize : string → result unit) (o : macSetupOptions) : result unit :=
  _ ← reject_if (negb (known_role (trim_space (ma_role o)))) [AnonymousError];
  _ ← validateSetupConnectivity (ma_hosted o);
  if blank (trim_space (ma_cacheSize o)) then Ok tt else validateSetupCacheSize (ma_cacheSize o).

Record workerPackageSetupOptions := MkPackage { wp_deviceName : string; wp_target : string; wp_hosted : Hosted }.

Definition validate_package `{UnicodeCase} (o : workerPackageSetupOptions) : result unit :=
  _ ← reject_if (negb (bool_decide (to_lower (trim_space (wp_target o)) ∈ ["all"; "linux"; "windows"]))) [AnonymousError];
  validateSetupConnectivity (wp_hosted o).

(** The arguments for the hosted service, with the names of the flags. *)
Definition hosted_args (lan url stun turn username password : string) (o : Hosted) : list string :=
  let stunURL := "stun:" +:+ trim_space (ho_turnDomain o) +:+ ":3478" in
  if ho_lanOnly o || blank (trim_space (ho_connectivityDomain o)) then [lan]
  else [url; "https://" +:+ trim_space (ho_connectivityDomain o)]
    ++ (if blank (trim_space (ho_turnDomain o)) then [] else [stun; stunURL])
    ++ (if blank (trim_space (ho_turnServer o)) then []
        else [turn; trim_space (ho_turnServer o); username; trim_space (ho_turnUsername o); password; trim_space (ho_turnPassword o)]).

Definition workerPackageDaemonArgs : Hosted → list string :=
  hosted_args "--lan-only" "--connectivity-url" "--stun-server" "--turn-server" "--turn-username" "--turn-password".
Definition workerPackagePowerShellArgs : Hosted → list string :=
  hosted_args "-LanOnly" "-ConnectivityUrl" "-StunServer" "-TurnServer" "-TurnUsername" "-TurnPassword".

(** ** Printed commands *)

Definition exampleWorkerDeviceName : string := "Gaming PC".

(** The flags of a domain, for the installer and for the setup commands. *)
Definition domain_parts (url stun : string) (domain stunDomain : string) (o : Hosted) : list string :=
  if blank (trim_space (ho_connectivityDomain o)) then []
  else [url; domain] ++ (if blank (trim_space (ho_turnDomain o)) then [] else [stun; stunDomain])
    ++ (if blank (trim_space (ho_turnServer o)) then []
        else ["--turn-server"; trim_space (ho_turnServer o); "--turn-username"; trim_space (ho_turnUsername o);
              "--turn-password"; trim_space (ho_turnPassword o)]).

(** The words of the installation command; [None] is [make install-macos]. *)
Definition install_parts (o : macSetupOptions) : option (list string) :=
  let h := ma_hosted o in
  let role := trim_space (ma_role o) in
  let deviceName := trim_space (ma_deviceName o) in
  if bool_decide (role = RoleOrchestrator) && blank deviceName && blank (trim_space (ma_cacheSize o)) && negb (ho_lanOnly h)
     && blank (trim_space (ho_connectivityDomain h)) then None
  else Some (["./packaging/macos/install.sh"; "--role"; role]
    ++ (if negb (blank deviceName) then ["--device-name"; deviceName]
        else if bool_decide (role = RoleWorker) then ["--device-name"; exampleWorkerDeviceName] else [])
    ++ (if blank (trim_space (ma_cacheSize o)) then [] else ["--cache-size"; ma_cacheSize o])
    ++ (if ho_lanOnly h then ["--lan-only"] else [])
    ++ domain_parts "--connectivity-url" "--stun-server" ("https://" +:+ trim_space (ho_connectivityDomain h))
         ("stun:" +:+ trim_space (ho_turnDomain h) +:+ ":3478") h).

Definition installCommand (o : macSetupOptions) : string :=
  match install_parts o with None => "make install-macos" | Some parts => shellArgs parts end.

(** [strings.TrimPrefix] of the installer's name. *)
Definition installCheckCommand (o : macSetupOptions) : string :=
  let command := installCommand o in
  let installer := "./packaging/macos/install.sh" in
  if bool_decide (command = "make install-macos") then "make install-macos-check"
  else if has_prefix command (installer +:+ " ")
       then installer +:+ " --check" +:+ str_of (drop (String.length installer) (bytes_of command))
  else command.

Definition customize_parts (o : macSetupOptions) : list string :=
  let h := ma_hosted o in
  let role := if blank (trim_space (ma_role o)) then RoleOrchestrator else trim_space (ma_role o) in
  let deviceName := trim_space (ma_deviceName o) in
  let deviceName := if blank deviceName && bool_decide (role = RoleWorker) then exampleWorkerDeviceName else deviceName in
  (if bool_decide (ma_customizeBase o = []) then ["computehop"; "setup"; "mac"] else ma_customizeBase o)
  ++ (if ma_includeRoleInCustomize o then ["--role"; role] else [])
  ++ (if blank deviceName then [] else ["--device-name"; deviceName])
  ++ (if blank (trim_space (ma_cacheSize o)) then [] else ["--cache-size"; ma_cacheSize o])
  ++ (if ho_lanOnly h then ["--lan-only"] else [])
  ++ domain_parts "--connectivity-domain" "--turn-domain" (trim_space (ho_connectivityDomain h)) (trim_space (ho_turnDomain h)) h.

Definition customizeCommand (o : macSetupOptions) : string := shellArgs (customize_parts o).

Record vpsSetupOptions := MkVPS { vp_connectivityDomain : string; vp_turnDomain : string; vp_email : string; vp_publicIP : string }.

Definition initCommandWithExecutable (o : vpsSetupOptions) (executable : string) : string :=
  executable +:+ " --connectivity-domain " +:+ shellArg (vp_connectivityDomain o) +:+ " --turn-domain " +:+ shellArg (vp_turnDomain o)
  +:+ " --email " +:+ shellArg (vp_email o) +:+ " --public-ip " +:+ shellArg (vp_publicIP o).
Definition rootInitCommand (o : vpsSetupOptions) : string := initCommandWithExecutable o "./deploy/vps/init.sh".
Definition orchestratorInstallCommand (o : vpsSetupOptions) : string :=
  "./packaging/macos/install.sh --role orchestrator --connectivity-url " +:+ shellArg ("https://" +:+ vp_connectivityDomain o)
  +:+ " --stun-server " +:+ shellArg ("stun:" +:+ vp_turnDomain o +:+ ":3478").
Definition workerInstallCommand (o : vpsSetupOptions) : string :=
  "./packaging/macos/install.sh --role worker --device-name " +:+ shellArg exampleWorkerDeviceName +:+ " --connectivity-url "
  +:+ shellArg ("https://" +:+ vp_connectivityDomain o) +:+ " --stun-server " +:+ shellArg ("stun:" +:+ vp_turnDomain o +:+ ":3478").

Definition vps_hosted (o : vpsSetupOptions) : Hosted := MkHosted false (vp_connectivityDomain o) (vp_turnDomain o) "" "" "".
Definition orchestratorSetupCommand (o : vpsSetupOptions) : string :=
  customizeCommand (MkMac RoleOrchestrator "" "" (vps_hosted o) ["computehop"; "setup"; "orchestrator"] false).
Definition workerSetupCommand (o : vpsSetupOptions) : string :=
  customizeCommand (MkMac RoleWorker exampleWorkerDeviceName "" (vps_hosted o) ["computehop"; "setup"; "worker"] false).

Definition no_host : Hosted := MkHosted false "" "" "" "" "".
Definition exampleSetupCommand (role : string) : string :=
  customizeCommand (MkMac role (if bool_decide (role = RoleWorker) then exampleWorkerDeviceName else "") "" no_host
    ["computehop"; "setup"; role] false).

(** ** How the shells read a command *)

Inductive mode := Between | Unquoted | Single | Double.

(** The words of a simple command; [None] if the shell would do anything else with the
    text than split it at blanks and remove quotes.  A hash sign that begins a word
    begins a comment, and a tilde that begins one is expanded. *)
Fixpoint sh_read (m : mode) (word : bytes) (l : bytes) : option (list bytes) :=
  match l with
  | [] => match m with Between => Some [] | Unquoted => Some [word] | _ => None end
  | c :: rest =>
      match m with
      | Single => if bool_decide (c = sq) then sh_read Unquoted word rest else sh_read Single (word ++ [c]) rest
      | Double => if bool_decide (c = dq) then sh_read Unquoted word rest
                  else if bool_decide (c ∈ byte_of 92 :: bytes_of "$`!") then None else sh_read Double (word ++ [c]) rest
      | Between =>
          if bool_decide (c = " "%char) || bool_decide (c = byte_of 9) then sh_read Between [] rest
          else if bool_decide (c = "#"%char) then Some []
          else if bool_decide (c = "~"%char) then None
          else if bool_decide (c = sq) then sh_read Single [] rest
          else if bool_decide (c = dq) then sh_read Double [] rest
          else if bool_decide (c ∈ shell_special) then None
          else sh_read Unquoted [c] rest
      | Unquoted =>
          if bool_decide (c = " "%char) || bool_decide (c = byte_of 9) then words ← sh_read Between [] rest; Some (word :: words)
          else if bool_decide (c = sq) then sh_read Single word rest
          else if bool_decide (c = dq) then sh_read Double word rest
          else if bool_decide (c ∈ shell_special) then None
          else sh_read Unquoted (word ++ [c]) rest
      end
  end.
Definition sh_words (command : string) : option (list string) := map str_of <$> sh_read Between [] (bytes_of command).

(** A value that [shellArg] leaves as it is must not begin with a hash sign or a tilde. *)
Definition shell_safe (value : string) : bool :=
  contains_any value shell_special || negb (has_prefix value "#" || has_prefix value "~").

Definition quote_runes : list Z := [39; 0x2018; 0x2019; 0x201A; 0x201B]%Z.
Definition is_quote (r : rune_at) : bool := bool_decide (rune_value r ∈ quote_runes).

(** A verbatim string of PowerShell: any of its five single quotation marks opens it, one
    of them ends it, and two of them stand for the second. *)
Fixpoint ps_body (l : list rune_at) : option bytes :=
  match l with
  | [] => None
  | [r] => if is_quote r then Some [] else None
  | r :: ((r' :: rest) as tail) =>
      if is_quote r then (if is_quote r' then body ← ps_body rest; Some (rune_bytes r' ++ body) else None)
      else body ← ps_body tail; Some (rune_bytes r ++ body)
  end.
Definition ps_string (text : string) : option string :=
  match runes (bytes_of text) with r :: rest => if is_quote r then str_of <$> ps_body rest else None | [] => None end.

(** ** Lemmas *)

Lemma special_any value : contains_any value shell_special = false → Forall (λ c, c ∉ shell_special) (bytes_of value).
Proof.
  unfold contains_any. intros Hc. apply Forall_forall. intros c Hin Hs. rewrite <-not_true_iff_false, existsb_exists in Hc.
  apply Hc. exists c. split; [by apply list_elem_of_In|]. by apply bool_decide_true.
Qed.

Lemma plain_special c : c ∉ shell_special →
  (bool_decide (c = " "%char) || bool_decide (c = byte_of 9) = false) ∧ bool_decide (c = sq) = false
  ∧ bool_decide (c = dq) = false ∧ bool_decide (c ∈ shell_special) = false.
Proof.
  intros Hc. assert (∀ d, d ∈ shell_special → bool_decide (c = d) = false) as Hd by (intros d Hd; apply bool_decide_false; by intros ->).
  rewrite !Hd by (apply (bool_decide_unpack _); by vm_compute). by rewrite bool_decide_false.
Qed.

Lemma sh_plain word l rest : Forall (λ c, c ∉ shell_special) l → sh_read Unquoted word (l ++ rest) = sh_read Unquoted (word ++ l) rest.
Proof.
  intros Hl. revert word. induction Hl as [|c l Hc _ IH]; intros word; [by rewrite app_nil_r|].
  cbn [app sh_read]. destruct (plain_special c Hc) as (-> & -> & -> & ->). by rewrite IH, <-app_assoc.
Qed.

Lemma replace_quote_cons by_ c l :
  replace_quote by_ (c :: l) = (if bool_decide (c = sq) then by_ else [c]) ++ replace_quote by_ l.
Proof. done. Qed.

Lemma sh_quoted word l rest : sh_read Single word (replace_quote [sq; dq; sq; dq; sq] l ++ sq :: rest) = sh_read Unquoted (word ++ l) rest.
Proof.
  revert word. induction l as [|c l IH]; intros word; [by rewrite app_nil_r|].
  rewrite replace_quote_cons, <-app_assoc. case_bool_decide as Hc.
  - subst c. transitivity (sh_read Single (word ++ [sq]) (replace_quote [sq; dq; sq; dq; sq] l ++ sq :: rest)); [reflexivity|].
    by rewrite IH, <-app_assoc.
  - cbn [app sh_read]. rewrite (bool_decide_false (c = sq)) by done. by rewrite IH, <-app_assoc.
Qed.

(** The shell reads a quoted argument as the argument. *)
Lemma sh_arg value rest : shell_safe value = true →
  sh_read Between [] (bytes_of (shellArg value) ++ rest) = sh_read Unquoted (bytes_of value) rest.
Proof.
  unfold shell_safe, shellArg. intros Hs. case_bool_decide as He; [subst; by vm_compute|].
  destruct (contains_any value shell_special) eqn:Hc; cbn [negb].
  - rewrite String.list_ascii_of_string_of_list_ascii. cbn [app]. rewrite <-app_assoc. apply (sh_quoted []).
  - apply special_any in Hc. destruct value as [|c value]; [done|]. cbn [String.list_ascii_of_string app] in *.
    inversion_clear Hc as [|?? Hp Hl]. cbn in Hs. rewrite !andb_true_r in Hs.
    cbn [sh_read]. destruct (plain_special c Hp) as (-> & -> & -> & ->).
    rewrite negb_true_iff, orb_false_iff, !bool_decide_eq_false in Hs. destruct Hs as [H1 H2].
    rewrite !bool_decide_false by congruence. apply (sh_plain [c]), Hl.
Qed.

(** ... one after another, so that a printed command passes its values unchanged. *)
Lemma sh_args values : Forall (λ v, shell_safe v = true) values →
  sh_read Between [] (join_bytes " "%char (map bytes_of (map shellArg values))) = Some (map bytes_of values).
Proof.
  induction 1 as [|v values Hv _ IH]; [done|]. destruct values as [|w values].
  - cbn [map join_bytes]. rewrite <-(app_nil_r (bytes_of (shellArg v))). by rewrite sh_arg.
  - change (join_bytes _ _) with (bytes_of (shellArg v) ++ " "%char :: join_bytes " "%char (map bytes_of (map shellArg (w :: values)))).
    rewrite sh_arg by done. cbn [sh_read]. rewrite bool_decide_true by done. cbn [orb]. by rewrite IH.
Qed.

(** ** PowerShell *)

Lemma valid_rune_high b rest : rune_valid (decode_rune b rest) = true → (128 ≤ val b)%Z → (128 ≤ rune_value (decode_rune b rest))%Z.
Proof.
  unfold decode_rune, two, three, lead3, lead4, in_range, continuation.
  destruct (val b <? 0x80)%Z eqn:E; [by cbn|]. intros Hv Hb. revert Hv.
  destruct rest as [|b1 [|b2 [|b3 rest]]]; try discriminate;
    repeat match goal with |- context [if ?c then _ else _] => destruct c eqn:? end;
    try discriminate; intros _; cbn [rune_value];
    repeat match goal with H : context [if ?c then _ else _] |- _ => destruct c eqn:? end;
    rewrite ?andb_true_iff, ?Z.leb_le, ?Z.eqb_eq, ?Z.eqb_neq in *; lia.
Qed.

Definition plain_quotes (value : string) : bool :=
  utf8_valid value && forallb (λ r, negb (bool_decide (rune_value r ∈ [0x2018; 0x2019; 0x201A; 0x201B]%Z))) (runes (bytes_of value)).

Lemma replace_quote_other by_ t k : Forall (λ c, (128 ≤ val c)%Z) t → replace_quote by_ (t ++ k) = t ++ replace_quote by_ k.
Proof.
  induction 1 as [|c t Hc _ IH]; [done|]. cbn [app]. rewrite replace_quote_cons, IH.
  rewrite bool_decide_false; [done|]. intros ->. by vm_compute in Hc.
Qed.

Lemma not_quote b rest : b ≠ sq → rune_valid (decode_rune b rest) = true →
  negb (bool_decide (rune_value (decode_rune b rest) ∈ [0x2018; 0x2019; 0x201A; 0x201B]%Z)) = true →
  is_quote (decode_rune b rest) = false.
Proof.
  unfold is_quote, quote_runes. intros Hb Hv Hq. rewrite negb_true_iff, bool_decide_eq_false in Hq. apply bool_decide_false.
  rewrite elem_of_cons. intros [H|H]; [|done].
  destruct (Z.lt_ge_cases (val b) 128) as [Hl|Hl]; [|pose proof (valid_rune_high b rest Hv Hl); lia].
  unfold decode_rune in H. rewrite (proj2 (Z.ltb_lt _ _)) in H by done. apply Hb. cbn in H. by rewrite <-(byte_of_val b), H.
Qed.

Definition quote_rune : rune_at := RuneAt 39 [sq] true.
Lemma runes_quote k : runes (sq :: k) = quote_rune :: runes k.
Proof. by apply (runes_valid_cons sq []). Qed.

Lemma ps_body_other r r' rest : is_quote r = false →
  ps_body (r :: r' :: rest) = (body ← ps_body (r' :: rest); Some (rune_bytes r ++ body)).
Proof. intros H. cbn [ps_body]. by rewrite H. Qed.

Lemma ps_arg n l : length l ≤ n → forallb rune_valid (runes l) = true →
  forallb (λ r, negb (bool_decide (rune_value r ∈ [0x2018; 0x2019; 0x201A; 0x201B]%Z))) (runes l) = true →
  ps_body (runes (replace_quote [sq; sq] l ++ [sq])) = Some l.
Proof.
  revert l. induction n as [|n IH]; intros [|b l] Hn Hv Hq; try done; [cbn in Hn; lia|].
  destruct (runes_cons b l) as (t & l' & -> & Hb & Hr). rewrite Hr in Hv, Hq. cbn [forallb] in Hv, Hq.
  apply andb_true_iff in Hv as [Hv Hvs], Hq as [Hq Hqs].
  cbn [length] in Hn. rewrite length_app in Hn.
  pose proof (valid_rune_tail _ _ _ Hv Hb) as Ht.
  assert (ps_body (runes (replace_quote [sq; sq] l' ++ [sq])) = Some l') as E by (apply IH; [lia|done..]).
  rewrite replace_quote_cons. destruct (bool_decide_reflect (b = sq)) as [->|Hc].
  - injection Hb as <-. cbn [app]. rewrite !runes_quote. cbn [ps_body]. by rewrite E.
  - rewrite replace_quote_other by done. rewrite <-!app_assoc. cbn [app].
    assert (decode_rune b t = decode_rune b (t ++ l')) as Ed
      by (rewrite <-(app_nil_r t) at 1; by apply decode_rune_frame).
    rewrite runes_valid_cons by (by rewrite Ed). rewrite Ed.
    destruct (runes (replace_quote [sq; sq] l' ++ [sq])) as [|r rs] eqn:Er; [done|].
    rewrite ps_body_other by (by apply not_quote). by rewrite E, Hb.
Qed.

(** PowerShell reads what [powershellArg] writes as the argument, if the argument is
    UTF-8 without the quotation marks U+2018 to U+201B. *)
Lemma powershell_arg value : plain_quotes value = true → ps_string (powershellArg value) = Some value.
Proof.
  unfold plain_quotes, ps_string, powershellArg. rewrite andb_true_iff. intros [Hv Hq].
  rewrite String.list_ascii_of_string_of_list_ascii, runes_quote. change (is_quote quote_rune) with true. cbv iota.
  rewrite (ps_arg (length (bytes_of value))) by done. cbn. by rewrite String.string_of_list_ascii_of_string.
Qed.


(** The shell reads a printed command as the values it was built from, in order:
    quoting by [shellArgs] loses and adds nothing, whatever blanks, quotes or
    metacharacters the values have.  A value that begins with a hash sign or a tilde and
    has none of the listed characters is excepted. *)
Theorem printed_command_read values : Forall (λ v, shell_safe v = true) values → sh_words (shellArgs values) = Some values.
Proof.
  intros Hv. unfold sh_words, shellArgs, join_blank. rewrite String.list_ascii_of_string_of_list_ascii, sh_args by done.
  cbn. f_equal. rewrite map_map. rewrite <-(map_id values) at 2. apply map_ext. intros v. apply String.string_of_list_ascii_of_string.
Qed.

Definition odd_values : list string := ["computehop"; ""; "Bob's Gaming PC"; "a\$b`c"; "'"; "x#y~"; "# note"].
Lemma printed_command_read_witness : Forall (λ v, shell_safe v = true) odd_values ∧ sh_words (shellArgs odd_values) = Some odd_values.
Proof.
  assert (Forall (λ v, shell_safe v = true) odd_values) as H by (repeat constructor).
  split; [exact H|apply printed_command_read, H].
Defined.

(** Both exceptions: the shell drops the argument as a comment, or expands it ... *)
Example hash_dropped : sh_words (shellArgs ["computehop"; "#1"]) = Some ["computehop"].
Proof. by vm_compute. Qed.
Example tilde_expanded : sh_words (shellArgs ["computehop"; "~root"]) = None.
Proof. by vm_compute. Qed.
(** ... and a typographic apostrophe ends the PowerShell string. *)
Example apostrophe_ends : ps_string (powershellArg (str_of (bytes_of "Bob" ++ encode_rune 0x2019 ++ bytes_of "s PC"))) = None.
Proof. by vm_compute. Qed.
