(* ===== verification/Options.v ===== *)
(** * Options of the daemon (cmd/computehopd: main.go, bytesize.go; internal/platform/processes/runner_launcher.go)

    The command line of computehopd, with Go's [flag] package as it uses it, sizes in
    bytes, and the two programs that write such command lines: the daemon itself, for
    the runner of a job, and the setup of a worker package. *)

From S2P Require Import Prelude GoText GoNumber GoFloat PortablePath JobModel Device ContentCache CliText Setup.
From stdpp Require Import pretty.
From Stdlib Require Import Ascii.
Local Open Scope string_scope.
Local Open Scope nat_scope.
Local Open Scope list_scope.

(** ** Sizes in bytes *)

Definition byte_units : list (string * Z) :=
  [("TIB", 2 ^ 40); ("GIB", 2 ^ 30); ("MIB", 2 ^ 20); ("KIB", 2 ^ 10);
   ("TB", 1000000000000); ("GB", 1000000000); ("MB", 1000000); ("KB", 1000); ("B", 1)]%Z.

(** [strings.TrimSuffix] of a suffix that is there. *)
Definition without_suffix (s suffix : string) : string := str_of (take (String.length s - String.length suffix) (bytes_of s)).

(** The number and the multiplier of a size. *)
Fixpoint split_unit (units : list (string * Z)) (encoded : string) : string * Z :=
  match units with
  | [] => (encoded, 1%Z)
  | (suffix, multiplier) :: rest =>
      if has_suffix encoded suffix then (trim_space (without_suffix encoded suffix), multiplier) else split_unit rest encoded
  end.

(** [int64(bytes)] after the checks; [bytes > math.MaxInt64] compares with 2^63, and the
    conversion of 2^63 itself is that of amd64. *)
Definition bytes_of_float (err : list sentinel) (numeric multiplier : float64) : result Z :=
  match numeric with
  | Finite m _ =>
      if (m <=? 0)%Z then Err err
      else match fmul numeric multiplier with
      | Finite bm be =>
          let '(n, d) := fraction bm be in
          if (2 ^ 63 * d <? n)%Z then Err err
          else match integer_of bm be with Some v => Ok (wrap_int64 v) | None => Err err end
      | _ => Err err
      end
  | _ => Err err
  end.

(** The steps of reading a size; [err] is the error of every refusal. *)
Definition read_size (err : list sentinel) (encoded : string) : result Z :=
  if blank encoded then Err err
  else
    let '(number, multiplier) := split_unit byte_units encoded in
    match ParseFloat number with Err _ => Err err | Ok numeric => bytes_of_float err numeric (round64 multiplier 1) end.

Definition parseByteSize `{UnicodeCase} (encoded : string) : result Z := read_size [DaemonErrInvalidByteSize] (to_upper (trim_space encoded)).

Fixpoint format_size (units : list (string * Z)) (value : Z) : string :=
  match units with
  | [] => Itoa value +:+ "B"
  | (suffix, bytes) :: rest =>
      if (bytes <=? value)%Z && (Z.rem value bytes =? 0)%Z then Itoa (Z.quot value bytes) +:+ suffix else format_size rest value
  end.
Definition formatByteSize (value : Z) : string := format_size [("TiB", 2 ^ 40); ("GiB", 2 ^ 30); ("MiB", 2 ^ 20); ("KiB", 2 ^ 10)]%Z value.

(** [computehop setup] has the same steps in a copy of its own, with errors of its own. *)
Definition parseSetupByteSize `{UnicodeCase} (encoded : string) : result Z := read_size [AnonymousError] (to_upper (trim_space encoded)).
Definition validateSetupCacheSize `{UnicodeCase} (encoded : string) : result unit :=
  value ← parseSetupByteSize encoded; ValidateMaximumBytes value.

Example size_1 : parseByteSize (H := ascii_case) "20 GiB" = Ok (20 * 2 ^ 30)%Z ∧ parseByteSize (H := ascii_case) "0.5mb" = Ok 500000%Z
  ∧ parseByteSize (H := ascii_case) "0.5B" = Err [DaemonErrInvalidByteSize].
Proof. by vm_compute. Qed.

(** ** Package flag *)

Section Flags.
Context {O : Type}.

(** A flag is a switch or takes a value. *)
Inductive flag_kind := Switch (set : bool → O → result O) | Value (set : string → O → result O).
Context (flags : string → option flag_kind).

(** A name and the value after an equals sign that is not its first character. *)
Definition cut_value (name : string) : string * option string :=
  match bytes_of name with
  | [] => (name, None)
  | c :: rest => match cut_bytes "="%char rest with Some (a, b) => (str_of (c :: a), Some (str_of b)) | None => (name, None) end
  end.

(** The name of a flag argument: [None] ends the flags, [Some None] is bad syntax. *)
Definition flag_name (argument : string) : option (option string) :=
  match bytes_of argument with
  | c :: c' :: rest =>
      if negb (bool_decide (c = "-"%char)) then None
      else
        let name := if bool_decide (c' = "-"%char) then rest else c' :: rest in
        if bool_decide (argument = "--") then None
        else match name with
        | [] => Some None
        | n :: _ => if bool_decide (n = "-"%char) || bool_decide (n = "="%char) then Some None else Some (Some (str_of name))
        end
  | _ => None
  end.

(** The error of [Set] is only quoted in the one of [Parse]. *)
Definition flag_set (r : result O) : result O := match r with Ok o => Ok o | Err _ => Err [AnonymousError] end.

(** [FlagSet.Parse]: the options and the arguments that are left. *)
Fixpoint parse_flags (fuel : nat) (arguments : list string) (o : O) : result (O * list string) :=
  match fuel, arguments with
  | S fuel, argument :: rest =>
      match flag_name argument with
      | None => Ok (o, if bool_decide (argument = "--") then rest else arguments)
      | Some None => Err [AnonymousError]
      | Some (Some text) =>
          let '(name, value) := cut_value text in
          match flags name with
          | None => Err [AnonymousError]
          | Some (Switch set) =>
              match value with
              | None => o ← flag_set (set true o); parse_flags fuel rest o
              | Some v => match ParseBool v with Some b => o ← flag_set (set b o); parse_flags fuel rest o | None => Err [AnonymousError] end
              end
          | Some (Value set) =>
              match value, rest with
              | Some v, _ => o ← flag_set (set v o); parse_flags fuel rest o
              | None, v :: rest => o ← flag_set (set v o); parse_flags fuel rest o
              | None, [] => Err [AnonymousError]
              end
          end
      end
  | _, _ => Ok (o, arguments)
  end.
End Flags.
Arguments flag_kind : clear implicits.

(** ** The daemon's options *)

Definition DefaultMaximumBytes : Z := (20 * 2 ^ 30)%Z.

Record options := MkOptions {
  op_stateDir : string; op_checkOnly : bool; op_showVersion : bool; op_runnerJob : string; op_deviceName : string; op_role : string;
  op_lanOnly : bool; op_connectivityURL : string; op_stunServers : list string; op_turnServers : list string;
  op_turnUsername : string; op_turnPassword : string; op_cacheBytes : Z }.

Definition default_options : options := MkOptions "" false false "" "" "" false "" [] [] "" "" DefaultMaximumBytes.

(** [stringValues.Set]. *)
Definition stringValues_Set (values : list string) (value : string) : result (list string) :=
  let value := trim_space value in if blank value then Err [AnonymousError] else Ok (values ++ [value]).

Section Daemon.
Context `{UnicodeCase}.

Definition set_with (f : options → options) : options → result options := λ o, Ok (f o).
Definition daemon_flags (name : string) : option (flag_kind options) :=
  if bool_decide (name = "state-dir") then Some (Value (λ v, set_with (λ '(MkOptions _ b c d e f g h i j k l m), MkOptions v b c d e f g h i j k l m)))
  else if bool_decide (name = "check") then Some (Switch (λ v, set_with (λ '(MkOptions a _ c d e f g h i j k l m), MkOptions a v c d e f g h i j k l m)))
  else if bool_decide (name = "version") then Some (Switch (λ v, set_with (λ '(MkOptions a b _ d e f g h i j k l m), MkOptions a b v d e f g h i j k l m)))
  else if bool_decide (name = "runner-job") then Some (Value (λ v, set_with (λ '(MkOptions a b c _ e f g h i j k l m), MkOptions a b c v e f g h i j k l m)))
  else if bool_decide (name = "device-name") then Some (Value (λ v, set_with (λ '(MkOptions a b c d _ f g h i j k l m), MkOptions a b c d v f g h i j k l m)))
  else if bool_decide (name = "role") then Some (Value (λ v, set_with (λ '(MkOptions a b c d e _ g h i j k l m), MkOptions a b c d e v g h i j k l m)))
  else if bool_decide (name = "lan-only") then Some (Switch (λ v, set_with (λ '(MkOptions a b c d e f _ h i j k l m), MkOptions a b c d e f v h i j k l m)))
  else if bool_decide (name = "connectivity-url") then Some (Value (λ v, set_with (λ '(MkOptions a b c d e f g _ i j k l m), MkOptions a b c d e f g v i j k l m)))
  else if bool_decide (name = "stun-server") then
    Some (Value (λ v '(MkOptions a b c d e f g h i j k l m), i ← stringValues_Set i v; Ok (MkOptions a b c d e f g h i j k l m)))
  else if bool_decide (name = "turn-server") then
    Some (Value (λ v '(MkOptions a b c d e f g h i j k l m), j ← stringValues_Set j v; Ok (MkOptions a b c d e f g h i j k l m)))
  else if bool_decide (name = "turn-username") then Some (Value (λ v, set_with (λ '(MkOptions a b c d e f g h i j _ l m), MkOptions a b c d e f g h i j v l m)))
  else if bool_decide (name = "turn-password") then Some (Value (λ v, set_with (λ '(MkOptions a b c d e f g h i j k _ m), MkOptions a b c d e f g h i j k v m)))
  else if bool_decide (name = "cache-size") then
    Some (Value (λ v '(MkOptions a b c d e f g h i j k l _), m ← parseByteSize v; Ok (MkOptions a b c d e f g h i j k l m)))
  else None.

(** What is checked of the options together. *)
Definition check_options (o : options) : result unit :=
  let servers := length (op_stunServers o) + length (op_turnServers o) in
  let username := negb (blank (op_turnUsername o)) in
  let password := negb (blank (op_turnPassword o)) in
  _ ← reject_if (negb (blank (op_runnerJob o)) && (op_checkOnly o || op_showVersion o)) [AnonymousError];
  _ ← reject_if (op_lanOnly o && (negb (blank (op_connectivityURL o)) || (0 <? servers) || username || password)) [AnonymousError];
  _ ← reject_if (negb (Bool.eqb (blank (op_connectivityURL o)) (servers =? 0))) [AnonymousError];
  _ ← reject_if ((0 <? length (op_turnServers o)) && (negb username || negb password)) [AnonymousError];
  _ ← reject_if ((length (op_turnServers o) =? 0) && (username || password)) [AnonymousError];
  ValidateMaximumBytes (op_cacheBytes o).

Definition parseOptions (arguments : list string) : result options :=
  parsed ← parse_flags daemon_flags (length arguments) arguments default_options;
  _ ← reject_if (negb (bool_decide (parsed.2 = []))) [AnonymousError];
  _ ← check_options parsed.1;
  Ok parsed.1.

Definition configuredRole (goos value : string) : result string :=
  if blank value then Ok (if bool_decide (goos = "darwin") then RoleOrchestrator else RoleWorker)
  else if negb (known_role value) then Err [AnonymousError]
  else if bool_decide (value = RoleOrchestrator) && negb (bool_decide (goos = "darwin")) then Err [AnonymousError]
  else Ok value.
End Daemon.

(** ** The runner of a job (runner_launcher.go) *)

Record RunnerLauncher := MkLauncher { rl_executable : string; rl_stateDir : string; rl_cacheBytes : Z }.

Definition NewRunnerLauncher (executable stateDir : string) (cacheBytes : Z) : result RunnerLauncher :=
  _ ← reject_if (blank executable || blank stateDir) [AnonymousError];
  _ ← ValidateMaximumBytes cacheBytes;
  Ok (MkLauncher executable stateDir cacheBytes).

(** The program and the arguments of the detached process. *)
Definition Launch (launcher : RunnerLauncher) (id : string) : result (string * list string) :=
  if negb (ID_Valid id) then Err [JobErrInvalidID]
  else Ok (rl_executable launcher,
    ["--runner-job"; id; "--state-dir"; rl_stateDir launcher; "--cache-size"; Itoa (rl_cacheBytes launcher) +:+ "B"]).

(** ** Sizes are read back *)

Definition all_digits (l : bytes) : Prop := Forall (λ c, digit_val c ≠ None) l.

Lemma digits_value_digits acc l v : digits_value acc l = Some v → all_digits l.
Proof.
  revert acc. induction l as [|c l IH]; intros acc; [constructor|]. cbn [digits_value]. destruct (digit_val c) eqn:E; [|done].
  intros Hv. constructor; [by rewrite E|by eapply IH].
Qed.

Lemma digits_text n : (0 ≤ n)%Z → ∃ l, Itoa n = str_of l ∧ l ≠ [] ∧ all_digits l ∧ FormatUint n = str_of l.
Proof.
  intros Hn. exists (bytes_of (pretty (Z.to_N n))). unfold Itoa, FormatUint. rewrite (proj2 (Z.ltb_ge _ _)) by lia.
  rewrite str_of_bytes_of. split_and!; [done|apply pretty_N_nonempty| |done].
  pose proof (decimal_pretty (Z.to_N n)) as Hd. unfold decimal in Hd. destruct (bytes_of _); [done|]. by eapply digits_value_digits.
Qed.

Lemma digit_facts : ∀ c, digit_val c ≠ None →
  (val c < 128)%Z ∧ is_space (val c) = false ∧ byte_of (ascii_upper (val c)) = c ∧ Forall (λ d, bool_decide (d = c) = false) (bytes_of "TGMKIB").
Proof. all_bytes; intros Hc; try done; (split; [reflexivity|]; split; [reflexivity|]; split; [reflexivity|]; repeat constructor). Qed.

Lemma digits_plain l : all_digits l → is_ascii l ∧ Forall (λ c, is_space (val c) = false) l ∧ map (λ c, byte_of (ascii_upper (val c))) l = l.
Proof.
  induction 1 as [|c l Hc _ (Ha & Hs & Hm)]; [by repeat constructor|]. destruct (digit_facts c Hc) as (H1 & H2 & H3 & _).
  split_and!; [by constructor|by constructor|]. cbn [map]. by rewrite H3, Hm.
Qed.

(** The units that are written. *)
Definition written_units : list (string * string * Z) :=
  [("TiB", "TIB", 2 ^ 40); ("GiB", "GIB", 2 ^ 30); ("MiB", "MIB", 2 ^ 20); ("KiB", "KIB", 2 ^ 10); ("B", "B", 1)]%Z.

Lemma split_written l text suffix multiplier : all_digits l → l ≠ [] → (text, suffix, multiplier) ∈ written_units →
  split_unit byte_units (str_of (l ++ bytes_of suffix)) = (str_of l, multiplier).
Proof.
  intros Hl Hne Hu. destruct (digits_plain l Hl) as (Ha & Hs & _).
  assert (trim_space (str_of l) = str_of l) as Ht by (apply trim_space_id; by rewrite bytes_of_str_of).
  assert (∀ suffix, without_suffix (str_of (l ++ bytes_of suffix)) suffix = str_of l) as Hw.
  { intros x. unfold without_suffix. rewrite length_str_of, length_app, length_bytes_of, bytes_of_str_of. f_equal.
    rewrite <-length_bytes_of. replace (length l + length (bytes_of x) - length (bytes_of x)) with (length l) by lia. apply take_app_length. }
  destruct (reverse l) as [|d r] eqn:Hr; [by apply (f_equal reverse) in Hr; rewrite reverse_involutive in Hr|].
  assert (digit_val d ≠ None) as Hd.
  { apply (proj1 (Forall_forall _ _) Hl). rewrite <-(reverse_involutive l), Hr, elem_of_reverse. set_solver. }
  destruct (digit_facts d Hd) as (_ & _ & _ & Hf).
  assert (∀ x, x ∈ bytes_of "TGMKIB" → bool_decide (x = d) = false) as Hx by (by apply Forall_forall). clear Hf.
  assert (∀ p, has_suffix (str_of (l ++ bytes_of suffix)) p = list_prefix (reverse (bytes_of p)) (reverse (bytes_of suffix) ++ d :: r)) as Hsuf.
  { intros p. unfold has_suffix. by rewrite bytes_of_str_of, reverse_app, Hr. }
  unfold written_units in Hu. rewrite !elem_of_cons, elem_of_nil in Hu.
  destruct_or?; try done; injection Hu as -> -> ->; unfold split_unit, byte_units; rewrite !Hsuf, ?Hw, ?Ht.
  1-4: reflexivity.
  assert (∀ p x y, reverse (bytes_of p) = "B"%char :: x :: y → x ∈ bytes_of "TGMKIB" →
    list_prefix (reverse (bytes_of p)) (reverse (bytes_of "B") ++ d :: r) = false) as Hp.
  { intros p x y -> Hin. change (reverse (bytes_of "B")) with ["B"%char]. cbn [app list_prefix]. by rewrite bool_decide_true, (Hx x Hin). }
  rewrite (Hp "TIB" "I"%char ["T"%char]), (Hp "GIB" "I"%char ["G"%char]), (Hp "MIB" "I"%char ["M"%char]), (Hp "KIB" "I"%char ["K"%char]),
    (Hp "TB" "T"%char []), (Hp "GB" "G"%char []), (Hp "MB" "M"%char []), (Hp "KB" "K"%char []) by first [reflexivity|apply (bool_decide_unpack _); by vm_compute].
  reflexivity.
Qed.

Section Sizes.
Context `{UnicodeCase}.

(** A number of units that stays below 2^53 bytes. *)
Lemma size_read n text suffix multiplier : (text, suffix, multiplier) ∈ written_units → (0 < n)%Z → (n * multiplier < 2 ^ 53)%Z →
  parseByteSize (Itoa n +:+ text) = Ok (n * multiplier)%Z.
Proof.
  intros Hu Hn Hm. destruct (digits_text n ltac:(lia)) as (l & Hi & Hne & Hd & Hf). destruct (digits_plain l Hd) as (Ha & Hs & Hup).
  assert (0 < multiplier < 2 ^ 53)%Z as Hmul by (unfold written_units in Hu; rewrite !elem_of_cons, elem_of_nil in Hu; destruct_or?; try done; injection Hu as -> -> ->; done).
  assert (is_ascii (bytes_of text) ∧ Forall (λ c, is_space (val c) = false) (bytes_of text) ∧
    map (λ c, byte_of (ascii_upper (val c))) (bytes_of text) = bytes_of suffix) as (Hta & Hts & Htu).
  { unfold written_units in Hu. rewrite !elem_of_cons, elem_of_nil in Hu. destruct_or?; try done; injection Hu as -> -> ->;
      split_and!; repeat constructor. }
  assert (to_upper (trim_space (Itoa n +:+ text)) = str_of (l ++ bytes_of suffix)) as E.
  { rewrite trim_space_id; rewrite ?bytes_of_app, ?Hi, ?bytes_of_str_of; [|by apply Forall_app..].
    rewrite <-(str_of_bytes_of (str_of l +:+ text)), bytes_of_app, bytes_of_str_of, to_upper_ascii by (by apply Forall_app).
    by rewrite map_app, Hup, Htu. }
  unfold parseByteSize, read_size. rewrite E. unfold blank. rewrite bool_decide_false by (by destruct l).
  rewrite (split_written l text suffix multiplier) by done. rewrite <-Hf, ParseFloat_decimal by nia.
  rewrite round_integer by done. unfold bytes_of_float. cbn [exact].
  destruct (log2_53 n ltac:(nia)) as [_ Hl]. rewrite (proj2 (Z.leb_gt _ _)) by lia.
  set (v := (n * multiplier)%Z) in *. assert (0 < v < 2 ^ 53)%Z as Hv by (unfold v in *; nia).
  rewrite fmul_exact by (done || lia). fold v. unfold exact. rewrite fraction_exact, integer_exact by done.
  assert (0 < 2 ^ (52 - Z.log2 v))%Z by (apply Z.pow_pos_nonneg; [lia|destruct (log2_53 v Hv); lia]).
  rewrite (proj2 (Z.ltb_ge _ _)) by nia. f_equal. apply wrap_int64_id. unfold int64_range. lia.
Qed.

Lemma unit_read value text suffix u : (text, suffix, u) ∈ written_units → (0 < value < 2 ^ 53)%Z → (0 < u)%Z →
  (u <=? value)%Z && (Z.rem value u =? 0)%Z = true → parseByteSize (Itoa (Z.quot value u) +:+ text) = Ok value.
Proof.
  intros Hu Hv Hpos. rewrite andb_true_iff, Z.leb_le, Z.eqb_eq. intros [Hle Hrem]. pose proof (Z.quot_rem' value u) as E.
  assert (Z.quot value u * u = value)%Z as Eq by lia. rewrite (size_read _ text suffix u) by (done || nia). by rewrite Eq.
Qed.

(** A size that the daemon prints is the size it reads: [parseByteSize] inverts
    [formatByteSize] on every positive number of bytes below 2^53, in particular on every
    size that a cache may have. *)
Theorem size_round_trip value : (0 < value < 2 ^ 53)%Z → parseByteSize (formatByteSize value) = Ok value.
Proof.
  intros Hv. unfold formatByteSize, format_size.
  destruct (_ && _) eqn:E1; [eapply (unit_read value "TiB" "TIB"); [|done|done|exact E1]; apply (bool_decide_unpack _); by vm_compute|clear E1].
  destruct (_ && _) eqn:E1; [eapply (unit_read value "GiB" "GIB"); [|done|done|exact E1]; apply (bool_decide_unpack _); by vm_compute|clear E1].
  destruct (_ && _) eqn:E1; [eapply (unit_read value "MiB" "MIB"); [|done|done|exact E1]; apply (bool_decide_unpack _); by vm_compute|clear E1].
  destruct (_ && _) eqn:E1; [eapply (unit_read value "KiB" "KIB"); [|done|done|exact E1]; apply (bool_decide_unpack _); by vm_compute|clear E1].
  rewrite (size_read value "B" "B" 1) by (try lia; apply (bool_decide_unpack _); by vm_compute). f_equal. lia.
Qed.
End Sizes.

Lemma size_round_trip_witness : (0 < 30 * 2 ^ 30 < 2 ^ 53)%Z ∧ parseByteSize (H := ascii_case) (formatByteSize (30 * 2 ^ 30)) = Ok (30 * 2 ^ 30)%Z.
Proof. split; [lia|]. apply (size_round_trip (H := ascii_case)). lia. Defined.

(** ** Command lines that are written for the daemon *)

Section Written.
Context `{UnicodeCase}.

(** A flag with its value, and a switch. *)
Lemma parse_value (flags : string → option (flag_kind options)) fuel argument name set v rest o :
  flag_name argument = Some (Some name) → cut_value name = (name, None) → flags name = Some (Value set) →
  parse_flags flags (S fuel) (argument :: v :: rest) o = (o ← flag_set (set v o); parse_flags flags fuel rest o).
Proof. intros Hn Hc Hf. cbn [parse_flags]. by rewrite Hn, Hc, Hf. Qed.

Lemma parse_switch (flags : string → option (flag_kind options)) fuel argument name set rest o :
  flag_name argument = Some (Some name) → cut_value name = (name, None) → flags name = Some (Switch set) →
  parse_flags flags (S fuel) (argument :: rest) o = (o ← flag_set (set true o); parse_flags flags fuel rest o).
Proof. intros Hn Hc Hf. cbn [parse_flags]. by rewrite Hn, Hc, Hf. Qed.

Lemma parse_end (flags : string → option (flag_kind options)) fuel o : parse_flags flags fuel [] o = Ok (o, []).
Proof. by destruct fuel. Qed.

(** Reads the next flag, whose name is a constant. *)
Ltac next_flag :=
  first [erewrite parse_end | erewrite parse_value; [|reflexivity..] | erewrite parse_switch; [|reflexivity..]];
  cbn [mbind result_bind set_with flag_set]; cbv beta iota.

Lemma cache_size_read n u : ValidateMaximumBytes n = Ok u → parseByteSize (Itoa n +:+ "B") = Ok n.
Proof.
  intros Hn. unfold ValidateMaximumBytes, reject_if, MinimumMaximumBytes, MaximumMaximumBytes in Hn.
  destruct (_ || _) eqn:E; [done|]. rewrite orb_false_iff, !Z.ltb_ge in E.
  rewrite (size_read n "B" "B" 1) by (try lia; apply (bool_decide_unpack _); by vm_compute). f_equal. lia.
Qed.

(** The checks pass when nothing hosted is configured. *)
Lemma check_local id dir name role lan cache : ValidateMaximumBytes cache = Ok tt →
  check_options (MkOptions dir false false id name role lan "" [] [] "" "" cache) = Ok tt.
Proof. intros Hc. unfold check_options. cbn. rewrite !andb_false_r. cbn. by rewrite Hc. Qed.

(** They pass for a hosted service with a STUN server or a TURN server with credentials. *)
Lemma check_hosted name role url stun turn username password cache :
  url ≠ "" → stun ++ turn ≠ [] → (turn ≠ [] → username ≠ "" ∧ password ≠ "") → (turn = [] → username = "" ∧ password = "") →
  ValidateMaximumBytes cache = Ok tt → check_options (MkOptions "" false false "" name role false url stun turn username password cache) = Ok tt.
Proof.
  intros Hu Hs Ht Hn Hc. unfold check_options, blank. cbn [op_runnerJob op_checkOnly op_showVersion op_lanOnly op_connectivityURL op_stunServers op_turnServers
    op_turnUsername op_turnPassword op_cacheBytes]. rewrite (bool_decide_false (url = "")), Hc by done. rewrite <-length_app.
  destruct (stun ++ turn) as [|? ?]; [done|]. destruct turn as [|t turn].
  - destruct Hn as [-> ->]; [done|]. reflexivity.
  - destruct Ht as [H1 H2]; [done|]. by rewrite (bool_decide_false (username = "")), (bool_decide_false (password = "")) by done.
Qed.

(** The daemon reads the command line of a runner as it was written: for a launcher
    that [NewRunnerLauncher] accepted and a valid job, [parseOptions] of the arguments of
    [Launch] gives that job, that state directory and that size of the cache, whatever the
    directory is called and however large the cache may be, and every other option unset. *)
Theorem runner_options executable stateDir cacheBytes launcher id program arguments :
  NewRunnerLauncher executable stateDir cacheBytes = Ok launcher → Launch launcher id = Ok (program, arguments) →
  program = executable ∧ parseOptions arguments = Ok (MkOptions stateDir false false id "" "" false "" [] [] "" "" cacheBytes).
Proof.
  unfold NewRunnerLauncher. destruct (reject_if _ _); [|done]. cbn [mbind result_bind].
  destruct (ValidateMaximumBytes cacheBytes) as [[]|] eqn:Hc; [|done]. cbn [mbind result_bind]. intros [= <-]. unfold Launch.
  destruct (ID_Valid id); [|done]. cbn [negb rl_executable rl_stateDir rl_cacheBytes]. intros [= <- <-]. split; [done|].
  unfold parseOptions, default_options. cbn [length]. do 3 next_flag. erewrite cache_size_read by done. cbn [mbind result_bind flag_set]. next_flag.
  cbn [fst snd]. rewrite bool_decide_true by done. cbn [negb reject_if mbind result_bind]. by rewrite check_local.
Qed.

Lemma server_set values server p : has_prefix server (String "t" p) = true ∨ has_prefix server (String "s" p) = true →
  stringValues_Set values server = Ok (values ++ [trim_space server]).
Proof.
  intros Hp. unfold stringValues_Set, blank. rewrite bool_decide_false; [done|]. unfold has_prefix in Hp. rewrite !list_prefix_spec in Hp.
  destruct Hp as [[k Hk]|[k Hk]]; [apply (trim_not_empty "t"%char)|apply (trim_not_empty "s"%char)]; try reflexivity; rewrite Hk; cbn [bytes_of app]; set_solver.
Qed.

(** Appends a server to a list of servers. *)
Ltac server := try (first [rewrite (server_set _ _ "urn") by (left; eassumption) | rewrite (server_set _ _ "tun") by (right; reflexivity)];
  cbn [mbind result_bind app flag_set]; cbv beta iota).

(** The options of a validated setup. *)
Definition worker_options (name : string) (h : Hosted) : options :=
  let lan := ho_lanOnly h || blank (trim_space (ho_connectivityDomain h)) in
  let turn := negb lan && negb (blank (trim_space (ho_turnServer h))) in
  MkOptions "" false false "" name RoleWorker lan (if lan then "" else "https://" +:+ trim_space (ho_connectivityDomain h))
    (if negb lan && negb (blank (trim_space (ho_turnDomain h))) then [trim_space ("stun:" +:+ trim_space (ho_turnDomain h) +:+ ":3478")] else [])
    (if turn then [trim_space (trim_space (ho_turnServer h))] else [])
    (if turn then trim_space (ho_turnUsername h) else "") (if turn then trim_space (ho_turnPassword h) else "") DefaultMaximumBytes.

(** What a validated setup of a hosted service says. *)
Lemma hosted_setup h : validateSetupConnectivity h = Ok tt → blank (trim_space (ho_connectivityDomain h)) = false →
  (blank (trim_space (ho_turnDomain h)) = false ∨ blank (trim_space (ho_turnServer h)) = false) ∧
  (blank (trim_space (ho_turnServer h)) = false → trim_space (ho_turnUsername h) ≠ "" ∧ trim_space (ho_turnPassword h) ≠ "" ∧
    has_prefix (trim_space (ho_turnServer h)) "turn" = true).
Proof.
  unfold validateSetupConnectivity, blank. intros Hv Hd.
  apply result_bind_ok in Hv as (? & _ & Hv). apply result_bind_ok in Hv as (? & _ & Hv).
  apply result_bind_ok in Hv as (? & Hone%reject_if_ok & Hv). apply result_bind_ok in Hv as (? & Hp%reject_if_ok & Hv).
  apply result_bind_ok in Hv as (? & Hc%reject_if_ok & _). rewrite Hd in Hone. cbn [negb andb] in Hone. split; [by apply andb_false_iff|intros Hs].
  rewrite Hs in Hp, Hc. cbn [negb andb] in Hp, Hc. apply orb_false_iff in Hc as [Hu%bool_decide_eq_false Hw%bool_decide_eq_false]. split_and!; [done..|].
  rewrite andb_false_iff, !negb_false_iff in Hp. unfold has_prefix in *. rewrite !list_prefix_spec in *.
  destruct Hp as [[k ->]|[k ->]]; by eexists.
Qed.

(** A worker package starts: when [validateSetupConnectivity] accepts the options of
    [computehop setup worker], the command line that the package's scripts pass to the
    daemon is accepted, and configures a worker of that name with exactly the rendezvous
    service, STUN server, TURN server and credentials of the setup, or the LAN only. *)
Theorem package_options name h : validateSetupConnectivity h = Ok tt →
  parseOptions (["--role"; "worker"; "--device-name"; name] ++ workerPackageDaemonArgs h) = Ok (worker_options name h).
Proof.
  intros Hv. unfold parseOptions, default_options, workerPackageDaemonArgs, hosted_args, worker_options.
  destruct (ho_lanOnly h || blank (trim_space (ho_connectivityDomain h))) eqn:Hlan.
  - cbn [app length negb andb]. do 4 next_flag. by vm_compute.
  - apply orb_false_iff in Hlan as [_ Hdomain]. destruct (hosted_setup h Hv Hdomain) as [Hone Hturn].
    destruct (blank (trim_space (ho_turnDomain h))), (blank (trim_space (ho_turnServer h)));
      [by destruct Hone|destruct Hturn as (Hu & Hw & Hp); [done|]|clear Hturn|destruct Hturn as (Hu & Hw & Hp); [done|]];
      cbn [app length negb andb]; do 4 next_flag; server; repeat next_flag; server; repeat next_flag; cbn [fst snd];
      rewrite bool_decide_true by done; cbn [negb reject_if mbind result_bind]; by rewrite check_hosted.
Qed.
End Written.

Definition demo_launcher : RunnerLauncher := MkLauncher "/opt/computehopd" "--version" (512 * 2 ^ 20).

(** A state directory that looks like a flag is still a directory. *)
Lemma runner_options_witness :
  NewRunnerLauncher "/opt/computehopd" "--version" (512 * 2 ^ 20) = Ok demo_launcher ∧
  parseOptions (H := ascii_case) ["--runner-job"; "00010203-0405-4607-8809-0a0b0c0d0e0f"; "--state-dir"; "--version"; "--cache-size"; "536870912B"] =
    Ok (MkOptions "--version" false false "00010203-0405-4607-8809-0a0b0c0d0e0f" "" "" false "" [] [] "" "" (512 * 2 ^ 20)).
Proof.
  split; [by vm_compute|]. eapply (runner_options (H := ascii_case) "/opt/computehopd" "--version" (512 * 2 ^ 20) demo_launcher); by vm_compute.
Defined.
