(* ===== verification/Cli.v ===== *)
(** * The command line: jobs (cmd/computehop: main.go, root.go)

    A command talks to the daemon through a [Caller], writes texts to its two
    output streams, each write of which may fail, and waits between polls until its
    context ends.  A [Session] is the daemon with the calls made to it so far and
    the texts written.  Flags and help texts belong to the library that parses
    arguments; the bodies of the commands are functions of their flags. *)

From S2P Require Import Prelude GoText GoNumber PortablePath JobModel Effects Sql JobStore Execution ExecutionStore LogStore Custody Worker Encoding Base32 Device Trust Snapshot Wire Frames Remote ArtifactStore Hosts Workspace LocalWire LocalIpc CliText Setup.
From stdpp Require Import pretty.
From Stdlib Require Import Ascii.
Local Open Scope string_scope.
Local Open Scope nat_scope.
Local Open Scope list_scope.

(** ** Sessions *)

Inductive Output := Stdout | Stderr.

Record Session (S : Type) := MkSession {
  ss_daemon : S;
  ss_calls : list (LocalOperation * result LocalResponse);
  ss_text : list (Output * bytes);
  ss_writes : nat → bool;       (* whether the [n]-th write succeeds *)
  ss_ended : nat → bool;        (* whether the context has ended at the [n]-th wait *)
  ss_waits : nat }.
Arguments MkSession {S}. Arguments ss_daemon {S}. Arguments ss_calls {S}. Arguments ss_text {S}.
Arguments ss_writes {S}. Arguments ss_ended {S}. Arguments ss_waits {S}.

(** The interface [caller]. *)
Class Caller (S : Type) := Caller_Call : LocalRequest → S → result LocalResponse * S.

(** [localDaemonCallError]: [cancelled] tells whether the error is that of the context. *)
Definition localDaemonCallError (cancelled : bool) (err : list sentinel) : list sentinel :=
  if existsb (λ s, match s with IpcRemoteError _ _ => true | _ => false end) err || cancelled then err
  else if errors_is err IpcErrMismatchedResponse then [CliErrDaemonProtocolMismatch]
  else [CliErrDaemonNotRunning].

Section Commands.
Context `{U : UnicodeCase} {S : Type} `{Caller S}.

(** The outcome of [clientForCommand]. *)
Context (client : result unit).

Definition Cmd (A : Type) : Type := Run (Session S) A.

Definition call_daemon (operation : LocalOperation) : Cmd LocalResponse := λ s,
  let '(r, d) := Caller_Call (MkLocalRequest 0 "" [] (Some operation)) (ss_daemon s) in
  (r, MkSession d (ss_calls s ++ [(operation, r)]) (ss_text s) (ss_writes s) (ss_ended s) (ss_waits s)).

(** One [Write] to a stream. *)
Definition write (to : Output) (data : bytes) : Cmd unit := λ s,
  if ss_writes s (length (ss_text s))
  then (Ok tt, MkSession (ss_daemon s) (ss_calls s) (ss_text s ++ [(to, data)]) (ss_writes s) (ss_ended s) (ss_waits s))
  else (Err [DriverError], s).

Definition print (to : Output) (text : string) : Cmd unit := write to (bytes_of text).

(** The lines of a guide, one write each. *)
Definition print_lines (to : Output) (lines : list string) : Cmd unit := each (λ l, print to (line l)) lines.

(** [waitForNextPoll]. *)
Definition waitForNextPoll : Cmd unit := λ s,
  (if ss_ended s (ss_waits s) then Err [DriverError] else Ok tt,
   MkSession (ss_daemon s) (ss_calls s) (ss_text s) (ss_writes s) (ss_ended s) (Datatypes.S (ss_waits s))).

(** A result of the expected kind, or [ErrInvalidDaemonResponse]. *)
Definition invalid_response {A} : Cmd A := run_fail [CliErrInvalidDaemonResponse].
Definition expect {A} (get : LocalResult → option A) (response : LocalResponse) : Cmd A :=
  match lp_result response ≫= get with Some a => mret a | None => invalid_response end.
Definition decode {A} (r : result A) : Cmd A := match r with Ok a => mret a | Err _ => invalid_response end.

Definition get_submit (r : LocalResult) : option JobMessage := match r with LResSubmitJob j => Some j | _ => None end.
Definition get_job (r : LocalResult) : option JobMessage := match r with LResGetJob j => Some j | _ => None end.
Definition get_cancel (r : LocalResult) : option JobMessage := match r with LResCancelJob j => Some j | _ => None end.
Definition get_jobs (r : LocalResult) : option (list JobMessage) := match r with LResListJobs l => Some l | _ => None end.
Definition get_logs (r : LocalResult) : option LLogs := match r with LResReadJobLogs l => Some l | _ => None end.
Definition get_fetched (r : LocalResult) : option LFetched := match r with LResFetchArtifacts f => Some f | _ => None end.

(** ** Following a job *)

Definition record_output (record : LogRecordMessage) : option Output :=
  if (lm_stream record =? 1)%Z then Some Stdout else if (lm_stream record =? 2)%Z then Some Stderr else None.

(** The records of one page: the sequence of the last one and the number written. *)
Fixpoint emit_records (records : list LogRecordMessage) (after emitted : Z) : Cmd (Z * Z) :=
  match records with
  | [] => mret (after, emitted)
  | record :: rest =>
      if (lm_sequence record <=? after)%Z then invalid_response
      else match record_output record with
      | None => invalid_response
      | Some to => _ ← write to (lm_data record); emit_records rest (lm_sequence record) (wrap_uint64 (emitted + 1))
      end
  end.

(** Each turn of the loop takes a unit of [fuel]. *)
Fixpoint stream_loop (fuel : nat) (id selector : string) (follow : bool) (after emitted : Z) : Cmd (Job * Z) :=
  match fuel with
  | O => run_fail [OutOfFuel]
  | Datatypes.S fuel =>
      response ← call_daemon (LOpReadJobLogs (Some (MkLReadLogs id after 32 selector)));
      logs ← expect get_logs response;
      position ← emit_records (llr_records logs) after emitted;
      if llr_has_more logs then stream_loop fuel id selector follow position.1 position.2 else
      value ← decode (JobFromProto (Some (llr_job logs)));
      if negb follow || State_Terminal (JobState value) then mret (value, position.2) else
      _ ← waitForNextPoll;
      stream_loop fuel id selector follow position.1 position.2
  end.
Definition streamJobLogs (fuel : nat) (id selector : string) (follow : bool) : Cmd (Job * Z) := stream_loop fuel id selector follow 0 0.

Fixpoint waitForJob (fuel : nat) (id selector : string) : Cmd Job :=
  match fuel with
  | O => run_fail [OutOfFuel]
  | Datatypes.S fuel =>
      response ← call_daemon (LOpGetJob (Some (MkLJobRef id selector)));
      message ← expect get_job response;
      value ← decode (JobFromProto (Some message));
      if State_Terminal (JobState value) then mret value else
      _ ← waitForNextPoll;
      waitForJob fuel id selector
  end.

(** ** Errors of a submission *)

Fixpoint as_ipc_error (err : list sentinel) : option (Z * string) :=
  match err with
  | [] => None
  | IpcRemoteError code message :: _ => Some (code, message)
  | _ :: rest => as_ipc_error rest
  end.

Definition isAutomaticSelector (selector : string) : bool :=
  bool_decide (to_lower (trim_space selector) ∈ ["auto"; "best"]).
Definition isConnectAutoSelector (selector : string) : bool :=
  bool_decide (to_lower (trim_space selector) ∈ ["auto"; "nearby"]).
Definition deviceSelectorDisplay (selector : string) : string :=
  if isAutomaticSelector selector then "an automatically selected worker" else selector.

Definition isAutoSelectorNoWorkerMessage (message : string) : bool :=
  Contains message "automatic worker selection found no active paired workers"
  || Contains message "no active paired worker is available for --on auto".
Definition isAutoSelectorAmbiguousMessage (message : string) : bool :=
  (Contains message "automatic worker selection found" && Contains message "active workers")
  || Contains message "more than one active paired worker is available for --on auto".
Definition isExplicitSelectorNoWorkerMessage (message : string) : bool := Contains message "active worker".
Definition isExplicitSelectorAmbiguousMessage (message : string) : bool :=
  Contains message "matches" && Contains message "active workers".
Definition isUnavailableWorkerMessage (message : string) : bool :=
  let lower := to_lower message in
  Contains lower "paired worker is unavailable" || Contains lower "remote connectivity path is unavailable"
  || Contains lower "is not reachable".

Record submitNextStep := MkStep { step_text : string; step_required : list string }.
Definition missingSubmitNextSteps (message : string) (steps : list submitNextStep) : list string :=
  let lower := to_lower message in
  map step_text (filter (λ step, forallb (λ r, Contains lower (to_lower r)) (step_required step) = false) steps).

Definition submit_steps : list submitNextStep :=
  [MkStep "Start ComputeHop on the worker and keep both devices on the same LAN." ["start computehop"; "same lan"];
   MkStep "Check worker status: computehop devices" ["computehop devices"];
   MkStep "Retry the worker test: computehop smoke" ["computehop smoke"];
   MkStep "For cross-network workers: computehop setup vps" ["computehop setup vps"]].

(** What the user is told instead of an error of the daemon; [None] is the error itself. *)
Inductive SubmitAdvice :=
| NoWorkerForAuto | AmbiguousForAuto
| NoWorkerMatches (selector : string) | AmbiguousMatches (selector : string)
| WorkerUnavailable (text : string).

Definition enrichUnavailableWorkerSubmitError (code : Z) (message : string) : option SubmitAdvice :=
  if negb (code =? LCodeDeviceUnavailable)%Z || negb (isUnavailableWorkerMessage message) then None
  else
    let message := trim_space message in
    let message := if bool_decide (message = "") then "paired worker is unavailable" else message in
    match missingSubmitNextSteps message submit_steps with
    | [] => Some (WorkerUnavailable message)
    | steps => Some (WorkerUnavailable (line (line message) +:+ line "Next:" +:+ "- " +:+ Strings_Join steps (line "" +:+ "- ")))
    end.

Definition submit_advice (selector : string) (code : Z) (message : string) : option SubmitAdvice :=
  if isAutomaticSelector selector then
    if (code =? LCodeDeviceUnavailable)%Z && isAutoSelectorNoWorkerMessage message then Some NoWorkerForAuto
    else if (code =? LCodeConflict)%Z && isAutoSelectorAmbiguousMessage message then Some AmbiguousForAuto
    else enrichUnavailableWorkerSubmitError code message
  else
    let selector := trim_space selector in
    if negb (bool_decide (selector = "")) && (code =? LCodeNotFound)%Z && isExplicitSelectorNoWorkerMessage message
    then Some (NoWorkerMatches selector)
    else if negb (bool_decide (selector = "")) && (code =? LCodeConflict)%Z && isExplicitSelectorAmbiguousMessage message
    then Some (AmbiguousMatches selector)
    else enrichUnavailableWorkerSubmitError code message.

Definition runSubmitError (selector : string) (err : list sentinel) : list sentinel :=
  match as_ipc_error err with
  | None => err
  | Some (code, message) => match submit_advice selector code message with Some _ => [AnonymousError] | None => err end
  end.

(** ** Outputs *)

Inductive FetchAdvice := NoDeclaredOutputs | EndedBeforeOutputs | OutputsNotReady | OutputsNotFound | RetrievalDisabled.

Definition fetch_advice (code : Z) (message : string) : option FetchAdvice :=
  let message := to_lower message in
  if (code =? LCodeConflict)%Z && Contains message "job artifacts are not ready" then
    if Contains message " is succeeded" then Some NoDeclaredOutputs
    else if Contains message " is failed" || Contains message " is cancelled" || Contains message " is rejected"
            || Contains message " is lost" then Some EndedBeforeOutputs
    else Some OutputsNotReady
  else if (code =? LCodeNotFound)%Z && Contains message "artifacts" then Some OutputsNotFound
  else if (code =? LCodeConflict)%Z && Contains message "artifacts are not configured" then Some RetrievalDisabled
  else None.

Definition fetchArtifactsError (err : list sentinel) : list sentinel :=
  match as_ipc_error err with
  | None => err
  | Some (code, message) => match fetch_advice code message with Some _ => [AnonymousError] | None => err end
  end.

(** [filepath.Abs], with what [os.Getwd] returns. *)
Definition filepath_Abs (wd : result string) (path : string) : result string :=
  if filepath_IsAbs path then Ok (path_clean path) else wd ← wd; Ok (filepath_Join wd path).

(** [getwd] is the working directory that the command was given. *)
Definition resolveArtifactDestination (getwd wd : result string) (id defaultDestination destination : string) : result string :=
  if bool_decide (destination = "") then
    if negb (bool_decide (defaultDestination = "")) then
      if filepath_IsAbs defaultDestination then Ok (path_clean defaultDestination)
      else filepath_Abs wd defaultDestination
    else workingDirectory ← getwd; Ok (filepath_Join (filepath_Join workingDirectory ".computehop-results") id)
  else if filepath_IsAbs destination then Ok destination
  else filepath_Abs wd destination.

(** A call whose error is replaced by [f]. *)
Definition call_or (f : list sentinel → list sentinel) (operation : LocalOperation) : Cmd LocalResponse :=
  r ← attempt (call_daemon operation); match r with Ok response => mret response | Err e => run_fail (f e) end.

Definition fetchArtifactsWithDefault (getwd wd : result string) (id selector defaultDestination destination : string) : Cmd unit :=
  target ← run_lift (resolveArtifactDestination getwd wd id defaultDestination destination);
  response ← call_or fetchArtifactsError (LOpFetchArtifacts (Some (MkLFetch id selector target)));
  fetched ← expect get_fetched response;
  if bool_decide (lff_destination fetched = "") then invalid_response else
  _ ← print Stdout (line ("Restored " +:+ FormatUint (lff_restored_file_count fetched) +:+ " output file(s) to " +:+ lff_destination fetched));
  if (0 <? lff_conflict_file_count fetched)%Z then
    print Stderr (line ("Kept existing files unchanged; " +:+ FormatUint (lff_conflict_file_count fetched)
      +:+ " incoming conflict(s) are under " +:+ filepath_Join (lff_destination fetched) ".computehop-conflicts"))
  else mret tt.

Definition fetchArtifacts (getwd wd : result string) (id selector destination : string) : Cmd unit :=
  fetchArtifactsWithDefault getwd wd id selector "" destination.

(** [computehop outputs]. *)
Definition artifacts_command (getwd wd : result string) (argument selector destination : string) : Cmd unit :=
  id ← run_lift (ParseID argument);
  _ ← run_lift client;
  fetchArtifacts getwd wd id selector destination.

(** ** computehop run *)

Record RunFlags := MkRunFlags {
  rf_on : string; rf_directory : string; rf_outputs : list string; rf_follow : bool; rf_wait : bool;
  rf_get : bool; rf_to : string; rf_no_project : bool }.

(** Combinations of flags that contradict each other. *)
Definition run_flags_refused (flags : RunFlags) : bool :=
  negb (bool_decide (rf_to flags = "")) && negb (rf_get flags)
  || rf_get flags && bool_decide (rf_outputs flags = [])
  || rf_no_project flags && bool_decide (rf_on flags = "")
  || rf_no_project flags && negb (bool_decide (rf_directory flags = ""))
  || rf_no_project flags && negb (bool_decide (rf_outputs flags = [])).

Definition target_directory (flags : RunFlags) (getwd : result string) : result string :=
  if rf_no_project flags then Ok ""
  else if bool_decide (rf_directory flags = "") then getwd else Ok (rf_directory flags).

Definition run_spec (executable : string) (arguments : list string) (directory : string) (outputs : list string) : Spec :=
  MkSpec executable arguments directory ∅ ExecutorNative "" outputs [].

Definition shouldPrintRemotePreparation (selector directory : string) : bool :=
  negb (bool_decide (trim_space selector = "")) && negb (bool_decide (trim_space directory = "")).

(** Submitting and announcing the job. *)
Definition submit_run (spec : JobSpecMessage) (selector : string) : Cmd Job :=
  response ← call_or (runSubmitError selector) (LOpSubmitJob (Some (MkLSubmitJob (Some spec) selector "")));
  message ← expect get_submit response;
  decode (JobFromProto (Some message)).

Definition announce_submission (value : Job) (selector : string) : Cmd unit :=
  print Stdout (line (if bool_decide (selector = "")
    then "Submitted " +:+ ID value +:+ " (" +:+ state_string (JobState value) +:+ ")"
    else "Submitted " +:+ ID value +:+ " to " +:+ deviceSelectorDisplay selector +:+ " (" +:+ state_string (JobState value) +:+ ")")).

Definition when (b : bool) (m : Cmd unit) : Cmd unit := if b then m else mret tt.

Definition run_command (fuel : nat) (flags : RunFlags) (getwd wd : result string) (program : string) (arguments : list string) : Cmd unit :=
  if run_flags_refused flags then run_fail [AnonymousError] else
  directory ← run_lift (target_directory flags getwd);
  spec ← run_lift (SpecToProto (run_spec program arguments directory (rf_outputs flags)));
  _ ← run_lift client;
  _ ← when (shouldPrintRemotePreparation (rf_on flags) directory)
        (print Stderr (line ("Preparing remote run for " +:+ deviceSelectorDisplay (rf_on flags) +:+ " from " +:+ directory
          +:+ "; snapshot/upload may take a moment.")));
  value ← submit_run spec (rf_on flags);
  _ ← announce_submission value (rf_on flags);
  if negb (rf_wait flags || rf_follow flags || rf_get flags) then
    _ ← print Stdout (line ("Follow it: computehop logs --follow " +:+ ID value));
    when (negb (bool_decide (rf_outputs flags = [])))
      (print Stdout (line ("Get outputs after it succeeds: computehop outputs " +:+ ID value)))
  else
  value ← (if rf_follow flags then streamed ← streamJobLogs fuel (ID value) (rf_on flags) true; mret streamed.1
           else _ ← print Stdout (line ("Waiting for " +:+ ID value +:+ " to finish...")); waitForJob fuel (ID value) (rf_on flags));
  _ ← print Stdout (line ("Job " +:+ ID value +:+ " " +:+ state_string (JobState value)));
  if negb (bool_decide (JobState value = StateSucceeded)) then run_fail [AnonymousError] else
  if negb (rf_get flags) then
    when (negb (bool_decide (rf_outputs flags = []))) (print Stdout (line ("Get outputs: computehop outputs " +:+ ID value)))
  else fetchArtifactsWithDefault getwd wd (ID value) (rf_on flags) directory (rf_to flags).

(** [computehop smoke]. *)
Definition smoke_command (fuel : nat) (selector : string) : Cmd unit :=
  spec ← run_lift (SpecToProto (run_spec "hostname" [] "" []));
  _ ← run_lift client;
  value ← submit_run spec selector;
  _ ← print Stdout (line ("Submitted smoke test " +:+ ID value +:+ " to " +:+ deviceSelectorDisplay selector
        +:+ " (" +:+ state_string (JobState value) +:+ ")"));
  streamed ← streamJobLogs fuel (ID value) selector true;
  let value := streamed.1 in
  _ ← print Stdout (line ("Job " +:+ ID value +:+ " " +:+ state_string (JobState value)));
  if negb (bool_decide (JobState value = StateSucceeded)) then run_fail [AnonymousError] else
  print Stdout (line "Smoke test passed.").

(** [computehop logs]. *)
Definition logs_command (fuel : nat) (argument selector : string) (follow : bool) : Cmd unit :=
  id ← run_lift (ParseID argument);
  _ ← run_lift client;
  streamed ← streamJobLogs fuel id selector follow;
  if (0 <? streamed.2)%Z then mret tt else
  if State_Terminal (JobState streamed.1) then print Stderr (line ("No output captured for " +:+ id +:+ ".")) else
  _ ← print Stderr (line ("No output captured yet for " +:+ id +:+ " (" +:+ state_string (JobState streamed.1) +:+ ")."));
  print Stderr (line ("Tip: wait for new output with: computehop logs --follow " +:+ id)).

(** ** computehop jobs *)

Definition em_dash : string := str_of (encode_rune 0x2014).

Definition progressPhaseLabel (phase : ProgressPhase) : string := phase_string phase.

(** The first unit that fits, with one digit after the point. *)
Fixpoint format_units (units : list (string * Z)) (value : Z) : string :=
  match units with
  | [] => Itoa value +:+ "B"
  | (suffix, bytes) :: rest =>
      if (bytes <=? value)%Z then
        let whole := Z.quot value bytes in
        let tenth := Z.quot (Z.rem value bytes * 10) bytes in
        if (tenth =? 0)%Z then Itoa whole +:+ suffix else Itoa whole +:+ "." +:+ Itoa tenth +:+ suffix
      else format_units rest value
  end.
Definition formatByteCount (value : Z) : string := format_units [("GiB", 2 ^ 30); ("MiB", 2 ^ 20); ("KiB", 2 ^ 10)]%Z value.

Definition formatJobProgress (progress : option Progress) : string :=
  match progress with
  | None => em_dash
  | Some p =>
      let percent := if (0 <? JobModel.TotalBytes p)%Z then Z.quot (wrap_int64 (CompletedBytes p * 100)) (JobModel.TotalBytes p) else 0%Z in
      progressPhaseLabel (Phase p) +:+ " " +:+ Itoa percent +:+ "% (" +:+ formatByteCount (CompletedBytes p) +:+ "/"
      +:+ formatByteCount (JobModel.TotalBytes p) +:+ ")"
  end.

Definition printNoJobs (deviceSelector : string) : Cmd unit :=
  let selector := trim_space deviceSelector in
  if bool_decide (selector = "") then
    print_lines Stdout ["No jobs."; ""; "Next:"; "- Run a local test job: computehop run hostname"; "- Test a connected worker: computehop smoke"]
  else
    print_lines Stdout ["No jobs for " +:+ deviceSelectorDisplay selector +:+ "."; ""; "Next:";
      "- Run a worker smoke test: computehop smoke --on " +:+ shellArg selector;
      "- Submit a remote utility job: computehop run --on " +:+ shellArg selector +:+ " --no-project hostname"].

(** The messages of a list, decoded one after another. *)
Fixpoint decode_all {A B} (f : A → result B) (l : list A) : result (list B) :=
  match l with
  | [] => Ok []
  | x :: rest => y ← f x; ys ← decode_all f rest; Ok (y :: ys)
  end.

Definition job_row (value : Job) : string :=
  columns [ID value; state_string (JobState value); formatJobProgress (JobProgress value);
    Strings_Join (Executable (JobSpec value) :: Arguments_ (JobSpec value)) " "; FormatRFC3339 (UpdatedAt value)].

(** The table is written when it is complete. *)
Definition print_table (header : list string) (rows : list string) : Cmd unit :=
  print Stdout (Tabulate (columns header +:+ Strings_Join rows "")).

Definition jobs_command (limit : Z) (selector : string) : Cmd unit :=
  _ ← run_lift client;
  response ← call_daemon (LOpListJobs (Some (MkLListJobs [] limit selector)));
  messages ← expect get_jobs response;
  if bool_decide (length messages = 0) then printNoJobs selector else
  values ← decode (decode_all (λ m, JobFromProto (Some m)) messages);
  print_table ["ID"; "STATE"; "PROGRESS"; "COMMAND"; "UPDATED"] (map job_row values).

(** [computehop cancel]. *)
Definition cancel_command (argument selector : string) : Cmd unit :=
  id ← run_lift (ParseID argument);
  _ ← run_lift client;
  response ← call_daemon (LOpCancelJob (Some (MkLJobRef id selector)));
  message ← expect get_cancel response;
  value ← decode (JobFromProto (Some message));
  print Stdout (line (if bool_decide (JobState value = StateCancelled) then "Cancelled " +:+ ID value
    else "Cancellation requested for " +:+ ID value +:+ " (" +:+ state_string (JobState value) +:+ ")")).

(** ** What a command asks the daemon *)

(** Steps that ask nothing. *)
Definition quiet {A} (m : Cmd A) : Prop := ∀ s, ss_calls (m s).2 = ss_calls s.

Lemma quiet_write to data : quiet (write to data).
Proof. intros s. unfold write. by destruct (ss_writes s _). Qed.
Lemma quiet_wait : quiet waitForNextPoll.
Proof. done. Qed.
Lemma quiet_lift {A} (r : result A) : quiet (run_lift r).
Proof. done. Qed.
Lemma quiet_ret {A} (a : A) : quiet (mret a).
Proof. done. Qed.
Lemma quiet_when b m : quiet m → quiet (when b m).
Proof. by destruct b. Qed.
Lemma quiet_expect {A} (get : LocalResult → option A) response : quiet (expect get response).
Proof. unfold expect. by case_match. Qed.
Lemma quiet_decode {A} (r : result A) : quiet (decode r).
Proof. by destruct r. Qed.
Lemma quiet_bind {A B} (m : Cmd A) (f : A → Cmd B) : quiet m → (∀ a, quiet (f a)) → quiet (m ≫= f).
Proof.
  intros Hm Hf s. specialize (Hm s). unfold mbind, Run_bind. destruct (m s) as [[a|e] s']; [|done].
  cbn in Hm. by rewrite (Hf a s').
Qed.
Lemma quiet_emit records after emitted : quiet (emit_records records after emitted).
Proof.
  revert after emitted. induction records as [|record rest IH]; intros after emitted; [done|]. cbn [emit_records].
  destruct (_ <=? _)%Z; [done|]. destruct (record_output record); [|done]. apply quiet_bind; [apply quiet_write|intros _; apply IH].
Qed.

(** A quiet step before a run adds nothing to what the rest asks. *)
Lemma runs_quiet {A B} (m : Cmd A) (f : A → Cmd B) s (Q : result B → Session S → Prop) : quiet m →
  (∀ e s', ss_calls s' = ss_calls s → Q (Err e) s') →
  (∀ a s', ss_calls s' = ss_calls s → (m s).1 = Ok a → runs (f a) s' Q) → runs (m ≫= f) s Q.
Proof.
  intros Hm He Ha. apply runs_bind. unfold runs. specialize (Hm s). destruct (m s) as [[a|e] s']; cbn in *; [by apply (Ha a s')|by apply He].
Qed.

(** One question. *)
Lemma runs_call operation s (Q : result LocalResponse → Session S → Prop) :
  (∀ r s', ss_calls s' = ss_calls s ++ [(operation, r)] → Q r s') → runs (call_daemon operation) s Q.
Proof. intros HQ. unfold runs, call_daemon. destruct (Caller_Call _ _) as [r d]. by apply HQ. Qed.

(** The answer [a] is about the job [v]. *)
Definition tells (a : result LocalResponse) (v : Job) : Prop := ∃ response m,
  a = Ok response ∧ JobFromProto (Some m) = Ok v ∧
  (lp_result response = Some (LResGetJob m) ∨ ∃ logs, lp_result response = Some (LResReadJobLogs logs) ∧ llr_job logs = m).

Definition asks_about (id selector : string) (operation : LocalOperation) : Prop :=
  operation = LOpGetJob (Some (MkLJobRef id selector)) ∨
  ∃ after, operation = LOpReadJobLogs (Some (MkLReadLogs id after 32 selector)).

(** Waiting for a job asks about it only, and returns what the last answer says of it. *)
Definition waits_for (id selector : string) (ended : bool) (s : Session S) (r : result Job) (s' : Session S) : Prop :=
  ∃ polls, ss_calls s' = ss_calls s ++ polls ∧ Forall (λ c, asks_about id selector c.1) polls ∧
    ∀ v, r = Ok v → (ended = true → State_Terminal (JobState v) = true) ∧ ∃ before q a, polls = before ++ [(q, a)] ∧ tells a v.

Lemma expect_ok {A} (get : LocalResult → option A) response s a :
  (expect get response s).1 = Ok a → ∃ r, lp_result response = Some r ∧ get r = Some a.
Proof. unfold expect. destruct (lp_result response) as [r|]; cbn; [|done]. destruct (get r) eqn:E; [|done]. intros [= ->]. eauto. Qed.
Lemma decode_ok {A} (r : result A) s a : (decode r s).1 = Ok a → r = Ok a.
Proof. by destruct r. Qed.

(** A poll in front of the others. *)
Lemma waits_more id selector ended q a (s s1 s' : Session S) r : asks_about id selector q → ss_calls s1 = ss_calls s ++ [(q, a)] →
  waits_for id selector ended s1 r s' → waits_for id selector ended s r s'.
Proof.
  intros Hq H1 (polls & Hc & Hp & Hv). exists ((q, a) :: polls). rewrite Hc, H1, <-app_assoc. split_and!; [done|by constructor|].
  intros v Hr. destruct (Hv v Hr) as (He & before & q' & a' & -> & Ht). split; [done|]. by exists ((q, a) :: before), q', a'.
Qed.

(** The last poll. *)
Lemma waits_last id selector ended q a (s s' : Session S) v : asks_about id selector q → ss_calls s' = ss_calls s ++ [(q, a)] →
  tells a v → (ended = true → State_Terminal (JobState v) = true) → waits_for id selector ended s (Ok v) s'.
Proof.
  intros Hq H1 Ht He. exists [(q, a)]. split_and!; [done|by apply Forall_singleton|]. intros ? [= <-]. split; [done|]. by exists [], q, a.
Qed.
Lemma waits_failed id selector ended q a (s s' : Session S) e : asks_about id selector q → ss_calls s' = ss_calls s ++ [(q, a)] →
  waits_for id selector ended s (Err e) s'.
Proof. intros Hq H1. exists [(q, a)]. split_and!; [done|by apply Forall_singleton|done]. Qed.
Lemma waits_nothing id selector ended (s s' : Session S) e : ss_calls s' = ss_calls s → waits_for id selector ended s (Err e) s'.
Proof. intros H1. exists []. rewrite app_nil_r. split_and!; [done|constructor|done]. Qed.

Lemma waitForJob_asks fuel id selector s : runs (waitForJob fuel id selector) s (λ r s', waits_for id selector true s r s').
Proof.
  revert s. induction fuel as [|fuel IH]; intros s; cbn [waitForJob]; [by apply runs_fail, waits_nothing|].
  assert (asks_about id selector (LOpGetJob (Some (MkLJobRef id selector)))) as Hq by (by left).
  apply runs_bind, runs_call. intros [response|e] s1 H1; [|by eapply waits_failed].
  apply runs_quiet; [apply quiet_expect|intros e s2 H2; eapply waits_failed; [done|by rewrite H2]|]. intros m s2 H2 (r & Hr & Hg)%expect_ok.
  apply runs_quiet; [apply quiet_decode|intros e s3 H3; eapply waits_failed; [done|by rewrite H3, H2]|]. intros v s3 H3 Hv%decode_ok.
  destruct (State_Terminal (JobState v)) eqn:Ht.
  - apply runs_ret. eapply waits_last; [done|by rewrite H3, H2| |done]. exists response, m. destruct r; cbn in Hg; simplify_eq; auto.
  - apply runs_quiet; [apply quiet_wait|intros e s4 H4; eapply waits_failed; [done|by rewrite H4, H3, H2]|]. intros [] s4 H4 _.
    eapply runs_mono; [apply IH|]. intros r' s5. eapply waits_more; [done|by rewrite H4, H3, H2].
Qed.

Lemma stream_asks fuel id selector follow after emitted s :
  runs (stream_loop fuel id selector follow after emitted) s (λ r s', waits_for id selector follow s (p ← r; Ok p.1) s').
Proof.
  revert after emitted s. induction fuel as [|fuel IH]; intros after emitted s; cbn [stream_loop]; [by apply runs_fail, waits_nothing|].
  assert (asks_about id selector (LOpReadJobLogs (Some (MkLReadLogs id after 32 selector)))) as Hq by (right; eauto).
  apply runs_bind, runs_call. intros [response|e] s1 H1; [|by eapply waits_failed].
  apply runs_quiet; [apply quiet_expect|intros e s2 H2; eapply waits_failed; [done|by rewrite H2]|]. intros logs s2 H2 (r & Hr & Hg)%expect_ok.
  apply runs_quiet; [apply quiet_emit|intros e s3 H3; eapply waits_failed; [done|by rewrite H3, H2]|]. intros position s3 H3 _.
  destruct (llr_has_more logs).
  { eapply runs_mono; [apply IH|]. intros r' s4. eapply waits_more; [done|by rewrite H3, H2]. }
  apply runs_quiet; [apply quiet_decode|intros e s4 H4; eapply waits_failed; [done|by rewrite H4, H3, H2]|]. intros v s4 H4 Hv%decode_ok.
  destruct (negb follow || State_Terminal (JobState v)) eqn:Ht.
  - apply runs_ret. eapply waits_last; [done|by rewrite H4, H3, H2| |intros ->; by cbn in Ht].
    exists response, (llr_job logs). destruct r; cbn in Hg; simplify_eq. split_and!; [done|done|right; eauto].
  - apply runs_quiet; [apply quiet_wait|intros e s5 H5; eapply waits_failed; [done|by rewrite H5, H4, H3, H2]|]. intros [] s5 H5 _.
    eapply runs_mono; [apply IH|]. intros r' s6. eapply waits_more; [done|by rewrite H5, H4, H3, H2].
Qed.

(** ** What [computehop run] does *)

(** The daemon accepted the job [v]. *)
Definition accepted (a : result LocalResponse) (v : Job) : Prop := ∃ response m,
  a = Ok response ∧ lp_result response = Some (LResSubmitJob m) ∧ JobFromProto (Some m) = Ok v.

(** The outputs were restored. *)
Definition restored (a : result LocalResponse) : Prop := ∃ response f,
  a = Ok response ∧ lp_result response = Some (LResFetchArtifacts f) ∧ lff_destination f ≠ "".

(** The calls that [computehop run] makes, with its result: the submission once; if it is
    to wait, questions about the accepted job until one is answered by a job that
    ended; and the request for outputs, only if they were asked for, after an answer
    that the job succeeded, and to the destination that the flags name. *)
Section History.
Context (flags : RunFlags) (getwd wd : result string) (submission : LocalOperation).

Definition waiting : bool := rf_wait flags || rf_follow flags || rf_get flags.

Inductive run_history : list (LocalOperation * result LocalResponse) → result unit → Prop :=
| Unasked e : run_history [] (Err e)
| NotAccepted a e : run_history [(submission, a)] (Err e)
| Submitted a v r : accepted a v → waiting = false → run_history [(submission, a)] r
| Unfinished a v polls e : accepted a v → waiting = true → Forall (λ c, asks_about (ID v) (rf_on flags) c.1) polls →
    run_history ((submission, a) :: polls) (Err e)
| Succeeded a v polls q answer w r : accepted a v → waiting = true → Forall (λ c, asks_about (ID v) (rf_on flags) c.1) (polls ++ [(q, answer)]) →
    tells answer w → JobState w = StateSucceeded → rf_get flags = false →
    run_history ((submission, a) :: polls ++ [(q, answer)]) r
| Fetched a v polls q answer w directory target fetched r : accepted a v → waiting = true →
    Forall (λ c, asks_about (ID v) (rf_on flags) c.1) (polls ++ [(q, answer)]) →
    tells answer w → JobState w = StateSucceeded → rf_get flags = true →
    target_directory flags getwd = Ok directory → resolveArtifactDestination getwd wd (ID w) directory (rf_to flags) = Ok target →
    (r = Ok tt → restored fetched) →
    run_history ((submission, a) :: polls ++ [(q, answer); (LOpFetchArtifacts (Some (MkLFetch (ID w) (rf_on flags) target)), fetched)]) r.
End History.

(** A call whose error is replaced. *)
Lemma runs_call_or f operation s (Q : result LocalResponse → Session S → Prop) :
  (∀ r s', ss_calls s' = ss_calls s ++ [(operation, r)] → Q (match r with Ok a => Ok a | Err e => Err (f e) end) s') →
  runs (call_or f operation) s Q.
Proof. intros HQ. unfold call_or. apply runs_bind, runs_attempt, runs_call. intros [a|e] s' Hs; apply (HQ _ _ Hs). Qed.

(** Submitting asks once. *)
Lemma submit_asks spec selector s : runs (submit_run spec selector) s (λ r s',
  ∃ a, ss_calls s' = ss_calls s ++ [(LOpSubmitJob (Some (MkLSubmitJob (Some spec) selector "")), a)] ∧ ∀ v, r = Ok v → accepted a v).
Proof.
  unfold submit_run. apply runs_bind, runs_call_or. intros [response|e] s1 H1; [|by exists (Err e)].
  apply runs_quiet; [apply quiet_expect|intros e s2 H2; exists (Ok response); by rewrite H2|]. intros m s2 H2 (r & Hr & Hg)%expect_ok.
  unfold runs. rewrite (quiet_decode _ s2), H2. exists (Ok response). split; [done|]. intros v Hv%decode_ok.
  exists response, m. destruct r; cbn in Hg; by simplify_eq.
Qed.

Lemma quiet_print to text : quiet (print to text).
Proof. apply quiet_write. Qed.

(** Fetching asks at most once. *)
Lemma fetch_asks getwd wd id selector default destination s :
  runs (fetchArtifactsWithDefault getwd wd id selector default destination) s (λ r s',
    (ss_calls s' = ss_calls s ∧ r ≠ Ok tt) ∨
    ∃ target a, resolveArtifactDestination getwd wd id default destination = Ok target ∧
      ss_calls s' = ss_calls s ++ [(LOpFetchArtifacts (Some (MkLFetch id selector target)), a)] ∧ (r = Ok tt → restored a)).
Proof.
  unfold fetchArtifactsWithDefault. apply runs_bind, runs_lift.
  destruct (resolveArtifactDestination _ _ _ _ _) as [target|e]; [|by left].
  apply runs_bind, runs_call_or. intros [response|e] s1 H1; right; exists target; [|by exists (Err e)]. exists (Ok response).
  apply runs_quiet; [apply quiet_expect|intros e s2 H2; by rewrite H2|]. intros fetched s2 H2 (r & Hr & Hg)%expect_ok.
  case_bool_decide as Hd; [apply runs_fail; by rewrite H2|].
  assert (restored (Ok response)) as Hrest by (exists response, fetched; destruct r; cbn in Hg; by simplify_eq).
  apply runs_quiet; [apply quiet_print|intros e s3 H3; by rewrite H3, H2|]. intros [] s3 H3 _.
  unfold runs. case_match; [rewrite (quiet_print _ _ s3)|cbn]; by rewrite H3, H2.
Qed.

Definition submission_of (spec : JobSpecMessage) (flags : RunFlags) : LocalOperation :=
  LOpSubmitJob (Some (MkLSubmitJob (Some spec) (rf_on flags) "")).

(** Waiting, by either way. *)
Lemma wait_asks fuel flags v s :
  runs (if rf_follow flags then streamed ← streamJobLogs fuel (ID v) (rf_on flags) true; mret streamed.1
        else _ ← print Stdout (line ("Waiting for " +:+ ID v +:+ " to finish...")); waitForJob fuel (ID v) (rf_on flags)) s
    (λ r s', waits_for (ID v) (rf_on flags) true s r s').
Proof.
  destruct (rf_follow flags).
  - apply runs_bind. eapply runs_mono; [apply stream_asks|]. by intros [[w n]|e] s'.
  - apply runs_quiet; [apply quiet_print|intros e s1 H1; by apply waits_nothing|]. intros [] s1 H1 _.
    eapply runs_mono; [apply waitForJob_asks|]. intros r s2 (polls & Hc & Hp). exists polls. by rewrite Hc, H1.
Qed.

(** After the job has ended. *)
Lemma finish_asks flags getwd wd submission directory a v w polls q answer s :
  let settled := (submission, a) :: polls ++ [(q, answer)] in
  accepted a v → waiting flags = true → target_directory flags getwd = Ok directory →
  Forall (λ c, asks_about (ID v) (rf_on flags) c.1) (polls ++ [(q, answer)]) → tells answer w →
  runs (_ ← print Stdout (line ("Job " +:+ ID w +:+ " " +:+ state_string (JobState w)));
        if negb (bool_decide (JobState w = StateSucceeded)) then run_fail [AnonymousError] else
        if negb (rf_get flags) then
          when (negb (bool_decide (rf_outputs flags = []))) (print Stdout (line ("Get outputs: computehop outputs " +:+ ID w)))
        else fetchArtifactsWithDefault getwd wd (ID w) (rf_on flags) directory (rf_to flags)) s
    (λ r s', ∃ new, ss_calls s' = ss_calls s ++ new ∧ run_history flags getwd wd submission (settled ++ new) r).
Proof.
  intros settled Ha Hw Hdir Hp Ht.
  apply runs_quiet; [apply quiet_print|intros e s1 H1; exists []; rewrite !app_nil_r; split; [done|by eapply Unfinished]|]. intros [] s1 H1 _.
  case_bool_decide as Hs; cbn [negb]; [|apply runs_fail; exists []; rewrite !app_nil_r; split; [done|by eapply Unfinished]].
  destruct (rf_get flags) eqn:Hg; cbn [negb].
  - eapply runs_mono; [apply fetch_asks|]. intros r s2 [[H2 Hr]|(target & f & Hres & H2 & Hr)].
    + exists []. rewrite !app_nil_r, H2. split; [done|]. destruct r as [[]|e]; [done|]. by eapply Unfinished.
    + exists [(LOpFetchArtifacts (Some (MkLFetch (ID w) (rf_on flags) target)), f)]. rewrite H2, H1. split; [done|].
      unfold settled. cbn [app]. rewrite <-app_assoc. by eapply Fetched.
  - unfold runs. rewrite (quiet_when _ _ (quiet_print _ _) s1). exists []. rewrite !app_nil_r, H1. split; [done|]. by eapply Succeeded.
Qed.

(** [new] is what the command asked. *)
Definition run_outcome (flags : RunFlags) (getwd wd : result string) (program : string) (arguments : list string)
    (new : list (LocalOperation * result LocalResponse)) (r : result unit) : Prop :=
  (new = [] ∧ r ≠ Ok tt) ∨
  ∃ directory spec, target_directory flags getwd = Ok directory ∧
    SpecToProto (run_spec program arguments directory (rf_outputs flags)) = Ok spec ∧
    run_flags_refused flags = false ∧ run_history flags getwd wd (submission_of spec flags) new r.

Lemma run_asks fuel flags getwd wd program arguments s :
  runs (run_command fuel flags getwd wd program arguments) s (λ r s',
    ∃ new, ss_calls s' = ss_calls s ++ new ∧ run_outcome flags getwd wd program arguments new r).
Proof.
  assert (∀ e (s' : Session S), ss_calls s' = ss_calls s →
    ∃ new, ss_calls s' = ss_calls s ++ new ∧ run_outcome flags getwd wd program arguments new (Err e)) as Hnone.
  { intros e s' Hs. exists []. rewrite app_nil_r. split; [done|]. by left. }
  unfold run_command. destruct (run_flags_refused flags) eqn:Hf; [by apply runs_fail, Hnone|].
  apply runs_bind, runs_lift. destruct (target_directory flags getwd) as [directory|] eqn:Hdir; [|by apply Hnone].
  apply runs_bind, runs_lift. destruct (SpecToProto _) as [spec|] eqn:Hspec; [|by apply Hnone].
  apply runs_bind, runs_lift. destruct client as [[]|]; [|by apply Hnone].
  apply runs_quiet; [by apply quiet_when, quiet_print|apply Hnone|]. intros [] s1 H1 _.
  assert (∀ (s' : Session S) new r, ss_calls s' = ss_calls s ++ new → run_history flags getwd wd (submission_of spec flags) new r →
    ∃ new, ss_calls s' = ss_calls s ++ new ∧ run_outcome flags getwd wd program arguments new r) as Hsome.
  { intros s' new r Hs Hh. exists new. split; [done|]. right. by exists directory, spec. }
  clear Hnone.
  apply runs_bind. eapply runs_mono; [apply submit_asks|]. intros r s2 (a & H2 & Ha). rewrite H1 in H2.
  destruct r as [v|e]; [|eapply Hsome; [done|apply NotAccepted]]. specialize (Ha v eq_refl).
  apply runs_quiet; [apply quiet_print|intros e s3 H3; rewrite H2 in H3; eapply Hsome; [done|apply NotAccepted]|]. intros [] s3 H3 _.
  rewrite H2 in H3. fold (waiting flags). destruct (waiting flags) eqn:Hw; cbn [negb].
  - apply runs_bind. eapply runs_mono; [apply wait_asks|]. intros r s4 (polls & H4 & Hp & Hv). rewrite H3, <-app_assoc in H4.
    destruct r as [w|e]; [|eapply Hsome; [exact H4|eapply Unfinished; [exact Ha|done|exact Hp]]].
    destruct (Hv w eq_refl) as (_ & before & q & answer & -> & Ht).
    eapply runs_mono; [by apply (finish_asks flags getwd wd (submission_of spec flags) directory a v w before q answer)|].
    intros r s5 (new & H5 & Hh). eapply Hsome; [|done]. by rewrite H5, H4, <-app_assoc.
  - assert (∀ r, run_history flags getwd wd (submission_of spec flags) [(submission_of spec flags, a)] r) as Hh
      by (intros r; by eapply Submitted).
    apply runs_quiet; [apply quiet_print|intros e s4 H4; rewrite H3 in H4; by eapply Hsome|]. intros [] s4 H4 _.
    unfold runs. eapply Hsome; [|apply Hh]. rewrite (quiet_when _ _ (quiet_print _ _) s4). by rewrite H4.
Qed.

(** C33 [computehop run] submits its job once, and not at all if its flags contradict each
    other.  Asked to wait, it succeeds only after the daemon answered a question about
    the accepted job with a job that succeeded; it asks for outputs only if the flags
    say so, after such an answer, and for the destination the flags name, and then
    succeeds only if they were restored. *)
Theorem run_reports_success fuel flags getwd wd program arguments s : ∃ new,
  ss_calls (run_command fuel flags getwd wd program arguments s).2 = ss_calls s ++ new ∧
  run_outcome flags getwd wd program arguments new (run_command fuel flags getwd wd program arguments s).1.
Proof. exact (run_asks fuel flags getwd wd program arguments s). Qed.

(** ** Following a log *)

(** What the client relies on of a daemon that serves the log of one job: the log only
    grows, its sequences ascend from 1, and a page holds the first 32 records after the
    requested sequence and says whether there are more. *)
Class LogServer (id selector : string) := {
  served_log : S → list LogRecordMessage;
  served_ascends d : StronglySorted (λ a b, lm_sequence a < lm_sequence b)%Z (served_log d);
  served_positive d : Forall (λ a, 0 < lm_sequence a)%Z (served_log d);
  served_page after d r d' :
    Caller_Call (MkLocalRequest 0 "" [] (Some (LOpReadJobLogs (Some (MkLReadLogs id after 32 selector))))) d = (r, d') →
    served_log d `prefix_of` served_log d' ∧
    ∀ response logs, r = Ok response → lp_result response = Some (LResReadJobLogs logs) →
      llr_records logs = take 32 (filter (λ a, (after < lm_sequence a)%Z) (served_log d')) ∧
      llr_has_more logs = (32 <? length (filter (λ a, (after < lm_sequence a)%Z) (served_log d')))
}.

(** Where a record goes. *)
Definition record_text (record : LogRecordMessage) : Output * bytes :=
  (if (lm_stream record =? 1)%Z then Stdout else Stderr, lm_data record).

Definition last_sequence (after : Z) (l : list LogRecordMessage) : Z :=
  match last l with Some record => lm_sequence record | None => after end.

Lemma last_sequence_cons after record l : last_sequence after (record :: l) = last_sequence (lm_sequence record) l.
Proof. unfold last_sequence. rewrite last_cons. by destruct (last l). Qed.
Lemma last_sequence_after after l k : last_sequence after (l ++ k) = last_sequence (last_sequence after l) k.
Proof. unfold last_sequence. rewrite last_app. by destruct (last k). Qed.

(** The records of a page are written in order, all of them unless an error ends it. *)
Lemma emit_writes records after emitted s : runs (emit_records records after emitted) s (λ r s',
  ss_daemon s' = ss_daemon s ∧ ∃ k, ss_text s' = ss_text s ++ map record_text (take k records) ∧
    ∀ p, r = Ok p → k = length records ∧ p.1 = last_sequence after records).
Proof.
  revert after emitted s. induction records as [|record rest IH]; intros after emitted s; cbn [emit_records].
  { apply runs_ret. split; [done|]. exists 0. rewrite app_nil_r. split; [done|]. by intros ? [= <-]. }
  assert (∀ e, ss_daemon s = ss_daemon s ∧ ∃ k, ss_text s = ss_text s ++ map record_text (take k (record :: rest)) ∧
    ∀ p, Err (A := Z * Z) e = Ok p → k = length (record :: rest) ∧ p.1 = last_sequence after (record :: rest)) as Hnone.
  { intros e. split; [done|]. exists 0. by rewrite app_nil_r. }
  destruct (_ <=? _)%Z; [apply runs_fail, Hnone|].
  destruct (record_output record) as [to|] eqn:Hto; [|apply runs_fail, Hnone].
  apply runs_bind. unfold runs at 1, write. destruct (ss_writes s _); cbn [fst snd]; [|apply Hnone].
  eapply runs_mono; [apply IH|]. cbn [ss_daemon ss_text]. intros r s' (Hd & k & Ht & Hr). split; [done|]. exists (Datatypes.S k).
  rewrite Ht, <-app_assoc. cbn [take map]. split; [|intros p Hp; destruct (Hr p Hp) as [-> ->]; by rewrite last_sequence_cons].
  f_equal. cbn. f_equal. unfold record_text. revert Hto. unfold record_output. repeat case_match; by intros [= <-].
Qed.

Lemma last_sequence_ge after l : Forall (λ a, after < lm_sequence a)%Z l → (after ≤ last_sequence after l)%Z.
Proof.
  intros Hl. unfold last_sequence. destruct (last l) as [a|] eqn:E; [|lia]. apply last_Some_elem_of in E.
  rewrite Forall_forall in Hl. specialize (Hl a E). cbn in Hl. lia.
Qed.

Lemma filter_later after l : Forall (λ a, after < lm_sequence a)%Z l → filter (λ a, (after < lm_sequence a)%Z) l = l.
Proof. induction 1 as [|a l Ha _ IH]; [done|]. by rewrite filter_cons_True, IH. Qed.

(** What follows the last record that was seen. *)
Lemma filter_after after seen rest :
  StronglySorted (λ a b, lm_sequence a < lm_sequence b)%Z (seen ++ rest) → Forall (λ a, after < lm_sequence a)%Z (seen ++ rest) →
  filter (λ a, (last_sequence after seen < lm_sequence a)%Z) (seen ++ rest) = rest.
Proof.
  revert after. induction seen as [|x seen IH]; intros after Hs Hp; [by apply filter_later|].
  cbn [app] in *. apply StronglySorted_inv in Hs as [Hs Hx]. rewrite last_sequence_cons.
  assert (lm_sequence x ≤ last_sequence (lm_sequence x) seen)%Z as Hle.
  { apply last_sequence_ge. by apply Forall_app in Hx as [Hx _]. }
  rewrite filter_cons_False by lia. by apply IH.
Qed.

Section Following.
Context (id selector : string) `{!LogServer id selector}.

(** [seen] of the log has been written after [before]. *)
Definition streamed (before : list (Output * bytes)) (seen : list LogRecordMessage) (s : Session S) : Prop :=
  seen `prefix_of` served_log (ss_daemon s) ∧ ss_text s = before ++ map record_text seen.

Definition writes_log (before : list (Output * bytes)) (ok : bool) (s : Session S) : Prop :=
  ∃ seen, streamed before seen s ∧ (ok = true → seen = served_log (ss_daemon s)).

Lemma failed_log before seen s : streamed before seen s → writes_log before false s.
Proof. intros Hs. by exists seen. Qed.

(** A page continues what was seen. *)
Lemma page_writes before seen rest records emitted s : records = take 32 rest → served_log (ss_daemon s) = seen ++ rest → ss_text s = before ++ map record_text seen →
  runs (emit_records records (last_sequence 0 seen) emitted) s (λ r s',
    match r with
    | Err e => writes_log before false s'
    | Ok p => streamed before (seen ++ take 32 rest) s' ∧ served_log (ss_daemon s') = seen ++ rest ∧ p.1 = last_sequence 0 (seen ++ take 32 rest)
    end).
Proof.
  intros -> Hl Ht. eapply runs_mono; [apply emit_writes|]. intros r s' (Hd & k & Htext & Hr).
  assert (∀ j, streamed before (seen ++ take j rest) s' ↔ ss_text s' = before ++ map record_text (seen ++ take j rest)) as Hst.
  { intros j. unfold streamed. rewrite Hd, Hl. split; [by intros []|]. intros Hx. split; [|done].
    apply prefix_app. exists (drop j rest). by rewrite take_drop. }
  rewrite Ht, take_take, <-app_assoc, <-map_app in Htext.
  destruct r as [p|e]; [|by eapply failed_log, Hst]. destruct (Hr p eq_refl) as [-> ->]. rewrite length_take in Htext.
  split_and!; [|by rewrite Hd|by rewrite last_sequence_after].
  apply Hst. rewrite Htext. do 3 f_equal. destruct (decide (32 ≤ length rest)); [f_equal; lia|]. by rewrite !take_ge by lia.
Qed.

Lemma stream_writes fuel follow before seen emitted s : streamed before seen s →
  runs (stream_loop fuel id selector follow (last_sequence 0 seen) emitted) s (λ r s', writes_log before (if r then true else false) s').
Proof.
  revert seen emitted s. induction fuel as [|fuel IH]; intros seen emitted s Hs; cbn [stream_loop]; [by apply runs_fail, (failed_log _ seen)|].
  destruct Hs as [Hpre Ht]. apply runs_bind. unfold runs at 1, call_daemon.
  destruct (Caller_Call _ _) as [r d] eqn:E. apply served_page in E as [Hgrow Hpage]. cbn [fst snd].
  assert (seen `prefix_of` served_log d) as Hpre' by (by etrans). destruct Hpre' as [rest Hl].
  set (s1 := MkSession d _ _ _ _ _). assert (streamed before seen s1) as Hs1 by (split; [by exists rest|done]).
  destruct r as [response|e]; [|by apply (failed_log _ seen)]. specialize (Hpage response).
  apply runs_bind. unfold runs at 1, expect. destruct (lp_result response) as [result_|]; cbn [mbind option_bind]; [|by apply (failed_log _ seen)].
  destruct (get_logs result_) as [logs|] eqn:Hg; [|by apply (failed_log _ seen)]. cbn [fst snd mret Run_ret].
  destruct (Hpage logs eq_refl) as [Hrec Hmore]; [by destruct result_; cbn in Hg; simplify_eq|].
  rewrite Hl in Hrec, Hmore. rewrite filter_after in Hrec, Hmore by (rewrite <-Hl; first [apply served_ascends|apply served_positive]).
  apply runs_bind. eapply runs_mono; [by apply (page_writes before seen rest)|]. intros [p|e] s2; [|done]. intros (Hs2 & Hl2 & ->).
  rewrite Hmore. destruct (32 <? length rest) eqn:Hlen; [by apply IH|].
  apply Nat.ltb_ge in Hlen. rewrite take_ge in * by lia.
  apply runs_bind. unfold runs at 1. destruct (JobFromProto (Some (llr_job logs))) as [v|e]; cbn [decode mret Run_ret fst snd]; [|by eapply failed_log].
  destruct (_ || _); [by exists (seen ++ rest)|].
  apply runs_bind. unfold runs at 1, waitForNextPoll. destruct (ss_ended s2 _); cbn; [by eapply failed_log|]. by apply IH.
Qed.

(** *** A log that has ended *)

(** The daemon answers, the log stays, and the job [v] has ended. *)
Definition settled (v : Job) : Prop := State_Terminal (JobState v) = true ∧
  ∀ after d, ∃ response logs d',
    Caller_Call (MkLocalRequest 0 "" [] (Some (LOpReadJobLogs (Some (MkLReadLogs id after 32 selector))))) d = (Ok response, d') ∧
    lp_result response = Some (LResReadJobLogs logs) ∧ JobFromProto (Some (llr_job logs)) = Ok v ∧ served_log d' = served_log d.

Definition writable (s : Session S) : Prop := ∀ n, ss_writes s n = true.
Definition readable (l : list LogRecordMessage) : Prop := Forall (λ a, is_Some (record_output a)) l.

Lemma emit_ends records after emitted s : writable s → readable records →
  StronglySorted (λ a b, lm_sequence a < lm_sequence b)%Z records → Forall (λ a, after < lm_sequence a)%Z records →
  runs (emit_records records after emitted) s (λ r s', writable s' ∧ ss_daemon s' = ss_daemon s ∧ ∃ n, r = Ok (last_sequence after records, n)).
Proof.
  revert after emitted s. induction records as [|record rest IH]; intros after emitted s Hw Hr Hs Ha; cbn [emit_records].
  { apply runs_ret. split_and!; [done|done|]. by eexists. }
  apply StronglySorted_inv in Hs as [Hs Hx]. inversion_clear Ha as [|?? Ha1 Ha2]. inversion_clear Hr as [|?? [to Hto] Hr2].
  destruct (lm_sequence record <=? after)%Z eqn:E; [apply Z.leb_le in E; lia|]. rewrite Hto.
  apply runs_bind. unfold runs at 1, write. rewrite Hw. cbn [fst snd]. rewrite last_sequence_cons.
  eapply runs_mono; [by apply IH|]. done.
Qed.

Lemma stream_ends v fuel follow seen rest emitted s : settled v → writable s → readable rest →
  served_log (ss_daemon s) = seen ++ rest → length rest < 32 * fuel →
  runs (stream_loop fuel id selector follow (last_sequence 0 seen) emitted) s (λ r s', served_log (ss_daemon s') = seen ++ rest ∧ ∃ n, r = Ok (v, n)).
Proof.
  intros [Hv Hset]. revert seen rest emitted s. induction fuel as [|fuel IH]; intros seen rest emitted s Hw Hr Hl Hf; [lia|]. cbn [stream_loop].
  apply runs_bind. unfold runs at 1, call_daemon.
  destruct (Hset (last_sequence 0 seen) (ss_daemon s)) as (response & logs & d & E & Hres & Hjob & Hd). rewrite E. cbn [fst snd].
  apply served_page in E as [_ Hpage]. destruct (Hpage response logs eq_refl Hres) as [Hrec Hmore].
  pose proof (served_ascends d) as Hs. pose proof (served_positive d) as Hp. rewrite Hd, Hl in *.
  rewrite filter_after in Hrec, Hmore by done.
  assert (Forall (λ a, last_sequence 0 seen < lm_sequence a)%Z rest) as Hlater.
  { rewrite <-(filter_after 0 seen rest) by done. apply Forall_forall. intros a. rewrite list_elem_of_filter. by intros []. }
  apply StronglySorted_app in Hs as (_ & _ & Hs).
  apply runs_bind. unfold runs at 1, expect. rewrite Hres. cbn [fst snd mret Run_ret mbind option_bind get_logs].
  apply runs_bind. rewrite Hrec. eapply runs_mono.
  { apply emit_ends; [done|by apply Forall_take|rewrite <-(take_drop 32 rest) in Hs; by apply StronglySorted_app_1_l in Hs|by apply Forall_take]. }
  intros r s2 (Hw2 & Hd2 & n & ->). cbn [fst snd]. rewrite <-last_sequence_after, Hmore.
  assert (served_log (ss_daemon s2) = seen ++ rest) as Hl2 by (by rewrite Hd2).
  destruct (32 <? length rest) eqn:Hlen.
  - replace (seen ++ rest) with ((seen ++ take 32 rest) ++ drop 32 rest) in * by (by rewrite <-app_assoc, take_drop).
    apply IH; [done|by apply Forall_drop|done|]. rewrite length_drop. apply Nat.ltb_lt in Hlen. lia.
  - apply runs_bind. unfold runs at 1. rewrite Hjob. cbn [decode mret Run_ret fst snd].
    rewrite Hv, orb_true_r. apply runs_ret. eauto.
Qed.

(** C32 Following a log writes its records in order, each once and to the stream it was
    captured from: a failure leaves a prefix of the log, success the whole log as it is
    after the last answer.  If the job has ended and the daemon answers, a read of a
    log of [n] records ends within [n / 32 + 1] pages. *)
Theorem log_followed fuel follow s :
  writes_log (ss_text s) (if (streamJobLogs fuel id selector follow s).1 then true else false) (streamJobLogs fuel id selector follow s).2 ∧
  (∀ v, settled v → writable s → readable (served_log (ss_daemon s)) → length (served_log (ss_daemon s)) < 32 * fuel →
    ∃ n, (streamJobLogs fuel id selector follow s).1 = Ok (v, n)).
Proof.
  split.
  - apply (stream_writes fuel follow (ss_text s) [] 0 s). split; [apply prefix_nil|by rewrite app_nil_r].
  - intros v Hset Hw Hr Hf. apply (stream_ends v fuel follow [] _ 0 s Hset Hw Hr eq_refl Hf).
Qed.
End Following.
End Commands.

(** ** A daemon with one job *)

(** It accepts the job [demo_message], which has succeeded, and serves a log. *)
Section Demo.
Context (log : list LogRecordMessage).

Definition demo_message : JobMessage :=
  MkJobMessage sample_id (Some (MkJobSpecMessage "make" [] "/home/me/project" ∅ 1 "" ["out"] []))
    (default 0%Z (stateToProtocol StateSucceeded)) 1000 2000 None None.

Definition demo_answer (request : LocalRequest) : result LocalResponse :=
  let answer r := Ok (MkLocalResponse 1 "" None (Some r)) in
  match lq_operation request with
  | Some (LOpSubmitJob _) => answer (LResSubmitJob demo_message)
  | Some (LOpGetJob _) => answer (LResGetJob demo_message)
  | Some (LOpReadJobLogs (Some q)) =>
      let rest := filter (λ a, (lrl_after_sequence q < lm_sequence a)%Z) log in
      answer (LResReadJobLogs (MkLLogs demo_message (take 32 rest) (32 <? length rest)))
  | Some (LOpFetchArtifacts (Some f)) => answer (LResFetchArtifacts (MkLFetched (lfa_destination f) 1 0))
  | _ => Err [IpcRemoteError LCodeInternal "unsupported"]
  end.
Definition demo_daemon : Caller unit := λ request _, (demo_answer request, tt).
End Demo.

Definition demo_log : list LogRecordMessage :=
  map (λ n, MkLogRecordMessage (Z.of_nat n) (if Nat.even n then 1 else 2)%Z (bytes_of "text") 0) (seq 1 40).
Definition demo_session : Session unit := MkSession tt [] [] (λ _, true) (λ _, false) 0.
Definition demo_flags : RunFlags := MkRunFlags "auto" "/home/me/project" ["out"] true false true "" false.

#[local] Instance demo_caller : Caller unit := demo_daemon demo_log.
Lemma demo_ascends : StronglySorted (λ a b, lm_sequence a < lm_sequence b)%Z demo_log.
Proof. unfold demo_log. cbn. repeat first [constructor | lia]. Qed.
Lemma demo_positive : Forall (λ a, 0 < lm_sequence a)%Z demo_log.
Proof. unfold demo_log. cbn. repeat first [constructor | lia]. Qed.
Lemma demo_page after (d : unit) r d' :
  Caller_Call (MkLocalRequest 0 "" [] (Some (LOpReadJobLogs (Some (MkLReadLogs sample_id after 32 "auto"))))) d = (r, d') →
  demo_log `prefix_of` demo_log ∧
  ∀ response logs, r = Ok response → lp_result response = Some (LResReadJobLogs logs) →
    llr_records logs = take 32 (filter (λ a, (after < lm_sequence a)%Z) demo_log) ∧
    llr_has_more logs = (32 <? length (filter (λ a, (after < lm_sequence a)%Z) demo_log)).
Proof. unfold Caller_Call, demo_caller, demo_daemon, demo_answer. cbv zeta. cbn [lq_operation lrl_after_sequence]. intros [= <- <-]. split; [done|]. intros response logs [= <-] [= <-]. done. Qed.

#[local] Instance demo_server : LogServer sample_id "auto" := {|
  served_log := λ _ : unit, demo_log; served_ascends _ := demo_ascends; served_positive _ := demo_positive; served_page := demo_page |}.

(** A run that follows its job and restores an output. *)
Example demo_run :
  let '(r, s') := run_command (U := ascii_case) (Ok tt) 3 demo_flags (Ok "/") (Ok "/") "make" [] demo_session in
  r = Ok tt ∧ length (ss_calls s') = 4 ∧ length (ss_text s') = 44.
Proof. vm_compute. done. Qed.

Definition demo_job : Job := match JobFromProto (H := ascii_case) (Some demo_message) with Ok v => v | Err _ => sample_job end.
Lemma demo_job_decodes : JobFromProto (H := ascii_case) (Some demo_message) = Ok demo_job.
Proof. vm_compute. reflexivity. Qed.
Lemma demo_settled : settled (U := ascii_case) sample_id "auto" demo_job.
Proof.
  split; [by vm_compute|]. intros after d. do 3 eexists. split; [reflexivity|]. split; [reflexivity|]. split; [exact demo_job_decodes|reflexivity].
Qed.

Lemma log_followed_witness :
  writes_log sample_id "auto" (ss_text demo_session) (if (streamJobLogs (U := ascii_case) 2 sample_id "auto" true demo_session).1 then true else false)
    (streamJobLogs (U := ascii_case) 2 sample_id "auto" true demo_session).2 ∧
  ∃ n, (streamJobLogs (U := ascii_case) 2 sample_id "auto" true demo_session).1 = Ok (demo_job, n).
Proof.
  pose proof (log_followed (U := ascii_case) sample_id "auto" 2 true demo_session) as [Hw He]. split; [exact Hw|].
  apply He; [exact demo_settled|by intros n|apply (bool_decide_unpack _); by vm_compute|apply Nat.ltb_lt; by vm_compute].
Defined.
