(* ===== verification/CliDevices.v ===== *)
(** * The command line: devices (cmd/computehop/root.go)

    The commands that list devices, explain readiness and decide pairings, over the
    sessions of [Cli].  The views of nearby devices are of unauthenticated LAN
    announcements. *)

From S2P Require Import Prelude GoText GoNumber PortablePath JobModel Device Trust TrustStore Snapshot Wire Frames Remote Hosts LocalWire LocalIpc CliText Setup Cli.
From Stdlib Require Import Ascii.
Local Open Scope string_scope.
Local Open Scope nat_scope.
Local Open Scope list_scope.

(** ** Views *)

Record nearbyDeviceView := MkNearbyView {
  nv_presenceID : string; nv_name : string; nv_role : string; nv_address : string; nv_availability : string; nv_lastSeen : Z }.

Definition nearbyViewFromProto `{UnicodeCase} (nearby : NearbyMessage) : result nearbyDeviceView :=
  presenceID ← ParsePresenceID (nm_presence_id nearby);
  _ ← reject_if (negb (nm_trust_state nearby =? 1)%Z) [AnonymousError];
  role ← (if (nm_role nearby =? 1)%Z then Ok RoleWorker else if (nm_role nearby =? 2)%Z then Ok RoleOrchestrator else Err [AnonymousError]);
  let address := match nm_addresses nearby with a :: _ => a | [] => nm_host_name nearby end in
  let address :=
    if negb (blank address) && nm_endpoint_ready nearby && (0 <? nm_port nearby)%Z then JoinHostPort address (FormatUint (nm_port nearby))
    else if negb (blank address) then address +:+ " (discovery only)"
    else address in
  _ ← reject_if (blank (nm_name nearby) || blank address || (nm_last_seen_at_unix_nano nearby <=? 0)%Z) [AnonymousError];
  Ok (MkNearbyView presenceID (nm_name nearby) role address "nearby" (from_unix_nano (nm_last_seen_at_unix_nano nearby))).

(** A name and a role, with a NUL between them. *)
Definition deviceDisplayKey (name role : string) : string := name +:+ String Ascii.zero role.
Definition view_key (nearby : nearbyDeviceView) : string := deviceDisplayKey (nv_name nearby) (nv_role nearby).
Definition peer_key (peer : Peer) : string := deviceDisplayKey (PeerNameOf peer) (PeerRoleOf peer).

Definition active (peer : Peer) : bool := match PeerState peer with TrustActive => true | _ => false end.
Definition is_worker (role : string) : bool := bool_decide (role = RoleWorker).

Definition remotePathLabel (kind : string) : string :=
  if bool_decide (kind = "host") then "direct" else if bool_decide (kind = "server-reflexive") then "direct (STUN)"
  else if bool_decide (kind = "relay") then "relay (TURN)" else "internet".
Definition trustStateLabel (state : TrustState) : string :=
  match state with TrustActive => "connected" | TrustRevoked => "revoked" | TrustOther value => value end.
Definition yesNo (value : bool) : string := if value then "yes" else "no".
Definition confirmationStatus (confirmed : bool) : string := if confirmed then "confirmed" else "not yet".

(** ** Next steps *)

Record devicesNextStepSummary := MkSummary {
  su_hasDevices : bool; su_pairableWorkers : nat; su_reachableWorkers : nat; su_connectingWorkers : nat; su_offlineWorkers : nat;
  su_lanOnlyOfflineWorkers : nat; su_revokedWorkerRecords : nat; su_nonWorkerDeviceRecords : nat }.
Definition empty_summary : devicesNextStepSummary := MkSummary false 0 0 0 0 0 0 0.

Definition addTrustedPeer (peer : Peer) (availability path : string) (s : devicesNextStepSummary) : devicesNextStepSummary :=
  let '(MkSummary has pairable reachable connecting offline lan revoked other) := s in
  if negb (is_worker (PeerRoleOf peer)) then MkSummary has pairable reachable connecting offline lan revoked (S other)
  else match PeerState peer with
  | TrustActive =>
      if bool_decide (availability ∈ ["nearby"; "remote"]) then MkSummary has pairable (S reachable) connecting offline lan revoked other
      else if bool_decide (availability = "connecting") then MkSummary has pairable reachable (S connecting) offline lan revoked other
      else MkSummary has pairable reachable connecting (S offline) (if bool_decide (path = "LAN only") then S lan else lan) revoked other
  | TrustRevoked => MkSummary has pairable reachable connecting offline lan (S revoked) other
  | TrustOther _ => s
  end.

Definition addNearbyDevice (nearby : nearbyDeviceView) (s : devicesNextStepSummary) : devicesNextStepSummary :=
  let '(MkSummary has pairable reachable connecting offline lan revoked other) := s in
  if is_worker (nv_role nearby) then MkSummary has (S pairable) reachable connecting offline lan revoked other
  else MkSummary has pairable reachable connecting offline lan revoked (S other).

Definition devicesNextStepLines (s : devicesNextStepSummary) : list string :=
  if su_reachableWorkers s =? 1 then
    ["Run a worker smoke test: computehop smoke"; "Run a command on the worker: computehop run --on auto hostname"]
  else if 1 <? su_reachableWorkers s then
    ["Choose a worker for a smoke test: computehop smoke --on <device>"; "Choose a worker for a command: computehop run --on <device> hostname"]
  else if su_pairableWorkers s =? 1 then
    ["Connect the nearby worker: computehop connect nearby"; "Confirm on both devices: computehop connect confirm"]
  else if 1 <? su_pairableWorkers s then
    ["Choose a worker to connect: computehop connect <device>";
     "Use the NAME or IDENTIFIER from the table, then run: computehop connect confirm"]
  else if 0 <? su_lanOnlyOfflineWorkers s then
    ["Put LAN-only workers on the same LAN."; "Advanced cross-network setup starts with: computehop setup vps"]
  else if 0 <? su_connectingWorkers s then
    ["Wait for remote connectivity to finish, then run: computehop smoke"; "Refresh this list: computehop devices"]
  else if (0 <? su_offlineWorkers s) || (0 <? su_revokedWorkerRecords s) || su_hasDevices s then
    ["Start ComputeHop on the worker or put both devices on the same LAN."; "Look for setup issues: computehop doctor"]
  else
    ["Install a worker on another Mac: " +:+ exampleSetupCommand RoleWorker; "Then connect it from this Mac: computehop connect nearby"].

(** ** The rows of [computehop devices] *)

Record DeviceRow := MkDeviceView {
  dv_name : string; dv_identifier : string; dv_connection : string; dv_role : string; dv_availability : string;
  dv_path : string; dv_address : string; dv_updated : Z }.

Definition device_row (r : DeviceRow) : string :=
  columns [dv_name r; dv_identifier r; dv_connection r; dv_role r; dv_availability r; dv_path r; dv_address r; FormatRFC3339 (dv_updated r)].

(** The active peers with a key, and the nearby devices with it, by index. *)
Definition active_count (peers : list Peer) (key : string) : nat := length (filter (λ p, active p = true ∧ peer_key p = key) peers).
Definition key_matches (nearby : list nearbyDeviceView) (key : string) : list (nat * nearbyDeviceView) :=
  filter (λ p, view_key p.2 = key) (imap pair nearby).

(** The last message about a device. *)
Definition message_of (trusted : list (Peer * TrustedMessage)) (id : string) : option TrustedMessage :=
  snd <$> last (filter (λ p, DeviceID p.1 = id) trusted).

(** Whether a peer is shown with the nearby devices that have its name and role. *)
Definition shown_nearby (peers : list Peer) (nearby : list nearbyDeviceView) (peer : Peer) : list (nat * nearbyDeviceView) :=
  if active peer && bool_decide (active_count peers (peer_key peer) = 1) then key_matches nearby (peer_key peer) else [].

Definition remote_view (message : TrustedMessage) (updatedAt : Z) : string * string * Z :=
  let '(availability, path) :=
    if (tm_connectivity_state message =? 3)%Z then ("remote", remotePathLabel (tm_connectivity_path message))
    else if (tm_connectivity_state message =? 2)%Z then ("connecting", "internet")
    else if (tm_connectivity_state message =? 1)%Z then ("offline", "LAN only")
    else ("offline", em_dash) in
  (availability, path,
   if (0 <? tm_connectivity_updated_at_unix_nano message)%Z then from_unix_nano (tm_connectivity_updated_at_unix_nano message) else updatedAt).

Definition peer_view (trusted : list (Peer * TrustedMessage)) (nearby : list nearbyDeviceView) (peer : Peer) : DeviceRow :=
  let '(availability, path, address, updatedAt) :=
    match shown_nearby (map fst trusted) nearby peer with
    | [(_, view)] => (nv_availability view, "LAN", nv_address view, nv_lastSeen view)
    | (_ :: _ :: _) as matches =>
        ("nearby", "LAN", Itoa (Z.of_nat (length matches)) +:+ " LAN records",
         foldl (λ u m, if after (nv_lastSeen m.2) u then nv_lastSeen m.2 else u) (PeerUpdatedAt peer) matches)
    | [] =>
        match message_of trusted (DeviceID peer) with
        | Some message => let '(a, p, u) := remote_view message (PeerUpdatedAt peer) in (a, p, em_dash, u)
        | None => ("offline", em_dash, em_dash, PeerUpdatedAt peer)
        end
    end in
  MkDeviceView (PeerNameOf peer) (DeviceID_Short (DeviceID peer)) (trustStateLabel (PeerState peer)) (PeerRoleOf peer) availability path address updatedAt.

Definition nearby_view (view : nearbyDeviceView) : DeviceRow :=
  MkDeviceView (nv_name view) (DeviceID_Short (nv_presenceID view)) "not connected" (nv_role view) (nv_availability view) "LAN"
    (nv_address view) (nv_lastSeen view).

Section Devices.
Context `{U : UnicodeCase} `{UnicodePrint} (sha256 : bytes → bytes) {S : Type} `{Caller S}.
(** The outcome of [clientForCommand]. *)
Context (client : result unit).

Definition get_devices (r : LocalResult) : option DevicesMessage := match r with LResListDevices d => Some d | _ => None end.
Definition get_begun (r : LocalResult) : option PairingMessage := match r with LResBeginPairing p => Some p | _ => None end.
Definition get_pairings (r : LocalResult) : option (list PairingMessage) := match r with LResListPairings l => Some l | _ => None end.
Definition get_unpaired (r : LocalResult) : option TrustedMessage := match r with LResUnpairDevice t => Some t | _ => None end.
Definition get_ping (r : LocalResult) : option PingMessage := match r with LResPing p => Some p | _ => None end.

(** The peers and nearby devices of an answer. *)
Definition trusted_views (result_ : DevicesMessage) : result (list (Peer * TrustedMessage)) :=
  decode_all (λ m, peer ← TrustedPeerFromProto sha256 (Some m); Ok (peer, m)) (dm_trusted_devices result_).
Definition nearby_views (result_ : DevicesMessage) : result (list nearbyDeviceView) := decode_all nearbyViewFromProto (dm_devices result_).

(** ** computehop devices *)

Definition printDevicesNextStep (s : devicesNextStepSummary) : Cmd (S := S) unit :=
  match devicesNextStepLines s with
  | [] => mret tt
  | lines => _ ← print Stdout (line ""); _ ← print Stdout (line "Next:"); each (λ l, print Stdout (line ("- " +:+ l))) lines
  end.

(** The nearby devices that no peer was shown with. *)
Definition unmatched (trusted : list (Peer * TrustedMessage)) (nearby : list nearbyDeviceView) : list nearbyDeviceView :=
  let peers := map fst trusted in
  let matched := concat (map (λ peer, map fst (shown_nearby peers nearby peer)) peers) in
  map snd (filter (λ p, p.1 ∉ matched) (imap pair nearby)).

Definition devices_summary (trusted : list (Peer * TrustedMessage)) (nearby : list nearbyDeviceView) : devicesNextStepSummary :=
  let peers_counted := foldl (λ s peer, let v := peer_view trusted nearby peer in addTrustedPeer peer (dv_availability v) (dv_path v) s)
    (MkSummary (negb (bool_decide (nearby = [])) || negb (bool_decide (trusted = []))) 0 0 0 0 0 0 0) (map fst trusted) in
  foldl (λ s view, addNearbyDevice view s) peers_counted (unmatched trusted nearby).

Definition no_devices (result_ : DevicesMessage) : bool := bool_decide (length (dm_devices result_) = 0) && bool_decide (length (dm_trusted_devices result_) = 0).

Definition devices_table (result_ : DevicesMessage) : Cmd (S := S) unit :=
  if no_devices result_ then
    _ ← print Stdout (line "No connected or nearby devices."); printDevicesNextStep empty_summary
  else
    trusted ← decode (trusted_views result_);
    nearby ← decode (nearby_views result_);
    _ ← print_table ["NAME"; "IDENTIFIER"; "CONNECTION"; "ROLE"; "AVAILABILITY"; "PATH"; "ADDRESS"; "UPDATED"]
          (map (device_row ∘ peer_view trusted nearby) (map fst trusted) ++ map (device_row ∘ nearby_view) (unmatched trusted nearby));
    printDevicesNextStep (devices_summary trusted nearby).

Definition discovery_message (result_ : DevicesMessage) : string :=
  if blank (dm_discovery_error result_) then "multicast DNS is unavailable" else dm_discovery_error result_.

Definition devices_command : Cmd (S := S) unit :=
  _ ← run_lift client;
  response ← call_daemon (LOpListDevices (Some tt));
  result_ ← expect get_devices response;
  let state := dm_discovery_state result_ in
  if (state =? 1)%Z then
    if bool_decide (length (dm_devices result_) = 0) then
      _ ← print Stdout (line "LAN discovery is starting.");
      if bool_decide (length (dm_trusted_devices result_) = 0) then printDevicesNextStep empty_summary else devices_table result_
    else devices_table result_
  else if (state =? 3)%Z then
    _ ← print Stderr (line ("LAN discovery unavailable: " +:+ discovery_message result_)); devices_table result_
  else if (state =? 2)%Z then devices_table result_
  else invalid_response.

(** ** Pairing *)

Definition beginPairing (deviceSelector : string) : Cmd (S := S) Pairing :=
  response ← call_daemon (LOpBeginPairing (Some deviceSelector));
  message ← expect get_begun response;
  decode (PairingFromProto sha256 (Some message)).

(** The nearby workers without an active worker of the same name. *)
Definition unpaired_workers (peers : list Peer) (nearby : list nearbyDeviceView) : list nearbyDeviceView :=
  filter (λ view, is_worker (nv_role view) = true ∧
    active_count (filter (λ p, is_worker (PeerRoleOf p) = true) peers) (view_key view) = 0) nearby.
Definition nearbyUnpairedWorkers (result_ : DevicesMessage) : result (list nearbyDeviceView) :=
  peers ← decode_all (λ m, TrustedPeerFromProto sha256 (Some m)) (dm_trusted_devices result_);
  nearby ← nearby_views result_;
  Ok (unpaired_workers peers nearby).

Definition beginAutomaticPairing : Cmd (S := S) Pairing :=
  response ← call_daemon (LOpListDevices (Some tt));
  result_ ← expect get_devices response;
  candidates ← decode (nearbyUnpairedWorkers result_);
  match candidates with
  | [candidate] => beginPairing (DeviceID_Short (nv_presenceID candidate))
  | _ => run_fail [AnonymousError]
  end.

Definition printPairingInstructionsWithConfirm (value : Pairing) (confirmCommand : string) : Cmd (S := S) unit :=
  print_lines Stdout
    ["Pairing request " +:+ DeviceID_Short (pg_ID value) +:+ " opened with " +:+ pg_PeerName value +:+ ".";
     "Verification code: " +:+ pg_Verification value;
     "Compare this exact code on both devices. Do not confirm if it differs.";
     "If the codes match, run this on both devices: " +:+ confirmCommand].

Definition pairing_direction_string (d : Direction) : string := match d with DirectionOutbound => "outbound" | DirectionInbound => "inbound" end.
Definition pairing_state_string (s : PairingState) : string :=
  match s with PairingWaiting => "waiting" | PairingPaired => "paired" | PairingRejected => "rejected" | PairingExpired => "expired"
  | PairingFailed => "failed" end.

Definition pairing_row (value : Pairing) : string :=
  columns [DeviceID_Short (pg_ID value); pg_PeerName value; pg_Verification value; pairing_direction_string (pg_Direction value);
    yesNo (pg_LocalConfirmed value); yesNo (pg_RemoteConfirmed value); pairing_state_string (pg_State value); FormatRFC3339 (pg_ExpiresAt value)].

Definition all_pairings : Cmd (S := S) (list PairingMessage) :=
  response ← call_daemon (LOpListPairings (Some tt)); expect get_pairings response.
Definition pairings_from (messages : list PairingMessage) : result (list Pairing) := decode_all (λ m, PairingFromProto sha256 (Some m)) messages.

Definition listPairings : Cmd (S := S) unit :=
  messages ← all_pairings;
  if bool_decide (length messages = 0) then print Stdout (line "No pairing requests.") else
  values ← decode (pairings_from messages);
  print_table ["ID"; "DEVICE"; "CODE"; "DIRECTION"; "LOCAL"; "REMOTE"; "STATE"; "EXPIRES"] (map pairing_row values).

(** A pairing that waits, if asked for one that this device has not confirmed. *)
Definition awaits (needsLocalConfirmation : bool) (value : Pairing) : bool :=
  bool_decide (pg_State value = PairingWaiting) && (negb needsLocalConfirmation || negb (pg_LocalConfirmed value)).

Definition waitingPairings (needsLocalConfirmation : bool) : Cmd (S := S) (list Pairing) :=
  messages ← all_pairings;
  values ← decode (pairings_from messages);
  mret (filter (λ v, awaits needsLocalConfirmation v = true) values).

Definition waiting_row (value : Pairing) : string :=
  columns [DeviceID_Short (pg_ID value); pg_PeerName value; pg_Verification value; confirmationStatus (pg_LocalConfirmed value);
    confirmationStatus (pg_RemoteConfirmed value); FormatRFC3339 (pg_ExpiresAt value)].

Definition printWaitingConnectPairings (pairings : list Pairing) : Cmd (S := S) unit :=
  _ ← print_lines Stdout ["Connection request waiting"; ""];
  _ ← print_table ["ID"; "DEVICE"; "CODE"; "THIS DEVICE"; "OTHER DEVICE"; "EXPIRES"] (map waiting_row pairings);
  _ ← print_lines Stdout [String newline "Next:"; "- Compare the exact code on both devices. Do not confirm if it differs."];
  match pairings with
  | [value] =>
      if pg_LocalConfirmed value then
        print_lines Stdout ["- This device is already confirmed. Finish on the other device with: computehop connect confirm"]
      else print_lines Stdout ["- If it matches, run on this device: computehop connect confirm"; "- If it does not match, run: computehop connect reject"]
  | _ =>
      print_lines Stdout ["- If one code matches, choose it with: computehop connect confirm <id>";
        "- If one code does not match, reject it with: computehop connect reject <id>"]
  end.

Definition inferPairingSelector (confirmed : bool) : Cmd (S := S) string :=
  candidates ← waitingPairings confirmed;
  match candidates with
  | [candidate] => mret (pg_ID candidate)
  | _ => run_fail [AnonymousError]
  end.

(** [connect] tells whether the command is under [computehop connect]. *)
Definition printConfirmationResult (connect : bool) (value : Pairing) : Cmd (S := S) unit :=
  if negb connect then
    print Stdout (line ("Confirmed " +:+ pg_PeerName value +:+ " locally; state: " +:+ pairing_state_string (pg_State value) +:+ "."))
  else match pg_State value with
  | PairingPaired => print Stdout (line ("Connected to " +:+ pg_PeerName value +:+ "."))
  | PairingWaiting =>
      _ ← print Stdout (line ("Confirmed " +:+ pg_PeerName value +:+ " on this device."));
      print Stdout (line "Finish on the other device with: computehop connect confirm")
  | state => print Stdout (line ("Confirmed " +:+ pg_PeerName value +:+ " on this device; state: " +:+ pairing_state_string state +:+ "."))
  end.

Definition decision (confirmed : bool) (selector : string) : LocalOperation :=
  if confirmed then LOpConfirmPairing (Some selector) else LOpRejectPairing (Some selector).
Definition decided (confirmed : bool) (r : LocalResult) : option PairingMessage :=
  match confirmed, r with true, LResConfirmPairing p => Some p | false, LResRejectPairing p => Some p | _, _ => None end.

Definition decision_command (connect confirmed : bool) (argument : option string) : Cmd (S := S) unit :=
  _ ← run_lift client;
  selector ← match argument with Some a => mret a | None => inferPairingSelector confirmed end;
  response ← call_daemon (decision confirmed selector);
  value ← decode (PairingFromProto sha256 (lp_result response ≫= decided confirmed));
  if confirmed then printConfirmationResult connect value
  else print Stdout (line ("Rejected pairing with " +:+ pg_PeerName value +:+ ".")).

Definition pair_command (argument : option string) : Cmd (S := S) unit :=
  _ ← run_lift client;
  match argument with
  | None => listPairings
  | Some selector => value ← beginPairing selector; printPairingInstructionsWithConfirm value "computehop connect confirm"
  end.

Definition disconnect_command (selector : string) : Cmd (S := S) unit :=
  _ ← run_lift client;
  response ← call_daemon (LOpUnpairDevice (Some selector));
  message ← expect get_unpaired response;
  peer ← decode (TrustedPeerFromProto sha256 (Some message));
  print Stdout (line ("Disconnected " +:+ PeerNameOf peer +:+ " (" +:+ DeviceID_Short (DeviceID peer)
    +:+ "). Run 'computehop connect nearby' when it is nearby to connect again.")).

(** ** Readiness *)

Definition doctorDiscoveryLabel (result_ : DevicesMessage) : string :=
  let state := dm_discovery_state result_ in
  if (state =? 1)%Z then "starting" else if (state =? 2)%Z then "available"
  else if (state =? 3)%Z then
    if blank (dm_discovery_error result_) then "unavailable" else "unavailable (" +:+ dm_discovery_error result_ +:+ ")"
  else "unknown".

(** At most three names, and how many more. *)
Definition doctorWorkerNames (names : list string) : string :=
  if bool_decide (names = []) then ""
  else " (" +:+ Strings_Join (take 3 names ++
    (if 3 <? length names then ["+" +:+ Itoa (Z.of_nat (length names - 3)) +:+ " more"] else [])) ", " +:+ ")".

Record Readiness := MkReadiness {
  re_active : nat; re_revoked : nat; re_pairedWorkers : nat; re_offlineWorkers : nat;
  re_reachable : list (string * string);   (* name and selector *)
  re_unpaired : list nearbyDeviceView }.

Definition reachable_worker (nearby : list nearbyDeviceView) (p : Peer * TrustedMessage) : bool :=
  negb (bool_decide (key_matches nearby (peer_key p.1) = [])) || (tm_connectivity_state p.2 =? 3)%Z.

Definition readiness (result_ : DevicesMessage) : result Readiness :=
  nearby ← nearby_views result_;
  trusted ← trusted_views result_;
  let active_peers := filter (λ p, active p.1 = true) trusted in
  let workers := filter (λ p, is_worker (PeerRoleOf p.1) = true) active_peers in
  let reachable := filter (λ p, reachable_worker nearby p = true) workers in
  Ok (MkReadiness (length active_peers) (length (filter (λ p, PeerState p.1 = TrustRevoked) trusted)) (length workers)
    (length workers - length reachable) (map (λ p, (PeerNameOf p.1, DeviceID_Short (DeviceID p.1))) reachable)
    (filter (λ view, active_count (map fst trusted) (view_key view) = 0) nearby)).

(** What to do next. *)
Definition doctor_advice (result_ : DevicesMessage) (r : Readiness) : list string :=
  match re_reachable r, re_unpaired r with
  | (_, selector) :: rest, _ => ["- Run a smoke test: computehop smoke --on " +:+ (if bool_decide (rest = []) then "auto" else selector)]
  | [], first :: _ =>
      (match filter (λ view, is_worker (nv_role view) = true) (re_unpaired r) with
       | [_] => "- Connect to the nearby worker: computehop connect nearby"
       | worker :: _ => "- Choose a nearby worker: computehop connect " +:+ Quote (nv_name worker)
       | [] => "- Connect to a nearby device: computehop connect " +:+ Quote (nv_name first)
       end) :: ["- After comparing the code on both devices, run on both: computehop connect confirm"]
  | [], [] =>
      if 0 <? re_pairedWorkers r then
        ["- " +:+ Itoa (Z.of_nat (re_offlineWorkers r)) +:+ " paired worker(s) exist but are not reachable right now.";
         "- Start computehopd on the worker, then run: computehop devices"]
      else if (dm_discovery_state result_ =? 1)%Z then ["- Wait a few seconds, then run: computehop devices"]
      else
        ["- Print the exact worker install command for another Mac on this LAN: computehop setup worker --device-name " +:+ Quote "Gaming PC";
         "- Development-only alternative: go run ./cmd/computehopd --role worker --device-name " +:+ Quote "Gaming PC";
         "- Then run: computehop devices"]
  end.

Definition printDoctorDevices (result_ : DevicesMessage) : Cmd (S := S) unit :=
  r ← decode (readiness result_);
  print_lines Stdout
    (["LAN discovery: " +:+ doctorDiscoveryLabel result_;
      "Paired devices: " +:+ Itoa (Z.of_nat (re_active r)) +:+ " active, " +:+ Itoa (Z.of_nat (re_revoked r)) +:+ " revoked";
      "Reachable workers: " +:+ Itoa (Z.of_nat (length (re_reachable r))) +:+ doctorWorkerNames (map fst (re_reachable r));
      "Nearby unpaired devices: " +:+ Itoa (Z.of_nat (length (re_unpaired r)));
      String newline "Next:"] ++ doctor_advice result_ r).

(** Without an argument [computehop connect] explains the next step. *)
Definition printConnectStatus : Cmd (S := S) unit :=
  pairings ← waitingPairings false;
  if negb (bool_decide (length pairings = 0)) then printWaitingConnectPairings pairings else
  response ← call_daemon (LOpListDevices (Some tt));
  result_ ← expect get_devices response;
  printDoctorDevices result_.

Definition connect_command (argument : option string) : Cmd (S := S) unit :=
  _ ← run_lift client;
  match argument with
  | None => printConnectStatus
  | Some selector =>
      value ← (if isConnectAutoSelector selector then beginAutomaticPairing else beginPairing selector);
      printPairingInstructionsWithConfirm value "computehop connect confirm"
  end.

Definition pingRoleLabel (role : Z) : result string :=
  if (role =? 1)%Z then Ok RoleWorker else if (role =? 2)%Z then Ok RoleOrchestrator else Err [CliErrInvalidDaemonResponse].

Definition pingDeviceLine (ping : PingMessage) : result string :=
  if blank (pi_device_id ping) && blank (pi_device_name ping) && (pi_role ping =? 0)%Z then Ok ""
  else if blank (pi_device_id ping) || blank (pi_device_name ping) || (pi_role ping =? 0)%Z then Err [CliErrInvalidDaemonResponse]
  else match Device_ParseID (pi_device_id ping) with
  | Err _ => Err [CliErrInvalidDaemonResponse]
  | Ok id => role ← pingRoleLabel (pi_role ping); Ok ("Device: " +:+ pi_device_name ping +:+ " (" +:+ role +:+ ", " +:+ DeviceID_Short id +:+ ")")
  end.

Definition printPingDeviceLine (ping : PingMessage) : Cmd (S := S) unit :=
  text ← run_lift (pingDeviceLine ping);
  if blank text then mret tt else print Stdout (line text).

Definition ask_ping : Cmd (S := S) LocalResponse := call_daemon (LOpPing (Some tt)).

(** [computehop status]. *)
Definition status_command : Cmd (S := S) unit :=
  _ ← run_lift client;
  response ← ask_ping;
  ping ← expect get_ping response;
  _ ← print Stdout (line ("computehopd " +:+ pi_daemon_version ping +:+ " ready"));
  printPingDeviceLine ping.

Definition printDaemonStartAdvice (err : list sentinel) : Cmd (S := S) unit :=
  if errors_is err CliErrDaemonProtocolMismatch then
    print_lines Stdout
      ["Daemon: running, but not compatible with this CLI"; ""; "Next:";
       "- Check the packaged install from this checkout without changing this Mac: make install-macos-check";
       "- If the check passes, reinstall from this checkout: make install-macos";
       "- If you want to switch back to a manual development daemon: make uninstall-macos";
       "- Then start the daemon from this checkout:";
       "  go run ./cmd/computehopd --role orchestrator --device-name " +:+ Quote "This Mac";
       "- Then run: computehop doctor"]
  else if errors_is err CliErrDaemonNotRunning then
    print_lines Stdout
      ["Daemon: not running"; ""; "Next:";
       "- If the app is installed: open -a ComputeHop";
       "- If you are developing from this repo: go run ./cmd/computehopd --role orchestrator --device-name " +:+ Quote "This Mac";
       "- To print the exact menu-bar app and launch-at-login install commands: computehop setup orchestrator";
       "- To check that install path without changing this Mac: make install-macos-check";
       "- Then run: computehop doctor"]
  else run_fail err.

(** [computehop doctor]. *)
Definition doctor_command : Cmd (S := S) unit :=
  match client with
  | Err e => printDaemonStartAdvice e
  | Ok _ =>
      answer ← attempt ask_ping;
      match answer with
      | Err e => if errors_is e CliErrDaemonNotRunning || errors_is e CliErrDaemonProtocolMismatch then printDaemonStartAdvice e else run_fail e
      | Ok response =>
          ping ← expect get_ping response;
          _ ← print Stdout (line ("Daemon: ok (computehopd " +:+ pi_daemon_version ping +:+ ")"));
          _ ← printPingDeviceLine ping;
          response ← call_daemon (LOpListDevices (Some tt));
          result_ ← expect get_devices response;
          printDoctorDevices result_
      end
  end.

(** ** Choices *)

Lemma active_count_zero peers key : active_count peers key = 0 ↔ ∀ p, p ∈ peers → active p = true → peer_key p ≠ key.
Proof.
  unfold active_count. rewrite length_zero_iff_nil. split.
  - intros Hf p Hp Ha Hk. assert (p ∈ filter (λ p, active p = true ∧ peer_key p = key) peers) as Hin by (by apply list_elem_of_filter).
    rewrite Hf in Hin. by apply elem_of_nil in Hin.
  - intros Hn. destruct (filter _ peers) as [|p l] eqn:Hf; [done|]. exfalso.
    assert (p ∈ filter (λ p, active p = true ∧ peer_key p = key) peers) as ((Ha & Hk) & Hp)%list_elem_of_filter by (rewrite Hf; set_solver).
    by eapply Hn.
Qed.

Lemma append_tail_inj a b x : a +:+ x = b +:+ x → a = b.
Proof.
  intros E%(f_equal bytes_of). rewrite !bytes_of_app in E. apply app_inv_tail, (f_equal str_of) in E. by rewrite !str_of_bytes_of in E.
Qed.

(** The element of a list that has [P] when no other has. *)
Definition only_one {A} (P : A → Prop) (l : list A) (x : A) : Prop :=
  ∃ i, l !! i = Some x ∧ P x ∧ ∀ j y, l !! j = Some y → P y → j = i.

Lemma only_one_filter {A} (P : A → Prop) `{!∀ x, Decision (P x)} (l : list A) x : filter P l = [x] ↔ only_one P l x.
Proof.
  split.
  - induction l as [|y l IH]; [done|]. rewrite filter_cons. destruct (decide (P y)) as [Hy|Hy].
    + intros [= -> Hl]. exists 0. split_and!; [done..|]. intros [|j] z Hz HP; [done|]. exfalso. eapply (not_elem_of_nil z). rewrite <-Hl.
      apply list_elem_of_filter. split; [done|]. by eapply (list_elem_of_lookup_2 _ j).
    + intros (i & Hi & Hx & Hu)%IH. exists (Datatypes.S i). split_and!; [done..|]. intros [|j] z Hz HP; [by injection Hz as ->|]. f_equal. by eapply Hu.
  - intros (i & Hi & Hx & Hu). revert i Hi Hu. induction l as [|y l IH]; intros i Hi Hu; [done|]. rewrite filter_cons. destruct (decide (P y)) as [Hy|Hy].
    + assert (i = 0) as -> by (symmetry; by apply (Hu 0 y)). injection Hi as ->. f_equal.
      destruct (filter P l) as [|z r] eqn:E; [done|]. exfalso. assert (z ∈ filter P l) as [Hz Hin]%list_elem_of_filter by (rewrite E; set_solver).
      apply list_elem_of_lookup in Hin as [k Hk]. discriminate (Hu (Datatypes.S k) z Hk Hz).
    + destruct i as [|i]; [injection Hi as ->; done|]. apply (IH i Hi). intros k z Hz HP. specialize (Hu (Datatypes.S k) z Hz HP). lia.
Qed.

(** What a list of messages is decoded to. *)
Lemma decode_all_spec {A B} (f : A → result B) l values : decode_all f l = Ok values ↔ Forall2 (λ m v, f m = Ok v) l values.
Proof.
  revert values. induction l as [|m l IH]; intros values; cbn [decode_all].
  - split; [by intros [= <-]|by inversion 1].
  - split.
    + intros (v & Hv & E)%result_bind_ok. apply result_bind_ok in E as (vs & Hvs & [= <-]). constructor; [done|by apply IH].
    + inversion 1 as [|? v ? vs Hv Hvs]; subst. apply IH in Hvs. by rewrite Hv, Hvs.
Qed.

(** A command that lists before it acts.  It asks nothing if there is no client; if the
    listing fails, or leaves no only choice, it fails and asks nothing more; if the listing
    leaves an only choice, it acts once, on that. *)
Definition chooses (listing : LocalOperation) (only : LocalResponse → LocalOperation → Prop) (s s' : Session S) (ok : bool) : Prop :=
  ∃ new, ss_calls s' = ss_calls s ++ new ∧
    (ok = false ∧ new = [] ∧ failed client = true ∨
     ok = false ∧ (∃ e, new = [(listing, Err e)]) ∨
     ok = false ∧ (∃ response, new = [(listing, Ok response)] ∧ ∀ act, ¬ only response act) ∨
     ∃ response act b, new = [(listing, Ok response); (act, b)] ∧ only response act).

(** The pairing of the daemon's answer that waits, as the only one, and the operation on it. *)
Definition sole_pairing (operation : option string → LocalOperation) (waits : Pairing → Prop) (response : LocalResponse) (act : LocalOperation) : Prop :=
  ∃ messages values v, lp_result response = Some (LResListPairings messages) ∧
    Forall2 (λ m v, PairingFromProto sha256 (Some m) = Ok v) messages values ∧ only_one waits values v ∧ act = operation (Some (pg_ID v)).
Definition to_confirm (v : Pairing) : Prop := pg_State v = PairingWaiting ∧ pg_LocalConfirmed v = false.
Definition to_reject (v : Pairing) : Prop := pg_State v = PairingWaiting.

(** A nearby worker that no active paired worker has the name of. *)
Definition unconnected (peers : list Peer) (view : nearbyDeviceView) : Prop :=
  nv_role view = RoleWorker ∧ ∀ p, p ∈ peers → PeerState p = TrustActive → PeerRoleOf p = RoleWorker → PeerNameOf p ≠ nv_name view.
Definition sole_worker (response : LocalResponse) (act : LocalOperation) : Prop := ∃ result_ peers nearby view,
  lp_result response = Some (LResListDevices result_) ∧
  Forall2 (λ m p, TrustedPeerFromProto sha256 (Some m) = Ok p) (dm_trusted_devices result_) peers ∧
  Forall2 (λ m v, nearbyViewFromProto m = Ok v) (dm_devices result_) nearby ∧
  only_one (unconnected peers) nearby view ∧ act = LOpBeginPairing (Some (DeviceID_Short (nv_presenceID view))).

(** The code's tests say the same. *)
Lemma awaits_spec confirmed v : awaits confirmed v = true ↔ if confirmed then to_confirm v else to_reject v.
Proof.
  unfold awaits, to_confirm, to_reject. rewrite andb_true_iff, bool_decide_eq_true. destruct confirmed, (pg_LocalConfirmed v); cbn; naive_solver.
Qed.
Lemma decision_spec (confirmed : bool) selector : decision confirmed selector = (if confirmed then LOpConfirmPairing else LOpRejectPairing) (Some selector).
Proof. by destruct confirmed. Qed.

Lemma sole_pairing_spec (confirmed : bool) response act :
  sole_pairing (if confirmed then LOpConfirmPairing else LOpRejectPairing) (if confirmed then to_confirm else to_reject) response act ↔
  ∃ messages values v, (lp_result response ≫= get_pairings) = Some messages ∧ pairings_from messages = Ok values ∧
    filter (λ v, awaits confirmed v = true) values = [v] ∧ act = decision confirmed (pg_ID v).
Proof.
  unfold sole_pairing, pairings_from. setoid_rewrite decode_all_spec. setoid_rewrite only_one_filter. setoid_rewrite decision_spec.
  assert (∀ values v, only_one (if confirmed then to_confirm else to_reject) values v ↔ only_one (λ v, awaits confirmed v = true) values v) as Ho.
  { intros values v. unfold only_one. setoid_rewrite awaits_spec. by destruct confirmed. }
  setoid_rewrite Ho. split; intros (messages & values & v & Hr & Hrest); exists messages, values, v; (split; [|exact Hrest]).
  - by rewrite Hr.
  - destruct (lp_result response) as [[]|]; try done. by injection Hr as ->.
Qed.

Lemma unpaired_spec peers nearby view : unpaired_workers peers nearby = [view] ↔ only_one (unconnected peers) nearby view.
Proof.
  unfold unpaired_workers. rewrite only_one_filter.
  assert (∀ v, (is_worker (nv_role v) = true ∧ active_count (filter (λ p, is_worker (PeerRoleOf p) = true) peers) (view_key v) = 0) ↔ unconnected peers v) as E.
  { intros v. unfold unconnected, is_worker. rewrite bool_decide_eq_true, active_count_zero. split; intros [Hw Hn]; (split; [done|]).
    - intros p Hp Ha Hr Hname. apply (Hn p); [apply list_elem_of_filter; by rewrite bool_decide_eq_true|by unfold active; rewrite Ha|].
      unfold peer_key, view_key. by rewrite Hname, Hr, Hw.
    - intros p [Hr Hp]%list_elem_of_filter Ha Hk. apply bool_decide_eq_true in Hr. unfold active in Ha. destruct (PeerState p) eqn:Es; try done.
      apply (Hn p Hp Es Hr). unfold peer_key, view_key, deviceDisplayKey in Hk. rewrite Hr, Hw in Hk. by apply append_tail_inj in Hk. }
  unfold only_one. by setoid_rewrite E.
Qed.

Lemma sole_worker_spec response act : sole_worker response act ↔
  ∃ result_ view, (lp_result response ≫= get_devices) = Some result_ ∧ nearbyUnpairedWorkers result_ = Ok [view] ∧
    act = LOpBeginPairing (Some (DeviceID_Short (nv_presenceID view))).
Proof.
  unfold sole_worker, nearbyUnpairedWorkers, nearby_views. split.
  - intros (result_ & peers & nearby & view & Hr & Hp%decode_all_spec & Hn%decode_all_spec & Ho%unpaired_spec & ->). exists result_, view.
    rewrite Hr, Hp, Hn. cbn [mbind result_bind]. by rewrite Ho.
  - intros (result_ & view & Hr & (peers & Hp & E)%result_bind_ok & ->). apply result_bind_ok in E as (nearby & Hn & [= E]).
    exists result_, peers, nearby, view. split; [|split_and!; [by apply decode_all_spec..|by apply unpaired_spec|done]].
    destruct (lp_result response) as [[]|]; try done. by injection Hr as ->.
Qed.

Lemma chooses_acted listing (only : LocalResponse → LocalOperation → Prop) (s s' : Session S) response act b ok :
  ss_calls s' = ss_calls s ++ [(listing, Ok response); (act, b)] → only response act → chooses listing only s s' ok.
Proof. intros Hs Ho. exists [(listing, Ok response); (act, b)]. split; [done|]. right; right; right. eauto. Qed.

(** The rest of a command that asks nothing more. *)
Lemma chooses_rest {A} (m : Cmd A) listing (only : LocalResponse → LocalOperation → Prop) s s1 response act b : quiet m →
  ss_calls s1 = ss_calls s ++ [(listing, Ok response); (act, b)] → only response act →
  runs m s1 (λ r s', chooses listing only s s' (if r then true else false)).
Proof. intros Hm H1 Ho. unfold runs. eapply chooses_acted; [|done]. by rewrite (Hm s1). Qed.

Lemma quiet_lines to lines : quiet (print_lines (S := S) to lines).
Proof. unfold print_lines. induction lines as [|l lines IH]; [done|]. cbn [each]. apply quiet_bind; [apply quiet_print|intros _; apply IH]. Qed.

Lemma chooses_refused listing (only : LocalResponse → LocalOperation → Prop) (s s' : Session S) response :
  ss_calls s' = ss_calls s ++ [(listing, Ok response)] → (∀ act, ¬ only response act) → chooses listing only s s' false.
Proof. intros Hs Hn. exists [(listing, Ok response)]. split; [done|]. right; right; left. split; [done|]. by exists response. Qed.
Lemma chooses_unlisted listing only (s s' : Session S) e : ss_calls s' = ss_calls s ++ [(listing, Err e)] → chooses listing only s s' false.
Proof. intros Hs. exists [(listing, Err e)]. split; [done|]. right; left. eauto. Qed.
Lemma chooses_alone listing only (s : Session S) : failed client = true → chooses listing only s s false.
Proof. intros Hc. exists []. rewrite app_nil_r. split; [done|]. by left. Qed.

Lemma decision_chooses connect confirmed s :
  runs (decision_command connect confirmed None) s (λ r s', chooses (LOpListPairings (Some tt))
    (sole_pairing (if confirmed then LOpConfirmPairing else LOpRejectPairing) (if confirmed then to_confirm else to_reject)) s s' (if r then true else false)).
Proof.
  unfold decision_command. apply runs_bind, runs_lift. destruct client as [[]|] eqn:Hclient; [|apply chooses_alone; by rewrite Hclient].
  apply runs_bind. unfold inferPairingSelector. apply runs_bind. unfold waitingPairings. apply runs_bind. unfold all_pairings.
  apply runs_bind, runs_call. intros [response|e] s1 H1; [|by eapply chooses_unlisted].
  unfold expect. destruct (lp_result response ≫= get_pairings) as [messages|] eqn:Hg.
  2: { apply runs_fail, (chooses_refused _ _ _ _ response H1). intros act (? & ? & ? & ? & ?)%sole_pairing_spec. congruence. }
  apply runs_ret. apply runs_bind. unfold decode. destruct (pairings_from messages) as [values|] eqn:Hp.
  2: { apply runs_fail, (chooses_refused _ _ _ _ response H1). intros act (? & ? & ? & ? & ? & ?)%sole_pairing_spec. congruence. }
  apply runs_ret, runs_ret. destruct (filter _ values) as [|v [|v' more]] eqn:Hf.
  1,3: apply runs_fail, (chooses_refused _ _ _ _ response H1); intros act (? & ? & ? & ? & ? & ? & ?)%sole_pairing_spec; congruence.
  apply runs_ret. apply runs_bind, runs_call. intros b s3 H3. rewrite H1, <-app_assoc in H3. cbn [app] in H3.
  assert (sole_pairing (if confirmed then LOpConfirmPairing else LOpRejectPairing) (if confirmed then to_confirm else to_reject) response
    (decision confirmed (pg_ID v))) as Hsole by (apply sole_pairing_spec; by exists messages, values, v).
  destruct b as [answer|e]; [|by eapply chooses_acted].
  eapply chooses_rest; [|done..]. apply quiet_bind; [apply quiet_decode|intros value]. destruct confirmed; [|apply quiet_print].
  unfold printConfirmationResult. repeat case_match; try apply quiet_print. apply quiet_bind; [apply quiet_print|intros _; apply quiet_print].
Qed.

Lemma connect_chooses selector s : isConnectAutoSelector selector = true →
  runs (connect_command (Some selector)) s (λ r s', chooses (LOpListDevices (Some tt)) sole_worker s s' (if r then true else false)).
Proof.
  intros Hauto. unfold connect_command. apply runs_bind, runs_lift. destruct client as [[]|] eqn:Hclient; [|apply chooses_alone; by rewrite Hclient].
  rewrite Hauto. apply runs_bind. unfold beginAutomaticPairing.
  apply runs_bind, runs_call. intros [response|e] s1 H1; [|by eapply chooses_unlisted].
  apply runs_bind. unfold expect at 1. destruct (lp_result response ≫= get_devices) as [result_|] eqn:Hg.
  2: { apply runs_fail, (chooses_refused _ _ _ _ response H1). intros act (? & ? & ? & ?)%sole_worker_spec. congruence. }
  apply runs_ret. apply runs_bind. unfold decode at 1. destruct (nearbyUnpairedWorkers result_) as [views|] eqn:Hv.
  2: { apply runs_fail, (chooses_refused _ _ _ _ response H1). intros act (? & ? & ? & ? & ?)%sole_worker_spec. congruence. }
  apply runs_ret. destruct views as [|view [|view' more]].
  1,3: apply runs_fail, (chooses_refused _ _ _ _ response H1); intros act (? & ? & ? & ? & ?)%sole_worker_spec; congruence.
  assert (sole_worker response (LOpBeginPairing (Some (DeviceID_Short (nv_presenceID view))))) as Hsole
    by (apply sole_worker_spec; by exists result_, view).
  unfold beginPairing. apply runs_bind, runs_call. intros [answer|e] s4 H4; rewrite H1, <-app_assoc in H4; cbn [app] in H4; [|by eapply chooses_acted].
  apply runs_quiet; [apply quiet_expect|intros e s5 H5; rewrite H4 in H5; by eapply chooses_acted|]. intros m s5 H5 _. rewrite H4 in H5.
  unfold runs at 1. pose proof (quiet_decode (PairingFromProto sha256 (Some m)) s5) as H6.
  destruct (decode (PairingFromProto sha256 (Some m)) s5) as [[value|e] s6]; cbn [fst snd] in *; rewrite H5 in H6; [|by eapply chooses_acted].
  eapply chooses_rest; [apply quiet_lines|done..].
Qed.

(** C8 Where a command is left to choose, it acts exactly when there is one choice, once
    and on that. [confirm] without an ID confirms the pairing of the daemon's answer that
    waits and that this device has not confirmed, if no other is such; [reject] without an
    ID rejects the pairing that waits, if no other does; [connect nearby] opens a pairing
    with the nearby worker whose name no active paired worker has, if no other is such.
    With none or several, or if the listing fails, they act on nothing and fail. *)
Theorem choices_unambiguous connect s :
  (let '(r, s') := decision_command connect true None s in
     chooses (LOpListPairings (Some tt)) (sole_pairing LOpConfirmPairing to_confirm) s s' (if r then true else false)) ∧
  (let '(r, s') := decision_command connect false None s in
     chooses (LOpListPairings (Some tt)) (sole_pairing LOpRejectPairing to_reject) s s' (if r then true else false)) ∧
  (∀ selector, to_lower (trim_space selector) = "nearby" ∨ to_lower (trim_space selector) = "auto" →
     let '(r, s') := connect_command (Some selector) s in
     chooses (LOpListDevices (Some tt)) sole_worker s s' (if r then true else false)).
Proof.
  split_and!.
  - pose proof (decision_chooses connect true s) as Hc. unfold runs in Hc. by destruct (decision_command _ _ _ s).
  - pose proof (decision_chooses connect false s) as Hc. unfold runs in Hc. by destruct (decision_command _ _ _ s).
  - intros selector Hauto. assert (isConnectAutoSelector selector = true) as Ha by (apply bool_decide_eq_true; set_solver).
    pose proof (connect_chooses selector s Ha) as Hc. unfold runs in Hc. by destruct (connect_command _ s).
Qed.
End Devices.

(** ** Advice and action *)

Lemma key_roles a b : deviceDisplayKey a RoleWorker ≠ deviceDisplayKey b RoleOrchestrator.
Proof.
  intros E. apply (f_equal (λ s, reverse (bytes_of s))) in E. unfold deviceDisplayKey in E. revert E.
  rewrite !bytes_of_app, !reverse_app. vm_compute. congruence.
Qed.

Lemma filter_agree {A} (P Q : A → Prop) `{!∀ x, Decision (P x), !∀ x, Decision (Q x)} (l : list A) :
  (∀ x, x ∈ l → P x ↔ Q x) → filter P l = filter Q l.
Proof.
  induction l as [|x l IH]; intros Hl; [done|]. rewrite !filter_cons, IH by (intros y Hy; apply Hl; set_solver).
  specialize (Hl x ltac:(set_solver)). repeat case_decide; tauto.
Qed.

Lemma filter_indexed {A} (P : A → Prop) `{!∀ x, Decision (P x)} (f : nat → nat) (l : list A) :
  map snd (filter (λ p, P p.2) (imap (λ i x, (f i, x)) l)) = filter P l.
Proof.
  revert f. induction l as [|x l IH]; intros f; [done|]. cbn [imap]. rewrite !filter_cons. cbn [snd].
  destruct (decide (P x)); cbn [map snd]; by rewrite <-(IH (f ∘ S)).
Qed.

Lemma elem_of_indexed {A} (l : list A) i x : (i, x) ∈ imap pair l ↔ l !! i = Some x.
Proof.
  split; [intros (j & y & [= -> ->] & Hy)%elem_of_lookup_imap_1; done|]. intros Hx. apply list_elem_of_lookup_2 with i. by rewrite list_lookup_imap, Hx.
Qed.

Section Agreement.
Context (trusted : list (Peer * TrustedMessage)) (nearby : list nearbyDeviceView).
Let peers := map fst trusted.

(** No two active peers are shown with the same name and role. *)
Context (Hsingle : ∀ key, active_count peers key ≤ 1).
(** The roles of decoded peers. *)
Context (Hroles : Forall (λ p, PeerRoleOf p = RoleWorker ∨ PeerRoleOf p = RoleOrchestrator) peers).

Lemma unmatched_spec : unmatched trusted nearby = filter (λ view, active_count peers (view_key view) = 0) nearby.
Proof.
  unfold unmatched. fold peers. rewrite <-(filter_indexed (λ view, active_count peers (view_key view) = 0) id). f_equal.
  apply filter_agree. intros [i view] Hin. apply elem_of_indexed in Hin. cbn [fst snd]. rewrite active_count_zero. split.
  - intros Hnot p Hp Ha Hk. apply Hnot. apply list_elem_of_In, in_concat. exists (map fst (shown_nearby peers nearby p)). split.
    + apply (in_map (λ peer, map fst (shown_nearby peers nearby peer))), list_elem_of_In, Hp.
    + apply in_map_iff. exists (i, view). split; [done|]. apply list_elem_of_In. unfold shown_nearby. rewrite Ha. cbn [andb].
      rewrite bool_decide_true.
      * apply list_elem_of_filter. cbn [snd]. split; [done|]. by apply elem_of_indexed.
      * specialize (Hsingle (peer_key p)). destruct (active_count peers (peer_key p)) eqn:E; [|lia].
        by eapply (proj1 (active_count_zero _ _)) in E.
  - intros Hnone (l & Hl & Hi)%list_elem_of_In%in_concat. apply in_map_iff in Hl as (p & <- & Hp). apply in_map_iff in Hi as ([j view'] & Hj & Hm).
    cbn in Hj. subst j. apply list_elem_of_In in Hp, Hm. unfold shown_nearby in Hm. destruct (active p) eqn:Ha; [|by apply elem_of_nil in Hm].
    cbn [andb] in Hm. case_bool_decide; [|by apply elem_of_nil in Hm]. unfold key_matches in Hm.
    apply list_elem_of_filter in Hm as [Hk Hm]. apply elem_of_indexed in Hm. rewrite Hin in Hm. injection Hm as <-. by apply (Hnone p).
Qed.

(** For a worker, the active peers of its name are workers. *)
Lemma worker_count view : nv_role view = RoleWorker →
  active_count (filter (λ p, is_worker (PeerRoleOf p) = true) peers) (view_key view) = active_count peers (view_key view).
Proof.
  intros Hv. unfold active_count. f_equal. rewrite list_filter_filter. apply filter_agree. intros p Hp. rewrite Forall_forall in Hroles.
  split; [by intros [? _]|]. intros [Ha Hk]. split; [done|]. destruct (Hroles p Hp) as [Hr|Hr]; [unfold is_worker; by rewrite Hr, bool_decide_true|].
  unfold peer_key, view_key in Hk. rewrite Hr, Hv in Hk. symmetry in Hk. by apply key_roles in Hk.
Qed.

Lemma pairable_peers (l : list Peer) f g s :
  su_pairableWorkers (foldl (λ s peer, addTrustedPeer peer (f peer) (g peer) s) s l) = su_pairableWorkers s.
Proof.
  revert s. induction l as [|p l IH]; intros s; [done|]. cbn [foldl]. rewrite IH. destruct s. unfold addTrustedPeer.
  repeat case_match; done.
Qed.

Lemma pairable_views (l : list nearbyDeviceView) s :
  su_pairableWorkers (foldl (λ s view, addNearbyDevice view s) s l) = su_pairableWorkers s + length (filter (λ view, is_worker (nv_role view) = true) l).
Proof.
  revert s. induction l as [|v l IH]; intros s; [cbn; lia|]. cbn [foldl]. rewrite IH, filter_cons. destruct s. unfold addNearbyDevice.
  destruct (is_worker (nv_role v)) eqn:E; case_decide; try congruence; cbn; lia.
Qed.

Lemma advice_counts : su_pairableWorkers (devices_summary trusted nearby) = length (unpaired_workers peers nearby).
Proof.
  unfold devices_summary. rewrite pairable_views, (pairable_peers (map fst trusted) (dv_availability ∘ peer_view trusted nearby) (dv_path ∘ peer_view trusted nearby)).
  rewrite unmatched_spec, list_filter_filter. cbn [su_pairableWorkers Nat.add]. unfold unpaired_workers. f_equal. apply filter_agree.
  intros view Hin. split; intros [Hw Hc]; (split; [done|]); rewrite worker_count in *; try done; by apply bool_decide_eq_true_1 in Hw.
Qed.
End Agreement.

Section Advice.
Context `{U : UnicodeCase} (sha256 : bytes → bytes).

Lemma decoded_role m peer : TrustedPeerFromProto sha256 (Some m) = Ok peer → PeerRoleOf peer = RoleWorker ∨ PeerRoleOf peer = RoleOrchestrator.
Proof.
  unfold TrustedPeerFromProto. destruct (ParsePairID _); [|done]. destruct (Device_ParseID _); [|done]. cbn [mbind result_bind].
  unfold roleFromProto. destruct (tm_role m =? 1)%Z; [|destruct (tm_role m =? 2)%Z; [|done]]; cbn [mbind result_bind];
    (destruct (Peer_Validate _ _); [|done]); intros [= <-]; [by left|by right].
Qed.

Lemma trusted_peers result_ trusted : trusted_views sha256 result_ = Ok trusted →
  decode_all (λ m, TrustedPeerFromProto sha256 (Some m)) (dm_trusted_devices result_) = Ok (map fst trusted) ∧
  Forall (λ p, PeerRoleOf p = RoleWorker ∨ PeerRoleOf p = RoleOrchestrator) (map fst trusted).
Proof.
  unfold trusted_views. generalize (dm_trusted_devices result_) as messages. intros messages. revert trusted.
  induction messages as [|m messages IH]; intros trusted; cbn [decode_all]; [intros [= <-]; by split|].
  destruct (TrustedPeerFromProto sha256 (Some m)) as [peer|] eqn:Hp; [|done]. cbn [mbind result_bind].
  destruct (decode_all _ messages) as [rest|]; [|done]. cbn [mbind result_bind]. intros [= <-]. destruct (IH rest eq_refl) as [-> Hr]. split; [done|].
  constructor; [by eapply decoded_role|done].
Qed.

Lemma connect_lines s : devicesNextStepLines s =
    ["Connect the nearby worker: computehop connect nearby"; "Confirm on both devices: computehop connect confirm"] →
  su_pairableWorkers s = 1.
Proof. unfold devicesNextStepLines. repeat case_match; try done. intros _. by apply Nat.eqb_eq. Qed.

(** [computehop devices] counts as pairable exactly the workers among which [computehop
    connect nearby] chooses, so that its advice to connect the nearby worker is given only
    if that command finds one: provided no two active peers have the same name and role. *)
Theorem connect_advice_agrees result_ trusted nearby :
  trusted_views sha256 result_ = Ok trusted → nearby_views result_ = Ok nearby →
  (∀ key, active_count (map fst trusted) key ≤ 1) →
  ∃ workers, nearbyUnpairedWorkers sha256 result_ = Ok workers ∧
    length workers = su_pairableWorkers (devices_summary trusted nearby) ∧
    (devicesNextStepLines (devices_summary trusted nearby) =
       ["Connect the nearby worker: computehop connect nearby"; "Confirm on both devices: computehop connect confirm"] →
     ∃ worker, workers = [worker]).
Proof.
  intros Ht Hn Hone. destruct (trusted_peers result_ trusted Ht) as [Hp Hr].
  exists (unpaired_workers (map fst trusted) nearby). unfold nearbyUnpairedWorkers. rewrite Hp, Hn.
  pose proof (advice_counts trusted nearby Hone Hr) as Hc. split_and!; [done|by rewrite Hc|]. intros Hl%connect_lines. rewrite Hc in Hl.
  destruct (unpaired_workers _ _) as [|w [|? ?]]; try done. by exists w.
Qed.
End Advice.

Definition demo_nearby : NearbyMessage :=
  MkNearbyMessage "abcdefghijklmnopqrstuvwxya" "Gaming PC" 1 1 "" "den.local" ["192.168.1.7"] 7777 true 1 2 3 1 "" "" 0 0.
Definition demo_devices : DevicesMessage := MkDevicesMessage [demo_nearby] 2 "" 1 [].

Lemma connect_advice_agrees_witness : ∃ workers,
  nearbyUnpairedWorkers (U := ascii_case) (λ _, []) demo_devices = Ok workers ∧ ∃ worker, workers = [worker].
Proof.
  destruct (connect_advice_agrees (U := ascii_case) (λ _, []) demo_devices []
    [MkNearbyView "abcdefghijklmnopqrstuvwxya" "Gaming PC" RoleWorker "192.168.1.7:7777" "nearby" 2]) as (workers & Hw & _ & Ho);
    [reflexivity|vm_compute; reflexivity|intros key; apply le_S, le_n|].
  exists workers. split; [exact Hw|]. apply Ho. vm_compute. reflexivity.
Defined.

(** Two active workers of one name: the listing advises to connect the nearby worker, and
    [connect nearby] finds none. *)
Definition demo_peer (id : string) : Peer :=
  MkPeer id id [] [] "Gaming PC" RoleWorker TrustActive "" "" 0 0 [] [] None 1 2 None.
Definition demo_trusted (id : string) : Peer * TrustedMessage :=
  (demo_peer id, MkTrustedMessage id id [] "Gaming PC" 1 2 1 2 0 1 "" "" 0 "" "" 0 0 0 [] []).
Definition demo_view : nearbyDeviceView := MkNearbyView "p" "Gaming PC" RoleWorker "192.168.1.7:7777" "nearby" 2.
Example advice_of_twins :
  su_pairableWorkers (devices_summary [demo_trusted "a"; demo_trusted "b"] [demo_view]) = 1 ∧
  unpaired_workers [demo_peer "a"; demo_peer "b"] [demo_view] = [].
Proof. split; vm_compute; reflexivity. Qed.

(** A name that a device on the LAN may announce, and the command that [computehop doctor]
    prints for it: in the quotes of Go the shell still runs the name. *)
Definition ascii_print : UnicodePrint := λ _, false.
Example announced_name_runs :
  ValidateName "$(reboot)" = Ok tt ∧ sh_words ("computehop connect " +:+ Quote (H := ascii_print) "$(reboot)") = None ∧
  sh_words ("computehop connect " +:+ shellArg "$(reboot)") = Some ["computehop"; "connect"; "$(reboot)"].
Proof. split_and!; vm_compute; reflexivity. Qed.

(** A daemon with one nearby worker. *)
Definition nearby_answer (request : LocalRequest) : result LocalResponse :=
  match lq_operation request with
  | Some (LOpListDevices _) => Ok (MkLocalResponse 1 "" None (Some (LResListDevices demo_devices)))
  | _ => Err [IpcRemoteError LCodeInternal "unsupported"]
  end.
Definition nearby_daemon : Caller unit := λ request _, (nearby_answer request, tt).

Lemma choices_unambiguous_witness :
  let '(r, s') := connect_command (U := ascii_case) (H := ascii_print) (λ _, []) (H0 := nearby_daemon) (Ok tt) (Some " Nearby ") demo_session in
  chooses (Ok tt) (LOpListDevices (Some tt)) (sole_worker (U := ascii_case) (λ _, [])) demo_session s' (if r then true else false) ∧ length (ss_calls s') = 2.
Proof.
  destruct (choices_unambiguous (U := ascii_case) (H := ascii_print) (λ _, []) (H0 := nearby_daemon) (Ok tt) true demo_session) as (_ & _ & Hall).
  pose proof (Hall " Nearby " ltac:(left; vm_compute; reflexivity)) as Hc.
  assert (length (ss_calls (connect_command (U := ascii_case) (H := ascii_print) (λ _, []) (H0 := nearby_daemon) (Ok tt) (Some " Nearby ") demo_session).2) = 2)
    as Hl by (vm_compute; reflexivity).
  destruct (connect_command _ _ _) as [r s']. split; [exact Hc|exact Hl].
Defined.
